(* ===== verification/_CoqProject ===== *)
-Q . S2P
Prelude.v
BlockAlign.v
GoText.v
TextOrder.v
Identifiers.v
Encoding.v
RequestPolicy.v
ContentPolicy.v
ReadBudget.v
JournalRecord.v
BrokerJournal.v
BrokerRecovery.v
TextEdit.v
Lifecycle.v
Scheduler.v
WikiScanner.v
WikiMerge.v
Json.v
StrictJson.v
Markdown.v
MdCsf.v
MdWiki.v
WikiMd.v
WikiView.v
HttpScheduler.v
NetUrl.v
HttpClient.v
HttpStream.v
Promotion.v
Xml.v
Csf.v
Fragment.v
MdView.v
ViewBlocks.v
MdOpaque.v
MdTableMerge.v
MdMerge.v
MdMergeFacts.v
PullTypes.v
PullDisk.v
PullIntent.v
PullStore.v
PullLogic.v
PullPublish.v
PullFacts.v
PullPrepare.v
PullAdvance.v
PullExample.v
CorpusTypes.v
CorpusIndexer.v
CorpusDelta.v
CorpusRetention.v
CorpusDisk.v
CorpusLogic.v
CorpusStore.v
CorpusScan.v
CorpusPublish.v
CorpusApply.v
CorpusCleanup.v
CorpusExample.v
GraphTypes.v
Scmref.v
GraphExtract.v
GraphCollect.v
GraphResult.v
GraphTraversal.v
GraphLoop.v
GraphProjection.v
GraphShape.v
GraphAlias.v
GraphFollow.v
GraphMoved.v
GraphSteady.v
GraphExample.v
