(* ===== verification/Prelude.v ===== *)
(** * Verification of atl

    atl is a command-line client, an agent-facing server and an evaluation
    harness for Jira and Confluence, written in Go.  Everything an agent asks for
    crosses the same few parts, and those are what this library verifies:

    - text comes in as Markdown and leaves as storage format or Jira wiki markup
      (mdcsf, mdwiki), is read back as a view (wikimd, mirror), merged block by
      block into the body it was rendered from (wikimerge, wikiscanner, mdmerge,
      blockalign) or patched in place (textedit); a storage body is parsed,
      validated and reconciled with what the server holds (csf, fragment);
    - a pulled page or issue is published into the local mirror as one set of
      files, through an intent that a later run can resume or roll back after a
      crash (mirror/complete_pull*.go);
    - a write is admitted by layered content policies (contentpolicy), and its
      clearance travels in the request context (domain) to the last hop;
    - every HTTP attempt draws on hierarchical read budgets (domain), passes the
      attempt scheduler and the client's retry, redirect and token rules (httpx);
    - a brokered write is journalled before it is dispatched, so that a crash
      never sends it twice (brokerjournal);
    - a corpus of what was read is kept as sealed generations behind one pointer:
      indexed, compared with its predecessor, published, and pruned by reviewed
      retention plans (corpus);
    - the issues and pages around one issue are collected into a bounded graph
      that says which of its sources are complete (app/jira_graph*.go);
    - evaluation runs are planned, dispatched and recorded as hash-linked
      attempts, and a candidate is promoted on a decision over their metrics
      (agenteval/scheduler, agenteval/lifecycle, agenteval/promotion).

    ** Files

    One file per component; a Module of the file's name holds its data, its
    operations under the names of the Go code, then its lemmas, its properties
    and a [Demo] module with concrete inputs.  Paths are under src/internal/.

    - [Prelude]: [result] for Go's (value, error), guards, slices, loops with an
      early return, the case-analysis tactics.
    - [GoText], [Encoding]: unicode/utf8, the strings functions, hexadecimal and
      json.Marshal, as byte-level definitions.  [TextOrder]: lists sorted by a
      text.  [Identifiers]:
      domain/canonical_identifiers.go.
    - [BlockAlign]: blockalign/lcs.go.  [TextEdit]: textedit/textedit.go.
    - [RequestPolicy], [ReadBudget]: domain/request_policy.go.  [ContentPolicy]:
      contentpolicy/ and domain/write_authorization.go.
    - [JournalRecord]: the records, commitments and frames of
      adapter/brokerjournal/codec.go.  [BrokerJournal]: the journal itself
      (journal.go, recovery.go, reservations.go, transitions.go) over a model of
      disk.go.  [BrokerRecovery]: what an open leaves, on the disk and in memory.
    - [Lifecycle]: agenteval/lifecycle.  [Scheduler]: agenteval/scheduler.
      [Promotion]: agenteval/promotion.
    - [WikiScanner]: wikiscanner/scan.go.  [WikiMerge]: wikimerge/.
    - [Json], [StrictJson]: the token stream of encoding/json and
      strictjson/strictjson.go over it.
    - [Markdown]: the recognisers mdcsf and mdwiki share.  [MdCsf]: mdcsf/.
      [MdWiki]: mdwiki/.  [WikiMd]: wikimd/.  [WikiView]: renderer and converter
      together, and the merge instantiated with both.
    - [Xml]: the tokens of encoding/xml that csf reads.  [Csf]: csf/ (DOM, spans,
      validation, normalisation, reconciliation).  [Fragment]: fragment/.
      [MdView]: the Markdown view of a storage body, mirror/markdown.go.
    - [MdOpaque], [MdTableMerge], [MdMerge]: mdmerge/ (the stand-ins for what
      Markdown cannot hold, the merge of one table, the merge of a body);
      [MdMergeFacts] holds its theorems.  [ViewBlocks]: when the view of a body
      splits again into the views of its blocks.
    - The complete pull, mirror/complete_pull*.go with sidecar.go,
      artifact_path.go and safepath/: [PullTypes] (the records and artifact
      classes), [PullDisk] (the disk), [PullIntent] (the intent file and its
      checks), [PullStore] (publication, recovery, preparation, advance).
      [PullLogic] is the crash logic their proofs use; [PullPublish],
      [PullFacts], [PullPrepare] and [PullAdvance] the proofs; [PullExample]
      runs, with kills and recoveries, and the witnesses.
    - The corpus, corpus/: [CorpusTypes] (types.go, codec.go: records, validators,
      canonical bytes, digests), [CorpusIndexer] (indexer_v1_*.go),
      [CorpusDelta] (generation_delta_*.go), [CorpusRetention] (plans and their
      bytes), [CorpusDisk] (the calls on files), [CorpusStore] (store.go, scan.go,
      publication.go), [CorpusApply] (inventories, plans and applies over the
      disk).  [CorpusLogic] is the logic of runs that can fail or end at any call;
      [CorpusScan], [CorpusPublish] and [CorpusCleanup] hold the proofs about
      opening, publishing and applying; [CorpusExample] runs a whole life of a
      store and holds the witnesses.
    - The issue graph, app/jira_graph*.go and graph_extract.go over
      domain/graph.go and domain/development.go: [GraphTypes] (records, errors,
      identities, the selection of sources), [Scmref] (scmref/gitlab.go),
      [GraphExtract] (references in texts, URLs and values; failed remote links),
      [GraphCollect] (the projection of one issue), [GraphResult] (the result and
      its validation), [GraphTraversal] (options, merging, moved issues, the loop,
      Confluence metadata), [GraphProjection] (the compact projection).  [GraphLoop]
      proves that the loop ends; [GraphShape] (what one issue contributes),
      [GraphAlias] (names of moved issues), [GraphFollow] and [GraphMoved] (what a
      merge and a move keep true) lead to [GraphSteady], the completeness of a
      traversal; [GraphExample] runs it and holds the witnesses.
    - [HttpScheduler]: httpx/scheduler.go.  [NetUrl], [HttpClient]: the client
      (client.go, transport.go, retry.go, attempt.go, body.go, download.go).
      [HttpStream]: httpx/budget_stream.go and the idle watchdog of body.go.

    ** How the code is modelled

    Go strings are [list ascii] (bytes) and Go ints are [Z]; where the code can
    overflow the wrap-around is written out (retry waits, budgets, sequence
    numbers).  An error is a value of the component's error type.  Sequential
    code over a store is a state-and-error monad; concurrent code (budgets, the
    HTTP scheduler, streams) is a step function with one step per critical
    section or channel operation, and its properties hold in every reachable
    state, that is for every interleaving.  The outside world is a family of
    oracles indexed by a tick (clock, cancellation, random identifiers, crashes,
    one fault per disk operation, the order in which results arrive): a theorem
    quantifies over the oracles.

    The disk of the complete pull keeps, per directory, the listing a process
    sees and the older listings a power loss may bring back: an entry changed and
    not yet synced can survive or be lost, changes within one directory persist
    in order, and a synced directory is settled.  Every disk step meets an oracle
    that lets it succeed, fail it, or stop the process there, so "after a crash"
    is a run of the real code cut at any step, with any admissible disk left
    behind.

    The disk of the corpus is a map from paths to inodes, modes and contents;
    every call meets an oracle that lets it succeed, fail it, or stop the process
    before or after its effect.  What a loss of power brings back is not part of
    it.

    Fuel is used where the recursion follows the text in steps of several bytes
    (decoders, scanners, the passes of the converters).  It is always the length
    of the text plus a constant, every step consumes a byte, and no theorem has
    "enough fuel" as a hypothesis: the definitions pass their own.  The loop of
    the issue graph may run 2^48 times: an iteration replaces an item of the queue
    by at most 4096 items (the bound on edges) one level deeper, of at most three
    levels, and [traversal_returns] proves that the loop never runs out.

    Parameters, each an argument of the definitions that use it: SHA-256;
    [strings.ToUpper] in ContentPolicy; the host syntax of net/url, EqualFold and
    http.ParseTime in NetUrl and HttpClient; the JSON codec of stored records in
    JournalRecord, with its round-trip laws [JsonLaws]; the renderer and the
    converter inside WikiMerge, which WikiView instantiates with the real ones;
    the JSON codecs of the complete pull (intent, inventory, sidecar) with their
    round-trip laws, and the payload checks of the pull's callers, which only
    read; in the corpus the simple folding of runes, strings.ToLower and the
    decoders of the stored records, of which nothing is assumed; in the issue
    graph SHA-256, the letter cases beyond ASCII, url.Parse and URL.String, what
    the services answer to every read together with the context's error after it
    and the read budget's usage, and the order in which Go ranges over a map,
    which is some order of its entries.
    Where a theorem needs a law of a parameter the law is a hypothesis and the
    witness instantiates the parameter with a concrete function.

    ** What the theorems show

    - Journal: an operation is dispatched at most once whatever crashes, reopens
      and disk faults occur; two live operations never share a target; opening
      settles every interrupted operation, in memory and in the record files, and
      holds exactly the operations that have one; written slots never change; histories
      are bounded and frames are exact.
    - Policy: [Decide] is characterised by an independent specification, the
      preflight never refuses what the full decision would allow, and write
      clearance is only given after a complete allow.
    - Budgets and HTTP: no interleaving exceeds a maximum, children are charged to
      every ancestor, goroutines terminate and never deadlock; starts are paced,
      cooldowns respected, permits accounted; tokens stay with the configured
      host, calls are bounded, bodies whole or refused, streams settled.
    - Text: alignment is optimal; replacement touches exactly the matched regions;
      merging the unedited view of a page gives back the exact bytes when each of
      its blocks shows code or has a view that a blank line ends and that closes
      its own fences (other views need not split as they were joined), and a merge
      accounts for every block and reports every lost construct; converted Markdown is a
      serialised document in a fixed vocabulary, and converted paragraphs, lists,
      tables and code blocks are read back as what they were.  A storage body is
      accepted exactly when its tokens, in the wrapper the code puts around it,
      form a well-formed body; its spans cover it, and reconciliation keeps what is the server's.  A Markdown merge interleaves
      kept and converted blocks and loses nothing it does not report.
    - Complete pull: whatever step a publication is cut at, and whatever a loss of
      power brings back, every file holds what it held before or what it is to
      hold; a recovery that succeeds has published every file for good; staging
      touches nothing but private state; a destination somebody else changed is
      left alone; every stored path leads to a place inside the mirror.
    - Corpus: a generation that opens is on the disk exactly as its manifest says;
      publishing is atomic and follows the lineage; an indexed bundle is closed,
      and its receipt does not depend on the order of its parts; a delta has one
      exact record per identity; an accepted retention plan keeps exactly what
      its policy asks for, an apply touches nothing but the generations the plan
      lists however often it is cut off, and one that succeeds has removed them.
    - Issue graph: the traversal ends whatever issues link to each other and
      whatever the services answer; a graph that is not truncated followed every
      link it was to follow, also where issues moved meanwhile; a compact
      projection holds exactly the selected facts and hides no incomplete source.
    - Evaluation: a ledger's projection is a valid chain that only grows; a run
      dispatches in plan order and seals a valid report; a failing result cancels
      its siblings, which may end otherwise for it, so what arrival order cannot
      change is stated for closures that end alike while they are not cancelled:
      the dispatches, the started tasks and whether the run errs, and the whole
      report where it does not; a promotion decision is the one its rules give.
    - Strict JSON: [Validate] accepts exactly the texts that spell one value with
      distinct names, bounded nesting and paired surrogates.

    ** Not modelled

    Command-line parsing, terminal output and file-system glue (cli, cmd), the
    workflows of app but the issue graph, and of that its rendering as text, the
    REST payload mappings of the Jira and Confluence adapters, the
    servers (mcpserver, brokerserver, brokertransport), reflection-driven JSON
    decoding, the inspection commands and relocation planner of the complete
    pull, contention for the sidecar lock and the corpus lock, symbolic links,
    the capture, build and handoff of a corpus, TLS and transport construction,
    and the repository's build and documentation checks under scripts/.  Within a modelled component, what is
    left out (error texts, file descriptors, trace output) is said in the file's
    own comments. *)

From Stdlib Require Export Ascii.
From stdpp Require Export base list gmap strings numbers sorting.
From Stdlib Require Export Lia Bool.

(** ** Development-wide settings *)

(** Go strings are byte sequences.  Code that slices and rewrites text is
    modelled on [list ascii] (abbreviated [text]); code that only compares
    identifiers is modelled on [string]. *)
Abbreviation text := (list ascii).

Declare Scope atl_scope.
Delimit Scope atl_scope with atl.

(** [b"..."] is not available as a token, so byte literals go through [txt]. *)
Definition txt (s : string) : text := String.list_ascii_of_string s.

(** ** Results of fallible Go functions *)

(** A Go function returning [(T, error)] becomes a [result E T]. *)
Inductive result (E A : Type) : Type :=
| Ok (a : A)
| Err (e : E).
Arguments Ok {E A} a.
Arguments Err {E A} e.

Definition rbind {E A B} (m : result E A) (k : A → result E B) : result E B :=
  match m with
  | Ok a => k a
  | Err e => Err e
  end.

Notation "'let!' x ':=' m 'in' k" := (rbind m (λ x, k))
  (at level 10, x binder, m at level 100, k at level 200) : atl_scope.

Definition is_ok {E A} (m : result E A) : bool :=
  match m with Ok _ => true | Err _ => false end.

(** [guard_err c e] is the early return [if !c { return e }]. *)
Definition guard_err {E} (c : bool) (e : E) : result E unit :=
  if c then Ok tt else Err e.

(** ** Automation *)

Create HintDb atl discriminated.

(** Decompose boolean hypotheses coming from Go conditions. *)
Ltac bool_hyp H :=
  lazymatch type of H with
  | (_ && _) = true => apply andb_true_iff in H as [? ?]
  | (_ || _) = false => apply orb_false_iff in H as [? ?]
  | negb _ = true => apply negb_true_iff in H
  | negb _ = false => apply negb_false_iff in H
  | bool_decide _ = true => apply bool_decide_eq_true_1 in H
  | bool_decide _ = false => apply bool_decide_eq_false_1 in H
  | (_ =? _)%Z = true => apply Z.eqb_eq in H
  | (_ =? _)%Z = false => apply Z.eqb_neq in H
  | (_ <? _)%Z = true => apply Z.ltb_lt in H
  | (_ <? _)%Z = false => apply Z.ltb_ge in H
  | (_ <=? _)%Z = true => apply Z.leb_le in H
  | (_ <=? _)%Z = false => apply Z.leb_gt in H
  | (_ =? _)%nat = true => apply Nat.eqb_eq in H
  | (_ =? _)%nat = false => apply Nat.eqb_neq in H
  | (_ <? _)%nat = true => apply Nat.ltb_lt in H
  | (_ <? _)%nat = false => apply Nat.ltb_ge in H
  | (_ <=? _)%nat = true => apply Nat.leb_le in H
  | (_ <=? _)%nat = false => apply Nat.leb_gt in H
  end.

Ltac bool_hyps := repeat match goal with H : _ = _ |- _ => bool_hyp H end.

(** Case on the scrutinee of a match or conditional. *)
Ltac case_goal :=
  match goal with
  | |- context [match ?x with _ => _ end] =>
      lazymatch x with context [match _ with _ => _ end] => fail | _ => destruct x eqn:? end
  end.

Ltac case_hyp H :=
  lazymatch type of H with
  | context [match ?x with _ => _ end] => destruct x eqn:?; try discriminate H
  end.

(** Peel the successful branch of a chain of guards and binds. *)
Ltac inv_ok H :=
  repeat (first
    [ progress unfold guard_err in H
    | progress cbn [rbind] in H
    | match type of H with
      | rbind ?m _ = Ok _ => destruct m eqn:?; [|discriminate H]
      | (if ?c then _ else _) = Ok _ => destruct c eqn:?; try discriminate H
      | match ?x with _ => _ end = Ok _ => destruct x eqn:?; try discriminate H
      end ]);
  try (injection H as H; subst).

(** ** Generic list lemmas *)

Lemma existsb_elem {A} (f : A → bool) l : existsb f l = true ↔ ∃ x, x ∈ l ∧ f x = true.
Proof.
  rewrite existsb_exists. split; intros (x & Hin & Hf); exists x; split; try done;
    by apply list_elem_of_In.
Qed.

(** The bytes [s[i:j]] of a Go slice expression, [i ≤ j ≤ len(s)]. *)
Definition slice {A} (s : list A) (i j : nat) : list A := take (j - i) (drop i s).

Section slices.
Context {A : Type}.
Implicit Types s : list A.

Lemma slice_length s i j : j ≤ length s → length (slice s i j) = j - i.
Proof. intros. unfold slice. rewrite length_take, length_drop. lia. Qed.

Lemma slice_full s : slice s 0 (length s) = s.
Proof. unfold slice. rewrite drop_0, Nat.sub_0_r. by apply take_ge. Qed.

Lemma slice_nil s i j : j ≤ i → slice s i j = [].
Proof. intros. unfold slice. by replace (j - i) with 0 by lia. Qed.

(** Adjacent slices concatenate. *)
Lemma slice_app s i j k : i ≤ j → j ≤ k → slice s i j ++ slice s j k = slice s i k.
Proof.
  intros. unfold slice.
  replace (k - i) with ((j - i) + (k - j)) by lia.
  rewrite <- take_take_drop. rewrite drop_drop. by replace (i + (j - i)) with j by lia.
Qed.

Lemma slice_to_end s i : slice s i (length s) = drop i s.
Proof. unfold slice. apply take_ge. rewrite length_drop. lia. Qed.

Lemma slice_from_start s j : slice s 0 j = take j s.
Proof. unfold slice. by rewrite drop_0, Nat.sub_0_r. Qed.

Lemma slice_cover s i j : i ≤ j → j ≤ length s →
  take i s ++ slice s i j ++ drop j s = s.
Proof.
  intros. rewrite <- slice_from_start, <- (slice_to_end s j).
  rewrite (slice_app s i j (length s)) by lia.
  rewrite slice_app by lia. apply slice_full.
Qed.
End slices.

(** ** Loops with an early return *)

(** [for i, x := range l { if r := f(i, x); r != nil { return r } }] *)
Fixpoint first_some {A B} (f : nat → A → option B) (i : nat) (l : list A) : option B :=
  match l with
  | [] => None
  | x :: l' => match f i x with
               | Some r => Some r
               | None => first_some f (S i) l'
               end
  end.

Lemma first_some_None {A B} (f : nat → A → option B) i l :
  first_some f i l = None ↔ ∀ k x, l !! k = Some x → f (i + k) x = None.
Proof.
  revert i. induction l as [|x l IH]; intros i; simpl; [by split|].
  destruct (f i x) as [r|] eqn:Hf.
  - split; [done|]. intros H. specialize (H 0 x eq_refl). rewrite Nat.add_0_r in H. congruence.
  - rewrite IH. split.
    + intros H [|k] y ?; simplify_eq/=; [by rewrite Nat.add_0_r|].
      rewrite <- Nat.add_succ_comm. by apply H.
    + intros H k y ?. rewrite Nat.add_succ_comm. by apply H.
Qed.

Lemma first_some_Some {A B} (f : nat → A → option B) i l r :
  first_some f i l = Some r → ∃ k x, l !! k = Some x ∧ f (i + k) x = Some r.
Proof.
  revert i. induction l as [|x l IH]; intros i; simpl; [done|].
  destruct (f i x) as [r'|] eqn:Hf; intros H; simplify_eq.
  - exists 0, x. by rewrite Nat.add_0_r.
  - apply IH in H as (k & y & ? & ?). exists (S k), y. by rewrite <- Nat.add_succ_comm.
Qed.

(** The loops whose body ignores the index. *)
Lemma first_some_None_elem {A B} (f : A → option B) i l :
  first_some (λ _, f) i l = None ↔ ∀ x, x ∈ l → f x = None.
Proof.
  rewrite first_some_None. split.
  - intros H x (k & Hk)%list_elem_of_lookup. by apply (H k).
  - intros H k x Hk. apply H. by eapply list_elem_of_lookup_2.
Qed.

(** [slices.Contains] and the hand-written membership loops of the sources. *)
Fixpoint containsString (values : list string) (wanted : string) : bool :=
  match values with
  | [] => false
  | value :: values' => if bool_decide (value = wanted) then true else containsString values' wanted
  end.

Lemma containsString_spec values wanted : containsString values wanted = true ↔ wanted ∈ values.
Proof.
  induction values as [|v values IH]; simpl.
  - split; [done|]. by intros ?%not_elem_of_nil.
  - rewrite elem_of_cons, <- IH. case_bool_decide as Hv; [by split; [left|]|].
    split; [by right|]. by intros [->|?].
Qed.

Lemma containsString_false values wanted : containsString values wanted = false ↔ wanted ∉ values.
Proof. rewrite <- containsString_spec. by rewrite not_true_iff_false. Qed.
