(* ===== verification/BlockAlign.v ===== *)
(** * Bounded block alignment (internal/blockalign/lcs.go)

    [LCS] is the dynamic program with its budget check, its table filled from
    the bottom right corner and its deterministic traceback.  The theorems
    relate it to common subsequences: the matching it returns is strictly
    increasing, pairs equal blocks only, and is as long as any common
    subsequence of the inputs. *)

From S2P Require Import Prelude.

Module BlockAlign.
Local Open Scope Z_scope.

Definition maxLCSCells : Z := 1000000.
Definition maxLCSItems : Z := 100000.

(** The item checks come first, so the division never sees an oversized
    dimension. *)
Definition withinLCSBudget (n m : Z) : bool :=
  if (n <? 0) || (m <? 0) || (maxLCSItems <? n) || (maxLCSItems <? m) then false
  else n + 1 <=? Z.quot maxLCSCells (m + 1).

Definition fill (n : nat) : list Z := replicate n (-1).

Section lcs.
Context {A : Type} `{!EqDecision A}.
Implicit Types a b c : list A.

(** One row [dp[i]] of the table, from right to left, given [dp[i+1]]. *)
Fixpoint dp_row (x : A) (b : list A) (below : list Z) : list Z :=
  match b with
  | [] => [0]
  | y :: b' =>
      let right := dp_row x b' (tail below) in
      (if bool_decide (x = y) then hd 0 (tail below) + 1
       else if hd 0 right <=? hd 0 below then hd 0 below
       else hd 0 right) :: right
  end.

(** The table [dp], rows [0..n], [dp[i][j]] the LCS length of the suffixes. *)
Fixpoint dp_table (a b : list A) : list (list Z) :=
  match a with
  | [] => [replicate (S (length b)) 0]
  | x :: a' => let t := dp_table a' b in dp_row x b (hd [] t) :: t
  end.

Definition cell (dp : list (list Z)) (i j : nat) : Z :=
  default 0 (dp !! i ≫= λ row, row !! j).

(** The traceback loop; [None] only when the fuel runs out. *)
Fixpoint traceback (fuel : nat) (a b : list A) (dp : list (list Z)) (i j : nat)
    (matchA matchB : list Z) : option (list Z * list Z) :=
  match fuel with
  | O => None
  | S fuel =>
      match a !! i, b !! j with
      | Some x, Some y =>
          if bool_decide (x = y) && (cell dp i j =? cell dp (S i) (S j) + 1) then
            traceback fuel a b dp (S i) (S j)
              (<[i := Z.of_nat j]> matchA) (<[j := Z.of_nat i]> matchB)
          else if cell dp i (S j) <=? cell dp (S i) j then
            traceback fuel a b dp (S i) j matchA matchB
          else traceback fuel a b dp i (S j) matchA matchB
      | _, _ => Some (matchA, matchB)
      end
  end.

(** [LCS] returns the two match vectors and the completeness flag. *)
Definition LCS (a b : list A) : option (list Z * list Z * bool) :=
  let n := length a in
  let m := length b in
  if negb (withinLCSBudget (Z.of_nat n) (Z.of_nat m)) then Some ([], [], false)
  else
    let matchA := fill n in
    let matchB := fill m in
    if bool_decide (n = 0%nat) || bool_decide (m = 0%nat) then Some (matchA, matchB, true)
    else
      let dp := dp_table a b in
      match traceback (S (n + m)) a b dp 0 0 matchA matchB with
      | Some (mA, mB) => Some (mA, mB, true)
      | None => None
      end.

(** ** Reference length of a longest common subsequence *)

Fixpoint lcs_len (a : list A) : list A → nat :=
  match a with
  | [] => λ _, 0%nat
  | x :: a' =>
      fix go b := match b with
        | [] => 0%nat
        | y :: b' => if decide (x = y) then S (lcs_len a' b')
                     else Nat.max (lcs_len a' b) (go b')
        end
  end.

Lemma lcs_len_nil_r a : lcs_len a [] = 0%nat.
Proof. by destruct a. Qed.

Lemma lcs_len_cons x a y b : lcs_len (x :: a) (y :: b) =
  if decide (x = y) then S (lcs_len a b)
  else Nat.max (lcs_len a (y :: b)) (lcs_len (x :: a) b).
Proof. done. Qed.

Lemma sublist_tail c x a : c `sublist_of` x :: a → tail c `sublist_of` a.
Proof. inversion 1; subst; simpl; [done|]. destruct c as [|h c]; simpl; [done|].
  trans (h :: c); [by apply sublist_cons|done]. Qed.

Lemma sublist_skip_ne h c x a : h ≠ x → h :: c `sublist_of` x :: a → h :: c `sublist_of` a.
Proof. intros ?. by inversion 1; subst. Qed.

Lemma lcs_len_bound a b c :
  c `sublist_of` a → c `sublist_of` b → (length c ≤ lcs_len a b)%nat.
Proof.
  revert b c. induction a as [|x a IHa]; intros b c Ha Hb.
  { apply sublist_nil_r in Ha as ->. simpl; lia. }
  induction b as [|y b IHb].
  { apply sublist_nil_r in Hb as ->. simpl; lia. }
  rewrite lcs_len_cons. destruct c as [|h c]; [simpl; lia|].
  destruct (decide (x = y)) as [<-|Hne].
  - apply sublist_tail in Ha, Hb. simpl in *. specialize (IHa _ _ Ha Hb). lia.
  - destruct (decide (h = x)) as [->|].
    + specialize (IHb (sublist_skip_ne _ _ _ _ Hne Hb)). lia.
    + specialize (IHa (y :: b) _ (sublist_skip_ne _ _ _ _ n Ha) Hb). lia.
Qed.

(** ** The table holds the reference lengths *)

Fixpoint row_ref (a b : list A) : list Z :=
  Z.of_nat (lcs_len a b) :: match b with [] => [] | _ :: b' => row_ref a b' end.

Lemma row_ref_hd a b : hd 0 (row_ref a b) = Z.of_nat (lcs_len a b).
Proof. by destruct b. Qed.

Lemma row_ref_lookup a b j : (j ≤ length b)%nat →
  row_ref a b !! j = Some (Z.of_nat (lcs_len a (drop j b))).
Proof.
  revert j. induction b as [|y b IH]; intros [|j] Hj; simpl in *; try done; [lia|].
  apply IH. lia.
Qed.

Lemma row_ref_nil b : row_ref [] b = replicate (S (length b)) 0.
Proof. induction b as [|y b IH]; [done|]. simpl. by rewrite IH. Qed.

Lemma dp_row_ref x a b : dp_row x b (row_ref a b) = row_ref (x :: a) b.
Proof.
  induction b as [|y b IH]; [done|].
  change (tail (row_ref a (y :: b))) with (row_ref a b).
  cbn [dp_row]. change (tail (row_ref a (y :: b))) with (row_ref a b).
  rewrite IH, !row_ref_hd. change (row_ref (x :: a) (y :: b)) with
    (Z.of_nat (lcs_len (x :: a) (y :: b)) :: row_ref (x :: a) b).
  rewrite lcs_len_cons. f_equal. case_bool_decide; case_decide; try done; [lia|].
  destruct (Z.leb_spec (Z.of_nat (lcs_len (x :: a) b)) (Z.of_nat (lcs_len a (y :: b)))); lia.
Qed.

Lemma dp_table_lookup a b i : (i ≤ length a)%nat →
  dp_table a b !! i = Some (row_ref (drop i a) b).
Proof.
  revert i. induction a as [|x a IH]; intros i Hi.
  - assert (i = 0%nat) as -> by (simpl in Hi; lia). simpl. by rewrite row_ref_nil.
  - assert (hd [] (dp_table a b) = row_ref a b) as Hhd.
    { specialize (IH 0%nat ltac:(lia)). rewrite drop_0 in IH.
      destruct (dp_table a b); simplify_eq/=; done. }
    destruct i as [|i]; simpl.
    + by rewrite Hhd, dp_row_ref.
    + apply IH. simpl in Hi. lia.
Qed.

Lemma cell_ref a b i j : (i ≤ length a)%nat → (j ≤ length b)%nat →
  cell (dp_table a b) i j = Z.of_nat (lcs_len (drop i a) (drop j b)).
Proof.
  intros. unfold cell. rewrite dp_table_lookup by done. simpl.
  by rewrite row_ref_lookup.
Qed.

(** ** The traceback *)

(** [chain a b i j ps]: a strictly increasing list of index pairs at or after
    [(i, j)] that pairs equal elements. *)
Inductive chain (a b : list A) : nat → nat → list (nat * nat) → Prop :=
| chain_nil i j : chain a b i j []
| chain_cons i j i' j' x ps :
    (i ≤ i')%nat → (j ≤ j')%nat → a !! i' = Some x → b !! j' = Some x →
    chain a b (S i') (S j') ps → chain a b i j ((i', j') :: ps).

Lemma chain_weaken a b i j i' j' ps :
  (i' ≤ i)%nat → (j' ≤ j)%nat → chain a b i j ps → chain a b i' j' ps.
Proof. intros ?? H. destruct H; econstructor; eauto; lia. Qed.

(** Writing a chain into the match vectors. *)
Definition write_matches (ps : list (nat * nat)) (mA mB : list Z) : list Z * list Z :=
  foldl (λ '(mA, mB) '(i, j), (<[i := Z.of_nat j]> mA, <[j := Z.of_nat i]> mB)) (mA, mB) ps.

Lemma traceback_ref fuel a b i j mA mB :
  (i ≤ length a)%nat → (j ≤ length b)%nat →
  (length a - i + (length b - j) < fuel)%nat →
  ∃ ps, traceback fuel a b (dp_table a b) i j mA mB = Some (write_matches ps mA mB) ∧
        chain a b i j ps ∧ length ps = lcs_len (drop i a) (drop j b).
Proof.
  revert i j mA mB. induction fuel as [|fuel IH]; intros i j mA mB Hi Hj Hf; [lia|].
  cbn [traceback]. destruct (a !! i) as [x|] eqn:Hx; cycle 1.
  { apply lookup_ge_None in Hx. exists []. rewrite (drop_ge a) by lia.
    split_and!; [done|constructor|done]. }
  destruct (b !! j) as [y|] eqn:Hy; cycle 1.
  { apply lookup_ge_None in Hy. exists []. rewrite (drop_ge b), lcs_len_nil_r by lia.
    split_and!; [done|constructor|done]. }
  pose proof (lookup_lt_Some _ _ _ Hx). pose proof (lookup_lt_Some _ _ _ Hy).
  rewrite !cell_ref by lia.
  rewrite (drop_S _ _ _ Hx), (drop_S _ _ _ Hy), lcs_len_cons.
  case_bool_decide as Hxy.
  - rewrite decide_True by done. rewrite (proj2 (Z.eqb_eq _ _)) by lia. simpl.
    destruct (IH (S i) (S j) (<[i := Z.of_nat j]> mA) (<[j := Z.of_nat i]> mB))
      as (ps & Htr & Hch & Hlen); [lia..|].
    exists ((i, j) :: ps). rewrite Htr. subst y. split_and!; [done| |simpl; lia].
    econstructor; eauto.
  - rewrite decide_False by done. cbn [andb].
    destruct (Z.leb_spec (Z.of_nat (lcs_len (x :: drop (S i) a) (drop (S j) b)))
                         (Z.of_nat (lcs_len (drop (S i) a) (y :: drop (S j) b)))).
    + destruct (IH (S i) j mA mB) as (ps & Htr & Hch & Hlen); [lia..|].
      exists ps. rewrite Htr. rewrite (drop_S _ _ _ Hy) in Hlen.
      split_and!; [done| |lia]. eapply chain_weaken; [| |exact Hch]; lia.
    + destruct (IH i (S j) mA mB) as (ps & Htr & Hch & Hlen); [lia..|].
      exists ps. rewrite Htr. rewrite (drop_S _ _ _ Hx) in Hlen.
      split_and!; [done| |lia]. eapply chain_weaken; [| |exact Hch]; lia.
Qed.

(** ** Reading the match vectors back *)

Lemma chain_ge a b i j ps i' j' :
  chain a b i j ps → (i', j') ∈ ps → (i ≤ i')%nat ∧ (j ≤ j')%nat.
Proof.
  induction 1 as [|i j i0 j0 x ps ??? ? _ IH]; [by intros ?%not_elem_of_nil|].
  rewrite elem_of_cons. intros [[= -> ->]|?]; [lia|]. destruct IH; [done|lia].
Qed.

Lemma chain_elem a b i j ps i' j' :
  chain a b i j ps → (i', j') ∈ ps → ∃ x, a !! i' = Some x ∧ b !! j' = Some x.
Proof.
  induction 1 as [|i j i0 j0 x ps ??? ? _ IH]; [by intros ?%not_elem_of_nil|].
  rewrite elem_of_cons. intros [[= -> ->]|?]; eauto.
Qed.

Lemma write_matches_length ps mA mB :
  length (write_matches ps mA mB).1 = length mA ∧ length (write_matches ps mA mB).2 = length mB.
Proof.
  revert mA mB. induction ps as [|[i j] ps IH]; intros; simpl; [done|].
  unfold write_matches in *. simpl. destruct (IH (<[i:=Z.of_nat j]> mA) (<[j:=Z.of_nat i]> mB)) as [-> ->].
  by rewrite !length_insert.
Qed.

Lemma write_matches_lookup a b i0 j0 ps mA mB k :
  chain a b i0 j0 ps → length mA = length a → length mB = length b →
  (write_matches ps mA mB).1 !! k =
    match list_find (λ p, p.1 = k) ps with
    | Some (_, (_, j)) => Some (Z.of_nat j) | None => mA !! k end ∧
  (write_matches ps mA mB).2 !! k =
    match list_find (λ p, p.2 = k) ps with
    | Some (_, (i, _)) => Some (Z.of_nat i) | None => mB !! k end.
Proof.
  intros Hch. revert mA mB.
  induction Hch as [|i j i' j' x ps Hi Hj Hx Hy Hch IH]; intros mA mB HA HB; [done|].
  unfold write_matches in *. cbn [foldl list_find fmap fst snd].
  destruct (IH (<[i':=Z.of_nat j']> mA) (<[j':=Z.of_nat i']> mB)) as [-> ->];
    [by rewrite length_insert..|]. clear IH.
  apply lookup_lt_Some in Hx, Hy.
  split; case_decide as Hk; simpl in Hk.
  - subst k. destruct (list_find _ ps) as [[q [i2 j2]]|] eqn:Hfind; simpl.
    + apply list_find_Some in Hfind as (Hq & Hk & _). simplify_eq/=.
      apply list_elem_of_lookup_2 in Hq. apply (chain_ge _ _ _ _ _ _ _ Hch) in Hq. lia.
    + apply list_lookup_insert_eq. lia.
  - destruct (list_find _ ps) as [[q [i2 j2]]|]; simpl; [done|].
    by rewrite list_lookup_insert_ne.
  - subst k. destruct (list_find _ ps) as [[q [i2 j2]]|] eqn:Hfind; simpl.
    + apply list_find_Some in Hfind as (Hq & Hk & _). simplify_eq/=.
      apply list_elem_of_lookup_2 in Hq. apply (chain_ge _ _ _ _ _ _ _ Hch) in Hq. lia.
    + apply list_lookup_insert_eq. lia.
  - destruct (list_find _ ps) as [[q [i2 j2]]|]; simpl; [done|].
    by rewrite list_lookup_insert_ne.
Qed.

(** ** Equal inputs align on the diagonal *)

Lemma traceback_diag fuel a i mA mB :
  (i ≤ length a)%nat → (length a - i < fuel)%nat →
  traceback fuel a a (dp_table a a) i i mA mB =
    Some (write_matches ((λ k, (k, k)) <$> seq i (length a - i)) mA mB).
Proof.
  revert i mA mB. induction fuel as [|fuel IH]; intros i mA mB Hi Hf; [lia|].
  cbn [traceback]. destruct (a !! i) as [x|] eqn:Hx.
  - pose proof (lookup_lt_Some _ _ _ Hx).
    rewrite !cell_ref, (drop_S _ _ _ Hx), lcs_len_cons, decide_True by (done || lia).
    rewrite bool_decide_eq_true_2, (proj2 (Z.eqb_eq _ _)) by (done || lia). cbn [andb].
    rewrite IH by lia. replace (length a - i)%nat with (S (length a - S i)) by lia. done.
  - apply lookup_ge_None in Hx. by replace (length a - i)%nat with 0%nat by lia.
Qed.

Lemma write_diag_skip n i i' mA mB : (i < i')%nat →
  (write_matches ((λ k, (k, k)) <$> seq i' n) mA mB).1 !! i = mA !! i ∧
  (write_matches ((λ k, (k, k)) <$> seq i' n) mA mB).2 !! i = mB !! i.
Proof.
  revert i' mA mB. induction n as [|n IH]; intros i' mA mB Hi; [done|].
  change (write_matches ((λ k, (k, k)) <$> seq i' (S n)) mA mB) with
    (write_matches ((λ k, (k, k)) <$> seq (S i') n) (<[i' := Z.of_nat i']> mA) (<[i' := Z.of_nat i']> mB)).
  destruct (IH (S i') (<[i' := Z.of_nat i']> mA) (<[i' := Z.of_nat i']> mB)) as [-> ->]; [lia|].
  by rewrite !list_lookup_insert_ne by lia.
Qed.

Lemma write_diag_lookup n i mA mB k :
  length mA = (i + n)%nat → length mB = (i + n)%nat → (i ≤ k < i + n)%nat →
  (write_matches ((λ k, (k, k)) <$> seq i n) mA mB).1 !! k = Some (Z.of_nat k) ∧
  (write_matches ((λ k, (k, k)) <$> seq i n) mA mB).2 !! k = Some (Z.of_nat k).
Proof.
  revert i mA mB. induction n as [|n IH]; intros i mA mB HA HB Hk; [lia|].
  change (write_matches ((λ k, (k, k)) <$> seq i (S n)) mA mB) with
    (write_matches ((λ k, (k, k)) <$> seq (S i) n) (<[i := Z.of_nat i]> mA) (<[i := Z.of_nat i]> mB)).
  destruct (decide (k = i)) as [->|]; [|apply IH; rewrite ?length_insert; lia].
  destruct (write_diag_skip n i (S i) (<[i := Z.of_nat i]> mA) (<[i := Z.of_nat i]> mB)) as [-> ->]; [lia|].
  by rewrite !list_lookup_insert_eq by lia.
Qed.

(** What the callers rely on: vectors of the right length, every recorded
    match pairs equal elements, and the two vectors are mutually inverse. *)
Record matching (a b : list A) (mA mB : list Z) : Prop := {
  matching_lenA : length mA = length a;
  matching_lenB : length mB = length b;
  matching_fwd : ∀ i z, mA !! i = Some z → z = -1 ∨
    ∃ j x, z = Z.of_nat j ∧ a !! i = Some x ∧ b !! j = Some x ∧ mB !! j = Some (Z.of_nat i);
  matching_bwd : ∀ j z, mB !! j = Some z → z = -1 ∨
    ∃ i x, z = Z.of_nat i ∧ a !! i = Some x ∧ b !! j = Some x ∧ mA !! i = Some (Z.of_nat j);
  matching_mono : ∀ i i' j j', mA !! i = Some (Z.of_nat j) → mA !! i' = Some (Z.of_nat j') →
    (i < i')%nat → (j < j')%nat
}.

Lemma chain_order a b i j ps i1 j1 i2 j2 :
  chain a b i j ps → (i1, j1) ∈ ps → (i2, j2) ∈ ps →
  (i1 = i2 ∧ j1 = j2) ∨ (i1 < i2 ∧ j1 < j2)%nat ∨ (i2 < i1 ∧ j2 < j1)%nat.
Proof.
  induction 1 as [|i j i0 j0 x ps ??? ? Hch IH]; [by intros ?%not_elem_of_nil|].
  rewrite !elem_of_cons. intros [[= -> ->]|Hp1] [[= -> ->]|Hp2]; auto.
  - apply (chain_ge _ _ _ _ _ _ _ Hch) in Hp2. lia.
  - apply (chain_ge _ _ _ _ _ _ _ Hch) in Hp1. lia.
Qed.

Lemma list_find_fst_chain a b i j ps i1 j1 : chain a b i j ps → (i1, j1) ∈ ps →
  ∃ q, list_find (λ p : nat * nat, p.1 = i1) ps = Some (q, (i1, j1)).
Proof.
  intros Hch Hin. destruct (list_find _ ps) as [[q [i2 j2]]|] eqn:Hf.
  - apply list_find_Some in Hf as (Hq & Hk & _). simpl in Hk. subst i2.
    apply list_elem_of_lookup_2 in Hq.
    destruct (chain_order _ _ _ _ _ _ _ _ _ Hch Hin Hq) as [[_ ->]|]; [eauto|lia].
  - exfalso. apply list_find_None in Hf. rewrite Forall_forall in Hf. by apply (Hf _ Hin).
Qed.

Lemma list_find_snd_chain a b i j ps i1 j1 : chain a b i j ps → (i1, j1) ∈ ps →
  ∃ q, list_find (λ p : nat * nat, p.2 = j1) ps = Some (q, (i1, j1)).
Proof.
  intros Hch Hin. destruct (list_find _ ps) as [[q [i2 j2]]|] eqn:Hf.
  - apply list_find_Some in Hf as (Hq & Hk & _). simpl in Hk. subst j2.
    apply list_elem_of_lookup_2 in Hq.
    destruct (chain_order _ _ _ _ _ _ _ _ _ Hch Hin Hq) as [[-> _]|]; [eauto|lia].
  - exfalso. apply list_find_None in Hf. rewrite Forall_forall in Hf. by apply (Hf _ Hin).
Qed.

Lemma fill_lookup n k z : fill n !! k = Some z → z = -1.
Proof. unfold fill. by intros [-> _]%lookup_replicate. Qed.

Lemma write_fwd a b ps k z : chain a b 0 0 ps →
  (write_matches ps (fill (length a)) (fill (length b))).1 !! k = Some z →
  z = -1 ∨ ∃ j, z = Z.of_nat j ∧ (k, j) ∈ ps.
Proof.
  intros Hch. destruct (write_matches_lookup a b 0 0 ps (fill (length a)) (fill (length b)) k Hch)
    as [-> _]; [by apply length_replicate..|].
  destruct (list_find _ ps) as [[q [i j]]|] eqn:Hf; [|by intros ?%fill_lookup; left].
  intros [= <-]. apply list_find_Some in Hf as (Hq & Hk & _). simpl in Hk. subst i.
  right. exists j. split; [done|]. by eapply list_elem_of_lookup_2.
Qed.

Lemma write_bwd a b ps k z : chain a b 0 0 ps →
  (write_matches ps (fill (length a)) (fill (length b))).2 !! k = Some z →
  z = -1 ∨ ∃ i, z = Z.of_nat i ∧ (i, k) ∈ ps.
Proof.
  intros Hch. destruct (write_matches_lookup a b 0 0 ps (fill (length a)) (fill (length b)) k Hch)
    as [_ ->]; [by apply length_replicate..|].
  destruct (list_find _ ps) as [[q [i j]]|] eqn:Hf; [|by intros ?%fill_lookup; left].
  intros [= <-]. apply list_find_Some in Hf as (Hq & Hk & _). simpl in Hk. subst j.
  right. exists i. split; [done|]. by eapply list_elem_of_lookup_2.
Qed.

Lemma write_matching a b ps : chain a b 0 0 ps →
  matching a b (write_matches ps (fill (length a)) (fill (length b))).1
               (write_matches ps (fill (length a)) (fill (length b))).2.
Proof.
  intros Hch.
  destruct (write_matches_length ps (fill (length a)) (fill (length b))) as [HA HB].
  assert (∀ i j, (i, j) ∈ ps →
    (write_matches ps (fill (length a)) (fill (length b))).1 !! i = Some (Z.of_nat j) ∧
    (write_matches ps (fill (length a)) (fill (length b))).2 !! j = Some (Z.of_nat i)) as Hread.
  { intros i j Hin. split.
    - destruct (write_matches_lookup a b 0 0 ps (fill (length a)) (fill (length b)) i Hch)
        as [-> _]; [by apply length_replicate..|].
      by destruct (list_find_fst_chain _ _ _ _ _ _ _ Hch Hin) as [q ->].
    - destruct (write_matches_lookup a b 0 0 ps (fill (length a)) (fill (length b)) j Hch)
        as [_ ->]; [by apply length_replicate..|].
      by destruct (list_find_snd_chain _ _ _ _ _ _ _ Hch Hin) as [q ->]. }
  constructor.
  - rewrite HA. apply length_replicate.
  - rewrite HB. apply length_replicate.
  - intros i z [->|(j & -> & Hin)]%write_fwd; [by left| |done].
    right. destruct (chain_elem _ _ _ _ _ _ _ Hch Hin) as (x & Hx & Hy).
    exists j, x. split_and!; try done. by apply Hread.
  - intros j z [->|(i & -> & Hin)]%write_bwd; [by left| |done].
    right. destruct (chain_elem _ _ _ _ _ _ _ Hch Hin) as (x & Hx & Hy).
    exists i, x. split_and!; try done. by apply Hread.
  - intros i i' j j' [?|(j1 & ?%Nat2Z.inj & H1)]%write_fwd [?|(j2 & ?%Nat2Z.inj & H2)]%write_fwd Hlt;
      try done; [lia..|]. subst.
    destruct (chain_order _ _ _ _ _ _ _ _ _ Hch H1 H2) as [[-> ->]|]; lia.
Qed.

(** The number of matched positions recorded in a match vector. *)
Definition matched (m : list Z) : nat := length (filter (λ z, 0 ≤ z) m).

Lemma matched_insert m i z : m !! i = Some (-1) → 0 ≤ z →
  matched (<[i := z]> m) = S (matched m).
Proof.
  intros Hi Hz. unfold matched. pose proof (lookup_lt_Some _ _ _ Hi).
  rewrite insert_take_drop by done. rewrite <- (take_drop_middle m i (-1) Hi) at 3.
  rewrite !filter_app, !filter_cons, decide_True, decide_False by lia.
  rewrite !length_app. simpl. lia.
Qed.

Lemma matched_write a b i j ps mA mB :
  chain a b i j ps → length mA = length a →
  (∀ k, (i ≤ k < length a)%nat → mA !! k = Some (-1)) →
  matched (write_matches ps mA mB).1 = (matched mA + length ps)%nat.
Proof.
  intros Hch. revert mA mB.
  induction Hch as [|i j i' j' x ps Hi Hj Hx Hy Hch IH]; intros mA mB HA Hfree; simpl; [lia|].
  pose proof (lookup_lt_Some _ _ _ Hx).
  unfold write_matches in *. cbn [foldl]. rewrite IH.
  - rewrite matched_insert by (lia || (apply Hfree; lia)). lia.
  - by rewrite length_insert.
  - intros k Hk. rewrite list_lookup_insert_ne by lia. apply Hfree. lia.
Qed.

Lemma matched_fill n : matched (fill n) = 0%nat.
Proof. unfold matched, fill. induction n as [|n IH]; [done|]. simpl. rewrite filter_cons, decide_False by lia. done. Qed.

(** ** The whole routine *)

Lemma LCS_unfold a b : withinLCSBudget (Z.of_nat (length a)) (Z.of_nat (length b)) = true →
  ∃ ps, LCS a b = Some ((write_matches ps (fill (length a)) (fill (length b))).1,
                        (write_matches ps (fill (length a)) (fill (length b))).2, true) ∧
        chain a b 0 0 ps ∧ length ps = lcs_len a b.
Proof.
  intros Hb. unfold LCS. rewrite Hb. cbn [negb].
  destruct (traceback_ref (S (length a + length b)) a b 0 0 (fill (length a)) (fill (length b)))
    as (ps & Htr & Hch & Hlen); [lia..|]. rewrite !drop_0 in Hlen.
  destruct (bool_decide (length a = 0%nat) || bool_decide (length b = 0%nat)) eqn:He.
  - assert (ps = []) as ->.
    { apply nil_length_inv. rewrite Hlen. apply orb_true_iff in He as [He|He];
        apply bool_decide_eq_true_1, nil_length_inv in He; subst; [done|apply lcs_len_nil_r]. }
    by exists [].
  - exists ps. rewrite Htr. by destruct (write_matches ps _ _).
Qed.

Lemma LCS_matching a b mA mB : LCS a b = Some (mA, mB, true) → matching a b mA mB.
Proof.
  intros HL. destruct (withinLCSBudget (Z.of_nat (length a)) (Z.of_nat (length b))) eqn:Hb.
  - destruct (LCS_unfold a b Hb) as (ps & HL' & Hch & _). rewrite HL' in HL. simplify_eq.
    by apply write_matching.
  - unfold LCS in HL. rewrite Hb in HL. simplify_eq/=.
Qed.

(** Aligning a list with itself matches every position with itself. *)
Lemma LCS_self a : withinLCSBudget (Z.of_nat (length a)) (Z.of_nat (length a)) = true →
  ∃ mA mB, LCS a a = Some (mA, mB, true) ∧
    ∀ k, (k < length a)%nat → mA !! k = Some (Z.of_nat k) ∧ mB !! k = Some (Z.of_nat k).
Proof.
  intros Hb. unfold LCS. rewrite Hb. cbn [negb].
  destruct (bool_decide (length a = 0%nat) || bool_decide (length a = 0%nat)) eqn:He.
  - eexists _, _. split; [done|]. intros k Hk.
    apply orb_true_iff in He as [He|He]; apply bool_decide_eq_true_1 in He; lia.
  - rewrite traceback_diag by lia. rewrite Nat.sub_0_r.
    destruct (write_matches _ _ _) as [mA mB] eqn:Hw. exists mA, mB. split; [done|]. intros k Hk.
    pose proof (write_diag_lookup (length a) 0 (fill (length a)) (fill (length a)) k) as Hl.
    rewrite Hw in Hl. apply Hl; [by apply length_replicate..|lia].
Qed.
End lcs.

Lemma withinLCSBudget_spec n m : withinLCSBudget n m = true ↔
  0 ≤ n ≤ maxLCSItems ∧ 0 ≤ m ≤ maxLCSItems ∧ (n + 1) * (m + 1) ≤ maxLCSCells.
Proof.
  unfold withinLCSBudget, maxLCSCells, maxLCSItems.
  destruct ((n <? 0) || (m <? 0) || (100000 <? n) || (100000 <? m)) eqn:Hg.
  - split; [done|]. intros. exfalso. lia.
  - bool_hyps. rewrite Z.leb_le, Z.quot_div_nonneg by lia. split.
    + intros. split_and!; try lia. pose proof (Z.mul_div_le 1000000 (m + 1)). nia.
    + intros (? & ? & ?). apply Z.div_le_lower_bound; lia.
Qed.

(** C39: for every pair of block lists within the budget, [LCS] returns (its
    traceback never runs out of steps) vectors that form a matching: same
    lengths as the inputs, equal blocks paired, mutually inverse, strictly
    increasing; and the number of matched blocks is maximal among all common
    subsequences. *)
Theorem LCS_optimal (a b : list string) :
  withinLCSBudget (Z.of_nat (length a)) (Z.of_nat (length b)) = true →
  ∃ mA mB, LCS a b = Some (mA, mB, true) ∧ matching a b mA mB ∧
    ∀ c, c `sublist_of` a → c `sublist_of` b → (length c ≤ matched mA)%nat.
Proof.
  intros Hb. destruct (LCS_unfold a b Hb) as (ps & HL & Hch & Hlen).
  eexists _, _. split; [exact HL|]. split; [by apply write_matching|].
  intros c Ha Hbc. rewrite (matched_write a b 0 0 ps);
    [|done|apply length_replicate|intros k Hk; apply lookup_replicate; split; [done|lia]].
  rewrite matched_fill, Hlen. by apply lcs_len_bound.
Qed.

Lemma LCS_optimal_witness :
  ∃ mA mB, LCS ["a"; "b"; "c"]%string ["a"; "x"; "c"]%string = Some (mA, mB, true) ∧
    matching ["a"; "b"; "c"]%string ["a"; "x"; "c"]%string mA mB ∧
    ∀ c, c `sublist_of` ["a"; "b"; "c"]%string → c `sublist_of` ["a"; "x"; "c"]%string →
      (length c ≤ matched mA)%nat.
Proof. apply LCS_optimal. vm_compute. reflexivity. Defined.

(** A complete alignment implies that the [(n+1)*(m+1)] table stayed within
    one million cells and that every [int32] entry of it is in range; a refusal
    returns no vectors at all. *)
Theorem LCS_budget (a b : list string) (mA mB : list Z) (complete : bool) :
  LCS a b = Some (mA, mB, complete) →
  if complete then
    (Z.of_nat (length a) + 1) * (Z.of_nat (length b) + 1) ≤ maxLCSCells ∧
    ∀ i j, (i ≤ length a)%nat → (j ≤ length b)%nat → 0 ≤ cell (dp_table a b) i j < 2 ^ 31
  else mA = [] ∧ mB = [] ∧
    ¬ ((Z.of_nat (length a) + 1) * (Z.of_nat (length b) + 1) ≤ maxLCSCells ∧
       Z.of_nat (length a) ≤ maxLCSItems ∧ Z.of_nat (length b) ≤ maxLCSItems).
Proof.
  intros HL. destruct (withinLCSBudget (Z.of_nat (length a)) (Z.of_nat (length b))) eqn:Hb.
  - destruct (LCS_unfold a b Hb) as (ps & HL' & Hch & Hlen). rewrite HL' in HL. simplify_eq.
    apply withinLCSBudget_spec in Hb as (Ha & Hb & Hc). split; [done|]. intros i j Hi Hj.
    rewrite cell_ref by done.
    enough (lcs_len (drop i a) (drop j b) ≤ length a)%nat by (unfold maxLCSItems in *; lia).
    clear. trans (length (drop i a)); [|rewrite length_drop; lia].
    generalize (drop i a) (drop j b). clear. intros a. induction a as [|x a IH]; intros b; [done|].
    induction b as [|y b IHb]; [simpl; lia|]. rewrite lcs_len_cons. case_decide; simpl.
    + specialize (IH b). lia.
    + specialize (IH (y :: b)). simpl in *. lia.
  - unfold LCS in HL. rewrite Hb in HL. simplify_eq/=. split_and!; [done..|].
    intros (? & ? & ?). rewrite (proj2 (withinLCSBudget_spec _ _)) in Hb; [done|]. lia.
Qed.

Lemma LCS_budget_witness :
  (Z.of_nat 1 + 1) * (Z.of_nat 2 + 1) ≤ maxLCSCells ∧
  ∀ i j, (i ≤ 1)%nat → (j ≤ 2)%nat →
    0 ≤ cell (dp_table ["a"]%string ["b"; "a"]%string) i j < 2 ^ 31.
Proof. exact (LCS_budget ["a"]%string ["b"; "a"]%string [1] [-1; 0] true eq_refl). Defined.
End BlockAlign.
