(* ===== verification/GoText.v ===== *)
(** * The Go string library the modelled packages use

    Byte-level models of [unicode/utf8] decoding, [unicode.IsSpace] and the
    [strings] functions that occur in the sources: prefixes, suffixes,
    searching, and the trimming functions.  Invalid UTF-8 decodes to
    [RuneError] with width one, as in Go. *)

From S2P Require Import Prelude.

Module GoText.
Local Open Scope Z_scope.

Definition byte_val (c : ascii) : Z := Z.of_N (N_of_ascii c).
Definition in_rng (lo hi z : Z) : bool := (lo <=? z) && (z <=? hi).

Definition RuneError : Z := 65533.

(** [==] on strings. *)
Definition eqt (a b : text) : bool := bool_decide (a = b).

Lemma eqt_true a b : eqt a b = true ↔ a = b.
Proof. apply bool_decide_eq_true. Qed.
Lemma eqt_false a b : eqt a b = false ↔ a ≠ b.
Proof. apply bool_decide_eq_false. Qed.
Lemma eqt_refl a : eqt a a = true.
Proof. by apply eqt_true. Qed.

(** Unsigned arithmetic of 32 and 64 bits. *)
Definition wrap32 (z : Z) : Z := z mod 2 ^ 32.
Definition wrap64 (z : Z) : Z := z mod 2 ^ 64.
Definition uint (w z : Z) : Prop := 0 ≤ z < 2 ^ w.

Lemma wrap32_id z : uint 32 z → wrap32 z = z.
Proof. unfold uint, wrap32. apply Z.mod_small. Qed.
Lemma wrap64_id z : uint 64 z → wrap64 z = z.
Proof. unfold uint, wrap64. apply Z.mod_small. Qed.

(** [utf8.DecodeRuneInString]: the rune and its width in bytes. *)
Definition decode_rune (s : text) : Z * nat :=
  match s with
  | [] => (RuneError, 0%nat)
  | c0 :: s1 =>
      let b0 := byte_val c0 in
      if b0 <? 128 then (b0, 1%nat)
      else if in_rng 194 223 b0 then
        match s1 with
        | c1 :: _ =>
            let b1 := byte_val c1 in
            if in_rng 128 191 b1 then ((b0 - 192) * 64 + (b1 - 128), 2%nat) else (RuneError, 1%nat)
        | _ => (RuneError, 1%nat)
        end
      else if in_rng 224 239 b0 then
        match s1 with
        | c1 :: c2 :: _ =>
            let b1 := byte_val c1 in
            let b2 := byte_val c2 in
            if in_rng (if b0 =? 224 then 160 else 128) (if b0 =? 237 then 159 else 191) b1
               && in_rng 128 191 b2
            then ((b0 - 224) * 4096 + (b1 - 128) * 64 + (b2 - 128), 3%nat)
            else (RuneError, 1%nat)
        | _ => (RuneError, 1%nat)
        end
      else if in_rng 240 244 b0 then
        match s1 with
        | c1 :: c2 :: c3 :: _ =>
            let b1 := byte_val c1 in
            let b2 := byte_val c2 in
            let b3 := byte_val c3 in
            if in_rng (if b0 =? 240 then 144 else 128) (if b0 =? 244 then 143 else 191) b1
               && in_rng 128 191 b2 && in_rng 128 191 b3
            then ((b0 - 240) * 262144 + (b1 - 128) * 4096 + (b2 - 128) * 64 + (b3 - 128), 4%nat)
            else (RuneError, 1%nat)
        | _ => (RuneError, 1%nat)
        end
      else (RuneError, 1%nat)
  end.

(** [utf8.ValidString]. *)
Fixpoint valid_utf8_fuel (fuel : nat) (s : text) : bool :=
  match fuel, s with
  | _, [] => true
  | O, _ => false
  | S fuel, _ =>
      let '(r, sz) := decode_rune s in
      if (r =? RuneError) && (sz =? 1)%nat then false
      else valid_utf8_fuel fuel (drop sz s)
  end.
Definition valid_utf8 (s : text) : bool := valid_utf8_fuel (length s) s.

(** [unicode.IsSpace]. *)
Definition is_space (r : Z) : bool :=
  in_rng 9 13 r || (r =? 32) || (r =? 133) || (r =? 160) || (r =? 5760) ||
  in_rng 8192 8202 r || (r =? 8232) || (r =? 8233) || (r =? 8239) || (r =? 8287) || (r =? 12288).

(** [utf8.RuneStart]. *)
Definition rune_start (c : ascii) : bool := negb (in_rng 128 191 (byte_val c)).

(** [utf8.DecodeLastRuneInString]: walk back over at most three continuation
    bytes, then require the decoded width to reach the end exactly. *)
Fixpoint last_start (steps : nat) (s : text) (start : nat) : nat :=
  match steps with
  | O => start
  | S steps =>
      match s !! start with
      | Some c => if rune_start c then start
                  else match start with O => O | S p => last_start steps s p end
      | None => start
      end
  end.

Definition decode_last_rune (s : text) : Z * nat :=
  match length s with
  | O => (RuneError, 0%nat)
  | S e =>
      match s !! e with
      | None => (RuneError, 0%nat)
      | Some c =>
          if byte_val c <? 128 then (byte_val c, 1%nat)
          else
            let start := match e with O => O | S p => last_start 3 s p end in
            let '(r, sz) := decode_rune (drop start s) in
            if (start + sz =? S e)%nat then (r, sz) else (RuneError, 1%nat)
      end
  end.

(** [strings.TrimLeftFunc], [TrimRightFunc] at [unicode.IsSpace], and
    [strings.TrimSpace].  The fuel is the length, which every round shortens. *)
Fixpoint trim_left_fuel (fuel : nat) (s : text) : text :=
  match fuel with
  | O => s
  | S fuel =>
      match s with
      | [] => []
      | _ => let '(r, sz) := decode_rune s in
             if is_space r then trim_left_fuel fuel (drop sz s) else s
      end
  end.
Definition trim_left (s : text) : text := trim_left_fuel (length s) s.

Fixpoint trim_right_fuel (fuel : nat) (s : text) : text :=
  match fuel with
  | O => s
  | S fuel =>
      match s with
      | [] => []
      | _ => let '(r, sz) := decode_last_rune s in
             if is_space r then trim_right_fuel fuel (take (length s - sz) s) else s
      end
  end.
Definition trim_right (s : text) : text := trim_right_fuel (length s) s.

Definition trim_space (s : text) : text := trim_right (trim_left s).

(** [strings.HasPrefix], [HasSuffix], [Contains], [Index] on bytes. *)
Definition has_prefix (s p : text) : bool := bool_decide (take (length p) s = p ∧ (length p ≤ length s)%nat).
Definition has_suffix (s p : text) : bool :=
  bool_decide (drop (length s - length p) s = p ∧ (length p ≤ length s)%nat).

(** The first index at or after which [p] occurs, relative to [s]. *)
Fixpoint index (s p : text) : option nat :=
  if has_prefix s p then Some 0%nat
  else match s with
       | [] => None
       | _ :: s' => S <$> index s' p
       end.

Definition contains (s p : text) : bool := bool_decide (is_Some (index s p)).

(** [strings.TrimRight(s, "\n")] on bytes. *)
Fixpoint drop_nl (s : text) : text :=
  match s with
  | c :: s' => if bool_decide (c = "010"%char) then drop_nl s' else s
  | [] => []
  end.
Definition trim_right_nl (s : text) : text := reverse (drop_nl (reverse s)).

(** Go's [<] on strings, and [sort.Search]. *)
Fixpoint text_ltb (a b : text) : bool :=
  match a, b with
  | _, [] => false
  | [], _ => true
  | x :: a, y :: b => (byte_val x <? byte_val y) || ((byte_val x =? byte_val y) && text_ltb a b)
  end.

Fixpoint search_loop (fuel : nat) (f : nat → bool) (i j : nat) : nat :=
  match fuel with
  | O => i
  | S fuel =>
      if (i <? j)%nat then
        let h := ((i + j) / 2)%nat in
        if negb (f h) then search_loop fuel f (S h) j else search_loop fuel f i h
      else i
  end.
Definition sort_search (n : nat) (f : nat → bool) : nat := search_loop n f 0 n.

(** ** Bytes *)

(** A boolean fact about every byte, checked on all 256. *)
Lemma all_bytes (P : ascii → bool) : forallb (λ n, P (ascii_of_nat n)) (seq 0 256) = true → ∀ c, P c = true.
Proof.
  intros H c. rewrite forallb_forall in H. rewrite <- (ascii_nat_embedding c). apply H, in_seq. pose proof (nat_ascii_bounded c). lia.
Qed.

(** ** Facts about decoding *)

Lemma decode_rune_size s : (snd (decode_rune s) ≤ length s)%nat.
Proof. unfold decode_rune. repeat case_goal; simpl; lia. Qed.

Lemma decode_rune_size_pos s : s ≠ [] → (0 < snd (decode_rune s))%nat.
Proof. unfold decode_rune. intros. repeat case_goal; simpl; (done || lia). Qed.

Lemma decode_rune_size_le4 s : (snd (decode_rune s) ≤ 4)%nat.
Proof. unfold decode_rune. repeat case_goal; simpl; lia. Qed.

(** Decoding looks only at the bytes of the rune it returns: cutting the text
    anywhere at or after the end of that rune does not change the result. *)
Lemma decode_rune_take s k :
  (snd (decode_rune s) ≤ k)%nat → (0 < k)%nat → decode_rune (take k s) = decode_rune s.
Proof.
  intros Hk Hpos. destruct s as [|c0 s]; [by rewrite take_nil|].
  destruct k as [|k]; [lia|]. revert Hk. simpl take. unfold decode_rune.
  destruct (byte_val c0 <? 128); [done|].
  destruct (in_rng 194 223 (byte_val c0)).
  { destruct s as [|c1 s]; [by rewrite take_nil|].
    destruct k as [|k]; simpl; [|done]. destruct (in_rng 128 191 (byte_val c1)); simpl; [lia|done]. }
  destruct (in_rng 224 239 (byte_val c0)).
  { destruct s as [|c1 [|c2 s]]; [by rewrite take_nil|by destruct k as [|[|k]]|].
    destruct k as [|[|k]]; simpl; [| |done];
      destruct (_ && _); simpl; (lia || done). }
  destruct (in_rng 240 244 (byte_val c0)); [|done].
  destruct s as [|c1 [|c2 [|c3 s]]]; [by rewrite take_nil|by destruct k as [|[|k]]|by destruct k as [|[|[|k]]]|].
  destruct k as [|[|[|k]]]; simpl; [| | |done];
    destruct (_ && _ && _); simpl; (lia || done).
Qed.

Lemma has_prefix_spec s p : has_prefix s p = true ↔ ∃ r, s = p ++ r.
Proof.
  unfold has_prefix. rewrite bool_decide_eq_true. split.
  - intros [Ht Hl]. exists (drop (length p) s). rewrite <- Ht at 1. by rewrite take_drop.
  - intros [r ->]. rewrite take_app_length, length_app. split; [done|lia].
Qed.

Lemma has_prefix_take s p k :
  (length p ≤ k)%nat → has_prefix (take k s) p = has_prefix s p.
Proof.
  intros Hk. apply eq_true_iff_eq. rewrite !has_prefix_spec. split.
  - intros [r Hr]. exists (r ++ drop k s). rewrite app_assoc, <- Hr. by rewrite take_drop.
  - intros [r ->]. exists (take (k - length p) r). rewrite take_app.
    f_equal. by apply take_ge.
Qed.

(** A prefix test on a truncated text never succeeds where it failed before. *)
Lemma has_prefix_take_false s p k :
  has_prefix s p = false → has_prefix (take k s) p = false.
Proof.
  intros Hf. apply not_true_iff_false. rewrite has_prefix_spec. intros [r Hr].
  apply not_true_iff_false in Hf. apply Hf, has_prefix_spec.
  exists (r ++ drop k s). rewrite app_assoc, <- Hr. by rewrite take_drop.
Qed.

(** [index] returns the leftmost occurrence. *)
Lemma index_spec s p i : index s p = Some i →
  has_prefix (drop i s) p = true ∧ (i ≤ length s)%nat ∧
  ∀ k, (k < i)%nat → has_prefix (drop k s) p = false.
Proof.
  revert i. induction s as [|c s IH]; intros i; cbn [index].
  - destruct (has_prefix [] p) eqn:Hp; [|done]. intros [= <-]. split_and!; [done|simpl; lia|lia].
  - destruct (has_prefix (c :: s) p) eqn:Hp.
    + intros [= <-]. split_and!; [done|lia|lia].
    + destruct (index s p) as [j|] eqn:Hj; [|done]. intros [= <-].
      destruct (IH j eq_refl) as (H1 & H2 & H3). split_and!; [done|simpl; lia|].
      intros [|k] Hk; [done|]. apply H3. lia.
Qed.

Lemma index_none s p : index s p = None → ∀ k, (k ≤ length s)%nat → has_prefix (drop k s) p = false.
Proof.
  induction s as [|c s IH]; cbn [index]; destruct (has_prefix _ p) eqn:Hp; try done.
  - intros _ k Hk. simpl in Hk. by replace k with 0%nat by lia.
  - destruct (index s p) eqn:Hi; [done|]. intros _ [|k] Hk; [done|]. apply IH; [done|]. simpl in Hk. lia.
Qed.

(** ** Trimming *)

Lemma decode_rune_ascii c s : byte_val c < 128 → decode_rune (c :: s) = (byte_val c, 1%nat).
Proof. intros Hc. unfold decode_rune. by rewrite (proj2 (Z.ltb_lt _ _) Hc). Qed.

(** The last rune of a text that starts with an ASCII byte other than white
    space either is that byte or leaves it in place. *)
Lemma decode_last_rune_head c s : byte_val c < 128 → is_space (byte_val c) = false →
  is_space (fst (decode_last_rune (c :: s))) = true → (snd (decode_last_rune (c :: s)) ≤ length s)%nat.
Proof.
  intros Hc Hs. unfold decode_last_rune. cbn [length]. destruct ((c :: s) !! length s) as [x|] eqn:Hx; [|done].
  destruct (byte_val x <? 128) eqn:Hb.
  - cbn. intros Hsp. destruct s as [|y s]; [|simpl; lia]. injection Hx as <-. congruence.
  - set (start := match length s with O => O | S p => last_start 3 (c :: s) p end).
    destruct (decode_rune (drop start (c :: s))) as [r sz] eqn:Hd. destruct (start + sz =? S (length s))%nat eqn:He; [|done].
    cbn. bool_hyps. destruct start as [|start]; [|lia]. rewrite drop_0, decode_rune_ascii in Hd by done. injection Hd as <- <-. congruence.
Qed.

Lemma trim_right_head c s : byte_val c < 128 → is_space (byte_val c) = false → ∃ s', trim_right (c :: s) = c :: s'.
Proof.
  intros Hc Hs. unfold trim_right. generalize (length (c :: s)) as fuel. intros fuel. revert s.
  induction fuel as [|fuel IH]; intros s; [by exists s|]. cbn [trim_right_fuel].
  pose proof (decode_last_rune_head c s Hc Hs) as Hle. destruct (decode_last_rune (c :: s)) as [r sz]. cbn [fst snd] in Hle.
  destruct (is_space r); [|by exists s]. specialize (Hle eq_refl). cbn [length].
  replace (S (length s) - sz)%nat with (S (length s - sz)) by lia. apply IH.
Qed.

Lemma trim_space_head c s : byte_val c < 128 → is_space (byte_val c) = false → ∃ s', trim_space (c :: s) = c :: s'.
Proof.
  intros Hc Hs. unfold trim_space, trim_left. cbn [length trim_left_fuel]. rewrite decode_rune_ascii by done. rewrite Hs.
  by apply trim_right_head.
Qed.

(** ** Valid UTF-8 as a grammar *)

(** The text starts with a well-formed rune. *)
Definition decodes (s : text) : Prop := s ≠ [] ∧ decode_rune s ≠ (RuneError, 1%nat).

Inductive utf8 : text → Prop :=
| utf8_nil : utf8 []
| utf8_rune s : decodes s → utf8 (drop (snd (decode_rune s)) s) → utf8 s.

Lemma valid_utf8_fuel_spec fuel s : (length s ≤ fuel)%nat → valid_utf8_fuel fuel s = true ↔ utf8 s.
Proof.
  revert s. induction fuel as [|fuel IH]; intros s Hl.
  { destruct s; [|simpl in Hl; lia]. split; [constructor|done]. }
  destruct s as [|c s]; [split; [constructor|done]|]. cbn [valid_utf8_fuel].
  pose proof (decode_rune_size_pos (c :: s) ltac:(done)). destruct (decode_rune (c :: s)) as [r sz] eqn:Hd.
  cbn [snd] in *. destruct ((r =? RuneError) && (sz =? 1)%nat) eqn:He.
  - split; [done|]. bool_hyps. subst. inversion 1 as [|? [_ Hne] _]. by destruct Hne.
  - rewrite IH by (rewrite length_drop; lia). split.
    + intros Hu. constructor; [split; [done|]|by rewrite Hd]. rewrite Hd. intros [= -> ->]. done.
    + inversion 1 as [|? _ Hu]; subst. by rewrite Hd in Hu.
Qed.

Lemma valid_utf8_spec s : valid_utf8 s = true ↔ utf8 s.
Proof. by apply valid_utf8_fuel_spec. Qed.

(** A well-formed rune is decoded whatever follows it. *)
Lemma decode_rune_app s t : decodes s → decode_rune (s ++ t) = decode_rune s.
Proof.
  intros [Hn Hd]. revert Hd. destruct s as [|c0 s]; [done|]. unfold decode_rune. cbn [app].
  destruct (byte_val c0 <? 128); [done|].
  destruct (in_rng 194 223 (byte_val c0)); [by destruct s as [|c1 s]|].
  destruct (in_rng 224 239 (byte_val c0)); [by destruct s as [|c1 [|c2 s]]|].
  destruct (in_rng 240 244 (byte_val c0)); [|done]. by destruct s as [|c1 [|c2 [|c3 s]]].
Qed.

Lemma decodes_app s t : decodes s → decodes (s ++ t).
Proof. intros Hd. pose proof (decode_rune_app _ t Hd) as Heq. destruct Hd as [Hn Hd]. split; [by destruct s|by rewrite Heq]. Qed.

(** The bytes of a well-formed rune after its first are continuation bytes. *)
Lemma decodes_continuation s k c : decodes s → (0 < k < snd (decode_rune s))%nat → s !! k = Some c → rune_start c = false.
Proof.
  intros [Hn Hd]. revert Hd. destruct s as [|c0 s]; [done|]. unfold decode_rune, rune_start.
  destruct (byte_val c0 <? 128); [cbn [snd]; lia|].
  destruct (in_rng 194 223 (byte_val c0)).
  { destruct s as [|c1 s]; [done|]. destruct (in_rng 128 191 (byte_val c1)) eqn:H1; [|done]. cbn [snd].
    intros _ Hk. assert (k = 1%nat) as -> by lia. intros [= <-]. by rewrite H1. }
  destruct (in_rng 224 239 (byte_val c0)).
  { destruct s as [|c1 [|c2 s]]; [done..|]. destruct (_ && _) eqn:H1; [|done]. bool_hyps. cbn [snd].
    intros _ Hk. assert (k = 1%nat ∨ k = 2%nat) as [-> | ->] by lia; intros [= <-]; apply negb_false_iff; [|done].
    unfold in_rng in *. repeat case_match; bool_hyps; apply andb_true_iff; split; apply Z.leb_le; lia. }
  destruct (in_rng 240 244 (byte_val c0)); [|done].
  destruct s as [|c1 [|c2 [|c3 s]]]; [done..|]. destruct (_ && _ && _) eqn:H1; [|done]. bool_hyps. cbn [snd].
  intros _ Hk. assert (k = 1%nat ∨ k = 2%nat ∨ k = 3%nat) as [->|[->| ->]] by lia; intros [= <-]; apply negb_false_iff; try done.
  unfold in_rng in *. repeat case_match; bool_hyps; apply andb_true_iff; split; apply Z.leb_le; lia.
Qed.

Lemma decodes_rune_start c s : decodes (c :: s) → rune_start c = true.
Proof.
  intros [_ Hd]. revert Hd. unfold decode_rune, rune_start. destruct (byte_val c <? 128) eqn:H1.
  { intros _. unfold in_rng. bool_hyps. apply negb_true_iff, andb_false_iff. left. apply Z.leb_gt. lia. }
  destruct (in_rng 128 191 (byte_val c)) eqn:H2; [|done]. unfold in_rng in *. bool_hyps.
  rewrite (proj2 (andb_false_iff _ _)); [|left; apply Z.leb_gt; lia].
  rewrite (proj2 (andb_false_iff _ _)); [|left; apply Z.leb_gt; lia].
  rewrite (proj2 (andb_false_iff _ _)); [|left; apply Z.leb_gt; lia]. done.
Qed.

Lemma utf8_app a b : utf8 a → utf8 b → utf8 (a ++ b).
Proof.
  intros Ha Hb. induction Ha as [|a Hd _ IH]; [done|]. constructor; [by apply decodes_app|].
  rewrite decode_rune_app by done. rewrite drop_app_le by apply decode_rune_size. exact IH.
Qed.

(** Cutting a valid text in front of a byte that starts a rune. *)
Lemma utf8_cut a b : utf8 (a ++ b) → (∀ c, head b = Some c → rune_start c = true) → utf8 a ∧ utf8 b.
Proof.
  remember (a ++ b) as s eqn:Hs. intros Hu Hb. revert a Hs. induction Hu as [|s Hd Hu IH]; intros a Hs.
  { destruct a, b; try done. split; constructor. }
  destruct a as [|x a]; [cbn in Hs; subst; split; [constructor|by constructor]|].
  pose proof (decode_rune_size_pos s (proj1 Hd)). pose proof (decode_rune_size s) as Hsz.
  destruct (decide (snd (decode_rune s) ≤ length (x :: a))%nat) as [Hle|Hgt].
  - assert (decode_rune (x :: a) = decode_rune s) as Heq.
    { rewrite <- (decode_rune_take s (length (x :: a))) by (done || (simpl; lia)). by rewrite Hs, take_app_length. }
    destruct (IH (drop (snd (decode_rune s)) (x :: a))) as [H1 H2]; [by rewrite Hs, drop_app_le by (by rewrite <- Hs)|].
    split; [|done]. constructor; [split; [done|rewrite Heq; apply Hd]|by rewrite Heq].
  - exfalso. rewrite Hs in Hsz at 2. rewrite length_app in Hsz. destruct b as [|c b]; [simpl in *; lia|].
    assert (s !! length (x :: a) = Some c) as Hk by (by rewrite Hs, lookup_app_r, Nat.sub_diag by done).
    apply decodes_continuation in Hk; [|done|simpl in *; lia]. by rewrite (Hb c) in Hk.
Qed.

(** Cutting a valid text behind a valid prefix. *)
Lemma utf8_cut_r a b : utf8 a → utf8 (a ++ b) → utf8 b.
Proof.
  induction 1 as [|a Hd Ha IH]; [done|]. inversion 1 as [Hnil|? _ Hu].
  { destruct a; [by destruct Hd|done]. }
  apply IH. rewrite decode_rune_app in Hu by done. by rewrite drop_app_le in Hu by apply decode_rune_size.
Qed.

(** ** Ordering and binary search *)

Lemma text_ltb_irrefl a : text_ltb a a = false.
Proof. induction a as [|x a IH]; [done|]. simpl. by rewrite IH, Z.ltb_irrefl, andb_false_r. Qed.

Lemma text_ltb_trans a b c : text_ltb a b = true → text_ltb b c = true → text_ltb a c = true.
Proof.
  revert b c. induction a as [|x a IH]; intros [|y b] [|z c]; simpl; try done. rewrite !orb_true_iff, !andb_true_iff, !Z.ltb_lt, !Z.eqb_eq.
  intros [H1|[H1 H2]] [H3|[H3 H4]]; [left; lia..|]. right. split; [lia|]. by eapply IH.
Qed.

Lemma text_ltb_total a b : text_ltb a b = false → a = b ∨ text_ltb b a = true.
Proof.
  revert b. induction a as [|x a IH]; intros [|y b]; simpl; try by (intros; auto). intros [H1 H2]%orb_false_iff.
  apply Z.ltb_ge in H1. destruct (byte_val y <? byte_val x) eqn:Hlt; [by right|]. apply Z.ltb_ge in Hlt.
  assert (byte_val x = byte_val y) as Heq by lia. rewrite Heq, Z.eqb_refl in H2. rewrite Heq, Z.eqb_refl.
  assert (x = y) as ->. { apply N2Z.inj in Heq. rewrite <- (ascii_N_embedding x), <- (ascii_N_embedding y). by f_equal. }
  destruct (IH _ H2) as [->| ->]; auto.
Qed.

(** The least index at which a test holds that is monotone below [n]. *)
Lemma search_loop_spec n fuel f i j : (∀ a b, (a ≤ b < n)%nat → f a = true → f b = true) → (j ≤ i + fuel)%nat → (i ≤ j ≤ n)%nat →
  let r := search_loop fuel f i j in
  (i ≤ r ≤ j)%nat ∧ (∀ k, (i ≤ k < r)%nat → f k = false) ∧ ((r < j)%nat → f r = true).
Proof.
  intros Hm. revert i j. induction fuel as [|fuel IH]; intros i j Hf Hij; cbn [search_loop]; cbv zeta; [split_and!; lia|].
  destruct (i <? j)%nat eqn:Hlt; [|apply Nat.ltb_ge in Hlt; split_and!; lia]. apply Nat.ltb_lt in Hlt.
  assert (i ≤ (i + j) / 2 < j)%nat as Hh.
  { split; [apply Nat.div_le_lower_bound; lia|apply Nat.Div0.div_lt_upper_bound; lia]. }
  destruct (f ((i + j) / 2)%nat) eqn:Hfh; cbn [negb].
  - destruct (IH i ((i + j) / 2)%nat ltac:(lia) ltac:(lia)) as (H1 & H2 & H3). split_and!; [lia|lia|done|].
    intros Hr. destruct (decide (search_loop fuel f i ((i + j) / 2) < (i + j) / 2)%nat) as [|Hge]; [by apply H3|].
    apply (Hm ((i + j) / 2)%nat); [lia|done].
  - destruct (IH (S ((i + j) / 2)) j ltac:(lia) ltac:(lia)) as (H1 & H2 & H3). split_and!; [lia|lia| |done].
    intros k Hk. destruct (decide (k ≤ (i + j) / 2)%nat) as [Hle|]; [|apply H2; lia].
    apply not_true_iff_false. intros Hfk. rewrite (Hm k ((i + j) / 2)%nat) in Hfh; [done|lia|done].
Qed.

Lemma sort_search_spec n f : (∀ a b, (a ≤ b < n)%nat → f a = true → f b = true) →
  (sort_search n f ≤ n)%nat ∧ (∀ k, (k < sort_search n f)%nat → f k = false) ∧ ((sort_search n f < n)%nat → f (sort_search n f) = true).
Proof.
  intros Hm. destruct (search_loop_spec n n f 0 n Hm ltac:(lia) ltac:(lia)) as (H1 & H2 & H3).
  unfold sort_search. split_and!; [lia| |done]. intros k Hk. apply H2. lia.
Qed.
End GoText.
