(* ===== verification/TextOrder.v ===== *)
(** * Lists ordered by a text

    Go's byte-wise order of strings on lists: strictly sorted lists, and
    [sort.Slice] by a key.  The components that store or publish records in a
    canonical order use it. *)

From S2P Require Import Prelude GoText.
Import GoText.

Module TextOrder.
(** ** Sorted lists *)

Definition before (a b : text) : Prop := text_ltb a b = true.
#[export] Instance before_trans : Transitive before. Proof. intros a b c. apply text_ltb_trans. Qed.
#[export] Instance before_anti : AntiSymm (=) before.
Proof. intros a b H1 H2. pose proof (text_ltb_trans _ _ _ H1 H2) as H. by rewrite text_ltb_irrefl in H. Qed.
Lemma sorted_nodup (l : list text) : StronglySorted before l → NoDup l.
Proof.
  induction 1 as [|x l _ IH Hx]; constructor; [|done]. rewrite Forall_forall in Hx. intros Hin. specialize (Hx x Hin). unfold before in Hx. by rewrite text_ltb_irrefl in Hx.
Qed.
(** A strictly increasing list after [previous]. *)
Definition rising (previous : option text) (l : list text) : Prop := StronglySorted before (option_list previous ++ l).
Lemma rising_cons previous x l : match previous with Some p => text_ltb p x | None => true end = true → rising (Some x) l → rising previous (x :: l).
Proof.
  unfold rising. cbn. intros Hp H. destruct previous as [p|]; [|done]. cbn. constructor; [done|]. constructor; [done|].
  apply StronglySorted_inv in H as [_ H]. eapply Forall_impl; [exact H|]. intros y Hy. by eapply text_ltb_trans.
Qed.

(** Lists that are strictly sorted by a text are decided by their elements. *)
Section sorted.
Context {A : Type} (key : A → text).
Lemma strict_unique (l l' : list A) : StronglySorted before (key <$> l) → StronglySorted before (key <$> l') → l ≡ₚ l' → l = l'.
Proof.
  intros H H' Hp. pose (R := λ a b : A, before (key a) (key b)).
  assert (∀ l, StronglySorted before (key <$> l) → StronglySorted R l) as HR.
  { intros k. induction k as [|x k IH]; intros Hs; [constructor|]. rewrite fmap_cons in Hs. apply StronglySorted_inv in Hs as [Hs Hx]. constructor; [by apply IH|]. by rewrite Forall_fmap in Hx. }
  assert (AntiSymm (=) R) as Ha. { intros a b Ha Hb. pose proof (text_ltb_trans _ _ _ Ha Hb) as Hc. by rewrite text_ltb_irrefl in Hc. }
  eapply (StronglySorted_unique R); [by apply HR..|done].
Qed.
Lemma filter_rising (f : A → bool) l : StronglySorted before (key <$> l) → StronglySorted before (key <$> List.filter f l).
Proof.
  induction l as [|x l IH]; intros H; [done|]. rewrite fmap_cons in H. apply StronglySorted_inv in H as [H Hx]. cbn [List.filter]. destruct (f x); [|by apply IH]. rewrite fmap_cons. constructor; [by apply IH|].
  rewrite Forall_fmap in Hx |- *. rewrite Forall_forall in Hx |- *. intros y Hy. apply Hx. apply list_elem_of_In, filter_In in Hy as [Hy _]. by apply list_elem_of_In.
Qed.
(** Sorted and without repetition is strictly sorted. *)
Lemma sorted_strict (R : A → A → Prop) (l : list A) : (∀ a b, R a b → key a = key b ∨ before (key a) (key b)) → StronglySorted R l → NoDup (key <$> l) → StronglySorted before (key <$> l).
Proof.
  intros HR. induction 1 as [|x l _ IH Hx]; intros Hn; [constructor|]. rewrite fmap_cons in Hn |- *. apply NoDup_cons in Hn as [Hni Hn]. constructor; [by apply IH|].
  rewrite Forall_fmap, Forall_forall. rewrite Forall_forall in Hx. intros y Hy. destruct (HR _ _ (Hx y Hy)) as [He|]; [|done]. destruct Hni. apply list_elem_of_fmap. by exists y.
Qed.
End sorted.
(** ** Sorting by a text

    [sort.Slice] and [sort.Strings] by a text; the callers either have no two
    elements of the same text or reject them afterwards. *)
Definition key_le {A} (key : A → text) (a b : A) : Prop := text_ltb (key b) (key a) = false.
#[export] Instance key_le_dec {A} (key : A → text) : RelDecision (key_le key). Proof. intros a b. unfold key_le. apply _. Defined.
Definition sort_on {A} (key : A → text) (l : list A) : list A := merge_sort (key_le key) l.
Lemma key_le_or {A} (key : A → text) a b : key_le key a b → key a = key b ∨ before (key a) (key b).
Proof. intros H. destruct (text_ltb_total _ _ H) as [->|]; [by left|by right]. Qed.
#[export] Instance key_le_total {A} (key : A → text) : Total (key_le key).
Proof.
  intros a b. destruct (text_ltb (key b) (key a)) eqn:E; [right|by left]. unfold key_le. destruct (text_ltb (key a) (key b)) eqn:E'; [|done].
  pose proof (text_ltb_trans _ _ _ E E') as H. by rewrite text_ltb_irrefl in H.
Qed.
#[export] Instance key_le_trans {A} (key : A → text) : Transitive (key_le key).
Proof.
  intros a b c H1 H2. unfold key_le. destruct (text_ltb (key c) (key a)) eqn:E; [|done].
  destruct (key_le_or _ _ _ H1) as [He|Hb]; [unfold key_le in H2; congruence|]. pose proof (text_ltb_trans _ _ _ E Hb) as H. unfold key_le in H2. congruence.
Qed.
Lemma sort_on_perm {A} (key : A → text) (l l' : list A) : l ≡ₚ l' → StronglySorted before (key <$> sort_on key l) → sort_on key l' = sort_on key l.
Proof.
  intros Hp Hs. apply (strict_unique key).
  - apply (sorted_strict key (key_le key)); [apply key_le_or|apply (StronglySorted_merge_sort _)|]. unfold sort_on. rewrite merge_sort_Permutation, <- Hp.
    rewrite <- (merge_sort_Permutation (key_le key) l). by apply sorted_nodup.
  - done.
  - unfold sort_on. by rewrite !merge_sort_Permutation.
Qed.
Lemma sort_on_strict {A} (key : A → text) (l : list A) : NoDup (key <$> l) → StronglySorted before (key <$> sort_on key l).
Proof.
  intros Hn. apply (sorted_strict key (key_le key)); [apply key_le_or|apply (StronglySorted_merge_sort _)|]. unfold sort_on. by rewrite merge_sort_Permutation.
Qed.
End TextOrder.
