(* ===== verification/Identifiers.v ===== *)
(** * Canonical identifiers (internal/domain/canonical_identifiers.go) and the
    digest spellings shared by the packages. *)

From S2P Require Import Prelude GoText.
Import GoText.

Module Identifiers.
Local Open Scope Z_scope.

Definition bytes_of (s : string) : text := String.list_ascii_of_string s.

Definition is_digit (c : ascii) : bool := in_rng 48 57 (byte_val c).
Definition is_upper (c : ascii) : bool := in_rng 65 90 (byte_val c).
Definition is_lower (c : ascii) : bool := in_rng 97 122 (byte_val c).

(** [ValidConfluenceReadID]: the rune loop compares ASCII ranges only, so a
    byte outside ASCII fails exactly as its rune does. *)
Definition ValidConfluenceReadID (value : string) : bool :=
  let s := bytes_of value in
  if (length s =? 0)%nat || (256 <? length s)%nat then false
  else forallb (λ c, is_lower c || is_upper c || is_digit c ||
                     bool_decide (c = "_"%char) || bool_decide (c = "-"%char)) s.

(** [strconv.ParseUint(value, 10, 64)]: [None] on a syntax or range error. *)
Definition parse_uint64 (s : text) : option Z :=
  if (length s =? 0)%nat || negb (forallb is_digit s) then None
  else let v := foldl (λ acc c, acc * 10 + (byte_val c - 48)) 0 s in
       if v <? 2 ^ 64 then Some v else None.

Definition ValidConfluenceContentID (value : string) : bool :=
  let s := bytes_of value in
  match s with
  | [] => false
  | c :: _ =>
      if bool_decide (c = "0"%char) || negb (bool_decide (trim_space s = s)) then false
      else bool_decide (is_Some (parse_uint64 s))
  end.

(** [strings.LastIndexByte]; [None] stands for [-1]. *)
Fixpoint last_index_byte (s : text) (c : ascii) : option nat :=
  match s with
  | [] => None
  | x :: s' => match last_index_byte s' c with
               | Some i => Some (S i)
               | None => if bool_decide (x = c) then Some 0%nat else None
               end
  end.

Definition ValidJiraIssueKey (value : string) : bool :=
  let s := bytes_of value in
  match last_index_byte s "-"%char, s with
  | Some dash, c0 :: _ =>
      if (dash <? 2)%nat || (32 <? dash)%nat || (dash =? length s - 1)%nat || negb (is_upper c0) ||
         bool_decide (s !! S dash = Some "0"%char) then false
      else forallb (λ c, is_upper c || is_digit c || bool_decide (c = "_"%char)) (take dash s)
           && forallb is_digit (drop (S dash) s)
  | _, _ => false
  end.

(** [hex.DecodeString] succeeds on an even number of hex digits. *)
Definition is_hex (c : ascii) : bool :=
  is_digit c || in_rng 97 102 (byte_val c) || in_rng 65 70 (byte_val c).
Definition is_lower_hex (c : ascii) : bool := is_digit c || in_rng 97 102 (byte_val c).
Definition hex_decodes (s : text) : bool := Nat.even (length s) && forallb is_hex s.

(** ** What the predicates accept *)

Lemma last_index_byte_spec s c i : last_index_byte s c = Some i →
  s !! i = Some c ∧ ∀ k, (i < k)%nat → s !! k ≠ Some c.
Proof.
  revert i. induction s as [|x s IH]; intros i; simpl; [done|].
  destruct (last_index_byte s c) as [j|] eqn:Hj.
  - intros [= <-]. destruct (IH j eq_refl) as [H1 H2]. split; [done|].
    intros [|k] Hk; [lia|]. apply H2. lia.
  - case_bool_decide as Hx; intros [= <-]. subst x. split; [done|].
    intros [|k] Hk; [lia|]. intros Hs. simpl in Hs. clear IH.
    revert k Hk Hs Hj. induction s as [|y s IHs]; intros k Hk Hs Hj; [done|]. simpl in Hj.
    destruct (last_index_byte s c) eqn:Hl; [done|]. case_bool_decide; [done|].
    destruct k; simplify_eq/=. eapply (IHs k); [lia|done|done].
Qed.

Lemma ContentID_nonempty value : ValidConfluenceContentID value = true → value ≠ ""%string.
Proof. by intros H ->. Qed.
End Identifiers.
