(* ===== verification/Encoding.v ===== *)
(** * Hexadecimal and JSON text

    [encoding/hex] and the part of [encoding/json] the modelled packages print
    with: strings, integers and structs, compact and HTML-escaped. *)

From stdpp Require Import vector pretty.
From S2P Require Import Prelude GoText Identifiers.
Import GoText Identifiers.

Module Encoding.
Local Open Scope Z_scope.

(** ** Bytes and hexadecimal *)

Definition byte_of (n : N) : ascii := ascii_of_N (n mod 256).
Definition hex_digit (n : N) : ascii :=
  (if n <? 10 then ascii_of_N (48 + n) else ascii_of_N (87 + n))%N.
(** [hex.EncodeToString]. *)
Definition hex_encode (data : text) : text :=
  data ≫= λ c, [hex_digit (N_of_ascii c / 16); hex_digit (N_of_ascii c mod 16)]%N.

(** ** json.Marshal *)

(** The bytes [json.Marshal] copies unchanged ([htmlSafeSet]). *)
Definition html_safe (c : ascii) : bool :=
  in_rng 32 127 (byte_val c) && negb (existsb (λ b, bool_decide (b = c)) ["034"; "092"; "038"; "060"; "062"]%char).

Definition escape_byte (c : ascii) : text :=
  match c with
  | "092"%char => txt "\\"
  | "034"%char => ["092"%char; "034"%char]
  | "008"%char => txt "\b"
  | "012"%char => txt "\f"
  | "010"%char => txt "\n"
  | "013"%char => txt "\r"
  | "009"%char => txt "\t"
  | _ => txt "\u00" ++ [hex_digit (N_of_ascii c / 16); hex_digit (N_of_ascii c mod 16)]%N
  end.

(** The loop of [appendString]. *)
Fixpoint quote_loop (fuel : nat) (s : text) : text :=
  match fuel, s with
  | S fuel, c :: s' =>
      if byte_val c <? 128 then (if html_safe c then [c] else escape_byte c) ++ quote_loop fuel s'
      else
        let '(r, sz) := decode_rune s in
        (if (r =? RuneError) && (sz =? 1)%nat then txt "\ufffd"
         else if r =? 8232 then txt "\u2028"
         else if r =? 8233 then txt "\u2029"
         else take sz s) ++ quote_loop fuel (drop sz s)
  | _, _ => []
  end.
Definition json_string (s : text) : text := "034"%char :: quote_loop (length s) s ++ ["034"%char].
Definition json_int (z : Z) : text := txt (pretty z).
Definition json_bool (b : bool) : text := if b then txt "true" else txt "false".

Fixpoint json_list (items : list text) : text :=
  match items with
  | [] => []
  | [i] => i
  | i :: items => i ++ txt "," ++ json_list items
  end.
Definition json_array (items : list text) : text := txt "[" ++ json_list items ++ txt "]".

(** A struct is the list of the members it prints; an [omitempty] field prints
    none when it is zero. *)
Definition member (name : string) (value : text) : list text := [json_string (txt name) ++ txt ":" ++ value].
Definition member_omitempty (name : string) (value : text) : list text :=
  match value with [] => [] | _ => member name (json_string value) end.
Definition json_object (members : list (list text)) : text := txt "{" ++ json_list (concat members) ++ txt "}".

(** ** Facts *)

Lemma byte_of_val n : N_of_ascii (byte_of n) = (n mod 256)%N.
Proof. unfold byte_of. apply N_ascii_embedding. apply N.mod_lt. lia. Qed.

Lemma hex_digit_plain n : (n < 16)%N → in_rng 32 126 (byte_val (hex_digit n)) = true ∧ is_lower_hex (hex_digit n) = true.
Proof.
  intros Hn. assert (n = 0 ∨ n = 1 ∨ n = 2 ∨ n = 3 ∨ n = 4 ∨ n = 5 ∨ n = 6 ∨ n = 7 ∨ n = 8 ∨ n = 9 ∨ n = 10 ∨ n = 11 ∨
    n = 12 ∨ n = 13 ∨ n = 14 ∨ n = 15)%N as Hc by lia. by repeat destruct Hc as [->|Hc]; [..|subst].
Qed.

Lemma hex_encode_digits data : length (hex_encode data) = (2 * length data)%nat ∧
  forallb is_lower_hex (hex_encode data) = true.
Proof.
  induction data as [|c data [IHl IHh]]; [done|]. pose proof (N_ascii_bounded c).
  assert (N_of_ascii c / 16 < 16)%N by (apply N.Div0.div_lt_upper_bound; lia).
  assert (N_of_ascii c mod 16 < 16)%N by (apply N.mod_lt; lia). 
  change (hex_encode (c :: data)) with
    (hex_digit (N_of_ascii c / 16) :: hex_digit (N_of_ascii c mod 16) :: hex_encode data)%N. cbn [length forallb].
  rewrite IHl, IHh. rewrite !(λ n Hn, proj2 (hex_digit_plain n Hn)) by done.
  split; [lia|done].
Qed.

(** A SHA-256 digest in hexadecimal is well formed. *)
Lemma hex_digest (sum : vec ascii 32) :
  length (hex_encode (vec_to_list sum)) = 64%nat ∧ forallb is_lower_hex (hex_encode (vec_to_list sum)) = true.
Proof. destruct (hex_encode_digits (vec_to_list sum)) as [-> ->]. by rewrite length_vec_to_list. Qed.

(** A stand-in for SHA-256: the byte sum, in 32 bytes. *)
Definition toy_sha256 (data : text) : vec ascii 32 :=
  vreplicate 32 (byte_of (foldl (λ acc c, (acc * 31 + N_of_ascii c) mod 251)%N 7%N data)).
End Encoding.
