(* ===== verification/RequestPolicy.v ===== *)
(** * Request-scoped policy flags
    (internal/domain/request_policy.go)

    [RequestContext] is the part of [context.Context] the program reads back:
    each [With...] function sets one key to [true], each reader returns the
    value found, [false] when absent. *)

From S2P Require Import Prelude.

Module RequestPolicy.

Record RequestContext := {
  ctx_singleAttempt : bool;
  ctx_noReplayRetries : bool;
  ctx_writeClearance : bool;
  ctx_readIntent : bool;
  ctx_untrustedConfluenceReference : bool;
  ctx_commentContainment : option (string * string);
  ctx_redactHTTPTrace : bool
}.

Definition Background : RequestContext :=
  {| ctx_singleAttempt := false; ctx_noReplayRetries := false; ctx_writeClearance := false;
     ctx_readIntent := false; ctx_untrustedConfluenceReference := false;
     ctx_commentContainment := None; ctx_redactHTTPTrace := false |}.

Definition WithSingleAttempt (c : RequestContext) : RequestContext :=
  {| ctx_singleAttempt := true; ctx_noReplayRetries := ctx_noReplayRetries c; ctx_writeClearance := ctx_writeClearance c;
     ctx_readIntent := ctx_readIntent c; ctx_untrustedConfluenceReference := ctx_untrustedConfluenceReference c;
     ctx_commentContainment := ctx_commentContainment c; ctx_redactHTTPTrace := ctx_redactHTTPTrace c |}.
Definition SingleAttempt (c : RequestContext) : bool := ctx_singleAttempt c.

Definition WithNoReplayRetries (c : RequestContext) : RequestContext :=
  {| ctx_singleAttempt := ctx_singleAttempt c; ctx_noReplayRetries := true; ctx_writeClearance := ctx_writeClearance c;
     ctx_readIntent := ctx_readIntent c; ctx_untrustedConfluenceReference := ctx_untrustedConfluenceReference c;
     ctx_commentContainment := ctx_commentContainment c; ctx_redactHTTPTrace := ctx_redactHTTPTrace c |}.
Definition NoReplayRetries (c : RequestContext) : bool := ctx_noReplayRetries c || SingleAttempt c.

Definition WithWriteClearance (c : RequestContext) : RequestContext :=
  {| ctx_singleAttempt := ctx_singleAttempt c; ctx_noReplayRetries := ctx_noReplayRetries c; ctx_writeClearance := true;
     ctx_readIntent := ctx_readIntent c; ctx_untrustedConfluenceReference := ctx_untrustedConfluenceReference c;
     ctx_commentContainment := ctx_commentContainment c; ctx_redactHTTPTrace := ctx_redactHTTPTrace c |}.
Definition HasWriteClearance (c : RequestContext) : bool := ctx_writeClearance c.

Definition WithReadIntent (c : RequestContext) : RequestContext :=
  {| ctx_singleAttempt := ctx_singleAttempt c; ctx_noReplayRetries := ctx_noReplayRetries c; ctx_writeClearance := ctx_writeClearance c;
     ctx_readIntent := true; ctx_untrustedConfluenceReference := ctx_untrustedConfluenceReference c;
     ctx_commentContainment := ctx_commentContainment c; ctx_redactHTTPTrace := ctx_redactHTTPTrace c |}.
Definition ReadIntent (c : RequestContext) : bool := ctx_readIntent c.

Definition WithUntrustedConfluenceReference (c : RequestContext) : RequestContext :=
  {| ctx_singleAttempt := ctx_singleAttempt c; ctx_noReplayRetries := ctx_noReplayRetries c; ctx_writeClearance := ctx_writeClearance c;
     ctx_readIntent := ctx_readIntent c; ctx_untrustedConfluenceReference := true;
     ctx_commentContainment := ctx_commentContainment c; ctx_redactHTTPTrace := ctx_redactHTTPTrace c |}.
Definition UntrustedConfluenceReference (c : RequestContext) : bool := ctx_untrustedConfluenceReference c.

(** The zero [confluenceCommentContainment] has empty ids, so an absent proof
    still "contains" the pair of empty strings, as in the source. *)
Definition WithConfluenceCommentContainment (c : RequestContext) (pageID threadID : string) : RequestContext :=
  {| ctx_singleAttempt := ctx_singleAttempt c; ctx_noReplayRetries := ctx_noReplayRetries c; ctx_writeClearance := ctx_writeClearance c;
     ctx_readIntent := ctx_readIntent c; ctx_untrustedConfluenceReference := ctx_untrustedConfluenceReference c;
     ctx_commentContainment := Some (pageID, threadID); ctx_redactHTTPTrace := ctx_redactHTTPTrace c |}.
Definition HasConfluenceCommentContainment (c : RequestContext) (pageID threadID : string) : bool :=
  let '(p, t) := default (""%string, ""%string) (ctx_commentContainment c) in
  bool_decide (p = pageID) && bool_decide (t = threadID).

Definition WithRedactedHTTPTrace (c : RequestContext) : RequestContext :=
  {| ctx_singleAttempt := ctx_singleAttempt c; ctx_noReplayRetries := ctx_noReplayRetries c; ctx_writeClearance := ctx_writeClearance c;
     ctx_readIntent := ctx_readIntent c; ctx_untrustedConfluenceReference := ctx_untrustedConfluenceReference c;
     ctx_commentContainment := ctx_commentContainment c; ctx_redactHTTPTrace := true |}.
Definition RedactedHTTPTrace (c : RequestContext) : bool := ctx_redactHTTPTrace c.
End RequestPolicy.
