(* ===== verification/ContentPolicy.v ===== *)
(** * Content-scoped write policies (internal/contentpolicy, internal/domain/write_authorization.go)

    The policy model, the layered evaluator [Decide], the preflight filter, the
    [Authorizer] with its context flags, the denial envelope, and the
    validation of policy documents.  [strings.ToUpper] is the section variable
    [ToUpper]: the theorems hold for every such function. *)

From S2P Require Import Prelude GoText Identifiers RequestPolicy.
Import Identifiers RequestPolicy.

Module ContentPolicy.

(** ** Write authorization vocabulary *)

Definition WriteVerbCreate : string := "create".
Definition WriteVerbUpdate : string := "update".
Definition WriteVerbComment : string := "comment".
Definition WriteVerbTransition : string := "transition".
Definition WriteVerbMove : string := "move".
Definition WriteVerbDelete : string := "delete".

Definition ValidWriteVerb (verb : string) : bool :=
  bool_decide (verb = WriteVerbCreate) || bool_decide (verb = WriteVerbUpdate) ||
  bool_decide (verb = WriteVerbComment) || bool_decide (verb = WriteVerbTransition) ||
  bool_decide (verb = WriteVerbMove) || bool_decide (verb = WriteVerbDelete).

(** The loop of [ValidWriteVerbSet] with its [seen] set. *)
Fixpoint ValidWriteVerbSet_loop (seen : gset string) (verbs : list string) : bool :=
  match verbs with
  | [] => true
  | verb :: verbs' =>
      if negb (ValidWriteVerb verb) then false
      else if bool_decide (verb ∈ seen) then false
      else ValidWriteVerbSet_loop ({[verb]} ∪ seen) verbs'
  end.
Definition ValidWriteVerbSet (verbs : list string) : bool :=
  if (length verbs =? 0)%nat then false else ValidWriteVerbSet_loop ∅ verbs.

(** [AncestorIDs]: [None] is the nil slice (hierarchy not resolved). *)
Record WriteTarget := {
  Service : string;
  Kind : string;
  ID : string;
  Project : string;
  Key : string;
  Space : string;
  AncestorIDs : option (list string)
}.

Inductive WriteScopeProblem :=
| WriteScopeResolved
| WriteScopeUnresolved
| WriteScopeUnavailable
| WriteScopeContradiction
| WriteScopeProtectedSubtree
| WriteScopeContainedContent
| WriteScopeOther (s : string).
#[export] Instance WriteScopeProblem_eq_dec : EqDecision WriteScopeProblem.
Proof. solve_decision. Defined.

Record WriteAuthorizationRequest := {
  Verbs : list string;
  Targets : list WriteTarget;
  ScopeProblem : WriteScopeProblem;
  ScopeRuleID : string;
  ScopeAttribute : string
}.

Record WriteScopeRequirements := { ReqKind : bool; ReqSpace : bool; ReqAncestors : bool }.
Record WriteHierarchyAnchor := { AnchorID : string; AnchorRuleID : string }.

(** ** Policy model *)

Definition EffectAllow : string := "allow".
Definition EffectDeny : string := "deny".

Record Selector := {
  Services : list string;
  Kinds : list string;
  Projects : list string;
  Keys : list string;
  Spaces : list string;
  IDs : list string;
  Under : list string
}.

Record Rule := {
  RuleID : string;
  Effect : string;
  RuleVerbs : list string;
  Resource : Selector
}.

Record BackendBinding := { JiraSHA256 : string; ConfluenceSHA256 : string }.
Record Policy := { PolicyVersion : Z; Rules : list Rule; Backend : BackendBinding }.
Record Layer := { Source : string; LayerDigest : string; LayerPolicy : Policy }.

Inductive DenialReason :=
| ReasonNone
| ReasonNoMatchingAllow
| ReasonExplicitDeny
| ReasonScopeUnresolved
| ReasonScopeUnavailable
| ReasonScopeContradiction
| ReasonProtectedSubtree
| ReasonContainedContentDenied
| ReasonPolicyRequiredAbsent
| ReasonPolicyDigestMismatch
| ReasonBackendMismatch
| reasonInvalidRequest.
#[export] Instance DenialReason_eq_dec : EqDecision DenialReason.
Proof. solve_decision. Defined.

Record Decision := {
  Allowed : bool;
  Reason : DenialReason;
  DRuleID : string;
  DLayer : string;
  DTarget : nat;
  DVerb : string;
  DAttribute : string
}.

(** [Decision{Allowed: true}] and the keyed literals of the sources. *)
Definition decision_allow : Decision :=
  {| Allowed := true; Reason := ReasonNone; DRuleID := ""; DLayer := ""; DTarget := 0; DVerb := ""; DAttribute := "" |}.
Definition decision_deny (r : DenialReason) (rule layer : string) (target : nat) (verb attribute : string) : Decision :=
  {| Allowed := false; Reason := r; DRuleID := rule; DLayer := layer; DTarget := target; DVerb := verb; DAttribute := attribute |}.

(** ** Selectors *)

Inductive matchState := matchNo | matchYes | matchUnresolved.
#[export] Instance matchState_eq_dec : EqDecision matchState.
Proof. solve_decision. Defined.

(** The [checks] table of [matchSelector]. *)
Definition selector_checks (selector : Selector) (target : WriteTarget) : list (string * list string * string) :=
  [("service", Services selector, Service target);
   ("kind", Kinds selector, Kind target);
   ("project", Projects selector, Project target);
   ("key", Keys selector, Key target);
   ("space", Spaces selector, Space target);
   ("id", IDs selector, ID target)]%string.

Definition nonempty (values : list string) : bool := negb (length values =? 0)%nat.

Definition matchSelector (selector : Selector) (target : WriteTarget) : matchState * string :=
  let checks := selector_checks selector target in
  match first_some (λ _ '(name, values, actual),
      if nonempty values && negb (bool_decide (actual = "")) && negb (containsString values actual)
      then Some (matchNo, ""%string) else None) 0 checks with
  | Some r => r
  | None =>
      match first_some (λ _ '(name, values, actual),
          if nonempty values && bool_decide (actual = "") then Some (matchUnresolved, name) else None) 0 checks with
      | Some r => r
      | None =>
          if nonempty (Under selector) then
            if negb (bool_decide (Service target = "confluence")) then (matchUnresolved, "under"%string)
            else if negb (bool_decide (ID target = "")) && containsString (Under selector) (ID target) then (matchYes, ""%string)
            else match AncestorIDs target with
                 | None => (matchUnresolved, "under"%string)
                 | Some ancestors =>
                     if existsb (containsString (Under selector)) ancestors then (matchYes, ""%string)
                     else (matchNo, ""%string)
                 end
          else (matchYes, ""%string)
      end
  end.

(** ** Evaluation *)

Section evaluate.
Context (ToUpper : string → string).

Definition validTarget (target : WriteTarget) : bool :=
  if negb (bool_decide (Service target = "jira")) && negb (bool_decide (Service target = "confluence")) then false
  else if bool_decide (Kind target = "") then false
  else if (if bool_decide (Service target = "jira") then
      negb (containsString ["issue"; "sprint"; "link"; "attachment"; "worklog"; "watcher"]%string (Kind target)) ||
      negb (bool_decide (Space target = "")) || negb (bool_decide (AncestorIDs target = None)) ||
      (negb (bool_decide (ID target = "")) && negb (bool_decide (Kind target = "sprint")) && negb (bool_decide (Kind target = "issue"))) ||
      ((bool_decide (Kind target = "sprint") || negb (bool_decide (ID target = ""))) && negb (ValidConfluenceContentID (ID target)))
    else
      negb (containsString ["page"; "blogpost"; "attachment"; "comment"]%string (Kind target)) ||
      negb (bool_decide (Project target = "")) || negb (bool_decide (Key target = ""))) then false
  else if negb (bool_decide (Key target = "")) && negb (ValidJiraIssueKey (Key target)) then false
  else if negb (bool_decide (Project target = "")) && negb (ValidJiraIssueKey (String.append (Project target) "-1")) then false
  else if negb (bool_decide (ID target = "")) && bool_decide (Service target = "confluence") &&
          negb (ValidConfluenceContentID (ID target)) then false
  else if negb (forallb ValidConfluenceContentID (default [] (AncestorIDs target))) then false
  else bool_decide (Project target = ToUpper (Project target)) && bool_decide (Space target = ToUpper (Space target)).

Definition containsVerb := containsString.

(** The deny scan of [decideLayer]. *)
Definition deny_scan (layer : Layer) (request : WriteAuthorizationRequest) : option Decision :=
  first_some (λ targetIndex target,
    first_some (λ _ verb,
      first_some (λ _ rule,
        if negb (bool_decide (Effect rule = EffectDeny)) || negb (containsVerb (RuleVerbs rule) verb) then None
        else match matchSelector (Resource rule) target with
             | (matchYes, _) => Some (decision_deny ReasonExplicitDeny (RuleID rule) (Source layer) targetIndex verb "")
             | (matchUnresolved, attribute) =>
                 Some (decision_deny ReasonScopeUnresolved (RuleID rule) (Source layer) targetIndex verb attribute)
             | (matchNo, _) => None
             end) 0 (Rules (LayerPolicy layer))) 0 (Verbs request)) 0 (Targets request).

(** The inner allow loop: some allow rule for [verb] matches [target]. *)
Definition some_allow (layer : Layer) (target : WriteTarget) (verb : string) : bool :=
  existsb (λ rule,
    bool_decide (Effect rule = EffectAllow) && containsVerb (RuleVerbs rule) verb &&
    bool_decide ((matchSelector (Resource rule) target).1 = matchYes)) (Rules (LayerPolicy layer)).

Definition allow_scan (layer : Layer) (request : WriteAuthorizationRequest) : option Decision :=
  first_some (λ targetIndex target,
    first_some (λ _ verb,
      if some_allow layer target verb then None
      else
        let reason := if bool_decide (ScopeAttribute request = "") then ReasonNoMatchingAllow else ReasonScopeUnresolved in
        Some (decision_deny reason "" (Source layer) targetIndex verb (ScopeAttribute request)))
      0 (Verbs request)) 0 (Targets request).

Definition decideLayer (layer : Layer) (request : WriteAuthorizationRequest) : Decision :=
  match deny_scan layer request with
  | Some d => d
  | None => match allow_scan layer request with
            | Some d => d
            | None => decision_allow
            end
  end.

Definition scope_reason (p : WriteScopeProblem) : DenialReason :=
  match p with
  | WriteScopeUnresolved => ReasonScopeUnresolved
  | WriteScopeUnavailable => ReasonScopeUnavailable
  | WriteScopeContradiction => ReasonScopeContradiction
  | WriteScopeProtectedSubtree => ReasonProtectedSubtree
  | WriteScopeContainedContent => ReasonContainedContentDenied
  | _ => reasonInvalidRequest
  end.

Definition Decide (layers : list Layer) (request : WriteAuthorizationRequest) : Decision :=
  if (length layers =? 0)%nat then decision_allow
  else if negb (bool_decide (ScopeProblem request = WriteScopeResolved)) then
    decision_deny (scope_reason (ScopeProblem request)) (ScopeRuleID request) "" 0 "" (ScopeAttribute request)
  else if negb (ValidWriteVerbSet (Verbs request)) || (length (Targets request) =? 0)%nat then
    decision_deny reasonInvalidRequest "" "" 0 "" ""
  else
    match first_some (λ index target, if validTarget target then None
                                      else Some (decision_deny reasonInvalidRequest "" "" index "" "")) 0 (Targets request) with
    | Some d => d
    | None =>
        match first_some (λ _ layer, let decision := decideLayer layer request in
                                     if Allowed decision then None else Some decision) 0 layers with
        | Some d => d
        | None => decision_allow
        end
    end.

(** ** Denials *)

Inductive Advice := AdviceNoRetry | AdviceOutOfScope | AdviceNarrowScope | AdviceWaitThenRetry.

Record DenialTarget := {
  TService : string; TKind : string; TID : string; TProject : string; TKey : string; TSpace : string;
  TAncestorIDs : list string
}.
Definition zero_target : DenialTarget :=
  {| TService := ""; TKind := ""; TID := ""; TProject := ""; TKey := ""; TSpace := ""; TAncestorIDs := [] |}.

Record DenialDecision := { DDLayer : string; DDRuleID : option string; DDEffect : string }.
Record DenialPolicyDigest := { Managed : option string; User : option string }.

Record DenialDetails := {
  Phase : string;
  DetVerbs : list string;
  Target : DenialTarget;
  DecidedBy : DenialDecision;
  DetReason : DenialReason;
  AllowedVerbsHere : list string;
  DetAdvice : Advice;
  PolicyDigest : DenialPolicyDigest;
  PolicySource : string;
  DetAttribute : string;
  DetRetrySafe : bool
}.

Record DenialError := {
  ErrReason : DenialReason;
  ErrRuleID : string;
  ErrLayer : string;
  ErrAttribute : string;
  ErrAdvice : Advice;
  RetrySafe : bool;
  Details : DenialDetails
}.

Definition policyLayerName (source : string) : string :=
  if bool_decide (source = "env_inline") || bool_decide (source = "env_file") then "managed"
  else if bool_decide (source = "config_dir") then "user"
  else source.

Definition allWriteVerbs : list string :=
  [WriteVerbCreate; WriteVerbUpdate; WriteVerbComment; WriteVerbTransition; WriteVerbMove; WriteVerbDelete].

Definition allowedVerbsForTarget (layers : list Layer) (target : WriteTarget) : list string :=
  filter (λ verb, Allowed (Decide layers
    {| Verbs := [verb]; Targets := [target]; ScopeProblem := WriteScopeResolved;
       ScopeRuleID := ""; ScopeAttribute := "" |}) = true) allWriteVerbs.

Definition decision_advice (r : DenialReason) : Advice :=
  if bool_decide (r = ReasonScopeUnavailable) then AdviceWaitThenRetry
  else if bool_decide (r = ReasonProtectedSubtree) || bool_decide (r = ReasonContainedContentDenied) then AdviceNarrowScope
  else if bool_decide (r = ReasonScopeUnresolved) || bool_decide (r = ReasonScopeContradiction) then AdviceNoRetry
  else AdviceOutOfScope.

(** The digest loop shared by [denialFromDecision] and [NewSourceDenial]. *)
Definition policy_digests (layers : list Layer) : DenialPolicyDigest :=
  foldl (λ acc layer,
    if bool_decide (Source layer = "config_dir") then {| Managed := Managed acc; User := Some (LayerDigest layer) |}
    else if bool_decide (Source layer = "env_inline") || bool_decide (Source layer = "env_file")
    then {| Managed := Some (LayerDigest layer); User := User acc |}
    else acc) {| Managed := None; User := None |} layers.

Definition denialFromDecision (decision : Decision) (request : WriteAuthorizationRequest) (layers : list Layer) : DenialError :=
  let advice := decision_advice (Reason decision) in
  let retrySafe := bool_decide (Reason decision = ReasonScopeUnavailable) in
  let by0 := {| DDLayer := policyLayerName (DLayer decision); DDRuleID := None; DDEffect := "default_deny" |} in
  let '(by1, source) :=
    match layers with
    | l :: _ => if bool_decide (DDLayer by0 = "")
                then ({| DDLayer := policyLayerName (Source l); DDRuleID := None; DDEffect := "scope_error" |}, Source l)
                else (by0, DLayer decision)
    | [] => (by0, DLayer decision)
    end in
  let by2 := if bool_decide (DRuleID decision = "") then by1
             else {| DDLayer := DDLayer by1; DDRuleID := Some (DRuleID decision); DDEffect := "deny" |} in
  {| ErrReason := Reason decision; ErrRuleID := DRuleID decision; ErrLayer := DLayer decision;
     ErrAttribute := DAttribute decision; ErrAdvice := advice; RetrySafe := retrySafe;
     Details :=
       {| Phase := "resolved"; DetVerbs := Verbs request;
          Target := match Targets request !! DTarget decision with
                    | Some t => {| TService := Service t; TKind := Kind t; TID := ID t; TProject := Project t;
                                   TKey := Key t; TSpace := Space t; TAncestorIDs := default [] (AncestorIDs t) |}
                    | None => zero_target
                    end;
          DecidedBy := by2; DetReason := Reason decision;
          AllowedVerbsHere :=
            if bool_decide (ScopeProblem request = WriteScopeResolved) then
              match Targets request !! DTarget decision with
              | Some t => allowedVerbsForTarget layers t
              | None => []
              end
            else [];
          DetAdvice := advice; PolicyDigest := policy_digests layers; PolicySource := source;
          DetAttribute := DAttribute decision; DetRetrySafe := retrySafe |} |}.

Definition set_phase (p : string) (e : DenialError) : DenialError :=
  let d := Details e in
  {| ErrReason := ErrReason e; ErrRuleID := ErrRuleID e; ErrLayer := ErrLayer e; ErrAttribute := ErrAttribute e;
     ErrAdvice := ErrAdvice e; RetrySafe := RetrySafe e;
     Details := {| Phase := p; DetVerbs := DetVerbs d; Target := Target d; DecidedBy := DecidedBy d; DetReason := DetReason d;
                   AllowedVerbsHere := AllowedVerbsHere d; DetAdvice := DetAdvice d; PolicyDigest := PolicyDigest d;
                   PolicySource := PolicySource d; DetAttribute := DetAttribute d; DetRetrySafe := DetRetrySafe d |} |}.

(** ** Preflight *)

(** Some allow rule for [verb] may still match [target] once it is resolved. *)
Definition possible_allow (layer : Layer) (target : WriteTarget) (verb : string) : bool :=
  existsb (λ rule,
    bool_decide (Effect rule = EffectAllow) && containsVerb (RuleVerbs rule) verb &&
    (bool_decide ((matchSelector (Resource rule) target).1 = matchYes) ||
     bool_decide ((matchSelector (Resource rule) target).1 = matchUnresolved))) (Rules (LayerPolicy layer)).

Definition preflight_decision (layers : list Layer) (request : WriteAuthorizationRequest) : option Decision :=
  first_some (λ _ layer,
    first_some (λ targetIndex target,
      first_some (λ _ verb,
        match first_some (λ _ rule,
            if negb (bool_decide (Effect rule = EffectDeny)) || negb (containsVerb (RuleVerbs rule) verb) then None
            else if bool_decide ((matchSelector (Resource rule) target).1 = matchYes)
                 then Some (decision_deny ReasonExplicitDeny (RuleID rule) (Source layer) targetIndex verb "")
                 else None) 0 (Rules (LayerPolicy layer)) with
        | Some d => Some d
        | None => if possible_allow layer target verb then None
                  else Some (decision_deny ReasonNoMatchingAllow "" (Source layer) targetIndex verb "")
        end) 0 (Verbs request)) 0 (Targets request)) 0 layers.

Definition PreflightDeny (layers : list Layer) (request : WriteAuthorizationRequest) : option DenialError :=
  if (length layers =? 0)%nat || negb (ValidWriteVerbSet (Verbs request)) || (length (Targets request) =? 0)%nat then None
  else if existsb (λ target, (negb (bool_decide (Service target = "jira")) && negb (bool_decide (Service target = "confluence")))
                             || bool_decide (Kind target = "")) (Targets request) then None
  else match preflight_decision layers request with
       | Some decision => Some (set_phase "preflight" (denialFromDecision decision request layers))
       | None => None
       end.

(** ** The authorizer *)

(** [None] is a nil [*Authorizer]; otherwise its frozen layers. *)
Definition Authorizer := option (list Layer).

(** [cloneLayers] copies every slice; the copy is the same value. *)
Definition NewAuthorizer (resolved : option (list Layer)) : Authorizer := Some (default [] resolved).

Inductive AuthorizeError :=
| CheckFailedInvalidRequest
| Denied (e : DenialError).

Definition Authorize (a : Authorizer) (ctx : RequestContext) (request : WriteAuthorizationRequest) :
    RequestContext * option AuthorizeError :=
  let layers := default [] a in
  let decision0 := Decide layers request in
  let decision := if Allowed decision0 && UntrustedConfluenceReference ctx
                  then decision_deny ReasonScopeUnresolved "" "" 0 "" "id" else decision0 in
  if negb (Allowed decision) then
    if bool_decide (Reason decision = reasonInvalidRequest) then (ctx, Some CheckFailedInvalidRequest)
    else (ctx, Some (Denied (denialFromDecision decision request layers)))
  else (WithWriteClearance ctx, None).

Definition Preflight (a : Authorizer) (request : WriteAuthorizationRequest) : option DenialError :=
  match a with
  | None => None
  | Some layers => PreflightDeny layers request
  end.

Definition RequiredWriteScope (a : Authorizer) (service : string) : WriteScopeRequirements :=
  let rules := filter (λ rule, containsString (Services (Resource rule)) service = true)
                 (default [] a ≫= λ layer, Rules (LayerPolicy layer)) in
  {| ReqKind := existsb (λ rule, nonempty (Kinds (Resource rule))) rules;
     ReqSpace := existsb (λ rule, nonempty (Spaces (Resource rule))) rules;
     ReqAncestors := existsb (λ rule, nonempty (Under (Resource rule))) rules |}.

(** The [seen]-guarded append loop over the deny-under anchors. *)
Fixpoint anchors_loop (seen : gset string) (ps : list (string * string)) : list WriteHierarchyAnchor :=
  match ps with
  | [] => []
  | (anchor, rule) :: ps' =>
      if bool_decide (anchor ∈ seen) then anchors_loop seen ps'
      else {| AnchorID := anchor; AnchorRuleID := rule |} :: anchors_loop ({[anchor]} ∪ seen) ps'
  end.

Definition DenyUnderAnchors (a : Authorizer) : list WriteHierarchyAnchor :=
  anchors_loop ∅
    (default [] a ≫= λ layer, Rules (LayerPolicy layer) ≫= λ rule,
       if negb (bool_decide (Effect rule = EffectDeny)) || negb (containsString (Services (Resource rule)) "confluence") then []
       else (λ anchor, (anchor, RuleID rule)) <$> Under (Resource rule)).

Definition PageDeleteScopeProblem (a : Authorizer) (target : WriteTarget) : WriteScopeProblem * string * string :=
  match a with
  | None => (WriteScopeResolved, ""%string, ""%string)
  | Some layers =>
      default (WriteScopeResolved, ""%string, ""%string)
        (first_some (λ _ layer, first_some (λ _ rule,
          if negb (bool_decide (Effect rule = EffectDeny)) || negb (containsVerb (RuleVerbs rule) WriteVerbDelete) ||
             negb (containsString (Services (Resource rule)) "confluence") ||
             (negb (containsString (Kinds (Resource rule)) "attachment") && negb (containsString (Kinds (Resource rule)) "comment"))
          then None
          else
            let r := Resource rule in
            let selector := {| Services := Services r; Kinds := []; Projects := Projects r; Keys := Keys r;
                               Spaces := Spaces r; IDs := []; Under := Under r |} in
            match matchSelector selector target with
            | (matchYes, _) =>
                if nonempty (IDs r) then Some (WriteScopeUnresolved, "id"%string, RuleID rule)
                else Some (WriteScopeContainedContent, "contained_content"%string, RuleID rule)
            | (matchUnresolved, attribute) => Some (WriteScopeUnresolved, attribute, RuleID rule)
            | (matchNo, _) => None
            end) 0 (Rules (LayerPolicy layer))) 0 layers)
  end.

(** ** Policy documents (source.go) *)

Record selectorJSON := {
  JService : list string; JKind : list string; JProject : list string; JKey : list string;
  JSpace : list string; JID : list string; JUnder : list string
}.
Record ruleJSON := { JRuleID : string; JEffect : string; JVerbs : list string; JResource : selectorJSON }.
Record backendJSON := { JJiraSHA256 : string; JConfluenceSHA256 : string }.
Record policyJSON := { JSchemaVersion : Z; JRules : list ruleJSON; JBackend : option backendJSON }.

Record Warning := { WSource : string; WRuleID : string; WMessage : string }.

(** The [fmt.Errorf] sites, one constructor each (the [rule %q: %w] wrapping of
    [validatePolicy] is dropped). *)
Inductive policyError :=
| ErrUnsupportedVersion | ErrRuleCount | ErrBackendMalformed (name : string) | ErrDuplicateRuleID (id : string)
| ErrInvalidRuleID | ErrEffect | ErrVerbsEmpty | ErrUnknownVerb (name : string) | ErrDuplicateVerb (verb : string)
| ErrServiceRequired | ErrUnknownService (s : string) | ErrKindValue (k : string) | ErrInvalidProject (p : string)
| ErrInvalidKey (k : string) | ErrKindRequiredWithID | ErrInvalidContentID (id : string)
| ErrExactValue (name : string) | ErrDuplicateValue (name value : string).

Local Open Scope atl_scope.

(** [validDigest] of digest.go: ["sha256:"] and 64 hex digits, all lower case. *)
Definition validDigest (value : string) : bool :=
  let s := bytes_of value in
  if negb (GoText.has_prefix s (txt "sha256:")) || negb (length s =? 71)%nat then false
  else hex_decodes (drop 7 s) && forallb (λ c, negb (is_upper c)) s.

(** [^[a-z0-9][a-z0-9-]{0,63}$] and [^[a-z][a-z0-9_-]{0,31}$]. *)
Definition ruleIDPattern (value : string) : bool :=
  match bytes_of value with
  | c :: r => (is_lower c || is_digit c) && (length r <=? 63)%nat &&
              forallb (λ c, is_lower c || is_digit c || bool_decide (c = "-"%char)) r
  | [] => false
  end.
Definition kindPattern (value : string) : bool :=
  match bytes_of value with
  | c :: r => is_lower c && (length r <=? 31)%nat &&
              forallb (λ c, is_lower c || is_digit c || bool_decide (c = "_"%char) || bool_decide (c = "-"%char)) r
  | [] => false
  end.

(** [expandVerbs]: the inner loop over one expanded class. *)
Fixpoint expand_class (seen : gset string) (verbs : list string) (expanded : list string) : result policyError (gset string * list string) :=
  match expanded with
  | [] => Ok (seen, verbs)
  | verb :: expanded' =>
      if bool_decide (verb ∈ seen) then Err (ErrDuplicateVerb verb)
      else expand_class ({[verb]} ∪ seen) (verbs ++ [verb]) expanded'
  end.

Fixpoint expand_loop (seen : gset string) (verbs : list string) (raw : list string) : result policyError (list string) :=
  match raw with
  | [] => Ok verbs
  | name :: raw' =>
      let! expanded :=
        (if bool_decide (name = "write") then Ok [WriteVerbCreate; WriteVerbUpdate; WriteVerbComment]
         else if bool_decide (name = "delete") then Ok [WriteVerbDelete]
         else if negb (ValidWriteVerb name) then Err (ErrUnknownVerb name) else Ok [name]) in
      let! sv := expand_class seen verbs expanded in
      expand_loop sv.1 sv.2 raw'
  end.

Definition expandVerbs (raw : list string) : result policyError (list string) :=
  if (length raw =? 0)%nat then Err ErrVerbsEmpty else expand_loop ∅ [] raw.

Definition str_le (a b : string) : Prop := String.leb a b = true.
#[local] Instance str_le_dec : RelDecision str_le.
Proof. intros a b. unfold str_le. apply _. Defined.

Fixpoint normalize_loop (name : string) (uppercase : bool) (seen : gset string) (acc : list string) (values : list string)
    : result policyError (list string) :=
  match values with
  | [] => Ok acc
  | v :: values' =>
      let value := if uppercase then ToUpper v else v in
      if bool_decide (value = "") || negb (bool_decide (GoText.trim_space (bytes_of value) = bytes_of value)) ||
         existsb (λ c, bool_decide (c = "*"%char) || bool_decide (c = "?"%char)) (bytes_of value)
      then Err (ErrExactValue name)
      else if bool_decide (value ∈ seen) then Err (ErrDuplicateValue name value)
      else normalize_loop name uppercase ({[value]} ∪ seen) (acc ++ [value]) values'
  end.

Definition normalizedValues (name : string) (values : list string) (uppercase : bool) : result policyError (list string) :=
  let! r := normalize_loop name uppercase ∅ [] values in Ok (merge_sort str_le r).

(** A [for] loop that refuses the first value failing a predicate. *)
Definition check_all (f : string → bool) (e : string → policyError) (values : list string) : result policyError unit :=
  match first_some (λ _ v, if f v then None else Some v) 0 values with
  | Some v => Err (e v)
  | None => Ok tt
  end.

Definition validateSelector (raw : selectorJSON) : result policyError Selector :=
  let! services := match normalizedValues "service" (JService raw) false with
                   | Ok [] | Err _ => Err ErrServiceRequired
                   | Ok l => Ok l
                   end in
  let! _ := check_all (λ s, bool_decide (s = "jira") || bool_decide (s = "confluence")) ErrUnknownService services in
  let! kinds := normalizedValues "kind" (JKind raw) false in
  let! _ := check_all kindPattern ErrKindValue kinds in
  let! projects := normalizedValues "project" (JProject raw) true in
  let! _ := check_all (λ p, ValidJiraIssueKey (String.append p "-1")) ErrInvalidProject projects in
  let! keys := normalizedValues "key" (JKey raw) true in
  let! _ := check_all ValidJiraIssueKey ErrInvalidKey keys in
  let! spaces := normalizedValues "space" (JSpace raw) true in
  let! ids := normalizedValues "id" (JID raw) false in
  let! under := normalizedValues "under" (JUnder raw) false in
  if nonempty ids && negb (nonempty kinds) then Err ErrKindRequiredWithID
  else
    let! _ := check_all ValidConfluenceContentID ErrInvalidContentID (ids ++ under) in
    Ok {| Services := services; Kinds := kinds; Projects := projects; Keys := keys; Spaces := spaces;
          IDs := ids; Under := under |}.

Definition kindProducedByServices (kind : string) (services : list string) : bool :=
  containsString services "jira" && containsString ["issue"; "sprint"; "link"; "attachment"; "worklog"; "watcher"]%string kind ||
  containsString services "confluence" && containsString ["page"; "blogpost"; "attachment"; "comment"]%string kind.

Definition selectorCanProduceID (selector : Selector) : bool :=
  existsb (λ kind,
    containsString (Services selector) "jira" && (bool_decide (kind = "issue") || bool_decide (kind = "sprint")) ||
    containsString (Services selector) "confluence" && containsString ["page"; "blogpost"; "attachment"; "comment"]%string kind)
    (Kinds selector).

(** The quote character of [%q]; kinds are plain identifiers, so quoting adds
    nothing else. *)
Definition dquote : string := String "034"%char EmptyString.

Definition rule_warnings (id : string) (verbs : list string) (selector : Selector) : list Warning :=
  let warn (m : string) := {| WSource := ""; WRuleID := id; WMessage := m |} in
  (if containsVerb verbs WriteVerbCreate && nonempty (IDs selector) then [warn "create with id can never match"%string] else []) ++
  (if containsVerb verbs WriteVerbTransition && containsString (Services selector) "confluence"
   then [warn "Confluence transition can never match"%string] else []) ++
  (Kinds selector ≫= λ kind, if kindProducedByServices kind (Services selector) then []
                             else [warn (String.concat "" ["kind "; dquote; kind; dquote; " cannot be produced by the selected service"]%string)]) ++
  (if (nonempty (Projects selector) || nonempty (Keys selector)) && negb (containsString (Services selector) "jira")
   then [warn "Jira selectors cannot be produced by the selected service"%string] else []) ++
  (if (nonempty (Spaces selector) || nonempty (Under selector)) && negb (containsString (Services selector) "confluence")
   then [warn "Confluence selectors cannot be produced by the selected service"%string] else []) ++
  (if nonempty (IDs selector) && negb (selectorCanProduceID selector)
   then [warn "id cannot be produced by the selected service and kind"%string] else []) ++
  (if nonempty (IDs selector) && containsString (Services selector) "jira" && containsString (Kinds selector) "issue"
   then [warn "Jira issue id is produced only by guarded comment targets; other Jira issue targets omit id"%string] else []).

Definition validateRule (raw : ruleJSON) : result policyError (Rule * list Warning) :=
  let! _ := guard_err (ruleIDPattern (JRuleID raw)) ErrInvalidRuleID in
  let! _ := guard_err (bool_decide (JEffect raw = EffectAllow) || bool_decide (JEffect raw = EffectDeny)) ErrEffect in
  let! verbs := expandVerbs (JVerbs raw) in
  let! selector := validateSelector (JResource raw) in
  Ok ({| RuleID := JRuleID raw; Effect := JEffect raw; RuleVerbs := verbs; Resource := selector |},
      rule_warnings (JRuleID raw) verbs selector).

Fixpoint validate_rules (seenIDs : gset string) (rules : list Rule) (warnings : list Warning) (raws : list ruleJSON)
    : result policyError (list Rule * list Warning) :=
  match raws with
  | [] => Ok (rules, warnings)
  | raw :: raws' =>
      let! rw := validateRule raw in
      if bool_decide (RuleID rw.1 ∈ seenIDs) then Err (ErrDuplicateRuleID (RuleID rw.1))
      else validate_rules ({[RuleID rw.1]} ∪ seenIDs) (rules ++ [rw.1]) (warnings ++ rw.2) raws'
  end.

Definition validatePolicy (document : policyJSON) : result policyError (Policy * list Warning) :=
  let! _ := guard_err (JSchemaVersion document =? 1)%Z ErrUnsupportedVersion in
  let! _ := guard_err (negb ((length (JRules document) =? 0)%nat || (256 <? length (JRules document))%nat)) ErrRuleCount in
  let! backend :=
    match JBackend document with
    | None => Ok {| JiraSHA256 := ""; ConfluenceSHA256 := "" |}
    | Some b =>
        let! _ := guard_err (bool_decide (JJiraSHA256 b = "") || validDigest (JJiraSHA256 b)) (ErrBackendMalformed "jira_sha256") in
        let! _ := guard_err (bool_decide (JConfluenceSHA256 b = "") || validDigest (JConfluenceSHA256 b)) (ErrBackendMalformed "confluence_sha256") in
        Ok {| JiraSHA256 := JJiraSHA256 b; ConfluenceSHA256 := JConfluenceSHA256 b |}
    end in
  let! rw := validate_rules ∅ [] [] (JRules document) in
  Ok ({| PolicyVersion := 1; Rules := rw.1; Backend := backend |}, rw.2).

(** ** Declarative reading of the policy *)

(** A deny rule speaks against a pair unless its selector surely misses it. *)
Definition rule_denies (rule : Rule) (target : WriteTarget) (verb : string) : Prop :=
  Effect rule = EffectDeny ∧ verb ∈ RuleVerbs rule ∧ (matchSelector (Resource rule) target).1 ≠ matchNo.

Definition rule_allows (rule : Rule) (target : WriteTarget) (verb : string) : Prop :=
  Effect rule = EffectAllow ∧ verb ∈ RuleVerbs rule ∧ (matchSelector (Resource rule) target).1 = matchYes.

Definition layer_admits (layer : Layer) (request : WriteAuthorizationRequest) : Prop :=
  ∀ target verb, target ∈ Targets request → verb ∈ Verbs request →
    (∃ rule, rule ∈ Rules (LayerPolicy layer) ∧ rule_allows rule target verb) ∧
    (∀ rule, rule ∈ Rules (LayerPolicy layer) → ¬ rule_denies rule target verb).

Lemma first_some_index_None {A B} (f : nat → A → option B) i l :
  (∀ k k' x, f k x = None → f k' x = None) →
  first_some f i l = None ↔ ∀ x, x ∈ l → f 0 x = None.
Proof.
  intros Hext. rewrite first_some_None. split.
  - intros H x (k & Hk)%list_elem_of_lookup. eapply Hext, (H k x Hk).
  - intros H k x Hk. eapply Hext, H. by eapply list_elem_of_lookup_2.
Qed.

Lemma deny_scan_None layer request : deny_scan layer request = None ↔
  ∀ target verb rule, target ∈ Targets request → verb ∈ Verbs request →
    rule ∈ Rules (LayerPolicy layer) → ¬ rule_denies rule target verb.
Proof.
  unfold deny_scan. rewrite first_some_None. split.
  - intros H target verb rule (k & Ht)%list_elem_of_lookup Hv Hr (He & Hvr & Hm).
    specialize (H k target Ht). rewrite first_some_None_elem in H. specialize (H verb Hv).
    rewrite first_some_None_elem in H. specialize (H rule Hr).
    unfold containsVerb in H.
    rewrite bool_decide_eq_true_2, (proj2 (containsString_spec _ _) Hvr) in H by done. cbn in H.
    destruct (matchSelector _ _) as [[] a]; done.
  - intros H k target Hk. apply list_elem_of_lookup_2 in Hk.
    apply first_some_None_elem. intros verb Hv. apply first_some_None_elem. intros rule Hr.
    case_bool_decide as He; [|done]. destruct (containsVerb _ _) eqn:Hc; [|done]. cbn.
    apply containsString_spec in Hc.
    specialize (H target verb rule Hk Hv Hr). unfold rule_denies in H.
    destruct (matchSelector _ _) as [[] a]; [done|exfalso; by apply H..].
Qed.

Lemma some_allow_spec layer target verb : some_allow layer target verb = true ↔
  ∃ rule, rule ∈ Rules (LayerPolicy layer) ∧ rule_allows rule target verb.
Proof.
  unfold some_allow, containsVerb. rewrite existsb_elem. split; intros (rule & Hr & H); exists rule; (split; [done|]).
  - apply andb_true_iff in H as [[H1 H2]%andb_true_iff H3].
    apply bool_decide_eq_true_1 in H1, H3. by apply containsString_spec in H2.
  - destruct H as (H1 & H2 & H3). rewrite !bool_decide_eq_true_2 by done.
    by rewrite (proj2 (containsString_spec _ _) H2).
Qed.

Lemma allow_scan_None layer request : allow_scan layer request = None ↔
  ∀ target verb, target ∈ Targets request → verb ∈ Verbs request →
    ∃ rule, rule ∈ Rules (LayerPolicy layer) ∧ rule_allows rule target verb.
Proof.
  unfold allow_scan. rewrite first_some_None. split.
  - intros H target verb (k & Ht)%list_elem_of_lookup Hv. apply some_allow_spec.
    specialize (H k target Ht). rewrite first_some_None_elem in H. specialize (H verb Hv). simpl in H.
    by destruct (some_allow layer target verb).
  - intros H k target Hk. apply list_elem_of_lookup_2 in Hk. apply first_some_None_elem. intros verb Hv.
    by rewrite (proj2 (some_allow_spec _ _ _) (H _ _ Hk Hv)).
Qed.

Lemma deny_scan_denied layer request d : deny_scan layer request = Some d → Allowed d = false.
Proof.
  intros (k & target & _ & H)%first_some_Some.
  apply first_some_Some in H as (k' & verb & _ & H). apply first_some_Some in H as (k'' & rule & _ & H).
  destruct (_ || _); [done|]. by destruct (matchSelector _ _) as [[] a]; simplify_eq.
Qed.

Lemma allow_scan_denied layer request d : allow_scan layer request = Some d → Allowed d = false.
Proof.
  intros (k & target & _ & H)%first_some_Some.
  apply first_some_Some in H as (k' & verb & _ & H). by destruct (some_allow _ _ _); simplify_eq/=.
Qed.

Lemma decideLayer_allowed layer request :
  Allowed (decideLayer layer request) = true ↔ layer_admits layer request.
Proof.
  unfold decideLayer, layer_admits.
  destruct (deny_scan layer request) as [d|] eqn:Hd; [|destruct (allow_scan layer request) as [d|] eqn:Ha].
  - rewrite (deny_scan_denied _ _ _ Hd). split; [done|]. intros H. exfalso.
    assert (deny_scan layer request = None) as Hn; [|congruence].
    apply (proj2 (deny_scan_None _ _)). intros target verb rule Ht Hv. by apply (H target verb Ht Hv).
  - rewrite (allow_scan_denied _ _ _ Ha). split; [done|]. intros H. exfalso.
    assert (allow_scan layer request = None) as Hn; [|congruence].
    apply (proj2 (allow_scan_None _ _)). intros target verb Ht Hv. by apply (H target verb Ht Hv).
  - split; [|done]. intros _ target verb Ht Hv.
    split; [by apply (proj1 (allow_scan_None _ _) Ha)|].
    intros rule Hr. by apply (proj1 (deny_scan_None _ _) Hd).
Qed.

(** The conditions under which the request itself is well formed. *)
Definition request_resolved (request : WriteAuthorizationRequest) : Prop :=
  ScopeProblem request = WriteScopeResolved ∧ ValidWriteVerbSet (Verbs request) = true ∧
  Targets request ≠ [] ∧ ∀ target, target ∈ Targets request → validTarget target = true.

Lemma length_eqb_nil {A} (l : list A) : (length l =? 0)%nat = true ↔ l = [].
Proof. rewrite Nat.eqb_eq. split; [by apply nil_length_inv|by intros ->]. Qed.

Lemma Decide_allowed_spec layers request : layers ≠ [] →
  Allowed (Decide layers request) = true ↔
    request_resolved request ∧ ∀ layer, layer ∈ layers → layer_admits layer request.
Proof.
  intros Hne. unfold Decide, request_resolved.
  destruct (length layers =? 0)%nat eqn:Hl; [by apply length_eqb_nil in Hl|].
  case_bool_decide as Hs; cbn [negb]; [|naive_solver].
  destruct (ValidWriteVerbSet (Verbs request)) eqn:Hv; cbn [negb orb]; [|naive_solver].
  destruct (length (Targets request) =? 0)%nat eqn:Ht; cbn [orb].
  { apply length_eqb_nil in Ht. naive_solver. }
  assert (Targets request ≠ []) as Hne' by (intros Hn; apply length_eqb_nil in Hn; congruence).
  destruct (first_some _ 0 (Targets request)) as [d|] eqn:Hf.
  - apply first_some_Some in Hf as (k & target & Hk & Hd).
    destruct (validTarget target) eqn:Hvt; simplify_eq. split; [done|].
    intros [(_ & _ & _ & H) _]. rewrite (H target) in Hvt; [done|]. by eapply list_elem_of_lookup_2.
  - assert (∀ target, target ∈ Targets request → validTarget target = true) as Hvt.
    { intros target (k & Hk)%list_elem_of_lookup. rewrite first_some_None in Hf.
      specialize (Hf k target Hk). by destruct (validTarget target). }
    destruct (first_some _ 0 layers) as [d|] eqn:Hg.
    + apply first_some_Some in Hg as (k & layer & Hk & Hd). cbn in Hd.
      destruct (Allowed (decideLayer layer request)) eqn:Ha; simplify_eq.
      rewrite Ha. split; [done|]. intros [_ H].
      rewrite (proj2 (decideLayer_allowed _ _)) in Ha; [done|]. apply H. by eapply list_elem_of_lookup_2.
    + split; [|done]. intros _. split; [done|]. intros layer Hin.
      rewrite first_some_None_elem in Hg. specialize (Hg layer Hin). apply decideLayer_allowed.
      by destruct (Allowed (decideLayer layer request)).
Qed.

(** ** Resolving a target further *)

(** [resolves t t']: the canonical target [t'] fills in what [t] left open.  A
    target whose hierarchy is known keeps its id (an id-less target with known
    ancestors is content that does not exist yet). *)
Definition attr_resolves (a a' : string) : Prop := a = ""%string ∨ a' = a.

Record resolves (t t' : WriteTarget) : Prop := {
  res_service : attr_resolves (Service t) (Service t');
  res_kind : attr_resolves (Kind t) (Kind t');
  res_id : attr_resolves (ID t) (ID t');
  res_project : attr_resolves (Project t) (Project t');
  res_key : attr_resolves (Key t) (Key t');
  res_space : attr_resolves (Space t) (Space t');
  res_ancestors : AncestorIDs t = None ∨ (AncestorIDs t' = AncestorIDs t ∧ ID t' = ID t)
}.

Definition check_mismatch (c : string * list string * string) : bool :=
  let '(_, values, actual) := c in
  nonempty values && negb (bool_decide (actual = "")) && negb (containsString values actual).
Definition check_open (c : string * list string * string) : bool :=
  let '(_, values, actual) := c in nonempty values && bool_decide (actual = "").

Lemma matchSelector_unfold selector target : (matchSelector selector target).1 =
  if existsb check_mismatch (selector_checks selector target) then matchNo
  else if existsb check_open (selector_checks selector target) then matchUnresolved
  else if nonempty (Under selector) then
    if negb (bool_decide (Service target = "confluence")) then matchUnresolved
    else if negb (bool_decide (ID target = "")) && containsString (Under selector) (ID target) then matchYes
    else match AncestorIDs target with
         | None => matchUnresolved
         | Some ancestors => if existsb (containsString (Under selector)) ancestors then matchYes else matchNo
         end
  else matchYes.
Proof.
  unfold matchSelector, check_mismatch, check_open. cbn [selector_checks first_some existsb].
  repeat (match goal with |- context [if ?b then Some _ else None] => destruct b end; cbn [orb fst]; [done|]).
  repeat (match goal with |- context [if ?b then Some _ else None] => destruct b end; cbn [orb fst]; [done|]).
  destruct (nonempty (Under selector)); [|done]. destruct (negb _); [done|]. destruct (_ && _); [done|].
  destruct (AncestorIDs target) as [l|]; [|done]. by destruct (existsb _ l).
Qed.

(** The six scalar checks of two targets, attribute by attribute. *)
Lemma checks_resolves selector t t' : resolves t t' →
  Forall2 (λ c c' : string * list string * string, c.1 = c'.1 ∧ attr_resolves c.2 c'.2)
    (selector_checks selector t) (selector_checks selector t').
Proof. intros []. unfold selector_checks. do 6 (constructor; [by split|]). constructor. Qed.

Lemma checks_mismatch_stable cs cs' :
  Forall2 (λ c c' : string * list string * string, c.1 = c'.1 ∧ attr_resolves c.2 c'.2) cs cs' →
  existsb check_mismatch cs = true → existsb check_mismatch cs' = true.
Proof.
  induction 1 as [|[[n v] a] [[n' v'] a'] cs cs' [[= -> ->] Ha] _ IH]; [done|]. cbn [existsb].
  rewrite !orb_true_iff. intros [H|H]; [|by auto]. left. revert H. unfold check_mismatch.
  destruct Ha as [Ha|Ha]; simpl in Ha; subst.
  - rewrite bool_decide_eq_true_2 by done. rewrite andb_false_r. done.
  - done.
Qed.

(** With every constrained attribute present and accepted, further resolution
    changes nothing. *)
Lemma checks_accepted_stable cs cs' :
  Forall2 (λ c c' : string * list string * string, c.1 = c'.1 ∧ attr_resolves c.2 c'.2) cs cs' →
  existsb check_mismatch cs = false → existsb check_open cs = false →
  existsb check_mismatch cs' = false ∧ existsb check_open cs' = false.
Proof.
  induction 1 as [|[[n v] a] [[n' v'] a'] cs cs' [[= -> ->] Ha] _ IH]; [done|]. cbn [existsb].
  rewrite !orb_false_iff. intros [Hm Hms] [Ho Hos]. destruct (IH Hms Hos) as [-> ->].
  revert Hm Ho. unfold check_mismatch, check_open.
  destruct (nonempty v'); cbn [andb]; [|done]. destruct Ha as [Ha|Ha]; simpl in Ha; subst.
  - by rewrite bool_decide_eq_true_2.
  - by intros -> ->.
Qed.

Lemma match_yes_stable selector t t' : resolves t t' →
  (matchSelector selector t).1 = matchYes → (matchSelector selector t').1 = matchYes.
Proof.
  intros Hr. rewrite !matchSelector_unfold.
  destruct (existsb check_mismatch (selector_checks selector t)) eqn:Hm; [done|].
  destruct (existsb check_open (selector_checks selector t)) eqn:Ho; [done|].
  destruct (checks_accepted_stable _ _ (checks_resolves selector _ _ Hr) Hm Ho) as [-> ->].
  destruct (nonempty (Under selector)); [|done]. case_bool_decide as Hs; cbn [negb]; [|done].
  destruct Hr as [Hsv _ Hid _ _ _ Hanc]. destruct Hsv as [Hsv|Hsv]; [congruence|rewrite Hsv].
  rewrite (bool_decide_eq_true_2 (Service t = _)) by done. cbn [negb].
  destruct (negb (bool_decide (ID t = "")) && containsString (Under selector) (ID t)) eqn:Hu.
  - intros _. apply andb_true_iff in Hu as [Hne Hc]. destruct Hid as [Hid|Hid].
    + rewrite Hid, bool_decide_eq_true_2 in Hne by done. done.
    + by rewrite Hid, Hne, Hc.
  - destruct Hanc as [->|[-> ->]]; [done|]. by rewrite Hu.
Qed.

Lemma match_no_stable selector t t' : resolves t t' →
  (matchSelector selector t).1 = matchNo → (matchSelector selector t').1 = matchNo.
Proof.
  intros Hr. rewrite !matchSelector_unfold. pose proof (checks_resolves selector _ _ Hr) as Hc.
  destruct (existsb check_mismatch (selector_checks selector t)) eqn:Hm.
  { by rewrite (checks_mismatch_stable _ _ Hc Hm). }
  destruct (existsb check_open (selector_checks selector t)) eqn:Ho; [done|].
  destruct (checks_accepted_stable _ _ Hc Hm Ho) as [-> ->].
  destruct (nonempty (Under selector)); [|done]. case_bool_decide as Hs; cbn [negb]; [|done].
  destruct Hr as [Hsv _ Hid _ _ _ Hanc]. destruct Hsv as [Hsv|Hsv]; [congruence|rewrite Hsv].
  rewrite (bool_decide_eq_true_2 (Service t = _)) by done. cbn [negb].
  destruct (negb (bool_decide (ID t = "")) && containsString (Under selector) (ID t)) eqn:Hu; [done|].
  destruct Hanc as [->|[-> ->]]; [done|]. by rewrite Hu.
Qed.

Lemma possible_allow_false layer t t' verb : resolves t t' →
  possible_allow layer t verb = false →
  ¬ ∃ rule, rule ∈ Rules (LayerPolicy layer) ∧ rule_allows rule t' verb.
Proof.
  intros Hr Hp (rule & Hin & He & Hv & Hm). apply not_true_iff_false in Hp. apply Hp.
  unfold possible_allow, containsVerb. apply existsb_elem. exists rule. split; [done|].
  rewrite bool_decide_eq_true_2 by done. rewrite (proj2 (containsString_spec _ _) Hv). cbn [andb].
  destruct (matchSelector (Resource rule) t).1 eqn:Hmt; [|done|done].
  apply (match_no_stable _ _ _ Hr) in Hmt. congruence.
Qed.

Lemma preflight_decision_refutes layers request d :
  preflight_decision layers request = Some d →
  ∃ layer target verb, layer ∈ layers ∧ (∃ k, Targets request !! k = Some target) ∧ verb ∈ Verbs request ∧
    ((∃ rule, rule ∈ Rules (LayerPolicy layer) ∧ Effect rule = EffectDeny ∧ verb ∈ RuleVerbs rule ∧
              (matchSelector (Resource rule) target).1 = matchYes) ∨
     possible_allow layer target verb = false).
Proof.
  intros (kl & layer & Hl & H)%first_some_Some.
  apply first_some_Some in H as (kt & target & Ht & H). apply first_some_Some in H as (kv & verb & Hv & H).
  exists layer, target, verb. split_and!; [by eapply list_elem_of_lookup_2|by eexists|by eapply list_elem_of_lookup_2|].
  destruct (first_some _ 0 (Rules (LayerPolicy layer))) as [d'|] eqn:Hf.
  - left. apply first_some_Some in Hf as (kr & rule & Hr & Hd). exists rule.
    destruct (bool_decide (Effect rule = EffectDeny)) eqn:He; [|done].
    destruct (containsVerb (RuleVerbs rule) verb) eqn:Hc; [|done]. cbn in Hd.
    destruct (bool_decide ((matchSelector _ _).1 = _)) eqn:Hm; [|done].
    apply bool_decide_eq_true_1 in He, Hm. apply containsString_spec in Hc.
    split_and!; try done. by eapply list_elem_of_lookup_2.
  - right. by destruct (possible_allow layer target verb).
Qed.

Lemma PreflightDeny_decision layers request e : PreflightDeny layers request = Some e →
  ∃ d, preflight_decision layers request = Some d ∧ layers ≠ [].
Proof.
  unfold PreflightDeny. destruct (_ || _ || _) eqn:Hg; [done|].
  apply orb_false_iff in Hg as [[Hl _]%orb_false_iff _]. destruct (existsb _ _); [done|].
  destruct (preflight_decision layers request) as [d|]; [|done]. intros _. exists d. split; [done|].
  by intros ->.
Qed.

(** ** What validation establishes *)

#[local] Instance str_le_total : Total str_le.
Proof. intros a b. apply String.leb_total. Qed.

(** An exact-value list: sorted, without duplicates, without empty values. *)
Record exact_values (values : list string) : Prop := {
  ev_sorted : Sorted str_le values;
  ev_nodup : NoDup values;
  ev_nonempty : ""%string ∉ values
}.

Record wf_rule (rule : Rule) : Prop := {
  wf_effect : Effect rule = EffectAllow ∨ Effect rule = EffectDeny;
  wf_verbs : ValidWriteVerbSet (RuleVerbs rule) = true;
  wf_services : Services (Resource rule) ≠ [] ∧
    ∀ s, s ∈ Services (Resource rule) → s = "jira"%string ∨ s = "confluence"%string;
  wf_exact : exact_values (Services (Resource rule)) ∧ exact_values (Kinds (Resource rule)) ∧
    exact_values (Projects (Resource rule)) ∧ exact_values (Keys (Resource rule)) ∧
    exact_values (Spaces (Resource rule)) ∧ exact_values (IDs (Resource rule)) ∧ exact_values (Under (Resource rule));
  wf_id_kind : IDs (Resource rule) ≠ [] → Kinds (Resource rule) ≠ [];
  wf_content_ids : ∀ id, id ∈ IDs (Resource rule) ++ Under (Resource rule) → ValidConfluenceContentID id = true
}.

Definition wf_policy (p : Policy) : Prop :=
  1 ≤ length (Rules p) ≤ 256 ∧ NoDup (RuleID <$> Rules p) ∧ Forall wf_rule (Rules p).

(** Invariant of the [seen]-guarded loops: the set is the set of the list. *)
Definition seen_inv (seen : gset string) (acc : list string) : Prop :=
  NoDup acc ∧ ∀ v, v ∈ seen ↔ v ∈ acc.

Lemma seen_inv_empty : seen_inv ∅ [].
Proof. split; [constructor|]. intros v. split; [set_solver|by intros ?%not_elem_of_nil]. Qed.

Lemma seen_inv_snoc seen acc v : seen_inv seen acc → v ∉ seen → seen_inv ({[v]} ∪ seen) (acc ++ [v]).
Proof.
  intros [Hn Hs] Hv. split.
  - apply NoDup_app. split_and!; [done| |apply NoDup_singleton].
    intros x Hx ->%list_elem_of_singleton. by apply Hv, Hs.
  - intros x. rewrite elem_of_app, list_elem_of_singleton, <- Hs, elem_of_union, elem_of_singleton. tauto.
Qed.

Lemma normalize_loop_wf name up seen acc values r :
  seen_inv seen acc → ""%string ∉ acc →
  normalize_loop name up seen acc values = Ok r → NoDup r ∧ ""%string ∉ r.
Proof.
  revert seen acc. induction values as [|v values IH]; intros seen acc Hinv Hne H; simpl in H.
  { simplify_eq. by destruct Hinv. }
  destruct (_ || _ || _) eqn:Hg; [done|]. case_bool_decide as Hs; [done|].
  apply orb_false_iff in Hg as [[Hv%bool_decide_eq_false_1 _]%orb_false_iff _].
  eapply IH; [by apply seen_inv_snoc| |exact H].
  intros [?|Heq%list_elem_of_singleton]%elem_of_app; congruence.
Qed.

Lemma normalizedValues_exact name values up r :
  normalizedValues name values up = Ok r → exact_values r.
Proof.
  unfold normalizedValues. intros H. inv_ok H.
  destruct (normalize_loop_wf _ _ _ _ _ _ seen_inv_empty ltac:(apply not_elem_of_nil) Heqr0) as [Hn Hne].
  constructor.
  - apply Sorted_merge_sort, _.
  - by rewrite merge_sort_Permutation.
  - by rewrite merge_sort_Permutation.
Qed.

Lemma check_all_ok f e values u : check_all f e values = Ok u → ∀ v, v ∈ values → f v = true.
Proof.
  unfold check_all. destruct (first_some _ 0 values) eqn:H; [done|]. intros _ v Hv.
  rewrite first_some_None_elem in H. specialize (H v Hv). by destruct (f v).
Qed.

Lemma nonempty_spec values : nonempty values = true ↔ values ≠ [].
Proof. unfold nonempty. rewrite negb_true_iff, <- not_true_iff_false, length_eqb_nil. done. Qed.

Lemma expand_class_inv seen verbs expanded seen' verbs' :
  seen_inv seen verbs → expand_class seen verbs expanded = Ok (seen', verbs') →
  seen_inv seen' verbs' ∧ verbs' = verbs ++ expanded.
Proof.
  revert seen verbs. induction expanded as [|v expanded IH]; intros seen verbs Hinv H; simpl in H.
  { simplify_eq. by rewrite app_nil_r. }
  case_bool_decide; [done|]. apply IH in H as [? ->]; [|by apply seen_inv_snoc].
  split; [done|]. by rewrite <- app_assoc.
Qed.

Lemma expand_loop_valid seen verbs raw r :
  seen_inv seen verbs → Forall (λ v, ValidWriteVerb v = true) verbs →
  expand_loop seen verbs raw = Ok r →
  NoDup r ∧ Forall (λ v, ValidWriteVerb v = true) r ∧ (length verbs + length raw ≤ length r)%nat.
Proof.
  revert seen verbs. induction raw as [|name raw IH]; intros seen verbs Hinv Hv H; cbn [expand_loop] in H.
  { simplify_eq. destruct Hinv. split_and!; [done..|simpl; lia]. }
  destruct (if bool_decide (name = "write") then _ else _) as [expanded|] eqn:He; [|done].
  assert (Forall (λ v, ValidWriteVerb v = true) expanded ∧ (1 ≤ length expanded)%nat) as [Hex Hlen].
  { repeat case_bool_decide; simplify_eq; [split; [by repeat constructor|simpl; lia]..|].
    destruct (ValidWriteVerb name) eqn:?; simplify_eq/=. split; [by repeat constructor|lia]. }
  cbn [rbind] in H. destruct (expand_class seen verbs expanded) as [[seen' verbs']|] eqn:Hc; [|done].
  apply expand_class_inv in Hc as [Hinv' ->]; [|done]. cbn [rbind fst snd] in H.
  apply IH in H as (? & ? & Hl); [|done|by apply Forall_app]. rewrite length_app in Hl.
  split_and!; [done..|simpl; lia].
Qed.

Lemma ValidWriteVerbSet_loop_true seen verbs :
  NoDup verbs → Forall (λ v, ValidWriteVerb v = true) verbs → (∀ v, v ∈ verbs → v ∉ seen) →
  ValidWriteVerbSet_loop seen verbs = true.
Proof.
  revert seen. induction verbs as [|v verbs IH]; intros seen Hn Hv Hd; [done|].
  apply NoDup_cons in Hn as [Hnin Hn]. apply Forall_cons in Hv as [Hv Hvs]. simpl. rewrite Hv. simpl.
  rewrite bool_decide_eq_false_2 by (apply Hd; left). apply IH; [done..|].
  intros w Hw. specialize (Hd w). set_solver.
Qed.

Lemma expandVerbs_valid raw r : expandVerbs raw = Ok r → ValidWriteVerbSet r = true.
Proof.
  unfold expandVerbs. destruct (length raw =? 0)%nat eqn:Hl; [done|]. intros H.
  destruct (expand_loop_valid _ _ _ _ seen_inv_empty ltac:(constructor) H) as (Hn & Hv & Hlen).
  unfold ValidWriteVerbSet. apply Nat.eqb_neq in Hl.
  destruct (length r =? 0)%nat eqn:Hr; [apply Nat.eqb_eq in Hr; simpl in Hlen; lia|].
  apply ValidWriteVerbSet_loop_true; [done..|set_solver].
Qed.

Lemma validateRule_wf raw rule ws : validateRule raw = Ok (rule, ws) → wf_rule rule.
Proof.
  unfold validateRule, guard_err. intros H.
  destruct (ruleIDPattern _); [|done]. cbn [rbind] in H.
  destruct (bool_decide (JEffect raw = EffectAllow) || _) eqn:He; [|done]. cbn [rbind] in H.
  destruct (expandVerbs (JVerbs raw)) as [verbs|] eqn:Hv; [|done]. cbn [rbind] in H.
  destruct (validateSelector (JResource raw)) as [sel|] eqn:Hs; [|done]. cbn [rbind] in H. simplify_eq.
  unfold validateSelector in Hs.
  destruct (normalizedValues "service" (JService (JResource raw)) false) as [services|] eqn:Hsv; [|done].
  assert (∃ s0 services', services = s0 :: services') as (s0 & services' & ->) by (destruct services; eauto; done).
  inv_ok Hs.
  all: apply orb_true_iff in He.
  all: apply andb_false_iff in Heqb as Hidk.
  all: constructor; simpl.
  all: try (by destruct He as [?%bool_decide_eq_true_1|?%bool_decide_eq_true_1]; auto).
  all: try (by eapply expandVerbs_valid).
  - split; [done|]. intros s Hin. pose proof (check_all_ok _ _ _ _ Heqr s Hin) as Hc.
    apply orb_true_iff in Hc as [?%bool_decide_eq_true_1|?%bool_decide_eq_true_1]; auto.
  - split_and!; by eapply normalizedValues_exact.
  - intros Hne%nonempty_spec. destruct Hidk as [Hid|Hk]; [congruence|].
    apply negb_false_iff, nonempty_spec in Hk. done.
  - intros id Hin. by eapply (check_all_ok ValidConfluenceContentID).
Qed.

Lemma validate_rules_wf seen rules ws raws rules' ws' :
  seen_inv seen (RuleID <$> rules) → Forall wf_rule rules →
  validate_rules seen rules ws raws = Ok (rules', ws') →
  NoDup (RuleID <$> rules') ∧ Forall wf_rule rules' ∧ length rules' = (length rules + length raws)%nat.
Proof.
  revert seen rules ws. induction raws as [|raw raws IH]; intros seen rules ws Hinv Hwf H; cbn [validate_rules] in H.
  { simplify_eq. destruct Hinv. split_and!; [done..|simpl; lia]. }
  destruct (validateRule raw) as [[rule w]|] eqn:Hr; [|done]. cbn [rbind fst snd] in H.
  case_bool_decide as Hs; [done|]. apply validateRule_wf in Hr.
  apply IH in H as (? & ? & Hl).
  - split_and!; [done..|]. rewrite length_app in Hl. simpl in *. lia.
  - rewrite fmap_app. by apply seen_inv_snoc.
  - apply Forall_app. split; [done|by constructor].
Qed.

End evaluate.

(** ** Content contained in a page *)

(** [contained page item]: an attachment or comment of [page].  It lives in the
    page's space and its ancestors are the page and the page's ancestors. *)
Record contained (page item : WriteTarget) : Prop := {
  ct_service : Service page = "confluence"%string ∧ Service item = "confluence"%string;
  ct_kind : Kind item = "attachment"%string ∨ Kind item = "comment"%string;
  ct_project : Project page = ""%string ∧ Project item = ""%string;
  ct_key : Key page = ""%string ∧ Key item = ""%string;
  ct_space : Space item = Space page;
  ct_id : ID page ≠ ""%string;
  ct_item_id : ID item ≠ ""%string;
  ct_ancestors : ∀ l, AncestorIDs page = Some l →
    ∃ l', AncestorIDs item = Some l' ∧ ∀ a, a ∈ l' → a = ID page ∨ a ∈ l
}.

(** The selector [PageDeleteScopeProblem] evaluates against the page. *)
Definition page_selector (r : Selector) : Selector :=
  {| Services := Services r; Kinds := []; Projects := Projects r; Keys := Keys r;
     Spaces := Spaces r; IDs := []; Under := Under r |}.

(** A selector surely misses a target when some constrained attribute differs,
    or when every attribute fits and the known hierarchy avoids the anchors. *)
Lemma matchNo_spec selector t : (matchSelector selector t).1 = matchNo ↔
  existsb check_mismatch (selector_checks selector t) = true ∨
  (existsb check_open (selector_checks selector t) = false ∧ Under selector ≠ [] ∧
   Service t = "confluence"%string ∧ (ID t = ""%string ∨ ID t ∉ Under selector) ∧
   ∃ l, AncestorIDs t = Some l ∧ ∀ a, a ∈ l → a ∉ Under selector).
Proof.
  rewrite matchSelector_unfold.
  destruct (existsb check_mismatch _) eqn:Hm; [split; [by left|done]|].
  destruct (existsb check_open _); [split; [done|naive_solver]|].
  destruct (nonempty (Under selector)) eqn:Hn; cycle 1.
  { split; [done|]. intros [?|(_ & Hne & _)]; [done|]. by rewrite (proj2 (nonempty_spec _) Hne) in Hn. }
  apply nonempty_spec in Hn. case_bool_decide as Hs; cbn [negb]; [|naive_solver].
  destruct (negb (bool_decide (ID t = "")) && containsString (Under selector) (ID t)) eqn:Hi.
  - split; [done|]. apply andb_true_iff in Hi as [Hi1%negb_true_iff%bool_decide_eq_false_1 Hi2%containsString_spec].
    naive_solver.
  - assert (ID t = ""%string ∨ ID t ∉ Under selector) as Hi'.
    { apply andb_false_iff in Hi as [Hi|Hi]; [left|right; by apply containsString_false].
      by apply negb_false_iff, bool_decide_eq_true_1 in Hi. }
    destruct (AncestorIDs t) as [l|] eqn:Hl; [|naive_solver].
    destruct (existsb (containsString (Under selector)) l) eqn:He.
    + split; [done|]. apply existsb_elem in He as (a & Ha & Hc%containsString_spec). naive_solver.
    + split; [|done]. intros _. right. split_and!; try done. exists l. split; [done|]. intros a Ha Hin.
      apply not_true_iff_false in He. apply He, existsb_elem. exists a. split; [done|]. by apply containsString_spec.
Qed.

Lemma contained_match r page item : contained page item →
  (∀ u, u ∈ Under r → u ≠ ID item) →
  (matchSelector r item).1 ≠ matchNo → (matchSelector (page_selector r) page).1 ≠ matchNo.
Proof.
  intros [[Hs1 Hs2] Hki [Hp1 Hp2] [Hk1 Hk2] Hsp Hid Hiid Hanc] Hu Hm Hpage. apply Hm. clear Hm.
  apply matchNo_spec in Hpage. apply matchNo_spec.
  unfold selector_checks, page_selector, check_mismatch, check_open in *.
  cbn [Services Kinds Projects Keys Spaces IDs Under existsb] in *.
  rewrite Hs1, Hs2, Hp1, Hp2, Hk1, Hk2, Hsp in *.
  rewrite (bool_decide_eq_true_2 (""%string = ""%string)) in * by done.
  change (nonempty []) with false in *. cbn [andb orb negb] in *.
  rewrite !andb_false_r in *. cbn [andb orb negb] in *.
  destruct Hpage as [Hmis|(Ho & Hne & _ & Hi & l & Hl & Hal)].
  { left. apply orb_true_iff in Hmis as [->|Hmis]; [done|].
    rewrite orb_false_r in Hmis. rewrite Hmis. by rewrite !orb_true_r. }
  right. destruct (Hanc l Hl) as (l' & Hl' & Hsub). rewrite !orb_false_iff in Ho. split_and!; try done.
  - destruct Ho as (Ho1 & Ho2 & Ho3 & _). rewrite Ho1, Ho2, Ho3. cbn [orb].
    rewrite (bool_decide_eq_false_2 (ID item = _)) by done.
    rewrite (bool_decide_eq_false_2 (Kind item = _)) by (destruct Hki as [->| ->]; done).
    by rewrite !andb_false_r.
  - right. intros Hin. by apply (Hu _ Hin).
  - exists l'. split; [done|]. intros a [->|Ha]%Hsub; [|by apply Hal]. destruct Hi; [done|]. done.
Qed.
(** A selector that does not surely miss a target lists the target's value for
    every attribute it constrains. *)
Lemma selector_admits selector t (name : string) values (value : string) :
  (matchSelector selector t).1 ≠ matchNo → (name, values, value) ∈ selector_checks selector t →
  values ≠ [] → value ≠ ""%string → containsString values value = true.
Proof.
  rewrite matchSelector_unfold. destruct (existsb check_mismatch _) eqn:Hcm; [done|]. intros _ Hin Hne Hv.
  destruct (containsString values value) eqn:Hc; [done|]. exfalso. apply not_true_iff_false in Hcm. apply Hcm.
  apply existsb_elem. eexists. split; [done|]. unfold check_mismatch.
  rewrite (proj2 (nonempty_spec _) Hne), Hc, bool_decide_eq_false_2; done.
Qed.

(** [PageDeleteScopeProblem] reports every deny-delete rule on contained content
    whose page selector does not surely miss the page. *)
Lemma PageDelete_reports layers layer rule page :
  layer ∈ layers → rule ∈ Rules (LayerPolicy layer) → Effect rule = EffectDeny →
  containsVerb (RuleVerbs rule) WriteVerbDelete = true →
  containsString (Services (Resource rule)) "confluence" = true →
  containsString (Kinds (Resource rule)) "attachment" || containsString (Kinds (Resource rule)) "comment" = true →
  (matchSelector (page_selector (Resource rule)) page).1 ≠ matchNo →
  (PageDeleteScopeProblem (Some layers) page).1.1 ≠ WriteScopeResolved.
Proof.
  intros Hl Hr He Hv Hsv Hkk Hp. unfold PageDeleteScopeProblem.
  destruct (first_some _ 0 layers) as [[[p a] i]|] eqn:Hf; simpl.
  - clear Hp. apply first_some_Some in Hf as (k & layer' & _ & Hf). apply first_some_Some in Hf as (k' & rule' & _ & Hf).
    destruct (_ || _ || _ || _); [done|].
    destruct (matchSelector _ page) as [[] ?]; simplify_eq; try done.
    destruct (nonempty _); by simplify_eq.
  - exfalso. rewrite first_some_None_elem in Hf. specialize (Hf layer Hl).
    rewrite first_some_None_elem in Hf. specialize (Hf rule Hr). simpl in Hf.
    rewrite bool_decide_eq_true_2, Hv, Hsv in Hf by done. cbn [negb orb] in Hf.
    rewrite <- negb_orb, Hkk in Hf. cbn [negb] in Hf. fold (page_selector (Resource rule)) in Hf.
    destruct (matchSelector (page_selector (Resource rule)) page) as [[] a]; [done|..]; simpl in Hf;
      [by destruct (nonempty _)|done].
Qed.

(** ** Properties *)

Definition ascii_upper_char (c : ascii) : ascii :=
  if is_lower c then ascii_of_N (N_of_ascii c - 32) else c.
(** [strings.ToUpper] on ASCII strings. *)
Definition ascii_upper (s : string) : string :=
  String.string_of_list_ascii (ascii_upper_char <$> bytes_of s).

(** C21: without a policy layer [Decide] admits every request.  With layers it
    admits a request exactly when the request is resolved and well formed and
    every layer admits every (target, verb) pair: some allow rule surely matches
    it and no deny rule even possibly matches it.  Rule order, specificity and the
    order of layers play no role. *)
Theorem Decide_allowed_iff (ToUpper : string → string) (layers : list Layer) (request : WriteAuthorizationRequest) :
  Allowed (Decide ToUpper layers request) = true ↔
    layers = [] ∨ request_resolved ToUpper request ∧ ∀ layer, layer ∈ layers → layer_admits layer request.
Proof.
  destruct layers as [|l layers]; [split; [by left|done]|]. rewrite Decide_allowed_spec by done.
  split; [by right|]. intros [?|H]; [done|exact H].
Qed.

Definition demo_rule (effect : string) (under : list string) : Rule :=
  {| RuleID := "r1"; Effect := effect; RuleVerbs := [WriteVerbUpdate];
     Resource := {| Services := ["confluence"]; Kinds := ["page"]; Projects := []; Keys := []; Spaces := [];
                    IDs := []; Under := under |} |}%string.
Definition demo_layer (rules : list Rule) : Layer :=
  {| Source := "env_inline"; LayerDigest := "sha256:00";
     LayerPolicy := {| PolicyVersion := 1; Rules := rules; Backend := {| JiraSHA256 := ""; ConfluenceSHA256 := "" |} |} |}%string.
Definition demo_target (id : string) (ancestors : option (list string)) : WriteTarget :=
  {| Service := "confluence"; Kind := "page"; ID := id; Project := ""; Key := ""; Space := "DOCS";
     AncestorIDs := ancestors |}%string.
Definition demo_request (target : WriteTarget) : WriteAuthorizationRequest :=
  {| Verbs := [WriteVerbUpdate]; Targets := [target]; ScopeProblem := WriteScopeResolved;
     ScopeRuleID := ""; ScopeAttribute := "" |}%string.

Lemma Decide_allowed_iff_witness :
  request_resolved ascii_upper (demo_request (demo_target "123" (Some ["77"]%string))) ∧
  ∀ layer, layer ∈ [demo_layer [demo_rule EffectAllow ["77"]%string]] →
    layer_admits layer (demo_request (demo_target "123" (Some ["77"]%string))).
Proof.
  destruct (proj1 (Decide_allowed_iff ascii_upper [demo_layer [demo_rule EffectAllow ["77"]%string]]
    (demo_request (demo_target "123" (Some ["77"]%string)))) ltac:(vm_compute; reflexivity)) as [H|H]; [discriminate H|exact H].
Defined.

(** C22: preflight is sound: when [PreflightDeny] refuses a request described by
    partial targets, the full evaluation of any request with the same verbs and
    with targets that resolve the partial ones further is refused as well. *)
Theorem Preflight_sound (ToUpper : string → string) (layers : list Layer) (request request' : WriteAuthorizationRequest) :
  is_Some (PreflightDeny ToUpper layers request) →
  Verbs request' = Verbs request → Forall2 resolves (Targets request) (Targets request') →
  Allowed (Decide ToUpper layers request') = false.
Proof.
  intros [e He] Hv Ht. apply PreflightDeny_decision in He as (d & Hd & Hne).
  apply preflight_decision_refutes in Hd as (layer & t & verb & Hl & (k & Hk) & Hverb & Hcase).
  destruct (Forall2_lookup_l _ _ _ _ _ Ht Hk) as (t' & Hk' & Hr).
  apply not_true_iff_false. rewrite (Decide_allowed_spec _ _ _ Hne). intros [_ Hadm].
  apply list_elem_of_lookup_2 in Hk'. rewrite <- Hv in Hverb.
  destruct (Hadm layer Hl t' verb Hk' Hverb) as [Hallow Hdeny].
  destruct Hcase as [(rule & Hrin & Hre & Hrv & Hm)|Hp].
  - apply (Hdeny rule Hrin). unfold rule_denies. split_and!; [done|done|].
    by rewrite (match_yes_stable _ _ _ Hr Hm).
  - by apply (possible_allow_false _ _ _ _ Hr Hp).
Qed.

Lemma Preflight_sound_witness :
  Allowed (Decide ascii_upper [demo_layer [demo_rule EffectAllow []; demo_rule EffectDeny ["77"]%string]]
             (demo_request (demo_target "77" (Some [])))) = false.
Proof.
  apply (Preflight_sound ascii_upper _ (demo_request (demo_target "77" None))).
  - vm_compute. by eexists.
  - reflexivity.
  - constructor; [|constructor]. constructor; vm_compute; auto.
Defined.

(** Write clearance is granted only by a complete policy decision: when
    [Authorize] of a non-empty policy returns no error, the request is resolved,
    every layer admits it, the target identity was not derived from an untrusted
    reference, and the returned context is the input with write clearance; when
    it returns an error the context comes back unchanged. *)
Theorem Authorize_sound (ToUpper : string → string) (layers : list Layer) (ctx ctx' : RequestContext)
    (request : WriteAuthorizationRequest) (err : option AuthorizeError) :
  layers ≠ [] → Authorize ToUpper (Some layers) ctx request = (ctx', err) →
  match err with
  | None => ctx' = WithWriteClearance ctx ∧ UntrustedConfluenceReference ctx = false ∧
            request_resolved ToUpper request ∧ ∀ layer, layer ∈ layers → layer_admits layer request
  | Some _ => ctx' = ctx
  end.
Proof.
  intros Hne. unfold Authorize. cbn zeta. change (default [] (Some layers)) with layers.
  destruct (Allowed (Decide ToUpper layers request)) eqn:Ha; cbn [andb].
  - destruct (UntrustedConfluenceReference ctx) eqn:Hu.
    + cbn [negb decision_deny Allowed]. case_bool_decide; intros [= <- <-]; done.
    + rewrite Ha. cbn [negb]. intros [= <- <-].
      apply (Decide_allowed_spec ToUpper _ _ Hne) in Ha. done.
  - rewrite Ha. cbn [negb]. case_bool_decide; intros [= <- <-]; done.
Qed.

Lemma Authorize_sound_witness :
  WithWriteClearance Background = WithWriteClearance Background ∧ UntrustedConfluenceReference Background = false ∧
  request_resolved ascii_upper (demo_request (demo_target "77" None)) ∧
  ∀ layer, layer ∈ [demo_layer [demo_rule EffectAllow ["77"]%string]] →
    layer_admits layer (demo_request (demo_target "77" None)).
Proof.
  apply (Authorize_sound ascii_upper [demo_layer [demo_rule EffectAllow ["77"]%string]]
           Background (WithWriteClearance Background) _ None); [done|].
  vm_compute. reflexivity.
Defined.

(** Deleting a page cannot bypass a deny on the content it contains: if a
    validated deny-delete rule possibly matches an attachment or comment of the
    page (and names no such item as its own anchor), then either the page delete
    itself is denied by the rule or [PageDeleteScopeProblem] reports a problem. *)
Theorem PageDelete_fail_closed (layers : list Layer) (layer : Layer) (rule : Rule) (page item : WriteTarget) :
  layer ∈ layers → rule ∈ Rules (LayerPolicy layer) → wf_rule rule → contained page item →
  (∀ u, u ∈ Under (Resource rule) → u ≠ ID item) →
  rule_denies rule item WriteVerbDelete →
  rule_denies rule page WriteVerbDelete ∨
  (PageDeleteScopeProblem (Some layers) page).1.1 ≠ WriteScopeResolved.
Proof.
  intros Hl Hr Hwf Hc Hu (He & Hv & Hm). pose proof (contained_match _ _ _ Hc Hu Hm) as Hp.
  destruct (decide (Kinds (Resource rule) = [])) as [Hk|Hk].
  { left. unfold rule_denies. split_and!; [done..|].
    assert (IDs (Resource rule) = []) as Hi.
    { destruct (IDs (Resource rule)) eqn:Hi; [done|]. exfalso. apply (wf_id_kind _ Hwf); congruence. }
    unfold page_selector in Hp. destruct (Resource rule); simpl in *; by subst. }
  right. apply (PageDelete_reports layers layer rule); try done.
  - by apply containsString_spec.
  - apply (selector_admits _ _ "service" (Services (Resource rule)) (Service item)) in Hm.
    + by rewrite (proj2 (ct_service _ _ Hc)) in Hm.
    + left.
    + apply (wf_services _ Hwf).
    + rewrite (proj2 (ct_service _ _ Hc)). done.
  - apply (selector_admits _ _ "kind" (Kinds (Resource rule)) (Kind item)) in Hm; [|by right; left|done|].
    + destruct (ct_kind _ _ Hc) as [Hki|Hki]; rewrite Hki in Hm; rewrite Hm; [done|apply orb_true_r].
    + destruct (ct_kind _ _ Hc) as [-> | ->]; done.
Qed.

Definition demo_deny_attachment : Rule :=
  {| RuleID := "keep"; Effect := EffectDeny; RuleVerbs := [WriteVerbDelete];
     Resource := {| Services := ["confluence"]; Kinds := ["attachment"]; Projects := []; Keys := []; Spaces := [];
                    IDs := []; Under := ["77"] |} |}%string.
Definition demo_attachment : WriteTarget :=
  {| Service := "confluence"; Kind := "attachment"; ID := "500"; Project := ""; Key := ""; Space := "DOCS";
     AncestorIDs := Some ["77"; "123"]%string |}%string.

Lemma PageDelete_fail_closed_witness :
  rule_denies demo_deny_attachment (demo_target "123" (Some ["77"]%string)) WriteVerbDelete ∨
  (PageDeleteScopeProblem (Some [demo_layer [demo_deny_attachment]]) (demo_target "123" (Some ["77"]%string))).1.1
    ≠ WriteScopeResolved.
Proof.
  apply (PageDelete_fail_closed [demo_layer [demo_deny_attachment]] (demo_layer [demo_deny_attachment])
           demo_deny_attachment (demo_target "123" (Some ["77"]%string)) demo_attachment).
  - left.
  - left.
  - constructor; simpl; [by right|vm_compute; reflexivity| | |done|].
    + split; [done|]. intros s ->%list_elem_of_singleton. by right.
    + split_and!; constructor; repeat constructor; try (by intros ?%not_elem_of_nil); set_solver.
    + intros id ->%list_elem_of_singleton. vm_compute. reflexivity.
  - constructor; simpl; auto; try done. intros l [= <-]. eexists. split; [done|]. set_solver.
  - simpl. intros u ->%list_elem_of_singleton. done.
  - unfold rule_denies. split_and!; [done|left|]. vm_compute. done.
Defined.

(** A policy document that validation accepts is well formed: 1 to 256 rules
    with distinct ids, every rule an allow or deny of a non-empty duplicate-free
    set of known verbs, every selector list sorted, duplicate-free and without
    empty values, services non-empty and known, ids only together with kinds,
    and every content id canonical. *)
Theorem validatePolicy_wf (ToUpper : string → string) (document : policyJSON) (p : Policy) (ws : list Warning) :
  validatePolicy ToUpper document = Ok (p, ws) → wf_policy p.
Proof.
  unfold validatePolicy, guard_err. intros H.
  destruct (JSchemaVersion document =? 1)%Z; [|done]. cbn [rbind] in H.
  destruct (negb _) eqn:Hn; [|done]. cbn [rbind] in H.
  destruct (match JBackend document with Some _ => _ | None => _ end) as [backend|] eqn:Hb in H; [|done]. cbn [rbind] in H.
  destruct (validate_rules _ _ _ _ _) as [[rules warns]|] eqn:Hr; [|done]. cbn [rbind fst snd] in H. simplify_eq.
  apply validate_rules_wf in Hr as (Hnd & Hwf & Hlen); [|apply seen_inv_empty|constructor].
  apply negb_true_iff, orb_false_iff in Hn as [Hne%Nat.eqb_neq Hle%Nat.ltb_ge]. unfold wf_policy. simpl in *.
  split_and!; [lia|lia|done|done].
Qed.

Definition demo_document : policyJSON :=
  {| JSchemaVersion := 1; JBackend := None;
     JRules := [{| JRuleID := "docs-write"; JEffect := "allow"; JVerbs := ["write"; "move"];
                   JResource := {| JService := ["confluence"]; JKind := ["page"]; JProject := []; JKey := [];
                                   JSpace := ["ops"; "docs"]; JID := []; JUnder := ["123"] |} |}] |}%string.

Lemma validatePolicy_wf_witness :
  ∃ p ws, validatePolicy ascii_upper demo_document = Ok (p, ws) ∧ wf_policy p.
Proof.
  eexists _, _. split; [vm_compute; reflexivity|].
  eapply (validatePolicy_wf ascii_upper demo_document). vm_compute. reflexivity.
Defined.
End ContentPolicy.
