(* ===== verification/ReadBudget.v ===== *)
(** * Hierarchical read budgets under concurrency (internal/domain/request_policy.go)

    A budget handle is the root-to-leaf list of its scope pointers; scopes live
    in a shared store.  Every operation is split at its synchronisation points
    (one step per mutex or gate operation), and steps of any number of
    goroutines interleave freely: [do_step] executes one step, [reachable] is
    the closure.  The mutex and the one-slot gate channel record their current
    owner; the code only observes whether they are free. *)

From S2P Require Import Prelude.

Module ReadBudget.
Open Scope Z_scope.

Abbreviation loc := nat.
Abbreviation tid := nat.

Definition MaxInt64 : Z := 2 ^ 63 - 1.
Definition in_int64 (z : Z) : bool := (- 2 ^ 63 <=? z) && (z <=? MaxInt64).

(** ** Data *)

Record ReadBudgetUsage := { Attempts : Z; ResponseBytes : Z }.

Record readBudgetScope := {
  maxAttempts : Z;
  attempts : Z;
  maxResponseBytes : Z;
  responseBytes : Z;
  mu : option tid;           (* [None]: unlocked *)
  responseGate : option tid  (* [None]: the token is in the channel *)
}.

(** A handle is a slice of scope pointers; [None] is the nil pointer. *)
Definition ReadBudget := list (option loc).

Inductive readBudgetDimension := readBudgetAttempts | readBudgetResponseBytes.

(** [DiagnosticWriteAttempted]; [None] is the nil receiver. *)
Definition DiagnosticWriteAttempted (e : option readBudgetDimension) : bool :=
  match e with
  | Some readBudgetAttempts => false
  | _ => true
  end.

Definition with_attempts (v : Z) (s : readBudgetScope) : readBudgetScope :=
  {| maxAttempts := maxAttempts s; attempts := v; maxResponseBytes := maxResponseBytes s;
     responseBytes := responseBytes s; mu := mu s; responseGate := responseGate s |}.
Definition with_bytes (v : Z) (s : readBudgetScope) : readBudgetScope :=
  {| maxAttempts := maxAttempts s; attempts := attempts s; maxResponseBytes := maxResponseBytes s;
     responseBytes := v; mu := mu s; responseGate := responseGate s |}.
Definition with_mu (v : option tid) (s : readBudgetScope) : readBudgetScope :=
  {| maxAttempts := maxAttempts s; attempts := attempts s; maxResponseBytes := maxResponseBytes s;
     responseBytes := responseBytes s; mu := v; responseGate := responseGate s |}.
Definition with_gate (v : option tid) (s : readBudgetScope) : readBudgetScope :=
  {| maxAttempts := maxAttempts s; attempts := attempts s; maxResponseBytes := maxResponseBytes s;
     responseBytes := responseBytes s; mu := mu s; responseGate := v |}.

(** ** Handles *)

Fixpoint canonical_loop (seen : gset loc) (b : ReadBudget) : option (list loc) :=
  match b with
  | [] => Some []
  | None :: _ => None
  | Some l :: b' =>
      if bool_decide (l ∈ seen) then None
      else match canonical_loop ({[l]} ∪ seen) b' with
           | Some ls => Some (l :: ls)
           | None => None
           end
  end.

(** [canonicalScopes]: the scopes of a valid handle; [None] is [valid = false]. *)
Definition canonicalScopes (b : option ReadBudget) : option (list loc) :=
  match b with
  | None => None
  | Some [] => None
  | Some b => canonical_loop ∅ b
  end.

Inductive budgetError := NegativeAttempts | NegativeBytes | UsageAttempts | UsageBytes | InvalidParent.

Record store := { scopes : gmap loc readBudgetScope; next : loc }.

Open Scope atl_scope.

Definition newReadBudget (st : store) (parent : option ReadBudget) (maxA maxB : Z) (usage : ReadBudgetUsage)
    : result budgetError (store * ReadBudget) :=
  let! _ := guard_err (negb (maxA <? 0)) NegativeAttempts in
  let! _ := guard_err (negb (maxB <? 0)) NegativeBytes in
  let! _ := guard_err (negb ((Attempts usage <? 0) || (maxA <? Attempts usage))) UsageAttempts in
  let! _ := guard_err (negb ((ResponseBytes usage <? 0) || (maxB <? ResponseBytes usage))) UsageBytes in
  let scope := {| maxAttempts := maxA; attempts := Attempts usage; maxResponseBytes := maxB;
                  responseBytes := ResponseBytes usage; mu := None; responseGate := None |} in
  let! prefix := match parent with
                 | None => Ok []
                 | Some p => match canonicalScopes (Some p) with
                             | Some ls => Ok (Some <$> ls)
                             | None => Err InvalidParent
                             end
                 end in
  Ok ({| scopes := <[next st := scope]> (scopes st); next := S (next st) |}, prefix ++ [Some (next st)]).

Definition zero_usage : ReadBudgetUsage := {| Attempts := 0; ResponseBytes := 0 |}.
Definition NewReadBudgetWithUsage (st : store) (maxA maxB : Z) (usage : ReadBudgetUsage) :=
  newReadBudget st None maxA maxB usage.
Definition NewReadBudget (st : store) (maxA maxB : Z) := NewReadBudgetWithUsage st maxA maxB zero_usage.
Definition NewChildReadBudget (st : store) (parent : option ReadBudget) (maxA maxB : Z) :=
  newReadBudget st parent maxA maxB zero_usage.

(** [Usage]: the counters of the leaf. *)
Definition Usage (st : store) (b : option ReadBudget) : ReadBudgetUsage :=
  match canonicalScopes b with
  | None => zero_usage
  | Some ls =>
      match last ls ≫= λ l, scopes st !! l with
      | Some leaf => {| Attempts := attempts leaf; ResponseBytes := responseBytes leaf |}
      | None => zero_usage
      end
  end.

(** ** Goroutines *)

Inductive outcome := AttemptAdmitted | AttemptExhausted | ResponseExhausted | ResponseCancelled | ResponseFinished.

(** Program points of [TakeAttempt] ([Locking], [Unlocking]) and of
    [BeginResponse] and the [finish] closure it returns. *)
Inductive goroutine :=
| Locking (h : list loc) (k : nat)                  (* the first [k] mutexes are held *)
| Unlocking (h : list loc) (k : nat) (o : outcome)  (* [k] mutexes are still held *)
| Acquiring (h : list loc) (k : nat)                (* [acquired = k] gate tokens *)
| Measuring (h : list loc) (k : nat) (remaining : Z)
| Holding (h : list loc) (remaining : Z)            (* [finish] not called yet *)
| Charging (h : list loc) (k : nat) (consumed : Z)
| Releasing (h : list loc) (k : nat) (o : outcome)
| Done (o : outcome).

(** [budgets] holds every handle created, under the address of its leaf. *)
Record state := { st : store; budgets : gmap loc ReadBudget; threads : gmap tid goroutine }.

Definition init : state := {| st := {| scopes := ∅; next := 0%nat |}; budgets := ∅; threads := ∅ |}.

Inductive label :=
| LNewWithUsage (maxA maxB : Z) (usage : ReadBudgetUsage)
| LNewChild (parent : option loc) (maxA maxB : Z)
| LTake (t : tid) (b : loc)
| LBegin (t : tid) (b : loc)
| LRun (t : tid)
| LCancel (t : tid)
| LFinish (t : tid) (consumed : Z).

Definition exhausted (m : gmap loc readBudgetScope) (h : list loc) : bool :=
  existsb (λ l, match m !! l with Some s => maxAttempts s <=? attempts s | None => false end) h.

Definition incr_attempts (m : gmap loc readBudgetScope) (h : list loc) : gmap loc readBudgetScope :=
  foldl (λ m l, alter (λ s, with_attempts (attempts s + 1) s) l m) m h.

(** The clamp of [finish]. *)
Definition clamp (consumed remaining : Z) : Z :=
  let consumed := if consumed <? 0 then 0 else consumed in
  if remaining <? consumed then remaining else consumed.

Definition set_thread (t : tid) (g : goroutine) (σ : state) : state :=
  {| st := st σ; budgets := budgets σ; threads := <[t := g]> (threads σ) |}.
Definition upd_scope (l : loc) (s : readBudgetScope) (σ : state) : state :=
  {| st := {| scopes := <[l := s]> (scopes (st σ)); next := next (st σ) |}; budgets := budgets σ; threads := threads σ |}.
Definition set_scopes (m : gmap loc readBudgetScope) (σ : state) : state :=
  {| st := {| scopes := m; next := next (st σ) |}; budgets := budgets σ; threads := threads σ |}.

(** One step of a running goroutine; [None] when it blocks or has ended. *)
Definition run (t : tid) (g : goroutine) (σ : state) : option state :=
  match g with
  | Locking h k =>
      match h !! k with
      | Some l =>
          s ← scopes (st σ) !! l;
          if decide (mu s = None) then Some (set_thread t (Locking h (S k)) (upd_scope l (with_mu (Some t) s) σ)) else None
      | None =>
          if exhausted (scopes (st σ)) h then Some (set_thread t (Unlocking h (length h) AttemptExhausted) σ)
          else Some (set_thread t (Unlocking h (length h) AttemptAdmitted) (set_scopes (incr_attempts (scopes (st σ)) h) σ))
      end
  | Unlocking h 0 o => Some (set_thread t (Done o) σ)
  | Unlocking h (S k) o =>
      l ← h !! k; s ← scopes (st σ) !! l;
      if decide (mu s = None) then None else Some (set_thread t (Unlocking h k o) (upd_scope l (with_mu None s) σ))
  | Acquiring h k =>
      match h !! k with
      | Some l =>
          s ← scopes (st σ) !! l;
          if decide (responseGate s = None)
          then Some (set_thread t (Acquiring h (S k)) (upd_scope l (with_gate (Some t) s) σ)) else None
      | None => Some (set_thread t (Measuring h 0 MaxInt64) σ)
      end
  | Measuring h k remaining =>
      match h !! k with
      | Some l =>
          s ← scopes (st σ) !! l;
          if decide (mu s = None)
          then let available := maxResponseBytes s - responseBytes s in
               Some (set_thread t (Measuring h (S k) (if available <? remaining then available else remaining)) σ)
          else None
      | None => Some (set_thread t (Holding h remaining) σ)
      end
  | Holding _ _ => None
  | Charging h k n =>
      match h !! k with
      | Some l =>
          s ← scopes (st σ) !! l;
          if decide (mu s = None)
          then Some (set_thread t (Charging h (S k) n) (upd_scope l (with_bytes (responseBytes s + n) s) σ)) else None
      | None => Some (set_thread t (Releasing h (length h) ResponseFinished) σ)
      end
  | Releasing h 0 o => Some (set_thread t (Done o) σ)
  | Releasing h (S k) o =>
      (* sending the token back blocks on a full channel *)
      l ← h !! k; s ← scopes (st σ) !! l;
      if decide (responseGate s = None) then None
      else Some (set_thread t (Releasing h k o) (upd_scope l (with_gate None s) σ))
  | Done _ => None
  end.

(** The effect of a constructor call; an error leaves the program state alone. *)
Definition install (σ : state) (r : result budgetError (store * ReadBudget)) : state :=
  match r with
  | Ok (st', b) => {| st := st'; budgets := <[next (st σ) := b]> (budgets σ); threads := threads σ |}
  | Err _ => σ
  end.

(** One step of the program.  Constructor arguments have type int and int64. *)
Definition do_step (a : label) (σ : state) : option state :=
  match a with
  | LNewWithUsage maxA maxB usage =>
      if in_int64 maxA && in_int64 maxB then Some (install σ (NewReadBudgetWithUsage (st σ) maxA maxB usage)) else None
  | LNewChild parent maxA maxB =>
      if in_int64 maxA && in_int64 maxB then
        p ← match parent with None => Some None | Some b => Some <$> budgets σ !! b end;
        Some (install σ (NewChildReadBudget (st σ) p maxA maxB))
      else None
  | LTake t b =>
      match threads σ !! t with
      | Some _ => None
      | None =>
          h ← budgets σ !! b;
          match canonicalScopes (Some h) with
          | None => Some (set_thread t (Done AttemptExhausted) σ)
          | Some ls => Some (set_thread t (Locking ls 0) σ)
          end
      end
  | LBegin t b =>
      match threads σ !! t with
      | Some _ => None
      | None =>
          h ← budgets σ !! b;
          match canonicalScopes (Some h) with
          | None => Some (set_thread t (Done ResponseExhausted) σ)
          | Some ls => Some (set_thread t (Acquiring ls 0) σ)
          end
      end
  | LRun t => g ← threads σ !! t; run t g σ
  | LCancel t =>
      (* [ctx.Done()] fires while waiting, or [ctx.Err()] is set afterwards *)
      match threads σ !! t with
      | Some (Acquiring h k) => Some (set_thread t (Releasing h k ResponseCancelled) σ)
      | _ => None
      end
  | LFinish t consumed =>
      match threads σ !! t with
      | Some (Holding h remaining) => Some (set_thread t (Charging h 0 (clamp consumed remaining)) σ)
      | _ => None
      end
  end.

Inductive reachable : state → Prop :=
| reach_init : reachable init
| reach_step a σ σ' : reachable σ → do_step a σ = Some σ' → reachable σ'.

Fixpoint run_labels (ls : list label) (σ : state) : option state :=
  match ls with
  | [] => Some σ
  | a :: ls' => σ' ← do_step a σ; run_labels ls' σ'
  end.

Definition demo : list label :=
  [LNewWithUsage 2 100 zero_usage; LNewChild (Some 0%nat) 1 60; LTake 0 1; LBegin 1 1; LBegin 2 0] ++
  [LRun 0; LRun 1; LRun 0; LRun 0; LRun 0; LRun 1; LRun 0; LRun 0] ++ replicate 4 (LRun 1) ++ [LFinish 1 70; LRun 1].

Example demo_run :
  (λ σ, (Usage (st σ) (budgets σ !! 1%nat), Usage (st σ) (budgets σ !! 0%nat), threads σ !! 1%nat, threads σ !! 0%nat))
    <$> run_labels demo init =
  Some ({| Attempts := 1; ResponseBytes := 0 |}, {| Attempts := 1; ResponseBytes := 60 |},
        Some (Charging [0; 1]%nat 1 60), Some (Done AttemptAdmitted)).
Proof. vm_compute. reflexivity. Qed.

(** ** Ownership *)

Definition mus (g : goroutine) : list loc :=
  match g with
  | Locking h k | Unlocking h k _ => take k h
  | _ => []
  end.

Definition gates (g : goroutine) : list loc :=
  match g with
  | Acquiring h k | Releasing h k _ => take k h
  | Measuring h _ _ | Holding h _ | Charging h _ _ => h
  | _ => []
  end.

(** The handle and position a goroutine works on. *)
Definition position (g : goroutine) : option (list loc * nat) :=
  match g with
  | Locking h k | Unlocking h k _ | Acquiring h k | Measuring h k _ | Charging h k _ | Releasing h k _ => Some (h, k)
  | Holding h _ => Some (h, length h)
  | Done _ => None
  end.

Section ownership.
Variable f : readBudgetScope → option tid.
Variable own : goroutine → list loc.

(** The owner recorded in a scope is the goroutine whose program point owns it. *)
Definition owns (m : gmap loc readBudgetScope) (ths : gmap tid goroutine) : Prop :=
  ∀ l s t, m !! l = Some s → f s = Some t ↔ ∃ g, ths !! t = Some g ∧ l ∈ own g.

Lemma owns_keep m m' ths t g' :
  owns m ths →
  (∀ l s', m' !! l = Some s' → ∃ s, m !! l = Some s ∧ f s' = f s) →
  (∀ l, l ∈ own g' ↔ ∃ g, ths !! t = Some g ∧ l ∈ own g) →
  owns m' (<[t := g']> ths).
Proof.
  intros Ho Hm Ht l s' t' Hl. destruct (Hm l s' Hl) as (s & Hs & ->). rewrite (Ho l s t' Hs).
  destruct (decide (t' = t)) as [->|Hne].
  - rewrite <- Ht. rewrite lookup_insert_eq. naive_solver.
  - by rewrite lookup_insert_ne.
Qed.

Lemma owns_acquire m ths t g g' l s s' :
  owns m ths → m !! l = Some s → ths !! t = Some g → f s = None → f s' = Some t →
  (∀ l', l' ∈ own g' ↔ l' ∈ own g ∨ l' = l) →
  owns (<[l := s']> m) (<[t := g']> ths).
Proof.
  intros Ho Hl Ht Hs Hs' Hown l' s1 t' Hl'. destruct (decide (l' = l)) as [->|Hne].
  - rewrite lookup_insert_eq in Hl'. simplify_eq. rewrite Hs'. split.
    + intros [= <-]. exists g'. rewrite lookup_insert_eq. split; [done|]. apply Hown. by right.
    + intros (g1 & Hg1 & Hin). destruct (decide (t' = t)) as [->|Hnt]; [done|].
      rewrite lookup_insert_ne in Hg1 by done.
      assert (f s = Some t') by (apply (Ho _ _ _ Hl); eauto). congruence.
  - rewrite lookup_insert_ne in Hl' by done. rewrite (Ho _ _ _ Hl').
    destruct (decide (t' = t)) as [->|Hnt].
    + rewrite lookup_insert_eq, Ht. split; intros (g1 & [= <-] & Hin); eexists; (split; [done|]); apply Hown in Hin || apply Hown; naive_solver.
    + by rewrite lookup_insert_ne.
Qed.

Lemma owns_release m ths t g g' l s s' :
  owns m ths → m !! l = Some s → ths !! t = Some g → f s' = None → l ∈ own g →
  (∀ l', l' ∈ own g' ↔ l' ∈ own g ∧ l' ≠ l) →
  owns (<[l := s']> m) (<[t := g']> ths).
Proof.
  intros Ho Hl Ht Hs' Hin Hown l' s1 t' Hl'.
  assert (f s = Some t) as Hft by (apply (Ho _ _ _ Hl); eauto).
  destruct (decide (l' = l)) as [->|Hne].
  - rewrite lookup_insert_eq in Hl'. simplify_eq. rewrite Hs'. split; [done|].
    intros (g1 & Hg1 & Hin1). destruct (decide (t' = t)) as [->|Hnt].
    + rewrite lookup_insert_eq in Hg1. simplify_eq. apply Hown in Hin1. naive_solver.
    + rewrite lookup_insert_ne in Hg1 by done.
      assert (f s = Some t') by (apply (Ho _ _ _ Hl); eauto). congruence.
  - rewrite lookup_insert_ne in Hl' by done. rewrite (Ho _ _ _ Hl').
    destruct (decide (t' = t)) as [->|Hnt].
    + rewrite lookup_insert_eq, Ht. split; intros (g1 & [= <-] & Hin1); eexists; (split; [done|]); apply Hown in Hin1 || apply Hown; naive_solver.
    + by rewrite lookup_insert_ne.
Qed.

Lemma owns_unique m ths l s t t' g g' :
  owns m ths → m !! l = Some s → ths !! t = Some g → ths !! t' = Some g' → l ∈ own g → l ∈ own g' → t = t'.
Proof.
  intros Ho Hl Ht Ht' Hin Hin'.
  assert (f s = Some t) by (apply (Ho _ _ _ Hl); eauto).
  assert (f s = Some t') by (apply (Ho _ _ _ Hl); eauto). congruence.
Qed.
End ownership.

(** ** The numeric view of a scope and the remaining allowance *)

Definition bytes_view (m : gmap loc readBudgetScope) (l : loc) : option (Z * Z) :=
  (λ s, (maxResponseBytes s, responseBytes s)) <$> m !! l.

Definition min_step (m : gmap loc readBudgetScope) (remaining : Z) (l : loc) : Z :=
  match m !! l with
  | Some s => let available := maxResponseBytes s - responseBytes s in
              if available <? remaining then available else remaining
  | None => remaining
  end.
(** The smallest allowance of the scopes of [h], capped by the largest int64. *)
Definition min_avail (m : gmap loc readBudgetScope) (h : list loc) : Z := foldl (min_step m) MaxInt64 h.

Lemma min_step_view m m' r l : bytes_view m l = bytes_view m' l → min_step m r l = min_step m' r l.
Proof.
  unfold bytes_view, min_step. destruct (m !! l), (m' !! l); simpl; intros Heq; try done. by injection Heq as -> ->.
Qed.

Lemma min_avail_view m m' h : (∀ l, l ∈ h → bytes_view m l = bytes_view m' l) → min_avail m h = min_avail m' h.
Proof.
  unfold min_avail. generalize MaxInt64. induction h as [|l h IH]; intros r Hv; simpl; [done|].
  rewrite (min_step_view m m') by (apply Hv; left). apply IH. intros. apply Hv. by right.
Qed.

Lemma min_step_le m r l : min_step m r l ≤ r.
Proof. unfold min_step. destruct (m !! l); [|lia]. simpl. destruct (_ <? _) eqn:?; bool_hyps; lia. Qed.

Lemma min_fold_le m r h : foldl (min_step m) r h ≤ r.
Proof. revert r. induction h as [|l h IH]; intros r; simpl; [lia|]. pose proof (min_step_le m r l). specialize (IH (min_step m r l)). lia. Qed.

Lemma min_fold_scope m r h l s : l ∈ h → m !! l = Some s → foldl (min_step m) r h ≤ maxResponseBytes s - responseBytes s.
Proof.
  intros Hin Hs. revert r. induction Hin as [l h|l l' h Hin IH]; intros r; simpl; [|apply (IH Hs)].
  etrans; [apply min_fold_le|]. unfold min_step. rewrite Hs. simpl. destruct (_ <? _) eqn:?; bool_hyps; lia.
Qed.

Lemma min_fold_nonneg m r h :
  0 ≤ r → (∀ l s, l ∈ h → m !! l = Some s → responseBytes s ≤ maxResponseBytes s) → 0 ≤ foldl (min_step m) r h.
Proof.
  revert r. induction h as [|l h IH]; intros r Hr Hb; simpl; [done|].
  apply IH; [|intros; eapply Hb; [by right|done]]. unfold min_step. destruct (m !! l) eqn:Hl; [|done]. simpl.
  destruct (_ <? _); [|done]. specialize (Hb l r0 ltac:(left) Hl). lia.
Qed.

Lemma incr_attempts_lookup m h l :
  NoDup h → incr_attempts m h !! l =
    (if decide (l ∈ h) then (λ s, with_attempts (attempts s + 1) s) <$> m !! l else m !! l).
Proof.
  unfold incr_attempts. intros Hn. revert m. induction Hn as [|x h Hx Hn IH]; intros m; simpl.
  { by destruct (decide (l ∈ [])) as [H%not_elem_of_nil|]. }
  rewrite IH. destruct (decide (l = x)) as [->|Hne].
  - rewrite decide_False by done. rewrite decide_True by left. by rewrite lookup_alter_eq.
  - rewrite lookup_alter_ne by done. destruct (decide (l ∈ h)).
    + by rewrite decide_True by (by right).
    + rewrite decide_False; [done|]. by intros [|]%elem_of_cons.
Qed.

(** ** The invariant *)

Definition is_handle (σ : state) (h : list loc) : Prop := ∃ b, budgets σ !! b = Some (Some <$> h).

(** Handles list distinct, existing scopes, ancestors first, and every prefix of
    a handle is the handle of its last scope. *)
Record wf_handles (σ : state) : Prop := {
  wf_next : ∀ l, is_Some (scopes (st σ) !! l) ↔ (l < next (st σ))%nat;
  wf_budget : ∀ b B, budgets σ !! b = Some B →
    ∃ p, B = Some <$> (p ++ [b]) ∧ StronglySorted lt (p ++ [b]) ∧ (b < next (st σ))%nat;
  wf_prefix : ∀ b p1 l p2, budgets σ !! b = Some (Some <$> (p1 ++ l :: p2)) → budgets σ !! l = Some (Some <$> (p1 ++ [l]))
}.

Definition wf_thread (σ : state) (g : goroutine) : Prop :=
  match position g with
  | Some (h, k) => is_handle σ h ∧ (k ≤ length h)%nat
  | None => True
  end.

Definition scope_bounds (s : readBudgetScope) : Prop :=
  0 ≤ attempts s ≤ maxAttempts s ∧ maxAttempts s ≤ MaxInt64 ∧
  0 ≤ responseBytes s ≤ maxResponseBytes s ∧ maxResponseBytes s ≤ MaxInt64.

Definition num_thread (m : gmap loc readBudgetScope) (g : goroutine) : Prop :=
  match g with
  | Measuring h k r => r = min_avail m (take k h)
  | Holding h r => r = min_avail m h
  | Charging h k n =>
      0 ≤ n ∧
      (∀ i l s, (k ≤ i)%nat → h !! i = Some l → m !! l = Some s → responseBytes s + n ≤ maxResponseBytes s) ∧
      (∀ j i l l' s s', (j < k ≤ i)%nat → h !! j = Some l → h !! i = Some l' → m !! l = Some s → m !! l' = Some s' →
         responseBytes s' + n ≤ responseBytes s)
  | _ => True
  end.

(** What a scope was charged, all its ancestors were charged. *)
Definition charged (σ : state) : Prop :=
  ∀ b h l s sb, budgets σ !! b = Some (Some <$> h) → l ∈ h → scopes (st σ) !! l = Some s → scopes (st σ) !! b = Some sb →
    attempts sb ≤ attempts s ∧ responseBytes sb ≤ responseBytes s.

Record Inv (σ : state) : Prop := {
  inv_handles : wf_handles σ;
  inv_threads : ∀ t g, threads σ !! t = Some g → wf_thread σ g;
  inv_mu : owns mu mus (scopes (st σ)) (threads σ);
  inv_gate : owns responseGate gates (scopes (st σ)) (threads σ);
  inv_bounds : ∀ l s, scopes (st σ) !! l = Some s → scope_bounds s;
  inv_num : ∀ t g, threads σ !! t = Some g → num_thread (scopes (st σ)) g;
  inv_charged : charged σ
}.

(** ** Handles *)

Lemma canonical_loop_NoDup seen h :
  NoDup h → (∀ l, l ∈ h → l ∉ seen) → canonical_loop seen (Some <$> h) = Some h.
Proof.
  intros Hn. revert seen. induction Hn as [|l h Hl Hn IH]; intros seen Hs; simpl; [done|].
  rewrite bool_decide_eq_false_2 by (apply Hs; left). rewrite IH; [done|].
  intros l' Hin. apply not_elem_of_union. split; [|apply Hs; by right]. rewrite elem_of_singleton. by intros ->.
Qed.

Lemma sorted_NoDup (h : list nat) : StronglySorted lt h → NoDup h.
Proof.
  induction 1 as [|l h Hs IH Hf]; constructor; [|done]. intros Hin.
  rewrite Forall_forall in Hf. specialize (Hf l Hin). lia.
Qed.

Lemma sorted_lookup (h : list nat) i j l l' :
  StronglySorted lt h → h !! i = Some l → h !! j = Some l' → (i < j)%nat → (l < l')%nat.
Proof.
  intros Hs. revert i j. induction Hs as [|x h Hs IH Hf]; intros i j Hi Hj Hij; [done|].
  destruct j as [|j]; [lia|]. destruct i as [|i]; simpl in *.
  - simplify_eq. rewrite Forall_forall in Hf. apply Hf. by eapply list_elem_of_lookup_2.
  - apply (IH i j); auto; lia.
Qed.

Section handles.
Variable σ : state.
Hypothesis Hwf : wf_handles σ.

Lemma handle_budget b h : budgets σ !! b = Some (Some <$> h) → ∃ p, h = p ++ [b] ∧ StronglySorted lt h.
Proof.
  intros Hb. destruct (wf_budget _ Hwf _ _ Hb) as (p & Heq & Hs & _).
  apply (inj (fmap Some)) in Heq as ->. eauto.
Qed.

Lemma handle_sorted h : is_handle σ h → StronglySorted lt h.
Proof. intros (b & Hb). by destruct (handle_budget _ _ Hb) as (? & ? & ?). Qed.

Lemma handle_NoDup h : is_handle σ h → NoDup h.
Proof. intros. by apply sorted_NoDup, handle_sorted. Qed.

Lemma handle_canonical h : is_handle σ h → canonicalScopes (Some (Some <$> h)) = Some h.
Proof.
  intros Hh. pose proof (handle_NoDup _ Hh) as Hn. destruct Hh as (b & Hb).
  destruct (handle_budget _ _ Hb) as (p & -> & _). unfold canonicalScopes.
  rewrite <- canonical_loop_NoDup with (seen := ∅); [|done|intros l _; apply not_elem_of_empty]. by destruct p.
Qed.

Lemma handle_prefix h k l : is_handle σ h → h !! k = Some l → budgets σ !! l = Some (Some <$> take (S k) h).
Proof.
  intros (b & Hb) Hl. rewrite (take_S_r _ _ _ Hl). apply (wf_prefix _ Hwf b _ _ (drop (S k) h)).
  by rewrite (take_drop_middle _ _ _ Hl).
Qed.

Lemma handle_scope h l : is_handle σ h → l ∈ h → is_Some (scopes (st σ) !! l).
Proof.
  intros Hh [k Hk]%list_elem_of_lookup. pose proof (handle_prefix _ _ _ Hh Hk) as Hb.
  destruct (wf_budget _ Hwf _ _ Hb) as (_ & _ & _ & Hl). by apply (wf_next _ Hwf).
Qed.

Lemma handle_lookup_scope h k l : is_handle σ h → h !! k = Some l → is_Some (scopes (st σ) !! l).
Proof. intros Hh Hk. apply (handle_scope h); [done|by eapply list_elem_of_lookup_2]. Qed.
End handles.

Lemma wf_handles_same σ σ' :
  budgets σ' = budgets σ → next (st σ') = next (st σ) →
  (∀ l, is_Some (scopes (st σ') !! l) ↔ is_Some (scopes (st σ) !! l)) → wf_handles σ → wf_handles σ'.
Proof.
  intros Hb Hn Hd [H1 H2 H3]. constructor; rewrite ?Hb, ?Hn; [|done..]. intros l. by rewrite Hd.
Qed.

Lemma is_handle_same σ σ' h : budgets σ' = budgets σ → is_handle σ' h ↔ is_handle σ h.
Proof. unfold is_handle. by intros ->. Qed.

Lemma wf_thread_same σ σ' g : budgets σ' = budgets σ → wf_thread σ' g ↔ wf_thread σ g.
Proof. intros Hb. unfold wf_thread. destruct (position g) as [[h k]|]; [|done]. by rewrite (is_handle_same _ _ _ Hb). Qed.

(** Facts about the numbers at the scopes a goroutine guards with its gates. *)
Lemma num_thread_view m m' g :
  (∀ l, l ∈ gates g → bytes_view m' l = bytes_view m l) → num_thread m g → num_thread m' g.
Proof.
  assert (∀ l s s', bytes_view m' l = bytes_view m l → m' !! l = Some s → m !! l = Some s' →
            maxResponseBytes s = maxResponseBytes s' ∧ responseBytes s = responseBytes s') as Hview.
  { unfold bytes_view. intros l s s' Hv Hs Hs'. rewrite Hs, Hs' in Hv. by injection Hv. }
  assert (∀ l s, bytes_view m' l = bytes_view m l → m' !! l = Some s → is_Some (m !! l)) as Hsome.
  { unfold bytes_view. intros l s Hv Hs. rewrite Hs in Hv. destruct (m !! l); [eauto|done]. }
  destruct g; simpl; intros Hg; try done.
  - intros ->. apply min_avail_view. intros l Hin. symmetry. apply Hg. by apply (subseteq_take k h).
  - intros ->. apply min_avail_view. intros l Hin. symmetry. by apply Hg.
  - intros (Hn & Hroom & Hpaid). split; [done|]. split.
    + intros i l s Hi Hl Hs. pose proof (Hg l (list_elem_of_lookup_2 _ _ _ Hl)) as Hv.
      destruct (Hsome _ _ Hv Hs) as [s0 Hs0]. destruct (Hview _ _ _ Hv Hs Hs0) as [-> ->]. eauto.
    + intros j i l l' s s' Hji Hl Hl' Hs Hs'.
      pose proof (Hg l (list_elem_of_lookup_2 _ _ _ Hl)) as Hv. pose proof (Hg l' (list_elem_of_lookup_2 _ _ _ Hl')) as Hv'.
      destruct (Hsome _ _ Hv Hs) as [s0 Hs0]. destruct (Hview _ _ _ Hv Hs Hs0) as [_ ->].
      destruct (Hsome _ _ Hv' Hs') as [s1 Hs1]. destruct (Hview _ _ _ Hv' Hs' Hs1) as [_ ->]. eauto.
Qed.

(** ** Preservation *)

Lemma Inv_update σ t g' m' :
  Inv σ → (∀ l, is_Some (m' !! l) ↔ is_Some (scopes (st σ) !! l)) → wf_thread σ g' →
  owns mu mus m' (<[t := g']> (threads σ)) → owns responseGate gates m' (<[t := g']> (threads σ)) →
  (∀ l s, m' !! l = Some s → scope_bounds s) → num_thread m' g' →
  (∀ t' g, t' ≠ t → threads σ !! t' = Some g → num_thread m' g) →
  charged (set_scopes m' σ) → Inv (set_thread t g' (set_scopes m' σ)).
Proof.
  intros Hi Hd Hg Hmu Hgate Hb Hn Hno Hc. constructor; simpl; try done.
  - eapply wf_handles_same; [..|apply (inv_handles _ Hi)]; done.
  - intros t' g1. rewrite (wf_thread_same σ) by done. destruct (decide (t' = t)) as [->|Hne].
    + rewrite lookup_insert_eq. by intros [= <-].
    + rewrite lookup_insert_ne by done. apply (inv_threads _ Hi).
  - intros t' g1. destruct (decide (t' = t)) as [->|Hne].
    + rewrite lookup_insert_eq. by intros [= <-].
    + rewrite lookup_insert_ne by done. eauto.
Qed.

(** The counters of a scope, without its synchronisation state. *)
Definition counters (s : readBudgetScope) : Z * Z * (Z * Z) :=
  (maxAttempts s, attempts s, (maxResponseBytes s, responseBytes s)).

(** A step that only moves a mutex or a gate token. *)
Lemma Inv_sync σ t g' m' :
  Inv σ → (∀ l, counters <$> m' !! l = counters <$> scopes (st σ) !! l) → wf_thread σ g' →
  owns mu mus m' (<[t := g']> (threads σ)) → owns responseGate gates m' (<[t := g']> (threads σ)) →
  num_thread (scopes (st σ)) g' → Inv (set_thread t g' (set_scopes m' σ)).
Proof.
  intros Hi Hv Hg Hmu Hgate Hn.
  assert (∀ l s', m' !! l = Some s' → ∃ s, scopes (st σ) !! l = Some s ∧ counters s' = counters s) as Hs.
  { intros l s' Hl. specialize (Hv l). rewrite Hl in Hv. destruct (scopes (st σ) !! l); [|done].
    injection Hv. intros. eexists. split; [done|]. unfold counters. congruence. }
  assert (∀ l, bytes_view m' l = bytes_view (scopes (st σ)) l) as Hbv.
  { intros l. specialize (Hv l). unfold bytes_view. destruct (m' !! l), (scopes (st σ) !! l); simpl in *; try done.
    injection Hv. intros. congruence. }
  apply Inv_update; try done.
  - intros l. rewrite <- (fmap_is_Some counters), Hv. apply fmap_is_Some.
  - intros l s' Hl. destruct (Hs _ _ Hl) as (s & Hl' & Heq). pose proof (inv_bounds _ Hi _ _ Hl') as Hb.
    unfold scope_bounds. injection Heq as -> -> -> ->. done.
  - eapply num_thread_view; [|done]. done.
  - intros t' g1 _ Ht'. eapply num_thread_view; [|by apply (inv_num _ Hi t')]. done.
  - intros b h l s' sb' Hb Hin Hl Hlb. simpl in *.
    destruct (Hs _ _ Hl) as (s & Hl0 & Heq). destruct (Hs _ _ Hlb) as (sb & Hlb0 & Heqb).
    destruct (inv_charged _ Hi _ _ _ _ _ Hb Hin Hl0 Hlb0). injection Heq as _ -> _ ->. by injection Heqb as _ -> _ ->.
Qed.

Lemma set_scopes_id σ : set_scopes (scopes (st σ)) σ = σ.
Proof. by destruct σ as [[] ? ?]. Qed.

(** A step that only moves a goroutine, which keeps what it owns. *)
Lemma Inv_move σ t og g' :
  Inv σ → threads σ !! t = og → wf_thread σ g' →
  mus g' = from_option mus [] og → gates g' = from_option gates [] og →
  num_thread (scopes (st σ)) g' → Inv (set_thread t g' σ).
Proof.
  intros Hi Ht Hg Hm Hgt Hn. rewrite <- (set_scopes_id σ) at 1.
  apply Inv_sync; try done.
  - eapply owns_keep; [apply (inv_mu _ Hi)|naive_solver|]. intros l. rewrite Hm, Ht. destruct og; simpl; [naive_solver|].
    split; [by intros ?%not_elem_of_nil|naive_solver].
  - eapply owns_keep; [apply (inv_gate _ Hi)|naive_solver|]. intros l. rewrite Hgt, Ht. destruct og; simpl; [naive_solver|].
    split; [by intros ?%not_elem_of_nil|naive_solver].
Qed.

Lemma Inv_goto σ t g g' :
  Inv σ → threads σ !! t = Some g → wf_thread σ g' → mus g' = mus g → gates g' = gates g →
  num_thread (scopes (st σ)) g' → Inv (set_thread t g' σ).
Proof. intros. by eapply Inv_move with (og := Some g). Qed.

Lemma Inv_spawn σ t g' :
  Inv σ → threads σ !! t = None → wf_thread σ g' → mus g' = [] → gates g' = [] →
  num_thread (scopes (st σ)) g' → Inv (set_thread t g' σ).
Proof. intros. by eapply Inv_move with (og := None). Qed.

Lemma counters_insert σ l s s' :
  scopes (st σ) !! l = Some s → counters s' = counters s →
  ∀ l', counters <$> <[l := s']> (scopes (st σ)) !! l' = counters <$> scopes (st σ) !! l'.
Proof.
  intros Hl Hc l'. destruct (decide (l' = l)) as [->|Hne].
  - rewrite lookup_insert_eq, Hl. simpl. by rewrite Hc.
  - by rewrite lookup_insert_ne.
Qed.

(** Ownership of the other kind is untouched by an update of one scope. *)
Lemma owns_other (f : readBudgetScope → option tid) own σ t g g' l s s' :
  owns f own (scopes (st σ)) (threads σ) → threads σ !! t = Some g → scopes (st σ) !! l = Some s →
  f s' = f s → own g' = own g → owns f own (<[l := s']> (scopes (st σ))) (<[t := g']> (threads σ)).
Proof.
  intros Ho Ht Hl Hf Hown. eapply owns_keep; [done| |].
  - intros l' s1 Hl'. destruct (decide (l' = l)) as [->|Hne].
    + rewrite lookup_insert_eq in Hl'. simplify_eq. eauto.
    + rewrite lookup_insert_ne in Hl' by done. eauto.
  - intros l'. rewrite Hown, Ht. naive_solver.
Qed.

Lemma elem_of_take_S {A} (h : list A) k l l' : h !! k = Some l → l' ∈ take (S k) h ↔ l' ∈ take k h ∨ l' = l.
Proof. intros Hl. rewrite (take_S_r _ _ _ Hl), elem_of_app, list_elem_of_singleton. done. Qed.

Lemma elem_of_take_pred {A} (h : list A) k l l' :
  NoDup h → h !! k = Some l → l' ∈ take k h ↔ l' ∈ take (S k) h ∧ l' ≠ l.
Proof.
  intros Hn Hl. rewrite (elem_of_take_S _ _ _ _ Hl). split; [|naive_solver].
  intros Hin. split; [by left|]. intros ->. apply elem_of_take in Hin as (i & Hi & Hlt).
  pose proof (NoDup_lookup _ _ _ _ Hn Hi Hl). lia.
Qed.

Lemma Inv_lock σ t h k l s :
  Inv σ → threads σ !! t = Some (Locking h k) → h !! k = Some l → scopes (st σ) !! l = Some s → mu s = None →
  Inv (set_thread t (Locking h (S k)) (set_scopes (<[l := with_mu (Some t) s]> (scopes (st σ))) σ)).
Proof.
  intros Hi Ht Hk Hl Hs. destruct (inv_threads _ Hi _ _ Ht) as [Hh _]. apply Inv_sync; try done.
  - by apply (counters_insert _ _ s).
  - split; [done|]. by apply lookup_lt_Some in Hk.
  - eapply owns_acquire; try done; [apply (inv_mu _ Hi)|]. intros l'. by apply elem_of_take_S.
  - by eapply owns_other; [apply (inv_gate _ Hi)|..].
Qed.

Lemma Inv_unlock σ t h k o l s :
  Inv σ → threads σ !! t = Some (Unlocking h (S k) o) → h !! k = Some l → scopes (st σ) !! l = Some s →
  Inv (set_thread t (Unlocking h k o) (set_scopes (<[l := with_mu None s]> (scopes (st σ))) σ)).
Proof.
  intros Hi Ht Hk Hl. destruct (inv_threads _ Hi _ _ Ht) as [Hh Hlen]. apply Inv_sync; try done.
  - by apply (counters_insert _ _ s).
  - split; [done|]. lia.
  - eapply owns_release; try done; [apply (inv_mu _ Hi)|..].
    + apply (elem_of_take_S _ _ _ _ Hk). by right.
    + intros l'. apply elem_of_take_pred; [|done]. by apply (handle_NoDup σ (inv_handles _ Hi)).
  - by eapply owns_other; [apply (inv_gate _ Hi)|..].
Qed.

Lemma Inv_acquire σ t h k l s :
  Inv σ → threads σ !! t = Some (Acquiring h k) → h !! k = Some l → scopes (st σ) !! l = Some s → responseGate s = None →
  Inv (set_thread t (Acquiring h (S k)) (set_scopes (<[l := with_gate (Some t) s]> (scopes (st σ))) σ)).
Proof.
  intros Hi Ht Hk Hl Hs. destruct (inv_threads _ Hi _ _ Ht) as [Hh _]. apply Inv_sync; try done.
  - by apply (counters_insert _ _ s).
  - split; [done|]. by apply lookup_lt_Some in Hk.
  - by eapply owns_other; [apply (inv_mu _ Hi)|..].
  - eapply owns_acquire; try done; [apply (inv_gate _ Hi)|]. intros l'. by apply elem_of_take_S.
Qed.

Lemma Inv_release σ t h k o l s :
  Inv σ → threads σ !! t = Some (Releasing h (S k) o) → h !! k = Some l → scopes (st σ) !! l = Some s →
  Inv (set_thread t (Releasing h k o) (set_scopes (<[l := with_gate None s]> (scopes (st σ))) σ)).
Proof.
  intros Hi Ht Hk Hl. destruct (inv_threads _ Hi _ _ Ht) as [Hh Hlen]. apply Inv_sync; try done.
  - by apply (counters_insert _ _ s).
  - split; [done|]. lia.
  - by eapply owns_other; [apply (inv_mu _ Hi)|..].
  - eapply owns_release; try done; [apply (inv_gate _ Hi)|..].
    + apply (elem_of_take_S _ _ _ _ Hk). by right.
    + intros l'. apply elem_of_take_pred; [|done]. by apply (handle_NoDup σ (inv_handles _ Hi)).
Qed.

Lemma exhausted_false m h l s : exhausted m h = false → l ∈ h → m !! l = Some s → attempts s < maxAttempts s.
Proof.
  unfold exhausted. intros He Hin Hl. destruct (maxAttempts s <=? attempts s) eqn:Hc; [|by bool_hyps].
  apply not_true_iff_false in He. exfalso. apply He, existsb_elem. exists l. split; [done|]. by rewrite Hl.
Qed.

Lemma incr_view m h l s' :
  NoDup h → incr_attempts m h !! l = Some s' →
  ∃ s, m !! l = Some s ∧ attempts s' = attempts s + (if decide (l ∈ h) then 1 else 0) ∧
       maxAttempts s' = maxAttempts s ∧ maxResponseBytes s' = maxResponseBytes s ∧ responseBytes s' = responseBytes s ∧
       mu s' = mu s ∧ responseGate s' = responseGate s.
Proof.
  intros Hn. rewrite incr_attempts_lookup by done. destruct (decide (l ∈ h)); destruct (m !! l) as [s|]; simpl; try done;
    intros [= <-]; exists s; simpl; split_and!; try done; lia.
Qed.

(** All ancestors of a scope of a handle are in the handle. *)
Lemma handle_closed σ h b hb l :
  wf_handles σ → is_handle σ h → b ∈ h → budgets σ !! b = Some (Some <$> hb) → l ∈ hb → l ∈ h.
Proof.
  intros Hwf Hh [k Hk]%list_elem_of_lookup Hb Hl. rewrite (handle_prefix _ Hwf _ _ _ Hh Hk) in Hb.
  injection Hb as Hb. apply (inj (fmap Some)) in Hb as <-. by apply (subseteq_take (S k) h).
Qed.

Lemma Inv_admit σ t h :
  Inv σ → threads σ !! t = Some (Locking h (length h)) → exhausted (scopes (st σ)) h = false →
  Inv (set_thread t (Unlocking h (length h) AttemptAdmitted) (set_scopes (incr_attempts (scopes (st σ)) h) σ)).
Proof.
  intros Hi Ht He. destruct (inv_threads _ Hi _ _ Ht) as [Hh _].
  pose proof (handle_NoDup _ (inv_handles _ Hi) _ Hh) as Hn.
  assert (∀ l, bytes_view (incr_attempts (scopes (st σ)) h) l = bytes_view (scopes (st σ)) l) as Hv.
  { intros l. unfold bytes_view. rewrite incr_attempts_lookup by done.
    destruct (decide (l ∈ h)); [|done]. by destruct (scopes (st σ) !! l). }
  apply Inv_update; try done.
  - intros l. rewrite incr_attempts_lookup by done. destruct (decide (l ∈ h)); [|done]. apply fmap_is_Some.
  - eapply owns_keep; [apply (inv_mu _ Hi)| |].
    + intros l s' (s & Hs & _ & _ & _ & _ & Hmu & _)%incr_view; [eauto|done].
    + intros l. rewrite Ht. simpl. naive_solver.
  - eapply owns_keep; [apply (inv_gate _ Hi)| |].
    + intros l s' (s & Hs & _ & _ & _ & _ & _ & Hg)%incr_view; [eauto|done].
    + intros l. rewrite Ht. simpl. naive_solver.
  - intros l s' (s & Hs & Ha & HA & HB & Hb & _)%incr_view; [|done]. pose proof (inv_bounds _ Hi _ _ Hs) as Hbd.
    unfold scope_bounds in *. rewrite Ha, HA, HB, Hb. destruct (decide (l ∈ h)) as [Hin|]; [|lia].
    pose proof (exhausted_false _ _ _ _ He Hin Hs). lia.
  - intros t' g _ Ht'. eapply num_thread_view; [|by apply (inv_num _ Hi t')]. done.
  - intros b hb l s' sb' Hb Hin Hl Hlb. simpl in *.
    apply incr_view in Hl as (s & Hs & Ha & _ & _ & Hby & _); [|done].
    apply incr_view in Hlb as (sb & Hsb & Hab & _ & _ & Hbb & _); [|done].
    destruct (inv_charged _ Hi _ _ _ _ _ Hb Hin Hs Hsb). rewrite Ha, Hab, Hby, Hbb. split; [|done].
    destruct (decide (b ∈ h)) as [Hbh|]; [|destruct (decide (l ∈ h)); lia].
    rewrite decide_True; [lia|]. by eapply handle_closed; [apply (inv_handles _ Hi)|..].
Qed.

Lemma with_bytes_lookup (m : gmap loc readBudgetScope) l s v l' s' :
  m !! l = Some s → <[l := with_bytes v s]> m !! l' = Some s' →
  ∃ s0, m !! l' = Some s0 ∧ attempts s' = attempts s0 ∧ maxAttempts s' = maxAttempts s0 ∧
        maxResponseBytes s' = maxResponseBytes s0 ∧ responseBytes s' = (if decide (l' = l) then v else responseBytes s0).
Proof.
  intros Hl. destruct (decide (l' = l)) as [->|Hne].
  - rewrite lookup_insert_eq. intros [= <-]. exists s. done.
  - rewrite lookup_insert_ne by done. intros ?. exists s'. done.
Qed.

Lemma Inv_charge σ t h k n l s :
  Inv σ → threads σ !! t = Some (Charging h k n) → h !! k = Some l → scopes (st σ) !! l = Some s →
  Inv (set_thread t (Charging h (S k) n) (set_scopes (<[l := with_bytes (responseBytes s + n) s]> (scopes (st σ))) σ)).
Proof.
  intros Hi Ht Hk Hl. destruct (inv_threads _ Hi _ _ Ht) as [Hh Hlen].
  destruct (inv_num _ Hi _ _ Ht) as (Hn0 & Hroom & Hpaid).
  pose proof (handle_NoDup _ (inv_handles _ Hi) _ Hh) as Hn.
  apply Inv_update; try done.
  - intros l'. destruct (decide (l' = l)) as [->|Hne]; [rewrite lookup_insert_eq, Hl; naive_solver|by rewrite lookup_insert_ne].
  - split; [done|]. by apply lookup_lt_Some in Hk.
  - by eapply owns_other; [apply (inv_mu _ Hi)|..].
  - by eapply owns_other; [apply (inv_gate _ Hi)|..].
  - intros l' s' Hs'. apply (with_bytes_lookup _ _ _ _ _ _ Hl) in Hs' as (s0 & Hs0 & Ha & HA & HB & Hb).
    pose proof (inv_bounds _ Hi _ _ Hs0) as Hbd. unfold scope_bounds in *. rewrite Ha, HA, HB, Hb.
    destruct (decide (l' = l)) as [->|]; [|lia]. simplify_eq. pose proof (Hroom k l _ ltac:(lia) Hk Hl). lia.
  - split; [done|]. split.
    + intros i l' s' Hi' Hl' Hs'. apply (with_bytes_lookup _ _ _ _ _ _ Hl) in Hs' as (s0 & Hs0 & _ & _ & HB & Hb).
      rewrite HB, Hb. rewrite decide_False; [apply (Hroom i l'); [lia|done..]|].
      intros ->. pose proof (NoDup_lookup _ _ _ _ Hn Hl' Hk). lia.
    + intros j i l1 l2 s1 s2 Hji Hj Hi' Hs1 Hs2.
      apply (with_bytes_lookup _ _ _ _ _ _ Hl) in Hs1 as (s10 & Hs10 & _ & _ & _ & Hb1).
      apply (with_bytes_lookup _ _ _ _ _ _ Hl) in Hs2 as (s20 & Hs20 & _ & _ & _ & Hb2). rewrite Hb1, Hb2.
      assert (l2 ≠ l) by (intros ->; pose proof (NoDup_lookup _ _ _ _ Hn Hi' Hk); lia).
      rewrite (decide_False (P := l2 = l)) by done. destruct (decide (l1 = l)) as [->|Hne].
      * simplify_eq. assert (responseBytes s20 ≤ responseBytes s); [|lia].
        apply (inv_charged _ Hi l2 (take (S i) h) l); try done.
        -- by eapply handle_prefix; [apply (inv_handles _ Hi)|..].
        -- apply elem_of_take. exists k. split; [done|lia].
      * apply (Hpaid j i l1 l2); try done. split; [|lia]. destruct (decide (j = k)); [|lia]. simplify_eq.
  - intros t' g Hne Ht'. eapply num_thread_view; [|by apply (inv_num _ Hi t')]. intros l' Hin. unfold bytes_view.
    rewrite lookup_insert_ne; [done|]. intros ->. apply Hne. symmetry.
    eapply (owns_unique responseGate gates); [apply (inv_gate _ Hi)|done..| |done]. simpl. by eapply list_elem_of_lookup_2.
  - intros b hb l' s' sb' Hb Hin Hl' Hlb. simpl in *.
    apply (with_bytes_lookup _ _ _ _ _ _ Hl) in Hl' as (s0 & Hs0 & Ha & _ & _ & Hby).
    apply (with_bytes_lookup _ _ _ _ _ _ Hl) in Hlb as (sb0 & Hsb0 & Hab & _ & _ & Hbb).
    destruct (inv_charged _ Hi _ _ _ _ _ Hb Hin Hs0 Hsb0) as [Hc1 Hc2]. rewrite Ha, Hab, Hby, Hbb. split; [done|].
    destruct (decide (b = l)) as [->|]; [|destruct (decide (l' = l)); simplify_eq; lia].
    simplify_eq. destruct (decide (l' = l)) as [->|Hne]; [lia|].
    rewrite (handle_prefix _ (inv_handles _ Hi) _ _ _ Hh Hk) in Hb. injection Hb as Hb.
    apply (inj (fmap Some)) in Hb as <-. apply elem_of_take in Hin as (j & Hj & Hjk).
    apply (Hpaid j k l' l); try done. split; [|lia]. destruct (decide (j = k)); [|lia]. simplify_eq.
Qed.

Lemma owned_handle σ t g l : Inv σ → threads σ !! t = Some g → l ∈ mus g ∨ l ∈ gates g → is_Some (scopes (st σ) !! l).
Proof.
  intros Hi Ht Hin. pose proof (inv_threads _ Hi _ _ Ht) as Hg. unfold wf_thread in Hg.
  destruct (position g) as [[h k]|] eqn:Hp; [|destruct g; simpl in *; try done; destruct Hin as [?%not_elem_of_nil|?%not_elem_of_nil]; done].
  destruct Hg as [Hh _]. apply (handle_scope _ (inv_handles _ Hi) h); [done|].
  destruct g; simpl in *; simplify_eq; destruct Hin as [Hin|Hin];
    first [by apply not_elem_of_nil in Hin | done | by apply (subseteq_take _ h) in Hin].
Qed.

(** The handle a constructor builds and the scope it adds. *)
Lemma newReadBudget_Ok σ parent maxA maxB usage st' b :
  wf_handles σ → (∀ B, parent = Some B → ∃ p, budgets σ !! p = Some B) →
  newReadBudget (st σ) parent maxA maxB usage = Ok (st', b) →
  ∃ ls, (ls = [] ∨ is_handle σ ls) ∧ (parent = None → ls = []) ∧ b = Some <$> (ls ++ [next (st σ)]) ∧
    0 ≤ Attempts usage ≤ maxA ∧ 0 ≤ ResponseBytes usage ≤ maxB ∧
    st' = {| scopes := <[next (st σ) := {| maxAttempts := maxA; attempts := Attempts usage; maxResponseBytes := maxB;
                responseBytes := ResponseBytes usage; mu := None; responseGate := None |}]> (scopes (st σ));
             next := S (next (st σ)) |}.
Proof.
  intros Hwf Hp H. unfold newReadBudget, guard_err in H.
  destruct (negb (maxA <? 0)) eqn:?; [|done]. destruct (negb (maxB <? 0)) eqn:?; [|done].
  destruct (negb (_ || (maxA <? _))) eqn:?; [|done]. destruct (negb (_ || (maxB <? _))) eqn:?; [|done].
  cbn [rbind] in H. bool_hyps. destruct parent as [B|].
  - destruct (Hp B eq_refl) as (p & Hpb). destruct (wf_budget _ Hwf _ _ Hpb) as (q & -> & _).
    rewrite (handle_canonical σ Hwf) in H by (by exists p). cbn [rbind] in H. simplify_eq.
    exists (q ++ [p]). split; [right; by exists p|]. split_and!; try done. by rewrite !fmap_app.
  - cbn [rbind] in H. simplify_eq. exists []. split_and!; try done; try lia. by left.
Qed.

Lemma Inv_install σ parent maxA maxB usage :
  Inv σ → in_int64 maxA = true → in_int64 maxB = true → (parent ≠ None → usage = zero_usage) →
  (∀ B, parent = Some B → ∃ p, budgets σ !! p = Some B) →
  Inv (install σ (newReadBudget (st σ) parent maxA maxB usage)).
Proof.
  intros Hi HmA HmB Hu Hp. destruct (newReadBudget _ _ _ _ _) as [[st' b]|] eqn:Hnew; [|done].
  pose proof (inv_handles _ Hi) as Hwf.
  apply (newReadBudget_Ok σ) in Hnew as (ls & Hls & Hroot & -> & HA & HB & ->); [|done..].
  unfold in_int64 in *. bool_hyps. simpl.
  assert (scopes (st σ) !! next (st σ) = None) as Hfresh.
  { apply eq_None_not_Some. rewrite (wf_next _ Hwf). lia. }
  assert (∀ l, is_Some (scopes (st σ) !! l) → l ≠ next (st σ)) as Hold by (intros l Hl ->; rewrite Hfresh in Hl; by destruct Hl).
  assert (∀ b B, budgets σ !! b = Some B → b ≠ next (st σ)) as Hbold.
  { intros b B Hb ->. destruct (wf_budget _ Hwf _ _ Hb) as (_ & _ & _ & ?). lia. }
  assert (∀ l, l ∈ ls → is_Some (scopes (st σ) !! l)) as Hlsc.
  { destruct Hls as [->|Hh]; [by intros l ?%not_elem_of_nil|]. intros l. by apply handle_scope. }
  constructor; simpl.
  - constructor; simpl.
    + intros l. destruct (decide (l = next (st σ))) as [->|Hne].
      * rewrite lookup_insert_eq. split; [lia|eauto].
      * rewrite lookup_insert_ne by done. rewrite (wf_next _ Hwf). lia.
    + intros b B. destruct (decide (b = next (st σ))) as [->|Hne].
      * rewrite lookup_insert_eq. intros [= <-]. exists ls. split_and!; [done| |lia].
        apply StronglySorted_app_2; [|destruct Hls as [->|Hh]; [constructor|by eapply handle_sorted]|repeat constructor].
        intros l l' Hin ->%list_elem_of_singleton. apply (wf_next _ Hwf), Hlsc, Hin.
      * rewrite lookup_insert_ne by done. intros Hb. destruct (wf_budget _ Hwf _ _ Hb) as (p & ? & ? & ?).
        exists p. split_and!; [done..|lia].
    + intros b p1 l p2. destruct (decide (b = next (st σ))) as [->|Hne].
      * rewrite lookup_insert_eq. intros [= Heq]. apply (inj (fmap Some)) in Heq.
        destruct (decide (p2 = [])) as [->|Hp2]; [|destruct (exists_last Hp2) as (p2' & x & ->)].
        -- apply app_inj_2 in Heq as [<- [= <-]]; [|done]. by rewrite lookup_insert_eq.
        -- rewrite app_comm_cons, app_assoc in Heq. apply app_inj_2 in Heq as [Heq _]; [|done].
           destruct Hls as [->|(pb & Hpb)]; [by destruct p1|]. rewrite Heq in Hpb.
           pose proof (wf_prefix _ Hwf _ _ _ _ Hpb) as Hl. rewrite lookup_insert_ne; [done|].
           intros Hln. by apply (Hbold _ _ Hl).
      * rewrite lookup_insert_ne by done. intros Hb. pose proof (wf_prefix _ Hwf _ _ _ _ Hb) as Hl.
        rewrite lookup_insert_ne; [done|]. intros Hln. by apply (Hbold _ _ Hl).
  - intros t g Ht. pose proof (inv_threads _ Hi _ _ Ht) as Hg. unfold wf_thread in *.
    destruct (position g) as [[h k]|]; [|done]. destruct Hg as [(b & Hb) ?]. split; [|done].
    exists b. simpl. rewrite lookup_insert_ne; [done|]. intros Hln. by apply (Hbold _ _ Hb).
  - intros l s t. destruct (decide (l = next (st σ))) as [->|Hne].
    + rewrite lookup_insert_eq. intros [= <-]. simpl. split; [done|]. intros (g & Ht & Hin). exfalso.
      eapply Hold; [|done]. eapply owned_handle; eauto.
    + rewrite lookup_insert_ne by done. apply (inv_mu _ Hi).
  - intros l s t. destruct (decide (l = next (st σ))) as [->|Hne].
    + rewrite lookup_insert_eq. intros [= <-]. simpl. split; [done|]. intros (g & Ht & Hin). exfalso.
      eapply Hold; [|done]. eapply owned_handle; eauto.
    + rewrite lookup_insert_ne by done. apply (inv_gate _ Hi).
  - intros l s. destruct (decide (l = next (st σ))) as [->|Hne].
    + rewrite lookup_insert_eq. intros [= <-]. unfold scope_bounds. simpl. lia.
    + rewrite lookup_insert_ne by done. apply (inv_bounds _ Hi).
  - intros t g Ht. eapply num_thread_view; [|by apply (inv_num _ Hi t)]. intros l Hin. unfold bytes_view.
    rewrite lookup_insert_ne; [done|]. intros <-. eapply Hold; [|done]. eapply owned_handle; eauto.
  - intros b h l s sb Hb Hin Hl Hlb. simpl in *. destruct (decide (b = next (st σ))) as [->|Hne].
    + rewrite lookup_insert_eq in Hb. rewrite lookup_insert_eq in Hlb. simplify_eq. simpl.
      apply elem_of_app in Hin as [Hin| ->%list_elem_of_singleton].
      * rewrite Hu by (intros ->; rewrite Hroot in Hin by done; by apply not_elem_of_nil in Hin). simpl.
        rewrite lookup_insert_ne in Hl by (intros <-; by eapply Hold; [apply (Hlsc _ Hin)|]).
        pose proof (inv_bounds _ Hi _ _ Hl) as Hbd. unfold scope_bounds in Hbd. lia.
      * rewrite lookup_insert_eq in Hl. simplify_eq. simpl. lia.
    + rewrite lookup_insert_ne in Hb by done. rewrite lookup_insert_ne in Hlb by done. rewrite lookup_insert_ne in Hl.
      * by apply (inv_charged _ Hi b h l).
      * intros <-. eapply Hold; [|done]. apply (handle_scope _ Hwf h); [by exists b|done].
Qed.

(** A goroutine position past the end of its handle is exactly the end. *)
Lemma at_end σ t g h k : Inv σ → threads σ !! t = Some g → position g = Some (h, k) → h !! k = None → k = length h.
Proof.
  intros Hi Ht Hp Hk. pose proof (inv_threads _ Hi _ _ Ht) as Hg. unfold wf_thread in Hg. rewrite Hp in Hg.
  apply lookup_ge_None in Hk. lia.
Qed.

Lemma Inv_measure σ t h k r l s :
  Inv σ → threads σ !! t = Some (Measuring h k r) → h !! k = Some l → scopes (st σ) !! l = Some s →
  Inv (set_thread t (Measuring h (S k) (min_step (scopes (st σ)) r l)) σ).
Proof.
  intros Hi Ht Hk Hl. destruct (inv_threads _ Hi _ _ Ht) as [Hh _]. apply (Inv_goto _ _ _ _ Hi Ht); try done.
  - split; [done|]. by apply lookup_lt_Some in Hk.
  - pose proof (inv_num _ Hi _ _ Ht) as Hr. simpl in Hr. simpl. rewrite (take_S_r _ _ _ Hk). unfold min_avail.
    rewrite foldl_app. simpl. by rewrite Hr.
Qed.

(** The allowance handed to a caller is available at every scope. *)
Lemma holding_room σ t h r :
  Inv σ → threads σ !! t = Some (Holding h r) →
  0 ≤ r ∧ ∀ l s, l ∈ h → scopes (st σ) !! l = Some s → r ≤ maxResponseBytes s - responseBytes s.
Proof.
  intros Hi Ht. pose proof (inv_num _ Hi _ _ Ht) as Hr. simpl in Hr. subst r. split.
  - apply min_fold_nonneg; [done|]. intros l s _ Hl. pose proof (inv_bounds _ Hi _ _ Hl) as Hb.
    unfold scope_bounds in Hb. lia.
  - intros l s. apply min_fold_scope.
Qed.

Lemma clamp_range c r : 0 ≤ r → 0 ≤ clamp c r ≤ r.
Proof. unfold clamp. intros Hr. destruct (c <? 0) eqn:Hc; destruct (r <? _) eqn:?; bool_hyps; lia. Qed.

Lemma Inv_finish σ t h r c :
  Inv σ → threads σ !! t = Some (Holding h r) → Inv (set_thread t (Charging h 0 (clamp c r)) σ).
Proof.
  intros Hi Ht. destruct (inv_threads _ Hi _ _ Ht) as [Hh _]. destruct (holding_room _ _ _ _ Hi Ht) as [Hr Hroom].
  pose proof (clamp_range c r Hr). eapply (Inv_goto _ _ _ _ Hi Ht); try done.
  - split; [done|lia].
  - split; [lia|]. split; [|lia]. intros i l s _ Hl Hs.
    pose proof (Hroom l s (list_elem_of_lookup_2 _ _ _ Hl) Hs). lia.
Qed.

Lemma run_Inv σ t g σ' : Inv σ → threads σ !! t = Some g → run t g σ = Some σ' → Inv σ'.
Proof.
  intros Hi Ht Hrun. pose proof (inv_threads _ Hi _ _ Ht) as Hg.
  destruct g as [h k|h k o|h k|h k r|h r|h k n|h k o|o]; simpl in Hrun; try done.
  - destruct (h !! k) as [l|] eqn:Hk.
    + destruct (scopes (st σ) !! l) as [s|] eqn:Hl; simpl in Hrun; [|done]. case_decide; simplify_eq.
      by apply Inv_lock with (s := s) (l := l).
    + pose proof (at_end _ _ _ _ _ Hi Ht eq_refl Hk) as ->.
      destruct (exhausted _ h) eqn:He; simplify_eq.
      * by apply (Inv_goto _ _ _ _ Hi Ht).
      * by apply Inv_admit.
  - destruct k as [|k]; [simplify_eq; by apply (Inv_goto _ _ _ _ Hi Ht)|].
    destruct (h !! k) as [l|] eqn:Hk; simpl in Hrun; [|done].
    destruct (scopes (st σ) !! l) as [s|] eqn:Hl; simpl in Hrun; [|done]. case_decide; simplify_eq.
    by apply Inv_unlock with (s := s) (l := l).
  - destruct (h !! k) as [l|] eqn:Hk.
    + destruct (scopes (st σ) !! l) as [s|] eqn:Hl; simpl in Hrun; [|done]. case_decide; simplify_eq.
      by apply Inv_acquire with (s := s) (l := l).
    + pose proof (at_end _ _ _ _ _ Hi Ht eq_refl Hk) as ->. simplify_eq. destruct Hg as [Hh _].
      apply (Inv_goto _ _ _ _ Hi Ht); try done; [split; [done|lia]|simpl; by rewrite firstn_all].
  - destruct (h !! k) as [l|] eqn:Hk.
    + destruct (scopes (st σ) !! l) as [s|] eqn:Hl; simpl in Hrun; [|done]. case_decide; simplify_eq.
      pose proof (Inv_measure _ _ _ _ _ _ _ Hi Ht Hk Hl) as Hm. unfold min_step in Hm. by rewrite Hl in Hm.
    + pose proof (at_end _ _ _ _ _ Hi Ht eq_refl Hk) as ->. simplify_eq. destruct Hg as [Hh _].
      apply (Inv_goto _ _ _ _ Hi Ht); try done.
      pose proof (inv_num _ Hi _ _ Ht) as Hr. simpl in Hr. rewrite firstn_all in Hr. done.
  - destruct (h !! k) as [l|] eqn:Hk.
    + destruct (scopes (st σ) !! l) as [s|] eqn:Hl; simpl in Hrun; [|done]. case_decide; simplify_eq.
      by apply Inv_charge with (s := s) (l := l).
    + pose proof (at_end _ _ _ _ _ Hi Ht eq_refl Hk) as ->. simplify_eq.
      apply (Inv_goto _ _ _ _ Hi Ht); try done. simpl. by rewrite firstn_all.
  - destruct k as [|k]; [simplify_eq; by apply (Inv_goto _ _ _ _ Hi Ht)|].
    destruct (h !! k) as [l|] eqn:Hk; simpl in Hrun; [|done].
    destruct (scopes (st σ) !! l) as [s|] eqn:Hl; simpl in Hrun; [|done]. case_decide; simplify_eq.
    by apply Inv_release with (s := s) (l := l).
Qed.

#[local] Arguments canonicalScopes : simpl never.

Lemma step_Inv a σ σ' : Inv σ → do_step a σ = Some σ' → Inv σ'.
Proof.
  intros Hi Hs. destruct a as [maxA maxB usage|parent maxA maxB|t b|t b|t|t|t c]; simpl in Hs.
  - destruct (_ && _) eqn:Hint; [|done]. simplify_eq. bool_hyps. by apply Inv_install.
  - destruct (_ && _) eqn:Hint; [|done]. bool_hyps. destruct parent as [p|]; simpl in Hs.
    + destruct (budgets σ !! p) as [B|] eqn:HB; simpl in Hs; [|done]. simplify_eq.
      apply Inv_install; try done. intros B' [= <-]. by exists p.
    + simplify_eq. by apply Inv_install.
  - destruct (threads σ !! t) eqn:Ht; [done|]. destruct (budgets σ !! b) as [B|] eqn:HB; simpl in Hs; [|done].
    destruct (wf_budget _ (inv_handles _ Hi) _ _ HB) as (p & -> & _).
    rewrite (handle_canonical _ (inv_handles _ Hi)) in Hs by (by exists b). simplify_eq.
    apply (Inv_spawn _ _ _ Hi Ht); try done. split; [by exists b|simpl; lia].
  - destruct (threads σ !! t) eqn:Ht; [done|]. destruct (budgets σ !! b) as [B|] eqn:HB; simpl in Hs; [|done].
    destruct (wf_budget _ (inv_handles _ Hi) _ _ HB) as (p & -> & _).
    rewrite (handle_canonical _ (inv_handles _ Hi)) in Hs by (by exists b). simplify_eq.
    apply (Inv_spawn _ _ _ Hi Ht); try done. split; [by exists b|simpl; lia].
  - destruct (threads σ !! t) as [g|] eqn:Ht; simpl in Hs; [|done]. by apply (run_Inv _ _ _ _ Hi Ht).
  - destruct (threads σ !! t) as [[]|] eqn:Ht; try done. simplify_eq. pose proof (inv_threads _ Hi _ _ Ht) as Hg.
    by apply (Inv_goto _ _ _ _ Hi Ht).
  - destruct (threads σ !! t) as [[]|] eqn:Ht; try done. simplify_eq. by apply Inv_finish.
Qed.

Lemma init_Inv : Inv init.
Proof.
  constructor; simpl.
  - constructor; simpl; intros *; rewrite ?lookup_empty; try done. split; [by intros []|lia].
  - by intros t g ?%lookup_empty_Some.
  - by intros l s t ?%lookup_empty_Some.
  - by intros l s t ?%lookup_empty_Some.
  - by intros l s ?%lookup_empty_Some.
  - by intros t g ?%lookup_empty_Some.
  - intros b h l s sb Hb. unfold init in Hb. simpl in Hb. by apply lookup_empty_Some in Hb.
Qed.

Lemma reachable_Inv σ : reachable σ → Inv σ.
Proof. induction 1 as [|a σ σ' _ IH Hs]; [apply init_Inv|by eapply step_Inv]. Qed.

Lemma run_labels_reachable ls σ σ' : reachable σ → run_labels ls σ = Some σ' → reachable σ'.
Proof.
  revert σ. induction ls as [|a ls IH]; intros σ Hr H; simpl in H; [by simplify_eq|].
  destruct (do_step a σ) as [σ1|] eqn:Ha; simpl in H; [|done]. apply (IH σ1); [|done]. by eapply reach_step.
Qed.

(** ** Progress *)

(** The label is a step some goroutine of the state can take by itself. *)
Definition enabled (σ : state) : Prop :=
  ∃ t σ', do_step (LRun t) σ = Some σ' ∨ ∃ c, do_step (LFinish t c) σ = Some σ'.

Lemma run_enabled σ t g : threads σ !! t = Some g → is_Some (run t g σ) → enabled σ.
Proof. intros Ht [σ' Hr]. exists t, σ'. left. simpl. by rewrite Ht. Qed.

Section progress.
Variable σ : state.
Hypothesis Hi : Inv σ.

Lemma handle_next h k l k' l' :
  is_handle σ h → h !! k = Some l → l' ∈ take k' h → (k' ≤ k)%nat → (l' < l)%nat.
Proof.
  intros Hh Hk (i & Hl' & Hik)%elem_of_take Hkk.
  apply (sorted_lookup h i k); [by apply (handle_sorted _ (inv_handles _ Hi))|done..|lia].
Qed.

(** A goroutine waiting for nothing but free mutexes can run. *)
Lemma unlock_enabled t h k o : threads σ !! t = Some (Unlocking h k o) → enabled σ.
Proof.
  intros Ht. apply (run_enabled _ _ _ Ht). destruct k as [|k]; [done|]. simpl.
  destruct (inv_threads _ Hi _ _ Ht) as [Hh Hlen].
  destruct (lookup_lt_is_Some_2 h k ltac:(simpl in Hlen; lia)) as [l Hk]. rewrite Hk. simpl.
  destruct (handle_lookup_scope _ (inv_handles _ Hi) _ _ _ Hh Hk) as [s Hs]. rewrite Hs. simpl.
  rewrite decide_False; [done|]. intros Hmu.
  assert (mu s = Some t); [|congruence]. apply (inv_mu _ Hi _ _ _ Hs). eexists. split; [done|].
  simpl. apply (elem_of_take_S _ _ _ _ Hk). by right.
Qed.

Lemma release_enabled t h k o : threads σ !! t = Some (Releasing h k o) → enabled σ.
Proof.
  intros Ht. apply (run_enabled _ _ _ Ht). destruct k as [|k]; [done|]. simpl.
  destruct (inv_threads _ Hi _ _ Ht) as [Hh Hlen].
  destruct (lookup_lt_is_Some_2 h k ltac:(simpl in Hlen; lia)) as [l Hk]. rewrite Hk. simpl.
  destruct (handle_lookup_scope _ (inv_handles _ Hi) _ _ _ Hh Hk) as [s Hs]. rewrite Hs. simpl.
  rewrite decide_False; [done|]. intros Hmu.
  assert (responseGate s = Some t); [|congruence]. apply (inv_gate _ Hi _ _ _ Hs). eexists. split; [done|].
  simpl. apply (elem_of_take_S _ _ _ _ Hk). by right.
Qed.

(** A held mutex leads to a runnable goroutine: the holder runs, or waits for a
    mutex of a younger scope. *)
Lemma mutex_progress n l s t :
  (next (st σ) - l ≤ n)%nat → scopes (st σ) !! l = Some s → mu s = Some t → enabled σ.
Proof.
  revert l s t. induction n as [|n IH]; intros l s t Hn Hl Hmu.
  { assert (l < next (st σ))%nat by (apply (wf_next _ (inv_handles _ Hi)); eauto). lia. }
  destruct (proj1 (inv_mu _ Hi _ _ _ Hl) Hmu) as (g & Ht & Hin).
  destruct g as [h k|h k o|h k|h k r|h r|h k m|h k o|o]; simpl in Hin; try by apply not_elem_of_nil in Hin.
  - destruct (inv_threads _ Hi _ _ Ht) as [Hh _]. destruct (h !! k) as [l'|] eqn:Hk.
    + destruct (handle_lookup_scope _ (inv_handles _ Hi) _ _ _ Hh Hk) as [s' Hs'].
      destruct (mu s') as [t'|] eqn:Hmu'.
      * pose proof (handle_next _ _ _ _ _ Hh Hk Hin ltac:(lia)).
        assert (l' < next (st σ))%nat by (apply (wf_next _ (inv_handles _ Hi)); eauto).
        eapply (IH l'); [lia|done..].
      * apply (run_enabled _ _ _ Ht). simpl. rewrite Hk, Hs'. simpl. by rewrite decide_True.
    + apply (run_enabled _ _ _ Ht). simpl. rewrite Hk. by destruct (exhausted _ h).
  - by eapply unlock_enabled.
Qed.

Lemma mutex_free_or_enabled h k l t g :
  threads σ !! t = Some g → is_handle σ h → h !! k = Some l →
  (∀ s, scopes (st σ) !! l = Some s → mu s = None → is_Some (run t g σ)) → enabled σ.
Proof.
  intros Ht Hh Hk Hrun. destruct (handle_lookup_scope _ (inv_handles _ Hi) _ _ _ Hh Hk) as [s Hs].
  destruct (mu s) as [t'|] eqn:Hmu; [by eapply mutex_progress|]. apply (run_enabled _ _ _ Ht). eauto.
Qed.

Lemma gate_progress n t h k :
  (next (st σ) - default 0 (h !! k) ≤ n)%nat → threads σ !! t = Some (Acquiring h k) → enabled σ.
Proof.
  revert t h k. induction n as [|n IH]; intros t h k Hn Ht; destruct (inv_threads _ Hi _ _ Ht) as [Hh _];
    (destruct (h !! k) as [l|] eqn:Hk; [|apply (run_enabled _ _ _ Ht); simpl; by rewrite Hk]);
    destruct (handle_lookup_scope _ (inv_handles _ Hi) _ _ _ Hh Hk) as [s Hs]; simpl in Hn;
    assert (l < next (st σ))%nat by (apply (wf_next _ (inv_handles _ Hi)); eauto); [lia|].
  destruct (responseGate s) as [t'|] eqn:Hg; cycle 1.
  { apply (run_enabled _ _ _ Ht). simpl. rewrite Hk, Hs. simpl. by rewrite decide_True. }
  destruct (proj1 (inv_gate _ Hi _ _ _ Hs) Hg) as (g & Ht' & Hin).
  destruct g as [h' k'|h' k' o|h' k'|h' k' r|h' r|h' k' m|h' k' o|o]; simpl in Hin; try by apply not_elem_of_nil in Hin.
  - destruct (h' !! k') as [l'|] eqn:Hk'; cycle 1.
    { apply (run_enabled _ _ _ Ht'). simpl. by rewrite Hk'. }
    destruct (inv_threads _ Hi _ _ Ht') as [Hh' _]. pose proof (handle_next _ _ _ _ _ Hh' Hk' Hin ltac:(lia)).
    apply (IH t' h' k'); [|done]. rewrite Hk'. simpl. lia.
  - destruct (inv_threads _ Hi _ _ Ht') as [Hh' _]. destruct (h' !! k') as [l'|] eqn:Hk'.
    + eapply (mutex_free_or_enabled h' k'); [done..|]. intros s' Hs' Hm. simpl. rewrite Hk', Hs'. simpl. by rewrite decide_True.
    + apply (run_enabled _ _ _ Ht'). simpl. by rewrite Hk'.
  - exists t'. eexists. right. exists 0. simpl. by rewrite Ht'.
  - destruct (inv_threads _ Hi _ _ Ht') as [Hh' _]. destruct (h' !! k') as [l'|] eqn:Hk'.
    + eapply (mutex_free_or_enabled h' k'); [done..|]. intros s' Hs' Hm. simpl. rewrite Hk', Hs'. simpl. by rewrite decide_True.
    + apply (run_enabled _ _ _ Ht'). simpl. by rewrite Hk'.
  - by eapply release_enabled.
Qed.

Lemma progress t g : threads σ !! t = Some g → (∀ o, g ≠ Done o) → enabled σ.
Proof.
  intros Ht Hnd. pose proof (inv_threads _ Hi _ _ Ht) as Hg.
  destruct g as [h k|h k o|h k|h k r|h r|h k m|h k o|o]; [destruct Hg as [Hh _]..|by destruct (Hnd o)].
  1,4,6: destruct (h !! k) as [l|] eqn:Hk;
    [eapply (mutex_free_or_enabled h k); [done..|]; intros s' Hs' Hm; simpl; rewrite Hk, Hs'; simpl; by rewrite decide_True
    |apply (run_enabled _ _ _ Ht); simpl; rewrite Hk; by try destruct (exhausted _ h)].
  - by eapply unlock_enabled.
  - by eapply gate_progress.
  - exists t. eexists. right. exists 0. simpl. by rewrite Ht.
  - by eapply release_enabled.
Qed.
End progress.

(** ** Termination *)

(** The number of own steps a goroutine still takes at most. *)
Definition weight (g : goroutine) : nat :=
  match g with
  | Locking h k => 2 * length h - k + 2
  | Unlocking _ k _ => k + 1
  | Acquiring h k => 4 * length h - k + 5
  | Measuring h k _ => 3 * length h - k + 4
  | Holding h _ => 2 * length h + 3
  | Charging h k _ => 2 * length h - k + 2
  | Releasing _ k _ => k + 1
  | Done _ => 0
  end.

(** The goroutine a label moves. *)
Definition mover (a : label) : option tid :=
  match a with
  | LRun t | LCancel t | LFinish t _ => Some t
  | _ => None
  end.

Lemma run_weight σ t g σ' :
  Inv σ → threads σ !! t = Some g → run t g σ = Some σ' →
  ∃ g', threads σ' = <[t := g']> (threads σ) ∧ (weight g' < weight g)%nat.
Proof.
  intros Hi Ht Hr. pose proof (inv_threads _ Hi _ _ Ht) as Hg. unfold wf_thread in Hg.
  destruct g as [h k|h k o|h k|h k r|h r|h k m|h k o|o]; simpl in Hg, Hr; try done.
  2,6: destruct k as [|k]; [simplify_eq; eexists; simpl; split; [done|simpl; lia]|].
  all: destruct (h !! k) as [l|] eqn:Hk; simpl in Hr; try done.
  all: try (apply lookup_lt_Some in Hk).
  all: try (destruct (scopes (st σ) !! l); simpl in Hr; [|done]).
  all: try case_decide; simplify_eq; try (destruct (exhausted _ h); simplify_eq).
  all: try (eexists; simpl; split; [done|]; simpl; lia).
Qed.

Lemma install_threads σ r : threads (install σ r) = threads σ.
Proof. by destruct r as [[]|]. Qed.

Lemma step_weight σ a σ' t g :
  Inv σ → threads σ !! t = Some g → do_step a σ = Some σ' →
  ∃ g', threads σ' !! t = Some g' ∧
    ((if decide (mover a = Some t) then 1 else 0) + weight g' ≤ weight g)%nat.
Proof.
  intros Hi Ht Hs. assert (∀ ths', threads σ' = ths' → ths' !! t = Some g → mover a ≠ Some t →
    ∃ g', threads σ' !! t = Some g' ∧ ((if decide (mover a = Some t) then 1 else 0) + weight g' ≤ weight g)%nat) as Hkeep.
  { intros ths' -> Hg Hm. exists g. split; [done|]. by rewrite decide_False. }
  destruct a as [maxA maxB usage|parent maxA maxB|t' b|t' b|t'|t'|t' c]; simpl in Hs.
  - destruct (_ && _); [|done]. simplify_eq. eapply Hkeep; [done| |done]. by rewrite install_threads.
  - destruct (_ && _); [|done]. destruct parent as [p|]; simpl in Hs; [destruct (budgets σ !! p); simpl in Hs; [|done]|];
      simplify_eq; (eapply Hkeep; [done| |done]); by rewrite install_threads.
  - destruct (threads σ !! t') eqn:Ht'; [done|]. destruct (budgets σ !! b); simpl in Hs; [|done].
    destruct (canonicalScopes _); simplify_eq; (eapply Hkeep; [done| |done]); simpl; rewrite lookup_insert_ne; congruence.
  - destruct (threads σ !! t') eqn:Ht'; [done|]. destruct (budgets σ !! b); simpl in Hs; [|done].
    destruct (canonicalScopes _); simplify_eq; (eapply Hkeep; [done| |done]); simpl; rewrite lookup_insert_ne; congruence.
  - destruct (threads σ !! t') as [g0|] eqn:Ht'; simpl in Hs; [|done].
    destruct (run_weight _ _ _ _ Hi Ht' Hs) as (g' & Hths & Hw). destruct (decide (t' = t)) as [->|Hne].
    + simplify_eq. exists g'. rewrite Hths, lookup_insert_eq. split; [done|]. rewrite decide_True by done. lia.
    + eapply Hkeep; [exact Hths|by rewrite lookup_insert_ne|simpl; congruence].
  - destruct (threads σ !! t') as [[]|] eqn:Ht'; try done. simplify_eq. destruct (decide (t' = t)) as [->|Hne].
    + simplify_eq. eexists. simpl. rewrite lookup_insert_eq, decide_True by done. split; [done|].
      pose proof (inv_threads _ Hi _ _ Ht) as [_ ?]. simpl. lia.
    + eapply Hkeep; [done|simpl; by rewrite lookup_insert_ne|simpl; congruence].
  - destruct (threads σ !! t') as [[]|] eqn:Ht'; try done. simplify_eq. destruct (decide (t' = t)) as [->|Hne].
    + simplify_eq. eexists. simpl. rewrite lookup_insert_eq, decide_True by done. split; [done|]. simpl. lia.
    + eapply Hkeep; [done|simpl; by rewrite lookup_insert_ne|simpl; congruence].
Qed.

Lemma trace_weight ls σ σ' t g :
  Inv σ → threads σ !! t = Some g → run_labels ls σ = Some σ' →
  (length (filter (λ a, mover a = Some t) ls) ≤ weight g)%nat.
Proof.
  revert σ g. induction ls as [|a ls IH]; intros σ g Hi Ht H; simpl in H; [simpl; lia|].
  destruct (do_step a σ) as [σ1|] eqn:Ha; simpl in H; [|done].
  destruct (step_weight _ _ _ _ _ Hi Ht Ha) as (g' & Ht' & Hw).
  specialize (IH _ _ (step_Inv _ _ _ Hi Ha) Ht' H). rewrite filter_cons. case_decide; simpl in *; lia.
Qed.

(** ** Properties *)

Definition demo_state : state := default init (run_labels demo init).

Lemma demo_reachable : reachable demo_state.
Proof.
  apply (run_labels_reachable demo init); [apply reach_init|]. unfold demo_state.
  destruct (run_labels demo init) eqn:H; [done|]. by vm_compute in H.
Qed.

(** C30: in every interleaving of any number of goroutines, no scope ever exceeds
    its maxima: the accepted attempts and buffered response bytes of every scope
    stay between zero and the configured limit, and inside int64. *)
Theorem budget_never_exceeded (σ : state) (l : loc) (s : readBudgetScope) :
  reachable σ → scopes (st σ) !! l = Some s →
  0 ≤ attempts s ≤ maxAttempts s ∧ maxAttempts s ≤ MaxInt64 ∧
  0 ≤ responseBytes s ≤ maxResponseBytes s ∧ maxResponseBytes s ≤ MaxInt64.
Proof. intros Hr Hl. by apply (inv_bounds _ (reachable_Inv _ Hr) l). Qed.

Lemma budget_never_exceeded_witness : 0 ≤ 60 ≤ 100.
Proof.
  refine (proj1 (proj2 (proj2 (budget_never_exceeded demo_state 0%nat
    {| maxAttempts := 2; attempts := 1; maxResponseBytes := 100; responseBytes := 60; mu := None;
       responseGate := Some 1%nat |} demo_reachable _)))).
  vm_compute. reflexivity.
Defined.

(** The hierarchy is charged as a whole: whatever the interleaving, the
    attempts and bytes accepted by a budget were also accepted by each of its
    ancestors, so a child never hides consumption from its parent. *)
Theorem child_charged_to_ancestors (σ : state) (b l : loc) (h : list loc) (s sb : readBudgetScope) :
  reachable σ → budgets σ !! b = Some (Some <$> h) → l ∈ h →
  scopes (st σ) !! l = Some s → scopes (st σ) !! b = Some sb →
  attempts sb ≤ attempts s ∧ responseBytes sb ≤ responseBytes s.
Proof. intros Hr. apply (inv_charged _ (reachable_Inv _ Hr)). Qed.

Lemma child_charged_to_ancestors_witness : 1 ≤ 1 ∧ 0 ≤ 60.
Proof.
  apply (child_charged_to_ancestors demo_state 1%nat 0%nat [0; 1]%nat
    {| maxAttempts := 2; attempts := 1; maxResponseBytes := 100; responseBytes := 60; mu := None;
       responseGate := Some 1%nat |}
    {| maxAttempts := 1; attempts := 1; maxResponseBytes := 60; responseBytes := 0; mu := None;
       responseGate := Some 1%nat |} demo_reachable); [vm_compute; reflexivity|left|vm_compute; reflexivity..].
Defined.

(** The byte allowance [BeginResponse] returns stays exact until [finish] is
    called: it is the smallest remaining allowance over the scopes of the handle,
    whatever other goroutines did in between, and no scope of the handle is
    being measured, held or charged by another goroutine. *)
Theorem response_allowance_exact (σ : state) (t t' : tid) (h : list loc) (r : Z) (g : goroutine) (l : loc) :
  reachable σ → threads σ !! t = Some (Holding h r) → threads σ !! t' = Some g → t' ≠ t → l ∈ h →
  r = min_avail (scopes (st σ)) h ∧ 0 ≤ r ∧ l ∉ gates g.
Proof.
  intros Hr Ht Ht' Hne Hl. pose proof (reachable_Inv _ Hr) as Hi. split_and!.
  - apply (inv_num _ Hi _ _ Ht).
  - by eapply holding_room.
  - intros Hin. destruct (inv_threads _ Hi _ _ Ht) as [Hh _].
    destruct (handle_scope _ (inv_handles _ Hi) _ _ Hh Hl) as [s Hs]. apply Hne.
    by eapply (owns_unique responseGate gates); [apply (inv_gate _ Hi)|..].
Qed.

Definition demo_holding : state := default init (run_labels (take 17 demo) init).

Lemma demo_holding_reachable : reachable demo_holding.
Proof.
  apply (run_labels_reachable (take 17 demo) init); [apply reach_init|]. unfold demo_holding.
  destruct (run_labels (take 17 demo) init) eqn:H; [done|]. by vm_compute in H.
Qed.

Lemma response_allowance_exact_witness :
  60 = min_avail (scopes (st demo_holding)) [0; 1]%nat ∧ 0 ≤ 60 ∧ 0%nat ∉ gates (Acquiring [0%nat] 0).
Proof.
  apply (response_allowance_exact demo_holding 1%nat 2%nat [0; 1]%nat 60 (Acquiring [0%nat] 0) 0%nat demo_holding_reachable);
    [vm_compute; reflexivity|vm_compute; reflexivity|done|left].
Defined.

(** C40: the locking protocol is free of deadlock: while some goroutine has not
    ended, some goroutine can take a step (a caller that holds a response can
    always finish it). *)
Theorem budget_deadlock_free (σ : state) (t : tid) (g : goroutine) :
  reachable σ → threads σ !! t = Some g → (∀ o, g ≠ Done o) →
  ∃ t' σ', do_step (LRun t') σ = Some σ' ∨ ∃ c, do_step (LFinish t' c) σ = Some σ'.
Proof. intros Hr Ht Hg. by eapply (progress _ (reachable_Inv _ Hr)). Qed.

Lemma budget_deadlock_free_witness :
  ∃ t' σ', do_step (LRun t') demo_holding = Some σ' ∨ ∃ c, do_step (LFinish t' c) demo_holding = Some σ'.
Proof.
  apply (budget_deadlock_free demo_holding 2%nat (Acquiring [0%nat] 0) demo_holding_reachable); [vm_compute; reflexivity|].
  intros o. discriminate.
Defined.

(** Every goroutine ends: in any execution from a reachable state it takes at
    most [weight g] own steps, at most four per scope of its handle and five
    more. *)
Theorem budget_operation_terminates (σ σ' : state) (ls : list label) (t : tid) (g : goroutine) :
  reachable σ → threads σ !! t = Some g → run_labels ls σ = Some σ' →
  (length (filter (λ a, mover a = Some t) ls) ≤ weight g)%nat ∧
  (∀ h k, position g = Some (h, k) → (k ≤ length h ∧ weight g ≤ 4 * length h + 5)%nat).
Proof.
  intros Hr Ht Hrun. pose proof (reachable_Inv _ Hr) as Hi. split; [by eapply trace_weight|].
  intros h k Hp. pose proof (inv_threads _ Hi _ _ Ht) as Hg. unfold wf_thread in Hg. rewrite Hp in Hg.
  destruct Hg as [_ Hk]. split; [done|]. destruct g; simpl in Hp; simplify_eq; simpl; lia.
Qed.

Lemma budget_operation_terminates_witness :
  (length (filter (λ a, mover a = Some 1%nat) [LFinish 1 70; LRun 1]) ≤ 7)%nat ∧
  (∀ h k, position (Holding [0; 1]%nat 60) = Some (h, k) →
    (k ≤ length h ∧ weight (Holding [0; 1]%nat 60) ≤ 4 * length h + 5)%nat).
Proof.
  apply (budget_operation_terminates demo_holding
    (default init (run_labels [LFinish 1 70; LRun 1] demo_holding)) _ 1%nat (Holding [0; 1]%nat 60) demo_holding_reachable);
    vm_compute; reflexivity.
Defined.
End ReadBudget.
