(* ===== verification/JournalRecord.v ===== *)
(** * Broker journal records and their durable frames
    (internal/adapter/brokerjournal/codec.go and commitment.go, with the binding
    of internal/brokercontract/journal_identity_binding.go and the types of
    internal/domain/broker_journal.go)

    SHA-256 and encoding/json are parameters: [sha256] and one [JsonCodec] per
    stored type.  [JsonLaws] states what the journal relies on of them. *)

From stdpp Require Import vector.
From S2P Require Import Prelude GoText Identifiers Encoding.
Import GoText Identifiers Encoding.

Module JournalRecord.
Open Scope Z_scope.

(** ** Constants *)

Definition slotBytes : nat := N.to_nat 8192.
Definition slotCount : nat := 8.
Definition recordBytes : nat := slotBytes * slotCount.
Definition indexSlotBytes : nat := 256.
Definition stateBytes : nat := indexSlotBytes * slotCount.
Definition MaxArtifactBytes : Z := 16 * 2 ^ 20.
Definition MaxRecords : Z := 1024.
Definition MaxReservedBytes : Z := 256 * 2 ^ 20.
Definition BrokerMaxOperationMillis : Z := 60000.
Definition BrokerClockAllowanceMillis : Z := 1000.
Definition BrokerMaxIdentifierBytes : nat := 128.

#[global] Arguments slotBytes : simpl never.

Lemma slotBytes_value : slotBytes = N.to_nat 8192.
Proof. reflexivity. Qed.

(** ** Data *)

Record Owner := {
  BrokerSHA256 : text; BackendSHA256 : text; PrincipalSHA256 : text;
  WorkloadSHA256 : text; AudienceSHA256 : text
}.

Record Reservation := {
  ROwner : Owner;
  ExecutionSHA256 : text;
  AuthorityRevisionSHA256 : text;
  ExecutionNotBeforeMillis : Z;
  ExecutionExpiresMillis : Z;
  GrantExpiresMillis : Z;
  CredentialExpiresMillis : Z;
  OperationDeadlineMillis : Z;
  ObservationUntilMillis : Z;
  ArtifactCapacity : Z
}.

Record Ticket := {
  TSchemaVersion : Z;
  TOperationID : text;
  TPrincipalSHA256 : text;
  TExecutionSHA256 : text;
  TAudienceSHA256 : text;
  TBackendSHA256 : text;
  TOperation : text;
  TOperationVersion : Z;
  TArgumentsSHA256 : text;
  TProposalSHA256 : text;
  TIssuedAtMillis : Z;
  TAcceptUntilMillis : Z
}.

Record Intent := {
  ITicket : Ticket; NativeSHA256 : text; TargetSHA256 : text; EffectSHA256 : text; EvidenceSHA256 : text
}.

Record JournalRecord := {
  OperationID : text;
  Reserved : Reservation;
  IssuedAtMillis : Z;
  AcceptUntilMillis : Z;
  Intent_ : Intent;
  BindingSHA256 : text;
  Sequence : Z;
  Phase : text;
  DispatchClaimed : bool;
  ArtifactSHA256 : text;
  ArtifactBytes : Z;
  ResultSHA256 : text;
  RecordedAtMillis : Z
}.

Record Identity := { IdBrokerSHA256 : text; IdBackendSHA256 : text }.
Record Limits := { Records : Z; ReservedBytes : Z }.
Record header := { HVersion : Z; HIdentity : Identity; HLimits : Limits; CreatedAtMillis : Z }.
Record snapshot := { SVersion : Z; SRecord : JournalRecord }.
Record reservationEntry := { EVersion : Z; ESequence : Z; EOperationID : text; EArtifactCapacity : Z }.
Record stateCommitment := { CVersion : Z; CSequence : Z; RecordSHA256 : text; CDispatchClaimed : bool }.

#[export] Instance Owner_eq : EqDecision Owner.
Proof. solve_decision. Defined.
#[export] Instance Reservation_eq : EqDecision Reservation.
Proof. solve_decision. Defined.
#[export] Instance Ticket_eq : EqDecision Ticket.
Proof. solve_decision. Defined.
#[export] Instance Intent_eq : EqDecision Intent.
Proof. solve_decision. Defined.
#[export] Instance JournalRecord_eq : EqDecision JournalRecord.
Proof. solve_decision. Defined.
#[export] Instance Identity_eq : EqDecision Identity.
Proof. solve_decision. Defined.
#[export] Instance Limits_eq : EqDecision Limits.
Proof. solve_decision. Defined.
#[export] Instance reservationEntry_eq : EqDecision reservationEntry.
Proof. solve_decision. Defined.
#[export] Instance stateCommitment_eq : EqDecision stateCommitment.
Proof. solve_decision. Defined.

(** The zero value of [BrokerJournalIntent]. *)
Definition zero_ticket : Ticket :=
  {| TSchemaVersion := 0; TOperationID := []; TPrincipalSHA256 := []; TExecutionSHA256 := []; TAudienceSHA256 := [];
     TBackendSHA256 := []; TOperation := []; TOperationVersion := 0; TArgumentsSHA256 := []; TProposalSHA256 := [];
     TIssuedAtMillis := 0; TAcceptUntilMillis := 0 |}.
Definition zero_intent : Intent :=
  {| ITicket := zero_ticket; NativeSHA256 := []; TargetSHA256 := []; EffectSHA256 := []; EvidenceSHA256 := [] |}.

(** Phases; the empty string is an issued reservation. *)
Definition PhaseNone : text := [].
Definition BrokerOperationAdmitted : text := txt "admitted".
Definition BrokerOperationDispatching : text := txt "dispatching".
Definition BrokerOperationApplied : text := txt "applied".
Definition BrokerOperationNotApplied : text := txt "not_applied".
Definition BrokerOperationOutcomeUnknown : text := txt "outcome_unknown".

Definition BrokerOperationJiraCommentApply : text := txt "jira.comment.apply".

Inductive jerr := errUnavailable | errConflict | errDenied | errInvalid | errExpired | errCapacity.
#[export] Instance jerr_eq : EqDecision jerr.
Proof. solve_decision. Defined.

(** ** Digests *)

Definition validDigest (value : text) : bool := (length value =? 64)%nat && forallb is_lower_hex value.

(** ** JSON *)

Class JsonCodec (A : Type) := {
  marshal : A → option text;         (* json.Marshal *)
  decodeExact : text → option A      (* strictjson.DecodeExact(payload, 8, out) *)
}.

(** Decoding gives back what was marshalled, and a marshalled struct is not
    empty.  [encodable] holds of values whose strings are printable ASCII, the
    only ones the journal stores; json.Marshal alters invalid UTF-8. *)
Class JsonLaws (A : Type) `{JsonCodec A} (encodable : A → Prop) : Prop := {
  marshal_decode v data : encodable v → marshal v = Some data → decodeExact data = Some v;
  marshal_nonempty v data : marshal v = Some data → data ≠ []
}.

(** ** Frames *)

Definition NUL : ascii := "000"%char.
Definition zero (data : text) : bool := forallb (λ b, bool_decide (b = NUL)) data.

(** [binary.BigEndian.PutUint32] and [Uint32]. *)
Definition be32 (n : N) : text := [byte_of (n / 2 ^ 24); byte_of (n / 2 ^ 16); byte_of (n / 2 ^ 8); byte_of n]%N.
Definition be32_value (data : text) : N := foldl (λ acc c, acc * 256 + N_of_ascii c)%N 0%N data.

Definition slot_prefix : text := txt "atl.broker.journal.v1/slot" ++ [NUL].

Section codec.
Variable sha256 : text → vec ascii 32.

Definition digest (data : text) : text := hex_encode (vec_to_list (sha256 data)).

Definition frame_size (size : nat) : bool := (size =? slotBytes)%nat || (size =? indexSlotBytes)%nat.

Definition encodeFrame {A} `{JsonCodec A} (value : A) (size : nat) : option text :=
  match marshal value with
  | None => None
  | Some data =>
      if negb (frame_size size) || (size - 36 <? length data)%nat then None
      else Some (be32 (N.of_nat (length data)) ++ vec_to_list (sha256 (slot_prefix ++ data)) ++ data ++
                 replicate (size - 36 - length data) NUL)
  end.

Definition encodeSlot {A} `{JsonCodec A} (value : A) : option text := encodeFrame value slotBytes.

Definition decodeFrame {A} `{JsonCodec A} (data : text) (size : nat) : option A :=
  if negb (frame_size size) || negb (length data =? size)%nat then None
  else
    let n := N.to_nat (be32_value (take 4 data)) in
    if (n <? 1)%nat || (size - 36 <? n)%nat || negb (zero (drop (36 + n) data)) then None
    else
      let payload := slice data 36 (36 + n) in
      if negb (eqt (slice data 4 36) (vec_to_list (sha256 (slot_prefix ++ payload)))) then None
      else
        out ← decodeExact payload;
        canonical ← marshal out;
        if eqt canonical payload then Some out else None.

Definition decodeSlot {A} `{JsonCodec A} (data : text) : option A := decodeFrame data slotBytes.

(** ** Ownership, deadlines and bindings *)

Definition validOwner (owner : Owner) : bool :=
  validDigest (BrokerSHA256 owner) && validDigest (BackendSHA256 owner) && validDigest (PrincipalSHA256 owner) &&
  validDigest (WorkloadSHA256 owner) && validDigest (AudienceSHA256 owner).

Definition validReservation (r : Reservation) (issued accept : Z) : bool :=
  validOwner (ROwner r) && validDigest (ExecutionSHA256 r) && validDigest (AuthorityRevisionSHA256 r) &&
  (0 <? ExecutionNotBeforeMillis r) && (ExecutionNotBeforeMillis r <=? issued) && (0 <? issued) &&
  (issued <? accept) && (accept - issued <=? BrokerMaxOperationMillis) &&
  (accept <=? ExecutionExpiresMillis r) && (accept <=? GrantExpiresMillis r) && (accept <=? CredentialExpiresMillis r) &&
  (accept <=? OperationDeadlineMillis r) && (OperationDeadlineMillis r <=? ExecutionExpiresMillis r) &&
  (OperationDeadlineMillis r <=? GrantExpiresMillis r) && (OperationDeadlineMillis r <=? CredentialExpiresMillis r) &&
  (OperationDeadlineMillis r - issued <=? BrokerMaxOperationMillis) &&
  (OperationDeadlineMillis r <=? ObservationUntilMillis r) && (0 <? ArtifactCapacity r) &&
  (ArtifactCapacity r <=? MaxArtifactBytes).

Definition initialBytes (limits : Limits) : Z := Z.of_nat slotBytes + Records limits * Z.of_nat indexSlotBytes.

Definition normalizeLimits (limits : Limits) : result jerr Limits :=
  let records := if Records limits =? 0 then MaxRecords else Records limits in
  let reserved := if ReservedBytes limits =? 0 then MaxReservedBytes else ReservedBytes limits in
  let l := {| Records := records; ReservedBytes := reserved |} in
  if (records <? 1) || (MaxRecords <? records) ||
     (reserved <? initialBytes l + Z.of_nat recordBytes + Z.of_nat stateBytes + 1) || (MaxReservedBytes <? reserved)
  then Err errInvalid else Ok l.

Definition validFilename (name : text) : bool :=
  eqt name (txt "identity") || eqt name (txt "reservations") ||
  (negb (length name <? 64)%nat && validDigest (take 64 name) &&
   (eqt (drop 64 name) (txt ".rec") || eqt (drop 64 name) (txt ".art") || eqt (drop 64 name) (txt ".state"))).

(** *** Tickets (internal/brokercontract) *)

Definition validIdentifier (value : text) : bool :=
  negb (eqt value []) && (length value <=? BrokerMaxIdentifierBytes)%nat && valid_utf8 value &&
  forallb (λ c, in_rng 33 126 (byte_val c)) value.

(** Id, version and [Limits.MaxOperationMillis] of every registered operation. *)
Definition Registry : list (text * Z * Z) :=
  [(txt "jira.issue.read", 1, 60000); (txt "confluence.page.read", 1, 60000); (txt "jira.comment.preview", 1, 60000);
   (BrokerOperationJiraCommentApply, 1, 60000); (txt "broker.operation.outcome", 1, 60000)].

(** [Definition(id, version)], reduced to its operation limit. *)
Definition operation_limit (id : text) (version : Z) : option Z :=
  match filter (λ d, d.1.1 = id ∧ d.1.2 = version) Registry with
  | d :: _ => Some d.2
  | [] => None
  end.

Definition validateTicket (value : Ticket) : bool :=
  match operation_limit (TOperation value) (TOperationVersion value) with
  | None => false
  | Some limit =>
      negb (negb (TSchemaVersion value =? 1) || negb (validIdentifier (TOperationID value)) ||
        negb (validDigest (TPrincipalSHA256 value)) || negb (validDigest (TExecutionSHA256 value)) ||
        negb (validDigest (TAudienceSHA256 value)) || negb (validDigest (TBackendSHA256 value)) ||
        negb (validDigest (TArgumentsSHA256 value)) ||
        (TIssuedAtMillis value <=? 0) || (TAcceptUntilMillis value <=? TIssuedAtMillis value) ||
        (BrokerMaxOperationMillis <? TAcceptUntilMillis value - TIssuedAtMillis value) ||
        (negb (eqt (TProposalSHA256 value) []) && negb (validDigest (TProposalSHA256 value))) ||
        (eqt (TOperation value) BrokerOperationJiraCommentApply && eqt (TProposalSHA256 value) []) ||
        (negb (eqt (TOperation value) BrokerOperationJiraCommentApply) && negb (eqt (TProposalSHA256 value) [])) ||
        (limit <? TAcceptUntilMillis value - TIssuedAtMillis value))
  end.

(** The canonical JSON digest of a ticket and the marshalled binding struct. *)
Variable digestTicket : Ticket → option text.
Variable marshalBinding : Reservation → text → Intent → option text.

Definition OperationTicketSHA256 (value : Ticket) : option text :=
  if validateTicket value then digestTicket value else None.

Definition BrokerJournalIntentBindingSHA256V1 (record : JournalRecord) (intent : Intent) : option text :=
  let ticket := ITicket intent in
  let owner := ROwner (Reserved record) in
  if negb (eqt (TOperation ticket) BrokerOperationJiraCommentApply) || negb (eqt (TOperationID ticket) (OperationID record)) ||
     negb (eqt (TPrincipalSHA256 ticket) (PrincipalSHA256 owner)) ||
     negb (eqt (TExecutionSHA256 ticket) (ExecutionSHA256 (Reserved record))) ||
     negb (eqt (TAudienceSHA256 ticket) (AudienceSHA256 owner)) || negb (eqt (TBackendSHA256 ticket) (BackendSHA256 owner)) ||
     negb (TIssuedAtMillis ticket =? IssuedAtMillis record) || negb (TAcceptUntilMillis ticket =? AcceptUntilMillis record) ||
     negb (validDigest (NativeSHA256 intent)) || negb (validDigest (TargetSHA256 intent)) ||
     negb (validDigest (EffectSHA256 intent)) || negb (validDigest (EvidenceSHA256 intent))
  then None
  else
    ticketDigest ← OperationTicketSHA256 ticket;
    data ← marshalBinding (Reserved record) ticketDigest intent;
    Some (digest (txt "atl.broker.journal.v1/binding" ++ [NUL] ++ data)).

Definition intentBinding (record : JournalRecord) (intent : Intent) : result jerr text :=
  match BrokerJournalIntentBindingSHA256V1 record intent with
  | Some binding => Ok binding
  | None => Err errInvalid
  end.

(** ** Records *)

(** [validateRecord(r) == nil]. *)
Definition validateRecord (r : JournalRecord) : bool :=
  if negb (validDigest (OperationID r)) || negb (validReservation (Reserved r) (IssuedAtMillis r) (AcceptUntilMillis r)) ||
     (Sequence r <? 1) || (Z.of_nat slotCount <? Sequence r) || (RecordedAtMillis r <? IssuedAtMillis r)
  then false
  else if (if eqt (BindingSHA256 r) []
           then negb (bool_decide (Intent_ r = zero_intent)) || negb (Sequence r =? 1) || negb (eqt (Phase r) PhaseNone)
           else match intentBinding r (Intent_ r) with
                | Ok binding => negb (eqt binding (BindingSHA256 r)) || (Sequence r <? 2)
                | Err _ => true
                end)
  then false
  else if eqt (Phase r) PhaseNone
  then negb (DispatchClaimed r || negb (eqt (ArtifactSHA256 r) []) || negb (ArtifactBytes r =? 0) ||
             negb (eqt (ResultSHA256 r) []) || (2 <? Sequence r))
  else if negb (validDigest (ArtifactSHA256 r)) || (ArtifactBytes r <? 1) || (ArtifactCapacity (Reserved r) <? ArtifactBytes r) ||
          eqt (BindingSHA256 r) []
  then false
  else if eqt (Phase r) BrokerOperationAdmitted
  then negb (DispatchClaimed r || negb (eqt (ResultSHA256 r) []))
  else if eqt (Phase r) BrokerOperationDispatching || eqt (Phase r) BrokerOperationOutcomeUnknown
  then negb (negb (DispatchClaimed r) || negb (eqt (ResultSHA256 r) []))
  else if eqt (Phase r) BrokerOperationApplied
  then negb (negb (DispatchClaimed r) || negb (validDigest (ResultSHA256 r)))
  else if eqt (Phase r) BrokerOperationNotApplied
  then negb ((DispatchClaimed r && negb (validDigest (ResultSHA256 r))) ||
             (negb (eqt (ResultSHA256 r) []) && negb (validDigest (ResultSHA256 r))))
  else false.

(** [immutable]: [after] with the fields a transition may change reset. *)
Definition reset_mutable (before after : JournalRecord) : JournalRecord :=
  {| OperationID := OperationID after; Reserved := Reserved after; IssuedAtMillis := IssuedAtMillis after;
     AcceptUntilMillis := AcceptUntilMillis after; Intent_ := Intent_ after; BindingSHA256 := BindingSHA256 after;
     Sequence := Sequence before; Phase := Phase before; DispatchClaimed := DispatchClaimed before;
     ArtifactSHA256 := ArtifactSHA256 after; ArtifactBytes := ArtifactBytes after;
     ResultSHA256 := ResultSHA256 before; RecordedAtMillis := RecordedAtMillis before |}.
Definition with_binding (intent : Intent) (binding : text) (r : JournalRecord) : JournalRecord :=
  {| OperationID := OperationID r; Reserved := Reserved r; IssuedAtMillis := IssuedAtMillis r;
     AcceptUntilMillis := AcceptUntilMillis r; Intent_ := intent; BindingSHA256 := binding;
     Sequence := Sequence r; Phase := Phase r; DispatchClaimed := DispatchClaimed r;
     ArtifactSHA256 := ArtifactSHA256 r; ArtifactBytes := ArtifactBytes r;
     ResultSHA256 := ResultSHA256 r; RecordedAtMillis := RecordedAtMillis r |}.
Definition with_artifact (sha : text) (bytes : Z) (r : JournalRecord) : JournalRecord :=
  {| OperationID := OperationID r; Reserved := Reserved r; IssuedAtMillis := IssuedAtMillis r;
     AcceptUntilMillis := AcceptUntilMillis r; Intent_ := Intent_ r; BindingSHA256 := BindingSHA256 r;
     Sequence := Sequence r; Phase := Phase r; DispatchClaimed := DispatchClaimed r;
     ArtifactSHA256 := sha; ArtifactBytes := bytes;
     ResultSHA256 := ResultSHA256 r; RecordedAtMillis := RecordedAtMillis r |}.
(** The fields every transition writes: phase, claim, result, sequence, time. *)
Definition advance (phase : text) (claimed : bool) (resultSHA : text) (recorded : Z) (r : JournalRecord) : JournalRecord :=
  {| OperationID := OperationID r; Reserved := Reserved r; IssuedAtMillis := IssuedAtMillis r;
     AcceptUntilMillis := AcceptUntilMillis r; Intent_ := Intent_ r; BindingSHA256 := BindingSHA256 r;
     Sequence := Sequence r + 1; Phase := phase; DispatchClaimed := claimed;
     ArtifactSHA256 := ArtifactSHA256 r; ArtifactBytes := ArtifactBytes r;
     ResultSHA256 := resultSHA; RecordedAtMillis := recorded |}.

Definition validSuccessor (before after : JournalRecord) : bool :=
  if negb (Sequence after =? Sequence before + 1) || (RecordedAtMillis after <? RecordedAtMillis before) ||
     negb (Bool.eqb (DispatchClaimed after) (DispatchClaimed before || eqt (Phase after) BrokerOperationDispatching))
  then false
  else
    let immutable := reset_mutable before after in
    if eqt (BindingSHA256 before) [] then
      let immutable := with_binding (Intent_ before) (BindingSHA256 before) immutable in
      bool_decide (immutable = before) && negb (eqt (BindingSHA256 after) []) && eqt (Phase after) PhaseNone
    else if eqt (Phase before) PhaseNone then
      let immutable := with_artifact (ArtifactSHA256 before) (ArtifactBytes before) immutable in
      bool_decide (immutable = before) && eqt (Phase after) BrokerOperationAdmitted
    else if negb (bool_decide (immutable = before)) then false
    else if eqt (Phase before) BrokerOperationAdmitted
    then eqt (Phase after) BrokerOperationDispatching || eqt (Phase after) BrokerOperationNotApplied
    else if eqt (Phase before) BrokerOperationDispatching
    then eqt (Phase after) BrokerOperationApplied || eqt (Phase after) BrokerOperationNotApplied ||
         eqt (Phase after) BrokerOperationOutcomeUnknown
    else if eqt (Phase before) BrokerOperationOutcomeUnknown
    then eqt (Phase after) BrokerOperationApplied || eqt (Phase after) BrokerOperationNotApplied
    else false.

Definition commitmentFor (r : JournalRecord) (slot : text) : stateCommitment :=
  {| CVersion := 1; CSequence := Sequence r; RecordSHA256 := digest slot; CDispatchClaimed := DispatchClaimed r |}.

(** ** Frames: exactness *)

Lemma be32_byte n : N_of_ascii (byte_of n) = (n mod 256)%N.
Proof. apply byte_of_val. Qed.

Lemma base256 (a b : N) : (b < 256)%N → ((a * 256 + b) / 256 = a)%N ∧ ((a * 256 + b) mod 256 = b)%N.
Proof.
  intros Hb. split.
  - rewrite N.div_add_l by lia. rewrite N.div_small by done. lia.
  - rewrite N.add_comm, N.Div0.mod_add. by apply N.mod_small.
Qed.

Lemma be32_shifts (n : N) : (n / 2 ^ 24 = n / 256 / 256 / 256 ∧ n / 2 ^ 16 = n / 256 / 256 ∧ n / 2 ^ 8 = n / 256)%N.
Proof. rewrite !N.Div0.div_div. done. Qed.

Lemma be32_roundtrip n : (n < 2 ^ 32)%N → be32_value (be32 n) = n.
Proof.
  intros Hn. unfold be32, be32_value. cbn [foldl]. rewrite !be32_byte.
  change (2 ^ 32)%N with 4294967296%N in Hn. destruct (be32_shifts n) as (-> & -> & ->).
  pose proof (N.div_mod n 256 ltac:(lia)). pose proof (N.div_mod (n / 256) 256 ltac:(lia)).
  pose proof (N.div_mod (n / 256 / 256) 256 ltac:(lia)).
  assert (n / 256 / 256 / 256 < 256)%N by (repeat apply N.Div0.div_lt_upper_bound; lia).
  rewrite (N.mod_small (n / 256 / 256 / 256)) by done. lia.
Qed.

Lemma be32_of_value (a : text) : length a = 4%nat → be32 (be32_value a) = a.
Proof.
  destruct a as [|a0 [|a1 [|a2 [|a3 [|]]]]]; try done. intros _. unfold be32. destruct (be32_shifts (be32_value [a0; a1; a2; a3])) as (-> & -> & ->).
  unfold be32_value. cbn [foldl]. rewrite N.mul_0_l, N.add_0_l.
  pose proof (N_ascii_bounded a0). pose proof (N_ascii_bounded a1). pose proof (N_ascii_bounded a2). pose proof (N_ascii_bounded a3).
  unfold byte_of. rewrite (proj2 (base256 _ (N_of_ascii a3) ltac:(done))), (proj1 (base256 _ (N_of_ascii a3) ltac:(done))).
  rewrite (proj2 (base256 _ (N_of_ascii a2) ltac:(done))), (proj1 (base256 _ (N_of_ascii a2) ltac:(done))).
  rewrite (proj2 (base256 _ (N_of_ascii a1) ltac:(done))), (proj1 (base256 _ (N_of_ascii a1) ltac:(done))).
  rewrite N.mod_small by done. by rewrite !ascii_N_embedding.
Qed.

Lemma slotBytes_Z : Z.of_nat slotBytes = 8192.
Proof. unfold slotBytes. lia. Qed.

Lemma frame_size_bounds size : frame_size size = true → 36 < Z.of_nat size ≤ 8192.
Proof.
  unfold frame_size. pose proof slotBytes_Z. intros [H1%Nat.eqb_eq|H1%Nat.eqb_eq]%orb_true_iff; [lia|].
  unfold indexSlotBytes in *. lia.
Qed.

Lemma zero_replicate n : zero (replicate n NUL) = true.
Proof. induction n; simpl; [done|]. by rewrite IHn. Qed.

Lemma zero_spec data : zero data = true ↔ data = replicate (length data) NUL.
Proof.
  induction data as [|c data IH]; simpl; [done|]. rewrite andb_true_iff, bool_decide_eq_true, IH.
  split; [intros [-> Heq]; by rewrite <- Heq|]. intros [= -> ->]. by rewrite length_replicate.
Qed.

(** Splitting a frame into its length, checksum, payload and padding. *)
Lemma frame_split (data : text) n : (36 + n ≤ length data)%nat →
  data = take 4 data ++ slice data 4 36 ++ slice data 36 (36 + n) ++ drop (36 + n) data.
Proof.
  intros Hn. unfold slice. change (36 - 4)%nat with 32%nat. replace (36 + n - 36)%nat with n by lia.
  rewrite <- (take_drop 4 data) at 1. f_equal. rewrite <- (take_drop 32 (drop 4 data)) at 1. f_equal.
  rewrite drop_drop. change (4 + 32)%nat with 36%nat. rewrite <- (take_drop n (drop 36 data)) at 1. f_equal.
  by rewrite drop_drop.
Qed.

Section frames.
Context {A : Type} `{!JsonCodec A} {encodable : A → Prop} `{!JsonLaws A encodable}.

Lemma encodeFrame_inv (v : A) size data : encodeFrame v size = Some data →
  ∃ payload, marshal v = Some payload ∧ frame_size size = true ∧ (length payload ≤ size - 36)%nat ∧
    data = be32 (N.of_nat (length payload)) ++ vec_to_list (sha256 (slot_prefix ++ payload)) ++ payload ++
           replicate (size - 36 - length payload) NUL.
Proof.
  unfold encodeFrame. destruct (marshal v) as [payload|]; [|done]. destruct (_ || _) eqn:Hc; [done|].
  intros [= <-]. bool_hyps. eauto.
Qed.

Lemma encodeFrame_length (v : A) size data : encodeFrame v size = Some data → length data = size.
Proof.
  intros (payload & _ & Hs & Hl & ->)%encodeFrame_inv. apply frame_size_bounds in Hs.
  rewrite !length_app, length_vec_to_list, length_replicate. simpl. lia.
Qed.

(** The parts of a frame, as [decodeFrame] slices them. *)
Lemma frame_parts (n : N) (sum : vec ascii 32) (payload : text) pad (data : text) :
  data = be32 n ++ vec_to_list sum ++ payload ++ pad →
  take 4 data = be32 n ∧ slice data 4 36 = vec_to_list sum ∧
  slice data 36 (36 + length payload) = payload ∧ drop (36 + length payload) data = pad.
Proof.
  intros ->. pose proof (length_vec_to_list sum) as Hs.
  assert (drop 4 (be32 n ++ vec_to_list sum ++ payload ++ pad) = vec_to_list sum ++ payload ++ pad) as H4 by done.
  assert (drop 36 (be32 n ++ vec_to_list sum ++ payload ++ pad) = payload ++ pad) as H36.
  { change 36%nat with (4 + 32)%nat. rewrite <- drop_drop, H4. by rewrite drop_app_length'. }
  split_and!.
  - done.
  - unfold slice. rewrite H4. change (36 - 4)%nat with 32%nat. by rewrite take_app_length'.
  - unfold slice. rewrite H36. replace (36 + length payload - 36)%nat with (length payload) by lia. apply take_app_length.
  - rewrite <- drop_drop, H36. apply drop_app_length.
Qed.

Lemma decode_encode (v : A) size data :
  encodable v → encodeFrame v size = Some data → decodeFrame data size = Some v ∧ zero data = false.
Proof.
  intros He H. pose proof (encodeFrame_length _ _ _ H) as Hlen.
  destruct (encodeFrame_inv _ _ _ H) as (payload & Hm & Hs & Hl & Hd). pose proof (frame_size_bounds _ Hs) as Hsz.
  destruct (frame_parts _ _ _ _ _ Hd) as (H1 & H2 & H3 & H4).
  assert (length payload ≠ 0)%nat as Hn0.
  { intros Hz. destruct payload; [|done]. by apply (marshal_nonempty v []). }
  assert (be32_value (be32 (N.of_nat (length payload))) = N.of_nat (length payload)) as Hbe.
  { apply be32_roundtrip. change (2 ^ 32)%N with 4294967296%N. lia. }
  split.
  - unfold decodeFrame. rewrite Hs, Hlen, Nat.eqb_refl. cbn [negb orb]. rewrite H1, Hbe, Nat2N.id, H3, H4, H2.
    rewrite zero_replicate. destruct (length payload <? 1)%nat eqn:Hn; [bool_hyps; lia|].
    destruct (size - 36 <? length payload)%nat eqn:Hn'; [bool_hyps; lia|]. cbn [negb orb].
    unfold eqt. rewrite bool_decide_eq_true_2 by done. cbn [negb].
    rewrite (marshal_decode _ _ He Hm). simpl. rewrite Hm. simpl. by rewrite bool_decide_eq_true_2.
  - apply not_true_iff_false. intros Hz%zero_spec.
    assert (take 4 data = replicate 4 NUL) as Ht.
    { rewrite Hz at 1. rewrite take_replicate, Hlen. f_equal. lia. }
    rewrite H1 in Ht. rewrite Ht in Hbe. change (be32_value (replicate 4 NUL)) with 0%N in Hbe. lia.
Qed.

(** Only the frame of a value decodes to it. *)
Lemma encode_decode (v : A) size data : decodeFrame data size = Some v → encodeFrame v size = Some data.
Proof.
  unfold decodeFrame, encodeFrame. destruct (negb (frame_size size) || _) eqn:Hs; [done|]. bool_hyps.
  set (n := N.to_nat (be32_value (take 4 data))). destruct (_ || negb (zero _)) eqn:Hn; [done|]. bool_hyps.
  destruct (negb (eqt _ _)) eqn:Hsum; [done|]. apply negb_false_iff, bool_decide_eq_true_1 in Hsum.
  destruct (decodeExact _) as [out|]; [|done]. cbn [mbind option_bind].
  destruct (marshal out) as [canonical|] eqn:Hm; [|done]. cbn [mbind option_bind].
  destruct (eqt canonical _) eqn:Hc; [|done]. apply bool_decide_eq_true_1 in Hc. intros [= <-]. rewrite Hm.
  pose proof (frame_size_bounds size ltac:(done)) as Hsz.
  assert (length canonical = n) as Hlc by (rewrite Hc; unfold slice; rewrite length_take, length_drop; lia).
  destruct (frame_size size); [|done]. cbn [negb orb].
  destruct (size - 36 <? length canonical)%nat eqn:Hlt; [bool_hyps; lia|]. f_equal.
  etrans; [|symmetry; apply (frame_split data n); lia]. rewrite Hsum, <- Hc.
  assert (be32 (N.of_nat (length canonical)) = take 4 data) as ->.
  { rewrite Hlc. unfold n. rewrite N2Nat.id. apply be32_of_value. rewrite length_take. lia. }
  do 3 f_equal. rewrite Hlc.
  match goal with H : zero _ = true |- _ => apply zero_spec in H; rewrite H end.
  f_equal. rewrite length_drop. lia.
Qed.

(** A frame read back is the frame of exactly one value: decoding succeeds
    with a value whose strings survive JSON if and only if the data is that
    value's encoding, checksum, padding and length included, and such a frame is
    never the blank one. *)
Theorem frame_exact (v : A) size data : encodable v →
  (decodeFrame data size = Some v ↔ encodeFrame v size = Some data) ∧
  (encodeFrame v size = Some data → length data = size ∧ zero data = false).
Proof.
  intros He. split; [split; [apply encode_decode|by intros H; apply decode_encode]|].
  intros H. split; [by eapply encodeFrame_length|by eapply decode_encode].
Qed.
End frames.

(** ** Stored strings are plain *)

Definition plain (s : text) : Prop := forallb (λ c, in_rng 32 126 (byte_val c)) s = true.

Definition record_texts (r : JournalRecord) : list text :=
  let o := ROwner (Reserved r) in let t := ITicket (Intent_ r) in
  [OperationID r; BrokerSHA256 o; BackendSHA256 o; PrincipalSHA256 o; WorkloadSHA256 o; AudienceSHA256 o;
   ExecutionSHA256 (Reserved r); AuthorityRevisionSHA256 (Reserved r);
   TOperationID t; TPrincipalSHA256 t; TExecutionSHA256 t; TAudienceSHA256 t; TBackendSHA256 t; TOperation t;
   TArgumentsSHA256 t; TProposalSHA256 t;
   NativeSHA256 (Intent_ r); TargetSHA256 (Intent_ r); EffectSHA256 (Intent_ r); EvidenceSHA256 (Intent_ r);
   BindingSHA256 r; Phase r; ArtifactSHA256 r; ResultSHA256 r].
Definition encodable_record (r : JournalRecord) : Prop := Forall plain (record_texts r).
Definition encodable_snapshot (s : snapshot) : Prop := encodable_record (SRecord s).
Definition encodable_entry (e : reservationEntry) : Prop := plain (EOperationID e).
Definition encodable_commitment (c : stateCommitment) : Prop := plain (RecordSHA256 c).
Definition encodable_header (h : header) : Prop :=
  plain (IdBrokerSHA256 (HIdentity h)) ∧ plain (IdBackendSHA256 (HIdentity h)).

Lemma plain_nil : plain [].
Proof. done. Qed.

Lemma digest_plain s : validDigest s = true → plain s.
Proof.
  unfold validDigest, plain. intros [_ H]%andb_true_iff. revert H. induction s as [|c s IH]; [done|]. cbn [forallb].
  intros [Hc Hs]%andb_true_iff. rewrite (IH Hs), andb_true_r.
  unfold is_lower_hex, is_digit, in_rng in *. destruct (byte_val c); simpl in *; lia.
Qed.

Lemma identifier_plain s : validIdentifier s = true → plain s.
Proof.
  unfold validIdentifier, plain. intros [_ H]%andb_true_iff. revert H. induction s as [|c s IH]; [done|]. cbn [forallb].
  intros [Hc Hs]%andb_true_iff. rewrite (IH Hs), andb_true_r. unfold in_rng in *. lia.
Qed.

Lemma digest_valid data : validDigest (digest data) = true.
Proof.
  unfold validDigest, digest. destruct (hex_encode_digits (vec_to_list (sha256 data))) as [-> ->].
  by rewrite length_vec_to_list.
Qed.

(** ** What validation guarantees *)


Ltac eqts := repeat match goal with
  | H : eqt _ _ = true |- _ => apply eqt_true in H
  | H : eqt _ _ = false |- _ => apply eqt_false in H
  end.

Lemma binding_inv r intent b :
  BrokerJournalIntentBindingSHA256V1 r intent = Some b →
  validateTicket (ITicket intent) = true ∧ TOperation (ITicket intent) = BrokerOperationJiraCommentApply ∧
  TOperationID (ITicket intent) = OperationID r ∧
  Forall (λ d, validDigest d = true) [NativeSHA256 intent; TargetSHA256 intent; EffectSHA256 intent; EvidenceSHA256 intent] ∧
  validDigest b = true.
Proof.
  unfold BrokerJournalIntentBindingSHA256V1, OperationTicketSHA256. destruct (_ || negb (validDigest (EvidenceSHA256 _))) eqn:Hg; [done|].
  destruct (validateTicket _) eqn:Ht; [|done]. destruct (digestTicket _) as [td|]; [|done]. cbn [mbind option_bind].
  destruct (marshalBinding _ _ _) as [data|]; [|done]. cbn [mbind option_bind]. intros [= <-].
  bool_hyps.
  eqts.
  split_and!; try done; [by repeat constructor|apply digest_valid].
Qed.

Lemma validReservation_plain r issued accept : validReservation r issued accept = true →
  Forall plain [BrokerSHA256 (ROwner r); BackendSHA256 (ROwner r); PrincipalSHA256 (ROwner r); WorkloadSHA256 (ROwner r);
                AudienceSHA256 (ROwner r); ExecutionSHA256 r; AuthorityRevisionSHA256 r].
Proof.
  unfold validReservation, validOwner. intros H.
  bool_hyps.
  repeat constructor; by apply digest_plain.
Qed.

Lemma validateTicket_plain t : validateTicket t = true → TOperation t = BrokerOperationJiraCommentApply →
  Forall plain [TOperationID t; TPrincipalSHA256 t; TExecutionSHA256 t; TAudienceSHA256 t; TBackendSHA256 t; TOperation t;
                TArgumentsSHA256 t; TProposalSHA256 t].
Proof.
  unfold validateTicket. destruct (operation_limit _ _); [|done]. intros Hv Hop. apply negb_true_iff in Hv.
  bool_hyps.
  repeat constructor; try (by apply digest_plain); [by apply identifier_plain|by rewrite Hop|].
  match goal with H : negb (eqt (TProposalSHA256 t) []) && _ = false |- _ => rename H into Hp end.
  apply andb_false_iff in Hp as [Hp|Hp]; apply negb_false_iff in Hp; [apply eqt_true in Hp; by rewrite Hp|by apply digest_plain].
Qed.

(** The evidence each published phase carries. *)
Definition phase_evidence (r : JournalRecord) : Prop :=
  Phase r = BrokerOperationAdmitted ∧ DispatchClaimed r = false ∧ ResultSHA256 r = [] ∨
  Phase r = BrokerOperationDispatching ∧ DispatchClaimed r = true ∧ ResultSHA256 r = [] ∨
  Phase r = BrokerOperationOutcomeUnknown ∧ DispatchClaimed r = true ∧ ResultSHA256 r = [] ∨
  Phase r = BrokerOperationApplied ∧ DispatchClaimed r = true ∧ validDigest (ResultSHA256 r) = true ∨
  Phase r = BrokerOperationNotApplied ∧ (DispatchClaimed r = true → validDigest (ResultSHA256 r) = true) ∧
    (ResultSHA256 r = [] ∨ validDigest (ResultSHA256 r) = true).

Lemma phase_table r :
  (if eqt (Phase r) BrokerOperationAdmitted
   then negb (DispatchClaimed r || negb (eqt (ResultSHA256 r) []))
   else if eqt (Phase r) BrokerOperationDispatching || eqt (Phase r) BrokerOperationOutcomeUnknown
   then negb (negb (DispatchClaimed r) || negb (eqt (ResultSHA256 r) []))
   else if eqt (Phase r) BrokerOperationApplied
   then negb (negb (DispatchClaimed r) || negb (validDigest (ResultSHA256 r)))
   else if eqt (Phase r) BrokerOperationNotApplied
   then negb ((DispatchClaimed r && negb (validDigest (ResultSHA256 r))) ||
              (negb (eqt (ResultSHA256 r) []) && negb (validDigest (ResultSHA256 r))))
   else false) = true → phase_evidence r.
Proof.
  unfold phase_evidence. intros H.
  destruct (eqt (Phase r) BrokerOperationAdmitted) eqn:H1; [left; bool_hyps; eqts; done|right].
  destruct (eqt (Phase r) BrokerOperationDispatching) eqn:H2; [left; cbn [orb] in H; bool_hyps; eqts; done|right].
  destruct (eqt (Phase r) BrokerOperationOutcomeUnknown) eqn:H3; [left; cbn [orb] in H; bool_hyps; eqts; done|right].
  destruct (eqt (Phase r) BrokerOperationApplied) eqn:H4; [left; cbn [orb] in H; bool_hyps; eqts; done|right].
  destruct (eqt (Phase r) BrokerOperationNotApplied) eqn:H5; [|done]. cbn [orb] in H.
  apply negb_true_iff, orb_false_iff in H as [Ha Hb]. split; [by apply eqt_true|]. split.
  - intros Hd. rewrite Hd in Ha. by apply negb_false_iff in Ha.
  - apply andb_false_iff in Hb as [Hb|Hb]; apply negb_false_iff in Hb; [left; by apply eqt_true|by right].
Qed.

(** The guards of [validateRecord], one by one. *)
Lemma validateRecord_inv r : validateRecord r = true →
  validDigest (OperationID r) = true ∧ validReservation (Reserved r) (IssuedAtMillis r) (AcceptUntilMillis r) = true ∧
  1 ≤ Sequence r ≤ 8 ∧ IssuedAtMillis r ≤ RecordedAtMillis r ∧
  (BindingSHA256 r = [] → Intent_ r = zero_intent ∧ Sequence r = 1 ∧ Phase r = PhaseNone) ∧
  (BindingSHA256 r ≠ [] → intentBinding r (Intent_ r) = Ok (BindingSHA256 r) ∧ 2 ≤ Sequence r) ∧
  (Phase r = PhaseNone → DispatchClaimed r = false ∧ ArtifactSHA256 r = [] ∧ ArtifactBytes r = 0 ∧ ResultSHA256 r = [] ∧ Sequence r ≤ 2) ∧
  (Phase r ≠ PhaseNone → BindingSHA256 r ≠ [] ∧ validDigest (ArtifactSHA256 r) = true ∧ 1 ≤ ArtifactBytes r ≤ ArtifactCapacity (Reserved r) ∧
     phase_evidence r).
Proof.
  unfold validateRecord. destruct (_ || (RecordedAtMillis r <? IssuedAtMillis r)) eqn:Hbase; [done|].
  change (Z.of_nat slotCount) with 8 in *. bool_hyps.
  destruct (if eqt (BindingSHA256 r) [] then _ else _) eqn:Hbind; [done|]. intros Hph.
  split_and!; try done.
  - intros Hb. rewrite (proj2 (eqt_true _ _) Hb) in Hbind. bool_hyps. eqts. done.
  - intros Hb. rewrite (proj2 (eqt_false _ _) Hb) in Hbind. destruct (intentBinding r (Intent_ r)); [|done].
    bool_hyps. eqts. by subst.
  - intros Hp. rewrite (proj2 (eqt_true _ _) Hp) in Hph. bool_hyps. eqts. done.
  - intros Hp. rewrite (proj2 (eqt_false _ _) Hp) in Hph.
    destruct (_ || eqt (BindingSHA256 r) []) eqn:Ha; [done|]. bool_hyps. eqts. split_and!; try done.
    by apply phase_table.
Qed.

Lemma validateRecord_encodable r : validateRecord r = true → encodable_record r.
Proof.
  intros (Hid & Hres & _ & _ & Hun & Hbo & Hnone & Hpub)%validateRecord_inv.
  pose proof (validReservation_plain _ _ _ Hres) as Hrp. rewrite !Forall_cons in Hrp.
  assert (plain (BindingSHA256 r) ∧ Forall plain (let t := ITicket (Intent_ r) in
    [TOperationID t; TPrincipalSHA256 t; TExecutionSHA256 t; TAudienceSHA256 t; TBackendSHA256 t; TOperation t;
     TArgumentsSHA256 t; TProposalSHA256 t]) ∧ Forall plain [NativeSHA256 (Intent_ r); TargetSHA256 (Intent_ r);
     EffectSHA256 (Intent_ r); EvidenceSHA256 (Intent_ r)]) as (Hb & Ht & Hi).
  { destruct (decide (BindingSHA256 r = [])) as [Hb|Hb].
    - destruct (Hun Hb) as (-> & _). rewrite Hb. split_and!; repeat constructor.
    - destruct (Hbo Hb) as [Hib _]. unfold intentBinding in Hib.
      destruct (BrokerJournalIntentBindingSHA256V1 _ _) eqn:Hbi; [|done].
      destruct (binding_inv _ _ _ Hbi) as (Hvt & Hop & _ & Hd & Hv). injection Hib as <-.
      split_and!; [by apply digest_plain|by apply validateTicket_plain|].
      eapply Forall_impl; [exact Hd|]. intros. by apply digest_plain. }
  assert (plain (Phase r) ∧ plain (ArtifactSHA256 r) ∧ plain (ResultSHA256 r)) as (Hp & Ha & Hr).
  { destruct (decide (Phase r = PhaseNone)) as [Hp|Hp].
    - destruct (Hnone Hp) as (_ & -> & _ & -> & _). by rewrite Hp.
    - destruct (Hpub Hp) as (_ & Ha & _ & Hev). split_and!; [|by apply digest_plain|].
      + destruct Hev as [[Hev _]|[[Hev _]|[[Hev _]|[[Hev _]|[Hev _]]]]]; rewrite Hev; reflexivity.
      + destruct Hev as [(_ & _ & ->)|[(_ & _ & ->)|[(_ & _ & ->)|[(_ & _ & ?)|(_ & _ & [->|?])]]]]; try done;
          by apply digest_plain. }
  unfold encodable_record, record_texts. cbn zeta in Ht. rewrite !Forall_cons in Ht. rewrite !Forall_cons in Hi.
  rewrite !Forall_cons. destruct_and!. split_and!; try done; by apply digest_plain.
Qed.

(** ** Transitions *)

Inductive phase_edge (before after : JournalRecord) : Prop :=
| edge_bind : BindingSHA256 before = [] → BindingSHA256 after ≠ [] → Phase before = Phase after → Phase after = PhaseNone →
    phase_edge before after
| edge_admit : Phase before = PhaseNone → Phase after = BrokerOperationAdmitted → phase_edge before after
| edge_dispatch : Phase before = BrokerOperationAdmitted → Phase after = BrokerOperationDispatching → phase_edge before after
| edge_abandon : Phase before = BrokerOperationAdmitted → Phase after = BrokerOperationNotApplied → phase_edge before after
| edge_close : Phase before = BrokerOperationDispatching →
    Phase after = BrokerOperationApplied ∨ Phase after = BrokerOperationNotApplied ∨ Phase after = BrokerOperationOutcomeUnknown →
    phase_edge before after
| edge_resolve : Phase before = BrokerOperationOutcomeUnknown →
    Phase after = BrokerOperationApplied ∨ Phase after = BrokerOperationNotApplied → phase_edge before after.

Record successor (before after : JournalRecord) : Prop := {
  sc_sequence : Sequence after = Sequence before + 1;
  sc_time : RecordedAtMillis before ≤ RecordedAtMillis after;
  sc_claim : DispatchClaimed after = DispatchClaimed before || eqt (Phase after) BrokerOperationDispatching;
  sc_id : OperationID after = OperationID before;
  sc_reserved : Reserved after = Reserved before;
  sc_issued : IssuedAtMillis after = IssuedAtMillis before;
  sc_accept : AcceptUntilMillis after = AcceptUntilMillis before;
  sc_binding : BindingSHA256 before ≠ [] → BindingSHA256 after = BindingSHA256 before ∧ Intent_ after = Intent_ before;
  sc_artifact : BindingSHA256 before ≠ [] → Phase before ≠ PhaseNone →
    ArtifactSHA256 after = ArtifactSHA256 before ∧ ArtifactBytes after = ArtifactBytes before;
  sc_edge : phase_edge before after
}.

Lemma validSuccessor_inv before after :
  validateRecord before = true → validSuccessor before after = true → successor before after.
Proof.
  intros (_ & _ & _ & _ & Hun & _)%validateRecord_inv. unfold validSuccessor.
  destruct (_ || negb (Bool.eqb _ _)) eqn:Hg; [done|]. bool_hyps.
  match goal with H : Bool.eqb _ _ = true |- _ => apply eqb_prop in H end.
  destruct before as [bid bres bis bac bin bbi bsq bph bdc bas bab brs brt].
  destruct after as [aid ares ais aac ain abi asq aph adc aas aab ars art].
  unfold reset_mutable, with_binding, with_artifact. simpl in *.
  destruct (eqt bbi []) eqn:Hb; [|destruct (eqt bph PhaseNone) eqn:Hp]; intros Hok; bool_hyps; eqts.
  - destruct (Hun Hb) as (_ & _ & Hph).
    match goal with H : {| OperationID := _ |} = _ |- _ => injection H; clear H; intros; subst end.
    constructor; simpl; try done. by apply edge_bind.
  - match goal with H : {| OperationID := _ |} = _ |- _ => injection H; clear H; intros; subst end.
    constructor; simpl; try done. by apply edge_admit.
  - destruct (negb (bool_decide _)) eqn:Heq; [done|]. apply negb_false_iff, bool_decide_eq_true_1 in Heq.
    injection Heq; clear Heq; intros; subst. constructor; simpl; try done.
    destruct (eqt bph BrokerOperationAdmitted) eqn:Hq1; [|destruct (eqt bph BrokerOperationDispatching) eqn:Hq2;
      [|destruct (eqt bph BrokerOperationOutcomeUnknown) eqn:Hq3; [|done]]]; eqts.
    + apply orb_true_iff in Hok as [Hok|Hok]; apply eqt_true in Hok; [by apply edge_dispatch|by apply edge_abandon].
    + rewrite !orb_true_iff, !eqt_true in Hok. apply edge_close; [done|]. simpl. tauto.
    + rewrite !orb_true_iff, !eqt_true in Hok. by apply edge_resolve.
Qed.

(** The highest sequence number a record in its phase can carry. *)
Definition phase_rank (r : JournalRecord) : Z :=
  if eqt (BindingSHA256 r) [] then 1
  else if eqt (Phase r) PhaseNone then 2
  else if eqt (Phase r) BrokerOperationAdmitted then 3
  else if eqt (Phase r) BrokerOperationDispatching then 4
  else if eqt (Phase r) BrokerOperationOutcomeUnknown then 5
  else 6.

Lemma successor_rank before after : validateRecord before = true → validateRecord after = true →
  successor before after → phase_rank before + 1 ≤ phase_rank after.
Proof.
  intros Hb Ha Hs. apply validateRecord_inv in Hb as (_ & _ & _ & _ & Hbu & _ & _ & Hbp).
  apply validateRecord_inv in Ha as (_ & _ & _ & _ & Hau & _ & _ & Hap).
  pose proof (sc_edge _ _ Hs) as He.
  unfold phase_rank. destruct (eqt (BindingSHA256 before) []) eqn:Hbb; eqts.
  - destruct (Hbu Hbb) as (_ & _ & Hph).
    destruct (eqt (BindingSHA256 after) []) eqn:Hba; eqts.
    + destruct (Hau Hba) as (_ & _ & Hpa).
      destruct He as [_ Hne _ _|_ H2|H1 _|H1 _|H1 _|H1 _]; [done|by rewrite Hpa in H2|by rewrite Hph in H1..].
    + destruct (eqt (Phase after) _); [lia|]. repeat destruct (eqt _ _); lia.
  - destruct (sc_binding _ _ Hs Hbb) as [-> _]. rewrite (proj2 (eqt_false _ _) Hbb).
    destruct He as [H1|H1 H2|H1 H2|H1 H2|H1 H2|H1 H2]; [done|..]; rewrite H1.
    1-3: rewrite H2; done.
    1-2: repeat match type of H2 with _ ∨ _ => destruct H2 as [H2|H2] end; rewrite H2; done.
Qed.

(** ** Histories *)

(** The records of one operation, newest first, as [loadRecord] accepts them. *)
Inductive history : list JournalRecord → Prop :=
| history_issued r : validateRecord r = true → Sequence r = 1 → BindingSHA256 r = [] → Phase r = PhaseNone → history [r]
| history_next r b rs : history (b :: rs) → validateRecord r = true → validSuccessor b r = true → history (r :: b :: rs).

Lemma history_head r rs : history (r :: rs) → validateRecord r = true.
Proof. by inversion 1. Qed.

Lemma history_rank r rs : history (r :: rs) → Sequence r = Z.of_nat (length (r :: rs)) ∧ Sequence r ≤ phase_rank r.
Proof.
  remember (r :: rs) as l eqn:Hl. intros H. revert r rs Hl.
  induction H as [r Hv Hs Hb Hp|r b rs Hh IH Hv Hs]; intros r' rs' [= <- <-].
  - split; [done|]. rewrite Hs. unfold phase_rank. by rewrite (proj2 (eqt_true _ _) Hb).
  - destruct (IH _ _ eq_refl) as [Hlen Hr]. pose proof (history_head _ _ Hh) as Hvb.
    pose proof (validSuccessor_inv _ _ Hvb Hs) as Hsc. pose proof (successor_rank _ _ Hvb Hv Hsc).
    rewrite (sc_sequence _ _ Hsc). split; [|lia]. rewrite Hlen. simpl. lia.
Qed.

Lemma phase_rank_le r : phase_rank r ≤ 6.
Proof. unfold phase_rank. repeat destruct (eqt _ _); lia. Qed.

Definition dispatching (r : JournalRecord) : Prop := Phase r = BrokerOperationDispatching.
#[export] Instance dispatching_dec r : base.Decision (dispatching r).
Proof. unfold dispatching. apply _. Defined.

(** An unclaimed record has no dispatching record before it, a claimed one has
    exactly one. *)
Lemma history_dispatch r rs : history (r :: rs) →
  length (filter dispatching (r :: rs)) = if DispatchClaimed r then 1%nat else 0%nat.
Proof.
  remember (r :: rs) as l eqn:Hl. intros H. revert r rs Hl.
  induction H as [r Hv Hs Hb Hp|r b rs Hh IH Hv Hs]; intros r' rs' [= <- <-].
  - rewrite filter_cons, decide_False; [|unfold dispatching; by rewrite Hp].
    apply validateRecord_inv in Hv as (_ & _ & _ & _ & _ & _ & Hn & _). by destruct (Hn Hp) as (-> & _).
  - pose proof (history_head _ _ Hh) as Hvb. pose proof (validSuccessor_inv _ _ Hvb Hs) as Hsc.
    specialize (IH _ _ eq_refl). rewrite filter_cons. pose proof (sc_claim _ _ Hsc) as Hc.
    destruct (decide (dispatching r)) as [Hd|Hd].
    + rewrite (proj2 (eqt_true _ _) Hd), orb_true_r in Hc. rewrite Hc. cbn [length].
      assert (DispatchClaimed b = false) as Hbf; [|by rewrite IH, Hbf].
      unfold dispatching in Hd. destruct (sc_edge _ _ Hsc) as [_ _ _ H2|_ H2|H1 _|_ H2|_ H2|_ H2]; try (by rewrite Hd in H2).
      * apply validateRecord_inv in Hvb as (_ & _ & _ & _ & _ & _ & _ & Hpub).
        destruct (Hpub ltac:(by rewrite H1)) as (_ & _ & _ & Hev). unfold phase_evidence in Hev.
        rewrite H1 in Hev. by destruct Hev as [(_ & ? & _)|[[? _]|[[? _]|[[? _]|[? _]]]]].
      * rewrite Hd in H2. by destruct H2 as [?|[?|?]].
      * rewrite Hd in H2. by destruct H2 as [?|?].
    + rewrite (proj2 (eqt_false _ _) Hd), orb_false_r in Hc. rewrite Hc. done.
Qed.

(** The records of an operation accepted one after another carry the
    sequence numbers 1 to their count, never fill the slots of a record file,
    contain at most one dispatching record, and it was claimed exactly when the
    newest record says so. *)
Theorem history_bounded r rs : history (r :: rs) →
  Sequence r = Z.of_nat (length (r :: rs)) ∧ (length (r :: rs) ≤ 6 < slotCount)%nat ∧
  length (filter dispatching (r :: rs)) = (if DispatchClaimed r then 1%nat else 0%nat).
Proof.
  intros H. destruct (history_rank _ _ H) as [Hl Hr]. pose proof (phase_rank_le r).
  split_and!; [done| |unfold slotCount; lia|by apply history_dispatch]. lia.
Qed.
End codec.

(** ** A concrete codec

    Used to instantiate the JSON parameters: every field is written in order and
    closed by a separator byte no stored string contains. *)

Module FieldCodec.
Definition SEP : ascii := "001"%char.

Fixpoint join (fields : list text) : text :=
  match fields with
  | [] => []
  | f :: fields => f ++ SEP :: join fields
  end.

(** Fields of a separator-closed text; [None] when the last field is open. *)
Fixpoint split (cur : text) (data : text) : option (list text) :=
  match data with
  | [] => match cur with [] => Some [] | _ => None end
  | c :: data => if decide (c = SEP) then (λ fs, cur :: fs) <$> split [] data else split (cur ++ [c]) data
  end.

Lemma split_field f cur data : SEP ∉ f → split cur (f ++ SEP :: data) = (λ fs, (cur ++ f) :: fs) <$> split [] data.
Proof.
  revert cur. induction f as [|c f IH]; intros cur Hf; simpl.
  - by rewrite app_nil_r.
  - rewrite decide_False by (intros ->; apply Hf; left). rewrite IH by (intros ?; apply Hf; by right).
    by rewrite <- app_assoc.
Qed.

Lemma split_join fields : Forall (λ f, SEP ∉ f) fields → split [] (join fields) = Some fields.
Proof.
  induction 1 as [|f fields Hf Hfs IH]; [done|]. simpl. rewrite split_field by done. by rewrite IH.
Qed.

Fixpoint pos_text (p : positive) : text :=
  match p with
  | xH => []
  | xO p => "0"%char :: pos_text p
  | xI p => "1"%char :: pos_text p
  end.
Fixpoint text_pos (s : text) : option positive :=
  match s with
  | [] => Some xH
  | c :: s => if decide (c = "0"%char) then xO <$> text_pos s
              else if decide (c = "1"%char) then xI <$> text_pos s else None
  end.
Definition int_text (z : Z) : text :=
  match z with
  | Z0 => ["0"%char]
  | Zpos p => "+"%char :: pos_text p
  | Zneg p => "-"%char :: pos_text p
  end.
Definition text_int (s : text) : option Z :=
  match s with
  | [] => None
  | c :: s => if decide (c = "+"%char) then Zpos <$> text_pos s
              else if decide (c = "-"%char) then Zneg <$> text_pos s
              else match s with [] => Some Z0 | _ => None end
  end.
Definition bool_text (b : bool) : text := if b then ["1"%char] else ["0"%char].
Definition text_bool (s : text) : option bool :=
  if decide (s = ["1"%char]) then Some true else if decide (s = ["0"%char]) then Some false else None.

Lemma text_pos_text p : text_pos (pos_text p) = Some p.
Proof. by induction p as [p IH|p IH|]; simpl; rewrite ?IH. Qed.
Lemma text_int_text z : text_int (int_text z) = Some z.
Proof. destruct z; simpl; rewrite ?text_pos_text; done. Qed.
Lemma text_bool_text b : text_bool (bool_text b) = Some b.
Proof. by destruct b. Qed.

Lemma pos_text_sep p : SEP ∉ pos_text p.
Proof. induction p as [p IH|p IH|]; simpl; [| |by intros ?%not_elem_of_nil]; by intros [?|?]%elem_of_cons. Qed.
Lemma int_text_sep z : SEP ∉ int_text z.
Proof.
  destruct z as [|p|p]; simpl; [by intros ?%list_elem_of_singleton|..]; intros [?|?]%elem_of_cons; try done;
    by eapply pos_text_sep.
Qed.
Lemma bool_text_sep b : SEP ∉ bool_text b.
Proof. by destruct b; intros ?%list_elem_of_singleton. Qed.
Lemma plain_sep s : plain s → SEP ∉ s.
Proof. unfold plain. rewrite <- Is_true_true, forallb_True. intros H Hin. rewrite Forall_forall in H. by specialize (H _ Hin). Qed.

Create HintDb fields discriminated.
#[export] Hint Resolve int_text_sep bool_text_sep plain_sep : fields.

Definition record_fields (r : JournalRecord) : list text :=
  let v := Reserved r in let o := ROwner v in let t := ITicket (Intent_ r) in let i := Intent_ r in
  [OperationID r; BrokerSHA256 o; BackendSHA256 o; PrincipalSHA256 o; WorkloadSHA256 o; AudienceSHA256 o;
   ExecutionSHA256 v; AuthorityRevisionSHA256 v; int_text (ExecutionNotBeforeMillis v); int_text (ExecutionExpiresMillis v);
   int_text (GrantExpiresMillis v); int_text (CredentialExpiresMillis v); int_text (OperationDeadlineMillis v);
   int_text (ObservationUntilMillis v); int_text (ArtifactCapacity v); int_text (IssuedAtMillis r);
   int_text (AcceptUntilMillis r); int_text (TSchemaVersion t); TOperationID t; TPrincipalSHA256 t; TExecutionSHA256 t;
   TAudienceSHA256 t; TBackendSHA256 t; TOperation t; int_text (TOperationVersion t); TArgumentsSHA256 t;
   TProposalSHA256 t; int_text (TIssuedAtMillis t); int_text (TAcceptUntilMillis t); NativeSHA256 i; TargetSHA256 i;
   EffectSHA256 i; EvidenceSHA256 i; BindingSHA256 r; int_text (Sequence r); Phase r; bool_text (DispatchClaimed r);
   ArtifactSHA256 r; int_text (ArtifactBytes r); ResultSHA256 r; int_text (RecordedAtMillis r)].

Definition fields_record (fs : list text) : option JournalRecord :=
  match fs with
  | [oid; bk; be; pr; wl; au; ex; ar; nb; ee; ge; ce; od; ob; ac; iss; ak; tsv; toid; tpr; tex; tau; tbe; top; tov; targ;
     tprop; tis; tak; na; ta; ef; ev; bi; sq; ph; dc; asha; aby; rs; rt] =>
      nb ← text_int nb; ee ← text_int ee; ge ← text_int ge; ce ← text_int ce; od ← text_int od; ob ← text_int ob;
      ac ← text_int ac; iss ← text_int iss; ak ← text_int ak; tsv ← text_int tsv; tov ← text_int tov; tis ← text_int tis;
      tak ← text_int tak; sq ← text_int sq; dc ← text_bool dc; aby ← text_int aby; rt ← text_int rt;
      Some {| OperationID := oid;
              Reserved := {| ROwner := {| BrokerSHA256 := bk; BackendSHA256 := be; PrincipalSHA256 := pr; WorkloadSHA256 := wl; AudienceSHA256 := au |};
                 ExecutionSHA256 := ex; AuthorityRevisionSHA256 := ar; ExecutionNotBeforeMillis := nb; ExecutionExpiresMillis := ee;
                 GrantExpiresMillis := ge; CredentialExpiresMillis := ce; OperationDeadlineMillis := od; ObservationUntilMillis := ob;
                 ArtifactCapacity := ac |};
              IssuedAtMillis := iss; AcceptUntilMillis := ak;
              Intent_ := {| ITicket := {| TSchemaVersion := tsv; TOperationID := toid; TPrincipalSHA256 := tpr; TExecutionSHA256 := tex;
                   TAudienceSHA256 := tau; TBackendSHA256 := tbe; TOperation := top; TOperationVersion := tov; TArgumentsSHA256 := targ;
                   TProposalSHA256 := tprop; TIssuedAtMillis := tis; TAcceptUntilMillis := tak |};
                 NativeSHA256 := na; TargetSHA256 := ta; EffectSHA256 := ef; EvidenceSHA256 := ev |};
              BindingSHA256 := bi; Sequence := sq; Phase := ph; DispatchClaimed := dc; ArtifactSHA256 := asha;
              ArtifactBytes := aby; ResultSHA256 := rs; RecordedAtMillis := rt |}
  | _ => None
  end.

#[export] Instance snapshot_codec : JsonCodec snapshot := {|
  marshal s := Some (join (int_text (SVersion s) :: record_fields (SRecord s)));
  decodeExact d := match split [] d with
                   | Some (v :: fs) => v ← text_int v; r ← fields_record fs; Some {| SVersion := v; SRecord := r |}
                   | _ => None
                   end
|}.
#[export] Instance entry_codec : JsonCodec reservationEntry := {|
  marshal e := Some (join [int_text (EVersion e); int_text (ESequence e); EOperationID e; int_text (EArtifactCapacity e)]);
  decodeExact d := match split [] d with
                   | Some [v; s; i; c] => v ← text_int v; s ← text_int s; c ← text_int c;
                       Some {| EVersion := v; ESequence := s; EOperationID := i; EArtifactCapacity := c |}
                   | _ => None
                   end
|}.
#[export] Instance commitment_codec : JsonCodec stateCommitment := {|
  marshal c := Some (join [int_text (CVersion c); int_text (CSequence c); RecordSHA256 c; bool_text (CDispatchClaimed c)]);
  decodeExact d := match split [] d with
                   | Some [v; s; h; b] => v ← text_int v; s ← text_int s; b ← text_bool b;
                       Some {| CVersion := v; CSequence := s; RecordSHA256 := h; CDispatchClaimed := b |}
                   | _ => None
                   end
|}.
#[export] Instance header_codec : JsonCodec header := {|
  marshal h := Some (join [int_text (HVersion h); IdBrokerSHA256 (HIdentity h); IdBackendSHA256 (HIdentity h);
                           int_text (Records (HLimits h)); int_text (ReservedBytes (HLimits h)); int_text (CreatedAtMillis h)]);
  decodeExact d := match split [] d with
                   | Some [v; b; k; r; y; c] => v ← text_int v; r ← text_int r; y ← text_int y; c ← text_int c;
                       Some {| HVersion := v; HIdentity := {| IdBrokerSHA256 := b; IdBackendSHA256 := k |};
                               HLimits := {| Records := r; ReservedBytes := y |}; CreatedAtMillis := c |}
                   | _ => None
                   end
|}.

Lemma join_nonempty f fs : join (f :: fs) ≠ [].
Proof. by destruct f. Qed.

Lemma fields_record_fields r : fields_record (record_fields r) = Some r.
Proof.
  unfold fields_record, record_fields. rewrite !text_int_text, text_bool_text. simpl.
  rewrite ?text_int_text, ?text_bool_text. by destruct r as [? [[] ? ? ? ? ? ? ? ? ?] ? ? [[] ? ? ? ?] ? ? ? ? ? ? ? ?].
Qed.

Ltac unseal_marshal H :=
  cbn [marshal snapshot_codec entry_codec commitment_codec header_codec] in H; apply (inj Some) in H as <-.

#[export] Instance snapshot_laws : JsonLaws snapshot encodable_snapshot.
Proof.
  constructor.
  - intros [v r] data He Hd. unseal_marshal Hd. cbn [decodeExact snapshot_codec SVersion SRecord].
    rewrite split_join.
    + rewrite text_int_text. cbn [mbind option_bind]. rewrite fields_record_fields. done.
    + unfold encodable_snapshot, encodable_record, record_texts in He. cbn zeta in He. rewrite !Forall_cons in He. destruct_and!.
      repeat constructor; auto with fields.
  - intros v data Hd. unseal_marshal Hd. apply join_nonempty.
Qed.
#[export] Instance entry_laws : JsonLaws reservationEntry encodable_entry.
Proof.
  constructor.
  - intros [v s i c] data He Hd. unseal_marshal Hd. cbn [decodeExact entry_codec EVersion ESequence EOperationID EArtifactCapacity].
    rewrite split_join by (repeat constructor; auto with fields). by rewrite !text_int_text.
  - intros v data Hd. unseal_marshal Hd. apply join_nonempty.
Qed.
#[export] Instance commitment_laws : JsonLaws stateCommitment encodable_commitment.
Proof.
  constructor.
  - intros [v s i c] data He Hd. unseal_marshal Hd. cbn [decodeExact commitment_codec CVersion CSequence RecordSHA256 CDispatchClaimed].
    rewrite split_join by (repeat constructor; auto with fields). by rewrite !text_int_text, text_bool_text.
  - intros v data Hd. unseal_marshal Hd. apply join_nonempty.
Qed.
#[export] Instance header_laws : JsonLaws header encodable_header.
Proof.
  constructor.
  - intros [v [b k] [r y] c] data [H1 H2] Hd. unseal_marshal Hd.
    cbn [decodeExact header_codec HVersion HIdentity IdBrokerSHA256 IdBackendSHA256 HLimits Records ReservedBytes CreatedAtMillis].
    rewrite split_join by (repeat constructor; auto with fields). by rewrite !text_int_text.
  - intros v data Hd. unseal_marshal Hd. apply join_nonempty.
Qed.

End FieldCodec.

Module Demo.
Import FieldCodec.
Open Scope Z_scope.

Definition entry : reservationEntry :=
  {| EVersion := 1; ESequence := 1; EOperationID := txt "ab"; EArtifactCapacity := 5 |}.

Lemma frame_exact_witness :
  ∃ data, encodeFrame toy_sha256 entry indexSlotBytes = Some data ∧ decodeFrame toy_sha256 data indexSlotBytes = Some entry.
Proof.
  destruct (encodeFrame toy_sha256 entry indexSlotBytes) as [data|] eqn:H; [|by vm_compute in H].
  exists data. split; [reflexivity|]. apply (frame_exact toy_sha256 entry indexSlotBytes data); [by vm_compute|exact H].
Defined.

Definition d (c : ascii) : text := replicate 64 c.
Definition owner : Owner :=
  {| BrokerSHA256 := d "a"; BackendSHA256 := d "b"; PrincipalSHA256 := d "c"; WorkloadSHA256 := d "d"; AudienceSHA256 := d "e" |}.
Definition reservation : Reservation :=
  {| ROwner := owner; ExecutionSHA256 := d "f"; AuthorityRevisionSHA256 := d "0"; ExecutionNotBeforeMillis := 1;
     ExecutionExpiresMillis := 150; GrantExpiresMillis := 150; CredentialExpiresMillis := 150;
     OperationDeadlineMillis := 150; ObservationUntilMillis := 200; ArtifactCapacity := 4 |}.
Definition intent : Intent :=
  {| ITicket := {| TSchemaVersion := 1; TOperationID := d "9"; TPrincipalSHA256 := d "c"; TExecutionSHA256 := d "f"; TAudienceSHA256 := d "e";
       TBackendSHA256 := d "b"; TOperation := BrokerOperationJiraCommentApply; TOperationVersion := 1; TArgumentsSHA256 := d "1";
       TProposalSHA256 := d "2"; TIssuedAtMillis := 100; TAcceptUntilMillis := 150 |};
     NativeSHA256 := d "3"; TargetSHA256 := d "4"; EffectSHA256 := d "5"; EvidenceSHA256 := d "6" |}.
Definition issued : JournalRecord :=
  {| OperationID := d "9"; Reserved := reservation; IssuedAtMillis := 100; AcceptUntilMillis := 150; Intent_ := zero_intent;
     BindingSHA256 := []; Sequence := 1; Phase := PhaseNone; DispatchClaimed := false; ArtifactSHA256 := []; ArtifactBytes := 0;
     ResultSHA256 := []; RecordedAtMillis := 100 |}.
Definition toy_ticket : Ticket → option text := λ _, Some (txt "t").
Definition toy_binding : Reservation → text → Intent → option text := λ _ _ _, Some (txt "b").
Definition bound : JournalRecord :=
  advance PhaseNone false [] 101
    (with_binding intent (digest toy_sha256 (txt "atl.broker.journal.v1/binding" ++ [NUL] ++ txt "b")) issued).
Definition admitted : JournalRecord := advance BrokerOperationAdmitted false [] 102 (with_artifact (d "7") 3 bound).
Definition dispatched : JournalRecord := advance BrokerOperationDispatching true [] 103 admitted.

Lemma history_bounded_witness :
  let rs := [admitted; bound; issued] in
  history toy_sha256 toy_ticket toy_binding (dispatched :: rs) ∧ length (filter dispatching (dispatched :: rs)) = 1%nat.
Proof.
  cbv zeta. match goal with |- ?P ∧ _ => assert P as H end.
  { do 3 (apply history_next; [|by vm_compute..]). by apply history_issued; vm_compute. }
  split; [exact H|]. exact (proj2 (proj2 (history_bounded _ _ _ _ _ H))).
Defined.
End Demo.

(** Proofs only use [slotBytes_Z]. *)
#[global] Opaque slotBytes.
End JournalRecord.
