(* ===== verification/BrokerJournal.v ===== *)
(** * The broker journal (internal/adapter/brokerjournal: journal.go,
    recovery.go, reservations.go, transitions.go)

    The journal and its directory are threaded through a state-and-error monad.
    The environment is a family of oracles indexed by a tick: the clock, context
    errors, random ids, crash checkpoints, and one fault per disk operation.  A
    failing write may leave any prefix of its data behind, so every crash of the
    process is a run in which the next disk operation fails. *)

From stdpp Require Import vector.
From S2P Require Import Prelude GoText Identifiers Encoding JournalRecord.
Import GoText Identifiers Encoding JournalRecord.

Module BrokerJournal.
Open Scope Z_scope.

(** ** State *)

Record Journal := {
  jheader : header;
  records : gmap text JournalRecord;
  reservations : list reservationEntry;
  fences : gmap text text;
  reserved : Z;
  highWater : Z;
  failed : bool;
  closed : bool
}.

(** The journal directory: whether it exists, and its files. *)
Record world := { rootExists : bool; files : gmap text text; tick : nat }.

Record state := { jr : Journal; w : world }.

Inductive fault := NoFault | FailBefore | FailAfter (k : nat).

Definition M (A : Type) : Type := state → state * result jerr A.

#[export] Instance M_ret : MRet M := λ A a σ, (σ, Ok a).
#[export] Instance M_bind : MBind M := λ A B k m σ,
  match m σ with
  | (σ', Ok a) => k a σ'
  | (σ', Err e) => (σ', Err e)
  end.

Definition throw {A} (e : jerr) : M A := λ σ, (σ, Err e).
Definition when_not {A} (c : bool) (e : jerr) (k : M A) : M A := if c then k else throw e.
Definition guard_m (c : bool) (e : jerr) : M unit := if c then mret tt else throw e.
Definition lift {A} (r : result jerr A) : M A := λ σ, (σ, r).
Definition get_j : M Journal := λ σ, (σ, Ok (jr σ)).

Definition upd_j (f : Journal → Journal) : M unit := λ σ, ({| jr := f (jr σ); w := w σ |}, Ok tt).

Definition set_failed (j : Journal) : Journal :=
  {| jheader := jheader j; records := records j; reservations := reservations j; fences := fences j;
     reserved := reserved j; highWater := highWater j; failed := true; closed := closed j |}.
Definition set_closed (j : Journal) : Journal :=
  {| jheader := jheader j; records := records j; reservations := reservations j; fences := fences j;
     reserved := reserved j; highWater := highWater j; failed := failed j; closed := true |}.
Definition set_header (h : header) (j : Journal) : Journal :=
  {| jheader := h; records := records j; reservations := reservations j; fences := fences j;
     reserved := reserved j; highWater := highWater j; failed := failed j; closed := closed j |}.
Definition set_highWater (h : Z) (j : Journal) : Journal :=
  {| jheader := jheader j; records := records j; reservations := reservations j; fences := fences j;
     reserved := reserved j; highWater := h; failed := failed j; closed := closed j |}.
Definition set_record (id : text) (r : JournalRecord) (j : Journal) : Journal :=
  {| jheader := jheader j; records := <[id := r]> (records j); reservations := reservations j; fences := fences j;
     reserved := reserved j; highWater := highWater j; failed := failed j; closed := closed j |}.
Definition set_fences (f : gmap text text) (j : Journal) : Journal :=
  {| jheader := jheader j; records := records j; reservations := reservations j; fences := f;
     reserved := reserved j; highWater := highWater j; failed := failed j; closed := closed j |}.
Definition set_reserved (v : Z) (j : Journal) : Journal :=
  {| jheader := jheader j; records := records j; reservations := reservations j; fences := fences j;
     reserved := v; highWater := highWater j; failed := failed j; closed := closed j |}.
Definition set_reservations (v : list reservationEntry) (j : Journal) : Journal :=
  {| jheader := jheader j; records := records j; reservations := v; fences := fences j;
     reserved := reserved j; highWater := highWater j; failed := failed j; closed := closed j |}.

(** [poison]: the instance is marked failed. *)
Definition poison {A} : M A := upd_j set_failed ;; throw errUnavailable.

(** [if m != nil { return j.poison() }] and the same without poisoning. *)
Definition or_poison {A} (m : M A) : M A := λ σ,
  match m σ with
  | (σ', Ok a) => (σ', Ok a)
  | (σ', Err _) => poison σ'
  end.
Definition or_unavailable {A} (m : M A) : M A := λ σ,
  match m σ with
  | (σ', Ok a) => (σ', Ok a)
  | (σ', Err _) => (σ', Err errUnavailable)
  end.

Definition rec_name (id : text) : text := id ++ txt ".rec".
Definition art_name (id : text) : text := id ++ txt ".art".
Definition state_name (id : text) : text := id ++ txt ".state".

(** [os.File.WriteAt]: [data] over [old] at [off]. *)
Definition overwrite (old : text) (off : nat) (data : text) : text :=
  take off old ++ data ++ drop (off + length data) old.

Definition wrap64 (z : Z) : Z := (z + 2 ^ 63) mod 2 ^ 64 - 2 ^ 63.

Section journal.
Context `{!JsonCodec snapshot, !JsonCodec reservationEntry, !JsonCodec stateCommitment, !JsonCodec header}.
Variable sha256 : text → vec ascii 32.
Variable digestTicket : Ticket → option text.
Variable marshalBinding : Reservation → text → Intent → option text.
(** The environment, by tick. *)
Variable nowMillis : nat → Z.
Variable ctxErr : nat → bool.
Variable randomBytes : nat → option (vec ascii 32).
Variable hookErr : nat → bool.
Variable diskFault : nat → fault.

Definition env {A} (oracle : nat → A) : M A := λ σ,
  let t := tick (w σ) in
  ({| jr := jr σ; w := {| rootExists := rootExists (w σ); files := files (w σ); tick := S t |} |}, Ok (oracle t)).

Definition set_files (f : gmap text text) : M unit := λ σ,
  ({| jr := jr σ; w := {| rootExists := rootExists (w σ); files := f; tick := tick (w σ) |} |}, Ok tt).
Definition get_files : M (gmap text text) := λ σ, (σ, Ok (files (w σ))).

(** ** The disk *)

Definition disk_check : M unit :=
  f ← env diskFault;
  match f with NoFault => mret tt | _ => throw errUnavailable end.

Definition disk_read (name : text) (size : Z) : M text :=
  f ← env diskFault;
  match f with
  | NoFault =>
      guard_m (negb ((size <? 1) || (MaxArtifactBytes <? size)) && validFilename name) errUnavailable ;;
      fs ← get_files;
      match fs !! name with
      | Some data => if Z.of_nat (length data) =? size then mret data else throw errUnavailable
      | None => throw errUnavailable
      end
  | _ => throw errUnavailable
  end.

Definition disk_allocate (name : text) (size : Z) : M unit :=
  f ← env diskFault;
  fs ← get_files;
  if (size <? 1) || (MaxArtifactBytes <? size) || negb (validFilename name) || bool_decide (is_Some (fs !! name))
  then throw errUnavailable
  else match f with
       | NoFault => set_files (<[name := replicate (Z.to_nat size) NUL]> fs)
       | FailBefore => throw errUnavailable
       | FailAfter k => set_files (<[name := replicate (Nat.min k (Z.to_nat size)) NUL]> fs) ;; throw errUnavailable
       end.

Definition disk_write (name : text) (off : Z) (data : text) : M unit :=
  f ← env diskFault;
  fs ← get_files;
  match fs !! name with
  | None => throw errUnavailable
  | Some old =>
      let size := Z.of_nat (length old) in
      if negb (validFilename name) || (off <? 0) || (size <? off) || (size - off <? Z.of_nat (length data)) then throw errUnavailable
      else match f with
           | NoFault => set_files (<[name := overwrite old (Z.to_nat off) data]> fs)
           | FailBefore => throw errUnavailable
           | FailAfter k => set_files (<[name := overwrite old (Z.to_nat off) (take k data)]> fs) ;; throw errUnavailable
           end
  end.

Definition disk_names (limit : Z) : M (list text) :=
  f ← env diskFault;
  match f with
  | NoFault =>
      fs ← get_files;
      let names := (map_to_list fs).*1 in
      if limit <? Z.of_nat (length names) then throw errUnavailable else mret names
  | _ => throw errUnavailable
  end.

(** [openDisk]: the directory and its locked identity file. *)
Definition openDisk (create : bool) : M unit := λ σ,
  let f := diskFault (tick (w σ)) in
  let failing (wd : world) : state * result jerr unit := ({| jr := jr σ; w := wd |}, Err errUnavailable) in
  let wd (root : bool) (fs : gmap text text) := {| rootExists := root; files := fs; tick := S (tick (w σ)) |} in
  if create then
    if rootExists (w σ) then failing (wd true (files (w σ)))
    else match f with
         | NoFault => ({| jr := jr σ; w := wd true (<[txt "identity" := replicate slotBytes NUL]> (files (w σ))) |}, Ok tt)
         | FailBefore => failing (wd false (files (w σ)))
         | FailAfter 0 => failing (wd true (files (w σ)))
         | FailAfter (S k) => failing (wd true (<[txt "identity" := replicate (Nat.min k slotBytes) NUL]> (files (w σ))))
         end
  else match f with
       | NoFault =>
           if rootExists (w σ) && bool_decide (length <$> files (w σ) !! txt "identity" = Some slotBytes)
           then ({| jr := jr σ; w := wd true (files (w σ)) |}, Ok tt)
           else failing (wd (rootExists (w σ)) (files (w σ)))
       | _ => failing (wd (rootExists (w σ)) (files (w σ)))
       end.

(** ** Guards and the clock *)

Definition usable : M unit :=
  j ← get_j;
  guard_m (negb (closed j || failed j)) errUnavailable ;;
  e ← env ctxErr;
  guard_m (negb e) errDenied ;;
  or_poison disk_check.

Definition checkpoint (point : text) : M unit :=
  e ← env hookErr;
  if (e : bool) then poison else mret tt.

Definition writeTime : M Z :=
  now ← env nowMillis;
  j ← get_j;
  let previous := highWater j in
  upd_j (set_highWater (Z.max previous now)) ;;
  if (now <=? 0) || (now <? wrap64 (previous - BrokerClockAllowanceMillis)) then throw errExpired
  else mret (Z.max previous now).

Definition observeTime : M Z :=
  now ← env nowMillis;
  j ← get_j;
  upd_j (set_highWater (Z.max (highWater j) now)) ;;
  mret (Z.max (highWater j) now).

Definition writerTime (r : JournalRecord) (acceptance : bool) : M Z := λ σ,
  let deadline := if acceptance then AcceptUntilMillis r else OperationDeadlineMillis (Reserved r) in
  match writeTime σ with
  | (σ', Ok now) =>
      if (now <? ExecutionNotBeforeMillis (Reserved r)) || (deadline <=? now) then (σ', Err errExpired) else (σ', Ok now)
  | (σ', Err _) => (σ', Err errExpired)
  end.

(** ** Durable records *)

Definition slot (data : text) (size index : nat) : text := slice data (index * size) (S index * size).

Definition zero_owner : Owner :=
  {| BrokerSHA256 := []; BackendSHA256 := []; PrincipalSHA256 := []; WorkloadSHA256 := []; AudienceSHA256 := [] |}.
Definition zero_reservation : Reservation :=
  {| ROwner := zero_owner; ExecutionSHA256 := []; AuthorityRevisionSHA256 := []; ExecutionNotBeforeMillis := 0;
     ExecutionExpiresMillis := 0; GrantExpiresMillis := 0; CredentialExpiresMillis := 0; OperationDeadlineMillis := 0;
     ObservationUntilMillis := 0; ArtifactCapacity := 0 |}.
Definition zero_record : JournalRecord :=
  {| OperationID := []; Reserved := zero_reservation; IssuedAtMillis := 0; AcceptUntilMillis := 0; Intent_ := zero_intent;
     BindingSHA256 := []; Sequence := 0; Phase := []; DispatchClaimed := false; ArtifactSHA256 := []; ArtifactBytes := 0;
     ResultSHA256 := []; RecordedAtMillis := 0 |}.

(** The loop over the slots of a record file and its commitments. *)
Fixpoint load_loop (id data commitments : text) (indexes : list nat) (current : JournalRecord) (empty : bool)
    : result jerr JournalRecord :=
  match indexes with
  | [] => if Sequence current =? 0 then Err errUnavailable else Ok current
  | index :: indexes =>
      let s := slot data slotBytes index in
      let commitmentSlot := slot commitments indexSlotBytes index in
      if zero s then
        if negb (zero commitmentSlot) then Err errUnavailable
        else load_loop id data commitments indexes current true
      else if empty then Err errUnavailable
      else match decodeSlot sha256 s with
           | None => Err errUnavailable
           | Some next =>
               let r := SRecord next in
               if negb (SVersion next =? 1) || negb (eqt (OperationID r) id) || negb (Sequence r =? Z.of_nat index + 1) ||
                  negb (validateRecord sha256 digestTicket marshalBinding r)
               then Err errUnavailable
               else match decodeFrame sha256 commitmentSlot indexSlotBytes with
                    | None => Err errUnavailable
                    | Some commitment =>
                        if negb (bool_decide (commitment = commitmentFor sha256 r s)) then Err errUnavailable
                        else if (index =? 0)%nat && (negb (eqt (BindingSHA256 r) []) || negb (eqt (Phase r) PhaseNone)) ||
                                (0 <? index)%nat && negb (validSuccessor current r)
                        then Err errUnavailable
                        else load_loop id data commitments indexes r false
                    end
           end
  end.

Definition loadRecord (id : text) : M JournalRecord :=
  data ← or_unavailable (disk_read (rec_name id) (Z.of_nat recordBytes));
  commitments ← or_unavailable (disk_read (state_name id) (Z.of_nat stateBytes));
  lift (load_loop id data commitments (seq 0 slotCount) zero_record false).

(** *** The reservation index *)

Fixpoint entries_loop (data : text) (indexes : list nat) (entries : list reservationEntry) (seen : gset text) (empty : bool)
    : result jerr (list reservationEntry) :=
  match indexes with
  | [] => Ok entries
  | index :: indexes =>
      let frame := slot data indexSlotBytes index in
      if zero frame then entries_loop data indexes entries seen true
      else if empty then Err errUnavailable
      else match decodeFrame sha256 frame indexSlotBytes with
           | None => Err errUnavailable
           | Some entry =>
               if negb (EVersion entry =? 1) || negb (ESequence entry =? Z.of_nat index + 1) ||
                  negb (validDigest (EOperationID entry)) || (EArtifactCapacity entry <? 1) ||
                  (MaxArtifactBytes <? EArtifactCapacity entry) || bool_decide (EOperationID entry ∈ seen)
               then Err errUnavailable
               else entries_loop data indexes (entries ++ [entry]) ({[EOperationID entry]} ∪ seen) false
           end
  end.

Definition readReservations : M (list reservationEntry) :=
  j ← get_j;
  data ← or_unavailable (disk_read (txt "reservations") (Records (HLimits (jheader j)) * Z.of_nat indexSlotBytes));
  lift (entries_loop data (seq 0 (Z.to_nat (Records (HLimits (jheader j))))) [] ∅ false).

Definition checkReservations : M unit :=
  or_poison (
    entries ← readReservations;
    j ← get_j;
    guard_m (bool_decide (entries = reservations j)) errUnavailable).

Definition indexReservation (record : JournalRecord) : M unit :=
  or_poison (
    checkReservations ;;
    j ← get_j;
    guard_m (Z.of_nat (length (reservations j)) <? Records (HLimits (jheader j))) errUnavailable) ;;
  j ← get_j;
  let entry := {| EVersion := 1; ESequence := Z.of_nat (length (reservations j)) + 1; EOperationID := OperationID record;
                  EArtifactCapacity := ArtifactCapacity (Reserved record) |} in
  or_poison (
    match encodeFrame sha256 entry indexSlotBytes with
    | None => throw errUnavailable
    | Some data => disk_write (txt "reservations") (Z.of_nat (length (reservations j)) * Z.of_nat indexSlotBytes) data
    end) ;;
  upd_j (set_reservations (reservations j ++ [entry])) ;;
  checkpoint (txt "reservation_indexed").

Definition phase_label (r : JournalRecord) : text :=
  if eqt (Phase r) PhaseNone
  then if eqt (BindingSHA256 r) [] then txt "reservation" else txt "binding"
  else Phase r.

Definition commitState (r : JournalRecord) (s : text) : M unit :=
  or_poison (checkpoint (phase_label r ++ txt "_record_durable")) ;;
  or_poison (
    match encodeFrame sha256 (commitmentFor sha256 r s) indexSlotBytes with
    | None => throw errUnavailable
    | Some data => disk_write (state_name (OperationID r)) ((Sequence r - 1) * Z.of_nat indexSlotBytes) data
    end) ;;
  checkpoint (phase_label r ++ txt "_state_durable").

Definition persist (r : JournalRecord) : M unit :=
  or_poison (guard_m (validateRecord sha256 digestTicket marshalBinding r) errUnavailable) ;;
  j ← get_j;
  or_poison (guard_m (match records j !! OperationID r with
                      | Some before => validSuccessor before r
                      | None => true
                      end) errUnavailable) ;;
  data ← or_poison (
    match encodeSlot sha256 {| SVersion := 1; SRecord := r |} with
    | None => throw errUnavailable
    | Some data => disk_write (rec_name (OperationID r)) ((Sequence r - 1) * Z.of_nat slotBytes) data ;; mret data
    end);
  commitState r data ;;
  upd_j (set_record (OperationID r) r) ;;
  j ← get_j;
  upd_j (set_highWater (Z.max (highWater j) (RecordedAtMillis r))).

Definition save (r : JournalRecord) (point : text) : M JournalRecord :=
  persist r ;; checkpoint point ;; mret r.

Definition artifact (r : JournalRecord) : M text :=
  or_poison (
    data ← disk_read (art_name (OperationID r)) (ArtifactCapacity (Reserved r));
    let bytes := Z.to_nat (ArtifactBytes r) in
    guard_m (negb ((ArtifactBytes r <? 1) || (Z.of_nat (length data) <? ArtifactBytes r) ||
                   negb (zero (drop bytes data)) || negb (eqt (digest sha256 (take bytes data)) (ArtifactSHA256 r)))) errUnavailable ;;
    mret (take bytes data)).

(** ** Operations *)

Definition lookup (owner : Owner) (id : text) : M JournalRecord :=
  usable ;;
  j ← get_j;
  match records j !! id with
  | None => throw errDenied
  | Some r =>
      guard_m (validOwner owner && validDigest id && bool_decide (ROwner (Reserved r) = owner)) errDenied ;;
      checkReservations ;;
      onDisk ← or_poison (loadRecord id);
      or_poison (guard_m (bool_decide (onDisk = r)) errUnavailable) ;;
      mret r
  end.

Record Compare := { COwner : Owner; COperationID : text; CBindingSHA256 : text; CompareSequence : Z }.

Definition compare (expected : Compare) : M JournalRecord :=
  r ← lookup (COwner expected) (COperationID expected);
  guard_m (negb (negb (CompareSequence expected =? Sequence r) || eqt (CBindingSHA256 expected) [] ||
                 negb (eqt (CBindingSHA256 expected) (BindingSHA256 r)))) errConflict ;;
  mret r.

Definition Reserve (reservation : Reservation) : M JournalRecord :=
  usable ;;
  now ← writeTime;
  let accept := Z.min (wrap64 (now + BrokerMaxOperationMillis)) (Z.min (ExecutionExpiresMillis reservation)
                 (Z.min (GrantExpiresMillis reservation) (Z.min (CredentialExpiresMillis reservation) (OperationDeadlineMillis reservation)))) in
  j ← get_j;
  guard_m (negb (negb (validReservation reservation now accept) ||
                 negb (eqt (BrokerSHA256 (ROwner reservation)) (IdBrokerSHA256 (HIdentity (jheader j)))) ||
                 negb (eqt (BackendSHA256 (ROwner reservation)) (IdBackendSHA256 (HIdentity (jheader j)))))) errInvalid ;;
  let cost := Z.of_nat (recordBytes + stateBytes) + ArtifactCapacity reservation in
  guard_m (negb ((Records (HLimits (jheader j)) <=? Z.of_nat (size (records j))) ||
                 (ReservedBytes (HLimits (jheader j)) - reserved j <? cost))) errCapacity ;;
  random ← env randomBytes;
  match (random : option (vec ascii 32)) with
  | None => throw errUnavailable
  | Some bytes =>
      let id := hex_encode (vec_to_list bytes) in
      or_poison (guard_m (negb (bool_decide (is_Some (records j !! id)))) errUnavailable) ;;
      let r := {| OperationID := id; Reserved := reservation; IssuedAtMillis := now; AcceptUntilMillis := accept;
                  Intent_ := zero_intent; BindingSHA256 := []; Sequence := 1; Phase := PhaseNone; DispatchClaimed := false;
                  ArtifactSHA256 := []; ArtifactBytes := 0; ResultSHA256 := []; RecordedAtMillis := Z.max now (highWater j) |} in
      or_poison (
        disk_allocate (rec_name id) (Z.of_nat recordBytes) ;;
        disk_allocate (art_name id) (ArtifactCapacity reservation) ;;
        disk_allocate (state_name id) (Z.of_nat stateBytes) ;;
        checkpoint (txt "reservation_allocated")) ;;
      indexReservation r ;;
      persist r ;;
      upd_j (λ j, set_reserved (reserved j + cost) j) ;;
      or_unavailable (checkpoint (txt "reservation_durable")) ;;
      mret r
  end.

Definition step_sequence (recorded : Z) (r : JournalRecord) : JournalRecord :=
  advance (Phase r) (DispatchClaimed r) (ResultSHA256 r) recorded r.

Definition Bind (owner : Owner) (id : text) (intent : Intent) : M JournalRecord :=
  r ← lookup owner id;
  if negb (eqt (BindingSHA256 r) []) then
    if bool_decide (Intent_ r = intent) then mret r else throw errConflict
  else
    now ← writerTime r true;
    binding ← lift (intentBinding sha256 digestTicket marshalBinding r intent);
    j ← get_j;
    save (step_sequence (Z.max now (highWater j)) (with_binding intent binding r)) (txt "binding_durable").

Definition Admit (expected : Compare) (art : text) (artifactSHA256 : text) : M JournalRecord :=
  r ← compare expected;
  guard_m (eqt (Phase r) PhaseNone) errConflict ;;
  now ← writerTime r true;
  guard_m (negb ((length art <? 1)%nat || (ArtifactCapacity (Reserved r) <? Z.of_nat (length art)) ||
                 negb (validDigest artifactSHA256) || negb (eqt (digest sha256 art) artifactSHA256))) errInvalid ;;
  j ← get_j;
  guard_m (negb (bool_decide (is_Some (fences j !! TargetSHA256 (Intent_ r))))) errConflict ;;
  or_poison (
    before ← disk_read (art_name (OperationID r)) (ArtifactCapacity (Reserved r));
    guard_m (zero before) errUnavailable) ;;
  or_poison (
    disk_write (art_name (OperationID r)) 0 art ;;
    checkpoint (txt "artifact_durable")) ;;
  j ← get_j;
  let next := advance BrokerOperationAdmitted (DispatchClaimed r) (ResultSHA256 r) (Z.max now (highWater j))
                (with_artifact artifactSHA256 (Z.of_nat (length art)) r) in
  persist next ;;
  upd_j (λ j, set_fences (<[TargetSHA256 (Intent_ next) := OperationID next]> (fences j)) j) ;;
  or_unavailable (checkpoint (txt "admitted_durable")) ;;
  mret next.

Definition ClaimDispatch (expected : Compare) : M JournalRecord :=
  r ← compare expected;
  j ← get_j;
  guard_m (negb (negb (eqt (Phase r) BrokerOperationAdmitted) || DispatchClaimed r ||
                 negb (bool_decide (fences j !! TargetSHA256 (Intent_ r) = Some (OperationID r))))) errConflict ;;
  artifact r ;;
  now ← writerTime r false;
  j ← get_j;
  let next := advance BrokerOperationDispatching true (ResultSHA256 r) (Z.max now (highWater j)) r in
  save next (txt "dispatch_durable") ;;
  writerTime next false ;;
  e ← env ctxErr;
  guard_m (negb e) errDenied ;;
  mret next.

Record Completion := { CompletionPhase : text; CompletionResult : text }.

Definition Complete (expected : Compare) (completion : Completion) : M JournalRecord :=
  r ← compare expected;
  if eqt (Phase r) (CompletionPhase completion) && eqt (ResultSHA256 r) (CompletionResult completion) &&
     negb (eqt (Phase r) BrokerOperationAdmitted) && negb (eqt (Phase r) BrokerOperationDispatching) && negb (eqt (Phase r) PhaseNone)
  then mret r
  else
    recorded ← observeTime;
    let next := advance (CompletionPhase completion) (DispatchClaimed r) (CompletionResult completion) recorded r in
    guard_m (validateRecord sha256 digestTicket marshalBinding next && validSuccessor r next) errConflict ;;
    guard_m (negb (eqt (Phase next) BrokerOperationNotApplied && DispatchClaimed r && negb (validDigest (ResultSHA256 next)))) errInvalid ;;
    persist next ;;
    (if eqt (Phase next) BrokerOperationOutcomeUnknown then mret tt
     else upd_j (λ j, set_fences (delete (TargetSHA256 (Intent_ next)) (fences j)) j)) ;;
    or_unavailable (checkpoint (txt "terminal_durable")) ;;
    mret next.

Definition Lookup (owner : Owner) (id : text) : M JournalRecord :=
  r ← lookup owner id;
  t ← observeTime;
  guard_m (negb (ObservationUntilMillis (Reserved r) <=? t)) errDenied ;;
  mret r.

Definition ReadArtifact (owner : Owner) (id : text) : M text :=
  r ← lookup owner id;
  t ← observeTime;
  guard_m (negb ((ObservationUntilMillis (Reserved r) <=? t) || eqt (ArtifactSHA256 r) [])) errDenied ;;
  artifact r.

Definition Fenced (target : text) : M bool :=
  usable ;;
  guard_m (validDigest target) errInvalid ;;
  j ← get_j;
  mret (bool_decide (is_Some (fences j !! target))).

Definition Close : M unit := upd_j (λ j, if closed j then j else set_closed j).

(** ** Recovery *)

Definition fencing_phase (r : JournalRecord) : bool :=
  eqt (Phase r) BrokerOperationAdmitted || eqt (Phase r) BrokerOperationDispatching || eqt (Phase r) BrokerOperationOutcomeUnknown.

(** One entry of the validating pass. *)
Definition recover_entry (owned : gset text) (entry : reservationEntry) : M unit :=
  let id := EOperationID entry in
  guard_m (bool_decide (rec_name id ∈ owned) && bool_decide (art_name id ∈ owned) && bool_decide (state_name id ∈ owned)) errUnavailable ;;
  r ← loadRecord id;
  j ← get_j;
  guard_m (negb (negb (ArtifactCapacity (Reserved r) =? EArtifactCapacity entry) ||
     negb (eqt (BrokerSHA256 (ROwner (Reserved r))) (IdBrokerSHA256 (HIdentity (jheader j)))) ||
     negb (eqt (BackendSHA256 (ROwner (Reserved r))) (IdBackendSHA256 (HIdentity (jheader j)))) ||
     (IssuedAtMillis r <? wrap64 (CreatedAtMillis (jheader j) - BrokerClockAllowanceMillis)))) errUnavailable ;;
  let cost := Z.of_nat (recordBytes + stateBytes) + ArtifactCapacity (Reserved r) in
  guard_m (negb (ReservedBytes (HLimits (jheader j)) - reserved j <? cost)) errUnavailable ;;
  upd_j (λ j, set_reserved (reserved j + cost) j) ;;
  (if eqt (ArtifactSHA256 r) []
   then data ← or_unavailable (disk_read (art_name id) (ArtifactCapacity (Reserved r))); guard_m (zero data) errUnavailable
   else or_unavailable (artifact r) ;; mret tt) ;;
  upd_j (set_record id r) ;;
  upd_j (λ j, set_highWater (Z.max (highWater j) (RecordedAtMillis r)) j) ;;
  if fencing_phase r then
    j ← get_j;
    guard_m (negb (bool_decide (is_Some (fences j !! TargetSHA256 (Intent_ r))))) errUnavailable ;;
    upd_j (set_fences (<[TargetSHA256 (Intent_ r) := id]> (fences j)))
  else mret tt.

Fixpoint for_each {A} (f : A → M unit) (l : list A) : M unit :=
  match l with
  | [] => mret tt
  | a :: l => f a ;; for_each f l
  end.

(** The phase recovery closes an interrupted operation with. *)
Definition recovery_phase (r : JournalRecord) : option text :=
  if eqt (Phase r) BrokerOperationAdmitted then Some BrokerOperationNotApplied
  else if eqt (Phase r) BrokerOperationDispatching then Some BrokerOperationOutcomeUnknown
  else None.

(** One entry of the closing pass. *)
Definition close_entry (entry : reservationEntry) : M unit :=
  j ← get_j;
  let r := default zero_record (records j !! EOperationID entry) in
  match recovery_phase r with
  | None => mret tt
  | Some phase =>
      recorded ← observeTime;
      let next := advance phase (DispatchClaimed r) (ResultSHA256 r) recorded r in
      persist next ;;
      if eqt phase BrokerOperationNotApplied
      then upd_j (λ j, set_fences (delete (TargetSHA256 (Intent_ next)) (fences j)) j)
      else mret tt
  end.

Definition recover : M unit :=
  entries ← or_unavailable readReservations;
  j ← get_j;
  names ← or_unavailable (disk_names (2 + 3 * Records (HLimits (jheader j))));
  guard_m (forallb validFilename names) errUnavailable ;;
  let owned : gset text := list_to_set names in
  guard_m (bool_decide (txt "identity" ∈ owned) && bool_decide (txt "reservations" ∈ owned) &&
           (length names =? 2 + 3 * length entries)%nat) errUnavailable ;;
  for_each (recover_entry owned) entries ;;
  upd_j (set_reservations entries) ;;
  for_each close_entry entries.

Definition blank_header : header :=
  {| HVersion := 0; HIdentity := {| IdBrokerSHA256 := []; IdBackendSHA256 := [] |};
     HLimits := {| Records := 0; ReservedBytes := 0 |}; CreatedAtMillis := 0 |}.

Definition blank_journal (limits : Limits) : Journal :=
  {| jheader := blank_header; records := ∅; reservations := []; fences := ∅; reserved := initialBytes limits;
     highWater := 0; failed := false; closed := false |}.

(** [openJournal]: the state's journal is replaced by the new instance, which
    the caller owns only when the result is [Ok]. *)
Definition openJournal (identity : Identity) (limits0 : Limits) (create : bool) : M unit :=
  limits ← lift (normalizeLimits limits0);
  guard_m (validDigest (IdBrokerSHA256 identity) && validDigest (IdBackendSHA256 identity)) errInvalid ;;
  openDisk create ;;
  upd_j (λ _, blank_journal limits) ;;
  (if create then
     now ← env nowMillis;
     let h := {| HVersion := 1; HIdentity := identity; HLimits := limits; CreatedAtMillis := now |} in
     upd_j (set_header h) ;;
     guard_m (negb (now <=? 0)) errInvalid ;;
     match encodeSlot sha256 h with
     | None => throw errUnavailable
     | Some data =>
         or_unavailable (disk_allocate (txt "reservations") (Records limits * Z.of_nat indexSlotBytes) ;;
                         disk_write (txt "identity") 0 data)
     end
   else
     data ← or_unavailable (disk_read (txt "identity") (Z.of_nat slotBytes));
     match decodeSlot sha256 data with
     | None => throw errUnavailable
     | Some h =>
         upd_j (set_header h) ;;
         guard_m (negb (negb (HVersion h =? 1) || negb (bool_decide (HIdentity h = identity)) ||
                        negb (bool_decide (HLimits h = limits)) || (CreatedAtMillis h <=? 0))) errUnavailable
     end) ;;
  upd_j (λ j, set_highWater (CreatedAtMillis (jheader j)) j) ;;
  or_unavailable recover.

(** ** A program logic for the monad

    Assertions speak about the journal and the files; [E] holds of the state an
    error leaves behind. *)

Abbreviation assertion := (Journal → gmap text text → Prop).

Definition hoare {A : Type} (P : assertion) (m : M A) (Q : A → assertion) (E : assertion) : Prop :=
  ∀ σ, P (jr σ) (files (w σ)) →
  match m σ with
  | (σ', Ok a) => Q a (jr σ') (files (w σ'))
  | (σ', Err _) => E (jr σ') (files (w σ'))
  end.

Section rules.
Context {A B : Type}.
Implicit Types (P E : assertion) (m : M A).

Lemma h_bind P m (Q : A → assertion) (k : A → M B) (R : B → assertion) E :
  hoare P m Q E → (∀ a, hoare (Q a) (k a) R E) → hoare P (m ≫= k) R E.
Proof.
  intros Hm Hk σ HP. specialize (Hm σ HP). unfold mbind, M_bind. destruct (m σ) as [σ' [a|e]]; [|done].
  by apply Hk.
Qed.

Lemma h_pre P P' m (Q : A → assertion) E : (∀ j f, P j f → P' j f) → hoare P' m Q E → hoare P m Q E.
Proof. intros Hpre Hm σ HP. apply Hm. auto. Qed.

Lemma h_post P m (Q Q' : A → assertion) (E E' : assertion) :
  hoare P m Q E → (∀ a j f, Q a j f → Q' a j f) → (∀ j f, E j f → E' j f) → hoare P m Q' E'.
Proof. intros Hm HQ HE σ HP. specialize (Hm σ HP). destruct (m σ) as [? []]; auto. Qed.

Lemma h_ret P (a : A) (Q : A → assertion) E : (∀ j f, P j f → Q a j f) → hoare P (mret a) Q E.
Proof. intros H σ HP. by apply H. Qed.

Lemma h_throw P (e : jerr) (Q : A → assertion) E : (∀ j f, P j f → E j f) → hoare P (throw e) Q E.
Proof. intros H σ HP. by apply H. Qed.

Lemma h_pure (φ : Prop) P m (Q : A → assertion) E :
  (∀ j f, P j f → φ) → (φ → hoare P m Q E) → hoare P m Q E.
Proof. intros Hp Hm σ HP. by apply (Hm (Hp _ _ HP)). Qed.

Lemma h_lift P (r : result jerr A) E : (∀ j f, P j f → E j f) → hoare P (lift r) (λ a j f, P j f ∧ r = Ok a) E.
Proof. intros H σ HP. unfold lift. destruct r; [done|by apply H]. Qed.

Lemma h_env P (o : nat → A) E : hoare P (env o) (λ _, P) E.
Proof. intros σ HP. done. Qed.

Lemma h_or_poison P m (Q : A → assertion) E : hoare P m Q (λ j f, E (set_failed j) f) → hoare P (or_poison m) Q E.
Proof. intros Hm σ HP. specialize (Hm σ HP). unfold or_poison. by destruct (m σ) as [? []]. Qed.

Lemma h_or_unavailable P m (Q : A → assertion) E : hoare P m Q E → hoare P (or_unavailable m) Q E.
Proof. intros Hm σ HP. specialize (Hm σ HP). unfold or_unavailable. by destruct (m σ) as [? []]. Qed.

Lemma h_poison P (Q : A → assertion) E : (∀ j f, P j f → E (set_failed j) f) → hoare P poison Q E.
Proof. intros H σ HP. by apply H. Qed.
End rules.

Lemma h_false {A : Type} (m : M A) (Q : A → assertion) (E : assertion) : hoare (λ _ _, False) m Q E.
Proof. by intros σ ?. Qed.

Lemma h_guard (P E : assertion) (c : bool) e : (∀ j f, P j f → E j f) → hoare P (guard_m c e) (λ _ j f, P j f ∧ c = true) E.
Proof. intros H σ HP. unfold guard_m. destruct c; [done|by apply H]. Qed.

Lemma h_get_j (P E : assertion) : hoare P get_j (λ j0 j f, P j f ∧ j0 = j) E.
Proof. intros σ HP. done. Qed.

Lemma h_get_files (P E : assertion) : hoare P get_files (λ f0 j f, P j f ∧ f0 = f) E.
Proof. intros σ HP. done. Qed.

Lemma h_upd (P E : assertion) (Q : unit → assertion) g :
  (∀ j f, P j f → Q tt (g j) f) → hoare P (upd_j g) Q E.
Proof. intros H σ HP. by apply H. Qed.

Lemma h_set_files (P E : assertion) (Q : unit → assertion) g :
  (∀ j f, P j f → Q tt j g) → hoare P (set_files g) Q E.
Proof. intros H σ HP. by eapply H. Qed.

Lemma h_checkpoint (P E : assertion) p : (∀ j f, P j f → E (set_failed j) f) → hoare P (checkpoint p) (λ _, P) E.
Proof.
  intros H. unfold checkpoint. eapply h_bind; [apply h_env|]. intros b. destruct b; [by apply h_poison|by apply h_ret].
Qed.

(** Computations that leave the files and all of the journal but its clock and
    its failure flag alone. *)
Definition clock_free (P : assertion) : Prop := ∀ j f h, P j f → P (set_highWater h j) f.

Lemma h_writeTime (P E : assertion) :
  clock_free P → (∀ j f, P j f → E j f) → hoare P writeTime (λ _, P) E.
Proof.
  intros Hc HE. unfold writeTime. eapply h_bind; [apply h_env|]. intros now. eapply h_bind; [apply h_get_j|]. intros j0.
  cbn zeta. eapply (h_bind _ _ (λ _, P)); [apply h_upd; intros j f [HP _]; exact (Hc _ _ _ HP)|].
  intros []. destruct (_ || _); [by apply h_throw|by apply h_ret].
Qed.

Lemma h_observeTime (P E : assertion) : clock_free P → hoare P observeTime (λ _, P) E.
Proof.
  intros Hc. unfold observeTime. eapply h_bind; [apply h_env|]. intros now. eapply h_bind; [apply h_get_j|]. intros j0.
  eapply (h_bind _ _ (λ _, P)); [apply h_upd; intros j f [HP _]; exact (Hc _ _ _ HP)|]. intros []. by apply h_ret.
Qed.

Lemma h_writerTime (P E : assertion) r b :
  clock_free P → (∀ j f, P j f → E j f) → hoare P (writerTime r b) (λ _, P) E.
Proof.
  intros Hc HE σ HP. pose proof (h_writeTime P E Hc HE σ HP) as H. unfold writerTime.
  destruct (writeTime σ) as [σ' [now|e]]; [|done]. destruct (_ || _); [by apply HE|done].
Qed.

Lemma h_disk_check (P E : assertion) : (∀ j f, P j f → E j f) → hoare P disk_check (λ _, P) E.
Proof.
  intros HE. unfold disk_check. eapply h_bind; [apply h_env|]. intros a; destruct a; [by apply h_ret|by apply h_throw..].
Qed.

Lemma h_disk_read (P E : assertion) name size :
  (∀ j f, P j f → E j f) →
  hoare P (disk_read name size) (λ data j f, P j f ∧ f !! name = Some data ∧ Z.of_nat (length data) = size) E.
Proof.
  intros HE. unfold disk_read. eapply h_bind; [apply h_env|]. intros a; destruct a; [|by apply h_throw..].
  eapply h_bind; [by apply h_guard|]. intros ?. eapply h_bind; [apply h_get_files|]. intros fs.
  destruct (fs !! name) as [data|] eqn:Hf; [|apply h_throw; intros j f [[HP _] _]; by apply HE].
  destruct (Z.of_nat (length data) =? size) eqn:Hl.
  - apply h_ret. intros j f [[HP _] ->]. apply Z.eqb_eq in Hl. done.
  - apply h_throw. intros j f [[HP _] _]. by apply HE.
Qed.

Lemma h_usable (P E : assertion) :
  (∀ j f, P j f → E j f) → (∀ j f, P j f → E (set_failed j) f) →
  hoare P usable (λ _ j f, P j f ∧ failed j = false ∧ closed j = false) E.
Proof.
  intros HE HF. unfold usable. eapply h_bind; [apply h_get_j|]. intros j0.
  eapply h_bind; [apply h_guard; intros j f [HP _]; by apply HE|]. intros ?.
  eapply h_bind; [apply h_env|]. intros e. eapply h_bind; [apply h_guard; intros j f [[HP _] _]; by apply HE|]. intros ?.
  apply h_or_poison. eapply h_post; [apply h_disk_check| |].
  - intros j f H. exact H.
  - intros _ j f [[[HP ->] Hg] _]. apply negb_true_iff, orb_false_iff in Hg as [? ?]. done.
  - intros j f [[[HP ->] _] _]. by apply HF.
Qed.

(** ** Slots on disk *)

Lemma overwrite_length old off data : (off + length data ≤ length old)%nat → length (overwrite old off data) = length old.
Proof. intros H. unfold overwrite. rewrite !length_app, length_take, length_drop. lia. Qed.

Lemma slice_app_l (a b : text) i j : (j ≤ length a)%nat → slice (a ++ b) i j = slice a i j.
Proof.
  intros H. unfold slice. destruct (decide (i ≤ length a)%nat).
  - rewrite drop_app_le by lia. rewrite take_app_le; [done|]. rewrite length_drop. lia.
  - replace (j - i)%nat with 0%nat by lia. done.
Qed.

Lemma slice_app_r (a b : text) i j : (length a ≤ i)%nat → slice (a ++ b) i j = slice b (i - length a) (j - length a).
Proof.
  intros H. unfold slice. rewrite drop_app_ge by lia. f_equal. lia.
Qed.

(** A write that stays inside one slot leaves the other slots alone. *)
Lemma overwrite_other old data size k i :
  (length data ≤ size)%nat → (k * size + length data ≤ length old)%nat → k ≠ i →
  slot (overwrite old (k * size) data) size i = slot old size i.
Proof.
  intros Hd Hl Hne. unfold slot, overwrite.
  assert (length (take (k * size) old) = k * size)%nat as Ht by (rewrite length_take; lia).
  destruct (decide (i < k)%nat) as [Hik|Hik].
  - rewrite slice_app_l by (rewrite Ht; nia). unfold slice. rewrite !take_drop_commute, take_take. do 2 f_equal. nia.
  - rewrite slice_app_r by (rewrite Ht; nia). rewrite slice_app_r by (rewrite Ht; nia). rewrite Ht.
    unfold slice. rewrite drop_drop. f_equal; [nia|]. f_equal. nia.
Qed.

Lemma overwrite_same old data size k :
  length data = size → (k * size + size ≤ length old)%nat → slot (overwrite old (k * size) data) size k = data.
Proof.
  intros Hd Hl. unfold slot, overwrite.
  assert (length (take (k * size) old) = k * size)%nat as Ht by (rewrite length_take; lia).
  rewrite slice_app_r by lia. rewrite Ht. unfold slice. replace (k * size - k * size)%nat with 0%nat by lia.
  rewrite drop_0. replace (S k * size - k * size - 0)%nat with (length data) by (simpl; lia). apply take_app_length.
Qed.

Lemma rec_name_last id : last (rec_name id) = Some "c"%char.
Proof. unfold rec_name. change (txt ".rec") with (txt ".re" ++ ["c"%char]). rewrite app_assoc. apply last_snoc. Qed.
Lemma art_name_last id : last (art_name id) = Some "t"%char.
Proof. unfold art_name. change (txt ".art") with (txt ".ar" ++ ["t"%char]). rewrite app_assoc. apply last_snoc. Qed.
Lemma state_name_last id : last (state_name id) = Some "e"%char.
Proof. unfold state_name. change (txt ".state") with (txt ".stat" ++ ["e"%char]). rewrite app_assoc. apply last_snoc. Qed.

(** Files that are not record files. *)
Definition side_file (name : text) : Prop := last name ≠ Some "c"%char.
Lemma side_art id : side_file (art_name id).
Proof. unfold side_file. by rewrite art_name_last. Qed.
Lemma side_state id : side_file (state_name id).
Proof. unfold side_file. by rewrite state_name_last. Qed.
Lemma side_reservations : side_file (txt "reservations").
Proof. vm_compute. discriminate. Qed.
Lemma side_identity : side_file (txt "identity").
Proof. vm_compute. discriminate. Qed.
Lemma side_ne name id : side_file name → name ≠ rec_name id.
Proof. intros H ->. unfold side_file in H. by rewrite rec_name_last in H. Qed.
Lemma rec_name_inj id id' : rec_name id = rec_name id' → id = id'.
Proof. intros H. by apply (app_inv_tail (txt ".rec")) in H. Qed.

(** Slot [k] of the record file of [id] holds [s], and is not blank. *)
Definition written (f : gmap text text) (id : text) (k : nat) (s : text) : Prop :=
  ∃ data, f !! rec_name id = Some data ∧ length data = recordBytes ∧ (k < slotCount)%nat ∧
    slot data slotBytes k = s ∧ zero s = false.

(** Written slots stay. *)
Definition evolve (f f' : gmap text text) : Prop := ∀ id k s, written f id k s → written f' id k s.

Lemma evolve_refl f : evolve f f.
Proof. by unfold evolve. Qed.
Lemma evolve_trans f1 f2 f3 : evolve f1 f2 → evolve f2 f3 → evolve f1 f3.
Proof. unfold evolve. eauto. Qed.

Lemma evolve_insert_side f name data : side_file name → evolve f (<[name := data]> f).
Proof.
  intros Hs id k s (d & Hd & H). exists d. split; [|done]. rewrite lookup_insert_ne; [done|]. by apply side_ne.
Qed.

Lemma evolve_insert_new f name data : f !! name = None → evolve f (<[name := data]> f).
Proof.
  intros Hn id k s (d & Hd & H). exists d. split; [|done]. rewrite lookup_insert_ne; [done|]. intros ->. congruence.
Qed.

(** The record file of [id] has the full size, and the slot of sequence number
    [q] is blank. *)
Definition ready (id : text) (q : Z) (f : gmap text text) : Prop :=
  ∃ data, f !! rec_name id = Some data ∧ length data = recordBytes ∧ zero (slot data slotBytes (Z.to_nat (q - 1))) = true.

Lemma slot_room q : 1 ≤ q ≤ 8 → (Z.to_nat (q - 1) * slotBytes + slotBytes ≤ recordBytes)%nat ∧ (Z.to_nat (q - 1) < slotCount)%nat.
Proof.
  intros Hq. assert (Z.to_nat (q - 1) ≤ 7)%nat by lia. unfold recordBytes, slotCount. nia.
Qed.

Lemma evolve_write_slot f id q data :
  ready id q f → 1 ≤ q ≤ 8 → (length data ≤ slotBytes)%nat →
  ∀ old, f !! rec_name id = Some old → evolve f (<[rec_name id := overwrite old (Z.to_nat (q - 1) * slotBytes) data]> f).
Proof.
  intros (dd & Hdd & Hlen & Hz) Hq Hd old Hold. assert (dd = old) as -> by congruence.
  destruct (slot_room q Hq) as [Hroom _].
  intros id' k s (d & Hd' & Hlen' & Hk & Hs & Hzs). destruct (decide (rec_name id' = rec_name id)) as [He|Hne].
  - rewrite He in Hd'. assert (d = old) as -> by congruence.
    exists (overwrite old (Z.to_nat (q - 1) * slotBytes) data). rewrite He.
    split; [apply lookup_insert_eq|]. split; [rewrite overwrite_length; [done|lia]|]. split; [done|].
    rewrite overwrite_other; [done|done|lia|]. intros <-. rewrite <- Hs in Hzs. by rewrite Hz in Hzs.
  - exists d. split; [|done]. by rewrite lookup_insert_ne.
Qed.

Lemma write_slot_written f id q data :
  ready id q f → 1 ≤ q ≤ 8 → length data = slotBytes → zero data = false →
  ∀ old, f !! rec_name id = Some old →
  written (<[rec_name id := overwrite old (Z.to_nat (q - 1) * slotBytes) data]> f) id (Z.to_nat (q - 1)) data.
Proof.
  intros (dd & Hdd & Hlen & Hz) Hq Hd Hzd old Hold. assert (dd = old) as -> by congruence.
  destruct (slot_room q Hq) as [Hroom Hk]. eexists. split; [apply lookup_insert_eq|].
  split; [rewrite overwrite_length; [done|lia]|]. split; [done|]. split; [apply overwrite_same; [done|lia]|done].
Qed.

Lemma h_allocate (P E : assertion) (Q : unit → assertion) name size :
  (∀ j f, P j f → E j f) →
  (∀ j f d, P j f → f !! name = None → E j (<[name := d]> f)) →
  (∀ j f, P j f → f !! name = None → Q tt j (<[name := replicate (Z.to_nat size) NUL]> f)) →
  hoare P (disk_allocate name size) Q E.
Proof.
  intros HE HF HQ. unfold disk_allocate. eapply h_bind; [apply h_env|]. intros a.
  eapply h_bind; [apply h_get_files|]. intros fs. destruct (_ || bool_decide _) eqn:Hc.
  { apply h_throw. intros j f [HP _]. by apply HE. }
  apply orb_false_iff in Hc as [_ Hc%bool_decide_eq_false_1]. apply eq_None_not_Some in Hc.
  destruct a as [| |k].
  - apply h_set_files. intros j f [HP ->]. by apply HQ.
  - apply h_throw. intros j f [HP _]. by apply HE.
  - eapply (h_bind _ _ (λ _ j f, E j f)); [|intros ?; by apply h_throw].
    apply h_set_files. intros j f [HP ->]. by apply HF.
Qed.

Lemma h_write (P E : assertion) (Q : unit → assertion) name off data :
  (∀ j f, P j f → E j f) →
  (∀ j f old k, P j f → f !! name = Some old → 0 ≤ off → off + Z.of_nat (length data) ≤ Z.of_nat (length old) →
     E j (<[name := overwrite old (Z.to_nat off) (take k data)]> f)) →
  (∀ j f old, P j f → f !! name = Some old → 0 ≤ off → off + Z.of_nat (length data) ≤ Z.of_nat (length old) →
     Q tt j (<[name := overwrite old (Z.to_nat off) data]> f)) →
  hoare P (disk_write name off data) Q E.
Proof.
  intros HE HF HQ. unfold disk_write. eapply h_bind; [apply h_env|]. intros a.
  eapply h_bind; [apply h_get_files|]. intros fs.
  destruct (fs !! name) as [old|] eqn:Hold; [|apply h_throw; intros j f [HP _]; by apply HE].
  cbn zeta. destruct (_ || (_ - off <? _)) eqn:Hc.
  { apply h_throw. intros j f [HP _]. by apply HE. }
  bool_hyps. destruct a as [| |k].
  - apply h_set_files. intros j f [HP ->]. apply HQ; try done. lia.
  - apply h_throw. intros j f [HP _]. by apply HE.
  - eapply (h_bind _ _ (λ _ j f, E j f)); [|intros ?; by apply h_throw].
    apply h_set_files. intros j f [HP ->]. apply HF; try done. lia.
Qed.

(** ** Slots are written once

    Every operation runs from files [f0] to files [f] with [evolve f0 f]. *)

(** What the JSON codecs are relied on for. *)
Context `{!JsonLaws snapshot encodable_snapshot, !JsonLaws reservationEntry encodable_entry,
          !JsonLaws stateCommitment encodable_commitment, !JsonLaws header encodable_header}.

(** ** What a record file that loads contains *)

(** The slots of [data] below [i] hold the history [hs] (newest first), then
    blanks. *)
Definition stored (data id : text) (hs : list JournalRecord) (i : nat) : Prop :=
  (length hs ≤ i)%nat ∧
  (∀ k r, reverse hs !! k = Some r → zero (slot data slotBytes k) = false ∧ OperationID r = id ∧
     ∃ snap, decodeSlot sha256 (slot data slotBytes k) = Some snap ∧ SRecord snap = r) ∧
  (∀ k, (length hs ≤ k < i)%nat → zero (slot data slotBytes k) = true).

Abbreviation hist := (history sha256 digestTicket marshalBinding).

Lemma stored_blank data id hs i : stored data id hs i → zero (slot data slotBytes i) = true → stored data id hs (S i).
Proof.
  intros (Hl & Hs & Hb) Hz. split_and!; [lia|done|]. intros k Hk. destruct (decide (k = i)) as [->|]; [done|].
  apply Hb. lia.
Qed.

Lemma stored_next data id hs i snap :
  stored data id hs i → length hs = i → zero (slot data slotBytes i) = false →
  decodeSlot sha256 (slot data slotBytes i) = Some snap → OperationID (SRecord snap) = id →
  stored data id (SRecord snap :: hs) (S i).
Proof.
  intros (Hl & Hs & Hb) Hi Hz Hd Hid. split_and!; [simpl; lia| |simpl; lia].
  intros k r. rewrite reverse_cons, lookup_snoc_Some, length_reverse. intros [[Hk Hr]|[-> <-]]; [by apply Hs|].
  rewrite Hi. eauto.
Qed.

Lemma load_loop_spec id data commitments n i current empty hs r :
  (i + n)%nat = slotCount →
  (hs = [] ∧ current = zero_record ∨ ∃ hs', hs = current :: hs' ∧ hist hs) →
  stored data id hs i → (empty = false → length hs = i) →
  load_loop id data commitments (seq i n) current empty = Ok r →
  ∃ hs', hist (r :: hs') ∧ stored data id (r :: hs') slotCount.
Proof.
  revert i current empty hs. induction n as [|n IH]; intros i current empty hs Hn Hc Hs He H; cbn [seq load_loop] in H.
  - rewrite Nat.add_0_r in Hn. subst i. destruct (Sequence current =? 0) eqn:Hz; [done|]. injection H as <-.
    destruct Hc as [[-> ->]|(hs' & -> & Hh)]; [done|]. eauto.
  - destruct (zero (slot data slotBytes i)) eqn:Hz.
    + destruct (negb (zero _)); [done|].
      apply (IH (S i) current true hs); [lia|done|by apply stored_blank|done|done].
    + destruct empty; [done|]. destruct (decodeSlot sha256 _) as [snap|] eqn:Hd; [|done].
      destruct (_ || negb (validateRecord _ _ _ _)) eqn:Hg; [done|]. bool_hyps.
      destruct (decodeFrame _ _ _) as [com|]; [|done]. destruct (negb (bool_decide _)); [done|].
      destruct (_ || (0 <? i)%nat && _) eqn:Hchain; [done|].
      apply (IH (S i) (SRecord snap) false (SRecord snap :: hs)); [lia| | | |exact H].
      * right. exists hs. split; [reflexivity|]. apply orb_false_iff in Hchain as [Hq0 Hq1].
        destruct Hc as [[-> ->]|(hs' & -> & Hh)].
        -- specialize (He eq_refl). simpl in He. subst i. cbn [Nat.eqb andb] in Hq0. bool_hyps.
           match goal with H : eqt (BindingSHA256 _) [] = true |- _ => apply bool_decide_eq_true_1 in H end.
           match goal with H : eqt (Phase _) _ = true |- _ => apply bool_decide_eq_true_1 in H end.
           by apply history_issued.
        -- specialize (He eq_refl). simpl in He. subst i. cbn [Nat.ltb Nat.leb andb] in Hq1. apply negb_false_iff in Hq1.
           apply history_next; assumption.
      * apply stored_next; [exact Hs|by apply He|exact Hz|exact Hd|].
        match goal with H : eqt _ id = true |- _ => apply bool_decide_eq_true_1 in H; exact H end.
      * intros _. simpl. by rewrite He.
Qed.

Definition loaded (id : text) (r : JournalRecord) (f : gmap text text) : Prop :=
  ∃ data hs, f !! rec_name id = Some data ∧ length data = recordBytes ∧ hist (r :: hs) ∧ stored data id (r :: hs) slotCount.

Lemma h_loadRecord (P E : assertion) id :
  (∀ j f, P j f → E j f) → hoare P (loadRecord id) (λ r j f, P j f ∧ loaded id r f) E.
Proof.
  intros HE. unfold loadRecord. eapply h_bind; [by apply h_or_unavailable, h_disk_read|]. intros data.
  eapply h_bind; [apply h_or_unavailable, h_disk_read; intros j f [HP _]; by apply HE|]. intros commitments.
  eapply h_post; [apply h_lift| |].
  - intros j f H. exact H.
  - intros r j f [[[HP [Hf Hl]] _] Hload]. split; [done|].
    apply (load_loop_spec _ _ _ 8 0 zero_record false []) in Hload as (hs & Hh & Hst); [|done|by left|split_and!; [simpl; lia|done|lia]|done].
    exists data, hs. split_and!; try done. lia.
  - intros j f [[HP _] _]. by apply HE.
Qed.

Section reads.
Variables P E : assertion.
Hypothesis HE : ∀ j f, P j f → E j f.
Hypothesis HF : ∀ j f, P j f → E (set_failed j) f.

Lemma h_readReservations : hoare P readReservations (λ _, P) E.
Proof.
  unfold readReservations. eapply h_bind; [apply h_get_j|]. intros j0.
  eapply h_bind; [apply h_or_unavailable, h_disk_read; intros j f [HP _]; by apply HE|]. intros data.
  eapply h_post; [apply h_lift; intros j f H; exact H|..]; cbn beta; by intuition.
Qed.
End reads.

Lemma h_checkReservations (P E : assertion) :
  (∀ j f, P j f → E j f) → (∀ j f, P j f → E (set_failed j) f) → hoare P checkReservations (λ _, P) E.
Proof.
  intros HE HF. unfold checkReservations. apply h_or_poison.
  eapply h_bind; [apply h_readReservations; exact HF|]. intros entries.
  eapply h_bind; [apply h_get_j|]. intros j0.
  eapply h_post; [apply h_guard; intros j f H; exact H|..]; cbn beta.
  - intros _ j f [[HP _] _]. exact HP.
  - intros j f [HP _]. by apply HF.
Qed.

(** [lookup] returns the cached record, which is the one on disk, to its owner. *)
Lemma h_lookup (P E : assertion) owner id :
  (∀ j f, P j f → E j f) → (∀ j f, P j f → E (set_failed j) f) →
  hoare P (lookup owner id) (λ r j f, P j f ∧ failed j = false ∧ closed j = false ∧ records j !! id = Some r ∧ loaded id r f ∧
    ROwner (Reserved r) = owner) E.
Proof.
  intros HE HF. unfold lookup. eapply h_bind; [by apply h_usable|]. intros ?.
  eapply h_bind; [apply h_get_j|]. intros j0.
  destruct (records j0 !! id) as [r|] eqn:Hr; [|apply h_throw; intros j f [[HP _] _]; by apply HE].
  set (P1 := λ j f, (P j f ∧ failed j = false ∧ closed j = false ∧ j0 = j) ∧ ROwner (Reserved r) = owner).
  eapply (h_bind _ _ (λ _, P1)).
  { eapply h_post; [apply h_guard; intros j f H; exact H|..]; cbn beta.
    - intros _ j f [[(HP & Hf & Hc) ->] Hg]. bool_hyps. done.
    - intros j f [(HP & _) _]. by apply HE. }
  intros ?. eapply (h_bind _ _ (λ _, P1)); [apply h_checkReservations; intros j f [[HP _] _]; by auto|]. intros ?.
  eapply (h_bind _ _ (λ r' j f, P1 j f ∧ loaded id r' f)).
  { apply h_or_poison, h_loadRecord. intros j f [[HP _] _]. by apply HF. }
  intros onDisk. eapply (h_bind _ _ (λ _ j f, (P1 j f ∧ loaded id onDisk f) ∧ bool_decide (onDisk = r) = true)).
  { apply h_or_poison, h_guard. intros j f [[[HP _] _] _]. by apply HF. }
  intros ?. apply h_ret. intros j f [[[(HP & Hf & Hc & ->) Ho] Hl] ->%bool_decide_eq_true_1]. done.
Qed.

Lemma h_compare (P E : assertion) expected :
  (∀ j f, P j f → E j f) → (∀ j f, P j f → E (set_failed j) f) →
  hoare P (compare expected) (λ r j f, P j f ∧ failed j = false ∧ closed j = false ∧ records j !! COperationID expected = Some r ∧
    loaded (COperationID expected) r f ∧ ROwner (Reserved r) = COwner expected ∧ BindingSHA256 r ≠ []) E.
Proof.
  intros HE HF. unfold compare. eapply h_bind; [by apply h_lookup|]. intros r. cbn beta.
  eapply (h_bind _ _ (λ _ j f, (P j f ∧ failed j = false ∧ closed j = false ∧ records j !! COperationID expected = Some r ∧
    loaded (COperationID expected) r f ∧ ROwner (Reserved r) = COwner expected) ∧ BindingSHA256 r ≠ [])).
  - eapply h_post; [apply h_guard; intros j f H; exact H|..]; cbn beta.
    + intros _ j f [H Hg]. split; [exact H|]. apply negb_true_iff, orb_false_iff in Hg as [[_ Hg1]%orb_false_iff Hg2].
      apply negb_false_iff in Hg2. apply bool_decide_eq_true_1 in Hg2. apply bool_decide_eq_false_1 in Hg1. congruence.
    + intros j f (HP & _). by apply HE.
  - intros ?. apply h_ret. tauto.
Qed.

Lemma h_artifact (P E : assertion) r : (∀ j f, P j f → E (set_failed j) f) → hoare P (artifact r) (λ _, P) E.
Proof.
  intros HF. unfold artifact. apply h_or_poison. eapply h_bind; [by apply h_disk_read|]. intros data. cbn zeta.
  eapply h_bind; [apply h_guard; intros j f [HP _]; by apply HF|]. intros ?. apply h_ret. by intros j f [[HP _] _].
Qed.

(** The next slot of a loaded record is blank. *)
Lemma loaded_ready id r f : loaded id r f → OperationID r = id ∧ ready id (Sequence r + 1) f.
Proof.
  intros (data & hs & Hf & Hl & Hh & _ & Hst & Hb). destruct (history_rank _ _ _ _ _ Hh) as [Hseq Hrk].
  pose proof (phase_rank_le r). split.
  - destruct (Hst (length hs) r) as (_ & Hid & _); [|done]. rewrite reverse_cons. rewrite lookup_app_r; rewrite length_reverse; [|done].
    by rewrite Nat.sub_diag.
  - exists data. split_and!; [done|done|]. apply Hb. unfold slotCount. lia.
Qed.

(** Some written slot of [id] records a dispatch claim. *)
Definition claimed (f : gmap text text) (id : text) : Prop :=
  ∃ k s snap, written f id k s ∧ decodeSlot sha256 s = Some snap ∧ DispatchClaimed (SRecord snap) = true.

Lemma history_claim_mono r hs x : hist (r :: hs) → x ∈ r :: hs → DispatchClaimed x = true → DispatchClaimed r = true.
Proof.
  remember (r :: hs) as l eqn:Hl. intros H. revert r hs Hl. induction H as [r|r b rs Hh IH Hv Hs]; intros r' rs' [= <- <-] Hin Hx.
  - apply list_elem_of_singleton in Hin. by subst.
  - apply elem_of_cons in Hin as [->|Hin]; [done|]. pose proof (history_head _ _ _ _ _ Hh) as Hvb.
    pose proof (validSuccessor_inv _ _ _ _ _ Hvb Hs) as Hsc. rewrite (sc_claim _ _ Hsc).
    by rewrite (IH _ _ eq_refl Hin Hx).
Qed.

Lemma loaded_claimed id r f : loaded id r f → claimed f id → DispatchClaimed r = true.
Proof.
  intros (data & hs & Hf & Hl & Hh & _ & Hst & Hb) (k & s & snap & (data' & Hf' & _ & Hk & <- & Hz) & Hd & Hc).
  assert (data' = data) as -> by congruence.
  destruct (decide (k < length (r :: hs))%nat) as [Hlt|Hge]; [|rewrite (Hb k) in Hz; [done|lia]].
  rewrite <- length_reverse in Hlt. apply lookup_lt_is_Some_2 in Hlt as [x Hx].
  destruct (Hst k x Hx) as (_ & _ & snap' & Hd' & Hxs). assert (snap' = snap) as -> by congruence.
  apply (history_claim_mono r hs x); [done| |by rewrite <- Hxs].
  apply list_elem_of_lookup_2 in Hx. by rewrite elem_of_reverse in Hx.
Qed.

Lemma claimed_evolve f f' id : evolve f f' → claimed f id → claimed f' id.
Proof. intros He (k & s & snap & Hw & H). exists k, s, snap. split; [by apply He|done]. Qed.

(** [guard_m] and [lift] keep what is known before them. *)
Lemma h_guard_keep (P E : assertion) c e : (∀ j f, P j f → E j f) → hoare P (guard_m c e) (λ _, P) E.
Proof. intros HE. eapply h_post; [by apply h_guard|..]; cbn beta; by intuition. Qed.
Lemma h_lift_keep {A : Type} (P E : assertion) (r : result jerr A) : (∀ j f, P j f → E j f) → hoare P (lift r) (λ _, P) E.
Proof. intros HE. eapply h_post; [by apply h_lift|..]; cbn beta; by intuition. Qed.
Lemma h_get_keep (P E : assertion) : hoare P get_j (λ _, P) E.
Proof. eapply h_post; [apply h_get_j|..]; cbn beta; [by intuition|]. intros j f H. exact H. Qed.
Lemma h_upd_keep (P E : assertion) g : (∀ j f, P j f → P (g j) f) → hoare P (upd_j g) (λ _, P) E.
Proof. intros H. by apply h_upd. Qed.

Section evolve.
Variable f0 : gmap text text.

Definition ev : assertion := λ _ f, evolve f0 f.

Lemma h_allocate_ev (P : assertion) (Q : unit → assertion) name size :
  (∀ j f, P j f → evolve f0 f) →
  (∀ j f, P j f → f !! name = None → Q tt j (<[name := replicate (Z.to_nat size) NUL]> f)) →
  hoare P (disk_allocate name size) Q ev.
Proof.
  intros HP HQ. apply h_allocate; [done| |done]. intros j f d Hp Hn. eapply evolve_trans; [by eapply HP|].
  by apply evolve_insert_new.
Qed.

Lemma h_write_side (P : assertion) (Q : unit → assertion) name off data :
  side_file name → (∀ j f, P j f → evolve f0 f) →
  (∀ j f d, P j f → Q tt j (<[name := d]> f)) → hoare P (disk_write name off data) Q ev.
Proof.
  intros Hs HP HQ. apply h_write; [done| |eauto]. intros j f old k Hp _ _ _.
  eapply evolve_trans; [by eapply HP|]. by apply evolve_insert_side.
Qed.

(** Assertions on the files that writing the record [id] and the side files
    preserves. *)
Definition framed (id : text) (R : gmap text text → Prop) : Prop :=
  (∀ f d, R f → R (<[rec_name id := d]> f)) ∧ (∀ f name d, side_file name → R f → R (<[name := d]> f)).

Lemma h_commitState_ev (P : assertion) r s :
  (∀ j f, P j f → evolve f0 f) → (∀ j f name d, side_file name → P j f → P j (<[name := d]> f)) →
  hoare P (commitState r s) (λ _, P) ev.
Proof.
  intros HP Hside. unfold commitState.
  eapply h_bind; [apply h_or_poison, h_checkpoint; intros j f Hp; by apply (HP j)|]. intros ?.
  eapply (h_bind _ _ (λ _, P)).
  - apply h_or_poison. destruct (encodeFrame _ _ _); [|apply h_throw; intros j f Hp; by apply (HP j)].
    apply h_write_side; [apply side_state|done|]. intros j f d Hp. apply Hside; [apply side_state|done].
  - intros ?. apply h_checkpoint. intros j f Hp. by apply (HP j).
Qed.

(** [persist] of a record whose slot is blank writes exactly that slot. *)
Lemma h_persist_ev (r : JournalRecord) (R : gmap text text → Prop) (J : Journal → Prop) :
  framed (OperationID r) R →
  hoare (λ j f, evolve f0 f ∧ ready (OperationID r) (Sequence r) f ∧ R f ∧ J j)
    (persist r)
    (λ _ j f, evolve f0 f ∧ R f ∧
       (∃ j0 h, J j0 ∧ j = set_highWater h (set_record (OperationID r) r j0)) ∧
       (∃ data, encodeSlot sha256 {| SVersion := 1; SRecord := r |} = Some data ∧
          written f (OperationID r) (Z.to_nat (Sequence r - 1)) data) ∧
       validateRecord sha256 digestTicket marshalBinding r = true)
    ev.
Proof.
  intros [HR1 HR2]. unfold persist.
  eapply h_bind; [apply h_or_poison, h_guard; by intros j f (? & _)|]. intros ?.
  eapply h_bind; [apply h_get_j|]. intros j0.
  eapply h_bind; [apply h_or_poison, h_guard; by intros j f [[(? & _) _] _]|]. intros ?.
  destruct (validateRecord sha256 digestTicket marshalBinding r) eqn:Hv; cycle 1.
  { intros σ [[[_ H] _] _]. done. }
  pose proof (proj1 (proj2 (proj2 (validateRecord_inv _ _ _ _ Hv)))) as Hq.
  set (id := OperationID r). set (k := Z.to_nat (Sequence r - 1)).
  destruct (encodeSlot sha256 {| SVersion := 1; SRecord := r |}) as [data|] eqn:Henc; cycle 1.
  { eapply (h_bind _ _ (λ _ _ _, False)); [apply h_or_poison, h_throw; by intros j f [[[(? & _) _] _] _]|]. by intros ? ? []. }
  assert (length data = slotBytes) as Hlen by (exact (encodeFrame_length sha256 _ _ _ Henc)).
  assert (zero data = false) as Hz.
  { refine (proj2 (decode_encode sha256 (encodable := encodable_snapshot) {| SVersion := 1; SRecord := r |} slotBytes data _ Henc)).
    by eapply validateRecord_encodable. }
  assert (Z.to_nat ((Sequence r - 1) * Z.of_nat slotBytes) = (k * slotBytes)%nat) as Hoff by (unfold k; nia).
  eapply (h_bind _ _ (λ d j f, d = data ∧ evolve f0 f ∧ R f ∧ J j ∧ written f id k data)).
  - apply h_or_poison. eapply (h_bind _ _ (λ _ j f, evolve f0 f ∧ R f ∧ J j ∧ written f id k data)).
    + apply h_write.
      * by intros j f [[[(? & _) _] _] _].
      * intros j f old c [[[(He & Hr & _ & _) _] _] _] Hold _ _. rewrite Hoff. eapply evolve_trans; [exact He|].
        apply evolve_write_slot; [done|done| |done]. rewrite length_take. lia.
      * intros j f old [[[(He & Hr & HRf & HJ) _] _] _] Hold _ _. rewrite Hoff. split_and!; [|by apply HR1|done|].
        -- eapply evolve_trans; [exact He|]. apply evolve_write_slot; [done|done|lia|done].
        -- by apply write_slot_written.
    + intros ?. apply h_ret. naive_solver.
  - intros d. eapply (h_bind _ _ (λ _ j f, d = data ∧ evolve f0 f ∧ R f ∧ J j ∧ written f id k data)).
    + apply h_commitState_ev; [by intros j f (_ & ? & _)|]. intros j f name d' Hs (-> & He & HRf & HJ & Hw).
      split_and!; [done| |by apply HR2|done|by apply (evolve_insert_side f)].
      eapply evolve_trans; [exact He|]. by apply evolve_insert_side.
    + intros ?. eapply (h_bind _ _ (λ _ j f, evolve f0 f ∧ R f ∧ (∃ j0, J j0 ∧ j = set_record id r j0) ∧ written f id k data)).
      * apply h_upd. intros j f (-> & He & HRf & HJ & Hw). split_and!; try done. by exists j.
      * intros ?. eapply h_bind; [apply h_get_j|]. intros j1. apply h_upd.
        intros j f [(He & HRf & (j2 & HJ & ->) & Hw) ->]. split_and!; try done; [by eexists _, _|by exists data].
Qed.

Lemma framed_true id : framed id (λ _, True).
Proof. done. Qed.

(** The states a record operation passes through before it persists. *)
Definition at_record (id : text) (r : JournalRecord) : assertion := λ _ f, evolve f0 f ∧ loaded id r f.

Lemma h_persist_record (P : assertion) id r next :
  (∀ j f, P j f → evolve f0 f ∧ loaded id r f) → OperationID next = OperationID r → Sequence next = Sequence r + 1 →
  hoare P (persist next) (λ _ _ f, evolve f0 f ∧ (DispatchClaimed next = true → claimed f id)) (ev).
Proof.
  intros HP Hid Hseq. apply (h_pure (OperationID r = id)).
  { intros j f Hp. by apply (loaded_ready id r f), HP with j. }
  intros <-. eapply h_pre; [|eapply h_post; [apply (h_persist_ev next (λ _, True) (λ _, True)), framed_true|..]].
  - intros j f Hp. destruct (HP j f Hp) as [He Hl]. destruct (loaded_ready _ _ _ Hl) as [_ Hr].
    rewrite Hid, Hseq. done.
  - intros _ j f (He & _ & _ & (data & Henc & Hw) & Hv). split; [exact He|]. intros Hc.
    exists (Z.to_nat (Sequence next - 1)), data, {| SVersion := 1; SRecord := next |}. rewrite Hid in Hw.
    split; [exact Hw|]. split; [|exact Hc].
    refine (proj1 (decode_encode sha256 (encodable := encodable_snapshot) {| SVersion := 1; SRecord := next |} slotBytes data _ Henc)).
    by eapply validateRecord_encodable.
  - by intros j f H.
Qed.

Lemma h_lookup_ev owner id : hoare ev (lookup owner id) (λ r, at_record id r) ev.
Proof. eapply h_post; [apply h_lookup; by intros|..]; cbn beta; [by intros r j f (? & _ & _ & _ & ? & _)|done]. Qed.

Lemma h_compare_ev expected : hoare ev (compare expected) (λ r, at_record (COperationID expected) r) ev.
Proof. eapply h_post; [apply h_compare; by intros|..]; cbn beta; [by intros r j f (? & _ & _ & _ & ? & _)|done]. Qed.

Lemma at_record_clock id r : clock_free (at_record id r).
Proof. by intros j f h. Qed.
Lemma at_record_ev id r j f : at_record id r j f → ev j f.
Proof. by intros []. Qed.
Lemma at_record_side id r j f name d : side_file name → at_record id r j f → at_record id r j (<[name := d]> f).
Proof.
  intros Hs [He (data & hs & Hf & H)]. split; [by eapply evolve_trans; [|apply evolve_insert_side]|].
  exists data, hs. split; [|exact H]. rewrite lookup_insert_ne; [done|]. by apply side_ne.
Qed.

Lemma h_checkpoint_ev p : hoare ev (checkpoint p) (λ _, ev) ev.
Proof. by apply h_checkpoint. Qed.

Lemma h_save_ev (P : assertion) id r next p :
  (∀ j f, P j f → at_record id r j f) → OperationID next = OperationID r → Sequence next = Sequence r + 1 →
  hoare P (save next p) (λ _ _ f, evolve f0 f ∧ (DispatchClaimed next = true → claimed f id)) ev.
Proof.
  intros HP Hid Hseq. unfold save. eapply h_bind; [by apply (h_persist_record P id r)|]. intros ?.
  eapply h_bind; [apply h_checkpoint; by intros j f []|]. intros ?. apply h_ret. done.
Qed.

Lemma Bind_ev owner id intent : hoare ev (Bind owner id intent) (λ _, ev) ev.
Proof.
  unfold Bind. eapply h_bind; [apply h_lookup_ev|]. intros r. destruct (negb _).
  { destruct (bool_decide _); [apply h_ret|apply h_throw]; by intros j f []. }
  eapply h_bind; [apply h_writerTime; [apply at_record_clock|apply at_record_ev]|]. intros now.
  eapply h_bind; [apply h_lift_keep, at_record_ev|]. intros binding.
  eapply h_bind; [apply h_get_keep|]. intros j0.
  eapply h_post; [by apply (h_save_ev _ id r)|..]; [by intros ? j f []|done].
Qed.

Lemma Admit_ev expected art sha : hoare ev (Admit expected art sha) (λ _, ev) ev.
Proof.
  unfold Admit. eapply h_bind; [apply h_compare_ev|]. intros r. set (id := COperationID expected).
  eapply h_bind; [apply h_guard_keep, at_record_ev|]. intros ?.
  eapply h_bind; [apply h_writerTime; [apply at_record_clock|apply at_record_ev]|]. intros now.
  eapply h_bind; [apply h_guard_keep, at_record_ev|]. intros ?.
  eapply h_bind; [apply h_get_keep|]. intros j0.
  eapply h_bind; [apply h_guard_keep, at_record_ev|]. intros ?.
  eapply (h_bind _ _ (λ _, at_record id r)).
  { apply h_or_poison. eapply h_bind; [apply h_disk_read, at_record_ev|]. intros before.
    eapply h_post; [apply h_guard_keep; intros j f [H _]; exact (at_record_ev _ _ _ _ H)|..]; cbn beta; [by intros _ j f []|done]. }
  intros ?. eapply (h_bind _ _ (λ _, at_record id r)).
  { apply h_or_poison. eapply (h_bind _ _ (λ _, at_record id r)).
    - apply h_write_side; [apply side_art|by intros j f []|]. intros j f d. apply at_record_side, side_art.
    - intros ?. apply h_checkpoint. by intros j f []. }
  intros ?. eapply h_bind; [apply h_get_keep|]. intros j1. cbn zeta.
  eapply (h_bind _ _ (λ _, ev)).
  { eapply h_post; [by apply (h_persist_record _ id r)|..]; [by intros ? j f []|done]. }
  intros ?. eapply h_bind; [by apply h_upd_keep|]. intros ?.
  eapply h_bind; [apply h_or_unavailable, h_checkpoint_ev|]. intros ?. by apply h_ret.
Qed.

(** A granted dispatch leaves a durable claim where there was none. *)
Lemma ClaimDispatch_ev expected :
  hoare (λ _ f, f = f0) (ClaimDispatch expected)
    (λ r _ f, evolve f0 f ∧ OperationID r = COperationID expected ∧ ¬ claimed f0 (COperationID expected) ∧
              claimed f (COperationID expected)) ev.
Proof.
  unfold ClaimDispatch. set (id := COperationID expected).
  eapply h_bind; [apply h_compare; intros j f ->; apply evolve_refl|]. intros r. cbn beta.
  eapply (h_bind _ _ (λ _ j f, f = f0 ∧ loaded id r f)).
  { eapply h_post; [apply h_get_keep|..]; cbn beta; [by intros ? j f (-> & _ & _ & _ & Hl & _)|]. intros j f H. exact H. }
  intros j0. eapply (h_bind _ _ (λ _ j f, at_record id r j f ∧ OperationID r = id ∧ ¬ claimed f0 id)).
  { eapply h_post; [apply (h_guard _ ev); intros j f [-> _]; apply evolve_refl|..]; cbn beta; [|done].
    intros _ j f [[-> Hl] Hg]. apply negb_true_iff, orb_false_iff in Hg as [[_ Hd]%orb_false_iff _].
    split; [split; [apply evolve_refl|exact Hl]|]. split; [by apply (loaded_ready id r f0)|]. intros Hc. by rewrite (loaded_claimed _ _ _ Hl Hc) in Hd. }
  intros ?. apply (h_pure (OperationID r = id ∧ ¬ claimed f0 id)); [by intros j f [_ H]|]. intros [Hid Hnc].
  eapply h_pre; [intros j f [H _]; exact H|].
  eapply h_bind; [apply h_artifact, at_record_ev|]. intros ?.
  eapply h_bind; [apply h_writerTime; [apply at_record_clock|apply at_record_ev]|]. intros now.
  eapply h_bind; [apply h_get_keep|]. intros j1. cbn zeta.
  eapply (h_bind _ _ (λ _ _ f, evolve f0 f ∧ claimed f id)).
  { eapply h_post; [by apply (h_save_ev _ id r)|..]; [|done]. intros ? j f [He Hc]. split; [done|by apply Hc]. }
  intros ?. eapply h_bind; [apply h_writerTime; [by intros j f h|by intros j f []]|]. intros ?.
  eapply h_bind; [apply h_env|]. intros e. eapply h_bind; [apply h_guard_keep; by intros j f []|]. intros ?.
  apply h_ret. by intros j f [He Hc].
Qed.

Lemma Complete_ev expected completion : hoare ev (Complete expected completion) (λ _, ev) ev.
Proof.
  unfold Complete. eapply h_bind; [apply h_compare_ev|]. intros r. set (id := COperationID expected).
  destruct (_ && negb (eqt (Phase r) PhaseNone)); [apply h_ret; by intros j f []|].
  eapply h_bind; [apply h_observeTime, at_record_clock|]. intros recorded. cbn zeta.
  eapply h_bind; [apply h_guard_keep, at_record_ev|]. intros ?.
  eapply h_bind; [apply h_guard_keep, at_record_ev|]. intros ?.
  eapply (h_bind _ _ (λ _, ev)).
  { eapply h_post; [by apply (h_persist_record _ id r)|..]; [by intros ? j f []|done]. }
  intros ?. eapply (h_bind _ _ (λ _, ev)); [destruct (eqt _ _); [by apply h_ret|by apply h_upd_keep]|].
  intros ?. eapply h_bind; [apply h_or_unavailable, h_checkpoint_ev|]. intros ?. by apply h_ret.
Qed.

Lemma Lookup_ev owner id : hoare ev (Lookup owner id) (λ _, ev) ev.
Proof.
  unfold Lookup. eapply h_bind; [apply h_lookup_ev|]. intros r.
  eapply h_bind; [apply h_observeTime, at_record_clock|]. intros t.
  eapply h_bind; [apply h_guard_keep, at_record_ev|]. intros ?. apply h_ret. by intros j f [].
Qed.

Lemma ReadArtifact_ev owner id : hoare ev (ReadArtifact owner id) (λ _, ev) ev.
Proof.
  unfold ReadArtifact. eapply h_bind; [apply h_lookup_ev|]. intros r.
  eapply h_bind; [apply h_observeTime, at_record_clock|]. intros t.
  eapply h_bind; [apply h_guard_keep, at_record_ev|]. intros ?.
  eapply h_post; [apply (h_artifact (at_record id r) ev), at_record_ev|..]; [by intros ? j f []|done].
Qed.

Lemma Fenced_ev target : hoare ev (Fenced target) (λ _, ev) ev.
Proof.
  unfold Fenced. eapply h_bind; [by apply h_usable|]. intros ?.
  eapply h_bind; [apply h_guard_keep; by intros j f []|]. intros ?.
  eapply h_bind; [apply h_get_keep|]. intros ?. apply h_ret. by intros j f [].
Qed.

Definition at_ready (id : text) : assertion := λ _ f, evolve f0 f ∧ ready id 1 f.

Lemma ready_insert id q f name d : name ≠ rec_name id → ready id q f → ready id q (<[name := d]> f).
Proof. intros Hn (data & Hf & H). exists data. split; [by rewrite lookup_insert_ne|done]. Qed.

Lemma at_ready_insert id j f name d :
  name ≠ rec_name id → evolve f (<[name := d]> f) → at_ready id j f → at_ready id j (<[name := d]> f).
Proof. intros Hn He [H1 H2]. split; [by eapply evolve_trans|by apply ready_insert]. Qed.

Lemma ready_fresh id f : ready id 1 (<[rec_name id := replicate (Z.to_nat (Z.of_nat recordBytes)) NUL]> f).
Proof.
  eexists. split; [apply lookup_insert_eq|]. rewrite Nat2Z.id. split; [apply length_replicate|].
  unfold slot, slice. rewrite drop_replicate, take_replicate. apply zero_replicate.
Qed.

Lemma h_allocate_ready id name size : side_file name →
  hoare (at_ready id) (disk_allocate name size) (λ _, at_ready id) ev.
Proof.
  intros Hs. apply h_allocate_ev; [by intros j f []|]. intros j f H Hn.
  apply at_ready_insert; [by apply side_ne|by apply evolve_insert_new|done].
Qed.

Lemma h_indexReservation_ev id r : hoare (at_ready id) (indexReservation r) (λ _, at_ready id) ev.
Proof.
  unfold indexReservation. eapply (h_bind _ _ (λ _, at_ready id)).
  - apply h_or_poison. eapply h_bind; [apply h_checkReservations; by intros j f []|]. intros ?.
    eapply h_bind; [apply h_get_keep|]. intros j0. apply h_guard_keep. by intros j f [].
  - intros ?. eapply h_bind; [apply h_get_keep|]. intros j0. cbn zeta. eapply (h_bind _ _ (λ _, at_ready id)).
    + apply h_or_poison. destruct (encodeFrame _ _ _); [|apply h_throw; by intros j f []].
      apply h_write_side; [apply side_reservations|by intros j f []|]. intros j f d H.
      apply at_ready_insert; [apply side_ne, side_reservations|apply evolve_insert_side, side_reservations|done].
    + intros ?. eapply h_bind; [by apply h_upd_keep|]. intros ?. apply h_checkpoint. by intros j f [].
Qed.

Lemma ev_clock : clock_free ev.
Proof. by intros j f h. Qed.

Lemma Reserve_ev reservation : hoare ev (Reserve reservation) (λ _, ev) ev.
Proof.
  unfold Reserve. eapply (h_bind _ _ (λ _, ev)).
  { eapply h_post; [by apply h_usable|..]; [by intros ? j f []|done]. }
  intros ?. eapply h_bind; [apply h_writeTime; [apply ev_clock|done]|]. intros now. cbn zeta.
  eapply h_bind; [apply h_get_keep|]. intros j0.
  eapply h_bind; [by apply h_guard_keep|]. intros ?. eapply h_bind; [by apply h_guard_keep|]. intros ?.
  eapply h_bind; [apply h_env|]. intros random. destruct random as [bytes|]; [|by apply h_throw].
  set (id := hex_encode (vec_to_list bytes)).
  eapply (h_bind _ _ (λ _, ev)); [by apply h_or_poison, h_guard_keep|]. intros ?.
  eapply (h_bind _ _ (λ _, at_ready id)).
  { apply h_or_poison. eapply (h_bind _ _ (λ _, at_ready id)).
    - apply h_allocate_ev; [done|]. intros j f H Hn. split; [|apply ready_fresh].
      eapply evolve_trans; [exact H|by apply evolve_insert_new].
    - intros ?. eapply h_bind; [apply h_allocate_ready, side_art|]. intros ?.
      eapply h_bind; [apply h_allocate_ready, side_state|]. intros ?. apply h_checkpoint. by intros j f []. }
  intros ?. eapply h_bind; [apply h_indexReservation_ev|]. intros ?.
  eapply (h_bind _ _ (λ _, ev)).
  { eapply h_pre; [|eapply h_post; [apply (h_persist_ev _ (λ _, True) (λ _, True)), framed_true|..]].
    - intros j f [He Hr]. done.
    - by intros ? j f [].
    - done. }
  intros ?. eapply h_bind; [by apply h_upd_keep|]. intros ?.
  eapply h_bind; [apply h_or_unavailable, h_checkpoint_ev|]. intros ?. by apply h_ret.
Qed.

(** *** Recovery *)

Lemma h_for_each {A : Type} (I : list A → assertion) (E : assertion) (g : A → M unit) l :
  (∀ a l', hoare (I (a :: l')) (g a) (λ _, I l') E) → hoare (I l) (for_each g l) (λ _, I []) E.
Proof.
  intros Hg. induction l as [|a l IH]; simpl; [by apply h_ret|]. eapply h_bind; [apply Hg|]. intros ?. apply IH.
Qed.

(** Every cached record is the durable one. *)
Definition cached (j : Journal) (f : gmap text text) : Prop := ∀ id r, records j !! id = Some r → loaded id r f.

Lemma recover_entry_ev owned entry :
  hoare (λ j f, evolve f0 f ∧ cached j f) (recover_entry owned entry) (λ _ j f, evolve f0 f ∧ cached j f) ev.
Proof.
  unfold recover_entry. set (P := λ j f, evolve f0 f ∧ cached j f). set (id := EOperationID entry).
  eapply h_bind; [apply h_guard_keep; by intros j f []|]. intros ?.
  eapply h_bind; [apply h_loadRecord; by intros j f []|]. intros r. cbn zeta. fold id.
  set (P1 := λ j f, P j f ∧ loaded id r f).
  assert (∀ j f, P1 j f → ev j f) as HP1 by by intros j f [[] _].
  eapply (h_bind _ _ (λ _, P1)); [apply h_get_keep|]. intros j0.
  eapply h_bind; [by apply h_guard_keep|]. intros ?. eapply h_bind; [by apply h_guard_keep|]. intros ?.
  eapply (h_bind _ _ (λ _, P1)); [by apply h_upd_keep|]. intros ?.
  eapply (h_bind _ _ (λ _, P1)).
  { destruct (eqt _ _).
    - eapply h_bind; [by apply h_or_unavailable, h_disk_read|]. intros data.
      eapply h_post; [apply (h_guard_keep _ ev); intros j f [H _]; by apply (HP1 j)|..]; cbn beta; [by intros ? j f []|done].
    - eapply h_bind; [apply h_or_unavailable, h_artifact; exact HP1|]. intros ?. by apply h_ret. }
  intros ?. eapply (h_bind _ _ (λ _, P)).
  { apply h_upd. intros j f [[He Hc] Hl]. split; [exact He|]. intros id' r'. cbn [records set_record].
    destruct (decide (id' = id)) as [->|Hne]; [rewrite lookup_insert_eq; by intros [= <-]|].
    rewrite lookup_insert_ne by done. apply Hc. }
  intros ?. eapply (h_bind _ _ (λ _, P)); [by apply h_upd_keep|]. intros ?.
  destruct (fencing_phase r); [|by apply h_ret]. eapply h_bind; [apply h_get_keep|]. intros j1.
  eapply h_bind; [apply h_guard_keep; by intros j f []|]. intros ?. by apply h_upd_keep.
Qed.

(** What the closing pass still has to know about the entries ahead. *)
Definition ahead (l : list reservationEntry) : assertion := λ j f,
  evolve f0 f ∧ NoDup (EOperationID <$> l) ∧
  ∀ e r, e ∈ l → records j !! EOperationID e = Some r → loaded (EOperationID e) r f.

Lemma close_entry_ev entry l : hoare (ahead (entry :: l)) (close_entry entry) (λ _, ahead l) ev.
Proof.
  unfold close_entry. set (id := EOperationID entry). eapply h_bind; [apply h_get_j|]. intros j0. fold id.
  destruct (records j0 !! id) as [r|] eqn:Hr; cycle 1.
  { change (recovery_phase (default zero_record None)) with (@None text). apply h_ret. intros j f [(He & Hn & Hl) _].
    apply NoDup_cons in Hn as [_ Hn]. split_and!; [done|done|]. intros e r Hin. apply Hl. by right. }
  change (default zero_record (Some r)) with r. destruct (recovery_phase r) as [phase|]; cycle 1.
  { apply h_ret. intros j f [(He & Hn & Hl) _]. apply NoDup_cons in Hn as [_ Hn]. split_and!; [done|done|].
    intros e r' Hin. apply Hl. by right. }
  set (P := λ j f, ahead (entry :: l) j f ∧ records j = records j0).
  eapply (h_bind _ _ (λ _, P)).
  { eapply h_pre; [|apply (h_observeTime P)]; [by intros j f [H ->]|]. by intros j f h. }
  intros recorded. cbn zeta. set (next := advance _ _ _ _ r).
  apply (h_pure (OperationID r = id ∧ NoDup (EOperationID <$> entry :: l))).
  { intros j f [(He & Hn & Hl) Hj]. split; [|exact Hn]. apply (loaded_ready id r f), Hl; [left|]. by rewrite Hj. }
  intros [Hid Hnd]. apply NoDup_cons in Hnd as [Hnin Hnd].
  set (R := λ f : gmap text text, ∀ e r, e ∈ l → records j0 !! EOperationID e = Some r → loaded (EOperationID e) r f).
  assert (framed (OperationID next) R) as HR.
  { split.
    - intros f d HR e r' Hin He. destruct (HR e r' Hin He) as (data & hs & Hf & H). exists data, hs. split; [|exact H].
      rewrite lookup_insert_ne; [done|]. intros Heq%rec_name_inj. apply Hnin. change (OperationID r = EOperationID e) in Heq.
      fold id. rewrite <- Hid, Heq. apply list_elem_of_fmap. by exists e.
    - intros f name d Hs HR e r' Hin He. destruct (HR e r' Hin He) as (data & hs & Hf & H). exists data, hs. split; [|exact H].
      rewrite lookup_insert_ne; [done|]. by apply side_ne. }
  eapply (h_bind _ _ (λ _, ahead l)).
  - eapply h_pre; [|eapply h_post; [apply (h_persist_ev next R (λ j, records j = records j0)), HR|..]].
    + intros j f [(He & Hn & Hl) Hj]. split_and!; [done| | |done].
      * change (OperationID next) with (OperationID r). rewrite Hid. apply (loaded_ready id r f), Hl; [left|]. by rewrite Hj.
      * intros e r' Hin Hre. apply Hl; [by right|by rewrite Hj].
    + cbn beta. intros _ j f (He & HRf & (j2 & h & Hj2 & ->) & _). split_and!; [done|done|].
      intros e r' Hin. cbn [records set_highWater set_record]. rewrite lookup_insert_ne; [rewrite Hj2; by apply HRf|].
      change (OperationID next) with (OperationID r). rewrite Hid. intros Heq. apply Hnin. fold id. rewrite Heq.
      apply list_elem_of_fmap. by exists e.
    + done.
  - intros ?. destruct (eqt _ _); [|by apply h_ret]. by apply h_upd_keep.
Qed.

Lemma entries_loop_NoDup data indexes entries seen empty r :
  NoDup (EOperationID <$> entries) → (∀ id, id ∈ EOperationID <$> entries → id ∈ seen) →
  entries_loop data indexes entries seen empty = Ok r → NoDup (EOperationID <$> r).
Proof.
  revert entries seen empty. induction indexes as [|i indexes IH]; intros entries seen empty Hn Hs H; cbn [entries_loop] in H.
  { injection H as <-. exact Hn. }
  destruct (zero _); [by eapply IH|]. destruct empty; [done|]. destruct (decodeFrame _ _ _) as [entry|]; [|done].
  destruct (_ || bool_decide _) eqn:Hg; [done|]. apply orb_false_iff in Hg as [_ Hg%bool_decide_eq_false_1].
  eapply IH; [..|exact H].
  - rewrite fmap_app. apply NoDup_app. split_and!; [done| |apply NoDup_singleton].
    intros x Hx ->%list_elem_of_singleton. by apply Hg, Hs.
  - intros x. rewrite fmap_app, elem_of_app. intros [Hx| ->%list_elem_of_singleton]; set_solver.
Qed.

Lemma recover_ev : hoare (λ j f, evolve f0 f ∧ records j = ∅) recover (λ _, ev) ev.
Proof.
  unfold recover. set (P := λ j f, evolve f0 f ∧ records j = ∅).
  eapply (h_bind _ _ (λ entries j f, P j f ∧ NoDup (EOperationID <$> entries))).
  { apply h_or_unavailable. unfold readReservations. eapply (h_bind _ _ (λ _, P)); [apply h_get_keep|]. intros j0.
    eapply h_bind; [apply h_or_unavailable, h_disk_read; by intros j f []|]. intros data.
    eapply h_post; [apply (h_lift _ _ ev); by intros j f [[] _]|..]; cbn beta; [|done].
    intros entries j f [[HP _] Hl]. split; [exact HP|]. eapply entries_loop_NoDup; [..|exact Hl]; [constructor|set_solver]. }
  intros entries. eapply h_bind; [apply h_get_keep|]. intros j0.
  set (P1 := λ j f, P j f ∧ NoDup (EOperationID <$> entries)).
  assert (∀ j f, P1 j f → ev j f) as HP1 by by intros j f [[] _].
  eapply (h_bind _ _ (λ _, P1)).
  { apply h_or_unavailable. unfold disk_names. eapply h_bind; [apply h_env|]. intros a.
    destruct a; [|by apply h_throw..]. eapply h_bind; [apply h_get_files|]. intros fs. cbn zeta.
    destruct (_ <? _); [apply h_throw|apply h_ret]; intros j f [H _]; [by apply (HP1 j)|done]. }
  intros names. eapply h_bind; [by apply h_guard_keep|]. intros ?. cbn zeta.
  eapply h_bind; [by apply h_guard_keep|]. intros ?.
  set (P2 := λ (l : list reservationEntry) j f, (evolve f0 f ∧ cached j f) ∧ NoDup (EOperationID <$> entries)).
  eapply (h_bind _ _ (λ _, P2 [])).
  { eapply h_pre; [|apply (h_for_each P2)].
    - intros j f [[He Hr] Hn]. split; [|exact Hn]. split; [exact He|]. intros id r. rewrite Hr. by intros ?%lookup_empty_Some.
    - intros entry l. apply (h_pure (NoDup (EOperationID <$> entries))); [by intros j f []|]. intros Hn.
      eapply h_pre; [|eapply h_post; [apply recover_entry_ev|..]]; [by intros j f []|by intros ? j f|done]. }
  intros ?. eapply (h_bind _ _ (λ _, P2 [])); [by apply h_upd_keep|]. intros ?.
  eapply h_pre; [|eapply h_post; [apply (h_for_each ahead), close_entry_ev|..]].
  - intros j f [[He Hc] Hn]. split_and!; [exact He|exact Hn|]. intros e r _. apply Hc.
  - by intros ? j f [].
  - done.
Qed.

Lemma openDisk_ev create : hoare ev (openDisk create) (λ _, ev) ev.
Proof.
  intros σ He. unfold openDisk. destruct create.
  - destruct (rootExists (w σ)); [exact He|]. destruct (diskFault _) as [| |[|k]]; cbn; try exact He;
      (eapply evolve_trans; [exact He|]; apply evolve_insert_side, side_identity).
  - destruct (diskFault _); [destruct (_ && _)|..]; exact He.
Qed.

Lemma openJournal_ev identity limits create : hoare ev (openJournal identity limits create) (λ _, ev) ev.
Proof.
  unfold openJournal. set (P := λ j f, evolve f0 f ∧ records j = ∅).
  eapply h_bind; [by apply h_lift_keep|]. intros l. eapply h_bind; [by apply h_guard_keep|]. intros ?.
  eapply h_bind; [apply openDisk_ev|]. intros ?.
  eapply (h_bind _ _ (λ _, P)); [by apply h_upd|]. intros ?.
  assert (∀ j f, P j f → ev j f) as HP by by intros j f [].
  eapply (h_bind _ _ (λ _, P)).
  { destruct create.
    - eapply h_bind; [apply h_env|]. intros now. cbn zeta. eapply (h_bind _ _ (λ _, P)); [by apply h_upd_keep|]. intros ?.
      eapply h_bind; [by apply h_guard_keep|]. intros ?. destruct (encodeSlot _ _) as [data|]; [|by apply h_throw].
      apply h_or_unavailable. eapply (h_bind _ _ (λ _, P)).
      + apply h_allocate_ev; [exact HP|]. intros j f [He Hr] Hn. split; [|exact Hr].
        eapply evolve_trans; [exact He|by apply evolve_insert_new].
      + intros ?. apply h_write_side; [apply side_identity|exact HP|]. intros j f d [He Hr]. split; [|exact Hr].
        eapply evolve_trans; [exact He|apply evolve_insert_side, side_identity].
    - eapply (h_bind _ _ (λ _, P)).
      + eapply h_post; [apply (h_or_unavailable _ _ _ ev), h_disk_read, HP|..]; cbn beta; [by intros ? j f []|done].
      + intros data. destruct (decodeSlot _ _) as [h|]; [|by apply h_throw].
        eapply (h_bind _ _ (λ _, P)); [by apply h_upd_keep|]. intros ?. by apply h_guard_keep. }
  intros ?. eapply (h_bind _ _ (λ _, P)); [by apply h_upd_keep|]. intros ?. apply h_or_unavailable, recover_ev.
Qed.

Lemma Close_ev : hoare ev Close (λ _, ev) ev.
Proof. by apply h_upd_keep. Qed.
End evolve.

(** ** Records and fences agree

    While an instance is usable, the fences are exactly the targets of the
    records whose outcome is open. *)

Definition target (r : JournalRecord) : text := TargetSHA256 (Intent_ r).

Record coherent (j : Journal) : Prop := {
  co_record : ∀ id r, records j !! id = Some r → OperationID r = id ∧ validateRecord sha256 digestTicket marshalBinding r = true;
  co_fence : ∀ t id, fences j !! t = Some id ↔ ∃ r, records j !! id = Some r ∧ fencing_phase r = true ∧ target r = t
}.

Definition ok : assertion := λ j _, failed j = false → coherent j.
Definition poisoned : assertion := λ j _, failed j = true.

Section journal_only.
Variable J : Journal → Prop.
Abbreviation on := (λ (j : Journal) (f : gmap text text), J j).

Lemma h_write_j name off data : hoare on (disk_write name off data) (λ _, on) on.
Proof. by apply h_write. Qed.
Lemma h_allocate_j name size : hoare on (disk_allocate name size) (λ _, on) on.
Proof. by apply h_allocate. Qed.
End journal_only.

Lemma h_poisoning {A : Type} (J : Journal → Prop) (m : M A) :
  hoare (λ j _, J j) m (λ _ j _, J j) (λ j _, J j) → hoare (λ j _, J j) (or_poison m) (λ _ j _, J j) poisoned.
Proof. intros Hm. apply h_or_poison. eapply h_post; [exact Hm|..]; cbn beta; [by intros|]. intros. reflexivity. Qed.

(** [persist] updates the cached record, or poisons the instance. *)
Lemma h_persist_j (r : JournalRecord) (J : Journal → Prop) :
  hoare (λ j _, J j) (persist r)
    (λ _ j _, ∃ j0 h, J j0 ∧ j = set_highWater h (set_record (OperationID r) r j0) ∧
       validateRecord sha256 digestTicket marshalBinding r = true ∧
       ∀ before, records j0 !! OperationID r = Some before → validSuccessor before r = true)
    poisoned.
Proof.
  unfold persist. eapply h_bind.
  { apply h_or_poison. eapply h_post; [apply h_guard; intros j f H; exact H|..]; cbn beta; [intros ? j f H; exact H|intros; reflexivity]. }
  intros ?. cbn beta. eapply h_bind; [apply h_get_j|]. intros j0. cbn beta.
  set (succ := match records j0 !! OperationID r with Some before => validSuccessor before r | None => true end).
  set (J1 := λ j, J j ∧ validateRecord sha256 digestTicket marshalBinding r = true ∧
    ∀ before, records j !! OperationID r = Some before → validSuccessor before r = true).
  eapply (h_bind _ _ (λ _ j _, J1 j)).
  { apply h_or_poison. eapply h_post; [apply h_guard; intros j f H; exact H|..]; cbn beta; [|intros; reflexivity].
    intros ? j f [[[HJ Hv] ->] Hs]. split_and!; [exact HJ|exact Hv|]. intros before Hb. unfold succ in Hs. by rewrite Hb in Hs. }
  intros ?. eapply (h_bind _ _ (λ _ j _, J1 j)).
  { apply h_poisoning. destruct (encodeSlot _ _); [|by apply h_throw].
    eapply h_bind; [apply h_write_j|]. intros ?. by apply h_ret. }
  intros data. eapply (h_bind _ _ (λ _ j _, J1 j)).
  { unfold commitState. eapply h_bind; [apply h_or_poison, h_checkpoint; intros; reflexivity|]. intros ?.
    eapply (h_bind _ _ (λ _ j _, J1 j)).
    - apply h_poisoning. destruct (encodeFrame _ _ _); [apply h_write_j|by apply h_throw].
    - intros ?. apply h_checkpoint. intros; reflexivity. }
  intros ?. eapply (h_bind _ _ (λ _ j _, ∃ j0, J1 j0 ∧ j = set_record (OperationID r) r j0)).
  { apply h_upd. intros j f H. by exists j. }
  intros ?. eapply h_bind; [apply h_get_j|]. intros j1. apply h_upd.
  intros j f [(j2 & (HJ & Hv & Hs) & ->) ->]. by eexists _, _.
Qed.

(** How single updates keep the agreement. *)
Section coherence.
Variable j : Journal.
Hypothesis Hc : coherent j.

Lemma co_update id r' :
  OperationID r' = id → validateRecord sha256 digestTicket marshalBinding r' = true →
  ∀ id' r, records (set_record id r' j) !! id' = Some r →
    OperationID r = id' ∧ validateRecord sha256 digestTicket marshalBinding r = true.
Proof.
  intros Hid Hv id' r. cbn [records set_record]. destruct (decide (id' = id)) as [->|Hne].
  - rewrite lookup_insert_eq. by intros [= <-].
  - rewrite lookup_insert_ne by done. apply (co_record _ Hc).
Qed.

Lemma co_keep id next :
  OperationID next = id → validateRecord sha256 digestTicket marshalBinding next = true →
  (∀ r, records j !! id = Some r → fencing_phase next = fencing_phase r ∧ (fencing_phase r = true → target next = target r)) →
  (records j !! id = None → fencing_phase next = false) →
  coherent (set_record id next j).
Proof.
  intros Hid Hv Hsame Hnew. constructor; [by apply co_update|]. intros t id'. cbn [records fences set_record].
  rewrite (co_fence _ Hc). destruct (decide (id' = id)) as [->|Hne]; [|by rewrite lookup_insert_ne].
  rewrite lookup_insert_eq. split.
  - intros (r & Hr & Hf & Ht). destruct (Hsame r Hr) as [H1 H2]. exists next. rewrite H1. split_and!; [done..|].
    rewrite <- Ht. by apply H2.
  - intros (r & [= <-] & Hf & Ht). destruct (records j !! id) as [r0|] eqn:Hr; [|by rewrite Hnew in Hf].
    destruct (Hsame r0 eq_refl) as [H1 H2]. exists r0. rewrite <- H1. split_and!; [done..|]. rewrite <- Ht. symmetry.
    apply H2. by rewrite <- H1.
Qed.

Lemma co_open id next :
  OperationID next = id → validateRecord sha256 digestTicket marshalBinding next = true →
  (∀ r, records j !! id = Some r → fencing_phase r = false) → fencing_phase next = true →
  fences j !! target next = None →
  coherent (set_fences (<[target next := id]> (fences j)) (set_record id next j)).
Proof.
  intros Hid Hv Hold Hf Hfree. constructor; [by apply co_update|]. intros t id'. cbn [records fences set_record set_fences].
  destruct (decide (t = target next)) as [->|Hnt].
  - rewrite lookup_insert_eq. split.
    + intros [= <-]. exists next. by rewrite lookup_insert_eq.
    + intros (r & Hr & Hfr & Ht). destruct (decide (id' = id)) as [->|Hne]; [done|].
      rewrite lookup_insert_ne in Hr by done.
      assert (fences j !! target next = Some id') as Hx by (apply (co_fence _ Hc); eauto). congruence.
  - rewrite lookup_insert_ne by done. rewrite (co_fence _ Hc). destruct (decide (id' = id)) as [->|Hne]; [|by rewrite lookup_insert_ne].
    rewrite lookup_insert_eq. split.
    + intros (r & Hr & Hfr & _). by rewrite (Hold r Hr) in Hfr.
    + intros (r & [= <-] & _ & Ht). congruence.
Qed.

Lemma co_close id r next :
  OperationID next = id → validateRecord sha256 digestTicket marshalBinding next = true →
  records j !! id = Some r → fencing_phase r = true → fencing_phase next = false → target next = target r →
  coherent (set_fences (delete (target next) (fences j)) (set_record id next j)).
Proof.
  intros Hid Hv Hr Hf Hfn Ht. constructor; [by apply co_update|]. intros t id'. cbn [records fences set_record set_fences].
  assert (fences j !! target r = Some id) as Hfe by (apply (co_fence _ Hc); eauto).
  destruct (decide (t = target next)) as [->|Hnt].
  - rewrite lookup_delete_eq. split; [done|]. intros (r' & Hr' & Hfr & Htr). exfalso.
    destruct (decide (id' = id)) as [->|Hne]; [rewrite lookup_insert_eq in Hr'; congruence|].
    rewrite lookup_insert_ne in Hr' by done.
    assert (fences j !! target r = Some id') as Hx by (apply (co_fence _ Hc); exists r'; split_and!; [done..|congruence]). congruence.
  - rewrite lookup_delete_ne by done. rewrite (co_fence _ Hc).
    destruct (decide (id' = id)) as [->|Hne]; [|by rewrite lookup_insert_ne]. rewrite lookup_insert_eq. split.
    + intros (r' & Hr' & _ & Htr). congruence.
    + intros (r' & [= <-] & Hfr & _). congruence.
Qed.
End coherence.

Lemma co_view j j' : records j' = records j → fences j' = fences j → coherent j → coherent j'.
Proof. intros Hr Hf [H1 H2]. constructor; rewrite ?Hr; [exact H1|]. intros t id. by rewrite Hf. Qed.

Lemma fencing_none r : Phase r = PhaseNone → fencing_phase r = false.
Proof. unfold fencing_phase. by intros ->. Qed.

(** The state after [lookup] handed out record [r]. *)
Definition have (id : text) (r : JournalRecord) : assertion := λ j _,
  failed j = false ∧ coherent j ∧ records j !! id = Some r.

Lemma have_ok id r j f : have id r j f → ok j f.
Proof. by intros (_ & ? & _) ?. Qed.
Lemma have_failed id r j f : have id r j f → ok (set_failed j) f.
Proof. by intros _ ?. Qed.
Lemma have_clock id r : clock_free (have id r).
Proof. intros j f h (Hf & Hc & Hr). split_and!; [exact Hf|by apply (co_view j)|exact Hr]. Qed.
Lemma ok_clock : clock_free ok.
Proof. intros j f h Hok Hf. apply (co_view j); [reflexivity..|]. apply Hok. exact Hf. Qed.
Lemma ok_failed j f : ok (set_failed j) f.
Proof. by intros ?. Qed.
Lemma poisoned_ok j f : poisoned j f → ok j f.
Proof. unfold poisoned, ok. congruence. Qed.

Lemma h_lookup_ok owner id : hoare ok (lookup owner id) (λ r, have id r) ok.
Proof.
  eapply h_post; [apply (h_lookup ok ok); [done|intros; apply ok_failed]|..]; cbn beta; [|done].
  intros r j f (Hok & Hf & _ & Hr & _). split_and!; [done|by apply Hok|done].
Qed.

Lemma h_compare_ok expected :
  hoare ok (compare expected) (λ r j f, have (COperationID expected) r j f ∧ BindingSHA256 r ≠ []) ok.
Proof.
  eapply h_post; [apply (h_compare ok ok); [done|intros; apply ok_failed]|..]; cbn beta; [|done].
  intros r j f (Hok & Hf & _ & Hr & _ & _ & Hb). split; [|done]. split_and!; [done|by apply Hok|done].
Qed.

(** Persisting the next record of an operation in hand. *)
Definition persisted (id : text) (r next : JournalRecord) (X : Journal → Prop) : assertion := λ j _,
  ∃ j0 h, (failed j0 = false ∧ coherent j0 ∧ records j0 !! id = Some r) ∧ X j0 ∧
    j = set_highWater h (set_record id next j0) ∧
    validateRecord sha256 digestTicket marshalBinding next = true ∧ validSuccessor r next = true.

Lemma h_persist_have id r (next : JournalRecord) (X : Journal → Prop) :
  OperationID next = id →
  hoare (λ j f, have id r j f ∧ X j) (persist next) (λ _, persisted id r next X) poisoned.
Proof.
  intros Hid. eapply h_post; [apply (h_persist_j next (λ j, (failed j = false ∧ coherent j ∧ records j !! id = Some r) ∧ X j))|..];
    cbn beta; [|done].
  intros _ j f (j0 & h & [Hh HX] & -> & Hv & Hs). rewrite Hid in Hs. rewrite Hid. exists j0, h. split_and!; try done; try apply Hh.
  apply Hs, Hh.
Qed.

(** The record keeps its fence, or still has none. *)
Lemma persisted_keep id r next X j f :
  OperationID next = id → fencing_phase next = fencing_phase r → target next = target r ∨ fencing_phase r = false →
  persisted id r next X j f → ok j f.
Proof.
  intros Hid Hf Ht (j0 & h & (_ & Hc & Hr) & _ & -> & Hv & _) _.
  apply (co_view (set_record id next j0)); [reflexivity..|]. apply co_keep; [exact Hc|exact Hid|exact Hv|..].
  - intros r' Hr'. assert (r' = r) as -> by congruence. split; [exact Hf|]. intros Hfr. destruct Ht; congruence.
  - congruence.
Qed.

Lemma persisted_close id r next X j f :
  OperationID next = id → fencing_phase r = true → fencing_phase next = false → target next = target r →
  persisted id r next X j f → ok (set_fences (delete (target next) (fences j)) j) f.
Proof.
  intros Hid Hf Hfn Ht (j0 & h & (_ & Hc & Hr) & _ & -> & Hv & _) _.
  apply (co_view (set_fences (delete (target next) (fences j0)) (set_record id next j0))); [reflexivity..|].
  by apply (co_close j0 Hc id r next).
Qed.

Lemma persisted_open id r next X j f :
  OperationID next = id → fencing_phase r = false → fencing_phase next = true → (∀ j, X j → fences j !! target next = None) →
  persisted id r next X j f → ok (set_fences (<[target next := id]> (fences j)) j) f.
Proof.
  intros Hid Hf Hfn HX (j0 & h & (_ & Hc & Hr) & Hx & -> & Hv & _) _.
  apply (co_view (set_fences (<[target next := id]> (fences j0)) (set_record id next j0))); [reflexivity..|].
  apply (co_open j0 Hc id next Hid Hv); [congruence|exact Hfn|by apply HX].
Qed.

Lemma have_guard id r c e : hoare (have id r) (guard_m c e) (λ _ j f, have id r j f ∧ c = true) ok.
Proof. apply h_guard, have_ok. Qed.

Lemma h_ok_checkpoint p : hoare ok (checkpoint p) (λ _, ok) ok.
Proof. apply h_checkpoint. intros. apply ok_failed. Qed.

Lemma Bind_ok owner id intent : hoare ok (Bind owner id intent) (λ _, ok) ok.
Proof.
  unfold Bind. eapply h_bind; [apply h_lookup_ok|]. intros r. destruct (negb _) eqn:Hb.
  { destruct (bool_decide _); [apply h_ret|apply h_throw]; apply have_ok. }
  apply negb_false_iff, bool_decide_eq_true_1 in Hb.
  apply (h_pure (OperationID r = id ∧ Phase r = PhaseNone)).
  { intros j f (_ & Hc & Hr). destruct (co_record _ Hc _ _ Hr) as [Hid Hv]. split; [exact Hid|].
    apply validateRecord_inv in Hv as (_ & _ & _ & _ & Hun & _). by apply Hun. }
  intros [Hid Hp]. eapply h_bind; [apply h_writerTime; [apply have_clock|apply have_ok]|]. intros now.
  eapply h_bind; [apply h_lift_keep, have_ok|]. intros binding. eapply h_bind; [apply h_get_keep|]. intros j0. unfold save.
  set (next := step_sequence _ _). eapply h_bind.
  { eapply h_pre; [|eapply h_post; [apply (h_persist_have id r next (λ _, True)), Hid|..]].
    - intros j f H. by split.
    - intros ? j f H. exact (persisted_keep id r next _ j f Hid (eq_trans (fencing_none next Hp) (eq_sym (fencing_none r Hp)))
        (or_intror (fencing_none r Hp)) H).
    - apply poisoned_ok. }
  intros ?. eapply h_bind; [apply h_ok_checkpoint|]. intros ?. by apply h_ret.
Qed.

Lemma Admit_ok expected art sha : hoare ok (Admit expected art sha) (λ _, ok) ok.
Proof.
  unfold Admit. set (id := COperationID expected). eapply h_bind; [apply h_compare_ok|]. intros r. fold id.
  eapply h_pre; [intros j f [H _]; exact H|]. apply (h_pure (OperationID r = id)).
  { intros j f (_ & Hc & Hr). by apply (co_record _ Hc). }
  intros Hid. destruct (eqt (Phase r) PhaseNone) eqn:Hp; cycle 1.
  { eapply (h_bind _ _ (λ _ _ _, False)); [|intros ?; apply h_false]. apply h_throw, have_ok. }
  apply bool_decide_eq_true_1 in Hp.
  eapply h_bind; [apply h_guard_keep, have_ok|]. intros ?.
  eapply h_bind; [apply h_writerTime; [apply have_clock|apply have_ok]|]. intros now.
  eapply h_bind; [apply h_guard_keep, have_ok|]. intros ?. eapply h_bind; [apply h_get_j|]. intros j0.
  set (X := λ j : Journal, fences j !! target r = None).
  eapply (h_bind _ _ (λ _ j f, have id r j f ∧ X j)).
  { eapply h_post; [apply (h_guard _ ok); intros j f [H _]; by eapply have_ok|..]; cbn beta; [|done].
    intros ? j f [[H ->] Hg]. split; [exact H|]. apply negb_true_iff, bool_decide_eq_false_1, eq_None_not_Some in Hg. exact Hg. }
  intros ?. eapply (h_bind _ _ (λ _ j f, have id r j f ∧ X j)).
  { apply h_or_poison. eapply h_bind; [apply h_disk_read; intros j f [H _]; by eapply have_failed|]. intros before.
    eapply h_post; [apply (h_guard_keep _ (λ j f, ok (set_failed j) f)); intros j f [[H _] _]; by eapply have_failed|..]; cbn beta;
      [by intros ? j f []|done]. }
  intros ?. eapply (h_bind _ _ (λ _ j f, have id r j f ∧ X j)).
  { apply h_or_poison. eapply (h_bind _ _ (λ _ j f, have id r j f ∧ X j)).
    - apply h_write; [intros; apply ok_failed..|done].
    - intros ?. apply h_checkpoint. intros. apply ok_failed. }
  intros ?. eapply h_bind; [apply h_get_keep|]. intros j1. cbn zeta. set (next := advance _ _ _ _ _).
  eapply (h_bind _ _ (λ _, persisted id r next X)).
  { eapply h_post; [by apply h_persist_have|..]; [done|apply poisoned_ok]. }
  intros ?. eapply (h_bind _ _ (λ _, ok)).
  { apply h_upd. intros j f H. change (OperationID next) with (OperationID r). rewrite Hid.
    apply (persisted_open id r next X j f Hid (fencing_none r Hp)); [reflexivity|done|exact H]. }
  intros ?. eapply h_bind; [apply h_or_unavailable, h_ok_checkpoint|]. intros ?. by apply h_ret.
Qed.

Lemma h_have_record expected :
  hoare ok (compare expected) (λ r, have (COperationID expected) r) ok.
Proof. eapply h_post; [apply h_compare_ok|..]; cbn beta; [by intros r j f [H _]|done]. Qed.

Lemma ClaimDispatch_ok expected : hoare ok (ClaimDispatch expected) (λ _, ok) ok.
Proof.
  unfold ClaimDispatch. set (id := COperationID expected). eapply h_bind; [apply h_have_record|]. intros r. fold id.
  apply (h_pure (OperationID r = id)); [intros j f (_ & Hc & Hr); by apply (co_record _ Hc)|]. intros Hid.
  eapply h_bind; [apply h_get_keep|]. intros j0. eapply h_bind; [apply have_guard|]. intros ?. cbn beta.
  match goal with |- context [negb ?c = true] => apply (h_pure (c = false)) end; [by intros j f [_ ?%negb_true_iff]|].
  intros Hg. apply orb_false_iff in Hg as [[Hp _]%orb_false_iff _]. apply negb_false_iff, bool_decide_eq_true_1 in Hp.
  eapply h_pre; [intros j f [H _]; exact H|].
  eapply (h_bind _ _ (λ _, have id r)); [apply h_artifact; apply have_failed|]. intros ?.
  eapply h_bind; [apply h_writerTime; [apply have_clock|apply have_ok]|]. intros now.
  eapply h_bind; [apply h_get_keep|]. intros j1. cbn zeta. set (next := advance _ _ _ _ r).
  eapply (h_bind _ _ (λ _, ok)).
  { unfold save. eapply (h_bind _ _ (λ _, ok)).
    - eapply h_pre; [|eapply h_post; [apply (h_persist_have id r next (λ _, True)), Hid|..]].
      + intros j f H. by split.
      + intros ? j f H. refine (persisted_keep id r next _ j f Hid _ (or_introl eq_refl) H).
        unfold fencing_phase. rewrite Hp. reflexivity.
      + apply poisoned_ok.
    - intros ?. eapply h_bind; [apply h_ok_checkpoint|]. intros ?. by apply h_ret. }
  intros ?. eapply h_bind; [apply h_writerTime; [apply ok_clock|done]|]. intros ?.
  eapply h_bind; [apply h_env|]. intros e. eapply h_bind; [by apply h_guard_keep|]. intros ?. by apply h_ret.
Qed.

(** The outcomes [Complete] can record. *)
Lemma complete_edge r next : validateRecord sha256 digestTicket marshalBinding r = true →
  validateRecord sha256 digestTicket marshalBinding next = true → validSuccessor r next = true →
  BindingSHA256 r ≠ [] → ArtifactSHA256 next = ArtifactSHA256 r → DispatchClaimed next = DispatchClaimed r →
  target next = target r ∧ fencing_phase r = true ∧
  (Phase next = BrokerOperationOutcomeUnknown ∧ Phase r = BrokerOperationDispatching ∨
   (Phase next = BrokerOperationApplied ∨ Phase next = BrokerOperationNotApplied)).
Proof.
  intros Hv Hvn Hs Hb Ha Hd. pose proof (validSuccessor_inv _ _ _ _ _ Hv Hs) as Hsc.
  destruct (sc_binding _ _ Hsc Hb) as [_ Hi]. split; [unfold target; by rewrite Hi|].
  assert (Phase next ≠ BrokerOperationDispatching) as Hnd.
  { intros Hp. pose proof (sc_claim _ _ Hsc) as Hc. rewrite Hp in Hc. unfold eqt in Hc.
    rewrite bool_decide_eq_true_2, orb_true_r in Hc by done.
    apply validateRecord_inv in Hv as (_ & _ & _ & _ & _ & _ & Hn0 & Hn1).
    destruct (sc_edge _ _ Hsc) as [? _ _ _|_ H2|H1 _|_ H2|_ H2|_ H2]; try (rewrite Hp in H2).
    - done.
    - done.
    - destruct (Hn1 ltac:(by rewrite H1)) as (_ & _ & _ & Hev). unfold phase_evidence in Hev. rewrite H1 in Hev.
      destruct Hev as [(_ & Hf & _)|[[? _]|[[? _]|[[? _]|[? _]]]]]; try done. congruence.
    - done.
    - by destruct H2 as [?|[?|?]].
    - by destruct H2 as [?|?]. }
  unfold fencing_phase.
  destruct (sc_edge _ _ Hsc) as [? _ _ _|H1 H2|_ H2|H1 H2|H1 H2|H1 H2]; try done.
  - exfalso. apply validateRecord_inv in Hvn as (_ & _ & _ & _ & _ & _ & _ & Hpub).
    destruct (Hpub ltac:(by rewrite H2)) as (_ & Hart & _). rewrite Ha in Hart.
    apply validateRecord_inv in Hv as (_ & _ & _ & _ & _ & _ & Hnone & _). destruct (Hnone H1) as (_ & Hz & _).
    by rewrite Hz in Hart.
  - rewrite H1. split; [reflexivity|]. right. by right.
  - rewrite H1. split; [reflexivity|]. destruct H2 as [?|[?|?]]; [right; by left|right; by right|by left].
  - rewrite H1. split; [reflexivity|]. by right.
Qed.

Lemma Complete_ok expected completion : hoare ok (Complete expected completion) (λ _, ok) ok.
Proof.
  unfold Complete. set (id := COperationID expected). eapply h_bind; [apply h_compare_ok|]. intros r. fold id.
  apply (h_pure (OperationID r = id ∧ validateRecord sha256 digestTicket marshalBinding r = true ∧ BindingSHA256 r ≠ [])).
  { intros j f [(_ & Hc & Hr) Hb]. destruct (co_record _ Hc _ _ Hr). done. }
  intros (Hid & Hv & Hb). eapply h_pre; [intros j f [H _]; exact H|].
  destruct (_ && negb (eqt (Phase r) PhaseNone)); [apply h_ret, have_ok|].
  eapply h_bind; [apply h_observeTime, have_clock|]. intros recorded. cbn zeta. set (next := advance _ _ _ _ r).
  eapply h_bind; [apply have_guard|]. intros ?. cbn beta.
  apply (h_pure (validateRecord sha256 digestTicket marshalBinding next = true ∧ validSuccessor r next = true)).
  { intros j f [_ H]. by apply andb_true_iff in H. }
  intros [Hvn Hs]. eapply h_pre; [intros j f [H _]; exact H|].
  eapply h_bind; [apply h_guard_keep, have_ok|]. intros ?.
  destruct (complete_edge r next Hv Hvn Hs Hb eq_refl eq_refl) as (Ht & Hf & Hout).
  eapply (h_bind _ _ (λ _, persisted id r next (λ _, True))).
  { eapply h_pre; [|eapply h_post; [apply (h_persist_have id r next (λ _, True)), Hid|..]]; [intros j f H; by split|done|apply poisoned_ok]. }
  intros ?. eapply (h_bind _ _ (λ _, ok)).
  { destruct Hout as [[Hu Hpr]|Hdone].
    - rewrite (bool_decide_eq_true_2 _ Hu : eqt (Phase next) BrokerOperationOutcomeUnknown = true).
      apply h_ret. intros j f H. refine (persisted_keep id r next _ j f Hid _ (or_introl Ht) H).
      rewrite Hf. unfold fencing_phase. rewrite Hu. reflexivity.
    - assert (eqt (Phase next) BrokerOperationOutcomeUnknown = false ∧ fencing_phase next = false) as [-> Hfn].
      { unfold fencing_phase. destruct Hdone as [Hp|Hp]; rewrite Hp; split; reflexivity. }
      apply h_upd. intros j f H. exact (persisted_close id r next (λ _, True) j f Hid Hf Hfn Ht H). }
  intros ?. eapply h_bind; [apply h_or_unavailable, h_ok_checkpoint|]. intros ?. by apply h_ret.
Qed.

Lemma Lookup_ok owner id : hoare ok (Lookup owner id) (λ _, ok) ok.
Proof.
  unfold Lookup. eapply h_bind; [apply h_lookup_ok|]. intros r. eapply h_bind; [apply h_observeTime, have_clock|]. intros t.
  eapply h_bind; [apply h_guard_keep, have_ok|]. intros ?. apply h_ret, have_ok.
Qed.

Lemma ReadArtifact_ok owner id : hoare ok (ReadArtifact owner id) (λ _, ok) ok.
Proof.
  unfold ReadArtifact. eapply h_bind; [apply h_lookup_ok|]. intros r. eapply h_bind; [apply h_observeTime, have_clock|]. intros t.
  eapply h_bind; [apply h_guard_keep, have_ok|]. intros ?.
  eapply h_post; [apply (h_artifact (have id r) ok), have_failed|..]; [intros ?; apply have_ok|done].
Qed.

Lemma h_usable_ok : hoare ok usable (λ _ j f, failed j = false ∧ coherent j) ok.
Proof.
  eapply h_post; [apply (h_usable ok ok); [done|intros; apply ok_failed]|..]; cbn beta; [|done].
  intros ? j f (Hok & Hf & _). split; [exact Hf|by apply Hok].
Qed.

Lemma Fenced_ok t : hoare ok (Fenced t) (λ _, ok) ok.
Proof.
  unfold Fenced. eapply h_bind; [apply h_usable_ok|]. intros ?.
  eapply h_bind; [apply h_guard_keep; by intros j f [_ ?] _|]. intros ?. eapply h_bind; [apply h_get_keep|]. intros ?.
  apply h_ret. by intros j f [_ ?] _.
Qed.

Lemma h_indexReservation_ok (r : JournalRecord) (P : assertion) :
  (∀ j f f', P j f → P j f') → (∀ j f v, P j f → P (set_reservations v j) f) → (∀ j f, P j f → ok j f) →
  hoare P (indexReservation r) (λ _, P) ok.
Proof.
  intros Hf Hres Hok. unfold indexReservation. eapply (h_bind _ _ (λ _, P)).
  - apply h_or_poison. eapply h_bind; [apply h_checkReservations; intros; apply ok_failed|]. intros ?.
    eapply h_bind; [apply h_get_keep|]. intros j0. apply h_guard_keep. intros. apply ok_failed.
  - intros ?. eapply h_bind; [apply h_get_keep|]. intros j0. cbn zeta. eapply (h_bind _ _ (λ _, P)).
    + apply h_or_poison. destruct (encodeFrame _ _ _); [|apply h_throw; intros; apply ok_failed].
      apply h_write; [intros; apply ok_failed..|]. intros j f old H _ _ _. by apply (Hf j f).
    + intros ?. eapply (h_bind _ _ (λ _, P)); [apply h_upd_keep; intros; by apply Hres|]. intros ?.
      apply h_checkpoint. intros. apply ok_failed.
Qed.

Lemma Reserve_ok reservation : hoare ok (Reserve reservation) (λ _, ok) ok.
Proof.
  unfold Reserve. set (P := λ (j : Journal) (_ : gmap text text), failed j = false ∧ coherent j).
  assert (clock_free P) as Hcl by (intros j f h [Hf Hc]; split; [exact Hf|by apply (co_view j)]).
  assert (∀ j f, P j f → ok j f) as HP by by intros j f [_ ?] _.
  eapply h_bind; [apply h_usable_ok|]. intros ?.
  eapply (h_bind _ _ (λ _, P)); [by apply h_writeTime|]. intros now. cbn zeta.
  eapply (h_bind _ _ (λ j0 j f, P j f ∧ j0 = j)); [apply h_get_j|]. intros j0.
  eapply h_bind; [apply h_guard_keep; intros j f [H _]; by apply (HP j f)|]. intros ?.
  eapply h_bind; [apply h_guard_keep; intros j f [H _]; by apply (HP j f)|]. intros ?.
  eapply h_bind; [apply h_env|]. intros random.
  destruct random as [bytes|]; [|apply h_throw; intros j f [H _]; by apply (HP j f)].
  set (id := hex_encode (vec_to_list bytes)).
  set (P1 := λ (j : Journal) (f : gmap text text), P j f ∧ records j !! id = None).
  assert (∀ j f, P1 j f → ok j f) as HP1 by (intros j f [H _]; by apply (HP j f)).
  eapply (h_bind _ _ (λ _, P1)).
  { apply h_or_poison. eapply h_post; [apply (h_guard _ (λ j f, ok (set_failed j) f)); intros; apply ok_failed|..]; cbn beta; [|done].
    intros ? j f [[H ->] Hg]. split; [exact H|]. by apply negb_true_iff, bool_decide_eq_false_1, eq_None_not_Some in Hg. }
  intros ?. eapply (h_bind _ _ (λ _, P1)).
  { apply h_or_poison. eapply (h_bind _ _ (λ _, P1)); [apply h_allocate; [intros; apply ok_failed..|done]|]. intros ?.
    eapply (h_bind _ _ (λ _, P1)); [apply h_allocate; [intros; apply ok_failed..|done]|]. intros ?.
    eapply (h_bind _ _ (λ _, P1)); [apply h_allocate; [intros; apply ok_failed..|done]|]. intros ?.
    apply h_checkpoint. intros. apply ok_failed. }
  intros ?. eapply h_bind.
  { apply (h_indexReservation_ok _ P1); [done| |exact HP1]. intros j f v [[Hf Hc] Hn]. split; [|exact Hn].
    split; [exact Hf|]. by apply (co_view j). }
  intros ?. eapply (h_bind _ _ (λ _, ok)).
  { eapply h_pre; [|eapply h_post; [apply (h_persist_j _ (λ j, (failed j = false ∧ coherent j) ∧ records j !! id = None))|..]].
    - intros j f H. exact H.
    - cbn beta. intros ? j f (j1 & h & [[_ Hc] Hn] & -> & Hv & _) _.
      match goal with |- coherent (set_highWater h (set_record _ ?r j1)) =>
        apply (co_view (set_record id r j1)); [reflexivity..|]; apply (co_keep j1 Hc id r eq_refl Hv) end; [congruence|done].
    - apply poisoned_ok. }
  intros ?. eapply (h_bind _ _ (λ _, ok)).
  { apply h_upd_keep. intros j f H Hf. apply (co_view j); [reflexivity..|]. by apply H. }
  intros ?. eapply h_bind; [apply h_or_unavailable, h_ok_checkpoint|]. intros ?. by apply h_ret.
Qed.

Lemma Close_ok : hoare ok Close (λ _, ok) ok.
Proof. apply h_upd_keep. intros j f H Hf. destruct (closed j); [by apply H|]. apply (co_view j); [reflexivity..|]. by apply H. Qed.

(** *** Recovery rebuilds the agreement *)

Definition anything : assertion := λ _ _, True.
Definition sound : assertion := λ j _, failed j = false ∧ coherent j.

Section recovery.
Variable entries : list reservationEntry.

(** Before the validating pass reaches [l]. *)
Definition loading (l : list reservationEntry) : assertion := λ j f,
  sound j f ∧ NoDup (EOperationID <$> l) ∧ (∀ e, e ∈ l → e ∈ entries ∧ records j !! EOperationID e = None) ∧
  (∀ id r, records j !! id = Some r → id ∈ EOperationID <$> entries).

Lemma loading_view l j j' f : failed j' = failed j → records j' = records j → fences j' = fences j → loading l j f → loading l j' f.
Proof.
  intros Hf Hr Hfe ((Hfl & Hc) & Hn & Hl & He). unfold loading, sound. rewrite Hf, Hr. split_and!; try done. by apply (co_view j).
Qed.

Lemma loading_record e l j j' f r :
  loading (e :: l) j f → OperationID r = EOperationID e → validateRecord sha256 digestTicket marshalBinding r = true →
  failed j' = false → records j' = <[EOperationID e := r]> (records j) → coherent j' → loading l j' f.
Proof.
  intros ((Hf & Hc) & Hn & Hl & He) Hid Hv Hf' Hr' Hc'. apply NoDup_cons in Hn as [Hnin Hn]. split_and!; [done..| |].
  - intros e' Hin. destruct (Hl e' ltac:(by right)) as [He' Hnone]. split; [exact He'|]. rewrite Hr', lookup_insert_ne; [done|].
    intros Heq. apply Hnin. rewrite Heq. apply list_elem_of_fmap. by exists e'.
  - intros id r'. rewrite Hr'. destruct (decide (id = EOperationID e)) as [->|Hne].
    + intros _. apply list_elem_of_fmap. exists e. split; [done|]. apply Hl. left.
    + rewrite lookup_insert_ne by done. apply He.
Qed.

Lemma recover_entry_ok owned e l :
  hoare (loading (e :: l)) (recover_entry owned e) (λ _, loading l) anything.
Proof.
  unfold recover_entry. set (id := EOperationID e). set (P := loading (e :: l)).
  eapply h_bind; [by apply h_guard_keep|]. intros ?.
  eapply h_bind; [by apply (h_loadRecord P anything)|]. intros r. cbn zeta. cbn beta. fold id.
  apply (h_pure (OperationID r = id ∧ validateRecord sha256 digestTicket marshalBinding r = true)).
  { intros j f [_ Hl]. split; [by apply (loaded_ready id r f)|]. destruct Hl as (data & hs & _ & _ & Hh & _).
    by eapply history_head. }
  intros [Hid Hv]. eapply h_pre; [intros j f [H _]; exact H|].
  eapply (h_bind _ _ (λ _, P)); [apply h_get_keep|]. intros j0.
  eapply h_bind; [by apply h_guard_keep|]. intros ?. eapply h_bind; [by apply h_guard_keep|]. intros ?.
  eapply (h_bind _ _ (λ _, P)); [apply h_upd_keep; intros j f; by apply loading_view|]. intros ?.
  eapply (h_bind _ _ (λ _, P)).
  { destruct (eqt _ _).
    - eapply h_bind; [by apply h_or_unavailable, (h_disk_read P anything)|]. intros data.
      eapply h_post; [by apply (h_guard_keep _ anything)|..]; cbn beta; [by intros ? j f []|done].
    - eapply h_bind; [by apply h_or_unavailable, (h_artifact P anything)|]. intros ?. by apply h_ret. }
  intros ?. set (P1 := λ (j : Journal) (f : gmap text text), ∃ j0, P j0 f ∧ failed j = failed j0 ∧
    records j = <[id := r]> (records j0) ∧ fences j = fences j0).
  eapply (h_bind _ _ (λ _, P1)); [apply h_upd; intros j f H; by exists j|]. intros ?.
  eapply (h_bind _ _ (λ _, P1)); [by apply h_upd_keep|]. intros ?.
  destruct (fencing_phase r) eqn:Hfp.
  - eapply h_bind; [apply h_get_j|]. intros j1.
    eapply (h_bind _ _ (λ _ j f, P1 j f ∧ j1 = j ∧ fences j !! target r = None)).
    { eapply h_post; [by apply (h_guard _ anything)|..]; cbn beta; [|done].
      intros ? j f [[H ->] Hg]. split_and!; [exact H|done|]. by apply negb_true_iff, bool_decide_eq_false_1, eq_None_not_Some in Hg. }
    intros ?. apply h_upd. intros j f [(j2 & HP & Hf & Hr & Hfe) [-> Hfree]]. pose proof HP as ((Hf2 & Hc2) & _ & Hl & _).
    apply (loading_record e l j2 _ f r HP Hid Hv); [by rewrite <- Hf2, <- Hf|exact Hr|].
    apply (co_view (set_fences (<[target r := id]> (fences j2)) (set_record id r j2))).
    + exact Hr.
    + cbn [fences set_fences]. by rewrite Hfe.
    + apply (co_open j2 Hc2 id r Hid Hv); [|exact Hfp|by rewrite <- Hfe]. intros r' Hr'.
      destruct (Hl e ltac:(left)) as [_ Hn]. unfold id in Hr'. congruence.
  - apply h_ret. intros j f (j2 & HP & Hf & Hr & Hfe). pose proof HP as ((Hf2 & Hc2) & _ & Hl & _).
    apply (loading_record e l j2 _ f r HP Hid Hv); [by rewrite <- Hf2, <- Hf|exact Hr|].
    apply (co_view (set_record id r j2)); [exact Hr|exact Hfe|].
    destruct (Hl e ltac:(left)) as [_ Hn]. apply (co_keep j2 Hc2 id r Hid Hv); [|done]. unfold id. congruence.
Qed.

(** Before the closing pass reaches [l]: only its records can still be open. *)
Definition closing (l : list reservationEntry) : assertion := λ j f,
  sound j f ∧ ∀ id r, records j !! id = Some r → recovery_phase r = None ∨ id ∈ EOperationID <$> l.

Lemma closing_step e l j f j' r :
  closing (e :: l) j f → sound j' f → (∀ id, id ≠ EOperationID e → records j' !! id = records j !! id) →
  records j' !! EOperationID e = Some r → recovery_phase r = None → closing l j' f.
Proof.
  intros [_ Hl] Hs Hne He Hr. split; [exact Hs|]. intros id r' Hr'.
  destruct (decide (id = EOperationID e)) as [->|Hn]; [left; congruence|].
  rewrite Hne in Hr' by done. destruct (Hl id r' Hr') as [H|[->|H]%elem_of_cons]; [by left|done|by right].
Qed.

Lemma close_entry_ok e l : hoare (closing (e :: l)) (close_entry e) (λ _, closing l) anything.
Proof.
  unfold close_entry. set (id := EOperationID e). eapply h_bind; [apply h_get_j|]. intros j0. fold id.
  destruct (records j0 !! id) as [r|] eqn:Hr; cycle 1.
  { change (recovery_phase (default zero_record None)) with (@None text). apply h_ret. intros j f [[Hs Hl] ->]. split; [exact Hs|].
    intros id' r' Hr'. destruct (Hl id' r' Hr') as [H|[Heq|H]%elem_of_cons]; [by left| |by right].
    fold id in Heq. subst id'. congruence. }
  change (default zero_record (Some r)) with r. destruct (recovery_phase r) as [phase|] eqn:Hph; cycle 1.
  { apply h_ret. intros j f [H ->]. eapply closing_step; [exact H|apply H|done|exact Hr|exact Hph]. }
  set (P := λ (j : Journal) (f : gmap text text), closing (e :: l) j f ∧ records j = records j0).
  assert (clock_free P) as Hcl.
  { intros j f h [[[Hf Hc] Hl] Hj]. split; [|exact Hj]. split; [|exact Hl]. split; [exact Hf|by apply (co_view j)]. }
  eapply (h_bind _ _ (λ _, P)); [eapply h_pre; [|by apply h_observeTime]; by intros j f [H ->]|].
  intros recorded. cbn zeta. set (next := advance _ _ _ _ r).
  apply (h_pure (OperationID r = id)).
  { intros j f [[[_ Hc] _] Hj]. apply (co_record _ Hc). by rewrite Hj. }
  intros Hid. set (J := λ j : Journal, closing (e :: l) j ∅ ∧ records j = records j0).
  eapply (h_bind _ _ (λ _, persisted id r next J)).
  { eapply h_pre; [|eapply h_post; [apply (h_persist_have id r next J), Hid|..]].
    - intros j f [[[Hf Hc] Hl] Hj]. split; [|split; [by split|exact Hj]]. split_and!; [exact Hf|exact Hc|by rewrite Hj].
    - done.
    - done. }
  assert (∀ j f, persisted id r next J j f → ∀ j', records j' = records j → failed j' = failed j → ok j' f →
    recovery_phase next = None → closing l j' f) as Hfin.
  { intros j f (j1 & h & (Hf & _ & _) & [[[_ _] Hl] Hj] & -> & _) j' Hrj Hfj Hok Hn.
    assert (failed j' = false) as Hf' by (rewrite Hfj; exact Hf).
    split; [split; [exact Hf'|by apply Hok]|]. intros id' r'. rewrite Hrj. cbn [records set_highWater set_record].
    destruct (decide (id' = id)) as [->|Hne]; [rewrite lookup_insert_eq; intros [= <-]; by left|].
    rewrite lookup_insert_ne by done. intros Hr'. destruct (Hl id' r' Hr') as [H|[->|H]%elem_of_cons]; [by left|done|by right]. }
  intros ?. unfold recovery_phase in Hph.
  destruct (eqt (Phase r) BrokerOperationAdmitted) eqn:Ha; [|destruct (eqt (Phase r) BrokerOperationDispatching) eqn:Hd; [|done]];
    injection Hph as <-.
  - change (eqt BrokerOperationNotApplied BrokerOperationNotApplied) with true. apply h_upd. intros j f H.
    eapply (Hfin j f H); [reflexivity..| |reflexivity].
    apply (persisted_close id r next J j f Hid); [unfold fencing_phase; by rewrite Ha|reflexivity|reflexivity|exact H].
  - change (eqt BrokerOperationOutcomeUnknown BrokerOperationNotApplied) with false. apply h_ret. intros j f H.
    eapply (Hfin j f H); [reflexivity..| |reflexivity].
    apply (persisted_keep id r next J j f Hid); [|by left|exact H]. unfold fencing_phase. rewrite Ha, Hd. reflexivity.
Qed.
End recovery.

(** After recovery the instance is sound and no operation is in flight. *)
Definition settled : assertion := λ j f,
  sound j f ∧ ∀ id r, records j !! id = Some r → recovery_phase r = None.

Definition fresh_journal (j : Journal) : Prop := failed j = false ∧ records j = ∅ ∧ fences j = ∅.

Lemma fresh_coherent j : fresh_journal j → coherent j.
Proof.
  intros (_ & Hr & Hf). constructor; rewrite Hr.
  - intros id r. by rewrite lookup_empty.
  - intros t id. rewrite Hf, lookup_empty. split; [done|]. intros (r & H & _). by rewrite lookup_empty in H.
Qed.

Lemma recover_ok : hoare (λ j _, fresh_journal j) recover (λ _, settled) anything.
Proof.
  unfold recover. set (P := λ (j : Journal) (_ : gmap text text), fresh_journal j).
  eapply (h_bind _ _ (λ entries j f, P j f ∧ NoDup (EOperationID <$> entries))).
  { apply h_or_unavailable. unfold readReservations. eapply (h_bind _ _ (λ _, P)); [apply h_get_keep|]. intros j0.
    eapply h_bind; [by apply h_or_unavailable, (h_disk_read P anything)|]. intros data.
    eapply h_post; [by apply (h_lift _ _ anything)|..]; cbn beta; [|done].
    intros entries j f [[HP _] Hl]. split; [exact HP|]. eapply entries_loop_NoDup; [..|exact Hl]; [constructor|set_solver]. }
  intros entries. eapply h_bind; [apply h_get_keep|]. intros j0.
  set (P1 := λ j f, P j f ∧ NoDup (EOperationID <$> entries)).
  eapply (h_bind _ _ (λ _, P1)).
  { apply h_or_unavailable. unfold disk_names. eapply h_bind; [apply h_env|]. intros a.
    destruct a; [|by apply h_throw..]. eapply h_bind; [apply h_get_files|]. intros fs. cbn zeta.
    destruct (_ <? _); [by apply h_throw|apply h_ret]; by intros j f [H _]. }
  intros names. eapply h_bind; [by apply h_guard_keep|]. intros ?. cbn zeta.
  eapply h_bind; [by apply h_guard_keep|]. intros ?.
  eapply (h_bind _ _ (λ _, loading entries [])).
  { eapply h_pre; [|apply (h_for_each (loading entries)); intros; apply recover_entry_ok].
    intros j f [HP Hn]. pose proof (fresh_coherent j HP) as Hc. destruct HP as (Hf & Hr & Hfe).
    split; [by split|]. split; [exact Hn|]. split; [intros e He; rewrite Hr; by split|].
    intros id r. by rewrite Hr, lookup_empty. }
  intros ?. eapply (h_bind _ _ (λ _, closing entries)).
  { apply h_upd. intros j f ((Hf & Hc) & _ & _ & He). split; [split; [exact Hf|by apply (co_view j)]|].
    intros id r Hr. right. by eapply He. }
  intros ?. eapply h_post; [apply (h_for_each closing), close_entry_ok|..]; [|done].
  intros ? j f [Hs Hl]. split; [exact Hs|]. intros id r Hr. destruct (Hl id r Hr) as [H|H%not_elem_of_nil]; [exact H|done].
Qed.

Lemma openJournal_ok identity limits create : hoare anything (openJournal identity limits create) (λ _, settled) anything.
Proof.
  unfold openJournal. set (P := λ (j : Journal) (_ : gmap text text), fresh_journal j).
  eapply h_bind; [by apply h_lift_keep|]. intros l. eapply h_bind; [by apply h_guard_keep|]. intros ?.
  eapply (h_bind _ _ (λ _, anything)).
  { intros σ _. by destruct (openDisk create σ) as [? []]. }
  intros ?. eapply (h_bind _ _ (λ _, P)); [by apply h_upd|]. intros ?.
  eapply (h_bind _ _ (λ _, P)).
  { destruct create.
    - eapply h_bind; [apply h_env|]. intros now. cbn zeta. eapply (h_bind _ _ (λ _, P)); [by apply h_upd_keep|]. intros ?.
      eapply h_bind; [by apply h_guard_keep|]. intros ?. destruct (encodeSlot _ _) as [data|]; [|by apply h_throw].
      apply h_or_unavailable. eapply (h_bind _ _ (λ _, P)); [by apply h_allocate|]. intros ?. by apply h_write.
    - eapply (h_bind _ _ (λ _, P)).
      + eapply h_post; [by apply (h_or_unavailable _ _ _ anything), (h_disk_read P)|..]; cbn beta; [by intros ? j f []|done].
      + intros data. destruct (decodeSlot _ _) as [h|]; [|by apply h_throw].
        eapply (h_bind _ _ (λ _, P)); [by apply h_upd_keep|]. intros ?. by apply h_guard_keep. }
  intros ?. eapply (h_bind _ _ (λ _, P)); [by apply h_upd_keep|]. intros ?. apply h_or_unavailable, recover_ok.
Qed.

(** ** Programs using the journal

    One process at a time holds the lock.  A crash drops the instance; every
    interruption inside an operation is a failing disk operation before it. *)

Inductive call :=
| CCreate (identity : Identity) (limits : Limits)
| COpen (identity : Identity) (limits : Limits)
| CReserve (reservation : Reservation)
| CBind (owner : Owner) (id : text) (intent : Intent)
| CAdmit (expected : Compare) (art artifactSHA256 : text)
| CClaim (expected : Compare)
| CComplete (expected : Compare) (completion : Completion)
| CLookup (owner : Owner) (id : text)
| CReadArtifact (owner : Owner) (id : text)
| CFenced (target : text)
| CClose
| CCrash.

Inductive reply := RRecord (r : JournalRecord) | RText (t : text) | RBool (b : bool) | RDone | RErr (e : jerr).

Record system := { inst : option Journal; disk : world }.

Definition on_inst {A : Type} (wrap : A → reply) (m : M A) (s : system) : system * reply :=
  match inst s with
  | None => (s, RErr errUnavailable)
  | Some j =>
      match m {| jr := j; w := disk s |} with
      | (σ', Ok a) => ({| inst := Some (jr σ'); disk := w σ' |}, wrap a)
      | (σ', Err e) => ({| inst := Some (jr σ'); disk := w σ' |}, RErr e)
      end
  end.

Definition opening (m : M unit) (s : system) : system * reply :=
  match inst s with
  | Some _ => (s, RErr errUnavailable)
  | None =>
      match m {| jr := blank_journal {| Records := 0; ReservedBytes := 0 |}; w := disk s |} with
      | (σ', Ok _) => ({| inst := Some (jr σ'); disk := w σ' |}, RDone)
      | (σ', Err e) => ({| inst := None; disk := w σ' |}, RErr e)
      end
  end.

Definition perform (c : call) (s : system) : system * reply :=
  match c with
  | CCreate identity limits => opening (openJournal identity limits true) s
  | COpen identity limits => opening (openJournal identity limits false) s
  | CReserve reservation => on_inst RRecord (Reserve reservation) s
  | CBind owner id intent => on_inst RRecord (Bind owner id intent) s
  | CAdmit expected art sha => on_inst RRecord (Admit expected art sha) s
  | CClaim expected => on_inst RRecord (ClaimDispatch expected) s
  | CComplete expected completion => on_inst RRecord (Complete expected completion) s
  | CLookup owner id => on_inst RRecord (Lookup owner id) s
  | CReadArtifact owner id => on_inst RText (ReadArtifact owner id) s
  | CFenced target => on_inst RBool (Fenced target) s
  | CClose => ({| inst := None; disk := disk s |}, RDone)
  | CCrash => ({| inst := None; disk := disk s |}, RDone)
  end.

Fixpoint run (calls : list call) (s : system) : system * list (call * reply) :=
  match calls with
  | [] => (s, [])
  | c :: calls =>
      let '(s1, r) := perform c s in
      let '(s2, log) := run calls s1 in
      (s2, (c, r) :: log)
  end.

(** No directory, no instance. *)
Definition empty_system : system := {| inst := None; disk := {| rootExists := false; files := ∅; tick := 0 |} |}.

(** The log entry grants a dispatch right for operation [id]. *)
Definition grants (id : text) (entry : call * reply) : bool :=
  match entry with
  | (CClaim _, RRecord r) => eqt (OperationID r) id
  | _ => false
  end.

Abbreviation sfiles s := (files (disk s)).

Lemma on_inst_hoare {A : Type} (wrap : A → reply) (m : M A) (s : system) (Q : A → assertion) (E : assertion) :
  hoare (λ _ f, f = sfiles s) m Q E →
  match on_inst wrap m s with
  | (s', r) => s' = s ∧ r = RErr errUnavailable ∨
      ∃ j, inst s' = Some j ∧ ((∃ a, r = wrap a ∧ Q a j (sfiles s')) ∨ (∃ e, r = RErr e ∧ E j (sfiles s')))
  end.
Proof.
  intros Hm. unfold on_inst. destruct (inst s) as [j|]; [|by left].
  specialize (Hm {| jr := j; w := disk s |} eq_refl). destruct (m _) as [σ' [a|e]]; right; eexists; (split; [done|]); eauto.
Qed.

(** One call only adds slots; a grant needs a fresh claim. *)
Lemma perform_spec c (s s' : system) r : perform c s = (s', r) →
  evolve (sfiles s) (sfiles s') ∧
  ∀ id, grants id (c, r) = true → ¬ claimed (sfiles s) id ∧ claimed (sfiles s') id.
Proof.
  intros H. assert (∀ (A : Type) (wrap : A → reply) (m : M A), on_inst wrap m s = (s', r) →
    hoare (ev (sfiles s)) m (λ _, ev (sfiles s)) (ev (sfiles s)) → evolve (sfiles s) (sfiles s')) as Hop.
  { intros A wrap m Heq Hm. pose proof (on_inst_hoare wrap m s _ _ (h_pre _ _ _ _ _
      (λ j f Hf, eq_ind_r (λ g, evolve (sfiles s) g) (evolve_refl _) Hf) Hm)) as Hs. rewrite Heq in Hs.
    destruct Hs as [(-> & _)|(j & _ & [(a & _ & He)|(e & _ & He)])]; [apply evolve_refl|exact He..]. }
  assert (∀ m, opening m s = (s', r) → hoare (ev (sfiles s)) m (λ _, ev (sfiles s)) (ev (sfiles s)) →
    evolve (sfiles s) (sfiles s')) as Hopen.
  { intros m Heq Hm. unfold opening in Heq. destruct (inst s); [injection Heq as <- <-; apply evolve_refl|].
    specialize (Hm {| jr := blank_journal {| Records := 0; ReservedBytes := 0 |}; w := disk s |} (evolve_refl _)).
    destruct (m _) as [σ' [a|e]]; injection Heq as <- <-; exact Hm. }
  destruct c; cbn [perform] in H; (split; [|intros id'; cbn [grants]; try discriminate]).
  1: eapply Hopen, openJournal_ev; exact H.
  1: eapply Hopen, openJournal_ev; exact H.
  1: eapply Hop, Reserve_ev; exact H.
  1: eapply Hop, Bind_ev; exact H.
  1: eapply Hop, Admit_ev; exact H.
  3: eapply Hop, Complete_ev; exact H.
  3: eapply Hop, Lookup_ev; exact H.
  3: eapply Hop, ReadArtifact_ev; exact H.
  3: eapply Hop, Fenced_ev; exact H.
  3-4: injection H as <- <-; apply evolve_refl.
  all: pose proof (on_inst_hoare RRecord (ClaimDispatch expected) s _ _ (ClaimDispatch_ev (sfiles s) expected)) as Hs;
    rewrite H in Hs.
  - destruct Hs as [(-> & _)|(j & _ & [(a & _ & He & _)|(e & _ & He)])]; [apply evolve_refl|exact He..].
  - destruct Hs as [(-> & ->)|(j & _ & [(a & -> & He & Hid & Hn & Hc)|(e & -> & He)])]; try discriminate.
    intros Heq. apply bool_decide_eq_true_1 in Heq as <-. rewrite Hid. done.
Qed.

Lemma run_evolve calls (s s' : system) log : run calls s = (s', log) → evolve (sfiles s) (sfiles s').
Proof.
  revert s s' log. induction calls as [|c calls IH]; intros s s' log H; cbn [run] in H.
  { injection H as <- <-. apply evolve_refl. }
  destruct (perform c s) as [s1 r] eqn:Hp. destruct (run calls s1) as [s2 log2] eqn:Hr. injection H as <- <-.
  eapply evolve_trans; [by eapply perform_spec|by eapply IH].
Qed.

Lemma run_grants calls (s s' : system) log id : run calls s = (s', log) →
  (length (filter (λ e, grants id e = true) log) ≤ 1)%nat ∧
  (claimed (sfiles s) id → length (filter (λ e, grants id e = true) log) = 0%nat).
Proof.
  revert s s' log. induction calls as [|c calls IH]; intros s s' log H; cbn [run] in H.
  { injection H as <- <-. simpl. split; [lia|done]. }
  destruct (perform c s) as [s1 r] eqn:Hp. destruct (run calls s1) as [s2 log2] eqn:Hr. injection H as <- <-.
  destruct (perform_spec _ _ _ _ Hp) as [He Hg]. destruct (IH _ _ _ Hr) as [H1 H0]. rewrite filter_cons.
  destruct (decide (grants id (c, r) = true)) as [Hgr|Hgr]; [|split; [exact H1|]].
  - destruct (Hg id Hgr) as [Hn Hc]. cbn [length]. rewrite (H0 Hc). split; [lia|]. intros Hcl. by destruct Hn.
  - intros Hc. apply H0. by eapply claimed_evolve.
Qed.

(** *** The instance of a running program *)

Definition inst_ok (s : system) : Prop := ∀ j, inst s = Some j → ok j (sfiles s).

Lemma on_inst_ok {A : Type} (wrap : A → reply) (m : M A) (s s' : system) r :
  hoare ok m (λ _, ok) ok → on_inst wrap m s = (s', r) → inst_ok s → inst_ok s'.
Proof.
  intros Hm Heq Hs. unfold on_inst in Heq. destruct (inst s) as [j|] eqn:Hj; [|by injection Heq as <- <-].
  specialize (Hm {| jr := j; w := disk s |} (Hs j Hj)).
  destruct (m _) as [σ' [a|e]]; injection Heq as <- <-; intros j' [= <-]; exact Hm.
Qed.

(** Opening yields a settled instance or none. *)
Lemma opening_settled identity limits create (s s' : system) r :
  opening (openJournal identity limits create) s = (s', r) → inst s = None → ∀ j, inst s' = Some j → settled j (sfiles s').
Proof.
  intros Heq Hn j Hj. unfold opening in Heq. rewrite Hn in Heq.
  pose proof (openJournal_ok identity limits create {| jr := blank_journal {| Records := 0; ReservedBytes := 0 |}; w := disk s |} I) as Hm.
  destruct (openJournal _ _ _ _) as [σ' [a|e]]; injection Heq as <- <-; [|done]. injection Hj as <-. exact Hm.
Qed.

Lemma opening_ok identity limits create (s s' : system) r :
  opening (openJournal identity limits create) s = (s', r) → inst_ok s → inst_ok s'.
Proof.
  intros Heq Hs. destruct (inst s) as [j0|] eqn:Hn.
  - unfold opening in Heq. rewrite Hn in Heq. by injection Heq as <- <-.
  - intros j Hj _. by apply (opening_settled _ _ _ _ _ _ Heq Hn j Hj).
Qed.

Lemma perform_ok c (s s' : system) r : perform c s = (s', r) → inst_ok s → inst_ok s'.
Proof.
  destruct c; cbn [perform]; intros H.
  1-2: by eapply opening_ok.
  1: by eapply on_inst_ok; [apply Reserve_ok|exact H].
  1: by eapply on_inst_ok; [apply Bind_ok|exact H].
  1: by eapply on_inst_ok; [apply Admit_ok|exact H].
  1: by eapply on_inst_ok; [apply ClaimDispatch_ok|exact H].
  1: by eapply on_inst_ok; [apply Complete_ok|exact H].
  1: by eapply on_inst_ok; [apply Lookup_ok|exact H].
  1: by eapply on_inst_ok; [apply ReadArtifact_ok|exact H].
  1: by eapply on_inst_ok; [apply Fenced_ok|exact H].
  all: by injection H as <- <-.
Qed.

Lemma run_ok calls (s s' : system) log : run calls s = (s', log) → inst_ok s → inst_ok s'.
Proof.
  revert s s' log. induction calls as [|c calls IH]; intros s s' log H Hs; cbn [run] in H; [by injection H as <- <-|].
  destruct (perform c s) as [s1 r] eqn:Hp. destruct (run calls s1) as [s2 log2] eqn:Hr. injection H as <- <-.
  eapply IH; [exact Hr|]. by eapply perform_ok.
Qed.

Lemma run_claimed calls (s s' : system) log id e : run calls s = (s', log) →
  e ∈ log → grants id e = true → claimed (sfiles s') id.
Proof.
  revert s s' log. induction calls as [|c calls IH]; intros s s' log H Hin Hg; cbn [run] in H.
  { injection H as <- <-. by apply not_elem_of_nil in Hin. }
  destruct (perform c s) as [s1 r] eqn:Hp. destruct (run calls s1) as [s2 log2] eqn:Hr. injection H as <- <-.
  apply elem_of_cons in Hin as [->|Hin]; [|by eapply IH].
  eapply claimed_evolve; [by eapply run_evolve|]. by eapply perform_spec.
Qed.

(** An instance that failed or was closed. *)
Definition unusable (s : system) : Prop := ∃ j, inst s = Some j ∧ (failed j || closed j) = true.

Lemma usable_refused σ : failed (jr σ) || closed (jr σ) = true → usable σ = (σ, Err errUnavailable).
Proof.
  intros H. unfold usable, get_j, guard_m, throw, mbind, M_bind. rewrite orb_comm, H. reflexivity.
Qed.

Lemma on_inst_refused {A : Type} (wrap : A → reply) (m : M A) (s : system) :
  (∀ σ, failed (jr σ) || closed (jr σ) = true → m σ = (σ, Err errUnavailable)) →
  unusable s → on_inst wrap m s = (s, RErr errUnavailable).
Proof.
  intros Hm (j & Hj & Hf). unfold on_inst. rewrite Hj, Hm by done. cbn. rewrite <- Hj. by destruct s.
Qed.

Lemma refused_bind {A B : Type} (m : M A) (k : A → M B) σ :
  m σ = (σ, Err errUnavailable) → (m ≫= k) σ = (σ, Err errUnavailable).
Proof. intros H. unfold mbind, M_bind. by rewrite H. Qed.

Definition operation (c : call) : bool :=
  match c with CCreate _ _ | COpen _ _ | CClose | CCrash => false | _ => true end.

(** ** Properties *)

(** C1: over any program of calls, crashes and reopens, under any disk faults,
    clock, randomness and cancellations and from any disk content, at most one
    ClaimDispatch of an operation succeeds; none does when a written record
    already claims it, and after one did a durable record claims it. *)
Theorem dispatch_granted_once calls (s s' : system) log id : run calls s = (s', log) →
  (length (filter (λ e, grants id e = true) log) ≤ 1)%nat ∧
  (claimed (sfiles s) id → filter (λ e, grants id e = true) log = []) ∧
  (filter (λ e, grants id e = true) log ≠ [] → claimed (sfiles s') id).
Proof.
  intros H. destruct (run_grants _ _ _ _ id H) as [H1 H0]. split_and!; [exact H1|by intros Hc; apply nil_length_inv, H0|].
  intros Hn. destruct (filter _ log) as [|e l] eqn:Hf; [done|].
  assert (e ∈ filter (λ e, grants id e = true) log) as [Hg Hin]%list_elem_of_filter by (rewrite Hf; left).
  by eapply run_claimed.
Qed.

(** C32: a slot of a record file that was ever written keeps its bytes through
    every later call, crash and recovery. *)
Theorem slots_written_once calls (s s' : system) log id k bytes : run calls s = (s', log) →
  written (sfiles s) id k bytes → written (sfiles s') id k bytes.
Proof. intros H. apply (run_evolve _ _ _ _ H). Qed.

(** C2: the fences of a running instance that has not failed are exactly the
    targets of its admitted, dispatching and outcome-unknown records, so no two
    such operations share a target, and every record it holds is valid. *)
Theorem fences_exclusive calls (s s' : system) log j : inst s = None → run calls s = (s', log) →
  inst s' = Some j → failed j = false →
  (∀ t id, fences j !! t = Some id ↔ ∃ r, records j !! id = Some r ∧ fencing_phase r = true ∧ target r = t) ∧
  (∀ id1 id2 r1 r2, records j !! id1 = Some r1 → records j !! id2 = Some r2 → fencing_phase r1 = true →
     fencing_phase r2 = true → target r1 = target r2 → id1 = id2) ∧
  (∀ id r, records j !! id = Some r → OperationID r = id ∧ validateRecord sha256 digestTicket marshalBinding r = true).
Proof.
  intros Hn Hrun Hj Hf. assert (coherent j) as Hc.
  { eapply (run_ok _ _ _ _ Hrun); [|exact Hj|exact Hf]. intros j' Hj'. congruence. }
  pose proof (co_fence _ Hc) as Hfe. split_and!; [exact Hfe| |apply (co_record _ Hc)].
  intros id1 id2 r1 r2 H1 H2 Hp1 Hp2 Ht. apply (inj Some). etrans; [symmetry|]; apply Hfe; eauto.
Qed.

(** Once an instance has failed or was closed, every operation on it is
    refused as unavailable and changes nothing. *)
Theorem poisoned_unusable c (s : system) : unusable s → operation c = true → perform c s = (s, RErr errUnavailable).
Proof.
  intros Hu Hc. destruct c; try done; cbn [perform]; apply on_inst_refused; try exact Hu; intros σ Hσ.
  all: unfold Bind, Admit, ClaimDispatch, Complete, Lookup, ReadArtifact, compare, lookup, Reserve, Fenced;
    repeat first [by apply usable_refused|apply refused_bind].
Qed.
End journal.

(** ** A concrete program

    A broker creates a journal, reserves an operation, binds an intent to it,
    admits an artifact and claims its dispatch, on a disk that never fails. *)

Module Demo.
Import FieldCodec.

Definition d (c : ascii) : text := replicate 64 c.
Definition owner : Owner := {| BrokerSHA256 := d "a"; BackendSHA256 := d "b"; PrincipalSHA256 := d "c"; WorkloadSHA256 := d "d"; AudienceSHA256 := d "e" |}.
Definition identity : Identity := {| IdBrokerSHA256 := d "a"; IdBackendSHA256 := d "b" |}.
Definition limits : Limits := {| Records := 2; ReservedBytes := 2 ^ 20 |}.
Definition reservation : Reservation :=
  {| ROwner := owner; ExecutionSHA256 := d "f"; AuthorityRevisionSHA256 := d "0"; ExecutionNotBeforeMillis := 1;
     ExecutionExpiresMillis := 1050000; GrantExpiresMillis := 1050000; CredentialExpiresMillis := 1050000;
     OperationDeadlineMillis := 1050000; ObservationUntilMillis := 2000000; ArtifactCapacity := 4 |}.
(** Ticks below 30 draw one id, later ones another. *)
Definition random (t : nat) : option (vec ascii 32) := Some (vreplicate 32 (if (t <? 30)%nat then "001"%char else "002"%char)).
Definition id1 : text := hex_encode (replicate 32 "001"%char).
Definition id2 : text := hex_encode (replicate 32 "002"%char).
Definition intent (id tgt : text) : Intent :=
  {| ITicket := {| TSchemaVersion := 1; TOperationID := id; TPrincipalSHA256 := d "c"; TExecutionSHA256 := d "f"; TAudienceSHA256 := d "e";
       TBackendSHA256 := d "b"; TOperation := BrokerOperationJiraCommentApply; TOperationVersion := 1; TArgumentsSHA256 := d "1";
       TProposalSHA256 := d "2"; TIssuedAtMillis := 1000000; TAcceptUntilMillis := 1050000 |};
     NativeSHA256 := d "3"; TargetSHA256 := tgt; EffectSHA256 := d "5"; EvidenceSHA256 := d "6" |}.
Definition binding : text := digest toy_sha256 (txt "atl.broker.journal.v1/binding" ++ [NUL] ++ txt "b").
Definition cmp (id : text) (q : Z) : Compare := {| COwner := owner; COperationID := id; CBindingSHA256 := binding; CompareSequence := q |}.
Definition art : text := txt "body".
Definition go (fault_ : nat → fault) (calls : list call) (s : system) : system * list (call * reply) :=
  run toy_sha256 (λ _, Some (txt "t")) (λ _ _ _, Some (txt "b")) (λ _, 1000000) (λ _, false) random (λ _, false) fault_ calls s.
Definition start := [CCreate identity limits; CReserve reservation; CBind owner id1 (intent id1 (d "4")); CAdmit (cmp id1 2) art (digest toy_sha256 art)].

Lemma dispatch_granted_once_witness :
  let calls := start ++ [CClaim (cmp id1 3)] in
  let log := (go (λ _, NoFault) calls empty_system).2 in
  existsb (grants id1) log = true ∧ (length (filter (λ e, grants id1 e = true) log) ≤ 1)%nat.
Proof.
  cbv zeta. split; [by vm_compute|].
  exact (proj1 (dispatch_granted_once _ _ _ _ _ _ _ _ _ empty_system _ _ id1 (surjective_pairing _))).
Defined.

Definition written_b (f : gmap text text) (id : text) (k : nat) : bool :=
  match f !! rec_name id with
  | Some data => (length data =? recordBytes)%nat && (k <? slotCount)%nat && negb (zero (slot data slotBytes k))
  | None => false
  end.
Definition bytes_of (f : gmap text text) (id : text) (k : nat) : text := slot (default [] (f !! rec_name id)) slotBytes k.

Lemma written_b_true f id k : written_b f id k = true → written f id k (bytes_of f id k).
Proof.
  unfold written_b, bytes_of, written. destruct (f !! rec_name id) as [data|]; [|done]. intros H. bool_hyps.
  exists data. done.
Qed.

(** The slot of a reservation survives a crash and a failed reopening. *)
Lemma slots_written_once_witness :
  let s := (go (λ _, NoFault) [CCreate identity limits; CReserve reservation] empty_system).1 in
  let bytes := bytes_of (files (disk s)) id1 0 in
  written (files (disk s)) id1 0 bytes ∧
  written (files (disk (go (λ _, FailAfter 7) [CCrash; COpen identity limits] s).1)) id1 0 bytes.
Proof.
  cbv zeta. match goal with |- ?P ∧ _ => assert P as H end; [apply written_b_true; by vm_compute|].
  split; [exact H|].
  exact (slots_written_once _ _ _ _ _ _ _ _ _ _ _ _ _ _ _ (surjective_pairing _) H).
Defined.

(** Admitted, the operation fences its target. *)
Lemma fences_exclusive_witness :
  let s := (go (λ _, NoFault) start empty_system).1 in
  (λ j, (failed j, fences j !! d "4")) <$> inst s = Some (false, Some id1) ∧
  ∀ j, inst s = Some j → ∀ id r, records j !! id = Some r → fencing_phase r = true → target r = d "4" → id = id1.
Proof.
  cbv zeta. match goal with |- ?P ∧ _ => assert P as H end; [by vm_compute|]. split; [exact H|].
  intros j Hj. rewrite Hj in H. cbn [fmap option_fmap option_map] in H. injection H as Hf Hd.
  destruct (fences_exclusive toy_sha256 (λ _, Some (txt "t")) (λ _ _ _, Some (txt "b")) (λ _, 1000000) (λ _, false) random
    (λ _, false) (λ _, NoFault) start empty_system _ _ j eq_refl (surjective_pairing _) Hj Hf) as (Hfe & _ & _).
  intros id r Hr Hp Ht. apply (inj Some). rewrite <- Hd. symmetry. apply Hfe. eauto.
Defined.

Definition reopen : system → system * reply :=
  perform toy_sha256 (λ _, Some (txt "t")) (λ _ _ _, Some (txt "b")) (λ _, 1000000) (λ _, false) random (λ _, false)
    (λ _, NoFault) (COpen identity limits).

Lemma poisoned_unusable_witness :
  let s := {| inst := Some (set_failed (blank_journal limits)); disk := disk empty_system |} in
  unusable s ∧ (go (λ _, NoFault) [CFenced (d "4")] s).1 = s.
Proof.
  cbv zeta. match goal with |- ?P ∧ _ => assert P as H end; [by eexists|]. split; [exact H|].
  unfold go. cbn [run]. rewrite (poisoned_unusable _ _ _ _ _ _ _ _ (CFenced (d "4")) _ H eq_refl). reflexivity.
Defined.
End Demo.
End BrokerJournal.
