(* ===== verification/BrokerRecovery.v ===== *)
(** * Recovery of the broker journal (internal/adapter/brokerjournal: recovery.go)

    Opening a journal after the process died loads every record file of the
    directory, closes the operations that were in flight, and leaves on disk what
    the instance holds in memory. *)

From stdpp Require Import vector.
From S2P Require Import Prelude GoText Identifiers Encoding JournalRecord BrokerJournal.
Import GoText Identifiers Encoding JournalRecord BrokerJournal.BrokerJournal.

Module BrokerRecovery.
Open Scope Z_scope.

Section recovery.
Context `{!JsonCodec snapshot, !JsonCodec reservationEntry, !JsonCodec stateCommitment, !JsonCodec header}.
Context `{!JsonLaws snapshot encodable_snapshot, !JsonLaws reservationEntry encodable_entry,
          !JsonLaws stateCommitment encodable_commitment, !JsonLaws header encodable_header}.
Variable sha256 : text → vec ascii 32.
Variable digestTicket : Ticket → option text.
Variable marshalBinding : Reservation → text → Intent → option text.
Variable nowMillis : nat → Z.
Variable ctxErr : nat → bool.
Variable randomBytes : nat → option (vec ascii 32).
Variable hookErr : nat → bool.
Variable diskFault : nat → fault.

#[local] Notation assertion := (Journal → gmap text text → Prop).
#[local] Notation load_loop := (load_loop sha256 digestTicket marshalBinding).
#[local] Notation loadRecord := (loadRecord sha256 digestTicket marshalBinding diskFault).
#[local] Notation persist := (persist sha256 digestTicket marshalBinding hookErr diskFault).
#[local] Notation recover_entry := (recover_entry sha256 digestTicket marshalBinding diskFault).
#[local] Notation close_entry := (close_entry sha256 digestTicket marshalBinding nowMillis hookErr diskFault).
#[local] Notation recover := (recover sha256 digestTicket marshalBinding nowMillis hookErr diskFault).
#[local] Notation openJournal := (openJournal sha256 digestTicket marshalBinding nowMillis hookErr diskFault).
#[local] Notation perform := (perform sha256 digestTicket marshalBinding nowMillis ctxErr randomBytes hookErr diskFault).
#[local] Notation coherent := (coherent sha256 digestTicket marshalBinding).
#[local] Notation settled := (settled sha256 digestTicket marshalBinding).
#[local] Notation validRecord := (validateRecord sha256 digestTicket marshalBinding).

(** ** What the next open would load *)

(** The record file and the state file of [id] load as [r]. *)
Definition loads (id : text) (r : JournalRecord) (f : gmap text text) : Prop :=
  ∃ data commitments, f !! rec_name id = Some data ∧ length data = recordBytes ∧
    f !! state_name id = Some commitments ∧ length commitments = stateBytes ∧
    load_loop id data commitments (seq 0 slotCount) zero_record false = Ok r.

Lemma loads_fun id r r' f : loads id r f → loads id r' f → r = r'.
Proof. intros (d & c & H1 & _ & H2 & _ & H3) (d' & c' & H1' & _ & H2' & _ & H3'). simplify_eq. congruence. Qed.

(** After a blank slot only blank ones follow. *)
Lemma load_loop_blank id data commitments n : ∀ i current r, load_loop id data commitments (seq i n) current true = Ok r →
  r = current ∧ Sequence current ≠ 0 ∧ ∀ k, (i ≤ k < i + n)%nat → zero (slot data slotBytes k) = true ∧ zero (slot commitments indexSlotBytes k) = true.
Proof.
  induction n as [|n IH]; intros i current r H; cbn [seq BrokerJournal.load_loop] in H.
  { destruct (Sequence current =? 0) eqn:E; [done|]. injection H as <-. apply Z.eqb_neq in E. split_and!; [done|done|lia]. }
  destruct (zero (slot data slotBytes i)) eqn:Hz; [|done]. destruct (zero (slot commitments indexSlotBytes i)) eqn:Hc; [|done]. cbn [negb] in H.
  destruct (IH _ _ _ H) as (-> & Hs & Hk). split_and!; [done|done|]. intros k Hk'. destruct (decide (k = i)) as [->|]; [done|]. apply Hk. lia.
Qed.
Lemma load_loop_blanks id data commitments n current empty : Sequence current ≠ 0 → ∀ i,
  (∀ k, (i ≤ k < i + n)%nat → zero (slot data slotBytes k) = true ∧ zero (slot commitments indexSlotBytes k) = true) →
  load_loop id data commitments (seq i n) current empty = Ok current.
Proof.
  intros Hs. revert empty. induction n as [|n IH]; intros empty i H; cbn [seq BrokerJournal.load_loop]; [by rewrite (proj2 (Z.eqb_neq _ _) Hs)|].
  destruct (H i ltac:(lia)) as [-> ->]. cbn [negb]. apply IH. intros k Hk. apply H. lia.
Qed.

(** The sequence number only grows. *)
Lemma load_loop_sequence id data commitments n : ∀ i current empty r, load_loop id data commitments (seq i n) current empty = Ok r →
  Sequence current ≤ Z.of_nat i → Sequence current ≤ Sequence r.
Proof.
  induction n as [|n IH]; intros i current empty r H Hc; cbn [seq BrokerJournal.load_loop] in H; [destruct (_ =? 0); [done|by injection H as <-]|].
  destruct (zero (slot data slotBytes i)); [destruct (negb _); [done|]; by apply (IH _ _ _ _ H); lia|]. destruct empty; [done|].
  destruct (decodeSlot sha256 _) as [snap|]; [|done]. destruct (_ || negb (validateRecord _ _ _ _)) eqn:Hg; [done|].
  destruct (decodeFrame _ _ _) as [com|]; [|done]. destruct (negb (bool_decide _)); [done|]. destruct (_ || (0 <? i)%nat && _); [done|].
  apply IH in H; bool_hyps; lia.
Qed.

Section next.
Variables (id data commitments d c : text) (r next : JournalRecord).
Notation q := (Z.to_nat (Sequence r)).
Hypothesis Hid : OperationID next = id.
Hypothesis Hseq : Sequence next = Sequence r + 1.
Hypothesis Hsucc : validSuccessor r next = true.
Hypothesis Hvalid : validRecord next = true.
Hypothesis Hdata : length data = recordBytes.
Hypothesis Hcommit : length commitments = stateBytes.
Hypothesis Hd : encodeSlot sha256 {| SVersion := 1; SRecord := next |} = Some d.
Hypothesis Hc : encodeFrame sha256 (commitmentFor sha256 next d) indexSlotBytes = Some c.
Let data' := overwrite data (q * slotBytes) d.
Let commitments' := overwrite commitments (q * indexSlotBytes) c.

Lemma encodable_commitment_for : encodable_commitment (commitmentFor sha256 next d).
Proof. apply digest_plain, digest_valid. Qed.

(** The slot after the last one, written with its commitment, is loaded next. *)
Lemma load_loop_next n : ∀ i current, (i + n = slotCount)%nat → Sequence current = Z.of_nat i → (i = 0%nat → current = zero_record) →
  load_loop id data commitments (seq i n) current false = Ok r → load_loop id data' commitments' (seq i n) current false = Ok next.
Proof.
  pose proof (proj1 (proj2 (proj2 (validateRecord_inv _ _ _ _ Hvalid)))) as Hq.
  pose proof (decode_encode sha256 (encodable := encodable_snapshot) {| SVersion := 1; SRecord := next |} slotBytes d
    (validateRecord_encodable _ _ _ _ Hvalid) Hd) as [Hdec Hzd].
  pose proof (decode_encode sha256 (encodable := encodable_commitment) _ indexSlotBytes c encodable_commitment_for Hc) as [Hdecc _].
  pose proof (encodeFrame_length sha256 _ _ _ Hd) as Hld. pose proof (encodeFrame_length sha256 _ _ _ Hc) as Hlc.
  assert (0 ≤ Sequence r ≤ 7) as Hr by lia.
  assert (q * slotBytes + slotBytes ≤ length data)%nat as Hroom by (rewrite Hdata; unfold recordBytes, slotCount; nia).
  assert (q * indexSlotBytes + indexSlotBytes ≤ length commitments)%nat as Hroomc by (rewrite Hcommit; unfold stateBytes, slotCount; nia).
  assert (slot data' slotBytes q = d ∧ slot commitments' indexSlotBytes q = c) as [Hq1 Hq2] by (split; by apply overwrite_same).
  assert (∀ k, k ≠ q → slot data' slotBytes k = slot data slotBytes k ∧ slot commitments' indexSlotBytes k = slot commitments indexSlotBytes k) as Hother
    by (intros k Hk; split; apply overwrite_other; lia || congruence).
  induction n as [|n IH]; intros i current Hn Hs H0 H; cbn [seq BrokerJournal.load_loop] in H.
  { destruct (_ =? 0); [done|]. injection H as H. rewrite <- H, Hs in Hr. unfold slotCount in Hn. lia. }
  cbn [seq BrokerJournal.load_loop]. destruct (zero (slot data slotBytes i)) eqn:Hz.
  - destruct (negb (zero _)) eqn:Hzc; [done|]. apply load_loop_blank in H as (Hrc & Hne & Hbl). rewrite <- Hrc in *.
    assert (i = q) as -> by lia. rewrite Hq1, Hzd. unfold decodeSlot. rewrite Hdec. cbn [SVersion SRecord Z.eqb Pos.eqb negb orb].
    rewrite Hid, eqt_refl, Hseq, Z2Nat.id, Z.eqb_refl, Hvalid by lia. cbn [negb orb]. rewrite Hq2, Hdecc. rewrite bool_decide_true by done. cbn [negb].
    assert ((q =? 0)%nat = false ∧ (0 <? q)%nat = true) as [-> ->] by (split; [apply Nat.eqb_neq|apply Nat.ltb_lt]; lia). rewrite Hsucc. cbn [negb andb orb].
    apply load_loop_blanks; [lia|]. intros k Hk. destruct (Hother k ltac:(lia)) as [-> ->]. apply Hbl. lia.
  - destruct (decodeSlot sha256 (slot data slotBytes i)) as [snap|] eqn:Hds; [|done].
    destruct (_ || negb (validateRecord _ _ _ _)) eqn:Hg; [done|]. destruct (decodeFrame _ (slot commitments _ _) _) as [com|] eqn:Hdf; [|done].
    destruct (negb (bool_decide _)) eqn:Hcm; [done|]. destruct (_ || (0 <? i)%nat && _) eqn:Hch; [done|].
    assert (Sequence (SRecord snap) = Z.of_nat (S i)) as Hsi by (bool_hyps; lia).
    assert (i ≠ q) as Hne.
    { pose proof (load_loop_sequence _ _ _ _ _ _ _ _ H) as Hle. lia. }
    destruct (Hother i Hne) as [-> ->]. rewrite Hz, Hds, Hg, Hdf, Hcm, Hch. apply IH; [lia|done|lia|exact H].
Qed.
End next.

(** ** Writing a record *)

(** A property of the files that the two writes of a record keep. *)
Definition keeps_record (id : text) (R : gmap text text → Prop) : Prop :=
  ∀ f name d, is_Some (f !! name) → name = rec_name id ∨ name = state_name id → R f → R (<[name := d]> f).

Lemma anything_here (P : Journal → gmap text text → Prop) : ∀ j f, P j f → anything j f.
Proof. done. Qed.

(** When [persist] of the next record succeeds, that is what its files load as. *)
Lemma h_persist_loads (id : text) (r next : JournalRecord) (R : gmap text text → Prop) (J : Journal → Prop) :
  OperationID next = id → Sequence next = Sequence r + 1 → (∀ j, J j → records j !! id = Some r) → keeps_record id R →
  hoare (λ j f, loads id r f ∧ R f ∧ J j) (persist next)
    (λ _ j f, loads id next f ∧ R f ∧ ∃ j0 h, J j0 ∧ j = set_highWater h (set_record id next j0)) anything.
Proof.
  intros Hid Hseq HJ HR. unfold BrokerJournal.persist. rewrite Hid.
  set (P := λ j f, loads id r f ∧ R f ∧ J j).
  eapply h_bind; [by apply h_or_poison, (h_guard P)|]. intros ?. eapply h_bind; [apply h_get_j|]. intros j0.
  eapply h_bind; [by apply h_or_poison, h_guard|]. intros ?. cbn beta.
  apply (h_pure (validRecord next = true ∧ validSuccessor r next = true)).
  { intros j f [[[(_ & _ & Hj) Hv] ->] Hs]. by rewrite (HJ j Hj) in Hs. }
  intros [Hv Hs]. eapply (h_pre _ P); [by intros j f [[[H _] _] _]|].
  destruct (encodeSlot sha256 {| SVersion := 1; SRecord := next |}) as [d|] eqn:Hd; cycle 1.
  { eapply (h_bind _ _ (λ _ _ _, False)); [by apply h_or_poison, h_throw|]. by intros ? ? []. }
  pose proof (encodeFrame_length sha256 _ _ _ Hd) as Hld.
  pose proof (proj1 (proj2 (proj2 (validateRecord_inv _ _ _ _ Hv)))) as Hq.
  set (q := Z.to_nat (Sequence r)).
  assert (Z.to_nat ((Sequence next - 1) * Z.of_nat slotBytes) = (q * slotBytes)%nat ∧
          Z.to_nat ((Sequence next - 1) * Z.of_nat indexSlotBytes) = (q * indexSlotBytes)%nat) as [Hoff Hoffc] by (unfold q; nia).
  assert ((q * slotBytes + slotBytes ≤ recordBytes)%nat ∧ (q * indexSlotBytes + indexSlotBytes ≤ stateBytes)%nat) as [Hroom Hroomc]
    by (unfold q, recordBytes, stateBytes, slotCount; nia).
  set (W := λ (j : Journal) (f : gmap text text), (∃ data commitments, f !! rec_name id = Some (overwrite data (q * slotBytes) d) ∧ length data = recordBytes ∧
    f !! state_name id = Some commitments ∧ length commitments = stateBytes ∧
    load_loop id data commitments (seq 0 slotCount) zero_record false = Ok r) ∧ R f ∧ J j).
  assert (rec_name id ≠ state_name id) as Hne by (intros E; by apply (side_ne _ id (side_state id))).
  eapply (h_bind _ _ (λ d' j f, d' = d ∧ W j f)).
  { apply h_or_poison. eapply (h_bind _ _ (λ _, W)); [|intros ?; by apply h_ret].
    apply h_write; [done|done|]. intros j f old ((data & com & Hf & Hl & Hf' & Hl' & Hload) & HRf & Hj) Hold _ _. rewrite Hoff. assert (old = data) as -> by congruence.
    split_and!; [|apply HR; [by eexists|by left|done]|done]. exists data, com. rewrite lookup_insert_eq, lookup_insert_ne by done. done. }
  intros d'. eapply (h_bind _ _ (λ _ j f, loads id next f ∧ R f ∧ J j)).
  { apply (h_pure (d' = d)); [by intros j f []|]. intros ->. eapply (h_pre _ W); [by intros j f []|]. unfold commitState.
    eapply h_bind; [by apply h_or_poison, (h_checkpoint _ W)|]. intros ?. eapply h_bind; [|intros ?; by apply h_checkpoint].
    apply h_or_poison. rewrite Hid. destruct (encodeFrame sha256 (commitmentFor sha256 next d) indexSlotBytes) as [c|] eqn:Hc; [|by apply h_throw].
    apply h_write; [done|done|]. intros j f old ((data & com & Hf & Hl & Hf' & Hl' & Hload) & HRf & Hj) Hold _ _. rewrite Hoffc. assert (old = com) as -> by congruence.
    pose proof (encodeFrame_length sha256 _ _ _ Hc) as Hlc.
    split_and!; [|apply HR; [by eexists|by right|done]|done]. exists (overwrite data (q * slotBytes) d), (overwrite com (q * indexSlotBytes) c).
    rewrite lookup_insert_eq, lookup_insert_ne by done. split_and!; [done|rewrite overwrite_length; lia|done|rewrite overwrite_length; lia|].
    by apply (load_loop_next id data com d c r next Hid Hseq Hs Hv Hl Hl' Hd Hc slotCount 0 zero_record). }
  intros ?. eapply (h_bind _ _ (λ _ j f, loads id next f ∧ R f ∧ ∃ j0, J j0 ∧ j = set_record id next j0)).
  { apply h_upd. intros j f (Hl & HRf & Hj). split_and!; [done|done|by exists j]. }
  intros ?. eapply h_bind; [apply h_get_j|]. intros j1. apply h_upd. intros j f [(Hl & HRf & j2 & Hj & ->) ->]. split_and!; [done|done|by eexists _, _].
Qed.

(** ** What recovery does to a record *)

(** An operation that was not in flight stays; one that was admitted was not
    applied, and one that was dispatching has an unknown outcome. *)
Inductive settles (r : JournalRecord) : JournalRecord → Prop :=
| settles_idle : Phase r ≠ BrokerOperationAdmitted → Phase r ≠ BrokerOperationDispatching → settles r r
| settles_admitted recorded : Phase r = BrokerOperationAdmitted →
    settles r (advance BrokerOperationNotApplied (DispatchClaimed r) (ResultSHA256 r) recorded r)
| settles_dispatching recorded : Phase r = BrokerOperationDispatching →
    settles r (advance BrokerOperationOutcomeUnknown (DispatchClaimed r) (ResultSHA256 r) recorded r).

Lemma recovery_phase_none r : recovery_phase r = None → settles r r.
Proof.
  unfold recovery_phase. destruct (eqt (Phase r) BrokerOperationAdmitted) eqn:Ha; [done|]. destruct (eqt (Phase r) BrokerOperationDispatching) eqn:Hd; [done|].
  intros _. apply eqt_false in Ha, Hd. by apply settles_idle.
Qed.
Lemma recovery_phase_some r phase recorded : recovery_phase r = Some phase → settles r (advance phase (DispatchClaimed r) (ResultSHA256 r) recorded r).
Proof.
  unfold recovery_phase. destruct (eqt (Phase r) BrokerOperationAdmitted) eqn:Ha; [|destruct (eqt (Phase r) BrokerOperationDispatching) eqn:Hd; [|done]];
    intros [= <-]; apply eqt_true in Ha || apply eqt_true in Hd; [by apply settles_admitted|by apply settles_dispatching].
Qed.
Lemma settles_done r r' : settles r r' → recovery_phase r' = None.
Proof. unfold recovery_phase. intros [H1 H2|recorded _|recorded _]; [by rewrite (proj2 (eqt_false _ _) H1), (proj2 (eqt_false _ _) H2)|done..]. Qed.

(** ** The files of a directory *)

Lemma loads_loaded id r f : loads id r f → loaded sha256 digestTicket marshalBinding id r f.
Proof.
  intros (data & com & Hf & Hl & _ & _ & H). apply (load_loop_spec _ _ _ _ _ _ 8 0 zero_record false []) in H as (hs & Hh & Hst);
    [|done|by left|split_and!; [simpl; lia|done|lia]|done]. exists data, hs. done.
Qed.
Lemma loads_id id r f : loads id r f → OperationID r = id.
Proof. intros H%loads_loaded. by apply loaded_ready in H as [? _]. Qed.
Lemma loads_other id id' r f d name : id' ≠ id → name = rec_name id ∨ name = state_name id → loads id' r f → loads id' r (<[name := d]> f).
Proof.
  intros Hne Hn (data & com & Hf & Hl & Hf' & Hl' & H). exists data, com.
  assert (name ≠ rec_name id' ∧ name ≠ state_name id') as [H1 H2]; [|by rewrite !lookup_insert_ne].
  destruct Hn as [-> | ->]; split.
  - intros E%rec_name_inj. congruence.
  - intros E. by apply (side_ne _ id (side_state id')).
  - apply side_ne, side_state.
  - intros E. apply (app_inv_tail (txt ".state")) in E. congruence.
Qed.
Lemma h_loads (P E : Journal → gmap text text → Prop) id : (∀ j f, P j f → E j f) → hoare P (loadRecord id) (λ r j f, P j f ∧ loads id r f) E.
Proof.
  intros HE. unfold BrokerJournal.loadRecord. eapply h_bind; [by apply h_or_unavailable, h_disk_read|]. intros data.
  eapply h_bind; [apply h_or_unavailable, h_disk_read; intros j f [HP _]; by apply HE|]. intros commitments.
  eapply h_post; [apply h_lift| |].
  - intros j f H. exact H.
  - intros r j f [[[HP [Hf Hl]] [Hf' Hl']] Hload]. split; [done|]. exists data, commitments. split_and!; try done; lia.
  - intros j f [[HP _] _]. by apply HE.
Qed.

Definition entry_files (id : text) : list text := [rec_name id; art_name id; state_name id].
(** A directory with no more names than the entries account for has no others. *)
Lemma record_names (names ids : list text) id : NoDup names → NoDup ids → length names = (2 + 3 * length ids)%nat →
  txt "identity" ∈ names → txt "reservations" ∈ names → (∀ id, id ∈ ids → ∀ n, n ∈ entry_files id → n ∈ names) →
  rec_name id ∈ names ↔ id ∈ ids.
Proof.
  intros Hn Hi Hl H1 H2 H3. split; [|intros Hin; apply (H3 id Hin); by left].
  set (expected := txt "identity" :: txt "reservations" :: (rec_name <$> ids) ++ (art_name <$> ids) ++ (state_name <$> ids)).
  assert (∀ n, n ∈ rec_name <$> ids → last n = Some "c"%char) as Lr by (intros n (x & -> & _)%list_elem_of_fmap; apply rec_name_last).
  assert (∀ n, n ∈ art_name <$> ids → last n = Some "t"%char) as La by (intros n (x & -> & _)%list_elem_of_fmap; apply art_name_last).
  assert (∀ n, n ∈ state_name <$> ids → last n = Some "e"%char) as Ls by (intros n (x & -> & _)%list_elem_of_fmap; apply state_name_last).
  assert (last (txt "identity") = Some "y"%char ∧ last (txt "reservations") = Some "s"%char) as [Li Lv] by done.
  assert (NoDup expected) as He.
  { unfold expected. rewrite !NoDup_cons, !NoDup_app, elem_of_cons, !elem_of_app. split_and!.
    - intros [H|[H%Lr|[H%La|H%Ls]]]; congruence.
    - intros [H%Lr|[H%La|H%Ls]]; congruence.
    - apply NoDup_fmap_2; [intros ? ?; apply rec_name_inj|done].
    - intros x Hx%Lr [Hy%La|Hy%Ls]%elem_of_app; congruence.
    - apply NoDup_fmap_2; [intros ? ? E; by apply (app_inv_tail (txt ".art")) in E|done].
    - intros x Hx%La Hy%Ls. congruence.
    - apply NoDup_fmap_2; [intros ? ? E; by apply (app_inv_tail (txt ".state")) in E|done]. }
  assert (expected ⊆ names) as Hsub.
  { unfold expected. intros x. rewrite !elem_of_cons, !elem_of_app, !list_elem_of_fmap.
    intros [->|[->|[(y & -> & Hy)|[(y & -> & Hy)|(y & -> & Hy)]]]]; [done|done|apply (H3 y Hy)..]; unfold entry_files; set_solver. }
  assert (expected ≡ₚ names) as Hp.
  { apply submseteq_length_Permutation; [by apply NoDup_submseteq|]. unfold expected. cbn [length]. rewrite !length_app, !length_fmap. lia. }
  rewrite <- Hp. unfold expected. rewrite !elem_of_cons, !elem_of_app. intros [H|[H|[H|[H|H]]]].
  - by destruct (side_ne _ id side_identity).
  - by destruct (side_ne _ id side_reservations).
  - apply list_elem_of_fmap in H as (y & Hy%rec_name_inj & Hin). by subst.
  - apply La in H. by rewrite rec_name_last in H.
  - apply Ls in H. by rewrite rec_name_last in H.
Qed.

(** ** The two passes

    The files start as [f0]. *)

Section passes.
Variable f0 : gmap text text.

Section entries.
Variable entries : list reservationEntry.
Notation ids := (EOperationID <$> entries).

(** The validating pass has read the entries but [l]. *)
Definition reading (owned : gset text) (l : list reservationEntry) : assertion := λ j f,
  f = f0 ∧ closed j = false ∧ (∀ id r, records j !! id = Some r → loads id r f0 ∧ id ∈ ids) ∧ (∀ e, e ∈ l → e ∈ entries) ∧
  ∀ e, e ∈ entries → e ∈ l ∨ is_Some (records j !! EOperationID e) ∧ ∀ n, n ∈ entry_files (EOperationID e) → n ∈ owned.

Lemma reading_view owned l j j' f : closed j' = closed j → records j' = records j → reading owned l j f → reading owned l j' f.
Proof. unfold reading. by intros -> ->. Qed.

Lemma recover_entry_reads owned e l : hoare (reading owned (e :: l)) (recover_entry owned e) (λ _, reading owned l) anything.
Proof.
  unfold BrokerJournal.recover_entry. set (id := EOperationID e). set (P := reading owned (e :: l)).
  eapply h_bind; [by apply (h_guard P)|]. intros ?.
  eapply (h_bind _ _ (λ r j f, P j f ∧ loads id r f ∧ ∀ n, n ∈ entry_files id → n ∈ owned)).
  { eapply h_post; [by apply (h_loads _ anything)|..]; cbn beta; [|done]. intros r j f [[HP Hg] Hl]. split_and!; [exact HP|exact Hl|]. bool_hyps.
    unfold entry_files. intros n. rewrite !elem_of_cons. intros [->|[->|[->|Hx%not_elem_of_nil]]]; done. }
  intros r. cbn zeta. fold id. set (P1 := λ j f, P j f ∧ loads id r f ∧ ∀ n, n ∈ entry_files id → n ∈ owned).
  assert (∀ g, (∀ j, closed (g j) = closed j) → (∀ j, records (g j) = records j) → ∀ j f, P1 j f → P1 (g j) f) as Hview
    by (intros g H1 H2 j f (HP & H); split; [eapply reading_view; [apply H1|apply H2|exact HP]|exact H]).
  eapply (h_bind _ _ (λ _, P1)); [apply h_get_keep|]. intros j0.
  eapply h_bind; [by apply h_guard_keep|]. intros ?. eapply h_bind; [by apply h_guard_keep|]. intros ?.
  eapply (h_bind _ _ (λ _, P1)); [apply h_upd_keep; by apply (Hview (λ j, set_reserved _ j))|]. intros ?.
  eapply (h_bind _ _ (λ _, P1)).
  { destruct (eqt _ _).
    - eapply h_bind; [by apply h_or_unavailable, (h_disk_read _ P1 anything)|]. intros data.
      eapply h_post; [by apply (h_guard_keep _ anything)|..]; cbn beta; [by intros ? j f []|done].
    - eapply h_bind; [by apply h_or_unavailable, (h_artifact _ _ P1 anything)|]. intros ?. by apply h_ret. }
  intros ?. set (P2 := reading owned l). eapply (h_bind _ _ (λ _, P2)).
  { apply h_upd. intros j f ((-> & Hc & Hr & Hl & He) & Hload & Hn). unfold P2, reading. cbn [closed records set_record]. split_and!; [done|done| |..].
    - intros id' r'. destruct (decide (id' = id)) as [->|Hne]; [rewrite lookup_insert_eq|rewrite lookup_insert_ne by done; apply Hr].
      intros [= <-]. split; [done|]. apply list_elem_of_fmap. exists e. split; [done|]. apply Hl. by left.
    - intros e' Hin. apply Hl. by right.
    - intros e' Hin. destruct (decide (EOperationID e' = id)) as [Heq|Hne]; [right; rewrite Heq, lookup_insert_eq; split; [by eexists|done]|].
      destruct (He e' Hin) as [[->|H]%elem_of_cons|H]; [done|by left|right; by rewrite lookup_insert_ne]. }
  intros ?. eapply (h_bind _ _ (λ _, P2)); [apply h_upd_keep; intros j f; by apply reading_view|]. intros ?.
  destruct (fencing_phase r); [|by apply h_ret]. eapply h_bind; [apply h_get_keep|]. intros j1.
  eapply h_bind; [by apply h_guard_keep|]. intros ?. apply h_upd_keep. intros j f. by apply reading_view.
Qed.

(** Every record in memory is what its files load as, and came from the one they
    held. *)
Definition same_names (f : gmap text text) : Prop := ∀ n, is_Some (f !! n) ↔ is_Some (f0 !! n).
Definition carried : assertion := λ j f,
  closed j = false ∧ same_names f ∧ (∀ id, is_Some (records j !! id) ↔ id ∈ ids) ∧
  ∀ id r', records j !! id = Some r' → loads id r' f ∧ ∃ r, loads id r f0 ∧ (r' = r ∨ settles r r').

Lemma same_names_insert f name d : is_Some (f !! name) → same_names f → same_names (<[name := d]> f).
Proof.
  intros Hn H n. rewrite <- (H n). destruct (decide (n = name)) as [->|Hne]; [by rewrite lookup_insert_eq; split; [|by eexists]|by rewrite lookup_insert_ne].
Qed.

Lemma close_entry_carried e : hoare carried (close_entry e) (λ _, carried) anything.
Proof.
  unfold BrokerJournal.close_entry. set (id := EOperationID e). eapply h_bind; [apply h_get_j|]. intros j0. fold id.
  destruct (records j0 !! id) as [r'|] eqn:Hr; cycle 1.
  { change (recovery_phase (default zero_record None)) with (@None text). apply h_ret. by intros j f []. }
  change (default zero_record (Some r')) with r'. destruct (recovery_phase r') as [phase|] eqn:Hph; [|apply h_ret; by intros j f []].
  set (P := λ (j : Journal) (f : gmap text text), carried j f ∧ records j = records j0).
  eapply (h_bind _ _ (λ _, P)); [eapply h_pre; [|apply (h_observeTime _ P)]; [by intros j f [H ->]|by intros j f h]|].
  intros recorded. cbn zeta. set (next := advance _ _ _ _ r').
  apply (h_pure (OperationID r' = id ∧ (∀ id, is_Some (records j0 !! id) ↔ id ∈ ids) ∧ (∃ r, loads id r f0 ∧ settles r next) ∧
    ∀ id' r1, records j0 !! id' = Some r1 → ∃ r, loads id' r f0 ∧ (r1 = r ∨ settles r r1))).
  { intros j f [(_ & _ & Hd & Hl) Hj]. rewrite Hj in Hd, Hl. destruct (Hl id r' Hr) as (H1 & r & H2 & H3). split_and!; [by eapply loads_id|done| |].
    - exists r. split; [exact H2|]. destruct H3 as [<-|Hs]; [by apply recovery_phase_some|]. apply settles_done in Hs. congruence.
    - intros id' r1 H. by destruct (Hl id' r1 H). }
  intros (Hid & Hdom & (r & Hr0 & Hset) & Hfrom).
  set (R := λ f, same_names f ∧ ∀ id' r1, id' ≠ id → records j0 !! id' = Some r1 → loads id' r1 f).
  set (J := λ j, closed j = false ∧ records j = records j0).
  eapply (h_bind _ _ (λ _, carried)).
  - eapply h_pre; [|eapply h_post; [apply (h_persist_loads id r' next R J)|..]].
    + intros j f [(Hc & Hs & _ & Hl) Hj]. rewrite Hj in Hl. split; [by apply Hl|]. split; [|by split]. split; [exact Hs|]. intros id' r1 _ H. by apply Hl.
    + done.
    + done.
    + intros j [_ ->]. done.
    + intros f name d Hn Hname [Hs Ho]. split; [by apply same_names_insert|]. intros id' r1 Hne H. eapply loads_other; [done|exact Hname|by apply Ho].
    + cbn beta. intros _ j f (Hl & [Hs Ho] & j1 & h & [Hc Hj] & ->). unfold carried. cbn [closed records set_highWater set_record]. rewrite Hj.
      split_and!; [done|done| |].
      * intros id'. rewrite <- Hdom. destruct (decide (id' = id)) as [->|Hne]; [rewrite lookup_insert_eq, Hr; split; by eexists|by rewrite lookup_insert_ne].
      * intros id' r1. destruct (decide (id' = id)) as [->|Hne]; [rewrite lookup_insert_eq|rewrite lookup_insert_ne by done; intros H; split; [by apply Ho|by apply Hfrom]].
        intros [= <-]. split; [exact Hl|]. exists r. by split; [|right].
    + done.
  - intros ?. destruct (eqt _ _); [|by apply h_ret]. by apply h_upd_keep.
Qed.
End entries.

(** After recovery. *)
Definition recovered : assertion := λ j f, ∃ entries, carried entries j f ∧
  ∀ id, is_Some (f0 !! rec_name id) ↔ id ∈ EOperationID <$> entries.

Lemma recover_recovers : hoare (λ j f, f = f0 ∧ closed j = false ∧ records j = ∅) recover (λ _, recovered) anything.
Proof.
  unfold BrokerJournal.recover. set (P := λ j f, f = f0 ∧ closed j = false ∧ records j = ∅).
  eapply (h_bind _ _ (λ entries j f, P j f ∧ NoDup (EOperationID <$> entries))).
  { apply h_or_unavailable. unfold readReservations. eapply (h_bind _ _ (λ _, P)); [apply h_get_keep|]. intros j0.
    eapply h_bind; [by apply h_or_unavailable, (h_disk_read _ P anything)|]. intros data.
    eapply h_post; [by apply (h_lift _ _ anything)|..]; cbn beta; [|done].
    intros entries j f [[HP _] Hl]. split; [exact HP|].
    eapply (entries_loop_NoDup sha256 nowMillis ctxErr randomBytes hookErr diskFault); [..|exact Hl]; [constructor|set_solver]. }
  intros entries. set (P1 := λ j f, P j f ∧ NoDup (EOperationID <$> entries)). eapply (h_bind _ _ (λ _, P1)); [apply h_get_keep|]. intros j0.
  eapply (h_bind _ _ (λ names j f, P1 j f ∧ names = (map_to_list f0).*1)).
  { apply h_or_unavailable. unfold disk_names. eapply h_bind; [apply h_env|]. intros a.
    destruct a; [|by apply h_throw..]. eapply h_bind; [apply h_get_files|]. intros fs. cbn zeta.
    destruct (_ <? _); [by apply h_throw|apply h_ret]. intros j f [H ->]. split; [exact H|]. by destruct H as [(-> & _) _]. }
  intros names. eapply h_bind; [by apply h_guard_keep|]. intros ?. cbn zeta. set (owned := list_to_set names : gset text).
  eapply h_bind; [by apply h_guard|]. intros ?. cbn beta.
  apply (h_pure (NoDup (EOperationID <$> entries) ∧ names = (map_to_list f0).*1 ∧ length names = (2 + 3 * length entries)%nat ∧
    txt "identity" ∈ names ∧ txt "reservations" ∈ names)).
  { intros j f [[[_ Hn] Hnames] Hg]. bool_hyps. unfold owned in *. rewrite elem_of_list_to_set in *. done. }
  intros (Hnd & Hnames & Hlen & Hi & Hv). eapply (h_pre _ P); [by intros j f [[[H _] _] _]|].
  eapply (h_bind _ _ (λ _, reading entries owned [])).
  { eapply h_pre; [|apply (h_for_each (reading entries owned)); intros; apply recover_entry_reads].
    intros j f (-> & Hc & Hr). split_and!; [done|done| |done|by left]. intros id r. by rewrite Hr, lookup_empty. }
  intros ?. apply (h_pure (∀ e, e ∈ entries → ∀ n, n ∈ entry_files (EOperationID e) → n ∈ owned)).
  { intros j f (_ & _ & _ & _ & He) e Hin. destruct (He e Hin) as [H%not_elem_of_nil|[_ H]]; [done|exact H]. }
  intros Howned. eapply (h_bind _ _ (λ _, carried entries)).
  { apply h_upd. intros j f (-> & Hc & Hr & _ & He). unfold carried. cbn [closed records set_reservations]. split_and!; [done|by intros n| |].
    - intros id. split; [intros [r H]; by apply (Hr id r)|]. intros (e & -> & Hin)%list_elem_of_fmap.
      destruct (He e Hin) as [H%not_elem_of_nil|[H _]]; [done|exact H].
    - intros id r H. split; [by apply Hr|]. exists r. split; [by apply Hr|by left]. }
  intros ?. eapply h_post; [apply (h_for_each (λ _, carried entries)); intros; apply close_entry_carried|..]; cbn beta; [|done].
  intros ? j f H. exists entries. split; [exact H|]. intros id.
  transitivity (rec_name id ∈ names).
  { rewrite Hnames. split.
    - intros [d Hd]. apply list_elem_of_fmap. exists (rec_name id, d). split; [done|]. by apply elem_of_map_to_list.
    - intros ([n d] & Heq & Hd%elem_of_map_to_list)%list_elem_of_fmap. cbn in Heq. rewrite Heq. by eexists. }
  apply record_names; [|done|by rewrite length_fmap|done|done|].
  - rewrite Hnames. apply NoDup_fst_map_to_list.
  - intros id' (e & -> & Hin)%list_elem_of_fmap n Hn. pose proof (Howned e Hin n Hn) as Ho. unfold owned in Ho. by apply elem_of_list_to_set in Ho.
Qed.

Lemma openJournal_recovers identity limits : hoare (λ j f, f = f0) (openJournal identity limits false) (λ _, recovered) anything.
Proof.
  unfold BrokerJournal.openJournal. set (P := λ (j : Journal) (f : gmap text text), f = f0 ∧ closed j = false ∧ records j = ∅).
  eapply h_bind; [by apply (h_lift_keep _ anything)|]. intros l. eapply h_bind; [by apply h_guard_keep|]. intros ?.
  eapply (h_bind _ _ (λ _ j f, f = f0)).
  { intros σ Hf. unfold openDisk. by destruct (diskFault _); [destruct (_ && _)|..]. }
  intros ?. eapply (h_bind _ _ (λ _, P)); [by apply h_upd|]. intros ?.
  eapply (h_bind _ _ (λ _, P)).
  { eapply (h_bind _ _ (λ _, P)).
    - eapply h_post; [by apply (h_or_unavailable _ _ _ anything), (h_disk_read _ P)|..]; cbn beta; [by intros ? j f []|done].
    - intros data. destruct (decodeSlot _ _) as [h|]; [|by apply h_throw].
      eapply (h_bind _ _ (λ _, P)); [by apply h_upd_keep|]. intros ?. by apply h_guard_keep. }
  intros ?. eapply (h_bind _ _ (λ _, P)); [by apply h_upd_keep|]. intros ?. apply h_or_unavailable, recover_recovers.
Qed.
End passes.

(** C3: Opening a journal that succeeds, after whatever ended the last process,
    gives a usable instance, neither failed nor closed, whose fences are exactly the
    targets of the unresolved outcomes. It holds a record for every record file of
    the directory and for nothing else. Each is what the record and state files now
    load as, so the next open finds it, and comes from what they loaded as before:
    an admitted operation is closed as not applied, a dispatching one as an unknown
    outcome, and every other record is unchanged; no operation stays in flight. *)
Theorem recovery_settles identity limits (s s' : system) : inst s = None → perform (COpen identity limits) s = (s', RDone) →
  ∃ j, inst s' = Some j ∧ failed j = false ∧ closed j = false ∧ coherent j ∧
    (∀ id, is_Some (records j !! id) ↔ is_Some (files (disk s) !! rec_name id)) ∧
    ∀ id r', records j !! id = Some r' →
      loads id r' (files (disk s')) ∧ (∃ r, loads id r (files (disk s)) ∧ settles r r') ∧
      Phase r' ≠ BrokerOperationAdmitted ∧ Phase r' ≠ BrokerOperationDispatching.
Proof.
  intros Hn H. cbn [BrokerJournal.perform] in H. assert (H' := H). unfold opening in H'. rewrite Hn in H'.
  pose proof (openJournal_recovers (files (disk s)) identity limits {| jr := blank_journal {| Records := 0; ReservedBytes := 0 |}; w := disk s |} eq_refl) as Hrec.
  destruct (openJournal _ _ _ _) as [σ [a|e]]; [|done]. injection H' as <-. cbn [inst disk] in *.
  destruct (opening_settled _ _ _ nowMillis ctxErr randomBytes hookErr diskFault _ _ _ _ _ _ H Hn (jr σ) eq_refl) as [[Hf Hco] Hs].
  destruct Hrec as (entries & (Hc & _ & Hdom & Hl) & Hfiles). exists (jr σ). split_and!; [done..| |].
  - intros id. by rewrite Hdom, Hfiles.
  - intros id r' Hr. specialize (Hs id r' Hr). destruct (Hl id r' Hr) as (Hload & r & Hr0 & Hor). apply recovery_phase_none in Hs as Hset.
    split_and!; [exact Hload|exists r; split; [exact Hr0|by destruct Hor as [<-|?]]|..]; unfold recovery_phase in Hs;
      (destruct (eqt (Phase r') BrokerOperationAdmitted) eqn:Ha; [done|]; destruct (eqt (Phase r') BrokerOperationDispatching) eqn:Hd; [done|]; by apply eqt_false in Ha, Hd).
Qed.
End recovery.

(** ** A dispatch interrupted by a crash *)

Module Demo.
Import FieldCodec.
Import BrokerJournal.BrokerJournal.Demo.

Definition crashed : system := (go (λ _, NoFault) (start ++ [CClaim (cmp id1 3); CReserve reservation; CCrash]) empty_system).1.
Definition reopened := reopen crashed.
Notation loaded_as := (loads toy_sha256 (λ _, Some (txt "t")) (λ _ _ _, Some (txt "b"))).

(** What the files of a record load as, by running the loop. *)
Definition load_b (id : text) (f : gmap text text) : option JournalRecord :=
  match f !! rec_name id, f !! state_name id with
  | Some data, Some commitments =>
      if (length data =? recordBytes)%nat && (length commitments =? stateBytes)%nat
      then match load_loop toy_sha256 (λ _, Some (txt "t")) (λ _ _ _, Some (txt "b")) id data commitments (seq 0 slotCount) zero_record false with
           | Ok r => Some r | Err _ => None end
      else None
  | _, _ => None
  end.
Lemma load_b_loads id r f : load_b id f = Some r → loaded_as id r f.
Proof.
  unfold load_b. destruct (f !! rec_name id) as [data|] eqn:H1; [|done]. destruct (f !! state_name id) as [com|] eqn:H2; [|done].
  destruct (_ && _) eqn:Hl; [|done]. bool_hyps. destruct (load_loop _ _ _ _ _ _ _ _ _) as [r'|] eqn:H3; [|done]. intros [= <-]. by exists data, com.
Qed.
Lemma crashed_dispatching : ∃ r, loaded_as id1 r (files (disk crashed)) ∧ Phase r = BrokerOperationDispatching.
Proof.
  destruct (load_b id1 (files (disk crashed))) as [r|] eqn:H.
  - exists r. split; [by apply load_b_loads|].
    assert (Phase <$> load_b id1 (files (disk crashed)) = Some BrokerOperationDispatching) as Hp by (vm_compute; reflexivity). rewrite H in Hp. by injection Hp.
  - exfalso. revert H. vm_compute. discriminate.
Qed.

Lemma recovery_settles_witness : inst crashed = None ∧ reopened.2 = RDone ∧
  ∃ j r', inst reopened.1 = Some j ∧ closed j = false ∧ records j !! id1 = Some r' ∧ Phase r' = BrokerOperationOutcomeUnknown ∧
    loaded_as id1 r' (files (disk reopened.1)).
Proof.
  assert (inst crashed = None ∧ reopened.2 = RDone) as [Hn Hr] by (split; vm_compute; reflexivity). split; [exact Hn|]. split; [exact Hr|].
  pose proof crashed_dispatching as Hin. revert Hn Hr Hin. unfold reopened. generalize crashed. intros s Hn Hr Hin.
  destruct (recovery_settles toy_sha256 (λ _, Some (txt "t")) (λ _ _ _, Some (txt "b")) (λ _, 1000000) (λ _, false) random (λ _, false) (λ _, NoFault)
    identity limits s (reopen s).1 Hn) as (j & Hj & _ & Hc & _ & Hdom & Hl).
  { unfold reopen in Hr. rewrite <- Hr. apply surjective_pairing. }
  destruct (proj2 (Hdom id1)) as [r' Hr']; [destruct Hin as (r & (data & com & Hd & _) & _); by exists data|].
  exists j, r'. destruct (Hl id1 r' Hr') as (Hload & (r & Hr0 & Hset) & _). split_and!; [exact Hj|exact Hc|exact Hr'| |exact Hload].
  destruct Hin as (r1 & Hr1 & Hp). pose proof (loads_fun _ _ _ _ _ _ _ Hr0 Hr1) as ->.
  destruct Hset as [_ Hne|recorded Ha|recorded _]; [done|by rewrite Hp in Ha|reflexivity].
Defined.
End Demo.
End BrokerRecovery.
