(* ===== verification/TextEdit.v ===== *)
(** * Precise text replacement (internal/textedit)

    [Replace] looks for the old text in three passes: exact bytes, then a
    canonical stream in which invisible characters vanish and no-break spaces
    are spaces, then the same with whitespace runs collapsed.  A canonical stream
    keeps, for every canonical rune, the byte offset it comes from. *)

From S2P Require Import Prelude GoText.
Import GoText.

Module TextEdit.
Local Open Scope Z_scope.

Inductive Pass := PassExact | PassInvisible | PassWhitespace.
#[export] Instance Pass_eq : EqDecision Pass.
Proof. solve_decision. Defined.

Record Match := { Start : nat; End : nat }.
Record Result := { Text : text; RPass : Pass; Matches : list Match }.

(** The context of a failed search: the quoted bytes and their range. *)
Inductive editError :=
| EmptyOld
| InvalidOld
| InvalidNew
| AmbiguousError (p : Pass) (ms : list Match)
| NoMatchError (context : option (text * nat * nat)).

(** [canon]: the field [s] is [map fst cells], the field [pos] is
    [map snd cells ++ [cend]]. *)
Record canon := { cells : list (Z * nat); cend : nat }.
Definition runes (c : canon) : list Z := map fst (cells c).
(** [c.pos[i]]. *)
Definition pos (c : canon) (i : nat) : nat :=
  match cells c !! i with Some (_, p) => p | None => cend c end.

Definition isZeroWidth (r : Z) : bool :=
  existsb (Z.eqb r) [8203; 8204; 8205; 65279; 8288; 173].

Definition space_entities : list text := [txt "&nbsp;"; txt "&#160;"; txt "&#xa0;"; txt "&#xA0;"].

(** [entitySpace] on the suffix [s[i:]]. *)
Definition entitySpace (s : text) : nat :=
  match filter (λ e, has_prefix s e = true) space_entities with
  | e :: _ => length e
  | [] => 0
  end.

(** One round of the loop of [canonicalize] on [s[i:]]: the rune it emits, if
    any, and the bytes it consumes. *)
Definition token (s : text) : option Z * nat :=
  let n := entitySpace s in
  if (0 <? n)%nat then (Some 32, n)
  else
    let '(r, sz) := decode_rune s in
    if isZeroWidth r then (None, sz)
    else if r =? 160 then (Some 32, sz)
    else (Some r, sz).

(** The loop from offset [i], with [s] the rest of the text. *)
Fixpoint canonicalize_loop (fuel : nat) (s : text) (i : nat) : list (Z * nat) :=
  match fuel with
  | O => []
  | S fuel =>
      match s with
      | [] => []
      | _ =>
          let '(r, n) := token s in
          let rest := canonicalize_loop fuel (drop n s) (i + n) in
          match r with Some r => (r, i) :: rest | None => rest end
      end
  end.

(** [collapseWS] on the cells; [in_run] is true inside the inner loop. *)
Fixpoint collapse_loop (in_run : bool) (l : list (Z * nat)) : list (Z * nat) :=
  match l with
  | [] => []
  | (r, p) :: l =>
      if is_space r then if in_run then collapse_loop true l else (32, p) :: collapse_loop true l
      else (r, p) :: collapse_loop false l
  end.
Definition collapseWS (c : canon) : canon := {| cells := collapse_loop false (cells c); cend := cend c |}.

Definition canonicalize (s : text) (p : Pass) : canon :=
  let c := {| cells := canonicalize_loop (length s) s 0; cend := length s |} in
  if decide (p = PassWhitespace) then collapseWS c else c.

(** [find]: the loop from index [i]. *)
Fixpoint find_loop (fuel : nat) (hay needle : canon) (i : nat) : list Match :=
  match fuel with
  | O => []
  | S fuel =>
      if (length (runes needle) + i <=? length (runes hay))%nat then
        if bool_decide (take (length (runes needle)) (drop i (runes hay)) = runes needle)
        then {| Start := pos hay i; End := pos hay (i + length (runes needle)) |} ::
             find_loop fuel hay needle (i + length (runes needle))
        else find_loop fuel hay needle (S i)
      else []
  end.
Definition find (hay needle : canon) : list Match :=
  if decide (runes needle = []) then [] else find_loop (S (length (runes hay))) hay needle 0.

(** [trimCanon]: the leading, then the trailing whitespace cells go. *)
Fixpoint drop_spaces (l : list (Z * nat)) : list (Z * nat) :=
  match l with
  | (r, p) :: l' => if is_space r then drop_spaces l' else l
  | [] => []
  end.
Definition trimCanon (c : canon) : canon :=
  let lo := (length (cells c) - length (drop_spaces (cells c)))%nat in
  let mid := reverse (drop_spaces (reverse (drop_spaces (cells c)))) in
  {| cells := mid; cend := pos c (lo + length mid) |}.

(** The loop of the exact pass from offset [i]. *)
Fixpoint exact_loop (fuel : nat) (s old : text) (i : nat) : list Match :=
  match fuel with
  | O => []
  | S fuel =>
      match index (drop i s) old with
      | None => []
      | Some j => {| Start := i + j; End := i + j + length old |} :: exact_loop fuel s old (i + j + length old)
      end
  end.

Definition matches_of (s old : text) (p : Pass) : list Match :=
  match p with
  | PassExact => exact_loop (S (length s)) s old 0
  | PassInvisible => find (canonicalize s p) (canonicalize old p)
  | PassWhitespace => find (canonicalize s p) (trimCanon (canonicalize old p))
  end.

(** The loop of [splice] from offset [prev]. *)
Fixpoint splice_loop (s repl : text) (prev : nat) (ms : list Match) : text :=
  match ms with
  | [] => drop prev s
  | m :: ms => slice s prev (Start m) ++ repl ++ splice_loop s repl (End m) ms
  end.
Definition splice (s repl : text) (p : Pass) (ms : list Match) : Result :=
  {| Text := splice_loop s repl 0 ms; RPass := p; Matches := ms |}.

(** The loop of [nearestContext]: [n] shrinks by a quarter while nothing
    matches. *)
Fixpoint nearest_loop (fuel : nat) (s : text) (hay needle : canon) (n : nat) : option (text * nat * nat) :=
  match fuel with
  | O => None
  | S fuel =>
      if (n <? 3)%nat then None
      else
        match find hay {| cells := take n (cells needle); cend := pos needle n |} with
        | m :: _ =>
            let lo := (Start m - 20)%nat in
            let hi := Nat.min (End m + 40) (length s) in
            Some (slice s lo hi, lo, hi)
        | [] => nearest_loop fuel s hay needle (n * 3 / 4)
        end
  end.
Definition nearestContext (s old : text) : option (text * nat * nat) :=
  let needle := trimCanon (canonicalize old PassWhitespace) in
  nearest_loop (length (runes needle)) s (canonicalize s PassWhitespace) needle (length (runes needle)).

(** The loop over the attempts. *)
Fixpoint choose (s new : text) (all : bool) (attempts : list (Pass * list Match)) (none : editError)
    : result editError Result :=
  match attempts with
  | [] => Err none
  | (p, ms) :: attempts =>
      if (length ms =? 1)%nat || ((1 <? length ms)%nat && all) then Ok (splice s new p ms)
      else if (1 <? length ms)%nat then Err (AmbiguousError p ms)
      else choose s new all attempts none
  end.

Definition Replace (s old new : text) (all : bool) : result editError Result :=
  if decide (old = []) then Err EmptyOld
  else if negb (valid_utf8 old) then Err InvalidOld
  else if negb (valid_utf8 new) then Err InvalidNew
  else choose s new all (map (λ p, (p, matches_of s old p)) [PassExact; PassInvisible; PassWhitespace])
         (NoMatchError (nearestContext s old)).

(** ** Canonical streams

    A cell of a stream comes from the bytes between its offset and the next
    one; cutting the text at an offset cuts the stream at that cell. *)

Lemma entitySpace_length s : (entitySpace s ≤ length s)%nat.
Proof.
  unfold entitySpace. destruct (filter _ _) as [|e l] eqn:Hf; [lia|].
  assert (e ∈ filter (λ e, has_prefix s e = true) space_entities) as [He _]%list_elem_of_filter by (rewrite Hf; left).
  apply has_prefix_spec in He as [r ->]. rewrite length_app. lia.
Qed.

Lemma token_width s : s ≠ [] → (0 < snd (token s) ≤ length s)%nat.
Proof.
  intros Hs. unfold token. pose proof (entitySpace_length s). destruct (0 <? entitySpace s)%nat eqn:He; bool_hyps; [simpl; lia|].
  pose proof (decode_rune_size s). pose proof (decode_rune_size_pos s Hs).
  destruct (decode_rune s) as [r sz]. cbn [snd] in *. repeat case_match; simpl; lia.
Qed.

(** [token] reads only the bytes it consumes. *)
Lemma entitySpace_take s k : (entitySpace s ≤ k)%nat → entitySpace (take k s) = entitySpace s.
Proof.
  unfold entitySpace. induction space_entities as [|e es IH]; [done|]. rewrite !filter_cons.
  destruct (decide (has_prefix s e = true)) as [Hp|Hp].
  - intros Hk. by rewrite decide_True by (by rewrite has_prefix_take).
  - intros Hk. rewrite decide_False; [by apply IH|]. apply not_true_iff_false in Hp. by rewrite has_prefix_take_false.
Qed.

Lemma token_take s k : s ≠ [] → (snd (token s) ≤ k)%nat → token (take k s) = token s.
Proof.
  intros Hs Hk. pose proof (token_width s Hs) as Hw. revert Hk Hw. unfold token.
  destruct (0 <? entitySpace s)%nat eqn:He.
  - cbn [snd]. intros Hk _. rewrite entitySpace_take by done. by rewrite He.
  - bool_hyps. intros Hk Hw. rewrite entitySpace_take by lia. rewrite (proj2 (Nat.ltb_ge _ _)) by lia.
    rewrite decode_rune_take; [done|..].
    + destruct (decode_rune s) as [r sz]. cbn [snd]. repeat case_match; simpl in *; lia.
    + destruct (decode_rune s) as [r sz]. repeat case_match; simpl in *; lia.
Qed.

(** The stream of [s] from offset [o]. *)
Definition stream (s : text) (o : nat) : list (Z * nat) := canonicalize_loop (length s) s o.

Lemma canonicalize_loop_fuel fuel s o : (length s ≤ fuel)%nat → canonicalize_loop fuel s o = stream s o.
Proof.
  unfold stream. remember (length s) as n eqn:Hn. assert (length s ≤ n)%nat as Hs by lia. clear Hn.
  revert fuel s o Hs. induction n as [|n IH]; intros fuel s o Hs Hf.
  { destruct s as [|c s]; [|simpl in Hs; lia]. by destruct fuel. }
  destruct s as [|c s]; [by destruct fuel|]. destruct fuel as [|fuel]; [simpl in *; lia|]. cbn [canonicalize_loop].
  pose proof (token_width (c :: s) ltac:(done)). destruct (token (c :: s)) as [r w]. cbn [snd] in *.
  assert (length (drop w (c :: s)) ≤ n)%nat by (rewrite length_drop; simpl in *; lia).
  rewrite (IH fuel) by (try rewrite length_drop; simpl in *; lia). done.
Qed.

Lemma stream_nil o : stream [] o = [].
Proof. done. Qed.

Lemma stream_token s o : s ≠ [] → stream s o =
  match fst (token s) with Some r => [(r, o)] | None => [] end ++ stream (drop (snd (token s)) s) (o + snd (token s)).
Proof.
  intros Hs. pose proof (token_width s Hs). unfold stream at 1. destruct s as [|c s]; [done|]. cbn [length canonicalize_loop].
  destruct (token (c :: s)) as [r w]. cbn [fst snd] in *.
  rewrite canonicalize_loop_fuel by (rewrite length_drop; simpl in *; lia). by destruct r.
Qed.

(** Induction over the rounds of the loop. *)
Lemma text_ind (P : text → Prop) : P [] → (∀ s, s ≠ [] → P (drop (snd (token s)) s) → P s) → ∀ s, P s.
Proof.
  intros H0 HS s. remember (length s) as n eqn:Hn. assert (length s ≤ n)%nat as Hs by lia. clear Hn.
  revert s Hs. induction n as [|n IH]; intros s Hs.
  { destruct s; [done|simpl in Hs; lia]. }
  destruct (decide (s = [])) as [->|Hne]; [done|]. apply HS; [done|]. apply IH. rewrite length_drop.
  pose proof (token_width s Hne). lia.
Qed.

Lemma stream_shift s o o' : map fst (stream s o) = map fst (stream s o').
Proof.
  revert o o'. induction s as [|s Hs IH] using text_ind; intros o o'; [done|].
  rewrite (stream_token s o), (stream_token s o') by done. rewrite !map_app. rewrite (IH _ (o' + snd (token s))%nat). by destruct (fst (token s)).
Qed.

(** Cutting in front of a cell. *)
Lemma stream_cut s o l1 r p l2 : stream s o = l1 ++ (r, p) :: l2 →
  (o ≤ p < o + length s)%nat ∧ stream (take (p - o) s) o = l1 ∧ stream (drop (p - o) s) p = (r, p) :: l2.
Proof.
  revert o l1. induction s as [|s Hs IH] using text_ind; intros o l1 Hl; [by destruct l1|].
  pose proof (token_width s Hs) as Hw. rewrite stream_token in Hl by done.
  set (w := snd (token s)) in *. pose proof (length_drop s w) as Hld.
  assert (∀ l, stream (drop w s) (o + w) = l ++ (r, p) :: l2 →
    (o + w ≤ p < o + length s)%nat ∧ stream (drop (p - o) s) p = (r, p) :: l2 ∧
    stream (take (p - o) s) o = match fst (token s) with Some r => [(r, o)] | None => [] end ++ l) as Hrest.
  { intros l (Hp & Ht & Hd)%IH. split; [lia|]. split.
    - rewrite drop_drop in Hd. by replace (p - o)%nat with (w + (p - (o + w)))%nat by lia.
    - rewrite stream_token.
      + rewrite token_take by (done || (fold w; lia)). f_equal. fold w. rewrite <- Ht. f_equal.
        rewrite skipn_firstn_comm. f_equal. lia.
      + intros Hn. apply (f_equal length) in Hn. rewrite length_take in Hn. simpl in Hn. lia. }
  destruct (fst (token s)) as [r0|] eqn:Hr0; cbn [app] in Hl, Hrest.
  - destruct l1 as [|x l1]; cbn [app] in Hl.
    + injection Hl as <- <- Hl. rewrite Nat.sub_diag. split; [lia|]. split; [done|].
      rewrite drop_0, stream_token by done. rewrite Hr0. cbn [app]. fold w. by rewrite Hl.
    + injection Hl as <- Hl. destruct (Hrest _ Hl) as (H1 & H2 & H3). split; [lia|done].
  - destruct (Hrest _ Hl) as (H1 & H2 & H3). split; [lia|done].
Qed.

Lemma collapse_cut b l c1 r p c2 : collapse_loop b l = c1 ++ (r, p) :: c2 →
  ∃ l1 r0 l2, l = l1 ++ (r0, p) :: l2 ∧ collapse_loop b l1 = c1 ∧ collapse_loop false ((r0, p) :: l2) = (r, p) :: c2.
Proof.
  revert b c1. induction l as [|[r' p'] l IH]; intros b c1 Hl; [by destruct c1|]. cbn [collapse_loop] in Hl.
  assert (∀ b' c, collapse_loop b' l = c ++ (r, p) :: c2 → ∃ l1 r0 l2, (r', p') :: l = ((r', p') :: l1) ++ (r0, p) :: l2 ∧
    collapse_loop b' l1 = c ∧ collapse_loop false ((r0, p) :: l2) = (r, p) :: c2) as Hnext.
  { intros b' c (l1 & r0 & l2 & -> & H1 & H2)%IH. by exists l1, r0, l2. }
  destruct (is_space r') eqn:Hsp; [destruct b|].
  - destruct (Hnext _ _ Hl) as (l1 & r0 & l2 & H1 & H2 & H3). exists ((r', p') :: l1), r0, l2. cbn [collapse_loop]. by rewrite Hsp.
  - destruct c1 as [|x c1]; cbn [app] in Hl.
    + injection Hl as <- <- Hl. exists [], r', l. cbn [collapse_loop]. by rewrite Hsp, Hl.
    + injection Hl as <- Hl. destruct (Hnext _ _ Hl) as (l1 & r0 & l2 & H1 & H2 & H3).
      exists ((r', p') :: l1), r0, l2. cbn [collapse_loop]. by rewrite Hsp, H2.
  - destruct c1 as [|x c1]; cbn [app] in Hl.
    + injection Hl as <- <- Hl. exists [], r', l. cbn [collapse_loop]. by rewrite Hsp, Hl.
    + injection Hl as <- Hl. destruct (Hnext _ _ Hl) as (l1 & r0 & l2 & H1 & H2 & H3).
      exists ((r', p') :: l1), r0, l2. cbn [collapse_loop]. by rewrite Hsp, H2.
Qed.

Lemma collapse_fst b l l' : map fst l = map fst l' → map fst (collapse_loop b l) = map fst (collapse_loop b l').
Proof.
  revert b l'. induction l as [|[r p] l IH]; intros b [|[r' p'] l'] Hl; try done. cbn [map fst] in Hl. injection Hl as <- Hl.
  cbn [collapse_loop]. destruct (is_space r); [destruct b|]; cbn [map fst]; by rewrite (IH _ l').
Qed.

(** The canonical stream of a tolerant pass. *)
Definition cstream (p : Pass) (s : text) (o : nat) : list (Z * nat) :=
  if decide (p = PassWhitespace) then collapse_loop false (stream s o) else stream s o.

Lemma canonicalize_eq s p : canonicalize s p = {| cells := cstream p s 0; cend := length s |}.
Proof. unfold canonicalize, cstream. by destruct (decide _). Qed.

Lemma cstream_shift P s o o' : map fst (cstream P s o) = map fst (cstream P s o').
Proof. unfold cstream. destruct (decide _); [apply collapse_fst|]; apply stream_shift. Qed.

Lemma cstream_cut P s o l1 r p l2 : cstream P s o = l1 ++ (r, p) :: l2 →
  (o ≤ p < o + length s)%nat ∧ cstream P (take (p - o) s) o = l1 ∧ cstream P (drop (p - o) s) p = (r, p) :: l2.
Proof.
  unfold cstream. destruct (decide _); [|apply stream_cut]. intros (k1 & r0 & k2 & Hs & H1 & H2)%collapse_cut.
  apply stream_cut in Hs as (Hp & H3 & H4). split; [done|]. by rewrite H3, H4.
Qed.

(** The region between the offsets of two cells shows exactly the cells between
    them. *)
Lemma region_runes P s i n : let c := canonicalize s P in (0 < n)%nat → (i + n ≤ length (cells c))%nat →
  (pos c i < pos c (i + n) ≤ length s)%nat ∧
  map fst (cstream P (slice s (pos c i) (pos c (i + n))) 0) = take n (drop i (runes c)).
Proof.
  intros c Hn Hi. unfold c, runes in *. rewrite canonicalize_eq in *. cbn [cells] in *. unfold pos. cbn [cells cend].
  set (l := cstream P s 0) in *. destruct (lookup_lt_is_Some_2 l i ltac:(lia)) as [[r p] Hp]. rewrite Hp.
  pose proof (take_drop_middle l i (r, p) Hp) as Hcut. symmetry in Hcut. apply cstream_cut in Hcut as (Hb & _ & Hd).
  rewrite Nat.sub_0_r in Hd. rewrite <- (drop_S _ _ _ Hp) in Hd.
  assert (length (drop p s) = length s - p)%nat as Hlp by apply length_drop.
  destruct (l !! (i + n)%nat) as [[r' q]|] eqn:Hq.
  - assert (drop i l = take n (drop i l) ++ (r', q) :: drop (S n) (drop i l)) as Hcut.
    { symmetry. apply take_drop_middle. by rewrite lookup_drop. }
    rewrite Hcut in Hd at 1. apply cstream_cut in Hd as (Hb' & Ht & _).
    assert (p ≠ q) as Hne.
    { intros ->. rewrite Nat.sub_diag, take_0 in Ht. apply (f_equal length) in Ht.
      rewrite length_take, length_drop in Ht. unfold cstream in Ht. destruct (decide _); simpl in Ht; lia. }
    split; [lia|]. unfold slice. rewrite (cstream_shift _ _ 0 p), Ht. by rewrite skipn_map, firstn_map.
  - apply lookup_ge_None_1 in Hq. split; [lia|]. rewrite slice_to_end. rewrite (cstream_shift _ _ 0 p), Hd.
    by rewrite skipn_map, take_ge by (rewrite length_map, length_drop; lia).
Qed.

(** ** Occurrences *)

(** What a pass sees of the text, and what it looks for. *)
Definition hay (p : Pass) (s : text) : list Z :=
  match p with PassExact => map byte_val s | _ => runes (canonicalize s p) end.
Definition needle (p : Pass) (old : text) : list Z :=
  match p with
  | PassExact => map byte_val old
  | PassInvisible => runes (canonicalize old p)
  | PassWhitespace => runes (trimCanon (canonicalize old p))
  end.
(** The byte offset of index [k]. *)
Definition offset (p : Pass) (s : text) (k : nat) : nat :=
  match p with PassExact => k | _ => pos (canonicalize s p) k end.

(** The old text occurs at index [k] of what pass [p] sees. *)
Definition occurs (p : Pass) (s old : text) (k : nat) : Prop :=
  needle p old ≠ [] ∧ take (length (needle p old)) (drop k (hay p s)) = needle p old.

(** [ms] lists, from index [i] on, the leftmost occurrences that do not
    overlap. *)
Inductive leftmost (p : Pass) (s old : text) : nat → list Match → Prop :=
| leftmost_end i : (∀ k, (i ≤ k)%nat → ¬ occurs p s old k) → leftmost p s old i []
| leftmost_next i k ms : (i ≤ k)%nat → (∀ k', (i ≤ k' < k)%nat → ¬ occurs p s old k') → occurs p s old k →
    leftmost p s old (k + length (needle p old)) ms →
    leftmost p s old i ({| Start := offset p s k; End := offset p s (k + length (needle p old)) |} :: ms).

Lemma occurs_bound p s old k : occurs p s old k → (k + length (needle p old) ≤ length (hay p s))%nat ∧ (0 < length (needle p old))%nat.
Proof.
  intros [Hn Ht]. assert (0 < length (needle p old))%nat by (destruct (needle p old); [done|simpl; lia]). split; [|done].
  apply (f_equal length) in Ht. rewrite length_take, length_drop in Ht. lia.
Qed.

Lemma leftmost_skip p s old i ms : ¬ occurs p s old i → leftmost p s old (S i) ms → leftmost p s old i ms.
Proof.
  intros Hi. inversion 1 as [? Hno|? k ms' Hk Hno Hoc Hms]; subst.
  - constructor. intros k Hk. destruct (decide (k = i)) as [->|]; [done|apply Hno; lia].
  - constructor; [lia| |done..]. intros k' Hk'. destruct (decide (k' = i)) as [->|]; [done|apply Hno; lia].
Qed.

(** A tolerant search. *)
Lemma find_loop_leftmost p s old nd fuel i : p ≠ PassExact → runes nd = needle p old → runes nd ≠ [] →
  (length (hay p s) < fuel + i)%nat → leftmost p s old i (find_loop fuel (canonicalize s p) nd i).
Proof.
  intros Hp Hnd Hne. assert (runes (canonicalize s p) = hay p s) as Hh by by destruct p.
  assert (∀ k, pos (canonicalize s p) k = offset p s k) as Ho by by destruct p.
  revert i. induction fuel as [|fuel IH]; intros i Hf; cbn [find_loop].
  { constructor. intros k Hk Hoc%occurs_bound. lia. }
  rewrite Hh, !Ho, Hnd. destruct (length (needle p old) + i <=? length (hay p s))%nat eqn:Hl; bool_hyps; cycle 1.
  { constructor. intros k Hk Hoc%occurs_bound. lia. }
  assert (0 < length (needle p old))%nat by (rewrite <- Hnd; destruct (runes nd); [done|simpl; lia]).
  case_bool_decide as Ht.
  - constructor; [lia|lia|split; [by rewrite <- Hnd|done]|]. apply IH. lia.
  - apply leftmost_skip; [by intros [_ ?]|]. apply IH. lia.
Qed.

(** The exact search. *)
#[export] Instance byte_val_inj : Inj (=) (=) byte_val.
Proof. intros a b Hab%N2Z.inj. rewrite <- (ascii_N_embedding a), <- (ascii_N_embedding b). by f_equal. Qed.

Lemma occurs_exact s old k : old ≠ [] → occurs PassExact s old k ↔ has_prefix (drop k s) old = true.
Proof.
  intros Hne. unfold occurs, hay, needle. rewrite length_map, has_prefix_spec, skipn_map, firstn_map. split.
  - intros [_ Ht]. exists (drop (length old) (drop k s)). rewrite <- (take_drop (length old) (drop k s)) at 1. f_equal.
    exact (inj (fmap byte_val) _ _ Ht).
  - intros [r Hr]. split; [by destruct old|]. by rewrite Hr, take_app_length.
Qed.

Lemma exact_loop_leftmost s old fuel i : old ≠ [] → (length s < fuel + i)%nat → (i ≤ length s)%nat →
  leftmost PassExact s old i (exact_loop fuel s old i).
Proof.
  intros Hne. revert i. induction fuel as [|fuel IH]; intros i Hf Hi; cbn [exact_loop]; [lia|].
  assert (0 < length old)%nat by (destruct old; [done|simpl; lia]).
  destruct (index (drop i s) old) as [j|] eqn:Hj.
  - apply index_spec in Hj as (Hp & Hjl & Hno). rewrite drop_drop in Hp. rewrite length_drop in Hjl.
    replace (length old) with (length (needle PassExact old)) by apply length_map.
    pose proof (proj2 (occurs_exact s old (i + j) Hne) Hp) as Hoc.
    pose proof (occurs_bound _ _ _ _ Hoc) as [Hb _]. unfold hay in Hb. rewrite length_map in Hb.
    apply (leftmost_next PassExact s old i (i + j)); [lia| |done|].
    + intros k' Hk' Hk%occurs_exact; [|done]. specialize (Hno (k' - i)%nat ltac:(lia)). rewrite drop_drop in Hno.
      replace (i + (k' - i))%nat with k' in Hno by lia. congruence.
    + unfold needle in *. rewrite length_map in *. apply IH; lia.
  - constructor. intros k Hk Hoc. pose proof (occurs_bound _ _ _ _ Hoc) as [Hb _]. unfold hay in Hb. rewrite length_map in Hb.
    apply occurs_exact in Hoc; [|done]. pose proof (index_none _ _ Hj (k - i)%nat) as Hno. rewrite length_drop in Hno.
    specialize (Hno ltac:(lia)). rewrite drop_drop in Hno. replace (i + (k - i))%nat with k in Hno by lia. congruence.
Qed.

Lemma matches_leftmost p s old : old ≠ [] → leftmost p s old 0 (matches_of s old p).
Proof.
  intros Hne. assert (∀ nd, p ≠ PassExact → runes nd = needle p old → leftmost p s old 0 (find (canonicalize s p) nd)) as Hfind.
  { intros nd Hp Hnd. unfold find. destruct (decide _) as [Hz|Hz].
    - constructor. intros k _ [Hnn _]. congruence.
    - apply find_loop_leftmost; try done. assert (runes (canonicalize s p) = hay p s) as -> by by destruct p. lia. }
  destruct p; cbn [matches_of]; [apply exact_loop_leftmost; [done|lia..]|by apply Hfind..].
Qed.

(** ** Regions *)

Lemma region p s i n : (0 < n)%nat → (i + n ≤ length (hay p s))%nat →
  (offset p s i < offset p s (i + n) ≤ length s)%nat ∧
  hay p (slice s (offset p s i) (offset p s (i + n))) = take n (drop i (hay p s)).
Proof.
  intros Hn Hi.
  assert (p ≠ PassExact → (offset p s i < offset p s (i + n) ≤ length s)%nat ∧
    runes (canonicalize (slice s (offset p s i) (offset p s (i + n))) p) = take n (drop i (hay p s))) as Ht.
  { intros Hp. assert (hay p s = runes (canonicalize s p) ∧ ∀ k, offset p s k = pos (canonicalize s p) k) as [Hh Ho] by by destruct p.
    rewrite !Ho, Hh in *. unfold runes in Hi. rewrite length_map in Hi. destruct (region_runes p s i n Hn Hi) as [H1 H2].
    split; [done|]. rewrite <- H2. unfold runes. by rewrite canonicalize_eq. }
  destruct p; [|by apply Ht..]. unfold hay, offset in *. rewrite length_map in Hi. split; [lia|].
  unfold slice. rewrite skipn_map, firstn_map. by replace (i + n - i)%nat with n by lia.
Qed.

Lemma occurs_region p s old k : occurs p s old k → let n := length (needle p old) in
  (offset p s k < offset p s (k + n) ≤ length s)%nat ∧ hay p (slice s (offset p s k) (offset p s (k + n))) = needle p old.
Proof.
  intros Ho. cbv zeta. pose proof (occurs_bound _ _ _ _ Ho) as [Hb Hn]. destruct (region p s k _ Hn Hb) as [H1 H2].
  split; [done|]. rewrite H2. apply Ho.
Qed.

Lemma offset_le p s i k : (i ≤ k ≤ length (hay p s))%nat → (offset p s i ≤ offset p s k)%nat.
Proof.
  intros Hk. destruct (decide (i = k)) as [->|]; [lia|]. destruct (region p s i (k - i)) as [H1 _]; [lia..|].
  replace (i + (k - i))%nat with k in H1 by lia. lia.
Qed.

(** A region reads as the old text: the same bytes, or the same canonical
    runes. *)
Definition reads_as (p : Pass) (old region : text) : Prop :=
  match p with PassExact => region = old | _ => hay p region = needle p old end.

Lemma reads_as_hay p old region : hay p region = needle p old → reads_as p old region.
Proof. destruct p; [|done..]. intros H. unfold reads_as. exact (list_fmap_eq_inj byte_val byte_val_inj region old H). Qed.

(** [t'] is [t] with [n] disjoint regions, each satisfying [ok], replaced. *)
Inductive rewritten (ok : text → Prop) (new : text) : text → text → nat → Prop :=
| rewritten_end t : rewritten ok new t t 0
| rewritten_step before region t t' n : ok region → region ≠ [] → rewritten ok new t t' n →
    rewritten ok new (before ++ region ++ t) (before ++ new ++ t') (S n).

Lemma splice_rewritten p s old new i ms : leftmost p s old i ms → ∀ prev, (prev ≤ offset p s i)%nat → (prev ≤ length s)%nat →
  rewritten (reads_as p old) new (drop prev s) (splice_loop s new prev ms) (length ms).
Proof.
  induction 1 as [i Hno|i k ms Hk Hno Hoc Hms IH]; intros prev Hprev Hl; [constructor|]. cbn [splice_loop Start End length].
  pose proof (occurs_region _ _ _ _ Hoc) as [[Hlt Hle] Hr]. pose proof (occurs_bound _ _ _ _ Hoc) as [Hb _].
  pose proof (offset_le p s i k ltac:(lia)).
  rewrite <- (slice_to_end s prev), <- (slice_app s prev (offset p s k) (length s)) by lia.
  rewrite <- (slice_app s (offset p s k) (offset p s (k + length (needle p old))) (length s)) by lia. rewrite slice_to_end.
  constructor; [by apply reads_as_hay| |by apply IH].
  intros Hz. apply (f_equal length) in Hz. rewrite slice_length in Hz by lia. simpl in Hz. lia.
Qed.

(** ** The outcome of a replacement *)

(** Which attempt decides. *)
Lemma choose_inv s new all attempts none r : choose s new all attempts none = r →
  (r = Err none ∧ Forall (λ a, a.2 = []) attempts) ∨
  ∃ pre p ms post, attempts = pre ++ (p, ms) :: post ∧ Forall (λ a, a.2 = []) pre ∧ ms ≠ [] ∧
    ((r = Ok (splice s new p ms) ∧ (all = false → length ms = 1%nat)) ∨
     (r = Err (AmbiguousError p ms) ∧ all = false ∧ (1 < length ms)%nat)).
Proof.
  intros <-. induction attempts as [|[p ms] attempts IH]; cbn [choose]; [left; by split|].
  destruct ((length ms =? 1)%nat || _) eqn:H1.
  - right. exists [], p, ms, attempts. split_and!; [done|constructor|by destruct ms|]. left. split; [done|].
    intros ->. rewrite andb_false_r, orb_false_r in H1. by bool_hyps.
  - bool_hyps. destruct (1 <? length ms)%nat eqn:H2.
    + right. exists [], p, ms, attempts. split_and!; [done|constructor|by destruct ms|]. right. bool_hyps. split_and!; [done| |done].
      by destruct all.
    + assert (ms = []) as -> by (bool_hyps; destruct ms as [|? [|]]; simpl in *; (done || lia)).
      destruct IH as [[? ?]|(pre & p' & ms' & post & -> & Hpre & Hne & Hr)]; [left; split; [done|by constructor]|].
      right. exists ((p, []) :: pre), p', ms', post. split_and!; [done|by constructor|exact Hne|exact Hr].
Qed.

(** The passes in the order they are tried. *)
Definition rank (p : Pass) : nat := match p with PassExact => 0 | PassInvisible => 1 | PassWhitespace => 2 end.

Lemma leftmost_nil p s old : leftmost p s old 0 [] → ∀ k, ¬ occurs p s old k.
Proof. inversion 1 as [? Hno|]. intros k. apply Hno. lia. Qed.

Lemma leftmost_cons p s old ms : leftmost p s old 0 ms → ms ≠ [] → ∃ k ms',
  ms = {| Start := offset p s k; End := offset p s (k + length (needle p old)) |} :: ms' ∧
  (∀ k', (k' < k)%nat → ¬ occurs p s old k') ∧ occurs p s old k ∧ leftmost p s old (k + length (needle p old)) ms'.
Proof.
  inversion 1 as [|? k ms' Hk Hskip Hoc Hrest]; [done|]. intros _. exists k, ms'. split; [done|]. split; [|done].
  intros k' Hk'. apply Hskip. lia.
Qed.

Lemma attempts_order s old pre p ms post :
  map (λ p, (p, matches_of s old p)) [PassExact; PassInvisible; PassWhitespace] = pre ++ (p, ms) :: post →
  ms = matches_of s old p ∧ ∀ p', (rank p' < rank p)%nat → (p', matches_of s old p') ∈ pre.
Proof.
  cbn [map]. intros H. destruct pre as [|a [|b [|c [|]]]]; cbn [app] in H; simplify_eq; (split; [done|]);
    intros [] Hr; cbn [rank] in Hr; try lia; set_solver.
Qed.

(** What an accepted call went through. *)
Lemma Replace_inv s old new all r : Replace s old new all = r → old ≠ [] → utf8 old → utf8 new →
  (r = Err (NoMatchError (nearestContext s old)) ∧ ∀ p k, ¬ occurs p s old k) ∨
  ∃ p, leftmost p s old 0 (matches_of s old p) ∧ matches_of s old p ≠ [] ∧
    (∀ p' k, (rank p' < rank p)%nat → ¬ occurs p' s old k) ∧
    ((r = Ok (splice s new p (matches_of s old p)) ∧ (all = false → length (matches_of s old p) = 1%nat)) ∨
     (r = Err (AmbiguousError p (matches_of s old p)) ∧ all = false ∧ (1 < length (matches_of s old p))%nat)).
Proof.
  unfold Replace. intros Hr Hne Ho Hn. rewrite decide_False in Hr by done.
  rewrite (proj2 (valid_utf8_spec _) Ho), (proj2 (valid_utf8_spec _) Hn) in Hr. cbn [negb] in Hr.
  assert (∀ p, matches_of s old p = [] → ∀ k, ¬ occurs p s old k) as Hnil.
  { intros p Hp. pose proof (matches_leftmost p s old Hne) as Hl. rewrite Hp in Hl. by apply leftmost_nil. }
  destruct (choose_inv _ _ _ _ _ _ Hr) as [[Hr' Hall]|(pre & p & ms & post & Hat & Hpre & Hms & Hout)].
  - left. split; [done|]. intros p. apply Hnil. rewrite Forall_forall in Hall.
    apply (Hall (p, matches_of s old p)). cbn [map]. destruct p; set_solver.
  - right. destruct (attempts_order _ _ _ _ _ _ Hat) as [-> Hord]. exists p.
    split; [by apply matches_leftmost|]. split; [done|]. split; [|exact Hout].
    intros p' k Hp'. apply Hnil. rewrite Forall_forall in Hpre. exact (Hpre _ (Hord p' Hp')).
Qed.

Lemma Replace_ok_inputs s old new all r : Replace s old new all = Ok r → old ≠ [] ∧ utf8 old ∧ utf8 new.
Proof.
  unfold Replace. destruct (decide _) as [|Hne]; [done|]. destruct (valid_utf8 old) eqn:Ho; [|done].
  destruct (valid_utf8 new) eqn:Hn; [|done]. intros _. by rewrite <- !valid_utf8_spec.
Qed.

Lemma Replace_ok_inv s old new all r : Replace s old new all = Ok r →
  leftmost (RPass r) s old 0 (Matches r) ∧ Matches r ≠ [] ∧ (all = false → length (Matches r) = 1%nat) ∧
  Text r = splice_loop s new 0 (Matches r) ∧ ∀ p k, (rank p < rank (RPass r))%nat → ¬ occurs p s old k.
Proof.
  intros H. destruct (Replace_ok_inputs _ _ _ _ _ H) as (Hne & Ho & Hn).
  destruct (Replace_inv _ _ _ _ _ H Hne Ho Hn) as [[? _]|(p & Hl & Hms & Hno & [[[= ->] Hall]|[? _]])]; [done| |done].
  by split_and!.
Qed.

(** *** UTF-8 boundaries *)

Lemma utf8_head s c : utf8 s → head s = Some c → rune_start c = true.
Proof. intros Hu Hc. destruct s as [|x s]; [done|]. injection Hc as ->. inversion Hu as [|? Hd _]. by eapply decodes_rune_start. Qed.

Lemma utf8_slice s i j : (i ≤ j)%nat → utf8 (drop i s) → utf8 (drop j s) → utf8 (slice s i j).
Proof.
  intros Hij Hi Hj. apply (utf8_cut _ (drop j s)); [|intros c; by apply utf8_head].
  unfold slice. replace (drop j s) with (drop (j - i) (drop i s)) by (rewrite drop_drop; f_equal; lia).
  by rewrite take_drop.
Qed.

Lemma token_utf8 s : s ≠ [] → utf8 s → utf8 (drop (snd (token s)) s).
Proof.
  intros Hs Hu. unfold token. destruct (0 <? entitySpace s)%nat eqn:He.
  - cbn [snd]. clear He. unfold entitySpace. destruct (filter _ _) as [|e l] eqn:Hf; [done|].
    assert (e ∈ filter (λ e, has_prefix s e = true) space_entities) as [Hp He]%list_elem_of_filter by (rewrite Hf; left).
    apply has_prefix_spec in Hp as [r ->]. rewrite drop_app_length. apply (utf8_cut_r e); [|done]. apply valid_utf8_spec.
    assert (Forall (λ e, valid_utf8 e = true) space_entities) as Hall by (repeat constructor).
    rewrite Forall_forall in Hall. by apply Hall.
  - inversion Hu as [|? _ Hd]; [done|]. destruct (decode_rune s) as [r sz]. cbn [snd] in Hd. by repeat case_match.
Qed.

Lemma stream_boundary s o l1 r p l2 : utf8 s → stream s o = l1 ++ (r, p) :: l2 → utf8 (drop (p - o) s).
Proof.
  intros Hu. revert o l1. induction s as [|s Hs IH] using text_ind; intros o l1 Hl; [by destruct l1|].
  rewrite stream_token in Hl by done.
  assert (∀ l, stream (drop (snd (token s)) s) (o + snd (token s)) = l ++ (r, p) :: l2 → utf8 (drop (p - o) s)) as Hrest.
  { intros l Hl'. pose proof (stream_cut _ _ _ _ _ _ Hl') as [Hp _]. apply IH in Hl'; [|by apply token_utf8].
    rewrite drop_drop in Hl'. by replace (snd (token s) + (p - (o + snd (token s))))%nat with (p - o)%nat in Hl' by lia. }
  destruct (fst (token s)) as [r0|]; cbn [app] in Hl; [|by eapply Hrest].
  destruct l1 as [|x l1]; cbn [app] in Hl; injection Hl as; [|by eapply Hrest]. subst. by rewrite Nat.sub_diag.
Qed.

Lemma offset_boundary p s old k : utf8 s → utf8 old → old ≠ [] → occurs p s old k →
  utf8 (drop (offset p s k) s) ∧ utf8 (drop (offset p s (k + length (needle p old))) s).
Proof.
  intros Hu Hold Hne Hoc.
  assert (p ≠ PassExact → ∀ i, utf8 (drop (offset p s i) s)) as Htol.
  { intros Hp i. replace (offset p s i) with (pos (canonicalize s p) i) by (by destruct p). rewrite canonicalize_eq.
    unfold pos. cbn [cells cend]. destruct (cstream p s 0 !! i) as [[r q]|] eqn:Hq; [|rewrite drop_all; constructor].
    pose proof (eq_sym (take_drop_middle _ _ _ Hq)) as Hcut. unfold cstream in Hcut. destruct (decide _) in Hcut.
    - apply collapse_cut in Hcut as (l1 & r0 & l2 & Hs & _). apply stream_boundary in Hs; [|done]. by rewrite Nat.sub_0_r in Hs.
    - apply stream_boundary in Hcut; [|done]. by rewrite Nat.sub_0_r in Hcut. }
  destruct p; [|split; by apply Htol..]. unfold offset, needle. rewrite length_map.
  apply occurs_exact, has_prefix_spec in Hoc as [r Hr]; [|done].
  assert (utf8 (drop k s)) as Hk.
  { apply (utf8_cut (take k s)); [by rewrite take_drop|]. rewrite Hr. intros c Hc. apply (utf8_head old); [done|]. by destruct old. }
  split; [done|]. rewrite <- drop_drop, Hr, drop_app_length. rewrite Hr in Hk. by apply utf8_cut_r in Hk.
Qed.

Lemma splice_utf8 p s old new i ms : utf8 s → utf8 old → utf8 new → old ≠ [] → leftmost p s old i ms →
  ∀ prev, (prev ≤ offset p s i)%nat → utf8 (drop prev s) → utf8 (splice_loop s new prev ms).
Proof.
  intros Hu Ho Hn Hne. induction 1 as [i Hno|i k ms Hk Hno Hoc Hms IH]; intros prev Hprev Hb; [done|]. cbn [splice_loop Start End].
  destruct (offset_boundary p s old k Hu Ho Hne Hoc) as [H1 H2]. pose proof (occurs_bound _ _ _ _ Hoc) as [Hlt _].
  pose proof (offset_le p s i k ltac:(lia)).
  apply utf8_app; [apply utf8_slice; [lia|done..]|]. apply utf8_app; [done|]. by apply IH.
Qed.

(** ** Properties *)

(** C38: a successful replacement changes nothing but the matched regions: the
    result is the text with disjoint non-empty regions, at least one and exactly
    one unless [all] is set, replaced by the new text; every region reads as the
    old text in the winning pass, no occurrence was skipped, and no earlier pass
    had any. *)
Theorem Replace_sound s old new all r : Replace s old new all = Ok r →
  rewritten (reads_as (RPass r) old) new s (Text r) (length (Matches r)) ∧
  (1 ≤ length (Matches r))%nat ∧ (all = false → length (Matches r) = 1%nat) ∧
  leftmost (RPass r) s old 0 (Matches r) ∧ ∀ p k, (rank p < rank (RPass r))%nat → ¬ occurs p s old k.
Proof.
  intros (Hl & Hms & Hone & -> & Hno)%Replace_ok_inv. split_and!; [|by destruct (Matches r); [|simpl; lia]|done..].
  exact (splice_rewritten _ _ _ new _ _ Hl 0 (Nat.le_0_l _) (Nat.le_0_l _)).
Qed.

(** The editor never guesses.  Without [all], a success means that every
    occurrence the winning pass sees overlaps the one replaced; a no-match
    error means that no pass sees any occurrence; an ambiguity error means that
    the pass sees two that do not overlap, and no earlier pass sees one. *)
Theorem Replace_never_guesses s old new : old ≠ [] → utf8 old → utf8 new →
  match Replace s old new false with
  | Ok r => ∃ k, occurs (RPass r) s old k ∧
      ∀ k', occurs (RPass r) s old k' → (k ≤ k' < k + length (needle (RPass r) old))%nat
  | Err (NoMatchError _) => ∀ p k, ¬ occurs p s old k
  | Err (AmbiguousError p _) => (∃ k k', occurs p s old k ∧ occurs p s old k' ∧ (k + length (needle p old) ≤ k')%nat) ∧
      ∀ p' k, (rank p' < rank p)%nat → ¬ occurs p' s old k
  | Err _ => False
  end.
Proof.
  intros Hne Ho Hn. destruct (Replace_inv s old new false _ eq_refl Hne Ho Hn) as [[-> ?]|(p & Hl & Hms & Hno & [[-> Hone]|(-> & _ & Hlen)])]; [done|..];
    destruct (leftmost_cons _ _ _ _ Hl Hms) as (k & ms' & Heq & Hskip & Hoc & Hrest).
  - cbn [RPass splice]. specialize (Hone eq_refl). rewrite Heq in Hone. destruct ms'; [|done].
    inversion Hrest as [? Hend|]; subst. exists k. split; [done|]. intros k' Hk'.
    destruct (decide (k ≤ k')%nat); [|exfalso; apply (Hskip k'); [lia|done]].
    split; [done|]. destruct (decide (k' < k + length (needle p old))%nat); [done|]. exfalso. apply (Hend k'); [lia|done].
  - split; [|done]. rewrite Heq in Hlen. inversion Hrest as [|? k' ? Hk' _ Hoc' _]; subst; [simpl in Hlen; lia|]. by exists k, k'.
Qed.

(** Replacing in valid UTF-8 gives valid UTF-8: no match starts or ends
    inside a rune, in any pass. *)
Theorem Replace_utf8 s old new all r : utf8 s → Replace s old new all = Ok r → utf8 (Text r).
Proof.
  intros Hu H. destruct (Replace_ok_inputs _ _ _ _ _ H) as (Hne & Ho & Hn). apply Replace_ok_inv in H as (Hl & _ & _ & -> & _).
  apply (splice_utf8 _ _ _ _ _ _ Hu Ho Hn Hne Hl 0); [lia|by rewrite drop_0].
Qed.

(** ** Witnesses *)

Definition nb : text := ["194"%char; "160"%char].
(** A no-break space where the old text has a space. *)
Definition page : text := txt "<p>a" ++ nb ++ txt "b c</p>".

Lemma Replace_sound_witness : ∃ r, Replace page (txt "a b") (txt "X") false = Ok r ∧
  Text r = txt "<p>X c</p>" ∧ rewritten (reads_as PassInvisible (txt "a b")) (txt "X") page (Text r) 1.
Proof.
  set (r := {| Text := txt "<p>X c</p>"; RPass := PassInvisible; Matches := [{| Start := 3; End := 7 |}] |}).
  assert (Replace page (txt "a b") (txt "X") false = Ok r) as H by (by vm_compute).
  exists r. split; [exact H|]. split; [reflexivity|]. exact (proj1 (Replace_sound _ _ _ _ _ H)).
Defined.

Lemma Replace_never_guesses_witness :
  (∀ p k, ¬ occurs p page (txt "zz") k) ∧
  ∃ k k', occurs PassExact (txt "a.a") (txt "a") k ∧ occurs PassExact (txt "a.a") (txt "a") k' ∧ (k + 1 ≤ k')%nat.
Proof.
  split.
  - assert (∃ e, Replace page (txt "zz") [] false = Err (NoMatchError e)) as [e He] by (eexists; vm_compute; reflexivity).
    pose proof (Replace_never_guesses page (txt "zz") [] ltac:(done) ltac:(by apply valid_utf8_spec) ltac:(constructor)) as H.
    by rewrite He in H.
  - assert (∃ ms, Replace (txt "a.a") (txt "a") [] false = Err (AmbiguousError PassExact ms)) as [e He] by (eexists; vm_compute; reflexivity).
    pose proof (Replace_never_guesses (txt "a.a") (txt "a") [] ltac:(done) ltac:(by apply valid_utf8_spec) ltac:(constructor)) as H.
    rewrite He in H. exact (proj1 H).
Defined.

Lemma Replace_utf8_witness : ∃ r, Replace page (txt "a b") nb true = Ok r ∧ utf8 (Text r).
Proof.
  assert (∃ r, Replace page (txt "a b") nb true = Ok r) as [r H] by (eexists; vm_compute; reflexivity).
  exists r. split; [exact H|]. apply (Replace_utf8 page (txt "a b") nb true r); [by apply valid_utf8_spec|exact H].
Defined.
End TextEdit.
