(* ===== verification/Lifecycle.v ===== *)
(** * The attempt ledger (internal/agenteval/lifecycle: contract.go, state.go
    and the digests of codec.go)

    An attempt is an immutable plan and an append-only list of events; its state
    is the projection of the events.  SHA-256 is the parameter [sha256]; the
    JSON the digests cover is printed by [Encoding]. *)

From stdpp Require Import vector pretty.
From S2P Require Import Prelude GoText Identifiers Encoding.
Import GoText Identifiers Encoding.

Module Lifecycle.
Local Open Scope Z_scope.

(** ** Constants *)

Definition LedgerSchema : text := txt "agent-eval/attempt-ledger".
Definition PlanSchema : text := txt "agent-eval/attempt-plan".
Definition EventSchema : text := txt "agent-eval/attempt-event".
Definition SchemaVersion : Z := 1.
Definition ContractVersion : text := txt "0.1.0-pre-release".
Definition MaxAttempts : Z := 4096.
Definition MaxEvents : Z := 256.

Definition StateCanceled : text := txt "canceled".
Definition StateCommitted : text := txt "committed".
Definition StateFailed : text := txt "failed".
Definition StatePlanned : text := txt "planned".
Definition StatePolicyDenied : text := txt "policy_denied".
Definition StateRunning : text := txt "running".
Definition StateSpawning : text := txt "spawning".
Definition StateSucceeded : text := txt "succeeded".
Definition StateTimedOut : text := txt "timed_out".
Definition StateUnknown : text := txt "unknown".
Definition StateUnsupported : text := txt "unsupported".

Definition ProofCompleteLedger : text := txt "complete_ledger".
Definition ProofDefinitiveSpawnFailure : text := txt "definitive_spawn_failure".
Definition ProofDurableCancel : text := txt "durable_cancel".
Definition ProofDurableCapabilityRefusal : text := txt "durable_capability_refusal".
Definition ProofDurableCommit : text := txt "durable_commit".
Definition ProofDurableDeadline : text := txt "durable_deadline".
Definition ProofDurablePolicyRefusal : text := txt "durable_policy_refusal".
Definition ProofDurableProcessIdentity : text := txt "durable_process_identity".
Definition ProofDurableSpawnIntent : text := txt "durable_spawn_intent".
Definition ProofImmutablePlan : text := txt "immutable_plan".
Definition ProofIncompleteTerminal : text := txt "incomplete_terminal_evidence".
Definition ProofNoCommit : text := txt "no_commit".
Definition ProofNonExecution : text := txt "non_execution_proof".
Definition ProofTerminalReceipt : text := txt "terminal_receipt".
Definition ProofTermination : text := txt "termination_proof".

Definition PrivacyPublic : text := txt "public".
Definition PrivacyContentMinimized : text := txt "content_minimized".
Definition PrivacyOwnerPrivate : text := txt "owner_private".
Definition MetricUnknown : text := txt "unknown".
Definition MetricObserved : text := txt "observed".

Definition ErrorNone : text := txt "none".
Definition ErrorCanceled : text := txt "canceled".
Definition ErrorDeadline : text := txt "deadline".
Definition ErrorPolicyDenied : text := txt "policy_denied".
Definition ErrorUnsupported : text := txt "unsupported".
Definition ErrorSpawnFailure : text := txt "spawn_failure".
Definition ErrorComponentFailure : text := txt "component_failure".
Definition ErrorProtocolFailure : text := txt "protocol_failure".
Definition ErrorCleanupAmbiguous : text := txt "cleanup_ambiguous".
Definition ErrorTerminationAmbiguous : text := txt "termination_ambiguous".
Definition ErrorInternal : text := txt "internal".
Definition errorClasses : list text :=
  [ErrorNone; ErrorCanceled; ErrorDeadline; ErrorPolicyDenied; ErrorUnsupported; ErrorSpawnFailure; ErrorComponentFailure;
   ErrorProtocolFailure; ErrorCleanupAmbiguous; ErrorTerminationAmbiguous; ErrorInternal].

Definition transitionProofSets : list ((text * text) * list (list text)) :=
  [((StateCommitted, StateCanceled), [[ProofDurableCancel; ProofNonExecution]]);
   ((StateCommitted, StateFailed), [[ProofDefinitiveSpawnFailure; ProofNonExecution]]);
   ((StateCommitted, StateSpawning), [[ProofDurableSpawnIntent]]);
   ((StateCommitted, StateTimedOut), [[ProofDurableDeadline; ProofNonExecution]]);
   ((StateCommitted, StateUnknown), [[ProofIncompleteTerminal]]);
   ((StatePlanned, StateCanceled), [[ProofCompleteLedger; ProofDurableCancel; ProofNoCommit]]);
   ((StatePlanned, StateCommitted), [[ProofDurableCommit]]);
   ((StatePlanned, StatePolicyDenied), [[ProofCompleteLedger; ProofDurablePolicyRefusal; ProofNoCommit]]);
   ((StatePlanned, StateTimedOut), [[ProofCompleteLedger; ProofDurableDeadline; ProofNoCommit]]);
   ((StatePlanned, StateUnknown), [[ProofIncompleteTerminal]]);
   ((StatePlanned, StateUnsupported), [[ProofCompleteLedger; ProofDurableCapabilityRefusal; ProofNoCommit]]);
   ((StateRunning, StateCanceled), [[ProofDurableCancel; ProofTermination]]);
   ((StateRunning, StateFailed), [[ProofTerminalReceipt; ProofTermination]]);
   ((StateRunning, StateSucceeded), [[ProofTerminalReceipt; ProofTermination]]);
   ((StateRunning, StateTimedOut), [[ProofDurableDeadline; ProofTermination]]);
   ((StateRunning, StateUnknown), [[ProofIncompleteTerminal]]);
   ((StateSpawning, StateCanceled), [[ProofDurableCancel; ProofNonExecution]; [ProofDurableCancel; ProofTermination]]);
   ((StateSpawning, StateFailed), [[ProofDefinitiveSpawnFailure; ProofNonExecution]; [ProofTerminalReceipt; ProofTermination]]);
   ((StateSpawning, StateRunning), [[ProofDurableProcessIdentity]]);
   ((StateSpawning, StateSucceeded), [[ProofTerminalReceipt; ProofTermination]]);
   ((StateSpawning, StateTimedOut), [[ProofDurableDeadline; ProofNonExecution]; [ProofDurableDeadline; ProofTermination]]);
   ((StateSpawning, StateUnknown), [[ProofIncompleteTerminal]])].

Definition terminalStates : list text :=
  [StateCanceled; StateFailed; StatePolicyDenied; StateSucceeded; StateTimedOut; StateUnknown; StateUnsupported].

(** ** Data *)

Record LedgerHeader := {
  HSchema : text; HSchemaVersion : Z; HContractVersion : text; HLedgerID : text; HeaderSHA256 : text
}.

Record Identity := {
  ExperimentSHA256 : text; TaskSHA256 : text; SkillSHA256 : text; AgentSHA256 : text; ModelSHA256 : text;
  EnvironmentSHA256 : text; GraderSHA256 : text; BudgetsSHA256 : text; AdapterSHA256 : text; AuthoritySHA256 : text
}.
Record Binding := { Privacy : text; BIdentity : Identity }.

Record Plan := {
  PSchema : text; PSchemaVersion : Z; PLedgerID : text; PAttemptID : text; Ordinal : Z;
  PredecessorAttemptID : text; ReconciliationSHA256 : text; PBinding : Binding; BindingSHA256 : text; PlanSHA256 : text
}.

(** [Value] is a pointer: [None] is nil. *)
Record Metric := { MState : text; Value : option Z }.
Record Usage := { EstimatedCostMicroUSD : Metric; InputTokens : Metric; OutputTokens : Metric }.
Record Evidence := { ProcessIdentitySHA256 : text; ReceiptSHA256 : text; ErrorClass : text; EUsage : Usage }.

Record Event := {
  ESchema : text; ESchemaVersion : Z; ELedgerID : text; EAttemptID : text; EPlanSHA256 : text; Sequence : Z;
  PreviousSHA256 : text; From : text; To : text; Proofs_ : list text; EEvidence : Evidence; EventSHA256 : text
}.

Record Projection := {
  State : text; Terminal : bool; PjSequence : Z; LastSHA256 : text; PjUsage : Usage; ProcessSHA256 : text; PjReceiptSHA256 : text
}.

(** A contract error is its code. *)
Abbreviation contractError := text (only parsing).


(** ** Pure checks *)

Definition IsTerminal (state : text) : bool := existsb (eqt state) terminalStates.

Definition States : list text :=
  [StateCanceled; StateCommitted; StateFailed; StatePlanned; StatePolicyDenied; StateRunning; StateSpawning; StateSucceeded;
   StateTimedOut; StateUnknown; StateUnsupported].

Definition proofSets (from to : text) : list (list text) :=
  match filter (λ e, e.1 = (from, to)) transitionProofSets with
  | e :: _ => e.2
  | [] => []
  end.
Definition AllowedProofSets (from to : text) : list (list text) := proofSets from to.

Fixpoint equalProofs (a b : list text) : bool :=
  match a, b with
  | [], [] => true
  | x :: a, y :: b => eqt x y && equalProofs a b
  | _, _ => false
  end.

Definition validTransitionProofs (from to : text) (proofs : list text) : bool :=
  existsb (λ set, equalProofs set proofs) (proofSets from to).

Definition validSHA256 (value : text) : bool := (length value =? 64)%nat && hex_decodes value.

(** [sort.SliceIsSorted] and [hasDuplicateProof] look at neighbours. *)
Fixpoint adjacent (f : text → text → bool) (l : list text) : bool :=
  match l with
  | a :: (b :: _) as l' => f a b && adjacent f l'
  | _ => true
  end.
Definition hasDuplicateProof (proofs : list text) : bool := negb (adjacent (λ a b, negb (eqt b a)) proofs).
Definition sortedUniqueProofs (proofs : list text) : bool :=
  adjacent (λ a b, negb (text_ltb b a)) proofs && negb (hasDuplicateProof proofs).

Definition containsProof (proofs : list text) (want : text) : bool := existsb (λ p, eqt p want) proofs.

Definition UnknownUsage : Usage :=
  let m := {| MState := MetricUnknown; Value := None |} in
  {| EstimatedCostMicroUSD := m; InputTokens := m; OutputTokens := m |}.
Definition ObservedMetric (value : Z) : Metric := {| MState := MetricObserved; Value := Some value |}.

(** Validators return the code of their error. *)
Definition validateBinding (binding : Binding) : option contractError :=
  if negb (eqt (Privacy binding) PrivacyPublic) && negb (eqt (Privacy binding) PrivacyContentMinimized) &&
     negb (eqt (Privacy binding) PrivacyOwnerPrivate)
  then Some (txt "privacy")
  else
    let i := BIdentity binding in
    let digests := [ExperimentSHA256 i; TaskSHA256 i; SkillSHA256 i; AgentSHA256 i; ModelSHA256 i; EnvironmentSHA256 i;
                    GraderSHA256 i; BudgetsSHA256 i; AdapterSHA256 i; AuthoritySHA256 i] in
    if forallb validSHA256 digests then None else Some (txt "identity").

Definition metric_problem (m : Metric) : option contractError :=
  if negb (eqt (MState m) MetricUnknown) && negb (eqt (MState m) MetricObserved) then Some (txt "metric_state")
  else if (eqt (MState m) MetricUnknown && bool_decide (Value m ≠ None)) || (eqt (MState m) MetricObserved && bool_decide (Value m = None))
  then Some (txt "metric_unknown_value")
  else None.
Definition validateUsage (usage : Usage) : option contractError :=
  first_some (λ _, metric_problem) 0 [EstimatedCostMicroUSD usage; InputTokens usage; OutputTokens usage].

Definition validateProjection (value : Projection) : option contractError :=
  if (MaxEvents <? PjSequence value) || negb (Bool.eqb (Terminal value) (IsTerminal (State value))) ||
     ((PjSequence value =? 0) && (negb (eqt (State value) StatePlanned) || negb (eqt (LastSHA256 value) []))) ||
     ((0 <? PjSequence value) && negb (validSHA256 (LastSHA256 value))) || bool_decide (validateUsage (PjUsage value) ≠ None) ||
     (negb (eqt (ProcessSHA256 value) []) && negb (validSHA256 (ProcessSHA256 value))) ||
     (negb (eqt (PjReceiptSHA256 value) []) && negb (validSHA256 (PjReceiptSHA256 value)))
  then Some (txt "projection") else None.

Definition validateEvidenceShape (evidence : Evidence) : option contractError :=
  if negb (eqt (ProcessIdentitySHA256 evidence) []) && negb (validSHA256 (ProcessIdentitySHA256 evidence))
  then Some (txt "process_identity")
  else if negb (eqt (ReceiptSHA256 evidence) []) && negb (validSHA256 (ReceiptSHA256 evidence)) then Some (txt "receipt")
  else if negb (existsb (eqt (ErrorClass evidence)) errorClasses) || bool_decide (validateUsage (EUsage evidence) ≠ None)
  then Some (txt "evidence")
  else None.

Definition errorClassValid (event : Event) : bool :=
  let c := ErrorClass (EEvidence event) in
  let t := To event in
  if eqt t StateCommitted || eqt t StateSpawning || eqt t StateRunning || eqt t StateSucceeded then eqt c ErrorNone
  else if eqt t StatePolicyDenied then eqt c ErrorPolicyDenied
  else if eqt t StateUnsupported then eqt c ErrorUnsupported
  else if eqt t StateCanceled then eqt c ErrorCanceled
  else if eqt t StateTimedOut then eqt c ErrorDeadline
  else if eqt t StateFailed then
    if containsProof (Proofs_ event) ProofDefinitiveSpawnFailure then eqt c ErrorSpawnFailure
    else eqt c ErrorComponentFailure || eqt c ErrorProtocolFailure
  else if eqt t StateUnknown then
    eqt c ErrorProtocolFailure || eqt c ErrorCleanupAmbiguous || eqt c ErrorTerminationAmbiguous || eqt c ErrorInternal
  else false.

Definition validateEventEvidenceShape (event : Event) : option contractError :=
  if eqt (To event) StateRunning && eqt (ProcessIdentitySHA256 (EEvidence event)) [] then Some (txt "running_identity")
  else if containsProof (Proofs_ event) ProofTerminalReceipt && eqt (ReceiptSHA256 (EEvidence event)) [] then Some (txt "terminal_receipt")
  else if negb (errorClassValid event) then Some (txt "error_class")
  else None.

Definition metricMonotonic (previous next : Metric) : bool :=
  if eqt (MState next) MetricUnknown then bool_decide (Value next = None)
  else
    eqt (MState next) MetricObserved &&
    match Value next with
    | None => false
    | Some n =>
        negb (eqt (MState previous) MetricObserved) ||
        match Value previous with Some p => p <=? n | None => false end
    end.
Definition usageMonotonic (previous next : Usage) : bool :=
  metricMonotonic (EstimatedCostMicroUSD previous) (EstimatedCostMicroUSD next) &&
  metricMonotonic (InputTokens previous) (InputTokens next) && metricMonotonic (OutputTokens previous) (OutputTokens next).

Definition mergeMetric (previous next : Metric) : Metric := if eqt (MState next) MetricObserved then next else previous.
Definition mergeUsage (previous next : Usage) : Usage :=
  {| EstimatedCostMicroUSD := mergeMetric (EstimatedCostMicroUSD previous) (EstimatedCostMicroUSD next);
     InputTokens := mergeMetric (InputTokens previous) (InputTokens next);
     OutputTokens := mergeMetric (OutputTokens previous) (OutputTokens next) |}.

Definition validateEventEvidence (event : Event) (current : Projection) : option contractError :=
  match validateEvidenceShape (EEvidence event) with
  | Some e => Some e
  | None =>
      match validateEventEvidenceShape event with
      | Some e => Some e
      | None =>
          let p := ProcessIdentitySHA256 (EEvidence event) in
          let r := ReceiptSHA256 (EEvidence event) in
          if negb (eqt (ProcessSHA256 current) []) && negb (eqt p []) && negb (eqt (ProcessSHA256 current) p)
          then Some (txt "process_identity_drift")
          else if negb (eqt (PjReceiptSHA256 current) []) && negb (eqt r []) && negb (eqt (PjReceiptSHA256 current) r)
          then Some (txt "receipt_drift")
          else if negb (usageMonotonic (PjUsage current) (EUsage (EEvidence event))) then Some (txt "usage_regression")
          else None
      end
  end.

(** ** Digests *)

Definition json_metric (m : Metric) : text :=
  json_object [member "state" (json_string (MState m));
               match Value m with Some v => member "value" (json_int v) | None => [] end].
Definition json_usage (u : Usage) : text :=
  json_object [member "estimated_cost_microusd" (json_metric (EstimatedCostMicroUSD u));
               member "input_tokens" (json_metric (InputTokens u)); member "output_tokens" (json_metric (OutputTokens u))].
Definition json_evidence (e : Evidence) : text :=
  json_object [member_omitempty "process_identity_sha256" (ProcessIdentitySHA256 e);
               member_omitempty "receipt_sha256" (ReceiptSHA256 e); member_omitempty "error_class" (ErrorClass e);
               member "usage" (json_usage (EUsage e))].
Definition json_binding (b : Binding) : text :=
  let i := BIdentity b in
  json_object [member "privacy" (json_string (Privacy b));
    member "identity" (json_object
      [member "experiment_sha256" (json_string (ExperimentSHA256 i)); member "task_sha256" (json_string (TaskSHA256 i));
       member "skill_sha256" (json_string (SkillSHA256 i)); member "agent_sha256" (json_string (AgentSHA256 i));
       member "model_sha256" (json_string (ModelSHA256 i)); member "environment_sha256" (json_string (EnvironmentSHA256 i));
       member "grader_sha256" (json_string (GraderSHA256 i)); member "budgets_sha256" (json_string (BudgetsSHA256 i));
       member "adapter_sha256" (json_string (AdapterSHA256 i)); member "authority_sha256" (json_string (AuthoritySHA256 i))])].

(** [json.Marshal] prints a nil slice as null; a list models both nil and the
    empty slice, and every event that reaches a digest has a proof. *)
Definition json_strings (l : list text) : text := json_array (map json_string l).

Section ledger.
Variable sha256 : text → vec ascii 32.

Definition hashDomain (domain data : text) : text :=
  hex_encode (vec_to_list (sha256 (txt "agent-eval/" ++ domain ++ txt "/v1" ++ ["000"%char] ++ data))).

Definition digestHeader (header : LedgerHeader) : text :=
  hashDomain (txt "ledger-header")
    (json_object [member "schema" (json_string (HSchema header)); member "schema_version" (json_int (HSchemaVersion header));
                  member "contract_version" (json_string (HContractVersion header)); member "ledger_id" (json_string (HLedgerID header))]).
Definition digestBinding (binding : Binding) : text := hashDomain (txt "attempt-binding") (json_binding binding).
Definition digestPlan (plan : Plan) : text :=
  hashDomain (txt "attempt-plan")
    (json_object [member "schema" (json_string (PSchema plan)); member "schema_version" (json_int (PSchemaVersion plan));
       member "ledger_id" (json_string (PLedgerID plan)); member "attempt_id" (json_string (PAttemptID plan));
       member "ordinal" (json_int (Ordinal plan)); member_omitempty "predecessor_attempt_id" (PredecessorAttemptID plan);
       member_omitempty "reconciliation_sha256" (ReconciliationSHA256 plan); member "binding" (json_binding (PBinding plan));
       member "binding_sha256" (json_string (BindingSHA256 plan))]).
Definition digestEvent (event : Event) : text :=
  hashDomain (txt "attempt-event")
    (json_object [member "schema" (json_string (ESchema event)); member "schema_version" (json_int (ESchemaVersion event));
       member "ledger_id" (json_string (ELedgerID event)); member "attempt_id" (json_string (EAttemptID event));
       member "plan_sha256" (json_string (EPlanSHA256 event)); member "sequence" (json_int (Sequence event));
       member_omitempty "previous_sha256" (PreviousSHA256 event); member "from" (json_string (From event));
       member "to" (json_string (To event)); member "proofs" (json_strings (Proofs_ event));
       member "evidence" (json_evidence (EEvidence event))]).

(** ** Headers and plans *)

(** [random]: the 32 bytes read, [None] when the reader is nil or fails. *)
Definition NewHeader (random : option (vec ascii 32)) : result contractError LedgerHeader :=
  match random with
  | None => Err (txt "random")
  | Some nonce =>
      let h := {| HSchema := LedgerSchema; HSchemaVersion := SchemaVersion; HContractVersion := ContractVersion;
                  HLedgerID := hashDomain (txt "ledger-id") (vec_to_list nonce); HeaderSHA256 := [] |} in
      Ok {| HSchema := HSchema h; HSchemaVersion := HSchemaVersion h; HContractVersion := HContractVersion h;
            HLedgerID := HLedgerID h; HeaderSHA256 := digestHeader h |}
  end.

Definition ValidateHeader (header : LedgerHeader) : option contractError :=
  if negb (eqt (HSchema header) LedgerSchema) || negb (HSchemaVersion header =? SchemaVersion) ||
     negb (eqt (HContractVersion header) ContractVersion) || negb (validSHA256 (HLedgerID header)) ||
     negb (validSHA256 (HeaderSHA256 header))
  then Some (txt "header")
  else if negb (eqt (digestHeader header) (HeaderSHA256 header)) then Some (txt "header_digest")
  else None.

(** The bytes of [fmt.Sprintf("%s\x00%d\x00%s\x00%s\x00%s", ...)]. *)
Definition attemptMaterial (ledgerID : text) (ordinal : Z) (bindingDigest predecessor reconciliation : text) : text :=
  let NUL := "000"%char in
  ledgerID ++ NUL :: txt (pretty ordinal) ++ NUL :: bindingDigest ++ NUL :: predecessor ++ NUL :: reconciliation.

Definition newPlan (header : LedgerHeader) (ordinal : Z) (predecessorAttemptID reconciliationSHA256 : text) (binding : Binding)
    : result contractError Plan :=
  if bool_decide (ValidateHeader header ≠ None) || (ordinal =? 0) || (MaxAttempts <? ordinal) || bool_decide (validateBinding binding ≠ None)
  then Err (txt "plan")
  else
    let bindingDigest := digestBinding binding in
    let plan planDigest :=
      {| PSchema := PlanSchema; PSchemaVersion := SchemaVersion; PLedgerID := HLedgerID header;
         PAttemptID := hashDomain (txt "attempt-id")
           (attemptMaterial (HLedgerID header) ordinal bindingDigest predecessorAttemptID reconciliationSHA256);
         Ordinal := ordinal; PredecessorAttemptID := predecessorAttemptID; ReconciliationSHA256 := reconciliationSHA256;
         PBinding := binding; BindingSHA256 := bindingDigest; PlanSHA256 := planDigest |} in
    Ok (plan (digestPlan (plan []))).

Definition NewPlan (header : LedgerHeader) (ordinal : Z) (binding : Binding) : result contractError Plan :=
  newPlan header ordinal [] [] binding.
Definition NewReconciledPlan (header : LedgerHeader) (ordinal : Z) (predecessorAttemptID reconciliationSHA256 : text) (binding : Binding)
    : result contractError Plan :=
  if negb (validSHA256 predecessorAttemptID) || negb (validSHA256 reconciliationSHA256) then Err (txt "reconciliation")
  else newPlan header ordinal predecessorAttemptID reconciliationSHA256 binding.

Definition ValidatePlan (plan : Plan) : option contractError :=
  if negb (eqt (PSchema plan) PlanSchema) || negb (PSchemaVersion plan =? SchemaVersion) || negb (validSHA256 (PLedgerID plan)) ||
     negb (validSHA256 (PAttemptID plan)) || (Ordinal plan =? 0) || (MaxAttempts <? Ordinal plan) ||
     bool_decide (validateBinding (PBinding plan) ≠ None) ||
     negb (Bool.eqb (eqt (PredecessorAttemptID plan) []) (eqt (ReconciliationSHA256 plan) [])) ||
     (negb (eqt (PredecessorAttemptID plan) []) &&
      (negb (validSHA256 (PredecessorAttemptID plan)) || negb (validSHA256 (ReconciliationSHA256 plan)))) ||
     negb (validSHA256 (BindingSHA256 plan)) || negb (validSHA256 (PlanSHA256 plan))
  then Some (txt "plan")
  else
    let bindingDigest := digestBinding (PBinding plan) in
    if negb (eqt bindingDigest (BindingSHA256 plan)) then Some (txt "binding_digest")
    else if negb (eqt (PAttemptID plan) (hashDomain (txt "attempt-id")
      (attemptMaterial (PLedgerID plan) (Ordinal plan) bindingDigest (PredecessorAttemptID plan) (ReconciliationSHA256 plan))))
    then Some (txt "attempt_id")
    else if negb (eqt (digestPlan plan) (PlanSHA256 plan)) then Some (txt "plan_digest")
    else None.

(** ** Events *)

Definition InitialProjection (plan : Plan) : result contractError Projection :=
  match ValidatePlan plan with
  | Some e => Err e
  | None => Ok {| State := StatePlanned; Terminal := false; PjSequence := 0; LastSHA256 := []; PjUsage := UnknownUsage;
                  ProcessSHA256 := []; PjReceiptSHA256 := [] |}
  end.

Definition set_digest (digest : text) (e : Event) : Event :=
  {| ESchema := ESchema e; ESchemaVersion := ESchemaVersion e; ELedgerID := ELedgerID e; EAttemptID := EAttemptID e;
     EPlanSHA256 := EPlanSHA256 e; Sequence := Sequence e; PreviousSHA256 := PreviousSHA256 e; From := From e; To := To e;
     Proofs_ := Proofs_ e; EEvidence := EEvidence e; EventSHA256 := digest |}.

Definition NewEvent (plan : Plan) (current : Projection) (to : text) (proofs : list text) (evidence : Evidence)
    : result contractError Event :=
  if bool_decide (ValidatePlan plan ≠ None) || bool_decide (validateProjection current ≠ None) || Terminal current ||
     negb (sortedUniqueProofs proofs) || negb (validTransitionProofs (State current) to proofs)
  then Err (txt "transition")
  else
    let event := {| ESchema := EventSchema; ESchemaVersion := SchemaVersion; ELedgerID := PLedgerID plan; EAttemptID := PAttemptID plan;
                    EPlanSHA256 := PlanSHA256 plan; Sequence := wrap32 (PjSequence current + 1); PreviousSHA256 := LastSHA256 current;
                    From := State current; To := to; Proofs_ := proofs; EEvidence := evidence; EventSHA256 := [] |} in
    match validateEventEvidence event current with
    | Some e => Err e
    | None => Ok (set_digest (digestEvent event) event)
    end.

Definition ValidateEvent (event : Event) : option contractError :=
  if negb (eqt (ESchema event) EventSchema) || negb (ESchemaVersion event =? SchemaVersion) || negb (validSHA256 (ELedgerID event)) ||
     negb (validSHA256 (EAttemptID event)) || negb (validSHA256 (EPlanSHA256 event)) || (Sequence event =? 0) ||
     (MaxEvents <? Sequence event) || ((Sequence event =? 1) && negb (eqt (PreviousSHA256 event) [])) ||
     ((1 <? Sequence event) && negb (validSHA256 (PreviousSHA256 event))) ||
     negb (sortedUniqueProofs (Proofs_ event)) || negb (validTransitionProofs (From event) (To event) (Proofs_ event)) ||
     bool_decide (validateEvidenceShape (EEvidence event) ≠ None) || bool_decide (validateEventEvidenceShape event ≠ None) ||
     negb (validSHA256 (EventSHA256 event))
  then Some (txt "event")
  else if negb (eqt (digestEvent event) (EventSHA256 event)) then Some (txt "event_digest")
  else None.

Definition Apply (plan : Plan) (current : Projection) (event : Event) : result contractError Projection :=
  if bool_decide (ValidatePlan plan ≠ None) || bool_decide (validateProjection current ≠ None) || bool_decide (ValidateEvent event ≠ None) ||
     Terminal current || negb (eqt (ELedgerID event) (PLedgerID plan)) || negb (eqt (EAttemptID event) (PAttemptID plan)) ||
     negb (eqt (EPlanSHA256 event) (PlanSHA256 plan)) || negb (Sequence event =? wrap32 (PjSequence current + 1)) ||
     negb (eqt (PreviousSHA256 event) (LastSHA256 current)) || negb (eqt (From event) (State current)) ||
     bool_decide (validateEventEvidence event current ≠ None)
  then Err (txt "apply")
  else
    let p := ProcessIdentitySHA256 (EEvidence event) in
    let r := ReceiptSHA256 (EEvidence event) in
    Ok {| State := To event; Terminal := IsTerminal (To event); PjSequence := Sequence event; LastSHA256 := EventSHA256 event;
          PjUsage := mergeUsage (PjUsage current) (EUsage (EEvidence event));
          ProcessSHA256 := if eqt p [] then ProcessSHA256 current else p;
          PjReceiptSHA256 := if eqt r [] then PjReceiptSHA256 current else r |}.

(** The loop of [Project]. *)
Fixpoint apply_all (plan : Plan) (projection : Projection) (events : list Event) : result contractError Projection :=
  match events with
  | [] => Ok projection
  | event :: events =>
      match Apply plan projection event with
      | Err e => Err e
      | Ok projection => apply_all plan projection events
      end
  end.

Definition Project (plan : Plan) (events : list Event) : result contractError Projection :=
  if MaxEvents <? Z.of_nat (length events) then Err (txt "events_limit")
  else
    match InitialProjection plan with
    | Err e => Err e
    | Ok projection => apply_all plan projection events
    end.

(** ** The transition table *)


Lemma none_check {A : Type} (o : option A) (H : bool_decide (o ≠ None) = false) : o = None.
Proof. apply bool_decide_eq_false_1 in H. destruct o; [|done]. by destruct H. Qed.

Ltac eqts := repeat match goal with
  | H : eqt _ _ = true |- _ => apply eqt_true in H
  | H : eqt _ _ = false |- _ => apply eqt_false in H
  end.

Lemma equalProofs_eq a b : equalProofs a b = true → a = b.
Proof.
  revert b. induction a as [|x a IH]; intros [|y b]; simpl; try done. intros [->%eqt_true H]%andb_true_iff. by rewrite (IH b).
Qed.

(** A decidable fact about every row of the table holds of every transition. *)
Lemma table_forall (P : text → text → list text → bool) :
  forallb (λ e, forallb (P e.1.1 e.1.2) e.2) transitionProofSets = true →
  ∀ from to proofs, validTransitionProofs from to proofs = true → P from to proofs = true.
Proof.
  intros HP from to proofs (set & Hset & <-%equalProofs_eq)%existsb_elem. unfold proofSets in Hset.
  destruct (filter _ _) as [|e l] eqn:Hf; [by apply not_elem_of_nil in Hset|].
  assert (e ∈ filter (λ e, e.1 = (from, to)) transitionProofSets) as [He Hin]%list_elem_of_filter by (rewrite Hf; left).
  rewrite forallb_forall in HP. specialize (HP e (proj1 (list_elem_of_In _ _) Hin)). rewrite forallb_forall in HP.
  specialize (HP set (proj1 (list_elem_of_In _ _) Hset)). by rewrite He in HP.
Qed.

(** The longest way to a state. *)
Definition state_rank (s : text) : nat :=
  if eqt s StatePlanned then 0 else if eqt s StateCommitted then 1 else if eqt s StateSpawning then 2
  else if eqt s StateRunning then 3 else 4.

Lemma transition_rank from to proofs : validTransitionProofs from to proofs = true → (state_rank from < state_rank to)%nat.
Proof.
  intros H. apply Nat.ltb_lt. revert from to proofs H.
  apply (table_forall (λ from to _, (state_rank from <? state_rank to)%nat)). by vm_compute.
Qed.

Lemma state_rank_le s : (state_rank s ≤ 4)%nat.
Proof. unfold state_rank. repeat destruct (eqt _ _); lia. Qed.

Lemma transition_sorted from to proofs : validTransitionProofs from to proofs = true → sortedUniqueProofs proofs = true.
Proof. revert from to proofs. apply (table_forall (λ _ _ p, sortedUniqueProofs p)). by vm_compute. Qed.

(** What ended an attempt, unless the outcome is unknown. *)
Definition quiescent (from : text) (proofs : list text) : bool :=
  (eqt from StatePlanned && containsProof proofs ProofNoCommit) || containsProof proofs ProofNonExecution ||
  containsProof proofs ProofTermination.

Lemma transition_quiescent from to proofs : validTransitionProofs from to proofs = true → IsTerminal to = true → to ≠ StateUnknown →
  quiescent from proofs = true.
Proof.
  intros H Ht Hu. apply eqt_false in Hu.
  assert (implb (IsTerminal to && negb (eqt to StateUnknown)) (quiescent from proofs) = true) as Hi; [|by rewrite Ht, Hu in Hi].
  clear Ht Hu. revert from to proofs H.
  apply (table_forall (λ f t p, implb (IsTerminal t && negb (eqt t StateUnknown)) (quiescent f p))). by vm_compute.
Qed.

(** The states an attempt passed through, up to a state; [None] leaves the
    state open. *)
Definition trails (s : text) : option (list (list text)) :=
  if eqt s StatePlanned then Some [[]]
  else if eqt s StateCommitted then Some [[StateCommitted]]
  else if eqt s StateSpawning then Some [[StateCommitted; StateSpawning]]
  else if eqt s StateRunning then Some [[StateCommitted; StateSpawning; StateRunning]]
  else if eqt s StateSucceeded then
    Some [[StateCommitted; StateSpawning; StateSucceeded]; [StateCommitted; StateSpawning; StateRunning; StateSucceeded]]
  else None.
Definition on_trail (s : text) (path : list text) : Prop :=
  match trails s with Some ts => path ∈ ts | None => True end.

Lemma transition_trail from to proofs path : validTransitionProofs from to proofs = true → on_trail from path →
  on_trail to (path ++ [to]).
Proof.
  intros H. assert (match trails from, trails to with
    | Some ts, Some us => forallb (λ t, bool_decide (t ++ [to] ∈ us)) ts
    | Some _, None => true
    | None, _ => false end = true) as Hok.
  { revert from to proofs H. apply (table_forall (λ from to _, match trails from, trails to with
      | Some ts, Some us => forallb (λ t, bool_decide (t ++ [to] ∈ us)) ts
      | Some _, None => true
      | None, _ => false end)). by vm_compute. }
  unfold on_trail. destruct (trails from) as [ts|], (trails to) as [us|]; try done. intros Hp.
  rewrite forallb_forall in Hok. specialize (Hok path (proj1 (list_elem_of_In _ _) Hp)). by apply bool_decide_eq_true_1 in Hok.
Qed.

Lemma transition_receipt from to proofs : validTransitionProofs from to proofs = true →
  implb (eqt to StateSucceeded) (containsProof proofs ProofTerminalReceipt) = true.
Proof. revert from to proofs. apply (table_forall (λ _ t p, implb (eqt t StateSucceeded) (containsProof p ProofTerminalReceipt))). by vm_compute. Qed.

(** ** Digests are well formed *)

Lemma hashDomain_valid domain data : validSHA256 (hashDomain domain data) = true.
Proof.
  unfold validSHA256, hex_decodes, hashDomain. set (sum := sha256 _). destruct (hex_digest sum) as [Hl Hh]. rewrite Hl.
  change (forallb is_hex (hex_encode (vec_to_list sum)) = true). rewrite forallb_forall in *. intros c Hc. specialize (Hh c Hc). unfold is_lower_hex, is_hex in *.
  apply orb_true_iff in Hh as [-> | ->]; [done|]. by rewrite orb_true_r.
Qed.

(** ** One event *)

(** What an applied event satisfied. *)
Record accepted (plan : Plan) (current : Projection) (event : Event) : Prop := {
  ac_plan : ValidatePlan plan = None;
  ac_projection : validateProjection current = None;
  ac_event : ValidateEvent event = None;
  ac_open : Terminal current = false;
  ac_ledger : ELedgerID event = PLedgerID plan;
  ac_attempt : EAttemptID event = PAttemptID plan;
  ac_planned : EPlanSHA256 event = PlanSHA256 plan;
  ac_sequence : Sequence event = wrap32 (PjSequence current + 1);
  ac_previous : PreviousSHA256 event = LastSHA256 current;
  ac_from : From event = State current;
  ac_evidence : validateEventEvidence event current = None
}.

Definition advanced (current : Projection) (event : Event) : Projection :=
  {| State := To event; Terminal := IsTerminal (To event); PjSequence := Sequence event; LastSHA256 := EventSHA256 event;
     PjUsage := mergeUsage (PjUsage current) (EUsage (EEvidence event));
     ProcessSHA256 := if eqt (ProcessIdentitySHA256 (EEvidence event)) [] then ProcessSHA256 current else ProcessIdentitySHA256 (EEvidence event);
     PjReceiptSHA256 := if eqt (ReceiptSHA256 (EEvidence event)) [] then PjReceiptSHA256 current else ReceiptSHA256 (EEvidence event) |}.

Lemma Apply_ok plan current event next : Apply plan current event = Ok next ↔ accepted plan current event ∧ next = advanced current event.
Proof.
  unfold Apply. destruct (_ || bool_decide (validateEventEvidence _ _ ≠ None)) eqn:Hg.
  - split; [done|]. intros [[H1 H2 H3 H4 H5 H6 H7 H8 H9 H10 H11] _]. exfalso. revert Hg.
    rewrite H1, H2, H3, H4, H5, H6, H7, H8, H9, H10, H11, !eqt_refl, Z.eqb_refl. by vm_compute.
  - bool_hyps. split.
    + intros [= <-]. split; [|done]. constructor; eqts; try done; try (by apply none_check, bool_decide_eq_false_2).
      all: match goal with H : ¬ (?x ≠ None) |- ?x = None => by destruct x; [destruct H|] end.
    + by intros [_ ->].
Qed.

Lemma validateUsage_none u : validateUsage u = None ↔
  metric_problem (EstimatedCostMicroUSD u) = None ∧ metric_problem (InputTokens u) = None ∧ metric_problem (OutputTokens u) = None.
Proof.
  unfold validateUsage. cbn [first_some]. destruct (metric_problem _); [naive_solver|]. destruct (metric_problem _); [naive_solver|].
  destruct (metric_problem _); naive_solver.
Qed.

Lemma mergeUsage_valid u v : validateUsage u = None → validateUsage v = None → validateUsage (mergeUsage u v) = None.
Proof.
  rewrite !validateUsage_none. intros (? & ? & ?) (? & ? & ?). unfold mergeUsage, mergeMetric.
  cbn [EstimatedCostMicroUSD InputTokens OutputTokens]. by repeat destruct (eqt _ _).
Qed.

(** The parts of the validators later steps rely on. *)
(** The parts of the validators later steps rely on. *)
Lemma ValidateEvent_inv event : ValidateEvent event = None →
  Sequence event ≠ 0 ∧ Sequence event ≤ MaxEvents ∧ validSHA256 (EventSHA256 event) = true ∧
  validTransitionProofs (From event) (To event) (Proofs_ event) = true ∧ validateEvidenceShape (EEvidence event) = None ∧
  validateEventEvidenceShape event = None.
Proof.
  unfold ValidateEvent. destruct (_ || negb (validSHA256 (EventSHA256 event))) eqn:Hg; [done|].
  destruct (negb (eqt (digestEvent event) _)); [done|]. intros _. bool_hyps.
  repeat match goal with H : ¬ (?x ≠ None) |- _ => apply dec_stable in H end. done.
Qed.

Lemma validateEvidenceShape_inv e : validateEvidenceShape e = None →
  (ProcessIdentitySHA256 e ≠ [] → validSHA256 (ProcessIdentitySHA256 e) = true) ∧
  (ReceiptSHA256 e ≠ [] → validSHA256 (ReceiptSHA256 e) = true) ∧ validateUsage (EUsage e) = None.
Proof.
  unfold validateEvidenceShape. destruct (_ && _) eqn:H1; [done|]. destruct (negb (eqt (ReceiptSHA256 e) []) && _) eqn:H2; [done|].
  destruct (_ || _) eqn:H3; [done|]. intros _. bool_hyps. split_and!.
  - intros Hn%eqt_false. rewrite Hn in H1. by apply negb_false_iff in H1.
  - intros Hn%eqt_false. rewrite Hn in H2. by apply negb_false_iff in H2.
  - by match goal with H : ¬ (_ ≠ None) |- _ => apply dec_stable in H end.
Qed.

Lemma validateEventEvidence_inv event current : validateEventEvidence event current = None →
  validateEvidenceShape (EEvidence event) = None ∧ validateEventEvidenceShape event = None ∧
  (ProcessSHA256 current ≠ [] → ProcessIdentitySHA256 (EEvidence event) ≠ [] → ProcessSHA256 current = ProcessIdentitySHA256 (EEvidence event)) ∧
  (PjReceiptSHA256 current ≠ [] → ReceiptSHA256 (EEvidence event) ≠ [] → PjReceiptSHA256 current = ReceiptSHA256 (EEvidence event)) ∧
  usageMonotonic (PjUsage current) (EUsage (EEvidence event)) = true.
Proof.
  unfold validateEventEvidence. destruct (validateEvidenceShape _); [done|]. destruct (validateEventEvidenceShape _); [done|].
  cbn zeta. destruct (_ && negb (eqt (ProcessSHA256 _) _)) eqn:H1; [done|]. destruct (_ && negb (eqt (PjReceiptSHA256 _) _)) eqn:H2; [done|].
  destruct (negb (usageMonotonic _ _)) eqn:H3; [done|]. intros _. bool_hyps. split_and!; try done.
  - intros Ha%eqt_false Hb%eqt_false. rewrite Ha, Hb in H1. apply negb_false_iff in H1. by eqts.
  - intros Ha%eqt_false Hb%eqt_false. rewrite Ha, Hb in H2. apply negb_false_iff in H2. by eqts.
Qed.

Lemma validateEventEvidenceShape_inv event : validateEventEvidenceShape event = None →
  (To event = StateRunning → ProcessIdentitySHA256 (EEvidence event) ≠ []) ∧
  (containsProof (Proofs_ event) ProofTerminalReceipt = true → ReceiptSHA256 (EEvidence event) ≠ []) ∧ errorClassValid event = true.
Proof.
  unfold validateEventEvidenceShape. destruct (_ && _) eqn:H1; [done|]. destruct (containsProof _ _ && _) eqn:H2; [done|].
  destruct (negb _) eqn:H3; [done|]. intros _. bool_hyps. split_and!; [|..|done].
  - intros Ht%eqt_true Hp%eqt_true. by rewrite Ht, Hp in H1.
  - intros Ht Hp%eqt_true. by rewrite Ht, Hp in H2.
Qed.

(** ** Projections of a history *)

(** What [Project] knows after the events [es]. *)
Record wf (es : list Event) (p : Projection) : Prop := {
  wf_sequence : PjSequence p = Z.of_nat (length es);
  wf_rank : (length es ≤ state_rank (State p))%nat;
  wf_terminal : Terminal p = IsTerminal (State p);
  wf_state : State p = match last es with Some e => To e | None => StatePlanned end;
  wf_last : LastSHA256 p = match last es with Some e => EventSHA256 e | None => [] end;
  wf_valid_last : es ≠ [] → validSHA256 (LastSHA256 p) = true;
  wf_usage : validateUsage (PjUsage p) = None;
  wf_process : ProcessSHA256 p ≠ [] → validSHA256 (ProcessSHA256 p) = true;
  wf_receipt : PjReceiptSHA256 p ≠ [] → validSHA256 (PjReceiptSHA256 p) = true;
  wf_trail : on_trail (State p) (map To es);
  wf_succeeded : State p = StateSucceeded → PjReceiptSHA256 p ≠ []
}.

Lemma wf_initial plan p : InitialProjection plan = Ok p → ValidatePlan plan = None ∧ wf [] p.
Proof.
  unfold InitialProjection. destruct (ValidatePlan plan); [done|]. intros [= <-]. split; [done|].
  constructor; cbn [State Terminal PjSequence LastSHA256 PjUsage ProcessSHA256 PjReceiptSHA256]; try done.
  apply list_elem_of_singleton. done.
Qed.

Lemma wf_length es p : wf es p → (length es ≤ 4)%nat.
Proof. intros H. pose proof (wf_rank _ _ H). pose proof (state_rank_le (State p)). lia. Qed.

Lemma wf_step plan es p e next : wf es p → Apply plan p e = Ok next → wf (es ++ [e]) next.
Proof.
  intros Hw [Ha ->]%Apply_ok. pose proof (ac_evidence _ _ _ Ha) as Hev.
  apply validateEventEvidence_inv in Hev as (Hsh & Hes & Hp & Hr & Hu). apply validateEvidenceShape_inv in Hsh as (Hps & Hrs & Hus).
  pose proof (validateEventEvidenceShape_inv _ Hes) as (_ & Hrc & _).
  destruct (ValidateEvent_inv _ (ac_event _ _ _ Ha)) as (_ & _ & Hd & Ht & _). rewrite (ac_from _ _ _ Ha) in Ht.
  pose proof (wf_length _ _ Hw). pose proof (wf_sequence _ _ Hw) as Hq.
  constructor; cbn [advanced State Terminal PjSequence LastSHA256 PjUsage ProcessSHA256 PjReceiptSHA256]; rewrite ?last_snoc; try done.
  - rewrite (ac_sequence _ _ _ Ha), Hq. unfold wrap32. rewrite Z.mod_small by lia. rewrite length_app. simpl. lia.
  - rewrite length_app. pose proof (transition_rank _ _ _ Ht). pose proof (wf_rank _ _ Hw). simpl. lia.
  - apply mergeUsage_valid; [apply (wf_usage _ _ Hw)|done].
  - destruct (eqt _ []) eqn:He; [apply (wf_process _ _ Hw)|]. by eqts; auto.
  - destruct (eqt _ []) eqn:He; [apply (wf_receipt _ _ Hw)|]. by eqts; auto.
  - rewrite map_app. eapply transition_trail; [exact Ht|apply (wf_trail _ _ Hw)].
  - intros Hto%eqt_true. pose proof (transition_receipt _ _ _ Ht) as Hi. rewrite Hto in Hi. cbn [implb] in Hi.
    specialize (Hrc Hi). by rewrite (proj2 (eqt_false _ _) Hrc).
Qed.

Lemma apply_all_app plan p es es' : apply_all plan p (es ++ es') =
  match apply_all plan p es with Ok q => apply_all plan q es' | Err e => Err e end.
Proof. revert p. induction es as [|e es IH]; intros p; [done|]. cbn [app apply_all]. destruct (Apply plan p e); [apply IH|done]. Qed.

Lemma wf_all plan es0 p es q : wf es0 p → apply_all plan p es = Ok q → wf (es0 ++ es) q.
Proof.
  revert es0 p. induction es as [|e es IH]; intros es0 p Hw H; cbn [apply_all] in H; [injection H as <-; by rewrite app_nil_r|].
  destruct (Apply plan p e) as [next|] eqn:Ha; [|done]. rewrite cons_middle, app_assoc. eapply IH; [by eapply wf_step|done].
Qed.

Lemma Project_inv plan es p : Project plan es = Ok p → ValidatePlan plan = None ∧ wf es p ∧
  ∃ p0, InitialProjection plan = Ok p0 ∧ apply_all plan p0 es = Ok p.
Proof.
  unfold Project. destruct (_ <? _); [done|]. destruct (InitialProjection plan) as [p0|] eqn:Hi; [|done]. intros H.
  pose proof (wf_initial _ _ Hi) as [Hv Hw]. split; [done|]. split; [exact (wf_all _ _ _ _ _ Hw H)|by exists p0].
Qed.

(** Appending to a projected history is applying the event. *)
Lemma Project_snoc plan es p e : Project plan es = Ok p → Project plan (es ++ [e]) = Apply plan p e.
Proof.
  intros H. pose proof (Project_inv _ _ _ H) as (_ & Hw & p0 & Hi & Ha). pose proof (wf_length _ _ Hw).
  unfold Project. rewrite length_app. cbn [length]. rewrite (proj2 (Z.ltb_ge _ _)) by (unfold MaxEvents; lia).
  rewrite Hi, apply_all_app, Ha. cbn [apply_all]. by destruct (Apply plan p e).
Qed.

Lemma wf_valid es p : wf es p → validateProjection p = None.
Proof.
  intros Hw. pose proof (wf_length _ _ Hw). pose proof (wf_sequence _ _ Hw) as Hq. unfold validateProjection.
  rewrite (proj2 (Z.ltb_ge _ _)) by (unfold MaxEvents; lia). rewrite (wf_terminal _ _ Hw), eqb_reflx. cbn [negb orb].
  rewrite (wf_usage _ _ Hw). rewrite (bool_decide_eq_false_2 (None ≠ None)) by (by intros []).
  assert (∀ s : text, (s ≠ [] → validSHA256 s = true) → negb (eqt s []) && negb (validSHA256 s) = false) as Hs.
  { intros s Hs. destruct (eqt s []) eqn:He; [done|]. eqts. by rewrite (Hs He). }
  rewrite (Hs _ (wf_process _ _ Hw)), (Hs _ (wf_receipt _ _ Hw)), !orb_false_r.
  pose proof (wf_state _ _ Hw) as Hst. pose proof (wf_last _ _ Hw) as Hl. pose proof (wf_valid_last _ _ Hw) as Hvl.
  destruct es as [|e es]; cbn [length] in Hq.
  - rewrite Hq. cbn in Hst, Hl. by rewrite Hst, Hl.
  - rewrite (proj2 (Z.eqb_neq _ _)) by lia. cbn [andb orb]. rewrite (Hvl ltac:(done)). by rewrite andb_false_r.
Qed.

(** Every event names the state, digest and sequence number it follows. *)
Fixpoint chained (from digest : text) (n : Z) (es : list Event) : Prop :=
  match es with
  | [] => True
  | e :: es => From e = from ∧ PreviousSHA256 e = digest ∧ Sequence e = n ∧ EventSHA256 e = digestEvent e ∧
      chained (To e) (EventSHA256 e) (n + 1) es
  end.

Lemma ValidateEvent_digest event : ValidateEvent event = None → EventSHA256 event = digestEvent event.
Proof.
  unfold ValidateEvent. destruct (_ || negb (validSHA256 (EventSHA256 event))); [done|].
  destruct (negb (eqt (digestEvent event) _)) eqn:Hd; [done|]. intros _. bool_hyps. by eqts.
Qed.

Lemma chained_all plan es0 p es q : wf es0 p → apply_all plan p es = Ok q → chained (State p) (LastSHA256 p) (PjSequence p + 1) es.
Proof.
  revert es0 p. induction es as [|e es IH]; intros es0 p Hw H; [done|]. cbn [apply_all] in H.
  destruct (Apply plan p e) as [next|] eqn:Ha; [|done]. pose proof (wf_step _ _ _ _ _ Hw Ha) as Hw'.
  pose proof (IH _ _ Hw' H) as Hc. pose proof (wf_sequence _ _ Hw) as Hq. pose proof (wf_length _ _ Hw).
  apply Apply_ok in Ha as [Ha ->]. cbn [chained]. split; [apply (ac_from _ _ _ Ha)|]. split; [apply (ac_previous _ _ _ Ha)|].
  assert (Sequence e = PjSequence p + 1) as Hs.
  { rewrite (ac_sequence _ _ _ Ha). unfold wrap32. rewrite Z.mod_small by lia. done. }
  split; [done|]. split; [apply ValidateEvent_digest, (ac_event _ _ _ Ha)|].
  cbn [advanced State LastSHA256 PjSequence] in Hc. by rewrite Hs in Hc.
Qed.

(** Observed metrics never disappear and never shrink. *)
Definition metric_le (m m' : Metric) : Prop :=
  MState m = MetricObserved → MState m' = MetricObserved ∧ ∃ v v', Value m = Some v ∧ Value m' = Some v' ∧ v ≤ v'.
Definition usage_le (u u' : Usage) : Prop :=
  metric_le (EstimatedCostMicroUSD u) (EstimatedCostMicroUSD u') ∧ metric_le (InputTokens u) (InputTokens u') ∧
  metric_le (OutputTokens u) (OutputTokens u').

Lemma metric_problem_observed m : metric_problem m = None → MState m = MetricObserved → ∃ v, Value m = Some v.
Proof.
  unfold metric_problem. intros H Ho. rewrite Ho in H. destruct (Value m) as [v|]; [by exists v|]. by vm_compute in H.
Qed.

Lemma metric_le_refl m : metric_problem m = None → metric_le m m.
Proof. intros Hm Ho. destruct (metric_problem_observed m Hm Ho) as [v Hv]. split; [done|]. exists v, v. split_and!; [done..|lia]. Qed.

Lemma metric_le_trans a b c : metric_le a b → metric_le b c → metric_le a c.
Proof.
  intros Hab Hbc Ha. destruct (Hab Ha) as (Hb & v & w & Hv & Hw & Hvw). destruct (Hbc Hb) as (Hc & w' & x & Hw' & Hx & Hwx).
  split; [done|]. exists v, x. split_and!; [done..|]. assert (w = w') by congruence. lia.
Qed.

Lemma metric_step m n : metric_problem m = None → metric_problem n = None → metricMonotonic m n = true → metric_le m (mergeMetric m n).
Proof.
  intros Hm Hn. unfold metricMonotonic, mergeMetric. destruct (eqt (MState n) MetricUnknown) eqn:Hu.
  { eqts. intros _. rewrite Hu. change (eqt MetricUnknown MetricObserved) with false. by apply metric_le_refl. }
  intros [Ho H]%andb_true_iff. rewrite Ho. intros Hmo. split; [by eqts|].
  destruct (metric_problem_observed m Hm Hmo) as [v Hv]. destruct (Value n) as [w|]; [|done].
  rewrite (proj2 (eqt_true _ _) Hmo), Hv in H. exists v, w. split_and!; [done..|]. cbn [negb orb] in H. by bool_hyps.
Qed.

Lemma usage_le_refl u : validateUsage u = None → usage_le u u.
Proof. rewrite validateUsage_none. intros (? & ? & ?). split_and!; by apply metric_le_refl. Qed.
Lemma usage_le_trans a b c : usage_le a b → usage_le b c → usage_le a c.
Proof. intros (? & ? & ?) (? & ? & ?). split_and!; by eapply metric_le_trans. Qed.
Lemma usage_step u v : validateUsage u = None → validateUsage v = None → usageMonotonic u v = true → usage_le u (mergeUsage u v).
Proof.
  rewrite !validateUsage_none. intros (? & ? & ?) (? & ? & ?). unfold usageMonotonic. intros Hmono. bool_hyps.
  unfold usage_le, mergeUsage. cbn [EstimatedCostMicroUSD InputTokens OutputTokens]. split_and!; by apply metric_step.
Qed.

(** What later events keep. *)
Definition keeps (p q : Projection) : Prop :=
  (ProcessSHA256 p ≠ [] → ProcessSHA256 q = ProcessSHA256 p) ∧
  (PjReceiptSHA256 p ≠ [] → PjReceiptSHA256 q = PjReceiptSHA256 p) ∧ usage_le (PjUsage p) (PjUsage q).

Lemma keeps_step plan es p e q : wf es p → Apply plan p e = Ok q → keeps p q.
Proof.
  intros Hw [Ha ->]%Apply_ok. destruct (validateEventEvidence_inv _ _ (ac_evidence _ _ _ Ha)) as (Hsh & _ & Hp & Hr & Hu).
  apply validateEvidenceShape_inv in Hsh as (_ & _ & Hus). unfold keeps, advanced. cbn [ProcessSHA256 PjReceiptSHA256 PjUsage]. split_and!.
  - intros Hn. destruct (eqt _ []) eqn:He; [done|]. eqts. symmetry. by apply Hp.
  - intros Hn. destruct (eqt _ []) eqn:He; [done|]. eqts. symmetry. by apply Hr.
  - apply usage_step; [apply (wf_usage _ _ Hw)|done..].
Qed.

Lemma keeps_all plan es0 p es q : wf es0 p → apply_all plan p es = Ok q → keeps p q.
Proof.
  revert es0 p. induction es as [|e es IH]; intros es0 p Hw H; cbn [apply_all] in H.
  { injection H as <-. split_and!; [done..|]. apply usage_le_refl, (wf_usage _ _ Hw). }
  destruct (Apply plan p e) as [next|] eqn:Ha; [|done]. destruct (keeps_step _ _ _ _ _ Hw Ha) as (H1 & H2 & H3).
  destruct (IH _ _ (wf_step _ _ _ _ _ Hw Ha) H) as (K1 & K2 & K3). split_and!; [| |by eapply usage_le_trans].
  - intros Hn. rewrite K1; [by apply H1|]. by rewrite H1.
  - intros Hn. rewrite K2; [by apply H2|]. by rewrite H2.
Qed.

(** ** Properties *)

(** The projection of a history is well formed and the history is a chain:
    events are numbered from one, each follows the state and digest of the one
    before it, and an attempt has at most four events, so the limit of
    [MaxEvents] is never what ends it. *)
Theorem Project_chain plan es p : Project plan es = Ok p →
  chained StatePlanned [] 1 es ∧ (length es ≤ 4)%nat ∧ PjSequence p = Z.of_nat (length es) ∧ validateProjection p = None ∧
  State p = match last es with Some e => To e | None => StatePlanned end.
Proof.
  intros (_ & Hw & p0 & Hi & Ha)%Project_inv. pose proof (wf_initial _ _ Hi) as [_ Hw0].
  pose proof (chained_all _ _ _ _ _ Hw0 Ha) as Hc.
  rewrite (wf_state _ _ Hw0), (wf_last _ _ Hw0), (wf_sequence _ _ Hw0) in Hc.
  split_and!; [exact Hc|by eapply wf_length|apply (wf_sequence _ _ Hw)|by eapply wf_valid|apply (wf_state _ _ Hw)].
Qed.


Lemma validateProjection_previous es p : wf es p →
  (PjSequence p = 0 → LastSHA256 p = []) ∧ (0 < PjSequence p → validSHA256 (LastSHA256 p) = true).
Proof.
  intros Hw. rewrite (wf_sequence _ _ Hw). split.
  - intros Hz. rewrite (wf_last _ _ Hw). by destruct es.
  - intros Hp. apply (wf_valid_last _ _ Hw). by destruct es.
Qed.

Lemma ValidatePlan_ids plan : ValidatePlan plan = None →
  validSHA256 (PLedgerID plan) = true ∧ validSHA256 (PAttemptID plan) = true ∧ validSHA256 (PlanSHA256 plan) = true.
Proof. unfold ValidatePlan. destruct (_ || negb (validSHA256 (PlanSHA256 plan))) eqn:Hvp; [done|]. intros _. by bool_hyps. Qed.

(** An event built by [NewEvent] from the projection of a history always
    extends that history, and leads to the requested state. *)
Theorem NewEvent_extends plan es p to proofs evidence e :
  Project plan es = Ok p → NewEvent plan p to proofs evidence = Ok e →
  ∃ q, Project plan (es ++ [e]) = Ok q ∧ State q = to ∧ Terminal q = IsTerminal to.
Proof.
  intros Hp Hn. rewrite (Project_snoc _ _ _ _ Hp). apply Project_inv in Hp as (Hv & Hw & _).
  pose proof (wf_length _ _ Hw). pose proof (wf_sequence _ _ Hw) as Hq. unfold NewEvent in Hn.
  destruct (_ || negb (validTransitionProofs _ _ _)) eqn:Hg; [done|]. bool_hyps.
  set (event := {| ESchema := EventSchema |}) in Hn. destruct (validateEventEvidence event p) eqn:Hev; [done|]. injection Hn as <-.
  exists (advanced p (set_digest (digestEvent event) event)). split; [|done]. apply Apply_ok. split; [|done].
  destruct (ValidatePlan_ids _ Hv) as (Hl & Hat & Hpl). destruct (validateEventEvidence_inv _ _ Hev) as (Hsh & Hes & _).
  assert (wrap32 (PjSequence p + 1) = PjSequence p + 1) as Hwr by (unfold wrap32; apply Z.mod_small; lia).
  destruct (validateProjection_previous _ _ Hw) as [Hprev0 Hprev1].
  constructor; try done; [by eapply wf_valid|]. unfold ValidateEvent.
  destruct (_ || negb (validSHA256 (EventSHA256 _))) eqn:Hbad; [exfalso; revert Hbad|by rewrite eqt_refl].
  change (validateEventEvidenceShape (set_digest _ event)) with (validateEventEvidenceShape event).
  change (EventSHA256 (set_digest (digestEvent event) event)) with (digestEvent event).
  change (EEvidence (set_digest (digestEvent event) event)) with (EEvidence event). unfold digestEvent.
  rewrite Hes, Hsh, hashDomain_valid. cbn [set_digest event ESchema ESchemaVersion ELedgerID EAttemptID EPlanSHA256 Sequence PreviousSHA256 From To Proofs_].
  rewrite !eqt_refl, Hl, Hat, Hpl, Hwr. rewrite (bool_decide_eq_false_2 (None ≠ None)) by (by intros []).
  repeat match goal with H : _ proofs = true |- _ => rewrite H | H : validTransitionProofs _ _ _ = true |- _ => rewrite H end.
  rewrite (proj2 (Z.eqb_neq (PjSequence p + 1) 0)) by lia. rewrite (proj2 (Z.ltb_ge MaxEvents _)) by (unfold MaxEvents; lia).
  cbn [negb orb andb SchemaVersion Z.eqb]. destruct (PjSequence p + 1 =? 1) eqn:Hone.
  - bool_hyps. rewrite Hprev0 by lia. rewrite (proj2 (Z.ltb_ge _ _)) by lia. done.
  - bool_hyps. rewrite Hprev1 by lia. by rewrite andb_false_r.
Qed.

(** What an attempt has recorded stays: along a history, a process or
    receipt digest once set never changes and an observed metric never
    disappears or decreases. *)
Theorem Project_keeps plan es es' p q : Project plan es = Ok p → Project plan (es ++ es') = Ok q → keeps p q.
Proof.
  intros (_ & Hw & p0 & Hi & Ha)%Project_inv (_ & _ & p0' & Hi' & Hb)%Project_inv. rewrite Hi in Hi'. injection Hi' as <-.
  rewrite apply_all_app, Ha in Hb. by eapply keeps_all.
Qed.

(** An attempt only ends with evidence that nothing of it still runs: unless
    the outcome is unknown, its last event proves that it was never committed,
    never executed, or terminated. *)
Theorem terminal_is_quiescent plan es p : Project plan es = Ok p → Terminal p = true → State p ≠ StateUnknown →
  ∃ es' e, es = es' ++ [e] ∧ To e = State p ∧ quiescent (From e) (Proofs_ e) = true.
Proof.
  intros Hp Ht Hu. pose proof Hp as (_ & Hw & _)%Project_inv. rewrite (wf_terminal _ _ Hw) in Ht.
  destruct es as [|e es' _] using rev_ind; [by rewrite (wf_state _ _ Hw) in Ht|].
  exists es', e. split; [done|]. pose proof (wf_state _ _ Hw) as Hst. rewrite last_snoc in Hst. split; [done|].
  unfold Project in Hp. destruct (_ <? _); [done|]. destruct (InitialProjection plan) as [p0|]; [|done].
  rewrite apply_all_app in Hp. destruct (apply_all plan p0 es') as [q|]; [|done]. cbn [apply_all] in Hp.
  destruct (Apply plan q e) as [q'|] eqn:Ha; [|done]. apply Apply_ok in Ha as [Ha _].
  destruct (ValidateEvent_inv _ (ac_event _ _ _ Ha)) as (_ & _ & _ & Htr & _).
  eapply transition_quiescent; [exact Htr|by rewrite <- Hst..].
Qed.

(** A succeeded attempt was committed, then spawned, and holds a receipt. *)
Theorem succeeded_was_dispatched plan es p : Project plan es = Ok p → State p = StateSucceeded →
  validSHA256 (PjReceiptSHA256 p) = true ∧
  (map To es = [StateCommitted; StateSpawning; StateSucceeded] ∨
   map To es = [StateCommitted; StateSpawning; StateRunning; StateSucceeded]).
Proof.
  intros (_ & Hw & _)%Project_inv Hs. split; [by apply (wf_receipt _ _ Hw), (wf_succeeded _ _ Hw)|].
  pose proof (wf_trail _ _ Hw) as Ht. rewrite Hs in Ht. change (map To es ∈ [[StateCommitted; StateSpawning; StateSucceeded];
    [StateCommitted; StateSpawning; StateRunning; StateSucceeded]]) in Ht. set_solver.
Qed.

(** A terminal state absorbs: no event extends the history of a finished
    attempt. *)
Theorem terminal_absorbs plan es p e es' : Project plan es = Ok p → Terminal p = true →
  ∃ err, Project plan (es ++ e :: es') = Err err.
Proof.
  intros (_ & _ & p0 & Hi & Ha)%Project_inv Ht. unfold Project. destruct (_ <? _); [by eexists|].
  rewrite Hi, apply_all_app, Ha. cbn [apply_all]. destruct (Apply plan p e) as [q|err] eqn:Hap; [|by exists err].
  apply Apply_ok in Hap as [Hac _]. pose proof (ac_open _ _ _ Hac). congruence.
Qed.

(** What the constructors seal validates: a new header, a new plan and a
    reconciled plan pass their validators, and a plan starts an attempt. *)
Theorem sealed_validates random header ordinal binding plan predecessor reconciliation :
  NewHeader random = Ok header →
  NewPlan header ordinal binding = Ok plan ∨ NewReconciledPlan header ordinal predecessor reconciliation binding = Ok plan →
  ValidateHeader header = None ∧ ValidatePlan plan = None ∧ ∃ p, Project plan [] = Ok p ∧ State p = StatePlanned.
Proof.
  intros Hh Hplan.
  assert (ValidateHeader header = None ∧ validSHA256 (HLedgerID header) = true) as [Hvh Hvl].
  { unfold NewHeader in Hh. destruct random as [nonce|]; [|done]. injection Hh as <-. split; [|apply hashDomain_valid].
    unfold ValidateHeader. cbn [HSchema HSchemaVersion HContractVersion HLedgerID HeaderSHA256].
    unfold digestHeader. cbn [HSchema HSchemaVersion HContractVersion HLedgerID HeaderSHA256].
    by rewrite !hashDomain_valid, !eqt_refl. }
  assert (∃ pre rec, newPlan header ordinal pre rec binding = Ok plan ∧
    (pre = [] ∧ rec = [] ∨ validSHA256 pre = true ∧ validSHA256 rec = true)) as (pre & rec & Hn & Hpr).
  { destruct Hplan as [H|H]; [exists [], []; split; [done|by left]|]. unfold NewReconciledPlan in H.
    destruct (_ || _) eqn:Hg; [done|]. bool_hyps. exists predecessor, reconciliation. split; [done|by right]. }
  assert (ValidatePlan plan = None) as Hvp.
  { unfold newPlan in Hn. destruct (_ || bool_decide (validateBinding binding ≠ None)) eqn:Hg; [done|]. bool_hyps.
    injection Hn as <-. unfold ValidatePlan.
    cbn [PSchema PSchemaVersion PLedgerID PAttemptID Ordinal PredecessorAttemptID ReconciliationSHA256 PBinding BindingSHA256 PlanSHA256].
    match goal with H : ¬ (validateBinding _ ≠ None) |- _ => apply dec_stable in H; rewrite H end.
    rewrite (bool_decide_eq_false_2 (None ≠ None)) by (by intros []).
    unfold digestPlan, digestBinding.
    cbn [PSchema PSchemaVersion PLedgerID PAttemptID Ordinal PredecessorAttemptID ReconciliationSHA256 PBinding BindingSHA256 PlanSHA256].
    rewrite !hashDomain_valid, !eqt_refl, Hvl. cbn [negb orb SchemaVersion].
    rewrite (proj2 (Z.eqb_neq ordinal 0)) by done. rewrite (proj2 (Z.ltb_ge MaxAttempts ordinal)) by done. cbn [negb orb Z.eqb].
    destruct Hpr as [[-> ->]|[Hp1 Hp2]]; [done|]. rewrite Hp1, Hp2.
    assert (∀ t, validSHA256 t = true → eqt t [] = false) as Hne by (by intros [|]).
    by rewrite (Hne _ Hp1), (Hne _ Hp2). }
  split_and!; [done..|]. unfold Project, InitialProjection. rewrite Hvp. by eexists.
Qed.
End ledger.

(** ** A succeeded attempt *)

Module Demo.

Definition d (c : ascii) : text := replicate 64 c.
Definition binding : Binding :=
  {| Privacy := PrivacyPublic;
     BIdentity := {| ExperimentSHA256 := d "a"; TaskSHA256 := d "b"; SkillSHA256 := d "c"; AgentSHA256 := d "d"; ModelSHA256 := d "e";
       EnvironmentSHA256 := d "f"; GraderSHA256 := d "0"; BudgetsSHA256 := d "1"; AdapterSHA256 := d "2"; AuthoritySHA256 := d "3" |} |}.

Definition or_else {A} (a : A) (r : result text A) : A := match r with Ok x => x | Err _ => a end.
Definition blank_header : LedgerHeader :=
  {| HSchema := []; HSchemaVersion := 0; HContractVersion := []; HLedgerID := []; HeaderSHA256 := [] |}.
Definition blank_plan : Plan :=
  {| PSchema := []; PSchemaVersion := 0; PLedgerID := []; PAttemptID := []; Ordinal := 0; PredecessorAttemptID := [];
     ReconciliationSHA256 := []; PBinding := binding; BindingSHA256 := []; PlanSHA256 := [] |}.
Definition header : LedgerHeader := Eval vm_compute in or_else blank_header (NewHeader toy_sha256 (Some (vreplicate 32 "x"%char))).
Definition plan : Plan := Eval vm_compute in or_else blank_plan (NewPlan toy_sha256 header 1 binding).

Definition evidence (process receipt : text) (tokens : Metric) : Evidence :=
  {| ProcessIdentitySHA256 := process; ReceiptSHA256 := receipt; ErrorClass := ErrorNone;
     EUsage := {| EstimatedCostMicroUSD := EstimatedCostMicroUSD UnknownUsage; InputTokens := tokens;
                  OutputTokens := OutputTokens UnknownUsage |} |}.
Definition moves : list (text * list text * Evidence) :=
  [(StateCommitted, [ProofDurableCommit], evidence [] [] (InputTokens UnknownUsage));
   (StateSpawning, [ProofDurableSpawnIntent], evidence [] [] (ObservedMetric 5));
   (StateRunning, [ProofDurableProcessIdentity], evidence (d "7") [] (ObservedMetric 9));
   (StateSucceeded, [ProofTerminalReceipt; ProofTermination], evidence (d "7") (d "8") (ObservedMetric 12))].

Definition grow (es : list Event) (move : text * list text * Evidence) : list Event :=
  match Project toy_sha256 plan es with
  | Ok p => match NewEvent toy_sha256 plan p move.1.1 move.1.2 move.2 with Ok e => es ++ [e] | Err _ => es end
  | Err _ => es
  end.
Definition history : list Event := Eval vm_compute in foldl grow [] moves.
Definition events (n : nat) : list Event := take n history.

Lemma Project_chain_witness : ∃ p, Project toy_sha256 plan (events 4) = Ok p ∧ State p = StateSucceeded ∧
  chained toy_sha256 StatePlanned [] 1 (events 4).
Proof.
  assert (∃ p, Project toy_sha256 plan (events 4) = Ok p ∧ State p = StateSucceeded) as (p & Hp & Hs) by (eexists; by vm_compute).
  exists p. split; [exact Hp|]. split; [exact Hs|]. exact (proj1 (Project_chain toy_sha256 plan (events 4) p Hp)).
Defined.

Lemma NewEvent_extends_witness : ∃ p e q, Project toy_sha256 plan (events 1) = Ok p ∧
  NewEvent toy_sha256 plan p StateSpawning [ProofDurableSpawnIntent] (evidence [] [] (ObservedMetric 5)) = Ok e ∧
  Project toy_sha256 plan (events 1 ++ [e]) = Ok q ∧ State q = StateSpawning.
Proof.
  assert (∃ p, Project toy_sha256 plan (events 1) = Ok p ∧
    ∃ e, NewEvent toy_sha256 plan p StateSpawning [ProofDurableSpawnIntent] (evidence [] [] (ObservedMetric 5)) = Ok e)
    as (p & Hp & e & He) by (eexists; split; [vm_compute; reflexivity|]; eexists; vm_compute; reflexivity).
  destruct (NewEvent_extends toy_sha256 plan (events 1) p _ _ _ e Hp He) as (q & Hq & Hs & _).
  exists p, e, q. split; [exact Hp|]. split; [exact He|]. split; [exact Hq|exact Hs].
Defined.

Lemma Project_keeps_witness : ∃ p q, Project toy_sha256 plan (events 3) = Ok p ∧
  Project toy_sha256 plan (events 3 ++ drop 3 (events 4)) = Ok q ∧ ProcessSHA256 p = d "7" ∧ keeps p q.
Proof.
  assert (∃ p, Project toy_sha256 plan (events 3) = Ok p ∧ ProcessSHA256 p = d "7") as (p & Hp & Hd) by (eexists; by vm_compute).
  assert (∃ q, Project toy_sha256 plan (events 3 ++ drop 3 (events 4)) = Ok q) as (q & Hq) by (eexists; vm_compute; reflexivity).
  exists p, q. split; [exact Hp|]. split; [exact Hq|]. split; [exact Hd|].
  exact (Project_keeps toy_sha256 plan (events 3) (drop 3 (events 4)) p q Hp Hq).
Defined.

Lemma terminal_is_quiescent_witness : ∃ es' e, events 4 = es' ++ [e] ∧ quiescent (From e) (Proofs_ e) = true.
Proof.
  assert (∃ p, Project toy_sha256 plan (events 4) = Ok p ∧ Terminal p = true ∧ State p ≠ StateUnknown) as (p & Hp & Ht & Hu)
    by (eexists; by vm_compute).
  destruct (terminal_is_quiescent toy_sha256 plan (events 4) p Hp Ht Hu) as (es' & e & Hes & _ & Hq). exists es', e.
  split; [exact Hes|exact Hq].
Defined.

Lemma succeeded_was_dispatched_witness : ∃ p, Project toy_sha256 plan (events 4) = Ok p ∧ validSHA256 (PjReceiptSHA256 p) = true.
Proof.
  assert (∃ p, Project toy_sha256 plan (events 4) = Ok p ∧ State p = StateSucceeded) as (p & Hp & Hs) by (eexists; by vm_compute).
  exists p. split; [exact Hp|]. exact (proj1 (succeeded_was_dispatched toy_sha256 plan (events 4) p Hp Hs)).
Defined.

Lemma terminal_absorbs_witness : ∀ e, ∃ err, Project toy_sha256 plan (events 4 ++ [e]) = Err err.
Proof.
  assert (∃ p, Project toy_sha256 plan (events 4) = Ok p ∧ Terminal p = true) as (p & Hp & Ht) by (eexists; by vm_compute).
  intros e. exact (terminal_absorbs toy_sha256 plan (events 4) p e [] Hp Ht).
Defined.

Lemma sealed_validates_witness : ValidateHeader toy_sha256 header = None ∧ ValidatePlan toy_sha256 plan = None.
Proof.
  destruct (sealed_validates toy_sha256 (Some (vreplicate 32 "x"%char)) header 1 binding plan [] []) as (Hh & Hp & _);
    [by vm_compute|left; by vm_compute|]. split; [exact Hh|exact Hp].
Defined.
End Demo.
End Lifecycle.
