(* ===== verification/Scheduler.v ===== *)
(** * The deterministic dispatch contract (internal/agenteval/scheduler:
    contract.go, values.go, dispatch.go)

    [RunRemaining] dispatches the tasks of a validated plan in batches.  Its
    environment is a family of oracles indexed by a tick: whether the parent
    context is cancelled, whether a task starts, what its execution returns, given
    the cause the batch was cancelled for by then, if any, and in which order the
    results of a batch arrive.  SHA-256 is a parameter; the
    JSON the identities cover is printed by [Encoding]. *)

From stdpp Require Import vector sorting.
From S2P Require Import Prelude GoText Identifiers Encoding.
Import GoText Identifiers Encoding.

Module Scheduler.
Local Open Scope Z_scope.

(** ** Constants and data *)

Definition PlanSchema : text := txt "agent-eval/scheduler-plan".
Definition ReportSchema : text := txt "agent-eval/scheduler-report".
Definition SchemaVersion : Z := 1.
Definition ContractVersion : text := txt "0.1.0-pre-release".
Definition MaxTasks : Z := 4096.
Definition MaxWorkers : Z := 256.
Definition MaxCohorts : Z := 4096.
Definition MaxTaskCohorts : Z := 8.
Definition MaxCPUTimeMillis : Z := 2 ^ 50.
Definition MaxMemoryBytes : Z := 2 ^ 50.
Definition MaxStorageBytes : Z := 2 ^ 50.
Definition MaxProcesses : Z := 2 ^ 20.
Definition MaxCostMicroUSD : Z := 2 ^ 50.

Record Resources := {
  CPUTimeMillis : Z; MemoryBytes : Z; StorageBytes : Z; Processes : Z; CostMicroUSD : Z
}.
Record CohortLimit := { CohortSHA256 : text; CWorkers : Z }.
(** A slice is [None] when nil. *)
Record Limits := {
  Workers : Z; LCPUTimeMillis : Z; LMemoryBytes : Z; LStorageBytes : Z; LProcesses : Z; TotalCostMicroUSD : Z;
  Cohorts : option (list CohortLimit)
}.
Record Task := {
  TaskSHA256 : text; Ordinal : Z; Round : Z; TResources : Resources; CohortSHA256s : option (list text)
}.
Record Plan := {
  Schema : text; PSchemaVersion : Z; PContractVersion : text; PLimits : Limits; Tasks : list Task; PlanSHA256 : text
}.

Definition StopNone : text := txt "none".
Definition StopCanceled : text := txt "canceled".
Definition StopCostExhausted : text := txt "cost_exhausted".
Definition StopStartFailed : text := txt "start_failed".
Definition StopTaskFailed : text := txt "task_failed".
Definition OutcomeSucceeded : text := txt "succeeded".
Definition OutcomeFailed : text := txt "failed".
Definition OutcomeCanceled : text := txt "canceled".
Definition OutcomeUnknown : text := txt "unknown".

Record TerminalTask := { XTaskSHA256 : text; XOutcome : text }.

Record Report := {
  RSchema : text; RSchemaVersion : Z; RContractVersion : text; RPlanSHA256 : text;
  Queued : Z; Started : Z; Completed : Z; Succeeded : Z; Failed : Z; Canceled : Z; Unknown : Z; NeverStarted : Z;
  Stop : text; ReportSHA256 : text
}.

Inductive runError :=
| ErrContract (code : text)
| ErrInterrupted (ordinal : option Z)
| ErrCostExhausted
| ErrStart
| ErrExecution (ordinal : option Z)
| ErrSeal
| ErrJoined (runErr : runError).


(** ** Values *)

Definition stop_valid (reason : text) : bool :=
  eqt reason StopNone || eqt reason StopCanceled || eqt reason StopCostExhausted || eqt reason StopStartFailed || eqt reason StopTaskFailed.
Definition outcome_valid (outcome : text) : bool :=
  eqt outcome OutcomeSucceeded || eqt outcome OutcomeFailed || eqt outcome OutcomeCanceled || eqt outcome OutcomeUnknown.

(** Decoding hex and encoding it again gives the value back iff it is lower
    case. *)
Definition validSHA256 (value : text) : bool := (length value =? 64)%nat && forallb is_lower_hex value.

Definition validLimits (limits : Limits) : bool :=
  (0 <? Workers limits) && (Workers limits <=? MaxWorkers) && (LCPUTimeMillis limits <=? MaxCPUTimeMillis) &&
  (LMemoryBytes limits <=? MaxMemoryBytes) && (LStorageBytes limits <=? MaxStorageBytes) && (LProcesses limits <=? MaxProcesses) &&
  (TotalCostMicroUSD limits <=? MaxCostMicroUSD).
Definition validResources (resources : Resources) : bool :=
  (CPUTimeMillis resources <=? MaxCPUTimeMillis) && (MemoryBytes resources <=? MaxMemoryBytes) &&
  (StorageBytes resources <=? MaxStorageBytes) && (Processes resources <=? MaxProcesses) && (CostMicroUSD resources <=? MaxCostMicroUSD).
Definition resourcesFit (resources : Resources) (limits : Limits) : bool :=
  (CPUTimeMillis resources <=? LCPUTimeMillis limits) && (MemoryBytes resources <=? LMemoryBytes limits) &&
  (StorageBytes resources <=? LStorageBytes limits) && (Processes resources <=? LProcesses limits) &&
  (CostMicroUSD resources <=? TotalCostMicroUSD limits).

(** [len] of a slice. *)
Definition len {A} (l : option (list A)) : Z := Z.of_nat (length (default [] l)).

(** The loop over the cohort limits; [previous] is the cohort before. *)
Fixpoint cohorts_loop (workers : Z) (previous : option text) (l : list CohortLimit) (cohorts : gmap text Z) : option (gmap text Z) :=
  match l with
  | [] => Some cohorts
  | c :: l =>
      if negb (validSHA256 (CohortSHA256 c)) || (CWorkers c =? 0) || (workers <? CWorkers c) ||
         match previous with Some p => negb (text_ltb p (CohortSHA256 c)) | None => false end
      then None
      else cohorts_loop workers (Some (CohortSHA256 c)) l (<[CohortSHA256 c := CWorkers c]> cohorts)
  end.

Fixpoint task_cohorts_ok (cohorts : gmap text Z) (previous : option text) (l : list text) : bool :=
  match l with
  | [] => true
  | c :: l =>
      negb (negb (validSHA256 c) || (default 0 (cohorts !! c) =? 0) ||
            match previous with Some p => negb (text_ltb p c) | None => false end) &&
      task_cohorts_ok cohorts (Some c) l
  end.

(** The loop over the tasks; [previous] holds the round and ordinal before. *)
Fixpoint tasks_loop (n : Z) (limits : Limits) (cohorts : gmap text Z) (tasks : list Task)
    (seenTasks : gset text) (seenOrdinals : gset Z) (previous : option (Z * Z)) : option (gset Z) :=
  match tasks with
  | [] => Some seenOrdinals
  | task :: tasks =>
      if negb (validSHA256 (TaskSHA256 task)) || (Ordinal task =? 0) || (n <? Ordinal task) || (Round task =? 0) ||
         (MaxTaskCohorts <? len (CohortSHA256s task)) || bool_decide (CohortSHA256s task = None) ||
         negb (validResources (TResources task)) || negb (resourcesFit (TResources task) limits)
      then None
      else if bool_decide (TaskSHA256 task ∈ seenTasks) || bool_decide (Ordinal task ∈ seenOrdinals) then None
      else if match previous with
              | None => negb (Round task =? 1)
              | Some (previousRound, previousOrdinal) =>
                  (Round task <? previousRound) || (wrap32 (previousRound + 1) <? Round task) ||
                  ((Round task =? previousRound) && (Ordinal task <=? previousOrdinal))
              end
      then None
      else if negb (task_cohorts_ok cohorts None (default [] (CohortSHA256s task))) then None
      else tasks_loop n limits cohorts tasks ({[TaskSHA256 task]} ∪ seenTasks) ({[Ordinal task]} ∪ seenOrdinals)
             (Some (Round task, Ordinal task))
  end.

(** *** Identities *)

Definition json_resources (r : Resources) : text :=
  json_object [member "cpu_time_millis" (json_int (CPUTimeMillis r)); member "memory_bytes" (json_int (MemoryBytes r));
    member "storage_bytes" (json_int (StorageBytes r)); member "processes" (json_int (Processes r));
    member "cost_microusd" (json_int (CostMicroUSD r))].
Definition json_slice {A} (f : A → text) (l : option (list A)) : text :=
  match l with None => txt "null" | Some l => json_array (map f l) end.
Definition json_limits (l : Limits) : text :=
  json_object [member "workers" (json_int (Workers l)); member "cpu_time_millis" (json_int (LCPUTimeMillis l));
    member "memory_bytes" (json_int (LMemoryBytes l)); member "storage_bytes" (json_int (LStorageBytes l));
    member "processes" (json_int (LProcesses l)); member "total_cost_microusd" (json_int (TotalCostMicroUSD l));
    member "cohorts" (json_slice (λ c, json_object [member "cohort_sha256" (json_string (CohortSHA256 c));
                                                    member "workers" (json_int (CWorkers c))]) (Cohorts l))].
Definition json_task (t : Task) : text :=
  json_object [member "task_sha256" (json_string (TaskSHA256 t)); member "ordinal" (json_int (Ordinal t));
    member "round" (json_int (Round t)); member "resources" (json_resources (TResources t));
    member "cohort_sha256s" (json_slice json_string (CohortSHA256s t))].
Definition json_plan (p : Plan) : text :=
  json_object [member "schema" (json_string (Schema p)); member "schema_version" (json_int (PSchemaVersion p));
    member "contract_version" (json_string (PContractVersion p)); member "limits" (json_limits (PLimits p));
    member "tasks" (json_array (map json_task (Tasks p))); member "plan_sha256" (json_string (PlanSHA256 p))].
Definition json_report (r : Report) : text :=
  json_object [member "schema" (json_string (RSchema r)); member "schema_version" (json_int (RSchemaVersion r));
    member "contract_version" (json_string (RContractVersion r)); member "plan_sha256" (json_string (RPlanSHA256 r));
    member "queued" (json_int (Queued r)); member "started" (json_int (Started r)); member "completed" (json_int (Completed r));
    member "succeeded" (json_int (Succeeded r)); member "failed" (json_int (Failed r)); member "canceled" (json_int (Canceled r));
    member "unknown" (json_int (Unknown r)); member "never_started" (json_int (NeverStarted r));
    member "stop" (json_string (Stop r)); member "report_sha256" (json_string (ReportSHA256 r))].

Definition set_plan_digest (digest : text) (p : Plan) : Plan :=
  {| Schema := Schema p; PSchemaVersion := PSchemaVersion p; PContractVersion := PContractVersion p; PLimits := PLimits p;
     Tasks := Tasks p; PlanSHA256 := digest |}.
Definition set_report_digest (digest : text) (r : Report) : Report :=
  {| RSchema := RSchema r; RSchemaVersion := RSchemaVersion r; RContractVersion := RContractVersion r; RPlanSHA256 := RPlanSHA256 r;
     Queued := Queued r; Started := Started r; Completed := Completed r; Succeeded := Succeeded r; Failed := Failed r;
     Canceled := Canceled r; Unknown := Unknown r; NeverStarted := NeverStarted r; Stop := Stop r; ReportSHA256 := digest |}.

Section scheduler.
Variable sha256 : text → vec ascii 32.

Definition digest (domain value : text) : text :=
  hex_encode (vec_to_list (sha256 (json_object [member "domain" (json_string domain); member "value" value]))).
Definition plan_identity (p : Plan) : text := digest (txt "scheduler-plan-v1") (json_plan (set_plan_digest [] p)).
Definition report_identity (r : Report) : text := digest (txt "scheduler-report-v1") (json_report (set_report_digest [] r)).

(** [validatePlanShape(plan, requireDigest) == nil]. *)
Definition validatePlanShape (plan : Plan) (requireDigest : bool) : bool :=
  let n := Z.of_nat (length (Tasks plan)) in
  if negb (eqt (Schema plan) PlanSchema) || negb (PSchemaVersion plan =? SchemaVersion) || negb (eqt (PContractVersion plan) ContractVersion) ||
     (requireDigest && negb (validSHA256 (PlanSHA256 plan))) || (negb requireDigest && negb (eqt (PlanSHA256 plan) [])) ||
     (n =? 0) || (MaxTasks <? n) || bool_decide (Cohorts (PLimits plan) = None) || (MaxCohorts <? len (Cohorts (PLimits plan))) ||
     negb (validLimits (PLimits plan))
  then false
  else
    match cohorts_loop (Workers (PLimits plan)) None (default [] (Cohorts (PLimits plan))) ∅ with
    | None => false
    | Some cohorts =>
        match tasks_loop n (PLimits plan) cohorts (Tasks plan) ∅ ∅ None with
        | None => false
        | Some seenOrdinals =>
            forallb (λ i, bool_decide (Z.of_nat i ∈ seenOrdinals)) (seq 1 (length (Tasks plan))) &&
            (negb requireDigest || eqt (plan_identity plan) (PlanSHA256 plan))
        end
    end.
Definition ValidatePlan (plan : Plan) : bool := validatePlanShape plan true.

Definition SealPlan (candidate : Plan) : option Plan :=
  let c := {| Schema := PlanSchema; PSchemaVersion := SchemaVersion; PContractVersion := ContractVersion;
              PLimits := PLimits candidate; Tasks := Tasks candidate; PlanSHA256 := [] |} in
  if negb (validatePlanShape c false) then None
  else
    let c := set_plan_digest (plan_identity c) c in
    if ValidatePlan c then Some c else None.

Definition validateReportShape (plan : Plan) (report : Report) (requireDigest : bool) : bool :=
  let totalOutcomes := wrap64 (Succeeded report + Failed report + Canceled report + Unknown report) in
  if negb (ValidatePlan plan) || negb (eqt (RSchema report) ReportSchema) || negb (RSchemaVersion report =? SchemaVersion) ||
     negb (eqt (RContractVersion report) ContractVersion) || negb (eqt (RPlanSHA256 report) (PlanSHA256 plan)) ||
     (requireDigest && negb (validSHA256 (ReportSHA256 report))) || (negb requireDigest && negb (eqt (ReportSHA256 report) [])) ||
     negb (Queued report =? wrap32 (Z.of_nat (length (Tasks plan)))) || (Queued report <? Started report) ||
     negb (Completed report =? Started report) || negb (totalOutcomes =? Completed report) ||
     negb (NeverStarted report =? wrap32 (Queued report - Started report)) || negb (stop_valid (Stop report)) ||
     (eqt (Stop report) StopNone && negb (Completed report =? Queued report)) ||
     (eqt (Stop report) StopCostExhausted && (NeverStarted report =? 0)) ||
     (eqt (Stop report) StopStartFailed && (Unknown report =? 0))
  then false
  else negb requireDigest || eqt (report_identity report) (ReportSHA256 report).
Definition ValidateReport (plan : Plan) (report : Report) : bool := validateReportShape plan report true.

Definition SealReport (plan : Plan) (candidate : Report) : option Report :=
  if negb (ValidatePlan plan) then None
  else
    let queued := wrap32 (Z.of_nat (length (Tasks plan))) in
    let c := {| RSchema := ReportSchema; RSchemaVersion := SchemaVersion; RContractVersion := ContractVersion;
                RPlanSHA256 := PlanSHA256 plan; Queued := queued; Started := Started candidate; Completed := Completed candidate;
                Succeeded := Succeeded candidate; Failed := Failed candidate; Canceled := Canceled candidate; Unknown := Unknown candidate;
                NeverStarted := wrap32 (queued - Started candidate); Stop := Stop candidate; ReportSHA256 := [] |} in
    if negb (validateReportShape plan c false) then None
    else
      let c := set_report_digest (report_identity c) c in
      if ValidateReport plan c then Some c else None.

(** ** Batches *)

Definition zero_resources : Resources :=
  {| CPUTimeMillis := 0; MemoryBytes := 0; StorageBytes := 0; Processes := 0; CostMicroUSD := 0 |}.
Record batchReservation := { BResources : Resources; BCohorts : gmap text Z }.

Definition cohortWorkers (cohorts : list CohortLimit) (sha : text) : Z :=
  let sha_at i := match cohorts !! i with Some c => CohortSHA256 c | None => [] end in
  let index := sort_search (length cohorts) (λ i, negb (text_ltb (sha_at i) sha)) in
  match cohorts !! index with
  | Some c => if eqt (CohortSHA256 c) sha then CWorkers c else 0
  | None => 0
  end.

Definition canAdd (reservation : batchReservation) (task : Task) (limits : Limits) : bool :=
  let r := BResources reservation in
  let t := TResources task in
  if (wrap64 (LCPUTimeMillis limits - CPUTimeMillis r) <? CPUTimeMillis t) ||
     (wrap64 (LMemoryBytes limits - MemoryBytes r) <? MemoryBytes t) ||
     (wrap64 (LStorageBytes limits - StorageBytes r) <? StorageBytes t) ||
     (wrap32 (LProcesses limits - Processes r) <? Processes t)
  then false
  else forallb (λ cohort,
    let limit := cohortWorkers (default [] (Cohorts limits)) cohort in
    negb ((limit =? 0) || (limit <=? default 0 (BCohorts reservation !! cohort)))) (default [] (CohortSHA256s task)).

(** [reservation.cohorts[cohort]++] *)
Definition count_cohort (m : gmap text Z) (cohort : text) : gmap text Z := <[cohort := wrap32 (default 0 (m !! cohort) + 1)]> m.

(** The cost field of a reservation is never added to. *)
Definition add (reservation : batchReservation) (task : Task) : batchReservation :=
  let r := BResources reservation in
  let t := TResources task in
  {| BResources := {| CPUTimeMillis := wrap64 (CPUTimeMillis r + CPUTimeMillis t); MemoryBytes := wrap64 (MemoryBytes r + MemoryBytes t);
                      StorageBytes := wrap64 (StorageBytes r + StorageBytes t); Processes := wrap32 (Processes r + Processes t);
                      CostMicroUSD := CostMicroUSD r |};
     BCohorts := foldl count_cohort (BCohorts reservation) (default [] (CohortSHA256s task)) |}.

(** The loop of [nextBatch] over the tasks of the round that are left. *)
Fixpoint nextBatch_loop (limits : Limits) (tasks : list Task) (reservedCost : Z) (reservation : batchReservation) (batch : list Task)
    (batchCost : Z) : list Task * Z * bool :=
  match tasks with
  | [] => (batch, batchCost, false)
  | task :: tasks =>
      if negb (Z.of_nat (length batch) <? Workers limits) then (batch, batchCost, false)
      else if wrap64 (wrap64 (TotalCostMicroUSD limits - reservedCost) - batchCost) <? CostMicroUSD (TResources task)
      then (batch, batchCost, true)
      else if negb (canAdd reservation task limits) then (batch, batchCost, false)
      else nextBatch_loop limits tasks reservedCost (add reservation task) (batch ++ [task])
             (wrap64 (batchCost + CostMicroUSD (TResources task)))
  end.

(** [nextBatch(limits, tasks, start, end, reservedCost)]: the batch, the next
    index, its cost, and whether the total cost stopped it. *)
Definition nextBatch (limits : Limits) (tasks : list Task) (start end_ : nat) (reservedCost : Z) : list Task * nat * Z * bool :=
  let '(batch, batchCost, blocked) :=
    nextBatch_loop limits (slice tasks start end_) reservedCost {| BResources := zero_resources; BCohorts := ∅ |} [] 0 in
  (batch, (start + length batch)%nat, batchCost, blocked).

(** ** Reports in progress *)

Definition zero_report : Report :=
  {| RSchema := []; RSchemaVersion := 0; RContractVersion := []; RPlanSHA256 := []; Queued := 0; Started := 0; Completed := 0;
     Succeeded := 0; Failed := 0; Canceled := 0; Unknown := 0; NeverStarted := 0; Stop := []; ReportSHA256 := [] |}.
Definition set_stop (reason : text) (r : Report) : Report :=
  {| RSchema := RSchema r; RSchemaVersion := RSchemaVersion r; RContractVersion := RContractVersion r; RPlanSHA256 := RPlanSHA256 r;
     Queued := Queued r; Started := Started r; Completed := Completed r; Succeeded := Succeeded r; Failed := Failed r;
     Canceled := Canceled r; Unknown := Unknown r; NeverStarted := NeverStarted r; Stop := reason; ReportSHA256 := ReportSHA256 r |}.
(** [report.Started++] and the like: the increments of each counter. *)
Definition bump (started completed succeeded failed canceled unknown : Z) (r : Report) : Report :=
  {| RSchema := RSchema r; RSchemaVersion := RSchemaVersion r; RContractVersion := RContractVersion r; RPlanSHA256 := RPlanSHA256 r;
     Queued := Queued r; Started := wrap32 (Started r + started); Completed := wrap32 (Completed r + completed);
     Succeeded := wrap32 (Succeeded r + succeeded); Failed := wrap32 (Failed r + failed); Canceled := wrap32 (Canceled r + canceled);
     Unknown := wrap32 (Unknown r + unknown); NeverStarted := NeverStarted r; Stop := Stop r; ReportSHA256 := ReportSHA256 r |}.

Definition countOutcome (outcome : text) (r : Report) : Report :=
  if eqt outcome OutcomeSucceeded then bump 0 0 1 0 0 0 r
  else if eqt outcome OutcomeFailed then bump 0 0 0 1 0 0 r
  else if eqt outcome OutcomeCanceled then bump 0 0 0 0 1 0 r
  else if eqt outcome OutcomeUnknown then bump 0 0 0 0 0 1 r
  else r.

(** The loop of [admitTerminalTasks]; an error is the code of the contract
    error. *)
Fixpoint admit_loop (limits : Limits) (tasks : list Task) (terminal : list TerminalTask) (done : gmap text text) (report : Report)
    (reservedCost : Z) : result text (gmap text text * Report * Z) :=
  match tasks with
  | [] => match terminal with [] => Ok (done, report, reservedCost) | _ => Err (txt "terminal_order") end
  | task :: tasks =>
      match terminal with
      | item :: terminal' =>
          if negb (eqt (XTaskSHA256 item) (TaskSHA256 task)) then admit_loop limits tasks terminal done report reservedCost
          else if negb (outcome_valid (XOutcome item)) ||
                  (wrap64 (TotalCostMicroUSD limits - reservedCost) <? CostMicroUSD (TResources task))
          then Err (txt "terminal_tasks")
          else admit_loop limits tasks terminal' (<[XTaskSHA256 item := XOutcome item]> done)
                 (countOutcome (XOutcome item) (bump 1 1 0 0 0 0 report)) (wrap64 (reservedCost + CostMicroUSD (TResources task)))
      | [] => admit_loop limits tasks [] done report reservedCost
      end
  end.
Definition admitTerminalTasks (plan : Plan) (terminal : list TerminalTask) : result text (gmap text text * Report * Z) :=
  admit_loop (PLimits plan) (Tasks plan) terminal ∅ (set_stop StopNone zero_report) 0.

(** ** The environment *)

(** How an execution closure ends. *)
Inductive execution := Returned (outcome : text) (err : bool) | Panicked.

Record taskResult := { RTask : Task; ROutcome : text; RErr : bool }.

(** [executeTask]: a panic and an invalid outcome become unknown errors. *)
Definition executeTask (task : Task) (e : execution) : taskResult :=
  match e with
  | Panicked => {| RTask := task; ROutcome := OutcomeUnknown; RErr := true |}
  | Returned outcome err =>
      if outcome_valid outcome then {| RTask := task; ROutcome := outcome; RErr := err |}
      else {| RTask := task; ROutcome := OutcomeUnknown; RErr := true |}
  end.

(** Why the run's context was cancelled: the parent was, a start failed, or the
    result of the task of that ordinal was received. *)
Inductive cancelCause := CauseParent | CauseStart (ordinal : Z) | CauseResult (ordinal : Z).

(** The parent context, at a tick, is cancelled. *)
Variable parentCancelled : nat → bool.
(** [start] returned a closure and no error. *)
Variable starts : nat → Task → bool.
(** How the closure of a task ends whose result is received at a tick.  It holds
    the run's context, so its end may depend on why that was cancelled. *)
Variable executes : nat → Task → option cancelCause → execution.
(** The order in which the closures of a batch send their results. *)
Variable arrival : nat → list Task → list Task.

(** The report, the cost, the clock of the oracles, and the log of the batches:
    the tasks [start] was called for, in order. *)
Record state := { rep : Report; cost : Z; tick : nat; batches : list (list Task) }.

Definition set_rep (r : Report) (st : state) : state := {| rep := r; cost := cost st; tick := tick st; batches := batches st |}.
Definition tock (st : state) : state := {| rep := rep st; cost := cost st; tick := S (tick st); batches := batches st |}.

(** The start loop of [runBatch] from tick [t]: the tasks whose closure runs,
    the task whose start failed, the increment of [report.Started], and the next
    tick. *)
Fixpoint start_loop (t : nat) (tasks : list Task) : list Task * option Task * nat :=
  match tasks with
  | [] => ([], None, t)
  | task :: tasks =>
      if parentCancelled t then ([], None, S t)
      else if negb (starts t task) then ([], Some task, S t)
      else let '(running, failure, t') := start_loop (S t) tasks in (task :: running, failure, t')
  end.

(** [cancel] of [context.WithCancelCause]: the first cause stays. *)
Definition cancel (c : cancelCause) (cause : option cancelCause) : option cancelCause := Some (default c cause).
(** The cause in force after the start loop. *)
Definition start_cause (tasks running : list Task) (failure : option Task) : option cancelCause :=
  match failure with
  | Some f => cancel (CauseStart (Ordinal f)) None
  | None => if (length running <? length tasks)%nat then cancel CauseParent None else None
  end.
(** What the closure sees: the end of the parent reaches the run's context. *)
Definition context_cause (t : nat) (cause : option cancelCause) : option cancelCause :=
  match cause with None => if parentCancelled t then Some CauseParent else None | _ => cause end.

(** The loop that receives the results: one that failed, was cancelled or is
    unknown cancels the run's context, which the siblings still running see. *)
Definition cancels (result : taskResult) : bool :=
  RErr result || eqt (ROutcome result) OutcomeCanceled || eqt (ROutcome result) OutcomeUnknown.
Fixpoint receive (t : nat) (cause : option cancelCause) (order : list Task) : list taskResult :=
  match order with
  | [] => []
  | task :: order =>
      let cause := context_cause t cause in
      let result := executeTask task (executes t task cause) in
      result :: receive (S t) (if cancels result then cancel (CauseResult (Ordinal task)) cause else cause) order
  end.

(** The loop that counts the collected results. *)
Definition count_results (failure : option Task) (collected : list taskResult) (r : Report) : Report :=
  foldl (λ r result,
    match failure with
    | Some f => if eqt (TaskSHA256 (RTask result)) (TaskSHA256 f) then r else countOutcome (ROutcome result) (bump 0 1 0 0 0 0 r)
    | None => countOutcome (ROutcome result) (bump 0 1 0 0 0 0 r)
    end) r collected.

(** The last loop of [runBatch]: the first result, by ordinal, that stops. *)
Definition result_stop (result : taskResult) : option (text * runError) :=
  if eqt (ROutcome result) OutcomeCanceled then Some (StopCanceled, ErrInterrupted (Some (Ordinal (RTask result))))
  else if RErr result || eqt (ROutcome result) OutcomeUnknown then Some (StopTaskFailed, ErrExecution (Some (Ordinal (RTask result))))
  else None.
Definition by_ordinal (a b : taskResult) : Prop := Ordinal (RTask a) ≤ Ordinal (RTask b).
#[export] Instance by_ordinal_dec : RelDecision by_ordinal.
Proof. intros a b. unfold by_ordinal. apply _. Defined.

(** The cause of a batch is not kept for the next: whatever cancels the run's
    context also ends the run. *)
Definition runBatch (tasks : list Task) (st : state) : state * option runError :=
  let t0 := tick st in
  let '(running, failure, t1) := start_loop t0 tasks in
  let results := receive t1 (start_cause tasks running failure) (arrival t0 running) in
  let t2 := (t1 + length running)%nat in
  let r := bump (Z.of_nat (length running)) 0 0 0 0 0 (rep st) in
  let '(r, collected) :=
    match failure with
    | Some f => (bump 1 1 0 0 0 1 r, results ++ [{| RTask := f; ROutcome := OutcomeUnknown; RErr := true |}])
    | None => (r, results)
    end in
  let r := count_results failure collected r in
  let finish (r : Report) (e : option runError) : state * option runError :=
    ({| rep := r; cost := cost st; tick := S t2;
        batches := batches st ++ [running ++ match failure with Some f => [f] | None => [] end] |}, e) in
  if parentCancelled t2 then finish (set_stop StopCanceled r) (Some (ErrInterrupted None))
  else match failure with
       | Some _ => finish (set_stop StopStartFailed r) (Some ErrStart)
       | None =>
           match first_some (λ _, result_stop) 0 (merge_sort by_ordinal collected) with
           | Some (reason, e) => finish (set_stop reason r) (Some e)
           | None => finish r None
           end
       end.

(** ** Dispatch *)

(** The inner loop, over the tasks [index .. roundEnd) of one round. *)
Fixpoint round_loop (fuel : nat) (limits : Limits) (pending : list Task) (index roundEnd : nat) (st : state)
    : nat * state * option runError :=
  match fuel with
  | O => (index, st, None)
  | S fuel =>
      if (index <? roundEnd)%nat then
        let '(batch, next, batchCost, costBlocked) := nextBatch limits pending index roundEnd (cost st) in
        if costBlocked && (length batch =? 0)%nat then (index, set_rep (set_stop StopCostExhausted (rep st)) st, Some ErrCostExhausted)
        else if (length batch =? 0)%nat
        then (index, set_rep (set_stop StopStartFailed (rep st)) st, Some (ErrContract (txt "empty_batch")))
        else
          let st := {| rep := rep st; cost := wrap64 (cost st + batchCost); tick := tick st; batches := batches st |} in
          let '(st, batchErr) := runBatch batch st in
          match batchErr with
          | Some e => (index, st, Some e)
          | None =>
              if costBlocked then (next, set_rep (set_stop StopCostExhausted (rep st)) st, Some ErrCostExhausted)
              else round_loop fuel limits pending next roundEnd st
          end
      else (index, st, None)
  end.

(** [roundEnd] *)
Fixpoint round_span (round : Z) (pending : list Task) : nat :=
  match pending with
  | task :: pending => if Round task =? round then S (round_span round pending) else 0
  | [] => 0
  end.

Fixpoint dispatch_loop (fuel : nat) (limits : Limits) (pending : list Task) (index : nat) (st : state) : state * option runError :=
  match fuel with
  | O => (st, None)
  | S fuel =>
      match pending !! index with
      | None => (st, None)
      | Some task =>
          if parentCancelled (tick st) then (set_rep (set_stop StopCanceled (rep st)) (tock st), Some (ErrInterrupted None))
          else
            let roundEnd := (index + round_span (Round task) (drop index pending))%nat in
            match round_loop (length pending) limits pending index roundEnd (tock st) with
            | (index, st, None) => dispatch_loop fuel limits pending index st
            | (_, st, Some e) => (st, Some e)
            end
      end
  end.

(** The tasks not yet terminal, in plan order. *)
Definition pending_tasks (plan : Plan) (done : gmap text text) : list Task :=
  filter (λ task, done !! TaskSHA256 task = None) (Tasks plan).

(** The sealed report, the error, and the batches dispatched. *)
Definition RunRemaining (plan : Plan) (terminal : list TerminalTask) : option Report * option runError * list (list Task) :=
  if negb (ValidatePlan plan) then (None, Some (ErrContract (txt "run")), [])
  else
    match admitTerminalTasks plan terminal with
    | Err code => (None, Some (ErrContract code), [])
    | Ok (done, report, reservedCost) =>
        let pending := pending_tasks plan done in
        let st := {| rep := report; cost := reservedCost; tick := 1; batches := [] |} in
        let '(st, err) :=
          if parentCancelled 0 then (set_rep (set_stop StopCanceled (rep st)) st, Some (ErrInterrupted None))
          else dispatch_loop (S (length pending)) (PLimits plan) pending 0 st in
        let '(st, err) :=
          match err with
          | None => if negb (Completed (rep st) =? wrap32 (Z.of_nat (length (Tasks plan))))
                    then (set_rep (set_stop StopTaskFailed (rep st)) st, Some (ErrExecution None)) else (st, None)
          | Some e => (st, Some e)
          end in
        match SealReport plan (rep st) with
        | None => (None, Some match err with Some e => ErrJoined e | None => ErrSeal end, batches st)
        | Some sealed => (Some sealed, err, batches st)
        end
    end.

Definition Run (plan : Plan) : option Report * option runError * list (list Task) := RunRemaining plan [].

(** ** Typed plans

    Every field of a Go value lies in the range of its type. *)

Definition typed_resources (r : Resources) : Prop :=
  uint 64 (CPUTimeMillis r) ∧ uint 64 (MemoryBytes r) ∧ uint 64 (StorageBytes r) ∧ uint 32 (Processes r) ∧ uint 64 (CostMicroUSD r).
Definition typed_limits (l : Limits) : Prop :=
  uint 32 (Workers l) ∧ uint 64 (LCPUTimeMillis l) ∧ uint 64 (LMemoryBytes l) ∧ uint 64 (LStorageBytes l) ∧ uint 32 (LProcesses l) ∧
  uint 64 (TotalCostMicroUSD l) ∧ Forall (λ c, uint 32 (CWorkers c)) (default [] (Cohorts l)).
Definition typed_task (t : Task) : Prop := uint 32 (Ordinal t) ∧ uint 32 (Round t) ∧ typed_resources (TResources t).
Definition typed_plan (p : Plan) : Prop := typed_limits (PLimits p) ∧ Forall typed_task (Tasks p).



(** ** Cohorts *)

(** Strictly ascending, after [previous]. *)
Fixpoint ascending (previous : option text) (l : list text) : Prop :=
  match l with
  | [] => True
  | x :: l => match previous with Some p => text_ltb p x = true | None => True end ∧ ascending (Some x) l
  end.

Lemma ascending_weaken p l : ascending p l → ascending None l.
Proof. destruct l; [done|]. by intros [_ H]. Qed.

Lemma ascending_above p l x : ascending (Some p) l → x ∈ l → text_ltb p x = true.
Proof.
  revert p. induction l as [|y l IH]; intros p Ha Hx; [by apply not_elem_of_nil in Hx|]. destruct Ha as [Hp Ha].
  apply elem_of_cons in Hx as [->|Hx]; [done|]. eapply text_ltb_trans; [exact Hp|]. by apply IH.
Qed.

Lemma ascending_NoDup p l : ascending p l → NoDup l.
Proof.
  revert p. induction l as [|x l IH]; intros p Ha; [constructor|]. destruct Ha as [_ Ha]. constructor; [|by eapply IH].
  intros Hx. pose proof (ascending_above _ _ _ Ha Hx). by rewrite text_ltb_irrefl in H.
Qed.

Lemma ascending_lookup p l i j x y : ascending p l → (i < j)%nat → l !! i = Some x → l !! j = Some y → text_ltb x y = true.
Proof.
  revert p i j. induction l as [|z l IH]; intros p i j Ha Hij Hi Hj; [done|]. destruct Ha as [_ Ha]. destruct j as [|j]; [lia|].
  destruct i as [|i]; [|eapply IH; [exact Ha| |done..]; lia]. injection Hi as <-. eapply ascending_above; [exact Ha|].
  by eapply list_elem_of_lookup_2.
Qed.

Lemma cohorts_loop_inv workers previous l m coh : cohorts_loop workers previous l m = Some coh →
  ascending previous (CohortSHA256 <$> l) ∧ Forall (λ c, CWorkers c ≠ 0 ∧ CWorkers c ≤ workers) l ∧
  ∀ c v, coh !! c = Some v → m !! c = Some v ∨ ∃ x, x ∈ l ∧ CohortSHA256 x = c ∧ CWorkers x = v.
Proof.
  revert previous m. induction l as [|x l IH]; intros previous m H; cbn [cohorts_loop] in H.
  { injection H as <-. split_and!; [done|constructor|by left]. }
  destruct (_ || _) eqn:Hg in H; [done|]. destruct (IH _ _ H) as (Ha & Hw & Hc). bool_hyps. split_and!.
  - rewrite fmap_cons. cbn [ascending]. split; [|done]. destruct previous; [|done]. by match goal with H : negb _ = false |- _ => apply negb_false_iff in H end.
  - constructor; [done|done].
  - intros c v [Hm|(y & Hy & ? & ?)]%Hc; [|right; exists y; split; [by right|done]].
    destruct (decide (c = CohortSHA256 x)) as [->|Hne]; [|left; by rewrite lookup_insert_ne in Hm].
    rewrite lookup_insert_eq in Hm. injection Hm as <-. right. exists x. split; [left|done].
Qed.

Lemma cohortWorkers_found l x : ascending None (CohortSHA256 <$> l) → x ∈ l → cohortWorkers l (CohortSHA256 x) = CWorkers x.
Proof.
  intros Ha (i & Hi)%list_elem_of_lookup. unfold cohortWorkers. cbv zeta.
  set (sha_at := λ i, match l !! i with Some c => CohortSHA256 c | None => [] end).
  set (f := λ i, negb (text_ltb (sha_at i) (CohortSHA256 x))). change (sort_search (length l) _) with (sort_search (length l) f).
  assert (∀ a b c d, (a < b)%nat → l !! a = Some c → l !! b = Some d → text_ltb (CohortSHA256 c) (CohortSHA256 d) = true) as Hord.
  { intros a b c d Hab Hc Hd. eapply (ascending_lookup None (CohortSHA256 <$> l) a b); [done|done|..];
      rewrite list_lookup_fmap; [by rewrite Hc|by rewrite Hd]. }
  destruct (sort_search_spec (length l) f) as (H1 & H2 & H3).
  { intros a b Hab. destruct (decide (a = b)) as [->|Hne]; [done|]. unfold f, sha_at.
    destruct (lookup_lt_is_Some_2 l a ltac:(lia)) as [c Hc]. destruct (lookup_lt_is_Some_2 l b ltac:(lia)) as [d Hd].
    rewrite Hc, Hd. intros Hn%negb_true_iff. apply negb_true_iff, not_true_iff_false. intros Hlt.
    assert (text_ltb (CohortSHA256 c) (CohortSHA256 d) = true) by (eapply (Hord a b); [lia|done..]).
    by rewrite (text_ltb_trans _ _ _ H Hlt) in Hn. }
  assert (f i = true) as Hfi by (unfold f, sha_at; by rewrite Hi, text_ltb_irrefl).
  pose proof (lookup_lt_Some _ _ _ Hi) as Hil. set (r := sort_search (length l) f) in *.
  assert (r ≤ i)%nat as Hri. { destruct (decide (r ≤ i)%nat); [done|]. rewrite (H2 i) in Hfi by lia. done. }
  assert (r = i) as ->.
  { destruct (decide (r = i)) as [|Hne]; [done|]. exfalso. specialize (H3 ltac:(lia)). unfold f, sha_at in H3.
    destruct (lookup_lt_is_Some_2 l r ltac:(lia)) as [c Hc]. rewrite Hc in H3. apply negb_true_iff in H3.
    rewrite (Hord r i c x) in H3 by (done || lia). done. }
  rewrite Hi. by rewrite eqt_refl.
Qed.

(** A cohort a valid task names has workers. *)
Lemma task_cohorts_inv coh previous l : task_cohorts_ok coh previous l = true →
  ascending previous l ∧ Forall (λ c, ∃ v, coh !! c = Some v ∧ v ≠ 0) l.
Proof.
  revert previous. induction l as [|c l IH]; intros previous H; [split; constructor|]. cbn [task_cohorts_ok] in H.
  apply andb_true_iff in H as [Hc Hl]. apply negb_true_iff in Hc. bool_hyps. destruct (IH _ Hl) as [Ha Hf].
  split; [|constructor; [|done]].
  - cbn [ascending]. split; [|done]. destruct previous; [|done]. by match goal with H : negb _ = false |- _ => apply negb_false_iff in H end.
  - destruct (coh !! c) as [v|] eqn:Hv; [|done]. by exists v.
Qed.

(** What the task loop checked. *)
Record task_ok (limits : Limits) (coh : gmap text Z) (t : Task) : Prop := {
  tk_resources : validResources (TResources t) = true;
  tk_fit : resourcesFit (TResources t) limits = true;
  tk_cohorts : task_cohorts_ok coh None (default [] (CohortSHA256s t)) = true
}.

Definition round_le (a b : Task) : Prop := Round a ≤ Round b.

Lemma tasks_loop_inv n limits coh tasks seenT seenO previous so : tasks_loop n limits coh tasks seenT seenO previous = Some so →
  Forall (task_ok limits coh) tasks ∧ NoDup (TaskSHA256 <$> tasks) ∧ (∀ t, t ∈ tasks → TaskSHA256 t ∉ seenT) ∧
  NoDup (Ordinal <$> tasks) ∧ (∀ t, t ∈ tasks → Ordinal t ∉ seenO) ∧
  StronglySorted round_le tasks ∧ (∀ t, t ∈ tasks → match previous with Some (r, _) => r ≤ Round t | None => True end).
Proof.
  revert seenT seenO previous. induction tasks as [|t tasks IH]; intros seenT seenO previous H; cbn [tasks_loop] in H.
  { split_and!; try constructor; by intros ? ?%not_elem_of_nil. }
  destruct (_ || negb (resourcesFit _ _)) eqn:H1 in H; [done|]. destruct (_ || bool_decide (Ordinal t ∈ seenO)) eqn:H2 in H; [done|].
  destruct (match previous with Some _ => _ | None => _ end) eqn:H3 in H; [done|].
  destruct (negb (task_cohorts_ok _ _ _)) eqn:H4 in H; [done|].
  destruct (IH _ _ _ H) as (Hf & Hd & Hs & Hod & Ho & Hss & Hr). bool_hyps. split_and!.
  - constructor; [by constructor|done].
  - rewrite fmap_cons. constructor; [|done]. intros (x & Hx & Hin)%list_elem_of_fmap. apply (Hs x Hin). set_solver.
  - intros x [->|Hx]%elem_of_cons; [done|]. specialize (Hs x Hx). set_solver.
  - rewrite fmap_cons. constructor; [|done]. intros (x & Hx & Hin)%list_elem_of_fmap. apply (Ho x Hin). set_solver.
  - intros x [->|Hx]%elem_of_cons; [done|]. specialize (Ho x Hx). set_solver.
  - constructor; [done|]. apply Forall_forall. intros x Hx. exact (Hr x Hx).
  - intros x Hx. destruct previous as [[r o]|]; [|done]. bool_hyps.
    apply elem_of_cons in Hx as [->|Hx]; [done|]. specialize (Hr x Hx). cbn in Hr. lia.
Qed.

(** ** Batches stay within the limits *)

Definition total (f : Task → Z) (l : list Task) : Z := foldr (λ t z, f t + z) 0 l.

Lemma total_app f l l' : total f (l ++ l') = total f l + total f l'.
Proof. induction l as [|t l IH]; [done|]. simpl. rewrite IH. lia. Qed.
Lemma total_one f t : total f [t] = f t.
Proof. simpl. lia. Qed.
Lemma total_nonneg f l : Forall (λ t, 0 ≤ f t) l → 0 ≤ total f l.
Proof. induction 1; simpl; lia. Qed.

Definition cohorts_of (t : Task) : list text := default [] (CohortSHA256s t).
Definition limit_cohorts (l : Limits) : list CohortLimit := default [] (Cohorts l).
Definition cohort_count (c : text) (l : list Task) : Z := total (λ t, if decide (c ∈ cohorts_of t) then 1 else 0) l.

(** The in-flight share of a batch. *)
Record fits (limits : Limits) (batch : list Task) : Prop := {
  fits_workers : Z.of_nat (length batch) ≤ Workers limits;
  fits_cpu : total (λ t, CPUTimeMillis (TResources t)) batch ≤ LCPUTimeMillis limits;
  fits_memory : total (λ t, MemoryBytes (TResources t)) batch ≤ LMemoryBytes limits;
  fits_storage : total (λ t, StorageBytes (TResources t)) batch ≤ LStorageBytes limits;
  fits_processes : total (λ t, Processes (TResources t)) batch ≤ LProcesses limits;
  fits_cohorts : ∀ c, cohort_count c batch ≤ cohortWorkers (limit_cohorts limits) c
}.

(** A reservation is exactly the share of its batch. *)
Record reserves (limits : Limits) (res : batchReservation) (batch : list Task) : Prop := {
  rv_cpu : CPUTimeMillis (BResources res) = total (λ t, CPUTimeMillis (TResources t)) batch;
  rv_memory : MemoryBytes (BResources res) = total (λ t, MemoryBytes (TResources t)) batch;
  rv_storage : StorageBytes (BResources res) = total (λ t, StorageBytes (TResources t)) batch;
  rv_processes : Processes (BResources res) = total (λ t, Processes (TResources t)) batch;
  rv_cohorts : ∀ c, default 0 (BCohorts res !! c) = cohort_count c batch;
  rv_typed : Forall typed_task batch;
  rv_fits : fits limits batch
}.

Lemma cohortWorkers_range limits c : typed_limits limits → uint 32 (cohortWorkers (limit_cohorts limits) c).
Proof.
  intros (_ & _ & _ & _ & _ & _ & Hc). unfold cohortWorkers. destruct (_ !! sort_search _ _) as [x|] eqn:Hx; [|done].
  destruct (eqt _ _); [|done]. rewrite Forall_forall in Hc. apply Hc. by eapply list_elem_of_lookup_2.
Qed.

Lemma foldl_count m l c : NoDup l → (∀ x, x ∈ l → uint 32 (default 0 (m !! x) + 1)) →
  default 0 (foldl count_cohort m l !! c) = default 0 (m !! c) + (if decide (c ∈ l) then 1 else 0).
Proof.
  intros Hd. revert m. induction Hd as [|x l Hx Hd IH]; intros m Hu; [rewrite decide_False by (by intros ?%not_elem_of_nil); simpl; lia|].
  cbn [foldl]. rewrite IH; cycle 1.
  { intros y Hy. unfold count_cohort. rewrite lookup_insert_ne by (intros ->; done). apply Hu. by right. }
  unfold count_cohort. destruct (decide (x = c)) as [->|Hne].
  - rewrite lookup_insert_eq. cbn [default]. rewrite wrap32_id by (apply Hu; left). rewrite (decide_False (P := c ∈ l)) by done.
    rewrite (decide_True (P := c ∈ c :: l)) by left. simpl. lia.
  - rewrite lookup_insert_ne by done. f_equal. apply decide_ext. set_solver.
Qed.

Section batches.
Context (limits : Limits) (coh : gmap text Z).
Hypothesis Hlimits : typed_limits limits.
Hypothesis Hvalid : validLimits limits = true.
Hypothesis Hcohorts : cohorts_loop (Workers limits) None (limit_cohorts limits) ∅ = Some coh.

Lemma add_reserves res batch t : reserves limits res batch → typed_task t → task_ok limits coh t →
  Z.of_nat (length batch) < Workers limits → canAdd res t limits = true → reserves limits (add res t) (batch ++ [t]).
Proof.
  intros Hr Ht Hok Hw Hcan. pose proof Hlimits as (_ & Hl1 & Hl2 & Hl3 & Hl4 & _ & _). unfold uint in *.
  pose proof Ht as (_ & _ & (T1 & T2 & T3 & T4 & _)). unfold uint in *.
  destruct (task_cohorts_inv _ _ _ (tk_cohorts _ _ _ Hok)) as [Hasc _]. apply ascending_NoDup in Hasc.
  pose proof (rv_fits _ _ _ Hr) as [_ F1 F2 F3 F4 F5]. pose proof (rv_typed _ _ _ Hr) as Hty.
  assert (0 ≤ total (λ t, CPUTimeMillis (TResources t)) batch ∧ 0 ≤ total (λ t, MemoryBytes (TResources t)) batch ∧
    0 ≤ total (λ t, StorageBytes (TResources t)) batch ∧ 0 ≤ total (λ t, Processes (TResources t)) batch) as (P1 & P2 & P3 & P4).
  { split_and!; apply total_nonneg; (eapply Forall_impl; [exact Hty|]); intros x (_ & _ & (? & ? & ? & ? & _)); unfold uint in *; lia. }
  unfold canAdd in Hcan. rewrite (rv_cpu _ _ _ Hr), (rv_memory _ _ _ Hr), (rv_storage _ _ _ Hr), (rv_processes _ _ _ Hr) in Hcan.
  rewrite !wrap64_id, wrap32_id in Hcan by (unfold uint; lia).
  destruct (_ || _) eqn:Hg in Hcan; [done|]. bool_hyps. rewrite forallb_forall in Hcan.
  assert (∀ c, c ∈ cohorts_of t → cohort_count c batch < cohortWorkers (limit_cohorts limits) c) as Hc.
  { intros c Hin%list_elem_of_In. specialize (Hcan c Hin). bool_hyps. rewrite <- (rv_cohorts _ _ _ Hr). done. }
  assert (∀ c, default 0 (foldl count_cohort (BCohorts res) (cohorts_of t) !! c) = cohort_count c (batch ++ [t])) as Hcount.
  { intros c. rewrite foldl_count; [|done|].
    - unfold cohort_count. rewrite total_app, total_one. f_equal. apply (rv_cohorts _ _ _ Hr).
    - intros x Hx. specialize (Hc x Hx). pose proof (cohortWorkers_range limits x Hlimits). rewrite (rv_cohorts _ _ _ Hr).
      assert (0 ≤ cohort_count x batch) by (apply total_nonneg, Forall_true; intros y; destruct (decide _); lia). unfold uint in *. lia. }
  constructor; cbn [add BResources BCohorts CPUTimeMillis MemoryBytes StorageBytes Processes CostMicroUSD];
    rewrite ?(rv_cpu _ _ _ Hr), ?(rv_memory _ _ _ Hr), ?(rv_storage _ _ _ Hr), ?(rv_processes _ _ _ Hr), ?total_app, ?total_one.
  1-3: apply wrap64_id; unfold uint; lia.
  1: apply wrap32_id; unfold uint; lia.
  - exact Hcount.
  - apply Forall_app. split; [done|by constructor].
  - constructor; rewrite ?total_app, ?total_one; try lia.
    + rewrite length_app. simpl. lia.
    + intros c. unfold cohort_count. rewrite total_app, total_one. fold (cohort_count c batch).
      destruct (decide (c ∈ cohorts_of t)) as [Hin|]; [specialize (Hc c Hin); lia|]. specialize (F5 c). lia.
Qed.

(** A task fits an empty batch. *)
Lemma canAdd_first t : typed_task t → task_ok limits coh t → canAdd {| BResources := zero_resources; BCohorts := ∅ |} t limits = true.
Proof.
  intros (_ & _ & (T1 & T2 & T3 & T4 & _)) Hok. pose proof Hlimits as (_ & Hl1 & Hl2 & Hl3 & Hl4 & _ & Hcw). unfold uint in *.
  pose proof (tk_fit _ _ _ Hok) as Hfit. unfold resourcesFit in Hfit. bool_hyps. unfold canAdd. cbn [BResources BCohorts zero_resources CPUTimeMillis MemoryBytes StorageBytes Processes].
  rewrite !Z.sub_0_r, !wrap64_id, wrap32_id by (unfold uint; lia).
  rewrite !(proj2 (Z.ltb_ge _ _)) by done. cbn [orb]. apply forallb_forall. intros c Hin%list_elem_of_In.
  destruct (task_cohorts_inv _ _ _ (tk_cohorts _ _ _ Hok)) as [_ Hall]. rewrite Forall_forall in Hall.
  destruct (Hall c Hin) as (v & Hv & Hv0). destruct (cohorts_loop_inv _ _ _ _ _ Hcohorts) as (Hasc & _ & Hin').
  destruct (Hin' c v Hv) as [Hbad|(x & Hx & <- & <-)]; [by rewrite lookup_empty in Hbad|].
  fold (limit_cohorts limits). rewrite (cohortWorkers_found _ _ Hasc Hx). rewrite lookup_empty. cbn [default].
  rewrite Forall_forall in Hcw. specialize (Hcw x Hx). unfold uint in *.
  rewrite (proj2 (Z.eqb_neq _ _)) by done. rewrite (proj2 (Z.leb_gt _ _)) by (simpl; lia). done.
Qed.

(** What [nextBatch] returns: a prefix that fits and is affordable; it is empty
    only when the cost blocks the first task. *)
Lemma nextBatch_loop_spec tasks reservedCost res batch batchCost batch' cost' blocked :
  nextBatch_loop limits tasks reservedCost res batch batchCost = (batch', cost', blocked) →
  reserves limits res batch → Forall typed_task tasks → Forall (task_ok limits coh) tasks →
  0 ≤ reservedCost → batchCost = total (λ t, CostMicroUSD (TResources t)) batch → reservedCost + batchCost ≤ TotalCostMicroUSD limits →
  ∃ k, (k ≤ length tasks)%nat ∧ batch' = batch ++ take k tasks ∧ fits limits batch' ∧
    cost' = total (λ t, CostMicroUSD (TResources t)) batch' ∧ reservedCost + cost' ≤ TotalCostMicroUSD limits ∧ 0 ≤ cost' ∧
    (blocked = true → (k < length tasks)%nat) ∧
    (∀ t ts, tasks = t :: ts → blocked = false → Z.of_nat (length batch) < Workers limits → canAdd res t limits = true → (0 < k)%nat).
Proof.
  intros H Hr Hty Hok Hc0 Hbc Hle. revert res batch batchCost H Hr Hbc Hle.
  assert (0 ≤ TotalCostMicroUSD limits < 2 ^ 64) as Htot by (apply Hlimits).
  induction Hok as [|t tasks Ht Hok IH]; intros res batch batchCost H Hr Hbc Hle; cbn [nextBatch_loop] in H.
  - injection H as <- <- <-. exists 0%nat. rewrite take_0, app_nil_r. split_and!; try done; [apply (rv_fits _ _ _ Hr)|].
    rewrite Hbc. apply total_nonneg. eapply Forall_impl; [apply (rv_typed _ _ _ Hr)|]. intros x (_ & _ & (_ & _ & _ & _ & ?)). unfold uint in *. lia.
  - apply Forall_cons in Hty as [Htt Hty].
    assert (0 ≤ batchCost) as Hb0.
    { rewrite Hbc. apply total_nonneg. eapply Forall_impl; [apply (rv_typed _ _ _ Hr)|]. intros x (_ & _ & (_ & _ & _ & _ & ?)). unfold uint in *. lia. }
    assert (∀ b : bool, (batch, batchCost, b) = (batch', cost', blocked) →
      (0 ≤ length (t :: tasks))%nat ∧ batch' = batch ++ take 0 (t :: tasks) ∧ fits limits batch' ∧
      cost' = total (λ t, CostMicroUSD (TResources t)) batch' ∧ reservedCost + cost' ≤ TotalCostMicroUSD limits ∧ 0 ≤ cost' ∧
      (blocked = true → (0 < length (t :: tasks))%nat)) as Hstop.
    { intros b [= <- <- <-]. rewrite take_0, app_nil_r. split_and!; try done; [lia|apply (rv_fits _ _ _ Hr)|simpl; lia]. }
    destruct (negb (_ <? Workers limits)) eqn:Hw; [|destruct (wrap64 _ <? _) eqn:Hcost; [|destruct (negb (canAdd res t limits)) eqn:Hcan]].
    + exists 0%nat. destruct (Hstop _ H) as (?&?&?&?&?&?&?). split_and!; try done. intros ? ? _ _ ?. bool_hyps. lia.
    + exists 0%nat. destruct (Hstop _ H) as (?&?&?&?&?&?&?). split_and!; try done. intros ? ? _ ->. by simplify_eq.
    + exists 0%nat. destruct (Hstop _ H) as (?&?&?&?&?&?&?). split_and!; try done. intros ? ? [= <- <-] _ _ Hc. by rewrite Hc in Hcan.
    + bool_hyps. pose proof Htt as (_ & _ & (_ & _ & _ & _ & Hct)). unfold uint in Hct.
      rewrite !wrap64_id in Hcost by (rewrite ?wrap64_id; unfold uint; lia). rewrite wrap64_id in H by (unfold uint; lia).
      destruct (IH Hty _ _ _ H) as (k & Hk & -> & H1 & H2 & H3 & H4 & H5 & _).
      * by apply add_reserves.
      * rewrite total_app, total_one. lia.
      * lia.
      * exists (S k). rewrite <- app_assoc. cbn [app take length]. split_and!; try done; [lia|..|intros; lia].
        -- rewrite <- app_assoc in H1. done.
        -- rewrite <- app_assoc in H2. done.
        -- intros Hb. specialize (H5 Hb). lia.
Qed.


Lemma nextBatch_spec pending i j reservedCost batch next bc blocked :
  nextBatch limits pending i j reservedCost = (batch, next, bc, blocked) → Forall typed_task pending → Forall (task_ok limits coh) pending →
  (i < j ≤ length pending)%nat → 0 ≤ reservedCost ≤ TotalCostMicroUSD limits →
  next = (i + length batch)%nat ∧ (next ≤ j)%nat ∧ batch = slice pending i next ∧ fits limits batch ∧
  bc = total (λ t, CostMicroUSD (TResources t)) batch ∧ reservedCost + bc ≤ TotalCostMicroUSD limits ∧ 0 ≤ bc ∧
  (blocked = true → (next < j)%nat) ∧ (blocked = false → (0 < length batch)%nat).
Proof.
  unfold nextBatch. destruct (nextBatch_loop _ _ _ _ _ _) as [[b c] bl] eqn:Hl. intros [= <- <- <- <-] Hty Hok Hij Hc.
  pose proof (slice_length pending i j ltac:(lia)) as Hlen.
  assert (0 < Workers limits) as Hw by (unfold validLimits in Hvalid; bool_hyps; lia).
  destruct (nextBatch_loop_spec _ _ _ _ _ _ _ _ Hl) as (k & Hk & Hb & Hfit & Hcost & Hle & H0 & Hbl & Hpos).
  - constructor; try done; try constructor; try (cbn; pose proof Hlimits as (?&?&?&?&?&?&?); unfold uint in *; lia).
    intros cc. change (cohort_count cc []) with 0. by apply cohortWorkers_range.
  - unfold slice. by apply Forall_take, Forall_drop.
  - unfold slice. by apply Forall_take, Forall_drop.
  - lia.
  - done.
  - lia.
  - cbn [app] in Hb. assert (length b = k) as Hbk by (rewrite Hb, length_take; lia).
    split_and!; try done; try lia.
    + rewrite Hbk, Hb. unfold slice. rewrite take_take. f_equal. lia.
    + intros Ht. specialize (Hbl Ht). lia.
    + intros Hf. rewrite Hbk. destruct (slice pending i j) as [|t ts] eqn:Hs; [simpl in Hlen; lia|].
      apply (Hpos t ts); [done|done|simpl; lia|]. apply canAdd_first.
      * assert (Forall typed_task (slice pending i j)) as Hall by (unfold slice; by apply Forall_take, Forall_drop).
        rewrite Hs in Hall. by apply Forall_cons in Hall as [? _].
      * assert (Forall (task_ok limits coh) (slice pending i j)) as Hall by (unfold slice; by apply Forall_take, Forall_drop).
        rewrite Hs in Hall. by apply Forall_cons in Hall as [? _].
Qed.
End batches.

(** ** Counters *)

Lemma bump_bump a b c d e f a' b' c' d' e' f' r :
  bump a b c d e f (bump a' b' c' d' e' f' r) = bump (a' + a) (b' + b) (c' + c) (d' + d) (e' + e) (f' + f) r.
Proof. unfold bump, wrap32. cbn. by rewrite !Zplus_mod_idemp_l, !Z.add_assoc. Qed.

(** [s] tasks started and [c] completed, each with one outcome. *)
Record counts (r : Report) (s c : Z) : Prop := {
  ct_started : Started r = s;
  ct_completed : Completed r = c;
  ct_outcomes : Succeeded r + Failed r + Canceled r + Unknown r = c;
  ct_nonneg : 0 ≤ Succeeded r ∧ 0 ≤ Failed r ∧ 0 ≤ Canceled r ∧ 0 ≤ Unknown r
}.

Lemma count_one r s c o : counts r s c → 0 ≤ s < 2 ^ 31 → 0 ≤ c < 2 ^ 31 → outcome_valid o = true →
  let r' := countOutcome o (bump 0 1 0 0 0 0 r) in
  counts r' s (c + 1) ∧ Stop r' = Stop r ∧ Unknown r ≤ Unknown r'.
Proof.
  intros [H1 H2 H3 H4] Hs Hc Ho. cbv zeta. unfold countOutcome. unfold outcome_valid in Ho.
  assert (∀ z, 0 ≤ z ≤ c + 1 → wrap32 z = z) as Hw by (intros z Hz; apply wrap32_id; unfold uint; lia).
  assert (∀ a b d e, 0 ≤ a → 0 ≤ b → 0 ≤ d → 0 ≤ e → a + b + d + e = 1 →
    let r' := bump 0 0 a b d e (bump 0 1 0 0 0 0 r) in counts r' s (c + 1) ∧ Stop r' = Stop r ∧ Unknown r ≤ Unknown r') as Hbump.
  { intros a b d e Ha Hb Hd He Hsum. cbv zeta. cbn [bump Stop Unknown]. rewrite !Z.add_0_r.
    assert (wrap32 (wrap32 (Unknown r) + e) = Unknown r + e) as Hu by (rewrite (Hw (Unknown r)) by lia; apply Hw; lia).
    split; [|rewrite Hu; split; [done|lia]]. constructor; cbn [bump Started Completed Succeeded Failed Canceled Unknown]; rewrite ?Z.add_0_r, ?H1, ?H2, ?Hu.
    - rewrite (wrap32_id s) by (unfold uint; lia). apply wrap32_id. unfold uint. lia.
    - rewrite (Hw (c + 1)) by lia. apply Hw. lia.
    - rewrite (Hw (Succeeded r)), (Hw (Failed r)), (Hw (Canceled r)) by lia. rewrite !Hw by lia. lia.
    - rewrite (Hw (Succeeded r)), (Hw (Failed r)), (Hw (Canceled r)) by lia. rewrite !Hw by lia. lia. }
  destruct (eqt o OutcomeSucceeded); [by apply Hbump|]. destruct (eqt o OutcomeFailed); [by apply Hbump|].
  destruct (eqt o OutcomeCanceled); [by apply Hbump|]. destruct (eqt o OutcomeUnknown); [by apply Hbump|done].
Qed.

Lemma count_results_spec failure l r s c : counts r s c → 0 ≤ s < 2 ^ 31 → 0 ≤ c → c + Z.of_nat (length l) < 2 ^ 31 →
  Forall (λ x, outcome_valid (ROutcome x) = true) l →
  (∀ f x, failure = Some f → x ∈ l → TaskSHA256 (RTask x) ≠ TaskSHA256 f) →
  let r' := count_results failure l r in
  counts r' s (c + Z.of_nat (length l)) ∧ Stop r' = Stop r ∧ Unknown r ≤ Unknown r'.
Proof.
  intros Hr Hs Hc Hl Hv Hne. revert r c Hr Hc Hl. induction Hv as [|x l Hx Hv IH]; intros r c Hr Hc Hl.
  { cbn. rewrite Z.add_0_r. split_and!; [done..|lia]. }
  cbn [length] in Hl. destruct (count_one r s c _ Hr Hs ltac:(lia) Hx) as (H1 & H2 & H3).
  cbv zeta. unfold count_results. cbn [foldl length].
  assert (match failure with
    | Some f => if eqt (TaskSHA256 (RTask x)) (TaskSHA256 f) then r else countOutcome (ROutcome x) (bump 0 1 0 0 0 0 r)
    | None => countOutcome (ROutcome x) (bump 0 1 0 0 0 0 r) end = countOutcome (ROutcome x) (bump 0 1 0 0 0 0 r)) as ->.
  { destruct failure as [f|]; [|done]. rewrite (proj2 (eqt_false _ _)); [done|]. apply Hne; [done|left]. }
  destruct (IH ltac:(intros f y Hf Hy; apply Hne; [done|by right]) _ _ H1 ltac:(lia) ltac:(lia)) as (K1 & K2 & K3).
  replace (c + Z.of_nat (S (length l))) with (c + 1 + Z.of_nat (length l)) by lia.
  split; [exact K1|]. split; [by etrans|]. etrans; [exact H3|exact K3].
Qed.

(** ** One batch *)

Lemma start_loop_spec t tasks running failure t' : start_loop t tasks = (running, failure, t') →
  running ++ option_list failure = take (length running + length (option_list failure)) tasks ∧ (t ≤ t')%nat ∧
  (length running + length (option_list failure) ≤ length tasks)%nat ∧
  ((∃ t0, (t ≤ t0 < t')%nat ∧ parentCancelled t0 = true) ∨ failure ≠ None ∨ length running = length tasks).
Proof.
  revert t running. induction tasks as [|task tasks IH]; intros t running H; cbn [start_loop] in H.
  { injection H as <- <- <-. cbn. split_and!; [done|lia|lia|]. right. by right. }
  destruct (parentCancelled t) eqn:Hp; [|destruct (negb (starts t task))].
  - injection H as <- <- <-. cbn. split_and!; [done|lia|lia|]. left. exists t. split; [lia|done].
  - injection H as <- <- <-. cbn. rewrite take_0. split_and!; [done|lia|lia|]. right. by left.
  - destruct (start_loop (S t) tasks) as [[ru fa] t1] eqn:Hl. injection H as <- <- <-.
    destruct (IH _ _ Hl) as (H1 & H2 & H3 & H4). cbn [app length take plus]. split_and!; [by f_equal|lia|lia|].
    destruct H4 as [(t0 & ? & ?)|[?|?]]; [left; exists t0; split; [lia|done]|by right; left|right; right; lia].
Qed.

Hypothesis parent_stays : ∀ t t', (t ≤ t')%nat → parentCancelled t = true → parentCancelled t' = true.
Hypothesis arrives : ∀ t l, arrival t l ≡ₚ l.

Lemma executeTask_valid t e : outcome_valid (ROutcome (executeTask t e)) = true ∧ RTask (executeTask t e) = t.
Proof. destruct e as [o b|]; [|done]. unfold executeTask. destruct (outcome_valid o) eqn:Ho; [by split|done]. Qed.

Lemma receive_spec t cause order : RTask <$> receive t cause order = order ∧ Forall (λ x, outcome_valid (ROutcome x) = true) (receive t cause order).
Proof.
  revert t cause. induction order as [|task order IH]; intros t cause; [by split|]. cbn [receive]. cbv zeta.
  set (result := executeTask _ _). destruct (IH (S t) (if cancels result then cancel (CauseResult (Ordinal task)) (context_cause t cause) else context_cause t cause)) as [IH1 IH2].
  destruct (executeTask_valid task (executes t task (context_cause t cause))) as [Hv Ht]. fold result in Hv, Ht.
  rewrite fmap_cons, IH1, Ht. split; [done|]. by constructor.
Qed.

Definition batch_stopped (r : Report) : Prop :=
  Stop r = StopCanceled ∨ Stop r = StopTaskFailed ∨ (Stop r = StopStartFailed ∧ 0 < Unknown r).

Lemma result_stop_reason l i reason e : first_some (λ _, result_stop) i l = Some (reason, e) → reason = StopCanceled ∨ reason = StopTaskFailed.
Proof.
  intros (k & x & _ & Hx)%first_some_Some. unfold result_stop in Hx. destruct (eqt _ _); [injection Hx as <- _; by left|].
  destruct (_ || _); [injection Hx as <- _; by right|done].
Qed.

Lemma bump_counts r n m : counts r n n → 0 ≤ n → 0 ≤ m → n + m < 2 ^ 31 → counts (bump m 0 0 0 0 0 r) (n + m) n.
Proof.
  intros [H1 H2 H3 H4] Hn Hm Hb. constructor; cbn [bump Started Completed Succeeded Failed Canceled Unknown]; rewrite ?Z.add_0_r, ?H1, ?H2;
    rewrite !wrap32_id by (unfold uint; lia); lia.
Qed.

Lemma bump_failure r s n : counts r s n → 0 ≤ n ≤ s → s + 1 < 2 ^ 31 →
  counts (bump 1 1 0 0 0 1 r) (s + 1) (n + 1) ∧ Stop (bump 1 1 0 0 0 1 r) = Stop r ∧ 0 < Unknown (bump 1 1 0 0 0 1 r).
Proof.
  intros [H1 H2 H3 H4] Hn Hb. split; [|split; [done|cbn [bump Unknown]; rewrite wrap32_id by (unfold uint; lia); lia]].
  constructor; cbn [bump Started Completed Succeeded Failed Canceled Unknown]; rewrite ?Z.add_0_r, ?H1, ?H2;
    rewrite !wrap32_id by (unfold uint; lia); lia.
Qed.

Lemma NoDup_prefix {A : Type} (k : nat) (l : list A) : NoDup l → NoDup (take k l).
Proof. rewrite <- (take_drop k l) at 1. by intros (H & _ & _)%NoDup_app. Qed.

Lemma runBatch_spec tasks st st' e n : runBatch tasks st = (st', e) → NoDup (TaskSHA256 <$> tasks) →
  counts (rep st) n n → 0 ≤ n → n + Z.of_nat (length tasks) < 2 ^ 31 →
  ∃ k, (k ≤ length tasks)%nat ∧ batches st' = batches st ++ [take k tasks] ∧ counts (rep st') (n + Z.of_nat k) (n + Z.of_nat k) ∧
    cost st' = cost st ∧ (tick st < tick st')%nat ∧
    (e = None → k = length tasks ∧ Stop (rep st') = Stop (rep st)) ∧ (e ≠ None → batch_stopped (rep st')).
Proof.
  unfold runBatch. destruct (start_loop _ _) as [[running failure] t1] eqn:Hs. apply start_loop_spec in Hs as (Hpre & Ht & Hlen & Hend).
  intros H Hnd Hr Hn Hb. cbv zeta in H. set (results := receive _ _ _) in H.
  assert (Forall (λ x, outcome_valid (ROutcome x) = true) results ∧ RTask <$> results ≡ₚ running) as [Hov Hrt].
  { unfold results. split; [apply receive_spec|]. by rewrite (proj1 (receive_spec _ _ _)), arrives. }
  assert (length results = length running) as Hlr by (by rewrite <- Hrt, length_fmap).
  pose proof (bump_counts _ _ (Z.of_nat (length running)) Hr Hn ltac:(lia) ltac:(lia)) as Hstart.
  set (k := (length running + length (option_list failure))%nat) in *.
  set (r1 := bump (Z.of_nat (length running)) 0 0 0 0 0 (rep st)) in *.
  (* counting the collected results *)
  assert (∃ r collected, (match failure with
      | Some f => (bump 1 1 0 0 0 1 r1, results ++ [{| RTask := f; ROutcome := OutcomeUnknown; RErr := true |}])
      | None => (r1, results) end) = (r, collected) ∧
    counts (count_results failure collected r) (n + Z.of_nat k) (n + Z.of_nat k) ∧ Stop (count_results failure collected r) = Stop (rep st) ∧
    (failure ≠ None → 0 < Unknown (count_results failure collected r))) as (r & collected & Heq & Hc & Hstop & Hunk).
  { destruct failure as [f|]; eexists _, _; (split; [reflexivity|]).
    - destruct (bump_failure r1 _ n Hstart ltac:(lia) ltac:(unfold k in Hlen; simpl in Hlen; lia)) as (F1 & F2 & F3).
      unfold count_results. rewrite foldl_app. cbn [foldl]. rewrite eqt_refl.
      destruct (count_results_spec (Some f) results _ _ _ F1 ltac:(unfold k in Hlen; simpl in Hlen; lia) ltac:(lia) ltac:(unfold k in Hlen; simpl in Hlen; lia) Hov) as (G1 & G2 & G3).
      + intros f' x [= <-] Hx Heq. apply (f_equal (fmap TaskSHA256)) in Hpre.
        assert (NoDup (TaskSHA256 <$> (running ++ [f]))) as Hd.
        { change (option_list (Some f)) with [f] in Hpre. rewrite Hpre, fmap_take. by apply NoDup_prefix. }
        rewrite fmap_app in Hd. apply NoDup_app in Hd as (_ & Hd & _). apply (Hd (TaskSHA256 f)); [|by apply list_elem_of_singleton].
        rewrite <- Heq, <- Hrt. by do 2 apply list_elem_of_fmap_2.
      + unfold k in *. simpl length in *. rewrite Hlr in G1.
        replace (n + Z.of_nat (length running) + 1) with (n + Z.of_nat (length running + 1)) in G1 by lia.
        replace (n + 1 + Z.of_nat (length running)) with (n + Z.of_nat (length running + 1)) in G1 by lia.
        split; [exact G1|]. split; [exact (eq_trans G2 F2)|]. intros _. exact (Z.lt_le_trans _ _ _ F3 G3).
    - destruct (count_results_spec None results r1 _ _ Hstart ltac:(lia) ltac:(lia) ltac:(lia) Hov ltac:(done)) as (G1 & G2 & G3).
      unfold k in *. cbn [option_list length] in *. rewrite Hlr in G1. rewrite Nat.add_0_r in *. split; [exact G1|]. by split. }
  rewrite Heq in H.
  assert (running ++ match failure with Some f => [f] | None => [] end = take k tasks) as Hbat by (rewrite <- Hpre; by destruct failure).
  rewrite Hbat in H. exists k. split; [lia|].
  assert (∀ reason (e' : option runError), e' ≠ None → (st', e) =
      ({| rep := set_stop reason (count_results failure collected r); cost := cost st; tick := S (t1 + length running); batches := batches st ++ [take k tasks] |}, e') →
    reason = StopCanceled ∨ reason = StopTaskFailed ∨ (reason = StopStartFailed ∧ failure ≠ None) →
    batches st' = batches st ++ [take k tasks] ∧ counts (rep st') (n + Z.of_nat k) (n + Z.of_nat k) ∧
    cost st' = cost st ∧ (tick st < tick st')%nat ∧
    (e = None → k = length tasks ∧ Stop (rep st') = Stop (rep st)) ∧ (e ≠ None → batch_stopped (rep st'))) as Hfin.
  { intros reason e' Hne [= -> ->] Hreason. cbn [rep batches cost tick]. split; [done|]. split; [by destruct Hc|]. split; [done|].
    split; [lia|]. split; [done|]. intros _. unfold batch_stopped. cbn [set_stop Stop Unknown].
    destruct Hreason as [->|[->|[-> Hf]]]; [by left|by right; left|right; right; split; [done|by apply Hunk]]. }
  destruct (parentCancelled (t1 + length running)) eqn:Hp; [by eapply Hfin; [|symmetry; exact H|left]|].
  destruct failure as [f|]; [by eapply Hfin; [|symmetry; exact H|right; right]|].
  destruct (first_some _ _ _) as [[reason e']|] eqn:Hf; [eapply Hfin; [|symmetry; exact H|]; [done|]; apply result_stop_reason in Hf; tauto|].
  injection H as <- <-. cbn [rep batches cost tick]. split; [done|]. split; [exact Hc|]. split; [done|]. split; [lia|].
  split; [|done]. intros _. split; [|done]. destruct Hend as [(t0 & Ht0 & Hp0)|[?|Hl]]; [|done|unfold k; cbn [option_list length]; lia].
  rewrite (parent_stays t0 (t1 + length running)%nat ltac:(lia) Hp0) in Hp. done.
Qed.

(** ** The dispatch loops *)

Definition one_round (batch : list Task) : Prop := ∀ t u, t ∈ batch → u ∈ batch → Round t = Round u.

Lemma round_span_le r l : (round_span r l ≤ length l)%nat.
Proof. induction l as [|t l IH]; [done|]. cbn [round_span length]. destruct (_ =? _); lia. Qed.

Lemma round_span_spec r l t : t ∈ take (round_span r l) l → Round t = r.
Proof.
  induction l as [|x l IH]; [by intros ?%not_elem_of_nil|]. cbn [round_span]. destruct (Round x =? r) eqn:Hx; [|by intros ?%not_elem_of_nil].
  cbn [take]. bool_hyps. intros [->|H]%elem_of_cons; [done|by apply IH].
Qed.

Lemma fits_prefix limits k batch : Forall typed_task batch → fits limits batch → fits limits (take k batch).
Proof.
  intros Hty. assert (∀ f, (∀ t, typed_task t → 0 ≤ f t) → total f (take k batch) ≤ total f batch) as Hle.
  { intros f Hf. rewrite <- (take_drop k batch) at 2. rewrite total_app.
    assert (0 ≤ total f (drop k batch)); [|lia]. apply total_nonneg, Forall_drop. by eapply Forall_impl. }
  intros [F1 F2 F3 F4 F5 F6]. constructor.
  - rewrite length_take. lia.
  - etrans; [apply Hle|exact F2]. intros t (_ & _ & (? & ? & ? & ? & ?)). unfold uint in *. lia.
  - etrans; [apply Hle|exact F3]. intros t (_ & _ & (? & ? & ? & ? & ?)). unfold uint in *. lia.
  - etrans; [apply Hle|exact F4]. intros t (_ & _ & (? & ? & ? & ? & ?)). unfold uint in *. lia.
  - etrans; [apply Hle|exact F5]. intros t (_ & _ & (? & ? & ? & ? & ?)). unfold uint in *. lia.
  - intros c. etrans; [apply Hle|exact (F6 c)]. intros t _. destruct (decide _); lia.
Qed.

Definition cost_of (l : list Task) : Z := total (λ t, CostMicroUSD (TResources t)) l.

Lemma cost_nonneg l : Forall typed_task l → 0 ≤ cost_of l.
Proof. intros H. apply total_nonneg. eapply Forall_impl; [exact H|]. intros t (_ & _ & (_ & _ & _ & _ & ?)). unfold uint in *. lia. Qed.

Lemma counts_set_stop reason r a b : counts r a b → counts (set_stop reason r) a b.
Proof. by intros []. Qed.

Section loops.
Context (limits : Limits) (coh : gmap text Z) (pending : list Task) (done : nat) (doneCost : Z).
Hypothesis Hlimits : typed_limits limits.
Hypothesis Hvalid : validLimits limits = true.
Hypothesis Hcohorts : cohorts_loop (Workers limits) None (limit_cohorts limits) ∅ = Some coh.
Hypothesis Htyped : Forall typed_task pending.
Hypothesis Hok : Forall (task_ok limits coh) pending.
Hypothesis Hnodup : NoDup (TaskSHA256 <$> pending).
Hypothesis Hcount : (done + length pending ≤ N.to_nat 4096)%nat.
Hypothesis HdoneCost : 0 ≤ doneCost.

(** The first [i] pending tasks were dispatched, in admissible batches. *)
Record dispatched (i : nat) (st : state) : Prop := {
  dp_index : (i ≤ length pending)%nat;
  dp_log : concat (batches st) = take i pending;
  dp_counts : counts (rep st) (Z.of_nat (done + i)) (Z.of_nat (done + i));
  dp_cost : doneCost + cost_of (take i pending) ≤ TotalCostMicroUSD limits;
  dp_batches : Forall (λ b, fits limits b ∧ one_round b) (batches st)
}.
(** ... and all of them were charged. *)
Definition running (i : nat) (st : state) : Prop :=
  dispatched i st ∧ cost st = doneCost + cost_of (take i pending) ∧ Stop (rep st) = StopNone.

(** Dispatch ended early after [i] tasks. *)
Definition stopped (i : nat) (st : state) : Prop :=
  dispatched i st ∧ (batch_stopped (rep st) ∨ (Stop (rep st) = StopCostExhausted ∧ (i < length pending)%nat)).

Lemma take_slice i j : (i ≤ j)%nat → take j pending = take i pending ++ slice pending i j.
Proof. intros H. rewrite <- !slice_from_start, slice_app by lia. done. Qed.


Lemma Forall_slice (P : Task → Prop) i j : Forall P pending → Forall P (slice pending i j).
Proof. intros H. unfold slice. by apply Forall_take, Forall_drop. Qed.

Lemma NoDup_slice i j : NoDup (TaskSHA256 <$> slice pending i j).
Proof.
  unfold slice. rewrite fmap_take, fmap_drop. apply NoDup_prefix. rewrite <- (take_drop i (TaskSHA256 <$> pending)) in Hnodup.
  by apply NoDup_app in Hnodup as (_ & _ & ?).
Qed.

Lemma take_slice_prefix i next k : (k ≤ next - i)%nat → take k (slice pending i next) = slice pending i (i + k).
Proof. intros Hk. unfold slice. rewrite take_take. f_equal. lia. Qed.

Lemma cost_take_le i j : (i ≤ j)%nat → cost_of (take i pending) ≤ cost_of (take j pending).
Proof.
  intros Hij. rewrite (take_slice i j Hij). unfold cost_of at 2. rewrite total_app. fold (cost_of (slice pending i j)).
  pose proof (cost_nonneg _ (Forall_slice _ i j Htyped)). unfold cost_of in *. lia.
Qed.

(** A batch [i .. i + k) more was dispatched. *)
Lemma dispatched_batch i j next k st st' : dispatched i st → (i ≤ next ≤ j)%nat → (j ≤ length pending)%nat → one_round (slice pending i j) →
  fits limits (slice pending i next) → doneCost + cost_of (take next pending) ≤ TotalCostMicroUSD limits → (k ≤ next - i)%nat →
  batches st' = batches st ++ [take k (slice pending i next)] →
  counts (rep st') (Z.of_nat (done + i) + Z.of_nat k) (Z.of_nat (done + i) + Z.of_nat k) → dispatched (i + k) st'.
Proof.
  intros [D1 D2 D3 D4 D5] Hi Hj Hround Hfit Hcost Hk Hbat Hcnt. rewrite take_slice_prefix in Hbat by done. constructor.
  - lia.
  - rewrite Hbat, concat_app, D2. cbn [concat]. rewrite app_nil_r. symmetry. apply take_slice. lia.
  - by replace (Z.of_nat (done + (i + k))) with (Z.of_nat (done + i) + Z.of_nat k) by lia.
  - pose proof (cost_take_le (i + k) next ltac:(lia)). lia.
  - rewrite Hbat. apply Forall_app. split; [done|]. constructor; [|constructor]. split.
    + rewrite <- (take_slice_prefix i next k) by done. apply fits_prefix; [by apply Forall_slice|done].
    + intros t u Ht Hu. apply Hround; rewrite <- (slice_app pending i (i + k) j) by lia; apply elem_of_app; by left.
Qed.

Lemma round_loop_spec fuel i j st i' st' e : round_loop fuel limits pending i j st = (i', st', e) → (j ≤ i + fuel)%nat → (i ≤ j ≤ length pending)%nat →
  one_round (slice pending i j) → running i st →
  match e with None => i' = j ∧ running j st' | Some _ => ∃ k, stopped k st' end.
Proof.
  revert i st. induction fuel as [|fuel IH]; intros i st H Hf Hij Hround Hrun; cbn [round_loop] in H.
  { injection H as <- <- <-. assert (i = j) as -> by lia. done. }
  destruct (i <? j)%nat eqn:Hlt; bool_hyps; [|injection H as <- <- <-; assert (i = j) as -> by lia; done].
  destruct (nextBatch limits pending i j (cost st)) as [[[batch next] bc] blocked] eqn:Hnb.
  destruct Hrun as (Hd & Hcost & Hstop). pose proof (cost_nonneg _ (Forall_take _ i _ Htyped)) as Hc0.
  destruct (nextBatch_spec limits coh Hlimits Hvalid Hcohorts _ _ _ _ _ _ _ _ Hnb Htyped Hok ltac:(lia)
    ltac:(rewrite Hcost; pose proof (dp_cost _ _ Hd); lia)) as (Hnext & Hnj & Hbatch & Hfit & Hbc & Hle & Hbc0 & Hbl & Hnbl).
  assert ((length batch =? 0)%nat = true → blocked = true) as Hempty.
  { intros Hz. bool_hyps. destruct blocked; [done|]. specialize (Hnbl eq_refl). lia. }
  destruct (blocked && (length batch =? 0)%nat) eqn:H1.
  { injection H as <- <- <-. exists i. split; [destruct Hd; constructor; try done; by apply counts_set_stop|]. right. split; [done|]. lia. }
  destruct (length batch =? 0)%nat eqn:H2; [by rewrite Hempty in H1|]. bool_hyps.
  set (st1 := {| rep := rep st; cost := _; tick := tick st; batches := batches st |}) in H.
  destruct (runBatch batch st1) as [st2 be] eqn:Hrb.
  assert (cost_of (take next pending) = cost_of (take i pending) + bc) as Htn.
  { rewrite (take_slice i next) by lia. unfold cost_of. rewrite total_app. by rewrite Hbc, Hbatch. }
  assert (length batch = (next - i)%nat) as Hlb by lia.
  destruct (runBatch_spec batch st1 st2 be (Z.of_nat (done + i)) Hrb) as (k & Hk & Hbat & Hcnt & Hcst & _ & Hnone & Hsome).
  { rewrite Hbatch. apply NoDup_slice. }
  { apply (dp_counts _ _ Hd). }
  { lia. }
  { lia. }
  rewrite Hbatch in Hbat.
  assert (dispatched (i + k) st2) as Hd2.
  { eapply (dispatched_batch i j next k st st2); try done; [lia|lia|by rewrite <- Hbatch|lia|lia]. }
  destruct be as [e'|].
  { injection H as <- <- <-. exists (i + k)%nat. split; [done|]. left. by apply Hsome. }
  destruct (Hnone eq_refl) as [Hkl Hst]. assert (i + k = next)%nat as Hin by lia. rewrite Hin in Hd2.
  assert (running next st2) as Hrun2.
  { split; [done|]. split; [|by rewrite Hst]. rewrite Hcst. cbn [st1 cost]. rewrite wrap64_id; [lia|].
    unfold uint. destruct Hlimits as (_ & _ & _ & _ & _ & ? & _). unfold uint in *. lia. }
  destruct blocked.
  - injection H as <- <- <-. exists next. destruct Hrun2 as (_ & _ & _).
    split; [destruct Hd2; constructor; try done; by apply counts_set_stop|]. right. split; [done|]. specialize (Hbl eq_refl). lia.
  - eapply IH; [exact H|lia|lia| |exact Hrun2]. intros t u Ht Hu.
    apply Hround; rewrite <- (slice_app pending i next j) by lia; apply elem_of_app; by right.
Qed.

Lemma dispatch_loop_spec fuel i st st' e : dispatch_loop fuel limits pending i st = (st', e) → (length pending < i + fuel)%nat → (i ≤ length pending)%nat →
  running i st → match e with None => running (length pending) st' | Some _ => ∃ k, stopped k st' end.
Proof.
  revert i st. induction fuel as [|fuel IH]; intros i st H Hf Hi Hrun; [lia|]. cbn [dispatch_loop] in H.
  destruct (pending !! i) as [task|] eqn:Ht; cycle 1.
  { injection H as <- <-. apply lookup_ge_None_1 in Ht. by assert (i = length pending) as <- by lia. }
  destruct (parentCancelled (tick st)).
  { injection H as <- <-. exists i. destruct Hrun as ([] & _ & _). split; [constructor; try done; by apply counts_set_stop|]. left. by left. }
  pose proof (lookup_lt_Some _ _ _ Ht) as Hil. set (sp := round_span (Round task) (drop i pending)) in *.
  pose proof (round_span_le (Round task) (drop i pending)) as Hsp. fold sp in Hsp. rewrite length_drop in Hsp.
  destruct (round_loop _ _ _ _ _ _) as [[i' st1] e1] eqn:Hr.
  assert (one_round (slice pending i (i + sp))) as Hround.
  { unfold one_round, slice. replace (i + sp - i)%nat with sp by lia.
    by intros t u ->%round_span_spec ->%round_span_spec. }
  pose proof (round_loop_spec _ _ _ _ _ _ _ Hr ltac:(lia) ltac:(lia) Hround) as Hspec.
  destruct e1 as [e1|]; [injection H as <- <-; apply Hspec; by destruct Hrun as ([] & ? & ?)|].
  destruct Hspec as [-> Hrun1]; [by destruct Hrun as ([] & ? & ?)|].
  eapply IH; [exact H| |lia|exact Hrun1].
  assert (0 < sp)%nat; [|lia]. unfold sp. rewrite (drop_S _ _ _ Ht). cbn [round_span]. rewrite Z.eqb_refl. lia.
Qed.
End loops.

(** ** Admission *)

(** What a validated plan guarantees. *)
Record plan_ok (plan : Plan) (coh : gmap text Z) : Prop := {
  pk_limits : validLimits (PLimits plan) = true;
  pk_cohorts : cohorts_loop (Workers (PLimits plan)) None (limit_cohorts (PLimits plan)) ∅ = Some coh;
  pk_tasks : Forall (task_ok (PLimits plan) coh) (Tasks plan);
  pk_ids : NoDup (TaskSHA256 <$> Tasks plan);
  pk_ordinals : NoDup (Ordinal <$> Tasks plan);
  pk_rounds : StronglySorted round_le (Tasks plan);
  pk_count : (length (Tasks plan) ≤ N.to_nat 4096)%nat
}.

Lemma ValidatePlan_inv plan : ValidatePlan plan = true → ∃ coh, plan_ok plan coh.
Proof.
  unfold ValidatePlan, validatePlanShape. destruct (_ || negb (validLimits _)) eqn:Hg; [done|].
  destruct (cohorts_loop _ _ _ _) as [coh|] eqn:Hc; [|done]. destruct (tasks_loop _ _ _ _ _ _ _) as [so|] eqn:Ht; [|done]. intros _.
  destruct (tasks_loop_inv _ _ _ _ _ _ _ _ Ht) as (H1 & H2 & _ & H3 & _ & H4 & _). exists coh. bool_hyps. unfold MaxTasks in *.
  constructor; try done. lia.
Qed.

Lemma filter_ext_elem {A : Type} (P Q : A → Prop) `{!∀ x, base.Decision (P x), !∀ x, base.Decision (Q x)} (l : list A) :
  (∀ x, x ∈ l → P x ↔ Q x) → filter P l = filter Q l.
Proof.
  induction l as [|x l IH]; intros Hpq; [done|]. rewrite !filter_cons.
  rewrite (decide_ext (P x) (Q x)) by (apply Hpq; left). rewrite IH by (intros y Hy; apply Hpq; by right). done.
Qed.

Definition is_terminal (terminal : list TerminalTask) (t : Task) : Prop := TaskSHA256 t ∈ XTaskSHA256 <$> terminal.

#[export] Instance is_terminal_dec terminal t : base.Decision (is_terminal terminal t).
Proof. unfold is_terminal. apply _. Defined.

Lemma admit_loop_spec limits tasks terminal done r c done' r' c' m :
  admit_loop limits tasks terminal done r c = Ok (done', r', c') →
  NoDup (TaskSHA256 <$> tasks) → Forall typed_task tasks → uint 64 (TotalCostMicroUSD limits) →
  counts r m m → 0 ≤ m → m + Z.of_nat (length tasks) < 2 ^ 31 → 0 ≤ c ≤ TotalCostMicroUSD limits →
  counts r' (m + Z.of_nat (length terminal)) (m + Z.of_nat (length terminal)) ∧ Stop r' = Stop r ∧
  (∀ id, is_Some (done' !! id) ↔ is_Some (done !! id) ∨ id ∈ XTaskSHA256 <$> terminal) ∧
  (∀ id, id ∈ XTaskSHA256 <$> terminal → id ∈ TaskSHA256 <$> tasks) ∧
  length (filter (is_terminal terminal) tasks) = length terminal ∧
  c' = c + cost_of (filter (is_terminal terminal) tasks) ∧ c' ≤ TotalCostMicroUSD limits.
Proof.
  intros H Hnd Hty Htot. revert terminal done r c m H. induction tasks as [|t tasks IH]; intros terminal done r c m H Hr Hm Hb Hc; cbn [admit_loop] in H.
  { destruct terminal; [|done]. injection H as <- <- <-. cbn [length]. rewrite Z.add_0_r. split_and!; try done; try lia.
    - intros id. rewrite fmap_nil. split; [by left|]. by intros [?|?%not_elem_of_nil].
    - change (cost_of (filter (is_terminal []) [])) with 0. lia. }
  rewrite fmap_cons in Hnd. apply NoDup_cons in Hnd as [Hnotin Hnd]. apply Forall_cons in Hty as [Htt Hty]. cbn [length] in Hb.
  (* the head task is not terminal *)
  assert (∀ term, (∀ id, id ∈ XTaskSHA256 <$> term → id ∈ TaskSHA256 <$> tasks) →
    filter (is_terminal term) (t :: tasks) = filter (is_terminal term) tasks) as Hskip.
  { intros term Hsub. rewrite filter_cons, decide_False; [done|]. intros Ht. by apply Hnotin, Hsub. }
  assert (admit_loop limits tasks terminal done r c = Ok (done', r', c') →
    counts r' (m + Z.of_nat (length terminal)) (m + Z.of_nat (length terminal)) ∧ Stop r' = Stop r ∧
    (∀ id, is_Some (done' !! id) ↔ is_Some (done !! id) ∨ id ∈ XTaskSHA256 <$> terminal) ∧
    (∀ id, id ∈ XTaskSHA256 <$> terminal → id ∈ TaskSHA256 <$> t :: tasks) ∧
    length (filter (is_terminal terminal) (t :: tasks)) = length terminal ∧
    c' = c + cost_of (filter (is_terminal terminal) (t :: tasks)) ∧ c' ≤ TotalCostMicroUSD limits) as Hrest.
  { intros H'. destruct (IH Hnd Hty _ _ _ _ _ H' Hr Hm ltac:(lia) Hc) as (?&?&?&Hsub&?&?&?). rewrite Hskip by done.
    split_and!; try done. intros id Hid. rewrite fmap_cons. right. by apply Hsub. }
  destruct terminal as [|item terminal']; [by apply Hrest|]. destruct (negb (eqt _ _)) eqn:He; [by apply Hrest|]. clear Hrest.
  destruct (_ || _) eqn:Hg in H; [done|]. bool_hyps. match goal with H : eqt _ _ = true |- _ => apply eqt_true in H; rename H into Heq end.
  pose proof Htt as (_ & _ & (_ & _ & _ & _ & Hct)). unfold uint in Hct, Htot.
  rewrite wrap64_id in * by (unfold uint; lia).
  assert (wrap64 (c + CostMicroUSD (TResources t)) = c + CostMicroUSD (TResources t)) as Hw by (apply wrap64_id; unfold uint; lia).
  rewrite Hw in H.
  destruct (count_one (bump 1 0 0 0 0 0 r) (m + 1) m (XOutcome item) (bump_counts r m 1 Hr Hm ltac:(lia) ltac:(lia)) ltac:(lia) ltac:(lia) ltac:(done)) as (Hcnt & Hst & _).
  assert (bump 1 1 0 0 0 0 r = bump 0 1 0 0 0 0 (bump 1 0 0 0 0 0 r)) as Hbb.
  { by rewrite bump_bump. }
  rewrite Hbb in H. destruct (IH Hnd Hty _ _ _ _ _ H Hcnt ltac:(lia) ltac:(lia) ltac:(lia)) as (I1 & I2 & I3 & I4 & I5 & I6 & I7).
  assert (filter (is_terminal (item :: terminal')) (t :: tasks) = t :: filter (is_terminal terminal') tasks) as Hfil.
  { rewrite filter_cons, decide_True; [|unfold is_terminal; rewrite fmap_cons, Heq; left]. f_equal.
    apply filter_ext_elem. intros x Hx. unfold is_terminal. rewrite fmap_cons, elem_of_cons, Heq. split; [|by right].
    intros [Hxt|?]; [|done]. exfalso. apply Hnotin. rewrite <- Hxt. by apply list_elem_of_fmap_2. }
  rewrite Hfil. cbn [length]. split_and!.
  - by replace (m + Z.of_nat (S (length terminal'))) with (m + 1 + Z.of_nat (length terminal')) by lia.
  - rewrite I2. by rewrite Hst.
  - intros id. rewrite I3, fmap_cons, elem_of_cons. destruct (decide (id = XTaskSHA256 item)) as [->|Hne].
    + rewrite lookup_insert_eq. split; [intros _; right; by left|]. intros _. left. by eexists.
    + rewrite lookup_insert_ne by done. naive_solver.
  - intros id. rewrite !fmap_cons, !elem_of_cons, Heq. intros [->|Hid]; [by left|right; by apply I4].
  - by rewrite I5.
  - rewrite I6. change (cost_of (t :: filter (is_terminal terminal') tasks)) with
      (CostMicroUSD (TResources t) + cost_of (filter (is_terminal terminal') tasks)). lia.
  - done.
Qed.

(** ** Sealing *)

Lemma sealed_digest domain value : validSHA256 (digest domain value) = true.
Proof. unfold validSHA256, digest. set (sum := sha256 _). destruct (hex_digest sum) as [-> ->]. done. Qed.

(** The stop reasons a report with [n] of [m] tasks may carry. *)
Definition stop_ok (r : Report) (n m : Z) : Prop :=
  (Stop r = StopNone ∧ n = m) ∨ batch_stopped r ∨ (Stop r = StopCostExhausted ∧ n < m).

Lemma SealReport_ok plan r n m : ValidatePlan plan = true → counts r n n → 0 ≤ n ≤ m → m = Z.of_nat (length (Tasks plan)) → m < 2 ^ 31 →
  stop_ok r n m → ∃ sealed, SealReport plan r = Some sealed ∧ ValidateReport plan sealed = true ∧ RPlanSHA256 sealed = PlanSHA256 plan ∧
    Queued sealed = m ∧ Started sealed = n ∧ NeverStarted sealed = m - n ∧ counts sealed n n ∧ Stop sealed = Stop r.
Proof.
  intros Hv [C1 C2 C3 C4] Hn Hm Hb Hstop. unfold SealReport. rewrite Hv, <- Hm. cbn [negb].
  assert (wrap32 m = m) as Hwm by (apply wrap32_id; unfold uint; lia).
  assert (wrap32 (m - n) = m - n) as Hwn by (apply wrap32_id; unfold uint; lia).
  assert (wrap64 (Succeeded r + Failed r + Canceled r + Unknown r) = n) as Hwo by (rewrite C3; apply wrap64_id; unfold uint; lia).
  rewrite C1, C2, Hwm, Hwn. set (c := Build_Report _ _ _ _ _ _ _ _ _ _ _ _ _ _).
  assert (stop_valid (Stop r) && negb (eqt (Stop r) StopNone && negb (n =? m)) &&
    negb (eqt (Stop r) StopCostExhausted && (m - n =? 0)) && negb (eqt (Stop r) StopStartFailed && (Unknown r =? 0)) = true) as Hst.
  { destruct Hstop as [[-> ->]|[[->|[->|[-> Hu]]]|[-> Hlt]]]; [by rewrite Z.eqb_refl|done|done|..].
    - by rewrite (proj2 (Z.eqb_neq (Unknown r) 0)) by lia.
    - by rewrite (proj2 (Z.eqb_neq (m - n) 0)) by lia. }
  repeat (apply andb_true_iff in Hst as [Hst ?]).
  repeat match goal with H : negb _ = true |- _ => apply negb_true_iff in H end.
  assert (∀ d q, (q = true → validSHA256 d = true) → (q = false → d = []) →
    validateReportShape plan (set_report_digest d c) q = negb q || eqt (report_identity (set_report_digest d c)) d) as Hshape.
  { intros d q Hq1 Hq0. unfold validateReportShape. rewrite Hv, <- Hm, Hwm.
    cbn [c set_report_digest RSchema RSchemaVersion RContractVersion RPlanSHA256 Queued Started Completed Succeeded Failed Canceled Unknown NeverStarted Stop ReportSHA256].
    rewrite Hwo, Hwn, !eqt_refl, !Z.eqb_refl, Hst. rewrite (proj2 (Z.ltb_ge m n)) by lia.
    repeat match goal with H : _ && _ = false |- _ => rewrite H end. cbn [negb orb andb].
    destruct q; [by rewrite Hq1|]. rewrite Hq0 by done. by rewrite eqt_refl. }
  change (validateReportShape plan c false) with (validateReportShape plan (set_report_digest [] c) false).
  rewrite (Hshape [] false (λ H, False_ind _ (diff_false_true H)) (λ _, eq_refl)). cbn [negb orb].
  assert (ValidateReport plan (set_report_digest (report_identity c) c) = true) as Hvr.
  { unfold ValidateReport. rewrite (Hshape (report_identity c) true (λ _, sealed_digest _ _) (λ H, False_ind _ (diff_true_false H))).
    change (report_identity (set_report_digest _ c)) with (report_identity c). by rewrite eqt_refl. }
  rewrite Hvr. eexists. split; [reflexivity|]. split_and!; try done.
Qed.

(** ** Runs *)


(** ** Runs *)

Definition not_terminal (terminal : list TerminalTask) (t : Task) : Prop := ¬ is_terminal terminal t.

#[export] Instance not_terminal_dec terminal t : base.Decision (not_terminal terminal t).
Proof. unfold not_terminal. apply _. Defined.

(** The planned complement of the terminal tasks, in plan order. *)
Definition complement (plan : Plan) (terminal : list TerminalTask) : list Task := filter (not_terminal terminal) (Tasks plan).
Definition terminal_cost (plan : Plan) (terminal : list TerminalTask) : Z := cost_of (filter (is_terminal terminal) (Tasks plan)).

Lemma complement_length plan terminal :
  (length (filter (is_terminal terminal) (Tasks plan)) + length (complement plan terminal))%nat = length (Tasks plan).
Proof.
  unfold complement. induction (Tasks plan) as [|t l IH]; [done|]. rewrite !filter_cons. unfold not_terminal at 1.
  destruct (decide (is_terminal terminal t)) as [Ht|Ht].
  - rewrite decide_False by (intros Hn; by apply Hn). cbn [length]. lia.
  - rewrite decide_True by done. cbn [length]. lia.
Qed.

Lemma NoDup_fmap_filter {A B : Type} (f : A → B) (P : A → Prop) `{!∀ x, base.Decision (P x)} (l : list A) : NoDup (f <$> l) → NoDup (f <$> filter P l).
Proof.
  induction l as [|x l IH]; [done|]. rewrite fmap_cons, filter_cons. intros [Hx Hl]%NoDup_cons. destruct (decide _); [|by apply IH].
  rewrite fmap_cons. constructor; [|by apply IH]. intros (y & Hy & [_ Hin]%list_elem_of_filter)%list_elem_of_fmap.
  apply Hx. rewrite Hy. by apply list_elem_of_fmap_2.
Qed.

Lemma Forall_filter {A : Type} (Q P : A → Prop) `{!∀ x, base.Decision (P x)} (l : list A) : Forall Q l → Forall Q (filter P l).
Proof. rewrite !Forall_forall. intros Hq x [_ Hx]%list_elem_of_filter. by apply Hq. Qed.

Lemma StronglySorted_filter {A : Type} (R : relation A) (P : A → Prop) `{!∀ x, base.Decision (P x)} (l : list A) :
  StronglySorted R l → StronglySorted R (filter P l).
Proof. induction 1; [constructor|]. rewrite filter_cons. destruct (decide _); [|done]. constructor; [done|]. by apply Forall_filter. Qed.

Lemma StronglySorted_take {A : Type} (R : relation A) (k : nat) (l : list A) : StronglySorted R l → StronglySorted R (take k l).
Proof. intros Hl. revert k. induction Hl; intros [|k]; [constructor..|]. cbn [take]. constructor; [done|]. by apply Forall_take. Qed.

(** How a run ends: [k] of the [n] pending tasks were dispatched. *)
Definition run_end (r : Report) (err : option runError) (k n : nat) : Prop :=
  match err with
  | None => Stop r = StopNone ∧ k = n
  | Some _ => batch_stopped r ∨ (Stop r = StopCostExhausted ∧ (k < n)%nat)
  end.

(** What admission establishes. *)
Lemma admit_ok plan terminal done r c : typed_plan plan → ValidatePlan plan = true → admitTerminalTasks plan terminal = Ok (done, r, c) →
  length (filter (is_terminal terminal) (Tasks plan)) = length terminal ∧
  pending_tasks plan done = complement plan terminal ∧
  counts r (Z.of_nat (length terminal)) (Z.of_nat (length terminal)) ∧ Stop r = StopNone ∧
  c = terminal_cost plan terminal ∧ 0 ≤ c ≤ TotalCostMicroUSD (PLimits plan).
Proof.
  intros [Hl Ht] Hv Had. destruct (ValidatePlan_inv _ Hv) as (coh & [_ _ _ K4 _ _ K7]). unfold admitTerminalTasks in Had.
  assert (counts (set_stop StopNone zero_report) 0 0) as Hz by (by constructor).
  destruct (admit_loop_spec _ _ _ _ _ _ _ _ _ 0 Had K4 Ht ltac:(apply Hl) Hz ltac:(lia) ltac:(lia)
    ltac:(destruct Hl as (_&_&_&_&_&Hu&_); unfold uint in Hu; lia)) as (A1 & A2 & A3 & _ & A5 & A6 & A7).
  assert (0 ≤ terminal_cost plan terminal) by (by apply cost_nonneg, Forall_filter). unfold terminal_cost in *.
  split_and!; try done; [|lia..]. apply filter_ext_elem. intros t _. unfold not_terminal, is_terminal. specialize (A3 (TaskSHA256 t)).
  rewrite lookup_empty in A3. rewrite eq_None_not_Some, A3. split; intros Hn Hx; apply Hn; [by right|].
  destruct Hx as [[? ?]|?]; [done|done].
Qed.

(** The run, as far as sealing. *)
Lemma run_spec plan terminal done r c : typed_plan plan → ValidatePlan plan = true → admitTerminalTasks plan terminal = Ok (done, r, c) →
  ∃ st err k, dispatched (PLimits plan) (complement plan terminal) (length terminal) (terminal_cost plan terminal) k st ∧
    run_end (rep st) err k (length (complement plan terminal)) ∧
    RunRemaining plan terminal = match SealReport plan (rep st) with
      | None => (None, Some match err with Some e => ErrJoined e | None => ErrSeal end, batches st)
      | Some sealed => (Some sealed, err, batches st) end.
Proof.
  intros Hty Hv Had. destruct (ValidatePlan_inv _ Hv) as (coh & [K1 K2 K3 K4 K5 K6 K7]).
  unfold RunRemaining. rewrite Hv, Had. cbn [negb]. destruct (admit_ok _ _ _ _ _ Hty Hv Had) as (A5 & -> & A1 & A2 & A6 & A7).
  destruct Hty as [Hl Ht]. pose proof (complement_length plan terminal) as Hlen. rewrite A5 in Hlen.
  set (pending := complement plan terminal) in *. set (st0 := {| rep := r; cost := c; tick := 1; batches := [] |}).
  assert (running (PLimits plan) pending (length terminal) (terminal_cost plan terminal) 0 st0) as Hrun.
  { split; [constructor|split]; cbn [st0 rep cost batches]; rewrite ?take_0; try done.
    - lia.
    - by rewrite Nat.add_0_r.
    - change (cost_of []) with 0. lia.
    - change (cost_of []) with 0. lia. }
  assert (∃ st err k, (if parentCancelled 0 then (set_rep (set_stop StopCanceled (rep st0)) st0, Some (ErrInterrupted None))
      else dispatch_loop (S (length pending)) (PLimits plan) pending 0 st0) = (st, err) ∧
    dispatched (PLimits plan) pending (length terminal) (terminal_cost plan terminal) k st ∧
    run_end (rep st) err k (length pending)) as (st & err & k & -> & Hd & He).
  { destruct (parentCancelled 0).
    - eexists _, _, 0%nat. split; [reflexivity|]. destruct Hrun as ([] & _ & _). split; [|by left; left].
      constructor; try done; by apply counts_set_stop.
    - destruct (dispatch_loop _ _ _ _ _) as [st err] eqn:Hloop.
      pose proof (dispatch_loop_spec (PLimits plan) coh pending (length terminal) (terminal_cost plan terminal) Hl K1 K2) as Hspec.
      eapply Hspec in Hloop.
      + exists st, err. destruct err as [e|].
        * destruct Hloop as (k & Hd & Hs). exists k. split; [done|]. split; [done|]. exact Hs.
        * exists (length pending). split; [done|]. destruct Hloop as (Hd & _ & Hs). done.
      + apply Forall_filter, Ht.
      + by apply Forall_filter.
      + by apply NoDup_fmap_filter.
      + lia.
      + apply cost_nonneg, Forall_filter, Ht.
      + lia.
      + lia.
      + exact Hrun. }
  exists st, err, k. split; [done|]. split; [done|]. destruct err as [e|]; [done|]. destruct He as [_ ->].
  rewrite (ct_completed _ _ _ (dp_counts _ _ _ _ _ _ Hd)), Hlen.
  rewrite wrap32_id by (unfold uint; lia). rewrite Z.eqb_refl. cbn [negb]. done.
Qed.

(** The run, sealed. *)
Lemma run_sealed plan terminal done r c : typed_plan plan → ValidatePlan plan = true → admitTerminalTasks plan terminal = Ok (done, r, c) →
  ∃ st err k sealed, concat (batches st) = take k (complement plan terminal) ∧
    run_end (rep st) err k (length (complement plan terminal)) ∧ RunRemaining plan terminal = (Some sealed, err, batches st) ∧
    ValidateReport plan sealed = true ∧ Started sealed = Z.of_nat (length terminal + length (concat (batches st))) ∧ Stop sealed = Stop (rep st).
Proof.
  intros Hty Hv Had. destruct (ValidatePlan_inv _ Hv) as (coh & [_ _ _ _ _ _ Hmax]).
  destruct (admit_ok plan terminal done r c Hty Hv Had) as [Hterm _].
  destruct (run_spec plan terminal done r c Hty Hv Had) as (st & err & k & [D1 D2 D3 _ _] & Hend & ->).
  pose proof (complement_length plan terminal) as Hlen. rewrite Hterm in Hlen. set (pending := complement plan terminal) in *.
  destruct (SealReport_ok plan (rep st) (Z.of_nat (length terminal + k)) (Z.of_nat (length (Tasks plan))) Hv D3) as
    (sealed & -> & Hvr & _ & _ & Hs & _ & _ & Hstop); [lia|done|lia|..].
  { destruct err; [destruct Hend as [?|[? ?]]; right; [by left|right; split; [done|lia]]|]. left. destruct Hend as [? ->]. split; [done|]. lia. }
  exists st, err, k, sealed. rewrite D2, length_take. split_and!; try done. rewrite Hs. f_equal. lia.
Qed.

(** ** Properties *)

(** C33: Sealing never fails. A run of a valid plan whose terminal tasks were
    admitted returns a report that validates against the plan and that counts the
    terminal tasks and the dispatched ones as started. It returns no error exactly
    when the report gives no stop reason, and then every other task was dispatched;
    a run that dispatched every task may still have been stopped, by its last
    batch. *)
Theorem RunRemaining_sealed plan terminal admitted : typed_plan plan → ValidatePlan plan = true →
  admitTerminalTasks plan terminal = Ok admitted →
  ∃ sealed err log, RunRemaining plan terminal = (Some sealed, err, log) ∧ ValidateReport plan sealed = true ∧
    Started sealed = Z.of_nat (length terminal + length (concat log)) ∧
    (err = None ↔ Stop sealed = StopNone) ∧ (err = None → concat log = complement plan terminal).
Proof.
  intros Hty Hv Had. destruct admitted as [[done r] c].
  destruct (run_sealed plan terminal done r c Hty Hv Had) as (st & err & k & sealed & Hlog & Hend & Hrun & Hvr & Hs & Hstop).
  exists sealed, err, (batches st). split_and!; try done.
  - rewrite Hstop. destruct err; [|split; [intros _; apply Hend|done]]. split; [done|]. intros Hn.
    destruct Hend as [[Hb|[Hb|[Hb _]]]|[Hb _]]; by rewrite Hn in Hb.
  - intros ->. destruct Hend as [_ ->]. by rewrite Hlog, firstn_all.
Qed.

(** Every batch [RunRemaining] dispatches stays within the worker, resource
    and cohort limits and within one round, and the cost charged for terminal
    and dispatched tasks never exceeds the total. *)
Theorem batches_within_limits plan terminal admitted sealed err log : typed_plan plan →
  admitTerminalTasks plan terminal = Ok admitted → RunRemaining plan terminal = (sealed, err, log) →
  Forall (λ b, fits (PLimits plan) b ∧ one_round b) log ∧
  (ValidatePlan plan = true → terminal_cost plan terminal + cost_of (concat log) ≤ TotalCostMicroUSD (PLimits plan)).
Proof.
  intros Hty Had Hrun. destruct (ValidatePlan plan) eqn:Hv.
  - destruct admitted as [[done r] c]. destruct (run_spec plan terminal done r c Hty Hv Had) as (st & err' & k & [_ D2 _ D4 D5] & _ & Heq).
    assert (log = batches st) as -> by (rewrite Hrun in Heq; destruct (SealReport _ _); congruence). by rewrite D2.
  - unfold RunRemaining in Hrun. rewrite Hv in Hrun. injection Hrun as _ _ <-. split; [constructor|done].
Qed.

(** Tasks are dispatched in plan order, at most once and never out of round:
    the batches are together a prefix of the tasks that are not terminal, with
    distinct identities and rounds that never go back. *)
Theorem dispatch_in_plan_order plan terminal sealed err log : typed_plan plan → RunRemaining plan terminal = (sealed, err, log) →
  (∃ k, concat log = take k (complement plan terminal)) ∧ NoDup (TaskSHA256 <$> concat log) ∧ StronglySorted round_le (concat log).
Proof.
  intros Hty Hrun. assert (log = [] ∨ (ValidatePlan plan = true ∧ ∃ a, admitTerminalTasks plan terminal = Ok a)) as [->|[Hv [[[done r] c] Had]]].
  { unfold RunRemaining in Hrun. destruct (ValidatePlan plan); [|injection Hrun as _ _ <-; by left]. cbn [negb] in Hrun.
    destruct (admitTerminalTasks plan terminal) as [a|e]; [right; by split; [|exists a]|]. injection Hrun as _ _ <-. by left. }
  { split; [by exists 0%nat|]. split; constructor. }
  destruct (run_spec plan terminal done r c Hty Hv Had) as (st & err' & k & [_ D2 _ _ _] & _ & Heq).
  assert (log = batches st) as -> by (rewrite Hrun in Heq; destruct (SealReport _ _); congruence).
  destruct (ValidatePlan_inv _ Hv) as (coh & [_ _ _ K4 _ K6 _]). rewrite D2. split; [by exists k|]. split.
  - rewrite fmap_take. by apply NoDup_prefix, NoDup_fmap_filter.
  - by apply StronglySorted_take, StronglySorted_filter.
Qed.
End scheduler.

(** ** The order of arrival *)

Definition outcome_bump (o : text) (r : Report) : Report := countOutcome o (bump 0 1 0 0 0 0 r).

Lemma countOutcome_bump o : ∃ a b c d, ∀ r, countOutcome o (bump 0 1 0 0 0 0 r) = bump 0 1 a b c d r.
Proof.
  unfold countOutcome. destruct (eqt o OutcomeSucceeded); [exists 1, 0, 0, 0|destruct (eqt o OutcomeFailed); [exists 0, 1, 0, 0|
    destruct (eqt o OutcomeCanceled); [exists 0, 0, 1, 0|destruct (eqt o OutcomeUnknown); [exists 0, 0, 0, 1|exists 0, 0, 0, 0]]]];
    intros r; rewrite ?bump_bump; done.
Qed.

Lemma outcome_comm o o' r : outcome_bump o (outcome_bump o' r) = outcome_bump o' (outcome_bump o r).
Proof.
  unfold outcome_bump. destruct (countOutcome_bump o) as (a & b & c & d & Ho). destruct (countOutcome_bump o') as (a' & b' & c' & d' & Ho').
  rewrite !Ho, !Ho', !bump_bump. f_equal; lia.
Qed.

Lemma count_results_permutation failure l l' r : l ≡ₚ l' → count_results failure l r = count_results failure l' r.
Proof.
  intros Hp. revert r. unfold count_results. induction Hp as [|x l l' _ IH|x y l|l1 l2 l3 _ IH1 _ IH2]; intros r; cbn [foldl].
  - done.
  - apply IH.
  - f_equal. destruct failure as [f|]; [|apply outcome_comm]. destruct (eqt (TaskSHA256 (RTask x)) _); [done|].
    destruct (eqt (TaskSHA256 (RTask y)) _); [done|]. apply outcome_comm.
  - by rewrite IH1, IH2.
Qed.

#[export] Instance by_ordinal_trans : Transitive by_ordinal.
Proof. intros a b c. unfold by_ordinal. lia. Qed.
#[export] Instance by_ordinal_total : Total by_ordinal.
Proof. intros a b. unfold by_ordinal. lia. Qed.

(** Results of tasks with distinct ordinals sort to one list. *)
Lemma sort_permutation l l' : NoDup ((λ x, Ordinal (RTask x)) <$> l) → l ≡ₚ l' → merge_sort by_ordinal l = merge_sort by_ordinal l'.
Proof.
  intros Hd Hp. apply (StronglySorted_unique_strong by_ordinal); [|apply StronglySorted_merge_sort; apply _..|by rewrite !merge_sort_Permutation].
  intros x y Hx Hy Hxy Hyx. rewrite merge_sort_Permutation in Hx. rewrite merge_sort_Permutation, <- Hp in Hy.
  apply list_elem_of_lookup in Hx as [i Hi]. apply list_elem_of_lookup in Hy as [j Hj].
  assert (i = j) as ->; [|congruence]. eapply (NoDup_lookup _ i j); [exact Hd|..]; rewrite list_lookup_fmap.
  - by rewrite Hi.
  - rewrite Hj. cbn. f_equal. unfold by_ordinal in *. lia.
Qed.

Section order.
Variable sha256 : text → vec ascii 32.
Variable parentCancelled : nat → bool.
Variable starts : nat → Task → bool.
Variable executes : nat → Task → option cancelCause → execution.
Variables arrival arrival' : nat → list Task → list Task.
Hypothesis parent_stays : ∀ t t', (t ≤ t')%nat → parentCancelled t = true → parentCancelled t' = true.
Hypothesis arrives : ∀ t l, arrival t l ≡ₚ l.
Hypothesis arrives' : ∀ t l, arrival' t l ≡ₚ l.
(** While nothing cancels its context, a closure ends the same way whenever its
    result is received. *)
Hypothesis unprompted : ∀ t t' task, executes t task None = executes t' task None.

(** Closures that also end the same way when their context is cancelled. *)
Definition heedless : Prop := ∀ t t' task cause cause', executes t task cause = executes t' task cause'.

Notation receive := (receive parentCancelled executes).

Lemma receive_heedless t cause order : heedless → receive t cause order = (λ task, executeTask task (executes 0 task None)) <$> order.
Proof.
  intros Hh. revert t cause. induction order as [|task order IH]; intros t cause; [done|]. cbn [Scheduler.receive]. cbv zeta.
  rewrite IH, fmap_cons. do 2 f_equal. apply Hh.
Qed.

(** The results of closures no cause reaches. *)
Definition unprompted_results (order : list Task) : list taskResult := (λ task, executeTask task (executes 0 task None)) <$> order.

(** Until a result cancels, no cause reaches a closure of an undisturbed batch. *)
Lemma receive_unprompted t order : (∀ t', (t' < t + length order)%nat → parentCancelled t' = false) →
  receive t None order = unprompted_results order ∨
  (existsb cancels (receive t None order) = true ∧ existsb cancels (unprompted_results order) = true).
Proof.
  revert t. induction order as [|task order IH]; intros t Hp; [by left|]. cbn [Scheduler.receive]. cbv zeta.
  unfold unprompted_results in *. rewrite fmap_cons.
  assert (context_cause parentCancelled t None = None) as -> by (unfold context_cause; rewrite Hp; [done|cbn; lia]).
  rewrite (unprompted t 0). destruct (cancels _) eqn:Hc; [right; cbn [existsb]; by rewrite Hc|].
  destruct (IH (S t)) as [IHe|[IHc IHm]]; [intros t' Ht'; apply Hp; cbn; lia|left; by rewrite IHe|].
  right. cbn [existsb]. by rewrite IHc, IHm, !orb_true_r.
Qed.

Lemma existsb_permutation {A : Type} (f : A → bool) l l' : l ≡ₚ l' → existsb f l = existsb f l'.
Proof. induction 1 as [|x l l' _ IH|x y l|l1 l2 l3 _ IH1 _ IH2]; cbn [existsb]; [done|by rewrite IH|by destruct (f x), (f y)|by rewrite IH1]. Qed.

(** Two orders give permuted results, or results that stop the batch in both. *)
Lemma receive_agrees t order order' : (∀ t', (t' < t + length order)%nat → parentCancelled t' = false) → order ≡ₚ order' →
  receive t None order ≡ₚ receive t None order' ∨
  (existsb cancels (receive t None order) = true ∧ existsb cancels (receive t None order') = true).
Proof.
  intros Hp P. assert (unprompted_results order ≡ₚ unprompted_results order') as Pm by (unfold unprompted_results; by rewrite P).
  pose proof (existsb_permutation cancels _ _ Pm) as Pc. pose proof (Permutation_length P) as Pl.
  destruct (receive_unprompted t order Hp) as [->|[-> E1]], (receive_unprompted t order') as [->|[-> E2]]; try (rewrite <- Pl; exact Hp);
    [by left|right; split; [by rewrite Pc|done]|right; split; [done|by rewrite <- Pc]|by right].
Qed.

Lemma cancels_stops l : existsb cancels l = true → first_some (λ _, result_stop) 0 (merge_sort by_ordinal l) ≠ None.
Proof.
  intros (x & Hx & Hc)%existsb_exists Hn. apply list_elem_of_In in Hx. rewrite <- (merge_sort_Permutation by_ordinal l) in Hx.
  pose proof (proj1 (first_some_None_elem _ _ _) Hn x Hx) as Hs. unfold result_stop in Hs. unfold cancels in Hc.
  destruct (eqt _ OutcomeCanceled); [done|]. by destruct (RErr x), (eqt _ OutcomeUnknown).
Qed.

Lemma start_loop_incl t tasks running failure t' : start_loop parentCancelled starts t tasks = (running, failure, t') →
  ∃ k, running ++ option_list failure = take k tasks.
Proof. intros (H & _)%start_loop_spec. eexists. exact H. Qed.

(** Two runs, of a batch or of more, with their logs: one and the same, unless both were stopped. *)
Definition agrees {X : Type} (log : X → list (list Task)) (r r' : X * option runError) : Prop :=
  (heedless → r = r') ∧ (r = r' ∨ (r.2 ≠ None ∧ r'.2 ≠ None ∧ log r.1 = log r'.1)).

Lemma agrees_refl {X : Type} (log : X → list (list Task)) r : agrees log r r.
Proof. split; [done|by left]. Qed.

(** Results that are permutations of each other count and stop alike. *)
Lemma same_results failure (running : list Task) l l' r : l ≡ₚ l' → RTask <$> l ≡ₚ running → NoDup (Ordinal <$> running ++ option_list failure) →
  let collected := λ l, match failure with
    | Some f => (bump 1 1 0 0 0 1 r, l ++ [{| RTask := f; ROutcome := OutcomeUnknown; RErr := true |}])
    | None => (r, l) end in
  count_results failure (collected l).2 (collected l).1 = count_results failure (collected l').2 (collected l').1 ∧
  merge_sort by_ordinal (collected l).2 = merge_sort by_ordinal (collected l').2.
Proof.
  intros Hp Ht Hn collected. assert ((collected l).2 ≡ₚ (collected l').2 ∧ (collected l).1 = (collected l').1) as [Hc ->].
  { unfold collected. destruct failure; cbn [fst snd]; [by rewrite Hp|done]. }
  split; [by apply count_results_permutation|]. apply sort_permutation; [|done].
  assert ((λ x, Ordinal (RTask x)) <$> (collected l).2 ≡ₚ Ordinal <$> running ++ option_list failure) as ->; [|done].
  change (λ x, Ordinal (RTask x)) with (Ordinal ∘ RTask). rewrite list_fmap_compose. f_equiv. unfold collected.
  destruct failure; cbn [snd option_list]; rewrite ?fmap_app, ?app_nil_r; by rewrite Ht.
Qed.

Lemma runBatch_agrees tasks st : NoDup (Ordinal <$> tasks) →
  agrees batches (runBatch parentCancelled starts executes arrival tasks st) (runBatch parentCancelled starts executes arrival' tasks st).
Proof.
  intros Hnd. unfold runBatch. destruct (start_loop _ _ _ _) as [[running failure] t1] eqn:Hs.
  destruct (start_loop_incl _ _ _ _ _ Hs) as [k Hk]. apply start_loop_spec in Hs as (_ & _ & _ & Hend).
  assert (NoDup (Ordinal <$> running ++ option_list failure)) as Hn by (rewrite Hk, fmap_take; by apply NoDup_prefix). clear k Hk.
  pose proof (arrives (tick st) running) as P1. pose proof (arrives' (tick st) running) as P2. cbv zeta.
  set (o1 := arrival _ running) in *. set (o2 := arrival' _ running) in *.
  set (c0 := start_cause tasks running failure). set (l1 := receive t1 c0 o1). set (l2 := receive t1 c0 o2).
  assert (RTask <$> l1 ≡ₚ running) as T1 by (unfold l1; by rewrite (proj1 (receive_spec _ _ _ _ _))).
  pose proof (λ Hp, same_results failure running l1 l2 (bump (Z.of_nat (length running)) 0 0 0 0 0 (rep st)) Hp T1 Hn) as Hsame.
  cbv zeta in Hsame. match goal with |- agrees _ ?a ?b => set (r1 := a); set (r2 := b) end.
  assert (l1 ≡ₚ l2 → r1 = r2) as Heq.
  { intros Hp. destruct (Hsame Hp) as [E1 E2]. unfold r1, r2. destruct failure; cbn [fst snd] in E1, E2; rewrite E1; [done|by rewrite E2]. }
  assert (o1 ≡ₚ o2) as P by (by rewrite P1, P2). clearbody o1 o2.
  split; [intros Hh; apply Heq; unfold l1, l2; rewrite !receive_heedless by done; by rewrite P|].
  unfold r1, r2. destruct (parentCancelled (t1 + length running)) eqn:Hp.
  { right. destruct failure; cbn [fst snd batches]; done. }
  destruct failure as [f|]; [right; cbn [fst snd batches]; done|].
  destruct Hend as [(t0 & Ht0 & Hp0)|[?|Hl]]; [|done|].
  { rewrite (parent_stays t0 (t1 + length running)%nat ltac:(lia) Hp0) in Hp. done. }
  assert (c0 = None) as Hc0 by (unfold c0, start_cause; by rewrite Hl, Nat.ltb_irrefl).
  destruct (receive_agrees t1 o1 o2) as [Hpl|[E1 E2]]; [|done|left; apply Heq; unfold l1, l2; by rewrite Hc0|].
  { intros t' Ht'. rewrite P1 in Ht'. destruct (parentCancelled t') eqn:Hq; [|done]. by rewrite (parent_stays t' _ ltac:(apply Nat.lt_le_incl, Ht') Hq) in Hp. }
  rewrite <- Hc0 in E1, E2. right. apply cancels_stops in E1, E2. fold l1 in E1. fold l2 in E2.
  destruct (first_some _ _ (merge_sort _ l1)) as [[? ?]|]; [|done]. destruct (first_some _ _ (merge_sort _ l2)) as [[? ?]|]; [|done].
  by cbn [fst snd batches].
Qed.

Lemma nextBatch_prefix limits pending i j c batch next bc blocked : nextBatch limits pending i j c = (batch, next, bc, blocked) →
  ∃ k, batch = take k (slice pending i j).
Proof.
  unfold nextBatch. destruct (nextBatch_loop _ _ _ _ _ _) as [[b c'] bl] eqn:Hl. intros [= <- _ _ _]. revert Hl.
  generalize (slice pending i j) as l. intros l. assert (∀ l res batch bc b c' bl, nextBatch_loop limits l c res batch bc = (b, c', bl) →
    ∃ k, b = batch ++ take k l) as Hgen; [|intros Hl; destruct (Hgen _ _ _ _ _ _ _ Hl) as [k Hk]; by exists k].
  clear. induction l as [|t l IH]; intros res batch bc b c' bl; cbn [nextBatch_loop].
  { intros [= <- _ _]. exists 0%nat. by rewrite app_nil_r. }
  destruct (negb _); [intros [= <- _ _]; exists 0%nat; by rewrite app_nil_r|].
  destruct (_ <? _); [intros [= <- _ _]; exists 0%nat; by rewrite app_nil_r|].
  destruct (negb _); [intros [= <- _ _]; exists 0%nat; by rewrite app_nil_r|].
  intros [k ->]%IH. exists (S k). by rewrite <- app_assoc.
Qed.

Lemma round_loop_agrees fuel limits pending i j st : NoDup (Ordinal <$> pending) →
  agrees (λ x, batches x.2) (round_loop parentCancelled starts executes arrival fuel limits pending i j st)
    (round_loop parentCancelled starts executes arrival' fuel limits pending i j st).
Proof.
  intros Hnd. revert i st. induction fuel as [|fuel IH]; intros i st; [apply agrees_refl|]. cbn [round_loop].
  destruct (i <? j)%nat; [|apply agrees_refl].
  destruct (nextBatch limits pending i j (cost st)) as [[[batch next] bc] blocked] eqn:Hnb. destruct (blocked && _); [apply agrees_refl|].
  destruct (length batch =? 0)%nat; [apply agrees_refl|].
  assert (NoDup (Ordinal <$> batch)) as Hb.
  { apply nextBatch_prefix in Hnb as [k ->]. rewrite fmap_take. unfold slice. rewrite fmap_take, fmap_drop. do 2 apply NoDup_prefix.
    rewrite <- (take_drop i (Ordinal <$> pending)) in Hnd. by apply NoDup_app in Hnd as (_ & _ & ?). }
  set (st1 := {| rep := _; cost := _; tick := _; batches := _ |}). destruct (runBatch_agrees batch st1 Hb) as [Hh Hor].
  destruct (runBatch _ _ _ arrival _ _) as [s1 e1], (runBatch _ _ _ arrival' _ _) as [s2 e2]. destruct Hor as [[= <- <-]|(E1 & E2 & E3)].
  - destruct e1; [apply agrees_refl|]. destruct blocked; [apply agrees_refl|]. apply IH.
  - cbn [fst snd] in *. destruct e1, e2; [|done..]. split; [by intros Hl%Hh; injection Hl as -> ->|by right].
Qed.

Lemma dispatch_loop_agrees fuel limits pending i st : NoDup (Ordinal <$> pending) →
  agrees batches (dispatch_loop parentCancelled starts executes arrival fuel limits pending i st)
    (dispatch_loop parentCancelled starts executes arrival' fuel limits pending i st).
Proof.
  intros Hnd. revert i st. induction fuel as [|fuel IH]; intros i st; [apply agrees_refl|]. cbn [dispatch_loop].
  destruct (pending !! i) as [task|]; [|apply agrees_refl]. destruct (parentCancelled _); [apply agrees_refl|].
  set (j := (i + _)%nat). destruct (round_loop_agrees (length pending) limits pending i j (tock st) Hnd) as [Hh Hor].
  destruct (round_loop _ _ _ arrival _ _ _ _ _ _) as [[i1 s1] e1], (round_loop _ _ _ arrival' _ _ _ _ _ _) as [[i2 s2] e2].
  destruct Hor as [[= <- <- <-]|(E1 & E2 & E3)]; [destruct e1; [apply agrees_refl|apply IH]|].
  cbn [fst snd] in *. destruct e1, e2; [|done..]. split; [by intros Hl%Hh; injection Hl as -> -> ->|by right].
Qed.

Lemma RunRemaining_agrees plan terminal :
  agrees snd (let '(sealed, err, log) := RunRemaining sha256 parentCancelled starts executes arrival plan terminal in (sealed, log, err))
    (let '(sealed, err, log) := RunRemaining sha256 parentCancelled starts executes arrival' plan terminal in (sealed, log, err)).
Proof.
  unfold RunRemaining. destruct (ValidatePlan sha256 plan) eqn:Hv; [|apply agrees_refl]. destruct (ValidatePlan_inv _ _ Hv) as (coh & [_ _ _ _ K5 _ _]).
  cbn [negb]. destruct (admitTerminalTasks plan terminal) as [[[terminalByTask r] c]|e]; [|apply agrees_refl].
  destruct (parentCancelled 0); [apply agrees_refl|]. set (pending := pending_tasks _ _). cbv zeta.
  destruct (dispatch_loop_agrees (S (length pending)) (PLimits plan) pending 0 {| rep := r; cost := c; tick := 1; batches := [] |}) as [Hh Hor];
    [by apply NoDup_fmap_filter|].
  destruct (dispatch_loop _ _ _ arrival _ _ _ _ _) as [s1 e1], (dispatch_loop _ _ _ arrival' _ _ _ _ _) as [s2 e2].
  destruct Hor as [[= <- <-]|(E1 & E2 & E3)]; [apply agrees_refl|]. cbn [fst snd] in E1, E2, E3. destruct e1, e2; [|done..].
  split; [by intros Hl%Hh; injection Hl as -> ->|]. right. rewrite E3. by destruct (SealReport _ _ (rep s1)), (SealReport _ _ (rep s2)).
Qed.

(** What a run counts as started is what was terminal and what was dispatched. *)
Lemma RunRemaining_started arr plan terminal sealed err log : (∀ t l, arr t l ≡ₚ l) → typed_plan plan →
  RunRemaining sha256 parentCancelled starts executes arr plan terminal = (Some sealed, err, log) →
  Started sealed = Z.of_nat (length terminal + length (concat log)).
Proof.
  intros Harr Hty Hrun. assert (ValidatePlan sha256 plan = true ∧ ∃ a, admitTerminalTasks plan terminal = Ok a) as (Hv & [[done r] c] & Had).
  { unfold RunRemaining in Hrun. destruct (ValidatePlan _ plan); [|done]. cbn [negb] in Hrun.
    destruct (admitTerminalTasks plan terminal) as [a|]; [by split; [|exists a]|done]. }
  destruct (run_sealed sha256 parentCancelled starts executes arr parent_stays Harr plan terminal done r c Hty Hv Had) as
    (st & e & k & sealed' & _ & _ & Heq & _ & Hs & _).
  rewrite Hrun in Heq. by injection Heq as -> -> ->.
Qed.

(** C34: The order in which concurrent results arrive. Two environments that differ
    in that order alone, with closures that end the same way whenever their result
    is received as long as nothing cancelled the run's context, but may heed its
    cancellation (a failing, cancelled or unknown result cancels it for the
    siblings received after it), dispatch the same batches, count the same number
    of tasks as started, and end with an error both or neither; without an error
    their reports are the same. When the closures do not heed the cancellation, the
    runs are the same altogether. *)
Theorem report_order_independent plan terminal sealed err log sealed' err' log' : typed_plan plan →
  RunRemaining sha256 parentCancelled starts executes arrival plan terminal = (sealed, err, log) →
  RunRemaining sha256 parentCancelled starts executes arrival' plan terminal = (sealed', err', log') →
  log = log' ∧ (∀ r r', sealed = Some r → sealed' = Some r' → Started r = Started r') ∧
  (err = None ↔ err' = None) ∧ (err = None → sealed = sealed') ∧
  (heedless → sealed = sealed' ∧ err = err').
Proof.
  intros Hty H1 H2. pose proof (RunRemaining_agrees plan terminal) as Hag. rewrite H1, H2 in Hag. destruct Hag as [Hh Hor].
  assert (log = log') as <- by (destruct Hor as [[= _ ->]|(_ & _ & ?)]; done). split; [done|]. split.
  { intros r r' -> ->. by rewrite (RunRemaining_started _ _ _ _ _ _ arrives Hty H1), (RunRemaining_started _ _ _ _ _ _ arrives' Hty H2). }
  cbn [fst snd] in Hor. split_and!; [destruct Hor as [[= _ ->]|(? & ? & _)]; done|by destruct Hor as [[= -> _]|(? & _ & _)]|].
  intros Hl%Hh. by injection Hl as -> ->.
Qed.
End order.

(** ** A plan of four tasks in two rounds

    Two workers, one of them for the shared cohort; the third task
    panics in two environments, and in one of them its siblings heed that. *)

Module Demo.
Definition sha (n : N) : text := repeat (hex_digit n) 64.
Definition task (n round cost : Z) (cohorts : list text) : Task :=
  {| TaskSHA256 := sha (Z.to_N n); Ordinal := n; Round := round;
     TResources := {| CPUTimeMillis := 10; MemoryBytes := 100; StorageBytes := 0; Processes := 1; CostMicroUSD := cost |};
     CohortSHA256s := Some cohorts |}.
Definition candidate : Plan :=
  {| Schema := []; PSchemaVersion := 0; PContractVersion := [];
     PLimits := {| Workers := 2; LCPUTimeMillis := 50; LMemoryBytes := 250; LStorageBytes := 0; LProcesses := 2; TotalCostMicroUSD := 100;
                   Cohorts := Some [{| CohortSHA256 := sha 11; CWorkers := 1 |}] |};
     Tasks := [task 1 1 20 [sha 11]; task 2 1 20 [sha 11]; task 3 1 20 []; task 4 2 20 []]; PlanSHA256 := [] |}.
Definition plan : Plan := Eval vm_compute in default candidate (SealPlan toy_sha256 candidate).
Definition terminal : list TerminalTask := [{| XTaskSHA256 := sha 1; XOutcome := OutcomeFailed |}].
Definition never (_ : nat) : bool := false.
Definition always (_ : nat) (_ : Task) : bool := true.
Definition succeeds (_ : nat) (_ : Task) (_ : option cancelCause) : execution := Returned OutcomeSucceeded false.
Definition panics_third (_ : nat) (t : Task) (_ : option cancelCause) : execution :=
  if Ordinal t =? 3 then Panicked else Returned OutcomeSucceeded false.
(** The third task panics; the others give up once their context is cancelled. *)
Definition heeds (_ : nat) (t : Task) (cause : option cancelCause) : execution :=
  if Ordinal t =? 3 then Panicked else Returned (match cause with Some _ => OutcomeCanceled | None => OutcomeSucceeded end) false.
Definition in_order (_ : nat) (l : list Task) : list Task := l.
Definition reversed (_ : nat) (l : list Task) : list Task := reverse l.

Definition run executes arrival := RunRemaining toy_sha256 never always executes arrival plan terminal.
Definition good := Eval vm_compute in run succeeds in_order.
Definition bad := Eval vm_compute in run panics_third reversed.

Lemma never_stays t t' : (t ≤ t')%nat → never t = true → never t' = true.
Proof. done. Qed.
Lemma surjective_pairing3 {A B C : Type} (x : A * B * C) : x = (x.1.1, x.1.2, x.2).
Proof. by destruct x as [[? ?] ?]. Qed.
Lemma reversed_arrives t l : reversed t l ≡ₚ l.
Proof. apply reverse_Permutation. Qed.

Lemma plan_typed : typed_plan plan.
Proof. split; [split_and!; repeat constructor; done|repeat constructor; done]. Qed.

Lemma admitted : ∃ a, admitTerminalTasks plan terminal = Ok a.
Proof.
  assert (match admitTerminalTasks plan terminal with Ok _ => true | Err _ => false end = true) as Hok by (vm_compute; reflexivity).
  destruct (admitTerminalTasks plan terminal) as [a|]; [by exists a|discriminate].
Qed.
Lemma plan_valid : ValidatePlan toy_sha256 plan = true.
Proof. vm_compute. reflexivity. Qed.

Example demo_batches : map (map Ordinal) good.2 = [[2; 3]; [4]] ∧ map (map Ordinal) bad.2 = [[2; 3]] ∧
  option_map Stop good.1.1 = Some StopNone ∧ option_map Stop bad.1.1 = Some StopTaskFailed ∧ bad.1.2 = Some (ErrExecution (Some 3)).
Proof. split_and!; reflexivity. Qed.

(** The failure cancels a sibling received after it, and the reports differ. *)
Example demo_feedback : option_map Stop (run heeds in_order).1.1 = Some StopTaskFailed ∧ (run heeds in_order).1.2 = Some (ErrExecution (Some 3)) ∧
  option_map Stop (run heeds reversed).1.1 = Some StopCanceled ∧ (run heeds reversed).1.2 = Some (ErrInterrupted (Some 2)).
Proof. vm_compute. split_and!; reflexivity. Qed.

(** A plan whose one task panics dispatches everything and is stopped. *)
Example demo_panic : let plan := default candidate (SealPlan toy_sha256 {| Schema := []; PSchemaVersion := 0; PContractVersion := [];
    PLimits := PLimits candidate; Tasks := [task 1 1 20 []]; PlanSHA256 := [] |}) in
  let '(sealed, err, log) := RunRemaining toy_sha256 never always (λ _ _ _, Panicked) in_order plan [] in
  option_map Stop sealed = Some StopTaskFailed ∧ err = Some (ErrExecution (Some 1)) ∧ map (map Ordinal) log = [[1]].
Proof. vm_compute. split_and!; reflexivity. Qed.

Lemma RunRemaining_sealed_witness : ∃ sealed err log, run panics_third reversed = (Some sealed, err, log) ∧
  ValidateReport toy_sha256 plan sealed = true ∧ Started sealed = Z.of_nat (length terminal + length (concat log)).
Proof.
  destruct admitted as [a Ha].
  destruct (RunRemaining_sealed toy_sha256 never always panics_third reversed never_stays reversed_arrives plan terminal a
    plan_typed plan_valid Ha) as (s & e & l & E1 & E2 & E3 & _).
  exists s, e, l. split; [exact E1|]. split; [exact E2|exact E3].
Defined.

Lemma batches_within_limits_witness : Forall (λ b, fits (PLimits plan) b ∧ one_round b) good.2 ∧
  (ValidatePlan toy_sha256 plan = true → terminal_cost plan terminal + cost_of (concat good.2) ≤ 100).
Proof.
  destruct admitted as [a Ha].
  exact (batches_within_limits toy_sha256 never always succeeds in_order never_stays (λ _ _, reflexivity _) plan terminal a _ _ _
    plan_typed Ha ltac:(vm_compute; reflexivity)).
Defined.

Lemma dispatch_in_plan_order_witness : (∃ k, concat good.2 = take k (complement plan terminal)) ∧
  NoDup (TaskSHA256 <$> concat good.2) ∧ StronglySorted round_le (concat good.2).
Proof.
  exact (dispatch_in_plan_order toy_sha256 never always succeeds in_order never_stays (λ _ _, reflexivity _) plan terminal _ _ _
    plan_typed ltac:(vm_compute; reflexivity)).
Defined.

Lemma report_order_independent_witness : (run heeds in_order).2 = (run heeds reversed).2 ∧
  (run heeds in_order).1.1 ≠ (run heeds reversed).1.1 ∧
  ((run heeds in_order).1.2 = None ↔ (run heeds reversed).1.2 = None).
Proof.
  destruct (report_order_independent toy_sha256 never always heeds in_order reversed never_stays (λ _ _, reflexivity _) reversed_arrives
    (λ _ _ _, eq_refl) plan terminal _ _ _ _ _ _ plan_typed (surjective_pairing3 _) (surjective_pairing3 _)) as (Hlog & _ & Herr & _).
  split; [exact Hlog|]. split; [|exact Herr]. vm_compute. discriminate.
Defined.
End Demo.
End Scheduler.
