(* ===== verification/WikiScanner.v ===== *)
(** * Jira wiki and Markdown block boundaries (internal/wikiscanner/scan.go,
    internal/mdcsf/mdcsf.go: SplitBlocks)

    The line recognisers the renderer and the merge share.  The anchored regular
    expressions of the source are recognisers on bytes: every class they repeat is
    bounded by ASCII bytes, so a leftmost-first match is the maximal run. *)

From S2P Require Import Prelude GoText.
Import GoText.

Module WikiScanner.
Local Open Scope Z_scope.

(** ** Runs of bytes *)

Definition is_byte (b c : ascii) : bool := bool_decide (c = b).
Definition newline : ascii := "010"%char.
Definition cr : ascii := "013"%char.
Definition tab : ascii := "009"%char.
Definition backslash : ascii := "092"%char.
Definition backtick : ascii := "096"%char.

(** The longest prefix whose bytes satisfy [p], and what follows it. *)
Fixpoint span (p : ascii → bool) (s : text) : text * text :=
  match s with
  | c :: s' => if p c then let '(a, b) := span p s' in (c :: a, b) else ([], s)
  | [] => ([], [])
  end.

(** A blank, and any byte but a newline. *)
Definition blank (c : ascii) : bool := is_byte " "%char c || is_byte tab c.
Definition not_newline (c : ascii) : bool := negb (is_byte newline c).

(** The last group of the patterns: the rest, if no newline is in it. *)
Definition rest_of_line (s : text) : option text := if forallb not_newline s then Some s else None.

(** ** Wiki lines *)

(** [headingRe]: h, a digit from 1 to 6, a dot, blanks, the rest of the line. *)
Definition ParseHeading (line : text) : option (Z * text) :=
  match line with
  | h :: d :: dot :: s =>
      if is_byte "h"%char h && in_rng 49 54 (byte_val d) && is_byte "."%char dot then
        let '(gap, body) := span blank s in
        if (0 <? length gap)%nat then body ← rest_of_line body; Some (byte_val d - 48, body) else None
      else None
  | _ => None
  end.
Definition IsHeading (line : text) : bool := bool_decide (is_Some (ParseHeading line)).

(** The end of [codeOpenRe] and [panelOpenRe]: optional parameters after a colon,
    the closing brace and the rest of the line. *)
Definition macro_open (s : text) : option (text * text) :=
  let close (params s : text) :=
    match s with
    | c :: s => if is_byte "}"%char c then rest ← rest_of_line s; Some (params, rest) else None
    | [] => None
    end in
  match s with
  | c :: s' => if is_byte ":"%char c then let '(params, s'') := span (λ c, negb (is_byte "}"%char c)) s' in close params s''
               else close [] s
  | [] => None
  end.

(** The text after a literal prefix. *)
Definition after (p s : text) : option text := if has_prefix s p then Some (drop (length p) s) else None.

Definition ParseCodeOpen (line : text) : option (text * text * text) :=
  let open name := s ← after (txt "{" ++ name) line; '(params, rest) ← macro_open s; Some (name, params, rest) in
  match open (txt "code") with
  | Some m => Some m
  | None => open (txt "noformat")
  end.
Definition IsCodeOpen (line : text) : bool := bool_decide (is_Some (ParseCodeOpen line)).

Definition ParseQuoteOpen (line : text) : option text := s ← after (txt "{quote}") line; rest_of_line s.
Definition IsQuoteOpen (line : text) : bool := bool_decide (is_Some (ParseQuoteOpen line)).

Definition ParsePanelOpen (line : text) : option (text * text) := s ← after (txt "{panel") line; macro_open s.
Definition IsPanelOpen (line : text) : bool := bool_decide (is_Some (ParsePanelOpen line)).

(** [horizontalRuleRe]: at least four dashes, then blanks only. *)
Definition IsHorizontalRule (line : text) : bool :=
  let '(dashes, s) := span (is_byte "-"%char) line in (4 <=? length dashes)%nat && forallb blank s.

(** [listRe]: blanks, stars and hashes, blanks, the rest of the line. *)
Definition ParseListLine (line : text) : option (text * text) :=
  let '(_, s) := span blank line in
  let '(markers, s) := span (λ c, is_byte "*"%char c || is_byte "#"%char c) s in
  let '(gap, s) := span blank s in
  if (0 <? length markers)%nat && (0 <? length gap)%nat then body ← rest_of_line s; Some (markers, body) else None.
Definition IsListLine (line : text) : bool := bool_decide (is_Some (ParseListLine line)).

(** ** Markdown lines *)

Inductive MarkdownBlockKind := MarkdownParagraph | MarkdownFence | MarkdownThematicBreak.
#[export] Instance MarkdownBlockKind_eq_dec : EqDecision MarkdownBlockKind.
Proof. solve_decision. Defined.

Definition IsThematicRun (body : text) : bool :=
  if (length body <? 3)%nat then false
  else
    match body with
    | [] => false
    | c :: s =>
        if negb (is_byte "-"%char c) && negb (is_byte "*"%char c) && negb (is_byte "_"%char c) then false
        else forallb (is_byte c) s
    end.

Definition MarkdownBlockType (line : text) : MarkdownBlockKind :=
  let body := trim_space line in
  if has_prefix body (repeat backtick 3) then MarkdownFence
  else if IsThematicRun body && (negb (bool_decide (head body = Some "-"%char)) || (length body =? 3)%nat) then MarkdownThematicBreak
  else MarkdownParagraph.
Definition MarkdownBlockCollision (line : text) : bool := negb (bool_decide (MarkdownBlockType line = MarkdownParagraph)).

(** At most [n] leading spaces are dropped. *)
Fixpoint drop_spaces (n : nat) (s : text) : text :=
  match n, s with
  | S n, c :: s' => if is_byte " "%char c then drop_spaces n s' else s
  | _, _ => s
  end.

Definition ParseMarkdownFenceOpen (line : text) : option (nat * text) :=
  let '(run, info) := span (is_byte backtick) (drop_spaces 3 line) in
  if (length run <? 3)%nat || existsb (is_byte backtick) info then None else Some (length run, info).

Definition IsMarkdownFenceClose (line : text) (openerRun : nat) : bool :=
  if (openerRun <? 3)%nat then false
  else let '(run, s) := span (is_byte backtick) (drop_spaces 3 line) in
       (openerRun <=? length run)%nat && eqt (trim_space s) [].

Definition NormalizeMarkdownFenceInfo (info : text) : option text :=
  let info := trim_space info in
  if existsb (λ c, is_byte backtick c || is_byte cr c || is_byte newline c) info then None else Some info.

Definition EscapeMarkdownBlockCollision (line : text) : text :=
  if MarkdownBlockCollision (snd (span (is_byte backslash) line)) then backslash :: line else line.

Definition UnescapeMarkdownBlockCollision (line : text) : option (text * MarkdownBlockKind) :=
  let '(slashes, s) := span (is_byte backslash) line in
  if (length slashes =? 0)%nat then None
  else
    let kind := MarkdownBlockType s in
    if bool_decide (kind = MarkdownParagraph) then None else Some (drop 1 line, kind).

(** ** Table rows *)

Definition row_closed (line : text) : bool := has_suffix (trim_space line) (txt "|").

(** The loop of [TableRowEnd] from line [i], over the lines that are left. *)
Fixpoint row_end_loop (count start i : nat) (lineAt : nat → text) : nat :=
  match count with
  | O => start
  | S count =>
      let line := lineAt i in
      if eqt (trim_space line) [] || has_prefix line (txt "|") then start
      else if row_closed line then i
      else row_end_loop count start (S i) lineAt
  end.

(** A negative [start] is returned as it is; the callers pass indices. *)
Definition TableRowEnd (lineCount start : nat) (lineAt : nat → text) : nat :=
  if (lineCount <=? start)%nat || row_closed (lineAt start) then start
  else row_end_loop (lineCount - S start) start (S start) lineAt.

(** ** Markdown blocks *)

(** [strings.Split(s, "\n")] and [strings.Join(lines, "\n")]. *)
Fixpoint split_lines (s : text) : list text :=
  match s with
  | [] => [[]]
  | c :: s => if is_byte newline c then [] :: split_lines s
              else match split_lines s with
                   | l :: ls => (c :: l) :: ls
                   | [] => [[c]]
                   end
  end.
Fixpoint join_lines (lines : list text) : text :=
  match lines with
  | [] => []
  | [l] => l
  | l :: ls => l ++ newline :: join_lines ls
  end.

(** [headingRe] of mdcsf: one to six hashes, white space, and a line. *)
Definition regex_space (c : ascii) : bool :=
  is_byte tab c || is_byte newline c || is_byte "012"%char c || is_byte cr c || is_byte " "%char c.
Definition md_heading (line : text) : bool :=
  let '(hashes, s) := span (is_byte "#"%char) line in
  let '(gap, s) := span regex_space s in
  let '(_, mid) := span regex_space (reverse s) in
  (1 <=? length hashes)%nat && (length hashes <=? 6)%nat && (0 <? length gap)%nat && forallb not_newline mid.

(** [flush]: the block the collected lines make, if there are any. *)
Definition flush (cur : list text) : list text := match cur with [] => [] | _ => [join_lines cur] end.

(** The loop of [SplitBlocks]: [fenceRun] is the opener length of the fence the
    lines are in, [cur] the lines of the block so far. *)
Fixpoint blocks_loop (lines : list text) (fenceRun : nat) (cur : list text) : list text :=
  match lines with
  | [] => flush cur
  | line :: lines =>
      if (0 <? fenceRun)%nat then
        if IsMarkdownFenceClose line fenceRun then flush (cur ++ [line]) ++ blocks_loop lines 0 []
        else blocks_loop lines fenceRun (cur ++ [line])
      else if eqt (trim_space line) [] then flush cur ++ blocks_loop lines 0 []
      else
        match ParseMarkdownFenceOpen line with
        | Some (run, _) => flush cur ++ blocks_loop lines run [line]
        | None =>
            if md_heading line || bool_decide (MarkdownBlockType line = MarkdownThematicBreak)
            then flush cur ++ flush [line] ++ blocks_loop lines 0 []
            else blocks_loop lines 0 (cur ++ [line])
        end
  end.
Definition SplitBlocks (md : text) : list text := blocks_loop (split_lines md) 0 [].

(** ** Facts *)

Lemma span_app p s : fst (span p s) ++ snd (span p s) = s.
Proof. induction s as [|c s IH]; [done|]. cbn [span]. destruct (p c); [|done]. destruct (span p s). simpl in *. by rewrite IH. Qed.

Lemma span_cons p c s : p c = true → span p (c :: s) = (c :: fst (span p s), snd (span p s)).
Proof. intros Hp. cbn [span]. rewrite Hp. by destruct (span p s). Qed.

(** A line that starts with a slash is a paragraph line. *)
Lemma slash_paragraph s : MarkdownBlockType (backslash :: s) = MarkdownParagraph.
Proof.
  unfold MarkdownBlockType. destruct (trim_space_head backslash s) as [s' ->]; [by vm_compute..|].
  assert (has_prefix (backslash :: s') (repeat backtick 3) = false) as ->.
  { apply not_true_iff_false. rewrite has_prefix_spec. by intros [r [= Hr]]. }
  unfold IsThematicRun. by destruct (length (backslash :: s') <? 3)%nat.
Qed.

(** The fence the loop of [SplitBlocks] is in after some lines. *)
Fixpoint fence_after (fenceRun : nat) (lines : list text) : nat :=
  match lines with
  | [] => fenceRun
  | line :: lines =>
      if (0 <? fenceRun)%nat then fence_after (if IsMarkdownFenceClose line fenceRun then 0%nat else fenceRun) lines
      else if eqt (trim_space line) [] then fence_after 0 lines
      else match ParseMarkdownFenceOpen line with Some (run, _) => fence_after run lines | None => fence_after 0 lines end
  end.
Definition fences_closed (md : text) : Prop := fence_after 0 (split_lines md) = 0%nat.

Lemma split_lines_nonempty s : split_lines s ≠ [].
Proof. destruct s as [|c s]; [done|]. cbn [split_lines]. destruct (is_byte newline c); [done|]. by destruct (split_lines s). Qed.

Lemma split_lines_app s t : split_lines (s ++ newline :: t) = split_lines s ++ split_lines t.
Proof.
  induction s as [|c s IH]; [done|]. cbn [app split_lines]. destruct (is_byte newline c); [by rewrite IH|]. rewrite IH.
  pose proof (split_lines_nonempty s). by destruct (split_lines s).
Qed.

(** A blank line outside a fence ends the block. *)
Lemma blocks_loop_app ls rest fenceRun cur : fence_after fenceRun ls = 0%nat →
  blocks_loop (ls ++ [] :: rest) fenceRun cur = blocks_loop ls fenceRun cur ++ blocks_loop rest 0 [].
Proof.
  revert fenceRun cur. induction ls as [|line ls IH]; intros fenceRun cur Hf; cbn [fence_after] in Hf.
  { by subst fenceRun. }
  cbn [app blocks_loop]. destruct (0 <? fenceRun)%nat.
  - destruct (IsMarkdownFenceClose line fenceRun); rewrite IH by done; [by rewrite app_assoc|done].
  - destruct (eqt (trim_space line) []); [by rewrite IH, app_assoc|]. destruct (ParseMarkdownFenceOpen line) as [[run info]|].
    + by rewrite IH, app_assoc.
    + destruct (_ || _); rewrite IH by done; [by rewrite !app_assoc|done].
Qed.

(** Splitting is compositional at an empty line outside a fence. *)
Lemma SplitBlocks_gap a b : fences_closed a → SplitBlocks (a ++ newline :: newline :: b) = SplitBlocks a ++ SplitBlocks b.
Proof.
  intros Hf. unfold SplitBlocks. rewrite split_lines_app.
  change (split_lines (newline :: b)) with ([] :: split_lines b). by apply blocks_loop_app.
Qed.

(** ** Properties *)

(** Escaping a paragraph line is reversible and always effective: the escaped
    line never reads as a fence or a thematic break, and unescaping it gives back
    the original line, whatever slashes it had. *)
Theorem escape_reversible line :
  MarkdownBlockCollision (EscapeMarkdownBlockCollision line) = false ∧
  match UnescapeMarkdownBlockCollision (EscapeMarkdownBlockCollision line) with
  | Some (original, kind) => original = line ∧ kind = MarkdownBlockType (snd (span (is_byte backslash) line))
  | None => EscapeMarkdownBlockCollision line = line
  end.
Proof.
  unfold EscapeMarkdownBlockCollision. destruct (MarkdownBlockCollision (snd (span (is_byte backslash) line))) eqn:Hc.
  - split; [unfold MarkdownBlockCollision; by rewrite slash_paragraph|]. unfold UnescapeMarkdownBlockCollision.
    rewrite span_cons by done. cbn [length Nat.eqb]. apply negb_true_iff in Hc. by rewrite Hc.
  - split.
    + destruct line as [|c line]; [done|]. destruct (is_byte backslash c) eqn:Hb.
      * apply bool_decide_eq_true in Hb as ->. unfold MarkdownBlockCollision. by rewrite slash_paragraph.
      * cbn [span] in Hc. by rewrite Hb in Hc.
    + unfold UnescapeMarkdownBlockCollision. destruct (span (is_byte backslash) line) as [slashes s]. cbn [snd] in Hc.
      destruct (length slashes =? 0)%nat; [done|]. apply negb_false_iff in Hc. by rewrite Hc.
Qed.

Example headings : ParseHeading (txt "h2.  Two") = Some (2, txt "Two") ∧ ParseHeading (txt "h7. No") = None ∧
  ParseCodeOpen (txt "{code:go|x=1}tail") = Some (txt "code", txt "go|x=1", txt "tail") ∧
  ParsePanelOpen (txt "{panel}") = Some ([], []) ∧ ParseListLine (txt " *# item") = Some (txt "*#", txt "item") ∧
  IsHorizontalRule (txt "----- ") = true ∧ IsHorizontalRule (txt "---") = false.
Proof. split_and!; reflexivity. Qed.

Example split_demo : SplitBlocks (join_lines [txt "# a"; txt "x"; txt "y"; []; txt "```go"; []; txt "z"; txt "```"; txt "***"; txt "w"]) =
  [txt "# a"; join_lines [txt "x"; txt "y"]; join_lines [txt "```go"; []; txt "z"; txt "```"]; txt "***"; txt "w"].
Proof. vm_compute. reflexivity. Qed.
End WikiScanner.
