(* ===== verification/WikiMerge.v ===== *)
(** * Block-level merge of an edited description (internal/wikimerge)

    [Merge] maps an edited Markdown view back onto the base Jira wiki body:
    untouched blocks keep their bytes, moved blocks are reused, changed blocks are
    converted.  The renderer (wikimd) and the converter (mdwiki), with their
    options, are parameters of the model; the block scanners, the alignment and
    the construct gate are definitions. *)

From stdpp Require Import vector.
From S2P Require Import Prelude BlockAlign GoText Identifiers Encoding WikiScanner.
Import BlockAlign GoText Encoding WikiScanner.

Module WikiMerge.
Local Open Scope Z_scope.

(** ** The block scanner (scan.go) *)

Record block := { start : nat; end_ : nat }.
Record wline := { wtext : text; wstart : nat; wend : nat }.

(** The loop of [splitLinesOffsets] at byte [i], over the bytes [rest] that are
    left. *)
Fixpoint split_loop (s rest : text) (lineStart i : nat) : list wline :=
  match rest with
  | [] => [{| wtext := drop lineStart s; wstart := lineStart; wend := length s |}]
  | c :: rest' =>
      if is_byte newline c then
        {| wtext := slice s lineStart i; wstart := lineStart; wend := i |} :: split_loop s rest' (S i) (S i)
      else if is_byte cr c then
        let line := {| wtext := slice s lineStart i; wstart := lineStart; wend := i |} in
        match rest' with
        | c' :: rest'' => if is_byte newline c' then line :: split_loop s rest'' (S (S i)) (S (S i))
                          else line :: split_loop s rest' (S i) (S i)
        | [] => line :: split_loop s rest' (S i) (S i)
        end
      else split_loop s rest' lineStart (S i)
  end.
Definition splitLinesOffsets (s : text) : list wline := split_loop s s 0 0.

Definition line_text (lines : list wline) (i : nat) : text := match lines !! i with Some l => wtext l | None => [] end.

Definition wikiTableRowEnd (lines : list wline) (start : nat) : nat := TableRowEnd (length lines) start (line_text lines).

Definition isSpecialStart (line : text) : bool :=
  IsHeading line || IsCodeOpen line || IsQuoteOpen line || IsPanelOpen line || IsHorizontalRule line || has_prefix line (txt "|") ||
  IsListLine line.

(** The first line after [i] that holds [closeTag], among the [count] that are
    left; the last line if there is none. *)
Fixpoint macro_loop (count : nat) (lines : list wline) (j : nat) (closeTag : text) : nat :=
  match count with
  | O => (length lines - 1)%nat
  | S count => if contains (line_text lines j) closeTag then j else macro_loop count lines (S j) closeTag
  end.
Definition macroEnd (lines : list wline) (i : nat) (rest closeTag : text) : nat :=
  if contains rest closeTag then i else macro_loop (length lines - S i) lines (S i) closeTag.

(** The inner loops of the scanner: the first line after the table, the list and
    the paragraph. *)
Fixpoint table_loop (fuel : nat) (lines : list wline) (j : nat) : nat :=
  match fuel with
  | O => j
  | S fuel => if (j <? length lines)%nat && has_prefix (line_text lines j) (txt "|") then table_loop fuel lines (S (wikiTableRowEnd lines j)) else j
  end.
Fixpoint list_loop (fuel : nat) (lines : list wline) (j : nat) : nat :=
  match fuel with
  | O => j
  | S fuel => if (j <? length lines)%nat && IsListLine (line_text lines j) then list_loop fuel lines (S j) else j
  end.
Fixpoint paragraph_loop (fuel : nat) (lines : list wline) (j : nat) : nat :=
  match fuel with
  | O => j
  | S fuel =>
      if (j <? length lines)%nat && negb (eqt (trim_space (line_text lines j)) [] || isSpecialStart (line_text lines j))
      then paragraph_loop fuel lines (S j) else j
  end.

(** The last line of the block that starts at line [i]. *)
Definition block_last (lines : list wline) (i : nat) : nat :=
  let ln := line_text lines i in
  if IsHeading ln || IsHorizontalRule ln then i
  else match ParseCodeOpen ln with
  | Some (name, _, rest) => macroEnd lines i rest (txt "{" ++ name ++ txt "}")
  | None =>
  match ParseQuoteOpen ln with
  | Some rest => macroEnd lines i rest (txt "{quote}")
  | None =>
  match ParsePanelOpen ln with
  | Some (_, rest) => macroEnd lines i rest (txt "{panel}")
  | None =>
  if has_prefix ln (txt "|") then (table_loop (length lines) lines i - 1)%nat
  else if IsListLine ln then (list_loop (length lines) lines i - 1)%nat
  else (paragraph_loop (length lines) lines (S i) - 1)%nat
  end end end.

(** The loop of [scanWikiBlocks]: the first and last lines of each block. *)
Fixpoint scan_loop (fuel : nat) (lines : list wline) (i : nat) : list (nat * nat) :=
  match fuel with
  | O => []
  | S fuel =>
      if (i <? length lines)%nat then
        if eqt (trim_space (line_text lines i)) [] then scan_loop fuel lines (S i)
        else let e := block_last lines i in (i, e) :: scan_loop fuel lines (S e)
      else []
  end.

Definition line_start (lines : list wline) (i : nat) : nat := match lines !! i with Some l => wstart l | None => 0%nat end.
Definition line_end (lines : list wline) (i : nat) : nat := match lines !! i with Some l => wend l | None => 0%nat end.
Definition block_of_lines (lines : list wline) (r : nat * nat) : block := {| start := line_start lines r.1; end_ := line_end lines r.2 |}.

Definition scanWikiBlocks (base : text) : list block :=
  let lines := splitLinesOffsets base in map (block_of_lines lines) (scan_loop (length lines) lines 0).

(** ** Constructs (construct.go) *)

Definition lower_letter (c : ascii) : bool := in_rng 97 122 (byte_val c).
Definition upper_letter (c : ascii) : bool := in_rng 65 90 (byte_val c).
Definition letter (c : ascii) : bool := lower_letter c || upper_letter c.
Definition alnum (c : ascii) : bool := letter c || in_rng 48 57 (byte_val c).
Definition none_of (l : list ascii) (c : ascii) : bool := negb (bool_decide (c ∈ l)).

(** Each recogniser gives the length of the match at the head of the text. *)

(** [cMention]: an opening bracket, a tilde, at least one byte, a bracket. *)
Definition mention_at (s : text) : option nat :=
  match s with
  | c :: d :: s =>
      if is_byte "["%char c && is_byte "~"%char d then
        let '(name, s) := span (none_of ["]"%char; newline]) s in
        if (0 <? length name)%nat && bool_decide (head s = Some "]"%char) then Some (length name + 3)%nat else None
      else None
  | _ => None
  end.

(** A name with an extension of one to six letters and digits. *)
Definition file_name (name : text) : bool :=
  let '(ext, stem) := span alnum (reverse name) in
  in_rng 1 6 (Z.of_nat (length ext)) && bool_decide (head stem = Some "."%char) && (1 <? length stem)%nat.

(** [cImage]: a file name between exclamation marks, maybe with options. *)
Definition image_at (s : text) : option nat :=
  match s with
  | c :: s =>
      if is_byte "!"%char c then
        let '(name, s) := span (none_of ["!"%char; newline; "|"%char]) s in
        if file_name name then
          let '(opts, s) := match s with
                            | c :: _ => if is_byte "|"%char c then span (none_of ["!"%char; newline]) s else ([], s)
                            | [] => ([], s)
                            end in
          if bool_decide (head s = Some "!"%char) then Some (length name + length opts + 2)%nat else None
        else None
      else None
  | [] => None
  end.

(** [cMono]: doubled braces around bytes that are neither a closing brace nor a
    newline. *)
Definition mono_at (s : text) : option nat :=
  if has_prefix s (txt "{{") then
    let '(body, s) := span (none_of ["}"%char; newline]) (drop 2 s) in
    if has_prefix s (txt "}}") then Some (length body + 4)%nat else None
  else None.

(** [cLink]: a bracketed line with a bar after its first byte, which is no
    tilde. *)
Definition link_at (s : text) : option nat :=
  match s with
  | c :: s =>
      if is_byte "["%char c then
        let '(body, s) := span (none_of ["]"%char; newline]) s in
        match body with
        | d :: label =>
            if negb (is_byte "~"%char d) && existsb (is_byte "|"%char) label && bool_decide (head s = Some "]"%char)
            then Some (length body + 2)%nat else None
        | [] => None
        end
      else None
  | [] => None
  end.

(** [cBrace]: an opening brace, a letter, letters and digits. *)
Definition brace_at (s : text) : option nat :=
  match s with
  | c :: d :: s => if is_byte "{"%char c && letter d then Some (length (fst (span alnum s)) + 2)%nat else None
  | _ => None
  end.

(** [FindAllStringIndex]: the matches from left to right, none overlapping, with
    their offsets. *)
Fixpoint find_all (at_ : text → option nat) (fuel : nat) (s : text) (i : nat) : list (nat * text) :=
  match fuel, s with
  | S fuel, c :: s' =>
      match at_ s with
      | Some k => (i, take k s) :: find_all at_ fuel (drop k s) (i + k)
      | None => find_all at_ fuel s' (S i)
      end
  | _, _ => []
  end.
Definition FindAll (at_ : text → option nat) (s : text) : list (nat * text) := find_all at_ (length s) s 0.

Definition to_lower (c : ascii) : ascii := if upper_letter c then ascii_of_N (N_of_ascii c + 32) else c.

Definition braceKind (name : text) : text :=
  let name := map to_lower name in
  if existsb (eqt name) [txt "panel"; txt "color"; txt "code"; txt "noformat"; txt "quote"] then name else txt "macro".

(** [string([]rune(s)[:n])]: an undecodable byte becomes U+FFFD. *)
Fixpoint rune_prefix (n : nat) (s : text) : text :=
  match n, s with
  | S n, _ :: _ =>
      let '(r, sz) := decode_rune s in
      (if (r =? RuneError) && (sz =? 1)%nat then ["239"%char; "191"%char; "189"%char] else take sz s) ++ rune_prefix n (drop sz s)
  | _, _ => []
  end.
(** [len([]rune(s))]. *)
Fixpoint rune_count (fuel : nat) (s : text) : nat :=
  match fuel, s with
  | S fuel, _ :: _ => S (rune_count fuel (drop (snd (decode_rune s)) s))
  | _, _ => 0
  end.
Definition clipText (s : text) : text := if (60 <? rune_count (length s) s)%nat then rune_prefix 60 s ++ txt "…" else s.

Record Construct := { Kind : text; CText : text }.
#[export] Instance Construct_eq_dec : EqDecision Construct.
Proof. solve_decision. Defined.

(** The keys [constructCounts] bumps, in order. *)
Definition construct_keys (s : text) : list (text * text) :=
  let keys kind at_ := map (λ m : nat * text, (txt kind, clipText m.2)) (FindAll at_ s) in
  keys "mention" mention_at ++ keys "image" image_at ++ keys "monospace" mono_at ++ keys "link" link_at ++
  omap (λ '(i, m), if (0 <? i)%nat && bool_decide (s !! (i - 1)%nat = Some "{"%char) then None
                   else Some (braceKind (drop 1 m), clipText m)) (FindAll brace_at s).

Definition bump (counts : gmap (text * text) Z) (key : text * text) : gmap (text * text) Z :=
  <[key := default 0 (counts !! key) + 1]> counts.
Definition constructCounts (s : text) : gmap (text * text) Z := foldl bump ∅ (construct_keys s).

Definition construct_le (a b : Construct) : Prop :=
  if eqt (Kind a) (Kind b) then text_ltb (CText b) (CText a) = false else text_ltb (Kind a) (Kind b) = true.
#[export] Instance construct_le_dec : RelDecision construct_le.
Proof. intros a b. unfold construct_le. destruct (eqt _ _); apply _. Defined.

(** The keys of a map are distinct, so the order of its iteration does not show
    after sorting. *)
Definition removedConstructs (base out : text) : list Construct :=
  let b := constructCounts base in
  let o := constructCounts out in
  merge_sort construct_le
    (omap (λ '(key, bc), if default 0 (o !! key) <? bc then Some {| Kind := key.1; CText := key.2 |} else None) (map_to_list b)).

(** ** Merging (wikimerge.go) *)

Record Report := { Unchanged : Z; Moved : Z; Converted : Z; Removed : Z; RemovedConstructs : list Construct }.
Definition zero_report : Report := {| Unchanged := 0; Moved := 0; Converted := 0; Removed := 0; RemovedConstructs := [] |}.

(** [BlockError] carries the block and the converter's error, or none of its own
    for an edit inside a construct of several blocks. *)
Inductive mergeError :=
| AlignmentError
| BlockError (block : text) (err : option text)
| LossError (removed : list Construct).

Inductive planItem := Raw (bi : nat) | Conv (conv : text).

(** A piece of a base block: its Markdown, its block and its place in it. *)
Record unit_ := { utext : text; ublock : nat; upiece : nat }.

Definition splitMDBlocks (md : text) : list text :=
  omap (λ b, let t := trim_space b in if eqt t [] then None else Some t) (SplitBlocks md).

Definition lcs (a b : list text) : list Z * list Z * bool := default ([], [], false) (LCS a b).

Definition block_bytes (base : text) (blk : block) : text := slice base (start blk) (end_ blk).

(** A block is kept when its pieces match consecutive edited blocks. *)
Fixpoint pieces_kept (ms : list Z) (prev : Z) : bool :=
  match ms with
  | [] => true
  | m :: ms => negb ((m <? 0) || ((0 <=? prev) && negb (m =? prev + 1))) && pieces_kept ms m
  end.

(** The maximal run of raw items after block [bi]: its last block, and the plan
    that is left. *)
Fixpoint raw_run (bi : nat) (plan : list planItem) : nat * list planItem :=
  match plan with
  | Raw b :: plan' => if (b =? S bi)%nat then raw_run b plan' else (bi, plan)
  | _ => (bi, plan)
  end.

Definition block_at (blocks : list block) (bi : nat) : block := match blocks !! bi with Some b => b | None => {| start := 0; end_ := 0 |} end.
Definition gap : text := [newline; newline].

(** The loop of [assemble]. *)
Fixpoint assemble_loop (fuel : nat) (base : text) (blocks : list block) (plan : list planItem) (emitted : bool) : text :=
  match fuel, plan with
  | S fuel, Raw bi :: plan =>
      let '(last, rest) := raw_run bi plan in
      (if negb emitted && (bi =? 0)%nat then take (start (block_at blocks 0)) base else if emitted then gap else []) ++
      slice base (start (block_at blocks bi)) (end_ (block_at blocks last)) ++
      (if bool_decide (length rest = 0%nat) && (S last =? length blocks)%nat then drop (end_ (block_at blocks last)) base else []) ++
      assemble_loop fuel base blocks rest true
  | S fuel, Conv conv :: plan => (if emitted then gap else []) ++ trim_right_nl conv ++ assemble_loop fuel base blocks plan true
  | _, _ => []
  end.
Definition assemble (base : text) (blocks : list block) (plan : list planItem) : text :=
  match plan with
  | [] => if (length blocks =? 0)%nat then base else []
  | _ => assemble_loop (length plan) base blocks plan false
  end.

Section merge.
(** [wikimd.Render] and [mdwiki.ConvertBlockWithOptions] at the options of the
    merge; the error of the converter is its message. *)
Variable Render : text → text.
Variable ConvertBlock : text → result text text.

Definition block_pieces (base : text) (blk : block) : list text :=
  match splitMDBlocks (Render (block_bytes base blk)) with
  | [] => [trim_space (block_bytes base blk)]
  | ps => ps
  end.
Definition block_units (base : text) (bi : nat) (blk : block) : list unit_ :=
  imap (λ pj p, {| utext := p; ublock := bi; upiece := pj |}) (block_pieces base blk).
Definition units (base : text) (blocks : list block) : list unit_ := concat (imap (block_units base) blocks).

(** The pieces of block [bi] and the unit of its first. *)
Definition pieces (base : text) (blocks : list block) (bi : nat) : nat := length (block_pieces base (block_at blocks bi)).
Definition firstUnit (base : text) (blocks : list block) (bi : nat) : nat :=
  length (concat (map (block_pieces base) (take bi blocks))).

Definition block_matches (base : text) (blocks : list block) (baseMatch : list Z) (bi : nat) : list Z :=
  slice baseMatch (firstUnit base blocks bi) (firstUnit base blocks bi + pieces base blocks bi).
Definition kept (base : text) (blocks : list block) (baseMatch : list Z) (bi : nat) : bool :=
  (0 <? pieces base blocks bi)%nat && pieces_kept (block_matches base blocks baseMatch bi) (-2).

(** The first block that is matched in part: it stops the merge. *)
Definition partial_block (base : text) (blocks : list block) (baseMatch : list Z) (bi : nat) : option mergeError :=
  if kept base blocks baseMatch bi || (pieces base blocks bi <=? 1)%nat then None
  else if existsb (λ m, 0 <=? m) (block_matches base blocks baseMatch bi)
  then Some (BlockError (match units base blocks !! firstUnit base blocks bi with Some u => utext u | None => [] end) None)
  else None.

(** The pool of single-piece blocks that were not kept, by their Markdown. *)
Definition add_pool (base : text) (blocks : list block) (baseMatch : list Z) (pool : gmap text (list nat)) (bi : nat) : gmap text (list nat) :=
  if negb (kept base blocks baseMatch bi) && (pieces base blocks bi =? 1)%nat then
    let key := match units base blocks !! firstUnit base blocks bi with Some u => utext u | None => [] end in
    <[key := default [] (pool !! key) ++ [bi]]> pool
  else pool.

(** The state of the loop over the edited blocks. *)
Record progress := { pool : gmap text (list nat); reused : gset nat; plan : list planItem; counts : Report }.
Definition count (u m c : Z) (r : Report) : Report :=
  {| Unchanged := Unchanged r + u; Moved := Moved r + m; Converted := Converted r + c; Removed := Removed r;
     RemovedConstructs := RemovedConstructs r |}.

(** An edited block that no kept block accounts for: a move reuses the bytes of
    the first pooled block, anything else is converted. *)
Definition edit_new (st : progress) (txt : text) : result mergeError progress :=
  match default [] (pool st !! txt) with
  | bi :: q => Ok {| pool := <[txt := q]> (pool st); reused := {[bi]} ∪ reused st; plan := plan st ++ [Raw bi]; counts := count 0 1 0 (counts st) |}
  | [] =>
      match ConvertBlock txt with
      | Err e => Err (BlockError txt (Some e))
      | Ok conv => Ok {| pool := pool st; reused := reused st; plan := plan st ++ [Conv conv]; counts := count 0 0 1 (counts st) |}
      end
  end.

(** One edited block, [u] the unit it matches or -1. *)
Definition edit_step (base : text) (blocks : list block) (baseMatch : list Z) (st : progress) (u : Z) (txt : text) : result mergeError progress :=
  match (if 0 <=? u then units base blocks !! Z.to_nat u else None) with
  | Some un =>
      if kept base blocks baseMatch (ublock un) then
        if (upiece un =? 0)%nat
        then Ok {| pool := pool st; reused := reused st; plan := plan st ++ [Raw (ublock un)]; counts := count 1 0 0 (counts st) |}
        else Ok st
      else edit_new st txt
  | None => edit_new st txt
  end.

Fixpoint edit_loop (base : text) (blocks : list block) (baseMatch editMatch : list Z) (edited : list text) (e : nat) (st : progress)
    : result mergeError progress :=
  match edited with
  | [] => Ok st
  | txt :: edited =>
      match edit_step base blocks baseMatch st (default (-1) (editMatch !! e)) txt with
      | Err err => Err err
      | Ok st => edit_loop base blocks baseMatch editMatch edited (S e) st
      end
  end.

(** The merged body, the report and the error; [allowLoss] is the option. *)
Definition Merge (base editedDescMD : text) (allowLoss : bool) : option text * option Report * option mergeError :=
  let blocks := scanWikiBlocks base in
  let edited := splitMDBlocks editedDescMD in
  let '(baseMatch, editMatch, aligned) := lcs (map utext (units base blocks)) edited in
  if negb aligned then (None, None, Some AlignmentError)
  else
    match first_some (λ _, partial_block base blocks baseMatch) 0 (seq 0 (length blocks)) with
    | Some err => (None, None, Some err)
    | None =>
        let pool := foldl (add_pool base blocks baseMatch) ∅ (seq 0 (length blocks)) in
        match edit_loop base blocks baseMatch editMatch edited 0 {| pool := pool; reused := ∅; plan := []; counts := zero_report |} with
        | Err err => (None, None, Some err)
        | Ok st =>
            let removed := length (filter (λ bi, kept base blocks baseMatch bi = false ∧ bi ∉ reused st) (seq 0 (length blocks))) in
            let out := assemble base blocks (plan st) in
            let lost := removedConstructs base out in
            let rep := {| Unchanged := Unchanged (counts st); Moved := Moved (counts st); Converted := Converted (counts st);
                          Removed := Z.of_nat removed; RemovedConstructs := lost |} in
            if negb (length lost =? 0)%nat && negb allowLoss then (None, Some rep, Some (LossError lost))
            else (Some out, Some rep, None)
        end
    end.
End merge.
(** ** Semantic fingerprints (reconcile.go) *)

Definition reconcileWikiBlockKind (raw : text) : text :=
  let line := fst (span (λ c, negb (is_byte cr c || is_byte newline c)) raw) in
  if IsHeading line then txt "heading"
  else if IsCodeOpen line then txt "code"
  else if IsQuoteOpen line then txt "quote"
  else if IsPanelOpen line then txt "panel"
  else if has_prefix line (txt "|") then txt "table"
  else if IsListLine line then txt "list"
  else if IsHorizontalRule line then txt "rule"
  else txt "paragraph".

Record SemanticBlock := { SKind : text; SSHA256 : text }.

(** [None] is the refusal beyond [max] blocks; the renderer runs at its default
    options, and SHA-256 is a parameter. *)
Definition SemanticBlocks (sha256 : text → vec ascii 32) (Render : text → text) (body : text) (max : Z) : option (list SemanticBlock) :=
  let blocks := scanWikiBlocks body in
  if (max <? 0) || (max <? Z.of_nat (length blocks)) then None
  else Some (map (λ b, let raw := block_bytes body b in
                       {| SKind := reconcileWikiBlockKind raw; SSHA256 := hex_encode (vec_to_list (sha256 (Render raw))) |}) blocks).

(** ** Lines *)

(** The bytes of one line break. *)
Definition is_break (s : text) : Prop := s = [newline] ∨ s = [cr] ∨ s = [cr; newline].

(** The lines from byte [from] to the end, with their breaks. *)
Fixpoint lines_ok (s : text) (from : nat) (lines : list wline) : Prop :=
  match lines with
  | [] => False
  | l :: rest =>
      wstart l = from ∧ (from ≤ wend l ≤ length s)%nat ∧ wtext l = slice s from (wend l) ∧
      match rest with
      | [] => wend l = length s
      | m :: _ => (wend l < wstart m ≤ length s)%nat ∧ is_break (slice s (wend l) (wstart m)) ∧ lines_ok s (wstart m) rest
      end
  end.

Lemma lines_ok_cons s from e next lines : (from ≤ e < next)%nat → (next ≤ length s)%nat → is_break (slice s e next) →
  lines_ok s next lines → lines_ok s from ({| wtext := slice s from e; wstart := from; wend := e |} :: lines).
Proof.
  intros He Hn Hb Hl. cbn [lines_ok wstart wend wtext]. destruct lines as [|m rest]; [done|]. pose proof Hl as (<- & _).
  split_and!; try done; lia.
Qed.

Lemma drop_cons {A : Type} (s : list A) (i : nat) c rest : c :: rest = drop i s → s !! i = Some c ∧ drop (S i) s = rest ∧ (i < length s)%nat.
Proof.
  intros Hr. assert (s !! i = Some c) as Hc by (rewrite <- (Nat.add_0_r i), <- lookup_drop, <- Hr; done).
  pose proof (lookup_lt_Some _ _ _ Hc). rewrite (drop_S _ _ _ Hc) in Hr. by injection Hr as ->.
Qed.

Lemma slice_one {A : Type} (s : list A) (i : nat) c rest : c :: rest = drop i s → slice s i (S i) = [c].
Proof. intros Hr. unfold slice. rewrite <- Hr. by replace (S i - i)%nat with 1%nat by lia. Qed.

Lemma split_loop_ok n s rest lineStart i : (length rest ≤ n)%nat → rest = drop i s → (lineStart ≤ i ≤ length s)%nat →
  lines_ok s lineStart (split_loop s rest lineStart i).
Proof.
  revert rest lineStart i. induction n as [|n IH]; intros rest lineStart i Hn Hr Hi.
  { destruct rest; [|simpl in Hn; lia]. cbn [split_loop lines_ok wstart wend wtext]. split_and!; [done|lia|lia|by rewrite slice_to_end|done]. }
  destruct rest as [|c rest]; [cbn [split_loop lines_ok wstart wend wtext]; split_and!; [done|lia|lia|by rewrite slice_to_end|done]|]. cbn [length] in Hn.
  destruct (drop_cons _ _ _ _ Hr) as (Hc & Hd & Hl). cbn [split_loop].
  assert (∀ b, c = b → is_break [b] → lines_ok s lineStart ({| wtext := slice s lineStart i; wstart := lineStart; wend := i |} ::
    split_loop s rest (S i) (S i))) as Hone.
  { intros b -> Hb. apply (lines_ok_cons s lineStart i (S i)); [lia|lia|by rewrite (slice_one _ _ _ _ Hr)|]. apply IH; [lia|done|lia]. }
  destruct (is_byte newline c) eqn:Hnl; [apply bool_decide_eq_true in Hnl; apply (Hone newline); [done|by left]|].
  destruct (is_byte cr c) eqn:Hcr; [|apply IH; [lia|done|lia]]. apply bool_decide_eq_true in Hcr.
  destruct rest as [|c' rest]; [apply (Hone cr); [done|right; by left]|].
  destruct (is_byte newline c') eqn:Hnl'; [|apply (Hone cr); [done|right; by left]]. apply bool_decide_eq_true in Hnl'. subst.
  symmetry in Hd. destruct (drop_cons _ _ _ _ Hd) as (_ & Hd' & Hl').
  apply (lines_ok_cons s lineStart i (S (S i))); [lia|lia| |apply IH; [simpl in Hn; lia|done|lia]].
  right. right. rewrite <- (slice_app s i (S i)) by lia. by rewrite (slice_one _ _ _ _ Hr), (slice_one _ _ _ _ Hd).
Qed.

Lemma splitLinesOffsets_ok s : lines_ok s 0 (splitLinesOffsets s).
Proof. apply (split_loop_ok (length s)); [done|by rewrite drop_0|lia]. Qed.

Lemma lines_ok_lookup s from lines k l : lines_ok s from lines → lines !! k = Some l →
  (from ≤ wstart l ≤ wend l)%nat ∧ (wend l ≤ length s)%nat ∧ wtext l = slice s (wstart l) (wend l).
Proof.
  revert from k. induction lines as [|x lines IH]; intros from k Ho Hk; [done|]. destruct Ho as (Hs & He & Ht & Hrest).
  destruct k as [|k]; [injection Hk as <-; rewrite Hs; split_and!; try done; lia|].
  destruct lines as [|m rest]; [done|]. destruct Hrest as (Hm & _ & Hrest). cbn [lookup] in Hk. destruct (IH _ _ Hrest Hk) as (? & ? & ?).
  split_and!; [lia..|done].
Qed.

Lemma lines_ok_order s from lines j k l m : lines_ok s from lines → (j < k)%nat → lines !! j = Some l → lines !! k = Some m →
  (wend l < wstart m)%nat.
Proof.
  revert from j k. induction lines as [|x lines IH]; intros from j k Ho Hjk Hj Hk; [done|]. destruct Ho as (Hs & He & Ht & Hrest).
  destruct lines as [|y rest]; [destruct j, k; try done; lia|]. destruct Hrest as (Hy & _ & Hrest). destruct k as [|k]; [lia|].
  destruct j as [|j]; [|eapply IH; [exact Hrest| |exact Hj|exact Hk]; lia]. injection Hj as <-. cbn [lookup] in Hk.
  destruct (lines_ok_lookup _ _ _ _ _ Hrest Hk) as (? & _ & _). lia.
Qed.

(** ** Block ranges *)

Lemma table_loop_bounds fuel lines j : (j ≤ length lines)%nat → (j ≤ table_loop fuel lines j ≤ length lines)%nat ∧
  ((0 < fuel)%nat → (j < length lines)%nat → has_prefix (line_text lines j) (txt "|") = true → (j < table_loop fuel lines j)%nat).
Proof.
  assert (∀ m start i, (start < i)%nat → (i + m ≤ length lines)%nat →
    (start ≤ row_end_loop m start i (line_text lines))%nat ∧ (row_end_loop m start i (line_text lines) < length lines)%nat) as Hrow.
  { induction m as [|m IH]; intros start i Hs Hi; cbn [row_end_loop]; [lia|].
    destruct (_ || _); [lia|]. destruct (row_closed _); [lia|]. apply IH; lia. }
  assert (∀ start, (start < length lines)%nat → (start ≤ wikiTableRowEnd lines start < length lines)%nat) as Hend.
  { intros start Hs. unfold wikiTableRowEnd, TableRowEnd. destruct (_ || _); [lia|].
    destruct (Hrow (length lines - S start)%nat start (S start)) as [? ?]; lia. }
  revert j. induction fuel as [|fuel IH]; intros j Hj; cbn [table_loop]; [lia|].
  destruct (j <? length lines)%nat eqn:Hlt; cbn [andb]; bool_hyps; [|lia]. specialize (Hend j Hlt).
  destruct (has_prefix (line_text lines j) (txt "|")) eqn:Hp; [|lia].
  destruct (IH (S (wikiTableRowEnd lines j)) ltac:(lia)) as [? _]. lia.
Qed.

Lemma list_loop_bounds fuel lines j : (j ≤ length lines)%nat → (j ≤ list_loop fuel lines j ≤ length lines)%nat ∧
  ((0 < fuel)%nat → (j < length lines)%nat → IsListLine (line_text lines j) = true → (j < list_loop fuel lines j)%nat).
Proof.
  revert j. induction fuel as [|fuel IH]; intros j Hj; cbn [list_loop]; [lia|].
  destruct (j <? length lines)%nat eqn:Hlt; cbn [andb]; bool_hyps; [|lia]. destruct (IsListLine _); [|lia].
  destruct (IH (S j) ltac:(lia)) as [? _]. lia.
Qed.

Lemma paragraph_loop_bounds fuel lines j : (j ≤ length lines)%nat → (j ≤ paragraph_loop fuel lines j ≤ length lines)%nat.
Proof.
  revert j. induction fuel as [|fuel IH]; intros j Hj; cbn [paragraph_loop]; [lia|].
  destruct (j <? length lines)%nat eqn:Hlt; cbn [andb]; bool_hyps; [|lia]. destruct (negb _); [|lia].
  specialize (IH (S j) ltac:(lia)). lia.
Qed.

Lemma macroEnd_bounds lines i rest tag : (i < length lines)%nat → (i ≤ macroEnd lines i rest tag < length lines)%nat.
Proof.
  intros Hi. unfold macroEnd. destruct (contains rest tag); [lia|].
  assert (∀ m j, (i ≤ j)%nat → (j + m = length lines)%nat → (i ≤ macro_loop m lines j tag < length lines)%nat) as Hloop; [|apply Hloop; lia].
  induction m as [|m IH]; intros j Hj Hc; cbn [macro_loop]; [lia|]. destruct (contains _ _); [lia|]. apply IH; lia.
Qed.

(** A block ends at or after the line it starts at. *)
Lemma block_last_bounds lines i : (i < length lines)%nat → (i ≤ block_last lines i < length lines)%nat.
Proof.
  intros Hi. unfold block_last. destruct (_ || _); [lia|].
  destruct (ParseCodeOpen _) as [[[? ?] ?]|]; [by apply macroEnd_bounds|].
  destruct (ParseQuoteOpen _) as [?|]; [by apply macroEnd_bounds|].
  destruct (ParsePanelOpen _) as [[? ?]|]; [by apply macroEnd_bounds|].
  destruct (has_prefix _ _) eqn:Hp; [|destruct (IsListLine _) eqn:Hl].
  - destruct (table_loop_bounds (length lines) lines i) as [? Hlt]; [lia|]. specialize (Hlt ltac:(lia) Hi Hp). lia.
  - destruct (list_loop_bounds (length lines) lines i) as [? Hlt]; [lia|]. specialize (Hlt ltac:(lia) Hi Hl). lia.
  - pose proof (paragraph_loop_bounds (length lines) lines (S i)). lia.
Qed.

(** The line ranges ascend, and every line that is not blank is in one. *)
Fixpoint ranges_ok (n from : nat) (ranges : list (nat * nat)) : Prop :=
  match ranges with
  | [] => True
  | (a, b) :: ranges => (from ≤ a ≤ b)%nat ∧ (b < n)%nat ∧ ranges_ok n (S b) ranges
  end.
Definition covered (ranges : list (nat * nat)) (k : nat) : Prop := ∃ r, r ∈ ranges ∧ (r.1 ≤ k ≤ r.2)%nat.

Lemma scan_loop_ok fuel lines i : (length lines ≤ i + fuel)%nat →
  let ranges := scan_loop fuel lines i in
  ranges_ok (length lines) i ranges ∧ Forall (λ r, trim_space (line_text lines r.1) ≠ []) ranges ∧
  (∀ k, (i ≤ k < length lines)%nat → trim_space (line_text lines k) ≠ [] → covered ranges k).
Proof.
  assert (∀ n a b ranges, (a ≤ b)%nat → ranges_ok n b ranges → ranges_ok n a ranges) as Hweak.
  { intros n a b [|[x y] ranges] Hab; [done|]. intros (? & ? & ?). cbn. split_and!; try done; lia. }
  revert i. induction fuel as [|fuel IH]; intros i Hf; cbn [scan_loop]; [split_and!; [done|constructor|lia]|].
  destruct (i <? length lines)%nat eqn:Hi; bool_hyps; [|split_and!; [done|constructor|lia]].
  destruct (eqt (trim_space (line_text lines i)) []) eqn:Hb.
  - apply eqt_true in Hb. destruct (IH (S i) ltac:(lia)) as (H1 & H2 & H3). split; [by eapply Hweak; [|exact H1]; lia|]. split; [done|].
    intros k Hk Hne. destruct (decide (k = i)) as [->|]; [done|]. apply H3; [lia|done].
  - apply eqt_false in Hb. pose proof (block_last_bounds lines i Hi) as He. set (e := block_last lines i) in *.
    destruct (IH (S e) ltac:(lia)) as (H1 & H2 & H3). split; [cbn; split_and!; [lia|lia|lia|done]|]. split; [by constructor|].
    intros k Hk Hne. destruct (decide (k ≤ e)%nat) as [Hke|].
    + exists (i, e). split; [left|cbn; lia].
    + destruct (H3 k ltac:(lia) Hne) as (r & Hr & ?). exists r. split; [by right|done].
Qed.

Lemma ranges_ok_order n from ranges j k x y : ranges_ok n from ranges → (j < k)%nat → ranges !! j = Some x → ranges !! k = Some y →
  (x.2 < y.1)%nat.
Proof.
  revert from j k. induction ranges as [|[a b] ranges IH]; intros from j k Ho Hjk Hj Hk; [done|]. destruct Ho as (? & ? & Ho).
  destruct k as [|k]; [lia|]. destruct j as [|j]; [|eapply (IH _ j k); [exact Ho|lia|done|done]]. injection Hj as <-. cbn [lookup] in Hk.
  assert (∀ from k y, ranges_ok n from ranges → ranges !! k = Some y → (from ≤ y.1)%nat) as Hfrom; [|specialize (Hfrom _ _ _ Ho Hk); cbn; lia].
  clear. induction ranges as [|[a b] ranges IH]; intros from k y Ho Hk; [done|]. destruct Ho as (? & ? & Ho).
  destruct k as [|k]; [injection Hk as <-; cbn; lia|]. specialize (IH _ _ _ Ho Hk). lia.
Qed.

Lemma ranges_ok_lookup n from ranges k x : ranges_ok n from ranges → ranges !! k = Some x → (x.1 ≤ x.2 < n)%nat.
Proof.
  revert from k. induction ranges as [|[a b] ranges IH]; intros from k Ho Hk; [done|]. destruct Ho as (? & ? & Ho).
  destruct k as [|k]; [injection Hk as <-; cbn; lia|]. by eapply IH.
Qed.

(** ** Blocks *)

(** The blocks are in order, apart, not empty and inside the text. *)
Definition blocks_ok (base : text) (blocks : list block) : Prop :=
  (∀ k b, blocks !! k = Some b → (start b < end_ b ≤ length base)%nat) ∧
  (∀ j k b c, (j < k)%nat → blocks !! j = Some b → blocks !! k = Some c → (end_ b < start c)%nat).

Lemma trim_space_nil : trim_space [] = [].
Proof. done. Qed.

Lemma scan_blocks_ok base : blocks_ok base (scanWikiBlocks base).
Proof.
  unfold scanWikiBlocks. set (lines := splitLinesOffsets base). pose proof (splitLinesOffsets_ok base) as Hlines. fold lines in Hlines.
  destruct (scan_loop_ok (length lines) lines 0 ltac:(lia)) as (Hr & Hne & _). set (ranges := scan_loop _ _ _) in *.
  assert (∀ k b, map (block_of_lines lines) ranges !! k = Some b → ∃ r, ranges !! k = Some r ∧ b = block_of_lines lines r) as Hmap.
  { intros k b Hk. change (map (block_of_lines lines) ranges) with (block_of_lines lines <$> ranges) in Hk.
    rewrite list_lookup_fmap in Hk. destruct (ranges !! k) as [r|]; [|done]. injection Hk as <-. by exists r. }
  split.
  - intros k b (r & Hk & ->)%Hmap. pose proof (ranges_ok_lookup _ _ _ _ _ Hr Hk) as Hx.
    destruct (lookup_lt_is_Some_2 lines r.1 ltac:(lia)) as [l Hl]. destruct (lookup_lt_is_Some_2 lines r.2 ltac:(lia)) as [m Hm].
    unfold block_of_lines, line_start, line_end. cbn. rewrite Hl, Hm. rewrite Forall_forall in Hne.
    specialize (Hne r ltac:(by eapply list_elem_of_lookup_2)). unfold line_text in Hne. rewrite Hl in Hne.
    destruct (lines_ok_lookup _ _ _ _ _ Hlines Hl) as (? & ? & Ht). destruct (lines_ok_lookup _ _ _ _ _ Hlines Hm) as (? & ? & _).
    assert (wstart l < wend l)%nat. { destruct (decide (wend l ≤ wstart l)%nat); [|lia]. rewrite Ht, slice_nil in Hne by done. done. }
    destruct (decide (r.1 = r.2)) as [He|]; [rewrite He in Hl; simplify_eq; lia|].
    pose proof (lines_ok_order _ _ _ r.1 r.2 _ _ Hlines ltac:(lia) Hl Hm). lia.
  - intros j k b c Hjk (r & Hj & ->)%Hmap (r' & Hk & ->)%Hmap. pose proof (ranges_ok_order _ _ _ _ _ _ _ Hr Hjk Hj Hk).
    pose proof (ranges_ok_lookup _ _ _ _ _ Hr Hj). pose proof (ranges_ok_lookup _ _ _ _ _ Hr Hk).
    destruct (lookup_lt_is_Some_2 lines r.2 ltac:(lia)) as [l Hl]. destruct (lookup_lt_is_Some_2 lines r'.1 ltac:(lia)) as [m Hm].
    unfold block_of_lines, line_start, line_end. cbn. rewrite Hl, Hm. eapply lines_ok_order; [exact Hlines| |exact Hl|exact Hm]. lia.
Qed.

(** ** Assembly *)

(** The parts occur in the text in order and without overlap. *)
Fixpoint in_order (parts : list text) (s : text) : Prop :=
  match parts with
  | [] => True
  | p :: parts => ∃ a b, s = a ++ p ++ b ∧ in_order parts b
  end.

Lemma in_order_pad_l a parts s : in_order parts s → in_order parts (a ++ s).
Proof. destruct parts as [|p parts]; [done|]. intros (x & y & -> & H). exists (a ++ x), y. by rewrite app_assoc. Qed.

Lemma in_order_app ps qs a b : in_order ps a → in_order qs b → in_order (ps ++ qs) (a ++ b).
Proof.
  revert a. induction ps as [|p ps IH]; intros a Hp Hq; [by apply in_order_pad_l|]. destruct Hp as (x & y & -> & Hp).
  exists x, (y ++ b). split; [by rewrite <- !app_assoc|]. by apply IH.
Qed.

Lemma in_order_one p : in_order [p] p.
Proof. exists [], []. by rewrite app_nil_r. Qed.

(** What a plan item contributes. *)
Definition item_bytes (base : text) (blocks : list block) (item : planItem) : text :=
  match item with Raw bi => block_bytes base (block_at blocks bi) | Conv conv => trim_right_nl conv end.

Definition raws (plan : list planItem) : list nat := omap (λ i, match i with Raw b => Some b | Conv _ => None end) plan.
Definition convs (plan : list planItem) : list text := omap (λ i, match i with Raw _ => None | Conv c => Some c end) plan.

Lemma raw_run_spec bi plan last rest : raw_run bi plan = (last, rest) →
  ∃ k, plan = map Raw (seq (S bi) k) ++ rest ∧ last = (bi + k)%nat.
Proof.
  revert bi. induction plan as [|[b|c] plan IH]; intros bi H; cbn [raw_run] in H; try (injection H as <- <-; exists 0%nat; by rewrite Nat.add_0_r).
  destruct (b =? S bi)%nat eqn:Hb; [|injection H as <- <-; exists 0%nat; by rewrite Nat.add_0_r]. bool_hyps. subst b.
  destruct (IH _ H) as (k & -> & ->). exists (S k). split; [done|lia].
Qed.

Lemma raw_run_all bi k : raw_run bi (map Raw (seq (S bi) k)) = ((bi + k)%nat, []).
Proof.
  revert bi. induction k as [|k IH]; intros bi; cbn [seq map raw_run]; [by rewrite Nat.add_0_r|]. rewrite Nat.eqb_refl, IH. f_equal. lia.
Qed.

Section assembly.
Context (base : text) (blocks : list block).
Hypothesis Hblocks : blocks_ok base blocks.

Lemma block_range bi : (bi < length blocks)%nat → (start (block_at blocks bi) < end_ (block_at blocks bi) ≤ length base)%nat.
Proof. intros Hbi. unfold block_at. destruct (lookup_lt_is_Some_2 blocks bi Hbi) as [b Hb]. rewrite Hb. by eapply Hblocks. Qed.

Lemma block_order bi bj : (bi < bj < length blocks)%nat → (end_ (block_at blocks bi) < start (block_at blocks bj))%nat.
Proof.
  intros Hb. unfold block_at. destruct (lookup_lt_is_Some_2 blocks bi ltac:(lia)) as [b Hi]. destruct (lookup_lt_is_Some_2 blocks bj ltac:(lia)) as [c Hj].
  rewrite Hi, Hj. destruct Hblocks as [_ Ho]. eapply (Ho bi bj); [lia|done|done].
Qed.

(** A run of blocks, with the bytes between them, is one range of the base. *)
Lemma run_in_order k bi : (bi + k < length blocks)%nat →
  in_order (map (item_bytes base blocks) (Raw bi :: map Raw (seq (S bi) k)))
    (slice base (start (block_at blocks bi)) (end_ (block_at blocks (bi + k)))).
Proof.
  revert bi. induction k as [|k IH]; intros bi Hk.
  { rewrite Nat.add_0_r. apply in_order_one. }
  specialize (IH (S bi) ltac:(lia)). replace (S bi + k)%nat with (bi + S k)%nat in IH by lia.
  pose proof (block_range bi ltac:(lia)). pose proof (block_range (bi + S k) ltac:(lia)). pose proof (block_order bi (S bi) ltac:(lia)).
  assert (start (block_at blocks (S bi)) ≤ end_ (block_at blocks (bi + S k)))%nat.
  { destruct k as [|k]; [replace (bi + 1)%nat with (S bi) by lia; pose proof (block_range (S bi)); lia|].
    pose proof (block_order (S bi) (bi + S (S k)) ltac:(lia)). pose proof (block_range (S bi) ltac:(lia)). lia. }
  rewrite <- (slice_app base _ (start (block_at blocks (S bi)))) by lia.
  rewrite <- (slice_app base _ (end_ (block_at blocks bi)) (start (block_at blocks (S bi)))) by lia.
  change (Raw bi :: map Raw (seq (S bi) (S k))) with ([Raw bi] ++ (Raw (S bi) :: map Raw (seq (S (S bi)) k))).
  rewrite map_app, <- app_assoc. apply in_order_app; [apply in_order_one|]. by apply in_order_pad_l.
Qed.

(** The output holds the bytes of every item of the plan, in order. *)
Lemma assemble_loop_in_order fuel plan emitted : (length plan ≤ fuel)%nat → Forall (λ bi, bi < length blocks)%nat (raws plan) →
  in_order (map (item_bytes base blocks) plan) (assemble_loop fuel base blocks plan emitted).
Proof.
  revert plan emitted. induction fuel as [|fuel IH]; intros plan emitted Hf Hv; destruct plan as [|[bi|conv] plan]; try done; cbn [assemble_loop];
    cbn [length] in Hf; try lia.
  - destruct (raw_run bi plan) as [last rest] eqn:Hr. destruct (raw_run_spec _ _ _ _ Hr) as (k & -> & ->).
    assert (bi + k < length blocks)%nat as Hk.
    { destruct k as [|k]; [apply Forall_cons in Hv as [? _]; lia|]. rewrite Forall_forall in Hv. apply Hv. unfold raws.
      apply list_elem_of_omap. exists (Raw (bi + S k)). split; [|done]. right. apply elem_of_app. left. apply list_elem_of_fmap.
      exists (bi + S k)%nat. split; [done|]. apply elem_of_seq. lia. }
    rewrite app_comm_cons, map_app. apply in_order_pad_l. rewrite length_app in Hf. apply in_order_app; [by apply run_in_order|].
    apply in_order_pad_l, IH; [lia|]. rewrite Forall_forall in *. intros x Hx. apply Hv. unfold raws in *. cbn. right. rewrite omap_app. apply elem_of_app. by right.
  - apply in_order_pad_l. change (Conv conv :: plan) with ([Conv conv] ++ plan). rewrite map_app. apply in_order_app; [apply in_order_one|].
    apply IH; [lia|done].
Qed.

Lemma assemble_in_order plan : Forall (λ bi, bi < length blocks)%nat (raws plan) →
  in_order (map (item_bytes base blocks) plan) (assemble base blocks plan).
Proof. intros Hv. unfold assemble. destruct plan as [|i plan]; [done|]. by apply assemble_loop_in_order. Qed.

(** Keeping every block gives the base back. *)
Lemma assemble_all : assemble base blocks (map Raw (seq 0 (length blocks))) = base.
Proof.
  unfold assemble. destruct (length blocks) as [|n] eqn:Hn; [done|]. cbn [seq map length]. cbn [assemble_loop].
  rewrite raw_run_all. cbn [negb andb Nat.eqb length]. rewrite Hn. cbn [Nat.add]. rewrite Nat.eqb_refl. cbn [andb bool_decide].
  assert (∀ f, assemble_loop f base blocks [] true = []) as Hnil by (by intros []). rewrite Hnil, app_nil_r.
  pose proof (block_range 0 ltac:(lia)). pose proof (block_range n ltac:(lia)).
  apply slice_cover; [|lia]. destruct n as [|n]; [lia|]. pose proof (block_order 0 (S n) ltac:(lia)). lia.
Qed.
End assembly.

Lemma filter_none {A : Type} (P : A → Prop) `{!∀ x, base.Decision (P x)} (l : list A) : (∀ x, x ∈ l → ¬ P x) → filter P l = [].
Proof.
  induction l as [|x l IH]; intros Hp; [done|]. rewrite filter_cons, decide_False by (apply Hp; left). apply IH. intros y Hy. apply Hp. by right.
Qed.

(** ** Construct counts *)

(** How often a key occurs among the constructs of a text. *)
Definition occurrences (key : text * text) (s : text) : Z := Z.of_nat (length (filter (λ k, k = key) (construct_keys s))).

Lemma bump_count l m key : default 0 (foldl bump m l !! key) = default 0 (m !! key) + Z.of_nat (length (filter (λ k, k = key) l)).
Proof.
  revert m. induction l as [|x l IH]; intros m; [cbn; lia|]. cbn [foldl]. rewrite IH, filter_cons. unfold bump at 1.
  destruct (decide (x = key)) as [->|Hne]; [rewrite lookup_insert_eq; cbn [from_option id length]; lia|]. by rewrite lookup_insert_ne.
Qed.

Lemma bump_dom l m key : is_Some (foldl bump m l !! key) ↔ is_Some (m !! key) ∨ key ∈ l.
Proof.
  revert m. induction l as [|x l IH]; intros m; cbn [foldl]; [rewrite elem_of_nil; naive_solver|]. rewrite IH, elem_of_cons. unfold bump.
  destruct (decide (x = key)) as [->|Hne]; [rewrite lookup_insert_eq; naive_solver|]. rewrite lookup_insert_ne by done. naive_solver.
Qed.

Lemma constructCounts_occurrences s key : default 0 (constructCounts s !! key) = occurrences key s.
Proof. unfold constructCounts. rewrite bump_count, lookup_empty. done. Qed.

(** The report lists exactly the constructs that occur less often in the result. *)
Lemma removedConstructs_spec base out c : c ∈ removedConstructs base out ↔
  occurrences (Kind c, CText c) out < occurrences (Kind c, CText c) base.
Proof.
  unfold removedConstructs. rewrite merge_sort_Permutation, list_elem_of_omap. split.
  - intros ([key bc] & Hin & Hc). apply elem_of_map_to_list in Hin. destruct (_ <? bc) eqn:Hlt; [|done]. injection Hc as <-. cbn [Kind CText].
    bool_hyps. rewrite <- !constructCounts_occurrences, <- surjective_pairing, Hin. done.
  - intros Hlt. set (key := (Kind c, CText c)) in *. destruct (constructCounts base !! key) as [bc|] eqn:Hb.
    + exists (key, bc). split; [by apply elem_of_map_to_list|]. rewrite <- !constructCounts_occurrences, Hb in Hlt. cbn [from_option id] in Hlt.
      rewrite (proj2 (Z.ltb_lt _ _) Hlt). by destruct c.
    + rewrite <- (constructCounts_occurrences base), Hb in Hlt. cbn in Hlt. unfold occurrences in Hlt. lia.
Qed.

Lemma removedConstructs_same s : removedConstructs s s = [].
Proof. destruct (removedConstructs s s) as [|c l] eqn:He; [done|]. assert (c ∈ removedConstructs s s) as Hc%removedConstructs_spec by (rewrite He; left). lia. Qed.

(** ** Split Markdown *)

Fixpoint join_gap (mds : list text) : text :=
  match mds with
  | [] => []
  | [md] => md
  | md :: mds => md ++ newline :: newline :: join_gap mds
  end.

Lemma splitMDBlocks_join mds : Forall fences_closed mds → splitMDBlocks (join_gap mds) = concat (map splitMDBlocks mds).
Proof.
  intros Hf. induction Hf as [|md mds Hmd Hf IH]; [done|]. destruct mds as [|md' mds]; [cbn; by rewrite app_nil_r|].
  change (join_gap (md :: md' :: mds)) with (md ++ newline :: newline :: join_gap (md' :: mds)).
  unfold splitMDBlocks at 1. rewrite SplitBlocks_gap, omap_app by done. fold (splitMDBlocks md) (splitMDBlocks (join_gap (md' :: mds))).
  by rewrite IH.
Qed.

(** ** Units *)

Section proofs.
Context (Render : text → text) (ConvertBlock : text → result text text).
Context (base : text).

Notation bpieces := (block_pieces Render base).

Lemma bpieces_nonempty blk : bpieces blk ≠ [].
Proof. unfold block_pieces. by destruct (splitMDBlocks _). Qed.

(** The units of a tail of the blocks, the first of them block [off]. *)
Definition units_from (off : nat) (blocks : list block) : list unit_ := concat (imap (λ i, block_units Render base (off + i)) blocks).

Lemma units_from_cons off b blocks : units_from off (b :: blocks) = block_units Render base off b ++ units_from (S off) blocks.
Proof.
  unfold units_from. rewrite imap_cons. cbn [concat]. rewrite Nat.add_0_r. f_equal. f_equal. apply imap_ext. intros i x _. cbn.
  by replace (off + S i)%nat with (S off + i)%nat by lia.
Qed.

Lemma units_eq blocks : units Render base blocks = units_from 0 blocks.
Proof. done. Qed.

Lemma block_units_lookup bi b pj : block_units Render base bi b !! pj = (λ p, {| utext := p; ublock := bi; upiece := pj |}) <$> bpieces b !! pj.
Proof. unfold block_units. apply list_lookup_imap. Qed.
Lemma block_units_length bi b : length (block_units Render base bi b) = length (bpieces b).
Proof. unfold block_units. apply length_imap. Qed.

Lemma units_texts off blocks : map utext (units_from off blocks) = concat (map bpieces blocks).
Proof.
  revert off. induction blocks as [|b blocks IH]; intros off; [done|]. rewrite units_from_cons, map_app, IH. cbn [map concat]. f_equal.
  apply list_eq. intros k. change (map utext ?l) with (utext <$> l). rewrite list_lookup_fmap, block_units_lookup. by destruct (bpieces b !! k).
Qed.

Lemma unit_lookup off blocks bi b pj p : blocks !! bi = Some b → bpieces b !! pj = Some p →
  units_from off blocks !! (length (concat (map bpieces (take bi blocks))) + pj)%nat =
    Some {| utext := p; ublock := off + bi; upiece := pj |}.
Proof.
  revert off bi. induction blocks as [|x blocks IH]; intros off bi Hb Hp; [done|]. rewrite units_from_cons. destruct bi as [|bi].
  - injection Hb as ->. cbn [take map concat length Nat.add]. pose proof (lookup_lt_Some _ _ _ Hp).
    rewrite lookup_app_l by (by rewrite block_units_length). rewrite block_units_lookup, Hp. cbn. by rewrite Nat.add_0_r.
  - cbn [take map concat]. rewrite length_app, lookup_app_r by (rewrite block_units_length; lia).
    rewrite block_units_length. replace (_ + _ + _ - _)%nat with (length (concat (map bpieces (take bi blocks))) + pj)%nat by lia.
    rewrite (IH (S off) bi Hb Hp). do 2 f_equal. lia.
Qed.

Lemma unit_inv off blocks u un : units_from off blocks !! u = Some un → ∃ bi b, blocks !! bi = Some b ∧ ublock un = (off + bi)%nat ∧
  bpieces b !! upiece un = Some (utext un) ∧ u = (length (concat (map bpieces (take bi blocks))) + upiece un)%nat.
Proof.
  revert off u. induction blocks as [|x blocks IH]; intros off u Hu; [done|]. rewrite units_from_cons in Hu.
  apply lookup_app_Some in Hu as [Hu|[Hl Hu]].
  - rewrite block_units_lookup in Hu. destruct (bpieces x !! u) as [p|] eqn:Hp; [|done]. injection Hu as <-. exists 0%nat, x. cbn. split_and!; try done; lia.
  - rewrite block_units_length in *. destruct (IH _ _ Hu) as (bi & b & Hb & Hbl & Hp & Hpos). exists (S bi), b. cbn [take map concat].
    rewrite length_app. split_and!; try done; lia.
Qed.

(** The blocks whose first pieces are in a list of units. *)
Definition first_piece (un : unit_) : option nat := if (upiece un =? 0)%nat then Some (ublock un) else None.

Lemma first_pieces off blocks : omap first_piece (units_from off blocks) = seq off (length blocks).
Proof.
  revert off. induction blocks as [|b blocks IH]; intros off; [done|]. rewrite units_from_cons, omap_app, IH. cbn [length seq].
  unfold block_units. pose proof (bpieces_nonempty b) as Hne. destruct (bpieces b) as [|p ps]; [done|]. rewrite imap_cons. cbn.
  f_equal. assert (∀ (f : nat → text → unit_) l, (∀ i t, upiece (f i t) ≠ 0%nat) → omap first_piece (imap f l) = []) as Hnil; [|by rewrite Hnil].
  intros f l Hf. revert f Hf. induction l as [|x l IHl]; intros f Hf; [done|]. rewrite imap_cons. cbn. unfold first_piece at 1.
  rewrite (proj2 (Nat.eqb_neq _ _)) by apply Hf. apply IHl. intros i t. apply Hf.
Qed.

(** ** Kept blocks *)

Section blocks.
Context (blocks : list block).
Notation us := (units Render base blocks).
Notation pcs := (pieces Render base blocks).
Notation fst_unit := (firstUnit Render base blocks).

Lemma pieces_pos bi : (0 < pcs bi)%nat.
Proof. unfold pieces. pose proof (bpieces_nonempty (block_at blocks bi)). destruct (bpieces _); [done|simpl; lia]. Qed.

Lemma unit_at bi pj : (bi < length blocks)%nat → (pj < pcs bi)%nat → ∃ p, us !! (fst_unit bi + pj)%nat = Some {| utext := p; ublock := bi; upiece := pj |} ∧
  bpieces (block_at blocks bi) !! pj = Some p.
Proof.
  intros Hbi Hpj. unfold pieces, block_at in *. destruct (lookup_lt_is_Some_2 blocks bi Hbi) as [b Hb]. rewrite Hb in *.
  destruct (lookup_lt_is_Some_2 _ _ Hpj) as [p Hp]. exists p. split; [|done]. exact (unit_lookup 0 blocks bi b pj p Hb Hp).
Qed.

Lemma unit_place u un : us !! u = Some un → (ublock un < length blocks)%nat ∧ u = (fst_unit (ublock un) + upiece un)%nat ∧
  bpieces (block_at blocks (ublock un)) !! upiece un = Some (utext un).
Proof.
  intros Hu. destruct (unit_inv 0 blocks u un Hu) as (bi & b & Hb & Hbl & Hp & Hpos). cbn in Hbl. rewrite Hbl. unfold block_at. rewrite Hb.
  split; [by eapply lookup_lt_Some|]. split; [exact Hpos|exact Hp].
Qed.

Lemma unit_range bi : (bi < length blocks)%nat → (fst_unit bi + pcs bi ≤ length us)%nat.
Proof.
  intros Hbi. pose proof (pieces_pos bi). destruct (unit_at bi (pcs bi - 1) Hbi ltac:(lia)) as (p & Hp & _).
  apply lookup_lt_Some in Hp. lia.
Qed.

Lemma pieces_kept_seq a k prev : prev = -2 ∨ prev = Z.of_nat a - 1 → pieces_kept (map Z.of_nat (seq a k)) prev = true.
Proof.
  revert a prev. induction k as [|k IH]; intros a prev Hprev; [done|]. cbn [seq map pieces_kept]. rewrite IH by (right; lia). rewrite andb_true_r.
  rewrite (proj2 (Z.ltb_ge _ _)) by lia. cbn [orb]. destruct Hprev as [->| ->]; [done|].
  rewrite (proj2 (Z.eqb_eq (Z.of_nat a) _)) by lia. by rewrite andb_false_r.
Qed.

(** The identity matching keeps every block. *)
Definition identity (ms : list Z) : Prop := ∀ k, (k < length us)%nat → ms !! k = Some (Z.of_nat k).

Lemma identity_matches ms bi : identity ms → (bi < length blocks)%nat →
  block_matches Render base blocks ms bi = map Z.of_nat (seq (fst_unit bi) (pcs bi)).
Proof.
  intros Hid Hbi. pose proof (unit_range bi Hbi). unfold block_matches, slice. apply list_eq. intros k.
  change (map Z.of_nat ?l) with (Z.of_nat <$> l). rewrite list_lookup_fmap. destruct (decide (k < pcs bi)%nat) as [Hk|Hk].
  - rewrite lookup_take_lt by lia. rewrite lookup_drop, Hid by lia. rewrite lookup_seq_lt by done. done.
  - rewrite lookup_take_ge by lia. by rewrite lookup_seq_ge by lia.
Qed.

Lemma identity_kept ms bi : identity ms → (bi < length blocks)%nat → kept Render base blocks ms bi = true.
Proof.
  intros Hid Hbi. unfold kept. rewrite identity_matches by done. pose proof (pieces_pos bi).
  rewrite (proj2 (Nat.ltb_lt _ _)) by done. cbn [andb]. apply pieces_kept_seq. by left.
Qed.

(** Merging the units with themselves plans every block as it is. *)
Lemma edit_loop_identity bm em us2 e st : identity bm → identity em → drop e us = us2 →
  edit_loop Render ConvertBlock base blocks bm em (map utext us2) e st =
  Ok {| pool := pool st; reused := reused st; plan := plan st ++ map Raw (omap first_piece us2);
        counts := count (Z.of_nat (length (omap first_piece us2))) 0 0 (counts st) |}.
Proof.
  intros Hb He. revert e st. induction us2 as [|un us2 IH]; intros e st Hd; cbn [map edit_loop].
  { destruct st as [p r pl [a b c d l]]. unfold count. cbn. by rewrite app_nil_r, !Z.add_0_r. }
  symmetry in Hd. destruct (drop_cons _ _ _ _ Hd) as (Hu & Hd' & Hl). rewrite He by done. change (default (-1) (Some ?x)) with x. unfold edit_step.
  rewrite (proj2 (Z.leb_le 0 (Z.of_nat e))) by lia. rewrite Nat2Z.id, Hu. destruct (unit_place e un Hu) as (Hbl & _).
  rewrite (identity_kept bm _ Hb Hbl). cbn [omap list_omap]. change (omap first_piece (un :: us2)) with
    (match first_piece un with Some b => b :: omap first_piece us2 | None => omap first_piece us2 end).
  assert (first_piece un = if (upiece un =? 0)%nat then Some (ublock un) else None) as -> by done. destruct (upiece un =? 0)%nat.
  - rewrite (IH (S e) _ Hd'). cbn [pool reused plan counts map length]. f_equal. f_equal; [by rewrite <- app_assoc|]. unfold count. cbn. f_equal; lia.
  - by rewrite (IH (S e) st Hd').
Qed.
End blocks.

Lemma edit_loop_error blocks bm em edited e st err : edit_loop Render ConvertBlock base blocks bm em edited e st = Err err →
  ∃ b x, err = BlockError b (Some x).
Proof.
  revert e st. induction edited as [|t edited IH]; intros e st H; cbn [edit_loop] in H; [done|].
  destruct (edit_step _ _ _ _ _ _ _ _) as [st'|x] eqn:Hs; [by eapply IH|]. injection H as <-.
  assert (∀ st, edit_new ConvertBlock st t = Err x → ∃ b y, x = BlockError b (Some y)) as Hnew.
  { intros st'. unfold edit_new. destruct (default [] _); [|done]. destruct (ConvertBlock t); [done|]. intros [= <-]. by eexists _, _. }
  unfold edit_step in Hs. destruct (if 0 <=? _ then _ else _) as [un|]; [|by eapply Hnew]. destruct (kept _ _ _ _ _); [|by eapply Hnew].
  by destruct (upiece un =? 0)%nat.
Qed.
End proofs.

(** ** The edit loop accounts for every block *)

(** An item of the plan that stands for an edited block. *)
Definition accounts (Render : text → text) (ConvertBlock : text → result text text) (base : text) (blocks : list block)
    (item : planItem) (t : text) : Prop :=
  match item with
  | Raw bi => t ∈ block_pieces Render base (block_at blocks bi)
  | Conv conv => ConvertBlock t = Ok conv
  end.

Section accounting.
Context (Render : text → text) (ConvertBlock : text → result text text) (base : text) (blocks : list block).
Context (bm em : list Z) (edited : list text).
Notation us := (units Render base blocks).
Notation keep := (kept Render base blocks bm).
Notation first := (firstUnit Render base blocks).
Hypothesis Hmatch : matching (map utext us) edited bm em.

(** The unit the edited block [j] matches. *)
Definition matched_unit (j : nat) : option unit_ := let z := default (-1) (em !! j) in if 0 <=? z then us !! Z.to_nat z else None.
Definition planned_at (j : nat) : option nat :=
  match matched_unit j with Some un => if keep (ublock un) && (upiece un =? 0)%nat then Some (ublock un) else None | None => None end.
Definition planned (e : nat) : list nat := omap planned_at (seq 0 e).
Definition block_key (bi : nat) : text := match us !! first bi with Some u => utext u | None => [] end.

Lemma block_key_piece bi : (bi < length blocks)%nat → block_key bi ∈ block_pieces Render base (block_at blocks bi).
Proof.
  intros Hbi. unfold block_key. destruct (unit_at Render base blocks bi 0 Hbi (pieces_pos Render base blocks bi)) as (p & Hp & Hin).
  rewrite Nat.add_0_r in Hp. rewrite Hp. by eapply list_elem_of_lookup_2.
Qed.

Lemma matched_unit_text j un t : matched_unit j = Some un → edited !! j = Some t → utext un = t ∧ (ublock un < length blocks)%nat ∧
  t ∈ block_pieces Render base (block_at blocks (ublock un)).
Proof.
  unfold matched_unit. destruct (em !! j) as [z|] eqn:Hz; [|done]. cbn [from_option id]. destruct (0 <=? z) eqn:H0; [|done]. bool_hyps.
  intros Hu Ht. destruct (matching_bwd _ _ _ _ Hmatch j z Hz) as [->|(i & x & -> & Hi & Hj & _)]; [lia|]. rewrite Nat2Z.id in Hu.
  change (map utext us) with (utext <$> us) in Hi. rewrite list_lookup_fmap, Hu in Hi. injection Hi as Hx.
  destruct (unit_place Render base blocks i un Hu) as (Hb & _ & Hp). assert (x = t) as <- by congruence. split; [done|]. split; [done|].
  rewrite <- Hx. by eapply list_elem_of_lookup_2.
Qed.

Lemma planned_at_spec j bi : planned_at j = Some bi → (bi < length blocks)%nat ∧ keep bi = true ∧ em !! j = Some (Z.of_nat (first bi)).
Proof.
  unfold planned_at, matched_unit. destruct (em !! j) as [z|]; [|done]. cbn [from_option id]. destruct (0 <=? z) eqn:H0; [|done]. bool_hyps.
  destruct (us !! Z.to_nat z) as [un|] eqn:Hu; [|done]. destruct (keep _ && _) eqn:Hk; [|done]. bool_hyps. intros [= <-].
  destruct (unit_place Render base blocks _ un Hu) as (Hb & Hp & _). split; [done|]. split; [done|]. f_equal. lia.
Qed.

Lemma planned_nodup e : NoDup (planned e).
Proof.
  unfold planned. induction e as [|e IH]; [constructor|]. rewrite seq_S, omap_app. cbn. destruct (planned_at e) as [bi|] eqn:He; [|by rewrite app_nil_r].
  apply NoDup_app. split; [done|]. split; [|apply NoDup_singleton]. intros x (j & Hj%elem_of_seq & Hx)%list_elem_of_omap ->%list_elem_of_singleton.
  apply planned_at_spec in He as (_ & _ & He). apply planned_at_spec in Hx as (_ & _ & Hx).
  destruct (matching_bwd _ _ _ _ Hmatch _ _ He) as [?|(i & ? & Hi & _ & _ & Ha)]; [lia|].
  destruct (matching_bwd _ _ _ _ Hmatch _ _ Hx) as [?|(i' & ? & Hi' & _ & _ & Ha')]; [lia|].
  assert (i = i') as <- by lia. rewrite Ha in Ha'. injection Ha' as ?. lia.
Qed.

(** In the end the planned blocks are the kept ones. *)
Lemma planned_kept : planned (length edited) ≡ₚ filter (λ bi, keep bi = true) (seq 0 (length blocks)).
Proof.
  apply NoDup_Permutation; [apply planned_nodup|apply NoDup_filter, NoDup_seq|]. intros bi. rewrite list_elem_of_filter, elem_of_seq. unfold planned.
  rewrite list_elem_of_omap. split.
  - intros (j & _ & (? & ? & _)%planned_at_spec). split; [done|lia].
  - intros [Hk Hbi]. assert (bi < length blocks)%nat as Hn by lia.
    destruct (unit_at Render base blocks bi 0 Hn (pieces_pos Render base blocks bi)) as (p & Hp & _). rewrite Nat.add_0_r in Hp.
    pose proof (unit_range Render base blocks bi Hn) as Hr. pose proof (pieces_pos Render base blocks bi) as Hpos.
    pose proof (matching_lenA _ _ _ _ Hmatch) as HlA. rewrite length_map in HlA.
    destruct (lookup_lt_is_Some_2 bm (first bi) ltac:(lia)) as [m Hm].
    assert (0 <= m) as Hm0.
    { pose proof Hk as Hk'. unfold kept, block_matches, slice in Hk'. rewrite (drop_S _ _ _ Hm) in Hk'.
      replace (first bi + pieces Render base blocks bi - first bi)%nat with (S (pieces Render base blocks bi - 1)) in Hk' by lia.
      cbn [take pieces_kept] in Hk'. bool_hyps. lia. }
    destruct (matching_fwd _ _ _ _ Hmatch _ _ Hm) as [?|(j & x & -> & _ & Hj & He)]; [lia|]. exists j. split; [apply lookup_lt_Some in Hj; apply elem_of_seq; lia|].
    unfold planned_at, matched_unit. rewrite He. cbn [from_option id]. rewrite (proj2 (Z.leb_le _ _)) by lia. rewrite Nat2Z.id, Hp. cbn [ublock upiece]. by rewrite Hk.
Qed.

(** The state before edited block [e], with the moved blocks [M]. *)
Record loop_inv (e : nat) (M : list nat) (st : progress) : Prop := {
  li_raws : raws (plan st) ≡ₚ planned e ++ M;
  li_reused : reused st = list_to_set M;
  li_nodup : NoDup M;
  li_moved : ∀ bi, bi ∈ M → (bi < length blocks)%nat ∧ keep bi = false;
  li_pool : ∀ key bi, bi ∈ default [] (pool st !! key) → (bi < length blocks)%nat ∧ keep bi = false ∧ (bi ∉ M) ∧ key = block_key bi;
  li_pool_nodup : ∀ key, NoDup (default [] (pool st !! key));
  li_unchanged : Unchanged (counts st) = Z.of_nat (length (planned e));
  li_moves : Moved (counts st) = Z.of_nat (length M);
  li_converted : Converted (counts st) = Z.of_nat (length (convs (plan st)));
  li_edits : ∀ j t, (j < e)%nat → edited !! j = Some t → (∃ item, item ∈ plan st ∧ accounts Render ConvertBlock base blocks item t) ∨
    ∃ un, matched_unit j = Some un ∧ keep (ublock un) = true
}.

Lemma planned_S e : planned (S e) = planned e ++ option_list (planned_at e).
Proof. unfold planned. by rewrite seq_S, omap_app. Qed.

Lemma raws_app p q : raws (p ++ q) = raws p ++ raws q.
Proof. apply omap_app. Qed.
Lemma convs_app p q : convs (p ++ q) = convs p ++ convs q.
Proof. apply omap_app. Qed.

Lemma edits_snoc e st t : (∀ j u, (j < e)%nat → edited !! j = Some u → (∃ item, item ∈ plan st ∧ accounts Render ConvertBlock base blocks item u) ∨
    ∃ un, matched_unit j = Some un ∧ keep (ublock un) = true) → edited !! e = Some t → ∀ items : list planItem,
  (∃ item, item ∈ items ∧ accounts Render ConvertBlock base blocks item t) ∨ (∃ un, matched_unit e = Some un ∧ keep (ublock un) = true) →
  ∀ j u, (j < S e)%nat → edited !! j = Some u → (∃ item, item ∈ plan st ++ items ∧ accounts Render ConvertBlock base blocks item u) ∨
    ∃ un, matched_unit j = Some un ∧ keep (ublock un) = true.
Proof.
  intros Hold Ht items Hnew j u Hj Hu. destruct (decide (j = e)) as [->|Hne].
  - rewrite Ht in Hu. injection Hu as <-. destruct Hnew as [(i & Hi & Ha)|?]; [left; exists i; split; [apply elem_of_app; by right|done]|by right].
  - destruct (Hold j u ltac:(lia) Hu) as [(i & Hi & Ha)|?]; [left; exists i; split; [apply elem_of_app; by left|done]|by right].
Qed.

Lemma edit_new_inv e M st t st' : loop_inv e M st → edited !! e = Some t → planned_at e = None → edit_new ConvertBlock st t = Ok st' →
  ∃ M', loop_inv (S e) M' st'.
Proof.
  intros [I1 I2 I3 I4 I5 I6 I7 I8 I9 I10] Ht Hpl H. unfold edit_new in H.
  assert (planned (S e) = planned e) as Hps by (by rewrite planned_S, Hpl, app_nil_r).
  destruct (default [] (pool st !! t)) as [|bi q] eqn:Hq.
  - destruct (ConvertBlock t) as [conv|] eqn:Hc; [|done]. injection H as <-. exists M. constructor; cbn [pool reused plan counts count Unchanged Moved Converted]; rewrite ?Hps; try done.
    + by rewrite raws_app, app_nil_r.
    + lia.
    + lia.
    + rewrite convs_app, length_app. cbn. lia.
    + eapply edits_snoc; [done|done|]. left. exists (Conv conv). split; [left|done].
  - injection H as <-. exists (bi :: M). destruct (I5 t bi ltac:(rewrite Hq; left)) as (Hb & Hkb & HbM & Hkey).
    pose proof (I6 t) as Hqd. rewrite Hq in Hqd. apply NoDup_cons in Hqd as [Hbq Hqd].
    constructor; cbn [pool reused plan counts count Unchanged Moved Converted]; rewrite ?Hps.
    + rewrite raws_app, I1. cbn. rewrite <- app_assoc. apply Permutation_app_head. rewrite (Permutation_app_comm M). done.
    + rewrite I2. set_solver.
    + by constructor.
    + intros x [->|Hx]%elem_of_cons; [done|by apply I4].
    + intros key x Hx. destruct (decide (key = t)) as [->|Hne].
      * rewrite lookup_insert_eq in Hx. cbn in Hx. destruct (I5 t x ltac:(rewrite Hq; by right)) as (? & ? & ? & ?). split_and!; try done.
        intros [->|?]%elem_of_cons; done.
      * rewrite lookup_insert_ne in Hx by done. destruct (I5 key x Hx) as (? & ? & ? & ?). split_and!; try done.
        intros [->|?]%elem_of_cons; congruence.
    + intros key. destruct (decide (key = t)) as [->|Hne]; [by rewrite lookup_insert_eq|]. rewrite lookup_insert_ne by done. apply I6.
    + lia.
    + cbn [length]. lia.
    + rewrite convs_app, length_app. cbn. lia.
    + eapply edits_snoc; [done|done|]. left. exists (Raw bi). split; [left|]. cbn. rewrite Hkey. by apply block_key_piece.
Qed.

Lemma edit_step_inv e M st t st' : loop_inv e M st → edited !! e = Some t →
  edit_step Render ConvertBlock base blocks bm st (default (-1) (em !! e)) t = Ok st' → ∃ M', loop_inv (S e) M' st'.
Proof.
  intros HI Ht H. unfold edit_step in H. change (if 0 <=? default (-1) (em !! e) then _ else None) with (matched_unit e) in H.
  assert (∀ b, planned_at e = b → loop_inv e M st → planned (S e) = planned e ++ option_list b) as Hpl by (intros b <- _; apply planned_S).
  destruct (matched_unit e) as [un|] eqn:Hmu; [destruct (keep (ublock un)) eqn:Hk|];
    [|apply (edit_new_inv e M st t st' HI Ht); [unfold planned_at; by rewrite Hmu, ?Hk|done]..].
  assert (planned_at e = if (upiece un =? 0)%nat then Some (ublock un) else None) as Hpa by (unfold planned_at; by rewrite Hmu, Hk).
  rewrite Hpa in Hpl. specialize (Hpl _ eq_refl HI). destruct HI as [I1 I2 I3 I4 I5 I6 I7 I8 I9 I10]. exists M.
  destruct (upiece un =? 0)%nat; injection H as <-; cbn [option_list] in Hpl; rewrite ?app_nil_r in Hpl;
    constructor; cbn [pool reused plan counts count Unchanged Moved Converted]; rewrite ?Hpl; try done.
  - rewrite raws_app, I1. cbn. rewrite <- !app_assoc. apply Permutation_app_head, Permutation_app_comm.
  - rewrite length_app. cbn. lia.
  - lia.
  - rewrite convs_app, length_app. cbn. lia.
  - eapply edits_snoc; [done|done|]. right. by exists un.
  - rewrite <- (app_nil_r (plan st)). eapply edits_snoc; [done|done|]. right. by exists un.
Qed.

Lemma edit_loop_inv rest e M st st' : drop e edited = rest → loop_inv e M st →
  edit_loop Render ConvertBlock base blocks bm em rest e st = Ok st' → ∃ M', loop_inv (length edited) M' st'.
Proof.
  revert e M st. induction rest as [|t rest IH]; intros e M st Hd HI H; cbn [edit_loop] in H.
  { injection H as <-. exists M. destruct (decide (e = length edited)) as [<-|Hne]; [done|].
    assert (length (drop e edited) = 0)%nat as Hl by (by rewrite Hd). rewrite length_drop in Hl.
    assert (∀ k, (length edited ≤ k)%nat → planned_at k = None) as Hbig.
    { intros k Hk. unfold planned_at, matched_unit. rewrite lookup_ge_None_2; [done|]. by rewrite (matching_lenB _ _ _ _ Hmatch). }
    assert (planned e = planned (length edited)) as Hp.
    { replace e with (length edited + (e - length edited))%nat by lia. generalize (e - length edited)%nat as k. intros k. induction k as [|k IHk]; [by rewrite Nat.add_0_r|].
      rewrite Nat.add_succ_r, planned_S, Hbig by lia. by rewrite app_nil_r. }
    destruct HI. constructor; rewrite <- ?Hp; try done. intros j u Hj Hu. apply li_edits0; [lia|done]. }
  symmetry in Hd. destruct (drop_cons _ _ _ _ Hd) as (Ht & Hd' & _). destruct (edit_step _ _ _ _ _ _ _ _) as [st1|] eqn:Hs; [|done].
  destruct (edit_step_inv _ _ _ _ _ HI Ht Hs) as [M' HI']. by eapply IH.
Qed.

Lemma pool_inv l pool0 : (∀ key bi, bi ∈ default [] (pool0 !! key) → (bi < length blocks)%nat ∧ keep bi = false ∧ (bi ∉ l) ∧ key = block_key bi) →
  (∀ key, NoDup (default [] (pool0 !! key))) → NoDup l → Forall (λ bi, bi < length blocks)%nat l →
  let pool1 := foldl (add_pool Render base blocks bm) pool0 l in
  (∀ key bi, bi ∈ default [] (pool1 !! key) → (bi < length blocks)%nat ∧ keep bi = false ∧ key = block_key bi) ∧
  (∀ key, NoDup (default [] (pool1 !! key))).
Proof.
  revert pool0. induction l as [|x l IH]; intros pool0 Hp Hn Hd Hv; cbn [foldl].
  { split; [|done]. intros key bi Hb. destruct (Hp key bi Hb) as (? & ? & _ & ?). done. }
  apply NoDup_cons in Hd as [Hx Hd]. apply Forall_cons in Hv as [Hxv Hv]. apply IH; try done; unfold add_pool; fold (block_key x); destruct (negb (keep x) && _) eqn:Hk.
  - bool_hyps. intros key bi. destruct (decide (key = block_key x)) as [->|Hne].
    + rewrite lookup_insert_eq. cbn [from_option id]. rewrite elem_of_app, list_elem_of_singleton. intros [Hb| ->]; [|done].
      destruct (Hp _ _ Hb) as (? & ? & Hnot & ?). rewrite elem_of_cons in Hnot. split_and!; try done. tauto.
    + rewrite lookup_insert_ne by done. intros Hb. destruct (Hp _ _ Hb) as (? & ? & Hnot & ?). rewrite elem_of_cons in Hnot. split_and!; try done. tauto.
  - intros key bi Hb. destruct (Hp _ _ Hb) as (? & ? & Hnot & ?). rewrite elem_of_cons in Hnot. split_and!; try done. tauto.
  - intros key. destruct (decide (key = block_key x)) as [->|Hne]; [|by rewrite lookup_insert_ne]. rewrite lookup_insert_eq. cbn [from_option id].
    apply NoDup_app. split; [apply Hn|]. split; [|apply NoDup_singleton]. intros y Hy ->%list_elem_of_singleton.
    destruct (Hp _ _ Hy) as (_ & _ & Hnot & _). apply Hnot. left.
  - done.
Qed.

Lemma partition_length (p : nat → bool) (X : gset nat) (l : list nat) :
  (length (filter (λ b, p b = true) l) + length (filter (λ b, p b = false ∧ b ∈ X) l) + length (filter (λ b, p b = false ∧ b ∉ X) l))%nat = length l.
Proof.
  induction l as [|b l IH]; [done|]. rewrite !filter_cons. cbn [length]. destruct (p b) eqn:Hp.
  - rewrite decide_True by done. rewrite !decide_False by naive_solver. cbn [length]. lia.
  - rewrite decide_False by done. destruct (decide (b ∈ X)).
    + rewrite decide_True by done. rewrite decide_False by naive_solver. cbn [length]. lia.
    + rewrite decide_False by naive_solver. rewrite decide_True by done. cbn [length]. lia.
Qed.

(** What the loop leaves behind, from the pool the merge starts with. *)
Lemma edit_loop_accounts st : edit_loop Render ConvertBlock base blocks bm em edited 0
    {| pool := foldl (add_pool Render base blocks bm) ∅ (seq 0 (length blocks)); reused := ∅; plan := []; counts := zero_report |} = Ok st →
  NoDup (raws (plan st)) ∧ Forall (λ bi, bi < length blocks)%nat (raws (plan st)) ∧
  Unchanged (counts st) + Moved (counts st) = Z.of_nat (length (raws (plan st))) ∧ Converted (counts st) = Z.of_nat (length (convs (plan st))) ∧
  Unchanged (counts st) + Moved (counts st) +
    Z.of_nat (length (filter (λ bi, keep bi = false ∧ bi ∉ reused st) (seq 0 (length blocks)))) = Z.of_nat (length blocks) ∧
  (∀ t, t ∈ edited → ∃ item, item ∈ plan st ∧ accounts Render ConvertBlock base blocks item t).
Proof.
  intros H. destruct (pool_inv (seq 0 (length blocks)) ∅) as [Hp1 Hp2].
  { intros key bi. rewrite lookup_empty. by intros ?%not_elem_of_nil. }
  { intros key. rewrite lookup_empty. constructor. }
  { apply NoDup_seq. }
  { apply Forall_forall. intros bi Hbi%elem_of_seq. lia. }
  eapply (edit_loop_inv edited 0 []) in H as [M [I1 I2 I3 I4 _ _ I7 I8 I9 I10]]; [|done|]; cycle 1.
  { constructor; cbn [pool reused plan counts]; try done; [constructor|by intros bi ?%not_elem_of_nil| |by intros j t ?; lia].
    intros key bi Hb. destruct (Hp1 key bi Hb) as (? & ? & ?). split_and!; try done. apply not_elem_of_nil. }
  pose proof planned_kept as Hk.
  assert (M ≡ₚ filter (λ bi, keep bi = false ∧ bi ∈ reused st) (seq 0 (length blocks))) as HM.
  { apply NoDup_Permutation; [done|apply NoDup_filter, NoDup_seq|]. intros bi. rewrite list_elem_of_filter, elem_of_seq, I2, elem_of_list_to_set.
    split; [|tauto]. intros Hin. destruct (I4 bi Hin). split_and!; try done; lia. }
  assert (∀ bi, bi ∈ planned (length edited) → (bi < length blocks)%nat ∧ keep bi = true) as Hpl.
  { intros bi. rewrite Hk, list_elem_of_filter, elem_of_seq. intros [? ?]. split; [lia|done]. }
  assert (NoDup (planned (length edited) ++ M)) as Hnd.
  { apply NoDup_app. split; [apply planned_nodup|]. split; [|done]. intros bi Hb1%Hpl Hb2%I4. destruct Hb1, Hb2. congruence. }
  pose proof (partition_length keep (reused st) (seq 0 (length blocks))) as Hpart. rewrite <- Hk, <- HM, length_seq in Hpart.
  rewrite I7, I8, I9. split; [by rewrite I1|]. split; [rewrite I1; apply Forall_app; split; apply Forall_forall; intros bi Hb; [by apply Hpl|by apply I4]|].
  split; [rewrite I1, length_app; lia|]. split; [done|]. split; [lia|].
  intros t (j & Hj)%list_elem_of_lookup. destruct (I10 j t ltac:(by eapply lookup_lt_Some) Hj) as [?|(un & Hu & Hku)]; [done|].
  destruct (matched_unit_text j un t Hu Hj) as (_ & Hb & Hin). exists (Raw (ublock un)). split; [|done].
  assert (ublock un ∈ raws (plan st)) as Hraw.
  { rewrite I1. apply elem_of_app. left. rewrite Hk. apply list_elem_of_filter. split; [done|]. apply elem_of_seq. lia. }
  apply list_elem_of_omap in Hraw as ([b|] & Hin' & [= <-]). done.
Qed.
End accounting.

Section properties.
Context (Render : text → text) (ConvertBlock : text → result text text).

(** ** Properties *)

(** Scanning covers the body. The blocks of a body are ranges of its lines, in
    order, apart and inside the text, and every line that is not blank belongs to
    one; the lines themselves tile the text, with one line break between any two. *)
Theorem scanWikiBlocks_cover base : let lines := splitLinesOffsets base in
  lines_ok base 0 lines ∧ blocks_ok base (scanWikiBlocks base) ∧
  ∃ ranges, scanWikiBlocks base = map (block_of_lines lines) ranges ∧ ranges_ok (length lines) 0 ranges ∧
    ∀ k, (k < length lines)%nat → trim_space (line_text lines k) ≠ [] → covered ranges k.
Proof.
  intros lines. split; [apply splitLinesOffsets_ok|]. split; [apply scan_blocks_ok|].
  destruct (scan_loop_ok (length lines) lines 0 ltac:(lia)) as (Hr & _ & Hc). eexists. split; [reflexivity|]. split; [exact Hr|].
  intros k Hk. apply Hc. lia.
Qed.

(** The Markdown view of a body: its blocks rendered one by one. *)
Definition rendered (base : text) : list text := map (λ b, Render (block_bytes base b)) (scanWikiBlocks base).

(** An edit that has exactly the pieces the blocks of the base render to, each
    block rendered on its own. *)
Definition unedited (base edited : text) : Prop :=
  splitMDBlocks edited = concat (map (block_pieces Render base) (scanWikiBlocks base)).

(** The rendered blocks joined by empty lines are such an edit, when every block
    closes its fences and shows some text. *)
Lemma unedited_join base : Forall fences_closed (rendered base) → Forall (λ md, splitMDBlocks md ≠ []) (rendered base) → unedited base (join_gap (rendered base)).
Proof.
  intros Hf Hne. unfold unedited. rewrite splitMDBlocks_join by done. unfold rendered in *. f_equal. rewrite map_map. apply map_ext_in.
  intros b Hb. unfold block_pieces. rewrite Forall_forall in Hne. specialize (Hne (Render (block_bytes base b))).
  destruct (splitMDBlocks (Render (block_bytes base b))) eqn:Hs; [|done]. exfalso. apply Hne; [|done]. apply list_elem_of_In, in_map_iff. by exists b.
Qed.

(** C17: If the edit splits into exactly the pieces that the blocks of the base
    render to on their own, and these are within the budget of the alignment, then
    the merge returns the exact base bytes, reports every block as unchanged and
    nothing as lost, and never converts; whatever the renderer and the converter
    are. *)
Theorem Merge_roundtrip base edited allowLoss : unedited base edited →
  (let n := Z.of_nat (length (splitMDBlocks edited)) in withinLCSBudget n n = true) →
  Merge Render ConvertBlock base edited allowLoss =
    (Some base, Some {| Unchanged := Z.of_nat (length (scanWikiBlocks base)); Moved := 0; Converted := 0; Removed := 0; RemovedConstructs := [] |}, None).
Proof.
  unfold unedited. intros Hed Hbudget. unfold Merge. set (blocks := scanWikiBlocks base) in *.
  assert (map utext (units Render base blocks) = splitMDBlocks edited) as Htexts by (by rewrite units_eq, units_texts).
  rewrite <- Htexts in *. set (us := units Render base blocks) in *. cbv zeta in Hbudget.
  destruct (LCS_self (map utext us) Hbudget) as (bm & em & HL & Hid). unfold lcs. rewrite HL. cbn [from_option id negb].
  rewrite length_map in Hid. assert (identity Render base blocks bm) as Hb by (intros k Hk; by apply Hid).
  assert (identity Render base blocks em) as He by (intros k Hk; by apply Hid).
  assert (first_some (λ _, partial_block Render base blocks bm) 0 (seq 0 (length blocks)) = None) as ->.
  { apply first_some_None_elem. intros bi Hbi%elem_of_seq. unfold partial_block. by rewrite (identity_kept _ _ _ bm bi) by (done || lia). }
  rewrite (edit_loop_identity Render ConvertBlock base blocks bm em us 0 _ Hb He) by done. cbn [plan reused counts app].
  unfold us. rewrite units_eq, first_pieces, length_seq.
  rewrite filter_none by (intros bi Hbi%elem_of_seq [Hk _]; by rewrite (identity_kept _ _ _ bm bi) in Hk by (done || lia)).
  rewrite assemble_all by apply scan_blocks_ok. by rewrite removedConstructs_same.
Qed.

(** C18: Nothing is lost silently. When the merge returns a body, its report lists
    exactly the constructs that occur less often than in the base, and unless loss
    was allowed there are none.  When it refuses for loss, the body it withholds is
    the one it returns when loss is allowed, and the report lists exactly the
    constructs that occur less often there; there is at least one. *)
Theorem Merge_loss_gate base edited allowLoss out rep err : Merge Render ConvertBlock base edited allowLoss = (out, rep, err) →
  match out, err with
  | Some o, None => ∃ r, rep = Some r ∧
      (∀ c, c ∈ RemovedConstructs r ↔ occurrences (Kind c, CText c) o < occurrences (Kind c, CText c) base) ∧
      (allowLoss = false → ∀ key, occurrences key base ≤ occurrences key o)
  | None, Some (LossError lost) => allowLoss = false ∧
      ∃ r o, rep = Some r ∧ RemovedConstructs r = lost ∧ lost ≠ [] ∧
        Merge Render ConvertBlock base edited true = (Some o, Some r, None) ∧
        ∀ c, c ∈ lost ↔ occurrences (Kind c, CText c) o < occurrences (Kind c, CText c) base
  | None, Some _ => rep = None
  | _, _ => False
  end.
Proof.
  unfold Merge. destruct (lcs _ _) as [[bm em] aligned]. destruct aligned; cbn [negb]; [|by intros [= <- <- <-]].
  destruct (first_some _ _ _) as [e|] eqn:Hpart; [intros [= <- <- <-]|].
  { apply first_some_Some in Hpart as (k & bi & _ & Hp). unfold partial_block in Hp. destruct (_ || _); [done|]. destruct (existsb _ _); [|done].
    by injection Hp as <-. }
  destruct (edit_loop _ _ _ _ _ _ _ _ _) as [st|e] eqn:Hloop; cycle 1.
  { intros [= <- <- <-]. by destruct (edit_loop_error _ _ _ _ _ _ _ _ _ _ Hloop) as (b & err & ->). }
  set (o := assemble _ _ _). cbv zeta. destruct (negb (length (removedConstructs base o) =? 0)%nat && negb allowLoss) eqn:Hg; intros [= <- <- <-].
  - rewrite andb_false_r. bool_hyps. split; [done|]. eexists _, o. split; [done|]. split; [done|]. split; [by intros Hn; rewrite Hn in *|]. split; [done|].
    intros c. apply removedConstructs_spec.
  - eexists. split; [done|]. split; [intros c; apply removedConstructs_spec|]. intros ->. rewrite andb_true_r in Hg. bool_hyps.
    intros key. destruct (decide (occurrences key o < occurrences key base)) as [Hlt|]; [|lia]. exfalso.
    apply nil_length_inv in Hg. assert ({| Kind := key.1; CText := key.2 |} ∈ removedConstructs base o) as Hin.
    { apply removedConstructs_spec. cbn [Kind CText]. by rewrite <- surjective_pairing. }
    rewrite Hg in Hin. by apply not_elem_of_nil in Hin.
Qed.

(** The report accounts for every block on both sides. Each base block is used
    at most once and is unchanged, moved or removed; each edited block is in the
    output as the bytes of a base block that renders to it or as its own
    conversion; and the output holds the bytes of all of them, base blocks
    verbatim, in the order of the plan. *)
Theorem Merge_accounts base edited allowLoss out r err : Merge Render ConvertBlock base edited allowLoss = (out, Some r, err) →
  let blocks := scanWikiBlocks base in
  Unchanged r + Moved r + Removed r = Z.of_nat (length blocks) ∧
  ∃ plan, NoDup (raws plan) ∧ Forall (λ bi, bi < length blocks)%nat (raws plan) ∧
    Unchanged r + Moved r = Z.of_nat (length (raws plan)) ∧ Converted r = Z.of_nat (length (convs plan)) ∧
    (∀ t, t ∈ splitMDBlocks edited → ∃ item, item ∈ plan ∧ accounts Render ConvertBlock base blocks item t) ∧
    (∀ o, out = Some o → in_order (map (item_bytes base blocks) plan) o).
Proof.
  unfold Merge. set (blocks := scanWikiBlocks base). unfold lcs. destruct (LCS _ _) as [[[bm em] aligned]|] eqn:HL; [|done].
  cbn [from_option id]. destruct aligned; cbn [negb]; [|done]. apply LCS_matching in HL.
  destruct (first_some _ _ _); [done|]. destruct (edit_loop _ _ _ _ _ _ _ _ _) as [st|e] eqn:Hloop; [|done].
  destruct (edit_loop_accounts _ _ _ _ _ _ _ HL st Hloop) as (A1 & A2 & A3 & A4 & A5 & A6). intros H.
  assert ((∀ o, out = Some o → o = assemble base blocks (plan st)) ∧ Unchanged r = Unchanged (counts st) ∧ Moved r = Moved (counts st) ∧
    Converted r = Converted (counts st) ∧
    Removed r = Z.of_nat (length (filter (λ bi, kept Render base blocks bm bi = false ∧ bi ∉ reused st) (seq 0 (length blocks))))) as (Ho & R1 & R2 & R3 & R4).
  { destruct (_ && _) in H; injection H as <- <- _; split_and!; try done. by intros o [= <-]. }
  rewrite R1, R2, R3, R4. split; [exact A5|]. exists (plan st). split_and!; try done. intros o ->%Ho. apply assemble_in_order; [apply scan_blocks_ok|done].
Qed.
End properties.



(** ** A body of five blocks

    The renderer copies the wiki text and the converter appends a newline, except
    on a block it refuses. *)

Module Demo.
Definition base : text := Eval vm_compute in
  join_lines [[]; txt "h1. Title"; txt "one"; txt "two {color:red}x{color}"; []; txt "|a|b"; txt "c|"; []; txt "[~jdoe] !pic.png!"; txt "* x"; txt "* y"; []].
Definition Render (wiki : text) : text := wiki.
Definition ConvertBlock (md : text) : result text text := if has_prefix md (txt "- [ ]") then Err (txt "task list") else Ok (md ++ [newline]).
Definition edited : text := Eval vm_compute in join_gap [txt "* x" ++ newline :: txt "* y"; txt "h1. Title"; txt "new"].

Definition lossy := Eval vm_compute in Merge Render ConvertBlock base edited true.
Definition refused := Eval vm_compute in Merge Render ConvertBlock base edited false.

Example demo_blocks : map (λ b, length (block_bytes base b)) (scanWikiBlocks base) = [9; 27; 7; 17; 7]%nat ∧
  (Unchanged <$> lossy.1.2) = Some 1 ∧ (Moved <$> lossy.1.2) = Some 1 ∧ (Converted <$> lossy.1.2) = Some 1 ∧ (Removed <$> lossy.1.2) = Some 3 ∧
  (length ∘ RemovedConstructs <$> refused.1.2) = Some 3%nat.
Proof. split_and!; reflexivity. Qed.

Lemma forallb_Forall {A : Type} (f : A → bool) (P : A → Prop) l : (∀ x, f x = true → P x) → forallb f l = true → Forall P l.
Proof. intros Hf. induction l as [|x l IH]; [constructor|]. cbn [forallb]. intros [Hx Hl]%andb_true_iff. constructor; [by apply Hf|by apply IH]. Qed.

Lemma closed : Forall fences_closed (rendered Render base).
Proof.
  apply (forallb_Forall (λ md, fence_after 0 (split_lines md) =? 0)%nat); [|vm_compute; reflexivity]. intros md Hmd. by apply Nat.eqb_eq.
Qed.
Lemma visible : Forall (λ md, splitMDBlocks md ≠ []) (rendered Render base).
Proof.
  apply (forallb_Forall (λ md, negb (length (splitMDBlocks md) =? 0)%nat)); [|vm_compute; reflexivity]. intros md Hmd Hn. by rewrite Hn in Hmd.
Qed.

Example joined_roundtrip : unedited Render base (join_gap (rendered Render base)).
Proof. exact (unedited_join Render base closed visible). Qed.

(** A refusal: what it lists is what the withheld body lost. *)
Lemma Merge_loss_gate_witness : ∃ r o, refused.1.2 = Some r ∧ length (RemovedConstructs r) = 3%nat ∧ Merge Render ConvertBlock base edited true = (Some o, Some r, None) ∧
  ∀ c, c ∈ RemovedConstructs r ↔ occurrences (Kind c, CText c) o < occurrences (Kind c, CText c) base.
Proof.
  destruct (Merge_loss_gate Render ConvertBlock base edited false refused.1.1 refused.1.2 refused.2 ltac:(vm_compute; reflexivity)) as (_ & r & o & Hr & Hl & _ & Ho & Hc).
  exists r, o. split; [exact Hr|]. split; [injection Hr as <-; reflexivity|]. split; [exact Ho|]. rewrite Hl. exact Hc.
Defined.

Lemma Merge_accounts_witness : ∃ r, lossy.1.2 = Some r ∧ Unchanged r + Moved r + Removed r = 5.
Proof.
  destruct lossy.1.2 as [r|] eqn:Hr; [|discriminate]. exists r. split; [reflexivity|].
  destruct (Merge_accounts Render ConvertBlock base edited true lossy.1.1 r lossy.2 ltac:(rewrite <- Hr; vm_compute; reflexivity)) as [Ha _].
  exact Ha.
Defined.
End Demo.
End WikiMerge.
