(* ===== verification/Json.v ===== *)
(** * Reading JSON

    The part of [encoding/json] the strict decoders rely on: the lexical syntax of
    values, the decoding of string literals, and the token stream of
    [json.Decoder] with its state machine.  [flatten] gives the tokens of a value,
    the reference against which token-level code is stated. *)

From S2P Require Import Prelude GoText WikiScanner.
Import GoText.
Import WikiScanner (span, is_byte).

Module Json.
Local Open Scope Z_scope.

(** ** Runes and escapes *)

(** [utf8.EncodeRune]; a surrogate and an oversized rune become U+FFFD. *)
Definition encode_rune (r : Z) : text :=
  let b z := ascii_of_N (Z.to_N z) in
  if r <? 128 then [b r]
  else if r <? 2048 then [b (192 + r / 64); b (128 + r mod 64)]
  else if in_rng 55296 57343 r || (1114111 <? r) then [b 239; b 191; b 189]
  else if r <? 65536 then [b (224 + r / 4096); b (128 + (r / 64) mod 64); b (128 + r mod 64)]
  else [b (240 + r / 262144); b (128 + (r / 4096) mod 64); b (128 + (r / 64) mod 64); b (128 + r mod 64)].

Definition hex_value (c : ascii) : option Z :=
  let v := byte_val c in
  if in_rng 48 57 v then Some (v - 48)
  else if in_rng 97 102 v then Some (v - 97 + 10)
  else if in_rng 65 70 v then Some (v - 65 + 10)
  else None.

(** Four hexadecimal digits at the head of a text. *)
Definition hex4 (s : text) : option Z :=
  match s with
  | a :: b :: c :: d :: _ =>
      match hex_value a, hex_value b, hex_value c, hex_value d with
      | Some a, Some b, Some c, Some d => Some (((a * 16 + b) * 16 + c) * 16 + d)
      | _, _, _, _ => None
      end
  | _ => None
  end.

Definition quote : ascii := "034"%char.
Definition backslash : ascii := "092"%char.
Definition is_ws (c : ascii) : bool := is_byte " "%char c || is_byte "009"%char c || is_byte "010"%char c || is_byte "013"%char c.
Definition digit (c : ascii) : bool := in_rng 48 57 (byte_val c).

(** The byte a one-letter escape stands for. *)
Definition simple_escape (c : ascii) : option ascii :=
  if is_byte quote c then Some quote
  else if is_byte backslash c then Some backslash
  else if is_byte "/"%char c then Some "/"%char
  else if is_byte "b"%char c then Some "008"%char
  else if is_byte "f"%char c then Some "012"%char
  else if is_byte "n"%char c then Some "010"%char
  else if is_byte "r"%char c then Some "013"%char
  else if is_byte "t"%char c then Some "009"%char
  else None.

(** ** Lexical syntax *)

(** The body of a string literal after its opening quote, with its escapes, and
    the text after the closing quote. *)
Fixpoint scan_string (s : text) : option (text * text) :=
  match s with
  | [] => None
  | c :: s =>
      if is_byte quote c then Some ([], s)
      else if is_byte backslash c then
        match s with
        | [] => None
        | e :: s =>
            if is_byte "u"%char e then
              match s with
              | h1 :: h2 :: h3 :: h4 :: s' =>
                  match hex4 [h1; h2; h3; h4] with
                  | Some _ => '(raw, rest) ← scan_string s'; Some (c :: e :: h1 :: h2 :: h3 :: h4 :: raw, rest)
                  | None => None
                  end
              | _ => None
              end
            else match simple_escape e with
                 | Some _ => '(raw, rest) ← scan_string s; Some (c :: e :: raw, rest)
                 | None => None
                 end
        end
      else if byte_val c <? 32 then None
      else '(raw, rest) ← scan_string s; Some (c :: raw, rest)
  end.

(** [utf16.DecodeRune], [None] for an invalid pair. *)
Definition surrogate (v : Z) : bool := in_rng 55296 57343 v.
Definition surrogate_pair (hi lo : Z) : option Z :=
  if in_rng 55296 56319 hi && in_rng 56320 57343 lo then Some ((hi - 55296) * 1024 + (lo - 56320) + 65536) else None.

(** The code unit of a Unicode escape at the head of a text ([getu4]). *)
Definition getu4 (s : text) : option Z :=
  match s with
  | c :: e :: s => if is_byte backslash c && is_byte "u"%char e then hex4 s else None
  | _ => None
  end.

(** [unquote]: the value of a string literal; an unpaired surrogate and an
    undecodable byte become U+FFFD. *)
Fixpoint unquote_loop (fuel : nat) (s : text) : text :=
  match fuel, s with
  | S fuel, c :: s' =>
      if is_byte backslash c then
        match getu4 s with
        | Some v =>
            if surrogate v then
              match getu4 (drop 6 s) ≫= surrogate_pair v with
              | Some r => encode_rune r ++ unquote_loop fuel (drop 12 s)
              | None => encode_rune RuneError ++ unquote_loop fuel (drop 6 s)
              end
            else encode_rune v ++ unquote_loop fuel (drop 6 s)
        | None =>
            match s' with
            | e :: s'' => default e (simple_escape e) :: unquote_loop fuel s''
            | [] => []
            end
        end
      else
        let '(r, sz) := decode_rune s in
        encode_rune r ++ unquote_loop fuel (drop sz s)
  | _, _ => []
  end.
Definition unquote (raw : text) : text := unquote_loop (length raw) raw.

(** The length of a number literal at the head of a text. *)
Definition scan_number (s : text) : option nat :=
  let sign := match s with c :: _ => if is_byte "-"%char c then 1%nat else 0%nat | [] => 0%nat end in
  let int := match drop sign s with
             | c :: _ => if is_byte "0"%char c then 1%nat else if digit c then length (fst (span digit (drop sign s))) else 0%nat
             | [] => 0%nat
             end in
  if (int =? 0)%nat then None
  else
    let n := (sign + int)%nat in
    let frac := match drop n s with
                | c :: s' => if is_byte "."%char c then let d := length (fst (span digit s')) in if (d =? 0)%nat then None else Some (S d) else Some 0%nat
                | [] => Some 0%nat
                end in
    match frac with
    | None => None
    | Some frac =>
        let n := (n + frac)%nat in
        match drop n s with
        | c :: s' =>
            if is_byte "e"%char c || is_byte "E"%char c then
              let sg := match s' with x :: _ => if is_byte "+"%char x || is_byte "-"%char x then 1%nat else 0%nat | [] => 0%nat end in
              let d := length (fst (span digit (drop sg s'))) in
              if (d =? 0)%nat then None else Some (n + S (sg + d))%nat
            else Some n
        | [] => Some n
        end
    end.

Inductive lexeme := LOpenObject | LCloseObject | LOpenArray | LCloseArray | LComma | LColon | LString (s : text) | LNumber (s : text) | LBool (b : bool) | LNull.
#[export] Instance lexeme_eq_dec : EqDecision lexeme.
Proof. solve_decision. Defined.

Fixpoint skip_ws (s : text) : text :=
  match s with
  | c :: s' => if is_ws c then skip_ws s' else s
  | [] => []
  end.

Definition punctuation (c : ascii) : option lexeme :=
  if is_byte "{"%char c then Some LOpenObject
  else if is_byte "}"%char c then Some LCloseObject
  else if is_byte "["%char c then Some LOpenArray
  else if is_byte "]"%char c then Some LCloseArray
  else if is_byte ","%char c then Some LComma
  else if is_byte ":"%char c then Some LColon
  else None.

(** The lexeme at the head of a text that starts with one, and the rest. *)
Definition lexeme_at (s : text) : option (lexeme * text) :=
  match s with
  | [] => None
  | c :: s' =>
      match punctuation c with
      | Some l => Some (l, s')
      | None =>
          if is_byte quote c then '(raw, rest) ← scan_string s'; Some (LString (unquote raw), rest)
          else if has_prefix s (txt "true") then Some (LBool true, drop 4 s)
          else if has_prefix s (txt "false") then Some (LBool false, drop 5 s)
          else if has_prefix s (txt "null") then Some (LNull, drop 4 s)
          else n ← scan_number s; Some (LNumber (take n s), drop n s)
      end
  end.

(** ** The token stream *)

Inductive token := Delim (c : ascii) | TString (s : text) | TNumber (s : text) | TBool (b : bool) | TNull.

Inductive tokenState :=
| tokenTopValue | tokenArrayStart | tokenArrayValue | tokenArrayComma
| tokenObjectStart | tokenObjectKey | tokenObjectColon | tokenObjectValue | tokenObjectComma.

Record decoder := { rest : text; tstate : tokenState; tstack : list tokenState }.

Definition tokenValueAllowed (t : tokenState) : bool :=
  match t with tokenTopValue | tokenArrayStart | tokenArrayValue | tokenObjectValue => true | _ => false end.
Definition tokenValueEnd (t : tokenState) : tokenState :=
  match t with
  | tokenArrayStart | tokenArrayValue => tokenArrayComma
  | tokenObjectValue => tokenObjectComma
  | t => t
  end.

(** What one lexeme does to the state: an error, no token yet, or a token. *)
Inductive token_effect := Bad | Again (t : tokenState) (st : list tokenState) | Give (k : token) (t : tokenState) (st : list tokenState).

Definition scalar (l : lexeme) : option token :=
  match l with LString s => Some (TString s) | LNumber s => Some (TNumber s) | LBool b => Some (TBool b) | LNull => Some TNull | _ => None end.

Definition token_step (l : lexeme) (t : tokenState) (st : list tokenState) : token_effect :=
  match l with
  | LOpenArray => if tokenValueAllowed t then Give (Delim "["%char) tokenArrayStart (t :: st) else Bad
  | LCloseArray =>
      match t, st with
      | (tokenArrayStart | tokenArrayComma), t' :: st => Give (Delim "]"%char) (tokenValueEnd t') st
      | _, _ => Bad
      end
  | LOpenObject => if tokenValueAllowed t then Give (Delim "{"%char) tokenObjectStart (t :: st) else Bad
  | LCloseObject =>
      match t, st with
      | (tokenObjectStart | tokenObjectComma), t' :: st => Give (Delim "}"%char) (tokenValueEnd t') st
      | _, _ => Bad
      end
  | LColon => match t with tokenObjectColon => Again tokenObjectValue st | _ => Bad end
  | LComma => match t with tokenArrayComma => Again tokenArrayValue st | tokenObjectComma => Again tokenObjectKey st | _ => Bad end
  | _ =>
      match l, t with
      | LString s, (tokenObjectStart | tokenObjectKey) => Give (TString s) tokenObjectColon st
      | _, _ => match scalar l with
                | Some k => if tokenValueAllowed t then Give k (tokenValueEnd t) st else Bad
                | None => Bad
                end
      end
  end.

(** [decoder.Token()]: the end of the input, an error, or a token.  At most two
    lexemes give no token, and the fuel is above the number of bytes. *)
Inductive token_result := TokenEOF | TokenError | TokenOk (k : token) (d : decoder).

Fixpoint token_loop (fuel : nat) (d : decoder) : token_result :=
  match fuel with
  | O => TokenError
  | S fuel =>
      match skip_ws (rest d) with
      | [] => TokenEOF
      | s =>
          match lexeme_at s with
          | None => TokenError
          | Some (l, s') =>
              match token_step l (tstate d) (tstack d) with
              | Bad => TokenError
              | Again t st => token_loop fuel {| rest := s'; tstate := t; tstack := st |}
              | Give k t st => TokenOk k {| rest := s'; tstate := t; tstack := st |}
              end
          end
      end
  end.
Definition Token (d : decoder) : token_result := token_loop (S (length (rest d))) d.
Definition NewDecoder (data : text) : decoder := {| rest := data; tstate := tokenTopValue; tstack := [] |}.

(** ** Values *)

(** An object is the list of its members as written. *)
Unset Elimination Schemes.
Inductive json := JNull | JBool (b : bool) | JNumber (s : text) | JString (s : text) | JArray (items : list json) | JObject (members : list (text * json)).
Set Elimination Schemes.

(** The lexemes of a text, if it is lexically well formed. *)
Fixpoint lex_all (fuel : nat) (s : text) : option (list lexeme) :=
  match fuel with
  | O => None
  | S fuel =>
      match skip_ws s with
      | [] => Some []
      | s' => '(l, rest) ← lexeme_at s'; ls ← lex_all fuel rest; Some (l :: ls)
      end
  end.
Definition lex (data : text) : option (list lexeme) := lex_all (S (length data)) data.

Fixpoint separated (items : list (list lexeme)) : list lexeme :=
  match items with
  | [] => []
  | [i] => i
  | i :: items => i ++ LComma :: separated items
  end.

Fixpoint flatten (v : json) : list lexeme :=
  match v with
  | JNull => [LNull]
  | JBool b => [LBool b]
  | JNumber s => [LNumber s]
  | JString s => [LString s]
  | JArray items => LOpenArray :: separated (map flatten items) ++ [LCloseArray]
  | JObject members => LOpenObject :: separated (map (λ m, LString m.1 :: LColon :: flatten m.2) members) ++ [LCloseObject]
  end.

(** No object of the value has two members of one name. *)
Fixpoint distinct (v : json) : Prop :=
  match v with
  | JArray items => foldr (λ v P, distinct v ∧ P) True items
  | JObject members => NoDup (map fst members) ∧ foldr (λ m P, distinct m.2 ∧ P) True members
  | _ => True
  end.

(** How deep arrays and objects nest. *)
Fixpoint nesting (v : json) : Z :=
  match v with
  | JArray items => 1 + foldr (λ v d, Z.max (nesting v) d) 0 items
  | JObject members => 1 + foldr (λ m d, Z.max (nesting m.2) d) 0 members
  | _ => 0
  end.

Section json_ind.
Variable P : json → Prop.
Hypothesis Hnull : P JNull.
Hypothesis Hbool : ∀ b, P (JBool b).
Hypothesis Hnumber : ∀ s, P (JNumber s).
Hypothesis Hstring : ∀ s, P (JString s).
Hypothesis Harray : ∀ items, Forall P items → P (JArray items).
Hypothesis Hobject : ∀ members, Forall (λ m, P m.2) members → P (JObject members).

Fixpoint json_ind' (v : json) : P v :=
  match v with
  | JNull => Hnull
  | JBool b => Hbool b
  | JNumber s => Hnumber s
  | JString s => Hstring s
  | JArray items => Harray items ((fix go l : Forall P l := match l with [] => Forall_nil_2 P | v :: l => Forall_cons_2 P v l (json_ind' v) (go l) end) items)
  | JObject members => Hobject members ((fix go l : Forall (λ m, P m.2) l :=
      match l with [] => Forall_nil_2 _ | m :: l => Forall_cons_2 (λ m, P m.2) m l (json_ind' m.2) (go l) end) members)
  end.
End json_ind.

Example lex_demo : lex (txt " {" ++ quote :: txt "a" ++ quote :: txt " : [1.5e3, -0,true ]}") =
  Some (flatten (JObject [(txt "a", JArray [JNumber (txt "1.5e3"); JNumber (txt "-0"); JBool true])])).
Proof. vm_compute. reflexivity. Qed.
Example unquote_demo : unquote (txt "\u0041\n\ud83d\ude00\ud800x") = txt "A" ++ "010"%char :: txt "😀" ++ encode_rune RuneError ++ txt "x".
Proof. vm_compute. reflexivity. Qed.
(** ** Lexing consumes the text *)

Inductive lexes : text → list lexeme → Prop :=
| lexes_nil s : skip_ws s = [] → lexes s []
| lexes_cons s l s' ls : skip_ws s ≠ [] → lexeme_at (skip_ws s) = Some (l, s') → lexes s' ls → lexes s (l :: ls).

Lemma skip_ws_length s : (length (skip_ws s) ≤ length s)%nat.
Proof. induction s as [|c s IH]; [done|]. cbn [skip_ws]. destruct (is_ws c); simpl in *; lia. Qed.

(** The cases of a string literal. *)
Inductive string_step : text → text → Prop :=
| step_unicode h1 h2 h3 h4 v s : hex4 [h1; h2; h3; h4] = Some v → string_step (backslash :: "u"%char :: h1 :: h2 :: h3 :: h4 :: s) s
| step_simple e x s : simple_escape e = Some x → is_byte "u"%char e = false → string_step (backslash :: e :: s) s
| step_plain c s : is_byte quote c = false → is_byte backslash c = false → string_step (c :: s) s.

Lemma scan_string_step s raw rest : scan_string s = Some (raw, rest) →
  (s = quote :: rest ∧ raw = []) ∨
  ∃ s' raw', string_step s s' ∧ scan_string s' = Some (raw', rest) ∧ ∃ p, s = p ++ s' ∧ raw = p ++ raw'.
Proof.
  destruct s as [|c s]; [done|]. cbn [scan_string]. destruct (is_byte quote c) eqn:Hq.
  { apply bool_decide_eq_true in Hq as ->. intros [= <- <-]. by left. }
  intros H. right. destruct (is_byte backslash c) eqn:Hb.
  - apply bool_decide_eq_true in Hb as ->. destruct s as [|e s]; [done|]. destruct (is_byte "u"%char e) eqn:He.
    + apply bool_decide_eq_true in He as ->. destruct s as [|h1 [|h2 [|h3 [|h4 s]]]]; try done. destruct (hex4 [h1; h2; h3; h4]) as [v|] eqn:Hh; [|done].
      destruct (scan_string s) as [[raw' rest']|] eqn:Hs; [|done]. injection H as <- <-. exists s, raw'.
      split; [by econstructor|]. split; [done|]. by exists [backslash; "u"%char; h1; h2; h3; h4].
    + destruct (simple_escape e) as [x|] eqn:Hx; [|done]. destruct (scan_string s) as [[raw' rest']|] eqn:Hs; [|done]. injection H as <- <-.
      exists s, raw'. split; [by econstructor|]. split; [done|]. by exists [backslash; e].
  - destruct (byte_val c <? 32); [done|]. destruct (scan_string s) as [[raw' rest']|] eqn:Hs; [|done]. injection H as <- <-.
    exists s, raw'. split; [by constructor|]. split; [done|]. by exists [c].
Qed.

Lemma string_step_shorter s s' : string_step s s' → (length s' < length s)%nat.
Proof. intros []; simpl; lia. Qed.

Lemma scan_string_shorter n s raw rest : (length s ≤ n)%nat → scan_string s = Some (raw, rest) → (length rest < length s)%nat.
Proof.
  revert s raw. induction n as [|n IH]; intros s raw Hn H; [destruct s; [done|simpl in Hn; lia]|].
  apply scan_string_step in H as [[-> _]|(s' & raw' & Hs%string_step_shorter & H & _)]; [simpl; lia|].
  specialize (IH s' raw' ltac:(lia) H). lia.
Qed.

(** The bytes a number can hold. *)
Definition number_byte (c : ascii) : bool :=
  digit c || is_byte "-"%char c || is_byte "+"%char c || is_byte "."%char c || is_byte "e"%char c || is_byte "E"%char c.

Lemma span_all p s : forallb p (take (length (fst (span p s))) s) = true ∧ (length (fst (span p s)) ≤ length s)%nat.
Proof.
  induction s as [|c s [IH1 IH2]]; [done|]. cbn [span]. destruct (p c) eqn:Hp; [|simpl; split; [done|lia]].
  destruct (span p s) as [a b]. cbn [fst length take forallb] in *. rewrite Hp, IH1. split; [done|]. lia.
Qed.

Lemma take_number s m k : (m ≤ length s)%nat → forallb number_byte (take m s) = true → forallb number_byte (take k (drop m s)) = true →
  (k ≤ length (drop m s))%nat → forallb number_byte (take (m + k) s) = true ∧ (m + k ≤ length s)%nat.
Proof.
  intros Hm H1 H2 Hk. rewrite length_drop in Hk. split; [|lia]. rewrite <- (take_take_drop s m k), forallb_app. by rewrite H1, H2.
Qed.

Lemma digits_number s : forallb number_byte (take (length (fst (span digit s))) s) = true ∧ (length (fst (span digit s)) ≤ length s)%nat.
Proof.
  destruct (span_all digit s) as [H Hl]. split; [|done]. rewrite forallb_forall in *. intros c Hc. unfold number_byte. by rewrite (H c Hc).
Qed.

Lemma scan_number_bytes s n : scan_number s = Some n → (0 < n ≤ length s)%nat ∧ forallb number_byte (take n s) = true.
Proof.
  unfold scan_number. set (sign := match s with c :: _ => if is_byte "-"%char c then 1%nat else 0%nat | [] => 0%nat end).
  assert (forallb number_byte (take sign s) = true ∧ (sign ≤ length s)%nat) as [Hs1 Hs2].
  { unfold sign. destruct s as [|c s]; [done|]. destruct (is_byte "-"%char c) eqn:Hc; [|simpl; split; [done|lia]].
    apply bool_decide_eq_true in Hc as ->. simpl. split; [done|lia]. }
  set (int := match drop sign s with c :: _ => _ | [] => 0%nat end).
  assert (forallb number_byte (take int (drop sign s)) = true ∧ (int ≤ length (drop sign s))%nat) as [Hi1 Hi2].
  { unfold int. destruct (drop sign s) as [|c r]; [done|]. destruct (is_byte "0"%char c) eqn:Hc.
    { apply bool_decide_eq_true in Hc as ->. simpl. split; [done|lia]. }
    destruct (digit c); [apply digits_number|simpl; split; [done|lia]]. }
  destruct (int =? 0)%nat eqn:H0; [done|]. bool_hyps. destruct (take_number s sign int Hs2 Hs1 Hi1 Hi2) as [Hn1 Hn2].
  set (m := (sign + int)%nat) in *. cbv zeta.
  destruct (match drop m s with c :: s' => _ | [] => Some 0%nat end) as [frac|] eqn:Hf; [|done].
  assert (forallb number_byte (take frac (drop m s)) = true ∧ (frac ≤ length (drop m s))%nat) as [Hf1 Hf2].
  { destruct (drop m s) as [|c r]; [by injection Hf as <-|]. destruct (is_byte "."%char c) eqn:Hc; [|injection Hf as <-; simpl; split; [done|lia]].
    apply bool_decide_eq_true in Hc as ->. destruct (digits_number r) as [Hd1 Hd2]. destruct (length (fst (span digit r)) =? 0)%nat; [done|].
    injection Hf as <-. cbn [take forallb length]. rewrite Hd1. split; [done|lia]. }
  destruct (take_number s m frac Hn2 Hn1 Hf1 Hf2) as [Hm1 Hm2]. set (k := (m + frac)%nat) in *.
  assert (0 < k)%nat by lia. destruct (drop k s) as [|c r] eqn:Hdk; [intros [= <-]; split; [lia|done]|].
  destruct (is_byte "e"%char c || is_byte "E"%char c) eqn:He; [|intros [= <-]; split; [lia|done]].
  set (sg := match r with x :: _ => _ | [] => 0%nat end). destruct (digits_number (drop sg r)) as [Hd1 Hd2].
  destruct (length (fst (span digit (drop sg r))) =? 0)%nat eqn:Hd0; [done|]. intros [= <-].
  assert (forallb number_byte (take sg r) = true ∧ (sg ≤ length r)%nat) as [Hg1 Hg2].
  { unfold sg. destruct r as [|x r']; [done|].
    destruct (is_byte "+"%char x || is_byte "-"%char x) eqn:Hx; [|simpl; split; [done|lia]].
    apply orb_true_iff in Hx as [Hx|Hx]; apply bool_decide_eq_true in Hx as ->; simpl; (split; [done|lia]). }
  destruct (take_number r sg _ Hg2 Hg1 Hd1 Hd2) as [He1 He2]. set (q := (sg + _)%nat) in *.
  assert (forallb number_byte (take (S q) (drop k s)) = true) as Hq.
  { rewrite Hdk. cbn [take forallb]. rewrite He1. unfold number_byte.
    apply orb_true_iff in He as [He|He]; rewrite He; by rewrite ?orb_true_r. }
  destruct (take_number s k (S q) Hm2 Hm1 Hq ltac:(rewrite Hdk; simpl; lia)) as [? ?]. split; [lia|done].
Qed.

(** A lexeme is at least one byte. *)
Lemma lexeme_at_shorter s l s' : lexeme_at s = Some (l, s') → (length s' < length s)%nat.
Proof.
  destruct s as [|c s]; [done|]. cbn [lexeme_at]. destruct (punctuation c); [intros [= _ <-]; simpl; lia|].
  destruct (is_byte quote c).
  { destruct (scan_string s) as [[raw rest]|] eqn:Hs; [|done]. intros [= _ <-]. apply (scan_string_shorter _ _ _ _ (le_n _)) in Hs. simpl. lia. }
  destruct (has_prefix _ _); [intros [= _ <-]; rewrite length_drop; simpl; lia|].
  destruct (has_prefix _ _); [intros [= _ <-]; rewrite length_drop; simpl; lia|].
  destruct (has_prefix _ _); [intros [= _ <-]; rewrite length_drop; simpl; lia|].
  destruct (scan_number (c :: s)) as [n|] eqn:Hn; [|done]. intros [= _ <-]. apply scan_number_bytes in Hn as [? _]. rewrite length_drop. simpl in *. lia.
Qed.

Lemma lex_all_spec fuel s ls : (length s < fuel)%nat → lex_all fuel s = Some ls ↔ lexes s ls.
Proof.
  revert s ls. induction fuel as [|fuel IH]; intros s ls Hf; [lia|]. cbn [lex_all]. pose proof (skip_ws_length s) as Hws.
  destruct (skip_ws s) as [|c r] eqn:Hs.
  - split; [intros [= <-]; by constructor|]. inversion 1; subst; [done|congruence].
  - destruct (lexeme_at (c :: r)) as [[l s']|] eqn:Hl; cbn.
    + pose proof (lexeme_at_shorter _ _ _ Hl) as Hlt. split.
      * destruct (lex_all fuel s') as [ls'|] eqn:Hr; [|done]. intros [= <-]. econstructor; [by rewrite Hs|by rewrite Hs|]. apply IH; [lia|done].
      * inversion 1 as [|? l1 s1 ls1 _ Ha Hrest]; subst; [congruence|]. rewrite Hs, Hl in Ha. injection Ha as <- <-.
        apply IH in Hrest as ->; [done|lia].
    + split; [done|]. inversion 1; subst; congruence.
Qed.

Lemma lex_spec s ls : lex s = Some ls ↔ lexes s ls.
Proof. apply lex_all_spec. lia. Qed.

End Json.
