(* ===== verification/StrictJson.v ===== *)
(** * Strict JSON validation (internal/strictjson/strictjson.go)

    [Validate] runs over the token stream of [Json]; the byte-level passes for
    nesting and surrogate escapes and the exact-shape check are definitions of
    their own.  The theorems relate them to the values the text denotes. *)

From S2P Require Import Prelude GoText WikiScanner Json.
Import GoText Json.
Import WikiScanner (span, is_byte).

Module StrictJson.
Local Open Scope Z_scope.

Definition MaxNestingDepth : Z := 10000.

Inductive jsonError :=
| ErrUTF8 | ErrNestingLimit | ErrNestingDepth (maximum : Z) | ErrSurrogate | ErrDecoder | ErrIncomplete | ErrTrailing
| ErrDelimiter | ErrValueMissing | ErrMemberName | ErrDuplicate.
#[export] Instance jsonError_eq_dec : EqDecision jsonError.
Proof. solve_decision. Defined.

(** ** Nesting *)

Fixpoint nest_loop (data : text) (maximum depth : Z) (inString escaped : bool) : option jsonError :=
  match data with
  | [] => None
  | c :: data =>
      if inString then
        if escaped then nest_loop data maximum depth true false
        else if is_byte backslash c then nest_loop data maximum depth true true
        else if is_byte quote c then nest_loop data maximum depth false false
        else nest_loop data maximum depth true false
      else if is_byte quote c then nest_loop data maximum depth true escaped
      else if is_byte "{"%char c || is_byte "["%char c then
        if maximum <? depth + 1 then Some (ErrNestingDepth maximum) else nest_loop data maximum (depth + 1) false escaped
      else if is_byte "}"%char c || is_byte "]"%char c then nest_loop data maximum (if 0 <? depth then depth - 1 else depth) false escaped
      else nest_loop data maximum depth false escaped
  end.
Definition ValidateNestingDepth (data : text) (maximum : Z) : option jsonError :=
  if (maximum <? 0) || (MaxNestingDepth <? maximum) then Some ErrNestingLimit else nest_loop data maximum 0 false false.

(** ** Surrogate escapes *)

(** [hexEscape] *)
Definition hexEscape (data : text) : option Z := hex4 data.

Fixpoint escapes_loop (fuel : nat) (data : text) (inString : bool) : bool :=
  match fuel, data with
  | S fuel, c :: rest =>
      if is_byte quote c then escapes_loop fuel rest (negb inString)
      else if is_byte backslash c then
        match rest with
        | e :: rest' =>
            if negb inString then escapes_loop fuel rest inString
            else if negb (is_byte "u"%char e) then escapes_loop fuel rest' inString
            else match hexEscape rest' with
                 | None => escapes_loop fuel rest inString
                 | Some value =>
                     if in_rng 56320 57343 value then false
                     else if in_rng 55296 56319 value then
                       match drop 4 rest' with
                       | b :: u :: low =>
                           if (length low <? 4)%nat || negb (is_byte backslash b) || negb (is_byte "u"%char u) then false
                           else match hexEscape low with
                                | None => false
                                | Some l => if negb (in_rng 56320 57343 l) then false else escapes_loop fuel (drop 4 low) inString
                                end
                       | _ => false
                       end
                     else escapes_loop fuel (drop 4 rest') inString
                 end
        | [] => escapes_loop fuel rest inString
        end
      else escapes_loop fuel rest inString
  | _, _ => true
  end.
Definition ValidUnicodeEscapes (data : text) : bool := escapes_loop (length data) data false.

(** ** Validation *)

Record validationFrame := { kind : ascii; expectKey : bool; seen : gset text }.

Definition set_expectKey (b : bool) (f : validationFrame) : validationFrame := {| kind := kind f; expectKey := b; seen := seen f |}.
Definition markParentValueComplete (stack : list validationFrame) : list validationFrame :=
  match stack with
  | f :: stack' => if is_byte "{"%char (kind f) then set_expectKey true f :: stack' else stack
  | [] => []
  end.

(** One token: the new stack, the innermost frame first. *)
Definition frame_step (token : token) (stack : list validationFrame) : result jsonError (list validationFrame) :=
  let value (stack : list validationFrame) : result jsonError (list validationFrame) :=
    match token with
    | Delim c =>
        if is_byte "{"%char c then Ok ({| kind := c; expectKey := true; seen := ∅ |} :: markParentValueComplete stack)
        else if is_byte "["%char c then Ok ({| kind := c; expectKey := false; seen := ∅ |} :: markParentValueComplete stack)
        else Err ErrDelimiter
    | _ => Ok (markParentValueComplete stack)
    end in
  match (match token with Delim c => if is_byte "}"%char c || is_byte "]"%char c then Some c else None | _ => None end) with
  | Some c =>
      match stack with
      | f :: stack' =>
          if negb (byte_val (kind f) + 2 =? byte_val c) then Err ErrDelimiter
          else if is_byte "}"%char c && negb (expectKey f) then Err ErrValueMissing
          else Ok stack'
      | [] => Err ErrDelimiter
      end
  | None =>
      match stack with
      | f :: stack' =>
          if is_byte "{"%char (kind f) && expectKey f then
            match token with
            | TString name => if bool_decide (name ∈ seen f) then Err ErrDuplicate
                              else Ok ({| kind := kind f; expectKey := false; seen := {[name]} ∪ seen f |} :: stack')
            | _ => Err ErrMemberName
            end
          else value stack
      | [] => value stack
      end
  end.

Fixpoint validate_loop (fuel : nat) (d : decoder) (stack : list validationFrame) (rootSeen : bool) : option jsonError :=
  match fuel with
  | O => Some ErrDecoder
  | S fuel =>
      match Token d with
      | TokenEOF => if negb rootSeen || negb (length stack =? 0)%nat then Some ErrIncomplete else None
      | TokenError => Some ErrDecoder
      | TokenOk token d =>
          if (length stack =? 0)%nat && rootSeen then Some ErrTrailing
          else match frame_step token stack with
               | Err e => Some e
               | Ok stack => validate_loop fuel d stack true
               end
      end
  end.

Definition Validate (data : text) : option jsonError :=
  if negb (valid_utf8 data) then Some ErrUTF8
  else match ValidateNestingDepth data MaxNestingDepth with
  | Some e => Some e
  | None =>
      if negb (ValidUnicodeEscapes data) then Some ErrSurrogate
      else validate_loop (S (length data)) (NewDecoder data) [] false
  end.

(** ** Exact shapes *)

(** The Go types [matchesExactShape] tells apart: a struct field has its Go name,
    its [json] tag, whether it is exported, and its type. *)
Unset Elimination Schemes.
Inductive goType := Pointer (t : goType) | RawMessage | Struct (fields : list (text * text * bool * goType)) | Sequence (elem : goType) | OtherKind.
Set Elimination Schemes.

(** [strings.Cut(tag, ",")] *)
Definition cut_comma (tag : text) : text * text :=
  let '(name, options) := span (λ c, negb (is_byte ","%char c)) tag in (name, drop 1 options).

(** [object[name]] of a decoded object: the last member of that name. *)
Definition member_of (name : text) (members : list (text * json)) : option json :=
  match filter (λ m, m.1 = name) (reverse members) with m :: _ => Some m.2 | [] => None end.
Definition is_null (v : json) : bool := match v with JNull => true | _ => false end.
Definition field_name (go tag : text) : text := let name := (cut_comma tag).1 in if eqt name [] then go else name.
Definition field_optional (tag : text) : bool := contains (txt "," ++ (cut_comma tag).2 ++ txt ",") (txt ",omitempty,").
Definition field_skipped (go tag : text) (exported : bool) : bool := eqt (field_name go tag) (txt "-") || negb exported.

Fixpoint matchesExactShape (target : goType) (value : json) : bool :=
  match target with
  | Pointer t => matchesExactShape t value
  | RawMessage => negb (is_null value)
  | Struct fields =>
      match value with
      | JObject object =>
          forallb (λ '(go, tag, exported, ty),
            if field_skipped go tag exported then true
            else match member_of (field_name go tag) object with
                 | None => field_optional tag
                 | Some member =>
                     negb (field_optional tag && match member with JString s => eqt s [] | _ => false end) &&
                     negb (is_null member) && matchesExactShape ty member
                 end) fields &&
          forallb (λ m, existsb (λ '(go, tag, exported, _), negb (field_skipped go tag exported) && eqt (field_name go tag) m.1) fields) object
      | _ => false
      end
  | Sequence elem =>
      match value with
      | JArray members => forallb (λ member, negb (is_null member) && matchesExactShape elem member) members
      | _ => false
      end
  | OtherKind => negb (is_null value)
  end.

Example validate_demo : let q := quote in
  Validate (txt "{" ++ q :: txt "a" ++ q :: txt ":[1,{}," ++ q :: txt "\ud83d\ude00" ++ q :: txt "]}") = None ∧
  Validate (txt "[1,]") = Some ErrDecoder ∧ Validate (txt "[1") = Some ErrIncomplete ∧ Validate (txt "1 2") = Some ErrTrailing ∧
  Validate (txt "{" ++ q :: txt "a" ++ q :: txt ":1," ++ q :: txt "\u0061" ++ q :: txt ":2}") = Some ErrDuplicate ∧
  Validate (q :: txt "\udead" ++ [q]) = Some ErrSurrogate.
Proof. vm_compute. split_and!; reflexivity. Qed.
(** ** The validator over lexemes *)

Record vstate := { vt : tokenState; vst : list tokenState; vfr : list validationFrame; vroot : bool }.

Definition vstep (l : lexeme) (s : vstate) : option vstate :=
  match token_step l (vt s) (vst s) with
  | Bad => None
  | Again t st => Some {| vt := t; vst := st; vfr := vfr s; vroot := vroot s |}
  | Give k t st =>
      if (length (vfr s) =? 0)%nat && vroot s then None
      else match frame_step k (vfr s) with Ok fr => Some {| vt := t; vst := st; vfr := fr; vroot := true |} | Err _ => None end
  end.

Fixpoint accepts (s : vstate) (ls : list lexeme) : bool :=
  match ls with
  | [] => vroot s && (length (vfr s) =? 0)%nat
  | l :: ls => match vstep l s with Some s => accepts s ls | None => false end
  end.

Definition accepting (s : vstate) (data : text) : Prop := ∃ ls, lexes data ls ∧ accepts s ls = true.

Lemma accepting_nil s data : skip_ws data = [] → accepting s data ↔ vroot s && (length (vfr s) =? 0)%nat = true.
Proof.
  intros Hs. split; [|intros H; exists []; split; [by constructor|done]]. intros (ls & Hl & Ha). inversion Hl; subst; [done|congruence].
Qed.

Lemma accepting_cons s data : skip_ws data ≠ [] → accepting s data ↔ ∃ l data' s', lexeme_at (skip_ws data) = Some (l, data') ∧
  vstep l s = Some s' ∧ accepting s' data'.
Proof.
  intros Hs. split.
  - intros (ls & Hl & Ha). inversion Hl as [|? l s' ls' _ Hat Hrest]; subst; [congruence|]. cbn [accepts] in Ha.
    destruct (vstep l s) as [s1|] eqn:Hv; [|done]. exists l, s', s1. split_and!; try done. by exists ls'.
  - intros (l & data' & s' & Hat & Hv & ls & Hl & Ha). exists (l :: ls). split; [by econstructor|]. cbn. by rewrite Hv.
Qed.

(** Reading one token, or the end of the input. *)
Lemma token_loop_accepting fuel d fr root : (length (rest d) < fuel)%nat →
  accepting {| vt := tstate d; vst := tstack d; vfr := fr; vroot := root |} (rest d) ↔
  match token_loop fuel d with
  | TokenEOF => root && (length fr =? 0)%nat = true
  | TokenError => False
  | TokenOk k d' => (length fr =? 0)%nat && root = false ∧
      ∃ fr', frame_step k fr = Ok fr' ∧ accepting {| vt := tstate d'; vst := tstack d'; vfr := fr'; vroot := true |} (rest d')
  end.
Proof.
  revert d. induction fuel as [|fuel IH]; intros d Hf; [lia|]. cbn [token_loop]. pose proof (skip_ws_length (rest d)) as Hws.
  destruct (decide (skip_ws (rest d) = [])) as [He|Hne]; [rewrite He; by apply accepting_nil|]. rewrite accepting_cons by done.
  destruct (skip_ws (rest d)) as [|c r] eqn:Hs; [done|]. destruct (lexeme_at (c :: r)) as [[l data']|] eqn:Hl; [|naive_solver].
  pose proof (lexeme_at_shorter _ _ _ Hl) as Hlt.
  assert (∀ Q : lexeme → text → vstate → Prop, (∃ l0 data0 s', Some (l, data') = Some (l0, data0) ∧
    vstep l0 {| vt := tstate d; vst := tstack d; vfr := fr; vroot := root |} = Some s' ∧ Q l0 data0 s') ↔
    ∃ s', vstep l {| vt := tstate d; vst := tstack d; vfr := fr; vroot := root |} = Some s' ∧ Q l data' s') as Hinj.
  { intros Q. split; [intros (? & ? & s' & [= <- <-] & ?); by exists s'|intros (s' & ?); by exists l, data', s']. }
  rewrite (Hinj (λ _ data0 s', accepting s' data0)). unfold vstep. cbn [vt vst vfr vroot].
  destruct (token_step l (tstate d) (tstack d)) as [|t st|k t st].
  - split; [by intros (? & ? & _)|done].
  - specialize (IH {| rest := data'; tstate := t; tstack := st |} ltac:(cbn; lia)). cbn [rest tstate tstack] in IH.
    transitivity (accepting {| vt := t; vst := st; vfr := fr; vroot := root |} data'); [naive_solver|]. rewrite IH.
    by destruct (token_loop fuel _).
  - cbn [rest tstate tstack]. destruct ((length fr =? 0)%nat && root) eqn:Hg; [naive_solver|].
    destruct (frame_step k fr) as [fr'|e]; [|naive_solver]. split.
    + intros (s' & [= <-] & Ha). split; [done|]. by exists fr'.
    + intros (_ & fr'' & [= <-] & Ha). eexists. split; [done|exact Ha].
Qed.

Lemma Token_shorter d k d' : Token d = TokenOk k d' → (length (rest d') < length (rest d))%nat.
Proof.
  unfold Token. generalize (S (length (rest d))) as fuel. intros fuel. revert d. induction fuel as [|fuel IH]; intros d H; [done|]. cbn [token_loop] in H.
  pose proof (skip_ws_length (rest d)) as Hws. destruct (skip_ws (rest d)) as [|c r] eqn:Hs; [done|].
  destruct (lexeme_at (c :: r)) as [[l data']|] eqn:Hl; [|done]. pose proof (lexeme_at_shorter _ _ _ Hl) as Hlt.
  destruct (token_step _ _ _) as [|t st|k' t st]; [done| |injection H as <- <-; cbn; lia].
  specialize (IH _ H). cbn [rest] in IH. lia.
Qed.

Lemma validate_loop_accepting fuel d fr root : (length (rest d) < fuel)%nat →
  validate_loop fuel d fr root = None ↔ accepting {| vt := tstate d; vst := tstack d; vfr := fr; vroot := root |} (rest d).
Proof.
  revert d fr root. induction fuel as [|fuel IH]; intros d fr root Hf; [lia|]. cbn [validate_loop].
  rewrite (token_loop_accepting (S (length (rest d)))) by lia. fold (Token d). destruct (Token d) as [| |k d'] eqn:Htok.
  - destruct root, (length fr =? 0)%nat; done.
  - done.
  - destruct ((length fr =? 0)%nat && root) eqn:Hg; [split; [done|by intros (? & _)]|]. destruct (frame_step k fr) as [fr'|e]; [|naive_solver].
    rewrite IH by (pose proof (Token_shorter _ _ _ Htok); lia). split; [|by intros (_ & fr'' & [= <-] & Ha)]. intros Ha. split; [done|]. by exists fr'.
Qed.

(** ** Frames *)

(** The innermost frame waits for a value, not for a member name. *)
Definition takes_value (fr : list validationFrame) : Prop :=
  match fr with f :: _ => is_byte "{"%char (kind f) && expectKey f = false | [] => True end.

Definition array_frame : validationFrame := {| kind := "["%char; expectKey := false; seen := ∅ |}.
Definition object_frame (expect : bool) (names : gset text) : validationFrame := {| kind := "{"%char; expectKey := expect; seen := names |}.

Lemma frame_value k fr : takes_value fr → (∀ c, k ≠ Delim c) → frame_step k fr = Ok (markParentValueComplete fr).
Proof.
  intros Hv Hk. unfold frame_step. destruct k as [c| | | |]; [by destruct (Hk c)|..]; (destruct fr as [|f fr]; [done|]); cbn in Hv; by rewrite Hv.
Qed.

Lemma frame_open_array fr : takes_value fr → frame_step (Delim "["%char) fr = Ok (array_frame :: markParentValueComplete fr).
Proof. intros Hv. unfold frame_step. destruct fr as [|f fr]; [done|]. cbn in Hv. cbn -[is_byte markParentValueComplete]. rewrite Hv. done. Qed.
Lemma frame_open_object fr : takes_value fr → frame_step (Delim "{"%char) fr = Ok (object_frame true ∅ :: markParentValueComplete fr).
Proof. intros Hv. unfold frame_step. destruct fr as [|f fr]; [done|]. cbn in Hv. cbn -[is_byte markParentValueComplete]. rewrite Hv. done. Qed.

(** The state at a value, and the one after it. *)
Definition at_value (s : vstate) : Prop :=
  tokenValueAllowed (vt s) = true ∧ takes_value (vfr s) ∧ (length (vfr s) =? 0)%nat && vroot s = false.
Definition past (s : vstate) : vstate :=
  {| vt := tokenValueEnd (vt s); vst := vst s; vfr := markParentValueComplete (vfr s); vroot := true |}.

(** Inside an array opened in state [s], and inside an object. *)
Definition in_array (t : tokenState) (s : vstate) : vstate :=
  {| vt := t; vst := vt s :: vst s; vfr := array_frame :: markParentValueComplete (vfr s); vroot := true |}.
Definition in_object (t : tokenState) (expect : bool) (names : gset text) (s : vstate) : vstate :=
  {| vt := t; vst := vt s :: vst s; vfr := object_frame expect names :: markParentValueComplete (vfr s); vroot := true |}.

Lemma step_scalar l k s : at_value s → scalar l = Some k → vstep l s = Some (past s).
Proof.
  intros (Ht & Hf & Hr) Hl. unfold vstep.
  assert (token_step l (vt s) (vst s) = Give k (tokenValueEnd (vt s)) (vst s)) as ->.
  { destruct l; try done; injection Hl as <-; cbn; destruct (vt s); done. }
  rewrite Hr, frame_value; [done|done|]. intros c ->. by destruct l.
Qed.

Lemma step_open_array s : at_value s → vstep LOpenArray s = Some (in_array tokenArrayStart s).
Proof. intros (Ht & Hf & Hr). unfold vstep. cbn [token_step]. rewrite Ht, Hr. by rewrite frame_open_array. Qed.
Lemma step_open_object s : at_value s → vstep LOpenObject s = Some (in_object tokenObjectStart true ∅ s).
Proof. intros (Ht & Hf & Hr). unfold vstep. cbn [token_step]. rewrite Ht, Hr. by rewrite frame_open_object. Qed.

Lemma in_array_value t s : tokenValueAllowed t = true → at_value (in_array t s).
Proof. by intros Ht. Qed.
Lemma past_in_array t s : t = tokenArrayStart ∨ t = tokenArrayValue → past (in_array t s) = in_array tokenArrayComma s.
Proof. by intros [->| ->]. Qed.
Lemma in_object_value names s : at_value (in_object tokenObjectValue false names s).
Proof. done. Qed.
Lemma past_in_object names s : past (in_object tokenObjectValue false names s) = in_object tokenObjectComma true names s.
Proof. done. Qed.

Lemma step_close_array t s : t = tokenArrayStart ∨ t = tokenArrayComma → vstep LCloseArray (in_array t s) = Some (past s).
Proof. by intros [->| ->]. Qed.
Lemma step_close_object t names s : t = tokenObjectStart ∨ t = tokenObjectComma → vstep LCloseObject (in_object t true names s) = Some (past s).
Proof. by intros [->| ->]. Qed.
Lemma step_comma_array s : vstep LComma (in_array tokenArrayComma s) = Some (in_array tokenArrayValue s).
Proof. done. Qed.
Lemma step_comma_object names s : vstep LComma (in_object tokenObjectComma true names s) = Some (in_object tokenObjectKey true names s).
Proof. done. Qed.
Lemma step_name t name names s : t = tokenObjectStart ∨ t = tokenObjectKey → vstep (LString name) (in_object t true names s) =
  if bool_decide (name ∈ names) then None else Some (in_object tokenObjectColon false ({[name]} ∪ names) s).
Proof. intros [->| ->]; unfold vstep; cbn -[bool_decide elem_of singleton union]; by destruct (bool_decide (name ∈ names)). Qed.
Lemma step_colon names s : vstep LColon (in_object tokenObjectColon false names s) = Some (in_object tokenObjectValue false names s).
Proof. done. Qed.

(** ** Values are accepted *)

Lemma separated_cons x xs : separated (x :: xs) = x ++ concat (map (cons LComma) xs).
Proof.
  revert x. induction xs as [|y xs IH]; intros x; [cbn; by rewrite app_nil_r|].
  change (separated (x :: y :: xs)) with (x ++ LComma :: separated (y :: xs)). rewrite IH. done.
Qed.

Definition accepts_value (v : json) : Prop := ∀ s ls, at_value s → distinct v → accepts s (flatten v ++ ls) = accepts (past s) ls.

Lemma accepts_items items s ls : Forall accepts_value items → foldr (λ v P, distinct v ∧ P) True items →
  accepts (in_array tokenArrayComma s) (concat (map (cons LComma) (map flatten items)) ++ LCloseArray :: ls) = accepts (past s) ls.
Proof.
  intros Hi. revert s. induction Hi as [|v items Hv Hi IH]; intros s Hd; cbn [map concat app]; [cbn [accepts]; by rewrite step_close_array by auto|].
  destruct Hd as [Hdv Hd]. cbn [accepts app]. rewrite step_comma_array, <- app_assoc, Hv by done. rewrite past_in_array by auto. by apply IH.
Qed.

Definition member_lexemes (m : text * json) : list lexeme := LString m.1 :: LColon :: flatten m.2.

Lemma accepts_member m names t s ls : t = tokenObjectStart ∨ t = tokenObjectKey → accepts_value m.2 → distinct m.2 → m.1 ∉ names →
  accepts (in_object t true names s) (member_lexemes m ++ ls) = accepts (in_object tokenObjectComma true ({[m.1]} ∪ names) s) ls.
Proof.
  intros Ht Hv Hd Hn. unfold member_lexemes. cbn [app accepts]. rewrite step_name by done. rewrite bool_decide_eq_false_2 by done.
  cbn [accepts]. rewrite step_colon, Hv by done. by rewrite past_in_object.
Qed.

Lemma accepts_members ms names s ls : Forall (λ m, accepts_value m.2) ms → foldr (λ m P, distinct m.2 ∧ P) True ms →
  NoDup (map fst ms) → (∀ m, m ∈ ms → m.1 ∉ names) →
  accepts (in_object tokenObjectComma true names s) (concat (map (cons LComma) (map member_lexemes ms)) ++ LCloseObject :: ls) = accepts (past s) ls.
Proof.
  intros Hm. revert names. induction Hm as [|m ms Hv Hm IH]; intros names Hd Hnd Hn; cbn [map concat app]; [cbn [accepts]; by rewrite step_close_object by auto|].
  destruct Hd as [Hdv Hd]. apply NoDup_cons in Hnd as [Hnot Hnd]. cbn [accepts app]. rewrite step_comma_object, <- app_assoc.
  rewrite accepts_member by (auto; apply Hn; left). apply IH; [done|done|]. intros m' Hm'. specialize (Hn m' ltac:(by right)).
  rewrite elem_of_union, elem_of_singleton. intros [He|?]; [|done]. apply Hnot. rewrite <- He. by apply list_elem_of_fmap_2.
Qed.

Lemma accepts_all v : accepts_value v.
Proof.
  induction v as [|b|x|x|items IH|ms IH] using json_ind'.
  1-4: intros s ls Hs _; cbn [flatten app accepts]; by erewrite step_scalar.
  - intros s ls Hs Hd. cbn [flatten app accepts]. rewrite step_open_array by done. rewrite <- app_assoc.
    destruct items as [|v items]; [cbn [map separated app accepts]; by rewrite step_close_array by auto|].
    cbn [map]. rewrite separated_cons, <- app_assoc. apply Forall_cons in IH as [Hv IH]. destruct Hd as [Hdv Hd].
    rewrite Hv by done. rewrite past_in_array by auto. by apply accepts_items.
  - intros s ls Hs [Hnd Hd]. cbn [flatten app accepts]. rewrite step_open_object by done. rewrite <- app_assoc.
    change (map (λ m, LString m.1 :: LColon :: flatten m.2) ms) with (map member_lexemes ms).
    destruct ms as [|m ms]; [cbn [map separated app accepts]; by rewrite step_close_object by auto|].
    cbn [map]. rewrite separated_cons, <- app_assoc. apply Forall_cons in IH as [Hv IH]. destruct Hd as [Hdv Hd]. apply NoDup_cons in Hnd as [Hnot Hnd].
    rewrite accepts_member by (auto; apply not_elem_of_empty). apply accepts_members; try done.
    intros m' Hm'. rewrite elem_of_union, elem_of_singleton. intros [He|?%not_elem_of_empty]; [|done]. apply Hnot. rewrite <- He. by apply list_elem_of_fmap_2.
Qed.

(** ** Only values are accepted *)

Definition only_values (n : nat) : Prop := ∀ s ls, (length ls ≤ n)%nat → at_value s → (vt s = tokenArrayStart → head ls ≠ Some LCloseArray) →
  accepts s ls = true → ∃ v ls', ls = flatten v ++ ls' ∧ distinct v ∧ accepts (past s) ls' = true ∧ (length ls' < length ls)%nat.

Lemma vstep_comma_array l s s' : vstep l (in_array tokenArrayComma s) = Some s' → l = LComma ∨ l = LCloseArray.
Proof. destruct l; try done; auto. Qed.
Lemma vstep_comma_object l names s s' : vstep l (in_object tokenObjectComma true names s) = Some s' → l = LComma ∨ l = LCloseObject.
Proof. destruct l; try done; auto. Qed.
Lemma vstep_key l names s s' : vstep l (in_object tokenObjectKey true names s) = Some s' → ∃ name, l = LString name.
Proof. destruct l; try done. by eexists. Qed.
Lemma vstep_start l names s s' : vstep l (in_object tokenObjectStart true names s) = Some s' → l = LCloseObject ∨ ∃ name, l = LString name.
Proof. destruct l; try done; eauto. Qed.
Lemma vstep_colon l names s s' : vstep l (in_object tokenObjectColon false names s) = Some s' → l = LColon.
Proof. by destruct l. Qed.

Lemma items_inv n m s ls : only_values n → (length ls ≤ m)%nat → (m ≤ n)%nat → accepts (in_array tokenArrayComma s) ls = true →
  ∃ items ls', ls = concat (map (cons LComma) (map flatten items)) ++ LCloseArray :: ls' ∧ foldr (λ v P, distinct v ∧ P) True items ∧
    accepts (past s) ls' = true ∧ (length ls' < length ls)%nat.
Proof.
  intros Hall. revert ls. induction m as [|m IH]; intros ls Hl Hm H; destruct ls as [|l ls]; try done; [simpl in Hl; lia|]. cbn [accepts] in H. cbn [length] in Hl.
  destruct (vstep l _) as [s'|] eqn:Hv; [|done]. destruct (vstep_comma_array _ _ _ Hv) as [->| ->].
  - rewrite step_comma_array in Hv. injection Hv as <-.
    destruct (Hall (in_array tokenArrayValue s) ls ltac:(lia) (in_array_value tokenArrayValue s eq_refl) ltac:(done) H) as (v & ls1 & -> & Hd & H1 & Hlt).
    rewrite past_in_array in H1 by auto. rewrite length_app in Hl. destruct (IH ls1 ltac:(lia) ltac:(lia) H1) as (items & ls' & -> & Hds & H2 & Hlt2).
    exists (v :: items), ls'. split; [cbn [map concat app]; by rewrite <- app_assoc|]. split; [done|]. split; [done|]. simpl. lia.
  - rewrite step_close_array in Hv by auto. injection Hv as <-. exists [], ls. split_and!; try done. simpl. lia.
Qed.

(** One member, from its name on. *)
Lemma member_inv n t names s ls : only_values n → (length ls ≤ n)%nat → t = tokenObjectStart ∨ t = tokenObjectKey →
  (∃ name, head ls = Some (LString name)) → accepts (in_object t true names s) ls = true →
  ∃ m ls', ls = member_lexemes m ++ ls' ∧ (m.1 ∉ names) ∧ distinct m.2 ∧ accepts (in_object tokenObjectComma true ({[m.1]} ∪ names) s) ls' = true ∧
    (length ls' < length ls)%nat.
Proof.
  intros Hall Hl Ht [name Hh] H. destruct ls as [|l ls]; [done|]. injection Hh as ->. cbn [accepts] in H. rewrite step_name in H by done.
  destruct (bool_decide (name ∈ names)) eqn:Hn; [done|]. bool_hyps. destruct ls as [|l ls]; [done|]. cbn [accepts] in H.
  destruct (vstep l _) as [s'|] eqn:Hv; [|done]. pose proof (vstep_colon _ _ _ _ Hv) as ->. rewrite step_colon in Hv. injection Hv as <-.
  cbn [length] in Hl. destruct (Hall _ ls ltac:(lia) (in_object_value _ _) ltac:(done) H) as (v & ls1 & -> & Hd & H1 & Hlt). rewrite past_in_object in H1.
  exists (name, v), ls1. split_and!; try done. simpl in *. lia.
Qed.

Lemma members_inv n m names s ls : only_values n → (length ls ≤ m)%nat → (m ≤ n)%nat → accepts (in_object tokenObjectComma true names s) ls = true →
  ∃ ms ls', ls = concat (map (cons LComma) (map member_lexemes ms)) ++ LCloseObject :: ls' ∧ foldr (λ m P, distinct m.2 ∧ P) True ms ∧
    NoDup (map fst ms) ∧ (∀ m, m ∈ ms → m.1 ∉ names) ∧ accepts (past s) ls' = true ∧ (length ls' < length ls)%nat.
Proof.
  intros Hall. revert names ls. induction m as [|m IH]; intros names ls Hl Hm H; destruct ls as [|l ls]; try done; [simpl in Hl; lia|].
  cbn [accepts] in H. cbn [length] in Hl. destruct (vstep l _) as [s'|] eqn:Hv; [|done]. destruct (vstep_comma_object _ _ _ _ Hv) as [->| ->].
  - rewrite step_comma_object in Hv. injection Hv as <-. assert (∃ name, head ls = Some (LString name)) as Hh.
    { destruct ls as [|l ls]; [done|]. cbn [accepts] in H. destruct (vstep l _) as [s'|] eqn:Hv; [|done]. destruct (vstep_key _ _ _ _ Hv) as [name ->]. by exists name. }
    destruct (member_inv n tokenObjectKey names s ls Hall ltac:(lia) ltac:(auto) Hh H) as (mb & ls1 & -> & Hn & Hd & H1 & Hlt).
    destruct (IH _ ls1 ltac:(lia) ltac:(lia) H1) as (ms & ls' & -> & Hds & Hnd & Hns & H2 & Hlt2).
    exists (mb :: ms), ls'. split; [cbn [map concat app]; by rewrite <- app_assoc|]. split; [done|]. split; [|split; [|split; [done|cbn [length]; lia]]].
    + cbn [map]. constructor; [|done]. intros (x & Hx & Hin)%list_elem_of_fmap. specialize (Hns x Hin). set_solver.
    + intros x [->|Hx]%elem_of_cons; [done|]. specialize (Hns x Hx). set_solver.
  - rewrite step_close_object in Hv by auto. injection Hv as <-. exists [], ls. split_and!; try done; [constructor|by intros ? ?%not_elem_of_nil|simpl; lia].
Qed.

Lemma only_values_all n : only_values n.
Proof.
  induction n as [|n IH]; intros s ls Hl Hs Hstart H; destruct ls as [|l ls]; try (simpl in Hl; lia).
  { destruct Hs as (_ & _ & Hr). cbn [accepts] in H. by rewrite andb_comm, H in Hr. }
  { destruct Hs as (_ & _ & Hr). cbn [accepts] in H. by rewrite andb_comm, H in Hr. }
  cbn [length] in Hl. destruct (scalar l) as [k|] eqn:Hk.
  { cbn [accepts] in H. rewrite (step_scalar _ _ _ Hs Hk) in H.
    destruct l; try done; [exists (JString s0), ls|exists (JNumber s0), ls|exists (JBool b), ls|exists JNull, ls]; split_and!; try done; simpl; lia. }
  cbn [accepts] in H. destruct (vstep l s) as [s'|] eqn:Hv; [|done]. destruct l; try done.
  - rewrite step_open_object in Hv by done. injection Hv as <-. destruct ls as [|l ls]; [done|].
    assert (l = LCloseObject ∨ ∃ name, l = LString name) as [->|[name ->]].
    { cbn [accepts] in H. destruct (vstep l _) as [s'|] eqn:Hv; [|done]. by eapply vstep_start. }
    + cbn [accepts] in H. rewrite step_close_object in H by auto. exists (JObject []), ls. split_and!; try done; [split; [constructor|done]|simpl; lia].
    + destruct (member_inv n tokenObjectStart ∅ s (LString name :: ls) IH ltac:(simpl in *; lia) ltac:(auto) ltac:(by exists name) H)
        as (mb & ls1 & Hls & _ & Hd & H1 & Hlt).
      destruct (members_inv n n _ s ls1 IH ltac:(lia) ltac:(lia) H1) as (ms & ls' & -> & Hds & Hnd & Hns & H2 & Hlt2).
      exists (JObject (mb :: ms)), ls'. rewrite Hls. split.
      { cbn [flatten app]. change (map (λ m, LString m.1 :: LColon :: flatten m.2) (mb :: ms)) with (map member_lexemes (mb :: ms)).
        cbn [map]. rewrite separated_cons, <- !app_assoc. done. }
      split; [split; [|done]|split; [done|rewrite <- Hls; cbn [length] in *; lia]].
      cbn [map]. constructor; [|done]. intros (x & Hx & Hin)%list_elem_of_fmap. specialize (Hns x Hin). set_solver.
  - unfold vstep in Hv. cbn [token_step] in Hv. destruct Hs as (Ht & _). by destruct (vt s).
  - rewrite step_open_array in Hv by done. injection Hv as <-. destruct (decide (head ls = Some LCloseArray)) as [Hc|Hc].
    + destruct ls as [|l ls]; [done|]. injection Hc as ->. cbn [accepts] in H. rewrite step_close_array in H by auto.
      exists (JArray []), ls. split_and!; try done. simpl. lia.
    + destruct (IH _ ls ltac:(lia) (in_array_value tokenArrayStart s eq_refl) ltac:(done) H) as (v & ls1 & -> & Hd & H1 & Hlt).
      rewrite past_in_array in H1 by auto. rewrite length_app in Hl.
      destruct (items_inv n n s ls1 IH ltac:(lia) ltac:(lia) H1) as (items & ls' & -> & Hds & H2 & Hlt2).
      exists (JArray (v :: items)), ls'. split; [cbn [flatten map app]; rewrite separated_cons, <- !app_assoc; done|]. split; [done|]. split; [done|]. cbn [length]. lia.
  - destruct Hs as (Ht & _). unfold vstep in Hv. cbn [token_step] in Hv. destruct (vt s) eqn:Hvt; try done. by destruct Hstart.
  - destruct Hs as (Ht & _). unfold vstep in Hv. cbn [token_step] in Hv. by destruct (vt s).
  - destruct Hs as (Ht & _). unfold vstep in Hv. cbn [token_step] in Hv. by destruct (vt s).
Qed.

Definition initial : vstate := {| vt := tokenTopValue; vst := []; vfr := []; vroot := false |}.

Lemma accepts_initial ls : accepts initial ls = true ↔ ∃ v, ls = flatten v ∧ distinct v.
Proof.
  assert (at_value initial) as Hi by done. split.
  - intros H. destruct (only_values_all (length ls) initial ls ltac:(lia) Hi ltac:(done) H) as (v & ls' & -> & Hd & Hp & _).
    exists v. split; [|done]. destruct ls' as [|l ls']; [by rewrite app_nil_r|]. exfalso. cbn [accepts] in Hp. by destruct l.
  - intros (v & -> & Hd). rewrite <- (app_nil_r (flatten v)), accepts_all by done. done.
Qed.

(** ** Nesting over lexemes *)

(** A byte both byte-level passes ignore outside of strings. *)
Definition plain_byte (c : ascii) : bool :=
  negb (is_byte quote c || is_byte backslash c || is_byte "{"%char c || is_byte "["%char c || is_byte "}"%char c || is_byte "]"%char c).

Lemma number_plain c : number_byte c = true → plain_byte c = true.
Proof.
  intros H. pose proof (all_bytes (λ c, negb (number_byte c) || plain_byte c) ltac:(vm_compute; reflexivity) c) as Hc. cbn in Hc. by rewrite H in Hc.
Qed.
Lemma ws_plain c : is_ws c = true → plain_byte c = true.
Proof. intros H. pose proof (all_bytes (λ c, negb (is_ws c) || plain_byte c) ltac:(vm_compute; reflexivity) c) as Hc. cbn in Hc. by rewrite H in Hc. Qed.
Lemma hex_plain c v : hex_value c = Some v → is_byte quote c = false ∧ is_byte backslash c = false.
Proof.
  intros H. pose proof (all_bytes (λ c, match hex_value c with Some _ => negb (is_byte quote c) && negb (is_byte backslash c) | None => true end)
    ltac:(vm_compute; reflexivity) c) as Hc. cbn beta in Hc. rewrite H in Hc. by apply andb_true_iff in Hc as [?%negb_true_iff ?%negb_true_iff].
Qed.

Lemma nest_plain p s maximum d : forallb plain_byte p = true → nest_loop (p ++ s) maximum d false false = nest_loop s maximum d false false.
Proof.
  induction p as [|c p IH]; [done|]. cbn [forallb app nest_loop]. intros [Hc Hp]%andb_true_iff. unfold plain_byte in Hc. bool_hyps.
  repeat match goal with H : is_byte _ c = false |- _ => rewrite H; clear H end. by apply IH.
Qed.

Lemma skip_ws_split s : ∃ p, s = p ++ skip_ws s ∧ forallb plain_byte p = true.
Proof.
  induction s as [|c s (p & Hp & Hf)]; [by exists []|]. cbn [skip_ws]. destruct (is_ws c) eqn:Hc; [|by exists []].
  exists (c :: p). split; [simpl; by f_equal|]. cbn. by rewrite (ws_plain c Hc).
Qed.

Lemma hex4_digits h1 h2 h3 h4 v : hex4 [h1; h2; h3; h4] = Some v → Forall (λ c, is_byte quote c = false ∧ is_byte backslash c = false) [h1; h2; h3; h4].
Proof.
  unfold hex4. destruct (hex_value h1) eqn:H1; [|done]. destruct (hex_value h2) eqn:H2; [|done]. destruct (hex_value h3) eqn:H3; [|done].
  destruct (hex_value h4) eqn:H4; [|done]. intros _. repeat constructor; by eapply hex_plain.
Qed.

Lemma nest_string_step s s' maximum d : string_step s s' → nest_loop s maximum d true false = nest_loop s' maximum d true false.
Proof.
  intros [h1 h2 h3 h4 v s0 Hh|e x s0 _ _|c s0 Hq Hb]; cbn [nest_loop]; [|done|by rewrite Hb, Hq].
  apply hex4_digits in Hh. rewrite !Forall_cons in Hh. destruct Hh as ([Q1 B1] & [Q2 B2] & [Q3 B3] & [Q4 B4] & _).
  change (is_byte backslash backslash) with true. cbn [nest_loop]. by rewrite B1, Q1, B2, Q2, B3, Q3, B4, Q4.
Qed.

Lemma nest_string n s raw rest maximum d : (length s ≤ n)%nat → scan_string s = Some (raw, rest) →
  nest_loop s maximum d true false = nest_loop rest maximum d false false.
Proof.
  revert s raw. induction n as [|n IH]; intros s raw Hn H; [destruct s; [done|simpl in Hn; lia]|].
  apply scan_string_step in H as [[-> _]|(s' & raw' & Hs & H & _)]; [done|].
  rewrite (nest_string_step _ _ _ _ Hs). apply string_step_shorter in Hs. apply (IH s' raw'); [lia|done].
Qed.

(** What precedes the rest of the text in a lexeme that is no string and no
    bracket. *)
Lemma lexeme_plain c s l s' : punctuation c = None → is_byte quote c = false → lexeme_at (c :: s) = Some (l, s') →
  ∃ p, c :: s = p ++ s' ∧ forallb plain_byte p = true ∧ (∃ k, scalar l = Some k) ∧ (∀ t, l ≠ LString t).
Proof.
  intros Hp Hq H. cbn [lexeme_at] in H. rewrite Hp, Hq in H.
  assert (∀ w x, has_prefix (c :: s) (txt w) = true → Some (x, drop (length (txt w)) (c :: s)) = Some (l, s') → forallb plain_byte (txt w) = true →
    c :: s = txt w ++ s' ∧ x = l) as Hlit.
  { intros w x [r Hr]%has_prefix_spec [= <- <-] _. split; [|done]. by rewrite Hr, drop_app_length. }
  destruct (has_prefix (c :: s) (txt "true")) eqn:Ht; [destruct (Hlit _ _ Ht H eq_refl) as [He <-]; exists (txt "true"); split_and!; [done|done|by eexists|done]|].
  destruct (has_prefix (c :: s) (txt "false")) eqn:Hf; [destruct (Hlit _ _ Hf H eq_refl) as [He <-]; exists (txt "false"); split_and!; [done|done|by eexists|done]|].
  destruct (has_prefix (c :: s) (txt "null")) eqn:Hn; [destruct (Hlit _ _ Hn H eq_refl) as [He <-]; exists (txt "null"); split_and!; [done|done|by eexists|done]|].
  destruct (scan_number (c :: s)) as [n|] eqn:Hs; [|done]. injection H as <- <-. apply scan_number_bytes in Hs as [_ Hb].
  exists (take n (c :: s)). split; [by rewrite take_drop|]. split; [|split; [by eexists|done]].
  rewrite forallb_forall in *. intros x Hx. by apply number_plain, Hb.
Qed.

(** The nesting pass, one lexeme at a time. *)
Definition nest_step (l : lexeme) (d : Z) : Z :=
  match l with
  | LOpenObject | LOpenArray => d + 1
  | LCloseObject | LCloseArray => if 0 <? d then d - 1 else d
  | _ => d
  end.
Definition opens (l : lexeme) : bool := match l with LOpenObject | LOpenArray => true | _ => false end.

Lemma punctuation_byte c l : punctuation c = Some l →
  (c, l) ∈ [("{"%char, LOpenObject); ("}"%char, LCloseObject); ("["%char, LOpenArray); ("]"%char, LCloseArray); (","%char, LComma); (":"%char, LColon)].
Proof.
  unfold punctuation. intros H. repeat match type of H with (if is_byte ?b c then _ else _) = _ =>
    let E := fresh in destruct (is_byte b c) eqn:E; [apply bool_decide_eq_true in E as ->; injection H as <-; set_solver|] end. done.
Qed.

Lemma nest_lexeme s l s' maximum d : lexeme_at (skip_ws s) = Some (l, s') →
  nest_loop s maximum d false false =
  if opens l && (maximum <? nest_step l d) then Some (ErrNestingDepth maximum) else nest_loop s' maximum (nest_step l d) false false.
Proof.
  intros H. destruct (skip_ws_split s) as (p & Hp & Hf). rewrite Hp at 1. rewrite nest_plain by done. destruct (skip_ws s) as [|c r]; [done|].
  destruct (punctuation c) as [l0|] eqn:Hc.
  - cbn [lexeme_at] in H. rewrite Hc in H. injection H as <- <-. apply punctuation_byte in Hc.
    rewrite !elem_of_cons in Hc. repeat destruct Hc as [[= -> ->]|Hc]; try done. by apply not_elem_of_nil in Hc.
  - destruct (is_byte quote c) eqn:Hq.
    + cbn [lexeme_at] in H. rewrite Hc, Hq in H. destruct (scan_string r) as [[raw rest]|] eqn:Hs; [|done]. injection H as <- <-.
      cbn [nest_loop opens nest_step andb]. rewrite Hq. by eapply nest_string.
    + destruct (lexeme_plain c r l s' Hc Hq H) as (q & -> & Hpl & [k Hk] & _). rewrite nest_plain by done. by destruct l.
Qed.

Fixpoint nest_run (maximum d : Z) (ls : list lexeme) : bool :=
  match ls with
  | [] => true
  | l :: ls => if opens l && (maximum <? nest_step l d) then false else nest_run maximum (nest_step l d) ls
  end.

Lemma nest_lexes s ls maximum d : lexes s ls → nest_loop s maximum d false false = None ↔ nest_run maximum d ls = true.
Proof.
  intros H. revert d. induction H as [s He|s l s' ls Hne Hl _ IH]; intros d.
  - destruct (skip_ws_split s) as (p & Hp & Hf). rewrite Hp, He, nest_plain by done. done.
  - rewrite (nest_lexeme _ _ _ _ _ Hl). cbn [nest_run]. destruct (opens l && _); [done|]. apply IH.
Qed.

(** The pass over a value looks at its nesting only. *)
Lemma nest_value v : ∀ maximum d ls, 0 ≤ d ≤ maximum →
  nest_run maximum d (flatten v ++ ls) = (d + nesting v <=? maximum) && nest_run maximum d ls.
Proof.
  assert (∀ {A : Type} (f : A → list lexeme) (g : A → Z) (items : list A), Forall (λ x, ∀ maximum d ls, 0 ≤ d ≤ maximum →
      nest_run maximum d (f x ++ ls) = (d + g x <=? maximum) && nest_run maximum d ls) items → ∀ maximum d ls, 0 ≤ d ≤ maximum →
      nest_run maximum d (separated (map f items) ++ ls) = (d + foldr (λ x z, Z.max (g x) z) 0 items <=? maximum) && nest_run maximum d ls) as Hsep.
  { intros A f g items Hi maximum d ls Hd. destruct Hi as [|x items Hx Hi]; [cbn; rewrite Z.add_0_r, (proj2 (Z.leb_le d maximum)) by lia; done|].
    cbn [map foldr]. rewrite separated_cons, <- app_assoc, Hx by done.
    assert (nest_run maximum d (concat (map (cons LComma) (map f items)) ++ ls) = (d + foldr (λ x z, Z.max (g x) z) 0 items <=? maximum) && nest_run maximum d ls) as ->.
    { induction Hi as [|y items Hy Hi IH]; [cbn; rewrite Z.add_0_r, (proj2 (Z.leb_le d maximum)) by lia; done|].
      cbn [map concat app nest_run opens andb nest_step foldr]. rewrite <- app_assoc, Hy, IH by done. rewrite andb_assoc. f_equal.
      apply eq_true_iff_eq. rewrite andb_true_iff, !Z.leb_le. lia. }
    rewrite andb_assoc. f_equal. apply eq_true_iff_eq. rewrite andb_true_iff, !Z.leb_le. lia. }
  assert (∀ {A : Type} (g : A → Z) (items : list A), 0 ≤ foldr (λ x z, Z.max (g x) z) 0 items) as Hpos by (intros A g items; induction items; cbn; lia).
  induction v as [|b|x|x|items IH|ms IH] using json_ind'; intros maximum d ls Hd.
  1-4: cbn; rewrite Z.add_0_r, (proj2 (Z.leb_le d maximum)) by lia; done.
  - cbn [flatten app nest_run opens nest_step nesting andb]. destruct (maximum <? d + 1) eqn:Hm; bool_hyps.
    + symmetry. apply andb_false_iff. left. apply Z.leb_gt. specialize (Hpos _ nesting items). lia.
    + rewrite <- app_assoc, (Hsep _ flatten nesting items IH) by lia. rewrite Z.add_assoc. f_equal.
      cbn [app nest_run opens nest_step andb]. rewrite (proj2 (Z.ltb_lt 0 (d + 1))) by lia. f_equal. lia.
  - cbn [flatten app nest_run opens nest_step nesting andb]. destruct (maximum <? d + 1) eqn:Hm; bool_hyps.
    + symmetry. apply andb_false_iff. left. apply Z.leb_gt. specialize (Hpos _ (λ m, nesting m.2) ms). lia.
    + rewrite <- app_assoc, (Hsep _ (λ m, LString m.1 :: LColon :: flatten m.2) (λ m, nesting m.2) ms) by (done || lia). rewrite Z.add_assoc. f_equal.
      cbn [app nest_run opens nest_step andb]. rewrite (proj2 (Z.ltb_lt 0 (d + 1))) by lia. f_equal. lia.
Qed.

Lemma nesting_exact data v maximum : 0 ≤ maximum ≤ MaxNestingDepth → lexes data (flatten v) →
  ValidateNestingDepth data maximum = None ↔ nesting v ≤ maximum.
Proof.
  intros Hm Hl. unfold ValidateNestingDepth. rewrite (proj2 (Z.ltb_ge maximum 0)), (proj2 (Z.ltb_ge MaxNestingDepth maximum)) by lia. cbn [orb].
  rewrite (nest_lexes _ _ _ _ Hl). rewrite <- (app_nil_r (flatten v)), nest_value by lia. cbn [nest_run]. rewrite andb_true_r, Z.leb_le. done.
Qed.

(** ** Surrogate escapes, as the literals hold them *)

(** The escape structure of a literal's body: the code unit of each Unicode
    escape, [None] for any other piece. *)
Fixpoint units (raw : text) : list (option Z) :=
  match raw with
  | [] => []
  | c :: raw =>
      if is_byte backslash c then
        match raw with
        | [] => []
        | e :: raw =>
            if is_byte "u"%char e then match raw with h1 :: h2 :: h3 :: h4 :: raw => hex4 [h1; h2; h3; h4] :: units raw | _ => [] end
            else None :: units raw
        end
      else None :: units raw
  end.

Definition low_surrogate (u : Z) : bool := in_rng 56320 57343 u.
Definition high_surrogate (u : Z) : bool := in_rng 55296 56319 u.

(** Every high surrogate is followed at once by a low one, and every low one
    follows a high one. *)
Fixpoint paired (us : list (option Z)) : bool :=
  match us with
  | [] => true
  | None :: us => paired us
  | Some u :: us =>
      if low_surrogate u then false
      else if high_surrogate u then match us with Some l :: us => low_surrogate l && paired us | _ => false end
      else paired us
  end.

(** The bodies of the string literals of a text, as they are written. *)
Definition literal_at (s : text) : list text :=
  match s with
  | c :: s => if is_byte quote c then match scan_string s with Some (raw, _) => [raw] | None => [] end else []
  | [] => []
  end.
Fixpoint literals_all (fuel : nat) (s : text) : list text :=
  match fuel with
  | O => []
  | S fuel => literal_at (skip_ws s) ++ match lexeme_at (skip_ws s) with Some (_, rest) => literals_all fuel rest | None => [] end
  end.
Definition literals (data : text) : list text := literals_all (S (length data)) data.
Definition paired_literals (data : text) : bool := forallb (λ raw, paired (units raw)) (literals data).

Definition esc (s : text) (inString : bool) : bool := escapes_loop (length s) s inString.

Lemma escapes_fuel fuel fuel' s b : (length s ≤ fuel)%nat → (length s ≤ fuel')%nat → escapes_loop fuel s b = escapes_loop fuel' s b.
Proof.
  revert fuel' s b. induction fuel as [|fuel IH]; intros [|fuel'] [|c s] b Hf Hf'; simpl in Hf, Hf'; try lia; try done.
  cbn [escapes_loop]. destruct (is_byte quote c); [apply IH; lia|]. destruct (is_byte backslash c); [|apply IH; lia].
  destruct s as [|e s]; [apply IH; simpl; lia|]. cbn [length] in *. destruct (negb b); [apply IH; simpl; lia|]. destruct (negb _); [apply IH; lia|].
  destruct (hexEscape s) as [v|]; [|apply IH; simpl; lia]. destruct (in_rng 56320 57343 v); [done|].
  destruct (in_rng 55296 56319 v); [|apply IH; rewrite length_drop; lia]. destruct (drop 4 s) as [|x [|y low]] eqn:Hd; try done.
  apply (f_equal length) in Hd. rewrite length_drop in Hd. cbn [length] in Hd.
  destruct (_ || negb (is_byte "u"%char y)); [done|]. destruct (hexEscape low) as [l|]; [|done]. destruct (negb _); [done|]. apply IH; rewrite length_drop; lia.
Qed.

Lemma esc_fuel fuel s b : (length s ≤ fuel)%nat → escapes_loop fuel s b = esc s b.
Proof. intros H. apply escapes_fuel; [done|lia]. Qed.

Lemma esc_quote s b : esc (quote :: s) b = esc s (negb b).
Proof. done. Qed.
Lemma esc_other c s b : is_byte quote c = false → is_byte backslash c = false → esc (c :: s) b = esc s b.
Proof. intros Hq Hb. unfold esc. cbn [length escapes_loop]. by rewrite Hq, Hb. Qed.
Lemma esc_simple e s : is_byte "u"%char e = false → esc (backslash :: e :: s) true = esc s true.
Proof.
  intros He. unfold esc at 1. change (length (backslash :: e :: s)) with (S (S (length s))). generalize (esc_fuel (S (length s)) s true ltac:(lia)). generalize (S (length s)). intros n Hn.
  cbn [escapes_loop]. rewrite He. cbn -[escapes_loop]. apply Hn.
Qed.

Lemma hex4_head h1 h2 h3 h4 s : hexEscape (h1 :: h2 :: h3 :: h4 :: s) = hex4 [h1; h2; h3; h4].
Proof. done. Qed.

Lemma esc_unicode h1 h2 h3 h4 v s : hex4 [h1; h2; h3; h4] = Some v →
  esc (backslash :: "u"%char :: h1 :: h2 :: h3 :: h4 :: s) true =
  if low_surrogate v then false
  else if high_surrogate v then
    match s with
    | b :: u :: low =>
        if (length low <? 4)%nat || negb (is_byte backslash b) || negb (is_byte "u"%char u) then false
        else match hexEscape low with None => false | Some l => low_surrogate l && esc (drop 4 low) true end
    | _ => false
    end
  else esc s true.
Proof.
  intros Hv. unfold esc at 1. change (length (backslash :: "u"%char :: h1 :: h2 :: h3 :: h4 :: s)) with (S (5 + length s)).
  assert (length s ≤ 5 + length s)%nat as Hn by lia. revert Hn. generalize (5 + length s)%nat. intros n Hn. cbn [escapes_loop].
  change (is_byte quote backslash) with false. change (is_byte backslash backslash) with true.
  change (is_byte "u"%char "u"%char) with true. cbn [negb]. rewrite hex4_head, Hv. fold (low_surrogate v) (high_surrogate v).
  destruct (low_surrogate v); [done|]. change (drop 4 (h1 :: h2 :: h3 :: h4 :: s)) with s. destruct (high_surrogate v); [|by apply esc_fuel].
  destruct s as [|x [|y low]]; try done. destruct (_ || negb (is_byte "u"%char y)); [done|].
  destruct (hexEscape low) as [l|]; [|done]. fold (low_surrogate l). destruct (low_surrogate l); [|done]. cbn [negb andb].
  apply esc_fuel. rewrite length_drop. cbn [length] in Hn. lia.
Qed.

Lemma paired_plain p us : Forall (λ u, u = None) p → paired (p ++ us) = paired us.
Proof. induction 1 as [|u p -> _ IH]; [done|]. apply IH. Qed.

(** The pass agrees with the pairing of a literal's units. *)
Lemma esc_string n s raw rest : (length s ≤ n)%nat → scan_string s = Some (raw, rest) → esc s true = paired (units raw) && esc rest false.
Proof.
  revert s raw. induction n as [|n IH]; intros s raw Hn H; [destruct s; [done|simpl in Hn; lia]|].
  apply scan_string_step in H as [[-> ->]|(s' & raw' & Hs & H & p & Hp & ->)]; [done|].
  destruct Hs as [h1 h2 h3 h4 v s Hh|e x s Hx He|c s Hq Hb].
  - assert (p = [backslash; "u"%char; h1; h2; h3; h4]) as ->.
    { apply (app_inv_tail s). by rewrite <- Hp. }
    rewrite (esc_unicode _ _ _ _ _ _ Hh). cbn [app]. change (units (_ :: _ :: h1 :: h2 :: h3 :: h4 :: raw')) with (hex4 [h1; h2; h3; h4] :: units raw').
    rewrite Hh. cbn [paired]. destruct (low_surrogate v); [done|]. cbn [length] in Hn. destruct (high_surrogate v); [|apply IH; [lia|done]].
    apply scan_string_step in H as [[-> ->]|(s2 & raw2 & Hs2 & H2 & p2 & Hp2 & ->)]; [by destruct rest; rewrite ?orb_true_r|].
    destruct Hs2 as [k1 k2 k3 k4 l s2 Hk|e x s2 Hx He|c s2 Hq Hb].
    + assert (p2 = [backslash; "u"%char; k1; k2; k3; k4]) as -> by (apply (app_inv_tail s2); by rewrite <- Hp2).
      cbn [app]. change (units (_ :: _ :: k1 :: k2 :: k3 :: k4 :: raw2)) with (hex4 [k1; k2; k3; k4] :: units raw2).
      rewrite hex4_head, Hk. cbn [length Nat.ltb Nat.leb drop]. change (is_byte backslash backslash) with true. change (is_byte "u"%char "u"%char) with true.
      cbn [negb orb]. change (drop 0 s2) with s2. rewrite (IH s2 raw2) by (done || simpl in *; lia). by rewrite andb_assoc.
    + assert (p2 = [backslash; e]) as -> by (apply (app_inv_tail s2); by rewrite <- Hp2).
      rewrite He, orb_true_r. cbn [app units]. change (is_byte backslash backslash) with true. by rewrite He.
    + assert (p2 = [c]) as -> by (apply (app_inv_tail s2); by rewrite <- Hp2). cbn [app units]. rewrite Hb. destruct s2; [done|]. cbn [negb]. by rewrite orb_true_r.
  - assert (p = [backslash; e]) as -> by (apply (app_inv_tail s); by rewrite <- Hp).
    rewrite esc_simple by done. cbn [app units]. change (is_byte backslash backslash) with true. rewrite He. cbn [paired]. apply IH; [simpl in *; lia|done].
  - assert (p = [c]) as -> by (apply (app_inv_tail s); by rewrite <- Hp). rewrite esc_other by done. cbn [app units]. rewrite Hb. apply IH; [simpl in *; lia|done].
Qed.

Lemma plain_byte_esc p s : forallb plain_byte p = true → esc (p ++ s) false = esc s false.
Proof.
  induction p as [|c p IH]; [done|]. cbn [forallb app]. intros [Hc Hp]%andb_true_iff.
  unfold plain_byte in Hc. bool_hyps. rewrite esc_other by done. by apply IH.
Qed.

Lemma esc_lexeme s l s' : lexeme_at (skip_ws s) = Some (l, s') →
  esc s false = forallb (λ raw, paired (units raw)) (literal_at (skip_ws s)) && esc s' false.
Proof.
  intros H. destruct (skip_ws_split s) as (p & Hp & Hf). rewrite Hp at 1. rewrite plain_byte_esc by done. destruct (skip_ws s) as [|c r]; [done|].
  cbn [literal_at]. destruct (is_byte quote c) eqn:Hq.
  - apply bool_decide_eq_true in Hq as ->. change (lexeme_at (quote :: r)) with ('(raw, rest) ← scan_string r; Some (LString (unquote raw), rest)) in H.
    destruct (scan_string r) as [[raw rest]|] eqn:Hs; [|done]. injection H as <- <-. rewrite esc_quote. cbn [forallb negb]. rewrite andb_true_r. by eapply esc_string.
  - cbn [forallb andb]. destruct (punctuation c) as [l0|] eqn:Hc.
    + cbn [lexeme_at] in H. rewrite Hc in H. injection H as <- <-. apply esc_other; [done|]. apply punctuation_byte in Hc.
      rewrite !elem_of_cons in Hc. repeat destruct Hc as [[= -> _]|Hc]; try done. by apply not_elem_of_nil in Hc.
    + destruct (lexeme_plain c r l s' Hc Hq H) as (q & -> & Hpl & _). by apply plain_byte_esc.
Qed.

Lemma escapes_lexes s ls fuel : lexes s ls → (length s < fuel)%nat → esc s false = forallb (λ raw, paired (units raw)) (literals_all fuel s).
Proof.
  intros H. revert fuel. induction H as [s He|s l s' ls Hne Hl _ IH]; intros [|fuel] Hf; try lia.
  - destruct (skip_ws_split s) as (p & Hp & Hpl). rewrite Hp at 1. rewrite plain_byte_esc by done. cbn [literals_all]. by rewrite He.
  - rewrite (esc_lexeme _ _ _ Hl). cbn [literals_all]. rewrite Hl, forallb_app. f_equal. apply IH.
    apply lexeme_at_shorter in Hl. pose proof (skip_ws_length s). lia.
Qed.

Lemma ValidUnicodeEscapes_literals data ls : lexes data ls → ValidUnicodeEscapes data = paired_literals data.
Proof. intros H. apply (escapes_lexes data ls); [done|lia]. Qed.

Lemma nest_loop_error data maximum d inString escaped e : nest_loop data maximum d inString escaped = Some e → e = ErrNestingDepth maximum.
Proof.
  revert d inString escaped. induction data as [|c data IH]; intros d inString escaped H; [done|]. cbn [nest_loop] in H.
  repeat match type of H with (if ?b then _ else _) = _ => destruct b end; eauto. by injection H.
Qed.

(** ** Properties *)

(** C12: [Validate] accepts a text exactly when it is valid UTF-8 and its lexemes
    are those of one value and nothing else, in which no object names a member
    twice (after decoding its escapes), arrays and objects nest at most
    [MaxNestingDepth] deep, and every surrogate escape in a literal is one of a
    pair. *)
Theorem Validate_exact data :
  Validate data = None ↔ valid_utf8 data = true ∧
    ∃ v, lex data = Some (flatten v) ∧ distinct v ∧ nesting v ≤ MaxNestingDepth ∧ paired_literals data = true.
Proof.
  unfold Validate. destruct (valid_utf8 data); cbn [negb]; [|naive_solver]. split.
  - destruct (ValidateNestingDepth data MaxNestingDepth) as [e|] eqn:Hn; [done|]. destruct (ValidUnicodeEscapes data) eqn:He; [|done]. cbn [negb].
    intros (ls & Hl & (v & -> & Hd)%accepts_initial)%validate_loop_accepting; [|by cbn; lia]. cbn [NewDecoder rest] in Hl. split; [done|]. exists v. split_and!; [by apply lex_spec|done|..].
    + by apply (nesting_exact data v) in Hn.
    + by rewrite <- (ValidUnicodeEscapes_literals _ _ Hl).
  - intros (_ & v & Hl%lex_spec & Hd & Hn & Hp). rewrite (proj2 (nesting_exact data v MaxNestingDepth ltac:(done) Hl) Hn).
    rewrite (ValidUnicodeEscapes_literals _ _ Hl), Hp. cbn [negb]. apply validate_loop_accepting; [by cbn; lia|].
    exists (flatten v). split; [done|]. apply accepts_initial. by exists v.
Qed.

(** On a text that spells a value, [ValidateNestingDepth] under a limit the
    package admits reports nothing exactly when the value nests no deeper than the
    limit; above its ceiling or below zero the limit itself is refused. *)
Theorem ValidateNestingDepth_exact data v maximum : lex data = Some (flatten v) →
  (0 ≤ maximum ≤ MaxNestingDepth → ValidateNestingDepth data maximum = None ↔ nesting v ≤ maximum) ∧
  (0 ≤ maximum ≤ MaxNestingDepth → maximum < nesting v → ValidateNestingDepth data maximum = Some (ErrNestingDepth maximum)) ∧
  (maximum < 0 ∨ MaxNestingDepth < maximum → ValidateNestingDepth data maximum = Some ErrNestingLimit).
Proof.
  intros Hl%lex_spec. assert (0 ≤ maximum ≤ MaxNestingDepth → ValidateNestingDepth data maximum = None ↔ nesting v ≤ maximum) as Hx by (by intros; apply nesting_exact).
  split_and!; [done| |].
  - intros Hm Hlt. specialize (Hx Hm). destruct (ValidateNestingDepth data maximum) as [e|] eqn:He; [|assert (nesting v ≤ maximum) by (by apply Hx); lia].
    revert He. unfold ValidateNestingDepth. rewrite (proj2 (Z.ltb_ge maximum 0)), (proj2 (Z.ltb_ge MaxNestingDepth maximum)) by lia. cbn [orb].
    intros ->%nest_loop_error. done.
  - intros Hm. unfold ValidateNestingDepth. destruct (maximum <? 0) eqn:?, (MaxNestingDepth <? maximum) eqn:?; bool_hyps; try done. lia.
Qed.

Module Demo.
Definition depth_text : text := txt "[[1],{" ++ quote :: txt "a[" ++ quote :: txt ":[]}]".
Definition depth_value : json := JArray [JArray [JNumber (txt "1")]; JObject [(txt "a[", JArray [])]].

Lemma ValidateNestingDepth_exact_witness : lex depth_text = Some (flatten depth_value) ∧
  (0 ≤ 2 ≤ MaxNestingDepth → 2 < nesting depth_value → ValidateNestingDepth depth_text 2 = Some (ErrNestingDepth 2)).
Proof. split; [vm_compute; reflexivity|]. apply (ValidateNestingDepth_exact depth_text depth_value 2). vm_compute. reflexivity. Defined.
End Demo.

End StrictJson.
