(* ===== verification/Markdown.v ===== *)
(** * Text operations and line recognisers of the Markdown converters

    The [strings] functions the converters add to [GoText], and the regular
    expressions internal/mdcsf and internal/mdwiki share: headings, list items,
    task boxes, table separators.  Every expression is anchored and its classes
    are disjoint where they meet, so a leftmost-first match takes maximal runs. *)

From S2P Require Import Prelude GoText WikiScanner Json.
Import GoText.
Import WikiScanner (span, is_byte, newline, cr, tab, backslash, backtick, regex_space, not_newline, rest_of_line, after, split_lines, join_lines).
Import Json (quote, digit, encode_rune).

Module Markdown.
Local Open Scope Z_scope.

(** ** strings *)

(** [strings.ReplaceAll] for a non-empty [old]. *)
Fixpoint replace_fuel (fuel : nat) (s old new : text) : text :=
  match fuel, s with
  | S fuel, c :: s' => if has_prefix s old then new ++ replace_fuel fuel (drop (length old) s) old new else c :: replace_fuel fuel s' old new
  | _, _ => []
  end.
Definition replace_all (s old new : text) : text := replace_fuel (length s) s old new.

Definition trim_prefix (s p : text) : text := if has_prefix s p then drop (length p) s else s.
Definition trim_suffix (s p : text) : text := if has_suffix s p then take (length s - length p) s else s.

(** [strings.Cut]. *)
Definition cut (s sep : text) : text * text * bool :=
  match index s sep with
  | Some i => (take i s, drop (i + length sep) s, true)
  | None => (s, [], false)
  end.

(** [strings.Split] for a non-empty separator. *)
Fixpoint split_fuel (fuel : nat) (s sep : text) : list text :=
  match fuel with
  | O => [s]
  | S fuel => match index s sep with
              | Some i => take i s :: split_fuel fuel (drop (i + length sep) s) sep
              | None => [s]
              end
  end.
Definition split (s sep : text) : list text := split_fuel (length s) s sep.

(** [strings.Join] at one separator. *)
Fixpoint join (sep : text) (parts : list text) : text :=
  match parts with
  | [] => []
  | [p] => p
  | p :: parts => p ++ sep ++ join sep parts
  end.

(** [strings.ContainsAny] of ASCII characters, and [strings.IndexByte(set, c) >= 0]. *)
Definition in_set (chars : text) (c : ascii) : bool := existsb (λ b, is_byte b c) chars.
Definition contains_any (s chars : text) : bool := existsb (in_set chars) s.

(** [strings.Trim(s, "c")] for one ASCII character. *)
Definition trim_byte (b : ascii) (s : text) : text := reverse (snd (span (is_byte b) (reverse (snd (span (is_byte b) s))))).

(** [string(r[:n])] of [r := []rune(s)], and [len(r)]. *)
Fixpoint rune_prefix (n : nat) (s : text) : text :=
  match n, s with
  | S n, _ :: _ => let '(r, sz) := decode_rune s in encode_rune r ++ rune_prefix n (drop sz s)
  | _, _ => []
  end.
Fixpoint rune_count (fuel : nat) (s : text) : nat :=
  match fuel, s with
  | S fuel, _ :: _ => S (rune_count fuel (drop (snd (decode_rune s)) s))
  | _, _ => 0
  end.
Definition clip (s : text) : text := if (40 <? rune_count (length s) s)%nat then rune_prefix 40 s ++ txt "…" else s.

(** A rune of the text satisfies [p]. *)
Fixpoint any_rune (fuel : nat) (p : Z → bool) (s : text) : bool :=
  match fuel, s with
  | S fuel, _ :: _ => let '(r, sz) := decode_rune s in p r || any_rune fuel p (drop sz s)
  | _, _ => false
  end.

(** A text between double quotes. *)
Definition quoted (s : text) : text := quote :: s ++ [quote].

(** ** Words *)

Definition isWordByte (c : ascii) : bool :=
  let v := byte_val c in
  is_byte "_"%char c || in_rng 48 57 v || in_rng 97 122 v || in_rng 65 90 v || (128 <=? v).
Definition isEscapable (c : ascii) : bool := in_set (backslash :: backtick :: txt "*_[]|~#") c.
Definition word_at (c : option ascii) : bool := match c with Some c => isWordByte c | None => false end.

(** [intraword(s, i, n)], of the byte before [s[i:]] and of [s[i:]]. *)
Definition intraword (before : option ascii) (s : text) (n : nat) : bool := word_at before && word_at (s !! n).

(** ** Errors *)

Record UnsupportedError := { Construct : text; Detail : text }.
Definition unsupported {A} (construct : string) (detail : text) : result UnsupportedError A :=
  Err {| Construct := txt construct; Detail := detail |}.

(** [for _, x := range l { out = append(out, f(x)) }], stopping at an error. *)
Fixpoint map_result {A B E} (f : A → result E B) (l : list A) : result E (list B) :=
  match l with
  | [] => Ok []
  | x :: l => let! y := f x in let! ys := map_result f l in Ok (y :: ys)
  end%atl.

(** ** Regular expressions *)

(** [headingRe]: the number of hashes and the text without trailing white space. *)
Definition heading_parts (line : text) : option (nat * text) :=
  let '(hashes, s) := span (is_byte "#"%char) line in
  let '(gap, s) := span regex_space s in
  let body := reverse (snd (span regex_space (reverse s))) in
  if (1 <=? length hashes)%nat && (length hashes <=? 6)%nat && (0 <? length gap)%nat && forallb not_newline body
  then Some (length hashes, body) else None.

(** [listItemRe]: the indentation, whether the marker is a number, the text. *)
Definition list_item (line : text) : option (nat * bool * text) :=
  let '(indent, s) := span regex_space line in
  let tail (ordered : bool) (s : text) :=
    let '(gap, s) := span regex_space s in
    if (0 <? length gap)%nat then body ← rest_of_line s; Some (length indent, ordered, body) else None in
  match s with
  | [] => None
  | c :: s' =>
      if is_byte "-"%char c || is_byte "*"%char c || is_byte "+"%char c then tail false s'
      else
        let '(digits, s) := span digit s in
        match s with
        | d :: s => if (0 <? length digits)%nat && (is_byte "."%char d || is_byte ")"%char d) then tail true s else None
        | [] => None
        end
  end.

(** [taskRe]: whether the box is ticked, and the text after it. *)
Definition task_box (s : text) : option (bool * text) :=
  match s with
  | l :: m :: r :: s =>
      if is_byte "["%char l && (is_byte " "%char m || is_byte "x"%char m || is_byte "X"%char m) && is_byte "]"%char r then
        let '(gap, s) := span regex_space s in
        if (0 <? length gap)%nat then body ← rest_of_line s; Some (negb (is_byte " "%char m), body) else None
      else None
  | _ => None
  end.

(** One cell of [tableSepRe]: white space, an optional colon, dashes, an optional
    colon, white space, and a pipe; the text after it. *)
Definition separator_cell (s : text) : option text :=
  let '(_, s) := span regex_space s in
  let s := trim_prefix s (txt ":") in
  let '(dashes, s) := span (is_byte "-"%char) s in
  let s := trim_prefix s (txt ":") in
  let '(_, s) := span regex_space s in
  if (0 <? length dashes)%nat then after (txt "|") s else None.
Fixpoint separator_cells (fuel : nat) (s : text) : bool :=
  match fuel with
  | O => false
  | S fuel => match separator_cell s with
              | Some [] => true
              | Some s => separator_cells fuel s
              | None => false
              end
  end.
Definition separator_row (s : text) : bool := match after (txt "|") s with Some s => separator_cells (length s) s | None => false end.

(** ** Facts *)

Lemma span_length p s : (length (fst (span p s)) + length (snd (span p s)) = length s)%nat.
Proof. rewrite <- length_app. by rewrite WikiScanner.span_app. Qed.

(** What follows a run does not start with a byte of the run. *)
Lemma span_stop p s c : head (snd (span p s)) = Some c → p c = false.
Proof. induction s as [|d s IH]; [done|]. cbn [span]. destruct (p d) eqn:Hd; [|by intros [= <-]]. by destruct (span p s). Qed.

Lemma index_bound s p i : index s p = Some i → (i + length p ≤ length s)%nat.
Proof.
  intros (Hp & Hl & _)%index_spec. apply has_prefix_spec in Hp as [r Hr]. apply (f_equal length) in Hr.
  rewrite length_drop, length_app in Hr. lia.
Qed.

(** An occurrence at some index. *)
Lemma contains_at s p k : (k ≤ length s)%nat → has_prefix (drop k s) p = true → contains s p = true.
Proof.
  intros Hk Hp. unfold contains. apply bool_decide_eq_true. destruct (index s p) eqn:Hi; [by eexists|]. by rewrite (index_none _ _ Hi) in Hp.
Qed.

Lemma split_lines_length s : (length (split_lines s) ≤ S (length s))%nat.
Proof.
  induction s as [|c s IH]; [done|]. cbn [split_lines length]. destruct (is_byte newline c); [simpl; lia|].
  destruct (split_lines s); simpl in *; lia.
Qed.

Lemma join_split_lines s : join_lines (split_lines s) = s.
Proof.
  induction s as [|c s IH]; [done|]. cbn [split_lines]. pose proof (WikiScanner.split_lines_nonempty s) as Hn.
  destruct (is_byte newline c) eqn:Hc.
  - apply bool_decide_eq_true in Hc as ->. destruct (split_lines s) as [|l ls]; [done|]. cbn [join_lines app] in *. by rewrite IH.
  - destruct (split_lines s) as [|l ls]; [done|]. rewrite <- IH. by destruct ls.
Qed.

(** ** Lengths *)

Lemma trim_left_length s : (length (trim_left s) ≤ length s)%nat.
Proof.
  unfold trim_left. generalize (length s) at 1 as fuel. intros fuel. revert s. induction fuel as [|fuel IH]; intros s; [done|].
  cbn [trim_left_fuel]. destruct s as [|c s]; [done|]. destruct (decode_rune (c :: s)) as [r sz]. destruct (is_space r); [|done].
  etransitivity; [apply IH|]. rewrite length_drop. lia.
Qed.

Lemma trim_right_length s : (length (trim_right s) ≤ length s)%nat.
Proof.
  unfold trim_right. generalize (length s) at 1 as fuel. intros fuel. revert s. induction fuel as [|fuel IH]; intros s; [done|].
  cbn [trim_right_fuel]. destruct s as [|c s]; [done|]. destruct (decode_last_rune (c :: s)) as [r sz]. destruct (is_space r); [|done].
  etransitivity; [apply IH|]. rewrite length_take. lia.
Qed.

Lemma trim_space_length s : (length (trim_space s) ≤ length s)%nat.
Proof. unfold trim_space. etransitivity; [apply trim_right_length|apply trim_left_length]. Qed.

Lemma trim_right_nl_length s : (length (trim_right_nl s) ≤ length s)%nat.
Proof.
  unfold trim_right_nl. rewrite length_reverse. rewrite <- (length_reverse s). generalize (reverse s). intros t.
  induction t as [|c t IH]; [done|]. cbn [drop_nl]. destruct (bool_decide _); simpl; lia.
Qed.

Lemma trim_prefix_length s p : (length (trim_prefix s p) ≤ length s)%nat.
Proof. unfold trim_prefix. destruct (has_prefix s p); [rewrite length_drop; lia|done]. Qed.

(** The bytes of some lines with their line ends. *)
Fixpoint weight (lines : list text) : nat := match lines with [] => 0 | l :: lines => S (length l + weight lines) end.

Lemma weight_app a b : weight (a ++ b) = (weight a + weight b)%nat.
Proof. induction a as [|l a IH]; [done|]. simpl. rewrite IH. lia. Qed.

Lemma weight_drop n lines : (weight (drop n lines) ≤ weight lines)%nat.
Proof. rewrite <- (take_drop n lines) at 2. rewrite weight_app. lia. Qed.

Lemma join_lines_weight lines : (length (join_lines lines) ≤ pred (weight lines))%nat.
Proof.
  induction lines as [|l lines IH]; [done|]. destruct lines as [|l' lines]; [simpl; lia|].
  change (join_lines (l :: l' :: lines)) with (l ++ newline :: join_lines (l' :: lines)). rewrite length_app. simpl in *. lia.
Qed.

Lemma split_lines_weight s : weight (split_lines s) = S (length s).
Proof.
  induction s as [|c s IH]; [done|]. cbn [split_lines]. destruct (is_byte newline c); [simpl; lia|].
  pose proof (WikiScanner.split_lines_nonempty s). destruct (split_lines s); [done|]. simpl in *. lia.
Qed.

Lemma blocks_loop_weight b lines fenceRun cur : b ∈ WikiScanner.blocks_loop lines fenceRun cur → (length b ≤ pred (weight (cur ++ lines)))%nat.
Proof.
  assert (∀ b ls, b ∈ WikiScanner.flush ls → (length b ≤ pred (weight ls))%nat) as Hflush.
  { intros b0 ls. destruct ls as [|l ls]; [by intros ?%not_elem_of_nil|]. cbn [WikiScanner.flush]. intros ->%list_elem_of_singleton. apply join_lines_weight. }
  revert fenceRun cur. induction lines as [|line lines IH]; intros fenceRun cur; cbn [WikiScanner.blocks_loop].
  { intros H%Hflush. by rewrite app_nil_r. }
  assert (∀ r c, b ∈ WikiScanner.blocks_loop lines r c → (weight c ≤ weight (cur ++ [line]))%nat → (length b ≤ pred (weight (cur ++ line :: lines)))%nat) as Hrest.
  { intros r c H%IH Hc. rewrite !weight_app in *. simpl in *. lia. }
  assert (∀ ls, b ∈ WikiScanner.flush ls → (weight ls ≤ weight (cur ++ [line]))%nat → (length b ≤ pred (weight (cur ++ line :: lines)))%nat) as Hf.
  { intros ls H%Hflush Hc. rewrite !weight_app in *. simpl in *. lia. }
  assert (weight cur ≤ weight (cur ++ [line]) ∧ weight [line] ≤ weight (cur ++ [line]))%nat as [Hw1 Hw2] by (rewrite !weight_app; simpl; lia).
  repeat match goal with |- _ ∈ (if ?x then _ else _) → _ => destruct x | |- _ ∈ match ?x with _ => _ end → _ => destruct x as [[??]|] end;
    rewrite ?elem_of_app; intros H; repeat match type of H with _ ∨ _ => destruct H as [H|H] end; first [eapply Hf; [exact H|]|eapply Hrest; [exact H|]]; (lia || (simpl; lia)).
Qed.

Lemma SplitBlocks_length b md : b ∈ WikiScanner.SplitBlocks md → (length b ≤ length md)%nat.
Proof. intros H%blocks_loop_weight. cbn [app] in H. rewrite split_lines_weight in H. simpl in H. lia. Qed.

(** ** Parts of a text *)

Lemma trim_left_suffix s : ∃ a, s = a ++ trim_left s.
Proof.
  unfold trim_left. generalize (length s) as fuel. intros fuel. revert s. induction fuel as [|fuel IH]; intros s; [by exists []|].
  cbn [trim_left_fuel]. destruct s as [|c s]; [by exists []|]. destruct (decode_rune (c :: s)) as [r sz]. destruct (is_space r); [|by exists []].
  destruct (IH (drop sz (c :: s))) as [a Ha]. exists (take sz (c :: s) ++ a). by rewrite <- app_assoc, <- Ha, take_drop.
Qed.

Lemma trim_right_prefix s : ∃ b, s = trim_right s ++ b.
Proof.
  unfold trim_right. generalize (length s) as fuel. intros fuel. revert s. induction fuel as [|fuel IH]; intros s; [exists []; by rewrite app_nil_r|].
  cbn [trim_right_fuel]. destruct s as [|c s]; [by exists []|]. destruct (decode_last_rune (c :: s)) as [r sz].
  destruct (is_space r); [|exists []; by rewrite app_nil_r]. destruct (IH (take (length (c :: s) - sz) (c :: s))) as [b Hb].
  exists (b ++ drop (length (c :: s) - sz) (c :: s)). by rewrite app_assoc, <- Hb, take_drop.
Qed.

Lemma trim_space_middle s : ∃ a b, s = a ++ trim_space s ++ b.
Proof.
  destruct (trim_left_suffix s) as [a Ha]. destruct (trim_right_prefix (trim_left s)) as [b Hb]. exists a, b. unfold trim_space. by rewrite <- Hb.
Qed.

Lemma forallb_part p a (s b : text) : forallb p (a ++ s ++ b) = true → forallb p s = true.
Proof. rewrite !forallb_app. intros H. by bool_hyps. Qed.
Lemma forallb_take p n (s : text) : forallb p s = true → forallb p (take n s) = true.
Proof. rewrite <- (take_drop n s) at 1. rewrite forallb_app. intros H. by bool_hyps. Qed.
Lemma forallb_drop p n (s : text) : forallb p s = true → forallb p (drop n s) = true.
Proof. rewrite <- (take_drop n s) at 1. rewrite forallb_app. intros H. by bool_hyps. Qed.
Lemma forallb_slice p i j (s : text) : forallb p s = true → forallb p (slice s i j) = true.
Proof. intros H. by apply forallb_take, forallb_drop. Qed.
Lemma forallb_trim p s : forallb p s = true → forallb p (trim_space s) = true.
Proof. destruct (trim_space_middle s) as (a & b & Hs). rewrite Hs at 1. apply forallb_part. Qed.
Lemma forallb_bind p (f : ascii → text) s : (∀ c, p c = true → forallb p (f c) = true) → forallb p s = true → forallb p (s ≫= f) = true.
Proof. intros Hf. induction s as [|c s IH]; [done|]. cbn. rewrite forallb_app. intros H. bool_hyps. rewrite Hf, IH by done. done. Qed.

(** The head of a trimmed text is no blank. *)
Lemma trim_right_head_same s c r : trim_right s = c :: r → ∃ r', s = c :: r'.
Proof. destruct (trim_right_prefix s) as [b Hb]. intros H. rewrite H in Hb. by eexists. Qed.

Lemma trim_left_head s : match trim_left s with [] => True | c :: r => is_space (fst (decode_rune (c :: r))) = false end.
Proof.
  unfold trim_left. assert (length s ≤ length s)%nat as Hf by done. revert Hf. generalize (length s) at 2 3 as fuel. intros fuel. revert s.
  induction fuel as [|fuel IH]; intros s Hf; [by destruct s; [|simpl in Hf; lia]|].
  cbn [trim_left_fuel]. destruct s as [|c s]; [done|]. pose proof (decode_rune_size_pos (c :: s) ltac:(done)) as Hp.
  destruct (decode_rune (c :: s)) as [r sz] eqn:Hd. cbn [snd] in Hp. destruct (is_space r) eqn:Hs; [apply IH; rewrite length_drop; simpl in *; lia|].
  by rewrite Hd.
Qed.

Lemma trim_space_no_blank s : match trim_space s with [] => True | c :: _ => WikiScanner.blank c = false end.
Proof.
  unfold trim_space. destruct (trim_right (trim_left s)) as [|c r] eqn:Hr; [done|]. apply trim_right_head_same in Hr as [r' Hl].
  pose proof (trim_left_head s) as Hh. rewrite Hl in Hh. apply not_true_iff_false. intros Hb.
  unfold WikiScanner.blank in Hb. apply orb_true_iff in Hb as [Hb|Hb]; apply bool_decide_eq_true in Hb as ->; done.
Qed.

(** Trimming keeps a text whose first rune is no white space, and a block of such
    a text is found. *)
Lemma is_space_error : is_space RuneError = false.
Proof. done. Qed.
Lemma head_space_prefix a b : a ≠ [] → is_space (fst (decode_rune (a ++ b))) = false → is_space (fst (decode_rune a)) = false.
Proof.
  intros Ha Hs. destruct (is_space (fst (decode_rune a))) eqn:E; [|done]. rewrite <- Hs, decode_rune_app; [done|]. split; [done|].
  intros Hd. by rewrite Hd in E.
Qed.
Lemma decode_last_rune_inside s : s ≠ [] → is_space (fst (decode_rune s)) = false → is_space (fst (decode_last_rune s)) = true →
  (snd (decode_last_rune s) < length s)%nat.
Proof.
  intros Hn Hs. unfold decode_last_rune. destruct s as [|c s]; [done|]. cbn [length]. destruct ((c :: s) !! length s) as [x|] eqn:Hx; [|done].
  destruct (byte_val x <? 128) eqn:Hb.
  - cbn. intros Hsp. destruct s as [|y s]; [|simpl; lia]. injection Hx as <-. rewrite decode_rune_ascii in Hs by by apply Z.ltb_lt. cbn in Hs. congruence.
  - set (start := match length s with O => O | S p => last_start 3 (c :: s) p end).
    destruct (decode_rune (drop start (c :: s))) as [r sz] eqn:Hd. destruct (start + sz =? S (length s))%nat eqn:He; [|done].
    cbn [fst snd]. bool_hyps. destruct start as [|start]; [|lia]. rewrite drop_0 in Hd. rewrite Hd in Hs. cbn in Hs. congruence.
Qed.
Lemma trim_right_nonempty s : s ≠ [] → is_space (fst (decode_rune s)) = false → trim_right s ≠ [].
Proof.
  unfold trim_right. generalize (length s) as fuel. intros fuel. revert s. induction fuel as [|fuel IH]; intros s Hn Hs; [done|].
  cbn [trim_right_fuel]. destruct s as [|c s]; [done|]. pose proof (decode_last_rune_inside (c :: s) Hn Hs) as Hl.
  destruct (decode_last_rune (c :: s)) as [r sz]. cbn [fst snd] in Hl. destruct (is_space r); [|done]. specialize (Hl eq_refl).
  assert (take (length (c :: s) - sz) (c :: s) ≠ []) as Ht by (intros E; apply (f_equal length) in E; rewrite length_take in E; cbn in *; lia).
  apply IH; [done|]. eapply head_space_prefix; [done|]. by rewrite take_drop.
Qed.
Lemma trim_space_nonempty s : s ≠ [] → is_space (fst (decode_rune s)) = false → trim_space s ≠ [].
Proof.
  intros Hn Hs. unfold trim_space, trim_left. destruct s as [|c s]; [done|]. cbn [length trim_left_fuel].
  destruct (decode_rune (c :: s)) as [r sz] eqn:Hd. cbn [fst] in Hs. rewrite Hs. apply trim_right_nonempty; [done|]. by rewrite Hd.
Qed.
Lemma blocks_loop_nonempty lines run cur : cur ≠ [] → WikiScanner.blocks_loop lines run cur ≠ [].
Proof.
  revert run cur. induction lines as [|l lines IH]; intros run cur Hc; cbn [WikiScanner.blocks_loop]; [by destruct cur|].
  destruct (0 <? run)%nat; [destruct (WikiScanner.IsMarkdownFenceClose l run); [by destruct cur|apply IH; by destruct cur]|].
  destruct (eqt (trim_space l) []); [by destruct cur|]. destruct (WikiScanner.ParseMarkdownFenceOpen l) as [[n i]|]; [by destruct cur|].
  destruct (_ || _); [by destruct cur|]. apply IH. by destruct cur.
Qed.
(** A trimmed text has a block. *)
Lemma SplitBlocks_nonempty s : trim_space s ≠ [] → WikiScanner.SplitBlocks (trim_space s) ≠ [].
Proof.
  intros Hn. assert (is_space (fst (decode_rune (trim_space s))) = false) as Hs.
  { unfold trim_space in *. pose proof (trim_left_head s) as Hh. destruct (trim_right_prefix (trim_left s)) as [b Hb].
    eapply head_space_prefix; [done|]. rewrite <- Hb. destruct (trim_left s); [by rewrite Hb in Hn|done]. }
  revert Hn Hs. generalize (trim_space s) as t. clear s. intros t Hn Hs. unfold WikiScanner.SplitBlocks.
  pose proof (join_split_lines t) as Hj. destruct (split_lines t) as [|l ls]; [by subst|]. cbn [WikiScanner.blocks_loop].
  change (0 <? 0)%nat with false. cbn iota.
  assert (eqt (trim_space l) [] = false) as ->.
  { apply eqt_false. apply trim_space_nonempty.
    - intros ->. destruct ls as [|l' ls]; [by rewrite <- Hj in Hn|]. change (join_lines ([] :: l' :: ls)) with (newline :: join_lines (l' :: ls)) in Hj.
      rewrite <- Hj in Hs. by vm_compute in Hs.
    - destruct (decide (l = [])) as [->|Hl]; [done|]. destruct ls as [|l' ls]; [by subst t|]. eapply head_space_prefix; [done|].
      change (join_lines (l :: l' :: ls)) with (l ++ (newline :: join_lines (l' :: ls))) in Hj. by rewrite Hj. }
  destruct (WikiScanner.ParseMarkdownFenceOpen l) as [[n i]|]; [by apply blocks_loop_nonempty|].
  destruct (_ || _); [done|by apply blocks_loop_nonempty].
Qed.

(** Joining lines that hold no line end, and splitting again. *)
Lemma split_lines_one l : forallb not_newline l = true → split_lines l = [l].
Proof.
  induction l as [|c l IH]; [done|]. cbn [forallb]. intros H. bool_hyps. cbn [split_lines]. unfold not_newline in *.
  destruct (is_byte newline c); [done|]. by rewrite IH.
Qed.
Lemma split_join_lines ls : ls ≠ [] → Forall (λ l, forallb not_newline l = true) ls → split_lines (join_lines ls) = ls.
Proof.
  intros Hn Hall. induction Hall as [|l ls Hl Hls IH]; [done|]. destruct ls as [|l' ls]; [by apply split_lines_one|].
  change (join_lines (l :: l' :: ls)) with (l ++ newline :: join_lines (l' :: ls)). rewrite WikiScanner.split_lines_app, split_lines_one by done.
  by rewrite IH.
Qed.
Lemma split_lines_newline s : Forall (λ l, forallb not_newline l = true) (split_lines s).
Proof.
  induction s as [|c s IH]; [by repeat constructor|]. cbn [split_lines]. destruct (is_byte newline c) eqn:Hc; [by constructor|].
  destruct (split_lines s) as [|l ls]; [constructor; [cbn; unfold not_newline; by rewrite Hc|done]|].
  apply Forall_cons in IH as [Hl Hls]. constructor; [|done]. cbn. unfold not_newline at 1. by rewrite Hc.
Qed.

(** ** Texts between ASCII bytes *)

Lemma trim_left_ascii c s : byte_val c < 128 → is_space (byte_val c) = false → trim_left (c :: s) = c :: s.
Proof. intros Hc Hs. unfold trim_left. cbn [length trim_left_fuel]. rewrite decode_rune_ascii by done. by rewrite Hs. Qed.

Lemma decode_last_rune_ascii s c : byte_val c < 128 → decode_last_rune (s ++ [c]) = (byte_val c, 1%nat).
Proof.
  intros Hc. unfold decode_last_rune. rewrite length_app. cbn [length]. rewrite Nat.add_1_r, lookup_app_r, Nat.sub_diag by done.
  cbn [lookup list_lookup]. by rewrite (proj2 (Z.ltb_lt _ _) Hc).
Qed.

Lemma trim_right_ascii s c : byte_val c < 128 → is_space (byte_val c) = false → trim_right (s ++ [c]) = s ++ [c].
Proof.
  intros Hc Hs. unfold trim_right. rewrite length_app. cbn [length]. rewrite Nat.add_1_r. cbn [trim_right_fuel].
  destruct (s ++ [c]) as [|d r] eqn:Hr; [by destruct s|]. rewrite <- Hr, decode_last_rune_ascii by done. by rewrite Hs.
Qed.

Definition ascii_solid (c : ascii) : bool := (byte_val c <? 128) && negb (is_space (byte_val c)).
Lemma trim_space_solid c s d : ascii_solid c = true → ascii_solid d = true → trim_space (c :: s ++ [d]) = c :: s ++ [d].
Proof.
  unfold ascii_solid. intros Hc Hd. bool_hyps. unfold trim_space. rewrite trim_left_ascii by done. by apply (trim_right_ascii (c :: s)).
Qed.
Lemma trim_space_all_solid s : forallb ascii_solid s = true → trim_space s = s.
Proof.
  destruct s as [|c s]; [done|]. destruct s as [|d s _] using rev_ind.
  - cbn [forallb]. unfold ascii_solid. intros H. bool_hyps. unfold trim_space. rewrite trim_left_ascii by done. by apply (trim_right_ascii []).
  - cbn [forallb]. rewrite forallb_app. cbn [forallb]. intros H. bool_hyps. by apply trim_space_solid.
Qed.

(** ** Separators *)

Section separators.
Variable p : ascii.
Notation free s := (forallb (λ c, negb (is_byte p c)) s = true).

Lemma free_index c sep r : free c → head sep = Some p → index (c ++ sep ++ r) sep = Some (length c).
Proof.
  intros Hc Hs. destruct sep as [|q sep]; [done|]. injection Hs as ->. induction c as [|x c IH]; cbn [forallb app length] in *.
  - cbn [index]. by rewrite (proj2 (has_prefix_spec _ _)) by by eexists.
  - bool_hyps. cbn [index]. match goal with |- context [has_prefix ?a ?b] => assert (has_prefix a b = false) as -> end; [|by rewrite IH].
    apply not_true_iff_false. rewrite has_prefix_spec. intros [y [= -> _]]. unfold is_byte in *. rewrite bool_decide_eq_true_2 in H by done. done.
Qed.
Lemma free_index_none c sep : free c → head sep = Some p → index c sep = None.
Proof.
  intros Hc Hs. destruct sep as [|q sep]; [done|]. injection Hs as ->. induction c as [|x c IH]; cbn [forallb] in *; [done|]. bool_hyps.
  cbn [index]. assert (has_prefix (x :: c) (p :: sep) = false) as ->; [|by rewrite IH].
  apply not_true_iff_false. rewrite has_prefix_spec. intros [y [= -> _]]. unfold is_byte in *. rewrite bool_decide_eq_true_2 in H by done. done.
Qed.

Lemma split_join_free sep cells : head sep = Some p → cells ≠ [] → Forall (λ c, free c) cells → split (join sep cells) sep = cells.
Proof.
  intros Hs Hn Hc. unfold split.
  assert (∀ fuel, (length cells ≤ S fuel)%nat → split_fuel fuel (join sep cells) sep = cells) as H.
  { induction Hc as [|c cells Hc Hcs IH]; [done|]. intros fuel Hf. destruct cells as [|d cells].
    - cbn [join]. destruct fuel; [done|]. cbn [split_fuel]. by rewrite free_index_none.
    - change (join sep (c :: d :: cells)) with (c ++ sep ++ join sep (d :: cells)). destruct fuel as [|fuel]; [simpl in Hf; lia|]. cbn [split_fuel].
      rewrite free_index by done. rewrite take_app_length, <- drop_drop, drop_app_length, drop_app_length by done. rewrite IH; [done|done|simpl in *; lia]. }
  apply H. clear -Hs. induction cells as [|c cells IH]; [simpl; lia|]. destruct cells as [|d cells]; [simpl; lia|].
  change (join sep (c :: d :: cells)) with (c ++ sep ++ join sep (d :: cells)). rewrite !length_app. destruct sep; [done|]. simpl in *. lia.
Qed.

Lemma trim_byte_sep sep s : forallb (is_byte p) sep = true → (∀ c, head s = Some c → is_byte p c = false) →
  (∀ c, last s = Some c → is_byte p c = false) → trim_byte p (sep ++ s ++ sep) = s ++ [] ∨ s = [].
Proof.
  intros Hs Hh Hl. destruct (decide (s = [])) as [|Hn]; [by right|left]. rewrite app_nil_r. unfold trim_byte.
  assert (∀ a b, forallb (is_byte p) a = true → (∀ c, head b = Some c → is_byte p c = false) → snd (span (is_byte p) (a ++ b)) = b) as H.
  { intros a b Ha Hb. induction a as [|x a IH]; cbn [app].
    - destruct b as [|y b]; [done|]. cbn [span]. by rewrite (Hb y).
    - cbn [forallb] in Ha. bool_hyps. rewrite WikiScanner.span_cons by done. by apply IH. }
  rewrite H; [|done|intros c; destruct s; [done|apply Hh]]. rewrite reverse_app, H, reverse_involutive; [done| |].
  - apply forallb_forall. intros x Hx. rewrite forallb_forall in Hs. apply Hs, list_elem_of_In, elem_of_reverse, list_elem_of_In. done.
  - intros c. rewrite head_reverse. apply Hl.
Qed.
End separators.

(** ** Loops with errors *)

Lemma map_result_ok {A B E} (f : A → result E B) l ys : map_result f l = Ok ys → Forall2 (λ x y, f x = Ok y) l ys.
Proof.
  revert ys. induction l as [|x l IH]; intros ys H; [injection H as <-; constructor|]. cbn [map_result] in H.
  destruct (f x) as [y|] eqn:Hx; cbn [rbind] in H; [|discriminate H]. destruct (map_result f l) as [zs|]; cbn [rbind] in H; [|discriminate H].
  injection H as <-. constructor; [done|by apply IH].
Qed.

Lemma map_result_ext {A B E} (f g : A → result E B) l : (∀ x, x ∈ l → f x = g x) → map_result f l = map_result g l.
Proof.
  induction l as [|x l IH]; intros H; [done|]. cbn [map_result]. rewrite (H x) by (left). destruct (g x); [|done]. cbn [rbind].
  rewrite IH; [done|]. intros y Hy. apply H. by right.
Qed.

Example recognisers : heading_parts (txt "##  Two  ") = Some (2%nat, txt "Two") ∧ list_item (txt "  12) x y") = Some (2%nat, true, txt "x y") ∧
  list_item (txt "-x") = None ∧ task_box (txt "[X]  done") = Some (true, txt "done") ∧
  separator_row (txt "| :-- | ---:|") = true ∧ separator_row (txt "| - - |") = false ∧ split (txt "a|b||c") (txt "||") = [txt "a|b"; txt "c"] ∧
  replace_all (txt "aaaa") (txt "aa") (txt "b") = txt "bb" ∧ trim_byte "|"%char (txt "||a|b|") = txt "a|b".
Proof. split_and!; reflexivity. Qed.
End Markdown.
