(* ===== verification/MdCsf.v ===== *)
(** * Markdown to Confluence Storage Format (internal/mdcsf)

    [Convert] turns one Markdown block into storage-format bytes, or names the
    construct outside its subset.  The theorems read a successful result as the
    serialisation of a document tree in a fixed vocabulary: no Markdown text can
    introduce markup of its own. *)

From S2P Require Import Prelude GoText WikiScanner Json Markdown.
Import GoText Markdown.
Import WikiScanner (span, is_byte, newline, cr, tab, backslash, backtick, regex_space, split_lines, join_lines, SplitBlocks, MarkdownBlockKind (..),
  MarkdownBlockType, ParseMarkdownFenceOpen, IsMarkdownFenceClose, UnescapeMarkdownBlockCollision).
Import Json (quote, encode_rune, hex_value).

Module MdCsf.
Local Open Scope Z_scope.
Local Open Scope atl_scope.
#[local] Existing Instance WikiScanner.MarkdownBlockKind_eq_dec.

(** ** Escaping *)

Definition escapeText (s : text) : text :=
  let s := replace_all s (txt "&") (txt "&amp;") in
  let s := replace_all s (txt "<") (txt "&lt;") in
  replace_all s (txt ">") (txt "&gt;").
Definition escapeAttr (s : text) : text := replace_all (escapeText s) [quote] (txt "&quot;").
(** Any end marker in the body is split over two sections. *)
Definition cdataEscape (s : text) : text := replace_all s (txt "]]>") (txt "]]]]><![CDATA[>").

(** An attribute with its value, in quotes. *)
Definition attribute (name : string) (value : text) : text := txt " " ++ txt name ++ txt "=" ++ quoted value.

(** ** Inline markup *)

(** [codeSpan]: what it writes and the bytes it consumes. *)
Definition codeSpan (s : text) : option (text * nat) :=
  let open := if has_prefix s [backtick; backtick] then 2%nat else 1%nat in
  let delim := take open s in
  end_ ← index (drop open s) delim;
  let content := take end_ (drop open s) in
  Some (txt "<code>" ++ escapeText (trim_space content) ++ txt "</code>", (open + end_ + open)%nat).

Section inline.
(** [inline] on shorter texts. *)
Variable inline : text → result UnsupportedError text.

Definition emphasis (s delim : text) (tag : string) : result UnsupportedError (option (text * nat)) :=
  let inner := drop (length delim) s in
  match index inner delim with
  | None | Some 0%nat => Ok None
  | Some end_ =>
      let content := take end_ inner in
      if eqt (trim_space content) [] || has_prefix content (txt " ") || has_suffix content (txt " ") then Ok None
      else
        let! out := inline content in
        Ok (Some (txt "<" ++ txt tag ++ txt ">" ++ out ++ txt "</" ++ txt tag ++ txt ">", (length delim + end_ + length delim)%nat))
  end.

Definition pageLink (s : text) : result UnsupportedError (text * nat) :=
  match index s (txt "]]") with
  | None => unsupported "unterminated page link" (clip s)
  | Some end_ =>
      let title := trim_space (slice s 2 end_) in
      if eqt title [] then unsupported "empty page link" (clip s)
      else Ok (txt "<ac:link><ri:page" ++ attribute "ri:content-title" (escapeAttr title) ++ txt "/></ac:link>", (end_ + 2)%nat)
  end.

(** [markdownLinkLabelEnd], the index of the bracket that closes the first one;
    the loop runs from index [i] over what follows it. *)
Fixpoint label_loop (s : text) (i depth : nat) : option nat :=
  match s with
  | [] => None
  | c :: s =>
      if is_byte backslash c then
        match s with
        | _ :: s => label_loop s (S (S i)) depth
        | [] => None
        end
      else if is_byte "["%char c then label_loop s (S i) (S depth)
      else if is_byte "]"%char c then (if (depth =? 1)%nat then Some i else label_loop s (S i) (depth - 1))
      else label_loop s (S i) depth
  end.
Definition markdownLinkLabelEnd (s : text) : option nat :=
  match s with
  | c :: s => if is_byte "["%char c then label_loop s 1 1 else None
  | [] => None
  end.

(** The index of the parenthesis that ends a link destination. *)
Fixpoint destination_end (s : text) (i depth : nat) : option nat :=
  match s with
  | [] => None
  | c :: s =>
      if is_byte "("%char c then destination_end s (S i) (S depth)
      else if is_byte ")"%char c then (if (depth =? 0)%nat then Some i else destination_end s (S i) (depth - 1))
      else destination_end s (S i) depth
  end.

(** [url.PathUnescape]. *)
Fixpoint PathUnescape (s : text) : option text :=
  match s with
  | [] => Some []
  | c :: s =>
      if is_byte "%"%char c then
        match s with
        | a :: b :: s =>
            match hex_value a, hex_value b with
            | Some x, Some y => r ← PathUnescape s; Some (ascii_of_N (Z.to_N (x * 16 + y)) :: r)
            | _, _ => None
            end
        | _ => None
        end
      else r ← PathUnescape s; Some (c :: r)
  end.

(** A page target: the space, empty if there is none, and the title. *)
Definition page_target (identity url : text) : result UnsupportedError (text * text) :=
  let '(head, tail, hasSpace) := cut identity (txt "/") in
  let '(space, encodedTitle) := if hasSpace then (head, tail) else ([], head) in
  match PathUnescape encodedTitle with
  | None => unsupported "invalid Confluence page target" (clip url)
  | Some title =>
      if eqt (trim_space title) [] then unsupported "invalid Confluence page target" (clip url)
      else if eqt space [] then Ok ([], title)
      else match PathUnescape space with
           | None => unsupported "invalid Confluence space target" (clip url)
           | Some space => if eqt (trim_space space) [] then unsupported "invalid Confluence space target" (clip url) else Ok (space, title)
           end
  end.

Definition jira_macro (key : text) : text :=
  txt "<ac:structured-macro" ++ attribute "ac:name" (txt "jira") ++ txt ">" ++
  txt "<ac:parameter" ++ attribute "ac:name" (txt "key") ++ txt ">" ++ escapeText key ++ txt "</ac:parameter></ac:structured-macro>".

Definition link_target (text_ url : text) : result UnsupportedError text :=
  if has_prefix url (txt "http://") || has_prefix url (txt "https://") || has_prefix url (txt "mailto:") ||
     has_prefix url (txt "/") || has_prefix url (txt "#") then
    let! inner := inline text_ in
    Ok (txt "<a" ++ attribute "href" (escapeAttr url) ++ txt ">" ++ inner ++ txt "</a>")
  else if has_prefix url (txt "jira:") then
    let key := drop 5 url in
    if eqt key [] || negb (eqt text_ key) then unsupported "jira link with text differing from key" (clip url)
    else Ok (jira_macro key)
  else if has_prefix url (txt "confluence-page:") then
    let! target := page_target (drop 16 url) url in
    let '(space, title) := target in
    let attrs := attribute "ri:content-title" (escapeAttr title) ++ (if eqt space [] then [] else attribute "ri:space-key" (escapeAttr space)) in
    let! body := (if eqt text_ title then Ok [] else let! inner := inline text_ in Ok (txt "<ac:link-body>" ++ inner ++ txt "</ac:link-body>")) in
    Ok (txt "<ac:link><ri:page" ++ attrs ++ txt "/>" ++ body ++ txt "</ac:link>")
  else unsupported "link scheme" (clip url).

Definition link (s : text) : result UnsupportedError (option (text * nat)) :=
  match markdownLinkLabelEnd s with
  | None => Ok None
  | Some closeBr =>
      match s !! S closeBr with
      | Some c =>
          if negb (is_byte "("%char c) then Ok None
          else match destination_end (drop (closeBr + 2) s) (closeBr + 2) 0 with
               | None => Ok None
               | Some end_ => let! out := link_target (slice s 1 closeBr) (slice s (closeBr + 2) end_) in Ok (Some (out, S end_))
               end
      | None => Ok None
      end
  end.
End inline.

(** The loop of [inline] at a position: the byte before it and the rest of the
    text.  Out of fuel it would stop; [inline_fuel] shows that it never does. *)
Fixpoint inline_loop (fuel : nat) (before : option ascii) (s : text) : result UnsupportedError text :=
  match fuel, s with
  | S fuel, c :: _ =>
      let inline t := inline_loop fuel None t in
      let emit (out : text) (n : nat) := let! rest := inline_loop fuel (s !! pred n) (drop n s) in Ok (out ++ rest) in
      let mark (delim : text) (tag : string) (literal : text) :=
        let! m := emphasis inline s delim tag in
        match m with Some (out, n) => emit out n | None => emit literal (length delim) end in
      if is_byte backtick c then
        match codeSpan s with Some (out, n) => emit out n | None => emit [backtick] 1%nat end
      else if has_prefix s (txt "⟦") then unsupported "opaque placeholder" (clip s)
      else if has_prefix s (txt "<span style=" ++ quote :: txt "color:") || has_prefix s (txt "<span data-atl-color=")
      then unsupported "protected color span" (clip s)
      else if has_prefix s (txt "<br>") || has_prefix s (txt "<br/>") then unsupported "raw br element" (clip s)
      else if has_prefix s (txt "![") then unsupported "image" (clip s)
      else if has_prefix s (txt "[[") then let! m := pageLink s in let '(out, n) := m in emit out n
      else if is_byte "["%char c then
        let! m := link inline s in
        match m with Some (out, n) => emit out n | None => emit (txt "[") 1%nat end
      else if has_prefix s (txt "**") || has_prefix s (txt "__") then
        if is_byte "_"%char c && intraword before s 2 then emit (txt "__") 2%nat
        else mark (take 2 s) "strong" (escapeText (take 2 s))
      else if has_prefix s (txt "~~") then mark (txt "~~") "s" (txt "~~")
      else if is_byte "*"%char c || is_byte "_"%char c then
        if is_byte "_"%char c && intraword before s 1 then emit (txt "_") 1%nat
        else mark (take 1 s) "em" (escapeText (take 1 s))
      else
        match s with
        | b :: e :: _ => if is_byte backslash b && isEscapable e then emit (escapeText [e]) 2%nat else emit (escapeText [c]) 1%nat
        | _ => emit (escapeText [c]) 1%nat
        end
  | _, _ => Ok []
  end.
Definition inline (s : text) : result UnsupportedError text := inline_loop (length s) None s.
Definition ConvertInline (s : text) : result UnsupportedError text := inline s.

Example inline_demo : let q := quote in
  inline (txt "a_b_c **x <y** `q&r` [t](/u?a=1&b) \* [K-1](jira:K-1)") =
  Ok (txt "a_b_c <strong>x &lt;y</strong> <code>q&amp;r</code> <a href=" ++ quoted (txt "/u?a=1&amp;b") ++ txt ">t</a> * " ++ jira_macro (txt "K-1")) ∧
  is_ok (inline (txt "[x](ftp://y)")) = false ∧
  inline (txt "[t](confluence-page:S%20P/A%2FB)") =
  Ok (txt "<ac:link><ri:page" ++ attribute "ri:content-title" (txt "A/B") ++ attribute "ri:space-key" (txt "S P") ++ txt "/><ac:link-body>t</ac:link-body></ac:link>").
Proof. vm_compute. split_and!; reflexivity. Qed.

(** ** Blocks *)

(** The characters XML 1.0 excludes. *)
Definition control_rune (r : Z) : bool := ((r <? 32) && negb (r =? 9) && negb (r =? 10) && negb (r =? 13)) || (r =? 65534) || (r =? 65535).
(** [fmt.Sprintf("U+%04X", r)] of the first such rune. *)
Fixpoint first_control (fuel : nat) (s : text) : option Z :=
  match fuel, s with
  | S fuel, _ :: _ => let '(r, sz) := decode_rune s in if control_rune r then Some r else first_control fuel (drop sz s)
  | _, _ => None
  end.
Definition hex_upper (n : N) : ascii := (if n <? 10 then ascii_of_N (48 + n) else ascii_of_N (55 + n))%N.
Definition rune_name (r : Z) : text :=
  let n := Z.to_N r in txt "U+" ++ [hex_upper (n / 4096 mod 16); hex_upper (n / 256 mod 16); hex_upper (n / 16 mod 16); hex_upper (n mod 16)]%N.

Definition digit_byte (n : nat) : text := [ascii_of_nat (48 + n)].
Definition tag_open (name : text) : text := txt "<" ++ name ++ txt ">".
Definition tag_close (name : text) : text := txt "</" ++ name ++ txt ">".
Definition macro_begin (name : text) : text := txt "<ac:structured-macro" ++ attribute "ac:name" name ++ txt ">".
Definition macro_end : text := txt "</ac:structured-macro>".
Definition parameter (name : string) (value : text) : text :=
  txt "<ac:parameter" ++ attribute "ac:name" (txt name) ++ txt ">" ++ escapeText value ++ txt "</ac:parameter>".

Definition convertHeading (lines : list text) : result UnsupportedError text :=
  match lines with
  | [line] =>
      match heading_parts line with
      | Some (level, content) => let! body := inline content in let h := txt "h" ++ digit_byte level in Ok (tag_open h ++ body ++ tag_close h)
      | None => Ok [] (* not reached: the caller matched the line *)
      end
  | _ :: second :: _ => unsupported "heading with continuation lines" second
  | [] => Ok []
  end.

(** The run a colliding line starts with: slashes, white space, backticks. *)
Definition fence_prefix (original : text) : nat :=
  let '(slashes, s) := span (is_byte backslash) original in
  let '(gap, s) := span (λ c, is_byte " "%char c || is_byte tab c || is_byte cr c || is_byte newline c) s in
  let '(ticks, _) := span (is_byte backtick) s in
  (length slashes + length gap + length ticks)%nat.

Definition paragraph_line (line : text) : result UnsupportedError text :=
  match UnescapeMarkdownBlockCollision line with
  | None => inline line
  | Some (original, MarkdownFence) =>
      let prefix := fence_prefix original in
      let! rest := inline (drop prefix original) in
      Ok (escapeText (take prefix original) ++ rest)
  | Some (original, MarkdownThematicBreak) => Ok (escapeText original)
  | Some (_, MarkdownParagraph) => unsupported "markdown block collision" line
  end.
Definition convertParagraph (lines : list text) : result UnsupportedError text :=
  let! parts := map_result paragraph_line (map trim_space lines) in
  Ok (txt "<p>" ++ join (txt " ") parts ++ txt "</p>").

(** The body of a fenced block: the lines between, line ends normalised. *)
Definition fence_body (lines : list text) : text :=
  trim_suffix (replace_all (join_lines lines) [cr; newline] [newline]) [cr].
Definition convertFence (lines : list text) : result UnsupportedError text :=
  let line0 := default [] (head lines) in
  match ParseMarkdownFenceOpen line0 with
  | None => unsupported "code fence info string" (trim_space line0)
  | Some (run, info) =>
      let lang := trim_space info in
      let last := pred (length lines) in
      if (last =? 0)%nat || negb (IsMarkdownFenceClose (default [] (lines !! last)) run) then unsupported "unterminated code fence" line0
      else
        Ok (macro_begin (txt "code") ++ (if eqt lang [] then [] else parameter "language" lang) ++
            txt "<ac:plain-text-body><![CDATA[" ++ cdataEscape (fence_body (slice lines 1 last)) ++ txt "]]></ac:plain-text-body>" ++ macro_end)
  end.

(** [admonitionRe]: the macro name of the label, in lower case, and the title. *)
Definition admonition (line : text) : option (text * text) :=
  let labels := [("INFO", "info"); ("NOTE", "note"); ("WARNING", "warning"); ("TIP", "tip"); ("PANEL", "panel")] in
  first_some (λ _ '(label, name),
    match WikiScanner.after (txt label) line with
    | Some [] => Some (txt name, [])
    | Some (c :: s) => if is_byte ":"%char c then (title ← WikiScanner.rest_of_line (snd (span regex_space s)); Some (txt name, title)) else None
    | None => None
    end) 0%nat labels.

(** A quoted line without its marker. *)
Definition unquoted (l : text) : result UnsupportedError text :=
  let t := trim_space l in
  if negb (has_prefix t (txt ">")) then unsupported "blockquote with unprefixed line" l
  else Ok (trim_prefix (trim_prefix t (txt ">")) (txt " ")).

Section blocks.
(** [Convert] on the blocks inside a quotation. *)
Variable Convert : text → result UnsupportedError text.

Definition inner_block (blk : text) : result UnsupportedError text :=
  if has_prefix (trim_space blk) (txt ">") then unsupported "nested blockquote" blk else Convert blk.
Definition convertInnerBlocks (lines : list text) : result UnsupportedError text :=
  let! parts := map_result inner_block (SplitBlocks (join_lines lines)) in
  match parts with [] => unsupported "empty blockquote" [] | _ => Ok (concat parts) end.

Definition convertAdmonition (name title : text) (inner : list text) : result UnsupportedError text :=
  let! body := convertInnerBlocks inner in
  Ok (macro_begin name ++ (if eqt title [] then [] else parameter "title" title) ++
      txt "<ac:rich-text-body>" ++ body ++ txt "</ac:rich-text-body>" ++ macro_end).

Definition convertBlockquote (lines : list text) : result UnsupportedError text :=
  let! inner := map_result unquoted lines in
  match admonition (trim_space (default [] (head inner))) with
  | Some (name, title) => convertAdmonition name title (drop 1 inner)
  | None => let! body := convertInnerBlocks inner in Ok (txt "<blockquote>" ++ body ++ txt "</blockquote>")
  end.
End blocks.

(** ** Tables *)

(** [splitRow]: the loop over runes, with the cell so far and the escape flag. *)
Fixpoint row_loop (fuel : nat) (s cur : text) (escaped : bool) : list text :=
  match fuel, s with
  | S fuel, _ :: _ =>
      let '(r, sz) := decode_rune s in
      let s := drop sz s in
      if escaped then row_loop fuel s (cur ++ (if r =? 124 then [] else [backslash]) ++ encode_rune r) false
      else if r =? 92 then row_loop fuel s cur true
      else if r =? 124 then trim_space cur :: row_loop fuel s [] false
      else row_loop fuel s (cur ++ encode_rune r) false
  | _, _ => [trim_space (cur ++ if escaped then [backslash] else [])]
  end.
Definition splitRow (line : text) : list text :=
  let line := trim_suffix (trim_prefix (trim_space line) (txt "|")) (txt "|") in
  row_loop (length line) line [] false.
Definition SplitTableRow (line : text) : list text := splitRow line.
Definition IsTableSeparator (line : text) : bool := separator_row (trim_space line).

(** Short rows are padded to the width of the header. *)
Definition pad (width : nat) (cells : list text) : list text := cells ++ replicate (width - length cells) [].

Definition table_cell (tag : text) (c : text) : result UnsupportedError text :=
  let! cell := inline c in Ok (tag_open tag ++ cell ++ tag_close tag).
Definition table_row (width : nat) (l : text) : result UnsupportedError text :=
  let cells := splitRow l in
  if (width <? length cells)%nat then unsupported "table row wider than header" l
  else let! cells := map_result (table_cell (txt "td")) (pad width cells) in Ok (tag_open (txt "tr") ++ concat cells ++ tag_close (txt "tr")).

Definition convertTable (lines : list text) : result UnsupportedError text :=
  match lines with
  | line0 :: line1 :: rows =>
      match first_some (λ _ l, if has_prefix (trim_space l) (txt "|") then None else Some l) 0%nat lines with
      | Some l => unsupported "table with non-row line" l
      | None =>
          if negb (separator_row (trim_space line1)) then unsupported "table separator row" line1
          else
            let header := splitRow line0 in
            if negb (length (splitRow line1) =? length header)%nat then unsupported "table separator width differs from header" line1
            else
              let! heads := map_result (table_cell (txt "th")) header in
              let! body := map_result (table_row (length header)) rows in
              Ok (txt "<table><tbody><tr>" ++ concat heads ++ txt "</tr>" ++ concat body ++ txt "</tbody></table>")
      end
  | _ => unsupported "table without separator row" (default [] (head lines))
  end.

(** ** Lists *)

Record listItem := { indent : nat; ordered : bool; task : bool; done_ : bool; text_ : text }.

Definition parse_item (l : text) : result UnsupportedError listItem :=
  match list_item l with
  | None => unsupported "list item continuation line" l
  | Some (n, o, t) =>
      Ok match task_box t with
         | Some (ticked, t) => {| indent := n; ordered := o; task := true; done_ := ticked; text_ := t |}
         | None => {| indent := n; ordered := o; task := false; done_ := false; text_ := t |}
         end
  end.

(** The loops of [buildList] and [buildTaskList] over the items from index [i]:
    what is written for the items at the level and the items left. *)
Fixpoint list_loop (fuel : nat) (items : list listItem) (level : nat) (kind : bool) : result UnsupportedError (text * list listItem) :=
  match fuel, items with
  | S fuel, it :: items' =>
      if (indent it <? level)%nat then Ok ([], items)
      else if (level <? indent it)%nat then unsupported "list indentation jump" (text_ it)
      else if negb (Bool.eqb (ordered it) kind) then unsupported "mixed ordered and unordered siblings" (text_ it)
      else
        let! out := inline (text_ it) in
        let! sub := match items' with
                    | it' :: _ => if (level <? indent it')%nat then
                                    let tag := if ordered it' then txt "ol" else txt "ul" in
                                    let! sub := list_loop fuel items' (indent it') (ordered it') in
                                    Ok (tag_open tag ++ sub.1 ++ tag_close tag, sub.2)
                                  else Ok ([], items')
                    | [] => Ok ([], items')
                    end in
        let! more := list_loop fuel sub.2 level kind in
        Ok (txt "<li>" ++ out ++ sub.1 ++ txt "</li>" ++ more.1, more.2)
  | _, _ => Ok ([], items)
  end.
Definition buildList (items : list listItem) : result UnsupportedError (text * list listItem) :=
  match items with
  | it :: _ => let tag := if ordered it then txt "ol" else txt "ul" in
               let! sub := list_loop (length items) items (indent it) (ordered it) in
               Ok (tag_open tag ++ sub.1 ++ tag_close tag, sub.2)
  | [] => Ok ([], [])
  end.

Fixpoint task_loop (fuel : nat) (items : list listItem) (level : nat) : result UnsupportedError (text * list listItem) :=
  match fuel, items with
  | S fuel, it :: items' =>
      if (indent it <? level)%nat then Ok ([], items)
      else if (level <? indent it)%nat then unsupported "list indentation jump" (text_ it)
      else
        let status := if done_ it then txt "complete" else txt "incomplete" in
        let! out := inline (text_ it) in
        let! sub := match items' with
                    | it' :: _ => if (level <? indent it')%nat then
                                    let! sub := task_loop fuel items' (indent it') in
                                    Ok (txt "<ac:task-list>" ++ sub.1 ++ txt "</ac:task-list>", sub.2)
                                  else Ok ([], items')
                    | [] => Ok ([], items')
                    end in
        let! more := task_loop fuel sub.2 level in
        Ok (txt "<ac:task><ac:task-status>" ++ status ++ txt "</ac:task-status><ac:task-body>" ++ out ++ sub.1 ++
            txt "</ac:task-body></ac:task>" ++ more.1, more.2)
  | _, _ => Ok ([], items)
  end.
Definition buildTaskList (items : list listItem) : result UnsupportedError (text * list listItem) :=
  match items with
  | it :: _ => let! sub := task_loop (length items) items (indent it) in Ok (txt "<ac:task-list>" ++ sub.1 ++ txt "</ac:task-list>", sub.2)
  | [] => Ok ([], [])
  end.

Definition convertList (lines : list text) : result UnsupportedError text :=
  let! items := map_result parse_item lines in
  let kind := match items with it :: _ => task it | [] => false end in
  match first_some (λ _ it, if Bool.eqb (task it) kind then None else Some it) 0%nat items with
  | Some it => unsupported "mixed task and plain list items" (text_ it)
  | None =>
      let! out := (if kind then buildTaskList items else buildList items) in
      match out.2 with
      | [] => Ok out.1
      | it :: _ => unsupported "list dedents below its first item" (text_ it)
      end
  end.

(** ** Convert *)

(** Quotations nest; the fuel is above the length of the block, which every level
    shortens ([convert_fuel]). *)
Fixpoint convert (fuel : nat) (block : text) : result UnsupportedError text :=
  let block := trim_right_nl block in
  if eqt (trim_space block) [] then unsupported "empty block" []
  else if negb (valid_utf8 block) then unsupported "invalid UTF-8" []
  else
    match first_control (length block) block with
    | Some r => unsupported "control character" (rune_name r)
    | None =>
        let lines := split_lines block in
        let line0 := default [] (head lines) in
        let first := trim_space line0 in
        if bool_decide (is_Some (ParseMarkdownFenceOpen line0)) then convertFence lines
        else if bool_decide (is_Some (heading_parts line0)) then convertHeading lines
        else if bool_decide (MarkdownBlockType first = MarkdownThematicBreak) && (length lines =? 1)%nat then Ok (txt "<hr/>")
        else if has_prefix first (txt ">") then
          match fuel with
          | S fuel => convertBlockquote (convert fuel) lines
          | O => Ok []
          end
        else if has_prefix first (txt "|") then convertTable lines
        else if bool_decide (is_Some (list_item line0)) then convertList lines
        else convertParagraph lines
    end.
Definition Convert (block : text) : result UnsupportedError text := convert (S (length block)) block.

(** [ConvertDocument]; the index and the first line the error is wrapped in are a
    part of the message and left out. *)
Definition ConvertDocument (md : text) : result UnsupportedError text :=
  let md := trim_prefix md (encode_rune 65279) in
  match SplitBlocks md with
  | [] => unsupported "empty document" []
  | blocks => let! parts := map_result Convert blocks in Ok (join [newline] parts)
  end.

Example convert_demo : let lines ls := join_lines (map txt ls) in
  Convert (lines ["- a"; "  1. *b*"; "- c"]) = Ok (txt "<ul><li>a<ol><li><em>b</em></li></ol></li><li>c</li></ul>") ∧
  Convert (lines ["- [x] a"; "- [ ] b"]) = Ok (txt "<ac:task-list><ac:task><ac:task-status>complete</ac:task-status><ac:task-body>a</ac:task-body></ac:task><ac:task><ac:task-status>incomplete</ac:task-status><ac:task-body>b</ac:task-body></ac:task></ac:task-list>") ∧
  Convert (lines ["| a | b\|c |"; "|---|:-:|"; "| 1 |"]) = Ok (txt "<table><tbody><tr><th>a</th><th>b|c</th></tr><tr><td>1</td><td></td></tr></tbody></table>") ∧
  Convert (lines ["> NOTE: T"; "> x"; ">"; "> y"]) = Ok (macro_begin (txt "note") ++ parameter "title" (txt "T") ++ txt "<ac:rich-text-body><p>x</p><p>y</p></ac:rich-text-body></ac:structured-macro>") ∧
  Convert (lines ["```go"; "a]]>b"; "```"]) = Ok (macro_begin (txt "code") ++ parameter "language" (txt "go") ++
    txt "<ac:plain-text-body><![CDATA[a]]]]><![CDATA[>b]]></ac:plain-text-body></ac:structured-macro>") ∧
  Convert (lines ["- a"; "1. b"]) = unsupported "mixed ordered and unordered siblings" (txt "b") ∧
  ConvertDocument (lines ["# T"; "a"; "b"; ""; "---"]) = Ok (lines ["<h1>T</h1>"; "<p>a b</p>"; "<hr/>"]).
Proof. vm_compute. split_and!; reflexivity. Qed.

(** ** Documents *)

(** A byte of character data, and of an attribute value, escaped. *)
Definition text_byte (c : ascii) : text :=
  if is_byte "&"%char c then txt "&amp;" else if is_byte "<"%char c then txt "&lt;" else if is_byte ">"%char c then txt "&gt;" else [c].
Definition attr_byte (c : ascii) : text := if is_byte quote c then txt "&quot;" else text_byte c.

(** Trees of storage format: character data, CDATA sections, elements. *)
Unset Elimination Schemes.
Inductive node :=
| Text (s : text)
| CData (s : text)
| Empty (name : text) (attrs : list (string * text))
| Elem (name : text) (attrs : list (string * text)) (children : list node).
Set Elimination Schemes.

Definition render_attr (a : string * text) : text := txt " " ++ txt a.1 ++ txt "=" ++ quoted (a.2 ≫= attr_byte).
Fixpoint render (n : node) : text :=
  match n with
  | Text s => s ≫= text_byte
  | CData s => txt "<![CDATA[" ++ s ++ txt "]]>"
  | Empty name attrs => txt "<" ++ name ++ (attrs ≫= render_attr) ++ txt "/>"
  | Elem name attrs children =>
      txt "<" ++ name ++ (attrs ≫= render_attr) ++ txt ">" ++ concat (map render children) ++ txt "</" ++ name ++ txt ">"
  end.
Definition render_all (ns : list node) : text := concat (map render ns).

(** The elements without attributes, and the macros. *)
Definition elem (name : string) (children : list node) : node := Elem (txt name) [] children.
Definition macro (name : string) (children : list node) : node := Elem (txt "ac:structured-macro") [("ac:name", txt name)] children.
Definition param (name : string) (value : text) : node := Elem (txt "ac:parameter") [("ac:name", txt name)] [Text value].
(** At most one parameter. *)
Definition params (name : string) (value : text) : list node := if eqt value [] then [] else [param name value].

(** Inline content. *)
Unset Elimination Schemes.
Inductive phrase : node → Prop :=
| ph_text s : phrase (Text s)
| ph_mark tag ns : tag ∈ ["strong"; "em"; "s"; "code"] → Forall phrase ns → phrase (elem tag ns)
| ph_anchor url ns : Forall phrase ns → phrase (Elem (txt "a") [("href", url)] ns)
| ph_jira key : phrase (macro "jira" [param "key" key])
| ph_page attrs ns body : map fst attrs ∈ [["ri:content-title"]; ["ri:content-title"; "ri:space-key"]] → Forall phrase ns →
    body ∈ [[]; [elem "ac:link-body" ns]] → phrase (elem "ac:link" (Empty (txt "ri:page") attrs :: body)).

(** Lists, whose items hold at most one nested list, and task lists. *)
Inductive list_node : node → Prop :=
| ls_list tag items : tag ∈ ["ul"; "ol"] → Forall list_entry items → list_node (elem tag items)
with list_entry : node → Prop :=
| ls_entry ns sub : Forall phrase ns → Forall list_node sub → (length sub ≤ 1)%nat → list_entry (elem "li" (ns ++ sub)).

Inductive task_node : node → Prop :=
| ts_list items : Forall task_entry items → task_node (elem "ac:task-list" items)
with task_entry : node → Prop :=
| ts_entry status ns sub : status ∈ ["complete"; "incomplete"] → Forall phrase ns → Forall task_node sub → (length sub ≤ 1)%nat →
    task_entry (elem "ac:task" [elem "ac:task-status" [Text (txt status)]; elem "ac:task-body" (ns ++ sub)]).

(** A row of [width] cells, and a CDATA section. *)
Inductive row_node (cell : string) (width : nat) : node → Prop :=
| row_cells cells : length cells = width → Forall (Forall phrase) cells → row_node cell width (elem "tr" (map (elem cell) cells)).
Inductive cdata_node : node → Prop :=
| cdata_section s : contains s (txt "]]>") = false → cdata_node (CData s).

(** Blocks. *)
Inductive block : node → Prop :=
| bl_rule : block (Empty (txt "hr") [])
| bl_heading level ns : level ∈ ["h1"; "h2"; "h3"; "h4"; "h5"; "h6"] → Forall phrase ns → block (elem level ns)
| bl_paragraph ns : Forall phrase ns → block (elem "p" ns)
| bl_code lang sections : Forall cdata_node sections → block (macro "code" (params "language" lang ++ [elem "ac:plain-text-body" sections]))
| bl_quote bs : Forall block bs → block (elem "blockquote" bs)
| bl_admonition name title bs : name ∈ ["info"; "note"; "warning"; "tip"; "panel"] → Forall block bs →
    block (macro name (params "title" title ++ [elem "ac:rich-text-body" bs]))
| bl_table width header rows : row_node "th" width header → Forall (row_node "td" width) rows → block (elem "table" [elem "tbody" (header :: rows)])
| bl_list n : list_node n → block n
| bl_tasks n : task_node n → block n.
Set Elimination Schemes.

(** ** Escaping, byte by byte *)

Lemma has_prefix_byte b c s : has_prefix (c :: s) [b] = is_byte b c.
Proof. unfold has_prefix, is_byte. apply bool_decide_ext. cbn. split; [by intros [[= ->] _]|intros ->; split; [done|lia]]. Qed.

Lemma replace_all_byte s b new : replace_all s [b] new = s ≫= λ c, if is_byte b c then new else [c].
Proof.
  unfold replace_all. induction s as [|c s IH]; [done|]. cbn [length replace_fuel mbind list_bind]. rewrite has_prefix_byte.
  destruct (is_byte b c); cbn [skipn app]; rewrite ?drop_0; by rewrite IH.
Qed.

Lemma escape_bytes (f g : ascii → text) (h : ascii → text) s : (∀ c, f c ≫= g = h c) → (s ≫= f) ≫= g = s ≫= h.
Proof. intros H. induction s as [|c s IH]; [done|]. cbn [mbind list_bind]. by rewrite bind_app, IH, H. Qed.

Lemma escapeText_bytes s : escapeText s = s ≫= text_byte.
Proof.
  change (escapeText s) with (replace_all (replace_all (replace_all s ["&"%char] (txt "&amp;")) ["<"%char] (txt "&lt;")) [">"%char] (txt "&gt;")).
  rewrite !replace_all_byte. set (h := λ c, if is_byte "<"%char c then txt "&lt;" else if is_byte ">"%char c then txt "&gt;" else [c]).
  rewrite (escape_bytes _ _ h); [apply escape_bytes|]; intros c; apply eqt_true.
  - apply (all_bytes (λ c, eqt ((if is_byte "&"%char c then txt "&amp;" else [c]) ≫= h) (text_byte c))). vm_compute. reflexivity.
  - apply (all_bytes (λ c, eqt ((if is_byte "<"%char c then txt "&lt;" else [c]) ≫= λ c, if is_byte ">"%char c then txt "&gt;" else [c]) (h c))).
    vm_compute. reflexivity.
Qed.

Lemma escapeAttr_bytes s : escapeAttr s = s ≫= attr_byte.
Proof.
  unfold escapeAttr. rewrite escapeText_bytes, replace_all_byte. apply escape_bytes. intros c. apply eqt_true.
  apply (all_bytes (λ c, eqt (text_byte c ≫= λ c, if is_byte quote c then txt "&quot;" else [c]) (attr_byte c))). vm_compute. reflexivity.
Qed.

Lemma render_all_app a b : render_all (a ++ b) = render_all a ++ render_all b.
Proof. unfold render_all. by rewrite map_app, concat_app. Qed.

Lemma render_elem name ns : render (elem name ns) = tag_open (txt name) ++ render_all ns ++ tag_close (txt name).
Proof. unfold elem, tag_open, tag_close. cbn [render mbind list_bind]. by rewrite <- !app_assoc. Qed.

Lemma render_attr_eq name value : render_attr (name, value) = attribute name (escapeAttr value).
Proof. unfold attribute. by rewrite escapeAttr_bytes. Qed.

Lemma render_Elem name attrs ns :
  render (Elem name attrs ns) = txt "<" ++ name ++ (attrs ≫= render_attr) ++ txt ">" ++ render_all ns ++ txt "</" ++ name ++ txt ">".
Proof. done. Qed.
Lemma render_Empty name attrs : render (Empty name attrs) = txt "<" ++ name ++ (attrs ≫= render_attr) ++ txt "/>".
Proof. done. Qed.
Lemma render_all_cons n ns : render_all (n :: ns) = render n ++ render_all ns.
Proof. done. Qed.
Lemma render_all_one n : render_all [n] = render n.
Proof. apply app_nil_r. Qed.
Lemma attrs_one name value : [(name, value)] ≫= render_attr = attribute name (escapeAttr value).
Proof. rewrite <- render_attr_eq. apply app_nil_r. Qed.
Lemma attrs_two a b : [a; b] ≫= render_attr = render_attr a ++ render_attr b.
Proof. change ([a; b] ≫= render_attr) with (render_attr a ++ render_attr b ++ []). by rewrite app_nil_r. Qed.

(** A name that needs no escape. *)
Lemma render_macro name ns : escapeAttr (txt name) = txt name → render (macro name ns) = macro_begin (txt name) ++ render_all ns ++ macro_end.
Proof.
  intros Hn. unfold macro, macro_begin, macro_end. rewrite render_Elem, attrs_one, Hn.
  change (txt "</ac:structured-macro>") with (txt "</" ++ txt "ac:structured-macro" ++ txt ">").
  change (txt "<ac:structured-macro") with (txt "<" ++ txt "ac:structured-macro"). by rewrite <- !app_assoc.
Qed.

Lemma render_param name value : escapeAttr (txt name) = txt name → render (param name value) = parameter name value.
Proof.
  intros Hn. unfold param, parameter. rewrite render_Elem, attrs_one, Hn, render_all_one, escapeText_bytes.
  change (txt "</ac:parameter>") with (txt "</" ++ txt "ac:parameter" ++ txt ">").
  change (txt "<ac:parameter") with (txt "<" ++ txt "ac:parameter"). by rewrite <- !app_assoc.
Qed.

(** ** Inline markup is phrases *)

Definition phrases (out : text) : Prop := ∃ ns, Forall phrase ns ∧ out = render_all ns.

Lemma phrases_app a b : phrases a → phrases b → phrases (a ++ b).
Proof. intros (ns & Hn & ->) (ms & Hm & ->). exists (ns ++ ms). by rewrite Forall_app, render_all_app. Qed.
Lemma phrases_nil : phrases [].
Proof. by exists []. Qed.
Lemma phrases_text s : phrases (escapeText s).
Proof. exists [Text s]. split; [repeat constructor|]. cbn. by rewrite escapeText_bytes, app_nil_r. Qed.
(** A text that is its own escape. *)
Lemma phrases_plain s : escapeText s = s → phrases s.
Proof. intros <-. apply phrases_text. Qed.
Lemma phrases_one n : phrase n → phrases (render n).
Proof. intros Hn. exists [n]. split; [by repeat constructor|]. cbn. by rewrite app_nil_r. Qed.
Lemma phrases_elem tag out : tag ∈ ["strong"; "em"; "s"; "code"] → phrases out → phrases (tag_open (txt tag) ++ out ++ tag_close (txt tag)).
Proof. intros Ht (ns & Hn & ->). rewrite <- render_elem. apply phrases_one. by constructor. Qed.

(** Injectivity that leaves the texts as they are written. *)
Lemma ok_inj {E A} (a b : A) : @Ok E A a = Ok b → a = b.
Proof. by intros [=]. Qed.
Lemma pair_fst {A B} (a a' : A) (b b' : B) : (a, b) = (a', b') → a = a'.
Proof. by intros [=]. Qed.

Lemma codeSpan_phrases s out n : codeSpan s = Some (out, n) → phrases out.
Proof.
  unfold codeSpan. destruct (index _ _) as [end_|]; [|done]. intros <-%(inj Some)%pair_fst.
  apply (phrases_elem "code"); [set_solver|apply phrases_text].
Qed.

Lemma pageLink_phrases s out n : pageLink s = Ok (out, n) → phrases out.
Proof.
  unfold pageLink. destruct (index _ _) as [end_|]; [|done]. destruct (eqt _ []); [done|]. intros <-%ok_inj%pair_fst.
  set (title := trim_space _). exists [elem "ac:link" [Empty (txt "ri:page") [("ri:content-title", title)]]]. split.
  - apply Forall_singleton. apply (ph_page [("ri:content-title", title)] [] []); [left|constructor|left].
  - rewrite render_all_one, render_elem, render_all_one, render_Empty, attrs_one. unfold tag_open, tag_close.
    change (txt "<ac:link><ri:page") with ((txt "<" ++ txt "ac:link" ++ txt ">") ++ txt "<" ++ txt "ri:page").
    change (txt "/></ac:link>") with (txt "/>" ++ txt "</" ++ txt "ac:link" ++ txt ">"). by rewrite <- !app_assoc.
Qed.

Lemma jira_macro_phrases key : phrases (jira_macro key).
Proof.
  exists [macro "jira" [param "key" key]]. split; [repeat constructor|]. rewrite render_all_one.
  rewrite render_macro by (vm_compute; reflexivity). rewrite render_all_one.
  rewrite render_param by (vm_compute; reflexivity). unfold jira_macro, macro_begin, parameter, macro_end. rewrite <- !app_assoc.
  done.
Qed.

Section inline_phrases.
Variable f : text → result UnsupportedError text.
Hypothesis Hf : ∀ t out, f t = Ok out → phrases out.

Lemma emphasis_phrases s delim tag out n : tag ∈ ["strong"; "em"; "s"] → emphasis f s delim tag = Ok (Some (out, n)) → phrases out.
Proof.
  intros Ht. unfold emphasis. destruct (index _ delim) as [[|end_]|]; [done| |done]. destruct (_ || _); [done|].
  destruct (f _) as [o|] eqn:Ho; [|done]. intros <-%ok_inj%(inj Some)%pair_fst.
  replace (txt "<" ++ txt tag ++ txt ">" ++ o ++ txt "</" ++ txt tag ++ txt ">") with (tag_open (txt tag) ++ o ++ tag_close (txt tag))
    by (unfold tag_open, tag_close; by rewrite <- !app_assoc).
  apply phrases_elem; [set_solver|by eapply Hf].
Qed.

Lemma anchor_phrases url out : phrases out → phrases (txt "<a" ++ attribute "href" (escapeAttr url) ++ txt ">" ++ out ++ txt "</a>").
Proof.
  intros (ns & Hn & ->). exists [Elem (txt "a") [("href", url)] ns]. split; [by repeat constructor|].
  rewrite render_all_one, render_Elem, attrs_one.
  change (txt "</a>") with (txt "</" ++ txt "a" ++ txt ">"). done.
Qed.

(** The page attributes, and a body that is absent or one element. *)
Lemma page_phrases attrs rendered body ns : map fst attrs ∈ [["ri:content-title"]; ["ri:content-title"; "ri:space-key"]] →
  (attrs ≫= render_attr) = rendered → Forall phrase ns → (body = [] ∨ body = txt "<ac:link-body>" ++ render_all ns ++ txt "</ac:link-body>") →
  phrases (txt "<ac:link><ri:page" ++ rendered ++ txt "/>" ++ body ++ txt "</ac:link>").
Proof.
  intros Ha <- Hn Hb. set (tail := match body with [] => [] | _ => [elem "ac:link-body" ns] end).
  exists [elem "ac:link" (Empty (txt "ri:page") attrs :: tail)]. split.
  - apply Forall_singleton. apply (ph_page attrs ns); [done..|]. unfold tail. destruct body; set_solver.
  - assert (render_all tail = body) as Ht.
    { unfold tail. destruct body as [|c body]; [done|]. destruct Hb as [|Hb]; [done|]. rewrite Hb.
      by rewrite render_all_one, render_elem. }
    rewrite render_all_one, render_elem, render_all_cons, Ht, render_Empty. unfold tag_open, tag_close.
    change (txt "<ac:link><ri:page") with ((txt "<" ++ txt "ac:link" ++ txt ">") ++ txt "<" ++ txt "ri:page").
    change (txt "</ac:link>") with (txt "</" ++ txt "ac:link" ++ txt ">"). by rewrite <- !app_assoc.
Qed.

Lemma link_target_phrases text_ url out : link_target f text_ url = Ok out → phrases out.
Proof.
  unfold link_target. destruct (_ || _); [|destruct (has_prefix url (txt "jira:"))].
  - destruct (f text_) as [o|] eqn:Ho; [|done]. intros <-%ok_inj. apply anchor_phrases. by eapply Hf.
  - destruct (_ || _); [done|]. intros <-%ok_inj. apply jira_macro_phrases.
  - destruct (has_prefix url _); [|done]. destruct (page_target _ url) as [[space title]|]; [|done]. cbn [rbind].
    set (body := if eqt text_ title then _ else _). destruct body as [b|] eqn:Hb; [|done]. intros <-%ok_inj.
    assert (∃ ns, Forall phrase ns ∧ (b = [] ∨ b = txt "<ac:link-body>" ++ render_all ns ++ txt "</ac:link-body>")) as (ns & Hn & Hbody).
    { unfold body in Hb. destruct (eqt text_ title); [apply ok_inj in Hb as <-; exists []; split; [constructor|by left]|].
      destruct (f text_) as [o|] eqn:Ho; [|done]. apply ok_inj in Hb as <-. destruct (Hf _ _ Ho) as (ns & Hn & ->). exists ns. split; [done|by right]. }
    destruct (eqt space []).
    + apply (page_phrases [("ri:content-title", title)] _ b ns); [left| |done..]. by rewrite attrs_one, app_nil_r.
    + apply (page_phrases [("ri:content-title", title); ("ri:space-key", space)] _ b ns); [right; left| |done..].
      by rewrite attrs_two, !render_attr_eq.
Qed.

Lemma link_phrases s out n : link f s = Ok (Some (out, n)) → phrases out.
Proof.
  unfold link. destruct (markdownLinkLabelEnd s) as [closeBr|]; [|done]. destruct (s !! _) as [c|]; [|done]. destruct (negb _); [done|].
  destruct (destination_end _ _ _) as [end_|]; [|done]. destruct (link_target _ _ _) as [o|] eqn:Ho; [|done]. intros <-%ok_inj%(inj Some)%pair_fst.
  by eapply link_target_phrases.
Qed.
End inline_phrases.

Lemma inline_loop_phrases fuel before s out : inline_loop fuel before s = Ok out → phrases out.
Proof.
  revert before s out. induction fuel as [|fuel IH]; intros before s out H; [injection H as <-; apply phrases_nil|].
  destruct s as [|c s]; [injection H as <-; apply phrases_nil|]. cbn [inline_loop] in H.
  assert (∀ o n, phrases o → (let! rest := inline_loop fuel ((c :: s) !! pred n) (drop n (c :: s)) in Ok (o ++ rest)) = Ok out → phrases out) as Hemit.
  { clear H. intros o n Ho He. destruct (inline_loop fuel _ _) as [r|] eqn:Hr; cbn [rbind] in He; [|discriminate He]. apply ok_inj in He as <-. apply phrases_app; [done|by eapply IH]. }
  assert (∀ delim tag literal, tag ∈ ["strong"; "em"; "s"] → phrases literal →
    (let! m := emphasis (λ t, inline_loop fuel None t) (c :: s) delim tag in
     match m with
     | Some (o, n) => let! rest := inline_loop fuel ((c :: s) !! pred n) (drop n (c :: s)) in Ok (o ++ rest)
     | None => let! rest := inline_loop fuel ((c :: s) !! pred (length delim)) (drop (length delim) (c :: s)) in Ok (literal ++ rest)
     end) = Ok out → phrases out) as Hmark.
  { clear H. intros delim tag literal Ht Hl He. destruct (emphasis _ _ _ _) as [[[o n]|]|] eqn:Hm; cbn [rbind] in He; [| |discriminate He].
    - eapply Hemit; [|exact He]. eapply emphasis_phrases; [|exact Ht|exact Hm]. intros t o' Ht'. by eapply IH.
    - by eapply Hemit. }
  destruct (is_byte backtick c).
  { destruct (codeSpan _) as [[o n]|] eqn:Hc; eapply Hemit; [|exact H| |exact H]; [by eapply codeSpan_phrases|by apply phrases_plain]. }
  do 4 (match type of H with (if ?b then _ else _) = _ => destruct b; [discriminate H|] end).
  destruct (has_prefix (c :: s) (txt "[[")).
  { destruct (pageLink _) as [[o n]|] eqn:Hp; cbn [rbind] in H; [|discriminate H]. eapply Hemit; [|exact H]. by eapply pageLink_phrases. }
  destruct (is_byte "["%char c).
  { destruct (link _ _) as [[[o n]|]|] eqn:Hl; cbn [rbind] in H; [| |discriminate H]; (eapply Hemit; [|exact H]); [|by apply phrases_plain].
    eapply link_phrases; [|exact Hl]. intros t o' Ht'. by eapply IH. }
  destruct (_ || has_prefix (c :: s) (txt "__")).
  { destruct (is_byte "_"%char c && _); [eapply Hemit; [|exact H]; by apply phrases_plain|].
    eapply Hmark; [| |exact H]; [set_solver|apply phrases_text]. }
  destruct (has_prefix (c :: s) (txt "~~")); [eapply Hmark; [| |exact H]; [set_solver|by apply phrases_plain]|].
  destruct (is_byte "*"%char c || _).
  { destruct (is_byte "_"%char c && _); [eapply Hemit; [|exact H]; by apply phrases_plain|].
    eapply Hmark; [| |exact H]; [set_solver|apply phrases_text]. }
  destruct s as [|e s]; [eapply Hemit; [|exact H]; apply phrases_text|].
  destruct (is_byte backslash c && isEscapable e); (eapply Hemit; [|exact H]); apply phrases_text.
Qed.

Lemma inline_phrases s out : inline s = Ok out → phrases out.
Proof. apply inline_loop_phrases. Qed.

(** ** Fuel *)

Lemma emphasis_ext f g s delim tag : s ≠ [] → delim ≠ [] → (∀ t, (length t < length s)%nat → f t = g t) → emphasis f s delim tag = emphasis g s delim tag.
Proof.
  intros Hs Hd H. unfold emphasis. destruct (index _ delim) as [[|end_]|]; [done| |done]. destruct (_ || _); [done|]. rewrite H; [done|].
  rewrite length_take, length_drop. destruct s, delim; cbn [length]; (done || lia).
Qed.
Lemma emphasis_advance f s delim tag out n : emphasis f s delim tag = Ok (Some (out, n)) → (0 < n)%nat.
Proof.
  unfold emphasis. destruct (index _ delim) as [[|end_]|]; [done| |done]. destruct (_ || _); [done|].
  destruct (f _); cbn [rbind]; [|done]. intros [= _ <-]. lia.
Qed.

Lemma link_ext f g s : s ≠ [] → (∀ t, (length t < length s)%nat → f t = g t) → link f s = link g s.
Proof.
  intros Hs H. unfold link. destruct (markdownLinkLabelEnd s) as [closeBr|]; [|done]. destruct (s !! _); [|done]. destruct (negb _); [done|].
  destruct (destination_end _ _ _) as [end_|]; [|done]. f_equal. set (t := slice s 1 closeBr).
  assert (f t = g t) as Ht. { apply H. unfold t, slice. rewrite length_take, length_drop. destruct s; cbn [length]; (done || lia). }
  unfold link_target. by rewrite Ht.
Qed.
Lemma link_advance f s out n : link f s = Ok (Some (out, n)) → (0 < n)%nat.
Proof.
  unfold link. destruct (markdownLinkLabelEnd s); [|done]. destruct (s !! _); [|done]. destruct (negb _); [done|].
  destruct (destination_end _ _ _); [|done]. destruct (link_target _ _ _); cbn [rbind]; [|done]. intros [= _ <-]. lia.
Qed.

Lemma codeSpan_advance s out n : codeSpan s = Some (out, n) → (0 < n)%nat.
Proof.
  unfold codeSpan. set (open := if has_prefix s _ then 2%nat else 1%nat). assert (0 < open)%nat by (unfold open; destruct (has_prefix s _); lia).
  destruct (index _ _) as [e|]; [|done]. intros Hn%(inj Some). apply (f_equal snd) in Hn. cbn [snd] in Hn. lia.
Qed.

(** Fuel above the length of the text is never used up. *)
Lemma inline_fuel fuel fuel' before s : (length s ≤ fuel)%nat → (length s ≤ fuel')%nat → inline_loop fuel before s = inline_loop fuel' before s.
Proof.
  revert fuel' before s. induction fuel as [|fuel IH]; intros [|fuel'] before [|c s] Hf Hf'; simpl in Hf, Hf'; try lia; try done.
  assert (∀ o n, (0 < n)%nat → (let! rest := inline_loop fuel ((c :: s) !! pred n) (drop n (c :: s)) in Ok (o ++ rest)) =
    (let! rest := inline_loop fuel' ((c :: s) !! pred n) (drop n (c :: s)) in Ok (o ++ rest))) as Hemit.
  { intros o n Hn. rewrite (IH fuel'); [done| |]; rewrite length_drop; simpl; lia. }
  assert (∀ t, (length t < length (c :: s))%nat → inline_loop fuel None t = inline_loop fuel' None t) as Hin by (intros t Ht; apply IH; simpl in Ht; lia).
  assert (∀ delim tag literal, delim ≠ [] →
    (let! m := emphasis (λ t, inline_loop fuel None t) (c :: s) delim tag in
     match m with
     | Some (o, n) => let! rest := inline_loop fuel ((c :: s) !! pred n) (drop n (c :: s)) in Ok (o ++ rest)
     | None => let! rest := inline_loop fuel ((c :: s) !! pred (length delim)) (drop (length delim) (c :: s)) in Ok (literal ++ rest)
     end) =
    (let! m := emphasis (λ t, inline_loop fuel' None t) (c :: s) delim tag in
     match m with
     | Some (o, n) => let! rest := inline_loop fuel' ((c :: s) !! pred n) (drop n (c :: s)) in Ok (o ++ rest)
     | None => let! rest := inline_loop fuel' ((c :: s) !! pred (length delim)) (drop (length delim) (c :: s)) in Ok (literal ++ rest)
     end)) as Hmark.
  { intros delim tag literal Hd. rewrite (emphasis_ext _ (λ t, inline_loop fuel' None t)) by done.
    destruct (emphasis _ _ delim tag) as [[[o n]|]|] eqn:Hm; cbn [rbind]; [apply Hemit; by eapply emphasis_advance| |done].
    apply Hemit. destruct delim; simpl; (done || lia). }
  cbn [inline_loop]. destruct (is_byte backtick c).
  { destruct (codeSpan _) as [[o n]|] eqn:Hc; apply Hemit; [by eapply codeSpan_advance|lia]. }
  do 4 (match goal with |- (if ?b then _ else _) = _ => destruct b; [done|] end).
  destruct (has_prefix (c :: s) (txt "[[")).
  { destruct (pageLink _) as [[o n]|] eqn:Hp; cbn [rbind]; [|done]. apply Hemit. revert Hp. unfold pageLink. destruct (index _ _); [|done].
    destruct (eqt _ _); [done|]. intros [= _ <-]. lia. }
  destruct (is_byte "["%char c).
  { rewrite (link_ext _ (λ t, inline_loop fuel' None t)) by done. destruct (link _ _) as [[[o n]|]|] eqn:Hl; cbn [rbind]; [| |done]; apply Hemit; [|lia].
    by eapply link_advance. }
  destruct (_ || has_prefix (c :: s) (txt "__")).
  { destruct (is_byte "_"%char c && _); [apply Hemit; lia|]. by apply Hmark. }
  destruct (has_prefix (c :: s) (txt "~~")); [by apply Hmark|].
  destruct (is_byte "*"%char c || _).
  { destruct (is_byte "_"%char c && _); [apply Hemit; lia|]. by apply Hmark. }
  destruct s as [|e s]; [apply Hemit; lia|]. destruct (is_byte backslash c && isEscapable e); apply Hemit; lia.
Qed.

(** ** CDATA sections *)

Lemma contains_cons c s p : contains (c :: s) p = has_prefix (c :: s) p || contains s p.
Proof.
  unfold contains. cbn [index]. destruct (has_prefix (c :: s) p); [done|]. cbn [orb]. apply bool_decide_ext.
  destruct (index s p); cbn; split; intros [x Hx]; (done || by eexists).
Qed.

Definition cdata_end : text := txt "]]>".

(** The pieces an escaped body is split into. *)
Lemma cdata_pieces fuel s : (length s ≤ fuel)%nat → ∃ p ps, concat (p :: ps) = s ∧ Forall (λ p, contains p cdata_end = false) (p :: ps) ∧
  replace_fuel fuel s cdata_end (txt "]]]]><![CDATA[>") = p ++ concat (map (λ q, txt "]]><![CDATA[" ++ q) ps).
Proof.
  revert s. induction fuel as [|fuel IH]; intros s Hf.
  { destruct s; [|simpl in Hf; lia]. exists [], []. split_and!; [done|by repeat constructor|done]. }
  destruct s as [|c s]; [exists [], []; split_and!; [done|by repeat constructor|done]|]. cbn [replace_fuel].
  destruct (has_prefix (c :: s) cdata_end) eqn:Hp.
  - apply has_prefix_spec in Hp as [r Hr]. rewrite Hr in *. apply (f_equal length) in Hr. rewrite length_app in Hr. simpl in Hr, Hf.
    destruct (IH r ltac:(lia)) as (p & ps & Hc & Hn & He). exists (txt "]]"), ((">"%char :: p) :: ps). split_and!.
    + cbn [concat] in *. by rewrite <- Hc.
    + apply Forall_cons in Hn as [Hn Hns]. rewrite !Forall_cons. split; [done|]. split; [|done]. rewrite contains_cons, Hn. apply orb_false_iff. split; [|done].
      apply not_true_iff_false. rewrite has_prefix_spec. by intros [x [=]].
    + rewrite drop_app_length by done. rewrite He. cbn [map concat]. by rewrite <- !app_assoc.
  - simpl in Hf. destruct (IH s ltac:(lia)) as (p & ps & Hc & Hn & He). exists (c :: p), ps. split_and!.
    + cbn [concat] in *. simpl. by f_equal.
    + apply Forall_cons in Hn as [Hn Hns]. constructor; [|done]. rewrite contains_cons, Hn. apply orb_false_iff. split; [|done].
      apply not_true_iff_false. intros [r Hr]%has_prefix_spec. apply not_true_iff_false in Hp. apply Hp, has_prefix_spec.
      exists (r ++ concat ps). rewrite <- Hc. cbn [concat]. change (c :: p ++ concat ps) with ((c :: p) ++ concat ps). by rewrite Hr, <- app_assoc.
    + by rewrite He.
Qed.

Lemma cdata_sections s : ∃ pieces, Forall (λ p, contains p cdata_end = false) pieces ∧ concat pieces = s ∧
  render_all (map CData pieces) = txt "<![CDATA[" ++ cdataEscape s ++ txt "]]>".
Proof.
  destruct (cdata_pieces (length s) s (le_n _)) as (p & ps & Hc & Hn & He). exists (p :: ps). split_and!; [done..|].
  unfold cdataEscape, replace_all. change (txt "]]>") with cdata_end at 1. rewrite He. clear. revert p. induction ps as [|q ps IH]; intros p.
  - cbn [map concat]. rewrite render_all_one, app_nil_r. done.
  - cbn [map]. rewrite render_all_cons. cbn [map] in IH. rewrite IH. cbn [render map concat]. rewrite <- !app_assoc. do 2 f_equal.
Qed.

(** ** Blocks are documents *)

(** The text serialises one node that satisfies [P], or a list of such nodes. *)
Definition one (P : node → Prop) (out : text) : Prop := ∃ n, P n ∧ out = render n.
Definition many (P : node → Prop) (out : text) : Prop := ∃ ns, Forall P ns ∧ out = render_all ns.

Lemma many_concat P outs : Forall (one P) outs → ∃ ns, length ns = length outs ∧ Forall P ns ∧ concat outs = render_all ns.
Proof.
  induction 1 as [|out outs (n & Hn & ->) _ (ns & Hl & Hns & IH)]; [by exists []|]. exists (n :: ns). split_and!; [simpl; by f_equal|by constructor|].
  cbn [concat]. rewrite IH. by rewrite render_all_cons.
Qed.

Lemma map_result_all {A} (f : A → result UnsupportedError text) (P : text → Prop) l outs :
  (∀ x out, f x = Ok out → P out) → map_result f l = Ok outs → length outs = length l ∧ Forall P outs.
Proof. intros H Hm%map_result_ok. induction Hm as [|x y l outs Hx _ [IHl IH]]; [done|]. split; [simpl; by f_equal|]. constructor; [by eapply H|done]. Qed.

Lemma join_phrases parts : Forall phrases parts → phrases (join (txt " ") parts).
Proof.
  induction 1 as [|p parts Hp _ IH]; [apply phrases_nil|]. destruct parts as [|q parts]; [done|].
  change (join (txt " ") (p :: q :: parts)) with (p ++ txt " " ++ join (txt " ") (q :: parts)).
  apply phrases_app; [done|]. apply phrases_app; [by apply phrases_plain|done].
Qed.

Lemma paragraph_line_phrases line out : paragraph_line line = Ok out → phrases out.
Proof.
  unfold paragraph_line. destruct (UnescapeMarkdownBlockCollision line) as [[original []]|]; [done| | |apply inline_phrases].
  - destruct (inline _) as [rest|] eqn:Hr; cbn [rbind]; [|done]. intros <-%ok_inj. apply phrases_app; [apply phrases_text|by eapply inline_phrases].
  - intros <-%ok_inj. apply phrases_text.
Qed.

(** An element around phrases. *)
Lemma one_elem (P : node → Prop) tag out : (∀ ns, Forall phrase ns → P (elem tag ns)) → phrases out → one P (tag_open (txt tag) ++ out ++ tag_close (txt tag)).
Proof. intros HP (ns & Hn & ->). exists (elem tag ns). split; [by apply HP|]. by rewrite render_elem. Qed.

Lemma convertParagraph_block lines out : convertParagraph lines = Ok out → one block out.
Proof.
  unfold convertParagraph. destruct (map_result _ _) as [parts|] eqn:Hp; cbn [rbind]; [|done]. intros <-%ok_inj.
  apply (map_result_all _ phrases) in Hp as [_ Hp]; [|apply paragraph_line_phrases]. apply (one_elem block "p"); [by constructor|by apply join_phrases].
Qed.

Lemma convertHeading_block line lines out : is_Some (heading_parts line) → convertHeading (line :: lines) = Ok out → one block out.
Proof.
  intros [[level content] Hh]. unfold convertHeading. destruct lines as [|l lines]; [|done]. rewrite Hh.
  destruct (inline content) as [body|] eqn:Hb; cbn [rbind]; [|done]. intros <-%ok_inj. apply inline_phrases in Hb.
  assert (1 ≤ level ≤ 6)%nat as Hl.
  { revert Hh. unfold heading_parts. destruct (span _ line) as [hashes s]. destruct (span regex_space s) as [gap s']. destruct (_ && _) eqn:Hc; [|done].
    intros [= <- _]. bool_hyps. lia. }
  assert (∃ h, h ∈ ["h1"; "h2"; "h3"; "h4"; "h5"; "h6"] ∧ txt "h" ++ digit_byte level = txt h) as (h & Hin & ->).
  { assert (level = 1 ∨ level = 2 ∨ level = 3 ∨ level = 4 ∨ level = 5 ∨ level = 6)%nat as Hor by lia. clear -Hor.
    repeat destruct Hor as [->|Hor]; [exists "h1"|exists "h2"|exists "h3"|exists "h4"|exists "h5"|subst; exists "h6"]; (split; [set_solver|reflexivity]). }
  apply one_elem; [by constructor|done].
Qed.

(** A macro with at most one parameter, around the serialisation of some nodes. *)
Lemma render_params name value : escapeAttr (txt name) = txt name → render_all (params name value) = if eqt value [] then [] else parameter name value.
Proof. intros Hn. unfold params. destruct (eqt value []); [done|]. by rewrite render_all_one, render_param. Qed.

Lemma convertFence_macro line0 lines out : convertFence (line0 :: lines) = Ok out →
  ∃ run info pieces, ParseMarkdownFenceOpen line0 = Some (run, info) ∧
    concat pieces = fence_body (slice (line0 :: lines) 1 (length lines)) ∧ Forall (λ p, contains p cdata_end = false) pieces ∧
    out = render (macro "code" (params "language" (trim_space info) ++ [elem "ac:plain-text-body" (map CData pieces)])).
Proof.
  unfold convertFence. change (default [] (head (line0 :: lines))) with line0. destruct (ParseMarkdownFenceOpen line0) as [[run info]|]; [|done]. cbv zeta.
  match goal with |- (if ?b then _ else _) = _ → _ => destruct b; [done|] end.
  intros <-%ok_inj. cbn [length pred]. set (body := fence_body _). destruct (cdata_sections body) as (pieces & Hn & Hc & Hr).
  exists run, info, pieces. split_and!; [done..|]. rewrite render_macro by (vm_compute; reflexivity).
  rewrite render_all_app, render_params by (vm_compute; reflexivity). rewrite render_all_one, render_elem, Hr. unfold tag_open, tag_close.
  change (txt "<ac:plain-text-body><![CDATA[") with ((txt "<" ++ txt "ac:plain-text-body" ++ txt ">") ++ txt "<![CDATA[").
  change (txt "]]></ac:plain-text-body>") with (txt "]]>" ++ txt "</" ++ txt "ac:plain-text-body" ++ txt ">"). by rewrite <- !app_assoc.
Qed.

Lemma convertFence_block line0 lines out : convertFence (line0 :: lines) = Ok out → one block out.
Proof.
  intros (run & info & pieces & _ & _ & Hn & ->)%convertFence_macro. eexists. split; [|done]. constructor.
  rewrite Forall_map. eapply Forall_impl; [exact Hn|]. intros p Hp. by constructor.
Qed.

(** ** Tables *)

Lemma table_cell_one tag c out : table_cell (txt tag) c = Ok out → one (λ n, ∃ ns, Forall phrase ns ∧ n = elem tag ns) out.
Proof.
  unfold table_cell. destruct (inline c) as [cell|] eqn:Hc; cbn [rbind]; [|done]. intros <-%ok_inj. apply inline_phrases in Hc.
  apply one_elem; [|done]. intros ns Hn. by exists ns.
Qed.

Lemma cells_row tag l cells : map_result (table_cell (txt tag)) l = Ok cells →
  one (row_node tag (length l)) (tag_open (txt "tr") ++ concat cells ++ tag_close (txt "tr")).
Proof.
  intros Hm. destruct (map_result_all _ (one (λ n, ∃ ns, Forall phrase ns ∧ n = elem tag ns)) _ _ ltac:(apply table_cell_one) Hm) as [Hl Ha].
  destruct (many_concat _ _ Ha) as (ns & Hln & Hns & ->).
  assert (∃ kids, ns = map (elem tag) kids ∧ Forall (Forall phrase) kids) as (kids & -> & Hk).
  { clear -Hns. induction Hns as [|n ns (k & Hk & ->) _ (kids & -> & IH)]; [by exists []|]. exists (k :: kids). by rewrite Forall_cons. }
  exists (elem "tr" (map (elem tag) kids)). split; [|by rewrite render_elem]. constructor; [|done]. rewrite length_map in Hln. congruence.
Qed.

Lemma pad_length width cells : (length cells ≤ width)%nat → length (pad width cells) = width.
Proof. intros H. unfold pad. rewrite length_app, length_replicate. lia. Qed.

Lemma convertTable_block lines out : convertTable lines = Ok out → one block out.
Proof.
  unfold convertTable. destruct lines as [|line0 [|line1 rows]]; [done..|]. destruct (first_some _ _ _); [done|]. destruct (negb _); [done|].
  set (header := splitRow line0). destruct (negb _); [done|]. destruct (map_result _ header) as [heads|] eqn:Hh; cbn [rbind]; [|done].
  destruct (map_result _ rows) as [body|] eqn:Hb; cbn [rbind]; [|done]. intros <-%ok_inj. apply (cells_row "th") in Hh as (h & Hhn & Hhr).
  apply (map_result_all _ (one (row_node "td" (length header)))) in Hb as [_ Hb].
  - destruct (many_concat _ _ Hb) as (rs & _ & Hrs & ->). exists (elem "table" [elem "tbody" (h :: rs)]). split; [by econstructor|].
    rewrite render_elem, render_all_one, render_elem, render_all_cons, <- Hhr. unfold tag_open, tag_close.
    change (txt "<table><tbody><tr>") with ((txt "<" ++ txt "table" ++ txt ">") ++ (txt "<" ++ txt "tbody" ++ txt ">") ++ (txt "<" ++ txt "tr" ++ txt ">")).
    change (txt "</tbody></table>") with ((txt "</" ++ txt "tbody" ++ txt ">") ++ (txt "</" ++ txt "table" ++ txt ">")).
    change (txt "</tr>") with (txt "</" ++ txt "tr" ++ txt ">"). by rewrite <- !app_assoc.
  - intros l o. unfold table_row. destruct (_ <? _)%nat eqn:Hw; [done|]. bool_hyps.
    destruct (map_result (table_cell (txt "td")) (pad (length header) (splitRow l))) as [cells|] eqn:Hc; cbn [rbind]; [|done].
    intros <-%ok_inj. apply (cells_row "td") in Hc. by rewrite pad_length in Hc.
Qed.

(** ** Lists *)

(** Nothing, or one nested list. *)
Definition nested (P : node → Prop) (out : text) : Prop := ∃ sub, Forall P sub ∧ (length sub ≤ 1)%nat ∧ out = render_all sub.

Lemma nested_nil P : nested P [].
Proof. exists []. split_and!; [done|simpl; lia|done]. Qed.
Lemma nested_one (P : node → Prop) n : P n → nested P (render n).
Proof. intros Hn. exists [n]. split_and!; [by constructor|simpl; lia|]. by rewrite render_all_one. Qed.

(** The nested list of an item, under the hypothesis on what the loop writes. *)
Lemma list_loop_entries fuel items level kind out rest : list_loop fuel items level kind = Ok (out, rest) → many list_entry out.
Proof.
  revert items level kind out rest. induction fuel as [|fuel IH]; intros items level kind out rest H; cbn [list_loop] in H.
  { injection H as <- _. by exists []. }
  destruct items as [|it items]; [injection H as <- _; by exists []|].
  destruct (indent it <? level)%nat; [injection H as <- _; by exists []|]. destruct (level <? indent it)%nat; [discriminate H|].
  destruct (negb _); [discriminate H|]. destruct (inline (text_ it)) as [o|] eqn:Ho; cbn [rbind] in H; [|discriminate H].
  match type of H with rbind ?m _ = _ => destruct m as [[sub items2]|] eqn:Hs; cbn [rbind fst snd] in H; [|discriminate H] end.
  destruct (list_loop fuel items2 level kind) as [[more items3]|] eqn:Hm; cbn [rbind fst snd] in H; [|discriminate H]. apply ok_inj, pair_fst in H.
  apply IH in Hm as (es & Hes & ->). apply inline_phrases in Ho as (ns & Hns & ->).
  assert (nested list_node sub) as (sn & Hsn & Hl & ->).
  { destruct items as [|it' items]; [injection Hs as <- _; apply nested_nil|].
    destruct (level <? indent it')%nat; [|injection Hs as <- _; apply nested_nil].
    destruct (list_loop fuel _ (indent it') _) as [[s2 r2]|] eqn:H2; cbn [rbind fst snd] in Hs; [|discriminate Hs].
    apply ok_inj, pair_fst in Hs as <-. apply IH in H2 as (fs & Hfs & ->).
    destruct (ordered it'); rewrite <- render_elem; apply nested_one; constructor; (set_solver || done). }
  exists (elem "li" (ns ++ sn) :: es). split; [constructor; [by constructor|done]|]. subst out.
  rewrite render_all_cons, render_elem, render_all_app. unfold tag_open, tag_close.
  change (txt "<li>") with (txt "<" ++ txt "li" ++ txt ">"). change (txt "</li>") with (txt "</" ++ txt "li" ++ txt ">"). by rewrite <- !app_assoc.
Qed.

Lemma task_loop_entries fuel items level out rest : task_loop fuel items level = Ok (out, rest) → many task_entry out.
Proof.
  revert items level out rest. induction fuel as [|fuel IH]; intros items level out rest H; cbn [task_loop] in H.
  { injection H as <- _. by exists []. }
  destruct items as [|it items]; [injection H as <- _; by exists []|].
  destruct (indent it <? level)%nat; [injection H as <- _; by exists []|]. destruct (level <? indent it)%nat; [discriminate H|].
  destruct (inline (text_ it)) as [o|] eqn:Ho; cbn [rbind] in H; [|discriminate H].
  match type of H with rbind ?m _ = _ => destruct m as [[sub items2]|] eqn:Hs; cbn [rbind fst snd] in H; [|discriminate H] end.
  destruct (task_loop fuel items2 level) as [[more items3]|] eqn:Hm; cbn [rbind fst snd] in H; [|discriminate H]. apply ok_inj, pair_fst in H.
  apply IH in Hm as (es & Hes & ->). apply inline_phrases in Ho as (ns & Hns & ->).
  assert (nested task_node sub) as (sn & Hsn & Hl & ->).
  { destruct items as [|it' items]; [injection Hs as <- _; apply nested_nil|].
    destruct (level <? indent it')%nat; [|injection Hs as <- _; apply nested_nil].
    destruct (task_loop fuel _ (indent it')) as [[s2 r2]|] eqn:H2; cbn [rbind fst snd] in Hs; [|discriminate Hs].
    apply ok_inj, pair_fst in Hs as <-. apply IH in H2 as (fs & Hfs & ->).
    change (txt "<ac:task-list>") with (tag_open (txt "ac:task-list")). change (txt "</ac:task-list>") with (tag_close (txt "ac:task-list")).
    rewrite <- render_elem. apply nested_one. by constructor. }
  set (status := if done_ it then "complete" else "incomplete").
  exists (elem "ac:task" [elem "ac:task-status" [Text (txt status)]; elem "ac:task-body" (ns ++ sn)] :: es).
  split; [constructor; [constructor; [unfold status; destruct (done_ it); set_solver|done..]|done]|]. subst out.
  rewrite render_all_cons, render_elem, render_all_cons, render_elem, !render_all_one, render_elem, render_all_app. unfold tag_open, tag_close.
  assert (render (Text (txt status)) = if done_ it then txt "complete" else txt "incomplete") as -> by (unfold status; by destruct (done_ it)).
  change (txt "<ac:task><ac:task-status>") with ((txt "<" ++ txt "ac:task" ++ txt ">") ++ (txt "<" ++ txt "ac:task-status" ++ txt ">")).
  change (txt "</ac:task-status><ac:task-body>") with ((txt "</" ++ txt "ac:task-status" ++ txt ">") ++ (txt "<" ++ txt "ac:task-body" ++ txt ">")).
  change (txt "</ac:task-body></ac:task>") with ((txt "</" ++ txt "ac:task-body" ++ txt ">") ++ (txt "</" ++ txt "ac:task" ++ txt ">")). by rewrite <- !app_assoc.
Qed.

Lemma convertList_block lines out : lines ≠ [] → convertList lines = Ok out → one block out.
Proof.
  unfold convertList. intros Hne. destruct (map_result parse_item lines) as [items|] eqn:Hi; cbn [rbind]; [|done].
  apply map_result_ok in Hi. apply Forall2_length in Hi. destruct items as [|it items]; [by destruct lines|].
  destruct (first_some _ _ _); [done|]. destruct (task it).
  - cbn [buildTaskList]. destruct (task_loop _ _ _) as [[sub rest]|] eqn:H; cbn [rbind fst snd]; [|done]. destruct rest; [|done]. intros <-%ok_inj.
    apply task_loop_entries in H as (es & Hes & ->). exists (elem "ac:task-list" es). split; [by constructor; constructor|]. by rewrite render_elem.
  - cbn [buildList]. destruct (list_loop _ _ _ _) as [[sub rest]|] eqn:H; cbn [rbind fst snd]; [|done]. destruct rest; [|done]. intros <-%ok_inj.
    apply list_loop_entries in H as (es & Hes & ->).
    destruct (ordered it); rewrite <- render_elem; (eexists; split; [|done]); constructor; constructor; (set_solver || done).
Qed.

(** ** Quotations *)

Lemma unquoted_shorter l o : unquoted l = Ok o → (length o < length l)%nat.
Proof.
  unfold unquoted. set (t := trim_space l). pose proof (trim_space_length l) as Hl. fold t in Hl. destruct (has_prefix t (txt ">")) eqn:Hp; [|done].
  intros <-%ok_inj. assert (trim_prefix t (txt ">") = drop 1 t) as -> by (unfold trim_prefix; by rewrite Hp).
  pose proof (trim_prefix_length (drop 1 t) (txt " ")) as Hle. apply has_prefix_spec in Hp as [r Hr]. rewrite Hr in Hl, Hle |- *.
  cbn [txt app] in *. change (drop 1 (txt ">" ++ r)) with (drop 0 r) in *. rewrite drop_0 in *. rewrite length_app in Hl.
  change (length (txt ">")) with 1%nat in Hl. lia.
Qed.

Lemma unquoted_weight lines inner : lines ≠ [] → map_result unquoted lines = Ok inner → (0 < weight inner < weight lines)%nat.
Proof.
  intros Hn Hm%map_result_ok. assert (weight inner + length lines ≤ weight lines)%nat as H.
  { clear Hn. induction Hm as [|l o lines inner Ho _ IH]; [done|]. apply unquoted_shorter in Ho. simpl. lia. }
  destruct Hm; [done|]. simpl in *. lia.
Qed.

Section quotations.
Variable f : text → result UnsupportedError text.

Lemma convertInnerBlocks_many ls out : (∀ b o, b ∈ SplitBlocks (join_lines ls) → f b = Ok o → one block o) →
  convertInnerBlocks f ls = Ok out → many block out.
Proof.
  intros Hf. unfold convertInnerBlocks. destruct (map_result _ _) as [parts|] eqn:Hp; cbn [rbind]; [|done]. intros H.
  assert (Forall (one block) parts) as Hall.
  { apply map_result_ok in Hp. clear H. revert Hp Hf. generalize (SplitBlocks (join_lines ls)). intros bs Hp Hf.
    induction Hp as [|b o bs parts Hb _ IH]; [constructor|]. constructor.
    - apply (Hf b); [by left|]. revert Hb. unfold inner_block. by destruct (has_prefix _ _).
    - apply IH. intros b' o' Hin. apply Hf. by right. }
  destruct (many_concat _ _ Hall) as (ns & _ & Hns & Hc). destruct parts; [done|]. apply ok_inj in H as <-. by exists ns.
Qed.

Lemma convertBlockquote_block lines out : lines ≠ [] → (∀ b o, (length b < pred (weight lines))%nat → f b = Ok o → one block o) →
  convertBlockquote f lines = Ok out → one block out.
Proof.
  intros Hne Hf. unfold convertBlockquote. destruct (map_result unquoted lines) as [inner|] eqn:Hi; cbn [rbind]; [|done].
  apply unquoted_weight in Hi; [|done].
  assert (∀ ls o, (weight ls ≤ weight inner)%nat → convertInnerBlocks f ls = Ok o → many block o) as Hin.
  { intros ls o Hw. apply convertInnerBlocks_many. intros b o' Hb. apply Hf. apply SplitBlocks_length in Hb. pose proof (join_lines_weight ls). lia. }
  destruct (admonition _) as [[name title]|] eqn:Ha.
  - unfold convertAdmonition. destruct (convertInnerBlocks f (drop 1 inner)) as [body|] eqn:Hb; cbn [rbind]; [|done]. intros <-%ok_inj.
    apply Hin in Hb as (bs & Hbs & ->); [|apply weight_drop].
    apply first_some_Some in Ha as (k & [label n] & Hk & Ha).
    assert (∃ nm, nm ∈ ["info"; "note"; "warning"; "tip"; "panel"] ∧ name = txt nm ∧ escapeAttr (txt nm) = txt nm) as (nm & Hnm & -> & He).
    { assert (name = txt n) as ->.
      { destruct (WikiScanner.after _ _) as [[|c s]|]; [by injection Ha| |done]. destruct (is_byte ":"%char c); [|done]. destruct (WikiScanner.rest_of_line _); [|done]. by injection Ha. }
      exists n. do 5 (destruct k as [|k]; [injection Hk as _ <-; split; [set_solver|split; [done|vm_compute; reflexivity]]|]). done. }
    exists (macro nm (params "title" title ++ [elem "ac:rich-text-body" bs])). split; [by constructor|].
    rewrite render_macro, render_all_app, render_params, render_all_one, render_elem by (done || (vm_compute; reflexivity)). unfold tag_open, tag_close.
    change (txt "<ac:rich-text-body>") with (txt "<" ++ txt "ac:rich-text-body" ++ txt ">").
    change (txt "</ac:rich-text-body>") with (txt "</" ++ txt "ac:rich-text-body" ++ txt ">"). by rewrite <- !app_assoc.
  - destruct (convertInnerBlocks f inner) as [body|] eqn:Hb; cbn [rbind]; [|done]. intros <-%ok_inj. apply Hin in Hb as (bs & Hbs & ->); [|done].
    exists (elem "blockquote" bs). split; [by constructor|]. by rewrite render_elem.
Qed.
End quotations.

(** ** Convert *)

Lemma convert_block fuel b out : (length b < fuel)%nat → convert fuel b = Ok out → one block out.
Proof.
  revert b out. induction fuel as [|fuel IH]; intros b out Hf; [lia|]. cbn [convert]. set (b' := trim_right_nl b).
  destruct (eqt _ []); [done|]. destruct (negb _); [done|]. destruct (first_control _ _); [done|].
  pose proof (trim_right_nl_length b) as Hle. fold b' in Hle. pose proof (split_lines_weight b') as Hw. pose proof (WikiScanner.split_lines_nonempty b') as Hne.
  destruct (split_lines b') as [|line0 lines]; [done|]. change (default [] (head (line0 :: lines))) with line0.
  destruct (bool_decide (is_Some (ParseMarkdownFenceOpen line0))); [apply convertFence_block|].
  destruct (bool_decide (is_Some (heading_parts line0))) eqn:Hh; [bool_hyps; by apply convertHeading_block|].
  destruct (bool_decide (MarkdownBlockType _ = _) && _); [intros <-%ok_inj; exists (Empty (txt "hr") []); split; [constructor|done]|].
  destruct (has_prefix _ (txt ">")).
  { apply convertBlockquote_block; [done|]. intros b0 o Hb. apply IH. simpl in *. lia. }
  destruct (has_prefix _ (txt "|")); [apply convertTable_block|]. destruct (bool_decide (is_Some (list_item line0))); [by apply convertList_block|apply convertParagraph_block].
Qed.

Lemma convertInnerBlocks_ext f g ls : (∀ b, b ∈ SplitBlocks (join_lines ls) → f b = g b) → convertInnerBlocks f ls = convertInnerBlocks g ls.
Proof.
  intros H. unfold convertInnerBlocks. rewrite (map_result_ext (inner_block f) (inner_block g)); [done|]. intros b Hb. unfold inner_block. by rewrite H.
Qed.

(** Enough fuel gives the result. *)
Lemma convert_fuel fuel fuel' b : (length b < fuel)%nat → (length b < fuel')%nat → convert fuel b = convert fuel' b.
Proof.
  revert fuel' b. induction fuel as [|fuel IH]; intros [|fuel'] b Hf Hf'; [lia..|]. cbn [convert]. set (b' := trim_right_nl b).
  destruct (eqt _ []); [done|]. destruct (negb _); [done|]. destruct (first_control _ _); [done|].
  pose proof (trim_right_nl_length b) as Hle. fold b' in Hle. pose proof (split_lines_weight b') as Hw. pose proof (WikiScanner.split_lines_nonempty b') as Hne.
  destruct (bool_decide _); [done|]. destruct (bool_decide _); [done|]. destruct (_ && _); [done|]. destruct (has_prefix _ (txt ">")); [|done].
  unfold convertBlockquote. destruct (map_result unquoted _) as [inner|] eqn:Hi; [|done]. cbn [rbind]. apply unquoted_weight in Hi; [|done].
  assert (∀ ls, (weight ls ≤ weight inner)%nat → convertInnerBlocks (convert fuel) ls = convertInnerBlocks (convert fuel') ls) as Hin.
  { intros ls Hls. apply convertInnerBlocks_ext. intros b0 Hb. apply SplitBlocks_length in Hb. pose proof (join_lines_weight ls). apply IH; lia. }
  destruct (admonition _) as [[name title]|]; [|by rewrite Hin]. unfold convertAdmonition. by rewrite Hin by apply weight_drop.
Qed.

(** ** Properties *)

(** C13: A document that converts is the serialisation of one storage-format tree
    per Markdown block, each in the fixed vocabulary of [block]: names and
    attributes come from the converter alone, every character of the source is
    escaped data, an attribute value or CDATA, tables are rectangular and lists
    nest properly.  There is no partial output: the blocks are exactly those of
    [SplitBlocks], and each converts on its own to its tree. *)
Theorem ConvertDocument_storage md out : ConvertDocument md = Ok out →
  ∃ ns, ns ≠ [] ∧ Forall block ns ∧ out = join [newline] (map render ns) ∧
    Forall2 (λ b n, Convert b = Ok (render n)) (SplitBlocks (trim_prefix md (encode_rune 65279))) ns.
Proof.
  unfold ConvertDocument. destruct (SplitBlocks _) as [|b bs]; [done|]. destruct (map_result Convert _) as [parts|] eqn:Hm; cbn [rbind]; [|done].
  intros <-%ok_inj. apply map_result_ok in Hm.
  assert (∃ ns, Forall block ns ∧ parts = map render ns ∧ Forall2 (λ b n, Convert b = Ok (render n)) (b :: bs) ns) as (ns & Hb & -> & H2).
  { induction Hm as [|x y l outs Hx _ (ns & Hns & -> & H2)]; [by exists []|]. pose proof Hx as (n & Hn & ->)%convert_block; [|lia].
    exists (n :: ns). split_and!; [by constructor|done|by constructor]. }
  exists ns. split_and!; [|done..]. by inversion H2.
Qed.

(** A fenced block that converts becomes one code macro whose CDATA sections
    concatenate to exactly the fenced lines with normalised line ends; no section
    contains the CDATA end marker, and the language is the info string. *)
Theorem Convert_code_exact b out run info : ParseMarkdownFenceOpen (default [] (head (split_lines (trim_right_nl b)))) = Some (run, info) →
  Convert b = Ok out →
  let lines := split_lines (trim_right_nl b) in
  ∃ pieces, concat pieces = fence_body (slice lines 1 (pred (length lines))) ∧ Forall (λ p, contains p (txt "]]>") = false) pieces ∧
    out = render (macro "code" (params "language" (trim_space info) ++ [elem "ac:plain-text-body" (map CData pieces)])).
Proof.
  intros Hp. unfold Convert. cbn [convert]. destruct (eqt _ []); [done|]. destruct (negb _); [done|]. destruct (first_control _ _); [done|].
  rewrite Hp. rewrite bool_decide_eq_true_2 by by eexists. destruct (split_lines (trim_right_nl b)) as [|line0 lines]; [done|].
  change (default [] (head (line0 :: lines))) with line0 in Hp. intros (run' & info' & pieces & Hp' & Hc & Hn & ->)%convertFence_macro.
  rewrite Hp in Hp'. injection Hp' as <- <-. by exists pieces.
Qed.

Module Demo.
Definition document : text := join_lines (map txt ["# A <b>"; "x & [y](/z)"; ""; "- i"; "  - j"; "```c"; "a]]>b"; "```"]).
Definition code : text := join_lines (map txt ["```c"; "a]]>b"; "```"]).

Lemma ConvertDocument_storage_witness : ∃ out ns, ConvertDocument document = Ok out ∧ ns ≠ [] ∧ out = join [newline] (map render ns).
Proof.
  eexists. destruct (ConvertDocument_storage document _ eq_refl) as (ns & Hn & _ & Ho & _). exists ns. split; [vm_compute; reflexivity|]. by split.
Defined.

Lemma Convert_code_exact_witness : ∃ out pieces, Convert code = Ok out ∧ concat pieces = txt "a]]>b" ∧ Forall (λ p, contains p (txt "]]>") = false) pieces.
Proof.
  assert (∃ out, Convert code = Ok out) as [out Ho] by (eexists; vm_compute; reflexivity).
  destruct (Convert_code_exact code out 3 (txt "c")) as (pieces & Hc & Hn & _); [vm_compute; reflexivity|exact Ho|].
  exists out, pieces. split; [exact Ho|]. split; [rewrite Hc; vm_compute; reflexivity|exact Hn].
Defined.
End Demo.
End MdCsf.
