(* ===== verification/MdWiki.v ===== *)
(** * Markdown to Jira wiki markup (internal/mdwiki)

    [ConvertBlock] turns one Markdown block into wiki markup, or names the
    construct outside its subset.  The theorems relate its output to the readers
    the program itself uses on wiki text: the block recognisers of [WikiScanner],
    and the row and list syntax the renderer parses. *)

From S2P Require Import Prelude GoText Encoding WikiScanner Json Markdown MdCsf.
Import GoText Markdown.
Import WikiScanner (span, is_byte, newline, cr, tab, backslash, backtick, blank, regex_space, not_newline, split_lines, join_lines, SplitBlocks,
  MarkdownBlockKind (..), MarkdownBlockType, ParseMarkdownFenceOpen, IsMarkdownFenceClose, UnescapeMarkdownBlockCollision,
  ParseHeading, ParseCodeOpen, ParseQuoteOpen, ParsePanelOpen, IsHorizontalRule, ParseListLine, IsListLine).
Import Json (quote, encode_rune).
Import MdCsf (destination_end, first_control, rune_name, fence_prefix, fence_body, unquoted, SplitTableRow, IsTableSeparator, digit_byte, pad).

Module MdWiki.
Local Open Scope Z_scope.
Local Open Scope atl_scope.
#[local] Existing Instance WikiScanner.MarkdownBlockKind_eq_dec.

(** ** Inline markup *)

Definition alwaysEscape : text := txt "{}[]!|".
Definition toggles : text := txt "*_-+^~?".

(** [escapeChar(s, i)], of the byte before [s[i:]] and of [s[i:]]. *)
Definition escapeChar (before : option ascii) (c : ascii) (next : option ascii) : text :=
  if in_set alwaysEscape c then [backslash; c]
  else if is_byte "#"%char c && bool_decide (before = None) then [backslash; c]
  else if in_set toggles c then
    let beforeOpen := match before with
                      | None => true
                      | Some b => is_byte " "%char b || is_byte tab b || is_byte "("%char b || is_byte quote b
                      end in
    let afterOpen := match next with Some n => negb (is_byte " "%char n) && negb (is_byte tab n) | None => false end in
    if beforeOpen && afterOpen then [backslash; c] else [c]
  else [c].

Definition escapeRun (s : text) : text := s ≫= λ c, [backslash; c].

Definition codeSpan (s : text) : result UnsupportedError (option (text * nat)) :=
  let open := if has_prefix s [backtick; backtick] then 2%nat else 1%nat in
  let delim := take open s in
  match index (drop open s) delim with
  | None => Ok None
  | Some end_ =>
      let content := trim_space (take end_ (drop open s)) in
      if contains_any content (txt "{}") then unsupported "code span containing braces" (clip content)
      else Ok (Some (txt "{{" ++ (content ≫= λ c, if in_set (alwaysEscape ++ toggles) c then [backslash; c] else [c]) ++ txt "}}",
                     (open + end_ + open)%nat))
  end.

(** [mentionRe]: a user name in which a letter occurs, in brackets. *)
Definition letter (c : ascii) : bool := in_rng 97 122 (byte_val c) || in_rng 65 90 (byte_val c).
Definition user_byte (c : ascii) : bool := letter c || Json.digit c || in_set (txt "@._-") c.
Definition mention (s : text) : option (text * nat) :=
  match WikiScanner.after (txt "[~") s with
  | None => None
  | Some s' =>
      let '(user, rest) := span user_byte s' in
      if existsb letter user && has_prefix rest (txt "]") then Some (txt "[~" ++ user ++ txt "]", (3 + length user)%nat) else None
  end.

Section inline.
(** [inline] on shorter texts. *)
Variable inline : text → result UnsupportedError text.

Definition emphasis (before : option ascii) (s delim wiki : text) : result UnsupportedError (option (text * nat)) :=
  let inner := drop (length delim) s in
  match index inner delim with
  | None | Some 0%nat => Ok None
  | Some end_ =>
      let content := take end_ inner in
      let n := (length delim + end_ + length delim)%nat in
      if eqt (trim_space content) [] || has_prefix content (txt " ") || has_suffix content (txt " ") then Ok None
      else if word_at before || word_at (s !! n) then unsupported "emphasis without word boundaries (wiki limitation)" (clip s)
      else let! out := inline content in Ok (Some (wiki ++ out ++ wiki, n))
  end.

Definition link_target (text_ url : text) : result UnsupportedError text :=
  if has_prefix url (txt "http://") || has_prefix url (txt "https://") || has_prefix url (txt "mailto:") then
    if contains_any url (txt "|]") then unsupported "link URL containing wiki delimiters" (clip url)
    else
      let! inner := inline text_ in
      if contains_any inner (txt "|]") then unsupported "link text containing wiki delimiters" (clip text_)
      else Ok (txt "[" ++ inner ++ txt "|" ++ url ++ txt "]")
  else if has_prefix url (txt "jira:") then
    let key := drop 5 url in
    if eqt key [] || negb (eqt text_ key) then unsupported "jira link with text differing from key" (clip url) else Ok key
  else unsupported "link scheme" (clip url).

Definition link (s : text) : result UnsupportedError (option (text * nat)) :=
  match index s (txt "]") with
  | None => Ok None
  | Some closeBr =>
      match s !! S closeBr with
      | Some c =>
          if negb (is_byte "("%char c) then Ok None
          else match destination_end (drop (closeBr + 2) s) (closeBr + 2) 0 with
               | None => Ok None
               | Some end_ => let! out := link_target (slice s 1 closeBr) (slice s (closeBr + 2) end_) in Ok (Some (out, S end_))
               end
      | None => Ok None
      end
  end.
End inline.

(** The loop of [inline], as in [MdCsf]: the byte before a position and the rest. *)
Fixpoint inline_loop (fuel : nat) (before : option ascii) (s : text) : result UnsupportedError text :=
  match fuel, s with
  | S fuel, c :: s' =>
      let inline t := inline_loop fuel None t in
      let emit (out : text) (n : nat) := let! rest := inline_loop fuel (s !! pred n) (drop n s) in Ok (out ++ rest) in
      let emit_or (m : option (text * nat)) (literal : text) (n : nat) :=
        match m with Some (out, n) => emit out n | None => emit literal n end in
      let mark (delim wiki : text) := let! m := emphasis inline before s delim wiki in emit_or m (escapeRun delim) (length delim) in
      if is_byte backtick c then let! m := codeSpan s in emit_or m [backtick] 1%nat
      else if has_prefix s (txt "⟦") then unsupported "opaque placeholder" (clip s)
      else if has_prefix s (txt "![") then unsupported "image" (clip s)
      else if has_prefix s (txt "[[") then unsupported "page link (Confluence-only)" (clip s)
      else if has_prefix s (txt "[~") then emit_or (mention s) (txt "\[~") 2%nat
      else if is_byte "["%char c then let! m := link inline s in emit_or m (txt "\[") 1%nat
      else if has_prefix s (txt "**") || has_prefix s (txt "__") then
        if is_byte "_"%char c && intraword before s 2 then emit (txt "__") 2%nat else mark (take 2 s) (txt "*")
      else if has_prefix s (txt "~~") then mark (txt "~~") (txt "-")
      else if is_byte "*"%char c || is_byte "_"%char c then
        if is_byte "_"%char c && intraword before s 1 then emit (txt "_") 1%nat else mark (take 1 s) (txt "_")
      else
        match s' with
        | e :: _ => if is_byte backslash c && isEscapable e then emit (escapeRun [e]) 2%nat else emit (escapeChar before c (Some e)) 1%nat
        | [] => emit (escapeChar before c None) 1%nat
        end
  | _, _ => Ok []
  end.
Definition inline (s : text) : result UnsupportedError text := inline_loop (length s) None s.

(** ** Blocks *)

Definition isThematicBreak (trimmed : text) : bool := eqt trimmed (txt "---") || eqt trimmed (txt "***") || eqt trimmed (txt "___").

Definition heading_line (level : Z) (body : text) : text := txt "h" ++ digit_byte (Z.to_nat level) ++ txt ". " ++ body.

(** [opts.HeadingOffset] is the only option. *)
Definition convertHeading (lines : list text) (offset : Z) : result UnsupportedError text :=
  match lines with
  | [line] =>
      match heading_parts line with
      | None => Ok [] (* not reached: the caller matched the line *)
      | Some (mdLevel, content) =>
          if (offset <? 0) || (5 <? offset) then unsupported "invalid heading offset" (Encoding.Encoding.json_int offset)
          else if (0 <? offset) && (mdLevel =? 6)%nat then unsupported "generated-view H6 without atl heading marker" line
          else
            let wikiLevel := Z.of_nat mdLevel - offset in
            if wikiLevel <? 1 then unsupported "heading level reserved for generated sections" line
            else let! body := inline content in Ok (heading_line wikiLevel body)
      end
  | _ :: second :: _ => unsupported "heading with continuation lines" second
  | [] => Ok []
  end.

(** [jiraHeadingSuffixRe]: the heading text and the level in the marker that ends
    the line.  The text is preceded and followed by white space; when it is empty
    two blanks are needed. *)
Definition marker_start : text := txt "<!-- atl:jira-heading level=".
Definition marked_heading (line : text) : option (text * Z) :=
  let body := reverse (snd (span regex_space (reverse line))) in
  let n := (length body - 33)%nat in
  match WikiScanner.after marker_start (drop n body), WikiScanner.after (txt "######") (take n body) with
  | Some (d :: end_), Some s =>
      if negb (eqt end_ (txt " -->")) || negb (in_rng 49 54 (byte_val d)) then None
      else
        let '(gap, s) := span regex_space s in
        let text_ := reverse (snd (span regex_space (reverse s))) in
        let level := byte_val d - 48 in
        if negb (forallb not_newline text_) then None
        else match s with
             | [] => if (2 <=? length gap)%nat then Some ([], level) else None
             | _ => if (0 <? length gap)%nat && (length text_ <? length s)%nat then Some (text_, level) else None
             end
  | _, _ => None
  end.

Definition convertMarkedHeading (lines : list text) (offset : Z) : result UnsupportedError text :=
  let line0 := default [] (head lines) in
  if offset <=? 0 then unsupported "atl heading marker outside a generated view" line0
  else if negb (length lines =? 1)%nat then unsupported "marked Jira heading with continuation lines" (join (txt " ") lines)
  else
    match marked_heading line0 with
    | None => unsupported "invalid marked Jira heading" line0
    | Some (content, level) =>
        if level + offset <? 6 then unsupported "unnecessary atl heading marker" line0
        else let! body := inline content in Ok (heading_line level body)
    end.

(** [blockish] and [wikiListLine]. *)
Definition blockish (s : text) : bool :=
  match s with
  | h :: d :: dot :: sp :: _ => is_byte "h"%char h && in_rng 49 54 (byte_val d) && is_byte "."%char dot && regex_space sp
  | _ => false
  end ||
  match WikiScanner.after (txt "bq.") s with Some (sp :: _) => regex_space sp | _ => false end ||
  (let '(dashes, rest) := span (is_byte "-"%char) s in (4 <=? length dashes)%nat && forallb regex_space rest).
Definition wikiListLine (s : text) : bool :=
  let '(markers, rest) := span (λ c, in_set (txt "*#-") c) s in
  (0 <? length markers)%nat && match rest with c :: _ => blank c | [] => false end.

(** [unescapeBlockLine]: [None] for a line it leaves to the normal conversion. *)
Definition unescapeBlockLine (ln : text) : option (result UnsupportedError text) :=
  match UnescapeMarkdownBlockCollision ln with
  | None | Some (_, MarkdownParagraph) => None
  | Some (original, MarkdownFence) =>
      let prefix := fence_prefix original in
      Some (let! conv := inline (drop prefix original) in Ok (take prefix original ++ conv))
  | Some (original, MarkdownThematicBreak) => Some (Ok original)
  end.

Definition paragraph_line (raw : text) : result UnsupportedError text :=
  match unescapeBlockLine raw with
  | Some out => out
  | None =>
      let! body := inline (trim_space raw) in
      if blockish body then unsupported "paragraph that Jira would parse as block markup" (clip body)
      else Ok (if wikiListLine body then backslash :: body else body)
  end.
Definition convertParagraph (lines : list text) : result UnsupportedError text :=
  let! out := map_result paragraph_line lines in Ok (join_lines out).

(** [codeLangRe]. *)
Definition lang_byte (c : ascii) : bool := letter c || Json.digit c || in_set (txt "#+.-") c.
Definition convertFence (lines : list text) : result UnsupportedError text :=
  let line0 := default [] (head lines) in
  match ParseMarkdownFenceOpen line0 with
  | None => unsupported "code fence info string" (trim_space line0)
  | Some (run, info) =>
      let lang := trim_space info in
      if negb (forallb lang_byte lang) then unsupported "code fence info string" (trim_space line0)
      else
        let last := pred (length lines) in
        if (last =? 0)%nat || negb (IsMarkdownFenceClose (default [] (lines !! last)) run) then unsupported "unterminated code fence" line0
        else
          let body := fence_body (slice lines 1 last) in
          if contains body (txt "{code}") then unsupported "code block containing {code}" (clip body)
          else
            let tag := if eqt lang [] then txt "{code}" else txt "{code:" ++ lang ++ txt "}" in
            Ok (tag ++ [newline] ++ body ++ [newline] ++ txt "{code}")
  end.

Section blocks.
(** [convertBlock] on the blocks inside a quotation. *)
Variable convertBlock : text → result UnsupportedError text.

Definition inner_block (blk : text) : result UnsupportedError text :=
  if has_prefix (trim_space blk) (txt ">") then unsupported "nested blockquote" blk
  else
    let! out := convertBlock blk in
    if contains out (txt "{quote}") then unsupported "quote content containing {quote}" (clip out) else Ok out.
Definition convertBlockquote (lines : list text) : result UnsupportedError text :=
  let! inner := map_result unquoted lines in
  let! parts := map_result inner_block (SplitBlocks (join_lines inner)) in
  match parts with
  | [] => unsupported "empty blockquote" []
  | _ => Ok (txt "{quote}" ++ [newline] ++ join [newline; newline] parts ++ [newline] ++ txt "{quote}")
  end.
End blocks.

(** ** Tables *)

Definition write_cell (sep c : text) : result UnsupportedError text :=
  let! out := inline c in
  if contains out (txt "|") then unsupported "table cell containing a pipe" (clip c)
  else Ok ((if eqt out [] then txt " " else out) ++ sep).
(** [writeRow]. *)
Definition write_row (sep : text) (cells : list text) : result UnsupportedError text :=
  let! out := map_result (write_cell sep) cells in Ok (sep ++ concat out).
Definition body_row (width : nat) (line : text) : result UnsupportedError text :=
  let cells := SplitTableRow line in
  if (width <? length cells)%nat then unsupported "table row wider than header" (clip line)
  else write_row (txt "|") (pad width cells).

Definition convertTable (lines : list text) : result UnsupportedError text :=
  match lines with
  | line0 :: line1 :: rows =>
      if negb (IsTableSeparator line1) then unsupported "table without separator row" (clip line0)
      else
        let header := SplitTableRow line0 in
        if negb (length (SplitTableRow line1) =? length header)%nat then unsupported "table separator width differs from header" (clip line1)
        else
          let! heads := write_row (txt "||") header in
          let! body := map_result (body_row (length header)) rows in
          Ok (join_lines (heads :: body))
  | _ => unsupported "table without separator row" (clip (default [] (head lines)))
  end.

(** ** Lists *)

Record listItem := { indent : nat; ordered : bool; text_ : text }.

Definition parse_item (l : text) : result UnsupportedError listItem :=
  match list_item l with
  | None => unsupported "list item continuation line" l
  | Some (n, o, t) =>
      if bool_decide (is_Some (task_box t)) then unsupported "task list (no Jira wiki equivalent)" t
      else Ok {| indent := n; ordered := o; text_ := t |}
  end.

Definition item_marker (it : listItem) : text := if ordered it then txt "#" else txt "*".

(** The loop of [buildList] over the items that are left: the lines written for the
    level and the items not consumed. *)
Fixpoint list_loop (fuel : nat) (items : list listItem) (level : nat) (kind : bool) (marker : text) :
    result UnsupportedError (list text * list listItem) :=
  match fuel, items with
  | S fuel, it :: items' =>
      if (indent it <? level)%nat then Ok ([], items)
      else if (level <? indent it)%nat then unsupported "list indentation jump" (text_ it)
      else if negb (Bool.eqb (ordered it) kind) then unsupported "mixed ordered and unordered siblings" (text_ it)
      else
        let! out := inline (text_ it) in
        let! sub := match items' with
                    | it' :: _ => if (level <? indent it')%nat then list_loop fuel items' (indent it') (ordered it') (marker ++ item_marker it')
                                  else Ok ([], items')
                    | [] => Ok ([], items')
                    end in
        let! more := list_loop fuel sub.2 level kind marker in
        Ok ((marker ++ txt " " ++ out) :: sub.1 ++ more.1, more.2)
  | _, _ => Ok ([], items)
  end.
Definition buildList (items : list listItem) : result UnsupportedError (list text * list listItem) :=
  match items with
  | it :: _ => list_loop (length items) items (indent it) (ordered it) (item_marker it)
  | [] => Ok ([], [])
  end.
Definition convertList (lines : list text) : result UnsupportedError text :=
  let! items := map_result parse_item lines in
  let! out := buildList items in
  match out.2 with
  | [] => Ok (join_lines out.1)
  | it :: _ => unsupported "list dedents below its first item" (text_ it)
  end.

(** ** Documents *)

(** Quotations nest; the fuel is above the length of the block. *)
Fixpoint convert (fuel : nat) (offset : Z) (block : text) : result UnsupportedError text :=
  let block := trim_right_nl block in
  if eqt (trim_space block) [] then unsupported "empty block" []
  else if negb (valid_utf8 block) then unsupported "invalid UTF-8" []
  else
    match first_control (length block) block with
    | Some r => unsupported "control character" (rune_name r)
    | None =>
        let lines := split_lines block in
        let line0 := default [] (head lines) in
        let first := trim_space line0 in
        let marked := bool_decide (is_Some (marked_heading line0)) in
        if contains block (txt "<!-- atl:jira-heading") && negb marked then unsupported "malformed reserved atl heading marker" block
        else if marked then convertMarkedHeading lines offset
        else if bool_decide (is_Some (ParseMarkdownFenceOpen line0)) then convertFence lines
        else if bool_decide (is_Some (heading_parts line0)) then convertHeading lines offset
        else if isThematicBreak first && (length lines =? 1)%nat then Ok (txt "----")
        else if has_prefix first (txt ">") then
          match fuel with
          | S fuel => convertBlockquote (convert fuel offset) lines
          | O => Ok []
          end
        else if has_prefix first (txt "|") then convertTable lines
        else if bool_decide (is_Some (list_item line0)) then convertList lines
        else convertParagraph lines
    end.
Definition convertBlock (block : text) (offset : Z) : result UnsupportedError text := convert (S (length block)) offset block.
Definition ConvertBlock (block : text) : result UnsupportedError text := convertBlock block 0.
Definition ConvertBlockWithOptions (block : text) (offset : Z) : result UnsupportedError text := convertBlock block offset.

Definition ConvertDocument (md : text) : result UnsupportedError text :=
  let md := trim_prefix md (encode_rune 65279) in
  match SplitBlocks md with
  | [] => unsupported "empty document" []
  | blocks => let! parts := map_result ConvertBlock blocks in Ok (join [newline; newline] parts)
  end.

Example wiki_convert_demo : let lines ls := join_lines (map txt ls) in
  ConvertBlock (lines ["- a"; "  1. *b*"; "     - c"; "- d"]) = Ok (lines ["* a"; "*# _b_"; "*#* c"; "* d"]) ∧
  ConvertBlock (lines ["| a | **b** |"; "|---|:-:|"; "| 1 |"]) = Ok (lines ["||a||*b*||"; "|1| |"]) ∧
  ConvertBlock (lines ["```go"; "a|b"; "```"]) = Ok (lines ["{code:go}"; "a|b"; "{code}"]) ∧
  ConvertBlock (lines ["> x"; ">"; "> - y"]) = Ok (lines ["{quote}"; "x"; ""; "* y"; "{quote}"]) ∧
  ConvertBlock (lines ["a {b} `c-d` [t](https://e/f) [~u.x] [~5] -x #1"]) = Ok (txt "a \{b\} {{c\-d}} [t|https://e/f] [~u.x] \[~5\] \-x #1") ∧
  ConvertBlock (lines ["- [ ] t"]) = unsupported "task list (no Jira wiki equivalent)" (txt "[ ] t") ∧
  ConvertBlockWithOptions (txt "###### T <!-- atl:jira-heading level=5 -->") 2 = Ok (txt "h5. T") ∧
  ConvertBlockWithOptions (txt "### T") 2 = Ok (txt "h1. T").
Proof. vm_compute. split_and!; reflexivity. Qed.

(** ** What the first bytes of a conversion can be *)

(** A text that starts like a line of prose for the wiki recognisers: not blank,
    no cell bar, and a brace only as a pair. *)
Definition prose_start (s : text) : Prop :=
  match s with
  | [] => True
  | c :: s' => blank c = false ∧ is_byte "|"%char c = false ∧ (is_byte "{"%char c = true → head s' = Some "{"%char)
  end.

Lemma prose_start_app a b : a ≠ [] → prose_start a → (a = ["{"%char] → False) → prose_start (a ++ b).
Proof.
  intros Hn Ha Hb. destruct a as [|c [|d a]]; [done| |exact Ha]. destruct Ha as (H1 & H2 & H3). cbn. split_and!; [done..|].
  intros Hc. destruct Hb. by apply bool_decide_eq_true in Hc as ->.
Qed.

Lemma codeSpan_start s out n : codeSpan s = Ok (Some (out, n)) → ∃ r, out = txt "{{" ++ r.
Proof.
  unfold codeSpan. destruct (index _ _) as [e|]; [|done]. destruct (contains_any _ _); [done|]. intros H. injection H as <- _.
  eexists. reflexivity.
Qed.

Lemma mention_start s out n : mention s = Some (out, n) → ∃ r, out = "["%char :: r.
Proof.
  unfold mention. destruct (WikiScanner.after _ s) as [s'|]; [|done]. destruct (span user_byte s') as [user rest]. destruct (_ && _); [|done].
  intros H. injection H as <- _. eexists. reflexivity.
Qed.

Lemma emphasis_start f before s delim wiki out n : emphasis f before s delim wiki = Ok (Some (out, n)) → ∃ r, out = wiki ++ r.
Proof.
  unfold emphasis. destruct (index _ delim) as [[|e]|]; [done| |done]. destruct (_ || _ || _); [done|]. destruct (word_at before || _); [done|].
  destruct (f _); cbn [rbind]; [|done]. intros H. injection H as <- _. by eexists.
Qed.

(** A link that is no issue key starts with a bracket. *)
Lemma link_start f s out n : contains s (txt "](jira:") = false → link f s = Ok (Some (out, n)) → ∃ r, out = "["%char :: r.
Proof.
  intros Hj. unfold link. destruct (index s (txt "]")) as [closeBr|] eqn:Hi; [|done]. destruct (s !! S closeBr) as [c|] eqn:Hc; [|done].
  destruct (negb (is_byte "("%char c)) eqn:Hp; [done|]. apply negb_false_iff, bool_decide_eq_true in Hp as ->.
  destruct (destination_end _ _ _) as [end_|]; [|done]. set (url := slice s (closeBr + 2) end_).
  destruct (link_target f _ url) as [o|] eqn:Ht; cbn [rbind]; [|done]. intros H. injection H as <- _. revert Ht. unfold link_target.
  destruct (_ || _ || _).
  { destruct (contains_any url _); [done|]. destruct (f _); cbn [rbind]; [|done]. destruct (contains_any _ _); [done|]. intros H. injection H as <-. by eexists. }
  destruct (has_prefix url (txt "jira:")) eqn:Hu; [|done]. exfalso. apply not_true_iff_false in Hj. apply Hj. clear Hj.
  apply index_spec in Hi as (Hb & Hl & _). apply has_prefix_spec in Hb as [r Hr]. apply (contains_at _ _ closeBr); [done|].
  rewrite <- (Nat.add_1_r closeBr), <- lookup_drop, Hr in Hc. destruct r as [|c r]; [done|]. injection Hc as ->.
  assert (drop (closeBr + 2) s = r) as Hd by (rewrite <- drop_drop, Hr; cbn; by rewrite drop_0).
  unfold url, slice in Hu. rewrite Hd in Hu. rewrite Hr. apply has_prefix_spec.
  destruct (has_prefix r (txt "jira:")) eqn:Hj; [|by rewrite (has_prefix_take_false _ _ _ Hj) in Hu].
  apply has_prefix_spec in Hj as [x ->]. by exists x.
Qed.

Lemma escapeChar_start before c next : escapeChar before c next = [backslash; c] ∨ (escapeChar before c next = [c] ∧ in_set alwaysEscape c = false).
Proof. unfold escapeChar. destruct (in_set alwaysEscape c) eqn:Ha; [by left|]. repeat case_goal; auto. Qed.

(** The first byte of a conversion that is not an issue link. *)
Lemma inline_start fuel before s out : (0 < fuel)%nat → contains s (txt "](jira:") = false → inline_loop fuel before s = Ok out →
  match s with c :: _ => blank c = false | [] => True end → prose_start out.
Proof.
  intros Hf Hj H Hb. destruct fuel as [|fuel]; [lia|]. destruct s as [|c s]; [by injection H as <-|]. cbn [inline_loop] in H.
  assert (∀ o n, o ≠ [] → prose_start o → (o = ["{"%char] → False) →
    (let! rest := inline_loop fuel ((c :: s) !! pred n) (drop n (c :: s)) in Ok (o ++ rest)) = Ok out → prose_start out) as Hemit.
  { clear H. intros o n Ho Hp Hne He. destruct (inline_loop fuel _ _) as [r|]; cbn [rbind] in He; [|discriminate He]. injection He as <-. by apply prose_start_app. }
  assert (∀ delim wiki, delim ≠ [] → (∃ w ws, wiki = w :: ws ∧ blank w = false ∧ is_byte "|"%char w = false ∧ is_byte "{"%char w = false) →
    (let! m := emphasis (λ t, inline_loop fuel None t) before (c :: s) delim wiki in
     match m with
     | Some (o, n) => let! rest := inline_loop fuel ((c :: s) !! pred n) (drop n (c :: s)) in Ok (o ++ rest)
     | None => let! rest := inline_loop fuel ((c :: s) !! pred (length delim)) (drop (length delim) (c :: s)) in Ok (escapeRun delim ++ rest)
     end) = Ok out → prose_start out) as Hmark.
  { clear H. intros delim wiki Hd (w & ws & -> & Hw1 & Hw2 & Hw3) He. destruct (emphasis _ _ _ _ _) as [[[o n]|]|] eqn:Hm; cbn [rbind] in He; [| |discriminate He].
    - apply emphasis_start in Hm as [r ->]. eapply Hemit; [| | |exact He]; [done| |by intros [= -> _]]. cbn. by rewrite Hw1, Hw2, Hw3.
    - eapply Hemit; [| | |exact He]; (destruct delim as [|d delim]; [done|]); [done| |by destruct delim]. by split_and!. }
  destruct (is_byte backtick c).
  { destruct (codeSpan _) as [[[o n]|]|] eqn:Hc; cbn [rbind] in H; [| |discriminate H]; (eapply Hemit; [| | |exact H]); [| | |done..].
    all: apply codeSpan_start in Hc as [r ->]; done. }
  do 3 (match type of H with (if ?b then _ else _) = _ => destruct b; [discriminate H|] end).
  destruct (has_prefix (c :: s) (txt "[~")).
  { destruct (mention _) as [[o n]|] eqn:Hm; (eapply Hemit; [| | |exact H]); [| | |done..]. all: apply mention_start in Hm as [r ->]; done. }
  destruct (is_byte "["%char c).
  { destruct (link _ _) as [[[o n]|]|] eqn:Hl; cbn [rbind] in H; [| |discriminate H]; (eapply Hemit; [| | |exact H]); [| | |done..].
    all: apply link_start in Hl as [r ->]; done. }
  destruct (has_prefix (c :: s) (txt "**") || _).
  { destruct (is_byte "_"%char c && _); [by eapply Hemit; [| | |exact H]|]. eapply Hmark; [| |exact H]; [done|by eexists _, _]. }
  destruct (has_prefix (c :: s) (txt "~~")); [eapply Hmark; [| |exact H]; [done|by eexists _, _]|].
  destruct (is_byte "*"%char c || _).
  { destruct (is_byte "_"%char c && _); [by eapply Hemit; [| | |exact H]|]. eapply Hmark; [| |exact H]; [done|by eexists _, _]. }
  assert (∀ next, prose_start (escapeChar before c next) ∧ (escapeChar before c next = ["{"%char] → False) ∧ escapeChar before c next ≠ []) as Hesc.
  { intros next. destruct (escapeChar_start before c next) as [->|[-> Ha]]; [done|].
    unfold in_set, alwaysEscape in Ha. cbn in Ha. bool_hyps. cbn. split_and!; [done|done| |by intros [= ->]|done]. intros Hc. congruence. }
  destruct s as [|e s]; [destruct (Hesc None) as (? & ? & ?); by eapply Hemit; [| | |exact H]|].
  destruct (is_byte backslash c && isEscapable e); [by eapply Hemit; [| | |exact H]|].
  destruct (Hesc (Some e)) as (? & ? & ?). by eapply Hemit; [| | |exact H].
Qed.

(** ** A converted line is one line *)

Notation line_text s := (forallb not_newline s = true).

Lemma escapeRun_line s : line_text s → line_text (escapeRun s).
Proof. apply forallb_bind. intros c Hc. cbn. by rewrite Hc. Qed.
Lemma escapeChar_line before c next : not_newline c = true → line_text (escapeChar before c next).
Proof. intros Hc. unfold escapeChar. repeat case_goal; cbn; by rewrite ?Hc. Qed.

Lemma codeSpan_line s out n : line_text s → codeSpan s = Ok (Some (out, n)) → line_text out.
Proof.
  intros Hs. unfold codeSpan. destruct (index _ _) as [e|]; [|done]. destruct (contains_any _ _); [done|]. intros H. injection H as <- _.
  cbn [forallb]. rewrite forallb_app. cbn. rewrite andb_true_r. apply forallb_bind; [|by apply forallb_trim, forallb_take, forallb_drop].
  intros c Hc. case_goal; cbn [forallb]; by rewrite Hc.
Qed.

Lemma span_fst p s : ∃ r, s = fst (span p s) ++ r.
Proof. exists (snd (span p s)). by rewrite WikiScanner.span_app. Qed.

Lemma mention_line s out n : line_text s → mention s = Some (out, n) → line_text out.
Proof.
  intros Hs. unfold mention, WikiScanner.after. destruct (has_prefix s _); [|done]. cbn [mbind option_bind]. 
  pose proof (WikiScanner.span_app user_byte (drop (length (txt "[~")) s)) as Happ. apply (forallb_drop _ (length (txt "[~"))) in Hs. rewrite <- Happ in Hs.
  destruct (span user_byte _) as [user rest]. cbn [fst snd] in Hs. destruct (_ && _); [|done]. intros H. injection H as <- _.
  rewrite forallb_app in Hs. bool_hyps. cbn. rewrite forallb_app. cbn. by rewrite andb_true_r.
Qed.

Section lines.
Variable f : text → result UnsupportedError text.
Hypothesis Hf : ∀ t out, line_text t → f t = Ok out → line_text out.

Lemma emphasis_line before s delim wiki out n : line_text s → line_text wiki → emphasis f before s delim wiki = Ok (Some (out, n)) → line_text out.
Proof.
  intros Hs Hw. unfold emphasis. destruct (index _ delim) as [[|e]|]; [done| |done]. destruct (_ || _ || _); [done|]. destruct (word_at before || _); [done|].
  destruct (f _) as [o|] eqn:Ho; cbn [rbind]; [|done]. intros H. injection H as <- _. rewrite !forallb_app, Hw, !andb_true_r. cbn.
  eapply Hf; [|exact Ho]. by apply forallb_take, forallb_drop.
Qed.

Lemma link_line s out n : line_text s → link f s = Ok (Some (out, n)) → line_text out.
Proof.
  intros Hs. unfold link. destruct (index s _) as [closeBr|]; [|done]. destruct (s !! S closeBr) as [c|]; [|done]. destruct (negb _); [done|].
  destruct (destination_end _ _ _) as [end_|]; [|done]. set (url := slice s (closeBr + 2) end_).
  assert (line_text url) as Hu by (by apply forallb_slice). destruct (link_target f _ url) as [o|] eqn:Ht; cbn [rbind]; [|done].
  intros H. injection H as <- _. revert Ht. unfold link_target. destruct (_ || _ || _).
  { destruct (contains_any url _); [done|]. destruct (f _) as [i|] eqn:Hi; cbn [rbind]; [|done]. destruct (contains_any _ _); [done|].
    intros H. injection H as <-. cbn. rewrite forallb_app. cbn. rewrite forallb_app, Hu. cbn. rewrite andb_true_r.
    eapply Hf; [|exact Hi]. by apply forallb_slice. }
  destruct (has_prefix url _); [|done]. destruct (_ || _); [done|]. intros H. injection H as <-. by apply (forallb_drop _ 5).
Qed.
End lines.

Lemma inline_line fuel before s out : line_text s → inline_loop fuel before s = Ok out → line_text out.
Proof.
  revert before s out. induction fuel as [|fuel IH]; intros before s out Hs H; [by injection H as <-|].
  destruct s as [|c s]; [by injection H as <-|]. cbn [inline_loop] in H.
  assert (∀ o n, line_text o → (let! rest := inline_loop fuel ((c :: s) !! pred n) (drop n (c :: s)) in Ok (o ++ rest)) = Ok out → line_text out) as Hemit.
  { clear H. intros o n Ho He. destruct (inline_loop fuel _ _) as [r|] eqn:Hr; cbn [rbind] in He; [|discriminate He]. injection He as <-.
    rewrite forallb_app, Ho. eapply IH; [|exact Hr]. by apply forallb_drop. }
  assert (∀ delim wiki, line_text delim → line_text wiki →
    (let! m := emphasis (λ t, inline_loop fuel None t) before (c :: s) delim wiki in
     match m with
     | Some (o, n) => let! rest := inline_loop fuel ((c :: s) !! pred n) (drop n (c :: s)) in Ok (o ++ rest)
     | None => let! rest := inline_loop fuel ((c :: s) !! pred (length delim)) (drop (length delim) (c :: s)) in Ok (escapeRun delim ++ rest)
     end) = Ok out → line_text out) as Hmark.
  { clear H. intros delim wiki Hd Hw He. destruct (emphasis _ _ _ _ _) as [[[o n]|]|] eqn:Hm; cbn [rbind] in He; [| |discriminate He].
    - eapply Hemit; [|exact He]. eapply emphasis_line; [|exact Hs|exact Hw|exact Hm]. intros t o' Ht Ho'. by eapply IH.
    - eapply Hemit; [|exact He]. by apply escapeRun_line. }
  assert (not_newline c = true) as Hc0 by (cbn in Hs; by bool_hyps).
  destruct (is_byte backtick c).
  { destruct (codeSpan _) as [[[o n]|]|] eqn:Hc; cbn [rbind] in H; [| |discriminate H]; (eapply Hemit; [|exact H]); [by eapply codeSpan_line|done]. }
  do 3 (match type of H with (if ?b then _ else _) = _ => destruct b; [discriminate H|] end).
  destruct (has_prefix (c :: s) (txt "[~")).
  { destruct (mention _) as [[o n]|] eqn:Hm; (eapply Hemit; [|exact H]); [by eapply mention_line|done]. }
  destruct (is_byte "["%char c).
  { destruct (link _ _) as [[[o n]|]|] eqn:Hl; cbn [rbind] in H; [| |discriminate H]; (eapply Hemit; [|exact H]); [|done].
    eapply link_line; [|exact Hs|exact Hl]. intros t o' Ht Ho'. by eapply IH. }
  pose proof (forallb_take _ 1 _ Hs) as H1. pose proof (forallb_take _ 2 _ Hs) as H2.
  destruct (has_prefix (c :: s) (txt "**") || _).
  { destruct (is_byte "_"%char c && _); [by eapply Hemit; [|exact H]|]. by eapply Hmark; [| |exact H]. }
  destruct (has_prefix (c :: s) (txt "~~")); [by eapply Hmark; [| |exact H]|].
  destruct (is_byte "*"%char c || _).
  { destruct (is_byte "_"%char c && _); [by eapply Hemit; [|exact H]|]. by eapply Hmark; [| |exact H]. }
  destruct s as [|e s]; [eapply Hemit; [|exact H]; by apply escapeChar_line|].
  destruct (is_byte backslash c && isEscapable e); (eapply Hemit; [|exact H]); [|by apply escapeChar_line].
  apply escapeRun_line. cbn [forallb] in *. bool_hyps. by rewrite andb_true_r.
Qed.

(** ** Paragraph lines *)

(** No recogniser of the wiki scanner takes the line for the start of a block. *)
Definition plain_line (l : text) : Prop :=
  ParseHeading l = None ∧ ParseCodeOpen l = None ∧ ParseQuoteOpen l = None ∧ ParsePanelOpen l = None ∧
  IsHorizontalRule l = false ∧ has_prefix l (txt "|") = false ∧ IsListLine l = false.

Lemma not_macro l name : (∀ r, l = "{"%char :: r → head r = Some "{"%char) → head (txt name) ≠ Some "{"%char → txt name ≠ [] →
  WikiScanner.after (txt "{" ++ txt name) l = None.
Proof.
  intros Hl Hn Hne. unfold WikiScanner.after. destruct (has_prefix l _) eqn:Hp; [|done]. apply has_prefix_spec in Hp as [r Hr]. cbn in Hr.
  specialize (Hl _ Hr). destruct (txt name); done.
Qed.

Lemma span_wider p q s a b : span p s = (a, b) → (∀ c, p c = true → q c = true) → (∀ c, head b = Some c → q c = false) → span q s = (a, b).
Proof.
  revert a. induction s as [|c s IH]; intros a H Hpq Hb; [by injection H as <- <-|]. cbn [span] in *. destruct (p c) eqn:Hp.
  - destruct (span p s) as [a' b'] eqn:Hs. injection H as <- <-. rewrite (Hpq c Hp). by rewrite (IH a').
  - injection H as <- <-. by rewrite (Hb c).
Qed.

Lemma span_none p c s : p c = false → span p (c :: s) = ([], c :: s).
Proof. intros Hp. cbn [span]. by rewrite Hp. Qed.

Lemma list_line_wiki c s : blank c = false → IsListLine (c :: s) = true → wikiListLine (c :: s) = true.
Proof.
  intros Hc H. unfold IsListLine in H. apply bool_decide_eq_true in H as [m Hm]. revert Hm. unfold ParseListLine. rewrite span_none by done.
  destruct (span (λ c, is_byte "*"%char c || is_byte "#"%char c) (c :: s)) as [markers rest] eqn:Hs. destruct (span blank rest) as [gap rest2] eqn:Hg.
  destruct ((0 <? length markers)%nat && (0 <? length gap)%nat) eqn:Hn; [|done]. intros _. bool_hyps. unfold wikiListLine.
  destruct rest as [|d rest]; [injection Hg as <- <-; simpl in *; lia|].
  destruct (blank d) eqn:Hd; [|rewrite span_none in Hg by done; injection Hg as <- <-; simpl in *; lia].
  rewrite (span_wider _ _ _ _ _ Hs).
  - by rewrite Hd, (proj2 (Nat.ltb_lt _ _)).
  - intros x Hx. unfold in_set. cbn. destruct (is_byte "*"%char x), (is_byte "#"%char x); done.
  - intros x [= <-]. unfold blank in Hd. apply orb_true_iff in Hd as [Hd|Hd]; apply bool_decide_eq_true in Hd as ->; done.
Qed.

Lemma heading_blockish l : ParseHeading l ≠ None → blockish l = true.
Proof.
  unfold ParseHeading, blockish. destruct l as [|h [|d [|dot s]]]; try done. destruct (_ && _ && _) eqn:Hh; [|done].
  destruct s as [|sp s]; [done|]. cbn [span]. destruct (blank sp) eqn:Hb; [|done]. intros _.
  assert (regex_space sp = true) as ->. { unfold blank in Hb. apply orb_true_iff in Hb as [Hb|Hb]; apply bool_decide_eq_true in Hb as ->; done. }
  done.
Qed.

Lemma rule_blockish l : IsHorizontalRule l = true → blockish l = true.
Proof.
  unfold IsHorizontalRule, blockish. destruct (span (is_byte "-"%char) l) as [dashes rest]. intros H. bool_hyps.
  apply orb_true_iff. right. apply andb_true_iff. split; [by apply Nat.leb_le|]. rewrite forallb_forall in *. intros x Hx. specialize (H0 x Hx).
  unfold blank in H0. apply orb_true_iff in H0 as [Hb|Hb]; apply bool_decide_eq_true in Hb as ->; done.
Qed.

Lemma prose_plain body : prose_start body → blockish body = false → plain_line (if wikiListLine body then backslash :: body else body).
Proof.
  intros Hp Hb. assert (∀ l, (∀ r, l = "{"%char :: r → head r = Some "{"%char) → ParseCodeOpen l = None ∧ ParseQuoteOpen l = None ∧ ParsePanelOpen l = None) as Hm.
  { intros l Hl. unfold ParseCodeOpen, ParseQuoteOpen, ParsePanelOpen. change (txt "{quote}") with (txt "{" ++ txt "quote}"). change (txt "{panel") with (txt "{" ++ txt "panel").
    rewrite !not_macro by done. done. }
  destruct body as [|c body]; [vm_compute; split_and!; reflexivity|]. destruct Hp as (Hc & Hbar & Hbrace). destruct (wikiListLine (c :: body)) eqn:Hw.
  - destruct (Hm (backslash :: c :: body)) as (? & ? & ?); [by intros r [=]|].
    unfold plain_line. split_and!; [by destruct body|done..| |]; [apply not_true_iff_false; rewrite has_prefix_spec; by intros [r [=]]|done].
  - destruct (Hm (c :: body)) as (? & ? & ?); [intros r [= -> ->]; by apply Hbrace|].
    unfold plain_line. split_and!; [|done..| | |].
    + destruct (ParseHeading _) eqn:Hh; [|done]. by rewrite heading_blockish in Hb by (by rewrite Hh).
    + apply not_true_iff_false. intros Hr%rule_blockish. congruence.
    + apply not_true_iff_false. rewrite has_prefix_spec. intros [r [= -> _]]. done.
    + apply not_true_iff_false. intros Hl%list_line_wiki; [congruence|done].
Qed.

(** A Markdown paragraph stays a paragraph.  If no line takes the reserved
    escape of block collisions and none holds an issue link, the converted text has
    one line per source line, and no recogniser of the wiki scanner (heading, list
    item, rule, table row, code, quote or panel macro) fires on any of them. *)
Theorem convertParagraph_stays lines out : lines ≠ [] → Forall (λ l, line_text l) lines →
  Forall (λ l, UnescapeMarkdownBlockCollision l = None ∧ contains (trim_space l) (txt "](jira:") = false) lines →
  convertParagraph lines = Ok out → length (split_lines out) = length lines ∧ Forall plain_line (split_lines out).
Proof.
  intros Hne Hl Hc. unfold convertParagraph. destruct (map_result paragraph_line lines) as [outs|] eqn:Hm; cbn [rbind]; [|done].
  intros [= <-]. apply map_result_ok in Hm.
  assert (Forall (λ o, line_text o ∧ plain_line o) outs) as Ho.
  { clear Hne. induction Hm as [|l o lines outs Hx _ IH]; [constructor|]. apply Forall_cons in Hl as [Hl Hls]. apply Forall_cons in Hc as [[Hu Hj] Hcs].
    constructor; [|by apply IH]. revert Hx. unfold paragraph_line, unescapeBlockLine. rewrite Hu. destruct (inline (trim_space l)) as [body|] eqn:Hi; cbn [rbind]; [|done].
    destruct (blockish body) eqn:Hb; [done|]. intros [= <-]. assert (prose_start body) as Hp.
    { pose proof (trim_space_no_blank l) as Hh. unfold inline in Hi. destruct (trim_space l) as [|c s] eqn:Ht; [by injection Hi as <-|].
      eapply inline_start; [|exact Hj|exact Hi|done]. simpl. lia. }
    split; [|by apply prose_plain]. assert (line_text body) as Hlb by (eapply inline_line; [by apply forallb_trim|exact Hi]). by destruct (wikiListLine body). }
  rewrite split_join_lines; [|by inversion Hm; subst|by eapply Forall_impl; [exact Ho|]; intros ? []].
  split; [symmetry; by eapply Forall2_length|]. eapply Forall_impl; [exact Ho|]. by intros ? [].
Qed.

(** ** List nesting *)

(** The items an item of indentation [n] is nested in: the entries of the stack
    that are indented less, the innermost first. *)
Fixpoint enclosing (n : nat) (stack : list (nat * text)) : list (nat * text) :=
  match stack with
  | (k, m) :: stack' => if (n <=? k)%nat then enclosing n stack' else stack
  | [] => []
  end.
Definition top_markers (stack : list (nat * text)) : text := match stack with (_, m) :: _ => m | [] => [] end.
Definition push_item (stack : list (nat * text)) (it : listItem) : list (nat * text) :=
  let outer := enclosing (indent it) stack in (indent it, top_markers outer ++ item_marker it) :: outer.
(** The markers of each item: those of the item it is nested in and its own. *)
Fixpoint markers_of (stack : list (nat * text)) (items : list listItem) : list text :=
  match items with
  | [] => []
  | it :: items => let stack := push_item stack it in top_markers stack :: markers_of stack items
  end.

Definition list_line (m t : text) : text := m ++ txt " " ++ t.

Lemma enclosing_twice x y stack : (x ≤ y)%nat → enclosing x (enclosing y stack) = enclosing x stack.
Proof.
  intros Hxy. induction stack as [|[k m] stack IH]; [done|]. cbn [enclosing]. destruct (y <=? k)%nat eqn:Hy; [|done]. bool_hyps.
  by rewrite (proj2 (Nat.leb_le x k)) by lia.
Qed.

Lemma enclosing_pushed x stack items : Forall (λ it, (x ≤ indent it)%nat) items → enclosing x (foldl push_item stack items) = enclosing x stack.
Proof.
  intros H. revert stack. induction H as [|it items Hit _ IH]; intros stack; [done|]. cbn [foldl]. rewrite IH. unfold push_item. cbn [enclosing].
  rewrite (proj2 (Nat.leb_le _ _)) by done. by apply enclosing_twice.
Qed.

Lemma markers_of_app stack a b : markers_of stack (a ++ b) = markers_of stack a ++ markers_of (foldl push_item stack a) b.
Proof. revert stack. induction a as [|it a IH]; intros stack; [done|]. cbn [app markers_of foldl]. by rewrite IH. Qed.
Lemma markers_of_length stack items : length (markers_of stack items) = length items.
Proof. revert stack. induction items as [|it items IH]; intros stack; [done|]. simpl. by rewrite IH. Qed.

Definition converted (it : listItem) (t : text) : Prop := inline (text_ it) = Ok t.

Lemma list_loop_markers fuel items level kind marker out rest stack : (length items ≤ fuel)%nat →
  list_loop fuel items level kind marker = Ok (out, rest) →
  top_markers (enclosing level stack) ++ (if kind then txt "#" else txt "*") = marker →
  ∃ consumed ts, items = consumed ++ rest ∧ Forall (λ it, (level ≤ indent it)%nat) consumed ∧ Forall2 converted consumed ts ∧
    out = zip_with list_line (markers_of stack consumed) ts.
Proof.
  revert items level kind marker out rest stack. induction fuel as [|fuel IH]; intros items level kind marker out rest stack Hf H Hm; cbn [list_loop] in H.
  { injection H as <- <-. exists [], []. destruct items; [by split_and!|simpl in Hf; lia]. }
  destruct items as [|it items]; [injection H as <- <-; by exists [], []|]. simpl in Hf.
  destruct (indent it <? level)%nat eqn:Hge; [injection H as <- <-; by exists [], []|]. destruct (level <? indent it)%nat eqn:Hle; [discriminate H|].
  bool_hyps. assert (indent it = level) as Hi by lia. destruct (negb (Bool.eqb (ordered it) kind)) eqn:Hk; [discriminate H|].
  apply negb_false_iff, eqb_prop in Hk. destruct (inline (text_ it)) as [t|] eqn:Ht; cbn [rbind] in H; [|discriminate H].
  match type of H with rbind ?m _ = _ => destruct m as [[sub items2]|] eqn:Hs; cbn [rbind fst snd] in H; [|discriminate H] end.
  destruct (list_loop fuel items2 level kind marker) as [[more items3]|] eqn:Hmore; cbn [rbind fst snd] in H; [|discriminate H]. injection H as <- <-.
  assert (push_item stack it = (level, marker) :: enclosing level stack) as Hpush.
  { unfold push_item, item_marker. by rewrite Hi, Hk, Hm. }
  assert (∃ consumed ts, items = consumed ++ items2 ∧ Forall (λ it, (level ≤ indent it)%nat) consumed ∧ Forall2 converted consumed ts ∧
    sub = zip_with list_line (markers_of (push_item stack it) consumed) ts) as (c1 & t1 & -> & Hc1 & Ht1 & ->).
  { destruct items as [|it' items']; [injection Hs as <- <-; by exists [], []|].
    destruct (level <? indent it')%nat eqn:Hdeep; [|injection Hs as <- <-; by exists [], []]. bool_hyps.
    destruct (IH (it' :: items') _ _ _ _ _ (push_item stack it) ltac:(lia) Hs) as (c1 & t1 & ? & Hc1 & ? & ?).
    - rewrite Hpush. cbn [enclosing]. by rewrite (proj2 (Nat.leb_gt (indent it') level)) by lia.
    - exists c1, t1. split_and!; [done| |done..]. eapply Forall_impl; [exact Hc1|]. cbn. lia. }
  destruct (IH items2 _ _ _ _ _ (foldl push_item (push_item stack it) c1) ltac:(rewrite length_app in Hf; lia) Hmore) as (c2 & t2 & -> & Hc2 & Ht2 & ->).
  { rewrite enclosing_pushed by done. rewrite Hpush. cbn [enclosing]. rewrite Nat.leb_refl, enclosing_twice by done. done. }
  exists (it :: c1 ++ c2), (t :: t1 ++ t2). split_and!; [cbn [app]; by rewrite <- app_assoc|constructor; [lia|by apply Forall_app]|constructor; [done|by apply Forall2_app]|].
  cbn [markers_of zip_with]. rewrite markers_of_app, zip_with_app by (rewrite markers_of_length; by eapply Forall2_length). by rewrite Hpush.
Qed.

(** Markers are stars and hashes. *)
Definition marker_text (m : text) : Prop := m ≠ [] ∧ forallb (λ c, is_byte "*"%char c || is_byte "#"%char c) m = true.
Lemma markers_of_text stack items : Forall (λ e, marker_text e.2) stack → Forall marker_text (markers_of stack items).
Proof.
  revert stack. induction items as [|it items IH]; intros stack Hs; [constructor|]. cbn [markers_of].
  assert (marker_text (top_markers (push_item stack it)) ∧ Forall (λ e, marker_text e.2) (push_item stack it)) as [Ht Hp].
  { assert (Forall (λ e, marker_text e.2) (enclosing (indent it) stack)) as He.
    { induction Hs as [|[k m] stack Hm Hs IHs]; [constructor|]. cbn [enclosing]. destruct (_ <=? k)%nat; [done|by constructor]. }
    assert (marker_text (top_markers (push_item stack it))) as Ht; [|split; [done|by constructor]]. unfold push_item. cbn [top_markers].
    assert (forallb (λ c, is_byte "*"%char c || is_byte "#"%char c) (top_markers (enclosing (indent it) stack)) = true) as Hb.
    { destruct He as [|[k m] st [_ Hm] _]; [done|exact Hm]. }
    split; [unfold item_marker; by destruct (top_markers (enclosing _ _)), (ordered it)|]. rewrite forallb_app, Hb. unfold item_marker. by destruct (ordered it). }
  constructor; [done|by apply IH].
Qed.

Lemma span_all_app p a b : forallb p a = true → (∀ c, head b = Some c → p c = false) → span p (a ++ b) = (a, b).
Proof.
  intros Ha Hb. induction a as [|c a IH]; cbn [app].
  - destruct b as [|c b]; [done|]. by rewrite span_none by by apply Hb.
  - cbn [forallb] in Ha. bool_hyps. rewrite WikiScanner.span_cons by done. by rewrite IH.
Qed.

(** The scanner reads a list line back. *)
Lemma ParseListLine_line m t : marker_text m → line_text t → (∀ c, head t = Some c → blank c = false) → ParseListLine (list_line m t) = Some (m, t).
Proof.
  intros [Hn Hm] Hl Hb. unfold ParseListLine, list_line.
  assert (∀ c, is_byte "*"%char c || is_byte "#"%char c = true → blank c = false) as Hmb.
  { intros c Hc. apply orb_true_iff in Hc as [Hc|Hc]; apply bool_decide_eq_true in Hc as ->; done. }
  assert (span blank (m ++ txt " " ++ t) = ([], m ++ txt " " ++ t)) as ->.
  { apply (span_all_app blank []); [done|]. intros c. destruct m as [|d m]; [done|]. intros [= <-]. apply Hmb. cbn [forallb] in Hm. by bool_hyps. }
  rewrite (span_all_app _ m (txt " " ++ t)) by (done || by intros ? [= <-]). rewrite (span_all_app blank (txt " ") t) by done.
  rewrite (proj2 (Nat.ltb_lt 0 (length m))) by (destruct m; simpl; [done|lia]). cbn. unfold WikiScanner.rest_of_line. by rewrite Hl.
Qed.

Lemma list_item_text l n o t : line_text l → list_item l = Some (n, o, t) → line_text t ∧ (∀ c, head t = Some c → blank c = false).
Proof.
  intros Hl. unfold list_item. pose proof (WikiScanner.span_app regex_space l) as Happ. destruct (span regex_space l) as [ind s].
  cbn [fst snd] in Happ. assert (line_text s) as Hs by (subst l; rewrite forallb_app in Hl; by bool_hyps). clear Happ.
  assert (∀ b u, line_text u → (let '(gap, s) := span regex_space u in
    if (0 <? length gap)%nat then body ← WikiScanner.rest_of_line s; Some (length ind, b, body) else None) = Some (n, o, t) →
    line_text t ∧ ∀ c, head t = Some c → blank c = false) as Htail.
  { intros b u Hu. pose proof (WikiScanner.span_app regex_space u) as Hap. pose proof (span_stop regex_space u) as Hst. destruct (span regex_space u) as [gap r].
    cbn [fst snd] in *. destruct (0 <? length gap)%nat; [|done]. unfold WikiScanner.rest_of_line. destruct (forallb not_newline r) eqn:Hr; [|done]. intros [= <- <- <-].
    split; [done|]. intros c Hc. specialize (Hst c Hc). unfold regex_space, blank in *. by destruct (is_byte tab c), (is_byte " "%char c); rewrite ?orb_true_r in Hst. }
  destruct s as [|c s]; [done|]. cbn [forallb] in Hs. bool_hyps. destruct (_ || _ || _); [by apply Htail|].
  pose proof (WikiScanner.span_app Json.digit (c :: s)) as Hap. destruct (span Json.digit (c :: s)) as [ds r]. cbn [fst snd] in Hap. destruct r as [|d r]; [done|].
  destruct (_ && _); [|done]. apply Htail. assert (forallb not_newline (ds ++ d :: r) = true) as Hall by (rewrite Hap; cbn; by rewrite H, H0).
  rewrite forallb_app in Hall. cbn [forallb] in Hall. by bool_hyps.
Qed.

(** A converted list has one line per item.  The line carries the markers of
    the item it is nested in (the last item before it that is indented less)
    followed by its own, and the converted text; unless an item holds an issue
    link, the list recogniser of the wiki scanner reads back exactly those markers
    and that text. *)
Theorem convertList_markers lines out : Forall (λ l, line_text l) lines → convertList lines = Ok out →
  ∃ items ts, Forall2 (λ l it, parse_item l = Ok it) lines items ∧ Forall2 converted items ts ∧
    out = join_lines (zip_with list_line (markers_of [] items) ts) ∧
    (Forall (λ it, contains (text_ it) (txt "](jira:") = false) items →
     Forall2 (λ m t, ParseListLine (list_line m t) = Some (m, t)) (markers_of [] items) ts).
Proof.
  intros Hl. unfold convertList. destruct (map_result parse_item lines) as [items|] eqn:Hm; cbn [rbind]; [|done]. apply map_result_ok in Hm.
  destruct (buildList items) as [[ls rest]|] eqn:Hb; cbn [rbind fst snd]; [|done]. destruct rest; [|done]. intros [= <-].
  assert (∃ ts, Forall2 converted items ts ∧ ls = zip_with list_line (markers_of [] items) ts) as (ts & Hts & ->).
  { destruct items as [|it items]; [injection Hb as <-; by exists []|]. cbn [buildList] in Hb.
    destruct (list_loop_markers _ _ _ _ _ _ _ [] (le_n _) Hb) as (c & ts & He & _ & Hts & ->); [done|]. rewrite app_nil_r in He. subst c. by exists ts. }
  exists items, ts. split_and!; [done..|]. intros Hj. pose proof (markers_of_text [] items ltac:(constructor)) as Hmt. revert Hmt. generalize (@nil (nat * text)) as stack.
  clear Hb. revert lines Hl Hm Hj. induction Hts as [|it t items ts Ht _ IH]; intros lines Hl Hm Hj stack Hmt; [constructor|].
  inversion Hm as [|l ? lines' ? Hp Hm']; subst. cbn [markers_of] in *. apply Forall_cons in Hmt as [Hmk Hmt]. apply Forall_cons in Hl as [Hl Hls]. apply Forall_cons in Hj as [Hj Hjs].
  constructor; [|by eapply IH]. revert Hp. unfold parse_item. destruct (list_item l) as [[[n o] tx]|] eqn:Hli; [|done]. destruct (bool_decide _); [done|].
  intros [= <-]. apply list_item_text in Hli as [Hlt Hbl]; [|done]. unfold converted in Ht. cbn [text_] in *. apply ParseListLine_line; [done|by eapply inline_line|].
  assert (prose_start t) as Hps; [|destruct t; [done|intros ? [= <-]; exact (proj1 Hps)]]. destruct tx as [|c tx]; [by injection Ht as <-|].
  eapply inline_start; [|exact Hj|exact Ht|by apply Hbl]. simpl. lia.
Qed.

(** ** Concrete runs *)

Module Demo.
Definition prose : list text := map txt ["1) a {c}"; "*b* | d"; "a -x"].
Definition nest : list text := map txt ["- a {x}"; "  1. *b*"; "     - c"; "- d"].

Lemma convertParagraph_stays_witness : ∃ out, convertParagraph prose = Ok out ∧
  length (split_lines out) = 3%nat ∧ Forall plain_line (split_lines out).
Proof.
  eexists. split; [vm_compute; reflexivity|]. apply (convertParagraph_stays prose); [done| | |vm_compute; reflexivity].
  - repeat constructor.
  - repeat constructor; vm_compute; reflexivity.
Defined.

Lemma convertList_markers_witness : ∃ out, convertList nest = Ok out ∧ ∃ items ts, Forall2 (λ l it, parse_item l = Ok it) nest items ∧
  out = join_lines (zip_with list_line (markers_of [] items) ts).
Proof.
  eexists. split; [vm_compute; reflexivity|].
  destruct (convertList_markers nest _ ltac:(repeat constructor) ltac:(vm_compute; reflexivity)) as (items & ts & Hp & _ & Ho & _).
  exists items, ts. split; [exact Hp|exact Ho].
Defined.

(** The converter against itself: an issue key is written as it stands, and a
    backslash is not escaped, so the markup of the result can be read as a macro
    and as a line break. *)
Example issue_key_opens_macro : ConvertBlock (txt "[{code}](jira:{code})") = Ok (txt "{code}") ∧ WikiScanner.IsCodeOpen (txt "{code}") = true.
Proof. vm_compute. split; reflexivity. Qed.
Example backslash_unescaped : ConvertBlock (txt "\{x") = Ok (txt "\\{x").
Proof. vm_compute. reflexivity. Qed.
End Demo.
End MdWiki.
