(* ===== verification/WikiMd.v ===== *)
(** * Jira wiki markup to a Markdown view (internal/wikimd)

    [Render] is total: what it does not recognise stays literal text.  The
    theorems relate it to the converter that reads the view back. *)

From S2P Require Import Prelude GoText Encoding WikiScanner Json Markdown MdCsf MdWiki.
Import GoText Markdown.
Import WikiScanner (span, is_byte, newline, cr, tab, backslash, backtick, blank, split_lines, join_lines, ParseHeading, ParseCodeOpen, IsCodeOpen,
  ParseQuoteOpen, ParsePanelOpen, IsHorizontalRule, ParseListLine, IsListLine, TableRowEnd, EscapeMarkdownBlockCollision).
Import Json (quote, encode_rune).
Import MdWiki (letter, lang_byte).

Module WikiMd.
Local Open Scope Z_scope.

(** The resolver returns a destination, or says that it has none. *)
Record Options := { Images : text → option text; HeadingOffset : Z; LinkResolver : option (text → option text) }.

(** ** Inline markup *)

(** [strings.NewReplacer] of single bytes. *)
Definition replacer (table : list (ascii * text)) (s : text) : text :=
  s ≫= λ c, match filter (λ e, e.1 = c) table with (_, r) :: _ => r | [] => [c] end.
Definition escapeAlt (s : text) : text :=
  replacer [(backslash, [backslash; backslash]); ("["%char, [backslash; "["%char]); ("]"%char, [backslash; "]"%char])] s.
Definition url_table : list (ascii * text) :=
  [(" "%char, txt "%20"); ("("%char, txt "%28"); (")"%char, txt "%29"); ("<"%char, txt "%3C"); (">"%char, txt "%3E"); (quote, txt "%22")].
Definition escapeURLDest (s : text) : text := replacer url_table s.
Definition escapeDest (s : text) : text := replacer (("%"%char, txt "%25") :: url_table) s.

Definition looksLikeURL (s : text) : bool := contains s (txt "://") || has_prefix s (txt "mailto:") || has_prefix s (txt "#").

(** [imageExtRe]: a dot and one to five letters or digits at the end. *)
Definition image_ext (name : text) : bool :=
  let '(ext, rest) := span (λ c, letter c || Json.digit c) (reverse name) in
  (1 <=? length ext)%nat && (length ext <=? 5)%nat && has_prefix rest (txt ".").
Definition looksLikeImageRef (name : text) : bool :=
  if eqt name [] || contains name [tab] then false
  else if contains name (txt "://") then true
  else if negb (contains name (txt ".")) then false
  else if contains name (txt " ") then image_ext name
  else true.

Definition image (s : text) (opts : Options) : option (text * nat) :=
  end_ ← index (drop 1 s) (txt "!");
  let inner := take end_ (drop 1 s) in
  if negb (eqt inner (trim_space inner)) then None
  else
    let name := trim_space (cut inner (txt "|")).1.1 in
    if negb (looksLikeImageRef name) then None
    else
      let out :=
        if contains name (txt "://") then txt "![](" ++ escapeURLDest name ++ txt ")"
        else match Images opts name with
             | Some (c :: path) => txt "![" ++ escapeAlt name ++ txt "](" ++ escapeDest (c :: path) ++ txt ")"
             | _ => txt "`!" ++ name ++ txt "!`"
             end in
      Some (out, (end_ + 2)%nat).

Definition monospan (s : text) : option (text * nat) :=
  if negb (has_prefix s (txt "{{")) then None
  else
    end_ ← index (drop 2 s) (txt "}}");
    let content := replace_all (take end_ (drop 2 s)) [newline] (txt " ") in
    let fence := if contains content [backtick] then [backtick; backtick] else [backtick] in
    Some (fence ++ content ++ fence, (end_ + 4)%nat).

Definition colorTag (s : text) : option nat :=
  if negb (has_prefix s (txt "{color")) then None
  else
    end_ ← index s (txt "}");
    let tag := take (S end_) s in
    if eqt tag (txt "{color}") || has_prefix tag (txt "{color:") then Some (S end_) else None.

Definition mention (s : text) : option (text * nat) :=
  s' ← WikiScanner.after (txt "[~") s;
  let '(name, rest) := span (λ c, negb (is_byte "]"%char c)) s' in
  if (length name =? 0)%nat || (length rest =? 0)%nat then None
  else
    let user := trim_space name in
    if eqt user [] then None else Some (txt "**@" ++ user ++ txt "**", (3 + length name)%nat).

(** The destination the resolver gives, if it gives one. *)
Definition resolved (opts : Options) (url : text) : option text :=
  r ← LinkResolver opts;
  d ← r url;
  if eqt d [] then None else Some d.

Section inline.
Variable inline : text → text.
Variable opts : Options.

Definition link (s : text) : option (text * nat) :=
  end_ ← index s (txt "]");
  let inner := slice s 1 end_ in
  if eqt inner [] || contains inner [newline] then None
  else
    match index inner (txt "|") with
    | Some bar =>
        let text_ := trim_space (take bar inner) in
        let url := trim_space (drop (S bar) inner) in
        let url := match index url (txt "|") with Some extra => trim_space (take extra url) | None => url end in
        if eqt url [] then None
        else
          let text_ := if eqt text_ [] then url else text_ in
          let url := default url (resolved opts url) in
          Some (txt "[" ++ inline text_ ++ txt "](" ++ escapeURLDest url ++ txt ")", S end_)
    | None =>
        let url := trim_space inner in
        match resolved opts url with
        | Some destination => Some (txt "[" ++ escapeAlt url ++ txt "](" ++ escapeURLDest destination ++ txt ")", S end_)
        | None => if negb (looksLikeURL url) then None else Some (txt "<" ++ escapeURLDest url ++ txt ">", S end_)
        end
    end.

Definition isSpaceByte (c : ascii) : bool := is_byte " "%char c || is_byte tab c.

(** The closing delimiter of [toggle]: [prev] is the byte before the rest of the
    text, [j] the index of the rest. *)
Fixpoint toggle_end (delim prev : ascii) (s : text) (j : nat) : option nat :=
  match s with
  | [] => None
  | c :: s' =>
      if is_byte delim c && negb (isSpaceByte prev) && negb (word_at (head s')) then Some j
      else toggle_end delim c s' (S j)
  end.
Definition toggle (before : option ascii) (s : text) (delim : ascii) (wrap : text) : option (text * nat) :=
  match s with
  | c0 :: (c :: _) as s1 =>
      if word_at before || is_byte delim c || isSpaceByte c then None
      else
        j ← toggle_end delim c0 (drop 1 s) 1;
        let content := slice s 1 j in
        if eqt content [] then None else Some (wrap ++ inline content ++ wrap, S j)
  | _ => None
  end.

(** The legacy spelling of bold text, a star in escaped braces. *)
Definition escapedBraceBold (before : option ascii) (s : text) : option (text * nat) :=
  let open := backslash :: txt "{*}" in
  let close := txt "{*}" in
  if negb (has_prefix s open) || word_at before then None
  else
    let rest := drop 4 s in
    match index rest close with
    | None | Some 0%nat => None
    | Some end_ =>
        let content := take end_ rest in
        if contains_any content [cr; newline] || negb (eqt (trim_space content) content) then None
        else if word_at (s !! (4 + end_ + 3)%nat) then None
        else Some (txt "**" ++ inline content ++ txt "**", (4 + end_ + 3)%nat)
    end.
End inline.

(** The loop of [inline]: the byte before a position and the rest of the line. *)
Fixpoint inline_loop (fuel : nat) (opts : Options) (before : option ascii) (s : text) : text :=
  match fuel, s with
  | S fuel, c :: s' =>
      let inline t := inline_loop fuel opts None t in
      let emit (out : text) (n : nat) := out ++ inline_loop fuel opts (s !! pred n) (drop n s) in
      let emit_or (m : option (text * nat)) := match m with Some (out, n) => emit out n | None => emit [c] 1%nat end in
      if is_byte backslash c then
        match s' with
        | e :: _ => if is_byte backslash e then emit (txt "  " ++ [newline]) 2%nat else emit_or (escapedBraceBold inline before s)
        | [] => emit_or (escapedBraceBold inline before s)
        end
      else if is_byte "{"%char c then
        match monospan s with
        | Some (out, n) => emit out n
        | None => match colorTag s with Some n => emit [] n | None => emit [c] 1%nat end
        end
      else if is_byte "["%char c then
        match mention s with
        | Some (out, n) => emit out n
        | None => emit_or (link inline opts s)
        end
      else if is_byte "!"%char c then emit_or (image s opts)
      else if is_byte "*"%char c then emit_or (toggle inline before s "*"%char (txt "**"))
      else if is_byte "_"%char c then emit_or (toggle inline before s "_"%char (txt "*"))
      else if is_byte "-"%char c then emit_or (toggle inline before s "-"%char (txt "~~"))
      else emit [c] 1%nat
  | _, _ => []
  end.
Definition inline (s : text) (opts : Options) : text := inline_loop (length s) opts None s.

(** ** Blocks *)

(** [splitLines]. *)
Definition splitLines (s : text) : list text :=
  let s := trim_prefix s (encode_rune 65279) in
  let s := replace_all s [cr; newline] [newline] in
  let s := replace_all s [cr] [newline] in
  split_lines s.

Fixpoint collapse (fuel : nat) (s : text) : text :=
  match fuel with
  | O => s
  | S fuel => if contains s (repeat newline 3) then collapse fuel (replace_all s (repeat newline 3) (repeat newline 2)) else s
  end.
Definition tidy (s : text) : text := trim_byte newline (collapse (length s) s).

Definition renderHeading (level : Z) (text_ : text) (opts : Options) : text :=
  let offset := Z.max 0 (Z.min 5 (HeadingOffset opts)) in
  let rendered := level + offset in
  if rendered <? 6 then repeat "#"%char (Z.to_nat rendered) ++ txt " " ++ inline text_ opts
  else if 0 <? offset then
    txt "###### " ++ inline text_ opts ++ txt " <!-- atl:jira-heading level=" ++ Encoding.Encoding.json_int level ++ txt " -->"
  else txt "###### " ++ inline text_ opts.

(** [ensureBlankLine]: the line ends appended to the output so far. *)
Definition ensureBlankLine (b : text) : text :=
  if eqt b [] then []
  else if has_suffix b (repeat newline 2) then []
  else if has_suffix b [newline] then [newline]
  else repeat newline 2.

Fixpoint run_loop (s : text) (run longest : nat) : nat :=
  match s with
  | [] => longest
  | c :: s => if is_byte backtick c then run_loop s (S run) (Nat.max longest (S run)) else run_loop s 0 longest
  end.
Definition longestBacktickRun (s : text) : nat := run_loop s 0 0.

Definition fence (lang body : text) : text :=
  let body := trim_byte newline body in
  let run := longestBacktickRun body in
  let n := if (3 <=? run)%nat then S run else 3%nat in
  let marker := repeat backtick n in
  marker ++ lang ++ [newline] ++ body ++ [newline] ++ marker ++ [newline].

(** [strings.EqualFold] with a word of ASCII letters other than k and s. *)
Definition lower_byte (c : ascii) : ascii := if in_rng 65 90 (byte_val c) then ascii_of_N (Z.to_N (byte_val c + 32)) else c.
Definition equal_fold (s word : text) : bool := eqt (map lower_byte s) word.
(** [langRe.ReplaceAllString(s, "")]. *)
Definition lang_only (s : text) : text := filter (λ c, lang_byte c = true) s.

Fixpoint lang_loop (parts : list text) : text :=
  match parts with
  | [] => []
  | part :: parts =>
      let part := trim_space part in
      let '(k, v, ok) := cut part (txt "=") in
      if ok then (if equal_fold (trim_space k) (txt "language") then lang_only (trim_space v) else lang_loop parts)
      else lang_only part
  end.
Definition codeLang (params : text) : text := if eqt params [] then [] else lang_loop (split params (txt "|")).

(** The lines of a macro up to its closing tag, [keep] deciding which text around
    the tags is kept, and the lines that follow. *)
Fixpoint macro_lines (keep : text → bool) (closeTag : text) (lines : list text) : list text * list text :=
  match lines with
  | [] => ([], [])
  | l :: lines =>
      match index l closeTag with
      | Some i => (if keep (take i l) then [take i l] else [], lines)
      | None => let '(body, rest) := macro_lines keep closeTag lines in (l :: body, rest)
      end
  end.
Definition macro_body (keep : text → bool) (rest closeTag : text) (lines : list text) : text * list text :=
  match index rest closeTag with
  | Some i => (take i rest, lines)
  | None => let '(body, lines) := macro_lines keep closeTag lines in
            (join_lines ((if keep rest then [rest] else []) ++ body), lines)
  end.

(** [codeBlock] on a line that opens a macro and the lines after it. *)
Definition codeBlock (macro params rest : text) (lines : list text) : text * list text :=
  let lang := if eqt macro (txt "code") then codeLang params else [] in
  let '(body, lines) := macro_body (λ s, negb (eqt s [])) rest (txt "{" ++ macro ++ txt "}") lines in
  (fence lang body, lines).
Definition collectMacroBody (rest closeTag : text) (lines : list text) : text * list text :=
  macro_body (λ s, negb (eqt (trim_space s) [])) rest closeTag lines.

Definition panelTitle (params : text) : text :=
  default [] (first_some (λ _ part, let '(k, v, ok) := cut part (txt "=") in
    if ok && equal_fold (trim_space k) (txt "title") then Some (trim_space v) else None) 0%nat (split params (txt "|"))).

Definition blockquote (s : text) : text :=
  let s := trim_byte newline s in
  if eqt s [] then txt ">" ++ [newline]
  else join_lines (map (λ l, if eqt (trim_space l) [] then txt ">" else txt "> " ++ l) (split_lines s)) ++ [newline].

(** ** Tables *)

Definition tableRowEnd (lines : list text) : nat := TableRowEnd (length lines) 0 (λ i, default [] (lines !! i)).

Fixpoint table_rows (fuel : nat) (lines : list text) : list text * list text :=
  match fuel, lines with
  | S fuel, l :: _ =>
      if has_prefix l (txt "|") then
        let n := S (tableRowEnd lines) in
        let '(rows, rest) := table_rows fuel (drop n lines) in
        (join_lines (take n lines) :: rows, rest)
      else ([], lines)
  | _, _ => ([], lines)
  end.

Definition parseRow (row : text) : list text * bool :=
  let row := trim_space row in
  let header := has_prefix row (txt "||") in
  let sep := if header then txt "||" else txt "|" in
  let trimmed := trim_byte "|"%char row in
  (if eqt trimmed [] then [] else map trim_space (split trimmed sep), header).

Definition tableCell (s : text) (opts : Options) : text :=
  replace_all (replace_all (inline s opts) [newline] (txt " ")) (txt "|") (backslash :: txt "|").

Definition table_line (width : nat) (opts : Options) (cells : list text) : text :=
  txt "|" ++ concat (map (λ c, txt " " ++ tableCell (default [] (cells !! c)) opts ++ txt " |") (seq 0 width)) ++ [newline].

Fixpoint header_index (i : nat) (rows : list (list text * bool)) : option nat :=
  match rows with
  | [] => None
  | (_, h) :: rows => if h then Some i else header_index (S i) rows
  end.

Definition renderTable (rows : list text) (opts : Options) : text :=
  let parsed := map parseRow rows in
  let width := foldr Nat.max 0%nat (map (λ r, length r.1) parsed) in
  if (length parsed =? 0)%nat || (width =? 0)%nat then join_lines rows
  else
    let hdr := default 0%nat (header_index 0 parsed) in
    let cells i := default [] (fst <$> parsed !! i) in
    let others := filter (λ i, i ≠ hdr) (seq 0 (length parsed)) in
    table_line width opts (cells hdr) ++
    txt "|" ++ concat (replicate width (txt " --- |")) ++ [newline] ++
    concat (map (λ i, table_line width opts (cells i)) others).
Definition tableBlock (lines : list text) (opts : Options) : text * list text :=
  let '(rows, rest) := table_rows (length lines) lines in (renderTable rows opts, rest).

(** ** Lists *)

Definition list_view (markers body : text) (opts : Options) : text :=
  let depth := length markers in
  let marker := if bool_decide (last markers = Some "#"%char) then txt "1. " else txt "- " in
  concat (replicate (pred depth) (txt "  ")) ++ marker ++ inline (trim_space body) opts ++ [newline].
Fixpoint listBlock (lines : list text) (opts : Options) : text * list text :=
  match lines with
  | [] => ([], [])
  | l :: lines' =>
      match ParseListLine l with
      | None => ([], lines)
      | Some (markers, body) => let '(out, rest) := listBlock lines' opts in (list_view markers body opts ++ out, rest)
      end
  end.

(** ** Render *)

(** [renderBlocks] from some line on, with the output so far; macro bodies are
    rendered on their own.  The fuel is above the bytes and lines that are left. *)
Fixpoint render_blocks (fuel : nat) (b : text) (lines : list text) (opts : Options) : text :=
  match fuel, lines with
  | S fuel, line :: lines' =>
      let Render (wiki : text) := tidy (render_blocks fuel [] (splitLines wiki) opts) in
      let write (out : text) (rest : list text) :=
        render_blocks fuel (b ++ ensureBlankLine b ++ trim_right_nl out ++ repeat newline 2) rest opts in
      if eqt (trim_space line) [] then render_blocks fuel (b ++ [newline]) lines' opts
      else
        match ParseHeading line with
        | Some (n, body) => write (renderHeading n (trim_space body) opts) lines'
        | None =>
        match ParseCodeOpen line with
        | Some (macro, params, rest) => let '(out, next) := codeBlock macro params rest lines' in write out next
        | None =>
        match ParseQuoteOpen line with
        | Some rest => let '(inner, next) := collectMacroBody rest (txt "{quote}") lines' in write (blockquote (Render inner)) next
        | None =>
        match ParsePanelOpen line with
        | Some (params, rest) =>
            let title := panelTitle params in
            let '(inner, next) := collectMacroBody rest (txt "{panel}") lines' in
            let body := Render inner in
            let content := if eqt title [] then body
                           else txt "**" ++ inline title opts ++ txt "**" ++ (if eqt body [] then [] else repeat newline 2 ++ body) in
            write (blockquote content) next
        | None =>
            if IsHorizontalRule line then write (txt "---") lines'
            else if has_prefix line (txt "|") then let '(out, next) := tableBlock lines opts in write out next
            else if IsListLine line then let '(out, next) := listBlock lines opts in write out next
            else render_blocks fuel (b ++ EscapeMarkdownBlockCollision (inline line opts) ++ [newline]) lines' opts
        end end end end
  | _, _ => b
  end.
Definition Render (wiki : text) (opts : Options) : text :=
  let lines := splitLines wiki in tidy (render_blocks (S (weight lines)) [] lines opts).

Definition plain_options : Options := {| Images := λ _, None; HeadingOffset := 0; LinkResolver := None |}.

Example render_demo : let lines ls := join_lines (map txt ls) in let r ls := Render (lines ls) plain_options in
  r ["h2. T"; "a *b* _c_ -d- {{e}}"; "* x"; "** y"; "# z"] = lines ["## T"; ""; "a **b** *c* ~~d~~ `e`"; ""; "- x"; "  - y"; "1. z"] ∧
  r ["{code:go|title=x}"; "a```b"; "{code}"; "{quote}"; "q"; ""; "h1. h"; "{quote}"] = lines ["````go"; "a```b"; "````"; ""; "> q"; ">"; "> # h"] ∧
  r ["||a||b||"; "|1|*c*|"; "|2"; "x|"] = lines ["| a | b |"; "| --- | --- |"; "| 1 | **c** |"; "| 2 x |  |"] ∧
  r ["[~me] [x|http://y] !i.png! !http://e/f! \{*}b{*} {color:red}c{color} [http://z]"] =
    txt "**@me** [x](http://y) `!i.png!` ![](http://e/f) **b** c <http://z>" ∧
  r ["{panel:title=P}"; "x{panel}"; "```"; "--- "; "----"] = lines ["> **P**"; ">"; "> x"; ""; "\```"; "\--- "; ""; "---"].
Proof. vm_compute. split_and!; reflexivity. Qed.
End WikiMd.
