(* ===== verification/WikiView.v ===== *)
(** * The Markdown view of a Jira body and the way back

    The renderer (internal/wikimd) and the converter (internal/mdwiki) meet in
    `jira apply`: the converter writes what the renderer reads.  This file relates
    the two on tables and code blocks, and runs the merge of internal/wikimerge with
    both. *)

From S2P Require Import Prelude GoText WikiScanner Json Markdown MdCsf MdWiki WikiMd WikiMerge.
Import GoText Markdown MdWiki.
Import WikiMd (parseRow, codeBlock, macro_body, macro_lines, codeLang, lang_loop, lang_only, fence, longestBacktickRun, run_loop, Render, Options, HeadingOffset,
  plain_options).
Import WikiScanner (span, is_byte, newline, cr, tab, backslash, backtick, split_lines, join_lines, SplitBlocks, ParseMarkdownFenceOpen,
  IsMarkdownFenceClose, ParseCodeOpen, not_newline).
Import WikiMd (Images, LinkResolver).
Import MdCsf (SplitTableRow, pad, pad_length, fence_body).

Module WikiView.
Local Open Scope Z_scope.
Local Open Scope atl_scope.

(** ** Tables *)

Notation no_bar s := (forallb (λ c, negb (is_byte "|"%char c)) s = true).
Definition fill (t : text) : text := if eqt t [] then txt " " else t.

Lemma contains_bar s : contains s (txt "|") = false → no_bar s.
Proof.
  induction s as [|c s IH]; [done|]. rewrite MdCsf.contains_cons. intros H. bool_hyps. cbn [forallb]. rewrite IH by done.
  change (txt "|") with ["|"%char] in H. rewrite MdCsf.has_prefix_byte in H. by rewrite H.
Qed.

Lemma trim_fill t : trim_space (fill t) = trim_space t.
Proof. unfold fill. destruct (eqt t []) eqn:He; [|done]. apply eqt_true in He as ->. done. Qed.

Lemma write_row_cells sep cells out : write_row sep cells = Ok out → ∃ ts, Forall2 (λ c t, inline c = Ok t) cells ts ∧
  Forall (λ t, no_bar t) ts ∧ out = sep ++ concat (map (λ t, fill t ++ sep) ts).
Proof.
  unfold write_row. destruct (map_result _ cells) as [outs|] eqn:Hm; cbn [rbind]; [|done]. intros [= <-]. apply map_result_ok in Hm.
  induction Hm as [|c o cells outs Ho _ (ts & Hts & Hn & IH)]; [by exists []|]. revert Ho. unfold write_cell.
  destruct (inline c) as [t|] eqn:Ht; cbn [rbind]; [|done]. destruct (contains t (txt "|")) eqn:Hb; [done|]. intros [= <-].
  exists (t :: ts). split_and!; [by constructor|constructor; [by apply contains_bar|done]|]. cbn [concat map]. apply app_inv_head in IH. by rewrite IH.
Qed.

Lemma concat_join sep ts : ts ≠ [] → concat (map (λ t, fill t ++ sep) ts) = join sep (map fill ts) ++ sep.
Proof.
  induction ts as [|t ts IH]; [done|]. intros _. destruct ts as [|u ts]; [cbn; by rewrite app_nil_r|].
  change (join sep (map fill (t :: u :: ts))) with (fill t ++ sep ++ join sep (map fill (u :: ts))).
  cbn [map concat] in *. rewrite IH by done. by rewrite <- !app_assoc.
Qed.

Lemma fill_bar t : no_bar t → no_bar (fill t).
Proof. unfold fill. by destruct (eqt t []). Qed.
Lemma fill_nonempty t : fill t ≠ [].
Proof. unfold fill. destruct (eqt t []) eqn:He; [done|]. by apply eqt_false in He. Qed.

Lemma head_bar s c : no_bar s → head s = Some c → is_byte "|"%char c = false.
Proof. destruct s as [|x s]; [done|]. cbn [forallb]. intros H [= <-]. by bool_hyps. Qed.
Lemma last_bar s c : no_bar s → last s = Some c → is_byte "|"%char c = false.
Proof.
  intros H Hl. rewrite forallb_forall in H. apply negb_true_iff, H. apply list_elem_of_In. by apply last_Some_elem_of.
Qed.

Lemma join_edges sep cells : cells ≠ [] → Forall (λ c, c ≠ [] ∧ no_bar c) cells →
  join sep cells ≠ [] ∧ (∀ c, head (join sep cells) = Some c → is_byte "|"%char c = false) ∧ (∀ c, last (join sep cells) = Some c → is_byte "|"%char c = false).
Proof.
  intros Hn H. induction H as [|c cells [Hne Hb] Hcs IH]; [done|]. destruct cells as [|d cells].
  - cbn [join]. split_and!; [done|intros x; by apply head_bar|intros x; by apply last_bar].
  - destruct (IH ltac:(done)) as (Hj & _ & Hl). change (join sep (c :: d :: cells)) with (c ++ sep ++ join sep (d :: cells)). split_and!.
    + by destruct c.
    + intros x. destruct c as [|y c]; [done|]. intros [= <-]. by apply (head_bar (y :: c)).
    + intros x Hx. apply Hl. rewrite !last_app in Hx. destruct (last (join sep (d :: cells))) eqn:He; [done|]. by apply last_None in He.
Qed.

(** The renderer's row parser reads a written row back. *)
Lemma parseRow_written (header : bool) ts : ts ≠ [] → Forall (λ t, no_bar t) ts →
  let sep := if header then txt "||" else txt "|" in
  parseRow (sep ++ concat (map (λ t, fill t ++ sep) ts)) = (map trim_space ts, header).
Proof.
  intros Hn Hb sep. rewrite concat_join by done. set (cells := map fill ts).
  assert (Forall (λ c, c ≠ [] ∧ no_bar c) cells) as Hc.
  { unfold cells. rewrite Forall_map. eapply Forall_impl; [exact Hb|]. intros t Ht. split; [apply fill_nonempty|by apply fill_bar]. }
  destruct (join_edges sep cells) as (Hj & Hh & Hl); [by unfold cells; destruct ts|done|].
  assert (forallb (is_byte "|"%char) sep = true ∧ head sep = Some "|"%char) as [Hsep Hsh] by (by destruct header).
  assert (trim_space (sep ++ join sep cells ++ sep) = sep ++ join sep cells ++ sep) as Ht.
  { destruct header; [|exact (trim_space_solid "|"%char (join sep cells) "|"%char eq_refl eq_refl)].
    pose proof (trim_space_solid "|"%char ("|"%char :: join sep cells ++ ["|"%char]) "|"%char eq_refl eq_refl) as Ht. cbn [app] in Ht.
    rewrite <- app_assoc in Ht. exact Ht. }
  unfold parseRow. rewrite Ht.
  assert (has_prefix (sep ++ join sep cells ++ sep) (txt "||") = header) as ->.
  { unfold sep. destruct header; [apply has_prefix_spec; by eexists|]. apply not_true_iff_false. rewrite has_prefix_spec. intros [r Hr].
    change ("|"%char :: join sep cells ++ ["|"%char] = "|"%char :: "|"%char :: r) in Hr. injection Hr as Hr.
    destruct (join sep cells) as [|x j] eqn:He; [done|]. injection Hr as -> _. by specialize (Hh "|"%char eq_refl). }
  destruct (trim_byte_sep "|"%char sep (join sep cells) Hsep Hh Hl) as [->|]; [|done]. rewrite app_nil_r.
  rewrite (proj2 (eqt_false _ _)) by done. fold sep. rewrite (split_join_free "|"%char).
  - f_equal. unfold cells. rewrite map_map. apply map_ext. apply trim_fill.
  - done.
  - unfold cells. by destruct ts.
  - eapply Forall_impl; [exact Hc|]. by intros c [].
Qed.

Lemma splitRow_nonempty l : SplitTableRow l ≠ [].
Proof.
  unfold SplitTableRow, MdCsf.splitRow. generalize (trim_suffix (trim_prefix (trim_space l) (txt "|")) (txt "|")). intros s.
  assert (∀ fuel s cur e, MdCsf.row_loop fuel s cur e ≠ []) as H; [|apply H]. clear. intros fuel. induction fuel as [|fuel IH]; intros s cur e; [done|].
  cbn [MdCsf.row_loop]. destruct s as [|c s]; [done|]. destruct (decode_rune (c :: s)) as [r sz]. destruct e; [apply IH|]. destruct (r =? 92); [apply IH|].
  destruct (r =? 124); [done|apply IH].
Qed.

(** What the renderer's row parser reads from a row of converted cells. *)
Definition row_reads (header : bool) (cells : list text) (row : text) : Prop :=
  ∃ ts, Forall2 (λ c t, inline c = Ok t) cells ts ∧ parseRow row = (map trim_space ts, header).

Lemma write_row_reads (header : bool) cells out : cells ≠ [] → write_row (if header then txt "||" else txt "|") cells = Ok out → row_reads header cells out.
Proof.
  intros Hn (ts & Hts & Hb & ->)%write_row_cells. exists ts. split; [done|]. apply parseRow_written; [|done]. intros ->. by inversion Hts; subst.
Qed.

(** A converted table reads back row by row.  The output is the header row and
    one row per body line; the renderer's row parser finds in each exactly the
    converted cells of its line, the header marked as one and body rows padded to
    the width of the header. *)
Theorem convertTable_reads lines out : convertTable lines = Ok out →
  ∃ line0 line1 body heads rows, lines = line0 :: line1 :: body ∧ out = join_lines (heads :: rows) ∧
    row_reads true (SplitTableRow line0) heads ∧
    Forall2 (λ l row, (length (SplitTableRow l) ≤ length (SplitTableRow line0))%nat ∧
                      row_reads false (pad (length (SplitTableRow line0)) (SplitTableRow l)) row) body rows.
Proof.
  unfold convertTable. destruct lines as [|line0 [|line1 body]]; [done..|]. destruct (negb _); [done|]. destruct (negb _); [done|].
  destruct (write_row _ (SplitTableRow line0)) as [heads|] eqn:Hh; cbn [rbind]; [|done].
  destruct (map_result _ body) as [rows|] eqn:Hr; cbn [rbind]; [|done]. intros [= <-]. exists line0, line1, body, heads, rows.
  pose proof (splitRow_nonempty line0) as Hne. split_and!; [done..| |].
  - apply (write_row_reads true); [done|exact Hh].
  - apply map_result_ok in Hr. eapply Forall2_impl; [exact Hr|]. intros l row. unfold body_row. destruct (_ <? _)%nat eqn:Hw; [done|]. bool_hyps.
    intros Hrow. split; [done|]. apply (write_row_reads false); [|exact Hrow]. intros Hp. apply (f_equal length) in Hp. rewrite pad_length in Hp by done.
    by destruct (SplitTableRow line0).
Qed.

(** ** Code blocks *)

Lemma split_lines_part l s : l ∈ split_lines s → ∃ a b, s = a ++ l ++ b.
Proof.
  revert l. induction s as [|c s IH]; intros l H; [apply list_elem_of_singleton in H as ->; by exists [], []|]. cbn [split_lines] in H.
  destruct (is_byte newline c); [apply elem_of_cons in H as [->|H]; [by exists [], (c :: s)|destruct (IH _ H) as (a & b & ->); by exists (c :: a), b]|].
  pose proof (WikiScanner.split_lines_nonempty s). pose proof (join_split_lines s) as Hj. destruct (split_lines s) as [|l0 ls] eqn:Hs; [done|].
  apply elem_of_cons in H as [->|H].
  - destruct (IH l0 ltac:(left)) as (a & b & _). exists []. destruct ls as [|l1 ls]; cbn [join_lines] in Hj; subst s; [exists []; by rewrite app_nil_r|by eexists].
  - destruct (IH l ltac:(by right)) as (a & b & ->). by exists (c :: a), b.
Qed.

Lemma contains_part a l b p : contains (a ++ l ++ b) p = false → contains l p = false.
Proof.
  intros H. apply not_true_iff_false. intros Hc. apply not_true_iff_false in H. apply H. unfold contains in Hc. apply bool_decide_eq_true in Hc as [k Hk].
  apply index_spec in Hk as (Hp & Hk & _). apply has_prefix_spec in Hp as [r Hr]. apply (contains_at _ _ (length a + k)).
  - rewrite !length_app. lia.
  - rewrite <- drop_drop, drop_app_length, drop_app_le by done. rewrite Hr, <- app_assoc. apply has_prefix_spec. by eexists.
Qed.

Lemma run_loop_mono s run run' longest longest' : (run ≤ run')%nat → (longest ≤ longest')%nat → (run_loop s run longest ≤ run_loop s run' longest')%nat.
Proof.
  revert run run' longest longest'. induction s as [|c s IH]; intros run run' longest longest' Hr Hl; [done|]. cbn [run_loop].
  destruct (is_byte backtick c); apply IH; lia.
Qed.
Lemma run_loop_skip a s run longest : (run_loop s 0 0 ≤ run_loop (a ++ s) run longest)%nat.
Proof.
  revert run longest. induction a as [|c a IH]; intros run longest; [apply run_loop_mono; lia|]. cbn [app run_loop]. destruct (is_byte backtick c); apply IH.
Qed.
Lemma run_loop_longest s run longest : (longest ≤ run_loop s run longest)%nat.
Proof.
  revert run longest. induction s as [|c s IH]; intros run longest; [done|]. cbn [run_loop]. destruct (is_byte backtick c); [|apply IH]. etransitivity; [|apply IH]. lia.
Qed.
Lemma run_loop_ticks k b run longest : (0 < k → run + k ≤ run_loop (repeat backtick k ++ b) run longest)%nat.
Proof.
  revert run longest. induction k as [|k IH]; intros run longest Hk; [lia|]. cbn [repeat app run_loop]. change (is_byte backtick backtick) with true. cbn iota.
  destruct k as [|k]; [|specialize (IH (S run) (Nat.max longest (S run)) ltac:(lia)); lia].
  cbn [repeat app]. transitivity (Nat.max longest (S run)); [lia|]. apply run_loop_longest.
Qed.
Lemma longest_run a k b : (k ≤ longestBacktickRun (a ++ repeat backtick k ++ b))%nat.
Proof.
  destruct (decide (k = 0)%nat) as [->|Hk]; [lia|]. unfold longestBacktickRun. etransitivity; [|apply run_loop_skip]. pose proof (run_loop_ticks k b 0 0). lia.
Qed.

Lemma span_ticks s : ∃ k, fst (span (is_byte backtick) s) = repeat backtick k.
Proof.
  induction s as [|c s [k IH]]; [by exists 0%nat|]. cbn [span]. destruct (is_byte backtick c) eqn:Hc; [|by exists 0%nat].
  apply bool_decide_eq_true in Hc as ->. exists (S k). destruct (span _ s). cbn in *. by rewrite IH.
Qed.
Lemma drop_spaces_suffix n s : ∃ a, s = a ++ WikiScanner.drop_spaces n s.
Proof.
  revert s. induction n as [|n IH]; intros s; [by exists []|]. destruct s as [|c s]; [by exists []|]. cbn [WikiScanner.drop_spaces].
  destruct (is_byte " "%char c); [|by exists []]. destruct (IH s) as [a Ha]. exists (c :: a). cbn. by f_equal.
Qed.

(** No line of a text closes a fence longer than its longest run of backticks. *)
Lemma no_early_close l s n : l ∈ split_lines s → (longestBacktickRun s < n)%nat → IsMarkdownFenceClose l n = false.
Proof.
  intros Hl Hn. unfold IsMarkdownFenceClose. destruct (n <? 3)%nat; [done|]. apply split_lines_part in Hl as (a & b & ->).
  destruct (drop_spaces_suffix 3 l) as [sp Hsp]. pose proof (WikiScanner.span_app (is_byte backtick) (WikiScanner.drop_spaces 3 l)) as Happ.
  destruct (span_ticks (WikiScanner.drop_spaces 3 l)) as [k Hk]. destruct (span _ _) as [run rest]. cbn [fst snd] in *.
  apply andb_false_iff. left. apply Nat.leb_gt. subst run. rewrite repeat_length.
  pose proof (longest_run (a ++ sp) k (rest ++ b)) as Hle. rewrite Hsp, <- Happ in Hn. rewrite <- !app_assoc in *. lia.
Qed.

Lemma lang_solid c : lang_byte c = true → ascii_solid c = true ∧ is_byte backtick c = false ∧ not_newline c = true ∧ is_byte "|"%char c = false ∧
  is_byte "="%char c = false ∧ is_byte "}"%char c = false.
Proof.
  intros H. pose proof (all_bytes (λ c, negb (lang_byte c) || (ascii_solid c && negb (is_byte backtick c) && not_newline c && negb (is_byte "|"%char c) &&
    negb (is_byte "="%char c) && negb (is_byte "}"%char c))) ltac:(vm_compute; reflexivity) c) as Hc. cbn beta in Hc. rewrite H in Hc. cbn [negb orb] in Hc.
  rewrite !andb_true_iff, !negb_true_iff in Hc. tauto.
Qed.
Lemma forallb_weaken (p q : ascii → bool) s : (∀ c, p c = true → q c = true) → forallb p s = true → forallb q s = true.
Proof. intros H. rewrite !forallb_forall. auto. Qed.

Lemma lang_not b s : lang_byte b = false → forallb lang_byte s = true → forallb (λ c, negb (is_byte b c)) s = true.
Proof. intros Hb. apply forallb_weaken. intros c Hc. apply negb_true_iff, bool_decide_eq_false. intros ->. congruence. Qed.

(** A fence of [n] backticks with an info string, and its bare counterpart. *)
Lemma fence_open n lang : (3 ≤ n)%nat → forallb lang_byte lang = true → ParseMarkdownFenceOpen (repeat backtick n ++ lang) = Some (n, lang).
Proof.
  intros Hn Hl. unfold ParseMarkdownFenceOpen. assert (WikiScanner.drop_spaces 3 (repeat backtick n ++ lang) = repeat backtick n ++ lang) as ->.
  { destruct n as [|n]; [lia|]. done. }
  rewrite span_all_app.
  - rewrite repeat_length, (proj2 (Nat.ltb_ge n 3)) by done. cbn [orb].
    assert (existsb (is_byte backtick) lang = false) as ->; [|done]. apply not_true_iff_false. rewrite existsb_exists. intros (c & Hin & Hc).
    rewrite forallb_forall in Hl. specialize (Hl c Hin). apply lang_solid in Hl as (_ & Hb & _). congruence.
  - apply forallb_forall. intros c Hc%repeat_spec. by subst c.
  - intros c Hc. destruct lang as [|d lang]; [done|]. injection Hc as ->. cbn [forallb] in Hl. bool_hyps. by destruct (lang_solid c) as (_ & ? & _).
Qed.
Lemma fence_close n : (3 ≤ n)%nat → IsMarkdownFenceClose (repeat backtick n) n = true.
Proof.
  intros Hn. unfold IsMarkdownFenceClose. rewrite (proj2 (Nat.ltb_ge n 3)) by done.
  assert (WikiScanner.drop_spaces 3 (repeat backtick n) = repeat backtick n ++ []) as -> by (rewrite app_nil_r; by destruct n).
  rewrite span_all_app by (done || (apply forallb_forall; by intros c Hc%repeat_spec; subst c)). rewrite repeat_length, Nat.leb_refl. done.
Qed.

Lemma ticks_line n : forallb not_newline (repeat backtick n) = true.
Proof. apply forallb_forall. intros c Hc%repeat_spec. by subst c. Qed.

(** The lines of a fenced block and of a code macro around a body. *)
Definition framed (first body last : text) : text := first ++ newline :: body ++ newline :: last.
Lemma split_framed first body last_ : forallb not_newline first = true → forallb not_newline last_ = true →
  split_lines (framed first body last_) = first :: split_lines body ++ [last_].
Proof. intros Hf Hl. unfold framed. rewrite WikiScanner.split_lines_app, split_lines_one by done. cbn [app]. by rewrite WikiScanner.split_lines_app, (split_lines_one last_). Qed.

Lemma no_cr_body body : forallb (λ c, negb (is_byte cr c)) body = true → fence_body (split_lines body) = body.
Proof.
  intros Hc. unfold fence_body. rewrite join_split_lines.
  assert (∀ fuel s, (length s ≤ fuel)%nat → forallb (λ c, negb (is_byte cr c)) s = true → replace_fuel fuel s [cr; newline] [newline] = s) as Hr.
  { intros fuel. induction fuel as [|fuel IH]; intros s Hf Hs; [destruct s; [done|simpl in Hf; lia]|]. destruct s as [|c s]; [done|]. cbn [replace_fuel].
    cbn [forallb] in Hs. bool_hyps. simpl in Hf. destruct (has_prefix (c :: s) _) eqn:Hp; [|by rewrite IH by (done || lia)].
    apply has_prefix_spec in Hp as [r [= -> _]]. done. }
  unfold replace_all. rewrite Hr by done. unfold trim_suffix. destruct (has_suffix body [cr]) eqn:Hs; [|done]. exfalso.
  unfold has_suffix in Hs. apply bool_decide_eq_true in Hs as [Hd Hlen]. rewrite <- (take_drop (length body - length [cr]) body), Hd, forallb_app in Hc. by apply andb_true_iff in Hc as [_ Hc].
Qed.

Definition code_tag (lang : text) : text := if eqt lang [] then txt "{code}" else txt "{code:" ++ lang ++ txt "}".

Lemma code_open lang : forallb lang_byte lang = true → ParseCodeOpen (code_tag lang) = Some (txt "code", lang, []) ∧ forallb not_newline (code_tag lang) = true.
Proof.
  intros Hl. unfold code_tag. destruct (eqt lang []) eqn:He; [apply eqt_true in He as ->; split; vm_compute; reflexivity|].
  assert (forallb (λ c, negb (is_byte "}"%char c)) lang = true) as Hb by by apply lang_not.
  split.
  - unfold ParseCodeOpen, WikiScanner.after. rewrite (proj2 (has_prefix_spec _ _)) by by exists (":"%char :: lang ++ txt "}"). cbn [mbind option_bind].
    change (drop (length (txt "{" ++ txt "code")) (txt "{code:" ++ lang ++ txt "}")) with (":"%char :: lang ++ txt "}").
    unfold WikiScanner.macro_open. change (is_byte ":"%char ":"%char) with true. cbn iota. rewrite (span_all_app _ lang (txt "}")); [done|done|by intros c [= <-]].
  - cbn. rewrite forallb_app. cbn. rewrite andb_true_r. by apply (lang_not newline).
Qed.

Lemma codeLang_lang lang : forallb lang_byte lang = true → codeLang lang = lang.
Proof.
  intros Hl. unfold codeLang. destruct (eqt lang []) eqn:He; [by apply eqt_true in He|].
  assert (forallb (λ c, negb (is_byte "|"%char c)) lang = true) as Hb by by apply lang_not.
  assert (forallb (λ c, negb (is_byte "="%char c)) lang = true) as Hq by by apply lang_not.
  change lang with (join (txt "|") [lang]) at 1. rewrite (split_join_free "|"%char) by (done || by repeat constructor). cbn [lang_loop].
  rewrite trim_space_all_solid by (eapply forallb_weaken; [|exact Hl]; intros c Hc; by apply lang_solid).
  unfold cut. rewrite (free_index_none "="%char) by done. unfold lang_only. clear -Hl. induction lang as [|c lang IH]; [done|]. cbn [forallb] in Hl. bool_hyps.
  rewrite filter_cons_True by done. by rewrite IH.
Qed.

Lemma macro_lines_code body : contains body (txt "{code}") = false →
  macro_lines (λ s, negb (eqt s [])) (txt "{code}") (split_lines body ++ [txt "{code}"]) = (split_lines body, []).
Proof.
  intros Hc. assert (∀ l, l ∈ split_lines body → index l (txt "{code}") = None) as Hl.
  { intros l (a & b & ->)%split_lines_part. apply contains_part in Hc. unfold contains in Hc. apply bool_decide_eq_false in Hc.
    destruct (index l _) eqn:Hi; [|done]. destruct Hc. by eexists. }
  revert Hl. generalize (split_lines body). intros ls Hl. induction ls as [|l ls IH]; [vm_compute; reflexivity|]. cbn [app macro_lines].
  rewrite (Hl l) by (left). rewrite IH; [done|]. intros l' H'. apply Hl. by right.
Qed.

(** Code survives the way from the view to the wiki text and back.  For a
    language and a body without carriage returns, line ends at its edges or the
    closing tag, the fence the renderer writes is one Markdown block whatever
    backticks the body holds, the converter turns it into the code macro around
    exactly that body, and the renderer reads this macro as the same fence. *)
Theorem code_round_trip lang body : forallb lang_byte lang = true → forallb (λ c, negb (is_byte cr c)) body = true →
  trim_byte newline body = body → contains body (txt "{code}") = false →
  let view := fence lang body in
  let wiki := framed (code_tag lang) body (txt "{code}") in
  ∃ block, SplitBlocks view = [block] ∧ convertFence (split_lines block) = Ok wiki ∧
    ∃ line0 lines, split_lines wiki = line0 :: lines ∧ ParseCodeOpen line0 = Some (txt "code", lang, []) ∧
      codeBlock (txt "code") lang [] lines = (view, []).
Proof.
  intros Hl Hcr Ht Hc view wiki. destruct (code_open lang Hl) as [Hopen Htag].
  set (n := if (3 <=? longestBacktickRun body)%nat then S (longestBacktickRun body) else 3%nat).
  assert (3 ≤ n ∧ longestBacktickRun body < n)%nat as [Hn Hrun]. { unfold n. destruct (3 <=? longestBacktickRun body)%nat eqn:E; bool_hyps; lia. }
  set (first := repeat backtick n ++ lang). set (block := framed first body (repeat backtick n)).
  assert (view = block ++ [newline]) as Hview.
  { unfold view, fence, block, framed, first. rewrite Ht. fold n. cbn [app]. rewrite <- !app_assoc. cbn [app]. by rewrite <- !app_assoc. }
  assert (forallb not_newline first = true) as Hfirst.
  { unfold first. rewrite forallb_app, ticks_line. by apply (lang_not newline). }
  assert (split_lines block = first :: split_lines body ++ [repeat backtick n]) as Hblock by (apply split_framed; [done|apply ticks_line]).
  assert (ParseMarkdownFenceOpen first = Some (n, lang)) as Hfo by by apply fence_open.
  exists block. split_and!.
  - unfold SplitBlocks. rewrite Hview. rewrite WikiScanner.split_lines_app, Hblock. cbn [WikiScanner.blocks_loop Nat.ltb Nat.leb app split_lines].
    assert (eqt (trim_space first) [] = false) as ->.
    { apply eqt_false. unfold first. destruct n as [|k]; [lia|]. cbn [repeat app]. destruct (trim_space_head backtick (repeat backtick k ++ lang)) as [s' ->]; [by vm_compute..|done]. }
    rewrite Hfo. cbn [WikiScanner.flush app]. rewrite <- (join_split_lines block), Hblock.
    assert (∀ ls cur, (∀ l, l ∈ ls → IsMarkdownFenceClose l n = false) → cur ≠ [] → WikiScanner.blocks_loop ((ls ++ [repeat backtick n]) ++ [[]]) n cur = [join_lines (cur ++ ls ++ [repeat backtick n])]) as Hloop.
    { intros ls. induction ls as [|l ls IH]; intros cur Hls Hcur; cbn [app WikiScanner.blocks_loop]; rewrite (proj2 (Nat.ltb_lt 0 n)) by lia.
      - rewrite fence_close by done. cbn [Nat.ltb Nat.leb]. unfold WikiScanner.flush. by destruct cur.
      - rewrite (Hls l) by (left). rewrite IH; [by rewrite <- app_assoc| |by destruct cur]. intros l' H'. apply Hls. by right. }
    apply (Hloop (split_lines body) [first]); [|done]. intros l Hin. by eapply no_early_close.
  - unfold convertFence. rewrite Hblock. change (default [] (head (first :: split_lines body ++ [repeat backtick n]))) with first. rewrite Hfo.
    rewrite trim_space_all_solid by (eapply forallb_weaken; [|exact Hl]; intros c Hcl; by apply lang_solid). rewrite Hl. cbn [negb].
    cbn [length pred]. rewrite length_app. cbn [length]. rewrite Nat.add_1_r. cbn [Nat.eqb orb].
    assert ((first :: split_lines body ++ [repeat backtick n]) !! S (length (split_lines body)) = Some (repeat backtick n)) as ->.
    { change ((?x :: ?xs) !! S ?k) with (xs !! k). rewrite lookup_app_r by done. by rewrite Nat.sub_diag. }
    cbn [default from_option id]. rewrite fence_close by done. cbn [negb].
    assert (slice (first :: split_lines body ++ [repeat backtick n]) 1 (S (length (split_lines body))) = split_lines body) as ->.
    { unfold slice. cbn [drop Nat.sub]. rewrite drop_0, Nat.sub_0_r. apply take_app_length. }
    rewrite no_cr_body, Hc by done. unfold wiki, framed, code_tag. done.
  - exists (code_tag lang), (split_lines body ++ [txt "{code}"]). split_and!; [by apply split_framed|done|].
    unfold codeBlock. change (eqt (txt "code") (txt "code")) with true. cbn iota. rewrite codeLang_lang by done.
    unfold macro_body. change (txt "{" ++ txt "code" ++ txt "}") with (txt "{code}"). change (index [] (txt "{code}")) with (@None nat). cbn iota.
    rewrite macro_lines_code by done. change (negb (eqt [] [])) with false. cbn iota. cbn [app]. by rewrite join_split_lines.
Qed.

(** ** The merge of [jira apply]

    The parameters of [WikiMerge.Merge] are the renderer and the converter of this
    development; the message of a refusal is its construct and detail. *)

Definition converter (offset : Z) (md : text) : result text text :=
  match ConvertBlockWithOptions md offset with Ok out => Ok out | Err e => Err (Construct e ++ txt ": " ++ Detail e) end.
Definition MergeView (opts : Options) (base edited : text) (allowLoss : bool) :=
  WikiMerge.Merge (λ wiki, Render wiki opts) (converter (HeadingOffset opts)) base edited allowLoss.

Module Demo.
Definition lines ls : text := join_lines (map txt ls).
Definition base : text := lines ["h1. Title"; ""; "* a"; "** b"; ""; "||x||y||"; "|1|2|"; ""; "{code:go}"; "z"; "{code}"].
Definition edited : text := lines ["# Title"; ""; "- a"; "  - c"; ""; "| x | y |"; "| --- | --- |"; "| 1 | 2 |"; ""; "```go"; "z"; "```"].

(** One bullet is edited: the other three blocks keep their bytes. *)
Example merge_view : MergeView plain_options base edited false =
  (Some (lines ["h1. Title"; ""; "* a"; "** c"; ""; "||x||y||"; "|1|2|"; ""; "{code:go}"; "z"; "{code}"]),
   Some {| WikiMerge.Unchanged := 3; WikiMerge.Moved := 0; WikiMerge.Converted := 1; WikiMerge.Removed := 1; WikiMerge.RemovedConstructs := [] |}, None).
Proof. vm_compute. reflexivity. Qed.

(** The view of a whole body, rendered at once, is an unedited edit of it: a
    paragraph runs into a list, a code block holds an empty line. *)
Definition page : text := lines ["h1. Title"; ""; "para *bold*"; "* a"; "** b"; ""; ""; "||x||y||"; "|1|2|"; "{code:go}"; "z"; ""; "{color:red}"; "{code}"; ""; "[~jdoe] end"; ""].
Definition page_view : text := Render page plain_options.
Lemma Merge_roundtrip_witness : MergeView plain_options page page_view false =
  (Some page, Some {| WikiMerge.Unchanged := 6; WikiMerge.Moved := 0; WikiMerge.Converted := 0; WikiMerge.Removed := 0; WikiMerge.RemovedConstructs := [] |}, None).
Proof.
  exact (WikiMerge.Merge_roundtrip (λ wiki, Render wiki plain_options) (converter (HeadingOffset plain_options)) page page_view false
    ltac:(vm_compute; reflexivity) ltac:(vm_compute; reflexivity)).
Defined.

Definition table : list text := map txt ["| a | **b** |"; "|---|:-:|"; "| 1 |"].
Lemma convertTable_reads_witness : ∃ heads row, convertTable table = Ok (join_lines [heads; row]) ∧
  row_reads true [txt "a"; txt "**b**"] heads ∧ row_reads false [txt "1"; []] row.
Proof.
  destruct (convertTable_reads table (lines ["||a||*b*||"; "|1| |"]) ltac:(vm_compute; reflexivity)) as (l0 & l1 & body & heads & rows & Hl & Ho & Hh & Hb).
  injection Hl as <- <- <-. inversion Hb as [|? row ? rows' [_ Hr] Hn]; subst. inversion Hn; subst. exists heads, row.
  split; [vm_compute in Ho |- *; by rewrite Ho|]. split; [exact Hh|exact Hr].
Defined.

Lemma code_round_trip_witness : ∃ block wiki, SplitBlocks (fence (txt "go") (lines ["a```b"; ""; "c"])) = [block] ∧ convertFence (split_lines block) = Ok wiki.
Proof.
  destruct (code_round_trip (txt "go") (lines ["a```b"; ""; "c"])) as (block & Hs & Hc & _); [vm_compute; reflexivity..|].
  exists block. eexists. split; [exact Hs|exact Hc].
Defined.

(** The renderer against its own comment: a code block loses blank lines. *)
Example code_not_verbatim : Render (lines ["{code}"; "a"; ""; ""; "b"; "{code}"]) plain_options = lines ["```"; "a"; ""; "b"; "```"].
Proof. vm_compute. reflexivity. Qed.
(** A backslash the converter leaves bare becomes a line break of the view. *)
Example backslash_view : Render (txt "\\{x") plain_options ≠ txt "\{x".
Proof. vm_compute. discriminate. Qed.
End Demo.
End WikiView.
