(* ===== verification/HttpScheduler.v ===== *)
(** * The HTTP attempt scheduler (internal/httpx/scheduler.go)

    Every HTTP attempt of a command passes one [Scheduler]: a counting semaphore
    of permits, a pace between starts and a cooldown that servers extend through
    Retry-After.  [RoundTrip] and the response body it returns run as interleaved
    goroutines over the shared scheduler; a step is one channel operation or one
    critical section of the mutex.  Times are nanoseconds since the zero
    [time.Time]; only [LTick] moves the clock. *)

From S2P Require Import Prelude.

Module HttpScheduler.
Local Open Scope Z_scope.
Local Open Scope atl_scope.

Definition Second : Z := 1000000000.
Notation tid := nat (only parsing).

Definition transientRetryStatus (status : Z) : bool := (status =? 429) || (500 <=? status).

Record Scheduler := { capacity : Z; interval : Z; next : Z; cooldown : Z }.

Inductive schedulerError := BadInFlight | BadRate.

Definition NewScheduler (maxInFlight requestsPerSecond : Z) : result schedulerError Scheduler :=
  if (maxInFlight <? 1) || (32 <? maxInFlight) then Err BadInFlight
  else if (requestsPerSecond <? 0) || (1000 <? requestsPerSecond) then Err BadRate
  else Ok {| capacity := maxInFlight; interval := if 0 <? requestsPerSecond then Second / requestsPerSecond else 0; next := 0; cooldown := 0 |}.

(** ** Goroutines *)

(** How [RoundTrip] and the body it returned can end. *)
Inductive outcome := Cancelled | DispatchExpired | TransportFailed | NoBody | BodyReleased.

(** Program points.  [Waiting] selects on the permit channel, [Pacing] is the top
    of the loop of [acquire], [Parking] and [Sleeping] are inside [sleep],
    [Refused] has left [acquire] with an error, [Deferring] is inside [deferFor],
    [Returning] is about to release the permit with an outcome, or to hand out the
    body, and [Streaming] is a response body whose release has not run. *)
Inductive point :=
| Waiting
| Pacing
| Parking (start : Z)
| Sleeping (start : Z)
| Refused
| Dispatched
| Deferring (until : Z) (o : option outcome)
| Returning (o : option outcome)
| Streaming
| Finished (o : outcome).

(** A request with the deadline of its dispatch, if it has one, and whether its
    context has ended. *)
Record request := { at_ : point; notAfter : option Z; ended : bool }.

(** What the base transport returns: an error, or the status, the Retry-After
    delay and whether there is a body. *)
Inductive reply := Failure | Response (status retryAfter : Z) (body : bool).

(** [permits] is the length of the buffered channel. [starts] and [deferrals] are
    the admissions and the cooldowns published, the latest first. *)
Record state := { sched : Scheduler; permits : Z; clock : Z; requests : gmap tid request; starts : list Z; deferrals : list Z }.

Definition init (s : Scheduler) (now : Z) : state :=
  {| sched := s; permits := 0; clock := now; requests := ∅; starts := []; deferrals := [] |}.

Inductive label :=
| LTick (d : Z)
| LRequest (t : tid) (notAfter : option Z)
| LEnd (t : tid)
| LRun (t : tid)
| LStop (t : tid)
| LReply (t : tid) (r : reply)
| LRelease (t : tid).

Definition move (t : tid) (r : request) (p : point) (σ : state) : state :=
  {| sched := sched σ; permits := permits σ; clock := clock σ;
     requests := <[t := {| at_ := p; notAfter := notAfter r; ended := ended r |}]> (requests σ); starts := starts σ; deferrals := deferrals σ |}.
Definition with_permits (n : Z) (σ : state) : state :=
  {| sched := sched σ; permits := n; clock := clock σ; requests := requests σ; starts := starts σ; deferrals := deferrals σ |}.
(** [release]: receive from the permit channel. *)
Definition release (σ : state) : state := with_permits (permits σ - 1) σ.

(** [waitCtx.Done()]: the request's context has ended or its dispatch is late. *)
Definition wait_over (now : Z) (r : request) : bool :=
  ended r || match notAfter r with Some d => d <=? now | None => false end.

(** The start the critical section of [acquire] computes. *)
Definition start_time (s : Scheduler) : Z := if next s <? cooldown s then cooldown s else next s.

Definition admit_start (t : tid) (r : request) (σ : state) : state :=
  let s := sched σ in
  let next' := if 0 <? interval s then clock σ + interval s else next s in
  let σ := move t r Dispatched σ in
  {| sched := {| capacity := capacity s; interval := interval s; next := next'; cooldown := cooldown s |};
     permits := permits σ; clock := clock σ; requests := requests σ; starts := clock σ :: starts σ; deferrals := deferrals σ |}.

Definition publish (until : Z) (σ : state) : state :=
  let s := sched σ in
  {| sched := {| capacity := capacity s; interval := interval s; next := next s; cooldown := if cooldown s <? until then until else cooldown s |};
     permits := permits σ; clock := clock σ; requests := requests σ; starts := starts σ; deferrals := until :: deferrals σ |}.

(** One step of a running goroutine; [None] when it waits for its environment. *)
Definition run (t : tid) (r : request) (σ : state) : option state :=
  match at_ r with
  | Waiting => if permits σ <? capacity (sched σ) then Some (move t r Pacing (with_permits (permits σ + 1) σ)) else None
  | Pacing =>
      let start := start_time (sched σ) in
      if start <=? clock σ then Some (admit_start t r σ) else Some (move t r (Parking start) σ)
  | Parking start => Some (move t r (if start - clock σ <=? 0 then Pacing else Sleeping start) σ)
  | Sleeping start => if start <=? clock σ then Some (move t r Pacing σ) else None
  | Refused => Some (move t r (Finished (if ended r then Cancelled else DispatchExpired)) σ)
  | Deferring until o => Some (move t r (Returning o) (publish until σ))
  | Returning None => Some (move t r Streaming σ)
  | Returning (Some o) => Some (move t r (Finished o) (release σ))
  | Dispatched | Streaming | Finished _ => None
  end.

Definition do_step (a : label) (σ : state) : option state :=
  match a with
  | LTick d =>
      if 0 <? d then Some {| sched := sched σ; permits := permits σ; clock := clock σ + d; requests := requests σ; starts := starts σ; deferrals := deferrals σ |}
      else None
  | LRequest t late =>
      match requests σ !! t with
      | Some _ => None
      | None => Some (move t {| at_ := Waiting; notAfter := late; ended := false |} Waiting σ)
      end
  | LEnd t => r ← requests σ !! t; Some (move t {| at_ := at_ r; notAfter := notAfter r; ended := true |} (at_ r) σ)
  | LRun t => r ← requests σ !! t; run t r σ
  | LStop t =>
      r ← requests σ !! t;
      if wait_over (clock σ) r then
        match at_ r with
        | Waiting => Some (move t r Refused σ)
        | Sleeping _ => Some (move t r Refused (release σ))
        | _ => None
        end
      else None
  | LReply t rep =>
      r ← requests σ !! t;
      match at_ r with
      | Dispatched =>
          match rep with
          | Failure => Some (move t r (Returning (Some TransportFailed)) σ)
          | Response status delay body =>
              let o := if body then None else Some NoBody in
              Some (move t r (if transientRetryStatus status && (0 <? delay) then Deferring (clock σ + delay) o else Returning o) σ)
          end
      | _ => None
      end
  | LRelease t =>
      (* a failed Read or a Close; [once] makes the later ones no-ops *)
      r ← requests σ !! t;
      match at_ r with
      | Streaming => Some (move t r (Finished BodyReleased) (release σ))
      | Finished BodyReleased => Some σ
      | _ => None
      end
  end.

Inductive reachable (s : Scheduler) (now : Z) : state → Prop :=
| reach_init : reachable s now (init s now)
| reach_step a σ σ' : reachable s now σ → do_step a σ = Some σ' → reachable s now σ'.

Fixpoint run_labels (ls : list label) (σ : state) : option state :=
  match ls with
  | [] => Some σ
  | a :: ls => σ' ← do_step a σ; run_labels ls σ'
  end.

(** ** Permits *)

Definition holds (p : point) : bool :=
  match p with
  | Pacing | Parking _ | Sleeping _ | Dispatched | Deferring _ _ | Returning _ | Streaming => true
  | Waiting | Refused | Finished _ => false
  end.
Definition holders (m : gmap tid request) : gmap tid request := filter (λ kr, holds (at_ kr.2) = true) m.
Definition held (m : gmap tid request) : Z := Z.of_nat (size (holders m)).

Lemma held_insert_new m t r : m !! t = None → held (<[t := r]> m) = held m + Z.b2z (holds (at_ r)).
Proof.
  intros Hm. unfold held, holders. destruct (holds (at_ r)) eqn:Hr.
  - rewrite map_filter_insert_True by done. rewrite map_size_insert_None; [cbn; lia|]. by rewrite map_lookup_filter, Hm.
  - rewrite map_filter_insert_False by (cbn; congruence). rewrite delete_id by done. cbn. lia.
Qed.
Lemma held_delete m t r : m !! t = Some r → held m = held (delete t m) + Z.b2z (holds (at_ r)).
Proof. intros Hm. rewrite <- (held_insert_new (delete t m) t r) by apply lookup_delete_eq. by rewrite insert_delete_eq, insert_id. Qed.
Lemma held_move m t r r' : m !! t = Some r → held (<[t := r']> m) = held m - Z.b2z (holds (at_ r)) + Z.b2z (holds (at_ r')).
Proof.
  intros Hm. rewrite (held_delete m t r Hm), <- (insert_delete_eq m t r'), held_insert_new by apply lookup_delete_eq. lia.
Qed.

(** ** The invariant *)

Record Inv (σ : state) : Prop := {
  I_permits : permits σ = held (requests σ);
  I_bound : permits σ ≤ capacity (sched σ);
  I_pace : 0 ≤ interval (sched σ);
  I_next : 0 < interval (sched σ) → Forall (λ s, s + interval (sched σ) ≤ next (sched σ)) (starts σ);
  I_past : Forall (λ s, s ≤ clock σ) (starts σ);
  I_spaced : StronglySorted (λ a b, b + interval (sched σ) ≤ a) (starts σ);
  I_cooldown : Forall (λ d, d ≤ cooldown (sched σ)) (deferrals σ)
}.

Lemma NewScheduler_ok m r s : NewScheduler m r = Ok s →
  capacity s = m ∧ 1 ≤ m ≤ 32 ∧ 0 ≤ r ≤ 1000 ∧ interval s = (if 0 <? r then Second / r else 0).
Proof. unfold NewScheduler. destruct ((m <? 1) || _) eqn:H1; [done|]. destruct ((r <? 0) || _) eqn:H2; [done|]. intros [= <-]. bool_hyps. cbn. lia. Qed.

Lemma pace_init_Inv m r s now : NewScheduler m r = Ok s → Inv (init s now).
Proof.
  intros (Hc & Hm & Hr & Hi)%NewScheduler_ok. split; cbn; try constructor; try done; try lia.
  - rewrite Hi. destruct (0 <? r) eqn:H; [|lia]. bool_hyps. apply Z.div_pos; [done|lia].
Qed.

(** A step of one request that touches only the permits. *)
Lemma Inv_permits σ t r p n : Inv σ → requests σ !! t = Some r → n = permits σ - Z.b2z (holds (at_ r)) + Z.b2z (holds p) →
  n ≤ capacity (sched σ) → Inv (move t r p (with_permits n σ)).
Proof.
  intros [Hp Hb Hi Hn Hc Hs Hd] Hr -> Hle. split; cbn in *; try done. rewrite (held_move _ _ r) by done. cbn. by rewrite Hp.
Qed.
Lemma pace_Inv_move σ t r r' p : Inv σ → requests σ !! t = Some r → holds p = holds (at_ r) → Inv (move t r' p σ).
Proof.
  intros [Hp Hb Hi Hn Hc Hs Hd] Hr He. split; cbn in *; try done. rewrite (held_move _ _ r) by done. cbn. rewrite Hp, He. lia.
Qed.
Lemma pace_Inv_release σ t r p : Inv σ → requests σ !! t = Some r → holds (at_ r) = true → holds p = false → Inv (move t r p (release σ)).
Proof.
  intros HI Hr Ht Hf. apply Inv_permits; [done..| |]; rewrite ?Ht, ?Hf; [cbn; lia|]. pose proof (I_bound σ HI). lia.
Qed.

Lemma admit_ready σ : start_time (sched σ) ≤ clock σ → next (sched σ) ≤ clock σ ∧ cooldown (sched σ) ≤ clock σ.
Proof. unfold start_time. destruct (_ <? _) eqn:H; bool_hyps; lia. Qed.

Lemma pace_Inv_admit σ t r : Inv σ → requests σ !! t = Some r → at_ r = Pacing → start_time (sched σ) ≤ clock σ → Inv (admit_start t r σ).
Proof.
  intros HI Hr Ha (Hn & Hc)%admit_ready. assert (Inv (move t r Dispatched σ)) as [Ip Ib Ii In Ic Is Id] by (apply (pace_Inv_move σ t r); [done..|by rewrite Ha]).
  assert (Forall (λ s, s + interval (sched σ) ≤ clock σ) (starts σ)) as Hgap.
  { destruct (decide (0 < interval (sched σ))) as [Hi|Hi].
    - eapply Forall_impl; [exact (I_next σ HI Hi)|]. cbn. lia.
    - eapply Forall_impl; [exact (I_past σ HI)|]. pose proof (I_pace σ HI). cbn. lia. }
  split; cbn in *; try done.
  - intros Hi. rewrite (proj2 (Z.ltb_lt 0 (interval (sched σ))) Hi). constructor; [lia|]. eapply Forall_impl; [exact Hgap|]. cbn. lia.
  - by constructor; [lia|].
  - by constructor.
Qed.

Lemma Inv_publish σ until : Inv σ → Inv (publish until σ).
Proof.
  intros [Hp Hb Hi Hn Hc Hs Hd]. split; cbn in *; try done. destruct (_ <? _) eqn:H; bool_hyps; constructor; try lia.
  - eapply Forall_impl; [exact Hd|]. cbn. lia.
  - done.
Qed.

Lemma pace_run_Inv σ t r σ' : Inv σ → requests σ !! t = Some r → run t r σ = Some σ' → Inv σ'.
Proof.
  intros HI Hr. unfold run. destruct (at_ r) as [| |start|start| | |until o|[o|]| |o] eqn:Ha; try done.
  - destruct (_ <? _) eqn:Hc; [|done]. intros [= <-]. bool_hyps. apply Inv_permits; [done..| |lia]. rewrite Ha. cbn. lia.
  - destruct (_ <=? _) eqn:Hc; intros [= <-]; bool_hyps; [by apply pace_Inv_admit|]. apply (pace_Inv_move σ t r); [done..|by rewrite Ha].
  - intros [= <-]. apply (pace_Inv_move σ t r); [done..|]. rewrite Ha. by destruct (_ <=? _).
  - destruct (_ <=? _); [|done]. intros [= <-]. apply (pace_Inv_move σ t r); [done..|by rewrite Ha].
  - intros [= <-]. apply (pace_Inv_move σ t r); [done..|by rewrite Ha].
  - intros [= <-]. apply (pace_Inv_move (publish until σ) t r); [by apply Inv_publish|done|by rewrite Ha].
  - intros [= <-]. apply pace_Inv_release; [done..|by rewrite Ha|done].
  - intros [= <-]. apply (pace_Inv_move σ t r); [done..|by rewrite Ha].
Qed.

Lemma pace_step_Inv a σ σ' : Inv σ → do_step a σ = Some σ' → Inv σ'.
Proof.
  intros HI. destruct a as [d|t late|t|t|t|t rep|t]; cbn [do_step].
  - destruct (0 <? d) eqn:Hd; [|done]. intros [= <-]. bool_hyps. destruct HI. split; cbn in *; try done. eapply Forall_impl; [eassumption|]. cbn. lia.
  - destruct (requests σ !! t) eqn:Hr; [done|]. intros [= <-]. destruct HI as [Hp Hb Hi Hn Hc Hs Hd]. split; cbn in *; try done.
    rewrite held_insert_new by done. cbn. by rewrite Z.add_0_r.
  - destruct (requests σ !! t) as [r|] eqn:Hr; [|done]. intros [= <-]. by apply (pace_Inv_move σ t r).
  - destruct (requests σ !! t) as [r|] eqn:Hr; [|done]. by apply pace_run_Inv.
  - destruct (requests σ !! t) as [r|] eqn:Hr; [|done]. cbn. destruct (wait_over _ _); [|done]. destruct (at_ r) eqn:Ha; try done; intros [= <-].
    + apply (pace_Inv_move σ t r); [done..|by rewrite Ha].
    + apply pace_Inv_release; [done..|by rewrite Ha|done].
  - destruct (requests σ !! t) as [r|] eqn:Hr; [|done]. cbn. destruct (at_ r) eqn:Ha; try done. destruct rep as [|status delay body]; intros [= <-].
    + apply (pace_Inv_move σ t r); [done..|by rewrite Ha].
    + apply (pace_Inv_move σ t r); [done..|]. rewrite Ha. by destruct (_ && _).
  - destruct (requests σ !! t) as [r|] eqn:Hr; [|done]. cbn. destruct (at_ r) as [| | | | | | | | |o] eqn:Ha; try done.
    + intros [= <-]. apply pace_Inv_release; [done..|by rewrite Ha|done].
    + by destruct o; try done; intros [= <-].
Qed.

Lemma pace_reachable_Inv m r s now σ : NewScheduler m r = Ok s → reachable s now σ → Inv σ.
Proof. intros Hs. induction 1 as [|a σ σ' _ IH Hstep]; [by eapply pace_init_Inv|by eapply pace_step_Inv]. Qed.

(** The bounds of the scheduler do not change. *)
Lemma step_limits a σ σ' : do_step a σ = Some σ' → capacity (sched σ') = capacity (sched σ) ∧ interval (sched σ') = interval (sched σ).
Proof.
  destruct a as [d|t late|t|t|t|t rep|t]; cbn [do_step].
  - destruct (0 <? d); [|done]. by intros [= <-].
  - destruct (requests σ !! t); [done|]. by intros [= <-].
  - destruct (requests σ !! t); [|done]. by intros [= <-].
  - destruct (requests σ !! t) as [r|]; [|done]. cbn. unfold run. destruct (at_ r) as [| |start|start| | |until o|[o|]| |o]; try done;
      try (by intros [= <-]); destruct (_ <? _) || destruct (_ <=? _); try done; by intros [= <-].
  - destruct (requests σ !! t) as [r|]; [|done]. cbn. destruct (wait_over _ _); [|done]. by destruct (at_ r); try done; intros [= <-].
  - destruct (requests σ !! t) as [r|]; [|done]. cbn. by destruct (at_ r); try done; destruct rep; intros [= <-].
  - destruct (requests σ !! t) as [r|]; [|done]. cbn. destruct (at_ r) as [| | | | | | | | |o]; try done; [by intros [= <-]|]. by destruct o; try done; intros [= <-].
Qed.
Lemma reachable_limits s now σ : reachable s now σ → capacity (sched σ) = capacity s ∧ interval (sched σ) = interval s.
Proof. induction 1 as [|a σ σ' _ IH Hstep%step_limits]; [done|]. destruct IH, Hstep. split; congruence. Qed.

(** ** Draining *)

(** Runs that move only request [t], and the clock. *)
Definition about (t : tid) (a : label) : Prop :=
  match a with LTick _ => True | LRun t' | LReply t' _ | LRelease t' => t' = t | LRequest _ _ | LEnd _ | LStop _ => False end.
Definition solo (t : tid) (σ σ' : state) : Prop :=
  ∃ ls, Forall (about t) ls ∧ run_labels ls σ = Some σ' ∧ ∀ t', t' ≠ t → requests σ' !! t' = requests σ !! t'.

Lemma run_labels_app ls ls' σ σ' : run_labels ls σ = Some σ' → run_labels (ls ++ ls') σ = run_labels ls' σ'.
Proof. revert σ. induction ls as [|a ls IH]; intros σ; cbn; [by intros [= ->]|]. destruct (do_step a σ); [|done]. apply IH. Qed.

Lemma solo_refl t σ : solo t σ σ.
Proof. by exists []. Qed.
Lemma solo_trans t σ1 σ2 σ3 : solo t σ1 σ2 → solo t σ2 σ3 → solo t σ1 σ3.
Proof.
  intros (ls & Hl & Hr & Ho) (ls' & Hl' & Hr' & Ho'). exists (ls ++ ls'). split_and!; [by apply Forall_app|by rewrite (run_labels_app _ _ _ _ Hr)|].
  intros t' Ht. by rewrite Ho', Ho.
Qed.
Lemma solo_step t a σ σ' : about t a → do_step a σ = Some σ' → (∀ t', t' ≠ t → requests σ' !! t' = requests σ !! t') → solo t σ σ'.
Proof. intros Ha Hs Ho. exists [a]. split_and!; [by repeat constructor|cbn; by rewrite Hs|done]. Qed.

Lemma solo_run t r σ σ' : requests σ !! t = Some r → run t r σ = Some σ' → (∀ t', t' ≠ t → requests σ' !! t' = requests σ !! t') → solo t σ σ'.
Proof. intros Hr Hrun. apply (solo_step t (LRun t)); [done|]. cbn. by rewrite Hr. Qed.

(** Request [t] can be brought to its end by itself. *)
Definition can_finish (t : tid) (σ : state) : Prop :=
  ∃ σ' r, solo t σ σ' ∧ requests σ' !! t = Some r ∧ ∃ o, at_ r = Finished o.

Lemma can_finish_solo t σ σ' : solo t σ σ' → can_finish t σ' → can_finish t σ.
Proof. intros Hs (σ'' & r & Hs' & Hr & Ho). exists σ'', r. split; [by eapply solo_trans|done]. Qed.

Lemma finish_run t r σ σ' : requests σ !! t = Some r → run t r σ = Some σ' → (∀ t', t' ≠ t → requests σ' !! t' = requests σ !! t') → can_finish t σ' → can_finish t σ.
Proof. intros Hr Hs Ho. apply can_finish_solo. by eapply solo_run. Qed.

Ltac untouched := intros ? ?; cbn; by rewrite lookup_insert_ne by congruence.

Lemma finish_returning t r o σ : requests σ !! t = Some r → at_ r = Returning o → can_finish t σ.
Proof.
  intros Hr Ha. destruct o as [o|].
  - eapply (finish_run t r); [done|unfold run; by rewrite Ha|untouched|]. eexists _, _. split; [apply solo_refl|]. cbn. rewrite lookup_insert_eq. split; [done|by eexists].
  - eapply (finish_run t r); [done|unfold run; by rewrite Ha|untouched|].
    eapply can_finish_solo; [eapply (solo_step t (LRelease t)); [done|cbn; rewrite lookup_insert_eq; cbn; reflexivity|untouched]|].
    eexists _, _. split; [apply solo_refl|]. cbn. rewrite lookup_insert_eq. split; [done|by eexists].
Qed.

Lemma finish_dispatched t r σ : requests σ !! t = Some r → at_ r = Dispatched → can_finish t σ.
Proof.
  intros Hr Ha. eapply can_finish_solo; [eapply (solo_step t (LReply t Failure)); [done|cbn; rewrite Hr; cbn; by rewrite Ha|untouched]|].
  eapply finish_returning; [cbn; by rewrite lookup_insert_eq|done].
Qed.

Lemma finish_ready t r σ : requests σ !! t = Some r → at_ r = Pacing → start_time (sched σ) ≤ clock σ → can_finish t σ.
Proof.
  intros Hr Ha Hs. eapply (finish_run t r); [done|unfold run; rewrite Ha; by rewrite (proj2 (Z.leb_le _ _) Hs)|untouched|].
  eapply finish_dispatched; [cbn; by rewrite lookup_insert_eq|done].
Qed.

(** A sleeping request wakes at its start and finds the scheduler as it left it. *)
Definition tick (d : Z) (σ : state) : state :=
  {| sched := sched σ; permits := permits σ; clock := clock σ + d; requests := requests σ; starts := starts σ; deferrals := deferrals σ |}.
Lemma tick_solo t d σ : 0 < d → solo t σ (tick d σ).
Proof. intros Hd. apply (solo_step t (LTick d)); [done| |done]. cbn. by rewrite (proj2 (Z.ltb_lt 0 d) Hd). Qed.

Lemma finish_pacing t r σ : requests σ !! t = Some r → at_ r = Pacing → can_finish t σ.
Proof.
  intros Hr Ha. destruct (decide (start_time (sched σ) ≤ clock σ)) as [Hs|Hs]; [by eapply finish_ready|].
  apply (can_finish_solo t σ (tick (start_time (sched σ) - clock σ) σ)); [apply tick_solo; lia|]. eapply finish_ready; [done..|]. cbn. lia.
Qed.

Lemma finish_sleeping t r start σ : requests σ !! t = Some r → at_ r = Sleeping start → can_finish t σ.
Proof.
  intros Hr Ha. assert (∀ σ, requests σ !! t = Some r → start ≤ clock σ → can_finish t σ) as Hwake.
  { clear σ Hr. intros σ Hr Hs. eapply (finish_run t r); [done|unfold run; rewrite Ha; by rewrite (proj2 (Z.leb_le _ _) Hs)|untouched|].
    eapply finish_pacing; [cbn; by rewrite lookup_insert_eq|done]. }
  destruct (decide (start ≤ clock σ)) as [Hs|Hs]; [by apply Hwake|].
  apply (can_finish_solo t σ (tick (start - clock σ) σ)); [apply tick_solo; lia|]. apply Hwake; [done|]. cbn. lia.
Qed.

Lemma finish_parking t r start σ : requests σ !! t = Some r → at_ r = Parking start → can_finish t σ.
Proof.
  intros Hr Ha. eapply (finish_run t r); [done|unfold run; by rewrite Ha|untouched|].
  destruct (_ <=? _); [eapply finish_pacing|eapply finish_sleeping]; (cbn; by rewrite lookup_insert_eq) || done.
Qed.

Lemma finish_holder t r σ : requests σ !! t = Some r → holds (at_ r) = true → can_finish t σ.
Proof.
  intros Hr Hh. destruct (at_ r) as [| |start|start| | |until o|o| |o] eqn:Ha; try done.
  - by eapply finish_pacing.
  - by eapply finish_parking.
  - by eapply finish_sleeping.
  - by eapply finish_dispatched.
  - eapply (finish_run t r); [done|unfold run; by rewrite Ha|untouched|]. eapply finish_returning; [cbn; by rewrite lookup_insert_eq|done].
  - by eapply finish_returning.
  - eapply can_finish_solo; [eapply (solo_step t (LRelease t)); [done|cbn; rewrite Hr; cbn; by rewrite Ha|untouched]|].
    eexists _, _. split; [apply solo_refl|]. cbn. rewrite lookup_insert_eq. split; [done|by eexists].
Qed.

Lemma finish_waiting t r σ : requests σ !! t = Some r → at_ r = Waiting → permits σ < capacity (sched σ) → can_finish t σ.
Proof.
  intros Hr Ha Hp. eapply (finish_run t r); [done|unfold run; rewrite Ha; by rewrite (proj2 (Z.ltb_lt _ _) Hp)|untouched|].
  eapply finish_pacing; [cbn; by rewrite lookup_insert_eq|done].
Qed.

Definition finished (p : point) : bool := match p with Finished _ => true | _ => false end.
Definition unfinished (m : gmap tid request) : gmap tid request := filter (λ kr, finished (at_ kr.2) = false) m.

Lemma unfinished_delete t (m m' : gmap tid request) r o : m' !! t = Some r → at_ r = Finished o → (∀ t', t' ≠ t → m' !! t' = m !! t') →
  unfinished m' = delete t (unfinished m).
Proof.
  intros Hr Ho Hne. apply map_eq. intros t'. unfold unfinished. destruct (decide (t' = t)) as [->|Ht].
  - rewrite lookup_delete_eq, map_lookup_filter, Hr. cbn. rewrite option_guard_False; [done|]. by rewrite Ho.
  - rewrite lookup_delete_ne by congruence. by rewrite !map_lookup_filter, Hne.
Qed.

Lemma run_labels_Inv ls σ σ' : Inv σ → run_labels ls σ = Some σ' → Inv σ' ∧ capacity (sched σ') = capacity (sched σ).
Proof.
  revert σ. induction ls as [|a ls IH]; intros σ HI; cbn; [by intros [= ->]|]. destruct (do_step a σ) as [σ1|] eqn:Hs; [|done]. cbn. intros Hr.
  apply IH in Hr as [HI' ->]; [|by eapply pace_step_Inv]. split; [done|]. by apply step_limits in Hs as [-> _].
Qed.

Lemma no_holder σ : Inv σ → (∀ t r, requests σ !! t = Some r → holds (at_ r) = false) → permits σ = 0.
Proof.
  intros HI Hn. rewrite (I_permits σ HI). unfold held, holders. rewrite (proj2 (map_empty_filter _ _)); [by rewrite map_size_empty|].
  intros t r Hr. cbn. by rewrite (Hn t r Hr).
Qed.

(** Some unfinished request can be finished. *)
Lemma finish_one σ t r : Inv σ → 0 < capacity (sched σ) → requests σ !! t = Some r → finished (at_ r) = false →
  ∃ t' r', requests σ !! t' = Some r' ∧ finished (at_ r') = false ∧ can_finish t' σ.
Proof.
  intros HI Hc Hr Hf. destruct (decide (holders (requests σ) = ∅)) as [He|(t' & r' & Hr')%map_choose].
  - exists t, r. split_and!; [done..|]. assert (permits σ = 0) as Hp by (rewrite (I_permits σ HI); unfold held; by rewrite He, map_size_empty).
    assert (holds (at_ r) = false) as Hh.
    { destruct (holds (at_ r)) eqn:Hh; [|done]. assert (holders (requests σ) !! t = Some r) as Hl by (by apply map_lookup_filter_Some). by rewrite He in Hl. }
    destruct (at_ r) eqn:Ha; try done; [apply (finish_waiting t r); [done..|lia]|].
    eapply (finish_run t r); [done|unfold run; by rewrite Ha|untouched|]. eexists _, _. split; [apply solo_refl|]. cbn. rewrite lookup_insert_eq. split; [done|by eexists].
  - apply map_lookup_filter_Some in Hr' as [Hr' Hh]. cbn in Hh. exists t', r'. split_and!; [done|by destruct (at_ r')|by eapply finish_holder].
Qed.

Lemma drains n σ : Inv σ → 0 < capacity (sched σ) → size (unfinished (requests σ)) = n →
  ∃ ls σ', Forall (λ a, ∃ t, about t a) ls ∧ run_labels ls σ = Some σ' ∧ unfinished (requests σ') = ∅.
Proof.
  revert σ. induction n as [|n IH]; intros σ HI Hc Hn; [exists [], σ; by apply map_size_empty_inv in Hn|].
  assert (∃ t r, unfinished (requests σ) !! t = Some r) as (t & r & [Hr Hf]%map_lookup_filter_Some).
  { destruct (decide (unfinished (requests σ) = ∅)) as [He|]; [by rewrite He, map_size_empty in Hn|by apply map_choose]. }
  destruct (finish_one σ t r HI Hc Hr Hf) as (t' & r' & Hr' & Hf' & σ1 & r1 & (ls & Hls & Hrun & Hother) & Hr1 & o & Ho).
  destruct (run_labels_Inv ls σ σ1 HI Hrun) as [HI1 Hc1]. pose proof (unfinished_delete t' _ _ r1 o Hr1 Ho Hother) as Hu.
  destruct (IH σ1 HI1) as (ls' & σ2 & Hls' & Hrun' & He); [lia| |].
  - rewrite Hu, map_size_delete_Some, Hn; [done|]. exists r'. by apply map_lookup_filter_Some.
  - exists (ls ++ ls'), σ2. split_and!; [|by rewrite (run_labels_app _ _ _ _ Hrun)|done]. apply Forall_app. split; [|done].
    eapply Forall_impl; [exact Hls|]. intros a Ha. by exists t'.
Qed.

(** ** Properties *)

(** Permits are neither exceeded nor leaked.  The semaphore counts exactly the
    requests between taking a permit and releasing it, at most [maxInFlight]; so
    when every request has ended, all permits are back. *)
Theorem permits_accounted m r s now σ : NewScheduler m r = Ok s → reachable s now σ →
  permits σ = Z.of_nat (size (holders (requests σ))) ∧ permits σ ≤ m ∧
  ((∀ t q, requests σ !! t = Some q → finished (at_ q) = true) → permits σ = 0).
Proof.
  intros Hs Hr. pose proof (pace_reachable_Inv m r s now σ Hs Hr) as HI. destruct (NewScheduler_ok m r s Hs) as [Hc _].
  destruct (reachable_limits s now σ Hr) as [Hcap _]. split_and!; [exact (I_permits σ HI)|rewrite <- Hc, <- Hcap; exact (I_bound σ HI)|].
  intros Hf. apply no_holder; [done|]. intros t q Hq. specialize (Hf t q Hq). by destruct (at_ q).
Qed.

Lemma spaced_window i l a n : StronglySorted (λ a b, b + i ≤ a) l → Forall (λ s, a ≤ s < a + Z.of_nat n * i) l → (length l ≤ n)%nat.
Proof.
  revert l. induction n as [|n IH]; intros l Hs Hw; [destruct l as [|x l]; [done|inversion Hw; subst; lia]|].
  destruct l as [|x l]; [cbn; lia|]. apply StronglySorted_inv in Hs as [Hs Hx]. apply Forall_cons in Hw as [Hx' Hw]. cbn. apply le_n_S, IH; [done|].
  rewrite Forall_forall in Hx, Hw |- *. intros y Hy. specialize (Hx y Hy). specialize (Hw y Hy). cbn in Hx. lia.
Qed.

Lemma filter_sorted {A} (R : A → A → Prop) (P : A → Prop) `{∀ x, Decision (P x)} l : StronglySorted R l → StronglySorted R (filter P l).
Proof.
  induction 1 as [|x l Hs IH Hx]; [constructor|]. rewrite filter_cons. destruct (decide (P x)); [|done]. constructor; [done|].
  rewrite Forall_forall in Hx |- *. intros y [_ Hy]%list_elem_of_filter. by apply Hx.
Qed.

(** C31: Starts keep the pace.  With [requestsPerSecond] set, any window as long as
    [n] intervals holds at most [n] starts, whatever the requests, the retries
    and the clock do; [requestsPerSecond] intervals make a second, up to the
    division to nanoseconds. *)
Theorem starts_paced m r s now σ : NewScheduler m r = Ok s → 0 < r → reachable s now σ →
  Second - r < r * interval s ≤ Second ∧
  ∀ from n, (length (filter (λ at_, (from ≤ at_ < from + Z.of_nat n * interval s)%Z) (starts σ)) ≤ n)%nat.
Proof.
  intros Hs Hpos Hr. pose proof (pace_reachable_Inv m r s now σ Hs Hr) as HI. destruct (NewScheduler_ok m r s Hs) as (_ & _ & _ & Hi).
  destruct (reachable_limits s now σ Hr) as [_ Hint]. rewrite (proj2 (Z.ltb_lt 0 r) Hpos) in Hi. split.
  - rewrite Hi. pose proof (Z.div_mod Second r ltac:(lia)). pose proof (Z.mod_pos_bound Second r Hpos). lia.
  - intros from n. apply (spaced_window (interval s) _ from).
    + apply filter_sorted. rewrite <- Hint. exact (I_spaced σ HI).
    + apply Forall_forall. by intros x [Hx _]%list_elem_of_filter.
Qed.

(** A cooldown is respected.  A step that starts an attempt does so for a
    request that holds a permit, now, and not before any deadline published so far
    from a Retry-After; a transient response publishes its own before its permit
    is released. *)
Theorem cooldown_respected m r s now σ a σ' : NewScheduler m r = Ok s → reachable s now σ → do_step a σ = Some σ' →
  (starts σ' = starts σ ∨ starts σ' = clock σ :: starts σ ∧ Forall (λ d, d ≤ clock σ) (deferrals σ) ∧ ∃ t q, a = LRun t ∧ requests σ !! t = Some q ∧ holds (at_ q) = true) ∧
  ∀ t status delay body q, a = LReply t (Response status delay body) → transientRetryStatus status = true → 0 < delay → requests σ' !! t = Some q →
    holds (at_ q) = true ∧ ∀ σ2, do_step (LRun t) σ' = Some σ2 → clock σ + delay ∈ deferrals σ2 ∧ permits σ2 = permits σ.
Proof.
  intros Hs Hr Hstep. pose proof (pace_reachable_Inv m r s now σ Hs Hr) as HI. split.
  - destruct a as [d|t late|t|t|t|t rep|t]; cbn [do_step] in Hstep.
    + destruct (0 <? d); [|done]. injection Hstep as <-. by left.
    + destruct (requests σ !! t); [done|]. injection Hstep as <-. by left.
    + destruct (requests σ !! t); [|done]. injection Hstep as <-. by left.
    + destruct (requests σ !! t) as [q|] eqn:Hq; [|done]. cbn in Hstep. unfold run in Hstep.
      destruct (at_ q) as [| |start|start| | |until o|[o|]| |o] eqn:Ha; try done; try (injection Hstep as <-; by left).
      * destruct (_ <? _); [|done]. injection Hstep as <-. by left.
      * destruct (_ <=? _) eqn:Hle; injection Hstep as <-; [|by left]. bool_hyps. right. apply admit_ready in Hle as [_ Hc]. split_and!; [done| |].
        -- eapply Forall_impl; [exact (I_cooldown σ HI)|]. cbn. lia.
        -- exists t, q. split_and!; [done|done|]. by rewrite Ha.
      * destruct (_ <=? _); [|done]. injection Hstep as <-. by left.
    + destruct (requests σ !! t) as [q|]; [|done]. cbn in Hstep. destruct (wait_over _ _); [|done]. by destruct (at_ q); try done; injection Hstep as <-; left.
    + destruct (requests σ !! t) as [q|]; [|done]. cbn in Hstep. by destruct (at_ q); try done; destruct rep; injection Hstep as <-; left.
    + destruct (requests σ !! t) as [q|]; [|done]. cbn in Hstep. destruct (at_ q) as [| | | | | | | | |o]; try done; [injection Hstep as <-; by left|].
      destruct o; try done; injection Hstep as <-; by left.
  - intros t status delay body q -> Ht Hd Hq. cbn [do_step] in Hstep. destruct (requests σ !! t) as [q0|]; [|done]. cbn in Hstep.
    destruct (at_ q0); try done. rewrite Ht, (proj2 (Z.ltb_lt 0 delay) Hd) in Hstep. injection Hstep as <-. cbn in Hq. rewrite lookup_insert_eq in Hq. injection Hq as <-.
    split; [done|]. intros σ2. cbn. rewrite lookup_insert_eq. cbn. intros [= <-]. cbn. split; [left|done].
Qed.

(** The scheduler cannot get stuck.  From any state, with the clock running,
    transports answering and bodies being closed, every request can be brought to
    its end, with no new request, no cancellation and no deadline needed. *)
Theorem scheduler_drains m r s now σ : NewScheduler m r = Ok s → reachable s now σ →
  ∃ ls σ', Forall (λ a, ∃ t, about t a) ls ∧ run_labels ls σ = Some σ' ∧ ∀ t q, requests σ' !! t = Some q → finished (at_ q) = true.
Proof.
  intros Hs Hr. pose proof (pace_reachable_Inv m r s now σ Hs Hr) as HI. destruct (NewScheduler_ok m r s Hs) as (Hc & Hm & _).
  destruct (reachable_limits s now σ Hr) as [Hcap _]. destruct (drains _ σ HI ltac:(lia) eq_refl) as (ls & σ' & Hls & Hrun & He).
  exists ls, σ'. split_and!; [done..|]. intros t q Hq. destruct (finished (at_ q)) eqn:Hf; [done|].
  assert (unfinished (requests σ') !! t = Some q) as Hu by (by apply map_lookup_filter_Some). by rewrite He in Hu.
Qed.

Lemma pace_run_labels_reachable s now ls σ σ' : reachable s now σ → run_labels ls σ = Some σ' → reachable s now σ'.
Proof.
  revert σ. induction ls as [|a ls IH]; intros σ Hr; cbn; [by intros [= <-]|]. destruct (do_step a σ) as [σ1|] eqn:Hs; [|done]. cbn.
  apply IH. by eapply reach_step.
Qed.

(** Three requests under two permits and four starts a second: the second sleeps
    until its turn, the first is answered with 429 and Retry-After, the third
    waits for a permit and then for the cooldown. *)
Module Demo.
Local Open Scope nat_scope.
Definition limits : Scheduler := {| capacity := 2; interval := 250000000; next := 0; cooldown := 0 |}.
Definition labels : list label :=
  [LRequest 0 None; LRun 0; LRequest 1 (Some 5000000000%Z); LRun 1; LRequest 2 None; LRun 0; LRun 1; LRun 1; LTick 250000000; LRun 1; LRun 1] ++
  [LReply 0 (Response 429 1000000000 true); LRun 0; LRun 0; LRelease 0; LRelease 0; LRun 2; LRun 2].
Definition final : state := Eval vm_compute in default (init limits 7) (run_labels labels (init limits 7)).

Example demo_final : (permits final, starts final, deferrals final) = (2%Z, [250000007; 7]%Z, [1250000007]%Z) ∧
  (at_ <$> requests final !! 2) = Some (Parking 1250000007) ∧ do_step (LRun 0) final = None.
Proof. vm_compute. split_and!; reflexivity. Qed.

Lemma final_reachable : reachable limits 7 final.
Proof. eapply (pace_run_labels_reachable _ _ labels); [constructor|vm_compute; reflexivity]. Qed.

Lemma permits_accounted_witness : permits final = 2%Z ∧ (permits final ≤ 2)%Z.
Proof. split; [reflexivity|]. exact (proj1 (proj2 (permits_accounted 2 4 limits 7 final ltac:(reflexivity) final_reachable))). Defined.

Lemma starts_paced_witness : (length (filter (λ at_, (7 ≤ at_ < 7 + Z.of_nat 1 * 250000000)%Z) (starts final)) ≤ 1).
Proof. exact (proj2 (starts_paced 2 4 limits 7 final ltac:(reflexivity) ltac:(lia) final_reachable) 7%Z 1). Defined.

Lemma cooldown_respected_witness : ∃ σ, run_labels [LRun 2; LTick 1000000000; LRun 2] final = Some σ ∧ starts σ = [250000007; 7]%Z ∧
  (∀ σ', do_step (LRun 2) σ = Some σ' → starts σ' = starts σ ∨ starts σ' = clock σ :: starts σ ∧ Forall (λ d, d ≤ clock σ)%Z (deferrals σ)).
Proof.
  eexists. split; [vm_compute; reflexivity|]. split; [reflexivity|]. intros σ' Hs.
  destruct (cooldown_respected 2 4 limits 7 _ (LRun 2) σ' ltac:(reflexivity)
    (pace_run_labels_reachable limits 7 [LRun 2; LTick 1000000000; LRun 2] final _ final_reachable ltac:(vm_compute; reflexivity)) Hs) as [[H|(H & Hd & _)] _]; [by left|by right].
Defined.

Lemma scheduler_drains_witness : ∃ ls σ', run_labels ls final = Some σ' ∧ ∀ t q, requests σ' !! t = Some q → finished (at_ q) = true.
Proof.
  destruct (scheduler_drains 2 4 limits 7 final ltac:(reflexivity) final_reachable) as (ls & σ' & _ & Hr & Hf). exists ls, σ'. split; [exact Hr|exact Hf].
Defined.
End Demo.
End HttpScheduler.
