(* ===== verification/HttpClient.v ===== *)
(** * The HTTP client (internal/httpx: client.go, transport.go, retry.go,
    attempt.go, body.go, download.go, dispatch.go, bounded_response.go)

    What the client decides about a request: where it may go, whether the token
    goes with it, whether a redirect is followed, whether an attempt is repeated
    and after which wait, how much of a body is read.  The network is an argument:
    a [world] says, for each attempt, which redirects the server asks for, how the
    exchange ends, and which waits are cut short.  The functions return the
    requests sent and the waits made with their result. *)

From S2P Require Import Prelude GoText WikiScanner Json Markdown MdCsf NetUrl RequestPolicy HttpScheduler.
Import GoText NetUrl RequestPolicy.
Import WikiScanner (cr, newline).
Import MdCsf (PathUnescape).
Import HttpScheduler (Second, transientRetryStatus).

Module HttpClient.
Local Open Scope Z_scope.
Local Open Scope atl_scope.

Definition maxRetries : nat := 3.
Definition maxRetryAfter : Z := 30 * Second.
Definition maxRedirects : nat := 10.
Definition jsonBodyCap : Z := 64 * 2 ^ 20.
Definition maxReviewedResponseBody : Z := 129 * 2 ^ 20.
Definition Millisecond : Z := 1000000.
Definition MaxInt64 : Z := 2 ^ 63 - 1.
(** Two's-complement wrap-around of an int64. *)
Definition int64 (z : Z) : Z := (z + 2 ^ 63) mod 2 ^ 64 - 2 ^ 63.

(** ** Waiting (retry.go) *)

Definition replaySafe (method : text) : bool := eqt method (txt "GET") || eqt method (txt "HEAD").

(** [jitter] is what [rand.Int64N(half+1)] returns. *)
Definition backoff_base (attempt : nat) : Z :=
  let d := int64 (int64 (Z.shiftl 200 (Z.of_nat attempt)) * Millisecond) in if 5 * Second <? d then 5 * Second else d.
Definition backoff (attempt : nat) (jitter : Z) : Z := backoff_base attempt / 2 + jitter.

Definition clampRetryAfter (d : Z) : Z := if d <? 0 then 0 else if maxRetryAfter <? d then maxRetryAfter else d.

(** [strconv.Atoi]: an optional sign and decimal digits in the range of int. *)
Fixpoint digits_value (s : text) (acc : Z) : Z := match s with [] => acc | c :: s => digits_value s (acc * 10 + (byte_val c - 48)) end.
Definition Atoi (s : text) : option Z :=
  let '(neg, ds) := match s with
    | c :: s' => if WikiScanner.is_byte "-"%char c then (true, s') else if WikiScanner.is_byte "+"%char c then (false, s') else (false, s)
    | [] => (false, []) end in
  if negb (eqt ds []) && forallb digit ds then
    let v := if neg then - digits_value ds 0 else digits_value ds 0 in
    if (- 2 ^ 63 <=? v) && (v <=? MaxInt64) then Some v else None
  else None.

(** ** Results *)

Inductive statusKind := ErrUsage | ErrAuth | ErrForbidden | ErrNotFound | ErrVersionConflict.
#[global] Instance statusKind_eq_dec : EqDecision statusKind. Proof. solve_decision. Defined.

Definition classify (status : Z) : option statusKind :=
  if status =? 400 then Some ErrUsage else if status =? 401 then Some ErrAuth else if status =? 403 then Some ErrForbidden
  else if status =? 404 then Some ErrNotFound else if status =? 409 then Some ErrVersionConflict else None.

(** What [errors.Is] finds in the error of a failed exchange. *)
Inductive cause := AttemptBudget | ResponseBudget | DispatchLate | RedirectLimit | RedirectRefused | OtherCause.

Inductive urlError := BadURL | ForeignHost | UserInformation | UnsupportedScheme | Downgrade.

(** The refusals of a stream before anything is sent. *)
Inductive streamRefusal := InvalidRequest | NoBodyDeadline | NoDispatchDeadline | DispatchAfterBody | NotSingleAttempt | NoReadBudget | BadBudget.

Inductive clientError :=
| URLError (e : urlError)
| UnclearedWrite
| BadRequest
| ReadAttemptBudgetExhausted
| ReadResponseBudgetExhausted
| ReadDispatchExpired
| BeginRefused
| TransportError (method : text) (c : cause)
| ContextDone
| ReadBody
| BodyExceeds (max : Z)
| APIError (status : Z) (method path body : text) (kind : option statusKind)
| UnbudgetedNoReplay
| InvalidLimit
| InvalidBounds
| StrictUnavailable
| ResponseMetadata
| StreamRefused (why : streamRefusal).

Definition readBudgetExhaustion (c : cause) : option clientError :=
  match c with AttemptBudget => Some ReadAttemptBudgetExhausted | ResponseBudget => Some ReadResponseBudgetExhausted | _ => None end.

(** ** Bodies (body.go) *)

(** A response body: the bytes it delivers, whether it then fails instead of
    ending, and whether closing it fails. *)
Record reader := { bytes : text; fails : bool; close_fails : bool }.

(** [io.ReadAll(io.LimitReader(r, n))]. *)
Definition take_z (n : Z) (s : text) : text := if Z.of_nat (length s) <=? n then s else take (Z.to_nat n) s.
Definition read_all (r : reader) (n : Z) : text * bool := (take_z n (bytes r), fails r && (Z.of_nat (length (bytes r)) <? n)).
(** The same through an idle reader that is then closed. *)
Definition read_idle (r : reader) (n : Z) : text * bool := let '(data, e) := read_all r n in (data, e || close_fails r).

(** [BeginResponse]: the bytes left in every budget of the context, or a refusal. *)
Inductive grant := Granted (remaining : Z) | Refused.

(** The data or an error, and the count passed to [finish], if it is called. *)
Definition readResponseBodyWith (budget : option grant) (max : Z) (read : Z → text * bool) : result clientError text * option Z :=
  match budget with
  | None =>
      let '(data, e) := read (max + 1) in
      (if e then Err ReadBody else if max <? Z.of_nat (length data) then Err (BodyExceeds max) else Ok data, None)
  | Some Refused => (Err BeginRefused, None)
  | Some (Granted remaining) =>
      let limit := if remaining <? max then remaining else max in
      let '(data, e) := read (limit + 1) in
      let consumed := Z.of_nat (length data) in
      if remaining <? consumed then (Err ReadResponseBudgetExhausted, Some remaining)
      else (if e then Err ReadBody else if max <? consumed then Err (BodyExceeds max) else Ok data, Some consumed)
  end.
Definition readResponseBody (budget : option grant) (r : reader) (max : Z) := readResponseBodyWith budget max (read_all r).
Definition readIdleResponseBody (budget : option grant) (r : reader) (max : Z) := readResponseBodyWith budget max (read_idle r).
Definition readBody (r : reader) (max : Z) : result clientError text :=
  let '(data, e) := read_all r (max + 1) in if e then Err ReadBody else if max <? Z.of_nat (length data) then Err (BodyExceeds max) else Ok data.
Definition ReadCapped (r : reader) (max : Z) : result clientError text := readBody r max.

Example body_demo : let r := {| bytes := txt "abcde"; fails := false; close_fails := true |} in
  readResponseBody None r 5 = (Ok (txt "abcde"), None) ∧ readResponseBody None r 4 = (Err (BodyExceeds 4), None) ∧
  readResponseBody (Some (Granted 3)) r 9 = (Err ReadResponseBudgetExhausted, Some 3) ∧ readResponseBody (Some (Granted 9)) r 4 = (Err (BodyExceeds 4), Some 5) ∧
  readIdleResponseBody None r 5 = (Err ReadBody, None).
Proof. vm_compute. split_and!; reflexivity. Qed.

(** ** Requests (transport.go) *)

Record Client := { base : text; baseHost : text; baseScheme : text; token : text; ver : text; genericConflict : bool; requireWriteClearance : bool }.

(** The request context: its policy flags, whether it carries a read budget, its
    deadline and whether it has ended. *)
Record context := { policy : RequestContext; budgeted : bool; deadline : option Z; ended : bool }.

(** [http.Header] with [Set], and its canonical keys. *)
Definition Header := list (text * text).
Definition token_byte (c : ascii) : bool := letter c || digit c || Markdown.in_set (txt "!#$%&'*+-.^_`|~") c.
Fixpoint canonical_loop (upper : bool) (s : text) : text :=
  match s with
  | [] => []
  | c :: s => (if upper then upper_byte c else lower_byte c) :: canonical_loop (WikiScanner.is_byte "-"%char c) s
  end.
Definition CanonicalHeaderKey (key : text) : text := if forallb token_byte key then canonical_loop true key else key.
Definition header_set (key value : text) (h : Header) : Header :=
  let key := CanonicalHeaderKey key in filter (λ kv, kv.1 ≠ key) h ++ [(key, value)].
Definition header_get (key : text) (h : Header) : text :=
  match filter (λ kv, kv.1 = CanonicalHeaderKey key) h with (_, v) :: _ => v | [] => [] end.

Record request := { Method : text; RequestURL : URL; Headers : Header }.

(** [removeEmptyPort] of net/http. *)
Definition removeEmptyPort (host : text) : text := if has_suffix host (txt ":") then Markdown.trim_suffix host (txt ":") else host.

Section client.
(** The host syntax of net/url, [strings.EqualFold], and [http.ParseTime] with
    [time.Until]: the time left until the date of a header. *)
Variable parseHost : text → option text.
Variable EqualFold : text → text → bool.
Variable UntilDate : text → option Z.
Notation Parse := (NetUrl.Parse parseHost).

Fixpoint trim_right_slash (s : text) : text :=
  match s with
  | [] => []
  | c :: s => let r := trim_right_slash s in if WikiScanner.is_byte "/"%char c && eqt r [] then [] else c :: r
  end.

Definition newWithScheduler (base_ token_ version : text) (conflict clearance : bool) : Client :=
  let b := trim_right_slash base_ in
  let '(host, scheme) := match Parse b with Some u => (Host u, to_lower (Scheme u)) | None => ([], []) end in
  {| base := b; baseHost := host; baseScheme := scheme; token := token_; ver := version; genericConflict := conflict; requireWriteClearance := clearance |}.

Definition sameHost (base_ reqHost : text) : bool := eqt reqHost [] || EqualFold reqHost base_.

Definition resolveURL (c : Client) (path : text) : result clientError text :=
  match Parse path with
  | None => Err (URLError BadURL)
  | Some u =>
      if IsAbs u then
        if negb (sameHost (baseHost c) (Host u)) then Err (URLError ForeignHost)
        else if HasUser u then Err (URLError UserInformation)
        else let scheme := to_lower (Scheme u) in
          if negb (eqt scheme (txt "http")) && negb (eqt scheme (txt "https")) then Err (URLError UnsupportedScheme)
          else if eqt (baseScheme c) (txt "https") && negb (eqt scheme (txt "https")) then Err (URLError Downgrade)
          else Ok path
      else Ok (base c ++ path)
  end.

(** [http.NewRequestWithContext]. *)
Definition NewRequest (method url : text) : option request :=
  let method := if eqt method [] then txt "GET" else method in
  if forallb token_byte method then
    u ← Parse url;
    Some {| Method := method; RequestURL := {| Scheme := Scheme u; HasUser := HasUser u; Host := removeEmptyPort (Host u); Path := Path u |}; Headers := [] |}
  else None.

Definition with_header (key value : text) (r : request) : request :=
  {| Method := Method r; RequestURL := RequestURL r; Headers := header_set key value (Headers r) |}.

Definition newRequestReader (c : Client) (ctx : context) (method url : text) (headers : Header) : result clientError request :=
  if requireWriteClearance c && negb (replaySafe method) && negb (HasWriteClearance (policy ctx)) && negb (ReadIntent (policy ctx)) then Err UnclearedWrite
  else match NewRequest method url with
    | None => Err BadRequest
    | Some req =>
        let u := RequestURL req in
        let req := if sameHost (baseHost c) (Host u) && (negb (eqt (baseScheme c) (txt "https")) || eqt (Scheme u) (txt "https"))
                   then with_header (txt "Authorization") (txt "Bearer " ++ token c) req else req in
        let req := with_header (txt "User-Agent") (txt "atl-cli/" ++ ver c) (with_header (txt "Accept") (txt "application/json") req) in
        Ok (foldl (λ req kv, with_header kv.1 kv.2 req) req headers)
    end.

Definition newRequest (c : Client) (ctx : context) (method url : text) (body : option text) (headers : Header) : result clientError request :=
  let! req := newRequestReader c ctx method url headers in
  if bool_decide (is_Some body) && eqt (header_get (txt "Content-Type") (Headers req)) []
  then Ok (with_header (txt "Content-Type") (txt "application/json") req) else Ok req.

(** ** Redirects (client.go: newWithScheduler) *)

(** A request of a redirect chain as [checkRedirect] sees it. *)
Record hop := { hop_method : text; hop_url : URL; hop_single : bool }.
Inductive decision := Follow | UseLastResponse | Refuse (c : cause).

Definition checkRedirect (c : Client) (req : URL) (via : list hop) : decision :=
  let scheme := to_lower (Scheme req) in
  if negb (sameHost (baseHost c) (Host req)) then Refuse RedirectRefused
  else if negb (eqt scheme (txt "http")) && negb (eqt scheme (txt "https")) then Refuse RedirectRefused
  else match via with
    | [] => Follow
    | first :: _ =>
        if eqt (Scheme (hop_url first)) (txt "https") && eqt (Scheme req) (txt "http") then Refuse RedirectRefused
        else if negb (replaySafe (hop_method first)) then UseLastResponse
        else if hop_single first then UseLastResponse
        else if (maxRedirects <=? length via)%nat then Refuse RedirectLimit
        else Follow
    end.

(** How an exchange ends: an error, or a response with its status, Retry-After
    header, body and the grant of its budget. *)
Inductive exchange :=
| Broken (c : cause) (interrupted : bool)
| Replied (status : Z) (retry_after : text) (body : reader) (budget : grant).

(** A redirect the server asks for: the 3xx response, its target and the method
    net/http would use for it. *)
Record redirect := { response : exchange; location : URL; redirect_method : text }.

(** [http.Client.Do]: the requests sent and the exchange it returns. *)
Fixpoint follow (c : Client) (via : list hop) (redirects : list redirect) (last : exchange) : list URL * exchange :=
  match redirects with
  | [] => ([], last)
  | r :: redirects =>
      match checkRedirect c (location r) via with
      | Refuse k => ([], Broken k false)
      | UseLastResponse => ([], response r)
      | Follow =>
          let h := {| hop_method := redirect_method r; hop_url := location r; hop_single := match via with first :: _ => hop_single first | [] => false end |} in
          let '(sent, e) := follow c (via ++ [h]) redirects last in (location r :: sent, e)
      end
  end.
Definition hc_Do (c : Client) (ctx : context) (req : request) (redirects : list redirect) (last : exchange) : list URL * exchange :=
  let '(sent, e) := follow c [{| hop_method := Method req; hop_url := RequestURL req; hop_single := SingleAttempt (policy ctx) |}] redirects last in
  (RequestURL req :: sent, e).

(** ** Retries (client.go: do, download.go: getStream) *)

(** [retryAfter]: seconds or a date; the product is an int64. *)
Definition retryAfter (header : text) : Z :=
  let v := trim_space header in
  if eqt v [] then 0
  else match Atoi v with
    | Some secs => clampRetryAfter (int64 (secs * Second))
    | None => match UntilDate v with Some d => clampRetryAfter d | None => 0 end
    end.

Definition classifyResult (c : Client) (status : Z) : option statusKind :=
  let kind := classify status in
  if genericConflict c && bool_decide (kind = Some ErrVersionConflict) then None else kind.
Record attemptResult := { kind : option statusKind; retryable : bool; retryDelay : Z }.
Definition classifyAttempt (c : Client) (method : text) (status : Z) (header : text) : attemptResult :=
  let retryable := replaySafe method && transientRetryStatus status in
  {| kind := classifyResult c status; retryable := retryable; retryDelay := if retryable then retryAfter header else 0 |}.

Definition success (status : Z) : bool := (200 <=? status) && (status <? 300).
Definition budget_of (ctx : context) (g : grant) : option grant := if budgeted ctx then Some g else None.

(** The environment of one attempt. *)
Record attempt_world := { redirects : list redirect; last : exchange; jitter : Z; backoff_done : bool; retry_done : bool }.
Definition world := nat → attempt_world.

Inductive event := Waited (d : Z) | Sent (u : URL).
Inductive verdict (A : Type) := Stop (r : result clientError A) | Again (e : clientError) (delay : Z).
#[global] Arguments Stop {A} r.
#[global] Arguments Again {A} e delay.

Definition do_attempt (c : Client) (ctx : context) (method path url : text) (body : option text) (headers : Header) (maxBytes : Z) (w : attempt_world) :
    list event * verdict text :=
  match newRequest c ctx method url body headers with
  | Err e => ([], Stop (Err e))
  | Ok req =>
      let '(sent, e) := hc_Do c ctx req (redirects w) (last w) in
      (map Sent sent,
       match e with
       | Broken k _ =>
           match readBudgetExhaustion k with
           | Some e => Stop (Err e)
           | None =>
               let safe := TransportError method k in
               if negb (replaySafe method) || match k with RedirectLimit => true | _ => false end then Stop (Err safe) else Again safe 0
           end
       | Replied status header rd g =>
           let res := classifyAttempt c method status header in
           match fst (readResponseBody (budget_of ctx g) rd maxBytes) with
           | Err e => Stop (Err e)
           | Ok data =>
               if success status then Stop (Ok data)
               else let api := APIError status method path data (kind res) in
                 if retryable res && negb (NoReplayRetries (policy ctx)) then Again api (retryDelay res) else Stop (Err api)
           end
       end)
  end.

(** The loop of attempts.  [nothing] is the zero result. *)
Fixpoint attempts {A} (nothing : A) (step : attempt_world → list event * verdict A) (w : world) (fuel attempt : nat) (skipBackoff : bool) (lastErr : option clientError) :
    list event * result clientError A :=
  match fuel with
  | O => ([], match lastErr with Some e => Err e | None => Ok nothing end)
  | S fuel =>
      let wait := (0 <? attempt)%nat && negb skipBackoff in
      let waits := if wait then [Waited (backoff attempt (jitter (w attempt)))] else [] in
      if wait && negb (backoff_done (w attempt)) then (waits, Err ContextDone)
      else
        let '(evs, v) := step (w attempt) in
        match v with
        | Stop r => (waits ++ evs, r)
        | Again e delay =>
            let retry := 0 <? delay in
            let slept := if retry then [Waited delay] else [] in
            if retry && negb (retry_done (w attempt)) then (waits ++ evs ++ slept, Err ContextDone)
            else let '(l, r) := attempts nothing step w fuel (S attempt) retry (Some e) in (waits ++ evs ++ slept ++ l, r)
        end
  end.

Definition retries (ctx : context) : nat := if NoReplayRetries (policy ctx) then 0%nat else maxRetries.

Definition do (c : Client) (ctx : context) (method path : text) (body : option text) (headers : Header) (maxBytes : Z) (w : world) : list event * result clientError text :=
  match resolveURL c path with
  | Err e => ([], Err e)
  | Ok url => attempts [] (do_attempt c ctx method path url body headers maxBytes) w (S (retries ctx)) 0 false None
  end.

Definition validateNoReplayReadBudget (ctx : context) : bool :=
  negb (NoReplayRetries (policy ctx) && negb (SingleAttempt (policy ctx)) && negb (budgeted ctx)).

Definition Do (c : Client) (ctx : context) (method path : text) (body : option text) (headers : Header) (w : world) : list event * result clientError text :=
  if validateNoReplayReadBudget ctx then do c ctx method path body headers jsonBodyCap w else ([], Err UnbudgetedNoReplay).
Definition DoWithBodyLimit (c : Client) (ctx : context) (method path : text) (body : option text) (headers : Header) (maxBytes : Z) (w : world) :
    list event * result clientError text :=
  if negb (validateNoReplayReadBudget ctx) then ([], Err UnbudgetedNoReplay)
  else if (maxBytes <=? 0) || (jsonBodyCap <? maxBytes) then ([], Err InvalidLimit)
  else do c ctx method path body headers maxBytes w.

(** A redirect chain for a GET, then its response: the shared tail of the calls
    that send one request and do not retry. *)
Definition send (c : Client) (ctx : context) (method url : text) (body : option text) (headers : Header) (w : attempt_world) :
    list event * result clientError (Z * reader * grant) :=
  match newRequest c ctx method url body headers with
  | Err e => ([], Err e)
  | Ok req =>
      let '(sent, e) := hc_Do c ctx req (redirects w) (last w) in
      (map Sent sent,
       match e with
       | Broken k _ => match readBudgetExhaustion k with Some e => Err e | None => Err (TransportError method k) end
       | Replied status _ rd g => Ok (status, rd, g)
       end)
  end.

(** [ResolveGET] returns the URL of the last request. *)
Definition ResolveGET (c : Client) (ctx : context) (path : text) (w : attempt_world) : list event * result clientError URL :=
  if negb (validateNoReplayReadBudget ctx) then ([], Err UnbudgetedNoReplay)
  else match resolveURL c path with
  | Err e => ([], Err e)
  | Ok url =>
      let '(evs, r) := send c ctx (txt "GET") url None [] w in
      (evs, match r with
            | Err e => Err e
            | Ok (status, rd, g) =>
                if success status then match List.last evs (Waited 0) with Sent u => Ok u | Waited _ => Err BadRequest end
                else match fst (readResponseBody (budget_of ctx g) rd jsonBodyCap) with
                     | Err e => Err e
                     | Ok data => Err (APIError status (txt "GET") path data (classifyResult c status))
                     end
            end)
  end.

Definition DoStreamSized (c : Client) (ctx : context) (method path : text) (headers : Header) (w : attempt_world) : list event * result clientError text :=
  match resolveURL c path with
  | Err e => ([], Err e)
  | Ok url =>
      let '(evs, r) := send c ctx method url None headers w in
      (evs, match r with
            | Err e => Err e
            | Ok (status, rd, g) =>
                match fst (readIdleResponseBody (budget_of ctx g) rd jsonBodyCap) with
                | Err e => Err e
                | Ok data => if success status then Ok data else Err (APIError status method path data (classifyResult c status))
                end
            end)
  end.

(** [DoBoundedResponse]: one attempt, both bodies bounded. *)
Definition DoBoundedResponse (c : Client) (ctx : context) (method path : text) (body : option text) (headers : Header) (successLimit failureLimit : Z) (w : attempt_world) :
    list event * result clientError (Z * text) :=
  if negb (SingleAttempt (policy ctx)) || (successLimit <=? 0) || (failureLimit <=? 0) || (maxReviewedResponseBody <? successLimit) || (maxReviewedResponseBody <? failureLimit)
  then ([], Err InvalidBounds)
  else if negb (validateNoReplayReadBudget ctx) then ([], Err UnbudgetedNoReplay)
  else match resolveURL c path with
  | Err e => ([], Err e)
  | Ok url =>
      let '(evs, r) := send c ctx method url body headers w in
      (evs, match r with
            | Err e => Err e
            | Ok (status, rd, g) =>
                match fst (readResponseBody (budget_of ctx g) rd (if success status then successLimit else failureLimit)) with
                | Err e => Err e
                | Ok data => Ok (status, data)
                end
            end)
  end.

(** ** Streams (download.go, dispatch.go, response_stream.go) *)

Definition stream_attempt (c : Client) (ctx : context) (path url : text) (w : attempt_world) : list event * verdict unit :=
  match newRequest c ctx (txt "GET") url None [(txt "Accept", txt "*/*")] with
  | Err e => ([], Stop (Err e))
  | Ok req =>
      let '(sent, e) := hc_Do c ctx req (redirects w) (last w) in
      (map Sent sent,
       match e with
       | Broken k interrupted =>
           match readBudgetExhaustion k with
           | Some e => Stop (Err e)
           | None =>
               match k with
               | DispatchLate => Stop (Err ReadDispatchExpired)
               | _ => let safe := TransportError (txt "GET") k in
                      if interrupted || match k with RedirectLimit => true | _ => false end then Stop (Err safe) else Again safe 0
               end
           end
       | Replied status header rd g =>
           if success status then Stop (Ok tt)
           else
             let res := classifyAttempt c (txt "GET") status header in
             match fst (readIdleResponseBody (budget_of ctx g) rd jsonBodyCap) with
             | Err e => Stop (Err e)
             | Ok data =>
                 let api := APIError status (txt "GET") path data (kind res) in
                 if retryable res && negb (NoReplayRetries (policy ctx)) then Again api (retryDelay res) else Stop (Err api)
             end
       end)
  end.
Definition getStream (c : Client) (ctx : context) (path : text) (w : world) : list event * result clientError unit :=
  match resolveURL c path with
  | Err e => ([], Err e)
  | Ok url => attempts tt (stream_attempt c ctx path url) w (S (retries ctx)) 0 false None
  end.
Definition GetStream (c : Client) (ctx : context) (path : text) (w : world) : list event * result clientError unit :=
  if validateNoReplayReadBudget ctx then getStream c ctx path w else ([], Err UnbudgetedNoReplay).

(** [child] tells whether the budget of the one attempt can be created. *)
Definition prepareStreamDispatchContext (ctx : context) (dispatchNotAfter now : Z) (child : bool) : result clientError context :=
  match deadline ctx with
  | None => Err (StreamRefused NoBodyDeadline)
  | Some bodyDeadline =>
      if dispatchNotAfter =? 0 then Err (StreamRefused NoDispatchDeadline)
      else if bodyDeadline <? dispatchNotAfter then Err (StreamRefused DispatchAfterBody)
      else if negb (SingleAttempt (policy ctx)) then Err (StreamRefused NotSingleAttempt)
      else if negb (budgeted ctx) then Err (StreamRefused NoReadBudget)
      else if negb child then Err (StreamRefused BadBudget)
      else if ended ctx then Err ContextDone
      else if negb (now <? dispatchNotAfter) then Err ReadDispatchExpired
      else Ok ctx
  end.
Definition GetStreamBefore (c : Client) (ctx : context) (path : text) (dispatchNotAfter now : Z) (child : bool) (w : world) : list event * result clientError unit :=
  match prepareStreamDispatchContext ctx dispatchNotAfter now child with
  | Err e => ([], Err e)
  | Ok ctx => getStream c ctx path w
  end.

(** The admission of one physical request: the dispatch deadline, then one attempt
    of the budget; [take] is the answer of [TakeAttempt]. *)
Definition checkReadDispatch (notAfter : option Z) (ended : bool) (now : Z) : option clientError :=
  match notAfter with
  | None => None
  | Some d => if ended then Some ContextDone else if (d =? 0) || negb (now <? d) then Some ReadDispatchExpired else None
  end.
Definition admitDispatch (notAfter : option Z) (ctx : context) (now : Z) (take : bool) : option clientError :=
  match checkReadDispatch notAfter (ended ctx) now with
  | Some e => Some e
  | None => if budgeted ctx && negb take then Some ReadAttemptBudgetExhausted else None
  end.
(** The transport of a request: a fresh HTTP/1 connection where attempts count. *)
Inductive transport := OrdinaryTransport | StrictTransport.
Definition strictDispatch (ctx : context) (available : bool) : result clientError transport :=
  if negb (SingleAttempt (policy ctx) || budgeted ctx) then Ok OrdinaryTransport else if available then Ok StrictTransport else Err StrictUnavailable.

(** The response headers that cross the boundary of a stream. *)
Definition maxProjectedResponseMetadataBytes : nat := 4096.
Definition header_value (values : list text) : option text := match values with [] => Some [] | [v] => Some v | _ => None end.
Definition boundedResponseMetadata (contentType contentEncoding correlation : list text) : option (text * text * text) :=
  match header_value contentType, header_value contentEncoding, header_value correlation with
  | Some a, Some b, Some d =>
      if (maxProjectedResponseMetadataBytes <? length a + length b + length d)%nat || Markdown.contains_any (a ++ b ++ d) [cr; newline; "000"%char] then None
      else Some (a, b, d)
  | _, _, _ => None
  end.
Definition PostBoundedResponseStream (c : Client) (ctx : context) (path requestBody : text) (successLimit failureLimit now : Z) (children : bool * bool)
    (metadata : list text * list text * list text) (w : attempt_world) : list event * result clientError (Z * (text * text * text) * Z) :=
  let '(attemptChild, bodyChild) := children in
  if negb (ReadIntent (policy ctx)) || negb (SingleAttempt (policy ctx)) || eqt requestBody [] || (successLimit <=? 0) || (failureLimit <=? 0) ||
     (maxReviewedResponseBody <? successLimit) || (maxReviewedResponseBody <? failureLimit) then ([], Err (StreamRefused InvalidRequest))
  else if ended ctx then ([], Err ContextDone)
  else if negb (match deadline ctx with Some d => now <? d | None => false end) then ([], Err (StreamRefused NoBodyDeadline))
  else if negb (budgeted ctx) then ([], Err (StreamRefused NoReadBudget))
  else if negb attemptChild then ([], Err (StreamRefused BadBudget))
  else match resolveURL c path with
  | Err e => ([], Err e)
  | Ok url =>
      let '(evs, r) := send c ctx (txt "POST") url (Some requestBody)
        [(txt "Accept", txt "application/x-ndjson, application/json"); (txt "Accept-Encoding", txt "identity"); (txt "Content-Type", txt "application/json")] w in
      (evs, match r with
            | Err e => Err e
            | Ok (status, _, _) =>
                match boundedResponseMetadata metadata.1.1 metadata.1.2 metadata.2 with
                | None => Err ResponseMetadata
                | Some m => if bodyChild then Ok (status, m, if success status then successLimit else failureLimit) else Err (StreamRefused BadBudget)
                end
            end)
  end.
End client.

(** ** Bodies are whole *)

Lemma take_z_all n s : Z.of_nat (length s) ≤ n → take_z n s = s.
Proof. intros H. unfold take_z. by rewrite (proj2 (Z.leb_le _ _) H). Qed.
Lemma take_z_cut n s : 0 ≤ n < Z.of_nat (length s) → Z.of_nat (length (take_z n s)) = n.
Proof. intros H. unfold take_z. rewrite (proj2 (Z.leb_gt _ _)) by lia. rewrite length_take. lia. Qed.

(** What a read under an inclusive limit shows: either the body fits, and it is
    all there, or one byte too many arrived. *)
Lemma take_z_limit m s : 0 ≤ m →
  (Z.of_nat (length s) ≤ m ∧ take_z (m + 1) s = s) ∨ (m < Z.of_nat (length s) ∧ Z.of_nat (length (take_z (m + 1) s)) = m + 1).
Proof.
  intros Hm. destruct (decide (Z.of_nat (length s) ≤ m)) as [Hl|Hl]; [left|right]; split; try lia.
  - apply take_z_all. lia.
  - destruct (decide (Z.of_nat (length s) = m + 1)) as [He|He]; [rewrite take_z_all; lia|apply take_z_cut; lia].
Qed.

(** A reader of the two kinds the client uses. *)
Definition reads (read : Z → text * bool) (r : reader) : Prop := read = read_all r ∨ read = read_idle r.
Lemma reads_data read r n : reads read r → fst (read n) = take_z n (bytes r).
Proof. by intros [-> | ->]. Qed.

(** A body is returned whole or not at all.  The bytes returned are all the
    bytes the body had, at most [max] of them, within what is left of the budget,
    and exactly as many are charged; a refusal charges no more than is left, and
    never more than one byte beyond the limit is read. *)
Theorem body_whole budget max read r out charge : reads read r → 0 ≤ max → (∀ n, budget = Some (Granted n) → 0 ≤ n) →
  readResponseBodyWith budget max read = (out, charge) →
  (∀ data, out = Ok data → data = bytes r ∧ Z.of_nat (length data) ≤ max ∧
     ∀ n, budget = Some (Granted n) → Z.of_nat (length data) ≤ n ∧ charge = Some (Z.of_nat (length data))) ∧
  (∀ n, budget = Some (Granted n) → ∃ k, charge = Some k ∧ 0 ≤ k ≤ n ∧ k ≤ max + 1) ∧
  (out = Err (BodyExceeds max) → max < Z.of_nat (length (bytes r))).
Proof.
  intros Hread Hmax Hn. unfold readResponseBodyWith. destruct budget as [[remaining|]|].
  - specialize (Hn remaining eq_refl). set (limit := if remaining <? max then remaining else max).
    assert (0 ≤ limit ∧ limit ≤ remaining ∧ limit ≤ max ∧ (limit = remaining ∨ limit = max)) as (Hl0 & Hlr & Hlm & Hlim) by (unfold limit; destruct (_ <? _) eqn:E; bool_hyps; lia).
    pose proof (reads_data read r (limit + 1) Hread) as Hd. destruct (read (limit + 1)) as [data e]. cbn [fst] in Hd. subst data.
    destruct (take_z_limit limit (bytes r) Hl0) as [[Hle Heq]|[Hgt Hlen]].
    + rewrite Heq. rewrite (proj2 (Z.ltb_ge _ _)) by lia. rewrite (proj2 (Z.ltb_ge max _)) by lia. intros [= <- <-]. split_and!.
      * intros data. destruct e; [done|]. intros [= <-]. split_and!; [done|lia|]. intros n [= <-]. split; [lia|done].
      * intros n [= <-]. eexists. split; [done|]. lia.
      * by destruct e.
    + rewrite Hlen. destruct (remaining <? limit + 1) eqn:Hc; bool_hyps.
      * intros [= <- <-]. split_and!; [done|intros n [= <-]; eexists; split; [done|lia]|done].
      * assert (limit = max) as -> by lia. rewrite (proj2 (Z.ltb_lt max _)) by lia. intros [= <- <-].
        split_and!; [by destruct e|intros n [= <-]; eexists; split; [done|lia]|]. intros _. lia.
  - intros [= <- <-]. by split_and!.
  - clear Hn. pose proof (reads_data read r (max + 1) Hread) as Hd. destruct (read (max + 1)) as [data e]. cbn [fst] in Hd. subst data. intros [= <- <-].
    destruct (take_z_limit max (bytes r) Hmax) as [[Hle Heq]|[Hgt Hlen]].
    + rewrite Heq. rewrite (proj2 (Z.ltb_ge max _)) by lia. split_and!; [|done|by destruct e]. intros data. destruct e; [done|]. intros [= <-]. by split_and!.
    + rewrite Hlen. rewrite (proj2 (Z.ltb_lt max _)) by lia. split_and!; [by destruct e|done|done].
Qed.

(** ** Waits *)

Lemma http_clamp_range d : 0 ≤ clampRetryAfter d ≤ maxRetryAfter.
Proof. unfold clampRetryAfter. change maxRetryAfter with 30000000000. destruct (d <? 0) eqn:H1; [lia|]. destruct (_ <? d) eqn:H2; bool_hyps; lia. Qed.

Lemma int64_id z : - 2 ^ 63 ≤ z ≤ MaxInt64 → int64 z = z.
Proof. unfold MaxInt64. intros H. unfold int64. rewrite Z.mod_small by lia. lia. Qed.

Lemma backoff_range attempt j : (attempt ≤ maxRetries)%nat → 0 ≤ j ≤ backoff_base attempt / 2 → 0 < backoff attempt j ≤ 5 * Second.
Proof.
  intros Ha Hj. unfold backoff. assert (0 < backoff_base attempt / 2 ∧ backoff_base attempt / 2 + backoff_base attempt / 2 ≤ 5 * Second) as Hb; [|lia].
  unfold maxRetries in Ha. destruct attempt as [|[|[|[|a]]]]; [vm_compute; split; [done|discriminate]..|lia].
Qed.

Section waits.
Context (UntilDate : text → option Z).

Lemma retryAfter_range header : 0 ≤ retryAfter UntilDate header ≤ maxRetryAfter.
Proof.
  unfold retryAfter. assert (0 ≤ 0 ≤ maxRetryAfter) as H0 by (vm_compute; split; discriminate). destruct (eqt _ []); [done|].
  destruct (Atoi _); [apply http_clamp_range|]. destruct (UntilDate _); [apply http_clamp_range|done].
Qed.
(** Seconds that fit an int64 of nanoseconds are honoured up to the cap. *)
Lemma retryAfter_exact header secs : trim_space header ≠ [] → Atoi (trim_space header) = Some secs → - 2 ^ 63 ≤ secs * Second ≤ MaxInt64 →
  retryAfter UntilDate header = Z.max 0 (Z.min (secs * Second) maxRetryAfter).
Proof.
  intros Hne Ha Hr. unfold retryAfter. rewrite (proj2 (eqt_false _ _) Hne), Ha, int64_id by done. unfold clampRetryAfter. change maxRetryAfter with 30000000000.
  destruct (_ <? 0) eqn:H1; bool_hyps; [lia|]. destruct (_ <? _) eqn:H2; bool_hyps; lia.
Qed.
(** Larger ones wrap: a delay of 584 years becomes a third of a second. *)
Example retryAfter_wraps : retryAfter UntilDate (txt "18446744074") = 290448384.
Proof. reflexivity. Qed.
End waits.

(** ** Where a request goes and what goes with it *)

Lemma header_set_elem k v h k' v' : (k', v') ∈ header_set k v h ↔ (k' = CanonicalHeaderKey k ∧ v' = v) ∨ (k' ≠ CanonicalHeaderKey k ∧ (k', v') ∈ h).
Proof.
  unfold header_set. rewrite elem_of_app, list_elem_of_filter, list_elem_of_singleton. cbn. split; [intros [?|[= -> ->]]; [by right|by left]|].
  intros [[-> ->]|?]; [by right|by left].
Qed.

Lemma with_headers_other headers k v req : Forall (λ kv, CanonicalHeaderKey kv.1 ≠ k) headers →
  (k, v) ∈ Headers (foldl (λ req kv, with_header kv.1 kv.2 req) req headers) ↔ (k, v) ∈ Headers req.
Proof.
  revert req. induction headers as [|[hk hv] headers IH]; intros req H; [done|]. apply Forall_cons in H as [Hk H]. cbn [foldl]. rewrite IH by done.
  cbn [with_header Headers]. cbn in Hk. rewrite header_set_elem. split; [intros [[Heq _]|[_ ?]]; [by destruct Hk|done]|]. intros ?. right. split; [by apply not_eq_sym|done].
Qed.
Lemma with_headers_url headers req : RequestURL (foldl (λ req kv, with_header kv.1 kv.2 req) req headers) = RequestURL req.
Proof. revert req. induction headers as [|kv headers IH]; intros req; [done|]. cbn [foldl]. by rewrite IH. Qed.
Lemma with_headers_method headers req : Method (foldl (λ req kv, with_header kv.1 kv.2 req) req headers) = Method req.
Proof. revert req. induction headers as [|kv headers IH]; intros req; [done|]. cbn [foldl]. by rewrite IH. Qed.

Lemma parse_rest_scheme (parseHost : text → option text) sc rest u : parse_rest parseHost sc rest = Some u → Scheme u = sc.
Proof.
  unfold parse_rest. destruct (negb (has_path rest) && _); [by intros [= <-]|]. destruct (negb (has_path rest) && contains _ _); [done|].
  destruct (if has_prefix _ _ && _ then _ else _) as [[[us ho] pa]|]; [|done]. cbn. destruct (PathUnescape pa); [|done]. by intros [= <-].
Qed.
Lemma lower_byte_twice c : lower_byte (lower_byte c) = lower_byte c.
Proof.
  apply Ascii.eqb_eq. apply (all_bytes (λ c, Ascii.eqb (lower_byte (lower_byte c)) (lower_byte c))). vm_compute. reflexivity.
Qed.
Lemma to_lower_twice s : to_lower (to_lower s) = to_lower s.
Proof. unfold to_lower. rewrite map_map. apply map_ext. apply lower_byte_twice. Qed.

Section requests.
Context (parseHost : text → option text) (EqualFold : text → text → bool).
Notation Parse := (NetUrl.Parse parseHost).
Notation sameHost := (sameHost EqualFold).
Notation newRequest := (newRequest parseHost EqualFold).
Notation resolveURL := (resolveURL parseHost EqualFold).

Lemma Parse_lower s u : Parse s = Some u → to_lower (Scheme u) = Scheme u.
Proof.
  unfold NetUrl.Parse. destruct (until "#"%char s) as [a f]. destruct (existsb control a); [done|].
  destruct (if eqt a _ then _ else _) as [u'|] eqn:Hu; [|done]. cbn. destruct (PathUnescape (tail f)); [|done]. intros [= ->].
  destruct (eqt a (txt "*")); [by injection Hu as <-|]. destruct (getScheme a) as [[sc rest]|]; [|done]. cbn in Hu.
  apply parse_rest_scheme in Hu as ->. apply to_lower_twice.
Qed.

(** C28: The token stays home, and writes are cleared.  A request carries an
    Authorization header, unless its caller passed one, exactly if its host is
    the configured one (or it has none) and the scheme is not weaker; the header is
    the token.  With clearance required, a request that is not a plain read has
    been cleared or declared a read. *)
Theorem token_confined c ctx method url body headers req : newRequest c ctx method url body headers = Ok req →
  Forall (λ kv, CanonicalHeaderKey kv.1 ≠ txt "Authorization") headers →
  (∀ v, (txt "Authorization", v) ∈ Headers req ↔
     v = txt "Bearer " ++ token c ∧ sameHost (baseHost c) (Host (RequestURL req)) = true ∧ (baseScheme c = txt "https" → Scheme (RequestURL req) = txt "https")) ∧
  (requireWriteClearance c = true → replaySafe method = true ∨ HasWriteClearance (policy ctx) = true ∨ ReadIntent (policy ctx) = true).
Proof.
  intros Hr Hh. unfold HttpClient.newRequest in Hr. destruct (newRequestReader _ _ c ctx method url headers) as [req0|] eqn:H0; [|done]. cbn [rbind] in Hr.
  assert (RequestURL req = RequestURL req0 ∧ ∀ v, (txt "Authorization", v) ∈ Headers req ↔ (txt "Authorization", v) ∈ Headers req0) as [-> Hsame].
  { destruct (bool_decide _ && _); apply MdCsf.ok_inj in Hr as <-; [|done]. split; [done|]. intros v. cbn [with_header Headers]. rewrite header_set_elem.
    split; [intros [[He _]|[_ ?]]; [done|done]|]. intros ?. by right. }
  unfold newRequestReader in H0. destruct (requireWriteClearance c && _ && _ && _) eqn:Hclear; [done|].
  destruct (NewRequest parseHost method url) as [r|] eqn:Hn; [|done]. apply MdCsf.ok_inj in H0. set (ok := sameHost (baseHost c) (Host (RequestURL r)) && _) in H0.
  assert (Headers r = []) as Hnil. { unfold NewRequest in Hn. destruct (forallb _ _); [|done]. destruct (Parse url); [|done]. by injection Hn as <-. }
  split.
  - intros v. rewrite Hsame. subst req0. rewrite with_headers_other by done. rewrite with_headers_url.
    cbn [with_header Headers RequestURL]. rewrite !header_set_elem.
    assert ((txt "Authorization", v) ∈ Headers (if ok then with_header (txt "Authorization") (txt "Bearer " ++ token c) r else r) ↔ ok = true ∧ v = txt "Bearer " ++ token c) as Hin.
    { destruct ok; cbn [with_header Headers]; rewrite ?header_set_elem, ?Hnil; [|by split; [intros ?%not_elem_of_nil|intros [? _]]].
      split; [intros [[_ ->]|[_ ?%not_elem_of_nil]]; done|]. intros [_ ->]. by left. }
    assert (RequestURL (if ok then with_header (txt "Authorization") (txt "Bearer " ++ token c) r else r) = RequestURL r) as -> by by destruct ok.
    rewrite Hin. assert (ok = true ↔ sameHost (baseHost c) (Host (RequestURL r)) = true ∧ (baseScheme c = txt "https" → Scheme (RequestURL r) = txt "https")) as Hok.
    { unfold ok. rewrite andb_true_iff, orb_true_iff, negb_true_iff, eqt_true, eqt_false. split; intros [? Hs]; (split; [done|]).
      - intros Hb. by destruct Hs.
      - destruct (decide (baseScheme c = txt "https")); [right; by apply Hs|by left]. }
    rewrite Hok. split; [intros [[He _]|[_ [[He _]|[_ [? ->]]]]]; [done|done|tauto]|]. intros (-> & Ha). right. split; [done|]. right. split; [done|tauto].
  - intros Hreq. rewrite Hreq in Hclear. cbn [andb] in Hclear. destruct (replaySafe method), (HasWriteClearance (policy ctx)), (ReadIntent (policy ctx)); cbn in Hclear; try done; auto.
Qed.

Lemma Parse_rooted_relative p u : Parse ("/"%char :: p) = Some u → IsAbs u = false.
Proof.
  unfold NetUrl.Parse. rewrite until_slash by done. destruct (existsb control _); [done|].
  destruct (if eqt _ _ then _ else _) as [u'|] eqn:Hu; [|done]. cbn. destruct (PathUnescape _); [|done]. intros [= ->].
  destruct (eqt _ (txt "*")) eqn:He; [by apply eqt_true in He|]. cbn in Hu. apply parse_rest_scheme in Hu. unfold IsAbs. by rewrite Hu.
Qed.

(** Requests stay on the configured host.  For a base URL with a scheme and a
    host and no query or fragment, whatever path the client accepts, if it is an
    absolute URL or starts with a slash then the resolved URL has the host of the
    base, up to letter case, no user information the base does not have, and is
    not http where the base is https. *)
Theorem requests_stay_home base_ tok version conflict clearance u path url v : (∀ a, EqualFold a a = true) →
  let c := newWithScheduler parseHost base_ tok version conflict clearance in
  Parse (base c) = Some u → Scheme u ≠ [] → Host u ≠ [] → free "#"%char (base c) → free "?"%char (base c) →
  resolveURL c path = Ok url → Parse url = Some v → IsAbs v = true → (∃ p, Parse path = Some p ∧ IsAbs p = true) ∨ (∃ p, path = "/"%char :: p) →
  sameHost (baseHost c) (Host v) = true ∧ (HasUser v = true → HasUser u = true) ∧ (baseScheme c = txt "https" → Scheme v = txt "https").
Proof.
  intros Hfold c Hu Hs Hh Hf Hq Hr Hv _ Hpath. assert (baseHost c = Host u ∧ baseScheme c = Scheme u) as [Hbh Hbs].
  { unfold c, newWithScheduler in *. cbn [base] in Hu. destruct (Parse (trim_right_slash base_)) as [w|] eqn:Hw; cbn [base baseHost baseScheme] in *; [|by rewrite Hw in Hu].
    rewrite Hw in Hu. injection Hu as ->. split; [done|]. by eapply Parse_lower. }
  unfold HttpClient.resolveURL in Hr. destruct (Parse path) as [p|] eqn:Hp; [|done]. destruct (IsAbs p) eqn:Habs.
  - destruct (negb (sameHost _ _)) eqn:H1; [done|]. destruct (HasUser p) eqn:H2; [done|]. destruct (_ && negb (eqt (to_lower (Scheme p)) (txt "https"))) eqn:H3; [done|].
    destruct (eqt (baseScheme c) (txt "https") && _) eqn:H4; [done|]. injection Hr as ->. rewrite Hp in Hv. injection Hv as <-. bool_hyps. split_and!; [done|congruence|].
    intros Hb. rewrite Hb in H4. change (eqt (txt "https") (txt "https")) with true in H4. cbn [andb] in H4. bool_hyps. apply eqt_true in H4.
    by rewrite <- (Parse_lower _ _ Hp).
  - injection Hr as <-. destruct Hpath as [(p' & [= <-] & Habs')|[r ->]]; [congruence|].
    destruct (Parse_join parseHost (base c) r u v Hu Hs Hh Hf Hq Hv) as (-> & -> & ->). rewrite Hbh, Hbs. split_and!; [|done|done]. unfold HttpClient.sameHost. by rewrite Hfold, orb_true_r.
Qed.
End requests.

(** ** Redirects and repetitions *)

Definition is_sent (e : event) : bool := match e with Sent _ => true | Waited _ => false end.
Definition sends (evs : list event) : nat := length (filter (λ e, is_sent e = true) evs).
Definition waits (evs : list event) : nat := length (filter (λ e, is_sent e = false) evs).

Lemma sends_app a b : sends (a ++ b) = (sends a + sends b)%nat.
Proof. unfold sends. by rewrite filter_app, length_app. Qed.
Lemma waits_app a b : waits (a ++ b) = (waits a + waits b)%nat.
Proof. unfold waits. by rewrite filter_app, length_app. Qed.
Lemma sends_sent us : sends (map Sent us) = length us ∧ waits (map Sent us) = 0%nat.
Proof.
  induction us as [|u us [IH1 IH2]]; [done|]. unfold sends, waits in *. cbn [map length]. rewrite filter_cons_True, filter_cons_False by done.
  cbn [length]. by rewrite IH1, IH2.
Qed.

Section chains.
Context (EqualFold : text → text → bool) (c : Client).
Notation sameHost := (sameHost EqualFold).

(** A request made for a redirect: same host, and no downgrade. *)
Definition home (first : hop) (u : URL) : Prop :=
  sameHost (baseHost c) (Host u) = true ∧ (to_lower (Scheme u) = txt "http" ∨ to_lower (Scheme u) = txt "https") ∧
  (Scheme (hop_url first) = txt "https" → Scheme u ≠ txt "http").

Lemma checkRedirect_follow u first via : checkRedirect EqualFold c u (first :: via) = Follow →
  home first u ∧ replaySafe (hop_method first) = true ∧ hop_single first = false ∧ (length (first :: via) < maxRedirects)%nat.
Proof.
  unfold checkRedirect, home. destruct (negb (sameHost _ _)) eqn:H1; [done|]. destruct (negb _ && negb _) eqn:H2; [done|].
  destruct (eqt (Scheme (hop_url first)) _ && eqt (Scheme u) _) eqn:H3; [done|]. destruct (negb (replaySafe _)) eqn:H4; [done|]. destruct (hop_single first); [done|].
  destruct (maxRedirects <=? _)%nat eqn:H5; [done|]. intros _. bool_hyps. split_and!; try done.
  - apply andb_false_iff in H2 as [H2|H2]; bool_hyps; apply eqt_true in H2; auto.
  - intros He Hs. apply (proj2 (eqt_true _ _)) in He. apply (proj2 (eqt_true _ _)) in Hs. by rewrite He, Hs in H3.
Qed.

Lemma follow_sent via first redirects last sent e : follow EqualFold c (first :: via) redirects last = (sent, e) →
  Forall (home first) sent ∧ (length sent + length (first :: via) ≤ Nat.max maxRedirects (length (first :: via)))%nat ∧
  (replaySafe (hop_method first) = false ∨ hop_single first = true → sent = []).
Proof.
  revert via sent e. induction redirects as [|r redirects IH]; intros via sent e; [intros [= <- <-]; split_and!; [constructor|cbn [length]; lia|done]|].
  cbn [follow]. destruct (checkRedirect EqualFold c (location r) (first :: via)) eqn:Hd; [|intros [= <- <-]; split_and!; [constructor|cbn [length]; lia|done]..].
  apply checkRedirect_follow in Hd as (Hh & Hs & Hone & Hlen). cbn [app]. set (h := {| hop_method := _; hop_url := _; hop_single := _ |}).
  destruct (follow EqualFold c (first :: via ++ [h]) redirects last) as [sent' e'] eqn:Hf. intros [= <- <-]. destruct (IH _ _ _ Hf) as (Ha & Hb & _). split_and!.
  - by constructor.
  - cbn [length] in *. rewrite length_app in Hb. cbn [length] in Hb. lia.
  - intros [|]; congruence.
Qed.

(** The requests of one exchange. *)
Lemma hc_Do_sent ctx req redirects last sent e : hc_Do EqualFold c ctx req redirects last = (sent, e) →
  (length sent ≤ maxRedirects)%nat ∧ (replaySafe (Method req) = false ∨ SingleAttempt (policy ctx) = true → sent = [RequestURL req]) ∧
  ∃ rest, sent = RequestURL req :: rest ∧
    Forall (home {| hop_method := Method req; hop_url := RequestURL req; hop_single := SingleAttempt (policy ctx) |}) rest.
Proof.
  unfold hc_Do. destruct (follow _ _ _ _ _) as [rest e'] eqn:Hf. intros [= <- <-]. apply follow_sent in Hf as (Hh & Hl & Hs). cbn [length hop_method hop_single] in *.
  split_and!; [unfold maxRedirects in *; lia|intros H; by rewrite Hs|by exists rest].
Qed.
End chains.

Section attempts.
Context {A : Type} (nothing : A) (step : attempt_world → list event * verdict A) (w : world).
Notation attempts := (attempts nothing step w).

(** Attempt [k] is followed by another: it may be repeated and the wait before
    the next one is not cut short. *)
Definition repeats (k : nat) : Prop :=
  ∃ e d, snd (step (w k)) = Again e d ∧ (if 0 <? d then retry_done (w k) else backoff_done (w (S k))) = true.
Definition starts_at (k : nat) (skip : bool) : Prop := (0 <? k)%nat && negb skip = true → backoff_done (w k) = true.

Lemma attempts_result fuel k skip e : snd (attempts (S fuel) k skip e) =
  if ((0 <? k)%nat && negb skip) && negb (backoff_done (w k)) then Err ContextDone
  else match snd (step (w k)) with
       | Stop r => r
       | Again e d => if (0 <? d) && negb (retry_done (w k)) then Err ContextDone else snd (attempts fuel (S k) (0 <? d) (Some e))
       end.
Proof.
  cbn [HttpClient.attempts]. destruct (_ && _); [done|]. destruct (step (w k)) as [evs [r|e' d]]; [done|]. cbn [snd]. destruct (_ && _); [done|].
  by destruct (attempts fuel (S k) (0 <? d) (Some e')).
Qed.

Lemma attempts_success fuel k skip e d : (0 < fuel)%nat → snd (attempts fuel k skip e) = Ok d ↔
  starts_at k skip ∧ ∃ n, (n < fuel)%nat ∧ (∀ j, (j < n)%nat → repeats (k + j)) ∧ snd (step (w (k + n)%nat)) = Stop (Ok d).
Proof.
  revert k skip e. induction fuel as [|fuel IH]; intros k skip e Hf; [lia|]. rewrite attempts_result. unfold starts_at at 1.
  destruct ((0 <? k)%nat && negb skip && negb (backoff_done (w k))) eqn:Hw.
  { apply andb_true_iff in Hw as [Hw Hb]. split; [done|]. intros [Hs _]. specialize (Hs Hw). by rewrite Hs in Hb. }
  assert (((0 <? k)%nat && negb skip = true → backoff_done (w k) = true) ↔ True) as ->.
  { split; [done|]. intros _ Hk. rewrite Hk in Hw. by apply negb_false_iff in Hw. }
  rewrite (left_id True and). assert (∀ n, snd (step (w (k + S n)%nat)) = snd (step (w (S k + n)%nat))) as Hshift by (intros n; by rewrite Nat.add_succ_comm).
  destruct (snd (step (w k))) as [r|e' dl] eqn:Hst.
  - split; [intros ->; exists 0%nat; rewrite Nat.add_0_r; split_and!; [lia|lia|done]|]. intros ([|n] & _ & Hrep & Hn); [rewrite Nat.add_0_r in Hn; congruence|].
    destruct (Hrep 0%nat ltac:(lia)) as (e1 & d1 & Hag & _). rewrite Nat.add_0_r in Hag. congruence.
  - destruct ((0 <? dl) && negb (retry_done (w k))) eqn:Hd.
    { apply andb_true_iff in Hd as [Hpos Hd]. apply negb_true_iff in Hd. split; [done|]. intros ([|n] & _ & Hrep & Hn); [rewrite Nat.add_0_r in Hn; congruence|].
      destruct (Hrep 0%nat ltac:(lia)) as (e1 & d1 & Hag & Hok). rewrite Nat.add_0_r in *. rewrite Hst in Hag. injection Hag as <- <-.
      rewrite Hpos in Hok. congruence. }
    destruct fuel as [|fuel].
    { split; [done|]. intros (n & Hn & _ & Hd'). assert (n = 0%nat) as -> by lia. rewrite Nat.add_0_r in Hd'. congruence. }
    rewrite IH by lia. unfold starts_at. cbn [Nat.ltb Nat.leb andb]. split.
    + intros (Hs & n & Hn & Hrep & Hd'). exists (S n). rewrite Hshift. split_and!; [lia| |done]. intros [|j] Hj.
      * rewrite Nat.add_0_r. exists e', dl. split; [done|]. destruct (0 <? dl); [by apply negb_false_iff in Hd|by apply Hs].
      * rewrite <- Nat.add_succ_comm. apply Hrep. lia.
    + intros ([|n] & Hn & Hrep & Hd'); [rewrite Nat.add_0_r in Hd'; congruence|]. split.
      * destruct (Hrep 0%nat ltac:(lia)) as (e1 & d1 & Hag & Hok). rewrite Nat.add_0_r in *. rewrite Hst in Hag. injection Hag as <- <-. by destruct (0 <? dl).
      * exists n. rewrite <- Hshift. split_and!; [lia| |done]. intros j Hj. rewrite Nat.add_succ_comm. apply Hrep. lia.
Qed.

(** The trace of the loop is that of its attempts and the waits around them. *)
Lemma attempts_trace (limit : nat) fuel k skip e :
  (∀ k, (sends (fst (step (w k))) ≤ limit)%nat ∧ waits (fst (step (w k))) = 0%nat) →
  (sends (fst (attempts fuel k skip e)) ≤ fuel * limit)%nat ∧ (waits (fst (attempts fuel k skip e)) ≤ fuel + (if (0 <? k)%nat && negb skip then 1 else 0))%nat.
Proof.
  intros Hstep. revert k skip e. induction fuel as [|fuel IH]; intros k skip e; [split; cbn; lia|]. cbn [HttpClient.attempts].
  set (pre := if (0 <? k)%nat && negb skip then [Waited (backoff k (jitter (w k)))] else []).
  assert (sends pre = 0%nat ∧ waits pre = (if (0 <? k)%nat && negb skip then 1 else 0)%nat) as [Hp1 Hp2] by (unfold pre; by destruct (_ && _)).
  destruct (((0 <? k)%nat && negb skip) && _); cbn [fst]; [rewrite Hp1, Hp2; destruct (_ && _); lia|].
  specialize (Hstep k) as [Hs Hw]. destruct (step (w k)) as [evs [r|e' d]]; cbn [fst] in *; [rewrite sends_app, waits_app; lia|].
  set (slept := if 0 <? d then [Waited d] else []). assert (sends slept = 0%nat ∧ waits slept = (if (0 <? d)%Z then 1 else 0)%nat) as [Hq1 Hq2] by (unfold slept; by destruct (0 <? d)).
  destruct ((0 <? d) && _) eqn:Hd; cbn [fst]; [rewrite !sends_app, !waits_app; destruct (0 <? d); lia|].
  specialize (IH (S k) (0 <? d) (Some e')). destruct (attempts fuel (S k) (0 <? d) (Some e')) as [l r]. cbn [fst] in *. rewrite !sends_app, !waits_app.
  cbn [Nat.ltb Nat.leb andb] in IH. destruct (0 <? d); cbn [negb] in IH; lia.
Qed.

(** Every wait is in range if the delays the attempts ask for are. *)
Lemma attempts_waits (ok : Z → Prop) fuel k skip e :
  (∀ j, (k ≤ j < k + fuel)%nat → ok (backoff j (jitter (w j)))) → (∀ j evs e' d, step (w j) = (evs, Again e' d) → 0 < d → ok d) →
  (∀ j d, Waited d ∉ fst (step (w j))) → ∀ d, Waited d ∈ fst (attempts fuel k skip e) → ok d.
Proof.
  intros Hb Ha Hn. revert k skip e Hb. induction fuel as [|fuel IH]; intros k skip e Hb d; [by intros ?%not_elem_of_nil|]. cbn [HttpClient.attempts].
  set (pre := if (0 <? k)%nat && negb skip then [Waited (backoff k (jitter (w k)))] else []).
  assert (Waited d ∈ pre → ok d) as Hpre by (unfold pre; destruct (_ && _); [intros [= ->]%list_elem_of_singleton; apply Hb; lia|by intros ?%not_elem_of_nil]).
  destruct (_ && negb (backoff_done (w k))); [done|]. specialize (Ha k). specialize (Hn k). destruct (step (w k)) as [evs [r|e' d']] eqn:Hst; cbn [fst].
  { rewrite elem_of_app. intros [?|?]; [by apply Hpre|by apply Hn in H]. }
  set (slept := if 0 <? d' then [Waited d'] else []).
  assert (Waited d ∈ slept → ok d) as Hsl.
  { unfold slept. destruct (0 <? d') eqn:Hd; [|by intros ?%not_elem_of_nil]. intros [= ->]%list_elem_of_singleton. bool_hyps. by eapply Ha. }
  destruct ((0 <? d') && _); [cbn [fst]; rewrite !elem_of_app; intros [?|[?|?]]; [by apply Hpre|by destruct (Hn d)|by apply Hsl]|].
  specialize (IH (S k) (0 <? d') (Some e')). destruct (attempts fuel (S k) (0 <? d') (Some e')) as [l r]. cbn [fst] in *. rewrite !elem_of_app.
  intros [?|[?|[?|?]]]; [by apply Hpre|by destruct (Hn d)|by apply Hsl|]. apply IH; [|done]. intros j Hj. apply Hb. lia.
Qed.
End attempts.

Section exchanges.
Context (parseHost : text → option text) (EqualFold : text → text → bool) (UntilDate : text → option Z).
Notation newRequest := (newRequest parseHost EqualFold).
Notation hc_Do := (hc_Do EqualFold).
Notation resolveURL := (resolveURL parseHost EqualFold).
Notation do_attempt := (do_attempt parseHost EqualFold UntilDate).
Notation do := (do parseHost EqualFold UntilDate).

Lemma newRequest_method c ctx method url body headers req : newRequest c ctx method url body headers = Ok req → method ≠ [] → Method req = method.
Proof.
  intros Hr Hm. unfold HttpClient.newRequest in Hr. destruct (newRequestReader _ _ c ctx method url headers) as [req0|] eqn:H0; [|done]. cbn [rbind] in Hr.
  assert (Method req = Method req0) as ->. { destruct (bool_decide _ && _); by apply MdCsf.ok_inj in Hr as <-. }
  unfold newRequestReader in H0. destruct (_ && _ && _ && _); [done|]. destruct (NewRequest parseHost method url) as [r|] eqn:Hn; [|done]. apply MdCsf.ok_inj in H0 as <-.
  rewrite with_headers_method. unfold NewRequest in Hn. rewrite (proj2 (eqt_false _ _) Hm) in Hn. destruct (forallb _ method); [|done].
  destruct (NetUrl.Parse parseHost url); [|done]. injection Hn as <-.
  clear Hr. cbn [with_header Method]. by destruct (sameHost _ _ _ && _).
Qed.

(** One attempt: its requests, and when it may be repeated. *)
Lemma do_attempt_trace c ctx method path url body headers maxBytes w0 : method ≠ [] →
  let t := do_attempt c ctx method path url body headers maxBytes w0 in
  (sends (fst t) ≤ maxRedirects)%nat ∧ waits (fst t) = 0%nat ∧ (replaySafe method = false ∨ SingleAttempt (policy ctx) = true → (sends (fst t) ≤ 1)%nat) ∧
  (∀ e d, snd t = Again e d → replaySafe method = true ∧ 0 ≤ d ≤ maxRetryAfter ∧ (NoReplayRetries (policy ctx) = true → d = 0)) ∧ (∀ d, Waited d ∉ fst t).
Proof.
  intros Hm t. unfold t, HttpClient.do_attempt. assert (0 ≤ 0 ≤ maxRetryAfter) as H0 by (vm_compute; split; discriminate).
  destruct (newRequest c ctx method url body headers) as [req|e] eqn:Hr; [|cbn; split_and!; try lia; [done|by intros d ?%not_elem_of_nil]].
  destruct (hc_Do c ctx req (redirects w0) (last w0)) as [sent e] eqn:Hd. apply hc_Do_sent in Hd as (Hl & Hone & _). cbn [fst snd].
  destruct (sends_sent sent) as [-> Hw]. rewrite (newRequest_method _ _ _ _ _ _ _ Hr Hm) in Hone. split_and!; [done|done|intros H; by rewrite Hone| |].
  - intros e' d. destruct e as [k intr|status header rd g].
    + destruct (readBudgetExhaustion k); [done|]. destruct (negb (replaySafe method)) eqn:Hs; cbn [orb]; [done|]. apply negb_false_iff in Hs. by destruct k; intros [= <- <-].
    + destruct (fst (readResponseBody _ _ _)) as [data|]; [|done]. destruct (success status); [done|]. unfold classifyAttempt. cbn [retryable retryDelay kind].
      destruct (replaySafe method); cbn [andb]; [|done]. destruct (transientRetryStatus status); cbn [andb]; [|done]. destruct (NoReplayRetries _); cbn [negb]; [done|].
      intros [= <- <-]. split_and!; [done|apply retryAfter_range|apply retryAfter_range|done].
  - intros d [u [? _]]%list_elem_of_fmap. done.
Qed.

(** C29: Nothing is sent more often than allowed.  One call sends at most four
    attempts of ten requests, makes at most four waits of at most thirty seconds
    each, and a single attempt or a call with a method that is not replay-safe
    sends at most one request and never waits, whatever the network does. *)
Theorem sent_bounded c ctx method path body headers maxBytes w : method ≠ [] → (∀ k, (k ≤ maxRetries)%nat → 0 ≤ jitter (w k) ≤ backoff_base k / 2) →
  let evs := fst (do c ctx method path body headers maxBytes w) in
  (sends evs ≤ S (retries ctx) * maxRedirects)%nat ∧ (waits evs ≤ S (retries ctx))%nat ∧ (∀ d, Waited d ∈ evs → 0 < d ≤ maxRetryAfter) ∧
  (replaySafe method = false ∨ SingleAttempt (policy ctx) = true → (sends evs ≤ 1)%nat ∧ waits evs = 0%nat).
Proof.
  intros Hm Hj evs. unfold evs, HttpClient.do. destruct (resolveURL c path) as [url|]; [|cbn; split_and!; try lia; by intros d ?%not_elem_of_nil].
  set (step := do_attempt c ctx method path url body headers maxBytes). assert (∀ k, _) as Hstep by exact (λ k, do_attempt_trace c ctx method path url body headers maxBytes (w k) Hm).
  fold step in Hstep. assert (retries ctx ≤ maxRetries)%nat as Hret by (unfold retries; destruct (NoReplayRetries _); unfold maxRetries; lia).
  destruct (attempts_trace [] step w maxRedirects (S (retries ctx)) 0 false None) as [Hs Hw]; [intros k; destruct (Hstep k) as (? & ? & _); split; [done|done]|].
  cbn [Nat.ltb Nat.leb andb] in Hw. split_and!; [done|lia| |].
  - apply (attempts_waits [] step w (λ d, 0 < d ≤ maxRetryAfter)).
    + intros j Hk. pose proof (backoff_range j (jitter (w j)) ltac:(lia) (Hj j ltac:(lia))) as Hb. change maxRetryAfter with (30 * Second). change Second with 1000000000 in *. lia.
    + intros j evs' e d Hst Hd. destruct (Hstep j) as (_ & _ & _ & Ha & _). destruct (Ha e d) as (_ & ? & _); [by rewrite Hst|]. lia.
    + intros j. by destruct (Hstep j) as (_ & _ & _ & _ & ?).
  - intros Hone. cbn [HttpClient.attempts]. change ((0 <? 0)%nat && negb false) with false. cbn [andb app]. destruct (Hstep 0%nat) as (_ & Hw0 & Hs0 & Ha & _).
    specialize (Hs0 Hone). destruct (step (w 0%nat)) as [evs' [r|e d]] eqn:Hst; cbn [fst snd] in *; [done|]. destruct (Ha e d eq_refl) as (Hsafe & _ & Hd).
    destruct Hone as [|Hsingle]; [congruence|]. assert (NoReplayRetries (policy ctx) = true) as Hno by (unfold NoReplayRetries; by rewrite Hsingle, orb_true_r).
    rewrite (Hd Hno). unfold retries. rewrite Hno. cbn. by rewrite !app_nil_r.
Qed.

(** The exchange of an attempt, if a request could be built. *)
Definition exchanged c ctx method url body headers (w0 : attempt_world) (e : exchange) : Prop :=
  ∃ req, newRequest c ctx method url body headers = Ok req ∧ snd (hc_Do c ctx req (redirects w0) (last w0)) = e.

(** A call succeeds exactly on the first attempt that gets an answer.  The data
    returned is the whole body, within the limit, of a 2xx response; the attempts
    before it, at most three, were plain reads that broke in transport or were
    answered 429 or 5xx, each allowed another attempt and waited its full delay. *)
Theorem do_success c ctx method path body headers maxBytes w data :
  snd (do c ctx method path body headers maxBytes w) = Ok data ↔
  ∃ url n, resolveURL c path = Ok url ∧ (n ≤ retries ctx)%nat ∧
    (∃ status header rd g, exchanged c ctx method url body headers (w n) (Replied status header rd g) ∧ success status = true ∧
       fst (readResponseBody (budget_of ctx g) rd maxBytes) = Ok data) ∧
    ∀ j, (j < n)%nat → repeats (do_attempt c ctx method path url body headers maxBytes) w j ∧ replaySafe method = true ∧
      ((∃ k i, exchanged c ctx method url body headers (w j) (Broken k i) ∧ k ≠ RedirectLimit ∧ readBudgetExhaustion k = None) ∨
       (∃ status header rd g, exchanged c ctx method url body headers (w j) (Replied status header rd g) ∧ transientRetryStatus status = true ∧ NoReplayRetries (policy ctx) = false)).
Proof.
  unfold HttpClient.do. destruct (resolveURL c path) as [url|]; [|split; [done|by intros (? & ? & ? & _)]].
  set (step := do_attempt c ctx method path url body headers maxBytes).
  assert (∀ w0, snd (step w0) = Stop (Ok data) ↔ ∃ status header rd g, exchanged c ctx method url body headers w0 (Replied status header rd g) ∧ success status = true ∧
    fst (readResponseBody (budget_of ctx g) rd maxBytes) = Ok data) as Hstop.
  { intros w0. unfold step, HttpClient.do_attempt, exchanged. destruct (newRequest c ctx method url body headers) as [req|]; [|split; [done|by intros (? & ? & ? & ? & (? & ? & _) & _)]].
    destruct (hc_Do c ctx req (redirects w0) (last w0)) as [sent e] eqn:Hx. cbn [snd]. split.
    - destruct e as [k i|status header rd g]; [destruct (readBudgetExhaustion k); [done|]; by destruct (_ || _)|]. destruct (fst (readResponseBody _ _ _)) as [d|] eqn:Hb; [|done].
      destruct (success status) eqn:Hs; [|by destruct (_ && _)]. intros [= ->]. exists status, header, rd, g. split; [exists req; by rewrite Hx|done].
    - intros (status & header & rd & g & (req' & [= <-] & He) & Hs & Hb). rewrite Hx in He. cbn [snd] in He. subst e. by rewrite Hb, Hs. }
  assert (∀ j, repeats step w j → replaySafe method = true ∧
      ((∃ k i, exchanged c ctx method url body headers (w j) (Broken k i) ∧ k ≠ RedirectLimit ∧ readBudgetExhaustion k = None) ∨
       (∃ status header rd g, exchanged c ctx method url body headers (w j) (Replied status header rd g) ∧ transientRetryStatus status = true ∧ NoReplayRetries (policy ctx) = false))) as Hrep.
  { intros j (e & d & Hst & _). unfold step, HttpClient.do_attempt, exchanged in *. destruct (newRequest c ctx method url body headers) as [req|]; [|done].
    destruct (hc_Do c ctx req (redirects (w j)) (last (w j))) as [sent x] eqn:Hd. cbn [snd] in Hst. destruct x as [k i|status header rd g].
    - destruct (readBudgetExhaustion k) eqn:Hk; [done|]. destruct (negb (replaySafe method)) eqn:Hs; cbn [orb] in Hst; [done|]. apply negb_false_iff in Hs. split; [done|]. left.
      exists k, i. split; [exists req; by rewrite Hd|]. by destruct k.
    - destruct (fst (readResponseBody _ _ _)) as [d'|]; [|done]. destruct (success status); [done|]. destruct (_ && _) eqn:Hr; [|done].
      unfold classifyAttempt in Hr. cbn [retryable] in Hr. rewrite !andb_true_iff, negb_true_iff in Hr. destruct Hr as [[Hsafe Ht] Hno]. split; [done|]. right.
      exists status, header, rd, g. split; [exists req; by rewrite Hd|done]. }
  rewrite attempts_success by lia. split.
  - intros (_ & n & Hn & Hr & Hd). exists url, n. split_and!; [done|lia|by apply Hstop|]. intros j Hj. specialize (Hr j Hj). by split; [|apply Hrep].
  - intros (url' & n & [= <-] & Hn & Hd & Hr). split; [done|]. exists n. split_and!; [lia|intros j Hj; by apply Hr|by apply Hstop].
Qed.
End exchanges.

(** ** Concrete runs *)

Module Demo.
Definition fold_ascii (a b : text) : bool := eqt (to_lower a) (to_lower b).
Definition no_date (_ : text) : option Z := None.
Definition client : Client := newWithScheduler simple_host (txt "https://wiki.example/ctx/") (txt "PAT") (txt "1.0") false true.
Definition reading : context := {| policy := Background; budgeted := true; deadline := None; ended := false |}.
Definition wiki : URL := {| Scheme := txt "https"; HasUser := false; Host := txt "wiki.example"; Path := txt "/ctx/rest" |}.
Definition body_ (s : string) : reader := {| bytes := txt s; fails := false; close_fails := false |}.
Definition quiet (e : exchange) : attempt_world := {| redirects := []; last := e; jitter := 0; backoff_done := true; retry_done := true |}.

(** A 429 with Retry-After, a broken connection, then an answer after a redirect. *)
Definition flaky : world := λ k,
  match k with
  | 0%nat => quiet (Replied 429 (txt " 2 ") (body_ "slow") (Granted 100))
  | 1%nat => quiet (Broken OtherCause false)
  | _ => {| redirects := [{| response := Replied 302 [] (body_ "") (Granted 0); location := wiki; redirect_method := txt "GET" |}];
            last := Replied 200 [] (body_ "data") (Granted 100); jitter := 7; backoff_done := true; retry_done := true |}
  end.
Notation get w path := (Do simple_host fold_ascii no_date client reading (txt "GET") (txt path) None [] w).
Notation put w path := (Do simple_host fold_ascii no_date client {| policy := WithWriteClearance Background; budgeted := true; deadline := None; ended := false |}
  (txt "PUT") (txt path) (Some (txt "{}")) [] w).

Example get_demo : get flaky "/rest" = ([Sent wiki; Waited (2 * Second); Sent wiki; Waited (400 * Millisecond + 7); Sent wiki; Sent wiki], Ok (txt "data")) ∧
  put flaky "/rest" = ([Sent wiki], Err (APIError 429 (txt "PUT") (txt "/rest") (txt "slow") None)) ∧
  get flaky "https://evil.example/rest" = ([], Err (URLError ForeignHost)).
Proof. vm_compute. split_and!; reflexivity. Qed.

(** A path that is neither absolute nor starts with a slash is appended as it is
    and can change the host; the token then stays behind. *)
Definition flat : Client := newWithScheduler simple_host (txt "https://wiki.example") (txt "PAT") (txt "1.0") false true.
Example unrooted_path_moves_host : resolveURL simple_host fold_ascii flat (txt ".evil/x") = Ok (txt "https://wiki.example.evil/x") ∧
  resolveURL simple_host fold_ascii flat (txt "httpcache/x") = Ok (txt "https://wiki.examplehttpcache/x") ∧
  (λ r, (Host (RequestURL r), header_get (txt "Authorization") (Headers r))) <$>
    match newRequest simple_host fold_ascii flat reading (txt "GET") (txt "https://wiki.example.evil/x") None [] with Ok r => Some r | Err _ => None end =
  Some (txt "wiki.example.evil", []).
Proof. vm_compute. split_and!; reflexivity. Qed.

(** The last attempt waits for the Retry-After before it gives up. *)
Definition busy : world := λ _, quiet (Replied 503 (txt "30") (body_ "") (Granted 100)).
Example last_wait : (waits (fst (get busy "/rest")), sends (fst (get busy "/rest"))) = (4%nat, 4%nat).
Proof. vm_compute. reflexivity. Qed.

Lemma body_whole_witness : Z.of_nat (length (txt "abc")) ≤ 5 ∧ (∃ k, Some 3 = Some k ∧ 0 ≤ k ≤ 4).
Proof.
  destruct (body_whole (Some (Granted 4)) 5 (read_all (body_ "abc")) (body_ "abc") (Ok (txt "abc")) (Some 3) (or_introl eq_refl) ltac:(lia)
    ltac:(by intros n [= <-]) ltac:(vm_compute; reflexivity)) as (Hd & Hc & _).
  split; [exact (proj1 (proj2 (Hd (txt "abc") eq_refl)))|]. destruct (Hc 4 eq_refl) as (k & Hk & Hr & _). exists k. split; [exact Hk|exact Hr].
Defined.

Lemma token_confined_witness : ∃ req, newRequest simple_host fold_ascii client reading (txt "GET") (txt "https://wiki.example/ctx/rest") None [] = Ok req ∧
  (txt "Authorization", txt "Bearer PAT") ∈ Headers req.
Proof.
  eexists. split; [vm_compute; reflexivity|].
  apply (token_confined simple_host fold_ascii client reading (txt "GET") (txt "https://wiki.example/ctx/rest") None []); [vm_compute; reflexivity|constructor|].
  split; [reflexivity|]. split; [vm_compute; reflexivity|]. intros _. vm_compute. reflexivity.
Defined.

Lemma requests_stay_home_witness : sameHost fold_ascii (txt "wiki.example") (txt "wiki.example") = true.
Proof.
  apply (requests_stay_home simple_host fold_ascii (txt "https://wiki.example/ctx/") (txt "PAT") (txt "1.0") false true
    {| Scheme := txt "https"; HasUser := false; Host := txt "wiki.example"; Path := txt "/ctx" |} (txt "/rest") (txt "https://wiki.example/ctx/rest") wiki);
    try (vm_compute; reflexivity); try discriminate.
  - intros a. apply eqt_refl.
  - right. exists (txt "rest"). reflexivity.
Defined.

Lemma sent_bounded_witness : (sends (fst (do simple_host fold_ascii no_date client reading (txt "GET") (txt "/rest") None [] 100 flaky)) ≤ 40)%nat.
Proof.
  refine (proj1 (sent_bounded simple_host fold_ascii no_date client reading (txt "GET") (txt "/rest") None [] 100 flaky ltac:(discriminate) _)).
  intros [|[|[|[|k]]]] Hk; [vm_compute; split; discriminate..|]. exfalso. unfold maxRetries in Hk. lia.
Defined.

Lemma do_success_witness : snd (do simple_host fold_ascii no_date client reading (txt "GET") (txt "/rest") None [] 100 flaky) = Ok (txt "data") ∧
  ∃ n, (n ≤ 3)%nat ∧ ∀ j, (j < n)%nat → replaySafe (txt "GET") = true.
Proof.
  assert (snd (do simple_host fold_ascii no_date client reading (txt "GET") (txt "/rest") None [] 100 flaky) = Ok (txt "data")) as H by (vm_compute; reflexivity).
  split; [exact H|]. apply (do_success simple_host fold_ascii no_date client reading (txt "GET") (txt "/rest") None [] 100 flaky (txt "data")) in H.
  destruct H as (url & n & _ & Hn & _ & Hr). exists n. split; [exact Hn|]. intros j Hj. exact (proj1 (proj2 (Hr j Hj))).
Defined.
End Demo.
End HttpClient.
