(* ===== verification/HttpStream.v ===== *)
(** * Budgeted streams (internal/httpx: budget_stream.go, body.go: idleReader)

    A streamed body reserves the response budget of its context on its first read
    and settles it once.  Reads are serialised by [readMu]; [Close] does not wait
    for it before it marks the stream closed.  A step is one critical section of a
    [Read] or [Close], or the return of a call that blocks without the program's
    help: [BeginResponse], and the read of the underlying body.  The second half
    is the watchdog that bounds the silence of a body. *)

From S2P Require Import Prelude.

Module HttpStream.
Local Open Scope Z_scope.

Inductive streamError := BudgetError | Exhausted | Cancelled.

(** Where the goroutine that holds [readMu] is: in [BeginResponse] with a buffer
    of [len] bytes, in a read of at most [limit] bytes, or in the one-byte probe
    of a spent budget. *)
Inductive point := Idle | Beginning (len : Z) | Reading (limit : Z) | Probing.
Inductive closing := Open | Closing | Closed.

(** [reserved]: [reader] and [finish] are set.  [finishes] holds the counts the
    [finish] closures of [BeginResponse] were called with, the latest first;
    [grants] and [delivered] count the reservations and the bytes handed out. *)
Record stream := {
  remaining : Z; consumed : Z; terminal : option streamError; reserved : bool; finishOnce : bool; bodyCloseOnce : bool;
  at_ : point; close : closing; finishes : list Z; grants : nat; delivered : Z
}.

Definition newReadBudgetStream : stream :=
  {| remaining := 0; consumed := 0; terminal := None; reserved := false; finishOnce := false; bodyCloseOnce := false;
     at_ := Idle; close := Open; finishes := []; grants := 0; delivered := 0 |}.

Definition closed (s : stream) : bool := match close s with Open => false | _ => true end.
Definition goto (p : point) (s : stream) : stream :=
  {| remaining := remaining s; consumed := consumed s; terminal := terminal s; reserved := reserved s; finishOnce := finishOnce s; bodyCloseOnce := bodyCloseOnce s;
     at_ := p; close := close s; finishes := finishes s; grants := grants s; delivered := delivered s |}.
Definition fail_with (e : streamError) (s : stream) : stream :=
  {| remaining := remaining s; consumed := consumed s; terminal := Some e; reserved := reserved s; finishOnce := finishOnce s; bodyCloseOnce := bodyCloseOnce s;
     at_ := Idle; close := close s; finishes := finishes s; grants := grants s; delivered := delivered s |}.
Definition set_close (c : closing) (s : stream) : stream :=
  {| remaining := remaining s; consumed := consumed s; terminal := terminal s; reserved := reserved s; finishOnce := finishOnce s; bodyCloseOnce := bodyCloseOnce s;
     at_ := at_ s; close := c; finishes := finishes s; grants := grants s; delivered := delivered s |}.
Definition call_finish (n : Z) (s : stream) : stream :=
  {| remaining := remaining s; consumed := consumed s; terminal := terminal s; reserved := reserved s; finishOnce := finishOnce s; bodyCloseOnce := bodyCloseOnce s;
     at_ := at_ s; close := close s; finishes := n :: finishes s; grants := grants s; delivered := delivered s |}.
Definition granted (n : Z) (s : stream) : stream :=
  {| remaining := remaining s; consumed := consumed s; terminal := terminal s; reserved := reserved s; finishOnce := finishOnce s; bodyCloseOnce := bodyCloseOnce s;
     at_ := at_ s; close := close s; finishes := finishes s; grants := S (grants s); delivered := delivered s |}.
Definition reserve (n : Z) (s : stream) : stream :=
  {| remaining := n; consumed := consumed s; terminal := terminal s; reserved := true; finishOnce := finishOnce s; bodyCloseOnce := bodyCloseOnce s;
     at_ := at_ s; close := close s; finishes := finishes s; grants := grants s; delivered := delivered s |}.
Definition consume (n : Z) (s : stream) : stream :=
  {| remaining := remaining s; consumed := consumed s + n; terminal := terminal s; reserved := reserved s; finishOnce := finishOnce s; bodyCloseOnce := bodyCloseOnce s;
     at_ := at_ s; close := close s; finishes := finishes s; grants := grants s; delivered := delivered s + n |}.

Definition finishUsage (s : stream) : stream :=
  if reserved s && negb (finishOnce s) then
    {| remaining := remaining s; consumed := consumed s; terminal := terminal s; reserved := reserved s; finishOnce := true; bodyCloseOnce := bodyCloseOnce s;
       at_ := at_ s; close := close s; finishes := consumed s :: finishes s; grants := grants s; delivered := delivered s |}
  else s.
Definition closeUnderlying (s : stream) : stream :=
  {| remaining := remaining s; consumed := consumed s; terminal := terminal s; reserved := reserved s; finishOnce := finishOnce s; bodyCloseOnce := true;
     at_ := at_ s; close := close s; finishes := finishes s; grants := grants s; delivered := delivered s |}.

(** The part of [Read] after [begin] succeeded. *)
Definition read_body (len : Z) (s : stream) : stream :=
  match terminal s with
  | Some _ => goto Idle s
  | None => let available := remaining s - consumed s in
            goto (if available <=? 0 then Probing else Reading (if available <? len then available else len)) s
  end.

(** What [BeginResponse] returns, and how a read of the body ends. *)
Inductive label :=
| LRead (len : Z)
| LBegin (grant : option Z)
| LData (n : Z) (failed : bool)
| LClose
| LCloseDone.

Definition do_step (a : label) (s : stream) : option stream :=
  match a with
  | LRead len =>
      if len <=? 0 then Some s
      else if closed s then Some s
      else match at_ s with
      | Idle => Some (if reserved s then read_body len s else match terminal s with Some _ => s | None => goto (Beginning len) s end)
      | _ => None
      end
  | LBegin grant =>
      match at_ s with
      | Beginning len =>
          match grant with
          | None => Some (fail_with BudgetError s)
          | Some n =>
              if n <? 0 then None
              else let s := granted n s in
                if closed s then Some (fail_with Cancelled (call_finish 0 s)) else Some (read_body len (reserve n s))
          end
      | _ => None
      end
  | LData n failed =>
      match at_ s with
      | Reading limit =>
          if (0 <=? n) && (n <=? limit) then let s := goto Idle (consume n s) in Some (if failed then finishUsage s else s) else None
      | Probing =>
          if (0 <=? n) && (n <=? 1) then
            if 0 <? n then Some (closeUnderlying (finishUsage (fail_with Exhausted s)))
            else let s := goto Idle s in Some (if failed then finishUsage s else s)
          else None
      | _ => None
      end
  | LClose => Some (match close s with Open => set_close Closing s | _ => s end)
  | LCloseDone =>
      match close s, at_ s with
      | Closing, Idle => Some (set_close Closed (closeUnderlying (finishUsage s)))
      | _, _ => None
      end
  end.

Inductive reachable : stream → Prop :=
| reach_new : reachable newReadBudgetStream
| reach_step a s s' : reachable s → do_step a s = Some s' → reachable s'.

Fixpoint run_labels (ls : list label) (s : stream) : option stream :=
  match ls with [] => Some s | a :: ls => s' ← do_step a s; run_labels ls s' end.

(** ** The invariant *)

Definition room (s : stream) : Prop :=
  match at_ s with
  | Reading limit => reserved s = true ∧ 0 < limit ≤ remaining s - consumed s
  | Probing => reserved s = true
  | Beginning len => reserved s = false ∧ terminal s = None ∧ 0 < len
  | Idle => True
  end.

Record Inv (s : stream) : Prop := {
  I_consumed : 0 ≤ consumed s ≤ remaining s ∧ delivered s = consumed s;
  I_room : room s;
  I_fresh : reserved s = false → finishOnce s = false ∧ consumed s = 0;
  I_grants : grants s = (if reserved s then 1 else if decide (finishes s = []) then 0 else 1)%nat;
  I_finishes : length (finishes s) = (if reserved s then (if finishOnce s then 1 else 0) else grants s)%nat;
  I_settled : Forall (λ n, 0 ≤ n ≤ remaining s) (finishes s);
  I_dead : reserved s = false → finishes s ≠ [] → terminal s ≠ None;
  I_closed : close s = Closed → at_ s = Idle ∧ (reserved s = true → finishOnce s = true)
}.

Lemma new_Inv : Inv newReadBudgetStream.
Proof. split; cbn; try done; try lia; by constructor. Qed.

Lemma goto_Inv p s : Inv s → room (goto p s) → close s ≠ Closed → Inv (goto p s).
Proof. intros [Hc _ Hf Hg Hn Hs Hd _] Hr Hcl. by split. Qed.

Lemma goto_idle_Inv s : Inv s → Inv (goto Idle s).
Proof. intros [Hc _ Hf Hg Hn Hs Hd Hcl]. split; try done. cbn. intros H. split; [done|]. by apply Hcl. Qed.

Lemma finishUsage_Inv s : Inv s → at_ s = Idle → Inv (finishUsage s).
Proof.
  intros HI Ha. unfold finishUsage. destruct (reserved s) eqn:Hr; cbn [andb]; [|done]. destruct (finishOnce s) eqn:Ho; cbn [negb]; [done|].
  destruct HI as [Hc Hro Hf Hg Hn Hs Hd Hcl]. split; cbn; rewrite ?Hr, ?Ho in *; try done.
  - unfold room in *. cbn. by rewrite Ha in *.
  - by rewrite Hn.
  - constructor; [lia|done].
Qed.
Lemma closeUnderlying_Inv s : Inv s → Inv (closeUnderlying s).
Proof. intros [Hc Hro Hf Hg Hn Hs Hd Hcl]. by split. Qed.

Lemma read_body_Inv len s : Inv s → reserved s = true → 0 < len → close s ≠ Closed → Inv (read_body len s).
Proof.
  intros HI Hr Hl Hcl. unfold read_body. destruct (terminal s); [by apply goto_idle_Inv|]. apply goto_Inv; [done| |done].
  unfold room. cbn. destruct (_ <=? _) eqn:H1; [done|]. bool_hyps. split; [done|]. destruct (_ <? _) eqn:H2; bool_hyps; lia.
Qed.

Lemma consume_Inv n s limit : Inv s → at_ s = Reading limit → 0 ≤ n ≤ limit → Inv (goto Idle (consume n s)).
Proof.
  intros [Hc Hro Hf Hg Hn Hs Hd Hcl] Ha Hl. unfold room in Hro. rewrite Ha in Hro. destruct Hro as [Hr Hlim].
  split; cbn; try done; [lia|congruence|]. intros H. destruct (Hcl H) as [Hi _]. congruence.
Qed.

Lemma fail_Inv e s : Inv s → close s ≠ Closed → Inv (fail_with e s).
Proof. intros [Hc Hro Hf Hg Hn Hs Hd Hcl] Hx. by split. Qed.

Lemma stream_step_Inv a s s' : Inv s → do_step a s = Some s' → Inv s'.
Proof.
  intros HI. assert (∀ p, at_ s = p → p ≠ Idle → close s ≠ Closed) as Hopen by (intros p Hp Hi Hc; destruct (I_closed s HI Hc); congruence).
  destruct a as [len|grant|n failed| |]; cbn [do_step].
  - destruct (len <=? 0) eqn:Hl; [by intros [= <-]|]. destruct (closed s) eqn:Hc; [by intros [= <-]|]. bool_hyps.
    assert (close s ≠ Closed) as Hcl by (unfold closed in Hc; by destruct (close s)). destruct (at_ s) eqn:Ha; try done. intros [= <-].
    destruct (reserved s) eqn:Hr; [by apply read_body_Inv|]. destruct (terminal s) eqn:Ht; [done|]. by apply goto_Inv.
  - destruct (at_ s) as [|len| |] eqn:Ha; try done. pose proof (I_room s HI) as Hro. unfold room in Hro. rewrite Ha in Hro. destruct Hro as (Hr & Ht & Hlen).
    specialize (Hopen _ eq_refl ltac:(done)). destruct grant as [n|]; [|intros [= <-]; by apply fail_Inv]. destruct (n <? 0) eqn:Hn0; [done|]. bool_hyps.
    destruct HI as [Hc _ Hf Hg Hn Hs Hd Hcl]. rewrite Hr in *. destruct (Hf eq_refl) as [Hf1 Hf2].
    assert (finishes s = []) as Hnil by (destruct (finishes s); [done|by destruct Hd]). rewrite Hnil in *.
    change (closed (granted n s)) with (closed s). destruct (closed s); intros [= <-].
    + split; cbn; rewrite ?Hr, ?Hnil; try done; [rewrite Hg; done|cbn; rewrite Hg; done|constructor; [lia|constructor]].
    + unfold read_body. cbn [terminal reserve granted]. rewrite Ht. unfold goto. cbn. split; cbn; rewrite ?Hnil; try done; try lia.
      * unfold room. cbn. destruct (_ <=? _) eqn:H1; [done|]. bool_hyps. split; [done|]. destruct (_ <? _) eqn:H2; bool_hyps; lia.
      * by rewrite Hg.
      * by rewrite Hf1.
  - destruct (at_ s) as [| |limit|] eqn:Ha; try done.
    + destruct (_ && _) eqn:Hl; [|done]. bool_hyps. pose proof (consume_Inv n s limit HI Ha ltac:(lia)) as HI'. intros [= <-].
      destruct failed; [by apply finishUsage_Inv|done].
    + destruct (_ && _); [|done]. specialize (Hopen _ eq_refl ltac:(done)). destruct (0 <? n); intros [= <-].
      * apply closeUnderlying_Inv, finishUsage_Inv; [by apply fail_Inv|done].
      * pose proof (goto_idle_Inv s HI) as HI'. destruct failed; [by apply finishUsage_Inv|done].
  - intros [= <-]. destruct (close s) eqn:Hc; [|done..]. destruct HI as [? ? ? ? ? ? ? Hcl]. by split.
  - destruct (close s) eqn:Hc; try done. destruct (at_ s) eqn:Ha; try done. intros [= <-].
    pose proof (closeUnderlying_Inv _ (finishUsage_Inv s HI Ha)) as [H1 H2 H3 H4 H5 H6 H7 H8]. split; try done. cbn. intros _.
    unfold finishUsage. destruct (reserved s) eqn:Hr, (finishOnce s) eqn:Ho; cbn; rewrite ?Ha, ?Ho; by split; try congruence.
Qed.

Lemma stream_reachable_Inv s : reachable s → Inv s.
Proof. induction 1 as [|a s s' _ IH Hs]; [apply new_Inv|by eapply stream_step_Inv]. Qed.

(** A stream settles what it reserved.  However reads, the budget, the network
    and Close interleave, the bytes handed out never exceed the reservation, a
    stream reserves at most once and settles at most once, for a count within the
    reservation, and when Close has returned the reservation is settled. *)
Theorem stream_settled s : reachable s →
  0 ≤ delivered s ≤ remaining s ∧ (grants s ≤ 1)%nat ∧ (length (finishes s) ≤ grants s)%nat ∧ Forall (λ n, 0 ≤ n ≤ remaining s) (finishes s) ∧
  (close s = Closed → length (finishes s) = grants s ∧ at_ s = Idle).
Proof.
  intros [Hc Hro Hf Hg Hn Hs Hd Hcl]%stream_reachable_Inv. destruct (reserved s) eqn:Hr.
  - rewrite Hg. split_and!; [lia|lia|lia|destruct (finishOnce s); lia|done|]. intros H. destruct (Hcl H) as [Hi Ho]. rewrite Ho in Hn by done. by rewrite Hn.
  - destruct (decide (finishes s = [])) as [He|He]; rewrite Hg; split_and!; try lia; try done; intros H; destruct (Hcl H); split; [by rewrite Hn, Hg|done|by rewrite Hn, Hg|done].
Qed.

(** After Close a Read changes nothing: it returns the error of a closed stream. *)
Lemma read_after_close s len : close s ≠ Open → do_step (LRead len) s = Some s.
Proof. intros H. cbn. destruct (len <=? 0); [done|]. unfold closed. by destruct (close s). Qed.

(** ** The idle watchdog *)

(** [alarm] is the time the timer fires, while it is armed; [stalled] is the time
    the watchdog gave up and the last progress it had seen. *)
Record idleReader := { idle : Z; clock : Z; progress : Z; alarm : option Z; stalled : option (Z * Z); stopped : bool }.
Definition newIdleReader (now idle : Z) : idleReader :=
  {| idle := idle; clock := now; progress := now; alarm := Some (now + idle); stalled := None; stopped := false |}.

Inductive idle_label := ITick (d : Z) | IProgress | IFire | IClose.

(** [watchdog]. *)
Definition watchdog (r : idleReader) : idleReader :=
  let elapsed := clock r - progress r in
  if elapsed <? idle r
  then {| idle := idle r; clock := clock r; progress := progress r; alarm := Some (clock r + (idle r - elapsed)); stalled := stalled r; stopped := stopped r |}
  else {| idle := idle r; clock := clock r; progress := progress r; alarm := None; stalled := Some (clock r, progress r); stopped := stopped r |}.

Definition idle_step (a : idle_label) (r : idleReader) : option idleReader :=
  match a with
  | ITick d => if 0 <=? d then Some {| idle := idle r; clock := clock r + d; progress := progress r; alarm := alarm r; stalled := stalled r; stopped := stopped r |} else None
  | IProgress => Some {| idle := idle r; clock := clock r; progress := clock r; alarm := alarm r; stalled := stalled r; stopped := stopped r |}
  | IFire => match alarm r with Some a => if a <=? clock r then Some (watchdog r) else None | None => None end
  | IClose => Some {| idle := idle r; clock := clock r; progress := progress r; alarm := None; stalled := stalled r; stopped := true |}
  end.

Inductive idle_reachable (now d : Z) : idleReader → Prop :=
| idle_new : idle_reachable now d (newIdleReader now d)
| idle_more a r r' : idle_reachable now d r → idle_step a r = Some r' → idle_reachable now d r'.

(** The watchdog gives up only after [idle] of silence, and while the stream is
    open its alarm is never later than that. *)
Lemma watchdog_bounds now d r : idle_reachable now d r →
  idle r = d ∧ progress r ≤ clock r ∧ (∀ t p, stalled r = Some (t, p) → p + d ≤ t) ∧
  (stopped r = false → stalled r = None → ∃ a, alarm r = Some a ∧ a ≤ progress r + d).
Proof.
  induction 1 as [|a r r' _ (Hi & Hp & Hs & Ha) Hstep]; [cbn; split_and!; [done|lia|done|]; intros; eexists; split; [done|lia]|].
  destruct a as [x| | |]; cbn in Hstep.
  - destruct (0 <=? x) eqn:Hx; [|done]. injection Hstep as <-. bool_hyps. cbn. split_and!; try done. lia.
  - injection Hstep as <-. cbn. split_and!; try done. intros H1 H2. destruct (Ha H1 H2) as (a & -> & ?). exists a. split; [done|lia].
  - destruct (alarm r) as [a|]; [|done]. destruct (a <=? clock r); [|done]. injection Hstep as <-. unfold watchdog. destruct (_ <? _) eqn:He; bool_hyps; cbn.
    + split_and!; try done; try lia. intros _ _. eexists. split; [done|lia].
    + split_and!; try done; try lia. intros t p [= <- <-]. lia.
  - injection Hstep as <-. by cbn.
Qed.

Module Demo.
(** Ten bytes are reserved; the reads ask for six and for six, the probe finds
    more, then the stream is closed. *)
Definition labels : list label := [LRead 6; LBegin (Some 10); LData 6 false; LRead 6; LData 4 false; LRead 6; LData 1 false; LClose; LRead 3; LCloseDone].
Definition final : stream := Eval vm_compute in default newReadBudgetStream (run_labels labels newReadBudgetStream).
Example stream_demo_final : (delivered final, finishes final, terminal final, close final, bodyCloseOnce final) = (10, [10], Some Exhausted, Closed, true).
Proof. reflexivity. Qed.

Lemma stream_run_labels_reachable ls s s' : reachable s → run_labels ls s = Some s' → reachable s'.
Proof.
  revert s. induction ls as [|a ls IH]; intros s Hr; cbn; [by intros [= <-]|]. destruct (do_step a s) as [s1|] eqn:Hs; [|done]. cbn. apply IH. by eapply reach_step.
Qed.
Lemma stream_final_reachable : reachable final.
Proof. eapply (stream_run_labels_reachable labels); [constructor|vm_compute; reflexivity]. Qed.

Lemma stream_settled_witness : 0 ≤ delivered final ≤ remaining final ∧ length (finishes final) = grants final.
Proof.
  destruct (stream_settled final stream_final_reachable) as (Hd & _ & _ & _ & Hc). split; [exact Hd|]. exact (proj1 (Hc eq_refl)).
Defined.
End Demo.
End HttpStream.
