(* ===== verification/Promotion.v ===== *)
(** * Promotion decisions and rollbacks
    (internal/agenteval/promotion: contract.go, evaluate.go, validate.go)

    The receipts, their validation, the decision and the JSON their digests
    cover.  SHA-256 is the parameter [sha256]; decoding is [encoding/json]'s, one
    parameter per type, whose answer the code compares with the canonical bytes. *)

From stdpp Require Import vector.
From S2P Require Import Prelude GoText Identifiers Encoding.
Import GoText Identifiers Encoding.

Module Promotion.
Local Open Scope Z_scope.
Local Open Scope atl_scope.

(** ** Contract *)

Definition Schema : text := txt "agent-eval/promotion-decision".
Definition ComparisonSchema : text := txt "agent-eval/promotion-comparison".
Definition RollbackSchema : text := txt "agent-eval/promotion-rollback".
Definition SchemaVersion : Z := 1.
Definition ContractVersion : text := txt "0.1.0-pre-release".
Definition MaxReceiptBytes : Z := 2 ^ 20.
Definition MaxComponents : nat := 4.
Definition MaxAxes : nat := 6.
Definition MaxReasons : nat := 16.

Inductive ErrorCode :=
| ErrorInvalidIdentity | ErrorInvalidReview | ErrorInvalidAxis | ErrorPromotionRefused | ErrorInvalidReceipt | ErrorInvalidRollback
| ErrorLimitExceeded | ErrorConflict | ErrorOutcomeUnknown | ErrorIO.

Definition ComponentSkill : text := txt "skill".
Definition ComponentEvaluation : text := txt "evaluation".
Definition ComponentGrader : text := txt "grader".
Definition ComponentHoldout : text := txt "holdout".
Definition components : list text := [ComponentSkill; ComponentEvaluation; ComponentGrader; ComponentHoldout].

Definition AxisSafety : text := txt "safety".
Definition AxisCoverage : text := txt "coverage".
Definition AxisRuntime : text := txt "runtime".
Definition AxisQuality : text := txt "quality".
Definition AxisNegativeLift : text := txt "negative_lift".
Definition AxisResource : text := txt "resource".
Definition axes : list text := [AxisSafety; AxisCoverage; AxisRuntime; AxisQuality; AxisNegativeLift; AxisResource].

Definition AxisPass : text := txt "pass".
Definition AxisFail : text := txt "fail".
Definition AxisUnknown : text := txt "unknown".

Definition DecisionPromote : text := txt "promote".
Definition DecisionRefuse : text := txt "refuse".
Definition DecisionRollback : text := txt "rollback".

Definition ReasonUnreviewedSkill : text := txt "unreviewed_skill".
Definition ReasonUnreviewedEvaluation : text := txt "unreviewed_evaluation".
Definition ReasonUnreviewedGrader : text := txt "unreviewed_grader".
Definition ReasonUnreviewedHoldout : text := txt "unreviewed_holdout".
Definition ReasonSafetyRegression : text := txt "safety_regression".
Definition ReasonCoverageMissing : text := txt "coverage_missing".
Definition ReasonRuntimeIncompatible : text := txt "runtime_incompatible".
Definition ReasonQualityRegression : text := txt "quality_regression".
Definition ReasonNegativeLift : text := txt "negative_lift".
Definition ReasonResourceExhausted : text := txt "resource_exhausted".
Definition ReasonInterrupted : text := txt "decision_interrupted".
Definition ReasonIdentityMismatch : text := txt "identity_mismatch".
Definition reasons_ordered : list text :=
  [ReasonUnreviewedSkill; ReasonUnreviewedEvaluation; ReasonUnreviewedGrader; ReasonUnreviewedHoldout; ReasonSafetyRegression; ReasonCoverageMissing;
   ReasonRuntimeIncompatible; ReasonQualityRegression; ReasonNegativeLift; ReasonResourceExhausted; ReasonInterrupted; ReasonIdentityMismatch].

Record Identity := {
  LineageSHA256 : text; SkillSHA256 : text; EvaluationSHA256 : text; GraderSHA256 : text; HoldoutSHA256 : text; RuntimeSHA256 : text
}.
Record ComponentReview := { Component : text; ReferenceSHA256 : text; CandidateSHA256 : text; ReviewSHA256 : text; Reviewed : bool }.
Record AxisResult := { Axis : text; State : text; Blocking : bool; Reason : text; AEvidenceSHA256 : text }.
Record ComparisonInput := {
  ISchema : text; ISchemaVersion : Z; IContractVersion : text; IReference : Identity; ICandidate : Identity;
  IReviews : list ComponentReview; IAxes : list AxisResult; IInterrupted : bool
}.
(** [Reasons] is [None] for a nil slice. *)
Record DecisionReceipt := {
  DSchema : text; DSchemaVersion : Z; DContractVersion : text; Decision : text; Reference : Identity; Candidate : Identity;
  Reviews : list ComponentReview; Axes : list AxisResult; Reasons : option (list text); Interrupted : bool; ReceiptSHA256 : text
}.
Record RollbackRequest := { QCurrent : Identity; QRestore : Identity; QAuthorizationSHA256 : text }.
Record RollbackReceipt := {
  RSchema : text; RSchemaVersion : Z; RContractVersion : text; RDecision : text; Current : Identity; Restore : Identity; Restored : bool;
  RequestSHA256 : text; AuthorizationSHA256 : text; RReceiptSHA256 : text
}.
#[export] Instance Identity_eq : EqDecision Identity. Proof. solve_decision. Defined.
#[export] Instance ComponentReview_eq : EqDecision ComponentReview. Proof. solve_decision. Defined.
#[export] Instance AxisResult_eq : EqDecision AxisResult. Proof. solve_decision. Defined.

Definition validDigest (value : text) : bool := (length value =? 64)%nat && forallb is_lower_hex value.
Definition identityValues (i : Identity) : list text :=
  [LineageSHA256 i; SkillSHA256 i; EvaluationSHA256 i; GraderSHA256 i; HoldoutSHA256 i; RuntimeSHA256 i].
Definition validateIdentity (i : Identity) : bool := forallb validDigest (identityValues i).
Definition identityEqual (left right : Identity) : bool := bool_decide (left = right).
Definition zero_identity : Identity :=
  {| LineageSHA256 := []; SkillSHA256 := []; EvaluationSHA256 := []; GraderSHA256 := []; HoldoutSHA256 := []; RuntimeSHA256 := [] |}.

Definition componentDigest (i : Identity) (component : text) : text :=
  if eqt component ComponentSkill then SkillSHA256 i else if eqt component ComponentEvaluation then EvaluationSHA256 i
  else if eqt component ComponentGrader then GraderSHA256 i else if eqt component ComponentHoldout then HoldoutSHA256 i else [].

(** The position of a value in a list, or -1. *)
Fixpoint ordinal_loop (k : Z) (l : list text) (v : text) : Z := match l with [] => -1 | x :: l => if eqt x v then k else ordinal_loop (k + 1) l v end.
Definition componentOrdinal (c : text) : Z := ordinal_loop 0 components c.
Definition axisOrdinal (a : text) : Z := ordinal_loop 0 axes a.
Definition reasonOrdinal (r : text) : Z := ordinal_loop 0 reasons_ordered r.

(** [sort.Slice] by an ordinal: the code only sorts lists without two values of
    the same ordinal, for which any correct sort gives the same list. *)
Fixpoint insert_by {A} (key : A → Z) (x : A) (l : list A) : list A :=
  match l with [] => [x] | y :: l' => if key x <=? key y then x :: l else y :: insert_by key x l' end.
Definition sort_by {A} (key : A → Z) (l : list A) : list A := foldr (insert_by key) [] l.
Definition cloneReviews (l : list ComponentReview) : list ComponentReview := sort_by (λ r, componentOrdinal (Component r)) l.
Definition cloneAxes (l : list AxisResult) : list AxisResult := sort_by (λ a, axisOrdinal (Axis a)) l.
Definition cloneReasons (l : list text) : list text := sort_by reasonOrdinal l.

(** ** Validation (validate.go) *)

Definition validateReview (r : ComponentReview) (reference candidate : Identity) : bool :=
  negb ((componentOrdinal (Component r) <? 0) || negb (Reviewed r) || negb (validDigest (ReferenceSHA256 r)) || negb (validDigest (CandidateSHA256 r)) ||
        negb (validDigest (ReviewSHA256 r)) || negb (eqt (ReferenceSHA256 r) (componentDigest reference (Component r))) ||
        negb (eqt (CandidateSHA256 r) (componentDigest candidate (Component r)))).

(** The loop over a list that must hold increasing, distinct, valid values. *)
Fixpoint ordered_loop {A} (name : A → text) (ordinal : text → Z) (valid : A → bool) (previous : option A) (seen : gset text) (l : list A) : option (gset text) :=
  match l with
  | [] => Some seen
  | x :: l =>
      if match previous with Some p => ordinal (name x) <=? ordinal (name p) | None => false end then None
      else if bool_decide (name x ∈ seen) || negb (valid x) then None
      else ordered_loop name ordinal valid (Some x) ({[name x]} ∪ seen) l
  end.
Definition all_seen (wanted : list text) (seen : option (gset text)) : bool :=
  match seen with Some s => forallb (λ c, bool_decide (c ∈ s)) wanted | None => false end.

Definition validateReviews (reviews : list ComponentReview) (reference candidate : Identity) : bool :=
  (length reviews =? MaxComponents)%nat &&
  all_seen components (ordered_loop Component componentOrdinal (λ r, validateReview r reference candidate) None ∅ reviews).

Definition expectedAxisReason (axis : text) : text :=
  if eqt axis AxisSafety then ReasonSafetyRegression else if eqt axis AxisCoverage then ReasonCoverageMissing
  else if eqt axis AxisRuntime then ReasonRuntimeIncompatible else if eqt axis AxisQuality then ReasonQualityRegression
  else if eqt axis AxisNegativeLift then ReasonNegativeLift else if eqt axis AxisResource then ReasonResourceExhausted else [].

Definition validateAxis (v : AxisResult) : bool :=
  let pass := eqt (State v) AxisPass in
  if (axisOrdinal (Axis v) <? 0) || (negb pass && negb (eqt (State v) AxisFail) && negb (eqt (State v) AxisUnknown)) then false
  else if negb (Blocking v) && negb pass then false
  else if Blocking v && pass then false
  else if negb pass && negb (eqt (Reason v) (expectedAxisReason (Axis v))) then false
  else if pass && negb (eqt (Reason v) []) then false
  else negb (negb (eqt (AEvidenceSHA256 v) []) && negb (validDigest (AEvidenceSHA256 v))).
Definition validateAxes (values : list AxisResult) : bool :=
  (length values =? MaxAxes)%nat && all_seen axes (ordered_loop Axis axisOrdinal validateAxis None ∅ values).

Definition validateReasons (reasons : list text) : bool :=
  (length reasons <=? MaxReasons)%nat &&
  bool_decide (is_Some (ordered_loop (λ r, r) reasonOrdinal (λ r, 0 <=? reasonOrdinal r) None ∅ reasons)).

Definition validateInput (i : ComparisonInput) : result ErrorCode unit :=
  if (negb (eqt (ISchema i) []) && negb (eqt (ISchema i) ComparisonSchema)) || (negb (ISchemaVersion i =? 0) && negb (ISchemaVersion i =? SchemaVersion)) ||
     (negb (eqt (IContractVersion i) []) && negb (eqt (IContractVersion i) ContractVersion)) then Err ErrorInvalidReceipt
  else if negb (validateIdentity (IReference i)) || negb (validateIdentity (ICandidate i)) || identityEqual (IReference i) (ICandidate i) then Err ErrorInvalidIdentity
  else if negb (validateReviews (IReviews i) (IReference i) (ICandidate i)) then Err ErrorInvalidReview
  else if negb (validateAxes (IAxes i)) then Err ErrorInvalidAxis
  else Ok tt.

(** ** JSON *)

Definition json_identity (i : Identity) : text :=
  json_object [member "lineage_sha256" (json_string (LineageSHA256 i)); member "skill_sha256" (json_string (SkillSHA256 i));
    member "evaluation_sha256" (json_string (EvaluationSHA256 i)); member "grader_sha256" (json_string (GraderSHA256 i));
    member "holdout_sha256" (json_string (HoldoutSHA256 i)); member "runtime_sha256" (json_string (RuntimeSHA256 i))].
Definition json_review (r : ComponentReview) : text :=
  json_object [member "component" (json_string (Component r)); member "reference_sha256" (json_string (ReferenceSHA256 r));
    member "candidate_sha256" (json_string (CandidateSHA256 r)); member "review_sha256" (json_string (ReviewSHA256 r)); member "reviewed" (json_bool (Reviewed r))].
Definition json_axis (a : AxisResult) : text :=
  json_object [member "axis" (json_string (Axis a)); member "state" (json_string (State a)); member "blocking" (json_bool (Blocking a));
    member_omitempty "reason" (Reason a); member_omitempty "evidence_sha256" (AEvidenceSHA256 a)].
Definition json_comparison (i : ComparisonInput) : text :=
  json_object [member "schema" (json_string (ISchema i)); member "schema_version" (json_int (ISchemaVersion i)); member "contract_version" (json_string (IContractVersion i));
    member "reference" (json_identity (IReference i)); member "candidate" (json_identity (ICandidate i)); member "reviews" (json_array (map json_review (IReviews i)));
    member "axes" (json_array (map json_axis (IAxes i))); member "interrupted" (json_bool (IInterrupted i))].
Definition json_receipt (d : DecisionReceipt) : text :=
  json_object [member "schema" (json_string (DSchema d)); member "schema_version" (json_int (DSchemaVersion d)); member "contract_version" (json_string (DContractVersion d));
    member "decision" (json_string (Decision d)); member "reference" (json_identity (Reference d)); member "candidate" (json_identity (Candidate d));
    member "reviews" (json_array (map json_review (Reviews d))); member "axes" (json_array (map json_axis (Axes d)));
    member "reasons" (match Reasons d with Some rs => json_array (map json_string rs) | None => txt "null" end);
    (if Interrupted d then member "interrupted" (json_bool true) else []); member "receipt_sha256" (json_string (ReceiptSHA256 d))].
Definition json_rollback (r : RollbackReceipt) : text :=
  json_object [member "schema" (json_string (RSchema r)); member "schema_version" (json_int (RSchemaVersion r)); member "contract_version" (json_string (RContractVersion r));
    member "decision" (json_string (RDecision r)); member "current" (json_identity (Current r)); member "restore" (json_identity (Restore r));
    member "restored" (json_bool (Restored r)); member_omitempty "request_sha256" (RequestSHA256 r);
    member "authorization_sha256" (json_string (AuthorizationSHA256 r)); member "receipt_sha256" (json_string (RReceiptSHA256 r))].

(** ** Decisions (evaluate.go) *)

Definition unreviewed_reason (component : text) : list text :=
  if eqt component ComponentSkill then [ReasonUnreviewedSkill] else if eqt component ComponentEvaluation then [ReasonUnreviewedEvaluation]
  else if eqt component ComponentGrader then [ReasonUnreviewedGrader] else if eqt component ComponentHoldout then [ReasonUnreviewedHoldout] else [].

Fixpoint unique_loop (seen : gset text) (values : list text) : list text :=
  match values with
  | [] => []
  | v :: values => if eqt v [] || bool_decide (v ∈ seen) then unique_loop seen values else v :: unique_loop ({[v]} ∪ seen) values
  end.
Definition uniqueReasons (values : list text) : list text := cloneReasons (unique_loop ∅ values).

Definition raw_reasons (interrupted : bool) (reviews : list ComponentReview) (axes : list AxisResult) : list text :=
  (if interrupted then [ReasonInterrupted] else []) ++ (reviews ≫= λ r, if Reviewed r then [] else unreviewed_reason (Component r)) ++
  (axes ≫= λ a, if Blocking a then [Reason a] else []).
Definition decisionReasons (interrupted : bool) (reviews : list ComponentReview) (axes : list AxisResult) : list text :=
  uniqueReasons (raw_reasons interrupted reviews axes).

Definition with_digest (digest : text) (d : DecisionReceipt) : DecisionReceipt :=
  {| DSchema := DSchema d; DSchemaVersion := DSchemaVersion d; DContractVersion := DContractVersion d; Decision := Decision d; Reference := Reference d;
     Candidate := Candidate d; Reviews := Reviews d; Axes := Axes d; Reasons := Reasons d; Interrupted := Interrupted d; ReceiptSHA256 := digest |}.
Definition receiptWithoutDigest (d : DecisionReceipt) : DecisionReceipt := with_digest [] d.
Definition with_rollback_digest (digest : text) (r : RollbackReceipt) : RollbackReceipt :=
  {| RSchema := RSchema r; RSchemaVersion := RSchemaVersion r; RContractVersion := RContractVersion r; RDecision := RDecision r; Current := Current r;
     Restore := Restore r; Restored := Restored r; RequestSHA256 := RequestSHA256 r; AuthorizationSHA256 := AuthorizationSHA256 r; RReceiptSHA256 := digest |}.
Definition rollbackWithoutDigest (r : RollbackReceipt) : RollbackReceipt := with_rollback_digest [] r.

Section promotion.
Variable sha256 : text → vec ascii 32.
(** [json.Decoder] with unknown fields refused, up to the end of the input. *)
Variable unmarshal_comparison : text → option ComparisonInput.
Variable unmarshal_receipt : text → option DecisionReceipt.
Variable unmarshal_rollback : text → option RollbackReceipt.

(** [digestJSON] of a value that prints as [data]. *)
Definition digestJSON (data : text) : text := hex_encode (vec_to_list (sha256 data)).
Definition receipt_digest (d : DecisionReceipt) : text := digestJSON (json_receipt (receiptWithoutDigest d)).
Definition rollback_digest (r : RollbackReceipt) : text := digestJSON (json_rollback (rollbackWithoutDigest r)).

Definition Evaluate (i : ComparisonInput) : result ErrorCode DecisionReceipt :=
  let! _ := validateInput i in
  let reasons := decisionReasons (IInterrupted i) (IReviews i) (IAxes i) in
  let decision := if IInterrupted i || negb (length reasons =? 0)%nat then DecisionRefuse else DecisionPromote in
  let receipt := {| DSchema := Schema; DSchemaVersion := SchemaVersion; DContractVersion := ContractVersion; Decision := decision; Reference := IReference i;
    Candidate := ICandidate i; Reviews := cloneReviews (IReviews i); Axes := cloneAxes (IAxes i); Reasons := Some reasons; Interrupted := IInterrupted i; ReceiptSHA256 := [] |} in
  Ok (with_digest (receipt_digest receipt) receipt).

(** The size limit and the newline every encoder ends with. *)
Definition bounded (data : text) : result ErrorCode text :=
  if MaxReceiptBytes <? Z.of_nat (length data) then Err ErrorLimitExceeded else Ok (data ++ ["010"%char]).

Definition EncodeComparison (i : ComparisonInput) : result ErrorCode text :=
  let! _ := validateInput i in
  bounded (json_comparison {| ISchema := ComparisonSchema; ISchemaVersion := SchemaVersion; IContractVersion := ContractVersion; IReference := IReference i;
    ICandidate := ICandidate i; IReviews := cloneReviews (IReviews i); IAxes := cloneAxes (IAxes i); IInterrupted := IInterrupted i |}).

(** The bytes a decoder accepts for reading: not empty, within the limit. *)
Definition readable (data : text) : bool := negb (length data =? 0)%nat && (Z.of_nat (length data) <=? MaxReceiptBytes).

Definition DecodeComparison (data : text) : result ErrorCode ComparisonInput :=
  if negb (readable data) then Err ErrorLimitExceeded
  else match unmarshal_comparison data with
  | None => Err ErrorInvalidReceipt
  | Some i =>
      let! _ := validateInput i in
      match EncodeComparison i with Ok canonical => if eqt canonical data then Ok i else Err ErrorInvalidReceipt | Err _ => Err ErrorInvalidReceipt end
  end.

Definition ValidateDecision (d : DecisionReceipt) : result ErrorCode unit :=
  match Reasons d with
  | None => Err ErrorInvalidReceipt
  | Some reasons =>
      if negb (eqt (DSchema d) Schema) || negb (DSchemaVersion d =? SchemaVersion) || negb (eqt (DContractVersion d) ContractVersion) ||
         (negb (eqt (Decision d) DecisionPromote) && negb (eqt (Decision d) DecisionRefuse)) || negb (validateIdentity (Reference d)) ||
         negb (validateIdentity (Candidate d)) || identityEqual (Reference d) (Candidate d) || negb (validateReviews (Reviews d) (Reference d) (Candidate d)) ||
         negb (validateAxes (Axes d)) || negb (validateReasons reasons) || negb (validDigest (ReceiptSHA256 d)) then Err ErrorInvalidReceipt
      else if negb (bool_decide (decisionReasons (Interrupted d) (Reviews d) (Axes d) = reasons)) then Err ErrorInvalidReceipt
      else if negb (eqt (Decision d) (if (length reasons =? 0)%nat then DecisionPromote else DecisionRefuse)) then Err ErrorInvalidReceipt
      else if negb (eqt (receipt_digest d) (ReceiptSHA256 d)) then Err ErrorInvalidReceipt
      else Ok tt
  end.

Definition EncodeDecision (d : DecisionReceipt) : result ErrorCode text := let! _ := ValidateDecision d in bounded (json_receipt d).
Definition DecodeDecision (data : text) : result ErrorCode DecisionReceipt :=
  if negb (readable data) then Err ErrorLimitExceeded
  else match unmarshal_receipt data with
  | None => Err ErrorInvalidReceipt
  | Some d => match EncodeDecision d with Ok canonical => if eqt canonical data then Ok d else Err ErrorInvalidReceipt | Err _ => Err ErrorInvalidReceipt end
  end.

Definition PlanRollback (q : RollbackRequest) : result ErrorCode RollbackReceipt :=
  if negb (validateIdentity (QCurrent q)) || negb (validateIdentity (QRestore q)) || identityEqual (QCurrent q) (QRestore q) || negb (validDigest (QAuthorizationSHA256 q))
  then Err ErrorInvalidRollback
  else
    let receipt := {| RSchema := RollbackSchema; RSchemaVersion := SchemaVersion; RContractVersion := ContractVersion; RDecision := DecisionRollback; Current := QCurrent q;
      Restore := QRestore q; Restored := false; RequestSHA256 := []; AuthorizationSHA256 := QAuthorizationSHA256 q; RReceiptSHA256 := [] |} in
    Ok (with_rollback_digest (rollback_digest receipt) receipt).

Definition ValidateRollback (r : RollbackReceipt) : result ErrorCode unit :=
  if negb (eqt (RSchema r) RollbackSchema) || negb (RSchemaVersion r =? SchemaVersion) || negb (eqt (RContractVersion r) ContractVersion) ||
     negb (eqt (RDecision r) DecisionRollback) || negb (validateIdentity (Current r)) || negb (validateIdentity (Restore r)) || identityEqual (Current r) (Restore r) ||
     negb (validDigest (AuthorizationSHA256 r)) || negb (validDigest (RReceiptSHA256 r)) ||
     (Restored r && negb (validDigest (RequestSHA256 r))) || (negb (Restored r) && negb (eqt (RequestSHA256 r) [])) then Err ErrorInvalidRollback
  else if negb (eqt (rollback_digest r) (RReceiptSHA256 r)) then Err ErrorInvalidRollback
  else Ok tt.
Definition EncodeRollback (r : RollbackReceipt) : result ErrorCode text := let! _ := ValidateRollback r in bounded (json_rollback r).
Definition DecodeRollback (data : text) : result ErrorCode RollbackReceipt :=
  if negb (readable data) then Err ErrorLimitExceeded
  else match unmarshal_rollback data with
  | None => Err ErrorInvalidRollback
  | Some r => match EncodeRollback r with Ok canonical => if eqt canonical data then Ok r else Err ErrorInvalidRollback | Err _ => Err ErrorInvalidRollback end
  end.
End promotion.

(** ** Ordered, complete lists *)

Lemma sorted_room (os : list Z) a b : StronglySorted Z.lt os → Forall (λ o, a ≤ o < b) os → a ≤ b → Z.of_nat (length os) ≤ b - a.
Proof.
  intros Hs. revert a. induction Hs as [|o os Hs IH Hlt]; intros a Hr Hab; [simpl; lia|].
  apply Forall_cons in Hr as [Ho Hr]. specialize (IH (o + 1)). cbn [length].
  cut (Z.of_nat (length os) ≤ b - (o + 1)); [lia|]. apply IH; [|lia].
  rewrite Forall_forall in *. intros x Hx. specialize (Hlt x Hx). specialize (Hr x Hx). lia.
Qed.

(** Strictly increasing numbers that fill a range are the range. *)
Lemma sorted_full (os : list Z) a : StronglySorted Z.lt os → Forall (λ o, a ≤ o < a + Z.of_nat (length os)) os → os = seqZ a (Z.of_nat (length os)).
Proof.
  intros Hs. revert a. induction Hs as [|o os Hs IH Hlt]; intros a Hr; [done|].
  apply Forall_cons in Hr as [Ho Hr]. cbn [length] in *. rewrite seqZ_cons by lia.
  assert (Forall (λ x, o + 1 ≤ x < a + Z.of_nat (S (length os))) os) as Hr'.
  { rewrite Forall_forall in *. intros x Hx. specialize (Hlt x Hx). specialize (Hr x Hx). lia. }
  pose proof (sorted_room os (o + 1) _ Hs Hr' ltac:(lia)).
  assert (o = a) as -> by lia. f_equal. rewrite (IH (Z.succ a)) at 1; [f_equal; lia|].
  eapply Forall_impl; [exact Hr'|]. simpl. intros; lia.
Qed.

Lemma ordered_loop_spec {A} (name : A → text) ordinal valid previous seen (l : list A) s :
  ordered_loop name ordinal valid previous seen l = Some s →
  Forall (λ x, valid x = true) l ∧ StronglySorted Z.lt ((ordinal ∘ name) <$> l) ∧
  (∀ p, previous = Some p → Forall (λ x, ordinal (name p) < ordinal (name x)) l).
Proof.
  revert previous seen. induction l as [|x l IH]; intros previous seen; cbn [ordered_loop].
  { intros _. split_and!; [constructor|constructor|intros; constructor]. }
  destruct (match previous with Some _ => _ | None => _ end) eqn:Hp; [done|].
  destruct (bool_decide _ || negb (valid x)) eqn:Hv; [done|]. bool_hyps.
  intros Hl. apply IH in Hl as (Hf & Hs & Hlt). specialize (Hlt x eq_refl). split_and!.
  - by constructor.
  - cbn. constructor; [done|]. by apply Forall_fmap.
  - intros p ->. bool_hyps. constructor; [lia|]. eapply Forall_impl; [exact Hlt|]. simpl. intros; lia.
Qed.

Lemma ordinal_loop_spec l k v : ordinal_loop k l v = -1 ∨
  (k ≤ ordinal_loop k l v < k + Z.of_nat (length l) ∧ l !! Z.to_nat (ordinal_loop k l v - k) = Some v).
Proof.
  revert k. induction l as [|x l IH]; intros k; cbn [ordinal_loop]; [by left|].
  destruct (eqt x v) eqn:E; [right; apply eqt_true in E as ->; cbn [length]; split; [lia|by rewrite Z.sub_diag]|].
  destruct (IH (k + 1)) as [?|[Hr Hl]]; [by left|right]. cbn [length]. split; [lia|].
  replace (Z.to_nat _) with (S (Z.to_nat (ordinal_loop (k + 1) l v - (k + 1)))) by lia. done.
Qed.

(** A list of [names]' length in increasing order of their ordinals, with no
    value of ordinal -1, holds exactly [names]. *)
Lemma ordered_complete {A} (name : A → text) (names : list text) valid seen (l : list A) s :
  (∀ x, valid x = true → 0 ≤ ordinal_loop 0 names (name x)) → length l = length names →
  ordered_loop name (ordinal_loop 0 names) valid None seen l = Some s → name <$> l = names ∧ Forall (λ x, valid x = true) l.
Proof.
  intros Hvalid Hlen Hl. apply ordered_loop_spec in Hl as (Hv & Hs & _). split; [|done].
  assert (Forall (λ o, 0 ≤ o < 0 + Z.of_nat (length ((ordinal_loop 0 names ∘ name) <$> l))) ((ordinal_loop 0 names ∘ name) <$> l)) as Hr.
  { apply Forall_fmap. eapply Forall_impl; [exact Hv|]. intros x Hx. apply Hvalid in Hx. rewrite length_fmap, Hlen.
    destruct (ordinal_loop_spec names 0 (name x)); simpl in *; lia. }
  pose proof (sorted_full _ 0 Hs Hr) as Hos. apply list_eq. intros i. rewrite list_lookup_fmap.
  destruct (l !! i) as [x|] eqn:Hi; cbn.
  - pose proof (lookup_lt_Some _ _ _ Hi). apply (f_equal (.!! i)) in Hos.
    rewrite list_lookup_fmap, Hi, length_fmap in Hos. cbn in Hos. symmetry in Hos. apply lookup_seqZ in Hos as [Hos _].
    rewrite Forall_forall in Hv. specialize (Hvalid x (Hv x ltac:(by eapply list_elem_of_lookup_2))).
    destruct (ordinal_loop_spec names 0 (name x)) as [?|[_ Hk]]; [lia|]. rewrite Hos in Hk.
    by replace (Z.to_nat (0 + Z.of_nat i - 0)) with i in Hk by lia.
  - symmetry. apply lookup_ge_None. apply lookup_ge_None in Hi. lia.
Qed.

Lemma validateReviews_spec l reference candidate : validateReviews l reference candidate = true →
  Component <$> l = components ∧ Forall (λ r, validateReview r reference candidate = true) l.
Proof.
  unfold validateReviews. intros H. bool_hyps. unfold all_seen in *. destruct (ordered_loop _ _ _ _ _ _) eqn:Hl; [|done].
  apply (ordered_complete Component components) in Hl; [done| |done].
  intros x Hx. unfold validateReview in Hx. apply negb_true_iff in Hx. bool_hyps. by fold (componentOrdinal (Component x)).
Qed.

Lemma validateAxis_spec a : validateAxis a = true → 0 ≤ axisOrdinal (Axis a) ∧
  (State a = AxisPass ∧ Blocking a = false ∧ Reason a = [] ∨
   (State a = AxisFail ∨ State a = AxisUnknown) ∧ Blocking a = true ∧ Reason a = expectedAxisReason (Axis a)).
Proof.
  unfold validateAxis. intros H. destruct (_ || _) eqn:H1 in H; [done|].
  apply orb_false_iff in H1 as [Ho Hst]. apply Z.ltb_ge in Ho. split; [done|].
  destruct (eqt (State a) AxisPass) eqn:Hp; cbn [negb andb orb] in *.
  - left. apply eqt_true in Hp. destruct (Blocking a); [done|]. cbn [negb andb orb] in H.
    destruct (eqt (Reason a) []) eqn:Hr; [|done]. by apply eqt_true in Hr.
  - right. destruct (Blocking a); [|done]. cbn [negb andb orb] in H. destruct (eqt (Reason a) _) eqn:Hr; [|done]. apply eqt_true in Hr.
    split; [|done]. destruct (eqt (State a) AxisFail) eqn:Hf; [left; by apply eqt_true|]. right. cbn [negb andb orb] in Hst.
    apply negb_false_iff in Hst. by apply eqt_true.
Qed.

Lemma validateAxes_spec l : validateAxes l = true → Axis <$> l = axes ∧ Forall (λ a, validateAxis a = true) l.
Proof.
  unfold validateAxes. intros H. bool_hyps. unfold all_seen in *. destruct (ordered_loop _ _ _ _ _ _) eqn:Hl; [|done].
  apply (ordered_complete Axis axes) in Hl; [done| |done].
  intros x Hx. by apply validateAxis_spec in Hx as [? _].
Qed.

Lemma sort_by_sorted {A} (key : A → Z) (l : list A) : StronglySorted Z.lt (key <$> l) → sort_by key l = l.
Proof.
  induction l as [|x l IH]; intros Hs; [done|]. cbn in Hs. apply StronglySorted_inv in Hs as [Hs Hx].
  change (insert_by key x (sort_by key l) = x :: l). rewrite IH by done.
  destruct l as [|y l]; [done|]. cbn in *. apply Forall_cons in Hx as [Hx _]. by destruct (key x <=? key y) eqn:E; [|bool_hyps; lia].
Qed.

Lemma sorted_ordinals {A} (names : list text) (name : A → text) (l : list A) : name <$> l = names → StronglySorted Z.lt (ordinal_loop 0 names <$> names) →
  StronglySorted Z.lt ((λ x, ordinal_loop 0 names (name x)) <$> l).
Proof. intros Hl Hs. change (StronglySorted Z.lt ((ordinal_loop 0 names ∘ name) <$> l)). by rewrite list_fmap_compose, Hl. Qed.

Lemma cloneReviews_id l reference candidate : validateReviews l reference candidate = true → cloneReviews l = l.
Proof.
  intros [Hc _]%validateReviews_spec. apply sort_by_sorted, (sorted_ordinals components); [done|]. by repeat constructor.
Qed.
Lemma cloneAxes_id l : validateAxes l = true → cloneAxes l = l.
Proof.
  intros [Hc _]%validateAxes_spec. apply sort_by_sorted, (sorted_ordinals axes); [done|]. by repeat constructor.
Qed.

(** ** The reasons of a decision *)

(** One reason per axis that does not pass, in axis order, then the interruption. *)
Definition failure_reasons (interrupted : bool) (axes : list AxisResult) : list text :=
  (expectedAxisReason ∘ Axis <$> filter (λ a : AxisResult, State a ≠ AxisPass) axes) ++ (if interrupted then [ReasonInterrupted] else []).

Definition blocked (names : list text) (blocking : list bool) : list text :=
  zip names blocking ≫= λ p : text * bool, if p.2 then [expectedAxisReason p.1] else [].

Lemma blocked_raw l : Forall (λ a, validateAxis a = true) l →
  (l ≫= λ a, if Blocking a then [Reason a] else []) = blocked (Axis <$> l) (Blocking <$> l).
Proof.
  induction 1 as [|a l Ha _ IH]; [done|]. apply validateAxis_spec in Ha as [_ Ha]. cbn. unfold blocked in IH. rewrite IH.
  destruct Ha as [(_ & -> & _)|(_ & -> & ->)]; done.
Qed.
Lemma blocked_filter l : Forall (λ a, validateAxis a = true) l →
  expectedAxisReason ∘ Axis <$> filter (λ a : AxisResult, State a ≠ AxisPass) l = blocked (Axis <$> l) (Blocking <$> l).
Proof.
  induction 1 as [|a l Ha _ IH]; [done|]. apply validateAxis_spec in Ha as [_ Ha]. rewrite filter_cons. unfold blocked in *. cbn.
  rewrite <- IH. destruct Ha as [(Hs & -> & _)|(Hs & -> & _)].
  - by rewrite decide_False by naive_solver.
  - rewrite decide_True; [done|]. by destruct Hs as [-> | ->].
Qed.

(** Sorting and deduplicating puts the interruption last and keeps the rest. *)
Lemma uniqueReasons_blocked (interrupted : bool) bs : length bs = MaxAxes →
  let rs := blocked axes bs ++ (if interrupted then [ReasonInterrupted] else []) in
  uniqueReasons ((if interrupted then [ReasonInterrupted] else []) ++ blocked axes bs) = rs ∧ validateReasons rs = true.
Proof.
  intros Hl. do 6 (destruct bs as [|? bs]; [done|]). destruct bs; [|done]. clear Hl.
  repeat match goal with b : bool |- _ => destruct b end; vm_compute; done.
Qed.

Lemma decisionReasons_exact interrupted reviews axs reference candidate :
  validateReviews reviews reference candidate = true → validateAxes axs = true →
  decisionReasons interrupted reviews axs = failure_reasons interrupted axs ∧ validateReasons (failure_reasons interrupted axs) = true.
Proof.
  intros [_ Hr]%validateReviews_spec [Ha Hv]%validateAxes_spec.
  unfold decisionReasons, raw_reasons, failure_reasons. rewrite blocked_raw, blocked_filter, Ha by done.
  replace (reviews ≫= _) with (@nil text).
  - apply uniqueReasons_blocked. by rewrite length_fmap, <- (length_fmap Axis), Ha.
  - symmetry. clear -Hr. induction Hr as [|r l Hr _ IH]; [done|]. cbn. unfold validateReview in Hr. apply negb_true_iff in Hr. bool_hyps.
    match goal with H : Reviewed r = true |- _ => by rewrite H end.
Qed.

Lemma failure_reasons_nil (interrupted : bool) axs : failure_reasons interrupted axs = [] ↔ interrupted = false ∧ Forall (λ a, State a = AxisPass) axs.
Proof.
  unfold failure_reasons. split.
  - intros [H1 H2]%app_eq_nil. split; [by destruct interrupted|]. apply fmap_nil_inv in H1.
    rewrite Forall_forall. intros a Ha. destruct (decide (State a = AxisPass)) as [|Hn]; [done|exfalso].
    assert (a ∈ filter (λ a : AxisResult, State a ≠ AxisPass) axs) as Hin by by apply list_elem_of_filter.
    rewrite H1 in Hin. by apply not_elem_of_nil in Hin.
  - intros [-> Hf]. rewrite app_nil_r. induction Hf as [|a l Ha _ IH]; [done|]. rewrite filter_cons, decide_False by naive_solver. done.
Qed.

Lemma validateInput_spec i : validateInput i = Ok tt → validateIdentity (IReference i) = true ∧ validateIdentity (ICandidate i) = true ∧
  identityEqual (IReference i) (ICandidate i) = false ∧ validateReviews (IReviews i) (IReference i) (ICandidate i) = true ∧ validateAxes (IAxes i) = true.
Proof.
  unfold validateInput. intros H. destruct (_ || _) eqn:H0 in H; [done|]. clear H0. destruct (_ || _) eqn:H1 in H; [done|].
  bool_hyps. destruct (validateReviews _ _ _); [|done]. destruct (validateAxes _); [|done]. done.
Qed.

Lemma receipt_digest_valid sha256 r : validDigest (receipt_digest sha256 r) = true.
Proof. unfold receipt_digest, digestJSON, validDigest. by destruct (hex_digest (sha256 (json_receipt (receiptWithoutDigest r)))) as [-> ->]. Qed.

(** The equalities among decomposed guards. *)
Ltac eq_hyps := bool_hyps; repeat match goal with
  | H : eqt _ _ = true |- _ => apply eqt_true in H
  | H : eqt _ _ = false |- _ => apply eqt_false in H end.

Lemma ValidateDecision_iff sha256 d : ValidateDecision sha256 d = Ok tt ↔
  ∃ reasons, Reasons d = Some reasons ∧ DSchema d = Schema ∧ DSchemaVersion d = SchemaVersion ∧ DContractVersion d = ContractVersion ∧
  validateIdentity (Reference d) = true ∧ validateIdentity (Candidate d) = true ∧ Reference d ≠ Candidate d ∧
  validateReviews (Reviews d) (Reference d) (Candidate d) = true ∧ validateAxes (Axes d) = true ∧ validateReasons reasons = true ∧
  reasons = decisionReasons (Interrupted d) (Reviews d) (Axes d) ∧
  Decision d = (if (length reasons =? 0)%nat then DecisionPromote else DecisionRefuse) ∧ ReceiptSHA256 d = receipt_digest sha256 d.
Proof.
  unfold ValidateDecision, identityEqual. split.
  - destruct (Reasons d) as [rs|]; [|done]. intros H. exists rs.
    repeat match type of H with (if ?c then _ else _) = _ => destruct c eqn:?; [done|] end. eq_hyps. by split_and!.
  - intros (rs & -> & -> & -> & -> & -> & -> & Hne & -> & -> & -> & -> & -> & Hd).
    rewrite (bool_decide_false _ Hne), Hd, receipt_digest_valid, !eqt_refl, bool_decide_true by done.
    by destruct (_ =? _)%nat; cbn; rewrite ?eqt_refl.
Qed.


(** C37: evaluating a comparison never fails on valid input and decides by the
    axes alone: the receipt validates, is a promotion exactly when nothing was
    interrupted and every axis passes, and otherwise names one reason for each
    axis that does not pass, in axis order, and the interruption. *)
Theorem Evaluate_decides sha256 i :
  (is_ok (Evaluate sha256 i) = is_ok (validateInput i)) ∧
  ∀ r, Evaluate sha256 i = Ok r →
    ValidateDecision sha256 r = Ok tt ∧ Reasons r = Some (failure_reasons (IInterrupted i) (IAxes i)) ∧
    (Decision r = DecisionPromote ↔ IInterrupted i = false ∧ Forall (λ a, State a = AxisPass) (IAxes i)) ∧
    Reference r = IReference i ∧ Candidate r = ICandidate i ∧ Reviews r = IReviews i ∧ Axes r = IAxes i.
Proof.
  split; [unfold Evaluate; by destruct (validateInput i)|]. intros r. unfold Evaluate.
  destruct (validateInput i) as [[]|] eqn:Hi; [|done]. apply validateInput_spec in Hi as (Hr & Hc & Hne & Hrev & Hax).
  destruct (decisionReasons_exact (IInterrupted i) _ _ _ _ Hrev Hax) as [Hd Hv]. cbn [rbind].
  rewrite (cloneReviews_id _ _ _ Hrev), (cloneAxes_id _ Hax), Hd. intros [= <-].
  assert ((if IInterrupted i || negb (length (failure_reasons (IInterrupted i) (IAxes i)) =? 0)%nat then DecisionRefuse else DecisionPromote) =
    (if (length (failure_reasons (IInterrupted i) (IAxes i)) =? 0)%nat then DecisionPromote else DecisionRefuse)) as ->.
  { destruct (failure_reasons _ _) as [|x rs] eqn:Hrs; [|by rewrite orb_true_r].
    by apply failure_reasons_nil in Hrs as [-> _]. }
  split; [|split_and!; [done| |done..]].
  - apply ValidateDecision_iff. exists (failure_reasons (IInterrupted i) (IAxes i)). apply bool_decide_eq_false_1 in Hne.
    cbn -[receipt_digest validateIdentity failure_reasons]. by split_and!.
  - cbn. rewrite <- failure_reasons_nil. by destruct (failure_reasons _ _).
Qed.


(** ** Encoding and decoding *)

Section codec.
Context (sha256 : text → vec ascii 32).

(** What the size limit of the encoders and decoders compares. *)
Definition fits (data : text) : Prop := Z.of_nat (length data) < MaxReceiptBytes.

Lemma bounded_ok data out : bounded data = Ok out ↔ out = data ++ ["010"%char] ∧ Z.of_nat (length data) ≤ MaxReceiptBytes.
Proof. unfold bounded. destruct (_ <? _) eqn:E; bool_hyps; split; [done|lia|intros [= <-]; done|by intros [-> _]]. Qed.

Lemma readable_spec data : readable (data ++ ["010"%char]) = true ↔ fits data.
Proof. unfold readable, fits. rewrite length_app. cbn. split; intros H; bool_hyps; [lia|]. apply andb_true_iff; split; [apply negb_true_iff, Nat.eqb_neq; lia|apply Z.leb_le; lia]. Qed.

(** A decoder that compares the re-encoding with its input inverts the encoder
    below the limit; at the limit the encoder adds a byte the decoder refuses. *)
Lemma DecodeDecision_iff unmarshal d data : unmarshal (json_receipt d ++ ["010"%char]) = Some d →
  EncodeDecision sha256 d = Ok data → DecodeDecision sha256 unmarshal data = if bool_decide (fits (json_receipt d)) then Ok d else Err ErrorLimitExceeded.
Proof.
  intros Hu He. pose proof He as He'. unfold EncodeDecision in He'. destruct (ValidateDecision sha256 d) as [[]|]; [|done]. cbn [rbind] in He'.
  apply bounded_ok in He' as [-> _]. unfold DecodeDecision. rewrite Hu, He, eqt_refl.
  case_bool_decide as Hf.
  - by rewrite (proj2 (readable_spec _) Hf).
  - destruct (readable _) eqn:E; [by apply readable_spec in E|done].
Qed.
End codec.

(** ** A comparison with one failing axis *)

Module Demo.
Definition d (c : ascii) : text := replicate 64 c.
Definition identity (a b : ascii) : Identity :=
  {| LineageSHA256 := d "1"; SkillSHA256 := d a; EvaluationSHA256 := d b; GraderSHA256 := d "4"; HoldoutSHA256 := d "5"; RuntimeSHA256 := d "6" |}.
Definition reference : Identity := identity "2" "3".
Definition candidate : Identity := identity "a" "3".
Definition review (component : text) : ComponentReview :=
  {| Component := component; ReferenceSHA256 := componentDigest reference component; CandidateSHA256 := componentDigest candidate component; ReviewSHA256 := d "9"; Reviewed := true |}.
Definition axis (name : text) : AxisResult := {| Axis := name; State := AxisPass; Blocking := false; Reason := []; AEvidenceSHA256 := [] |}.
Definition comparison (interrupted : bool) (axes : list AxisResult) : ComparisonInput :=
  {| ISchema := []; ISchemaVersion := 0; IContractVersion := []; IReference := reference; ICandidate := candidate; IReviews := map review components; IAxes := axes; IInterrupted := interrupted |}.
Definition slow : AxisResult := {| Axis := AxisResource; State := AxisUnknown; Blocking := true; Reason := ReasonResourceExhausted; AEvidenceSHA256 := d "7" |}.
Definition passing := comparison false (map axis axes).
Definition failing := comparison true (map axis (take 5 axes) ++ [slow]).
Example evaluate_demo : (Decision <$> match Evaluate toy_sha256 passing with Ok r => Some r | Err _ => None end) = Some DecisionPromote ∧
  (λ r, (Decision r, Reasons r)) <$> match Evaluate toy_sha256 failing with Ok r => Some r | Err _ => None end = Some (DecisionRefuse, Some [ReasonResourceExhausted; ReasonInterrupted]).
Proof. vm_compute. split; reflexivity. Qed.

Lemma Evaluate_decides_witness : ∃ r, Evaluate toy_sha256 failing = Ok r ∧ Reasons r = Some [ReasonResourceExhausted; ReasonInterrupted] ∧ Decision r ≠ DecisionPromote.
Proof.
  destruct (Evaluate_decides toy_sha256 failing) as [Hok Hr]. destruct (Evaluate toy_sha256 failing) as [r|] eqn:E; [|by vm_compute in Hok].
  exists r. destruct (Hr r eq_refl) as (_ & Hrs & Hd & _). split; [done|]. split; [by rewrite Hrs|]. intros [Hi _]%Hd. by vm_compute in Hi.
Defined.
End Demo.
End Promotion.
