(* ===== verification/Xml.v ===== *)
(** * Reading XML

    The part of [encoding/xml] the storage-format reader relies on: the raw tokens
    of a strict [xml.Decoder] with the HTML entities, and [Decoder.Token] with its
    element stack and name spaces.  An error carries the input that was left, from
    which the callers compute the offset they report. *)

From S2P Require Import Prelude GoText WikiScanner Json Markdown.
Import GoText.
Import WikiScanner (span, is_byte).
Import Markdown (cut).

Module Xml.
Local Open Scope Z_scope.
Local Open Scope atl_scope.

(** ** Names *)

Record Name := { Space : text; Local_ : text }.
Record Attr := { AName : Name; Value : text }.
#[export] Instance Name_eq : EqDecision Name. Proof. solve_decision. Defined.
#[export] Instance Attr_eq : EqDecision Attr. Proof. solve_decision. Defined.

(** The runes above 127 a name may start with ([first]) and those it may also go
    on with ([second]), from the appendix of the XML specification. *)
Definition first_ranges : list (Z * Z) :=
  [(192,214); (216,246); (248,305); (308,318); (321,328); (330,382); (384,451); (461,496); (500,501); (506,535); (592,680); (699,705); (902,902);
   (904,906); (908,908); (910,929); (931,974); (976,982); (986,986); (988,988); (990,990); (992,992); (994,1011); (1025,1036); (1038,1103);
   (1105,1116); (1118,1153); (1168,1220); (1223,1224); (1227,1228); (1232,1259); (1262,1269); (1272,1273); (1329,1366); (1369,1369); (1377,1414);
   (1488,1514); (1520,1522); (1569,1594); (1601,1610); (1649,1719); (1722,1726); (1728,1742); (1744,1747); (1749,1749); (1765,1766); (2309,2361);
   (2365,2365); (2392,2401); (2437,2444); (2447,2448); (2451,2472); (2474,2480); (2482,2482); (2486,2489); (2524,2525); (2527,2529); (2544,2545);
   (2565,2570); (2575,2576); (2579,2600); (2602,2608); (2610,2611); (2613,2614); (2616,2617); (2649,2652); (2654,2654); (2674,2676); (2693,2699);
   (2701,2701); (2703,2705); (2707,2728); (2730,2736); (2738,2739); (2741,2745); (2749,2749); (2784,2784); (2821,2828); (2831,2832); (2835,2856);
   (2858,2864); (2866,2867); (2870,2873); (2877,2877); (2908,2909); (2911,2913); (2949,2954); (2958,2960); (2962,2965); (2969,2970); (2972,2972);
   (2974,2975); (2979,2980); (2984,2986); (2990,2997); (2999,3001); (3077,3084); (3086,3088); (3090,3112); (3114,3123); (3125,3129); (3168,3169);
   (3205,3212); (3214,3216); (3218,3240); (3242,3251); (3253,3257); (3294,3294); (3296,3297); (3333,3340); (3342,3344); (3346,3368); (3370,3385);
   (3424,3425); (3585,3630); (3632,3632); (3634,3635); (3648,3653); (3713,3714); (3716,3716); (3719,3720); (3722,3722); (3725,3725); (3732,3735);
   (3737,3743); (3745,3747); (3749,3749); (3751,3751); (3754,3755); (3757,3758); (3760,3760); (3762,3763); (3773,3773); (3776,3780); (3904,3911);
   (3913,3945); (4256,4293); (4304,4342); (4352,4352); (4354,4355); (4357,4359); (4361,4361); (4363,4364); (4366,4370); (4412,4412); (4414,4414);
   (4416,4416); (4428,4428); (4430,4430); (4432,4432); (4436,4437); (4441,4441); (4447,4449); (4451,4451); (4453,4453); (4455,4455); (4457,4457);
   (4461,4462); (4466,4467); (4469,4469); (4510,4510); (4520,4520); (4523,4523); (4526,4527); (4535,4536); (4538,4538); (4540,4546); (4587,4587);
   (4592,4592); (4601,4601); (7680,7835); (7840,7929); (7936,7957); (7960,7965); (7968,8005); (8008,8013); (8016,8023); (8025,8025); (8027,8027);
   (8029,8029); (8031,8061); (8064,8116); (8118,8124); (8126,8126); (8130,8132); (8134,8140); (8144,8147); (8150,8155); (8160,8172); (8178,8180);
   (8182,8188); (8486,8486); (8490,8491); (8494,8494); (8576,8578); (12295,12295); (12321,12329); (12353,12436); (12449,12538); (12549,12588);
   (19968,40869); (44032,55203)].
Definition second_ranges : list (Z * Z) :=
  [(183,183); (720,721); (768,837); (864,865); (903,903); (1155,1158); (1425,1441); (1443,1465); (1467,1469); (1471,1471); (1473,1474); (1476,1476);
   (1600,1600); (1611,1618); (1632,1641); (1648,1648); (1750,1764); (1767,1768); (1770,1773); (1776,1785); (2305,2307); (2364,2364); (2366,2381);
   (2385,2388); (2402,2403); (2406,2415); (2433,2435); (2492,2492); (2494,2500); (2503,2504); (2507,2509); (2519,2519); (2530,2531); (2534,2543);
   (2562,2562); (2620,2620); (2622,2626); (2631,2632); (2635,2637); (2662,2673); (2689,2691); (2748,2748); (2750,2757); (2759,2761); (2763,2765);
   (2790,2799); (2817,2819); (2876,2876); (2878,2883); (2887,2888); (2891,2893); (2902,2903); (2918,2927); (2946,2947); (3006,3010); (3014,3016);
   (3018,3021); (3031,3031); (3047,3055); (3073,3075); (3134,3140); (3142,3144); (3146,3149); (3157,3158); (3174,3183); (3202,3203); (3262,3268);
   (3270,3272); (3274,3277); (3285,3286); (3302,3311); (3330,3331); (3390,3395); (3398,3400); (3402,3405); (3415,3415); (3430,3439); (3633,3633);
   (3636,3642); (3654,3662); (3664,3673); (3761,3761); (3764,3769); (3771,3772); (3782,3782); (3784,3789); (3792,3801); (3864,3865); (3872,3881);
   (3893,3893); (3895,3895); (3897,3897); (3902,3903); (3953,3972); (3974,3979); (3984,3989); (3991,3991); (3993,4013); (4017,4023); (4025,4025);
   (8400,8412); (8417,8417); (12293,12293); (12330,12335); (12337,12341); (12441,12442); (12445,12446); (12540,12542)].

Definition in_ranges (ranges : list (Z * Z)) (r : Z) : bool := existsb (λ p, in_rng p.1 p.2 r) ranges.
Definition name_first (r : Z) : bool := in_rng 65 90 r || in_rng 97 122 r || (r =? 95) || (r =? 58) || in_ranges first_ranges r.
Definition name_rest (r : Z) : bool := name_first r || in_rng 48 57 r || (r =? 46) || (r =? 45) || in_ranges second_ranges r.

(** The bytes [readName] takes: [isNameByte], and every byte above 127. *)
Definition name_byte (c : ascii) : bool :=
  let v := byte_val c in
  (128 <=? v) || in_rng 65 90 v || in_rng 97 122 v || in_rng 48 57 v || (v =? 95) || (v =? 58) || (v =? 46) || (v =? 45).

(** Every rune of a text decodes and satisfies [p]. *)
Fixpoint all_runes (fuel : nat) (p : Z → bool) (s : text) : bool :=
  match fuel, s with
  | _, [] => true
  | O, _ => false
  | S fuel, _ => let '(r, n) := decode_rune s in negb ((r =? RuneError) && (n =? 1)%nat) && p r && all_runes fuel p (drop n s)
  end.
Definition isName (s : text) : bool :=
  match s with
  | [] => false
  | _ => let '(r, n) := decode_rune s in
         negb ((r =? RuneError) && (n =? 1)%nat) && name_first r && all_runes (length s) name_rest (drop n s)
  end.

(** ** The decoder's input: an error leaves the text not consumed *)

Notation decoded A := (result text (A * text)).

Definition read_name (s : text) : decoded text :=
  match s with
  | [] => Err []
  | c :: _ => if name_byte c then match span name_byte s with (_, []) => Err [] | r => Ok r end else Err s
  end.
Definition name (s : text) : decoded text :=
  let! r := read_name s in if isName r.1 then Ok r else Err r.2.

(** [nsname]: a prefix and a local part around the only colon. *)
Definition nsname (s : text) : decoded Name :=
  let! r := name s in
  if (1 <? length (filter (λ c, c = ":"%char) r.1))%nat then Err r.2
  else match cut r.1 (txt ":") with
       | (space, local, found) =>
           Ok (if negb found || eqt space [] || eqt local [] then {| Space := []; Local_ := r.1 |} else {| Space := space; Local_ := local |}, r.2)
       end.

Definition xml_space (c : ascii) : bool := is_byte " "%char c || is_byte "013"%char c || is_byte "010"%char c || is_byte "009"%char c.
Definition space (s : text) : text := (span xml_space s).2.

(** ** Character data *)

(** [isInCharacterRange]. *)
Definition in_character_range (r : Z) : bool :=
  (r =? 9) || (r =? 10) || (r =? 13) || in_rng 32 55295 r || in_rng 57344 65533 r || in_rng 65536 1114111 r.

(** [xml.HTMLEntity], and the five names every document has. *)
Definition html_entities : list (string * Z) :=
  [("AElig",198); ("Aacute",193); ("Acirc",194); ("Agrave",192); ("Alpha",913); ("Aring",197); ("Atilde",195); ("Auml",196); ("Beta",914);
   ("Ccedil",199); ("Chi",935); ("Dagger",8225); ("Delta",916); ("ETH",208); ("Eacute",201); ("Ecirc",202); ("Egrave",200); ("Epsilon",917);
   ("Eta",919); ("Euml",203); ("Gamma",915); ("Iacute",205); ("Icirc",206); ("Igrave",204); ("Iota",921); ("Iuml",207); ("Kappa",922);
   ("Lambda",923); ("Mu",924); ("Ntilde",209); ("Nu",925); ("OElig",338); ("Oacute",211); ("Ocirc",212); ("Ograve",210); ("Omega",937);
   ("Omicron",927); ("Oslash",216); ("Otilde",213); ("Ouml",214); ("Phi",934); ("Pi",928); ("Prime",8243); ("Psi",936); ("Rho",929); ("Scaron",352);
   ("Sigma",931); ("THORN",222); ("Tau",932); ("Theta",920); ("Uacute",218); ("Ucirc",219); ("Ugrave",217); ("Upsilon",933); ("Uuml",220);
   ("Xi",926); ("Yacute",221); ("Yuml",376); ("Zeta",918); ("aacute",225); ("acirc",226); ("acute",180); ("aelig",230); ("agrave",224);
   ("alefsym",8501); ("alpha",945); ("amp",38); ("and",8743); ("ang",8736); ("aring",229); ("asymp",8776); ("atilde",227); ("auml",228);
   ("bdquo",8222); ("beta",946); ("brvbar",166); ("bull",8226); ("cap",8745); ("ccedil",231); ("cedil",184); ("cent",162); ("chi",967); ("circ",710);
   ("clubs",9827); ("cong",8773); ("copy",169); ("crarr",8629); ("cup",8746); ("curren",164); ("dArr",8659); ("dagger",8224); ("darr",8595);
   ("deg",176); ("delta",948); ("diams",9830); ("divide",247); ("eacute",233); ("ecirc",234); ("egrave",232); ("empty",8709); ("emsp",8195);
   ("ensp",8194); ("epsilon",949); ("equiv",8801); ("eta",951); ("eth",240); ("euml",235); ("euro",8364); ("exist",8707); ("fnof",402);
   ("forall",8704); ("frac12",189); ("frac14",188); ("frac34",190); ("frasl",8260); ("gamma",947); ("ge",8805); ("gt",62); ("hArr",8660);
   ("harr",8596); ("hearts",9829); ("hellip",8230); ("iacute",237); ("icirc",238); ("iexcl",161); ("igrave",236); ("image",8465); ("infin",8734);
   ("int",8747); ("iota",953); ("iquest",191); ("isin",8712); ("iuml",239); ("kappa",954); ("lArr",8656); ("lambda",955); ("lang",9001);
   ("laquo",171); ("larr",8592); ("lceil",8968); ("ldquo",8220); ("le",8804); ("lfloor",8970); ("lowast",8727); ("loz",9674); ("lrm",8206);
   ("lsaquo",8249); ("lsquo",8216); ("lt",60); ("macr",175); ("mdash",8212); ("micro",181); ("middot",183); ("minus",8722); ("mu",956);
   ("nabla",8711); ("nbsp",160); ("ndash",8211); ("ne",8800); ("ni",8715); ("not",172); ("notin",8713); ("nsub",8836); ("ntilde",241); ("nu",957);
   ("oacute",243); ("ocirc",244); ("oelig",339); ("ograve",242); ("oline",8254); ("omega",969); ("omicron",959); ("oplus",8853); ("or",8744);
   ("ordf",170); ("ordm",186); ("oslash",248); ("otilde",245); ("otimes",8855); ("ouml",246); ("para",182); ("part",8706); ("permil",8240);
   ("perp",8869); ("phi",966); ("pi",960); ("piv",982); ("plusmn",177); ("pound",163); ("prime",8242); ("prod",8719); ("prop",8733); ("psi",968);
   ("quot",34); ("rArr",8658); ("radic",8730); ("rang",9002); ("raquo",187); ("rarr",8594); ("rceil",8969); ("rdquo",8221); ("real",8476);
   ("reg",174); ("rfloor",8971); ("rho",961); ("rlm",8207); ("rsaquo",8250); ("rsquo",8217); ("sbquo",8218); ("scaron",353); ("sdot",8901);
   ("sect",167); ("shy",173); ("sigma",963); ("sigmaf",962); ("sim",8764); ("spades",9824); ("sub",8834); ("sube",8838); ("sum",8721); ("sup",8835);
   ("sup1",185); ("sup2",178); ("sup3",179); ("supe",8839); ("szlig",223); ("tau",964); ("there4",8756); ("theta",952); ("thetasym",977);
   ("thinsp",8201); ("thorn",254); ("tilde",732); ("times",215); ("trade",8482); ("uArr",8657); ("uacute",250); ("uarr",8593); ("ucirc",251);
   ("ugrave",249); ("uml",168); ("upsih",978); ("upsilon",965); ("uuml",252); ("weierp",8472); ("xi",958); ("yacute",253); ("yen",165); ("yuml",255);
   ("zeta",950); ("zwj",8205); ("zwnj",8204)]%string.
Definition predefined : list (string * Z) := [("lt", 60); ("gt", 62); ("amp", 38); ("apos", 39); ("quot", 34)]%string.
Definition entity_rune (s : text) : option Z :=
  snd <$> List.find (λ e, eqt (txt e.1) s) (predefined ++ html_entities).

Definition number (base : Z) (ds : text) : option Z :=
  match ds with
  | [] => None
  | _ => Some (fold_left (λ acc c, acc * base + default 0 (Json.hex_value c)) ds 0)
  end.

(** The character reference after [&#]. *)
Definition char_ref (s : text) : decoded text :=
  match s with
  | [] => Err []
  | c :: s' =>
      let hex := is_byte "x"%char c in
      let '(ds, r) := span (λ c, if hex then bool_decide (is_Some (Json.hex_value c)) else Json.digit c) (if hex then s' else s) in
      match r with
      | [] => Err []
      | b :: r' =>
          if is_byte ";"%char b then
            match number (if hex then 16 else 10) ds with
            | Some n => if n <=? 1114111 then Ok (Json.encode_rune n, r') else Err r'
            | None => Err r'
            end
          else Err r
      end
  end.

(** The reference after an ampersand. *)
Definition entity (s : text) : decoded text :=
  match s with
  | [] => Err []
  | c :: s' =>
      if is_byte "#"%char c then char_ref s'
      else match span name_byte s with
           | (_, []) => Err []
           | (ident, b :: r) =>
               if is_byte ";"%char b then
                 if isName ident then match entity_rune ident with Some v => Ok (Json.encode_rune v, r) | None => Err r end else Err r
               else Err (b :: r)
           end
  end.

(** The loop of [text]: to the quote, the next tag, or the end of the CDATA
    section; the section's data still ends with its two brackets. *)
Fixpoint text_loop (fuel : nat) (quote : option ascii) (cdata : bool) (b0 b1 : ascii) (s : text) : decoded text :=
  match fuel, s with
  | _, [] => if cdata then Err [] else Ok ([], [])
  | O, _ => Err s
  | S fuel, b :: s' =>
      if match quote with None => true | Some _ => false end && is_byte "]"%char b0 && is_byte "]"%char b1 && is_byte ">"%char b
      then if cdata then Ok ([], s') else Err s'
      else if is_byte "<"%char b && negb cdata then match quote with Some _ => Err s' | None => Ok ([], s) end
      else if match quote with Some q => is_byte q b | None => false end then Ok ([], s')
      else if is_byte "&"%char b && negb cdata then
        let! t := entity s' in
        let! d := text_loop fuel quote cdata "000"%char "000"%char t.2 in Ok (t.1 ++ d.1, d.2)
      else
        let! d := text_loop fuel quote cdata b1 b s' in
        Ok ((if is_byte "013"%char b then ["010"%char] else if is_byte "013"%char b1 && is_byte "010"%char b then [] else [b]) ++ d.1, d.2)
  end.
Definition chars_ok (s : text) : bool := all_runes (length s) in_character_range s.
Definition read_text (quote : option ascii) (cdata : bool) (s : text) : decoded text :=
  let! d := text_loop (length s) quote cdata "000"%char "000"%char s in
  let data := if cdata then take (length d.1 - 2) d.1 else d.1 in
  if chars_ok data then Ok (data, d.2) else Err d.2.

(** ** Raw tokens *)

(** [StartElement] says whether the tag closes itself; the decoder then returns
    the end of the element next. *)
Inductive token :=
| StartElement (name : Name) (attrs : list Attr) (empty : bool)
| EndElement (name : Name)
| CharData (data : text)
| Comment
| ProcInst
| Directive.

(** What follows the first occurrence of a terminator. *)
Definition skip_past (stop : string) (s : text) : result text (text * text) :=
  match index s (txt stop) with Some i => Ok (take i s, drop (i + length (txt stop)) s) | None => Err [] end.

Definition attr_value (s : text) : decoded text :=
  match s with
  | [] => Err []
  | b :: s' => if is_byte "034"%char b || is_byte "'"%char b then read_text (Some b) false s' else Err s'
  end.

(** The attributes and the end of a start tag. *)
Fixpoint attrs_loop (fuel : nat) (s : text) : decoded (list Attr * bool) :=
  match fuel with
  | O => Err s
  | S fuel =>
      match space s with
      | [] => Err []
      | b :: s' =>
          if is_byte "/"%char b then
            match s' with c :: r => if is_byte ">"%char c then Ok (([], true), r) else Err r | [] => Err [] end
          else if is_byte ">"%char b then Ok (([], false), s')
          else
            let! n := nsname (b :: s') in
            match space n.2 with
            | [] => Err []
            | e :: r =>
                if is_byte "="%char e then
                  let! v := attr_value (space r) in
                  let! rest := attrs_loop fuel v.2 in
                  Ok (({| AName := n.1; Value := v.1 |} :: rest.1.1, rest.1.2), rest.2)
                else Err r
            end
      end
  end.

(** A directive ends at the first [>] outside quotes and nested brackets;
    comments inside it are skipped. *)
Fixpoint directive_loop (fuel : nat) (inquote : option ascii) (depth : nat) (s : text) : result text text :=
  match fuel, s with
  | S fuel, b :: s' =>
      match inquote with
      | Some q => directive_loop fuel (if is_byte q b then None else inquote) depth s'
      | None =>
          if is_byte ">"%char b then match depth with O => Ok s' | S d => directive_loop fuel None d s' end
          else if is_byte "'"%char b || is_byte "034"%char b then directive_loop fuel (Some b) depth s'
          else if is_byte "<"%char b then
            if has_prefix s' (txt "!--") then let! r := skip_past "-->" (drop 3 s') in directive_loop fuel None depth r.2
            else directive_loop fuel None (S depth) s'
          else directive_loop fuel None depth s'
      end
  | _, _ => Err []
  end.

(** [procInst]: the value of a pseudo-attribute of an XML declaration. *)
Fixpoint proc_inst (fuel : nat) (param s : text) : text :=
  match fuel with
  | O => []
  | S fuel =>
      match index s param with
      | None => []
      | Some k =>
          match drop (k + length param) s with
          | [] => []
          | c :: r =>
              if is_byte "'"%char c || is_byte "034"%char c
              then match index r [c] with Some j => take j r | None => [] end
              else proc_inst fuel param r
          end
      end
  end.
Definition lower_ascii (c : ascii) : ascii := if in_rng 65 90 (byte_val c) then ascii_of_N (N_of_ascii c + 32) else c.
Definition declaration_ok (content : text) : bool :=
  let ver := proc_inst (length content) (txt "version=") content in
  let enc := proc_inst (length content) (txt "encoding=") content in
  (eqt ver [] || eqt ver (txt "1.0")) && (eqt enc [] || eqt (map lower_ascii enc) (txt "utf-8")).

Definition end_tag (s : text) : decoded token :=
  let! n := nsname s in
  match space n.2 with
  | [] => Err []
  | b :: r => if is_byte ">"%char b then Ok (EndElement n.1, r) else Err r
  end.
Definition proc_tag (s : text) : decoded token :=
  let! n := name s in
  let! c := skip_past "?>" (space n.2) in
  if eqt n.1 (txt "xml") && negb (declaration_ok c.1) then Err c.2 else Ok (ProcInst, c.2).
(** How many bytes of the section opener match. *)
Fixpoint cdata_common (s opener : text) : nat :=
  match s, opener with c :: s, o :: opener => if is_byte o c then S (cdata_common s opener) else O | _, _ => O end.
Definition bang_tag (s : text) : decoded token :=
  match s with
  | [] => Err []
  | b :: s' =>
      if is_byte "-"%char b then
        match s' with
        | c :: s'' =>
            if is_byte "-"%char c then
              let! d := skip_past "--" s'' in
              match d.2 with [] => Err [] | e :: r => if is_byte ">"%char e then Ok (Comment, r) else Err r end
            else Err s''
        | [] => Err []
        end
      else if is_byte "["%char b then
        if has_prefix s' (txt "CDATA[") then let! d := read_text None true (drop 6 s') in Ok (CharData d.1, d.2)
        else Err (drop 1 (drop (cdata_common s' (txt "CDATA[")) s'))
      else let! r := directive_loop (length s') None 0 s' in Ok (Directive, r)
  end.
Definition start_tag (s : text) : decoded token :=
  let! n := nsname s in
  let! a := attrs_loop (length n.2) n.2 in Ok (StartElement n.1 a.1.1 a.1.2, a.2).

Definition raw_token (s : text) : decoded token :=
  match s with
  | [] => Err []
  | b :: s' =>
      if is_byte "<"%char b then
        match s' with
        | [] => Err []
        | c :: s'' => if is_byte "/"%char c then end_tag s'' else if is_byte "?"%char c then proc_tag s'' else if is_byte "!"%char c then bang_tag s'' else start_tag s'
        end
      else let! d := read_text None false s in Ok (CharData d.1, d.2)
  end.

(** ** Tokens with name spaces *)

Definition xmlns : text := txt "xmlns".
Definition xmlURL : text := txt "http://www.w3.org/XML/1998/namespace".

(** An open element: its raw name and the bindings to return to. *)
Record frame := { raw_name : Name; saved : gmap text text }.
Record decoder := { input : text; stk : list frame; ns : gmap text text; to_close : option Name }.

Definition translate (ns : gmap text text) (element : bool) (n : Name) : Name :=
  if eqt (Space n) xmlns || (eqt (Space n) [] && negb element) || (eqt (Space n) [] && eqt (Local_ n) xmlns) then n
  else
    let space := if eqt (Space n) (txt "xml") then xmlURL else Space n in
    {| Space := default space (ns !! space); Local_ := Local_ n |}.

Definition bind_ns (ns : gmap text text) (a : Attr) : gmap text text :=
  if eqt (Space (AName a)) xmlns then <[Local_ (AName a) := Value a]> ns
  else if eqt (Space (AName a)) [] && eqt (Local_ (AName a)) xmlns then <[[] := Value a]> ns
  else ns.

(** How [Token] ends without a token: at the end of a closed document, or in a
    syntax error with the input that is left. *)
Inductive stopped := EOF | SyntaxError (rest : text).

Definition end_element (d : decoder) (rest : text) (n : Name) : result stopped (token * decoder) :=
  match stk d with
  | f :: stk =>
      if bool_decide (raw_name f = n)
      then Ok (EndElement (translate (ns d) true n), {| input := rest; stk := stk; ns := saved f; to_close := None |})
      else Err (SyntaxError rest)
  | [] => Err (SyntaxError rest)
  end.

Definition Token (d : decoder) : result stopped (token * decoder) :=
  match to_close d with
  | Some n => end_element d (input d) n
  | None =>
      match input d with
      | [] => Err (match stk d with [] => EOF | _ => SyntaxError [] end)
      | _ =>
          match raw_token (input d) with
          | Err rest => Err (SyntaxError rest)
          | Ok (StartElement n attrs empty, rest) =>
              let ns' := fold_left bind_ns attrs (ns d) in
              Ok (StartElement (translate ns' true n) (map (λ a, {| AName := translate ns' false (AName a); Value := Value a |}) attrs) empty,
                  {| input := rest; stk := {| raw_name := n; saved := ns d |} :: stk d; ns := ns'; to_close := if empty then Some n else None |})
          | Ok (EndElement n, rest) => end_element d rest n
          | Ok (t, rest) => Ok (t, {| input := rest; stk := stk d; ns := ns d; to_close := None |})
          end
      end
  end.
Definition new_decoder (s : text) : decoder := {| input := s; stk := []; ns := ∅; to_close := None |}.

(** ** Every token takes a part of the input *)

#[local] Hint Resolve suffix_cons_r suffix_app_r : core.

Lemma span_suffix p s : (span p s).2 `suffix_of` s.
Proof. exists (span p s).1. by rewrite WikiScanner.span_app. Qed.
Lemma space_suffix s : space s `suffix_of` s.
Proof. apply span_suffix. Qed.
Lemma drop_suffix n (s : text) : drop n s `suffix_of` s.
Proof. exists (take n s). by rewrite take_drop. Qed.

(** The suffix of a suffix; the hypotheses name the steps in between. *)
Ltac suffix_step :=
  repeat match goal with
  | H : span ?p ?s = (?a, ?b) |- _ => pose proof (span_suffix p s); rewrite H in *; clear H; cbn [fst snd] in *
  | H : space ?s = _ |- _ => pose proof (space_suffix s); rewrite H in *; clear H
  end.
Ltac suffix_trans := suffix_step; cbn [fst snd] in *; subst;
  repeat match goal with
  | |- ?x `suffix_of` ?x => reflexivity
  | H : _ :: ?r `suffix_of` ?s |- ?r `suffix_of` _ => etransitivity; [|exact H]; apply suffix_cons_r; reflexivity
  | H : ?r `suffix_of` ?s |- ?r `suffix_of` _ => etransitivity; [exact H|clear H]
  | |- ?r `suffix_of` _ :: ?s => apply suffix_cons_r
  end; eauto.

Lemma read_name_suffix s n r : read_name s = Ok (n, r) → r `suffix_of` s ∧ (length r < length s)%nat ∧ n ++ r = s ∧ r ≠ [].
Proof.
  unfold read_name. destruct s as [|c s]; [done|]. destruct (name_byte c) eqn:Hc; [|done].
  pose proof (WikiScanner.span_app name_byte (c :: s)) as Happ. rewrite (WikiScanner.span_cons _ _ _ Hc) in *. cbn [fst snd] in *.
  destruct (span name_byte s).2 as [|b t]; [done|]. intros [= <- <-]. rewrite <- Happ.
  split_and!; [by exists (c :: (span name_byte s).1)|rewrite length_app; simpl; lia|done|done].
Qed.
Lemma name_suffix s n r : name s = Ok (n, r) → r `suffix_of` s ∧ (length r < length s)%nat.
Proof.
  unfold name. destruct (read_name s) as [[n' r']|] eqn:H; [|done]. cbn. destruct (isName n'); [|done]. intros [= -> ->].
  by apply read_name_suffix in H as (? & ? & _).
Qed.
Lemma nsname_suffix s n r : nsname s = Ok (n, r) → r `suffix_of` s ∧ (length r < length s)%nat.
Proof.
  unfold nsname. destruct (name s) as [[n' r']|] eqn:H; [|done]. apply name_suffix in H. cbn [rbind fst snd].
  destruct (_ <? _)%nat; [done|]. destruct (cut n' _) as [[? ?] ?]. by intros [= _ <-].
Qed.

Lemma char_ref_suffix s t r : char_ref s = Ok (t, r) → r `suffix_of` s.
Proof.
  unfold char_ref. destruct s as [|c s]; [done|]. destruct (is_byte "x"%char c); destruct (span _ _) as [ds [|b r']] eqn:Hs; try done;
    destruct (is_byte ";"%char b); try done; destruct (number _ ds) as [v|]; try done; destruct (_ <=? _); try done; intros [= _ <-]; suffix_trans.
Qed.
Lemma entity_suffix s t r : entity s = Ok (t, r) → r `suffix_of` s.
Proof.
  unfold entity. destruct s as [|c s]; [done|]. destruct (is_byte "#"%char c); [intros ?%char_ref_suffix; by apply suffix_cons_r|].
  destruct (span name_byte (c :: s)) as [i [|b r']] eqn:Hs; [done|]. destruct (is_byte ";"%char b); [|done]. destruct (isName i); [|done].
  destruct (entity_rune i); [|done]. intros [= _ <-]. suffix_trans.
Qed.

Lemma text_loop_suffix fuel q cdata b0 b1 s d r : text_loop fuel q cdata b0 b1 s = Ok (d, r) → r `suffix_of` s.
Proof.
  revert b0 b1 s d r. induction fuel as [|fuel IH]; intros b0 b1 [|b s] d r; cbn [text_loop].
  1, 2, 3: by try (destruct cdata; [done|]; intros [= _ <-]).
  destruct (_ && is_byte ">"%char b); [destruct cdata; [intros [= _ <-]; by apply suffix_cons_r|done]|].
  destruct (is_byte "<"%char b && negb cdata); [destruct q; [done|intros [= _ <-]; done]|].
  destruct (match q with Some _ => _ | None => _ end); [intros [= _ <-]; by apply suffix_cons_r|].
  destruct (is_byte "&"%char b && negb cdata).
  - destruct (entity s) as [[t r']|] eqn:He; [|done]. apply entity_suffix in He. cbn [rbind fst snd].
    destruct (text_loop _ _ _ _ _ r') as [[d' r'']|] eqn:Hl; [|done]. apply IH in Hl. intros [= _ <-]. cbn [snd]. apply suffix_cons_r. by etransitivity.
  - destruct (text_loop _ _ _ _ _ s) as [[d' r'']|] eqn:Hl; [|done]. apply IH in Hl. intros [= _ <-]. by apply suffix_cons_r.
Qed.
Lemma read_text_suffix q cdata s d r : read_text q cdata s = Ok (d, r) → r `suffix_of` s.
Proof.
  unfold read_text. destruct (text_loop _ _ _ _ _ s) as [[d' r']|] eqn:Hl; [|done]. apply text_loop_suffix in Hl. cbn.
  destruct (chars_ok _); [|done]. by intros [= _ <-].
Qed.
(** Character data before a tag is not empty. *)
Lemma read_text_progress b s d r : is_byte "<"%char b = false → read_text None false (b :: s) = Ok (d, r) → (length r < length (b :: s))%nat.
Proof.
  intros Hb. unfold read_text. cbn [length text_loop]. rewrite Hb. cbn [andb].
  replace (is_byte "]"%char "000"%char && is_byte "]"%char "000"%char && is_byte ">"%char b) with false by done. cbn [negb andb].
  destruct (is_byte "&"%char b); cbn [andb].
  - destruct (entity s) as [[t r']|] eqn:He; [|done]. cbn [rbind fst snd]. apply entity_suffix, suffix_length in He.
    destruct (text_loop _ _ _ _ _ r') as [[d' r'']|] eqn:Hl; [|done]. apply text_loop_suffix, suffix_length in Hl. cbn [rbind fst snd].
    destruct (chars_ok _); [|done]. intros [= _ <-]. lia.
  - destruct (text_loop _ _ _ _ _ s) as [[d' r'']|] eqn:Hl; [|done]. apply text_loop_suffix, suffix_length in Hl. cbn [rbind fst snd].
    destruct (chars_ok _); [|done]. intros [= _ <-]. lia.
Qed.

Lemma attr_value_suffix s d r : attr_value s = Ok (d, r) → r `suffix_of` s.
Proof. unfold attr_value. destruct s as [|b s]; [done|]. destruct (_ || _); [|done]. intros ?%read_text_suffix. by apply suffix_cons_r. Qed.

Lemma attrs_loop_suffix fuel s a r : attrs_loop fuel s = Ok (a, r) → r `suffix_of` s ∧ (length r < length s)%nat.
Proof.
  revert s a r. induction fuel as [|fuel IH]; intros s a r; [done|]. cbn [attrs_loop].
  pose proof (space_suffix s) as Hs. pose proof (suffix_length _ _ Hs) as Hl. destruct (space s) as [|b s'] eqn:Hsp; [done|]. cbn [length] in Hl.
  destruct (is_byte "/"%char b).
  { destruct s' as [|c t]; [done|]. destruct (is_byte ">"%char c); [|done]. intros [= _ <-]. cbn [length] in *. split; [|lia]. etransitivity; [|exact Hs]. by do 2 apply suffix_cons_r. }
  destruct (is_byte ">"%char b); [intros [= _ <-]; split; [etransitivity; [|exact Hs]; by apply suffix_cons_r|lia]|].
  destruct (nsname (b :: s')) as [[n t]|] eqn:Hn; [|done]. apply nsname_suffix in Hn as [Hn Hln]. cbn [rbind fst snd].
  pose proof (space_suffix t) as Ht. destruct (space t) as [|e u]; [done|]. destruct (is_byte "="%char e); [|done].
  destruct (attr_value (space u)) as [[v w]|] eqn:Hv; [|done]. apply attr_value_suffix in Hv. cbn [rbind fst snd].
  destruct (attrs_loop fuel w) as [[a' r']|] eqn:Ha; [|done]. apply IH in Ha as [Ha Hla]. cbn [rbind fst snd]. intros [= _ <-].
  pose proof (space_suffix u) as Hu. assert (r' `suffix_of` b :: s') as Hr'.
  { etransitivity; [exact Ha|]. etransitivity; [exact Hv|]. etransitivity; [exact Hu|]. etransitivity; [|exact Hn]. etransitivity; [|exact Ht]. by apply suffix_cons_r. }
  assert (length r' < length (b :: s'))%nat.
  { apply suffix_length in Ha, Hv, Hu, Ht. cbn [length] in *. lia. }
  split; [by etransitivity|]. cbn [length] in *. lia.
Qed.

Lemma skip_past_suffix stop s a r : skip_past stop s = Ok (a, r) → r `suffix_of` s.
Proof. unfold skip_past. destruct (index s _); [|done]. intros [= _ <-]. apply drop_suffix. Qed.
Lemma directive_loop_suffix fuel q depth s r : directive_loop fuel q depth s = Ok r → r `suffix_of` s.
Proof.
  revert q depth s. induction fuel as [|fuel IH]; intros q depth s; [by destruct s|]. destruct s as [|b s]; [done|]. cbn [directive_loop].
  destruct q as [q|]; [intros ?%IH; by apply suffix_cons_r|].
  destruct (is_byte ">"%char b); [destruct depth; [intros [= <-]; by apply suffix_cons_r|intros ?%IH; by apply suffix_cons_r]|].
  destruct (_ || _); [intros ?%IH; by apply suffix_cons_r|]. destruct (is_byte "<"%char b); [|intros ?%IH; by apply suffix_cons_r].
  destruct (has_prefix _ _); [|intros ?%IH; by apply suffix_cons_r]. destruct (skip_past _ _) as [[x t]|] eqn:Hp; [|done]. cbn [rbind snd].
  intros ?%IH. apply skip_past_suffix in Hp. apply suffix_cons_r. etransitivity; [done|]. etransitivity; [exact Hp|]. apply drop_suffix.
Qed.

Lemma raw_token_suffix s t r : raw_token s = Ok (t, r) → r `suffix_of` s ∧ (length r < length s)%nat.
Proof.
  unfold raw_token. destruct s as [|b s]; [done|]. destruct (is_byte "<"%char b) eqn:Hb.
  - destruct s as [|c s]; [done|]. intros H. cut (r `suffix_of` c :: s).
    { intros Hr. pose proof (suffix_length _ _ Hr). cbn [length] in *. split; [by apply suffix_cons_r|lia]. }
    destruct (is_byte "/"%char c); [|destruct (is_byte "?"%char c); [|destruct (is_byte "!"%char c)]].
    + unfold end_tag in H. destruct (nsname s) as [[n u]|] eqn:Hn; [|done]. apply nsname_suffix in Hn as [Hn _]. cbn [rbind fst snd] in H.
      pose proof (space_suffix u) as Hu. destruct (space u) as [|e v]; [done|]. destruct (is_byte ">"%char e); [|done]. injection H as _ <-.
      apply suffix_cons_r. etransitivity; [|exact Hn]. etransitivity; [|exact Hu]. by apply suffix_cons_r.
    + unfold proc_tag in H. destruct (name s) as [[n u]|] eqn:Hn; [|done]. apply name_suffix in Hn as [Hn _]. cbn [rbind fst snd] in H.
      destruct (skip_past "?>" (space u)) as [[a v]|] eqn:Hp; [|done]. apply skip_past_suffix in Hp. cbn [rbind fst snd] in H.
      destruct (_ && _); [done|]. injection H as _ <-. apply suffix_cons_r. etransitivity; [exact Hp|]. etransitivity; [apply space_suffix|done].
    + unfold bang_tag in H. apply suffix_cons_r. destruct s as [|e s]; [done|]. destruct (is_byte "-"%char e); [|destruct (is_byte "["%char e)].
      * destruct s as [|g s]; [done|]. destruct (is_byte "-"%char g); [|done]. destruct (skip_past "--" s) as [[a v]|] eqn:Hp; [|done].
        apply skip_past_suffix in Hp. cbn [rbind fst snd] in H. destruct v as [|h v]; [done|]. destruct (is_byte ">"%char h); [|done]. injection H as _ <-.
        do 2 apply suffix_cons_r. etransitivity; [|exact Hp]. by apply suffix_cons_r.
      * destruct (has_prefix _ _); [|done]. destruct (read_text _ _ _) as [[a v]|] eqn:Hp; [|done]. apply read_text_suffix in Hp. cbn in H. injection H as _ <-.
        apply suffix_cons_r. etransitivity; [exact Hp|apply drop_suffix].
      * destruct (directive_loop _ _ _ _) as [v|] eqn:Hp; [|done]. apply directive_loop_suffix in Hp. injection H as _ <-. by apply suffix_cons_r.
    + unfold start_tag in H. destruct (nsname (c :: s)) as [[n u]|] eqn:Hn; [|done]. apply nsname_suffix in Hn as [Hn _]. cbn [rbind fst snd] in H.
      destruct (attrs_loop _ u) as [[a v]|] eqn:Ha; [|done]. apply attrs_loop_suffix in Ha as [Ha _]. injection H as _ <-. by etransitivity.
  - intros H. destruct (read_text _ _ _) as [[a v]|] eqn:Hp; [|done]. pose proof (read_text_progress _ _ _ _ Hb Hp).
    apply read_text_suffix in Hp. cbn in H. by injection H as _ <-.
Qed.

(** What is left to do: the input, and the end of a self-closed tag. *)
Definition remaining (d : decoder) : nat := 2 * length (input d) + match to_close d with Some _ => 1 | None => 0 end.

Lemma Token_progress d t d' : Token d = Ok (t, d') →
  input d' `suffix_of` input d ∧ (remaining d' < remaining d)%nat ∧ (match t with CharData _ => True | _ => False end → to_close d = None).
Proof.
  unfold Token, remaining. destruct (to_close d) as [n|] eqn:Hc.
  { unfold end_element. destruct (stk d); [done|]. case_bool_decide; [|done]. intros [= <- <-]. cbn. split_and!; [done|lia|done]. }
  destruct (input d) as [|b s] eqn:Hi; [done|]. destruct (raw_token (b :: s)) as [[t' r]|] eqn:Ht; [|done].
  apply raw_token_suffix in Ht as [Hs Hl]. intros H.
  assert (input d' = r) as Hr.
  { destruct t'; try (by injection H as _ <-). unfold end_element in H. destruct (stk d); [done|]. case_bool_decide; [|done]. by injection H as _ <-. }
  rewrite Hr. split; [done|]. split; [|done]. destruct (to_close d'); lia.
Qed.
End Xml.
