(* ===== verification/Csf.v ===== *)
(** * The storage-format DOM (internal/csf: parse.go, table_span.go, validate.go,
    cloudcompat.go, inline_comments.go, inline_comment_marker_reconcile.go)

    [Parse] folds the tokens of [Xml] into a tree whose nodes carry the span of
    their source bytes.  The wrapper element, the clamped offsets and the depth
    limit are the code's.  Message texts of diagnostics are left out. *)

From S2P Require Import Prelude GoText WikiScanner Json Markdown Xml.
Import GoText.
Import WikiScanner (is_byte, newline).
Import Markdown (trim_prefix).
Import Xml.

Module Csf.
Local Open Scope Z_scope.
Local Open Scope atl_scope.

(** ** Nodes *)

Definition MaxNestingDepth : Z := 1024.
Definition checkNestingDepth (depth : Z) : bool := depth <=? MaxNestingDepth.

Inductive NodeType := Element | Text | CData.
#[export] Instance NodeType_eq : EqDecision NodeType. Proof. solve_decision. Defined.

Inductive Node := MkNode (type : NodeType) (name : Name) (attr : list Attr) (data : text) (start stop : nat) (children : list Node).
Definition Type_ (n : Node) : NodeType := let '(MkNode t _ _ _ _ _ _) := n in t.
Definition Name_ (n : Node) : Name := let '(MkNode _ m _ _ _ _ _) := n in m.
Definition Attr_ (n : Node) : list Attr := let '(MkNode _ _ a _ _ _ _) := n in a.
Definition Data (n : Node) : text := let '(MkNode _ _ _ d _ _ _) := n in d.
Definition Start (n : Node) : nat := let '(MkNode _ _ _ _ s _ _) := n in s.
Definition End_ (n : Node) : nat := let '(MkNode _ _ _ _ _ e _) := n in e.
Definition Children (n : Node) : list Node := let '(MkNode _ _ _ _ _ _ c) := n in c.

Definition no_name : Name := {| Space := []; Local_ := [] |}.
Definition is_element (n : Node) : bool := bool_decide (Type_ n = Element).
Definition is_text (n : Node) : bool := negb (is_element n).
Definition named (space local : string) (n : Node) : bool := eqt (Space (Name_ n)) (txt space) && eqt (Local_ (Name_ n)) (txt local).
Definition name_string (n : Name) : text := if eqt (Space n) [] then Local_ n else Space n ++ txt ":" ++ Local_ n.

Definition Attrv (n : Node) (space local : text) : text :=
  match List.find (λ a, eqt (Space (AName a)) space && eqt (Local_ (AName a)) local) (Attr_ n) with Some a => Value a | None => [] end.
Definition attrv (n : Node) (space local : string) : text := Attrv n (txt space) (txt local).

Definition isMacroElement (n : Node) : bool := is_element n && (named "ac" "structured-macro" n || named "ac" "macro" n).
Definition MacroName (n : Node) : text := if isMacroElement n then attrv n "ac" "name" else [].

(** ** Parsing *)

Definition root_open : text := txt "<root>".
Definition root_close : text := txt "</root>".
Definition wrap (raw : text) : text := root_open ++ raw ++ root_close.

Inductive parse_error := MaxNestingDepthError (depth : Z) | Malformed (rest : text).

(** An element that is still open, its children in reverse. *)
Record open_node := { o_name : Name; o_attr : list Attr; o_start : nat; o_children : list Node }.
Definition add_child (c : Node) (o : open_node) : open_node :=
  {| o_name := o_name o; o_attr := o_attr o; o_start := o_start o; o_children := c :: o_children o |}.
Definition close_node (o : open_node) (stop : nat) : Node := MkNode Element (o_name o) (o_attr o) [] (o_start o) stop (reverse (o_children o)).

Definition plain_attr (a : Attr) : bool := negb (eqt (Local_ (AName a)) xmlns || eqt (Space (AName a)) xmlns).

Section parse.
Variable raw : text.

(** The offset of the input that is left, in the raw bytes. *)
Definition offset (rest : text) : Z := Z.of_nat (length (wrap raw)) - Z.of_nat (length rest) - Z.of_nat (length root_open).
Definition rebase (rest : text) : nat := Z.to_nat (Z.min (Z.max (offset rest) 0) (Z.of_nat (length raw))).

(** One round of the loop; [stack] is innermost first and ends with the root. *)
Definition on_token (start stop : nat) (t : token) (wrapperSeen : bool) (stack : list open_node) : result parse_error (bool * list open_node) :=
  match t with
  | StartElement n attrs _ =>
      if negb wrapperSeen then Ok (true, stack)
      else if negb (checkNestingDepth (Z.of_nat (length stack))) then Err (MaxNestingDepthError (Z.of_nat (length stack)))
      else Ok (wrapperSeen, {| o_name := n; o_attr := List.filter plain_attr attrs; o_start := start; o_children := [] |} :: stack)
  | EndElement _ =>
      match stack with
      | el :: parent :: stack => Ok (wrapperSeen, add_child (close_node el stop) parent :: stack)
      | _ => Ok (wrapperSeen, stack)
      end
  | CharData data =>
      match stack with
      | parent :: stack => Ok (wrapperSeen, add_child (MkNode Text no_name [] data start stop []) parent :: stack)
      | [] => Ok (wrapperSeen, stack)
      end
  | Comment | ProcInst | Directive => Ok (wrapperSeen, stack)
  end.

Fixpoint parse_loop (fuel : nat) (d : decoder) (wrapperSeen : bool) (stack : list open_node) : result parse_error (list open_node) :=
  match fuel with
  | O => Err (Malformed (input d))
  | S fuel =>
      match Token d with
      | Err EOF => Ok stack
      | Err (SyntaxError rest) => Err (Malformed rest)
      | Ok (t, d') => let! s := on_token (rebase (input d)) (rebase (input d')) t wrapperSeen stack in parse_loop fuel d' s.1 s.2
      end
  end.
Definition root_node : open_node := {| o_name := {| Space := []; Local_ := txt "root" |}; o_attr := []; o_start := 0; o_children := [] |}.

(** Every token takes a byte of the input or the end of a self-closed tag. *)
Definition token_fuel : nat := S (2 * length (wrap raw)).
Definition Parse : result parse_error Node :=
  let! stack := parse_loop token_fuel (new_decoder (wrap raw)) false [root_node] in
  Ok (close_node (List.last stack root_node) (length raw)).
End parse.

(** ** Walking *)

(** [Walk]: every element before its children, which [fn] may skip. *)
Fixpoint walk {S} (fn : S → Node → S * bool) (s : S) (n : Node) : S :=
  let children s := fold_left (walk fn) (Children n) s in
  if is_element n then let '(s, descend) := fn s n in if (descend : bool) then children s else s else children s.
(** [Walk] with a callback that collects and never skips. *)
Definition collect {A} (f : Node → list A) (n : Node) : list A := walk (λ acc x, (acc ++ f x, true)) [] n.

Fixpoint content (n : Node) : text := (if is_text n then Data n else []) ++ concat (map content (Children n)).
Definition TextContent (n : Node) : text := trim_space (content n).

(** ** Table spans (table_span.go) *)

Definition MaxTableSpan : Z := 100.
Fixpoint span_loop (fuel : nat) (value : Z) (s : text) : option Z :=
  match fuel, s with
  | S fuel, _ :: _ =>
      let '(r, n) := decode_rune s in
      if (r <? 48) || (57 <? r) then None
      else
        let value := if value <=? MaxTableSpan then let v := value * 10 + (r - 48) in if MaxTableSpan <? v then MaxTableSpan + 1 else v else value in
        span_loop fuel value (drop n s)
  | _, _ => Some value
  end.
Definition tableSpanValue (n : Node) (name : string) : option Z :=
  let raw := trim_prefix (trim_space (attrv n "" name)) (txt "+") in
  if eqt raw [] then None
  else match span_loop (length raw) 0 raw with Some v => if v <? 1 then None else Some v | None => None end.
Definition TableSpan (n : Node) (name : string) : Z := match tableSpanValue n name with Some v => Z.min v MaxTableSpan | None => 1 end.
Definition TableSpanExceedsMax (n : Node) (name : string) : bool := match tableSpanValue n name with Some v => MaxTableSpan <? v | None => false end.

(** ** Inline comment markers (inline_comments.go) *)

Record InlineCommentMarker := { Ref : text; Selection : text }.
Definition ExtractInlineCommentMarkers (raw : text) : result parse_error (list InlineCommentMarker) :=
  let! root := Parse raw in
  Ok (collect (λ n,
    if named "ac" "inline-comment-marker" n then
      let ref := attrv n "ac" "ref" in
      if eqt (trim_space ref) [] then [] else [{| Ref := ref; Selection := TextContent n |}]
    else []) root).

(** ** Reconciling an inserted marker (inline_comment_marker_reconcile.go) *)

Definition marker_with (markerRef : text) (n : Node) : bool := named "ac" "inline-comment-marker" n && eqt (attrv n "ac" "ref") markerRef.
Definition countInlineCommentMarkerRef (root : Node) (markerRef : text) : nat := length (collect (λ n, if marker_with markerRef n then [n] else []) root).

Fixpoint start_tag_end (raw : text) (i : nat) (quote : option ascii) (before : option ascii) : option (nat * bool) :=
  match raw with
  | [] => None
  | v :: raw =>
      match quote with
      | Some q => start_tag_end raw (S i) (if is_byte q v then None else quote) (Some v)
      | None =>
          if is_byte "'"%char v || is_byte "034"%char v then start_tag_end raw (S i) (Some v) (Some v)
          else if is_byte ">"%char v then Some (i, match before with Some b => negb (is_byte "/"%char b) | None => false end)
          else start_tag_end raw (S i) None (Some v)
      end
  end.
(** The index, when the tag is not self-closed. *)
Definition inlineMarkerStartTagEnd (raw : text) : option nat :=
  match start_tag_end raw 0 None None with Some (i, true) => Some i | _ => None end.

(** [bytes.LastIndex]. *)
Fixpoint last_index (s p : text) : option nat :=
  match s with
  | [] => if eqt p [] then Some O else None
  | _ :: s' => match last_index s' p with Some i => Some (S i) | None => if has_prefix s p then Some O else None end
  end.

(** The error distinguishes the two bodies that may fail to parse. *)
Inductive reconcile_error := PrewriteError | ReadbackError.
Definition ReconcileInlineCommentMarkerInsertion (before after markerRef selection : text) : result reconcile_error bool :=
  if eqt (trim_space markerRef) [] || eqt selection [] then Ok false
  else
    match Parse before, Parse after with
    | Err _, _ => Err PrewriteError
    | _, Err _ => Err ReadbackError
    | Ok beforeRoot, Ok afterRoot =>
        if negb (countInlineCommentMarkerRef beforeRoot markerRef =? 0)%nat then Ok false
        else
          match collect (λ n, if marker_with markerRef n then [n] else []) afterRoot with
          | [candidate] =>
              if negb (eqt (content candidate) selection) then Ok false
              else if (length after <? End_ candidate)%nat || (End_ candidate <=? Start candidate)%nat then Ok false
              else
                let outer := slice after (Start candidate) (End_ candidate) in
                match inlineMarkerStartTagEnd outer, last_index outer (txt "</") with
                | Some open, Some close =>
                    if (close <=? open)%nat || negb (eqt (trim_space (drop close outer)) (txt "</ac:inline-comment-marker>")) then Ok false
                    else Ok (eqt (take (Start candidate) after ++ slice outer (S open) close ++ drop (End_ candidate) after) before)
                | _, _ => Ok false
                end
          | _ => Ok false
          end
    end.

(** ** Validation (validate.go) *)

Inductive severity := SeverityError | SeverityWarning.
#[export] Instance severity_eq : EqDecision severity. Proof. solve_decision. Defined.
Record Problem := { Severity : severity; Line : nat; Col : nat; Rule : string }.
Definition HasErrors (ps : list Problem) : bool := existsb (λ p, bool_decide (Severity p = SeverityError)) ps.

Fixpoint line_col (raw : text) (line col : nat) : nat * nat :=
  match raw with
  | [] => (line, col)
  | c :: raw => if is_byte newline c then line_col raw (S line) 1 else line_col raw line (S col)
  end.
Definition lineCol (raw : text) (off : nat) : nat * nat := line_col (take off raw) 1 1.
Definition count_newlines (s : text) : nat := length (List.filter (is_byte newline) s).

Section validate.
Variable raw : text.

(** The position of an offset, when it falls in the raw bytes. *)
Definition located (off : Z) (otherwise : nat * nat) : nat * nat :=
  if (0 <=? off) && (off <=? Z.of_nat (length raw)) then lineCol raw (Z.to_nat off) else otherwise.
Definition error_at (rule : string) (at_ : nat * nat) : Problem := {| Severity := SeverityError; Line := at_.1; Col := at_.2; Rule := rule |}.

(** [wellFormed]: [None] at the end of a well-formed body. *)
Fixpoint well_formed_loop (fuel : nat) (d : decoder) (wrapperSeen : bool) (depth : Z) : option Problem :=
  match fuel with
  | O => None
  | S fuel =>
      match Token d with
      | Err EOF => None
      | Err (SyntaxError rest) =>
          let consumed := take (length (wrap raw) - length rest) (wrap raw) in
          Some (error_at "well-formedness" (located (offset raw rest) (S (count_newlines consumed), O)))
      | Ok (t, d') =>
          match t with
          | StartElement _ _ _ =>
              if negb wrapperSeen then well_formed_loop fuel d' true depth
              else if negb (checkNestingDepth (depth + 1)) then Some (error_at "max-depth" (located (offset raw (input d)) (O, O)))
              else well_formed_loop fuel d' wrapperSeen (depth + 1)
          | EndElement _ => well_formed_loop fuel d' wrapperSeen (if 0 <? depth then depth - 1 else depth)
          | ProcInst | Directive => Some (error_at "well-formedness" (located (offset raw (input d')) (O, O)))
          | CharData _ | Comment => well_formed_loop fuel d' wrapperSeen depth
          end
      end
  end.
Definition wellFormed : option Problem := well_formed_loop (token_fuel raw) (new_decoder (wrap raw)) false 0.
End validate.

(** [macroParams]: a later parameter of the same name replaces an earlier one. *)
Definition is_parameter (n : Node) : bool := is_element n && named "ac" "parameter" n.
Definition macroParams (macro : Node) : gmap text text :=
  fold_left (λ out c, if is_parameter c then <[attrv c "ac" "name" := TextContent c]> out else out) (Children macro) ∅.

Definition warning (rule : string) : Problem := {| Severity := SeverityWarning; Line := O; Col := O; Rule := rule |}.
Definition node_problems (n : Node) : list Problem :=
  (if isMacroElement n then
     let name := attrv n "ac" "name" in
     (if eqt name [] then [warning "macro-name"] else []) ++
     (if eqt name (txt "drawio") && eqt (default [] (macroParams n !! txt "diagramName")) [] then [warning "drawio-params"] else [])
   else []) ++
  (if named "ri" "attachment" n && eqt (attrv n "ri" "filename") [] then [warning "dangling-ref"] else []).
Definition sanity (root : Node) : list Problem := collect node_problems root.

(** One class of invisible characters: how often it occurs and where first. *)
Record sighting := { seen_count : nat; first_line : nat; first_col : nat }.
Fixpoint sight_loop (fuel : nat) (match_ : Z → bool) (s : text) (line col : nat) (acc : sighting) : sighting :=
  match fuel, s with
  | S fuel, _ :: _ =>
      let '(r, n) := decode_rune s in
      if r =? 10 then sight_loop fuel match_ (drop n s) (S line) O acc
      else
        let acc := if match_ r then
            {| seen_count := S (seen_count acc); first_line := if (seen_count acc =? 0)%nat then line else first_line acc;
               first_col := if (seen_count acc =? 0)%nat then S col else first_col acc |} else acc in
        sight_loop fuel match_ (drop n s) line (S col) acc
  | _, _ => acc
  end.
Definition classes : list (Z → bool) :=
  [λ r, r =? 160; λ r, (r =? 8203) || (r =? 8204) || (r =? 8205) || (r =? 65279) || (r =? 8288); λ r, r =? 173].
Definition invisibles (raw : text) : list Problem :=
  classes ≫= λ m,
    let s := sight_loop (length raw) m raw 1 0 {| seen_count := 0; first_line := 0; first_col := 0 |} in
    if (seen_count s =? 0)%nat then [] else [{| Severity := SeverityWarning; Line := first_line s; Col := first_col s; Rule := "invisible-chars" |}].

(** ** Cloud compatibility (cloudcompat.go) *)

Definition RuleCloudMacroNotInsertable : string := "cloud-compat/macro-not-insertable".
Definition RuleCloudMacroViewOnly : string := "cloud-compat/macro-view-only".
Definition RuleCloudMacroRemoved : string := "cloud-compat/macro-removed".
Definition RuleCloudNestedBodiedMacro : string := "cloud-compat/nested-bodied-macro".
Definition RuleCloudNestedTable : string := "cloud-compat/nested-table".
Definition not_insertable : list string :=
  ["align"; "bgcolor"; "center"; "cheese"; "code"; "content-by-user"; "copyright"; "create-space-button"; "div"; "fancy-bullets"; "favpages"; "global-reports";
   "highlight"; "htmlcomment"; "info"; "loremipsum"; "multimedia"; "navmap"; "noformat"; "note"; "panel"; "privacy-mark"; "privacy-policy"; "recently-used-labels";
   "reg-tm"; "search"; "sm"; "space-attachments"; "space-details"; "strike"; "style"; "tip"; "tm"; "warning"]%string.
Definition view_only : list string :=
  ["chart"; "contributors-summary"; "gallery"; "index"; "recently-updated-dashboard"; "related-labels"; "spaces"; "viewdoc"; "viewppt"]%string.
Definition removed_macros : list string := ["im"; "junitreport"; "rolloverwithoudbody"; "span"]%string.
Definition listed (names : list string) (name : text) : bool := existsb (λ n, eqt (txt n) name) names.
Definition cloudMacroStatus (name : text) : option string :=
  if listed not_insertable name then Some RuleCloudMacroNotInsertable else if listed view_only name then Some RuleCloudMacroViewOnly
  else if listed removed_macros name then Some RuleCloudMacroRemoved else None.

Definition isMacroBodyElement (n : Node) : bool := is_element n && (named "ac" "rich-text-body" n || named "ac" "plain-text-body" n).
Definition hasMacroBody (macro : Node) : bool := existsb isMacroBodyElement (Children macro).

(** [sourcePositions]: the offsets of the newlines, searched by bisection. *)
Record sourcePositions := { rawLen : nat; newlines : list nat }.
Fixpoint newline_offsets (i : nat) (raw : text) : list nat :=
  match raw with [] => [] | c :: raw => (if is_byte newline c then [i] else []) ++ newline_offsets (S i) raw end.
Definition newSourcePositions (raw : text) : sourcePositions := {| rawLen := length raw; newlines := newline_offsets 0 raw |}.
Definition positions_lineCol (p : sourcePositions) (off : nat) : option (nat * nat) :=
  if (rawLen p <? off)%nat then None
  else
    let lineIndex := sort_search (length (newlines p)) (λ i, (off <=? default O (newlines p !! i))%nat) in
    let lineStart := match lineIndex with O => O | S i => S (default O (newlines p !! i)) end in
    Some (S lineIndex, S (off - lineStart)).
Definition cloudProblem (p : sourcePositions) (n : Node) (rule : string) : Problem :=
  let at_ := default (O, O) (positions_lineCol p (Start n)) in
  {| Severity := SeverityWarning; Line := at_.1; Col := at_.2; Rule := rule |}.

Fixpoint cloud_rec (p : sourcePositions) (bodyMacroAncestor : bool) (tableDepth : nat) (n : Node) : list Problem :=
  let table := is_element n && named "" "table" n in
  (if isMacroElement n then
     match cloudMacroStatus (attrv n "ac" "name") with Some rule => [cloudProblem p n rule] | None => [] end ++
     (if bodyMacroAncestor && hasMacroBody n then [cloudProblem p n RuleCloudNestedBodiedMacro] else [])
   else []) ++
  (if table && (0 <? tableDepth)%nat then [cloudProblem p n RuleCloudNestedTable] else []) ++
  concat (map (λ c, cloud_rec p (bodyMacroAncestor || (isMacroElement n && isMacroBodyElement c)) (if table then S tableDepth else tableDepth) c) (Children n)).
Definition cloudCompat (raw : text) (root : Node) : list Problem := concat (map (cloud_rec (newSourcePositions raw) false 0) (Children root)).

Definition ValidateWithOptions (raw : text) (cloud : bool) : list Problem :=
  match wellFormed raw with
  | Some p => [p]
  | None =>
      match Parse raw with
      | Err (MaxNestingDepthError _) => [error_at "max-depth" (O, O)]
      | Err (Malformed _) => [error_at "well-formedness" (O, O)]
      | Ok root => sanity root ++ invisibles raw ++ (if cloud then cloudCompat raw root else [])
      end
  end.
Definition Validate (raw : text) : list Problem := ValidateWithOptions raw false.

(** ** Walking, by induction on the tree *)

Section node_induction.
Variable P : Node → Prop.
Hypothesis HP : ∀ t m a d s e cs, Forall P cs → P (MkNode t m a d s e cs).
Fixpoint node_ind' (n : Node) : P n :=
  match n with
  | MkNode t m a d s e cs =>
      HP t m a d s e cs ((fix go (cs : list Node) : Forall P cs :=
        match cs with [] => @List.Forall_nil Node P | c :: cs => @List.Forall_cons Node P c cs (node_ind' c) (go cs) end) cs)
  end.
End node_induction.

Lemma walk_inv {S} (P : S → Prop) fn : (∀ s x, P s → P (fn s x).1) → ∀ n s, P s → P (walk fn s n).
Proof.
  intros Hfn. induction n as [t m a d st e cs IH] using node_ind'. intros s Hs.
  assert (∀ s, P s → P (fold_left (walk fn) cs s)) as Hc.
  { clear Hs. induction IH as [|c cs Hc _ IH']; intros s' Hs'; cbn; auto. }
  cbn [walk Children]. destruct (is_element _); [|auto]. specialize (Hfn s (MkNode t m a d st e cs) Hs).
  destruct (fn s _) as [s' []]; cbn in *; auto.
Qed.

(** The elements a walk visits when [descend] says whether to go on below one. *)
Fixpoint visited (descend : Node → bool) (n : Node) : list Node :=
  let children := concat (map (visited descend) (Children n)) in
  if is_element n then n :: (if descend n then children else []) else children.
Lemma walk_visited {S} (f : S → Node → S) (descend : Node → bool) (fn : S → Node → S * bool) :
  (∀ s n, fn s n = (f s n, descend n)) → ∀ n s, walk fn s n = fold_left f (visited descend n) s.
Proof.
  intros Hfn. induction n as [t m a d st e cs IH] using node_ind'. intros s.
  assert (∀ s, fold_left (walk fn) cs s = fold_left f (concat (map (visited descend) cs)) s) as Hc.
  { clear s. induction IH as [|c cs Hc _ IH']; intros s; [done|]. cbn [fold_left map concat]. by rewrite fold_left_app, Hc, IH'. }
  cbn [walk visited Children]. destruct (is_element _); [|apply Hc]. rewrite Hfn. cbn [fold_left]. destruct (descend _); [apply Hc|done].
Qed.

(** ** Spans *)

#[local] Arguments reverse : simpl never.
#[local] Arguments MaxNestingDepth : simpl never.

(** The nodes lie in order between two offsets, and so do the children of each
    within its own span. *)
Inductive in_order : nat → list Node → nat → Prop :=
| in_order_nil lo hi : (lo ≤ hi)%nat → in_order lo [] hi
| in_order_cons lo n ns hi : (lo ≤ Start n)%nat → in_order (Start n) (Children n) (End_ n) → in_order (End_ n) ns hi → in_order lo (n :: ns) hi.

(** Elements on the longest path below and including a node. *)
Fixpoint depth (n : Node) : nat := if is_element n then S (list_max (map depth (Children n))) else O.

Lemma in_order_le lo ns hi : in_order lo ns hi → (lo ≤ hi)%nat.
Proof. induction 1; lia. Qed.
Lemma in_order_mono lo ns hi hi' : in_order lo ns hi → (hi ≤ hi')%nat → in_order lo ns hi'.
Proof. intros H ?. induction H as [lo hi|lo n ns hi Hlo Hc _ Hn IH]; [constructor; lia|]. constructor; [done|done|auto]. Qed.
Lemma in_order_snoc lo ns mid n hi : in_order lo ns mid → (mid ≤ Start n)%nat → in_order (Start n) (Children n) (End_ n) → (End_ n ≤ hi)%nat → in_order lo (ns ++ [n]) hi.
Proof.
  intros H ? ? ?. induction H as [lo mid|lo m ns mid ? ? ? _ IH]; cbn.
  - constructor; [lia|done|by constructor].
  - constructor; [done|done|auto].
Qed.

Section parse_facts.
Variable raw : text.

Fixpoint stack_ok (p : nat) (stack : list open_node) : Prop :=
  match stack with
  | [] => True
  | o :: below => in_order (o_start o) (reverse (o_children o)) p ∧ Z.of_nat (length below) ≤ MaxNestingDepth ∧
      Forall (λ c, Z.of_nat (length below + depth c) ≤ MaxNestingDepth) (o_children o) ∧ stack_ok (o_start o) below
  end.

Lemma stack_ok_mono p q stack : stack_ok p stack → (p ≤ q)%nat → stack_ok q stack.
Proof. destruct stack as [|o st]; [done|]. intros (H & ? & ? & ?) ?. split_and!; try done. eapply in_order_mono; [done|lia]. Qed.

Lemma list_max_depth (ns : list Node) b : Forall (λ c, depth c ≤ b)%nat ns → (list_max (map depth ns) ≤ b)%nat.
Proof. intros H. apply list_max_le. by apply Forall_fmap. Qed.

Lemma list_max_reverse (ns : list nat) : list_max (reverse ns) = list_max ns.
Proof. apply Nat.le_antisymm; apply list_max_le; [apply Forall_reverse|rewrite <- (reverse_involutive ns) at 1; apply Forall_reverse]; by apply list_max_le. Qed.
Lemma depth_close o stop : depth (close_node o stop) = S (list_max (map depth (o_children o))).
Proof. change (S (list_max (depth <$> reverse (o_children o))) = S (list_max (depth <$> o_children o))). by rewrite fmap_reverse, list_max_reverse. Qed.

Lemma on_token_ok start stop t w stack w' stack' : stack ≠ [] → (start ≤ stop)%nat → stack_ok start stack →
  on_token start stop t w stack = Ok (w', stack') → stack_ok stop stack' ∧ stack' ≠ [].
Proof.
  intros Hne Hle Hok. destruct t as [n attrs e|n|data| | |]; cbn [on_token].
  - destruct w; cbn [negb]; [|intros [= _ <-]; split; [by eapply stack_ok_mono|done]].
    destruct (checkNestingDepth _) eqn:Hd; [|done]. cbn [negb]. intros [= _ <-]. split; [|done]. apply Z.leb_le in Hd.
    cbn. split_and!; [constructor; lia|done|constructor|done].
  - destruct stack as [|el [|parent st]]; [done|intros [= _ <-]; split; [by eapply stack_ok_mono|done]|].
    intros [= _ <-]. split; [|done]. destruct Hok as (He & Hlen & Hd & Hp & Hlen' & Hd' & Hrest). cbn in *.
    rewrite reverse_cons. split_and!.
    + eapply in_order_snoc; [exact Hp|cbn; lia| |cbn; lia]. cbn. eapply in_order_mono; [done|lia].
    + done.
    + constructor; [|done]. rewrite depth_close. pose proof (list_max_depth (o_children el) (Z.to_nat (MaxNestingDepth - Z.of_nat (S (length st))))) as Hm.
      cut (list_max (map depth (o_children el)) ≤ Z.to_nat (MaxNestingDepth - Z.of_nat (S (length st))))%nat; [unfold MaxNestingDepth in *; lia|].
      apply Hm. eapply Forall_impl; [exact Hd|]. unfold MaxNestingDepth. cbn. intros; lia.
    + done.
  - destruct stack as [|parent st]; [done|]. intros [= _ <-]. split; [|done]. destruct Hok as (Hp & Hlen & Hd & Hrest). cbn in *.
    rewrite reverse_cons. split_and!; [|done| |done].
    + eapply in_order_snoc; [exact Hp|cbn; lia| |cbn; lia]. cbn. constructor. lia.
    + constructor; [|done]. change (Z.of_nat (length st + 0) ≤ MaxNestingDepth). by rewrite Nat.add_0_r.
  - intros [= _ <-]. split; [by eapply stack_ok_mono|done].
  - intros [= _ <-]. split; [by eapply stack_ok_mono|done].
  - intros [= _ <-]. split; [by eapply stack_ok_mono|done].
Qed.

(** The bottom of the stack stays the wrapper's node. *)
Definition grounded (stack : list open_node) : Prop :=
  let o := List.last stack root_node in o_name o = o_name root_node ∧ o_attr o = [] ∧ o_start o = 0%nat.
Lemma on_token_grounded start stop t w stack w' stack' : stack ≠ [] → grounded stack → on_token start stop t w stack = Ok (w', stack') → grounded stack'.
Proof.
  intros Hne Hg. destruct t as [n attrs e|n|data| | |]; cbn [on_token]; try (by intros [= _ <-]).
  - destruct w; cbn [negb]; [|by intros [= _ <-]]. destruct (checkNestingDepth _); [|done]. intros [= _ <-]. by destruct stack.
  - destruct stack as [|el [|parent st]]; [done|by intros [= _ <-]|]. intros [= _ <-]. by destruct st.
  - destruct stack as [|parent st]; [done|]. intros [= _ <-]. by destruct st.
Qed.

Lemma rebase_mono r r' : r' `suffix_of` r → (rebase raw r ≤ rebase raw r')%nat.
Proof. intros H%suffix_length. unfold rebase, offset. lia. Qed.

Lemma parse_loop_ok fuel d w stack stack' : stack ≠ [] → stack_ok (rebase raw (input d)) stack → grounded stack →
  parse_loop raw fuel d w stack = Ok stack' → stack_ok (length raw) stack' ∧ stack' ≠ [] ∧ grounded stack'.
Proof.
  revert d w stack. induction fuel as [|fuel IH]; intros d w stack Hne Hok Hg; [done|]. cbn [parse_loop].
  destruct (Token d) as [[t d']|[|r]] eqn:Ht; [|intros [= <-]; split; [|done]; eapply stack_ok_mono; [done|unfold rebase; lia]|done].
  apply Token_progress in Ht as (Hs & _ & _). apply rebase_mono in Hs.
  destruct (on_token _ _ _ _ _) as [[w' st']|] eqn:Ho; [|done]. pose proof (on_token_grounded _ _ _ _ _ _ _ Hne Hg Ho). eapply on_token_ok in Ho as [Ho Hne']; [|done|exact Hs|done]. cbn [rbind fst snd]. by apply IH.
Qed.

Lemma stack_ok_root p stack : stack_ok p stack → stack ≠ [] →
  let o := List.last stack root_node in in_order (o_start o) (reverse (o_children o)) p ∧ Forall (λ c, Z.of_nat (depth c) ≤ MaxNestingDepth) (o_children o).
Proof.
  revert p. induction stack as [|o st IH]; intros p Hok Hne; [done|]. destruct Hok as (Ho & Hl & Hd & Hst).
  destruct st as [|o' st]; cbn -[stack_ok] in *; [by split|]. destruct (IH _ Hst ltac:(done)) as [H1 H2].
  split; [|done]. eapply in_order_mono; [exact H1|]. by apply in_order_le in Ho.
Qed.

(** The loop's result does not depend on fuel beyond the size of the input. *)
Lemma parse_loop_fuel f f' d w stack : (remaining d < f)%nat → (remaining d < f')%nat → parse_loop raw f d w stack = parse_loop raw f' d w stack.
Proof.
  revert f' d w stack. induction f as [|f IH]; intros f' d w stack; [lia|]. destruct f' as [|f']; [lia|]. cbn [parse_loop]. intros.
  destruct (Token d) as [[t d']|[|]] eqn:Ht; [|done|done]. apply Token_progress in Ht as (_ & Hr & _).
  destruct (on_token _ _ _ _ _) as [[w' st']|]; [|done]. apply IH; lia.
Qed.

(** [wellFormed] runs the same tokens as [Parse]: its depth is the height of the stack. *)
Lemma well_formed_parse fuel d w depth stack : (remaining d < fuel)%nat → stack ≠ [] → (w = false → length stack = 1%nat) → depth + 1 = Z.of_nat (length stack) →
  well_formed_loop raw fuel d w depth = None → ∃ stack', parse_loop raw fuel d w stack = Ok stack'.
Proof.
  revert d w depth stack. induction fuel as [|fuel IH]; intros d w depth stack Hf Hne Hw Hd; [lia|]. cbn [parse_loop well_formed_loop].
  destruct (Token d) as [[t d']|[|]] eqn:Ht; [|by eexists|done]. apply Token_progress in Ht as (_ & Hr & _). cbn zeta.
  destruct t as [n attrs e|n|data| | |]; cbn [on_token]; try done.
  - destruct w; cbn [negb].
    + rewrite Hd. destruct (checkNestingDepth _); [|done]. cbn [negb rbind fst snd]. apply IH; [lia|done|done|cbn [length]; lia].
    + cbn [rbind fst snd]. apply IH; [lia|done|done|done].
  - destruct stack as [|el [|parent st]]; [done| |]; cbn [length] in Hd; cbn [rbind fst snd].
    + destruct (0 <? depth) eqn:E; [bool_hyps; lia|]. apply IH; [lia|done|done|cbn [length]; lia].
    + destruct (0 <? depth) eqn:E; [|bool_hyps; lia]. apply IH; [lia|done| |cbn [length]; lia].
      intros Hf'. by specialize (Hw Hf').
  - destruct stack as [|parent st]; [done|]. cbn [rbind fst snd]. by apply IH; [lia|..].
  - by apply IH; [lia|..].
Qed.
End parse_facts.

Lemma remaining_new s : remaining (new_decoder s) = (2 * length s)%nat.
Proof. unfold remaining. cbn. lia. Qed.

Lemma Parse_ok_spans raw root : Parse raw = Ok root →
  Start root = 0%nat ∧ End_ root = length raw ∧ in_order 0 (Children root) (length raw) ∧ Forall (λ c, Z.of_nat (depth c) ≤ MaxNestingDepth) (Children root) ∧
  ∀ fuel, (token_fuel raw ≤ fuel)%nat → ∃ stack, parse_loop raw fuel (new_decoder (wrap raw)) false [root_node] = Ok stack ∧ root = close_node (List.last stack root_node) (length raw).
Proof.
  unfold Parse. destruct (parse_loop _ _ _ _ _) as [stack|] eqn:Hp; [|done]. cbn [rbind]. intros [= <-].
  pose proof Hp as Hp'. apply parse_loop_ok in Hp' as (Hok & Hne & _ & _ & Hs); [|done| |done]; last first.
  { cbn. split_and!; [constructor; lia|done|constructor|done]. }
  apply stack_ok_root in Hok as [H1 H2]; [|done]. rewrite Hs in H1. split_and!; [done|done|done|by apply Forall_reverse|].
  intros fuel Hf. exists stack. split; [|done]. rewrite <- Hp. unfold token_fuel in *. apply parse_loop_fuel; rewrite remaining_new; lia.
Qed.

Lemma HasErrors_app a b : HasErrors (a ++ b) = HasErrors a || HasErrors b.
Proof. apply existsb_app. Qed.
Lemma HasErrors_concat {A} (f : A → list Problem) l : (∀ x, x ∈ l → HasErrors (f x) = false) → HasErrors (concat (map f l)) = false.
Proof.
  induction l as [|x l IH]; intros H; [done|]. cbn. rewrite HasErrors_app, H by apply list_elem_of_here. apply IH. intros. apply H. by apply list_elem_of_further.
Qed.
Lemma well_formed_error raw p : wellFormed raw = Some p → Severity p = SeverityError.
Proof.
  unfold wellFormed. generalize (token_fuel raw) (new_decoder (wrap raw)) false 0. intros fuel. induction fuel as [|fuel IH]; intros d w depth; [done|].
  cbn [well_formed_loop]. destruct (Token d) as [[t d']|[|]]; [|done|by intros [= <-]].
  destruct t; try (by intros [= <-]); try apply IH. destruct (negb w); [apply IH|]. destruct (negb _); [by intros [= <-]|apply IH].
Qed.
(** C27: a parsed body is a tree whose spans are in document order, disjoint and
    nested inside their parents and the raw bytes, with at most 1024 nested
    elements; the loop never runs out of fuel. *)
Theorem Parse_spans raw root : Parse raw = Ok root →
  Start root = 0%nat ∧ End_ root = length raw ∧ in_order 0 (Children root) (length raw) ∧ Forall (λ c, Z.of_nat (depth c) ≤ MaxNestingDepth) (Children root) ∧
  ∀ fuel, (token_fuel raw ≤ fuel)%nat → ∃ stack, parse_loop raw fuel (new_decoder (wrap raw)) false [root_node] = Ok stack ∧ root = close_node (List.last stack root_node) (length raw).
Proof. apply Parse_ok_spans. Qed.

Lemma sanity_warns root : HasErrors (sanity root) = false.
Proof.
  unfold sanity, collect. apply (walk_inv (λ ps, HasErrors ps = false)); [|done]. intros ps x Hps. cbn [fst]. rewrite HasErrors_app, Hps.
  unfold node_problems. rewrite !HasErrors_app. destruct (isMacroElement x), (_ && eqt (attrv x "ri" "filename") []);
    cbn; rewrite ?HasErrors_app; repeat case_match; done.
Qed.
Lemma invisibles_warns raw : HasErrors (invisibles raw) = false.
Proof. unfold invisibles. cbn. rewrite !HasErrors_app. by repeat case_match. Qed.
Lemma cloud_rec_warns p : ∀ n anc depth, HasErrors (cloud_rec p anc depth n) = false.
Proof.
  induction n as [t m a d s e cs IH] using node_ind'. intros anc depth. cbn [cloud_rec]. rewrite !HasErrors_app.
  rewrite HasErrors_concat; [|intros c Hc; rewrite Forall_forall in IH; by apply IH].
  destruct (isMacroElement _); cbn; rewrite ?HasErrors_app; repeat case_match; done.
Qed.
Lemma cloud_warns raw root : HasErrors (cloudCompat raw root) = false.
Proof. apply HasErrors_concat. intros. apply cloud_rec_warns. Qed.

(** ** Well-formedness, independently of the loop

    The tokens the decoder yields up to the end of the document, and what makes
    them a body: elements that nest and close by name, character data and
    comments, nothing else, and no more than so many levels. *)

Inductive tokens : decoder → list token → Prop :=
| tokens_end d : Token d = Err EOF → tokens d []
| tokens_next d t d' ts : Token d = Ok (t, d') → tokens d' ts → tokens d (t :: ts).

Inductive forest : nat → list token → Prop :=
| forest_nil levels : forest levels []
| forest_data levels data ts : forest levels ts → forest levels (CharData data :: ts)
| forest_comment levels ts : forest levels ts → forest levels (Comment :: ts)
| forest_element levels name attrs empty inner ts : forest levels inner → forest (S levels) ts →
    forest (S levels) (StartElement name attrs empty :: inner ++ EndElement name :: ts).

Definition root_name : Name := {| Space := []; Local_ := txt "root" |}.
(** The body in its wrapper, and what follows when the body closes that itself. *)
Definition well_formed_body (raw : text) : Prop :=
  ∃ inner rest, tokens (new_decoder (wrap raw)) (StartElement root_name [] false :: inner ++ EndElement root_name :: rest) ∧
    forest (Z.to_nat MaxNestingDepth) inner ∧ forest (Z.to_nat MaxNestingDepth) rest.

(** What is to come while elements are open: each with the levels allowed beside it. *)
Inductive closes : list (nat * Name) → nat → list token → Prop :=
| closes_all levels ts : forest levels ts → closes [] levels ts
| closes_one m name open levels inner ts : forest levels inner → closes open m ts → closes ((m, name) :: open) levels (inner ++ EndElement name :: ts).

Definition plain (t : token) : Prop := match t with CharData _ | Comment => True | _ => False end.

Lemma closes_plain t open levels ts : plain t → closes open levels (t :: ts) ↔ closes open levels ts.
Proof.
  intros Hp. split.
  - inversion 1 as [? ? Hf|m nm op ? inner ts' Hf Hc]; subst.
    + constructor. inversion Hf; subst; [done|done|by destruct Hp].
    + destruct inner as [|x inner]; cbn [app] in *; simplify_eq; [by destruct Hp|]. constructor; [|done]. inversion Hf; subst; [done|done|by destruct Hp].
  - inversion 1 as [? ? Hf|m nm op ? inner ts' Hf Hc]; subst; [constructor; by destruct t; try done; constructor|].
    rewrite app_comm_cons. constructor; [by destruct t; try done; constructor|done].
Qed.

Lemma closes_start name attrs empty open levels ts :
  closes open levels (StartElement name attrs empty :: ts) ↔ ∃ l, levels = S l ∧ closes ((levels, name) :: open) l ts.
Proof.
  split.
  - inversion 1 as [? ? Hf|m nm op ? inner ts' Hf Hc]; subst.
    + inversion Hf; subst. eexists. split; [done|]. constructor; [done|by constructor].
    + destruct inner as [|x inner]; cbn [app] in *; simplify_eq. inversion Hf; subst. eexists. split; [done|].
      rewrite <- app_assoc, <- app_comm_cons. constructor; [done|]. by constructor.
  - intros (l & -> & Hc). inversion Hc as [|m nm op ? inner ts' Hf Hc']; subst.
    inversion Hc' as [? ? Hf'|m nm op' ? inner' ts'' Hf' Hc'']; subst; [constructor; by constructor|].
    replace (StartElement name attrs empty :: inner ++ EndElement name :: inner' ++ EndElement nm :: ts'')
      with ((StartElement name attrs empty :: inner ++ EndElement name :: inner') ++ EndElement nm :: ts'') by (cbn; by rewrite <- app_assoc).
    constructor; [by constructor|done].
Qed.

Lemma closes_end name open levels ts : closes open levels (EndElement name :: ts) ↔ ∃ m open', open = (m, name) :: open' ∧ closes open' m ts.
Proof.
  split.
  - inversion 1 as [? ? Hf|m nm op ? inner ts' Hf Hc]; subst; [inversion Hf|].
    destruct inner as [|x inner]; cbn [app] in *; simplify_eq; [by eexists _, _|inversion Hf].
  - intros (m & open' & -> & Hc). apply (closes_one m name open' levels [] ts); [constructor|done].
Qed.

Lemma closes_never t open levels ts : t = ProcInst ∨ t = Directive → ¬ closes open levels (t :: ts).
Proof.
  intros Ht. inversion 1 as [? ? Hf|m nm op ? inner ts' Hf Hc]; subst; [inversion Hf; subst; naive_solver|].
  destruct inner as [|x inner]; cbn [app] in *; simplify_eq; [naive_solver|inversion Hf; subst; naive_solver].
Qed.

Lemma closes_nil open levels : closes open levels [] ↔ open = [].
Proof. split; [inversion 1; [done|by destruct inner]|intros ->; do 2 constructor]. Qed.

(** The names the decoder will close its open elements with. *)
Fixpoint open_names (bindings : gmap text text) (stack : list frame) : list Name :=
  match stack with [] => [] | f :: stack => translate bindings true (raw_name f) :: open_names (saved f) stack end.

Lemma Token_names d t d' : Token d = Ok (t, d') →
  match t with
  | StartElement name _ _ => open_names (ns d') (stk d') = name :: open_names (ns d) (stk d)
  | EndElement name => open_names (ns d) (stk d) = name :: open_names (ns d') (stk d')
  | _ => open_names (ns d') (stk d') = open_names (ns d) (stk d)
  end.
Proof.
  assert (∀ rest n, end_element d rest n = Ok (t, d') → ∃ name, t = EndElement name ∧ open_names (ns d) (stk d) = name :: open_names (ns d') (stk d')) as Hend.
  { intros rest n. unfold end_element. destruct (stk d) as [|f st]; [done|]. case_bool_decide as Hn; [|done]. intros [= <- <-]. rewrite <- Hn. by eexists. }
  unfold Token. destruct (to_close d) as [n|]; [intros (name & -> & ?)%Hend; done|]. destruct (input d); [done|].
  destruct (raw_token _) as [[[n attrs e|n|data| | |] rest]|]; [|intros (name & -> & ?)%Hend; done|..]; try done; by intros [= <- <-].
Qed.
Lemma Token_eof d : Token d = Err EOF → stk d = [].
Proof.
  assert (∀ rest n, end_element d rest n ≠ Err EOF) as Hend by (intros rest n; unfold end_element; destruct (stk d); [done|]; by case_bool_decide).
  unfold Token. destruct (to_close d) as [n|]; [by intros ?%Hend|]. destruct (input d); [by destruct (stk d)|].
  destruct (raw_token _) as [[[n attrs e|n|data| | |] rest]|]; try done. by intros ?%Hend.
Qed.

(** The levels allowed beside the open elements: the wrapper takes none. *)
Inductive budget : nat → list nat → Prop :=
| budget_after : budget (Z.to_nat MaxNestingDepth) []
| budget_wrapper : budget (Z.to_nat MaxNestingDepth) [Z.to_nat MaxNestingDepth]
| budget_open levels l : budget (S levels) l → budget levels (S levels :: l).

Lemma budget_le n l : budget n l → (n ≤ Z.to_nat MaxNestingDepth)%nat.
Proof. induction 1; lia. Qed.
Lemma budget_close n m l : budget n (m :: l) → budget m l ∧ (m = S n ∨ (m = n ∧ n = Z.to_nat MaxNestingDepth)).
Proof. inversion 1; subst; [by split; [constructor|right]|by split; [|left]]. Qed.

(** The loop after the wrapper's start tag: it accepts when what is to come
    closes what is open. *)
Definition expects (open : list (nat * Name)) (levels : nat) (depth : Z) (d : decoder) : Prop :=
  open.*2 = open_names (ns d) (stk d) ∧ budget levels open.*1 ∧ depth = MaxNestingDepth - Z.of_nat levels.

Lemma expects_plain open levels depth d t d' : Token d = Ok (t, d') → plain t → expects open levels depth d → expects open levels depth d'.
Proof. intros Ht%Token_names Hp (H1 & H2 & H3). split_and!; [|done|done]. by destruct t; try done; rewrite Ht. Qed.
Lemma expects_start open levels depth d name attrs empty d' : Token d = Ok (StartElement name attrs empty, d') →
  expects open (S levels) depth d → expects ((S levels, name) :: open) levels (depth + 1) d'.
Proof. intros Ht%Token_names (H1 & H2 & H3). unfold expects. rewrite !fmap_cons. cbn [fst snd]. rewrite Ht, H1. split_and!; [done|by constructor|lia]. Qed.
Lemma expects_end open levels depth d name d' : Token d = Ok (EndElement name, d') → expects open levels depth d →
  ∃ m open', open = (m, name) :: open' ∧ expects open' m (if 0 <? depth then depth - 1 else depth) d'.
Proof.
  intros Ht%Token_names (H1 & H2 & H3). rewrite Ht in H1. destruct open as [|[m nm] open']; [done|]. rewrite !fmap_cons in *. cbn [fst snd] in *.
  injection H1 as -> H1. apply budget_close in H2 as [H2 Hm]. exists m, open'. split; [done|]. split_and!; [done|done|].
  pose proof (budget_le _ _ H2). unfold MaxNestingDepth in *. destruct Hm as [->|[-> ->]], (0 <? depth) eqn:E; bool_hyps; lia.
Qed.

Lemma well_formed_tokens raw fuel d depth open levels : (remaining d < fuel)%nat → expects open levels depth d →
  well_formed_loop raw fuel d true depth = None → ∃ ts, tokens d ts ∧ closes open levels ts.
Proof.
  revert d depth open levels. induction fuel as [|fuel IH]; intros d depth open levels Hf Hex; [lia|]. cbn [well_formed_loop negb].
  destruct (Token d) as [[t d']|[|]] eqn:Ht; [|intros _|done]; last first.
  { exists []. split; [by constructor|]. apply closes_nil. destruct Hex as [Hn _]. rewrite (Token_eof d Ht) in Hn. by destruct open. }
  pose proof (Token_progress _ _ _ Ht) as (_ & Hr & _).
  assert (∀ open' levels' depth', expects open' levels' depth' d' → (∀ ts, closes open' levels' ts → closes open levels (t :: ts)) →
    well_formed_loop raw fuel d' true depth' = None → ∃ ts, tokens d ts ∧ closes open levels ts) as Hstep.
  { intros open' levels' depth' Hex' Hc Hw. destruct (IH d' depth' open' levels' ltac:(lia) Hex' Hw) as (ts & Hts & Hcl). exists (t :: ts). split; [by econstructor|by apply Hc]. }
  destruct t as [name attrs empty|name|data| | |]; [| |..|done|done].
  - unfold checkNestingDepth. destruct (depth + 1 <=? MaxNestingDepth) eqn:Hd; [|done]. cbn [negb]. bool_hyps.
    destruct levels as [|levels]; [destruct Hex as (_ & _ & ->); lia|]. eapply Hstep; [by eapply expects_start|]. intros ts Hc. apply closes_start. by eexists.
  - destruct (expects_end _ _ _ _ _ _ Ht Hex) as (m & open' & -> & Hex'). eapply Hstep; [exact Hex'|]. intros ts Hc. apply closes_end. by eexists _, _.
  - eapply Hstep; [by eapply expects_plain|]. intros ts Hc. by apply closes_plain.
  - eapply Hstep; [by eapply expects_plain|]. intros ts Hc. by apply closes_plain.
Qed.

Lemma tokens_well_formed raw d ts : tokens d ts → ∀ fuel depth open levels, expects open levels depth d → closes open levels ts →
  well_formed_loop raw fuel d true depth = None.
Proof.
  induction 1 as [d Ht|d t d' ts Ht _ IH]; intros [|fuel] depth open levels Hex Hc; [done| |done|]; cbn [well_formed_loop negb]; rewrite Ht; [done|].
  destruct t as [name attrs empty|name|data| | |].
  - apply closes_start in Hc as (l & -> & Hc). pose proof Hex as (_ & _ & Hd). unfold checkNestingDepth.
    rewrite (proj2 (Z.leb_le _ _)) by lia. cbn [negb]. eapply IH; [by eapply expects_start|exact Hc].
  - apply closes_end in Hc as (m & open' & -> & Hc). destruct (expects_end _ _ _ _ _ _ Ht Hex) as (m' & open'' & [= <- <-] & Hex'). by eapply IH.
  - apply closes_plain in Hc; [|done]. eapply IH; [by eapply expects_plain|exact Hc].
  - apply closes_plain in Hc; [|done]. eapply IH; [by eapply expects_plain|exact Hc].
  - exfalso. eapply closes_never; [|exact Hc]. by left.
  - exfalso. eapply closes_never; [|exact Hc]. by right.
Qed.

(** The first token is the wrapper's start tag. *)
Lemma Token_wrapper raw : Token (new_decoder (wrap raw)) =
  Ok (StartElement root_name [] false, {| input := raw ++ root_close; stk := [{| raw_name := root_name; saved := ∅ |}]; ns := ∅; to_close := None |}).
Proof. reflexivity. Qed.

Lemma wellFormed_body raw : wellFormed raw = None ↔ well_formed_body raw.
Proof.
  unfold wellFormed, well_formed_body. set (levels := Z.to_nat MaxNestingDepth).
  assert (∃ f, token_fuel raw = S f ∧ (2 * length (raw ++ root_close) < f)%nat) as (f & -> & Hf).
  { unfold token_fuel, wrap. rewrite !length_app. eexists. split; [reflexivity|]. cbn. lia. }
  cbn [well_formed_loop]. rewrite Token_wrapper. cbn [negb]. set (d := {| input := _; stk := _; ns := _; to_close := _ |}).
  assert (expects [(levels, root_name)] levels 0 d) as Hex by (split_and!; [done|apply budget_wrapper|done]).
  split.
  - intros Hw. destruct (well_formed_tokens raw f d 0 [(levels, root_name)] levels) as (ts & Hts & Hc); [unfold remaining, d; cbn [input to_close]; lia|done|done|].
    inversion Hc as [|m nm op ? inner rest Hi Hr]; subst. inversion Hr; subst. exists inner, rest. split; [|done]. econstructor; [apply Token_wrapper|done].
  - intros (inner & rest & Hts & Hi & Hr). inversion Hts as [|? ? d' ? Ht Hts']; subst. rewrite Token_wrapper in Ht. injection Ht as <-.
    eapply tokens_well_formed; [exact Hts'|exact Hex|]. constructor; [done|by constructor].
Qed.

(** C26: the push gate reports no error exactly for the well-formed bodies: in the
    wrapper the body's tokens nest and close by name, hold nothing but elements,
    character data and comments, and stay within 1024 levels, whichever optional
    rules run.  What follows counts only for a body that closes the wrapper itself,
    which the code lets pass when what follows is well formed too
    ([escaped_wrapper]).  Such a body parses, into a tree whose spans are in order
    and whose nesting is within the limit. *)
Theorem Validate_gate raw cloud :
  (HasErrors (ValidateWithOptions raw cloud) = false ↔ well_formed_body raw) ∧
  (well_formed_body raw → ∃ root, Parse raw = Ok root ∧ in_order 0 (Children root) (length raw) ∧ Forall (λ c, Z.of_nat (depth c) ≤ MaxNestingDepth) (Children root)).
Proof.
  rewrite <- wellFormed_body.
  assert (wellFormed raw = None → ∃ root, Parse raw = Ok root) as Hparse.
  { intros Hw. apply (well_formed_parse _ _ _ _ _ [root_node]) in Hw as [stack Hp]; [|unfold token_fuel; rewrite remaining_new; lia|done..].
    unfold Parse. rewrite Hp. by eexists. }
  split.
  - unfold ValidateWithOptions. destruct (wellFormed raw) as [p|] eqn:Hw.
    + split; [|done]. pose proof (well_formed_error raw p Hw) as Hp. unfold HasErrors. cbn. by rewrite bool_decide_true.
    + split; [done|]. intros _. destruct (Hparse eq_refl) as [root ->]. rewrite !HasErrors_app, sanity_warns, invisibles_warns. cbn.
      destruct cloud; [apply cloud_warns|done].
  - intros Hw. destruct (Hparse Hw) as [root Hp]. exists root. split; [done|]. by apply Parse_ok_spans in Hp as (_ & _ & ? & ? & _).
Qed.

(** ** Source positions *)

Lemma newline_offsets_bounds i raw : Forall (λ x, (i ≤ x < i + length raw)%nat) (newline_offsets i raw).
Proof.
  revert i. induction raw as [|c raw IH]; intros i; [constructor|]. cbn [newline_offsets length]. apply Forall_app. split.
  - destruct (is_byte newline c); repeat constructor; lia.
  - eapply Forall_impl; [apply IH|]. cbn. intros; lia.
Qed.
Lemma newline_offsets_app i a b : newline_offsets i (a ++ b) = newline_offsets i a ++ newline_offsets (i + length a) b.
Proof.
  revert i. induction a as [|c a IH]; intros i; cbn; [by rewrite Nat.add_0_r|]. rewrite IH, <- app_assoc. by rewrite <- Nat.add_succ_comm.
Qed.
Lemma line_col_app a b line col : line_col (a ++ b) line col = let p := line_col a line col in line_col b p.1 p.2.
Proof. revert line col. induction a as [|c a IH]; intros line col; [done|]. cbn. by destruct (is_byte newline c). Qed.

(** Where the line of the last byte starts. *)
Definition line_start (offsets : list nat) : nat := match last offsets with Some i => S i | None => O end.
Lemma line_col_offsets s : line_col s 1 1 = (S (length (newline_offsets 0 s)), S (length s - line_start (newline_offsets 0 s))) ∧ (line_start (newline_offsets 0 s) ≤ length s)%nat.
Proof.
  induction s as [|c s IH] using rev_ind; [done|]. destruct IH as [IH Hle]. rewrite line_col_app, IH. cbn [fst snd line_col].
  rewrite newline_offsets_app, !length_app. cbn [newline_offsets length]. destruct (is_byte newline c); cbn [app length].
  - unfold line_start. rewrite last_snoc. split; [f_equal; lia|lia].
  - rewrite app_nil_r, Nat.add_0_r. split; [f_equal; lia|lia].
Qed.

Lemma sorted_split_search (a b : list nat) off : Forall (λ x, (x < off)%nat) a → Forall (λ x, (off ≤ x)%nat) b →
  sort_search (length (a ++ b)) (λ i, (off <=? default O ((a ++ b) !! i))%nat) = length a.
Proof.
  intros Ha Hb. rewrite Forall_lookup in Ha, Hb. set (f := λ i, _).
  assert (∀ k, (k < length a)%nat → f k = false) as Hlt.
  { intros k Hk. unfold f. rewrite lookup_app_l by done. destruct (lookup_lt_is_Some_2 a k Hk) as [x Hx]. rewrite Hx. cbn. apply Nat.leb_gt. by eapply Ha. }
  assert (∀ k, (length a ≤ k < length (a ++ b))%nat → f k = true) as Hge.
  { intros k Hk. unfold f. rewrite lookup_app_r by lia. rewrite length_app in Hk.
    destruct (lookup_lt_is_Some_2 b (k - length a) ltac:(lia)) as [x Hx]. rewrite Hx. cbn. apply Nat.leb_le. by eapply Hb. }
  destruct (sort_search_spec (length (a ++ b)) f) as (H1 & H2 & H3).
  { intros x y Hxy Hx. destruct (decide (x < length a)%nat); [by rewrite Hlt in Hx|]. apply Hge. lia. }
  pose proof (length_app a b). destruct (lt_eq_lt_dec (sort_search (length (a ++ b)) f) (length a)) as [[Hc|Hc]|Hc]; [|done|].
  - specialize (H3 ltac:(lia)). by rewrite Hlt in H3.
  - specialize (H2 _ Hc). rewrite Hge in H2 by lia. done.
Qed.

(** The newline index with its bisection gives every offset of the body the
    position the scan from the first byte gives, and no other offset one. *)
Theorem positions_exact raw off :
  positions_lineCol (newSourcePositions raw) off = if (off <=? length raw)%nat then Some (lineCol raw off) else None.
Proof.
  unfold positions_lineCol, lineCol. cbn [rawLen newlines newSourcePositions].
  destruct (length raw <? off)%nat eqn:E; bool_hyps; [by rewrite (proj2 (Nat.leb_gt _ _))|]. rewrite (proj2 (Nat.leb_le _ _)) by done.
  pose proof (line_col_offsets (take off raw)) as [Hlc Hle]. rewrite Hlc.
  pose proof (newline_offsets_app 0 (take off raw) (drop off raw)) as Happ. rewrite take_drop, length_take, Nat.min_l in Happ by done.
  rewrite length_take, Nat.min_l in Hle |- * by done. rewrite Happ, sorted_split_search.
  - do 3 f_equal. unfold line_start. rewrite last_lookup. destruct (newline_offsets 0 (take off raw)) as [|x l] eqn:Hl; [done|].
    cbn [length pred]. rewrite lookup_app_l by (cbn; lia). destruct (lookup_lt_is_Some_2 (x :: l) (length l) ltac:(cbn; lia)) as [y Hy]. by rewrite Hy.
  - eapply Forall_impl; [apply newline_offsets_bounds|]. rewrite length_take. cbn. intros; lia.
  - eapply Forall_impl; [apply newline_offsets_bounds|]. cbn. intros; lia.
Qed.

(** ** Reconciliation *)

Lemma start_tag_end_bound raw i q before j b : start_tag_end raw i q before = Some (j, b) → (i ≤ j < i + length raw)%nat ∧ raw !! (j - i)%nat = Some ">"%char.
Proof.
  revert i q before. induction raw as [|v raw IH]; intros i q before; [done|]. cbn [start_tag_end length].
  assert (∀ q before, start_tag_end raw (S i) q before = Some (j, b) → (i ≤ j < i + S (length raw))%nat ∧ (v :: raw) !! (j - i)%nat = Some ">"%char) as Hrec.
  { intros q' b' H. apply IH in H as [H1 H2]. split; [lia|]. by replace (j - i)%nat with (S (j - S i)) by lia. }
  destruct q; [apply Hrec|]. destruct (_ || _); [apply Hrec|]. destruct (is_byte ">"%char v) eqn:Hv; [|apply Hrec].
  intros [= <- _]. rewrite Nat.sub_diag. unfold is_byte in Hv. bool_hyps. subst. split; [lia|done].
Qed.
Lemma last_index_bound s p i : last_index s p = Some i → (i ≤ length s)%nat ∧ has_prefix (drop i s) p = true.
Proof.
  revert i. induction s as [|c s IH]; intros i; cbn [last_index].
  - destruct (eqt p []) eqn:E; [|done]. apply eqt_true in E as ->. by intros [= <-].
  - destruct (last_index s p) as [j|]; [intros [= <-]; destruct (IH j eq_refl); cbn; split; [lia|done]|].
    destruct (has_prefix (c :: s) p) eqn:E; [|done]. intros [= <-]. split; [lia|done].
Qed.

(** The markers with a reference, in document order. *)
Definition markers_of (ref : text) (root : Node) : list Node := collect (λ n, if marker_with ref n then [n] else []) root.

(** A read-back is only accepted when it is the earlier body with one marker
    wrapped around the selection: both bodies parse, the earlier one has no marker
    with the reference, the later one exactly one, that marker's text is the
    selection, and removing its two tags gives back every byte. *)
Theorem Reconcile_sound before after markerRef selection :
  ReconcileInlineCommentMarkerInsertion before after markerRef selection = Ok true →
  ∃ pre tag inner close post rb ra marker,
    after = pre ++ tag ++ inner ++ close ++ post ∧ before = pre ++ inner ++ post ∧
    last tag = Some ">"%char ∧ trim_space close = txt "</ac:inline-comment-marker>" ∧
    Parse before = Ok rb ∧ Parse after = Ok ra ∧ markers_of markerRef rb = [] ∧ markers_of markerRef ra = [marker] ∧ content marker = selection ∧
    Start marker = length pre ∧ End_ marker = length (pre ++ tag ++ inner ++ close).
Proof.
  unfold ReconcileInlineCommentMarkerInsertion. destruct (_ || _); [done|].
  destruct (Parse before) as [rb|] eqn:Hb; [|done]. destruct (Parse after) as [ra|] eqn:Ha; [|done].
  destruct (negb _) eqn:Hc; [done|]. bool_hyps. apply nil_length_inv in Hc. fold (markers_of markerRef ra).
  destruct (markers_of markerRef ra) as [|m [|]] eqn:Hm; [done| |done].
  destruct (negb (eqt (content m) selection)) eqn:Hsel; [done|]. destruct (_ || _) eqn:Hr; [done|]. cbn zeta.
  destruct (inlineMarkerStartTagEnd _) as [o|] eqn:Ho; [|done]. destruct (last_index _ _) as [k|] eqn:Hk; [|done].
  destruct (_ || negb (eqt (trim_space _) _)) eqn:Ht; [done|]. intros [= Heq]. apply eqt_true in Heq. bool_hyps.
  set (outer := slice after (Start m) (End_ m)) in *.
  assert (length outer = End_ m - Start m)%nat as Hlen by (apply slice_length; lia).
  unfold inlineMarkerStartTagEnd in Ho. destruct (start_tag_end outer 0 None None) as [[o' [|]]|] eqn:Hse; try done. injection Ho as ->.
  apply start_tag_end_bound in Hse as [Hob Hgt]. rewrite Nat.sub_0_r in Hgt. apply last_index_bound in Hk as [Hkb _].
  exists (take (Start m) after), (take (S o) outer), (slice outer (S o) k), (drop k outer), (drop (End_ m) after), rb, ra, m.
  assert (take (S o) outer ++ slice outer (S o) k ++ drop k outer = outer) as Hout by (apply slice_cover; lia).
  split_and!; try done.
  - transitivity (take (Start m) after ++ outer ++ drop (End_ m) after); [symmetry; apply slice_cover; lia|]. f_equal.
    rewrite <- Hout at 1. by rewrite <- !app_assoc.
  - rewrite last_lookup, length_take, Nat.min_l by lia. cbn [pred]. by rewrite lookup_take_lt by lia.
  - by apply eqt_true.
  - by apply eqt_true.
  - rewrite length_take. lia.
  - rewrite Hout, length_app, length_take, Hlen. lia.
Qed.

(** ** Examples *)

Module Demo.
Definition body : text := txt "<p>a <b>x&nbsp;y</b></p><ac:structured-macro ac:name='code'><ac:plain-text-body><![CDATA[a]]b>]]></ac:plain-text-body></ac:structured-macro><br/>".
Definition shape (n : Node) : list (text * nat * nat) := collect (λ n, [(name_string (Name_ n), Start n, End_ n)]) n.
Example csf_parse_demo : (λ r, (shape r, TextContent r)) <$> match Parse body with Ok r => Some r | Err _ => None end =
  Some ([(txt "root", 0, 145); (txt "p", 0, 24); (txt "b", 5, 20); (txt "ac:structured-macro", 24, 140); (txt "ac:plain-text-body", 60, 118); (txt "br", 140, 145)]%nat,
        txt "a x" ++ ["194"%char; "160"%char] ++ txt "ya]]b>").
Proof. vm_compute. reflexivity. Qed.

(** A body that closes the wrapper itself: it is not well formed on its own, but
    nothing is reported. *)
Example escaped_wrapper : Validate (txt "a</root><root>b") = [] ∧ is_ok (Parse (txt "a</root><root>b")) = true ∧
  Validate (txt "<p>x</q>") = [{| Severity := SeverityError; Line := 1; Col := 9; Rule := "well-formedness" |}].
Proof. vm_compute. done. Qed.

Definition marked : text := txt "<p>a <ac:inline-comment-marker ac:ref='r1'>b</ac:inline-comment-marker> c</p>".
Lemma Reconcile_sound_witness : ∃ pre tag inner close post, marked = pre ++ tag ++ inner ++ close ++ post ∧ txt "<p>a b c</p>" = pre ++ inner ++ post.
Proof.
  assert (ReconcileInlineCommentMarkerInsertion (txt "<p>a b c</p>") marked (txt "r1") (txt "b") = Ok true) as H by (vm_compute; reflexivity).
  destruct (Reconcile_sound _ _ _ _ H) as (pre & tag & inner & close & post & rb & ra & m & H1 & H2 & _).
  exists pre, tag, inner, close, post. exact (conj H1 H2).
Defined.
Lemma Parse_spans_witness : ∃ root, Parse body = Ok root ∧ in_order 0 (Children root) (length body).
Proof.
  destruct (Parse body) as [root|] eqn:H; [|by vm_compute in H]. exists root. split; [done|]. by destruct (Parse_spans body root H) as (_ & _ & ? & _).
Defined.
(** The tokens of a short body, by running the decoder. *)
Fixpoint token_list (fuel : nat) (d : decoder) : option (list token) :=
  match fuel with
  | O => None
  | S fuel => match Token d with
              | Ok (t, d') => cons t <$> token_list fuel d'
              | Err EOF => Some []
              | Err _ => None
              end
  end.
Lemma token_list_tokens fuel d ts : token_list fuel d = Some ts → tokens d ts.
Proof.
  revert d ts. induction fuel as [|fuel IH]; intros d ts; [done|]. cbn [token_list]. destruct (Token d) as [[t d']|[|]] eqn:Ht; [|intros [= <-]; by constructor|done].
  destruct (token_list fuel d') as [ts'|] eqn:Hl; [|done]. intros [= <-]. econstructor; [exact Ht|by apply IH].
Qed.

Definition short : text := txt "a<p>b<br/></p><!-- c -->".
Definition n (s : string) : Name := {| Space := []; Local_ := txt s |}.
Lemma short_body : well_formed_body short.
Proof.
  exists [CharData (txt "a"); StartElement (n "p") [] false; CharData (txt "b"); StartElement (n "br") [] true; EndElement (n "br"); EndElement (n "p"); Comment], [].
  split; [apply (token_list_tokens 20); by vm_compute|]. split; [|constructor].
  assert (∀ l, forest (S (S l)) [CharData (txt "a"); StartElement (n "p") [] false; CharData (txt "b"); StartElement (n "br") [] true; EndElement (n "br"); EndElement (n "p"); Comment]) as H.
  { intros l. constructor. apply (forest_element (S l) (n "p") [] false [CharData (txt "b"); StartElement (n "br") [] true; EndElement (n "br")] [Comment]).
    - constructor. apply (forest_element l (n "br") [] true [] []); constructor.
    - do 2 constructor. }
  apply (H 1022%nat).
Qed.

Lemma Validate_gate_witness : HasErrors (ValidateWithOptions short true) = false ∧
  (∃ root, Parse short = Ok root ∧ in_order 0 (Children root) (length short)) ∧
  ¬ well_formed_body (txt "<p>x</q>") ∧ ¬ well_formed_body (txt "<?x y?>").
Proof.
  destruct (Validate_gate short true) as [Hi Hp]. destruct (Hp short_body) as (root & Hr & Ho & _).
  split; [apply Hi, short_body|]. split; [by exists root|].
  split; intros Hb; [apply (proj1 (Validate_gate (txt "<p>x</q>") true)) in Hb|apply (proj1 (Validate_gate (txt "<?x y?>") true)) in Hb]; by vm_compute in Hb.
Defined.
End Demo.
End Csf.
