(* ===== verification/Fragment.v ===== *)
(** * Opaque fragments of a body (internal/fragment/fragment.go)

    What a body refers to but the Markdown view cannot carry: diagrams, users,
    pages, attachments and images.  Fetching a render and resolving a user are the
    caller's capabilities: parameters that thread a state of their own. *)

From S2P Require Import Prelude GoText Csf.
From S2P Require Xml.
Import GoText.
Import Csf.

Module Fragment.

(** ** References (domain/resource.go) *)

Definition RefDrawio : text := txt "drawio".
Definition RefUser : text := txt "user".
Definition RefAttachment : text := txt "attachment".
Definition RefPageLink : text := txt "page-link".
Definition RefImage : text := txt "image".
Record Ref := { Kind : text; Key : text; Display : text; Asset : text; Params : list (text * text) }.
#[export] Instance Ref_eq : EqDecision Ref. Proof. solve_decision. Defined.
Definition plain_ref (kind key display : text) : Ref := {| Kind := kind; Key := key; Display := display; Asset := []; Params := [] |}.
Definition identity (r : Ref) : text * text := (Kind r, Key r).

(** ** Extraction *)

Definition params : Node → gmap text text := macroParams.
Definition descendantAttachment (n : Node) : text :=
  walk (λ fn x, (if named "ri" "attachment" x && eqt fn [] then attrv x "ri" "filename" else fn, true)) [] n.
Definition first_of (a b : text) : text := if eqt a [] then b else a.

(** What one element adds, and whether the walk goes on below it. *)
Definition detect (n : Node) : option Ref * bool :=
  if eqt (MacroName n) (txt "drawio") then
    let p := params n in
    let name := default [] (p !! txt "diagramName") in
    (Some {| Kind := RefDrawio; Key := name; Display := name; Asset := [];
             Params := [(txt "diagramName", name); (txt "revision", default [] (p !! txt "revision"))] |}, false)
  else if named "ac" "image" n then
    let fn := descendantAttachment n in (if eqt fn [] then None else Some (plain_ref RefImage fn fn), false)
  else if named "ri" "user" n then
    let key := first_of (attrv n "ri" "userkey") (attrv n "ri" "account-id") in (Some (plain_ref RefUser key (txt "@" ++ key)), true)
  else if named "ri" "page" n then let title := attrv n "ri" "content-title" in (Some (plain_ref RefPageLink title title), true)
  else if named "ri" "attachment" n then let fn := attrv n "ri" "filename" in (Some (plain_ref RefAttachment fn fn), true)
  else (None, true).
(** [seen] is the set of references already listed, by kind and key. *)
Definition add (refs : list Ref) (r : Ref) : list Ref :=
  if eqt (Key r) [] || existsb (λ x, bool_decide (identity x = identity r)) refs then refs else refs ++ [r].
Definition Extract (root : Node) : list Ref :=
  walk (λ refs n, let '(found, descend) := detect n in (match found with Some r => add refs r | None => refs end, descend)) [] root.

(** ** Resolution *)

Section resolve.
Context {S : Type}.
(** The bytes and file name of a render; [None] is an error. *)
Variable Assets_Resolver : option (S → Ref → S * option (text * text)).
Variable Assets_Put : option (S → text → text → S * option text).
Variable Users : option (S → text → S * option text).

Definition with_asset (r : Ref) (rel : text) : Ref := {| Kind := Kind r; Key := Key r; Display := Display r; Asset := rel; Params := Params r |}.
Definition with_display (r : Ref) (name : text) : Ref := {| Kind := Kind r; Key := Key r; Display := name; Asset := Asset r; Params := Params r |}.

Definition resolve_asset (s : S) (r : Ref) : S * Ref :=
  match Assets_Resolver, Assets_Put with
  | Some resolve, Some put =>
      match resolve s r with
      | (s, Some (data, filename)) =>
          if eqt data [] then (s, r)
          else match put s filename data with (s, Some rel) => (s, with_asset r rel) | (s, None) => (s, r) end
      | (s, None) => (s, r)
      end
  | _, _ => (s, r)
  end.
Definition resolve_user (s : S) (userCache : gmap text text) (r : Ref) : S * gmap text text * Ref :=
  match Users with
  | None => (s, userCache, r)
  | Some users =>
      match userCache !! Key r with
      | Some name => (s, userCache, with_display r name)
      | None => match users s (Key r) with
                | (s, Some name) => if eqt name [] then (s, userCache, r) else (s, <[Key r := name]> userCache, with_display r name)
                | (s, None) => (s, userCache, r)
                end
      end
  end.
Fixpoint resolve_loop (s : S) (userCache : gmap text text) (refs : list Ref) : S * list Ref :=
  match refs with
  | [] => (s, [])
  | r :: refs =>
      let '(s, userCache, r) :=
        if eqt (Kind r) RefDrawio || eqt (Kind r) RefImage then let '(s, r) := resolve_asset s r in (s, userCache, r)
        else if eqt (Kind r) RefUser then resolve_user s userCache r
        else (s, userCache, r) in
      let '(s, refs) := resolve_loop s userCache refs in (s, r :: refs)
  end.
Definition Resolve (s : S) (refs : list Ref) : S * list Ref := resolve_loop s ∅ refs.


(** Resolution changes what is displayed, never what is referred to. *)
Lemma resolve_loop_identity rs : ∀ s cache, identity <$> (resolve_loop s cache rs).2 = identity <$> rs.
Proof.
  induction rs as [|r rs IH]; intros s cache; [done|]. cbn [resolve_loop].
  set (step := if eqt (Kind r) RefDrawio || eqt (Kind r) RefImage then _ else _).
  assert (identity step.2 = identity r) as Hstep.
  { unfold step, resolve_asset, resolve_user. repeat case_match; simplify_eq; done. }
  destruct step as [[s' cache'] r']. cbn in Hstep. specialize (IH s' cache'). destruct (resolve_loop s' cache' rs) as [s'' rs'].
  cbn in *. by rewrite Hstep, IH.
Qed.
End resolve.

(** ** What extraction finds *)

Definition found (n : Node) : option Ref := (detect n).1.
Definition descends (n : Node) : bool := (detect n).2.
Definition collect_step (refs : list Ref) (n : Node) : list Ref := match found n with Some r => add refs r | None => refs end.
Lemma Extract_fold root : Extract root = fold_left collect_step (visited descends root) [].
Proof. apply walk_visited. intros s n. unfold collect_step, found, descends. by destruct (detect n). Qed.

Lemma add_spec refs r k : k ∈ identity <$> add refs r ↔ k ∈ identity <$> refs ∨ (k = identity r ∧ Key r ≠ []).
Proof.
  unfold add. destruct (eqt (Key r) []) eqn:E; cbn [orb].
  - apply eqt_true in E. rewrite E. naive_solver.
  - apply eqt_false in E. destruct (existsb _ refs) eqn:Ex.
    + apply existsb_exists in Ex as (x & Hx & Hid). apply bool_decide_eq_true in Hid. apply list_elem_of_In in Hx.
      split; [auto|]. intros [?|[-> _]]; [done|]. rewrite <- Hid. by apply list_elem_of_fmap_2.
    + rewrite fmap_app, elem_of_app. cbn. rewrite list_elem_of_singleton. naive_solver.
Qed.
Lemma add_nodup refs r : NoDup (identity <$> refs) → NoDup (identity <$> add refs r).
Proof.
  intros H. unfold add. destruct (_ || _) eqn:E; [done|]. bool_hyps. rewrite fmap_app. apply NoDup_app. split_and!; [done| |apply NoDup_singleton].
  intros k Hk. cbn. rewrite list_elem_of_singleton. intros ->. apply list_elem_of_fmap in Hk as (x & Hid & Hx).
  match goal with H : existsb _ _ = false |- _ => apply not_true_iff_false in H; apply H, existsb_exists; exists x end.
  split; [by apply list_elem_of_In|]. by apply bool_decide_eq_true.
Qed.
Lemma collect_fold ns refs : NoDup (identity <$> refs) →
  NoDup (identity <$> fold_left collect_step ns refs) ∧
  ∀ k, k ∈ identity <$> fold_left collect_step ns refs ↔ k ∈ identity <$> refs ∨ ∃ n r, n ∈ ns ∧ found n = Some r ∧ identity r = k ∧ Key r ≠ [].
Proof.
  revert refs. induction ns as [|n ns IH]; intros refs Hnd; cbn [fold_left].
  - split; [done|]. intros k. split; [auto|]. intros [?|(n & r & Hn & _)]; [done|]. by apply elem_of_nil in Hn.
  - assert (NoDup (identity <$> collect_step refs n)) as Hnd' by (unfold collect_step; destruct (found n); [by apply add_nodup|done]).
    destruct (IH _ Hnd') as [H1 H2]. split; [done|]. intros k. rewrite H2. unfold collect_step. clear.
    setoid_rewrite elem_of_cons. destruct (found n) as [r|] eqn:Hf; [rewrite add_spec|]; split; naive_solver.
Qed.

(** Extraction lists each reference once and every one a visited element makes:
    a reference is listed exactly when it has a key and some element outside the
    internals of diagrams and images refers to it, and resolving the list keeps
    the references and their order whatever the capabilities answer. *)
Theorem Extract_exact root :
  NoDup (identity <$> Extract root) ∧
  (∀ kind key, (kind, key) ∈ identity <$> Extract root ↔
    key ≠ [] ∧ ∃ n r, n ∈ visited descends root ∧ found n = Some r ∧ identity r = (kind, key)) ∧
  ∀ S resolver put users (s : S), identity <$> (Resolve resolver put users s (Extract root)).2 = identity <$> Extract root.
Proof.
  split_and!; [| |intros; apply resolve_loop_identity]; rewrite Extract_fold;
    destruct (collect_fold (visited descends root) [] (NoDup_nil_2)) as [H1 H2]; [done|].
  intros kind key. rewrite H2. split.
  - intros [H|(n & r & Hn & Hr & Hid & Hk)]; [by apply elem_of_nil in H|]. unfold identity in Hid. simplify_eq. eauto 10.
  - intros (Hk & n & r & Hn & Hr & Hid). right. exists n, r. unfold identity in *. by simplify_eq.
Qed.

Module Demo.
Definition body : text := txt "<p><ri:user ri:userkey='u1'/><ac:image><ri:attachment ri:filename='a.png'/></ac:image><ri:user ri:account-id='u1'/><ri:page ri:content-title=''/></p>".
(** The attachment inside the image is part of the image; the second mention of
    the user and the page without a title add nothing. *)
Example extract_demo : (λ root, identity <$> Extract root) <$> match Parse body with Ok r => Some r | Err _ => None end =
  Some [(txt "user", txt "u1"); (txt "image", txt "a.png")].
Proof. vm_compute. reflexivity. Qed.
End Demo.
End Fragment.
