(* ===== verification/MdView.v ===== *)
(** * The Markdown view of a storage-format body (internal/mirror: markdown.go,
    markdown_block.go, markdown_inline.go, markdown_macro.go, markdown_table.go,
    markdown_links.go, markdown_comments.go, jira_macros.go, blocks.go)

    The renderer is total and lossy: what it does not know it descends into.  Its
    functions recurse on fuel that a node's height bounds; [render_fuel] says that
    more fuel changes nothing. *)

From S2P Require Import Prelude GoText WikiScanner Json Markdown Xml Csf Fragment Encoding MdCsf.
Import GoText.
Import WikiScanner (span, split_lines, join_lines, drop_spaces, IsMarkdownFenceClose, span_app, is_byte, newline, backtick, backslash, EscapeMarkdownBlockCollision, NormalizeMarkdownFenceInfo).
Import Markdown (trim_prefix, replace_all, split, join, cut, quoted, join_split_lines, split_lines_newline, trim_right_nl_length).
Import Json (quote).
Import Encoding (json_int).
Import Xml (Name, Space, Local_).
Import Csf.
Import Fragment.

Module MdView.
Local Open Scope Z_scope.

(** ** Text helpers (markdown_inline.go, blocks.go) *)

(** [for strings.Contains(s, old) { s = strings.ReplaceAll(s, old, new) }]; every
    round shortens the text. *)
Fixpoint squeeze_fuel (fuel : nat) (old new s : text) : text :=
  match fuel with O => s | S fuel => if contains s old then squeeze_fuel fuel old new (replace_all s old new) else s end.
Definition nl (n : nat) : text := repeat newline n.
Definition squeezeSpaces (s : text) : text := squeeze_fuel (length s) (txt "  ") (txt " ") s.
Definition collapseBlankRuns (s : text) : text := squeeze_fuel (length s) (nl 3) (nl 2) s.
Definition normalizeBlankLines (s : text) : text := trim_space (collapseBlankRuns s) ++ nl 1.

(** [strings.Fields]: the maximal runs without white space. *)
Fixpoint fields_loop (fuel : nat) (s word : text) : list text :=
  match fuel, s with
  | S fuel, _ :: _ =>
      let '(r, n) := decode_rune s in
      if is_space r then (if eqt word [] then [] else [word]) ++ fields_loop fuel (drop n s) []
      else fields_loop fuel (drop n s) (word ++ take n s)
  | _, _ => if eqt word [] then [] else [word]
  end.
Definition fields (s : text) : list text := fields_loop (length s) s [].

Definition hasLeadingSpace (s : text) : bool := match s with [] => false | _ => is_space (decode_rune s).1 end.
Definition hasTrailingSpace (s : text) : bool := match s with [] => false | _ => is_space (decode_last_rune s).1 end.
Definition collapseWS (s : text) : text :=
  let out := join (txt " ") (fields s) in
  if eqt out [] then (if eqt s [] then [] else txt " ")
  else (if hasLeadingSpace s then txt " " else []) ++ out ++ (if hasTrailingSpace s then txt " " else []).

(** [html.EscapeString]. *)
Definition html_byte (c : ascii) : text :=
  if is_byte "&"%char c then txt "&amp;" else if is_byte "'"%char c then txt "&#39;" else if is_byte "<"%char c then txt "&lt;"
  else if is_byte ">"%char c then txt "&gt;" else if is_byte quote c then txt "&#34;" else [c].
Definition html_escape (s : text) : text := s ≫= html_byte.

(** [url.PathEscape]. *)
Definition upper_hex (n : N) : ascii := (if n <? 10 then ascii_of_N (48 + n) else ascii_of_N (55 + n))%N.
Definition path_safe (c : ascii) : bool :=
  let v := byte_val c in
  in_rng 97 122 v || in_rng 65 90 v || in_rng 48 57 v || existsb (λ b, is_byte b c) (txt "-_.~$&+=:@").
Definition PathEscape (s : text) : text :=
  s ≫= λ c, if path_safe c then [c] else ["%"%char; upper_hex (N_of_ascii c / 16); upper_hex (N_of_ascii c mod 16)].

Definition lower (s : text) : text := map Xml.lower_ascii s.
(** [strings.EqualFold] with an ASCII word no other rune folds to. *)
Definition equal_fold (s word : text) : bool := eqt (lower s) word.

Definition blockquote (s : text) : text := join (nl 1) (map (λ l, txt "> " ++ l) (split (trim_right_nl s) (nl 1))).
Definition repeat_text (n : nat) (s : text) : text := concat (repeat s n).

Fixpoint ticks_loop (longest run : nat) (s : text) : nat :=
  match s with
  | [] => longest
  | c :: s => if is_byte backtick c then ticks_loop (Nat.max longest (S run)) (S run) s else ticks_loop longest 0 s
  end.
Definition markdownFence (content : text) : text := repeat backtick (Nat.max 3 (S (ticks_loop 0 0 content))).
Definition safeMarkdownFenceInfo (info : text) : text := default [] (NormalizeMarkdownFenceInfo info).

Definition markdownLinkLabel (s : text) : text :=
  replace_all (replace_all (replace_all s [backslash] [backslash; backslash]) (txt "[") [backslash; "["%char]) (txt "]") [backslash; "]"%char].

(** ** References and the renderer's state *)

Inductive confluenceMarkdownFormat := confluenceMarkdownCurrent | confluenceMarkdownV5.
#[export] Instance format_eq : EqDecision confluenceMarkdownFormat. Proof. solve_decision. Defined.

(** The map of references holds the last one of each kind and key. *)
Record mdRenderer := {
  refs : list Ref; linkResolver : option (text → option text); headingOffset : Z; headingOverflowAsStrong : bool; escapeHTMLText : bool;
  format : confluenceMarkdownFormat
}.
Definition is_current (r : mdRenderer) : bool := bool_decide (format r = confluenceMarkdownCurrent).
Definition newMDRendererOffsetVersion (refs : list Ref) (offset : Z) (format : confluenceMarkdownFormat) (resolver : option (text → option text)) : mdRenderer :=
  {| refs := refs; linkResolver := resolver; headingOffset := offset; headingOverflowAsStrong := false; escapeHTMLText := false; format := format |}.
Definition newMDRenderer (refs : list Ref) : mdRenderer := newMDRendererOffsetVersion refs 0 confluenceMarkdownCurrent None.
Definition escaping (r : mdRenderer) : mdRenderer :=
  {| refs := refs r; linkResolver := linkResolver r; headingOffset := headingOffset r; headingOverflowAsStrong := headingOverflowAsStrong r;
     escapeHTMLText := true; format := format r |}.

Definition ref (r : mdRenderer) (kind : text) (key : text) : option Ref :=
  List.find (λ x, eqt (Kind x) kind && eqt (Key x) key) (rev (refs r)).
Definition resolvedLink (r : mdRenderer) (target : text) : text :=
  match linkResolver r with
  | Some resolve => match resolve target with Some d => if eqt d [] then target else d | None => target end
  | None => target
  end.

(** ** Small queries on nodes *)

Definition local_in (names : list string) (n : Node) : bool := existsb (λ s, eqt (txt s) (Local_ (Name_ n))) names.
Definition html_element (names : list string) (n : Node) : bool := eqt (Space (Name_ n)) [] && local_in names n.
Definition ac_macro (n : Node) : bool := named "ac" "structured-macro" n || named "ac" "macro" n.

Definition macroParam (macro : Node) (name : string) : text :=
  match List.find (λ c, is_parameter c && eqt (attrv c "ac" "name") (txt name)) (Children macro) with Some c => TextContent c | None => [] end.
Definition plainBody (macro : Node) : text :=
  match List.find (λ c, is_element c && named "ac" "plain-text-body" c) (Children macro) with Some c => TextContent c | None => [] end.
Definition richBody (macro : Node) : list Node :=
  match List.find (λ c, is_element c && named "ac" "rich-text-body" c) (Children macro) with Some c => Children c | None => [] end.

Definition block_macros : list string := ["code"; "noformat"; "info"; "note"; "warning"; "tip"; "panel"; "expand"; "toc"; "drawio"]%string.
Definition isBlockMacroName (name : text) : bool := existsb (λ n, eqt (txt n) name) block_macros.

Fixpoint sole_loop (macro : option Node) (cs : list Node) : option (option Node) :=
  match cs with
  | [] => Some macro
  | c :: cs =>
      if is_text c then (if eqt (trim_space (Data c)) [] then sole_loop macro cs else None)
      else match macro with
           | Some _ => None
           | None => if ac_macro c && isBlockMacroName (attrv c "ac" "name") then sole_loop (Some c) cs else None
           end
  end.
Definition soleBlockMacro (p : Node) : option Node := match sole_loop None (Children p) with Some m => m | None => None end.

(** The first value a walk finds. *)
Definition first_found (f : Node → text) (n : Node) : text := walk (λ acc x, (if eqt acc [] then f x else acc, true)) [] n.
Definition filename_of (x : Node) : text := if named "ri" "attachment" x then attrv x "ri" "filename" else [].
Definition attachmentNameUnder (macro : Node) : text := first_found filename_of macro.
Definition includedPageTitle (macro : Node) : text := first_found (λ x, if named "ri" "page" x then attrv x "ri" "content-title" else []) macro.

Definition isHeading (n : Node) : bool := html_element ["h1"; "h2"; "h3"; "h4"; "h5"; "h6"]%string n.
Definition heading_level (n : Node) : Z := match Local_ (Name_ n) with [_; d] => byte_val d - 48 | _ => 0 end.
Definition isFlowBreak (n : Node) : bool :=
  html_element ["p"; "div"; "li"; "tr"; "blockquote"; "dt"; "dd"; "pre"; "h1"; "h2"; "h3"; "h4"; "h5"; "h6"]%string n.

(** ** Colours *)

(** The values of the [color] declarations of a style, in order. *)
Definition color_declarations (n : Node) : list text :=
  split (attrv n "" "style") (txt ";") ≫= λ decl,
    let '(k, v, ok) := cut decl (txt ":") in if ok && equal_fold (trim_space k) (txt "color") then [trim_space v] else [].
Definition styleColor (n : Node) : text :=
  let color := trim_space (attrv n "" "data-color") in
  if negb (eqt color []) then color else default [] (List.find (λ v, negb (eqt v [])) (color_declarations n)).

Definition hex_digit_byte (c : ascii) : bool := bool_decide (is_Some (Json.hex_value c)).
Definition letter (c : ascii) : bool := in_rng 97 122 (byte_val c) || in_rng 65 90 (byte_val c).
Definition function_byte (c : ascii) : bool := in_rng 48 57 (byte_val c) || existsb (λ b, is_byte b c) (txt " " ++ ["009"%char] ++ txt ".,%/+-").
Fixpoint css_function (fns : list string) (value : text) : option text :=
  match fns with
  | [] => None
  | fn :: fns =>
      if negb (has_prefix (lower value) (txt fn)) || negb (has_suffix (lower value) (txt ")")) then css_function fns value
      else
        let inside := slice value (length (txt fn)) (length value - 1) in
        if eqt (trim_space inside) [] || negb (forallb function_byte inside) then None else Some value
  end.
Definition SafeCSSColor (value : text) : option text :=
  let value := trim_space value in
  match value with
  | [] => None
  | c :: rest =>
      if (96 <? length value)%nat then None
      else if is_byte "#"%char c then
        if existsb (Nat.eqb (length rest)) [3; 4; 6; 8]%nat && forallb hex_digit_byte rest then Some value else None
      else if forallb letter value then Some value
      else css_function ["rgb("; "rgba("; "hsl("; "hsla("]%string value
  end.

(** ** Inline content *)

Definition pageLinkIdentity (space title : text) : text := (if eqt space [] then [] else PathEscape space ++ txt "/") ++ PathEscape title.

(** What [acLink] learns about its target. *)
Record link_info := { label : text; target : text; pageTitle : text; pageSpace : text }.

(** Enclosing brackets of a placeholder. *)
Definition placeholder (s : text) : text := txt "⟦" ++ s ++ txt "⟧".
Definition md_link (label destination : text) : text := txt "[" ++ label ++ txt "](" ++ destination ++ txt ")".
Definition code_span (s : text) : text := [backtick] ++ s ++ [backtick].

Section inline.
Variable inlineNode : mdRenderer → Node → text.
Variable r : mdRenderer.

Definition inline_of (cs : list Node) : text := trim_space (squeezeSpaces (concat (map (inlineNode r) cs))).
Definition inline_with (n : Node) : text := inline_of (Children n).

Definition link_visit (i : link_info) (x : Node) : link_info * bool :=
  (if named "ri" "page" x then
     let title := attrv x "ri" "content-title" in
     {| label := label i; target := txt "page:" ++ title; pageTitle := title; pageSpace := attrv x "ri" "space-key" |}
   else if named "ri" "attachment" x then {| label := label i; target := txt "attachment:" ++ attrv x "ri" "filename"; pageTitle := pageTitle i; pageSpace := pageSpace i |}
   else if named "ri" "user" x then
     let key := attrv x "ri" "userkey" in
     {| label := match ref r RefUser key with Some f => Display f | None => txt "@" ++ key end; target := txt "user"; pageTitle := pageTitle i; pageSpace := pageSpace i |}
   else if named "ac" "link-body" x then {| label := inline_with x; target := target i; pageTitle := pageTitle i; pageSpace := pageSpace i |}
   else if named "ac" "plain-text-link-body" x then {| label := collapseWS (TextContent x); target := target i; pageTitle := pageTitle i; pageSpace := pageSpace i |}
   else i, true).
Definition acLink (n : Node) : text :=
  let i := walk link_visit {| label := []; target := []; pageTitle := []; pageSpace := [] |} n in
  let label := if eqt (label i) [] then trim_prefix (trim_prefix (target i) (txt "page:")) (txt "attachment:") else label i in
  if eqt (target i) (txt "user") then label
  else if has_prefix (target i) (txt "page:") then
    md_link (markdownLinkLabel label) (resolvedLink r (txt "confluence-page:" ++ pageLinkIdentity (pageSpace i) (pageTitle i)))
  else md_link label (resolvedLink r (target i)).

Definition acImage (n : Node) : text :=
  if contains (attrv n "ac" "class") (txt "icon") then []
  else
    let fn := first_found filename_of n in
    let url := first_found (λ x, if named "ri" "url" x then attrv x "ri" "value" else []) n in
    if negb (eqt fn []) then
      txt "!" ++ md_link fn (match ref r RefImage fn with
                             | Some f => if eqt (Asset f) [] then resolvedLink r (txt "attachment:" ++ fn) else Asset f
                             | None => resolvedLink r (txt "attachment:" ++ fn) end)
    else if negb (eqt url []) then txt "!" ++ md_link [] url
    else [].

Definition inline_macro (n : Node) : text :=
  let name := attrv n "ac" "name" in
  if eqt name (txt "status") then code_span (txt "[" ++ macroParam n "title" ++ txt "]")
  else if eqt name (txt "drawio") then
    let dn := macroParam n "diagramName" in
    match ref r RefDrawio dn with
    | Some f => if eqt (Asset f) [] then placeholder (txt "drawio diagram: " ++ dn) else txt "!" ++ md_link (txt "diagram: " ++ dn) (Asset f)
    | None => placeholder (txt "drawio diagram: " ++ dn)
    end
  else if eqt name (txt "jira") then
    let key := macroParam n "key" in
    let jql := macroParam n "jqlQuery" in
    if negb (eqt key []) then md_link key (resolvedLink r (txt "jira:" ++ key))
    else if negb (eqt jql []) then placeholder (txt "jira query: " ++ jql)
    else placeholder (txt "jira")
  else if eqt name (txt "toc") then placeholder (txt "table of contents")
  else if eqt name (txt "code") then code_span (collapseWS (plainBody n))
  else placeholder name.

(** One node; the renderer that escapes its text is used inside coloured spans. *)
Definition inline_node (inline_escaping : Node → text) (n : Node) : text :=
  if is_text n then let t := collapseWS (Data n) in if escapeHTMLText r then html_escape t else t
  else if local_in ["strong"; "b"] n then txt "**" ++ inline_with n ++ txt "**"
  else if local_in ["em"; "i"] n then txt "_" ++ inline_with n ++ txt "_"
  else if local_in ["s"; "del"; "strike"] n then txt "~~" ++ inline_with n ++ txt "~~"
  else if local_in ["code"] n then code_span (inline_with n)
  else if local_in ["pre"] n then code_span (inline_with n)
  else if named "" "time" n then attrv n "" "datetime"
  else if named "ac" "emoticon" n then
    let fb := attrv n "ac" "emoji-fallback" in if eqt fb [] then txt ":" ++ attrv n "ac" "name" ++ txt ":" else fb
  else if local_in ["br"] n then (if is_current r then txt "<br>" else txt " ")
  else if local_in ["a"] n then md_link (inline_with n) (attrv n "" "href")
  else if named "" "span" n then
    let color := styleColor n in
    if negb (eqt color []) then
      let inner := inline_escaping n in
      if eqt inner [] then []
      else match SafeCSSColor color with
           | Some safe => txt "<span style=" ++ quoted (txt "color: " ++ html_escape safe) ++ txt ">" ++ inner ++ txt "</span>"
           | None => txt "<span data-atl-color=" ++ quoted (html_escape color) ++ txt ">" ++ inner ++ txt "</span>"
           end
    else concat (map (inlineNode r) (Children n))
  else if named "ac" "link" n then acLink n
  else if named "ac" "image" n then acImage n
  else if named "ri" "user" n then
    let key := let k := attrv n "ri" "userkey" in if eqt k [] then attrv n "ri" "account-id" else k in
    match ref r RefUser key with Some f => Display f | None => txt "@" ++ key end
  else if ac_macro n then inline_macro n
  else (if isFlowBreak n then txt " " else []) ++ concat (map (inlineNode r) (Children n)).
End inline.

Fixpoint inlineNode_fuel (fuel : nat) (r : mdRenderer) (n : Node) : text :=
  match fuel with
  | O => []
  | S fuel => inline_node (inlineNode_fuel fuel) r (inline_with (inlineNode_fuel fuel) (escaping r)) n
  end.

(** Nodes on the longest path from a node to a leaf. *)
Fixpoint height (n : Node) : nat := S (list_max (map height (Children n))).
Definition inlineNode (r : mdRenderer) (n : Node) : text := inlineNode_fuel (height n) r n.
Definition inline (r : mdRenderer) (n : Node) : text := inline_with inlineNode r n.
Definition is_list (n : Node) : bool := is_element n && local_in ["ul"; "ol"] n.
Definition inlineNoBlock (r : mdRenderer) (n : Node) : text := inline_of inlineNode r (List.filter (λ c, negb (is_list c)) (Children n)).
Definition is_task_list (n : Node) : bool := is_element n && named "ac" "task-list" n.
Definition inlineTaskBody (r : mdRenderer) (body : Node) : text := inline_of inlineNode r (List.filter (λ c, negb (is_task_list c)) (Children body)).

(** ** Tables *)

(** A cell is known by its row and its place in it: two cells with equal content
    are still different nodes. *)
Definition cell_id : Set := nat * nat.
Record TableCell := { CNode : option (cell_id * Node); Origin : bool; CText : text }.
Record pendingCell := { p_node : cell_id * Node; p_text : text; p_rows : Z }.
Definition padding : TableCell := {| CNode := None; Origin := false; CText := [] |}.

(** [strconv.Atoi], for the older format's spans. *)
Fixpoint digits (acc : Z) (s : text) : option Z :=
  match s with [] => Some acc | c :: s => if Json.digit c then digits (acc * 10 + (byte_val c - 48)) s else None end.
Definition atoi (s : text) : option Z :=
  let '(neg, ds) := match s with c :: s' => if is_byte "-"%char c then (true, s') else if is_byte "+"%char c then (false, s') else (false, s) | [] => (false, s) end in
  match ds with
  | [] => None
  | _ => match digits 0 ds with
         | Some v => let v := if neg : bool then - v else v in if in_rng (- 2 ^ 63) (2 ^ 63 - 1) v then Some v else None
         | None => None end
  end.
Definition span_of (r : mdRenderer) (name : string) (cell : Node) : nat :=
  Z.to_nat (if is_current r then TableSpan cell name
            else match atoi (attrv cell "" name) with Some n => if 1 <? n then Z.min n MaxTableSpan else 1 | None => 1 end).

Definition tableRows (table : Node) : list Node :=
  (walk (λ '(first, out) x,
     if negb first && named "" "table" x then ((false, out), false)
     else if named "" "tr" x then ((false, out ++ [x]), false)
     else ((false, out), true)) (true, []) table).2.
Definition rowCells (row : Node) : list Node := List.filter (λ c, is_element c && html_element ["td"; "th"]%string c) (Children row).

Definition pendings : Type := gmap nat pendingCell.
Definition maxPendingCol (pending : pendings) : Z := map_fold (λ c _ m, Z.max (Z.of_nat c) m) (-1) pending.

(** The cell a pending span leaves in a column. *)
Definition take_pending (pending : pendings) (col : nat) : option (TableCell * pendings) :=
  match pending !! col with
  | None => None
  | Some p =>
      Some ({| CNode := Some (p_node p); Origin := false; CText := p_text p |},
            if p_rows p - 1 <=? 0 then delete col pending else <[col := {| p_node := p_node p; p_text := p_text p; p_rows := p_rows p - 1 |}]> pending)
  end.
Fixpoint fill_pending (fuel : nat) (pending : pendings) (col : nat) (cells : list TableCell) : pendings * nat * list TableCell :=
  match fuel with
  | O => (pending, col, cells)
  | S fuel => match take_pending pending col with
              | Some (c, pending) => fill_pending fuel pending (S col) (cells ++ [c])
              | None => (pending, col, cells)
              end
  end.
(** The columns a cell spans. *)
Fixpoint span_cols (n : nat) (spanCol : nat) (node : cell_id * Node) (text_ : text) (rowspan : nat) (pending : pendings) (col : nat) (cells : list TableCell)
    : pendings * nat * list TableCell :=
  match n with
  | O => (pending, col, cells)
  | S n =>
      let cellText := if (0 <? spanCol)%nat then [] else text_ in
      let pending := if (1 <? rowspan)%nat then <[col := {| p_node := node; p_text := cellText; p_rows := Z.of_nat rowspan - 1 |}]> pending else pending in
      span_cols n (S spanCol) node text_ rowspan pending (S col) (cells ++ [{| CNode := Some node; Origin := (spanCol =? 0)%nat; CText := cellText |}])
  end.
Fixpoint row_cells (r : mdRenderer) (ri ci : nat) (cs : list Node) (pending : pendings) (col : nat) (cells : list TableCell) : pendings * nat * list TableCell :=
  match cs with
  | [] => (pending, col, cells)
  | c :: cs =>
      let '(pending, col, cells) := fill_pending (S (size pending)) pending col cells in
      let '(pending, col, cells) := span_cols (span_of r "colspan" c) 0 ((ri, ci), c) (trim_space (inline r c)) (span_of r "rowspan" c) pending col cells in
      row_cells r ri (S ci) cs pending col cells
  end.
(** The columns after the last cell that spans from above still reach. *)
Fixpoint trail (fuel : nat) (pending : pendings) (col : nat) (cells : list TableCell) : pendings * list TableCell :=
  match fuel with
  | O => (pending, cells)
  | S fuel =>
      if Z.of_nat col <=? maxPendingCol pending then
        match take_pending pending col with
        | Some (c, pending) => trail fuel pending (S col) (cells ++ [c])
        | None => trail fuel pending (S col) (cells ++ [padding])
        end
      else (pending, cells)
  end.
Fixpoint grid_loop (r : mdRenderer) (ri : nat) (trs : list Node) (pending : pendings) : list (list TableCell) :=
  match trs with
  | [] => []
  | tr :: trs =>
      let '(pending, col, cells) := row_cells r ri 0 (rowCells tr) pending 0 [] in
      let '(pending, cells) := trail (S (Z.to_nat (maxPendingCol pending))) pending col cells in
      cells :: grid_loop r (S ri) trs pending
  end.
Fixpoint header_loop (ri : nat) (trs : list Node) : option nat :=
  match trs with [] => None | tr :: trs => if existsb (local_in ["th"%string]) (rowCells tr) then Some ri else header_loop (S ri) trs end.
(** The grid, padded to one width, its source rows and the header row. *)
Definition tableGrid (r : mdRenderer) (n : Node) : list (list TableCell) * list Node * option nat :=
  let trs := tableRows n in
  let grid := grid_loop r 0 trs ∅ in
  let width := list_max (map length grid) in
  (map (λ row, row ++ replicate (width - length row) padding) grid, trs, header_loop 0 trs).
Definition TableGrid (table : Node) (refs : list Ref) : list (list TableCell) * list Node * option nat := tableGrid (newMDRenderer refs) table.

Definition md_row (cells : list text) : text := txt "| " ++ join (txt " | ") cells ++ txt " |" ++ nl 1.
Fixpoint table_rows (r : mdRenderer) (header : option nat) (width ri : nat) (grid : list (list TableCell)) : text :=
  match grid with
  | [] => []
  | row :: grid =>
      md_row (map (λ c, replace_all (CText c) (txt "|") [backslash; "|"%char]) row) ++
      (if (if is_current r then (ri =? 0)%nat else match header with Some h => (ri =? h)%nat | None => (ri =? 0)%nat end)
       then md_row (replicate width (txt "---")) else []) ++
      table_rows r header width (S ri) grid
  end.
Definition table (r : mdRenderer) (n : Node) : text :=
  let '(grid, _, header) := tableGrid r n in
  match grid with [] => [] | row :: _ => table_rows r header (length row) 0 grid ++ nl 1 end.

(** ** Blocks *)

Definition itoa (n : nat) : text := json_int (Z.of_nat n).

Fixpoint list_items (sublist : Node → text) (r : mdRenderer) (ordered : bool) (depth i : nat) (cs : list Node) : text :=
  match cs with
  | [] => []
  | c :: cs =>
      if negb (is_element c && local_in ["li"%string] c) then list_items sublist r ordered depth i cs
      else repeat_text depth (txt "  ") ++ (if ordered then itoa i ++ txt ". " else txt "- ") ++ trim_space (inlineNoBlock r c) ++ nl 1 ++
        concat (map (λ gc, if is_list gc then sublist gc else []) (Children c)) ++
        list_items sublist r ordered depth (S i) cs
  end.
Fixpoint list_fuel (fuel : nat) (r : mdRenderer) (ordered : bool) (depth : nat) (n : Node) : text :=
  match fuel with
  | O => []
  | S fuel => list_items (λ gc, list_fuel fuel r (local_in ["ol"%string] gc) (S depth) gc) r ordered depth 1 (Children n)
  end.
Definition list_ (r : mdRenderer) (n : Node) (ordered : bool) (depth : nat) : text := list_fuel (height n) r ordered depth n.

(** The last child a selection keeps. *)
Definition last_child (p : Node → bool) (n : Node) : option Node := List.find p (rev (Children n)).
Fixpoint task_fuel (fuel : nat) (r : mdRenderer) (depth : nat) (n : Node) : text :=
  match fuel with
  | O => []
  | S fuel =>
      concat (map (λ c,
        if negb (is_element c && named "ac" "task" c) then []
        else
          let complete := existsb (λ gc, is_element gc && local_in ["task-status"%string] gc && eqt (TextContent gc) (txt "complete")) (Children c) in
          let body := last_child (λ gc, is_element gc && local_in ["task-body"%string] gc) c in
          let nested := match body with Some body => last_child is_task_list body | None => None end in
          repeat_text depth (txt "  ") ++ txt "- " ++ (if complete then txt "[x]" else txt "[ ]") ++ txt " " ++
          match body with Some body => inlineTaskBody r body | None => [] end ++ nl 1 ++
          match nested with Some nested => task_fuel fuel r (S depth) nested | None => [] end) (Children n))
  end.
Definition taskList (r : mdRenderer) (n : Node) (depth : nat) : text := task_fuel (height n) r depth n.

Definition fenced (fence info body : text) : text := fence ++ info ++ nl 1 ++ body ++ nl 1 ++ fence ++ nl 2.

Section blocks.
(** The rendering of a child block. *)
Variable block : mdRenderer → Node → text.

Definition blocks_of (r : mdRenderer) (cs : list Node) : text := concat (map (block r) cs).

Definition macro (r : mdRenderer) (n : Node) : text :=
  let name := attrv n "ac" "name" in
  let is_name s := eqt name (txt s) in
  if is_name "code" then
    let body := plainBody n in
    if is_current r then fenced (markdownFence body) (safeMarkdownFenceInfo (macroParam n "language")) body
    else fenced (repeat backtick 3) (macroParam n "language") body
  else if is_name "noformat" then
    let body := plainBody n in fenced (if is_current r then markdownFence body else repeat backtick 3) [] body
  else if is_name "expand" then
    let title := macroParam n "title" in
    txt "**" ++ (if eqt title [] then txt "Details" else title) ++ txt "**" ++ nl 2 ++ trim_space (blocks_of r (richBody n)) ++ nl 2
  else if is_name "jira" then
    let key := macroParam n "key" in
    let jql := macroParam n "jqlQuery" in
    (if negb (eqt key []) then md_link key (resolvedLink r (txt "jira:" ++ key))
     else if negb (eqt jql []) then placeholder (txt "jira query: " ++ jql) else placeholder (txt "jira")) ++ nl 2
  else if is_name "view-file" then
    let fn := attachmentNameUnder n in
    (if negb (eqt fn []) then txt "📎 " ++ md_link fn (resolvedLink r (txt "attachment:" ++ fn)) else placeholder (txt "macro view-file")) ++ nl 2
  else if is_name "include" || is_name "excerpt-include" then
    let title := includedPageTitle n in
    placeholder (if negb (eqt title []) then txt "include: " ++ title else txt "macro include") ++ nl 2
  else if is_name "children" then placeholder (txt "child pages (listed in Confluence)") ++ nl 2
  else if is_name "drawio" then
    let dn := macroParam n "diagramName" in
    let missing := placeholder (txt "drawio diagram: " ++ dn ++ txt " (open in Confluence)") in
    match ref r RefDrawio dn with
    | Some f => if eqt (Asset f) [] then missing else txt "!" ++ md_link (txt "diagram: " ++ dn) (Asset f)
    | None => missing
    end ++ nl 2
  else if is_name "info" || is_name "note" || is_name "warning" || is_name "tip" || is_name "panel" then
    let title := macroParam n "title" in
    let label := map (λ c, if in_rng 97 122 (byte_val c) then ascii_of_N (N_of_ascii c - 32) else c) name ++ (if eqt title [] then [] else txt ": " ++ title) in
    blockquote (label ++ nl 2 ++ trim_space (blocks_of r (richBody n))) ++ nl 2
  else if is_name "toc" then placeholder (txt "table of contents") ++ nl 2
  else if is_name "status" then code_span (txt "[" ++ macroParam n "title" ++ txt "]") ++ nl 2
  else
    let s := trim_space (blocks_of r (richBody n)) in
    placeholder (txt "macro " ++ name) ++ nl 2 ++ (if eqt s [] then [] else s ++ nl 2).

(** A text followed by a blank line, unless it is empty. *)
Definition paragraph (s : text) : text := if eqt s [] then [] else s ++ nl 2.

Definition block_node (r : mdRenderer) (n : Node) : text :=
  if is_text n then (if bool_decide (Type_ n = Text) then paragraph (trim_space (Data n)) else [])
  else if isHeading n then
    let level := heading_level n + headingOffset r in
    if (6 <? level) && headingOverflowAsStrong r then txt "**" ++ inline r n ++ txt "**" ++ nl 2
    else repeat "#"%char (Z.to_nat (Z.min 6 level)) ++ txt " " ++ inline r n ++ nl 2
  else if named "" "p" n then
    match soleBlockMacro n with
    | Some m => macro r m
    | None =>
        let s := trim_space (inline r n) in
        if eqt s [] then [] else (if is_current r then EscapeMarkdownBlockCollision s else s) ++ nl 2
    end
  else if named "" "blockquote" n then
    let s := trim_space (blocks_of r (Children n)) in if eqt s [] then [] else blockquote s ++ nl 2
  else if named "" "pre" n then
    let body := TextContent n in fenced (if is_current r then markdownFence body else repeat backtick 3) [] body
  else if named "ac" "task-list" n then taskList r n 0 ++ nl 1
  else if local_in ["table"%string] n then table r n
  else if local_in ["ul"; "ol"]%string n then list_ r n (local_in ["ol"%string] n) 0 ++ nl 1
  else if local_in ["hr"%string] n then txt "---" ++ nl 2
  else if ac_macro n then macro r n
  else blocks_of r (Children n).
End blocks.

(** A paragraph hands its only macro to [macro], so a block may look two levels down. *)
Fixpoint block_fuel (fuel : nat) (r : mdRenderer) (n : Node) : text :=
  match fuel with O => [] | S fuel => block_node (block_fuel fuel) r n end.
Definition block (r : mdRenderer) (n : Node) : text := block_fuel (height n) r n.

(** ** Documents *)

Definition is_layout (n : Node) : bool := is_element n && (named "ac" "layout" n || named "ac" "layout-section" n || named "ac" "layout-cell" n).
(** [forEachBlockNode]: the nodes visited, layout containers opened. *)
Fixpoint open_layout (n : Node) : list Node := if is_layout n then concat (map open_layout (Children n)) else [n].
Definition block_nodes (root : Node) : list Node := concat (map open_layout (Children root)).

Definition renderMarkdownHeadingOffsetVersion (root : Node) (refs : list Ref) (offset : Z) (format : confluenceMarkdownFormat) (resolver : option (text → option text)) : text :=
  normalizeBlankLines (blocks_of block (newMDRendererOffsetVersion refs offset format resolver) (block_nodes root)).
Definition RenderMarkdown (root : Node) (refs : list Ref) : text := renderMarkdownHeadingOffsetVersion root refs 0 confluenceMarkdownCurrent None.
Definition RenderMarkdownResolved (root : Node) (refs : list Ref) (resolver : text → option text) : text :=
  renderMarkdownHeadingOffsetVersion root refs 0 confluenceMarkdownCurrent (Some resolver).

(** A block of the body: its bytes, its view, and what it is. *)
Record Block := { CSFStart : nat; CSFEnd : nat; MD : text; BKind : text }.
Definition blockKind (n : Node) : text :=
  if is_text n then txt "text"
  else if eqt (Space (Name_ n)) (txt "ac") then
    if local_in ["structured-macro"; "macro"]%string n then txt "macro:" ++ attrv n "ac" "name"
    else if local_in ["task-list"%string] n then txt "tasklist" else txt "other"
  else if negb (eqt (Space (Name_ n)) []) then txt "other"
  else if isHeading n then Local_ (Name_ n)
  else if local_in ["p"%string] n then match soleBlockMacro n with Some m => txt "macro:" ++ attrv m "ac" "name" | None => txt "p" end
  else if local_in ["table"%string] n then txt "table"
  else if local_in ["ul"; "ol"]%string n then txt "list"
  else if local_in ["blockquote"%string] n then txt "blockquote"
  else if local_in ["pre"%string] n then txt "pre"
  else if local_in ["hr"%string] n then txt "hr"
  else txt "other".
Definition block_md (r : mdRenderer) (n : Node) : text := trim_space (collapseBlankRuns (block r n)).
Definition RenderBlockNodes (root : Node) (refs : list Ref) : list (Block * Node) :=
  block_nodes root ≫= λ n,
    let md := block_md (newMDRenderer refs) n in
    if eqt md [] then [] else [({| CSFStart := Start n; CSFEnd := End_ n; MD := md; BKind := blockKind n |}, n)].
Definition RenderBlocks (root : Node) (refs : list Ref) : list Block := (RenderBlockNodes root refs).*1.
Definition RenderInline (n : Node) (refs : list Ref) : text := trim_space (squeezeSpaces (inlineNode (newMDRenderer refs) n)).
Definition IsBlockMacro (name : text) : bool := isBlockMacroName name.

(** ** Comment bodies (markdown_comments.go) *)

Definition is_code (n : Node) : bool := is_element n && named "" "code" n.
Definition blank_text (n : Node) : bool := is_text n && eqt (trim_space (Data n)) [].
(** The first [code] element of a cell in document order is the wrapped one exactly
    when the chain of only children ends in a [code] element, so the comparison of
    nodes becomes a test of the element's name. *)
Fixpoint exclusive_fuel (fuel : nat) (n : Node) : bool :=
  match fuel with
  | O => false
  | S fuel =>
      match List.filter (λ c, negb (blank_text c)) (Children n) with
      | [child] => if is_code child then true else is_element child && named "" "p" child && exclusive_fuel fuel child
      | _ => false
      end
  end.
Definition exclusiveCommentCodeWrapper (n : Node) : bool := exclusive_fuel (height n) n.
Definition first_code (n : Node) : option Node :=
  walk (λ code x, if bool_decide (code = None) && is_code x then (Some x, false) else (code, true)) None n.
Definition is_br (n : Node) : bool := is_element n && named "" "br" n.
Fixpoint code_text (n : Node) : text :=
  if is_text n then Data n else if named "" "br" n then nl 1 else concat (map code_text (Children n)).
Fixpoint commentCodeIsMultiline (n : Node) : bool := (is_element n && named "" "br" n) || existsb commentCodeIsMultiline (Children n).
Definition commentCodeTable (n : Node) : option text :=
  if negb (is_element n && named "" "table" n) then None
  else
    match tableRows n with
    | [row] =>
        match rowCells row with
        | [cell] =>
            match first_code cell with
            | None => None
            | Some code =>
                if negb (exclusiveCommentCodeWrapper cell) || negb (commentCodeIsMultiline code) then None
                else let value := trim_space (code_text code) in if eqt value [] then None else Some value
            end
        | _ => None
        end
    | _ => None
    end.
Definition comment_block (r : mdRenderer) (n : Node) : text :=
  match commentCodeTable n with Some code => fenced (markdownFence code) [] code | None => block r n end.
Definition renderCommentMarkdownWithRenderer (root : Node) (r : mdRenderer) : text :=
  normalizeBlankLines (concat (map (comment_block r) (block_nodes root))).
Definition overflow_strong (r : mdRenderer) : mdRenderer :=
  {| refs := refs r; linkResolver := linkResolver r; headingOffset := headingOffset r; headingOverflowAsStrong := true;
     escapeHTMLText := escapeHTMLText r; format := format r |}.
Definition renderQualifiedCommentMarkdownVersion (root : Node) (parentHeading : Z) (format : confluenceMarkdownFormat) : text :=
  renderCommentMarkdownWithRenderer root (overflow_strong (newMDRendererOffsetVersion [] parentHeading format None)).

(** ** Jira macros (jira_macros.go) *)

Record JiraMacroDescriptor := { Index : nat; JQL : text; Columns : list text; Limit : Z }.
Definition jira_descriptor (index : nat) (node : Node) : list JiraMacroDescriptor :=
  let jql := trim_space (macroParam node "jqlQuery") in
  if eqt jql [] then []
  else [{| Index := index; JQL := jql;
           Columns := List.filter (λ c, negb (eqt c [])) (map trim_space (split (macroParam node "columns") (txt ",")));
           Limit := match atoi (trim_space (macroParam node "maximumIssues")) with Some n => if 0 <? n then n else 0 | None => 0 end |}].
Definition is_jira_macro (node : Node) : bool := is_element node && ac_macro node && eqt (attrv node "ac" "name") (txt "jira").
Definition JiraMacroDescriptors (root : Node) : list JiraMacroDescriptor :=
  (walk (λ '(index, out) node, (if is_jira_macro node then (S index, out ++ jira_descriptor index node) else (index, out), true)) (O, []) root).2.

(** * Facts *)

(** ** Fuel *)

Lemma height_child c n : c ∈ Children n → (height c < height n)%nat.
Proof.
  intros H. destruct n as [t m a d s e cs]. cbn [Children height] in *. apply Nat.lt_succ_r.
  pose proof (proj1 (list_max_le (map height cs) (list_max (map height cs))) ltac:(lia)) as Hall. rewrite Forall_forall in Hall. apply Hall.
  apply list_elem_of_fmap. by exists c.
Qed.

(** Two renderings that agree on the smaller nodes give the same inline content. *)
Section inline_ext.
Variables f g : mdRenderer → Node → text.
Variable r : mdRenderer.

Lemma inline_of_ext cs : (∀ c, c ∈ cs → f r c = g r c) → inline_of f r cs = inline_of g r cs.
Proof.
  intros H. unfold inline_of. do 3 f_equal. apply list_fmap_ext. intros i c Hc. apply H. by eapply list_elem_of_lookup_2.
Qed.
Lemma walk_ext {S} (P : Node → Prop) (f1 f2 : S → Node → S * bool) :
  (∀ n c, P n → c ∈ Children n → P c) → (∀ s n, P n → f1 s n = f2 s n) → ∀ n s, P n → walk f1 s n = walk f2 s n.
Proof.
  intros Hc Hf. induction n as [t m a d st e cs IH] using node_ind'. intros s Hn.
  assert (∀ s, fold_left (walk f1) cs s = fold_left (walk f2) cs s) as Hcs.
  { assert (∀ c, c ∈ cs → P c) as Hp by (intros c Hin; by eapply Hc).
    clear Hn s. induction IH as [|c cs' Hx _ IH']; intros s; [done|]. cbn [fold_left]. rewrite Hx by (apply Hp, list_elem_of_here).
    apply IH'. eauto using list_elem_of_further. }
  cbn [walk Children]. destruct (is_element _); [|apply Hcs]. rewrite Hf by done. destruct (f2 s _) as [s' []]; [apply Hcs|done].
Qed.
End inline_ext.

Section inline_fuel.
Variables f g : mdRenderer → Node → text.
Variable n : Node.
Hypothesis Hfg : ∀ r c, (height c < height n)%nat → f r c = g r c.

Lemma inline_with_below r x : (height x ≤ height n)%nat → inline_with f r x = inline_with g r x.
Proof. intros H. apply inline_of_ext. intros c Hc. apply Hfg. pose proof (height_child c x Hc). lia. Qed.
Lemma children_below r : concat (map (f r) (Children n)) = concat (map (g r) (Children n)).
Proof. f_equal. apply map_ext_in. intros c Hc. apply Hfg, height_child. by apply list_elem_of_In. Qed.
Lemma acLink_below r : acLink f r n = acLink g r n.
Proof.
  unfold acLink. rewrite (walk_ext (λ x, (height x ≤ height n)%nat) (link_visit f r) (link_visit g r)); [done| | |lia].
  - intros x c Hx Hc. pose proof (height_child c x Hc). lia.
  - intros s x Hx. unfold link_visit. by rewrite (inline_with_below r x Hx).
Qed.
Lemma inline_node_below r (e e' : Node → text) : e n = e' n → inline_node f r e n = inline_node g r e' n.
Proof.
  intros He. unfold inline_node. rewrite (inline_with_below r n), (children_below r), (acLink_below r), He by lia. done.
Qed.
End inline_fuel.

Lemma inlineNode_fuel_enough a : ∀ b r n, (height n ≤ a)%nat → (height n ≤ b)%nat → inlineNode_fuel a r n = inlineNode_fuel b r n.
Proof.
  induction a as [|a IH]; intros b r n Ha Hb; [destruct n; cbn in Ha; lia|].
  destruct b as [|b]; [destruct n; cbn in Hb; lia|]. cbn [inlineNode_fuel].
  apply inline_node_below; [intros r' c Hc; apply IH; lia|]. apply (inline_with_below _ _ n); [intros r' c Hc; apply IH; lia|lia].
Qed.
Lemma list_fuel_enough a : ∀ b r ordered depth n, (height n ≤ a)%nat → (height n ≤ b)%nat → list_fuel a r ordered depth n = list_fuel b r ordered depth n.
Proof.
  induction a as [|a IH]; intros b r ordered depth n Ha Hb; [destruct n; cbn in Ha; lia|].
  destruct b as [|b]; [destruct n; cbn in Hb; lia|]. cbn [list_fuel].
  assert (∀ c, c ∈ Children n → (height c < height n)%nat) as Hh by (intros c; apply height_child).
  generalize 1%nat. induction (Children n) as [|c cs IHc]; intros i; [done|]. cbn [list_items].
  rewrite !(IHc (λ c' Hc', Hh c' (list_elem_of_further _ _ _ Hc'))). destruct (negb _); [done|]. do 5 f_equal.
  f_equal. apply map_ext_in. intros gc Hgc. apply list_elem_of_In in Hgc. apply height_child in Hgc.
  pose proof (Hh c (list_elem_of_here _ _)). destruct (is_list gc); [|done]. apply IH; lia.
Qed.
Lemma task_fuel_enough a : ∀ b r depth n, (height n ≤ a)%nat → (height n ≤ b)%nat → task_fuel a r depth n = task_fuel b r depth n.
Proof.
  induction a as [|a IH]; intros b r depth n Ha Hb; [destruct n; cbn in Ha; lia|].
  destruct b as [|b]; [destruct n; cbn in Hb; lia|]. cbn [task_fuel]. f_equal. apply map_ext_in. intros c Hc.
  apply list_elem_of_In, height_child in Hc. destruct (negb _); [done|]. cbn zeta.
  destruct (last_child (λ gc, is_element gc && local_in ["task-body"%string] gc) c) as [body|] eqn:Hbody; [|done].
  assert (∀ p x y, last_child p x = Some y → (height y < height x)%nat) as Hlast.
  { intros p x y H. apply find_some in H as [H _]. apply height_child. by apply list_elem_of_In, in_rev. }
  apply Hlast in Hbody. destruct (last_child is_task_list body) as [nested|] eqn:Hn; [|done]. apply Hlast in Hn.
  rewrite (IH b r (S depth) nested) by lia. done.
Qed.

Lemma richBody_below n c : c ∈ richBody n → (height c < height n)%nat.
Proof.
  unfold richBody. destruct (List.find _ _) as [x|] eqn:H; [|by intros ?%elem_of_nil]. intros Hc.
  apply find_some in H as [H _]. apply list_elem_of_In, height_child in H. apply height_child in Hc. lia.
Qed.
Lemma sole_loop_elem m cs x : sole_loop m cs = Some (Some x) → m = Some x ∨ x ∈ cs.
Proof.
  revert m. induction cs as [|c cs IH]; intros m; cbn [sole_loop]; [intros [= ->]; auto|].
  destruct (is_text c).
  - destruct (eqt _ []); [|done]. intros [->|]%IH; auto using list_elem_of_further.
  - destruct m; [done|]. destruct (_ && _); [|done]. intros [[= ->]|]%IH; auto using list_elem_of_here, list_elem_of_further.
Qed.
Lemma soleBlockMacro_below n m : soleBlockMacro n = Some m → (height m < height n)%nat.
Proof.
  unfold soleBlockMacro. destruct (sole_loop None (Children n)) as [[x|]|] eqn:H; try done. intros [= ->].
  apply sole_loop_elem in H as [|H]; [done|]. by apply height_child.
Qed.

Section block_ext.
Variables f g : mdRenderer → Node → text.
Variable n : Node.
Hypothesis Hfg : ∀ r c, (height c < height n)%nat → f r c = g r c.
Lemma blocks_below r cs : (∀ c, c ∈ cs → (height c < height n)%nat) → blocks_of f r cs = blocks_of g r cs.
Proof. intros H. unfold blocks_of. f_equal. apply map_ext_in. intros c Hc. by apply Hfg, H, list_elem_of_In. Qed.
Lemma macro_below r m : (height m ≤ height n)%nat → macro f r m = macro g r m.
Proof.
  intros H. unfold macro. rewrite (blocks_below r (richBody m)); [done|]. intros c Hc. apply richBody_below in Hc. lia.
Qed.
Lemma block_node_below r : block_node f r n = block_node g r n.
Proof.
  unfold block_node. rewrite (blocks_below r (Children n)) by (intros c; apply height_child). rewrite (macro_below r n) by lia.
  destruct (soleBlockMacro n) as [m|] eqn:Hm; [|done]. apply soleBlockMacro_below in Hm. by rewrite (macro_below r m) by lia.
Qed.
End block_ext.
Lemma block_fuel_enough a : ∀ b r n, (height n ≤ a)%nat → (height n ≤ b)%nat → block_fuel a r n = block_fuel b r n.
Proof.
  induction a as [|a IH]; intros b r n Ha Hb; [destruct n; cbn in Ha; lia|].
  destruct b as [|b]; [destruct n; cbn in Hb; lia|]. cbn [block_fuel]. apply block_node_below. intros r' c Hc. apply IH; lia.
Qed.

(** The renderer returns on every tree: fuel beyond a node's height changes
    nothing, so each function is the unrolling of its own equation. *)
Lemma block_unfold r n : block r n = block_node block r n.
Proof.
  unfold block at 1. destruct n as [t m a d s e cs] eqn:Hn. rewrite <- Hn. assert (height n = S (pred (height n))) as Hh by (subst n; cbn; lia).
  rewrite Hh. cbn [block_fuel]. apply block_node_below. intros r' c Hc. apply block_fuel_enough; lia.
Qed.
Lemma inlineNode_unfold r n : inlineNode r n = inline_node inlineNode r (inline (escaping r)) n.
Proof.
  unfold inlineNode at 1. assert (height n = S (pred (height n))) as Hh by (destruct n; cbn; lia). rewrite Hh. cbn [inlineNode_fuel].
  assert (∀ r' c, (height c < height n)%nat → inlineNode_fuel (pred (height n)) r' c = inlineNode r' c) as Hc
    by (intros r' c Hc; apply inlineNode_fuel_enough; lia).
  apply inline_node_below; [done|]. unfold inline. by apply (inline_with_below _ _ n).
Qed.

(** ** The blocks of a body *)

Lemma in_order_lower lo lo' ns hi : in_order lo ns hi → (lo' ≤ lo)%nat → in_order lo' ns hi.
Proof. intros H Hl. pose proof (in_order_le _ _ _ H). inversion H; subst; constructor; try done; lia. Qed.
Lemma view_in_order_app lo a mid b hi : in_order lo a mid → in_order mid b hi → in_order lo (a ++ b) hi.
Proof.
  intros Ha Hb. induction Ha as [lo mid|lo n ns mid ? ? _ _ IH]; cbn; [by eapply in_order_lower|]. constructor; [done|done|auto].
Qed.
Lemma open_layout_node n : open_layout n = if is_layout n then concat (map open_layout (Children n)) else [n].
Proof. by destruct n. Qed.
Lemma open_layout_order lo ns hi : in_order lo ns hi → in_order lo (concat (map open_layout ns)) hi.
Proof.
  induction 1 as [lo hi|lo n ns hi Hlo Hc IHc Hns IH]; [by constructor|]. cbn [map concat]. rewrite open_layout_node.
  apply view_in_order_app with (End_ n); [|done]. pose proof (in_order_le _ _ _ Hc). destruct (is_layout n); [by eapply in_order_lower|].
  by repeat constructor.
Qed.

(** A block is the image of its node, and the blocks lie in order in the body. *)
Definition block_of (refs : list Ref) (bn : Block * Node) : Prop :=
  CSFStart bn.1 = Start bn.2 ∧ CSFEnd bn.1 = End_ bn.2 ∧ MD bn.1 = block_md (newMDRenderer refs) bn.2 ∧ MD bn.1 ≠ [] ∧ BKind bn.1 = blockKind bn.2.
Lemma RenderBlockNodes_order root refs lo hi : in_order lo (Children root) hi →
  in_order lo (RenderBlockNodes root refs).*2 hi ∧ Forall (block_of refs) (RenderBlockNodes root refs).
Proof.
  intros H. apply open_layout_order in H. unfold RenderBlockNodes, block_nodes. revert lo H. generalize (concat (map open_layout (Children root))) as ns.
  induction ns as [|n ns IH]; intros lo H; [done|]. cbn [mbind list_bind]. inversion H as [|? ? ? ? Hlo Hc Hns]; subst.
  destruct (IH _ Hns) as [H1 H2]. cbn zeta. destruct (eqt (block_md _ n) []) eqn:Hmd.
  - split; [|done]. eapply in_order_lower; [done|]. pose proof (in_order_le _ _ _ Hc). lia.
  - cbn [app fmap list_fmap snd]. split; [by constructor|]. constructor; [|done]. apply eqt_false in Hmd. by split_and!.
Qed.

(** ** Fences *)

Lemma ticks_loop_ge s : ∀ longest run, (longest ≤ ticks_loop longest run s)%nat.
Proof. induction s as [|c s IH]; intros longest run; cbn; [lia|]. destruct (is_byte backtick c); [|apply IH]. etransitivity; [|apply IH]. lia. Qed.
Lemma ticks_loop_run a n b : ∀ longest run, (n ≤ ticks_loop longest run (a ++ repeat backtick n ++ b))%nat.
Proof.
  induction a as [|c a IH]; intros longest run; cbn [app ticks_loop]; [|destruct (is_byte backtick c); apply IH].
  assert (∀ n longest run, (n ≤ ticks_loop longest run (repeat backtick n ++ b) ∨ n = 0)%nat ∧ (n + run ≤ ticks_loop longest run (repeat backtick n ++ b) ∨ n = 0)%nat) as H.
  { clear. induction n as [|n IH]; intros longest run; [auto|]. cbn [repeat app ticks_loop].
    assert (is_byte backtick backtick = true) as -> by done. pose proof (ticks_loop_ge (repeat backtick n ++ b) (Nat.max longest (S run)) (S run)).
    destruct (IH (Nat.max longest (S run)) (S run)) as [H1 H2]. lia. }
  destruct (H n longest run). lia.
Qed.
Lemma span_repeat p c s : (∀ d, p d = true → d = c) → (span p s).1 = repeat c (length (span p s).1).
Proof.
  intros Hp. induction s as [|d s IH]; [done|]. cbn [span]. destruct (p d) eqn:E; [|done]. apply Hp in E as ->. destruct (span p s).
  cbn in *. by f_equal.
Qed.
Lemma line_infix ls (l : text) : l ∈ ls → ∃ a b, join_lines ls = a ++ l ++ b.
Proof.
  induction ls as [|x ls IH]; [by intros ?%elem_of_nil|]. intros [->|Hl]%elem_of_cons.
  - destruct ls as [|y ls]; [exists [], []; cbn; by rewrite app_nil_r|]. by exists [], (newline :: join_lines (y :: ls)).
  - destruct (IH Hl) as (a & b & Hab). destruct ls as [|y ls]; [by apply elem_of_nil in Hl|].
    exists (x ++ (newline :: a)), b. change (join_lines (x :: y :: ls)) with (x ++ (newline :: join_lines (y :: ls))). rewrite Hab. by rewrite <- app_assoc.
Qed.
Lemma view_drop_spaces_suffix n s : ∃ a, s = a ++ drop_spaces n s.
Proof.
  revert s. induction n as [|n IH]; intros s; [by exists []|]. destruct s as [|c s]; [by exists []|]. cbn [drop_spaces].
  destruct (is_byte " "%char c); [|by exists []]. destruct (IH s) as [a Ha]. exists (c :: a). cbn. by f_equal.
Qed.
(** No line of the content closes the fence. *)
Lemma markdownFence_open body l : l ∈ split_lines body → IsMarkdownFenceClose l (length (markdownFence body)) = false.
Proof.
  intros Hl. unfold IsMarkdownFenceClose. destruct (_ <? 3)%nat; [done|]. destruct (span _ _) as [run s] eqn:Hs.
  apply andb_false_iff. left. apply Nat.leb_gt. unfold markdownFence. rewrite repeat_length.
  enough (length run ≤ ticks_loop 0 0 body)%nat by lia.
  apply line_infix in Hl as (a & b & Hab). rewrite join_split_lines in Hab. destruct (view_drop_spaces_suffix 3 l) as [pre Hpre].
  pose proof (span_app (is_byte backtick) (drop_spaces 3 l)) as Happ. pose proof (span_repeat (is_byte backtick) backtick (drop_spaces 3 l)) as Hrun.
  rewrite Hs in Happ, Hrun. cbn [fst snd] in *.
  rewrite Hab, Hpre, <- Happ, Hrun. 2: { intros d Hd. by apply bool_decide_eq_true in Hd. }
  replace (a ++ (pre ++ repeat backtick (length run) ++ s) ++ b) with ((a ++ pre) ++ repeat backtick (length run) ++ (s ++ b)) by (rewrite <- !app_assoc; done).
  rewrite repeat_length at 1. apply ticks_loop_run.
Qed.

(** ** A code block, from the view back to storage format *)

Definition code_view (lang body : text) : text := markdownFence body ++ lang ++ (newline :: body ++ (newline :: markdownFence body)).
Lemma fence_repeat body : ∃ k, markdownFence body = repeat backtick (S (S (S k))).
Proof. unfold markdownFence. exists (Nat.max 3 (S (ticks_loop 0 0 body)) - 3)%nat. f_equal. lia. Qed.
Lemma view_fence_open body lang : existsb (is_byte backtick) lang = false →
  WikiScanner.ParseMarkdownFenceOpen (markdownFence body ++ lang) = Some (length (markdownFence body), lang).
Proof.
  intros Hl. destruct (fence_repeat body) as [k ->]. unfold WikiScanner.ParseMarkdownFenceOpen.
  change (drop_spaces 3 (repeat backtick (S (S (S k))) ++ lang)) with (repeat backtick (S (S (S k))) ++ lang).
  assert (∀ n, span (is_byte backtick) (repeat backtick n ++ lang) = (repeat backtick n, lang)) as ->.
  { induction n as [|n IH]; cbn [repeat app span]; [|by rewrite IH]. destruct lang as [|c l]; [done|]. cbn [existsb] in Hl. bool_hyps.
    cbn [span]. by destruct (is_byte backtick c). }
  by rewrite repeat_length, Hl.
Qed.
Lemma view_fence_close body : IsMarkdownFenceClose (markdownFence body) (length (markdownFence body)) = true.
Proof.
  destruct (fence_repeat body) as [k ->]. unfold IsMarkdownFenceClose. rewrite repeat_length.
  assert (∀ n, span (is_byte backtick) (repeat backtick n) = (repeat backtick n, [])) as H by (induction n as [|n IH]; cbn [repeat span]; [done|by rewrite IH]).
  change (drop_spaces 3 (repeat backtick (S (S (S k))))) with (repeat backtick (S (S (S k)))). rewrite H, repeat_length.
  assert ((S (S (S k)) <? 3)%nat = false) as -> by (apply Nat.ltb_ge; lia). by rewrite Nat.leb_refl.
Qed.
Lemma blocks_in_fence run ls rest cur : (0 < run)%nat → Forall (λ l, IsMarkdownFenceClose l run = false) ls →
  WikiScanner.blocks_loop (ls ++ rest) run cur = WikiScanner.blocks_loop rest run (cur ++ ls).
Proof.
  intros Hr H. revert cur. induction H as [|l ls Hl _ IH]; intros cur; [by rewrite app_nil_r|]. cbn [app WikiScanner.blocks_loop].
  rewrite (proj2 (Nat.ltb_lt _ _)) by done. rewrite Hl, IH. by rewrite <- app_assoc.
Qed.
Lemma join_lines_app a b : a ≠ [] → b ≠ [] → join_lines (a ++ b) = join_lines a ++ (newline :: join_lines b).
Proof.
  intros Ha Hb. induction a as [|x a IH]; [done|]. destruct a as [|y a]; [by destruct b|].
  change (join_lines ((x :: y :: a) ++ b)) with (x ++ (newline :: join_lines ((y :: a) ++ b))). rewrite IH by done.
  change (join_lines (x :: y :: a)) with (x ++ (newline :: join_lines (y :: a))). by rewrite <- app_assoc.
Qed.
Lemma code_view_lines lang body : forallb (λ c, negb (is_byte newline c)) lang = true →
  split_lines (code_view lang body) = (markdownFence body ++ lang) :: split_lines body ++ [markdownFence body].
Proof.
  intros Hl. unfold code_view. rewrite app_assoc, !WikiScanner.split_lines_app.
  assert (∀ k, forallb WikiScanner.not_newline (repeat backtick k) = true) as Hf by (induction k; done).
  destruct (fence_repeat body) as [k Hk]. rewrite (Markdown.split_lines_one (_ ++ lang)), (Markdown.split_lines_one (markdownFence body)); [done|by rewrite Hk|].
  rewrite forallb_app, Hk, Hf. exact Hl.
Qed.

(** A language line keeps no backtick and no line end. *)
Lemma info_clean l : let info := safeMarkdownFenceInfo l in
  existsb (is_byte backtick) info = false ∧ forallb (λ c, negb (is_byte newline c)) info = true.
Proof.
  unfold safeMarkdownFenceInfo, NormalizeMarkdownFenceInfo. destruct (existsb _ (trim_space l)) eqn:E; [done|]. cbn [default].
  split_and!.
  - apply not_true_iff_false. intros H. apply existsb_exists in H as (c & Hc & Hb). apply not_true_iff_false in E. apply E, existsb_exists.
    exists c. split; [done|]. by rewrite Hb.
  - apply forallb_forall. intros c Hc. apply not_true_iff_false in E. destruct (is_byte newline c) eqn:Hn; [|done]. destruct E. apply existsb_exists.
    exists c. split; [done|]. by rewrite Hn, !orb_true_r.
Qed.

Lemma fenced_view info body : fenced (markdownFence body) info body = code_view info body ++ (newline :: nl 1).
Proof. unfold fenced, code_view, nl. cbn [repeat]. rewrite <- !app_assoc. cbn [app]. rewrite <- !app_assoc. done. Qed.
Lemma code_view_block info body : existsb (is_byte backtick) info = false → forallb (λ c, negb (is_byte newline c)) info = true →
  WikiScanner.SplitBlocks (fenced (markdownFence body) info body) = [code_view info body].
Proof.
  intros Hb Hn. unfold WikiScanner.SplitBlocks. rewrite fenced_view, WikiScanner.split_lines_app, code_view_lines by done.
  destruct (fence_repeat body) as [k Hk].
  assert (eqt (trim_space (markdownFence body ++ info)) [] = false) as Hs.
  { apply eqt_false. rewrite Hk. cbn [repeat app]. destruct (trim_space_head backtick (repeat backtick (S (S k)) ++ info)) as [t Ht]; [done..|].
    cbn [repeat app] in Ht. by rewrite Ht. }
  cbn [app WikiScanner.blocks_loop]. change (0 <? 0)%nat with false. cbn iota. rewrite Hs, view_fence_open by done. cbn [WikiScanner.flush app].
  rewrite <- app_assoc, blocks_in_fence; [|rewrite Hk, repeat_length; lia|apply Forall_forall; intros l; apply markdownFence_open].
  change (split_lines (nl 1)) with [[]; [] : text]. cbn [app WikiScanner.blocks_loop].
  assert ((0 <? length (markdownFence body))%nat = true) as -> by (rewrite Hk, repeat_length; done). rewrite view_fence_close.
  change (0 <? 0)%nat with false. cbn iota. change (eqt (trim_space []) []) with true. cbn [WikiScanner.flush app].
  pose proof (join_split_lines (code_view info body)) as Hj. rewrite code_view_lines in Hj by done. by f_equal.
Qed.

Definition control_free (s : text) : Prop := MdCsf.first_control (length s) s = None.
Lemma fence_body_clean body : forallb (λ c, negb (is_byte WikiScanner.cr c)) body = true → MdCsf.fence_body (split_lines body) = body.
Proof.
  intros Hc. unfold MdCsf.fence_body. rewrite join_split_lines.
  assert (∀ fuel s, (length s ≤ fuel)%nat → forallb (λ c, negb (is_byte WikiScanner.cr c)) s = true →
    Markdown.replace_fuel fuel s [WikiScanner.cr; newline] [newline] = s) as Hr.
  { induction fuel as [|fuel IH]; intros s Hl Hs; [destruct s; [done|cbn in Hl; lia]|]. destruct s as [|c s]; [done|]. cbn [forallb] in Hs. bool_hyps.
    cbn [Markdown.replace_fuel]. assert (has_prefix (c :: s) [WikiScanner.cr; newline] = false) as ->.
    { apply not_true_iff_false. rewrite has_prefix_spec. intros [t [= -> _]]. done. }
    rewrite IH; [done|cbn in Hl; lia|done]. }
  unfold replace_all. rewrite Hr by done. unfold Markdown.trim_suffix, has_suffix. case_bool_decide as Hd; [|done]. destruct Hd as [Hd _].
  assert (WikiScanner.cr ∈ body) as Hin.
  { rewrite <- (take_drop (length body - length [WikiScanner.cr]) body), Hd. apply elem_of_app. right. by apply list_elem_of_here. }
  rewrite forallb_forall in Hc. specialize (Hc _ (proj1 (list_elem_of_In _ _) Hin)). done.
Qed.
Lemma trim_right_nl_solid s c : is_byte newline c = false → trim_right_nl (s ++ [c]) = s ++ [c].
Proof. intros Hc. unfold trim_right_nl. rewrite reverse_app. change (reverse [c]) with [c]. cbn [app drop_nl]. unfold is_byte, newline in Hc. rewrite Hc.
  by rewrite reverse_cons, reverse_involutive.
Qed.
Lemma code_view_convert info body : valid_utf8 (code_view info body) = true → control_free (code_view info body) →
  forallb (λ c, negb (is_byte WikiScanner.cr c)) body = true → existsb (is_byte backtick) info = false → forallb (λ c, negb (is_byte newline c)) info = true →
  ∃ pieces, concat pieces = body ∧ Forall (λ p, contains p (txt "]]>") = false) pieces ∧
    MdCsf.Convert (code_view info body) = Ok (MdCsf.render (MdCsf.macro "code" (MdCsf.params "language" (trim_space info) ++ [MdCsf.elem "ac:plain-text-body" (map MdCsf.CData pieces)]))).
Proof.
  intros Hv Hc Hcr Hb Hn. pose proof (fence_repeat body) as [k Hk].
  assert (MdCsf.Convert (code_view info body) = MdCsf.convertFence (split_lines (code_view info body))) as ->.
  { unfold MdCsf.Convert. cbn [MdCsf.convert].
    assert (trim_right_nl (code_view info body) = code_view info body) as ->.
    { assert (code_view info body = (markdownFence body ++ info ++ (newline :: body ++ (newline :: repeat backtick (S (S k))))) ++ [backtick]) as ->;
        [|by apply trim_right_nl_solid].
      unfold code_view. rewrite <- !app_assoc. cbn [app]. rewrite <- app_assoc. cbn [app]. rewrite <- repeat_cons. by rewrite Hk. }
    assert (eqt (trim_space (code_view info body)) [] = false) as ->.
    { apply eqt_false. unfold code_view. rewrite Hk. cbn [repeat app]. match goal with |- trim_space (?c :: ?r) ≠ [] => destruct (trim_space_head c r) as [t Ht] end; [done..|].
      by rewrite Ht. }
    rewrite Hv. unfold control_free in Hc. rewrite Hc. cbn [negb]. rewrite code_view_lines by done. cbn [head default]. unfold id.
    rewrite view_fence_open by done. by rewrite bool_decide_eq_true_2. }
  assert (is_ok (MdCsf.convertFence (split_lines (code_view info body))) = true) as Hok.
  { rewrite code_view_lines by done. unfold MdCsf.convertFence. cbn [head default]. unfold id. rewrite view_fence_open by done. cbn zeta.
    cbn [length pred]. rewrite length_app. cbn [length]. rewrite Nat.add_1_r. cbn [Nat.eqb orb]. cbn [lookup list_lookup].
    pose proof (list_lookup_middle (split_lines body) [] (markdownFence body) _ eq_refl) as Hlast. cbn [from_option].
    match goal with |- context [from_option _ _ ?x] => change x with ((split_lines body ++ [markdownFence body]) !! length (split_lines body)) end.
    rewrite Hlast. cbn [from_option]. by rewrite view_fence_close. }
  destruct (MdCsf.convertFence (split_lines (code_view info body))) as [out|] eqn:Hout; [|done].
  rewrite code_view_lines in Hout by done. apply MdCsf.convertFence_macro in Hout as (run & i & pieces & Hp & Hcat & Hpc & ->).
  rewrite view_fence_open in Hp by done. simplify_eq. exists pieces. split_and!; [|done|done]. rewrite Hcat. unfold slice. cbn [drop].
  rewrite length_app. cbn [length]. rewrite Nat.add_sub. 
  match goal with |- MdCsf.fence_body ?x = _ => replace x with (split_lines body) by (symmetry; apply take_app_length) end. by apply fence_body_clean.
Qed.

(** A code macro survives the view: what it renders to is one Markdown block
    whatever the code contains, and converting that block gives back a code macro
    with the same language and, over CDATA sections that never contain the end
    marker, the same code. *)
Theorem code_view_converts lang body : let info := safeMarkdownFenceInfo lang in let view := code_view info body in
  valid_utf8 view = true → control_free view → forallb (λ c, negb (is_byte WikiScanner.cr c)) body = true →
  WikiScanner.SplitBlocks (fenced (markdownFence body) info body) = [view] ∧
  ∃ pieces, concat pieces = body ∧ Forall (λ p, contains p (txt "]]>") = false) pieces ∧
    MdCsf.Convert view = Ok (MdCsf.render (MdCsf.macro "code" (MdCsf.params "language" (trim_space info) ++ [MdCsf.elem "ac:plain-text-body" (map MdCsf.CData pieces)]))).
Proof.
  intros info view Hv Hc Hcr. destruct (info_clean lang) as [Hb Hn]. split; [by apply code_view_block|by apply code_view_convert].
Qed.

(** ** Table grids *)

(** The cells of a row that start there, with what identifies them. *)
Definition origins (row : list TableCell) : list (cell_id * Node) := omap (λ c, if Origin c then CNode c else None) row.
Definition row_origins (ri ci : nat) (cs : list Node) : list (cell_id * Node) := imap (λ i c, ((ri, (ci + i)%nat), c)) cs.

Lemma origins_app a b : origins (a ++ b) = origins a ++ origins b.
Proof. apply omap_app. Qed.
Lemma take_pending_origin pending col c pending' : take_pending pending col = Some (c, pending') → Origin c = false.
Proof. unfold take_pending. destruct (pending !! col); [|done]. by intros [= <- _]. Qed.
Lemma fill_pending_origins fuel : ∀ pending col cells, origins (fill_pending fuel pending col cells).2 = origins cells.
Proof.
  induction fuel as [|fuel IH]; intros pending col cells; [done|]. cbn [fill_pending]. destruct (take_pending pending col) as [[c p]|] eqn:H; [|done].
  rewrite IH, origins_app. apply take_pending_origin in H. cbn. rewrite H. apply app_nil_r.
Qed.
Lemma trail_origins fuel : ∀ pending col cells, origins (trail fuel pending col cells).2 = origins cells.
Proof.
  induction fuel as [|fuel IH]; intros pending col cells; [done|]. cbn [trail]. destruct (_ <=? _); [|done].
  destruct (take_pending pending col) as [[c p]|] eqn:H; rewrite IH, origins_app; [|apply app_nil_r]. apply take_pending_origin in H. cbn. rewrite H. apply app_nil_r.
Qed.
Lemma span_cols_origins n : ∀ k node t rs pending col cells,
  origins (span_cols n k node t rs pending col cells).2 = origins cells ++ (if (k =? 0)%nat && (0 <? n)%nat then [node] else []).
Proof.
  induction n as [|n IH]; intros k node t rs pending col cells; cbn [span_cols]; [by rewrite andb_false_r, app_nil_r|].
  rewrite IH, origins_app. change (S k =? 0)%nat with false. cbn [andb]. rewrite app_nil_r. f_equal. cbn. by destruct (k =? 0)%nat.
Qed.
Lemma span_of_pos r name c : (0 < span_of r name c)%nat.
Proof.
  unfold span_of. destruct (is_current r).
  - unfold TableSpan. destruct (tableSpanValue c name) as [v|] eqn:H; [|lia]. unfold tableSpanValue in H.
    repeat case_match; simplify_eq. unfold MaxTableSpan. lia.
  - repeat case_match; unfold MaxTableSpan; lia.
Qed.
Lemma row_cells_origins r ri cs : ∀ ci pending col cells, origins (row_cells r ri ci cs pending col cells).2 = origins cells ++ row_origins ri ci cs.
Proof.
  induction cs as [|c cs IH]; intros ci pending col cells; [by rewrite app_nil_r|]. cbn [row_cells].
  destruct (fill_pending _ _ _ _) as [[p1 c1] cells1] eqn:H1. destruct (span_cols _ _ _ _ _ _ _ _) as [[p2 c2] cells2] eqn:H2. rewrite IH.
  pose proof (fill_pending_origins (S (size pending)) pending col cells) as F1. rewrite H1 in F1. cbn [snd] in F1.
  pose proof (span_cols_origins (span_of r "colspan" c) 0 ((ri, ci), c) (trim_space (inline r c)) (span_of r "rowspan" c) p1 c1 cells1) as F2.
  rewrite H2, F1 in F2. cbn [snd] in F2. rewrite F2. pose proof (span_of_pos r "colspan" c). rewrite (proj2 (Nat.ltb_lt _ _)) by done. cbn [Nat.eqb andb].
  rewrite <- app_assoc. f_equal. unfold row_origins. cbn [imap app]. f_equal; [by rewrite Nat.add_0_r|]. apply imap_ext. intros i x _. cbn. do 2 f_equal. lia.
Qed.
Lemma grid_loop_spec r trs : ∀ ri pending, Forall2 (λ (p : nat * Node) row, origins row = row_origins p.1 0 (rowCells p.2)) (imap (λ i tr, ((ri + i)%nat, tr)) trs) (grid_loop r ri trs pending).
Proof.
  induction trs as [|tr trs IH]; intros ri pending; [constructor|]. cbn [imap grid_loop].
  destruct (row_cells r ri 0 (rowCells tr) pending 0 []) as [[p1 c1] cells1] eqn:H1. destruct (trail _ _ _ _) as [p2 cells2] eqn:H2. constructor.
  - cbn [fst snd]. rewrite Nat.add_0_r. pose proof (row_cells_origins r ri (rowCells tr) 0 pending 0 []) as F1. rewrite H1 in F1. cbn [snd] in F1.
    pose proof (trail_origins (S (Z.to_nat (maxPendingCol p1))) p1 c1 cells1) as F2. rewrite H2 in F2. cbn [snd] in F2. by rewrite F2, F1.
  - specialize (IH (S ri) p2). erewrite imap_ext; [exact IH|]. intros i x _. cbn. f_equal. lia.
Qed.

Lemma tableGrid_spec r n : let '(grid, trs, _) := tableGrid r n in
  length grid = length trs ∧
  (∃ width, Forall (λ row, length row = width) grid) ∧
  ∀ i row tr, grid !! i = Some row → trs !! i = Some tr → origins row = imap (λ ci c, ((i, ci), c)) (rowCells tr).
Proof.
  unfold tableGrid. set (trs := tableRows n). set (grid := grid_loop r 0 trs ∅). set (width := list_max (map length grid)).
  pose proof (grid_loop_spec r trs 0 ∅) as Hg. fold grid in Hg. split_and!.
  - rewrite length_map. apply Forall2_length in Hg. by rewrite length_imap in Hg.
  - exists width. rewrite Forall_map. apply Forall_forall. intros row Hrow. rewrite length_app, length_replicate.
    pose proof (proj1 (list_max_le (map length grid) width) ltac:(lia)) as Hall. rewrite Forall_forall in Hall.
    specialize (Hall (length row) (list_elem_of_fmap_2 _ _ _ Hrow)). lia.
  - intros i row tr Hrow Htr. change (map (λ row, row ++ replicate (width - length row) padding) grid) with ((λ row, row ++ replicate (width - length row) padding) <$> grid) in Hrow.
    apply list_lookup_fmap_Some in Hrow as (row0 & -> & Hrow0). rewrite origins_app.
    assert (∀ k, origins (replicate k padding) = []) as -> by (induction k; done). rewrite app_nil_r.
    pose proof (Forall2_lookup_lr _ _ _ i (i, tr) row0 Hg) as H. cbn in H. rewrite H; [done| |done].
    by rewrite list_lookup_imap, Htr.
Qed.

(** The grid of a table is rectangular, has a row for every source row, and its
    row [i] contains every cell of the [i]-th source row exactly once as an
    origin, in order; every other slot continues a span or pads the row. *)
Theorem tableGrid_cells r n : let '(grid, trs, _) := tableGrid r n in
  length grid = length trs ∧
  (∃ width, Forall (λ row, length row = width) grid) ∧
  ∀ i row tr, grid !! i = Some row → trs !! i = Some tr → origins row = imap (λ ci c, ((i, ci), c)) (rowCells tr).
Proof. apply tableGrid_spec. Qed.

Module Demo.
Definition table_body : text := txt "<table><tbody><tr><th colspan='2'>A</th><th>B</th></tr><tr><td rowspan='2'>x|y</td><td>1</td><td><b>2</b></td></tr><tr><td>3</td></tr></tbody></table>".
Definition view (raw : text) : option text := match Parse raw with Ok root => Some (RenderMarkdown root []) | Err _ => None end.
Example view_table : view table_body = Some (join_lines (map txt ["| A |  | B |"; "| --- | --- | --- |"; "| x\|y | 1 | **2** |"; "| x\|y | 3 |  |"; ""]%string)).
Proof. vm_compute. reflexivity. Qed.
Example view_demo : view (txt "<ac:layout><ac:layout-section><ac:layout-cell><h2>T</h2><p>a <ac:link><ri:page ri:content-title='P' ri:space-key='S'/></ac:link><br/>b</p><ul><li>i<ol><li>j</li></ol></li></ul></ac:layout-cell></ac:layout-section></ac:layout><ac:structured-macro ac:name='info'><ac:rich-text-body><p>x</p></ac:rich-text-body></ac:structured-macro>")
  = Some (join_lines (map txt ["## T"; ""; "a [P](confluence-page:S/P)<br>b"; ""; "- i"; "  1. j"; ""; "> INFO"; "> "; "> x"; ""]%string)).
Proof. vm_compute. reflexivity. Qed.

(** A code element with a line break is shown as a fenced block; one whose text
    contains a newline is not, because the walk that looks for it visits elements
    only. *)
Example code_tables :
  let table code := txt "<table><tbody><tr><td><p><code>" ++ code ++ txt "</code></p></td></tr></tbody></table>" in
  let shown code := match Parse (table code) with Ok root => renderQualifiedCommentMarkdownVersion root 2 confluenceMarkdownCurrent | Err _ => [] end in
  shown (txt "a<br/>b") = join_lines (map txt ["```"; "a"; "b"; "```"; ""]%string) ∧
  shown (txt "a" ++ [newline] ++ txt "b") = join_lines (map txt ["| `a b` |"; "| --- |"; ""]%string).
Proof. vm_compute. split; reflexivity. Qed.

Lemma code_view_converts_witness : ∃ pieces : list text, concat pieces = txt "a```]]>b".
Proof.
  destruct (code_view_converts (txt " go ") (txt "a```]]>b")) as (_ & pieces & H & _); [vm_compute; reflexivity..|].
  exists pieces. exact H.
Defined.
End Demo.
End MdView.
