(* ===== verification/ViewBlocks.v ===== *)
(** * The view of a body, block by block (internal/mirror: markdown.go, blocks.go)

    The whole Markdown view splits into the views of the body's blocks when each of
    these closes the fences it opens and is set off by a blank line.  A block that
    shows code always does: its fence is longer than any run of backticks in it. *)

From S2P Require Import Prelude GoText WikiScanner Json Markdown Xml Csf Fragment MdView.
Import GoText.
Import WikiScanner (split_lines, join_lines, is_byte, newline, backtick, fence_after, fences_closed, SplitBlocks).
Import Markdown (replace_all, replace_fuel).
Import Xml (Space, Local_).
Import Csf MdView.

Module ViewBlocks.
Local Open Scope Z_scope.

(** ** Runs of line ends *)

(** What [collapseBlankRuns] computes: no more than two line ends in a row, [run]
    of which came before. *)
Fixpoint cap (run : nat) (s : text) : text :=
  match s with
  | [] => []
  | c :: s => if is_byte newline c then (if (run <? 2)%nat then newline :: cap (S run) s else cap run s) else c :: cap 0 s
  end.
Fixpoint cap_run (run : nat) (s : text) : nat :=
  match s with
  | [] => run
  | c :: s => cap_run (if is_byte newline c then (if (run <? 2)%nat then S run else run) else 0%nat) s
  end.

Lemma is_newline c : is_byte newline c = true → c = newline.
Proof. apply bool_decide_eq_true. Qed.
Lemma cap_app a : ∀ run b, cap run (a ++ b) = cap run a ++ cap (cap_run run a) b.
Proof.
  induction a as [|c a IH]; intros run b; [done|]. cbn [app cap cap_run]. destruct (is_byte newline c); [|by rewrite IH].
  destruct (run <? 2)%nat; by rewrite IH.
Qed.
Lemma cap_run_app a : ∀ run b, cap_run run (a ++ b) = cap_run (cap_run run a) b.
Proof. induction a as [|c a IH]; intros run b; [done|]. cbn [app cap_run]. apply IH. Qed.
Lemma cap_run_le s : ∀ run, (run ≤ 2)%nat → (cap_run run s ≤ 2)%nat.
Proof.
  induction s as [|c s IH]; intros run Hr; [done|]. cbn [cap_run]. apply IH. destruct (is_byte newline c); [|lia].
  destruct (run <? 2)%nat eqn:E; [apply Nat.ltb_lt in E; lia|done].
Qed.
Lemma nl_S n : nl (S n) = newline :: nl n. Proof. done. Qed.
Lemma nl_add a b : nl (a + b) = nl a ++ nl b. Proof. apply repeat_app. Qed.
Lemma cap_nl n : ∀ run, (run ≤ 2)%nat → cap run (nl n) = nl (Nat.min n (2 - run)) ∧ cap_run run (nl n) = Nat.min 2 (run + n)%nat.
Proof.
  induction n as [|n IH]; intros run Hr; [split; [done|cbn [nl repeat cap_run]; lia]|]. rewrite nl_S. cbn [cap cap_run]. change (is_byte newline newline) with true. cbn iota.
  destruct (run <? 2)%nat eqn:E; [apply Nat.ltb_lt in E|apply Nat.ltb_ge in E].
  - destruct (IH (S run)) as [-> ->]; [lia|]. split; [|lia]. replace (Nat.min (S n) (2 - run)) with (S (Nat.min n (2 - S run))) by lia. done.
  - destruct (IH run Hr) as [-> ->]. split; [f_equal; lia|lia].
Qed.

(** Two line ends for three change nothing. *)
Lemma cap_three run s : cap run (newline :: newline :: newline :: s) = cap run (newline :: newline :: s).
Proof. cbn [cap]. change (is_byte newline newline) with true. cbn iota. destruct run as [|[|run]]; done. Qed.
Lemma cap_replace fuel : ∀ run s, (length s ≤ fuel)%nat → cap run (replace_fuel fuel s (nl 3) (nl 2)) = cap run s.
Proof.
  induction fuel as [|fuel IH]; intros run s Hl; [destruct s; [done|cbn in Hl; lia]|]. destruct s as [|c s]; [done|]. cbn [replace_fuel].
  destruct (has_prefix (c :: s) (nl 3)) eqn:Hp.
  - apply has_prefix_spec in Hp as [r Hr]. rewrite Hr. change (drop (length (nl 3)) (nl 3 ++ r)) with r.
    change (nl 3 ++ r) with (newline :: newline :: newline :: r). rewrite cap_three. change (newline :: newline :: r) with (nl 2 ++ r).
    rewrite !cap_app, IH; [done|]. apply (f_equal length) in Hr. cbn in *. lia.
  - cbn [cap]. rewrite !IH by (cbn in Hl; lia). done.
Qed.
Lemma replace_shorter fuel : ∀ s, (length s ≤ fuel)%nat → (length (replace_fuel fuel s (nl 3) (nl 2)) ≤ length s)%nat ∧
  (contains s (nl 3) = true → (length (replace_fuel fuel s (nl 3) (nl 2)) < length s)%nat).
Proof.
  induction fuel as [|fuel IH]; intros s Hl; [destruct s; [by split|cbn in Hl; lia]|]. destruct s as [|c s]; [by split|]. cbn [replace_fuel].
  destruct (has_prefix (c :: s) (nl 3)) eqn:Hp.
  - apply has_prefix_spec in Hp as [r Hr]. rewrite Hr. change (drop (length (nl 3)) (nl 3 ++ r)) with r.
    assert (length (c :: s) = 3 + length r)%nat as Hlr by (rewrite Hr; done). destruct (IH r) as [H1 _]; [cbn in *; lia|].
    rewrite !length_app. unfold nl in *. rewrite !repeat_length. split; intros; lia.
  - destruct (IH s) as [H1 H2]; [cbn in Hl; lia|]. cbn [length]. split; [lia|]. intros Hc. apply (proj1 (Nat.succ_lt_mono _ _)), H2.
    unfold contains in *. apply bool_decide_eq_true in Hc. apply bool_decide_eq_true. cbn [index] in Hc. rewrite Hp in Hc.
    destruct (index s (nl 3)); [done|by destruct Hc].
Qed.
Lemma cap_fix s : ∀ run, (run ≤ 2)%nat → contains (nl run ++ s) (nl 3) = false → cap run s = s.
Proof.
  induction s as [|c s IH]; intros run Hr Hc; [done|]. cbn [cap]. destruct (is_byte newline c) eqn:Hn.
  - apply is_newline in Hn as ->. assert (nl run ++ newline :: s = nl (S run) ++ s) as Heq.
    { replace (S run) with (run + 1)%nat by lia. rewrite nl_add, <- app_assoc. done. }
    destruct (run <? 2)%nat eqn:E; [apply Nat.ltb_lt in E; f_equal; apply IH; [lia|by rewrite <- Heq]|].
    apply Nat.ltb_ge in E. assert (run = 2)%nat as -> by lia. exfalso. rewrite Heq in Hc.
    rewrite (Markdown.contains_at _ _ 0) in Hc; [done|lia|]. apply has_prefix_spec. by exists s.
  - f_equal. apply IH; [lia|]. cbn [nl repeat app]. destruct (contains s (nl 3)) eqn:E; [|done].
    unfold contains in E. apply bool_decide_eq_true in E as [i Hi]. apply index_spec in Hi as (Hp & Hi & _).
    rewrite (Markdown.contains_at _ _ (run + 1 + i)) in Hc; [done|rewrite length_app; unfold nl; rewrite repeat_length; cbn; lia|].
    rewrite <- Hp. f_equal. rewrite drop_app_ge by (unfold nl; rewrite repeat_length; lia). unfold nl. rewrite repeat_length.
    replace (run + 1 + i - run)%nat with (S i) by lia. done.
Qed.
Lemma collapse_cap s : collapseBlankRuns s = cap 0 s.
Proof.
  unfold collapseBlankRuns. assert (length s ≤ length s)%nat as Hl by done. revert Hl. generalize (length s) at 2 3 as fuel. intros fuel. revert s.
  induction fuel as [|fuel IH]; intros s Hl; [destruct s; [done|cbn in Hl; lia]|]. cbn [squeeze_fuel]. destruct (contains s (nl 3)) eqn:Hc.
  - destruct (replace_shorter (length s) s) as [_ Hlt]; [done|]. specialize (Hlt Hc). unfold replace_all. rewrite IH by lia. by apply cap_replace.
  - symmetry. by apply cap_fix; [lia|].
Qed.

(** Dropping empty lines changes no fence. *)
Lemma fence_after_blank f ls : fence_after f ([] :: ls) = fence_after f ls.
Proof.
  cbn [fence_after]. destruct (0 <? f)%nat eqn:E; [|apply Nat.ltb_ge in E; assert (f = 0)%nat as -> by lia; done].
  assert (WikiScanner.IsMarkdownFenceClose [] f = false) as ->; [|done]. unfold WikiScanner.IsMarkdownFenceClose.
  destruct (f <? 3)%nat eqn:E3; [done|]. apply Nat.ltb_ge in E3. cbn. destruct f; [lia|done].
Qed.
Lemma cap_fences s : (∀ run f, fence_after f (split_lines (cap run s)) = fence_after f (split_lines s)) ∧
  ∃ l ls ls', split_lines (cap 0 s) = l :: ls ∧ split_lines s = l :: ls' ∧ ∀ f, fence_after f ls = fence_after f ls'.
Proof.
  induction s as [|c s [IH1 (l & ls & ls' & E1 & E2 & IH2)]].
  { split; [done|]. exists [], [], []. done. }
  cbn [cap split_lines].
  destruct (is_byte newline c) eqn:Hc.
  - split; [|exists [], (split_lines (cap 1 s)), (split_lines s); split_and!; [done|done|apply IH1]]. intros run f. destruct (run <? 2)%nat.
    + cbn [split_lines]. change (is_byte newline newline) with true. cbn iota. by rewrite !fence_after_blank, IH1.
    + by rewrite fence_after_blank, IH1.
  - cbn [split_lines]. rewrite Hc, E1, E2. split; [|by exists (c :: l), ls, ls']. intros run f. cbn [fence_after].
    destruct (0 <? f)%nat; [apply IH2|]. destruct (eqt _ _); [apply IH2|]. destruct (WikiScanner.ParseMarkdownFenceOpen (c :: l)) as [[??]|]; apply IH2.
Qed.
Lemma cap_fences_closed s : fences_closed (cap 0 s) ↔ fences_closed s.
Proof. unfold fences_closed. by rewrite (proj1 (cap_fences s)). Qed.

(** ** Trimming next to a line end *)

Definition starts_visible (s : text) : Prop := is_space (decode_rune s).1 = false.
Definition ends_visible (s : text) : Prop := is_space (decode_last_rune s).1 = false.

Lemma starts_visible_app m t : m ≠ [] → starts_visible m → starts_visible (m ++ newline :: t).
Proof.
  unfold starts_visible. intros Hm Hs. destruct (is_space (decode_rune (m ++ newline :: t)).1) eqn:E; [|done].
  assert (decodes (m ++ newline :: t)) as Hd by (split; [by destruct m|intros Hd; by rewrite Hd in E]).
  destruct (decide (snd (decode_rune (m ++ newline :: t)) ≤ length m)%nat) as [Hle|Hgt].
  - rewrite <- (decode_rune_take _ (length m) Hle), take_app_length in E; [congruence|destruct m; [done|cbn; lia]].
  - pose proof (decodes_continuation _ (length m) newline Hd) as Hc. destruct Hc; [|by rewrite lookup_app_r, Nat.sub_diag|done].
    destruct m; [done|cbn [length] in *; lia].
Qed.

Lemma last_start_sep x m k : ∀ p, (p < length m)%nat →
  last_start k (x ++ newline :: m) (S (length x) + p) = (S (length x) + last_start k m p)%nat ∨ last_start k (x ++ newline :: m) (S (length x) + p) = length x.
Proof.
  induction k as [|k IH]; intros p Hp; [by left|]. cbn [last_start].
  assert ((x ++ newline :: m) !! (S (length x) + p)%nat = m !! p) as ->.
  { rewrite lookup_app_r by lia. by replace (S (length x) + p - length x)%nat with (S p) by lia. }
  destruct (lookup_lt_is_Some_2 m p Hp) as [c ->]. destruct (rune_start c); [by left|]. cbn [Nat.add]. destruct p as [|p]; [|rewrite Nat.add_succ_r; apply (IH p); lia].
  right. rewrite Nat.add_0_r. destruct k as [|k]; [done|]. cbn [last_start]. by rewrite lookup_app_r, Nat.sub_diag.
Qed.
Lemma ends_visible_app x m : m ≠ [] → ends_visible m → ends_visible (x ++ newline :: m).
Proof.
  unfold ends_visible, decode_last_rune. intros Hm. assert (∃ e, length m = S e) as [e He] by (destruct m; [done|by eexists]).
  rewrite length_app. cbn [length]. rewrite He. replace (length x + S (S e))%nat with (S (S (length x) + e)) by lia.
  assert ((x ++ newline :: m) !! (S (length x) + e)%nat = m !! e) as ->.
  { rewrite lookup_app_r by lia. by replace (S (length x) + e - length x)%nat with (S e) by lia. }
  destruct (lookup_lt_is_Some_2 m e ltac:(lia)) as [c ->]. destruct (byte_val c <? 128); [done|].
  set (start := match e with O => O | S p => last_start 3 m p end).
  set (start' := match (S (length x) + e)%nat with O => O | S p => last_start 3 (x ++ newline :: m) p end).
  assert (start' = (S (length x) + start)%nat ∨ start' = length x) as [Hst|Hst].
  { unfold start', start. cbn [Nat.add]. destruct e as [|e].
    - right. rewrite Nat.add_0_r. cbn [last_start]. by rewrite lookup_app_r, Nat.sub_diag.
    - rewrite Nat.add_succ_r. apply (last_start_sep x m 3 e). lia. }
  - rewrite Hst. rewrite drop_app_ge by lia. replace (S (length x) + start - length x)%nat with (S start) by lia. cbn [drop].
    destruct (decode_rune (drop start m)) as [r sz]. destruct (start + sz =? S e)%nat eqn:E.
    + apply Nat.eqb_eq in E. by rewrite (proj2 (Nat.eqb_eq _ _)) by lia.
    + apply Nat.eqb_neq in E. by rewrite (proj2 (Nat.eqb_neq _ _)) by lia.
  - intros _. rewrite Hst, drop_app_length. rewrite decode_rune_ascii by done. by rewrite (proj2 (Nat.eqb_neq _ _)) by lia.
Qed.

Lemma trim_left_visible s : starts_visible s → trim_left s = s.
Proof. unfold starts_visible, trim_left. destruct s as [|c s]; [done|]. cbn [length trim_left_fuel]. destruct (decode_rune (c :: s)). cbn [fst]. by intros ->. Qed.
Lemma trim_right_visible s : ends_visible s → trim_right s = s.
Proof. unfold ends_visible, trim_right. destruct s as [|c s]; [done|]. cbn [length trim_right_fuel]. destruct (decode_last_rune (c :: s)). cbn [fst]. by intros ->. Qed.
Lemma trim_left_newlines n s : trim_left (nl n ++ s) = trim_left s.
Proof. induction n as [|n IH]; [done|]. unfold trim_left. cbn [nl repeat app length trim_left_fuel]. rewrite decode_rune_ascii by done. exact IH. Qed.
Lemma trim_right_newlines n s : trim_right (s ++ nl n) = trim_right s.
Proof.
  revert s. induction n as [|n IH]; intros s; [by rewrite app_nil_r|]. replace (s ++ nl (S n)) with ((s ++ [newline]) ++ nl n) by (by rewrite <- app_assoc).
  rewrite IH. unfold trim_right at 1. rewrite length_app, Nat.add_1_r. cbn [trim_right_fuel].
  destruct (s ++ [newline]) as [|d r] eqn:Hr; [by destruct s|]. rewrite <- Hr, Markdown.decode_last_rune_ascii by done. cbn.
  by rewrite length_app, Nat.add_sub, take_app_length.
Qed.
Lemma trim_right_ends s : trim_right s = [] ∨ ends_visible (trim_right s).
Proof.
  unfold trim_right. assert (length s ≤ length s)%nat as Hl by done. revert Hl. generalize (length s) at 2 3 4 as fuel. intros fuel. revert s.
  induction fuel as [|fuel IH]; intros s Hl; [destruct s; [by left|cbn in Hl; lia]|]. cbn [trim_right_fuel]. destruct s as [|c s]; [by left|].
  destruct (decode_last_rune (c :: s)) as [r sz] eqn:Hd. destruct (is_space r) eqn:Hr; [|right; unfold ends_visible; by rewrite Hd].
  apply IH. rewrite length_take. destruct sz as [|sz]; [|cbn [length] in *; lia]. exfalso. revert Hd. unfold decode_last_rune. cbn [length].
  destruct (_ !! _) as [x|]; [|intros [= <-]; done]. destruct (byte_val x <? 128); [done|].
  destruct (decode_rune _) as [r' sz'] eqn:Hd'. destruct (_ =? _)%nat eqn:E; [|done]. intros [= -> ->]. apply Nat.eqb_eq in E. rewrite Nat.add_0_r in E.
  rewrite E in Hd'. rewrite drop_ge in Hd' by done. by injection Hd' as <-.
Qed.
Lemma trim_space_visible s : trim_space s ≠ [] → starts_visible (trim_space s) ∧ ends_visible (trim_space s).
Proof.
  unfold trim_space. intros Hn. split; [|by destruct (trim_right_ends (trim_left s))].
  pose proof (Markdown.trim_left_head s) as Hh. destruct (Markdown.trim_right_prefix (trim_left s)) as [b Hb].
  eapply Markdown.head_space_prefix; [done|]. rewrite <- Hb. destruct (trim_left s); [by rewrite Hb in Hn|done].
Qed.
Lemma trim_space_between a s b : starts_visible s → ends_visible s → trim_space (nl a ++ s ++ nl b) = s.
Proof.
  intros Hs He. unfold trim_space. rewrite trim_left_newlines. destruct (decide (s = [])) as [->|Hn].
  - cbn [app]. rewrite <- (app_nil_r (nl b)), trim_left_newlines. done.
  - destruct b as [|b]; [rewrite app_nil_r, trim_left_visible by done; by apply trim_right_visible|].
    rewrite trim_left_visible by (by apply starts_visible_app). rewrite trim_right_newlines. by apply trim_right_visible.
Qed.

(** ** A view of several parts *)

(** The view of one part on its own. *)
Definition part_view (o : text) : text := trim_space (collapseBlankRuns o).
(** Its view is the part itself but for the line ends around it and the blank lines
    in it, a blank line comes after it, and every fence in it is closed. *)
Definition self_contained (o : text) : Prop :=
  ∃ before core after, o = nl before ++ core ++ nl after ∧ collapseBlankRuns core = part_view o ∧
    (part_view o ≠ [] → (2 ≤ after)%nat ∧ fences_closed (part_view o)).

Definition nonempty (s : text) : bool := negb (eqt s []).
Definition gap_joined (parts : list text) : text := Markdown.join (nl 2) parts.

Lemma cap_nil s : cap 0 s = [] → s = [].
Proof. destruct s as [|c s]; [done|]. cbn [cap]. by destruct (is_byte newline c). Qed.
Lemma cap_head c s run : is_byte newline c = false → cap run (c :: s) = cap 0 (c :: s) ∧ cap_run run (c :: s) = cap_run 0 (c :: s).
Proof. intros Hc. cbn [cap cap_run]. by rewrite Hc. Qed.
Lemma cap_run_last s n : cap_run 0 s = S n → ∃ x, cap 0 s = x ++ [newline].
Proof.
  revert n. induction s as [|c s IH] using rev_ind; intros n; [done|]. rewrite cap_run_app, cap_app. cbn [cap_run cap].
  destruct (is_byte newline c); [|done]. destruct (_ <? 2)%nat eqn:E; intros Hn; [by eexists|]. apply IH in Hn as [x ->]. exists x. by rewrite app_nil_r.
Qed.

(** A part in the middle of a text: what comes before it decides how many of its
    leading line ends stay. *)
Lemma cap_part run before core after rest : (run ≤ 2)%nat → cap 0 core ≠ [] → starts_visible (cap 0 core) → ends_visible (cap 0 core) → (2 ≤ after)%nat →
  cap run (nl before ++ core ++ nl after ++ rest) = nl (Nat.min before (2 - run)) ++ cap 0 core ++ nl 2 ++ cap 2 rest.
Proof.
  intros Hr Hne Hs He Ha. rewrite cap_app. destruct (cap_nl before run Hr) as [-> ->]. f_equal.
  assert (∀ run, cap run core = cap 0 core ∧ cap_run run core = 0%nat) as Hcore.
  { destruct core as [|c core]; [done|]. destruct (is_byte newline c) eqn:Hc.
    { exfalso. apply is_newline in Hc as ->. unfold starts_visible in Hs. cbn [cap] in Hs. change (is_byte newline newline) with true in Hs. change (0 <? 2)%nat with true in Hs. cbn iota in Hs.
      by rewrite decode_rune_ascii in Hs. }
    intros run'. destruct (cap_head c core run' Hc) as [-> ->]. split; [done|]. destruct (cap_run 0 (c :: core)) as [|k] eqn:Hk; [done|].
    apply cap_run_last in Hk as [x Hx]. unfold ends_visible in He. rewrite Hx in He. by rewrite Markdown.decode_last_rune_ascii in He. }
  rewrite cap_app. destruct (Hcore (Nat.min 2 (run + before))) as [-> ->]. rewrite cap_app. destruct (cap_nl after 0) as [-> ->]; [lia|].
  by replace (Nat.min after (2 - 0)) with 2%nat by lia; replace (Nat.min 2 (0 + after)) with 2%nat by lia.
Qed.

Lemma cap_parts os : Forall self_contained os → ∀ run, (run ≤ 2)%nat → let views := List.filter nonempty (map part_view os) in
  ∃ a b, cap run (concat os) = nl a ++ gap_joined views ++ nl b ∧ (views ≠ [] → (a ≤ 2 - run)%nat).
Proof.
  induction 1 as [|o os (before & core & after & Ho & Hmd & Hok) _ IH]; intros run Hr; [by exists 0%nat, 0%nat|]. cbn [concat map List.filter].
  rewrite collapse_cap in Hmd. destruct (nonempty (part_view o)) eqn:He; cbn zeta; last first.
  - apply negb_false_iff, eqt_true in He. rewrite He in Hmd. apply cap_nil in Hmd as ->. rewrite Ho. cbn [app]. rewrite <- nl_add, cap_app.
    destruct (cap_nl (before + after) run Hr) as [-> ->]. destruct (IH (Nat.min 2 (run + (before + after)))) as (a & b & -> & Hab); [lia|]. 
    exists (Nat.min (before + after) (2 - run) + a)%nat, b. rewrite nl_add, <- app_assoc. split; [done|]. intros Hv%Hab. lia.
  - apply negb_true_iff, eqt_false in He. destruct (Hok He) as [Hafter _]. destruct (trim_space_visible (collapseBlankRuns o) He) as [Hs Hv]. fold (part_view o) in Hs, Hv.
    rewrite <- Hmd in He, Hs, Hv. 
    assert (cap run (o ++ concat os) = nl (Nat.min before (2 - run)) ++ part_view o ++ nl 2 ++ cap 2 (concat os)) as ->.
    { rewrite <- Hmd, <- (cap_part run before core after) by done. by rewrite Ho, <- !app_assoc. }
    destruct (IH 2%nat) as (a & b & -> & Hab); [done|].
    exists (Nat.min before (2 - run)). destruct (List.filter nonempty (map part_view os)) as [|v vs]; unfold gap_joined; cbn [Markdown.join].
    + exists (2 + a + b)%nat. split; [|intros; lia]. by rewrite !nl_add, <- !app_assoc.
    + exists b. split; [|intros; lia]. specialize (Hab ltac:(done)). replace a with 0%nat by lia. cbn [nl repeat app]. by rewrite <- !app_assoc.
Qed.

Lemma gap_joined_visible vs : Forall (λ v, v ≠ [] ∧ starts_visible v ∧ ends_visible v) vs → vs ≠ [] →
  gap_joined vs ≠ [] ∧ starts_visible (gap_joined vs) ∧ ends_visible (gap_joined vs).
Proof.
  unfold gap_joined. induction 1 as [|v vs (H1 & H2 & H3) Hvs IH]; intros Hne; [done|]. destruct vs as [|w ws]; [done|]. destruct IH as (I1 & I2 & I3); [done|].
  change (Markdown.join (nl 2) (v :: w :: ws)) with (v ++ newline :: ([newline] ++ Markdown.join (nl 2) (w :: ws))).
  split_and!; [by destruct v|by apply starts_visible_app|]. change (v ++ newline :: [newline] ++ ?x) with (v ++ [newline] ++ newline :: x).
  rewrite app_assoc. by apply ends_visible_app.
Qed.

(** The view of several parts is their views, a blank line apart. *)
Lemma normalize_parts os : Forall self_contained os → normalizeBlankLines (concat os) = gap_joined (List.filter nonempty (map part_view os)) ++ nl 1.
Proof.
  intros Hos. unfold normalizeBlankLines. f_equal. rewrite collapse_cap. destruct (cap_parts os Hos 0) as (a & b & -> & _); [lia|].
  apply trim_space_between; (destruct (decide (List.filter nonempty (map part_view os) = [])) as [->|Hne]; [done|]); apply gap_joined_visible; try done;
    (apply Forall_forall; intros v (Hv & Hb)%list_elem_of_In%filter_In; unfold nonempty in Hb; apply negb_true_iff, eqt_false in Hb; apply in_map_iff in Hv as (o & <- & _);
     split; [done|by apply trim_space_visible]).
Qed.

Lemma SplitBlocks_end a : fences_closed a → SplitBlocks (a ++ nl 1) = SplitBlocks a.
Proof.
  intros Hf. unfold SplitBlocks, nl. cbn [repeat]. rewrite WikiScanner.split_lines_app. change (split_lines []) with [[] : text].
  by rewrite (WikiScanner.blocks_loop_app _ [] 0 []), app_nil_r.
Qed.
Lemma SplitBlocks_joined vs : Forall fences_closed vs → SplitBlocks (gap_joined vs ++ nl 1) = concat (map SplitBlocks vs).
Proof.
  unfold gap_joined. induction 1 as [|v vs Hv _ IH]; [done|]. destruct vs as [|w ws]; [cbn [Markdown.join map concat]; by rewrite app_nil_r, SplitBlocks_end|].
  change (Markdown.join (nl 2) (v :: w :: ws)) with (v ++ nl 2 ++ Markdown.join (nl 2) (w :: ws)). cbn [map concat] in *. rewrite <- IH, <- !app_assoc.
  by apply WikiScanner.SplitBlocks_gap.
Qed.
Lemma parts_split os : Forall self_contained os →
  SplitBlocks (normalizeBlankLines (concat os)) = concat (map SplitBlocks (List.filter nonempty (map part_view os))).
Proof.
  intros Hos. rewrite normalize_parts by done. apply SplitBlocks_joined. apply Forall_forall. intros v (Hv & Hb)%list_elem_of_In%filter_In.
  unfold nonempty in Hb. apply negb_true_iff, eqt_false in Hb. apply in_map_iff in Hv as (o & <- & Hin). rewrite Forall_forall in Hos.
  destruct (Hos o) as (? & ? & ? & _ & _ & Hok); [by apply list_elem_of_In|]. by apply Hok.
Qed.

(** ** Code *)

Lemma code_view_fences info body : existsb (is_byte backtick) info = false → forallb (λ c, negb (is_byte newline c)) info = true →
  fences_closed (code_view info body).
Proof.
  intros Hb Hn. unfold fences_closed. rewrite code_view_lines by done. destruct (fence_repeat body) as [k Hk]. cbn [fence_after]. change (0 <? 0)%nat with false. cbn iota.
  assert (eqt (trim_space (markdownFence body ++ info)) [] = false) as ->.
  { apply eqt_false. rewrite Hk. cbn [repeat app]. destruct (trim_space_head backtick (repeat backtick (S (S k)) ++ info)) as [t Ht]; [done..|].
    cbn [repeat app] in Ht. by rewrite Ht. }
  rewrite view_fence_open by done.
  assert (Forall (λ l, WikiScanner.IsMarkdownFenceClose l (length (markdownFence body)) = false) (split_lines body)) as Hopen
    by (apply Forall_forall; intros l; apply markdownFence_open).
  assert ((0 <? length (markdownFence body))%nat = true) as Hpos by (rewrite Hk, repeat_length; done).
  induction Hopen as [|l ls Hl _ IH]; cbn [app fence_after]; rewrite Hpos; [by rewrite view_fence_close|]. by rewrite Hl.
Qed.

Lemma code_view_ends info body : ∃ m, code_view info body = backtick :: m ++ [backtick].
Proof.
  unfold code_view. destruct (fence_repeat body) as [k ->]. set (ticks := repeat backtick (S (S k))).
  change (repeat backtick (S (S (S k)))) with (backtick :: ticks). exists (ticks ++ info ++ newline :: body ++ newline :: ticks).
  assert (backtick :: ticks = ticks ++ [backtick]) as E by apply repeat_cons. rewrite E at 2. cbn [app]. f_equal. rewrite <- !app_assoc. do 2 f_equal.
  cbn [app]. f_equal. rewrite <- app_assoc. by cbn [app].
Qed.

(** The view of code stands for itself, whatever the code is. *)
Lemma fenced_self_contained info body : existsb (is_byte backtick) info = false → forallb (λ c, negb (is_byte newline c)) info = true →
  self_contained (fenced (markdownFence body) info body).
Proof.
  intros Hb Hn. pose proof (code_view_fences info body Hb Hn) as Hf. rewrite fenced_view. change (newline :: nl 1) with (nl 2).
  destruct (code_view_ends info body) as [m Hm].
  assert (∃ m', cap 0 (code_view info body) = (backtick :: m') ++ [backtick] ∧ cap_run 0 (code_view info body) = 0%nat) as (m' & Hcap & Hrun).
  { rewrite Hm, app_comm_cons, cap_app, cap_run_app. by eexists. }
  assert (part_view (code_view info body ++ nl 2) = cap 0 (code_view info body)) as Hpv.
  { unfold part_view. rewrite collapse_cap, cap_app, Hrun. change (cap 0 (nl 2)) with (nl 2). apply (trim_space_between 0); rewrite Hcap; [done|].
    unfold ends_visible. by rewrite Markdown.decode_last_rune_ascii. }
  exists 0%nat, (code_view info body), 2%nat. rewrite Hpv, collapse_cap. split_and!; [done|done|]. intros _. split; [done|by apply cap_fences_closed].
Qed.

(** The blocks that show code: [pre], the code and noformat macros, and a paragraph
    that holds nothing but such a macro. *)
Definition code_macro (m : Node) : Prop := attrv m "ac" "name" = txt "code" ∨ attrv m "ac" "name" = txt "noformat".
Inductive shows_code : Node → Prop :=
| shows_pre n : is_text n = false → named "" "pre" n = true → shows_code n
| shows_macro n : is_text n = false → ac_macro n = true → code_macro n → shows_code n
| shows_paragraph n m : is_text n = false → named "" "p" n = true → soleBlockMacro n = Some m → code_macro m → shows_code n.

Lemma macro_self_contained r m : is_current r = true → code_macro m → self_contained (macro block r m).
Proof.
  intros Hr [Hn|Hn]; unfold macro; rewrite Hn; cbn zeta.
  - change (eqt (txt "code") (txt "code")) with true. cbn iota. rewrite Hr. destruct (info_clean (macroParam m "language")). by apply fenced_self_contained.
  - change (eqt (txt "noformat") (txt "code")) with false. change (eqt (txt "noformat") (txt "noformat")) with true. cbn iota. rewrite Hr. by apply fenced_self_contained.
Qed.
Lemma named_inv space local n : named space local n = true → Space (Name_ n) = txt space ∧ Local_ (Name_ n) = txt local.
Proof. unfold named. intros [H1 H2]%andb_true_iff. by apply eqt_true in H1, H2. Qed.
Lemma code_self_contained r n : is_current r = true → shows_code n → self_contained (block r n).
Proof.
  intros Hr Hc. rewrite block_unfold. unfold block_node. destruct Hc as [n Ht Hn|n Ht Hn Hm|n m Ht Hn Hs Hm]; rewrite Ht.
  - apply named_inv in Hn as [Hsp Hl]. unfold isHeading, html_element, local_in, named. rewrite Hsp, Hl. cbn. rewrite Hr. by apply fenced_self_contained.
  - assert (Space (Name_ n) = txt "ac" ∧ (Local_ (Name_ n) = txt "structured-macro" ∨ Local_ (Name_ n) = txt "macro")) as [Hsp Hl]
      by (unfold ac_macro in Hn; apply orb_true_iff in Hn as [Hn|Hn]; apply named_inv in Hn as [? ?]; auto).
    rewrite Hn. unfold isHeading, html_element, local_in, named. rewrite Hsp. destruct Hl as [-> | ->]; cbn; by apply macro_self_contained.
  - assert (Hn' := Hn). apply named_inv in Hn' as [Hsp Hl]. rewrite Hn. unfold isHeading, html_element, local_in. rewrite Hsp, Hl, Hs. cbn. by apply macro_self_contained.
Qed.

(** ** The view of a body *)

(** The pieces of the whole view are those of its blocks. *)
Lemma view_pieces root refs : Forall (λ n, shows_code n ∨ self_contained (block (newMDRenderer refs) n)) (block_nodes root) →
  SplitBlocks (RenderMarkdown root refs) = concat (map (λ b, SplitBlocks (MD b)) (RenderBlockNodes root refs).*1).
Proof.
  intros H. unfold RenderMarkdown, renderMarkdownHeadingOffsetVersion, blocks_of. fold (newMDRenderer refs). rewrite parts_split.
  - unfold RenderBlockNodes. clear H. induction (block_nodes root) as [|n ns IH]; [done|]. cbn [map List.filter mbind list_bind]. unfold block_md.
    fold (part_view (block (newMDRenderer refs) n)). cbn zeta. unfold nonempty at 1. destruct (eqt (part_view _) []); cbn [negb app map concat fmap list_fmap fst MD]; [exact IH|].
    f_equal. exact IH.
  - apply Forall_map. eapply Forall_impl; [exact H|]. intros n [Hc|Hs]; [by apply code_self_contained|done].
Qed.
End ViewBlocks.
