(* ===== verification/MdOpaque.v ===== *)
(** * Opaque inline content in a merge (internal/mdmerge/opaque.go)

    Elements whose identity a conversion from Markdown would lose keep their base
    bytes: their rendered text is found in the edited block, replaced by a token
    that survives the conversion, and the token by the bytes.  Which markers are
    used up is threaded through every conversion. *)

From S2P Require Import Prelude GoText WikiScanner Json Markdown Encoding Xml Csf Fragment MdCsf MdView.
Import GoText.
Import WikiScanner (is_byte, newline, backtick).
Import Json (quote).
Import Encoding (json_int).
Import Markdown (contains_any, UnsupportedError, split, cut).
Import Xml (Name, Space, Local_).
Import Csf.
Import Fragment (Ref).
Import MdView (local_in, html_element, equal_fold, RenderInline, IsBlockMacro, itoa).

Module MdOpaque.
Local Open Scope Z_scope.
Local Open Scope atl_scope.

(** Why an edited block is refused: a rule of the merge, or the converter. *)
Inductive Cause := Refused (why : string) | Unconvertible (err : UnsupportedError).
Definition refuse {A} (why : string) : result Cause A := Err (Refused why).
Definition converted {A} (r : result UnsupportedError A) : result Cause A := match r with Ok a => Ok a | Err e => Err (Unconvertible e) end.

(** ** Markers *)

Record marker := { md : text; mbytes : text; used : bool; copyable : bool }.
Definition use (m : marker) : marker := {| md := md m; mbytes := mbytes m; used := used m || negb (copyable m); copyable := copyable m |}.

Definition spanHasColor (n : Node) : bool :=
  negb (eqt (trim_space (attrv n "" "data-color")) []) ||
  existsb (λ decl, let '(k, _, ok) := cut decl (txt ":") in ok && equal_fold (trim_space k) (txt "color")) (split (attrv n "" "style") (txt ";")).
Definition isOpaqueInline (n : Node) : bool :=
  (eqt (Space (Name_ n)) (txt "ac") && local_in ["link"; "image"; "structured-macro"; "macro"; "inline-comment-marker"]%string n) ||
  named "ri" "user" n || named "" "br" n || (named "" "span" n && spanHasColor n).
(** A macro or a nested table anywhere below. *)
Definition nodeHasMacro (n : Node) : bool := walk (λ found x, let found := found || negb (eqt (MacroName x) []) in (found, negb found)) false n.
Definition nodeHasTable (n : Node) : bool :=
  (walk (λ '(first, found) x, let found := found || (negb first && named "" "table" x) in ((false, found), negb found)) (true, false) n).2.

Section markers.
Variable base : text.
Variable refs : list Ref.

Definition marker_of (copy : bool) (c : Node) : list marker :=
  let shown := RenderInline c refs in
  if negb (eqt shown []) && (Start c <? End_ c)%nat then [{| md := shown; mbytes := slice base (Start c) (End_ c); used := false; copyable := copy |}] else [].
(** What an element contributes, or the elements below it do. *)
Fixpoint collectOpaque (n : Node) : list marker :=
  concat (map (λ c, if is_element c then (if isOpaqueInline c then marker_of false c else collectOpaque c) else []) (Children n)).
Fixpoint collectCopyable (n : Node) : list marker :=
  concat (map (λ c, if is_element c then (if isOpaqueInline c then (if nodeHasMacro c then [] else marker_of true c) else collectCopyable c) else []) (Children n)).
End markers.

(** [sort.SliceStable] by decreasing length of the text. *)
Fixpoint insert_marker (m : marker) (ms : list marker) : list marker :=
  match ms with
  | [] => [m]
  | m' :: ms' => if (length (md m') <=? length (md m))%nat then m :: ms else m' :: insert_marker m ms'
  end.
Definition sort_markers (ms : list marker) : list marker := foldr insert_marker [] ms.
Definition collectMarkers (nodes : list Node) (kept : list bool) (base : text) (refs : list Ref) : list marker :=
  sort_markers (concat (map (λ '(n, k), if (k : bool) then [] else collectOpaque base refs n) (combine nodes kept))).

(** ** Substitution *)

Definition isPlainMarker (s : text) : bool := negb (contains_any s (txt "[]!(<")) && negb (contains s (txt "⟦")).

Section substitution.
(** Letters and digits beyond ASCII. *)
Variable wide_word : Z → bool.
(** The order in which a map with these entries is iterated. *)
Variable map_order : list (text * text) → list (text * text).

Definition isWordRune (r : Z) : bool := in_rng 97 122 r || in_rng 65 90 r || in_rng 48 57 r || (r =? 95) || ((128 <=? r) && wide_word r).

(** Whether an occurrence stands between word runes. *)
Definition glued (s : text) (i n : nat) : bool :=
  ((0 <? i)%nat && isWordRune (decode_last_rune (take i s)).1) || ((i + n <? length s)%nat && isWordRune (decode_rune (drop (i + n) s)).1).
Fixpoint boundary_loop (fuel : nat) (s m : text) (from : nat) : option nat :=
  match fuel with
  | O => None
  | S fuel =>
      match index (drop from s) m with
      | None => None
      | Some i => let i := (i + from)%nat in if isPlainMarker m && glued s i (length m) then boundary_loop fuel s m (S i) else Some i
      end
  end.
(** Every round starts after the last occurrence. *)
Definition boundaryIndex (s m : text) : option nat := boundary_loop (S (length s)) s m 0.

Definition distinctBytesFor (ms : list marker) (m : text) : nat :=
  length (remove_dups (mbytes <$> List.filter (λ x, negb (used x) && eqt (md x) m) ms)).

(** Markers [idx], [idx + 1], …; [all] is the pool with the flags as they are. *)
Fixpoint subst_loop (todo : list marker) (idx : nat) (all : list marker) (s : text) (subst : list (text * text))
    : result Cause (text * list (text * text) * list marker) :=
  match todo with
  | [] => Ok (s, subst, all)
  | m :: todo =>
      if used m || eqt (md m) [] then subst_loop todo (S idx) all s subst
      else
        match boundaryIndex s (md m) with
        | None => subst_loop todo (S idx) all s subst
        | Some pos =>
            let after := drop (pos + length (md m)) s in
            if isPlainMarker (md m) && bool_decide (is_Some (boundaryIndex after (md m))) then refuse "marker text appears more than once"
            else if isPlainMarker (md m) && (1 <? distinctBytesFor all (md m))%nat then refuse "several fragments render to the same text"
            else
              let token := txt "atlopaque" ++ itoa idx ++ txt "z" in
              if contains s token then subst_loop todo (S idx) all s subst
              else subst_loop todo (S idx) (alter use idx all) (take pos s ++ token ++ after) (subst ++ [(token, mbytes m)])
        end
  end.
Definition substituteMarkers (s : text) (ms : list marker) : result Cause (text * list (text * text) * list marker) := subst_loop ms 0 ms s [].

(** [bytes.Replace(out, token, raw, 1)]. *)
Definition replace_first (out : text) (p : text * text) : text :=
  match index out p.1 with Some i => take i out ++ p.2 ++ drop (i + length p.1) out | None => out end.
Definition splice (out : text) (subst : list (text * text)) : text := foldl replace_first out (map_order subst).

Definition isHeadingName (n : Node) : bool := html_element ["h1"; "h2"; "h3"; "h4"; "h5"; "h6"]%string n.
Fixpoint bad_nesting (inA inInline : bool) (n : Node) : option string :=
  (fix children (cs : list Node) : option string :=
    match cs with
    | [] => None
    | c :: cs =>
        let here :=
          if negb (is_element c) then None
          else
            let isA := named "" "a" c in
            if inA && (isA || named "ac" "link" c) then Some "a link inside another link"%string
            else if inInline && negb (eqt (MacroName c) []) && IsBlockMacro (MacroName c) then Some "a block macro in an inline context"%string
            else bad_nesting (inA || isA) (inInline || named "" "code" c || isHeadingName c) c in
        match here with Some bad => Some bad | None => children cs end
    end) (Children n).
Definition checkSpliceNesting (block : text) : option string :=
  match Parse block with Err _ => Some "substituted block does not parse"%string | Ok root => bad_nesting false false root end.

(** Convert a text after substitution and put the bytes back. *)
Definition convert_with (convert : text → result UnsupportedError text) (s : text) (ms : list marker) : result Cause (text * list marker) :=
  let! r := substituteMarkers s ms in
  let '(s, subst, ms) := r in
  let! out := converted (convert s) in
  let out := splice out subst in
  match (if (length subst =? 0)%nat then None else checkSpliceNesting out) with
  | Some bad => refuse bad
  | None => Ok (out, ms)
  end.
Definition convertBlock (s : text) (ms : list marker) : result Cause (text * list marker) :=
  if has_prefix (trim_space s) (repeat backtick 3) then let! out := converted (MdCsf.Convert s) in Ok (out, ms)
  else convert_with MdCsf.Convert s ms.
Definition convertCell (s : text) (ms : list marker) : result Cause (text * list marker) := convert_with MdCsf.ConvertInline s ms.
End substitution.
End MdOpaque.
