(* ===== verification/MdTableMerge.v ===== *)
(** * Merging an edited table (internal/mdmerge/tablemerge.go)

    Rows whose rendered text is unchanged keep their base bytes, a changed cell
    has its conversion spliced into its wrappers, a new row clones a neighbour. *)

From S2P Require Import Prelude BlockAlign GoText WikiScanner Json Markdown Xml Csf Fragment MdCsf MdView MdOpaque.
Import GoText BlockAlign.
Import WikiScanner (is_byte, newline).
Import Json (quote).
Import Markdown (split, join, UnsupportedError, map_result).
Import Csf.
Import Fragment (Ref).
Import MdView (cell_id, TableCell, CNode, Origin, CText, TableGrid, local_in, height, Block, MD).
Import MdOpaque.

Module MdTableMerge.
Local Open Scope Z_scope.
Local Open Scope atl_scope.

(** ** Pairing an edited table with a base table *)

Definition line_counts (s : text) : gmap text nat :=
  fold_left (λ edit l, let l := trim_space l in
    if eqt l [] || MdCsf.IsTableSeparator l then edit else <[l := S (default O (edit !! l))]> edit) (split s [newline]) ∅.
Fixpoint score_lines (rem : gmap text nat) (ls : list text) : nat :=
  match ls with
  | [] => O
  | l :: ls => let l := trim_space l in
               match default O (rem !! l) with O => score_lines rem ls | S k => S (score_lines (<[l := k]> rem) ls) end
  end.
(** The first candidate with the best score. *)
Fixpoint best_candidate (score : nat → nat) (cands : list nat) (best : option nat) (bestScore : nat) : option nat :=
  match cands with
  | [] => best
  | bi :: cands => if (bestScore <? score bi)%nat then best_candidate score cands (Some bi) (score bi) else best_candidate score cands best bestScore
  end.
Definition pickTableCandidate (cands : list nat) (reused : gset nat) (mds : list text) (s : text) : option nat :=
  best_candidate (λ bi, score_lines (line_counts s) (split (default [] (mds !! bi)) [newline])) (List.filter (λ bi, negb (bool_decide (bi ∈ reused))) cands) None 0.

(** ** The edited rows *)

Definition edit_row (width : nat) (l : text) : result Cause (list text) :=
  let cells := MdCsf.SplitTableRow l in
  if (width <? length cells)%nat then refuse "table row wider than header" else Ok (cells ++ replicate (width - length cells) []).
(** The width and the rows, the header first. *)
Definition edited_rows (editedTxt : text) : result Cause (nat * list (list text)) :=
  let lines := map trim_space (split (trim_space editedTxt) [newline]) in
  match lines with
  | header :: separator :: rest =>
      if negb (forallb (λ l, has_prefix l (txt "|")) lines) then refuse "table with non-row line"
      else if negb (MdCsf.IsTableSeparator separator) then refuse "second table line is not a separator row"
      else
        let width := length (MdCsf.SplitTableRow header) in
        if negb (length (MdCsf.SplitTableRow separator) =? width)%nat then refuse "table separator width differs from header"
        else let! rows := map_result (edit_row width) rest in Ok (width, MdCsf.SplitTableRow header :: rows)
  | _ => refuse "table without separator row"
  end.

(** ** Row operations *)

Inductive rowOp := opKeep | opModify (edit : nat) | opDelete.
#[export] Instance rowOp_eq : EqDecision rowOp. Proof. solve_decision. Defined.
Record alignment := { ops : list rowOp; inserts : gmap nat (list nat); pb : nat; pe : nat }.

(** The rows of a gap pair up; what is left over is deleted or inserted. *)
Definition handleGap (a : alignment) (bEnd eEnd : nat) : alignment :=
  let nb := (bEnd - pb a)%nat in
  let ne := (eEnd - pe a)%nat in
  let k := Nat.min nb ne in
  let gap := map (λ i, if (i <? k)%nat then opModify (pe a + i) else opDelete) (seq 0 nb) in
  {| ops := take (pb a) (ops a) ++ gap ++ drop (pb a + nb) (ops a);
     inserts := if (k <? ne)%nat then <[bEnd := default [] (inserts a !! bEnd) ++ map (λ i, (pe a + i)%nat) (seq k (ne - k))]> (inserts a) else inserts a;
     pb := bEnd; pe := eEnd |}.
Definition keep_row (a : alignment) (b : nat) (e : Z) : alignment :=
  if e <? 0 then a
  else
    let a := handleGap a b (Z.to_nat e) in
    {| ops := <[b := opKeep]> (ops a); inserts := inserts a; pb := S b; pe := S (Z.to_nat e) |}.
Fixpoint align_loop (a : alignment) (b : nat) (baseMatch : list Z) : alignment :=
  match baseMatch with [] => a | e :: baseMatch => align_loop (keep_row a b e) (S b) baseMatch end.
Definition align_rows (baseMatch : list Z) (rows editRows : nat) : alignment :=
  handleGap (align_loop {| ops := replicate rows opKeep; inserts := ∅; pb := 0; pe := 0 |} 0 baseMatch) rows editRows.

(** [strings.Join(cells, "\x00")]. *)
Definition row_key (cells : list text) : text := join [Ascii.zero] cells.

(** Cells that occur in two rows. *)
Fixpoint multi_rows (ri : nat) (grid : list (list TableCell)) (seenRow : gmap cell_id nat) (multi : gset cell_id) : gset cell_id :=
  match grid with
  | [] => multi
  | row :: grid =>
      let '(seenRow, multi) := fold_left (λ '(seenRow, multi) c,
        match CNode c with
        | None => (seenRow, multi)
        | Some (id, _) => (<[id := ri]> seenRow, match (seenRow : gmap cell_id nat) !! id with Some prev => if (prev =? ri)%nat then multi else {[id]} ∪ (multi : gset cell_id) | None => multi end)
        end) row (seenRow, multi) in
      multi_rows (S ri) grid seenRow multi
  end.

(** ** The inside of a cell *)

Fixpoint openTagEnd (seg : text) (i : nat) (q : option ascii) : option nat :=
  match seg with
  | [] => None
  | c :: seg =>
      match q with
      | Some q' => openTagEnd seg (S i) (if is_byte q' c then None else q)
      | None => if is_byte quote c || is_byte "'"%char c then openTagEnd seg (S i) (Some c) else if is_byte ">"%char c then Some i else openTagEnd seg (S i) None
      end
  end.
Definition elementInnerSpan (n : Node) (base : text) : result Cause (nat * nat) :=
  match Children n with
  | c :: _ => Ok (Start c, End_ (List.last (Children n) c))
  | [] =>
      if (length base <? End_ n)%nat || (End_ n <=? Start n)%nat then refuse "cell has no byte span"
      else
        let seg := slice base (Start n) (End_ n) in
        if has_suffix seg (txt "/>") then refuse "cell is self-closing"
        else
          match openTagEnd seg 0 None, last_index seg (txt "<") with
          | Some open, Some close => if (close <=? open)%nat then refuse "cannot locate the content of the cell" else Ok (Start n + open + 1, Start n + close)%nat
          | _, _ => refuse "cannot locate the content of the cell"
          end
  end.
(** The only element child, when nothing but white space stands beside it. *)
Definition sole_wrapper (n : Node) : option Node :=
  match List.filter is_element (Children n) with
  | [e] => if forallb (λ c, is_element c || (bool_decide (Type_ c = Text) && eqt (trim_space (Data c)) [])) (Children n) &&
              MdView.html_element ["p"; "div"]%string e then Some e else None
  | _ => None
  end.
Fixpoint inner_fuel (fuel : nat) (n : Node) : Node :=
  match fuel with O => n | S fuel => match sole_wrapper n with Some e => inner_fuel fuel e | None => n end end.
Definition cellInnerSpan (c : Node) (base : text) : result Cause (nat * nat) := elementInnerSpan (inner_fuel (height c) c) base.

(** ** The merge *)

Definition refuse_when (b : bool) (why : string) : result Cause unit := if b then refuse why else Ok tt.

Section table.
Variable wide_word : Z → bool.
Variable map_order : list (text * text) → list (text * text).
Variable base : text.
Variable refs : list Ref.
Variable grid : list (list TableCell).
Variable trs : list Node.
Variable editRows : list (list text).
Variable multiRow : gset cell_id.

Definition row_at (ri : nat) : list TableCell := default [] (grid !! ri).
Definition edit_at (e : nat) : list text := default [] (editRows !! e).
Definition tr_at (ri : nat) : Node := default (MkNode Element no_name [] [] 0 0 []) (trs !! ri).
(** The slots of a row with the edited texts beside them. *)
Definition slots (ri : nat) (texts : list text) : list (TableCell * text) := imap (λ col c, (c, default [] (texts !! col))) (row_at ri).

Fixpoint map_concat {A} (f : A → result Cause (list marker)) (l : list A) : result Cause (list marker) :=
  match l with [] => Ok [] | x :: l => let! a := f x in let! b := map_concat f l in Ok (a ++ b) end.

Definition deleted_slot (c : TableCell) : result Cause (list marker) :=
  match CNode c with
  | None => Ok []
  | Some (id, n) =>
      if bool_decide (id ∈ multiRow) then refuse "row is part of a rowspan"
      else if nodeHasTable n then refuse "row holds a nested table"
      else Ok (if Origin c then collectOpaque base refs n else [])
  end.
Definition modified_slot (p : TableCell * text) : result Cause (list marker) :=
  if eqt (CText p.1) p.2 then Ok []
  else
    match CNode p.1 with
    | None => refuse "row gains content in a column the base row does not have"
    | Some (_, n) =>
        if negb (Origin p.1) then refuse "the cell continues a span"
        else if nodeHasTable n then refuse "the cell holds a nested table"
        else Ok (collectOpaque base refs n)
    end.
(** What the rows that change give up, with the guards of the changes. *)
Definition released (p : nat * rowOp) : result Cause (list marker) :=
  match p.2 with
  | opDelete => map_concat deleted_slot (row_at p.1)
  | opModify e => map_concat modified_slot (slots p.1 (edit_at e))
  | opKeep => Ok []
  end.
(** What the content that keeps its bytes offers to copy. *)
Definition offered (p : nat * rowOp) : list marker :=
  match p.2 with
  | opKeep => collectCopyable base refs (tr_at p.1)
  | opModify e => concat (map (λ s : TableCell * text, match CNode s.1 with Some (_, n) => if Origin s.1 && eqt (CText s.1) s.2 then collectCopyable base refs n else [] | None => [] end) (slots p.1 (edit_at e)))
  | opDelete => []
  end.
Definition marker_pool (rowOps : list rowOp) : result Cause (list marker) :=
  let! pool := map_concat released (imap pair rowOps) in
  Ok (sort_markers (pool ++ concat (map offered (imap pair rowOps)))).

Definition qualifies (ri : nat) : bool :=
  forallb (λ c, match CNode c with
                | None => false
                | Some (id, n) => Origin c && negb (bool_decide (id ∈ multiRow)) && negb (nodeHasTable n) && negb (local_in ["th"%string] n)
                end) (row_at ri).
(** The nearest row above, or else below. *)
Definition template (at_ : nat) : option nat := List.find qualifies (rev (seq 0 at_) ++ seq at_ (length grid - at_)).

(** The slots of the cloned row from [cur] on. *)
Fixpoint clone_slots (ss : list (TableCell * text)) (cur stop : nat) (pool : list marker) : result Cause (text * list marker) :=
  match ss with
  | [] => Ok (slice base cur stop, pool)
  | (c, t) :: ss =>
      match CNode c with
      | None => refuse "no cell to clone"
      | Some (_, n) =>
          let! span := cellInnerSpan n base in
          let '(s, e) := span in
          let! r := (if eqt t (CText c) then
                       if nodeHasMacro n then refuse "an inserted row copies a cell holding a macro" else Ok (slice base s e, pool)
                     else convertCell wide_word map_order t pool) in
          let! rest := clone_slots ss e stop r.2 in
          Ok (slice base cur s ++ r.1 ++ rest.1, rest.2)
      end
  end.
Definition cloneRow (tpl : nat) (texts : list text) (pool : list marker) : result Cause (text * list marker) :=
  clone_slots (slots tpl texts) (Start (tr_at tpl)) (End_ (tr_at tpl)) pool.

Fixpoint merge_slots (ss : list (TableCell * text)) (cur stop : nat) (pool : list marker) : result Cause (text * list marker) :=
  match ss with
  | [] => Ok (slice base cur stop, pool)
  | (c, t) :: ss =>
      match CNode c with
      | Some (_, n) =>
          if negb (Origin c) || eqt (CText c) t then merge_slots ss cur stop pool
          else
            let! span := cellInnerSpan n base in
            let '(s, e) := span in
            if (s <? cur)%nat || (stop <? e)%nat then refuse "cell offsets escape their row"
            else
              let! r := convertCell wide_word map_order t pool in
              let! rest := merge_slots ss e stop r.2 in
              Ok (slice base cur s ++ r.1 ++ rest.1, rest.2)
      | None => merge_slots ss cur stop pool
      end
  end.
Definition mergeRow (ri : nat) (texts : list text) (pool : list marker) : result Cause (text * list marker) :=
  merge_slots (slots ri texts) (Start (tr_at ri)) (End_ (tr_at ri)) pool.

Fixpoint emitInserts (at_ : nat) (es : list nat) (pool : list marker) : result Cause (text * list marker) :=
  match es with
  | [] => Ok ([], pool)
  | e :: es =>
      match template at_ with
      | None => refuse "no plain row to clone for an inserted row"
      | Some tpl =>
          let! r := cloneRow tpl (edit_at e) pool in
          let! rest := emitInserts at_ es r.2 in
          Ok (r.1 ++ rest.1, rest.2)
      end
  end.
Definition emit_row (ri : nat) (tr : Node) (op : rowOp) (pool : list marker) : result Cause (text * list marker) :=
  match op with
  | opKeep => Ok (slice base (Start tr) (End_ tr), pool)
  | opModify e => mergeRow ri (edit_at e) pool
  | opDelete => Ok ([], pool)
  end.
(** The rows from [ri] on; gaps between rows come from the base. *)
Fixpoint emit_rows (ri : nat) (rows : list (Node * rowOp)) (inserts : gmap nat (list nat)) (cur stop : nat) (pool : list marker) : result Cause text :=
  match rows with
  | [] => let! r := emitInserts ri (default [] (inserts !! ri)) pool in Ok (r.1 ++ slice base cur stop)
  | (tr, op) :: rows =>
      let! i := emitInserts ri (default [] (inserts !! ri)) pool in
      let! r := emit_row ri tr op i.2 in
      let! rest := emit_rows (S ri) rows inserts (End_ tr) stop r.2 in
      Ok (slice base cur (Start tr) ++ i.1 ++ r.1 ++ rest)
  end.
End table.

Definition mergeTable (wide_word : Z → bool) (map_order : list (text * text) → list (text * text)) (base : text) (tableNode : Node) (refs : list Ref) (editedTxt : text) : result Cause text :=
  let! edited := edited_rows editedTxt in
  let '(width, editRows) := edited in
  let '(grid, trs, _) := TableGrid tableNode refs in
  match grid with
  | [] => refuse "base table renders no rows"
  | row :: _ =>
      if negb (length row =? width)%nat then refuse "table column count changed"
      else
        let multiRow := multi_rows 0 grid ∅ ∅ in
        match LCS (map (λ row, row_key (CText <$> row)) grid) (map row_key editRows) with
        | Some (baseMatch, _, true) =>
            let a := align_rows baseMatch (length trs) (length editRows) in
            let! pool := marker_pool base refs grid trs editRows multiRow (ops a) in
            emit_rows wide_word map_order base grid trs editRows multiRow 0 (combine trs (ops a)) (inserts a) (Start tableNode) (End_ tableNode) pool
        | _ => refuse "table row alignment exceeds the bounded safety budget"
        end
  end.

(** * Facts *)

(** ** Row operations *)

Lemma handleGap_ops a bEnd eEnd : (pb a ≤ bEnd ≤ length (ops a))%nat →
  length (ops (handleGap a bEnd eEnd)) = length (ops a) ∧
  ∀ i, ops (handleGap a bEnd eEnd) !! i =
    if decide (pb a ≤ i < bEnd)%nat then Some (if (i - pb a <? Nat.min (bEnd - pb a) (eEnd - pe a))%nat then opModify (pe a + (i - pb a)) else opDelete) else ops a !! i.
Proof.
  intros H. cbn [handleGap ops]. split; [rewrite !length_app, length_take, length_drop, length_map, length_seq; lia|].
  intros i. destruct (decide (pb a ≤ i < bEnd)%nat) as [Hi|Hi].
  - rewrite lookup_app_r by (rewrite length_take; lia). rewrite length_take, Nat.min_l by lia. rewrite lookup_app_l by (rewrite length_map, length_seq; lia).
    change (map ?f ?l) with (f <$> l). rewrite list_lookup_fmap, lookup_seq_lt by lia. done.
  - destruct (decide (i < pb a)%nat) as [Hl|Hl].
    + rewrite lookup_app_l by (rewrite length_take; lia). by rewrite lookup_take_lt by lia.
    + rewrite lookup_app_r by (rewrite length_take; lia). rewrite length_take, Nat.min_l by lia.
      rewrite lookup_app_r by (rewrite length_map, length_seq; lia). rewrite length_map, length_seq, lookup_drop. f_equal. lia.
Qed.

Definition matched_row (baseMatch : list Z) (i : nat) : Prop := ∃ e, baseMatch !! i = Some e ∧ 0 ≤ e.
Definition align_ok (baseMatch : list Z) (rows : nat) (a : alignment) (b : nat) : Prop :=
  length (ops a) = rows ∧ (pb a ≤ b)%nat ∧ (∀ i, (i < pb a)%nat → ops a !! i = Some opKeep ↔ matched_row baseMatch i) ∧
  (∀ i, (pb a ≤ i < rows)%nat → ops a !! i = Some opKeep) ∧ ∀ i, (pb a ≤ i < b)%nat → ¬ matched_row baseMatch i.

Lemma keep_row_ok baseMatch rows a b e : align_ok baseMatch rows a b → (b < rows)%nat → baseMatch !! b = Some e → align_ok baseMatch rows (keep_row a b e) (S b).
Proof.
  intros (Hl & Hp & Hb & Ha & Hn) Hlt He. unfold keep_row. destruct (e <? 0) eqn:Hneg.
  - split_and!; [done|lia|done|done|]. intros i Hi. destruct (decide (i = b)) as [->|]; [|apply Hn; lia]. intros (e' & He' & H0). rewrite He in He'. simplify_eq. lia.
  - destruct (handleGap_ops a b (Z.to_nat e)) as [Hlen Hops]; [lia|]. split_and!; cbn [ops pb].
    + by rewrite length_insert, Hlen.
    + lia.
    + intros i Hi. destruct (decide (i = b)) as [->|Hib].
      * rewrite list_lookup_insert_eq by lia. split; [|done]. intros _. exists e. split; [done|]. lia.
      * rewrite list_lookup_insert_ne, Hops by done. destruct (decide (pb a ≤ i < b)%nat) as [Hg|Hg].
        -- split; [by destruct (_ <? _)%nat|]. intros Hm. by destruct (Hn i Hg).
        -- apply Hb. lia.
    + intros i Hi. rewrite list_lookup_insert_ne, Hops by lia. rewrite decide_False by lia. apply Ha. lia.
    + intros i Hi. lia.
Qed.
Lemma align_loop_ok baseMatch rows : ∀ rest a b, align_ok baseMatch rows a b → drop b baseMatch = rest → length baseMatch = rows → (b ≤ rows)%nat →
  align_ok baseMatch rows (align_loop a b rest) rows.
Proof.
  induction rest as [|e rest IH]; intros a b Ha Hd Hl Hle; cbn [align_loop].
  - assert (b = rows) as -> by (apply (f_equal length) in Hd; rewrite length_drop in Hd; cbn in Hd; lia). done.
  - assert (baseMatch !! b = Some e) as He by (rewrite <- (Nat.add_0_r b), <- lookup_drop, Hd; done). pose proof (lookup_lt_Some _ _ _ He).
    apply IH; [apply keep_row_ok; [done|lia|done]| |done|lia]. by rewrite (drop_S _ _ _ He) in Hd; injection Hd.
Qed.
(** A row is kept exactly when the alignment matches it. *)
Lemma align_rows_keep baseMatch rows editRows : length baseMatch = rows →
  length (ops (align_rows baseMatch rows editRows)) = rows ∧ ∀ i, (i < rows)%nat → ops (align_rows baseMatch rows editRows) !! i = Some opKeep ↔ matched_row baseMatch i.
Proof.
  intros Hl. unfold align_rows. set (a := align_loop _ _ _).
  assert (align_ok baseMatch rows a rows) as (H1 & H2 & H3 & H4 & H5).
  { apply align_loop_ok; [|done|done|lia]. split_and!; cbn; [apply length_replicate|done|intros; lia| |intros; lia]. intros i Hi. by rewrite lookup_replicate_2 by lia. }
  destruct (handleGap_ops a rows editRows) as [Hlen Hops]; [lia|]. split; [by rewrite Hlen|]. intros i Hi. rewrite Hops.
  destruct (decide (pb a ≤ i < rows)%nat) as [Hg|Hg]; [|apply H3; lia]. split; [by destruct (_ <? _)%nat|]. intros Hm. by destruct (H5 i Hg).
Qed.

(** ** Trees with nested spans *)

Definition node_ok (n : Node) : Prop := in_order (Start n) (Children n) (End_ n).
Lemma in_order_elem lo ns hi n : in_order lo ns hi → n ∈ ns → node_ok n ∧ (lo ≤ Start n ∧ Start n ≤ End_ n ∧ End_ n ≤ hi)%nat.
Proof.
  induction 1 as [|lo m ns hi Hlo Hc _ Hns IH]; [by intros ?%elem_of_nil|]. intros [->|Hn]%elem_of_cons.
  - apply in_order_le in Hns. pose proof (in_order_le _ _ _ Hc). split; [done|lia].
  - destruct (IH Hn) as [? ?]. apply in_order_le in Hc. split; [done|lia].
Qed.

(** The rows at or below a node, nested tables left out. *)
Fixpoint rows_below (n : Node) : list Node :=
  let below := concat (map rows_below (Children n)) in
  if is_element n then (if named "" "table" n then [] else if named "" "tr" n then [n] else below) else below.
Definition table_rows (t : Node) : list Node := if named "" "tr" t then [t] else concat (map rows_below (Children t)).
Lemma tableRows_eq t : is_element t = true → MdView.tableRows t = table_rows t.
Proof.
  intros He. unfold MdView.tableRows, table_rows.
  set (fn := λ '(first, out) x, if negb first && named "" "table" x then ((false, out), false) else if named "" "tr" x then ((false, out ++ [x]), false) else ((false, out), true)).
  assert (∀ n out, walk fn (false, out) n = (false, out ++ rows_below n)) as Hw.
  { clear He. induction n as [ty m a d s e cs IH] using node_ind'. intros out.
    assert (∀ out, fold_left (walk fn) cs (false, out) = (false, out ++ concat (map rows_below cs))) as Hcs.
    { clear -IH. induction IH as [|c cs Hc _ IH]; intros out; cbn; [by rewrite app_nil_r|]. by rewrite Hc, IH, <- app_assoc. }
    cbn [walk rows_below Children]. destruct (is_element (MkNode ty m a d s e cs)); [|apply Hcs]. unfold fn at 1. cbn [negb andb]. destruct (named "" "table" _); [by rewrite app_nil_r|].
    destruct (named "" "tr" _); [done|apply Hcs]. }
  destruct t as [ty m a d s e cs]. cbn [walk Children]. rewrite He. unfold fn at 1. cbn [negb andb]. destruct (named "" "tr" _); [done|].
  enough (∀ out, fold_left (walk fn) cs (false, out) = (false, out ++ concat (map rows_below cs))) as -> by done.
  induction cs as [|c cs IH]; intros out; cbn; [by rewrite app_nil_r|]. by rewrite Hw, IH, <- app_assoc.
Qed.
Lemma rows_below_order lo ns hi : in_order lo ns hi → in_order lo (concat (map rows_below ns)) hi.
Proof.
  induction 1 as [lo hi|lo n ns hi Hlo Hc IHc Hns IH]; [by constructor|]. cbn [map concat].
  apply MdView.view_in_order_app with (End_ n); [|done]. pose proof (in_order_le _ _ _ Hc).
  assert (in_order lo (concat (map rows_below (Children n))) (End_ n)) by by eapply MdView.in_order_lower.
  assert (rows_below n = if is_element n then (if named "" "table" n then [] else if named "" "tr" n then [n] else concat (map rows_below (Children n))) else concat (map rows_below (Children n))) as -> by by destruct n.
  repeat case_match; try done; [constructor; lia|by repeat constructor].
Qed.
Lemma tableRows_order t : is_element t = true → node_ok t → (Start t ≤ End_ t)%nat → in_order (Start t) (MdView.tableRows t) (End_ t).
Proof.
  intros He Ht Hle. rewrite tableRows_eq by done. unfold table_rows. destruct (named "" "tr" t); [by repeat constructor|]. by apply rows_below_order.
Qed.

(** The content of a cell lies inside it. *)
Lemma inner_fuel_ok fuel : ∀ n, node_ok n → node_ok (inner_fuel fuel n).
Proof.
  induction fuel as [|fuel IH]; intros n Hn; [done|]. cbn [inner_fuel]. unfold sole_wrapper. destruct (List.filter is_element (Children n)) as [|e [|]] eqn:Hf; [done| |done].
  destruct (_ && _); [|done]. apply IH. assert (In e (Children n)) as Hin by (eapply (proj1 (filter_In is_element e (Children n))); rewrite Hf; by left).
  eapply in_order_elem; [done|]. by apply list_elem_of_In.
Qed.
Lemma in_order_last lo ns hi c : in_order lo ns hi → (lo ≤ End_ (List.last ns c))%nat ∨ ns = [].
Proof.
  induction 1 as [|lo n ns hi Hlo Hc _ Hns IH]; [auto|]. left. apply in_order_le in Hc. destruct ns as [|m ns]; [cbn; lia|].
  destruct IH as [IH|]; [|done]. change (List.last (n :: m :: ns) c) with (List.last (m :: ns) c). lia.
Qed.
Lemma elementInnerSpan_le n base s e : node_ok n → elementInnerSpan n base = Ok (s, e) → (s ≤ e)%nat.
Proof.
  unfold node_ok, elementInnerSpan. destruct (Children n) as [|c cs] eqn:Hc.
  - intros _. destruct (_ || _); [done|]. cbn zeta. destruct (has_suffix _ _); [done|]. destruct (openTagEnd _ _ _); [|done]. destruct (last_index _ _); [|done].
    destruct (_ <=? _)%nat eqn:Hle; [done|]. intros [= <- <-]. bool_hyps. lia.
  - intros Ho [= <- <-]. inversion Ho as [|? ? ? ? Hlo Hcc Hns]; subst. pose proof (in_order_le _ _ _ Hcc). destruct cs as [|d cs]; [done|].
    destruct (in_order_last _ _ _ c Hns) as [H'|]; [|done]. change (List.last (c :: d :: cs) c) with (List.last (d :: cs) c). lia.
Qed.

(** ** Edits at disjoint places *)

(** Replacements of byte ranges by texts, in order. *)
Definition edit : Type := nat * nat * text.
Fixpoint apply_edits (base : text) (cur : nat) (es : list edit) (stop : nat) : text :=
  match es with
  | [] => slice base cur stop
  | (s, e, new) :: es => slice base cur s ++ new ++ apply_edits base e es stop
  end.
Fixpoint edits_ordered (cur : nat) (es : list edit) (stop : nat) : Prop :=
  match es with
  | [] => (cur ≤ stop)%nat
  | (s, e, _) :: es => (cur ≤ s ≤ e)%nat ∧ edits_ordered e es stop
  end.
Lemma edits_ordered_le cur es stop : edits_ordered cur es stop → (cur ≤ stop)%nat.
Proof. revert cur. induction es as [|[[s e] new] es IH]; intros cur; [done|]. cbn. intros [H ?%IH]. lia. Qed.
Lemma edits_ordered_app cur a mid b stop : edits_ordered cur a mid → edits_ordered mid b stop → edits_ordered cur (a ++ b) stop.
Proof.
  revert cur. induction a as [|[[s e] new] a IH]; intros cur; cbn.
  - intros H Hb. destruct b as [|[[s e] new] b]; cbn in *; [lia|]. destruct Hb. split; [lia|done].
  - intros [H ?] Hb. split; [done|auto].
Qed.
Lemma apply_edits_app base cur a mid b stop : edits_ordered cur a mid → edits_ordered mid b stop →
  apply_edits base cur (a ++ b) stop = apply_edits base cur a mid ++ apply_edits base mid b stop.
Proof.
  revert cur. induction a as [|[[s e] new] a IH]; intros cur; cbn.
  - intros H Hb. destruct b as [|[[s e] new] b]; cbn in *; [by rewrite slice_app|]. destruct Hb as [Hb _]. rewrite (app_assoc (slice base cur mid)), slice_app by lia. done.
  - intros [H Ha] Hb. rewrite IH by done. by rewrite <- !app_assoc.
Qed.

Section local.
Variable wide_word : Z → bool.
Variable map_order : list (text * text) → list (text * text).
Variable base : text.
Variable grid : list (list TableCell).
Variable trs : list Node.
Variable editRows : list (list text).
Variable multiRow : gset cell_id.
Variable rowOps : list rowOp.
Variable inserts : gmap nat (list nat).

(** Why a range of the table changes: rows cloned for inserted ones, a deleted
    row, or the content of a cell whose text was edited. *)
Inductive table_edit : edit → Prop :=
| inserted at_ p new pool pool' : emitInserts wide_word map_order base grid trs editRows multiRow at_ (default [] (inserts !! at_)) pool = Ok (new, pool') → table_edit (p, p, new)
| deleted ri tr : trs !! ri = Some tr → rowOps !! ri = Some opDelete → table_edit (Start tr, End_ tr, [])
| changed ri e c id n t s en new pool pool' : rowOps !! ri = Some (opModify e) → (c, t) ∈ slots grid ri (edit_at editRows e) → CNode c = Some (id, n) → Origin c = true → CText c ≠ t →
    cellInnerSpan n base = Ok (s, en) → convertCell wide_word map_order t pool = Ok (new, pool') → table_edit (s, en, new).

Lemma merge_slots_edits ri e ss stop : rowOps !! ri = Some (opModify e) → ss ⊆ slots grid ri (edit_at editRows e) →
  (∀ c t id n, (c, t) ∈ ss → CNode c = Some (id, n) → Origin c = true → node_ok n) →
  ∀ cur pool out pool', (cur ≤ stop)%nat → merge_slots wide_word map_order base ss cur stop pool = Ok (out, pool') →
  ∃ es, out = apply_edits base cur es stop ∧ edits_ordered cur es stop ∧ Forall table_edit es.
Proof.
  intros Hop. induction ss as [|[c t] ss IH]; intros Hss Hok cur pool out pool' Hle; cbn [merge_slots].
  - intros [= <- <-]. exists []. by split_and!.
  - assert (ss ⊆ slots grid ri (edit_at editRows e)) as Hss' by (intros x Hx; apply Hss; by apply list_elem_of_further).
    assert (∀ c t id n, (c, t) ∈ ss → CNode c = Some (id, n) → Origin c = true → node_ok n) as Hok' by (intros; eapply Hok; [by apply list_elem_of_further|done..]).
    destruct (CNode c) as [[id n]|] eqn:Hn; [|by apply IH]. destruct (negb (Origin c) || eqt (CText c) t) eqn:Hskip; [by apply IH|]. bool_hyps.
    destruct (cellInnerSpan n base) as [[s en]|] eqn:Hspan; [|done]. cbn [rbind]. destruct (_ || _) eqn:Hb; [done|]. bool_hyps.
    destruct (convertCell _ _ _ _) as [[new pool1]|] eqn:Hconv; [|done]. cbn [rbind fst snd].
    destruct (merge_slots _ _ _ _ _ _ _) as [[rest pool2]|] eqn:Hrest; [|done]. cbn [rbind fst snd]. intros [= <- <-].
    apply IH in Hrest as (es & -> & Ho & Hall); [|done|done|lia]. exists ((s, en, new) :: es). split_and!; [done| |].
    + split; [|done]. split; [lia|]. eapply elementInnerSpan_le; [|exact Hspan]. apply inner_fuel_ok. eapply Hok; [apply list_elem_of_here|done..].
    + constructor; [|done]. eapply changed; try done; [apply Hss, list_elem_of_here|by apply eqt_false].
Qed.

Lemma emit_rows_edits rows : ∀ ri cur stop pool out, in_order cur (fst <$> rows) stop →
  (∀ i tr op c t id n e, rows !! i = Some (tr, op) → op = opModify e → (c, t) ∈ slots grid (ri + i) (edit_at editRows e) → CNode c = Some (id, n) → Origin c = true → node_ok n) →
  (∀ i tr op, rows !! i = Some (tr, op) → trs !! (ri + i)%nat = Some tr ∧ rowOps !! (ri + i)%nat = Some op) →
  emit_rows wide_word map_order base grid trs editRows multiRow ri rows inserts cur stop pool = Ok out →
  ∃ es, out = apply_edits base cur es stop ∧ edits_ordered cur es stop ∧ Forall table_edit es.
Proof.
  induction rows as [|[tr op] rows IH]; intros ri cur stop pool out Hord Hok Hat; cbn [emit_rows].
  - destruct (emitInserts _ _ _ _ _ _ _ _ _ _) as [[new pool']|] eqn:Hi; [|done]. cbn [rbind fst snd]. intros [= <-].
    exists [(cur, cur, new)]. cbn. rewrite (slice_nil base cur cur) by lia. apply in_order_le in Hord. split_and!; [done|lia|lia|lia|].
    constructor; [by eapply inserted|done].
  - destruct (emitInserts _ _ _ _ _ _ _ _ _ _) as [[new pool1]|] eqn:Hi; [|done]. cbn [rbind fst snd].
    destruct (emit_row _ _ _ _ _ _ _ _ _ _) as [[row pool2]|] eqn:Hr; [|done]. cbn [rbind fst snd].
    destruct (emit_rows _ _ _ _ _ _ _ _ _ _ _ _ _) as [rest|] eqn:Hrest; [|done]. cbn [rbind]. intros [= <-].
    cbn [fmap list_fmap fst] in Hord. inversion Hord as [|? ? ? ? Hlo Hcc Hns]; subst. apply in_order_le in Hcc.
    destruct (Hat 0%nat tr op eq_refl) as [Htr Hop]. rewrite Nat.add_0_r in Htr, Hop.
    assert (∃ es, row = apply_edits base (Start tr) es (End_ tr) ∧ edits_ordered (Start tr) es (End_ tr) ∧ Forall table_edit es) as (es1 & -> & Ho1 & Ha1).
    { destruct op as [|e|]; cbn [emit_row] in Hr.
      - injection Hr as <- <-. exists []. by split_and!.
      - unfold mergeRow, tr_at in Hr. rewrite Htr in Hr. cbn [default] in Hr. eapply (merge_slots_edits ri e); [done|intros x Hx; exact Hx| |exact Hcc|exact Hr]. intros c t id n Hin. apply (Hok 0%nat tr (opModify e) c t id n e eq_refl eq_refl). by rewrite Nat.add_0_r.
      - injection Hr as <- <-. exists [(Start tr, End_ tr, [])]. cbn. rewrite !slice_nil by lia. split_and!; [done|lia|lia|lia|]. constructor; [by eapply deleted|done]. }
    apply (IH (S ri)) in Hrest as (es2 & -> & Ho2 & Ha2).
    + exists ((Start tr, Start tr, new) :: es1 ++ es2). cbn [apply_edits]. rewrite (apply_edits_app _ _ es1 (End_ tr)) by done.
      split; [done|]. split; [split; [lia|by eapply edits_ordered_app]|]. constructor; [by eapply inserted|by apply Forall_app].
    + done.
    + intros i tr' op' c t id n e Hi' He Hin. eapply (Hok (S i)); [exact Hi'|done|]. by rewrite <- Nat.add_succ_comm.
    + intros i tr' op' Hi'. rewrite Nat.add_succ_comm. by apply (Hat (S i)).
Qed.
End local.
Lemma slot_cell grid ri texts c t row : grid !! ri = Some row → (c, t) ∈ slots grid ri texts → c ∈ row.
Proof.
  unfold slots, row_at. intros ->. intros (k & Hk)%list_elem_of_lookup_1. rewrite list_lookup_imap in Hk. apply fmap_Some in Hk as (c' & Hc' & [= -> _]). by eapply list_elem_of_lookup_2.
Qed.
Lemma origin_cell_ok tableNode refs ri tr texts c t id n : let '(grid, trs, _) := TableGrid tableNode refs in
  trs !! ri = Some tr → node_ok tr → (c, t) ∈ slots grid ri texts → CNode c = Some (id, n) → Origin c = true → node_ok n.
Proof.
  unfold TableGrid. pose proof (MdView.tableGrid_spec (MdView.newMDRenderer refs) tableNode) as H. destruct (MdView.tableGrid _ _) as [[grid trs] h]. destruct H as (Hlen & _ & Hor).
  intros Htr Hok Hin Hn Ho. destruct (lookup_lt_is_Some_2 grid ri) as [row Hrow]; [rewrite Hlen; by eapply lookup_lt_Some|].
  pose proof (slot_cell _ _ _ _ _ _ Hrow Hin) as Hc. assert ((id, n) ∈ MdView.origins row) as Hid.
  { apply list_elem_of_omap. exists c. split; [done|]. by rewrite Ho. }
  rewrite (Hor ri row tr Hrow Htr) in Hid. apply list_elem_of_lookup_1 in Hid as (k & Hk). rewrite list_lookup_imap in Hk. apply fmap_Some in Hk as (n' & Hn' & [= _ ->]).
  apply list_elem_of_lookup_2, list_elem_of_In in Hn'. apply filter_In in Hn' as [Hn' _]. eapply in_order_elem; [exact Hok|by apply list_elem_of_In].
Qed.

(** C19: a table merge changes only what the edit changed.  The result is the bytes of
    the base table under replacements at increasing, disjoint places, each one
    the conversion of an edited cell put between the wrappers of that cell, rows
    cloned for inserted rows, or the removal of a deleted row; and the rows the
    alignment matches, whose rendered cells are those of an edited row, are the
    rows that are kept. *)
Theorem mergeTable_local wide_word map_order base tableNode refs editedTxt out : is_element tableNode = true → node_ok tableNode →
  mergeTable wide_word map_order base tableNode refs editedTxt = Ok out →
  ∃ width editRows bm em es, edited_rows editedTxt = Ok (width, editRows) ∧
    let '(grid, trs, _) := TableGrid tableNode refs in
    let a := align_rows bm (length trs) (length editRows) in
    matching (map (λ row, row_key (CText <$> row)) grid) (map row_key editRows) bm em ∧
    (∀ i, (i < length trs)%nat → ops a !! i = Some opKeep ↔ matched_row bm i) ∧
    out = apply_edits base (Start tableNode) es (End_ tableNode) ∧ edits_ordered (Start tableNode) es (End_ tableNode) ∧
    Forall (table_edit wide_word map_order base grid trs editRows (multi_rows 0 grid ∅ ∅) (ops a) (inserts a)) es.
Proof.
  intros He Hok. unfold mergeTable. destruct (edited_rows editedTxt) as [[width editRows]|] eqn:Hed; [|done]. cbn [rbind].
  pose proof (λ ri tr texts c t id n, origin_cell_ok tableNode refs ri tr texts c t id n) as Hcell.
  assert (let '(grid, trs, _) := TableGrid tableNode refs in length grid = length trs ∧ in_order (Start tableNode) trs (End_ tableNode)) as Hg.
  { unfold TableGrid. pose proof (MdView.tableGrid_spec (MdView.newMDRenderer refs) tableNode) as H. unfold MdView.tableGrid in *. split; [apply H|].
    apply tableRows_order; [done|done|]. by eapply in_order_le. }
  destruct (TableGrid tableNode refs) as [[grid trs] h]. destruct Hg as [Hlen Hord]. destruct grid as [|row0 grid0] eqn:Hgrid; [done|]. rewrite <- Hgrid in *. destruct (negb _); [done|].
  destruct (LCS _ _) as [[[bm em] [|]]|] eqn:HL; [|done..]. apply LCS_matching in HL. cbn zeta. set (a := align_rows bm (length trs) (length editRows)).
  destruct (marker_pool _ _ _ _ _ _ _) as [pool|] eqn:Hpool; [|done]. cbn [rbind]. intros Hout.
  destruct (align_rows_keep bm (length trs) (length editRows)) as [Hops Hkeep]; [by rewrite (matching_lenA _ _ _ _ HL), length_map|]. fold a in Hops, Hkeep.
  assert ((combine trs (ops a)).*1 = trs) as Hfst by (apply fst_zip; lia).
  assert (∀ i tr op, combine trs (ops a) !! i = Some (tr, op) → trs !! i = Some tr ∧ ops a !! i = Some op) as Hat.
  { intros i tr op Hi. apply lookup_zip_Some in Hi. done. }
  apply (emit_rows_edits wide_word map_order base grid trs editRows _ (ops a)) in Hout as (es & -> & Ho & Hall).
  - exists width, editRows, bm, em, es. by split_and!.
  - by rewrite Hfst.
  - intros i tr op c t id n e Hi -> Hin Hn Hor. apply Hat in Hi as [Hi _]. eapply Hcell; [exact Hi| |exact Hin|exact Hn|exact Hor].
    eapply in_order_elem; [exact Hord|]. by eapply list_elem_of_lookup_2.
  - exact Hat.
Qed.
Module Demo.
Definition raw : text := txt "<table class='c'><tbody><tr><th>A</th><th>B</th></tr><tr><td>1</td><td><p>x</p></td></tr><tr><td>2</td><td>y</td></tr><tr><td>3</td><td>z</td></tr></tbody></table>".
Definition edited : text := join [newline] (map txt ["| A | B |"; "| --- | --- |"; "| 0 | n |"; "| 1 | **w** |"; "| 3 | z |"]%string).
Definition table : Node := Eval vm_compute in match Parse raw with Ok root => default root (hd_error (Children root)) | Err _ => MkNode Text no_name [] [] 0 0 [] end.
Definition merged : text := txt "<table class='c'><tbody><tr><th>A</th><th>B</th></tr><tr><td>0</td><td><p>n</p></td></tr><tr><td>1</td><td><strong>w</strong></td></tr><tr><td>3</td><td>z</td></tr></tbody></table>".
Example merge_demo : mergeTable (λ _, false) (λ l, l) raw table [] edited = Ok merged.
Proof. vm_compute. reflexivity. Qed.
Lemma mergeTable_local_witness : ∃ width editRows bm em es, edited_rows edited = Ok (width, editRows) ∧
    let '(grid, trs, _) := TableGrid table [] in
    let a := align_rows bm (length trs) (length editRows) in
    matching (map (λ row, row_key (CText <$> row)) grid) (map row_key editRows) bm em ∧
    (∀ i, (i < length trs)%nat → ops a !! i = Some opKeep ↔ matched_row bm i) ∧
    merged = apply_edits raw (Start table) es (End_ table) ∧ edits_ordered (Start table) es (End_ table) ∧
    Forall (table_edit (λ _, false) (λ l, l) raw grid trs editRows (multi_rows 0 grid ∅ ∅) (ops a) (inserts a)) es.
Proof.
  apply (mergeTable_local (λ _, false) (λ l, l) raw table [] edited merged); [reflexivity| |vm_compute; reflexivity].
  unfold node_ok, table. repeat (constructor; cbn [Start End_ Children]); lia.
Defined.
End Demo.
End MdTableMerge.
