(* ===== verification/MdMerge.v ===== *)
(** * The three-way merge behind [conf apply] (internal/mdmerge/merge.go)

    Base blocks whose Markdown is untouched keep their bytes, moved ones are
    reused, edited tables are merged and the rest is converted.  SHA-256, the
    letters and digits beyond ASCII and the iteration order of maps are
    parameters. *)

From S2P Require Import Prelude BlockAlign GoText WikiScanner WikiMerge Json Markdown Encoding Xml Csf Fragment MdCsf MdView MdOpaque MdTableMerge.
Import GoText BlockAlign.
Import WikiScanner (is_byte, newline).
Import Encoding (json_int).
Import Markdown (split, join, cut).
Import Xml (Name, Space, Local_, Attr, AName, Value).
Import Csf.
Import Fragment (Ref, Key, Extract, identity, plain_ref, RefPageLink).
Import MdView (Block, CSFStart, CSFEnd, MD, BKind, RenderBlockNodes, tableRows, rowCells, local_in, html_element, itoa, styleColor).
Import MdOpaque MdTableMerge.

Module MdMerge.
Local Open Scope Z_scope.
Local Open Scope atl_scope.

(** ** What a merge must not lose (merge.go) *)

Section protected.
(** The hexadecimal SHA-256 of a text. *)
Variable sha256_hex : text → text.

Definition hash_part (part : text) : text := itoa (length part) ++ txt ":" ++ part.
Definition protectedHashParts (parts : list text) : text := sha256_hex (concat (map hash_part parts)).
Definition type_number (t : NodeType) : text := match t with Element => txt "0" | Text => txt "1" | CData => txt "2" end.
Fixpoint node_encoding (n : Node) : text :=
  type_number (Type_ n) ++ txt ";" ++ hash_part (Space (Name_ n)) ++ hash_part (Local_ (Name_ n)) ++ itoa (length (Attr_ n)) ++ txt ";" ++
  concat (map (λ a, hash_part (Space (AName a)) ++ hash_part (Local_ (AName a)) ++ hash_part (Value a)) (Attr_ n)) ++
  hash_part (Data n) ++ itoa (length (Children n)) ++ txt ";" ++ concat (map node_encoding (Children n)).
Definition protectedNodeHash (root : Node) : text := sha256_hex (node_encoding root).

Definition text_le (a b : text) : Prop := text_ltb b a = false.
#[export] Instance text_le_dec : RelDecision text_le. Proof. intros a b. unfold text_le. apply _. Defined.

Definition protectedElementShapeHash (n : Node) : text :=
  protectedHashParts (name_string (Name_ n) :: merge_sort text_le (map (λ a, name_string (AName a) ++ txt "=" ++ Value a) (Attr_ n))).

(** ** Tables the converter can reproduce *)

Definition attr_named (space local : string) (a : Attr) : bool := eqt (Space (AName a)) (txt space) && eqt (Local_ (AName a)) (txt local).
Definition isCanonicalTableInlineElement (n : Node) : bool :=
  if html_element ["strong"; "em"; "s"; "code"]%string n then (length (Attr_ n) =? 0)%nat
  else html_element ["a"%string] n && match Attr_ n with [a] => attr_named "" "href" a | _ => false end.
Definition tableCellWrapperShapes (cell : Node) : list text :=
  (walk (λ '(first, shapes) n, ((false, if (first : bool) || isCanonicalTableInlineElement n then shapes else shapes ++ [name_string (Name_ n)]), true)) (true, []) cell).2.
Definition cellHasNonCanonicalTableContent (cell : Node) : bool := negb (length (tableCellWrapperShapes cell) =? 0)%nat.

Definition elements (n : Node) : list Node := List.filter is_element (Children n).
Definition plain (names : list string) (n : Node) : bool := html_element names n && (length (Attr_ n) =? 0)%nat.
Definition plain_cell (ri : nat) (cell : Node) : bool :=
  plain ["td"; "th"]%string cell && local_in [if (ri =? 0)%nat then "th"%string else "td"%string] cell && negb (nodeHasTable cell) && negb (cellHasNonCanonicalTableContent cell).
Definition plain_row (ri : nat) (row : Node) : bool := plain ["tr"%string] row && forallb (plain_cell ri) (elements row) && negb (length (elements row) =? 0)%nat.
Definition hasReproducibleTableShape (table : Node) : bool :=
  is_element table && plain ["table"%string] table &&
  match elements table with
  | [tbody] => plain ["tbody"%string] tbody && negb (length (elements tbody) =? 0)%nat && forallb id (imap plain_row (elements tbody))
  | _ => false
  end.
Definition hasComplexTable (n : Node) : bool := negb (hasReproducibleTableShape n).

(** ** The inventory of protected content *)

(** What one occurrence adds: its signature and how it is reported. *)
Definition sighting : Type := text * Ref.
Definition nul : text := [Ascii.zero].
Definition structure_sighting (kind display shape : text) : sighting :=
  (txt "structure" ++ nul ++ kind ++ nul ++ shape, plain_ref (txt "structure") (kind ++ txt ":" ++ shape) display).

Definition canonicalCodeLanguageParameter (parameter : Node) (value : text) : bool :=
  match Attr_ parameter, Children parameter with
  | [a], [c] => attr_named "ac" "name" a && bool_decide (Type_ c = Text) && bool_decide (WikiScanner.NormalizeMarkdownFenceInfo value = Some value) && eqt (Data c) value
  | _, _ => false
  end.
Definition macro_metadata (n : Node) : list text :=
  let macroName := attrv n "ac" "name" in
  (if named "ac" "structured-macro" n then [] else [txt "element=" ++ name_string (Name_ n)]) ++
  map (λ a, txt "attr:" ++ name_string (AName a) ++ txt "=" ++ Value a) (List.filter (λ a, negb (attr_named "ac" "name" a)) (Attr_ n)) ++
  (Children n ≫= λ child,
    if negb (is_parameter child) then []
    else
      let name := attrv child "ac" "name" in
      let value := TextContent child in
      if eqt macroName (txt "code") && eqt name (txt "language") && canonicalCodeLanguageParameter child value then []
      else [txt "parameter:" ++ name ++ txt "=" ++ value]).
Definition collectProtectedMacroMetadata (n : Node) : list sighting :=
  if negb (isMacroElement n) then []
  else
    match macro_metadata n with
    | [] => []
    | parts =>
        let shape := protectedHashParts (attrv n "ac" "name" :: merge_sort text_le parts) in
        [(txt "structure" ++ nul ++ txt "macro-metadata" ++ nul ++ shape, plain_ref (txt "structure") (txt "macro-metadata:" ++ shape) (txt "macro metadata"))]
    end.

(** The children of a table that are neither rows nor inventoried by themselves;
    a run of rows without a section counts once. *)
Fixpoint child_topologies (cs : list Node) (acc : list text) : list text :=
  match cs with
  | [] => acc
  | c :: cs =>
      if negb (is_element c && eqt (Space (Name_ c)) []) then child_topologies cs acc
      else if local_in ["tr"%string] c then child_topologies cs (if bool_decide (last acc = Some (txt "direct-rows")) then acc else acc ++ [txt "direct-rows"])
      else if local_in ["caption"; "colgroup"; "thead"; "tbody"; "tfoot"]%string c then child_topologies cs acc
      else child_topologies cs (acc ++ [txt "table-child:" ++ Local_ (Name_ c)])
  end.
Definition row_topologies (ri : nat) (row : Node) : list text :=
  let cells := rowCells row in
  let allTH := forallb (local_in ["th"%string]) cells in
  let hasTH := existsb (local_in ["th"%string]) cells in
  let shape := join (txt ",") (map (λ c, Local_ (Name_ c)) cells) in
  (if (ri =? 0)%nat && ((length cells =? 0)%nat || negb allTH) then [txt "first-row:" ++ shape] else []) ++
  (if (0 <? ri)%nat && hasTH then [txt "later-row:" ++ shape] else []) ++
  (cells ≫= λ c, map (λ w, txt "cell-wrapper:" ++ w) (tableCellWrapperShapes c)).
Definition protectedTableTopologies (table : Node) : list text :=
  child_topologies (Children table) [] ++ concat (imap row_topologies (tableRows table)).

Definition structural : list string := ["caption"; "colgroup"; "col"; "thead"; "tbody"; "tfoot"]%string.
Definition collectProtectedStructure (n : Node) : list sighting :=
  if negb (eqt (Space (Name_ n)) []) then []
  else
    let local := Local_ (Name_ n) in
    let shown := txt "<" ++ local ++ txt ">" in
    let hash := protectedElementShapeHash n in
    (if local_in ["br"%string] n then [structure_sighting (txt "br") (txt "<br>") hash]
     else if local_in structural n then [structure_sighting local shown hash] else []) ++
    (if (0 <? length (Attr_ n))%nat then [structure_sighting (local ++ txt "-attributes") (shown ++ txt " attributes") hash] else []) ++
    (if local_in ["table"%string] n then
       map (λ topology, structure_sighting (txt "table-topology") (txt "table topology") (protectedHashParts [topology])) (protectedTableTopologies n)
     else []).

(** The page title, the space and the label of a link; the last of each counts. *)
Definition link_parts (n : Node) : text * text * text :=
  walk (λ '(title, space, label) x,
    (if named "ri" "page" x then (attrv x "ri" "content-title", attrv x "ri" "space-key", label)
     else if named "ac" "link-body" x || named "ac" "plain-text-link-body" x then (title, space, TextContent x)
     else (title, space, label), true)) ([], [], []) n.
Definition link_sighting (n : Node) : list sighting :=
  let '(title, space, label) := link_parts n in
  if eqt title [] then []
  else
    let label := if eqt label [] then title else label in
    let key := (if eqt space [] then title else space ++ txt "/" ++ title) ++ (if eqt label title then [] else txt " (" ++ label ++ txt ")") in
    [(RefPageLink ++ nul ++ protectedNodeHash n, plain_ref RefPageLink key label)].
Definition protectedSpanColor : Node → text := styleColor.
Definition inline_sighting (n : Node) : list sighting :=
  if named "ac" "link" n then link_sighting n
  else if named "" "span" n then
    let color := protectedSpanColor n in
    if eqt color [] then [] else [(txt "color" ++ nul ++ protectedNodeHash n, plain_ref (txt "color") color color)]
  else if named "ac" "inline-comment-marker" n then
    [(txt "inline-comment-marker" ++ nul ++ protectedNodeHash n, plain_ref (txt "inline-comment-marker") (attrv n "ac" "ref") (TextContent n))]
  else [].
Definition sightings (n : Node) : list sighting := collectProtectedMacroMetadata n ++ collectProtectedStructure n ++ inline_sighting n.

(** A map from signatures to how often each occurs and its last report. *)
Definition note (items : gmap text (nat * Ref)) (s : sighting) : gmap text (nat * Ref) :=
  <[s.1 := (S (default O (fst <$> items !! s.1)), s.2)]> items.
Definition protectedInlineInventory (root : Node) : gmap text (nat * Ref) :=
  walk (λ items n, (fold_left note (sightings n) items, true)) ∅ root.
Definition macroCounts (root : Node) : gmap text nat :=
  walk (λ counts n, let name := MacroName n in (if eqt name [] then counts else <[name := S (default O (counts !! name))]> counts, true)) ∅ root.

(** [have] holds how often each kind and key is still unaccounted for. *)
Definition fragments (root : Node) : list Ref := List.filter (λ r, negb (eqt (Fragment.Kind r) RefPageLink)) (Extract root).
Definition count_of (have : gmap (text * text) nat) (r : Ref) : gmap (text * text) nat := <[identity r := S (default O (have !! identity r))]> have.
Fixpoint missing_fragments (have : gmap (text * text) nat) (refs : list Ref) : list Ref :=
  match refs with
  | [] => []
  | r :: refs => match default O (have !! identity r) with
                 | O => r :: missing_fragments have refs
                 | S k => missing_fragments (<[identity r := k]> have) refs
                 end
  end.
Definition missing_macros (base result : gmap text nat) : list Ref :=
  map_to_list base ≫= λ '(name, c), replicate (c - default O (result !! name)) (plain_ref (txt "macro") name name).
Definition missing_protected (base result : gmap text (nat * Ref)) : list Ref :=
  map_to_list base ≫= λ '(signature, (c, r)), replicate (c - default O (fst <$> result !! signature)) r.

Definition ref_le (a b : Ref) : Prop :=
  if eqt (Fragment.Kind a) (Fragment.Kind b) then text_ltb (Key b) (Key a) = false else text_ltb (Fragment.Kind a) (Fragment.Kind b) = true.
#[export] Instance ref_le_dec : RelDecision ref_le. Proof. intros a b. unfold ref_le. destruct (eqt _ _); apply _. Defined.
(** [sort.Slice] leaves the order of references with equal kind and key open. *)
Definition removedFragments (baseRoot : Node) (result : text) : list Ref :=
  match Parse result with
  | Err _ => []
  | Ok resRoot =>
      merge_sort ref_le
        (missing_fragments (fold_left count_of (fragments resRoot) ∅) (fragments baseRoot) ++
         missing_macros (macroCounts baseRoot) (macroCounts resRoot) ++
         missing_protected (protectedInlineInventory baseRoot) (protectedInlineInventory resRoot))
  end.
End protected.

(** ** Merging *)

Record Report := { Unchanged : nat; Moved : nat; Converted : nat; Removed : nat; MergedTables : nat; RemovedFragments : list Ref; Problems : list Problem }.
Inductive mergeError :=
| BaseError (err : parse_error)
| AlignmentError
| BlockError (block : text) (err : Cause)
| InvalidError (problem : Problem)
| LossError (removed : list Ref).

(** Units: the pieces of every block, in order. *)
Definition piece_texts (b : Block) : list text := map trim_space (WikiScanner.SplitBlocks (MD b)).
Definition block_units (bi : nat) (ps : list text) : list WikiMerge.unit_ := imap (λ j p, {| WikiMerge.utext := p; WikiMerge.ublock := bi; WikiMerge.upiece := j |}) ps.
Definition units (ps : list (list text)) : list WikiMerge.unit_ := concat (imap block_units ps).
Definition edited_texts (editedMD : text) : list text := map trim_space (WikiScanner.SplitBlocks editedMD).

Section plan.
Variable ps : list (list text).
Variable baseMatch editMatch : list Z.

Definition pieces_of (bi : nat) : list text := default [] (ps !! bi).
Definition firstUnit (bi : nat) : nat := length (concat (take bi ps)).
Definition block_matches (bi : nat) : list Z := slice baseMatch (firstUnit bi) (firstUnit bi + length (pieces_of bi)).
Definition kept (bi : nat) : bool := WikiMerge.pieces_kept (block_matches bi) (-2).
(** A block of several pieces that is matched in part stops the merge. *)
Definition partial (bi : nat) : bool := negb (kept bi) && (1 <? length (pieces_of bi))%nat && existsb (λ m, 0 <=? m) (block_matches bi).
(** The unit of a kept block that an edited piece is. *)
Definition editKept (e : nat) : option WikiMerge.unit_ :=
  match editMatch !! e with
  | Some b => if 0 <=? b then match units ps !! Z.to_nat b with Some u => if kept (WikiMerge.ublock u) then Some u else None | None => None end else None
  | None => None
  end.
Definition block_text (bi : nat) : text := default [] (head (pieces_of bi)).
(** Blocks of one piece that were not kept, by their text. *)
Definition add_pool (pool : gmap text (list nat)) (bi : nat) : gmap text (list nat) :=
  if negb (kept bi) && (length (pieces_of bi) =? 1)%nat then <[block_text bi := default [] (pool !! block_text bi) ++ [bi]]> pool else pool.
Definition reuse_pool : gmap text (list nat) := fold_left add_pool (seq 0 (length ps)) ∅.
End plan.
Definition removeFromPool (pool : gmap text (list nat)) (key : text) (bi : nat) : gmap text (list nat) :=
  match pool !! key with
  | None => pool
  | Some q => match list_find (λ v, v = bi) q with Some (i, _) => <[key := delete i q]> pool | None => pool end
  end.

(** The output so far: [pending] waits for the next slot, the blocks before
    [nextBlock] are emitted or dropped, and the base is copied up to [gapStart]. *)
Record emission := { out : text; pending : text; gapStart : nat; nextBlock : nat }.
Record progress := { emitted : emission; pool : gmap text (list nat); reused : gset nat; markers : list marker; counts : Report }.

Section assembly.
Variable base : text.
Variable blocks : list Block.
Definition block_at (bi : nat) : Block := default {| CSFStart := 0; CSFEnd := 0; MD := []; BKind := [] |} (blocks !! bi).
Definition block_bytes (bi : nat) : text := slice base (CSFStart (block_at bi)) (CSFEnd (block_at bi)).

(** The gaps of the blocks that are dropped before the next one; the pending
    bytes take the slot of the first. *)
Definition drop_block (em : emission) (k : nat) : emission :=
  {| out := out em ++ slice base (gapStart em) (CSFStart (block_at k)) ++ pending em; pending := []; gapStart := CSFEnd (block_at k); nextBlock := S k |}.
Definition flushRun (j : nat) (em : emission) : emission :=
  let em' := fold_left drop_block (seq (nextBlock em) (j - nextBlock em)) em in
  {| out := out em' ++ (if (j <? length blocks)%nat then slice base (gapStart em') (CSFStart (block_at j)) else []) ++ pending em'; pending := [];
     gapStart := if (j <? length blocks)%nat then CSFStart (block_at j) else gapStart em'; nextBlock := j |}.
Definition emit_block (bi : nat) (em : emission) : emission :=
  let em := flushRun bi em in
  {| out := out em ++ block_bytes bi; pending := pending em; gapStart := CSFEnd (block_at bi); nextBlock := S bi |}.
Definition push (bytes : text) (em : emission) : emission := {| out := out em; pending := pending em ++ bytes; gapStart := gapStart em; nextBlock := nextBlock em |}.
End assembly.

Definition count (u m c t : nat) (r : Report) : Report :=
  {| Unchanged := Unchanged r + u; Moved := Moved r + m; Converted := Converted r + c; Removed := Removed r; MergedTables := MergedTables r + t;
     RemovedFragments := RemovedFragments r; Problems := Problems r |}.
Definition zero_report : Report := {| Unchanged := 0; Moved := 0; Converted := 0; Removed := 0; MergedTables := 0; RemovedFragments := []; Problems := [] |}.

Section merge.
Variable sha256_hex : text → text.
Variable wide_word : Z → bool.
Variable map_order : list (text * text) → list (text * text).
Variable base : text.
Variable refs : list Ref.
Variable blocks : list Block.
Variable nodes : list Node.
Variable ps : list (list text).
Variable baseMatch editMatch : list Z.

Definition dropped_table (complex : bool) (bi : nat) : bool :=
  negb (kept ps baseMatch bi) && eqt (BKind (block_at blocks bi)) (txt "table") &&
  match nodes !! bi with Some n => Bool.eqb (hasComplexTable n) complex | None => false end.
Definition dropped_tables (complex : bool) : list nat := List.filter (dropped_table complex) (seq 0 (length blocks)).
(** Complex tables are merged in place: what they hold is not up for grabs. *)
Definition marker_kept : list bool := map (λ bi, kept ps baseMatch bi || dropped_table true bi) (seq 0 (length blocks)).

Definition mds : list text := map MD blocks.
Definition reuse (st : progress) (bi : nat) (bytes : text) (pool' : gmap text (list nat)) (m t : nat) : progress :=
  {| emitted := push bytes (emitted st); pool := pool'; reused := {[bi]} ∪ reused st; markers := markers st; counts := count 0 m 0 t (counts st) |}.
Definition convert_step (st : progress) (s : text) : result mergeError progress :=
  match convertBlock wide_word map_order s (markers st) with
  | Err e => Err (BlockError s e)
  | Ok (conv, ms) => Ok {| emitted := push conv (emitted st); pool := pool st; reused := reused st; markers := ms; counts := count 0 0 1 0 (counts st) |}
  end.
(** An edited table: merged into the complex table it shares rows with; one that
    shares none is only converted when it edits a simple table. *)
Definition table_step (st : progress) (s : text) : result mergeError progress :=
  match pickTableCandidate (dropped_tables true) (reused st) mds s with
  | Some bi =>
      match mergeTable wide_word map_order base (default (MkNode Element no_name [] [] 0 0 []) (nodes !! bi)) refs s with
      | Err e => Err (BlockError s e)
      | Ok merged => Ok (reuse st bi merged (removeFromPool (pool st) (block_text ps bi) bi) 0 1)
      end
  | None =>
      match pickTableCandidate (dropped_tables false) (reused st) mds s with
      | Some _ => convert_step st s
      | None => Err (BlockError s (Refused "the edited table uses spans/styling/nested structure"))
      end
  end.
Definition new_step (st : progress) (s : text) : result mergeError progress :=
  match default [] (pool st !! s) with
  | bi :: q => Ok (reuse st bi (block_bytes base blocks bi) (<[s := q]> (pool st)) 1 0)
  | [] => if has_prefix s (txt "|") && negb (length (dropped_tables true) =? 0)%nat then table_step st s else convert_step st s
  end.
Definition edit_step (st : progress) (e : nat) (s : text) : result mergeError progress :=
  match editKept ps baseMatch editMatch e with
  | Some u =>
      if (WikiMerge.upiece u =? 0)%nat
      then Ok {| emitted := emit_block base blocks (WikiMerge.ublock u) (emitted st); pool := pool st; reused := reused st; markers := markers st; counts := count 1 0 0 0 (counts st) |}
      else Ok st
  | None => new_step st s
  end.
Fixpoint edit_loop (st : progress) (e : nat) (edited : list text) : result mergeError progress :=
  match edited with [] => Ok st | s :: edited => let! st := edit_step st e s in edit_loop st (S e) edited end.

Definition initial : progress :=
  {| emitted := {| out := []; pending := []; gapStart := 0; nextBlock := 0 |}; pool := reuse_pool ps baseMatch; reused := ∅;
     markers := collectMarkers nodes marker_kept base refs; counts := zero_report |}.
Definition finish (st : progress) : text :=
  let em := flushRun base blocks (length blocks) (emitted st) in out em ++ drop (gapStart em) base.
Definition removed_count (st : progress) : nat :=
  length (List.filter (λ bi, negb (kept ps baseMatch bi) && negb (bool_decide (bi ∈ reused st))) (seq 0 (length blocks))).
End merge.

Definition Merge (sha256_hex : text → text) (wide_word : Z → bool) (map_order : list (text * text) → list (text * text))
    (base : text) (refs : list Ref) (editedMD : text) (AllowFragmentLoss : bool) : option text * option Report * option mergeError :=
  match Parse base with
  | Err e => (None, None, Some (BaseError e))
  | Ok root =>
      let bn := RenderBlockNodes root refs in
      let blocks := bn.*1 in
      let nodes := bn.*2 in
      let ps := map piece_texts blocks in
      let edited := edited_texts editedMD in
      match LCS (map WikiMerge.utext (units ps)) edited with
      | Some (baseMatch, editMatch, true) =>
          match List.find (partial ps baseMatch) (seq 0 (length blocks)) with
          | Some bi => (None, None, Some (BlockError (MD (block_at blocks bi)) (Refused "edit touches content inside an unrecognized wrapper element")))
          | None =>
              match edit_loop wide_word map_order base refs blocks nodes ps baseMatch editMatch (initial base refs blocks nodes ps baseMatch) 0 edited with
              | Err e => (None, None, Some e)
              | Ok st =>
                  let merged := finish base blocks st in
                  let c := counts st in
                  let rep removed := {| Unchanged := Unchanged c; Moved := Moved c; Converted := Converted c; Removed := removed_count blocks ps baseMatch st;
                                        MergedTables := MergedTables c; RemovedFragments := removed; Problems := Validate merged |} in
                  match HasErrors (Validate merged), Validate merged with
                  | true, p :: _ => (None, Some (rep []), Some (InvalidError p))
                  | _, _ =>
                      let removed := removedFragments sha256_hex root merged in
                      if negb (length removed =? 0)%nat && negb AllowFragmentLoss then (None, Some (rep removed), Some (LossError removed))
                      else (Some merged, Some (rep removed), None)
                  end
              end
          end
      | _ => (None, None, Some AlignmentError)
      end
  end.
End MdMerge.
