(* ===== verification/MdMergeFacts.v ===== *)
(** * What a merge guarantees (internal/mdmerge)

    The output is an interleaving of the base and the edit; the untouched view of
    a page gives back the page; nothing protected is lost silently; an edited table
    differs from its base in justified places only. *)

From S2P Require Import Prelude BlockAlign GoText WikiScanner WikiMerge Json Markdown Encoding Xml Csf Fragment MdCsf MdView ViewBlocks MdOpaque MdTableMerge MdMerge.
Import GoText BlockAlign.
Import WikiMerge (unit_, utext, ublock, upiece, pieces_kept).
Import Csf.
Import Fragment (Ref).
Import MdView (Block, CSFStart, CSFEnd, MD, BKind, RenderBlockNodes).
Import ViewBlocks (self_contained, shows_code, view_pieces).
Import MdOpaque MdTableMerge MdMerge.

Module MdMergeFacts.
Local Open Scope Z_scope.

(** ** Units *)

Lemma units_snoc ps p : units (ps ++ [p]) = units ps ++ block_units (length ps) p.
Proof. unfold units. rewrite imap_app, concat_app. cbn. by rewrite app_nil_r, Nat.add_0_r. Qed.
Lemma md_block_units_lookup bi p j : block_units bi p !! j = (λ x, {| utext := x; ublock := bi; upiece := j |}) <$> p !! j.
Proof. unfold block_units. apply list_lookup_imap. Qed.
Lemma units_length ps : length (units ps) = length (concat ps).
Proof.
  induction ps as [|p ps IH] using rev_ind; [done|]. rewrite units_snoc, concat_app, !length_app, IH. cbn. rewrite app_nil_r.
  unfold block_units. by rewrite length_imap.
Qed.
Lemma md_unit_at ps bi p j x : ps !! bi = Some p → p !! j = Some x → units ps !! (firstUnit ps bi + j)%nat = Some {| utext := x; ublock := bi; upiece := j |}.
Proof.
  unfold firstUnit. induction ps as [|q ps IH] using rev_ind; [done|]. rewrite units_snoc. intros Hp Hj.
  apply lookup_app_Some in Hp as [Hp|[Hl Hp]].
  - pose proof (lookup_lt_Some _ _ _ Hp). rewrite take_app_le by lia. rewrite lookup_app_l; [by apply IH|].
    specialize (IH Hp Hj). by apply lookup_lt_Some in IH.
  - destruct (bi - length ps)%nat eqn:Hb; [|done]. injection Hp as ->. assert (bi = length ps) as -> by lia.
    rewrite take_app_length. rewrite lookup_app_r by (rewrite units_length; lia). rewrite units_length.
    replace (length (concat ps) + j - length (concat ps))%nat with j by lia. by rewrite md_block_units_lookup, Hj.
Qed.
Lemma md_unit_inv ps u un : units ps !! u = Some un →
  ∃ p, ps !! ublock un = Some p ∧ p !! upiece un = Some (utext un) ∧ u = (firstUnit ps (ublock un) + upiece un)%nat.
Proof.
  unfold firstUnit. induction ps as [|q ps IH] using rev_ind; [done|]. rewrite units_snoc. intros [Hu|[Hl Hu]]%lookup_app_Some.
  - apply IH in Hu as (p & Hp & Hx & ->). exists p. pose proof (lookup_lt_Some _ _ _ Hp). rewrite lookup_app_l, take_app_le by lia. by split_and!.
  - rewrite md_block_units_lookup in Hu. apply fmap_Some in Hu as (x & Hx & ->). cbn. exists q. rewrite list_lookup_middle by done.
    rewrite take_app_length, <- units_length. split_and!; [done|done|lia].
Qed.
Lemma firstUnit_mono ps a b : (a ≤ b)%nat → (firstUnit ps a ≤ firstUnit ps b)%nat.
Proof.
  intros H. unfold firstUnit. replace b with (a + (b - a))%nat by lia. rewrite <- (take_drop a (take (a + (b - a)) ps)).
  rewrite take_take, concat_app, length_app. replace (a `min` (a + (b - a)))%nat with a by lia. lia.
Qed.

Lemma pieces_kept_all ms : ∀ prev j m, pieces_kept ms prev = true → ms !! j = Some m → 0 ≤ m.
Proof.
  induction ms as [|m0 ms IH]; intros prev j m H Hj; [done|]. cbn [pieces_kept] in H. bool_hyps. destruct j; [injection Hj as <-; lia|by eapply IH].
Qed.
Lemma md_pieces_kept_seq k : ∀ a prev, prev = -2 ∨ prev = Z.of_nat a - 1 → pieces_kept (map Z.of_nat (seq a k)) prev = true.
Proof.
  induction k as [|k IH]; intros a prev Hp; [done|]. cbn [seq map pieces_kept]. rewrite IH by (right; lia). rewrite andb_true_r. apply negb_true_iff.
  apply orb_false_iff. split; [lia|]. destruct Hp as [->| ->]; [done|]. apply andb_false_iff. right. apply negb_false_iff. lia.
Qed.

(** ** The order of the kept blocks *)

Lemma filter_seq_cons (P : nat → bool) k : ∀ a x rest, List.filter P (seq a k) = x :: rest →
  (a ≤ x < a + k)%nat ∧ P x = true ∧ (∀ y, (a ≤ y < x)%nat → P y = false) ∧ rest = List.filter P (seq (S x) (a + k - S x)).
Proof.
  induction k as [|k IH]; intros a x rest; [done|]. cbn [seq List.filter]. destruct (P a) eqn:Ha.
  - intros [= -> <-]. split_and!; [lia|lia|done|intros; lia|]. f_equal. f_equal. lia.
  - intros H. apply IH in H as (H1 & H2 & H3 & H4). split_and!; [lia|lia|done| |rewrite H4; do 2 f_equal; lia].
    intros y Hy. destruct (decide (y = a)) as [->|]; [done|]. apply H3. lia.
Qed.
Lemma filter_seq_nil (P : nat → bool) k a : List.filter P (seq a k) = [] → ∀ y, (a ≤ y < a + k)%nat → P y = false.
Proof.
  intros H y Hy. destruct (P y) eqn:E; [|done]. assert (In y (List.filter P (seq a k))) as Hin by (apply filter_In; split; [by apply in_seq|done]).
  by rewrite H in Hin.
Qed.

Section accounting.
Variable ps : list (list text).
Variables baseMatch editMatch : list Z.
Variable edited : list text.
Hypothesis Hmatch : matching (map utext (units ps)) edited baseMatch editMatch.
Hypothesis Hne : Forall (λ p, p ≠ []) ps.
Notation keep := (kept ps baseMatch).

(** The block an edited piece emits. *)
Definition emits (e : nat) : option nat :=
  match editKept ps baseMatch editMatch e with Some u => if (upiece u =? 0)%nat then Some (ublock u) else None | None => None end.
Lemma emits_spec e bi : emits e = Some bi → keep bi = true ∧ (bi < length ps)%nat ∧ baseMatch !! firstUnit ps bi = Some (Z.of_nat e).
Proof.
  unfold emits, editKept. destruct (editMatch !! e) as [b|] eqn:He; [|done]. destruct (0 <=? b) eqn:Hb; [|done].
  destruct (units ps !! Z.to_nat b) as [u|] eqn:Hu; [|done]. destruct (keep (ublock u)) eqn:Hk; [|done]. destruct (upiece u =? 0)%nat eqn:Hp; [|done].
  intros [= <-]. apply md_unit_inv in Hu as (p & Hp' & _ & Hu). split_and!; [done|by eapply lookup_lt_Some|].
  destruct (matching_bwd _ _ _ _ Hmatch e b He) as [->|(i & x & -> & _ & _ & Hi)]; [done|]. bool_hyps. rewrite Nat2Z.id in Hu.
  rewrite <- Hi. f_equal. lia.
Qed.
Lemma emits_kept bi : (bi < length ps)%nat → keep bi = true → ∃ e, (e < length edited)%nat ∧ emits e = Some bi.
Proof.
  intros Hl Hk. destruct (lookup_lt_is_Some_2 ps bi Hl) as [p Hp]. assert (p ≠ []) as Hn by (rewrite Forall_lookup in Hne; by eapply Hne).
  destruct p as [|x p]; [done|]. pose proof (md_unit_at ps bi (x :: p) 0 x Hp eq_refl) as Hu. rewrite Nat.add_0_r in Hu.
  assert (∃ z, baseMatch !! firstUnit ps bi = Some z ∧ 0 ≤ z) as (z & Hz & Hz0).
  { destruct (lookup_lt_is_Some_2 baseMatch (firstUnit ps bi)) as [z Hz].
    { rewrite (matching_lenA _ _ _ _ Hmatch), length_map. by eapply lookup_lt_Some. }
    exists z. split; [done|]. apply (pieces_kept_all (block_matches ps baseMatch bi) (-2) 0 z Hk).
    unfold block_matches, slice, pieces_of. rewrite Hp. cbn. rewrite lookup_take_lt by lia. by rewrite lookup_drop, Nat.add_0_r. }
  destruct (matching_fwd _ _ _ _ Hmatch _ _ Hz) as [->|(e & y & -> & _ & He & Hb)]; [lia|]. exists e. split; [by eapply lookup_lt_Some|].
  unfold emits, editKept. rewrite Hb. rewrite (proj2 (Z.leb_le _ _)) by lia. rewrite Nat2Z.id, Hu. cbn [ublock upiece]. by rewrite Hk.
Qed.
Lemma emits_order e e' bi bi' : emits e = Some bi → emits e' = Some bi' → (e < e')%nat → (bi < bi')%nat.
Proof.
  intros (Hk & _ & H)%emits_spec (Hk' & _ & H')%emits_spec Hlt. destruct (decide (bi < bi')%nat); [done|]. exfalso.
  pose proof (firstUnit_mono ps bi' bi ltac:(lia)) as Hm. pose proof (matching_mono _ _ _ _ Hmatch _ _ _ _ H H') as Hmono.
  destruct (decide (firstUnit ps bi = firstUnit ps bi')) as [Heq|Hneq]; [rewrite Heq, H' in H; injection H as H; lia|].
  pose proof (matching_mono _ _ _ _ Hmatch _ _ _ _ H' H) as Hmono'. lia.
Qed.

Definition planned (e k : nat) : list nat := omap emits (seq e k).
Lemma planned_sorted k : ∀ e, StronglySorted lt (planned e k).
Proof.
  unfold planned. induction k as [|k IH]; intros e; cbn; [constructor|]. destruct (emits e) as [bi|] eqn:He; [|apply IH]. constructor; [apply IH|].
  apply Forall_forall. intros bi' (e' & He' & Hb)%list_elem_of_omap. apply elem_of_seq in He'. eapply emits_order; [done|done|lia].
Qed.
Lemma seq_sorted k : ∀ a (P : nat → bool), StronglySorted lt (List.filter P (seq a k)).
Proof.
  induction k as [|k IH]; intros a P; cbn; [constructor|]. destruct (P a); [|apply IH]. constructor; [apply IH|].
  apply Forall_forall. intros x Hx%list_elem_of_In%filter_In. destruct Hx as [Hx _]. apply in_seq in Hx. lia.
Qed.
(** The kept blocks are emitted once each, in order. *)
Lemma md_planned_kept : planned 0 (length edited) = List.filter keep (seq 0 (length ps)).
Proof.
  assert (∀ bi, bi ∈ planned 0 (length edited) ↔ bi ∈ List.filter keep (seq 0 (length ps))) as Hin.
  { intros bi. unfold planned. rewrite list_elem_of_omap, list_elem_of_In, filter_In, in_seq. split.
    - intros (e & _ & He). apply emits_spec in He as (Hk & Hl & _). split; [lia|done].
    - intros [Hl Hk]. destruct (emits_kept bi ltac:(lia) Hk) as (e & He & Hb). exists e. split; [by apply elem_of_seq; lia|done]. }
  assert (∀ l, StronglySorted lt l → NoDup l) as Hnd.
  { induction 1 as [|x l Hs IH Hf]; constructor; [|done]. intros Hx. rewrite Forall_forall in Hf. specialize (Hf x Hx). lia. }
  apply (StronglySorted_unique_strong lt); [intros; lia|apply planned_sorted|apply seq_sorted|].
  apply NoDup_Permutation; [apply Hnd, planned_sorted|apply Hnd, seq_sorted|done].
Qed.
End accounting.

(** ** The parts of the output *)

Inductive part := Gap (k : nat) | Keep (k : nat) | New (bytes : text).
Definition from_base (p : part) : bool := match p with New _ => false | _ => true end.
Definition from_edit (p : part) : bool := match p with Gap _ => false | _ => true end.

Section parts.
Variable base : text.
Variable blocks : list Block.
Variable keep : nat → bool.
Notation n := (length blocks).

Definition prev_end (k : nat) : nat := match k with O => O | S k => CSFEnd (block_at blocks k) end.
Definition part_bytes (p : part) : text :=
  match p with
  | Gap k => if (k <? n)%nat then slice base (prev_end k) (CSFStart (block_at blocks k)) else drop (prev_end k) base
  | Keep k => block_bytes base blocks k
  | New bytes => bytes
  end.
Definition cat (parts : list part) : text := concat (map part_bytes parts).
Lemma cat_app a b : cat (a ++ b) = cat a ++ cat b.
Proof. unfold cat. by rewrite map_app, concat_app. Qed.

(** What the base contributes before block [k]. *)
Definition skeleton (k : nat) : list part := concat (map (λ i, Gap i :: if keep i then [Keep i] else []) (seq 0 k)).
Lemma skeleton_S k : skeleton (S k) = skeleton k ++ Gap k :: if keep k then [Keep k] else [].
Proof. unfold skeleton. rewrite seq_S, map_app, concat_app. cbn. by rewrite app_nil_r. Qed.

(** The output is the concatenation of [done], the pending bytes of [wait]. *)
Record emission_ok (em : emission) (done wait : list part) : Prop := {
  ok_out : out em = cat done;
  ok_pending : pending em = cat wait;
  ok_wait : Forall (λ p, from_base p = false) wait;
  ok_base : List.filter from_base done = skeleton (nextBlock em);
  ok_gap : gapStart em = prev_end (nextBlock em);
  ok_next : (nextBlock em ≤ n)%nat
}.

Lemma wait_base wait : Forall (λ p, from_base p = false) wait → List.filter from_base wait = [].
Proof. induction 1 as [|p wait Hp _ IH]; [done|]. cbn. by rewrite Hp. Qed.
Lemma drop_block_ok em dn wait : emission_ok em dn wait → (nextBlock em < n)%nat → keep (nextBlock em) = false →
  emission_ok (drop_block base blocks em (nextBlock em)) (dn ++ Gap (nextBlock em) :: wait) [].
Proof.
  intros [Ho Hp Hw Hb Hg Hl] Hn Hk. split; cbn [drop_block out pending gapStart nextBlock]; [|done|constructor| |done|lia].
  - rewrite cat_app. change (cat (Gap (nextBlock em) :: wait)) with (part_bytes (Gap (nextBlock em)) ++ cat wait). cbn [part_bytes].
    rewrite (proj2 (Nat.ltb_lt _ _)) by done. by rewrite Ho, Hp, Hg.
  - rewrite List.filter_app, Hb, skeleton_S, Hk. cbn. by rewrite wait_base.
Qed.
Lemma drop_blocks_ok k : ∀ em dn wait, emission_ok em dn wait → (nextBlock em + k ≤ n)%nat → (∀ i, (nextBlock em ≤ i < nextBlock em + k)%nat → keep i = false) →
  ∃ more wait', emission_ok (fold_left (drop_block base blocks) (seq (nextBlock em) k) em) (dn ++ more) wait' ∧
    List.filter from_edit (more ++ wait') = List.filter from_edit wait ∧ nextBlock (fold_left (drop_block base blocks) (seq (nextBlock em) k) em) = (nextBlock em + k)%nat.
Proof.
  induction k as [|k IH]; intros em dn wait Hem Hl Hk; cbn [seq fold_left].
  - exists [], wait. rewrite app_nil_r, Nat.add_0_r. by split_and!.
  - pose proof (drop_block_ok em dn wait Hem ltac:(lia) (Hk (nextBlock em) ltac:(lia))) as Hd.
    destruct (IH _ _ _ Hd) as (more & wait' & H1 & H2 & H3); cbn [drop_block nextBlock]; [lia|intros; apply Hk; lia|].
    cbn [drop_block nextBlock] in *. exists ((Gap (nextBlock em) :: wait) ++ more), wait'. rewrite app_assoc. split_and!; [done| |rewrite H3; lia].
    rewrite <- app_assoc, List.filter_app, H2. cbn. by rewrite app_nil_r.
Qed.
(** The next kept block is emitted after the slots of the dropped ones. *)
Lemma emit_block_ok em dn wait bi : emission_ok em dn wait → (nextBlock em ≤ bi < n)%nat → keep bi = true → (∀ i, (nextBlock em ≤ i < bi)%nat → keep i = false) →
  ∃ more, emission_ok (emit_block base blocks bi em) (dn ++ more) [] ∧ List.filter from_edit more = List.filter from_edit wait ++ [Keep bi].
Proof.
  intros Hem Hl Hk Hn. destruct (drop_blocks_ok (bi - nextBlock em) em dn wait Hem) as (more & wait' & H1 & H2 & H3); [lia|intros; apply Hn; lia|].
  unfold emit_block, flushRun. set (em' := fold_left _ _ _) in *. rewrite (proj2 (Nat.ltb_lt _ _)) by lia. cbn [out pending].
  destruct H1 as [Ho Hp Hw Hb Hg _]. assert (nextBlock em' = bi) as Hnb by lia. rewrite Hnb in *.
  exists (more ++ Gap bi :: wait' ++ [Keep bi]). split; [split; cbn [out pending gapStart nextBlock]; [|done|constructor| |done|lia]|].
  - rewrite (app_assoc dn more), cat_app, Ho. change (cat (Gap bi :: wait' ++ [Keep bi])) with (part_bytes (Gap bi) ++ cat (wait' ++ [Keep bi])).
    rewrite (cat_app wait'), Hp, Hg. cbn [part_bytes]. rewrite (proj2 (Nat.ltb_lt _ _)) by lia. change (cat [Keep bi]) with (block_bytes base blocks bi ++ []).
    rewrite app_nil_r, <- !app_assoc. done.
  - rewrite (app_assoc dn more), List.filter_app, Hb, skeleton_S, Hk. cbn. rewrite List.filter_app, wait_base by done. done.
  - rewrite List.filter_app in H2. rewrite List.filter_app. cbn. rewrite List.filter_app. cbn. rewrite app_assoc. by rewrite H2.
Qed.
Lemma push_ok em dn wait bytes : emission_ok em dn wait → emission_ok (push bytes em) dn (wait ++ [New bytes]).
Proof.
  intros [Ho Hp Hw Hb Hg Hl]. split; cbn; try done; [|by apply Forall_app_2; [|repeat constructor]].
  rewrite cat_app, Hp. unfold cat. cbn. by rewrite app_nil_r.
Qed.
Lemma finish_ok em dn wait : emission_ok em dn wait → (∀ i, (nextBlock em ≤ i < n)%nat → keep i = false) →
  ∃ parts, out (flushRun base blocks n em) ++ drop (gapStart (flushRun base blocks n em)) base = cat parts ∧
    List.filter from_base parts = skeleton n ++ [Gap n] ∧ List.filter from_edit parts = List.filter from_edit (dn ++ wait).
Proof.
  intros Hem Hn. pose proof (ok_next _ _ _ Hem) as Hle. destruct (drop_blocks_ok (n - nextBlock em) em dn wait Hem) as (more & wait' & H1 & H2 & H3); [lia|intros; apply Hn; lia|].
  unfold flushRun. set (em' := fold_left _ _ _) in *. rewrite Nat.ltb_irrefl. cbn [out gapStart app].
  destruct H1 as [Ho Hp Hw Hb Hg _]. replace (nextBlock em + (n - nextBlock em))%nat with n in H3 by lia. rewrite H3 in *.
  exists (dn ++ more ++ wait' ++ [Gap n]). split_and!.
  - rewrite (app_assoc dn more), !cat_app, <- cat_app, Ho, Hp. change (cat [Gap n]) with (part_bytes (Gap n) ++ []). cbn [part_bytes].
    rewrite Nat.ltb_irrefl, app_nil_r, Hg. by rewrite <- !app_assoc.
  - rewrite (app_assoc dn more), List.filter_app, Hb, List.filter_app, wait_base by done. done.
  - rewrite !List.filter_app. cbn. rewrite app_nil_r. rewrite List.filter_app in H2. by rewrite H2.
Qed.
End parts.

(** ** The pool of dropped blocks *)

Section pool.
Variable ps : list (list text).
Variable baseMatch : list Z.
Notation keep := (kept ps baseMatch).
Notation n := (length ps).

(** Queues hold dropped blocks by their text, none of them used already. *)
Definition pool_ok (p : gmap text (list nat)) (used : gset nat) : Prop :=
  (∀ key, NoDup (default [] (p !! key))) ∧
  ∀ key bi, bi ∈ default [] (p !! key) → (bi < n)%nat ∧ keep bi = false ∧ block_text ps bi = key ∧ bi ∉ used.

Lemma queue_insert (p : gmap text (list nat)) key q key' : default [] (<[key := q]> p !! key') = if decide (key = key') then q else default [] (p !! key').
Proof. destruct (decide (key = key')) as [<-|]; [by rewrite lookup_insert_eq|by rewrite lookup_insert_ne]. Qed.

Lemma add_pool_ok l : ∀ p, NoDup l → Forall (λ bi, bi < n)%nat l → pool_ok p ∅ → (∀ key bi, bi ∈ default [] (p !! key) → bi ∉ l) →
  pool_ok (fold_left (add_pool ps baseMatch) l p) ∅.
Proof.
  induction l as [|x l IH]; intros p Hd Hl [Hn Hp] Hf; [done|]. apply NoDup_cons in Hd as [Hx Hd]. apply Forall_cons in Hl as [Hxl Hl].
  cbn [fold_left]. apply IH; try done; unfold add_pool; destruct (negb (keep x) && _) eqn:Hk; bool_hyps.
  - split; [intros key|intros key bi]; rewrite queue_insert; destruct (decide (_ = key)) as [<-|]; auto.
    + apply NoDup_app. split_and!; [done| |apply NoDup_singleton]. intros y Hy ->%list_elem_of_singleton. apply (Hf _ _ Hy), list_elem_of_here.
    + rewrite elem_of_app, list_elem_of_singleton. intros [Hb| ->]; [by apply Hp|]. split_and!; [done|done|done|set_solver].
  - done.
  - intros key bi. rewrite queue_insert. destruct (decide (_ = key)) as [<-|].
    + rewrite elem_of_app, list_elem_of_singleton. intros [Hb| ->]; [|done]. intros Hin. apply (Hf _ _ Hb). by apply list_elem_of_further.
    + intros Hb Hin. apply (Hf _ _ Hb). by apply list_elem_of_further.
  - intros key bi Hb Hin. apply (Hf _ _ Hb). by apply list_elem_of_further.
Qed.
Lemma reuse_pool_ok : pool_ok (reuse_pool ps baseMatch) ∅.
Proof.
  apply add_pool_ok; [apply NoDup_seq|apply Forall_forall; intros bi Hb%elem_of_seq; lia| |].
  - split; [intros key; rewrite lookup_empty; constructor|]. intros key bi. rewrite lookup_empty. by intros ?%elem_of_nil.
  - intros key bi. rewrite lookup_empty. by intros ?%elem_of_nil.
Qed.
Lemma pool_pop p used key bi q : pool_ok p used → default [] (p !! key) = bi :: q → pool_ok (<[key := q]> p) ({[bi]} ∪ used).
Proof.
  intros [Hn Hp] Hq. pose proof (Hn key) as Hnd. rewrite Hq in Hnd. apply NoDup_cons in Hnd as [Hbq Hnd].
  assert (block_text ps bi = key) as Hbk by (apply (Hp key); rewrite Hq; apply list_elem_of_here).
  split; [intros key'|intros key' b]; rewrite queue_insert; destruct (decide (key = key')) as [<-|]; auto.
  - intros Hb. destruct (Hp key b) as (H1 & H2 & H3 & H4); [rewrite Hq; by apply list_elem_of_further|]. split_and!; [done|done|done|].
    apply not_elem_of_union. split; [|done]. intros ->%elem_of_singleton. done.
  - intros Hb. destruct (Hp key' b Hb) as (H1 & H2 & H3 & H4). split_and!; [done|done|done|]. apply not_elem_of_union. split; [|done].
    intros ->%elem_of_singleton. congruence.
Qed.
Lemma pool_remove p used bi : pool_ok p used → pool_ok (removeFromPool p (block_text ps bi) bi) ({[bi]} ∪ used).
Proof.
  intros [Hn Hp]. unfold removeFromPool. set (key := block_text ps bi).
  assert (∀ key' b, b ∈ default [] (p !! key') → b ≠ bi → (b < n)%nat ∧ keep b = false ∧ block_text ps b = key' ∧ b ∉ {[bi]} ∪ used) as Hother.
  { intros key' b Hb Hne. destruct (Hp key' b Hb) as (? & ? & ? & ?). split_and!; [done|done|done|set_solver]. }
  destruct (p !! key) as [q|] eqn:Hq.
  - assert (default [] (p !! key) = q) as Hdq by by rewrite Hq. destruct (list_find (λ v, v = bi) q) as [[i v]|] eqn:Hf.
    + apply list_find_Some in Hf as (Hi & -> & _). pose proof (Hn key) as Hnq. rewrite Hdq in Hnq.
      pose proof (delete_Permutation q i bi Hi) as Hperm. rewrite Hperm in Hnq. apply NoDup_cons in Hnq as [Hnot Hnq].
      split; [intros key'|intros key' b]; rewrite queue_insert; destruct (decide (key = key')) as [<-|]; auto.
      * intros Hb. apply Hother; [rewrite Hdq, Hperm; by apply list_elem_of_further|]. by intros ->.
      * intros Hb. apply Hother; [done|]. intros ->. destruct (Hp key' bi Hb) as (_ & _ & Hk & _). done.
    + apply list_find_None in Hf. rewrite Forall_forall in Hf. split; [done|]. intros key' b Hb. apply Hother; [done|]. intros ->.
      destruct (Hp key' bi Hb) as (_ & _ & Hk & _). fold key in Hk. subst key'. rewrite Hdq in Hb. by apply (Hf bi Hb).
  - split; [done|]. intros key' b Hb. apply Hother; [done|]. intros ->. destruct (Hp key' bi Hb) as (_ & _ & Hk & _). fold key in Hk. subst key'.
    rewrite Hq in Hb. by apply elem_of_nil in Hb.
Qed.
End pool.

Lemma best_candidate_in score cands : ∀ best bs bi, best_candidate score cands best bs = Some bi → best = Some bi ∨ bi ∈ cands.
Proof.
  induction cands as [|c cands IH]; intros best bs bi; cbn [best_candidate]; [auto|]. destruct (_ <? _)%nat; intros [H|H]%IH; auto using list_elem_of_further.
  injection H as ->. auto using list_elem_of_here.
Qed.
Lemma pickTableCandidate_in cands used mds s bi : pickTableCandidate cands used mds s = Some bi → bi ∈ cands ∧ bi ∉ used.
Proof.
  intros [|H]%best_candidate_in; [done|]. apply list_elem_of_In, filter_In in H as [H1 H2]. apply list_elem_of_In in H1. bool_hyps. done.
Qed.

(** ** The loop over the edit *)

Section loop.
Variable wide_word : Z → bool.
Variable map_order : list (text * text) → list (text * text).
Variable base : text.
Variable refs : list Ref.
Variable blocks : list Block.
Variable nodes : list Node.
Variable baseMatch editMatch : list Z.
Notation ps := (map piece_texts blocks).
Notation keep := (kept ps baseMatch).
Notation n := (length blocks).
Notation step := (edit_step wide_word map_order base refs blocks nodes ps baseMatch editMatch).

(** How the bytes for an edited piece come about: a dropped block with the same
    text, a merged complex table, or a conversion. *)
Inductive justified (s : text) : text → Prop :=
| moved bi : (bi < n)%nat → keep bi = false → block_text ps bi = s → justified s (block_bytes base blocks bi)
| merged bi node bytes : dropped_table blocks nodes ps baseMatch true bi = true → nodes !! bi = Some node →
    mergeTable wide_word map_order base node refs s = Ok bytes → justified s bytes
| conversion ms ms' bytes : convertBlock wide_word map_order s ms = Ok (bytes, ms') → justified s bytes.

(** What the edited pieces contribute, in their order. *)
Inductive contributions : nat → list text → list part → Prop :=
| no_edit e : contributions e [] []
| kept_block e s rest parts bi : emits ps baseMatch editMatch e = Some bi → contributions (S e) rest parts → contributions e (s :: rest) (Keep bi :: parts)
| later_piece e s rest parts u : editKept ps baseMatch editMatch e = Some u → upiece u ≠ 0%nat → contributions (S e) rest parts → contributions e (s :: rest) parts
| new_bytes e s rest parts bytes : editKept ps baseMatch editMatch e = None → justified s bytes → contributions (S e) rest parts → contributions e (s :: rest) (New bytes :: parts).

Definition is_keep (p : part) : bool := match p with Keep _ => true | _ => false end.
Definition is_new (p : part) : bool := match p with New _ => true | _ => false end.
Lemma filter_edit (f : part → bool) l : (∀ p, f p = true → from_edit p = true) → List.filter f l = List.filter f (List.filter from_edit l).
Proof.
  intros Hf. induction l as [|p l IH]; [done|]. cbn. destruct (f p) eqn:E.
  - rewrite (Hf p E). cbn. by rewrite E, IH.
  - destruct (from_edit p); cbn; [by rewrite E|done].
Qed.
Lemma keep_count l : List.filter is_keep l = List.filter is_keep (List.filter from_edit l).
Proof. apply filter_edit. by intros []. Qed.
Lemma new_count l : List.filter is_new l = List.filter is_new (List.filter from_edit l).
Proof. apply filter_edit. by intros []. Qed.

Record loop_ok (st : progress) (dn wait : list part) : Prop := {
  ok_emission : emission_ok base blocks keep (emitted st) dn wait;
  ok_pool : pool_ok ps baseMatch (pool st) (reused st);
  ok_reused : ∀ bi, bi ∈ reused st → (bi < n)%nat ∧ keep bi = false;
  ok_unchanged : Unchanged (counts st) = length (List.filter is_keep (dn ++ wait));
  ok_counts : (Moved (counts st) + MergedTables (counts st))%nat = size (reused st);
  ok_new : (Moved (counts st) + MergedTables (counts st) + Converted (counts st))%nat = length (List.filter is_new (dn ++ wait))
}.

Lemma reuse_ok st dn wait bi bytes pool' m t : loop_ok st dn wait → (bi < n)%nat → keep bi = false → bi ∉ reused st → pool_ok ps baseMatch pool' ({[bi]} ∪ reused st) →
  (m + t = 1)%nat → loop_ok (reuse st bi bytes pool' m t) dn (wait ++ [New bytes]).
Proof.
  intros [H1 H2 H3 H4 H5 H6] Hl Hk Hb Hp Hc. split; cbn; [by apply push_ok|done| | | |].
  - intros b [->%elem_of_singleton|Hr]%elem_of_union; [done|auto].
  - rewrite app_assoc, List.filter_app, length_app. cbn. lia.
  - rewrite size_union, size_singleton by set_solver. lia.
  - rewrite app_assoc, List.filter_app, length_app. cbn. lia.
Qed.
Lemma convert_step_ok st dn wait s st' : loop_ok st dn wait → convert_step wide_word map_order st s = Ok st' →
  ∃ bytes, justified s bytes ∧ loop_ok st' dn (wait ++ [New bytes]) ∧ nextBlock (emitted st') = nextBlock (emitted st).
Proof.
  intros [H1 H2 H3 H4 H5 H6]. unfold convert_step. destruct (convertBlock _ _ _ _) as [[conv ms]|e] eqn:Hc; [|done]. intros [= <-].
  exists conv. split; [by eapply conversion|]. split; [|done].
  split; cbn; [by apply push_ok|done|done| |lia|]; rewrite app_assoc, List.filter_app, length_app; cbn; lia.
Qed.
Lemma new_step_ok st dn wait s st' : loop_ok st dn wait → new_step wide_word map_order base refs blocks nodes ps baseMatch st s = Ok st' →
  ∃ bytes, justified s bytes ∧ loop_ok st' dn (wait ++ [New bytes]) ∧ nextBlock (emitted st') = nextBlock (emitted st).
Proof.
  intros Hst. unfold new_step. destruct (default [] (pool st !! s)) as [|bi q] eqn:Hq.
  - destruct (_ && _); [|by apply convert_step_ok]. unfold table_step.
    destruct (pickTableCandidate (dropped_tables blocks nodes ps baseMatch true) _ _ _) as [bi|] eqn:Hc.
    + apply pickTableCandidate_in in Hc as [Hin Hr]. apply list_elem_of_In, filter_In in Hin as [Hin Hd]. apply in_seq in Hin.
      destruct (mergeTable _ _ _ _ _ _) as [bytes|e] eqn:Hm; [|done]. intros [= <-]. exists bytes.
      pose proof Hd as Hd'. unfold dropped_table in Hd'. destruct (nodes !! bi) as [node|] eqn:Hn; [|by rewrite andb_false_r in Hd']. bool_hyps.
      split; [by eapply merged|]. split; [|done]. apply reuse_ok; try done; [lia|]. by apply pool_remove, Hst.
    + clear Hc. destruct (pickTableCandidate _ _ _ _); [|done]. by apply convert_step_ok.
  - intros [= <-]. exists (block_bytes base blocks bi). destruct (ok_pool _ _ _ Hst) as [_ Hp]. destruct (Hp s bi) as (H1 & H2 & H3 & H4); [rewrite Hq; apply list_elem_of_here|].
    rewrite length_map in H1. split; [by apply moved|]. split; [|done]. apply reuse_ok; try done. by eapply pool_pop; [apply Hst|].
Qed.

(** The kept blocks still to come are those of the rest of the edit. *)
Lemma edit_loop_ok edited : ∀ e st dn wait st', loop_ok st dn wait →
  planned ps baseMatch editMatch e (length edited) = List.filter keep (seq (nextBlock (emitted st)) (n - nextBlock (emitted st))) →
  edit_loop wide_word map_order base refs blocks nodes ps baseMatch editMatch st e edited = Ok st' →
  ∃ more wait' cs, loop_ok st' (dn ++ more) wait' ∧ List.filter keep (seq (nextBlock (emitted st')) (n - nextBlock (emitted st'))) = [] ∧
    contributions e edited cs ∧ List.filter from_edit (more ++ wait') = List.filter from_edit wait ++ cs.
Proof.
  induction edited as [|s edited IH]; intros e st dn wait st' Hst Hpl; cbn [edit_loop].
  { intros [= <-]. exists [], wait, []. rewrite !app_nil_r. split_and!; [done| |constructor|done]. by rewrite <- Hpl. }
  unfold planned in Hpl. cbn [length seq omap list_omap] in Hpl. unfold edit_step.
  destruct (editKept ps baseMatch editMatch e) as [u|] eqn:Hek.
  - destruct (upiece u =? 0)%nat eqn:Hp.
    + assert (emits ps baseMatch editMatch e = Some (ublock u)) as Hem by (unfold emits; by rewrite Hek, Hp). rewrite Hem in Hpl. cbn [rbind].
      symmetry in Hpl. apply filter_seq_cons in Hpl as (Hr & Hk & Hno & Hrest).
      destruct (emit_block_ok base blocks keep (emitted st) dn wait (ublock u)) as (more & Hok & Hedit); [apply Hst|lia|done|apply Hno|].
      intros Hloop. apply (IH _ _ (dn ++ more) []) in Hloop as (more' & wait' & cs & H1 & H2 & H3 & H4); cbn [emitted emit_block nextBlock] in *.
      * exists (more ++ more'), wait', (Keep (ublock u) :: cs). rewrite app_assoc. split_and!; [done|done|by constructor|].
        rewrite <- app_assoc, List.filter_app, Hedit, H4. by rewrite <- app_assoc.
      * assert (List.filter from_edit ((dn ++ more) ++ []) = List.filter from_edit (dn ++ wait) ++ [Keep (ublock u)]) as Hfe
          by (rewrite app_nil_r, !List.filter_app, Hedit; by rewrite app_assoc).
        destruct Hst as [S1 S2 S3 S4 S5 S6].
        split; cbn; [done|done|done| |lia|].
        -- rewrite (keep_count ((dn ++ more) ++ [])), Hfe, List.filter_app, length_app, <- keep_count. cbn. lia.
        -- rewrite (new_count ((dn ++ more) ++ [])), Hfe, List.filter_app, length_app, <- new_count. cbn. lia.
      * etransitivity; [exact Hrest|]. do 2 f_equal. lia.
    + cbn [rbind]. assert (emits ps baseMatch editMatch e = None) as Hem by (unfold emits; by rewrite Hek, Hp). rewrite Hem in Hpl.
      intros Hloop. apply (IH _ _ dn wait) in Hloop as (more & wait' & cs & H1 & H2 & H3 & H4); [|done|done].
      exists more, wait', cs. split_and!; [done|done|eapply later_piece; [done|by apply Nat.eqb_neq|done]|done].
  - assert (emits ps baseMatch editMatch e = None) as Hem by (unfold emits; by rewrite Hek). rewrite Hem in Hpl.
    destruct (new_step _ _ _ _ _ _ _ _ st s) as [st1|] eqn:Hn; [|done]. cbn [rbind]. intros Hloop.
    pose proof Hn as Hnn. apply (new_step_ok _ dn wait) in Hn as (bytes & Hj & Hok & Hnb); [|done].
    apply (IH _ _ dn (wait ++ [New bytes])) in Hloop as (more & wait' & cs & H1 & H2 & H3 & H4); [|done|by rewrite Hnb].
    exists more, wait', (New bytes :: cs). split_and!; [done|done|by eapply new_bytes|]. rewrite H4, List.filter_app. cbn. by rewrite <- app_assoc.
Qed.
End loop.

(** ** The spans of the blocks *)

Lemma in_order_lookup lo ns hi k x : in_order lo ns hi → ns !! k = Some x →
  (match k with O => lo | S k' => match ns !! k' with Some y => End_ y | None => lo end end ≤ Start x)%nat ∧ (Start x ≤ End_ x)%nat ∧ (End_ x ≤ hi)%nat.
Proof.
  intros H. revert k. induction H as [|lo n ns hi Hlo Hc _ Hns IH]; intros k; [done|]. destruct k as [|k].
  - intros [= <-]. apply in_order_le in Hc, Hns. lia.
  - cbn [lookup list_lookup]. intros Hx. destruct (IH k Hx) as (H1 & H2 & H3). split_and!; [|done|done]. destruct k as [|k]; [done|]. cbn [lookup list_lookup].
    destruct (ns !! k) as [y|] eqn:Hy; [done|]. apply lookup_ge_None in Hy. apply lookup_lt_Some in Hx. lia.
Qed.

Section spans.
Variable base : text.
Variable refs : list Ref.
Variable root : Node.
Hypothesis Hparse : Parse base = Ok root.
Notation bn := (RenderBlockNodes root refs).
Notation blocks := (bn.*1).
Notation n := (length blocks).

Lemma body_blocks : in_order 0 bn.*2 (length base) ∧ Forall (MdView.block_of refs) bn.
Proof. apply MdView.RenderBlockNodes_order. by apply Parse_ok_spans in Hparse as (_ & _ & ? & _). Qed.
Lemma block_span k : (k < n)%nat → (prev_end blocks k ≤ CSFStart (block_at blocks k))%nat ∧ (CSFStart (block_at blocks k) ≤ CSFEnd (block_at blocks k))%nat ∧
  (CSFEnd (block_at blocks k) ≤ length base)%nat.
Proof.
  intros Hk. rewrite length_fmap in Hk. destruct body_blocks as [Ho Hb].
  assert (∀ i, (i < length bn)%nat → ∃ x, bn.*2 !! i = Some x ∧ CSFStart (block_at blocks i) = Start x ∧ CSFEnd (block_at blocks i) = End_ x) as Hat.
  { intros i Hi. destruct (lookup_lt_is_Some_2 bn i Hi) as [[b x] Hbx]. exists x. unfold block_at. rewrite !list_lookup_fmap, Hbx. cbn.
    rewrite Forall_lookup in Hb. destruct (Hb _ _ Hbx) as (? & ? & _). done. }
  destruct (Hat k Hk) as (x & Hx & -> & ->). destruct (in_order_lookup _ _ _ k x Ho Hx) as (H1 & H2 & H3). split_and!; [|done|done].
  destruct k as [|k]; [cbn; lia|]. cbn [prev_end]. destruct (Hat k ltac:(lia)) as (y & Hy & _ & ->). by rewrite Hy in H1.
Qed.
Lemma pieces_nonempty : Forall (λ p, p ≠ []) (map piece_texts blocks).
Proof.
  rewrite Forall_map. apply Forall_forall. intros b (bx & -> & Hb)%list_elem_of_fmap. destruct body_blocks as [_ Hall]. rewrite Forall_forall in Hall.
  destruct (Hall _ Hb) as (_ & _ & Hmd & Hne & _). unfold piece_texts. intros Hp%map_eq_nil. rewrite Hmd in *. unfold MdView.block_md in *.
  by apply Markdown.SplitBlocks_nonempty in Hp.
Qed.
(** The base is its gaps and blocks, one after the other. *)
Lemma skeleton_base : cat base blocks (skeleton (λ _, true) n ++ [Gap n]) = base.
Proof.
  rewrite cat_app. change (cat base blocks [Gap n]) with (part_bytes base blocks (Gap n) ++ []). cbn [part_bytes]. rewrite Nat.ltb_irrefl, app_nil_r.
  enough (∀ k, (k ≤ n)%nat → cat base blocks (skeleton (λ _, true) k) = take (prev_end blocks k) base) as -> by (done || apply take_drop).
  induction k as [|k IH]; intros Hk; [done|]. rewrite skeleton_S, cat_app, IH by lia. destruct (block_span k ltac:(lia)) as (H1 & H2 & H3).
  unfold cat. cbn [map concat part_bytes]. rewrite (proj2 (Nat.ltb_lt _ _)), app_nil_r by lia. unfold block_bytes. rewrite slice_app by done.
  rewrite <- (slice_from_start base (prev_end blocks k)), slice_app by lia. by rewrite slice_from_start.
Qed.
End spans.

(** ** Losses *)

Lemma missing_fragments_none refs : ∀ have, (∀ k, (length (List.filter (λ r, bool_decide (Fragment.identity r = k)) refs) ≤ default O (have !! k))%nat) → missing_fragments have refs = [].
Proof.
  induction refs as [|r refs IH]; intros have H; [done|]. cbn [missing_fragments]. pose proof (H (Fragment.identity r)) as Hr. cbn in Hr. rewrite bool_decide_true in Hr by done. cbn in Hr.
  destruct (default O (have !! Fragment.identity r)) as [|k] eqn:Hk; [lia|]. apply IH. intros key. specialize (H key). cbn in H.
  destruct (decide (Fragment.identity r = key)) as [<-|Hne].
  - rewrite lookup_insert_eq. cbn. lia.
  - rewrite lookup_insert_ne by done. by rewrite bool_decide_false in H.
Qed.
Lemma count_of_count refs : ∀ have k, default O (fold_left count_of refs have !! k) = (default O (have !! k) + length (List.filter (λ r, bool_decide (Fragment.identity r = k)) refs))%nat.
Proof.
  induction refs as [|r refs IH]; intros have k; cbn [fold_left List.filter]; [cbn; lia|]. rewrite IH. unfold count_of.
  destruct (decide (Fragment.identity r = k)) as [<-|Hne].
  - rewrite lookup_insert_eq, bool_decide_true by done. cbn. lia.
  - rewrite lookup_insert_ne, bool_decide_false by done. done.
Qed.
Lemma bind_nil {A B} (f : A → list B) l : (∀ x, x ∈ l → f x = []) → l ≫= f = [].
Proof. induction l as [|x l IH]; intros H; [done|]. cbn. rewrite (H x) by apply list_elem_of_here. apply IH. intros. apply H. by apply list_elem_of_further. Qed.
Lemma bind_nil_inv {A B} (f : A → list B) l x : l ≫= f = [] → x ∈ l → f x = [].
Proof. intros H Hx. destruct (f x) as [|y r] eqn:E; [done|]. assert (y ∈ l ≫= f) as Hy by (apply list_elem_of_bind; exists x; rewrite E; split; [apply list_elem_of_here|done]). rewrite H in Hy. by apply elem_of_nil in Hy. Qed.

Section loss.
Variable sha256_hex : text → text.
Lemma removedFragments_same raw root : Parse raw = Ok root → removedFragments sha256_hex root raw = [].
Proof.
  intros Hp. unfold removedFragments. rewrite Hp. rewrite missing_fragments_none.
  2: { intros k. rewrite count_of_count. lia. }
  unfold missing_macros, missing_protected. rewrite !bind_nil; [done| |].
  - intros [sg [c r]] Hin%elem_of_map_to_list. rewrite Hin. cbn. by rewrite Nat.sub_diag.
  - intros [name c] Hin%elem_of_map_to_list. rewrite Hin. cbn. by rewrite Nat.sub_diag.
Qed.

(** Nothing that is counted occurs less often in the second tree. *)
Record preserved (a b : Node) : Prop := {
  preserved_fragments : ∀ k, (length (List.filter (λ r, bool_decide (Fragment.identity r = k)) (fragments a)) ≤ length (List.filter (λ r, bool_decide (Fragment.identity r = k)) (fragments b)))%nat;
  preserved_macros : ∀ name, (default O (macroCounts a !! name) ≤ default O (macroCounts b !! name))%nat;
  preserved_inline : ∀ signature, (default O (fst <$> protectedInlineInventory sha256_hex a !! signature) ≤ default O (fst <$> protectedInlineInventory sha256_hex b !! signature))%nat
}.
Lemma missing_fragments_inv refs : ∀ have k, missing_fragments have refs = [] → (length (List.filter (λ r, bool_decide (Fragment.identity r = k)) refs) ≤ default O (have !! k))%nat.
Proof.
  induction refs as [|r refs IH]; intros have k; cbn [missing_fragments List.filter]; [cbn; lia|].
  destruct (default O (have !! Fragment.identity r)) as [|c] eqn:Hc; [done|]. intros H. apply (IH _ k) in H. revert H.
  destruct (decide (Fragment.identity r = k)) as [<-|Hne].
  - rewrite lookup_insert_eq, bool_decide_true by done. cbn. lia.
  - rewrite lookup_insert_ne, bool_decide_false by done. done.
Qed.
Lemma removedFragments_none raw root : is_ok (Parse raw) = true → removedFragments sha256_hex root raw = [] → ∃ result, Parse raw = Ok result ∧ preserved root result.
Proof.
  unfold removedFragments. destruct (Parse raw) as [result|]; [|done]. intros _ H. exists result. split; [done|].
  pose proof (merge_sort_Permutation ref_le (missing_fragments (fold_left count_of (fragments result) ∅) (fragments root) ++
         missing_macros (macroCounts root) (macroCounts result) ++ missing_protected (protectedInlineInventory sha256_hex root) (protectedInlineInventory sha256_hex result))) as Hp.
  rewrite H in Hp. symmetry in Hp. apply Permutation_nil_r in Hp. apply app_eq_nil in Hp as [H1 Hp]. apply app_eq_nil in Hp as [H2 H3]. split.
  - intros k. apply (missing_fragments_inv _ _ k) in H1. rewrite count_of_count in H1. by rewrite lookup_empty in H1.
  - intros name. destruct (macroCounts root !! name) as [c|] eqn:Hc; cbn; [|lia]. apply elem_of_map_to_list in Hc.
    pose proof (bind_nil_inv _ _ _ H2 Hc) as Hr. cbn in Hr. apply (f_equal length) in Hr. rewrite length_replicate in Hr. cbn in Hr. lia.
  - intros sg. destruct (protectedInlineInventory sha256_hex root !! sg) as [[c r]|] eqn:Hc; cbn; [|lia]. apply elem_of_map_to_list in Hc.
    pose proof (bind_nil_inv _ _ _ H3 Hc) as Hr. cbn in Hr. apply (f_equal length) in Hr. rewrite length_replicate in Hr. cbn in Hr. lia.
Qed.
End loss.

Lemma valid_parses raw : HasErrors (Validate raw) = false → is_ok (Parse raw) = true.
Proof.
  unfold Validate, ValidateWithOptions. destruct (wellFormed raw) as [p|] eqn:Hw.
  - apply well_formed_error in Hw. cbn. by rewrite bool_decide_true.
  - destruct (Parse raw) as [r|[d|rest]]; done.
Qed.

(** ** Merging *)

Section merge_facts.
Variable sha256_hex : text → text.
Variable wide_word : Z → bool.
Variable map_order : list (text * text) → list (text * text).
Notation merge := (Merge sha256_hex wide_word map_order).

(** What an accepted merge went through. *)
Lemma Merge_inv base refs editedMD allow merged rep err : merge base refs editedMD allow = (Some merged, Some rep, err) →
  ∃ root bm em st, Parse base = Ok root ∧ let blocks := (RenderBlockNodes root refs).*1 in let nodes := (RenderBlockNodes root refs).*2 in let ps := map piece_texts blocks in
    LCS (map utext (units ps)) (edited_texts editedMD) = Some (bm, em, true) ∧
    edit_loop wide_word map_order base refs blocks nodes ps bm em (initial base refs blocks nodes ps bm) 0 (edited_texts editedMD) = Ok st ∧
    merged = finish base blocks st ∧ HasErrors (Validate merged) = false ∧ Problems rep = Validate merged ∧ RemovedFragments rep = removedFragments sha256_hex root merged ∧
    (allow = false → RemovedFragments rep = []) ∧ err = None ∧
    Unchanged rep = Unchanged (counts st) ∧ Moved rep = Moved (counts st) ∧ Converted rep = Converted (counts st) ∧ MergedTables rep = MergedTables (counts st) ∧
    Removed rep = removed_count blocks ps bm st.
Proof.
  unfold Merge. destruct (Parse base) as [root|e] eqn:Hroot; [|done]. cbn zeta. destruct (LCS _ _) as [[[bm em] []]|] eqn:HL; [|done..].
  destruct (List.find _ _); [done|]. destruct (edit_loop _ _ _ _ _ _ _ _ _ _ _ _) as [st|e] eqn:Hloop; [|done].
  destruct (HasErrors (Validate (finish base (RenderBlockNodes root refs).*1 st))) eqn:He.
  { destruct (Validate (finish base (RenderBlockNodes root refs).*1 st)); [by cbn in He|done]. }
  destruct (negb (length (removedFragments sha256_hex root (finish base (RenderBlockNodes root refs).*1 st)) =? 0)%nat && negb allow) eqn:Hl; [done|]. intros [= <- <- <-]. exists root, bm, em, st.
  split_and!; try done. intros ->. cbn in *. rewrite andb_true_r in Hl. apply negb_false_iff, Nat.eqb_eq in Hl. by apply nil_length_inv in Hl.
Qed.

Lemma initial_ok base refs root bm : Parse base = Ok root → let blocks := (RenderBlockNodes root refs).*1 in let nodes := (RenderBlockNodes root refs).*2 in let ps := map piece_texts blocks in
  loop_ok base blocks bm (initial base refs blocks nodes ps bm) [] [].
Proof.
  intros Hp blocks nodes ps. split; cbn; [|apply reuse_pool_ok|by intros bi ?%elem_of_empty|done..].
  split; cbn; [done|done|constructor|done|done|lia].
Qed.

(** The parts of the output of a loop over the whole edit. *)
Lemma loop_parts base refs root bm em edited st : Parse base = Ok root →
  let blocks := (RenderBlockNodes root refs).*1 in let nodes := (RenderBlockNodes root refs).*2 in let ps := map piece_texts blocks in
  matching (map utext (units ps)) edited bm em →
  edit_loop wide_word map_order base refs blocks nodes ps bm em (initial base refs blocks nodes ps bm) 0 edited = Ok st →
  ∃ parts, finish base blocks st = cat base blocks parts ∧
    List.filter from_base parts = skeleton (kept ps bm) (length blocks) ++ [Gap (length blocks)] ∧
    contributions wide_word map_order base refs blocks nodes bm em 0 edited (List.filter from_edit parts) ∧
    Unchanged (counts st) = length (List.filter is_keep parts) ∧
    (Moved (counts st) + MergedTables (counts st) + Converted (counts st))%nat = length (List.filter is_new parts) ∧
    (Moved (counts st) + MergedTables (counts st))%nat = size (reused st) ∧ (∀ bi, bi ∈ reused st → (bi < length blocks)%nat ∧ kept ps bm bi = false).
Proof.
  intros Hp blocks nodes ps Hm Hloop. pose proof (pieces_nonempty base refs root Hp) as Hne. fold blocks ps in Hne.
  apply (edit_loop_ok wide_word map_order base refs blocks nodes bm em edited 0 _ [] []) in Hloop as (more & wait & cs & Hok & Hrest & Hcs & Hedit);
    [|by apply initial_ok|].
  2: { fold ps. cbn [initial emitted nextBlock]. rewrite Nat.sub_0_r. replace (length blocks) with (length ps) by apply length_map. by apply md_planned_kept. }
  destruct Hok as [H1 H2 H3 H4 H5 H6]. pose proof (filter_seq_nil _ _ _ Hrest) as Hno. pose proof (ok_next _ _ _ _ _ _ H1) as Hle.
  destruct (finish_ok base blocks (kept ps bm) (emitted st) ([] ++ more) wait H1) as (parts & Hout & Hbase & Hed); [intros i Hi; apply Hno; lia|].
  exists parts. cbn [app] in *. rewrite Hedit in Hed. cbn in Hed. split_and!; [done|done|by rewrite Hed|..]; try done.
  - by rewrite H4, (keep_count (more ++ wait)), Hedit, (keep_count parts), Hed.
  - by rewrite H6, (new_count (more ++ wait)), Hedit, (new_count parts), Hed.
Qed.

Lemma skeleton_keeps keep k : length (List.filter is_keep (skeleton keep k)) = length (List.filter keep (seq 0 k)).
Proof.
  induction k as [|k IH]; [done|]. rewrite skeleton_S, seq_S, !List.filter_app, !length_app, IH. cbn. by destruct (keep k).
Qed.
Lemma count_partition (keep : nat → bool) (used : gset nat) (l : list nat) : NoDup l → (∀ x, x ∈ used → x ∈ l ∧ keep x = false) →
  (length (List.filter keep l) + size used + length (List.filter (λ x, negb (keep x) && negb (bool_decide (x ∈ used))) l))%nat = length l.
Proof.
  revert used. induction l as [|x l IH]; intros used Hd Hu.
  - assert (used = ∅) as -> by (apply leibniz_equiv; intros x; split; [intros Hx; apply Hu in Hx as [Hx _]; by apply elem_of_nil in Hx|set_solver]). done.
  - apply NoDup_cons in Hd as [Hx Hd]. cbn [List.filter length]. destruct (keep x) eqn:Hk.
    + cbn [negb andb length]. rewrite <- (IH used); [lia|done|]. intros y Hy. destruct (Hu y Hy) as [[->|Hl]%elem_of_cons Hyk]; [congruence|done].
    + cbn [negb andb]. destruct (decide (x ∈ used)) as [Hin|Hn].
      * rewrite bool_decide_true by done. cbn [negb]. rewrite <- (IH (used ∖ {[x]})).
        -- rewrite size_difference, size_singleton by set_solver. assert (size used ≠ 0)%nat by (intros H; apply size_empty_iff in H; set_solver).
           rewrite (List.filter_ext_in (λ y, negb (keep y) && negb (bool_decide (y ∈ used ∖ {[x]}))) (λ y, negb (keep y) && negb (bool_decide (y ∈ used)))); [lia|].
           intros y Hy. do 2 f_equal. apply bool_decide_ext. apply list_elem_of_In in Hy. assert (y ≠ x) by (by intros ->). set_solver.
        -- done.
        -- intros y [Hy Hyx]%elem_of_difference. destruct (Hu y Hy) as [[->|Hl]%elem_of_cons Hyk]; [set_solver|done].
      * rewrite bool_decide_false by done. cbn [negb length]. rewrite <- (IH used); [lia|done|]. intros y Hy.
        destruct (Hu y Hy) as [[->|Hl]%elem_of_cons Hyk]; [done|done].
Qed.

(** C7: an accepted merge is exactly an interleaving of the base and the edit.  Its
    output is a sequence of parts and nothing else: taken by themselves, the parts
    from the base are every gap between blocks and every kept block, byte for
    byte and in order; taken by themselves, the kept blocks and the new parts are
    what the edited pieces contribute, in the order of the edit, each new part a
    dropped block with that text, a merged table or that text's conversion.  The
    report accounts for every block and every new part. *)
Theorem Merge_interleaves base refs editedMD allow merged rep err : merge base refs editedMD allow = (Some merged, Some rep, err) →
  ∃ root bm em parts, Parse base = Ok root ∧
    let blocks := (RenderBlockNodes root refs).*1 in let nodes := (RenderBlockNodes root refs).*2 in let ps := map piece_texts blocks in let n := length blocks in
    merged = cat base blocks parts ∧
    List.filter from_base parts = skeleton (kept ps bm) n ++ [Gap n] ∧
    contributions wide_word map_order base refs blocks nodes bm em 0 (edited_texts editedMD) (List.filter from_edit parts) ∧
    Unchanged rep = length (List.filter is_keep parts) ∧ (Moved rep + MergedTables rep + Converted rep)%nat = length (List.filter is_new parts) ∧
    (Unchanged rep + Moved rep + MergedTables rep + Removed rep)%nat = n.
Proof.
  intros H. apply Merge_inv in H as (root & bm & em & st & Hp & HL & Hloop & -> & _ & _ & _ & _ & _ & -> & -> & -> & -> & ->).
  apply LCS_matching in HL. destruct (loop_parts base refs root bm em _ st Hp HL Hloop) as (parts & H1 & H2 & H3 & H4 & H5 & H6 & H7).
  exists root, bm, em, parts. cbn zeta. split_and!; try done.
  set (blocks := (RenderBlockNodes root refs).*1) in *. set (ps := map piece_texts blocks) in *.
  assert (length (List.filter is_keep parts) = length (List.filter (kept ps bm) (seq 0 (length blocks)))) as Hk.
  { rewrite <- skeleton_keeps. transitivity (length (List.filter is_keep (List.filter from_base parts))).
    - f_equal. clear. induction parts as [|[] parts IH]; cbn; by rewrite ?IH.
    - rewrite H2, List.filter_app, length_app. cbn. lia. }
  pose proof (count_partition (kept ps bm) (reused st) (seq 0 (length blocks)) (NoDup_seq _ _)) as Hc. rewrite length_seq in Hc.
  unfold removed_count. fold ps. rewrite H4, Hk. rewrite <- H6 in Hc.
  assert (∀ x, x ∈ reused st → x ∈ seq 0 (length blocks) ∧ kept ps bm x = false) as Hu by (intros x Hx; destruct (H7 x Hx); split; [apply elem_of_seq; lia|done]).
  specialize (Hc Hu). lia.
Qed.

(** C11: the gates of a merge: what is accepted without permission to lose fragments
    has no blocking problem, parses, and still has every reference, every macro
    as often by name, and every protected element as often by signature as the
    base; the report lists exactly what is missing. *)
Theorem Merge_gates base refs editedMD allow merged rep err : merge base refs editedMD allow = (Some merged, Some rep, err) →
  HasErrors (Validate merged) = false ∧ Problems rep = Validate merged ∧
  ∃ root, Parse base = Ok root ∧ RemovedFragments rep = removedFragments sha256_hex root merged ∧
    (allow = false → ∃ result, Parse merged = Ok result ∧ preserved sha256_hex root result).
Proof.
  intros H. apply Merge_inv in H as (root & bm & em & st & Hp & _ & _ & _ & Hv & Hpr & Hr & Ha & _). split_and!; [done|done|].
  exists root. split_and!; [done|done|]. intros Hal. apply removedFragments_none; [by apply valid_parses|]. rewrite <- Hr. by apply Ha.
Qed.

(** ** An edit that changes nothing *)

Lemma identity_vector m N : length m = N → (∀ k, (k < N)%nat → m !! k = Some (Z.of_nat k)) → m = map Z.of_nat (seq 0 N).
Proof.
  intros Hl H. apply list_eq. intros k. destruct (decide (k < N)%nat) as [Hk|Hk].
  - rewrite H by done. change (map Z.of_nat (seq 0 N)) with (Z.of_nat <$> seq 0 N). rewrite list_lookup_fmap, lookup_seq_lt by done. done.
  - rewrite !lookup_ge_None_2; [done|rewrite length_map, length_seq; lia|lia].
Qed.
Lemma md_identity_kept ps bi : (bi < length ps)%nat → kept ps (map Z.of_nat (seq 0 (length (units ps)))) bi = true.
Proof.
  intros Hb. unfold kept, block_matches. destruct (lookup_lt_is_Some_2 ps bi Hb) as [p Hp]. unfold pieces_of. rewrite Hp. cbn [from_option id].
  assert (firstUnit ps bi + length p ≤ length (units ps))%nat as Hl.
  { rewrite units_length. unfold firstUnit. rewrite <- (take_drop_middle ps bi p Hp) at 2. rewrite concat_app, length_app. cbn. rewrite length_app. lia. }
  unfold slice. rewrite skipn_map, firstn_map, drop_seq, take_seq, Nat.min_l by lia.
  replace (firstUnit ps bi + length p - firstUnit ps bi)%nat with (length p) by lia. apply md_pieces_kept_seq. by left.
Qed.
Lemma edit_loop_kept base refs blocks nodes ps bm em edited : ∀ e st, (∀ i, (e ≤ i < e + length edited)%nat → is_Some (editKept ps bm em i)) →
  ∃ st', edit_loop wide_word map_order base refs blocks nodes ps bm em st e edited = Ok st'.
Proof.
  induction edited as [|s edited IH]; intros e st H; cbn [edit_loop]; [by eexists|]. unfold edit_step.
  destruct (H e) as [u ->]; [cbn; lia|]. destruct (upiece u =? 0)%nat; cbn [rbind]; apply IH; intros i Hi; apply H; cbn; lia.
Qed.
Lemma contributions_kept base refs blocks nodes bm em e edited cs : contributions wide_word map_order base refs blocks nodes bm em e edited cs →
  (∀ i, (e ≤ i < e + length edited)%nat → is_Some (editKept (map piece_texts blocks) bm em i)) → List.filter is_new cs = [].
Proof.
  induction 1 as [e|e s rest parts bi Hb _ IH|e s rest parts u Hu Hp _ IH|e s rest parts bytes Hk _ _ IH]; intros H; [done|..].
  - cbn. apply IH. intros i Hi. apply H. cbn. lia.
  - apply IH. intros i Hi. apply H. cbn. lia.
  - destruct (H e) as [x Hx]; [cbn; lia|]. congruence.
Qed.
(** The edit has the pieces of the base view. *)
Definition untouched (base : text) (refs : list Ref) (editedMD : text) : Prop :=
  ∃ root, Parse base = Ok root ∧ edited_texts editedMD = concat (map piece_texts (RenderBlockNodes root refs).*1) ∧
    let m := Z.of_nat (length (edited_texts editedMD)) in withinLCSBudget m m = true.

Lemma md_units_texts ps : map utext (units ps) = concat ps.
Proof.
  induction ps as [|p ps IH] using rev_ind; [done|]. rewrite units_snoc, map_app, IH, concat_app. cbn. rewrite app_nil_r. f_equal.
  unfold block_units. generalize (length ps) as b. intros b. apply list_eq. intros k. change (map utext) with (fmap (M := list) utext).
  rewrite list_lookup_fmap, list_lookup_imap. by destruct (p !! k).
Qed.
Lemma filter_false {A} (f : A → bool) l : (∀ x, x ∈ l → f x = false) → List.filter f l = [].
Proof. induction l as [|x l IH]; intros H; [done|]. cbn. rewrite (H x) by apply list_elem_of_here. apply IH. intros. apply H. by apply list_elem_of_further. Qed.
Lemma Merge_untouched base refs editedMD allow : untouched base refs editedMD → HasErrors (Validate base) = false →
  ∃ rep, merge base refs editedMD allow = (Some base, Some rep, None) ∧ RemovedFragments rep = [] ∧
    Moved rep = 0%nat ∧ Converted rep = 0%nat ∧ MergedTables rep = 0%nat ∧ Removed rep = 0%nat.
Proof.
  intros (root & Hp & Hed & Hb) Hv. set (blocks := (RenderBlockNodes root refs).*1) in *. set (nodes := (RenderBlockNodes root refs).*2). set (ps := map piece_texts blocks) in *.
  pose proof (md_units_texts ps) as Ht. rewrite <- Ht in Hed. cbn zeta in Hb. rewrite Hed in Hb.
  destruct (LCS_self (map utext (units ps)) Hb) as (bm & em & HL & Hid). pose proof (LCS_matching _ _ _ _ HL) as Hm.
  rewrite length_map in Hid. assert (bm = map Z.of_nat (seq 0 (length (units ps)))) as ->.
  { apply identity_vector; [rewrite (matching_lenA _ _ _ _ Hm); by rewrite length_map|]. intros k Hk. by apply Hid. }
  assert (∀ bi, (bi < length blocks)%nat → kept ps (map Z.of_nat (seq 0 (length (units ps)))) bi = true) as Hkept.
  { intros bi Hbi. apply md_identity_kept. unfold ps. by rewrite length_map. }
  set (bm := map Z.of_nat (seq 0 (length (units ps)))) in *.
  assert (∀ i, (0 ≤ i < 0 + length (edited_texts editedMD))%nat → is_Some (editKept ps bm em i)) as Hek.
  { intros i Hi. rewrite Hed, length_map in Hi. unfold editKept. destruct (Hid i ltac:(lia)) as [_ ->]. rewrite (proj2 (Z.leb_le _ _)), Nat2Z.id by lia.
    destruct (lookup_lt_is_Some_2 (units ps) i ltac:(lia)) as [u Hu]. rewrite Hu. pose proof (md_unit_inv _ _ _ Hu) as (p & Hup & _). apply lookup_lt_Some in Hup.
    unfold ps in Hup. rewrite length_map in Hup. rewrite Hkept by done. by eexists. }
  destruct (edit_loop_kept base refs blocks nodes ps bm em (edited_texts editedMD) 0 (initial base refs blocks nodes ps bm) Hek) as [st Hloop].
  rewrite <- Hed in Hm at 2. destruct (loop_parts base refs root bm em (edited_texts editedMD) st Hp Hm Hloop) as (parts & Hout & Hbase & Hcs & Hu & Hnew & _ & _).
  fold blocks nodes ps in Hout, Hbase, Hcs.
  apply contributions_kept in Hcs; [|exact Hek]. rewrite <- new_count in Hcs. rewrite Hcs in Hnew. cbn in Hnew.
  assert (finish base blocks st = base) as Hfin.
  { rewrite Hout. assert (parts = skeleton (λ _, true) (length blocks) ++ [Gap (length blocks)]) as ->; [|by apply (skeleton_base base refs)].
    transitivity (List.filter from_base parts).
    - clear -Hcs. induction parts as [|[] parts IH]; cbn in *; [done|f_equal; by apply IH..|done].
    - rewrite Hbase. f_equal. unfold skeleton. f_equal. apply map_ext_in. intros i Hi. apply in_seq in Hi. by rewrite Hkept by lia. }
  assert (removed_count blocks ps bm st = 0%nat) as Hr.
  { unfold removed_count. rewrite filter_false; [done|]. intros bi Hbi%list_elem_of_In%in_seq. by rewrite Hkept by lia. }
  assert (List.find (partial ps bm) (seq 0 (length blocks)) = None) as Hpart.
  { destruct (List.find _ _) as [bi|] eqn:Hf; [|done]. apply find_some in Hf as [Hi Hf]. apply in_seq in Hi. unfold partial in Hf. rewrite Hkept in Hf by lia. done. }
  unfold Merge. rewrite Hp. fold blocks nodes ps. rewrite Hed in *. rewrite HL, Hpart, Hloop, Hfin, Hv, (removedFragments_same _ _ _ Hp), Hr. cbn [length Nat.eqb negb andb].
  eexists. split; [done|]. cbn. split_and!; [done|lia..|done].
Qed.

(** The view of a body splits into what its blocks split into. *)
Lemma view_untouched base refs root : Parse base = Ok root →
  Forall (λ n, shows_code n ∨ self_contained (MdView.block (MdView.newMDRenderer refs) n)) (MdView.block_nodes root) →
  (let m := Z.of_nat (length (edited_texts (MdView.RenderMarkdown root refs))) in withinLCSBudget m m = true) →
  untouched base refs (MdView.RenderMarkdown root refs).
Proof.
  intros Hp Hs Hb. exists root. split; [done|]. split; [|done]. unfold edited_texts. rewrite (view_pieces root refs Hs), concat_map, map_map. done.
Qed.

(** C8: the view of a page merges back to the exact base bytes. The base passes the
    push gate, its view is within the alignment budget, and every top-level block
    shows code or has a view that stands for itself: a blank line comes after it and
    it closes the fences it opens. Then merging the unedited [RenderMarkdown] of the
    page succeeds with the base itself, converts, moves and removes nothing and
    reports no loss, whatever the parameters are. A block of code meets the
    condition whatever the code is, for its fence is longer than any run of
    backticks in it. *)
Theorem Merge_untouched_exact base refs root allow : Parse base = Ok root → HasErrors (Validate base) = false →
  Forall (λ n, shows_code n ∨ self_contained (MdView.block (MdView.newMDRenderer refs) n)) (MdView.block_nodes root) →
  (let m := Z.of_nat (length (edited_texts (MdView.RenderMarkdown root refs))) in withinLCSBudget m m = true) →
  ∃ rep, merge base refs (MdView.RenderMarkdown root refs) allow = (Some base, Some rep, None) ∧ RemovedFragments rep = [] ∧
    Moved rep = 0%nat ∧ Converted rep = 0%nat ∧ MergedTables rep = 0%nat ∧ Removed rep = 0%nat.
Proof. intros Hp Hv Hs Hb. apply Merge_untouched; [|done]. by apply view_untouched. Qed.
End merge_facts.
(** ** A concrete merge *)

Module Demo.
Definition lines (l : list string) : text := WikiScanner.join_lines (map txt l).
Definition merge := Merge (λ x, x) (λ _, false) (λ l, l).
Definition base : text := txt "<h1>T</h1><p>Hello <ac:link><ri:user ri:userkey='u1'/></ac:link> x</p><table class='c'><tbody><tr><th>A</th><th>B</th></tr><tr><td><p>1</p></td><td>2</td></tr></tbody></table><p>end</p>".
Definition edit : text := lines ["# T"; ""; "Hello dear @u1 x"; ""; "| A | B |"; "| --- | --- |"; "| 1 | **9** |"; ""; "end"]%string.
Definition edited : text := txt "<h1>T</h1><p>Hello dear <ac:link><ri:user ri:userkey='u1'/></ac:link> x</p><table class='c'><tbody><tr><th>A</th><th>B</th></tr><tr><td><p>1</p></td><td><strong>9</strong></td></tr></tbody></table><p>end</p>".
Definition report : option Report := Eval vm_compute in (merge base [] edit false).1.2.
Definition rep : Report := Eval vm_compute in default {| Unchanged := 0; Moved := 0; Converted := 0; Removed := 0; MergedTables := 0; RemovedFragments := []; Problems := [] |} report.
Example merge_edit : merge base [] edit false = (Some edited, Some rep, None).
Proof. vm_compute. reflexivity. Qed.
(** Losing the mention is refused. *)
Example merge_loss : (merge base [] (lines ["# T"; ""; "Hello x"; ""; "end"]%string) false).1.1 = None.
Proof. vm_compute. reflexivity. Qed.
Lemma Merge_interleaves_witness : ∃ root bm em parts, Parse base = Ok root ∧
    let blocks := (RenderBlockNodes root []).*1 in let nodes := (RenderBlockNodes root []).*2 in let ps := map piece_texts blocks in let n := length blocks in
    edited = cat base blocks parts ∧
    List.filter from_base parts = skeleton (kept ps bm) n ++ [Gap n] ∧
    contributions (λ _, false) (λ l, l) base [] blocks nodes bm em 0 (edited_texts edit) (List.filter from_edit parts) ∧
    Unchanged rep = length (List.filter is_keep parts) ∧ (Moved rep + MergedTables rep + Converted rep)%nat = length (List.filter is_new parts) ∧
    (Unchanged rep + Moved rep + MergedTables rep + Removed rep)%nat = n.
Proof. apply (Merge_interleaves (λ x, x) (λ _, false) (λ l, l) base [] edit false edited rep None). vm_compute. reflexivity. Defined.
Lemma Merge_gates_witness : HasErrors (Validate edited) = false ∧ Problems rep = Validate edited ∧
  ∃ root, Parse base = Ok root ∧ RemovedFragments rep = removedFragments (λ x, x) root edited ∧
    (false = false → ∃ result, Parse edited = Ok result ∧ preserved (λ x, x) root result).
Proof. apply (Merge_gates (λ x, x) (λ _, false) (λ l, l) base [] edit false edited rep None). vm_compute. reflexivity. Defined.
(** A page with code that holds fences and runs of blank lines. *)
Definition code_page : text := txt "<h1>T</h1><ac:structured-macro ac:name='code'><ac:parameter ac:name='language'>md</ac:parameter><ac:plain-text-body><![CDATA[" ++
  lines ["````"; "x"; ""; ""; ""; "```"; ""]%string ++ txt "]]></ac:plain-text-body></ac:structured-macro><p>Hello <b>x</b></p><table><tbody><tr><th>A</th></tr><tr><td>1</td></tr></tbody></table><pre>``` y</pre>".
(** The rendering of a block is its view and a blank line. *)
Definition plainly_contained (o : text) : bool :=
  bool_decide (o = ViewBlocks.part_view o ++ MdView.nl 2) && bool_decide (MdView.collapseBlankRuns (ViewBlocks.part_view o) = ViewBlocks.part_view o) &&
  (WikiScanner.fence_after 0 (WikiScanner.split_lines (ViewBlocks.part_view o)) =? 0)%nat.
Lemma plainly_contained_self o : plainly_contained o = true → self_contained o.
Proof.
  unfold plainly_contained. intros [[Ho%bool_decide_eq_true Hc%bool_decide_eq_true]%andb_true_iff Hf%Nat.eqb_eq]%andb_true_iff.
  exists 0%nat, (ViewBlocks.part_view o), 2%nat. split_and!; [exact Ho|exact Hc|]. intros _. by split.
Qed.
Definition code_or_plain (n : Node) : bool :=
  (negb (is_text n) && MdView.ac_macro n && eqt (attrv n "ac" "name") (txt "code")) || (negb (is_text n) && named "" "pre" n) ||
  plainly_contained (MdView.block (MdView.newMDRenderer []) n).
Lemma code_or_plain_ok n : code_or_plain n = true → shows_code n ∨ self_contained (MdView.block (MdView.newMDRenderer []) n).
Proof.
  unfold code_or_plain. intros [[[[Ht%negb_true_iff Hm]%andb_true_iff Hn%eqt_true]%andb_true_iff|[Ht%negb_true_iff Hn]%andb_true_iff]%orb_true_iff|Hp]%orb_true_iff.
  - left. apply ViewBlocks.shows_macro; [done|done|by left].
  - left. by apply ViewBlocks.shows_pre.
  - right. by apply plainly_contained_self.
Qed.
Lemma Merge_untouched_exact_witness : ∃ root rep, Parse code_page = Ok root ∧ merge code_page [] (MdView.RenderMarkdown root []) false = (Some code_page, Some rep, None).
Proof.
  destruct (Parse code_page) as [root|] eqn:H; [|by vm_compute in H].
  assert (match Parse code_page with Ok root => forallb code_or_plain (MdView.block_nodes root) = true ∧
      (let m := Z.of_nat (length (edited_texts (MdView.RenderMarkdown root []))) in withinLCSBudget m m = true) | Err _ => False end) as Hok by (vm_compute; by split).
  rewrite H in Hok. destruct Hok as [Hb Hl].
  destruct (Merge_untouched_exact (λ x, x) (λ _, false) (λ l, l) code_page [] root false H) as (rep & Hm & _); [by vm_compute| |exact Hl|].
  { apply Forall_forall. intros n Hn. apply code_or_plain_ok. rewrite forallb_forall in Hb. apply Hb. by apply list_elem_of_In. }
  exists root, rep. split; [done|exact Hm].
Defined.
(** A link target may hide a control character: the new paragraph converts, the
    merged page does not pass the gate, and the merge reports its own bug. *)
Example merge_control_character : match (merge (txt "<p>x</p>") [] (lines ["[y](confluence-page:a%01%FFb)"]%string) false).2 with Some (InvalidError p) => Severity p = SeverityError | _ => False end.
Proof. vm_compute. reflexivity. Qed.
End Demo.
End MdMergeFacts.
