(* ===== verification/PullTypes.v ===== *)
(** * Complete pulls: data and validation (internal/mirror: complete_pull_service.go,
    complete_pull.go, complete_pull_owned.go, complete_pull_confluence_includes.go,
    complete_pull_progress.go, artifact_path.go, sidecar.go)

    The records a complete pull stores next to a mirror, what makes a stored
    record acceptable, and the fold of progress into a checkpoint. *)

From stdpp Require Import pretty.
From S2P Require Import Prelude GoText Identifiers.
Import GoText Identifiers.

Module PullTypes.
Local Open Scope Z_scope.
Local Open Scope atl_scope.

(** An [ErrCheckFailed] with its reason. *)
Definition checked (A : Type) : Type := result string A.
Definition require (c : bool) (why : string) : checked unit := if c then Ok tt else Err why.

(** ** Paths *)

Definition slash : ascii := "/"%char.
Definition lower_ascii (c : ascii) : ascii := if is_upper c then ascii_of_N (N_of_ascii c + 32) else c.

(** The components of a path, empty ones included. *)
Fixpoint components (s : text) : list text :=
  match s with
  | [] => [[]]
  | c :: s => if decide (c = slash) then [] :: components s else match components s with [] => [[c]] | p :: ps => (c :: p) :: ps end
  end.
Fixpoint join_path (ps : list text) : text :=
  match ps with [] => [] | [p] => p | p :: ps => p ++ slash :: join_path ps end.
(** [path.Clean]: the components that remain, last first. *)
Fixpoint clean_loop (rooted : bool) (ps out : list text) : list text :=
  match ps with
  | [] => out
  | p :: ps =>
      if eqt p [] || eqt p (txt ".") then clean_loop rooted ps out
      else if eqt p (txt "..") then
        match out with
        | o :: out' => if eqt o (txt "..") then clean_loop rooted ps (p :: out) else clean_loop rooted ps out'
        | [] => clean_loop rooted ps (if rooted then [] else [p])
        end
      else clean_loop rooted ps (p :: out)
  end.
Definition is_abs (s : text) : bool := has_prefix s (txt "/").
Definition clean (s : text) : text :=
  let parts := join_path (reverse (clean_loop (is_abs s) (components s) [])) in
  if is_abs s then slash :: parts else if eqt parts [] then txt "." else parts.
(** [filepath.Base], [filepath.Dir] and [filepath.Ext] of clean paths. *)
Definition base_name (s : text) : text := List.last (components s) [].
Definition dir_name (s : text) : text := join_path (removelast (components s)).
Definition first_component (s : text) : text := hd [] (components s).
Definition rest_components (s : text) : text := join_path (tail (components s)).
Definition ext (s : text) : text := match last_index_byte (base_name s) "."%char with Some i => drop i (base_name s) | None => [] end.
Definition trim_suffix (s suffix : text) : text := if has_suffix s suffix then take (length s - length suffix) s else s.
Definition contains_any (s chars : text) : bool := existsb (λ c, bool_decide (c ∈ chars)) s.
Definition control (c : ascii) : bool := (byte_val c <? 32) || (byte_val c =? 127).
Definition nul : ascii := Ascii.zero.

Inductive artifactPathClass := artifactPathClassInvalid | artifactPathClassPublic | artifactPathClassPrivateBase.
#[export] Instance artifactPathClass_eq : EqDecision artifactPathClass. Proof. solve_decision. Defined.
Record ArtifactPath := { value : text; class : artifactPathClass }.
#[export] Instance ArtifactPath_eq : EqDecision ArtifactPath. Proof. solve_decision. Defined.

Definition maxArtifactPathBytes : nat := 4096.
(** [strings.EqualFold(first, ".atl")]: no other letter folds to these. *)
Definition is_reserved (first : text) : bool := eqt (lower_ascii <$> first) (txt ".atl").
Definition canonical_relative (v : text) : bool :=
  eqt (clean v) v && negb (is_abs v) && negb (eqt v (txt ".")) && negb (eqt v (txt "..")) && negb (has_prefix v (txt "../")).
Definition class_admits (c : artifactPathClass) (v : text) : bool :=
  match c with
  | artifactPathClassPublic => negb (is_reserved (first_component v))
  | artifactPathClassPrivateBase =>
      eqt (first_component v) (txt ".atl") && negb (eqt (rest_components v) []) &&
      eqt (first_component (rest_components v)) (txt "base") && negb (eqt (rest_components (rest_components v)) [])
  | artifactPathClassInvalid => false
  end.
Definition validateArtifactPath (v : text) (c : artifactPathClass) : checked unit :=
  let! _ := require (negb (eqt v []) && (length v <=? maxArtifactPathBytes)%nat && valid_utf8 v) "path is empty, overlong, or invalid UTF-8" in
  let! _ := require (negb (contains_any v ["\"%char; ":"%char; nul]) && negb (existsb control v)) "path contains an alternate separator, drive marker, or control byte" in
  let! _ := require (canonical_relative v) "path is not a canonical contained relative path" in
  require (class_admits c v) "path class does not admit the path".
Definition newArtifactPath (v : text) (c : artifactPathClass) : checked ArtifactPath := let! _ := validateArtifactPath v c in Ok {| value := v; class := c |}.
Definition NewPublicArtifactPath (v : text) : checked ArtifactPath := newArtifactPath v artifactPathClassPublic.
Definition NewPrivateBaseArtifactPath (v : text) : checked ArtifactPath := newArtifactPath v artifactPathClassPrivateBase.
Definition parseDurableArtifactPath (v : text) : checked ArtifactPath :=
  if is_reserved (first_component v) then NewPrivateBaseArtifactPath v else NewPublicArtifactPath v.
(** [relativeAny]: the path again, checked against its class. *)
Definition relativeAny (p : ArtifactPath) : checked text :=
  match class p with
  | artifactPathClassInvalid => Err "mirror artifact path is unqualified"%string
  | c => let! _ := validateArtifactPath (value p) c in Ok (value p)
  end.
Definition artifactPathKey (v : text) : text := lower_ascii <$> v.
Definition registrationPathKey (path : text) : text := artifactPathKey (clean path).

(** ** Segments (internal/safepath) *)

Definition rune_error_bytes : text := map (λ z, ascii_of_N z) [239; 191; 189]%N.
Definition separator_rune (r : Z) : bool := (r =? 47) || (r =? 92) || (r =? 58) || (r <? 32) || (r =? 127).
Fixpoint segment_runes (fuel : nat) (s : text) : text :=
  match fuel, s with
  | S fuel, _ :: _ =>
      let '(r, sz) := decode_rune s in
      (if separator_rune r then txt "-" else if (r =? RuneError) && (sz =? 1)%nat then rune_error_bytes else take sz s) ++ segment_runes fuel (drop sz s)
  | _, _ => []
  end.
Definition Segment (s : text) : text :=
  let mapped := trim_space (segment_runes (length s) s) in
  if eqt mapped [] || eqt mapped (txt ".") || eqt mapped (txt "..") then txt "_"
  else if has_prefix mapped (txt ".") then txt "_" ++ mapped else mapped.

(** ** Records *)

Record SyncState := { sID : text; sIdentity : text; sVersion : Z; sHash : text; sPath : text }.
#[export] Instance SyncState_eq : EqDecision SyncState. Proof. solve_decision. Defined.
Record FieldViewState := { fID : text; fLabel : text; fPlacement : text; fFormat : text; fShowEmpty : bool; fEditable : bool }.
#[export] Instance FieldViewState_eq : EqDecision FieldViewState. Proof. solve_decision. Defined.
Record ViewState := { vSections : list text; vDisplayTimeZone : text; vCustomFields : list text; vFieldViews : list FieldViewState; vPageFields : list FieldViewState; vEpicField : text }.
#[export] Instance ViewState_eq : EqDecision ViewState. Proof. solve_decision. Defined.
Record StagedState := { gID : text; gHash : text; gBaseHash : text; gPath : text }.
#[export] Instance StagedState_eq : EqDecision StagedState. Proof. solve_decision. Defined.
Record sidecarFile := { Pages : gmap text SyncState; Views : gmap text ViewState; Staged : gmap text StagedState }.
#[export] Instance sidecarFile_eq : EqDecision sidecarFile. Proof. solve_decision. Defined.

Record PullIncludeEvidence := { Dimension : text; Qualification : text; Reason : text; BodyBytes : Z }.
#[export] Instance PullIncludeEvidence_eq : EqDecision PullIncludeEvidence. Proof. solve_decision. Defined.
Record JiraOptionalEvidence := { CommentsSHA256 : text; AttachmentsSHA256 : text }.
#[export] Instance JiraOptionalEvidence_eq : EqDecision JiraOptionalEvidence. Proof. solve_decision. Defined.
Record PreviousState := { pState : SyncState; pView : option ViewState }.
#[export] Instance PreviousState_eq : EqDecision PreviousState. Proof. solve_decision. Defined.
Record CompletePullJournalEntry := { Identity : text; State : SyncState; View : ViewState; Previous : option PreviousState;
  Includes : option (list PullIncludeEvidence); OptionalEvidence : option JiraOptionalEvidence }.
#[export] Instance CompletePullJournalEntry_eq : EqDecision CompletePullJournalEntry. Proof. solve_decision. Defined.

(** The service of a pull; decoded records may hold any text. *)
Definition Confluence : text := txt "confluence".
Definition Jira : text := txt "jira".
Definition validCompletePullService (s : text) : bool := eqt s Confluence || eqt s Jira.

Record IncludeAggregate := { aPublished : Z; aPartial : Z; aReason : text; aBodyBytes : Z }.
#[export] Instance IncludeAggregate_eq : EqDecision IncludeAggregate. Proof. solve_decision. Defined.
Definition no_aggregate : IncludeAggregate := {| aPublished := 0; aPartial := 0; aReason := []; aBodyBytes := 0 |}.
Record IncludeProgress := { EvidenceComplete : bool; Assets : IncludeAggregate; Comments : IncludeAggregate; Attachments : IncludeAggregate }.
#[export] Instance IncludeProgress_eq : EqDecision IncludeProgress. Proof. solve_decision. Defined.
Definition no_includes : IncludeProgress := {| EvidenceComplete := false; Assets := no_aggregate; Comments := no_aggregate; Attachments := no_aggregate |}.

Record CompletePullCheckpoint := { cSchema : Z; cService : text; cSelector : text; cOptions : text; cSelection : text; IDs : list text; NextIndex : Z; cIncludes : IncludeProgress }.
Record completePullProgress := { rSchema : Z; rService : text; rSelector : text; rOptions : text; rSelection : text; rNextIndex : Z; rIncludes : option IncludeProgress }.
Record completePullJournal := { jSchema : Z; jService : text; jSelector : text; jOptions : text; jSelection : text; StartIndex : Z; Entries : list CompletePullJournalEntry; jWriteToken : text }.

Definition set_evidence (v : bool) (i : IncludeProgress) : IncludeProgress := {| EvidenceComplete := v; Assets := Assets i; Comments := Comments i; Attachments := Attachments i |}.
Definition set_includes (i : IncludeProgress) (c : CompletePullCheckpoint) : CompletePullCheckpoint :=
  {| cSchema := cSchema c; cService := cService c; cSelector := cSelector c; cOptions := cOptions c; cSelection := cSelection c; IDs := IDs c; NextIndex := NextIndex c; cIncludes := i |}.
Definition set_next (n : Z) (c : CompletePullCheckpoint) : CompletePullCheckpoint :=
  {| cSchema := cSchema c; cService := cService c; cSelector := cSelector c; cOptions := cOptions c; cSelection := cSelection c; IDs := IDs c; NextIndex := n; cIncludes := cIncludes c |}.
Definition set_schema (n : Z) (c : CompletePullCheckpoint) : CompletePullCheckpoint :=
  {| cSchema := n; cService := cService c; cSelector := cSelector c; cOptions := cOptions c; cSelection := cSelection c; IDs := IDs c; NextIndex := NextIndex c; cIncludes := cIncludes c |}.

(** ** Names and digests *)

Definition validSHA256 (v : text) : bool := (length v =? 64)%nat && hex_decodes v.
Definition validCompletePullWriteToken (token : text) : bool := (length token =? 32)%nat && forallb is_lower_hex token.
(** [%04d]. *)
Definition pad4 (n : nat) : text := let s := txt (pretty n) in replicate (4 - length s) "0"%char ++ s.
Definition temp_name (token kind : text) : text := txt ".atl-cp-" ++ token ++ txt "-" ++ kind ++ txt ".tmp".
Definition completePullArtifactTemp (token : text) (index : nat) : text := temp_name token (txt "artifact-" ++ pad4 index).
Definition completePullJournalTemp (token : text) : text := temp_name token (txt "journal").
Definition completePullSidecarTemp (token : text) : text := temp_name token (txt "sidecar").
Definition completePullProgressTemp (token : text) : text := temp_name token (txt "progress").
Definition maxCompletePullTempName : nat := 96.
Definition validCompletePullTempName (name : text) : bool :=
  negb (eqt name []) && negb (eqt name (txt ".")) && negb (eqt name (txt "..")) && (length name <=? maxCompletePullTempName)%nat &&
  negb (contains_any name [slash; "\"%char; ":"%char; nul]).

Definition maxCompletePullIDBytes : nat := 256.
(** Digits that are the canonical form of a positive 64-bit number. *)
Definition positiveDecimalIdentity (v : text) : bool :=
  match parse_uint64 v with Some n => (0 <? n) && negb (has_prefix v (txt "0")) | None => false end.

(** ** Schemas (complete_pull_service.go) *)

Definition completePullCheckpointSchema : Z := 1.
Definition completePullProgressSchema : Z := 1.
Definition completePullJiraProgressSchema : Z := 2.
Definition completePullConfluenceProgressSchema : Z := 3.
Definition completePullConfluenceProgressSchema4 : Z := 4.
Definition completePullJournalSchema : Z := 2.
Definition completePullJiraJournalSchema : Z := 3.
Definition completePullJiraJournalSchema4 : Z := 4.
Definition completePullJiraJournalSchema5 : Z := 5.
Definition completePullJiraJournalSchema6 : Z := 6.
Definition completePullConfluenceJournalSchema : Z := 5.
Definition completePullConfluenceJournalSchema6 : Z := 6.
Definition completePullPublicationSchema : Z := 2.
Definition completePullConfluencePublicationSchema : Z := 5.
Definition completePullConfluencePublicationSchema6 : Z := 6.
Definition completePullConfluencePublicationSchema7 : Z := 7.
Definition completePullJiraPublicationSchema : Z := 3.
Definition completePullJiraPublicationSchema4 : Z := 4.
Definition completePullJiraPublicationSchema5 : Z := 5.
Definition completePullJiraPublicationSchema6 : Z := 6.
Definition one_of (schema : Z) (l : list Z) : bool := existsb (Z.eqb schema) l.

Definition DimensionAssets : text := txt "assets".
Definition DimensionComments : text := txt "comments".
Definition DimensionAttachments : text := txt "attachments".
Definition Qualified : text := txt "qualified".
Definition Partial : text := txt "partial".

Definition completePullEntryHasAttachmentEvidence (e : CompletePullJournalEntry) : bool :=
  match Includes e with Some vs => existsb (λ v, eqt (Dimension v) DimensionAttachments) vs | None => false end.
(** A Jira entry from before stable identities. *)
Definition legacy_jira (e : CompletePullJournalEntry) : bool := eqt (sIdentity (State e)) [] && negb (bool_decide (is_Some (Previous e))).
Definition has_evidence (e : CompletePullJournalEntry) : bool := bool_decide (is_Some (OptionalEvidence e)).
Definition has_includes (e : CompletePullJournalEntry) : bool := bool_decide (is_Some (Includes e)).
Definition completePullJournalSchemaForEntry (service : text) (e : CompletePullJournalEntry) : Z :=
  if eqt service Jira && legacy_jira e then completePullJiraJournalSchema
  else if eqt service Jira && has_evidence e then completePullJiraJournalSchema6
  else if eqt service Confluence && negb (has_includes e) then completePullJournalSchema
  else if eqt service Confluence && completePullEntryHasAttachmentEvidence e then completePullConfluenceJournalSchema6
  else if eqt service Confluence then completePullConfluenceJournalSchema
  else if eqt service Jira then completePullJiraJournalSchema6 else completePullConfluenceJournalSchema6.
(** A recovered Jira intent keeps the generation it was written in. *)
Definition completePullJournalSchemaForPublication (service : text) (publicationSchema : Z) (e : CompletePullJournalEntry) : Z :=
  if eqt service Jira && one_of publicationSchema [3; 4; 5; 6] then publicationSchema else completePullJournalSchemaForEntry service e.
Definition completePullPublicationSchemaForEntry (service : text) (e : CompletePullJournalEntry) : Z :=
  if eqt service Jira && legacy_jira e then completePullJiraPublicationSchema
  else if eqt service Jira && has_evidence e then completePullJiraPublicationSchema6
  else if eqt service Confluence && negb (has_includes e) then completePullPublicationSchema
  else if eqt service Confluence then completePullConfluencePublicationSchema7
  else if eqt service Jira then completePullJiraPublicationSchema6 else completePullConfluencePublicationSchema7.
Definition validCompletePullJournalSchema (service : text) (schema : Z) : bool :=
  if eqt service Jira then one_of schema [3; 4; 5; 6] else eqt service Confluence && one_of schema [2; 5; 6].
Definition validCompletePullPublicationSchema (service : text) (schema : Z) : bool :=
  if eqt service Jira then one_of schema [3; 4; 5; 6] else eqt service Confluence && one_of schema [2; 5; 6; 7].

(** ** Evidence of optional content *)

Definition ValidConfluencePullIncludeEvidence (v : PullIncludeEvidence) : bool :=
  let attachments := eqt (Dimension v) DimensionAttachments in
  negb ((BodyBytes v <? 0) || (negb attachments && negb (BodyBytes v =? 0))) &&
  (eqt (Dimension v) DimensionAssets || eqt (Dimension v) DimensionComments || attachments) &&
  (if eqt (Qualification v) Qualified then eqt (Reason v) []
   else eqt (Qualification v) Partial &&
        (eqt (Reason v) (txt "resolution_incomplete") || eqt (Reason v) (txt "inventory_incomplete") || (attachments && eqt (Reason v) (txt "body_incomplete")))).
Definition ValidLegacyConfluencePullIncludeEvidence (v : PullIncludeEvidence) : bool :=
  (eqt (Dimension v) DimensionAssets || eqt (Dimension v) DimensionComments) && ValidConfluencePullIncludeEvidence v.
Fixpoint evidence_loop (seen : list text) (vs : list PullIncludeEvidence) : checked unit :=
  match vs with
  | [] => Ok tt
  | v :: vs =>
      let! _ := require (ValidConfluencePullIncludeEvidence v) "complete-pull include evidence is invalid" in
      let! _ := require (negb (bool_decide (Dimension v ∈ seen))) "complete-pull include evidence repeats a dimension" in
      evidence_loop (Dimension v :: seen) vs
  end.
Definition validateCompletePullIncludeEvidence (vs : list PullIncludeEvidence) : checked unit := evidence_loop [] vs.

Definition aggregate_of (dimension : text) (p : IncludeProgress) : IncludeAggregate :=
  if eqt dimension DimensionComments then Comments p else if eqt dimension DimensionAttachments then Attachments p else Assets p.
Definition set_aggregate (dimension : text) (a : IncludeAggregate) (p : IncludeProgress) : IncludeProgress :=
  if eqt dimension DimensionComments then {| EvidenceComplete := EvidenceComplete p; Assets := Assets p; Comments := a; Attachments := Attachments p |}
  else if eqt dimension DimensionAttachments then {| EvidenceComplete := EvidenceComplete p; Assets := Assets p; Comments := Comments p; Attachments := a |}
  else {| EvidenceComplete := EvidenceComplete p; Assets := a; Comments := Comments p; Attachments := Attachments p |}.
Definition maxInt64 : Z := 2 ^ 63 - 1.
Definition count_evidence (a : IncludeAggregate) (v : PullIncludeEvidence) : checked IncludeAggregate :=
  let! _ := require (negb ((0 <? BodyBytes v) && (maxInt64 - BodyBytes v <? aBodyBytes a))) "complete-pull attachment body accounting overflows" in
  let partial := eqt (Qualification v) Partial in
  Ok {| aPublished := aPublished a + 1; aPartial := aPartial a + (if partial then 1 else 0); aReason := if partial then Reason v else aReason a;
        aBodyBytes := aBodyBytes a + (if 0 <? BodyBytes v then BodyBytes v else 0) |}.
Fixpoint apply_evidence (p : IncludeProgress) (vs : list PullIncludeEvidence) : checked IncludeProgress :=
  match vs with
  | [] => Ok p
  | v :: vs => let! a := count_evidence (aggregate_of (Dimension v) p) v in apply_evidence (set_aggregate (Dimension v) a p) vs
  end.
Definition applyCompletePullIncludeEvidence (p : IncludeProgress) (vs : list PullIncludeEvidence) : checked IncludeProgress :=
  let! _ := validateCompletePullIncludeEvidence vs in apply_evidence p vs.

(** The aggregates with their dimensions; a map in the code, each checked alone. *)
Definition dimensions (p : IncludeProgress) : list (text * IncludeAggregate) := [(DimensionAssets, Assets p); (DimensionComments, Comments p); (DimensionAttachments, Attachments p)].
Definition aggregate_ok (complete : bool) (nextIndex : Z) (d : text * IncludeAggregate) : checked unit :=
  let a := d.2 in
  let! _ := require (negb ((aPublished a <? 0) || (aPartial a <? 0) || (aPublished a <? aPartial a) || (nextIndex <? aPublished a) || (aBodyBytes a <? 0) ||
              (negb (eqt d.1 DimensionAttachments) && negb (aBodyBytes a =? 0)) || ((0 <? aBodyBytes a) && (aPublished a =? 0)))) "include progress is outside its durable prefix" in
  let! _ := require (negb (complete && negb (aPublished a =? 0) && negb (aPublished a =? nextIndex))) "include evidence does not cover its durable prefix" in
  let! _ := require (negb ((aPartial a =? 0) && negb (eqt (aReason a) []))) "include progress has a reason without partial evidence" in
  require (negb ((0 <? aPartial a) && negb (ValidConfluencePullIncludeEvidence {| Dimension := d.1; Qualification := Partial; Reason := aReason a; BodyBytes := 0 |})))
    "include progress has an invalid reason".
Fixpoint all_ok {A} (f : A → checked unit) (l : list A) : checked unit :=
  match l with [] => Ok tt | x :: l => let! _ := f x in all_ok f l end.
Definition validateCompletePullIncludeProgressSchema (schema : Z) (p : IncludeProgress) (nextIndex : Z) : checked unit :=
  let none := bool_decide (Attachments p = no_aggregate) in
  let! _ := require (one_of schema [3; 4]) "unsupported Confluence complete-pull include schema" in
  let! _ := require (negb ((schema =? 3) && negb none)) "legacy Confluence complete-pull progress contains attachment evidence" in
  let! _ := require (negb ((schema =? 4) && none)) "attachment-aware Confluence complete-pull progress omits attachment evidence" in
  all_ok (aggregate_ok (EvidenceComplete p) nextIndex) (dimensions p).
Definition validateCompletePullIncludeProgress (p : IncludeProgress) (nextIndex : Z) : checked unit :=
  validateCompletePullIncludeProgressSchema (if bool_decide (Attachments p = no_aggregate) then 3 else 4) p nextIndex.

(** Progress of one selection only grows. *)
Definition aggregate_advance (delta : Z) (d : text * (IncludeAggregate * IncludeAggregate)) : checked unit :=
  let '(before, after) := d.2 in
  let published := aPublished after - aPublished before in
  let partial := aPartial after - aPartial before in
  let bytes := aBodyBytes after - aBodyBytes before in
  let attachments := eqt d.1 DimensionAttachments in
  let! _ := require (negb ((published <? 0) || (partial <? 0) || (bytes <? 0))) "include evidence cannot be erased" in
  let! _ := require (negb ((delta <? published) || (published <? partial))) "include evidence exceeds newly durable progress" in
  let! _ := require (negb ((partial =? 0) && negb (eqt (aReason after) (aReason before)))) "include reason changed without new partial evidence" in
  let! _ := require (negb (negb attachments && negb (bytes =? 0))) "include body accounting is invalid" in
  require (negb (attachments && negb (bytes =? 0) && (published =? 0))) "attachment body accounting cannot change without a newly durable page".
Definition validateCompletePullIncludeAdvance (previous : IncludeProgress) (previousIndex : Z) (next : IncludeProgress) (nextIndex : Z) : checked unit :=
  let! _ := require (negb (nextIndex <? previousIndex)) "complete-pull progress cannot move behind its durable prefix" in
  let delta := nextIndex - previousIndex in
  let! _ := require (negb (negb (EvidenceComplete previous) && EvidenceComplete next)) "include evidence cannot improve an unqualified durable prefix" in
  let! _ := require (negb (EvidenceComplete previous && negb (EvidenceComplete next) && (delta =? 0))) "include evidence cannot change without advancing its durable prefix" in
  all_ok (aggregate_advance delta) [(DimensionAssets, (Assets previous, Assets next)); (DimensionComments, (Comments previous, Comments next)); (DimensionAttachments, (Attachments previous, Attachments next))].

(** ** Entries *)

Definition validateCompletePullConfluenceEntrySchema (schema : Z) (e : CompletePullJournalEntry) : checked unit :=
  let included (k : list PullIncludeEvidence → checked unit) :=
    match Includes e with Some vs => k vs | None => Err "current Confluence complete-pull schema omits include evidence"%string end in
  if schema =? 2 then require (negb (has_includes e)) "legacy Confluence complete-pull schema contains future include evidence"
  else if schema =? 5 then included (λ vs, let! _ := require (forallb ValidLegacyConfluencePullIncludeEvidence vs) "legacy schema contains unsupported include evidence" in validateCompletePullIncludeEvidence vs)
  else if schema =? 6 then included (λ vs, let! _ := require (completePullEntryHasAttachmentEvidence e) "attachment-aware schema omits attachment evidence" in validateCompletePullIncludeEvidence vs)
  else if schema =? 7 then included validateCompletePullIncludeEvidence
  else Ok tt.
Definition validCompletePullJiraOptionalEvidence (v : option JiraOptionalEvidence) : bool :=
  match v with
  | Some v => (eqt (CommentsSHA256 v) [] || validSHA256 (CommentsSHA256 v)) && (eqt (AttachmentsSHA256 v) [] || validSHA256 (AttachmentsSHA256 v))
  | None => false
  end.
Definition validateCompletePullJiraEntrySchema (schema : Z) (e : CompletePullJournalEntry) : checked unit :=
  let same := eqt (sIdentity (State e)) (Identity e) in
  if schema =? 3 then require (legacy_jira e && negb (has_evidence e)) "legacy Jira complete-pull schema contains future identity or relocation state"
  else if one_of schema [4; 5] then require (same && negb (has_evidence e)) "stable sidecar identity does not match its selected identity"
  else if schema =? 6 then require (same && validCompletePullJiraOptionalEvidence (OptionalEvidence e)) "Jira complete-pull optional evidence is invalid"
  else Ok tt.
Definition validateEntrySchema (service : text) (schema : Z) (e : CompletePullJournalEntry) : checked unit :=
  if eqt service Jira then validateCompletePullJiraEntrySchema schema e else validateCompletePullConfluenceEntrySchema schema e.

Definition wiki_file (id path : text) : bool := eqt (base_name path) (id ++ txt ".wiki").
Definition valid_previous (e : CompletePullJournalEntry) (p : PreviousState) : bool :=
  let previous := pState p in
  eqt (sIdentity (State e)) (Identity e) && bool_decide (is_Some (pView p)) && negb (eqt (sID previous) []) && negb (eqt (sID previous) (sID (State e))) &&
  (sVersion previous =? 0) && validSHA256 (sHash previous) && eqt (Segment (sID previous)) (sID previous) && wiki_file (sID previous) (sPath previous) &&
  (eqt (sIdentity previous) [] || eqt (sIdentity previous) (Identity e)).
Definition validateCompletePullJournalEntry (service : text) (e : CompletePullJournalEntry) : checked unit :=
  let state := State e in
  let! _ := require (negb (eqt (sID state) []) && (length (sID state) <=? maxCompletePullIDBytes)%nat) "complete-pull journal contains an invalid identity" in
  let! _ := require (validSHA256 (sHash state)) "complete-pull journal state has an invalid version or hash" in
  let! _ := NewPublicArtifactPath (sPath state) in
  if eqt service Confluence then
    require (eqt (Identity e) [] && eqt (sIdentity state) [] && negb (bool_decide (is_Some (Previous e))) && negb (has_evidence e) && positiveDecimalIdentity (sID state) &&
             (0 <? sVersion state) && has_suffix (sPath state) (txt ".csf")) "complete-pull Confluence journal state is invalid"
  else if eqt service Jira then
    let! _ := require (negb (has_includes e) && positiveDecimalIdentity (Identity e) && (sVersion state =? 0) && eqt (Segment (sID state)) (sID state) &&
                       wiki_file (sID state) (sPath state) && (eqt (sIdentity state) [] || eqt (sIdentity state) (Identity e)))
                      "complete-pull Jira journal identity, key, version, or native path is invalid" in
    match Previous e with Some p => require (valid_previous e p) "complete-pull Jira relocation predecessor is invalid" | None => Ok tt end
  else Err "complete-pull journal service is invalid"%string.
(** What a checkpoint selects: a page id, or a stable Jira identity. *)
Definition selected_identity (service : text) (e : CompletePullJournalEntry) : text := if eqt service Jira then Identity e else sID (State e).

(** ** Checkpoints and journals (complete_pull.go) *)

Definition maxCompletePullCheckpointIDs : Z := 1000000.
Definition maxCompletePullJournalEntries : nat := 25.
Definition zlength {A} (l : list A) : Z := Z.of_nat (length l).
Fixpoint distinct_loop (seen ids : list text) : checked unit :=
  match ids with
  | [] => Ok tt
  | id :: ids =>
      let! _ := require ((length id <=? maxCompletePullIDBytes)%nat && positiveDecimalIdentity id) "complete-pull checkpoint contains an invalid identity" in
      let! _ := require (negb (bool_decide (id ∈ seen))) "complete-pull checkpoint contains duplicate identity" in
      distinct_loop (id :: seen) ids
  end.
Definition validateCompletePullCheckpoint (c : CompletePullCheckpoint) (selector : text) : checked unit :=
  let! _ := require (cSchema c =? completePullCheckpointSchema) "unsupported complete-pull checkpoint schema" in
  let! _ := require (validCompletePullService (cService c) && eqt (cSelector c) selector && validSHA256 (cOptions c) && validSHA256 (cSelection c)) "complete-pull checkpoint identity is invalid" in
  let! _ := require (zlength (IDs c) <=? maxCompletePullCheckpointIDs) "complete-pull checkpoint exceeds its identities" in
  let! _ := require (negb ((NextIndex c <? 0) || (zlength (IDs c) <? NextIndex c))) "complete-pull checkpoint progress is outside its selection" in
  distinct_loop [] (IDs c).
Definition id_at (c : CompletePullCheckpoint) (i : Z) : option text := if i <? 0 then None else IDs c !! Z.to_nat i.

Fixpoint entries_loop (c : CompletePullCheckpoint) (j : completePullJournal) (i : Z) (seen : list text) (es : list CompletePullJournalEntry) : checked unit :=
  match es with
  | [] => Ok tt
  | e :: es =>
      let! _ := validateCompletePullJournalEntry (cService c) e in
      let! _ := validateEntrySchema (jService j) (jSchema j) e in
      let! _ := require (bool_decide (id_at c (StartIndex j + i) = Some (selected_identity (cService c) e))) "complete-pull journal contains a gap or unrequested identity" in
      let! _ := require (negb (bool_decide (sID (State e) ∈ seen))) "complete-pull journal contains duplicate identity" in
      entries_loop c j (i + 1) (sID (State e) :: seen) es
  end.
Definition journal_end (j : completePullJournal) : Z := StartIndex j + zlength (Entries j).
Definition validateCompletePullJournal (j : completePullJournal) (c : CompletePullCheckpoint) : checked unit :=
  let! _ := require (validCompletePullService (jService j) && validCompletePullJournalSchema (jService j) (jSchema j)) "unsupported complete-pull journal schema" in
  let! _ := require (eqt (jService j) (cService c) && eqt (jSelector j) (cSelector c) && eqt (jOptions j) (cOptions c) && eqt (jSelection j) (cSelection c))
                    "complete-pull journal binding does not match its immutable selection" in
  let! _ := require (validCompletePullWriteToken (jWriteToken j) && validCompletePullTempName (completePullJournalTemp (jWriteToken j)) &&
                     validCompletePullTempName (completePullSidecarTemp (jWriteToken j)) && validCompletePullTempName (completePullProgressTemp (jWriteToken j)))
                    "complete-pull journal write ownership is invalid" in
  let! _ := require (negb (length (Entries j) =? 0)%nat && (length (Entries j) <=? maxCompletePullJournalEntries)%nat && (0 <=? StartIndex j) && (journal_end j <=? zlength (IDs c)))
                    "complete-pull journal range is outside its bounded selection" in
  entries_loop c j 0 [] (Entries j).

(** ** Progress (complete_pull_progress.go) *)

Definition no_service : text := [].
Definition completePullProgressSchemaFor (service : text) : Z := if eqt service Jira then completePullJiraProgressSchema else completePullConfluenceProgressSchema.
Definition completePullProgressSchemaForCheckpoint (service : text) (i : IncludeProgress) : Z :=
  if eqt service Confluence && negb (bool_decide (Attachments i = no_aggregate)) then completePullConfluenceProgressSchema4 else completePullProgressSchemaFor service.
Definition validCompletePullProgressService (checkpoint progress : text) : bool := eqt checkpoint progress && validCompletePullService checkpoint.
Definition staleCompletePullProgressService (checkpoint : text) (p : completePullProgress) : bool :=
  (eqt checkpoint Jira && (rSchema p =? 1) && eqt (rService p) no_service) || (eqt checkpoint Jira && one_of (rSchema p) [3; 4] && eqt (rService p) Confluence) ||
  (eqt checkpoint Confluence && (rSchema p =? 2) && eqt (rService p) Jira).
(** Without usable progress a selection starts again from its first identity. *)
Definition restart (c : CompletePullCheckpoint) : CompletePullCheckpoint := if eqt (cService c) Confluence then set_includes (set_evidence true (cIncludes c)) c else c.
Definition applyCompletePullProgress (c : CompletePullCheckpoint) (p : completePullProgress) : checked CompletePullCheckpoint :=
  if staleCompletePullProgressService (cService c) p then Ok (restart c)
  else
    let legacy := eqt (cService c) Confluence && (rSchema p =? completePullProgressSchema) && eqt (rService p) no_service in
    let current := (eqt (cService c) Confluence && one_of (rSchema p) [3; 4] || eqt (cService c) Jira && (rSchema p =? completePullProgressSchemaFor (cService c))) &&
                   validCompletePullProgressService (cService c) (rService p) in
    let! _ := require (legacy || current) "unsupported complete-pull progress schema" in
    if negb (eqt (rSelector p) (cSelector c) && eqt (rOptions p) (cOptions c) && eqt (rSelection p) (cSelection c)) then Ok (restart c)
    else
      let! _ := require (negb ((rNextIndex p <? 0) || (zlength (IDs c) <? rNextIndex p))) "complete-pull progress is outside its selection" in
      let c := set_next (rNextIndex p) c in
      if eqt (cService c) Confluence then
        if legacy then Ok (set_includes (set_evidence (rNextIndex p =? 0) (cIncludes c)) c)
        else
          match rIncludes p with
          | None => Err "current Confluence complete-pull progress omits include evidence"%string
          | Some i =>
              let! _ := validateCompletePullIncludeProgressSchema (rSchema p) i (NextIndex c) in
              Ok (set_includes (if (NextIndex c =? 0) && bool_decide (i = no_includes) then set_evidence true i else i) c)
          end
      else match rIncludes p with Some _ => Err "Jira complete-pull progress contains Confluence include evidence"%string | None => Ok c end.
End PullTypes.
