(* ===== verification/PullDisk.v ===== *)
(** * The directory tree of a mirror under faults (internal/safepath/safepath.go)

    A disk keeps, for every directory, its entries and the older versions of
    the entries that a loss of power may bring back: what is not synced yet.
    Updates of one directory reach the disk in order; different directories are
    independent.  An operation takes a step of the environment, which may make
    it fail or stop the process. *)

From stdpp Require Import pretty.
From S2P Require Import Prelude GoText Identifiers PullTypes.
Import GoText Identifiers PullTypes.

Module PullDisk.
Local Open Scope Z_scope.
Local Open Scope atl_scope.

(** ** Directories *)

(** A path below the root of the mirror, by its components; [[]] is the root. *)
Abbreviation path := (list text).
Definition parent (p : path) : path := removelast p.
Definition leaf (p : path) : text := List.last p [].
Definition child (dir : path) (name : text) : path := dir ++ [name].
(** The directories above a path and below the root, the outermost first. *)
Definition ancestors (p : path) : list path := map (λ k, take k p) (seq 1 (length p - 1)).

Inductive node := File (data : text) (perm : Z) | Dir (perm : Z).
#[export] Instance node_eq : EqDecision node. Proof. solve_decision. Defined.
Definition text_eq : EqDecision text := _.
Definition text_countable : Countable text := _.
Definition path_eq : EqDecision path := _.
Definition path_countable : Countable path := _.
Abbreviation entries := (@gmap text text_eq text_countable node).
(** The entries now, and the unsynced older versions. *)
Record folder := { now : entries; older : list entries }.
Abbreviation disk := (@gmap path path_eq path_countable folder).
Definition empty_folder : folder := {| now := ∅; older := [] |}.
Definition folder_at (d : disk) (dir : path) : folder := default empty_folder (d !! dir).
Definition listing (d : disk) (dir : path) : entries := now (folder_at d dir).
Definition versions (d : disk) (dir : path) : list entries := listing d dir :: older (folder_at d dir).
Definition look (d : disk) (p : path) : option node := listing d (parent p) !! leaf p.
Definition change (dir : path) (f : entries → entries) (d : disk) : disk := <[dir := {| now := f (listing d dir); older := versions d dir |}]> d.
Definition set_entry (name : text) (v : option node) (es : entries) : entries := partial_alter (λ _, v) name es.
Definition put (p : path) (v : option node) (d : disk) : disk := change (parent p) (set_entry (leaf p) v) d.
Definition flush (dir : path) (d : disk) : disk := <[dir := {| now := listing d dir; older := [] |}]> d.

Definition is_dir (v : option node) : bool := match v with Some (Dir _) => true | _ => false end.
Definition exists_dir (d : disk) (dir : path) : bool := bool_decide (dir = []) || is_dir (look d dir).

(** A loss of power leaves some version of every directory; what lay in a
    directory that is gone is gone. *)
Definition alive (kept : path → entries) (dir : path) : Prop := ∀ a, a ∈ ancestors dir ++ [dir] → a ≠ [] → is_dir (kept (parent a) !! leaf a) = true.
Definition power_loss (d d' : disk) : Prop :=
  ∃ kept : path → entries, (∀ dir, kept dir ∈ versions d dir) ∧
    ∀ dir, (alive kept dir ∧ versions d' dir = [kept dir]) ∨ (¬ alive kept dir ∧ versions d' dir = [∅]).

(** ** Operations under faults *)

Inductive fault := Good | Bad | Kill.
(** The environment of a run: a fault per step, how much of a write gets
    through, and the random names of temporary files. *)
Record env := { fault_at : nat → fault; cut_at : nat → nat; random_at : nat → text }.
Inductive error := NotExist | Exists | Broken | CheckFailed (why : string).
#[export] Instance error_eq : EqDecision error. Proof. solve_decision. Defined.
Inductive outcome (A : Type) := Done (a : A) | Failed (e : error) | Killed.
Arguments Done {A} a.
Arguments Failed {A} e.
Arguments Killed {A}.
Record world := { dsk : disk; tick : nat }.
Definition M (A : Type) : Type := env → world → world * outcome A.

#[export] Instance M_ret : MRet M := λ A a η w, (w, Done a).
#[export] Instance M_bind : MBind M := λ A B k m η w,
  match m η w with (w', Done a) => k a η w' | (w', Failed e) => (w', Failed e) | (w', Killed) => (w', Killed) end.
Definition throw {A : Type} (e : error) : M A := λ η w, (w, Failed e).
Definition get : M disk := λ η w, (w, Done (dsk w)).
Definition lift {A : Type} (r : checked A) : M A := match r with Ok a => mret a | Err why => throw (CheckFailed why) end.
Definition check (c : bool) (why : string) : M unit := lift (require c why).
(** One step: what it does when all is well, and what is left of it otherwise. *)
Definition step {A : Type} (left_over : env → nat → disk → disk) (f : env → nat → disk → disk * outcome A) : M A := λ η w,
  match fault_at η (tick w) with
  | Good => let '(d, r) := f η (tick w) (dsk w) in ({| dsk := d; tick := S (tick w) |}, r)
  | Bad => ({| dsk := left_over η (tick w) (dsk w); tick := S (tick w) |}, Failed Broken)
  | Kill => ({| dsk := left_over η (tick w) (dsk w); tick := S (tick w) |}, Killed)
  end.
Definition prim {A : Type} (f : disk → disk * outcome A) : M A := step (λ _ _ d, d) (λ _ _ d, f d).
(** [defer] of a clean-up whose error is ignored. *)
Definition finally {A : Type} (m : M A) (c : M unit) : M A := λ η w,
  match m η w with
  | (w', Killed) => (w', Killed)
  | (w', r) => match c η w' with (w'', Killed) => (w'', Killed) | (w'', _) => (w'', r) end
  end.
(** A result or an error as a value. *)
Definition try {A : Type} (m : M A) : M (A + error) := λ η w,
  match m η w with (w', Done a) => (w', Done (inl a)) | (w', Failed e) => (w', Done (inr e)) | (w', Killed) => (w', Killed) end.
Definition each {A : Type} (f : A → M unit) : list A → M unit := fix go l := match l with [] => mret tt | x :: l => f x ;; go l end.

Definition name_le (a b : text * node) : Prop := text_ltb b.1 a.1 = false.
#[export] Instance name_le_dec : RelDecision name_le. Proof. intros a b. unfold name_le. apply _. Defined.

(** [StatWithin]; a path is a canonical one below the root. *)
Definition StatWithin (p : path) : M (option node) := prim (λ d, (d, Done (look d p))).
Definition ReadFileWithinLimit (p : path) (max : Z) : M text :=
  prim (λ d, (d, match look d p with
                 | Some (File data _) => if zlength data <=? max then Done data else Failed Broken
                 | Some (Dir _) => Failed Broken
                 | None => Failed NotExist
                 end)).
Definition ReadDirWithinLimit (dir : path) (max : nat) : M (list (text * node)) :=
  prim (λ d, (d, if negb (exists_dir d dir) then Failed NotExist
                 else let l := merge_sort name_le (map_to_list (listing d dir)) in
                      if (max <? length l)%nat then Failed Broken else Done l)).
Definition RemoveWithin (p : path) : M unit :=
  prim (λ d, match look d p with
             | None => (d, Failed NotExist)
             | Some (File _ _) => (put p None d, Done tt)
             | Some (Dir _) => if bool_decide (listing d p = ∅) then (put p None d, Done tt) else (d, Failed Broken)
             end).
Definition SyncDirectoryWithin (dir : path) : M unit :=
  prim (λ d, if exists_dir d dir then (flush dir d, Done tt) else (d, Failed NotExist)).
(** One directory of [MkdirAll]. *)
Definition mkdir (perm : Z) (dir : path) : M unit :=
  prim (λ d, match look d dir with
             | Some (Dir _) => (d, Done tt)
             | Some (File _ _) => (d, Failed Broken)
             | None => if exists_dir d (parent dir) then (put dir (Some (Dir perm)) d, Done tt) else (d, Failed NotExist)
             end).
Definition MkdirAllWithin (dir : path) (perm : Z) : M unit := match dir with [] => mret tt | _ => each (mkdir perm) (ancestors dir ++ [dir]) end.

(** A temporary file: created, written, given its mode, synced and renamed. *)
Definition create (p : path) (perm : Z) : M unit :=
  prim (λ d, if negb (exists_dir d (parent p)) then (d, Failed NotExist)
             else match look d p with Some _ => (d, Failed Exists) | None => (put p (Some (File [] perm)) d, Done tt) end).
Definition with_file (p : path) (f : text → Z → node) (d : disk) : disk :=
  match look d p with Some (File data perm) => put p (Some (f data perm)) d | _ => d end.
Definition write_data (p : path) (data : text) : M unit :=
  step (λ η t d, with_file p (λ _ perm, File (take (cut_at η t) data) perm) d)
       (λ η t d, (with_file p (λ _ perm, File data perm) (with_file p (λ _ perm, File (take (cut_at η t) data) perm) d), Done tt)).
Definition chmod (p : path) (perm : Z) : M unit := prim (λ d, (with_file p (λ data _, File data perm) d, Done tt)).
Definition sync_file : M unit := prim (λ d, (d, Done tt)).
Definition close_file : M unit := prim (λ d, (d, Done tt)).
(** Within one directory; a directory is not replaced. *)
Definition rename (dir : path) (from to_ : text) : M unit :=
  prim (λ d, match listing d dir !! from with
             | Some n => if is_dir (listing d dir !! to_) then (d, Failed Broken)
                         else (change dir (λ es, <[to_ := n]> (delete from es)) d, Done tt)
             | None => (d, Failed NotExist)
             end).
Definition fill_and_rename (dir : path) (temp base data : text) (perm : Z) : M unit :=
  let p := child dir temp in
  finally (write_data p data ;; chmod p perm ;; sync_file ;; close_file ;; rename dir temp base) (RemoveWithin p).

Definition WriteFileOwnedAtomicWithin (target : path) (tempBase data : text) (perm : Z) : M unit :=
  if eqt tempBase [] || eqt tempBase (txt ".") || eqt tempBase (txt "..") || (128 <? length tempBase)%nat || eqt tempBase (leaf target) ||
     contains_any tempBase [slash; "\"%char; ":"%char] || existsb control tempBase then throw Broken
  else create (child (parent target) tempBase) 384 ;; fill_and_rename (parent target) tempBase (leaf target) data perm.

(** [createRootTemp]: up to a hundred random names. *)
Definition random_name : M text := step (λ _ _ d, d) (λ η t d, (d, Done (txt ".tmp-" ++ random_at η t))).
Fixpoint createRootTemp (tries : nat) (dir : path) (perm : Z) : M text :=
  match tries with
  | O => throw Broken
  | S tries =>
      name ← random_name;
      r ← try (create (child dir name) perm);
      match r with inl _ => mret name | inr Exists => createRootTemp tries dir perm | inr e => throw e end
  end.
Definition WriteFileWithin (target : path) (data : text) (perm : Z) : M unit :=
  temp ← createRootTemp 100 (parent target) perm;
  fill_and_rename (parent target) temp (leaf target) data perm.
(** A missing file does not stop a removal. *)
Definition remove_if_exists (p : path) : M unit :=
  r ← try (RemoveWithin p);
  match r with inl _ | inr NotExist => mret tt | inr e => throw e end.
End PullDisk.
