(* ===== verification/PullIntent.v ===== *)
(** * Publication intents of a complete pull (internal/mirror:
    complete_pull_publication.go, complete_pull_service.go)

    One page is published by an intent: the files it replaces or removes, with
    what each held before and holds after, staged payloads and the progress so
    far. *)

From stdpp Require Import pretty.
From S2P Require Import Prelude GoText Identifiers PullTypes PullDisk.
Import GoText Identifiers PullTypes PullDisk.

Module PullIntent.
Local Open Scope Z_scope.
Local Open Scope atl_scope.

(** ** Records *)

Record PreState := { Present : bool; preSHA256 : text; preMode : Z }.
#[export] Instance PreState_eq : EqDecision PreState. Proof. solve_decision. Defined.
Definition absent : PreState := {| Present := false; preSHA256 := []; preMode := 0 |}.
Record Artifact := { Path : text; Role : text; Pre : PreState; PreSize : option Z; Remove : bool; BestEffort : bool; Payload : text; SHA256 : text; Size : Z; Mode : Z; Temp : text }.
#[export] Instance Artifact_eq : EqDecision Artifact. Proof. solve_decision. Defined.
Record Relocation_ := { relArtifacts : list Artifact; relNext : Z }.
#[export] Instance Relocation_eq : EqDecision Relocation_. Proof. solve_decision. Defined.
Record Intent := { SchemaVersion : Z; Service : text; Selector : text; Options : text; Selection : text; Index : Z; Entry : CompletePullJournalEntry; Eligible : bool;
  Artifacts : list Artifact; Next : Z; StatePublished : bool; Relocation : option Relocation_; Committed : bool; WriteToken : text }.
#[export] Instance Intent_eq : EqDecision Intent. Proof. solve_decision. Defined.
(** The progress of an intent. *)
Definition progress_to (next : Z) (published : bool) (rel : option Relocation_) (committed : bool) (i : Intent) : Intent :=
  {| SchemaVersion := SchemaVersion i; Service := Service i; Selector := Selector i; Options := Options i; Selection := Selection i; Index := Index i; Entry := Entry i;
     Eligible := Eligible i; Artifacts := Artifacts i; Next := next; StatePublished := published; Relocation := rel; Committed := committed; WriteToken := WriteToken i |}.
(** What a caller asks to publish. *)
Record Input := { inPath : ArtifactPath; inRole : text; inData : text; inMode : Z; inRemove : bool; inBestEffort : bool; expectedPre : option PreState; expectedPreSize : option Z }.

Definition maxArtifacts : nat := 2048.
Definition maxBytes : Z := 268435456.
Definition maxIntentBytes : Z := 16777216.
Definition mode0600 : Z := 384.
Definition mode0644 : Z := 420.
Definition mode0700 : Z := 448.
Definition mode0755 : Z := 493.
Definition permission (mode : Z) : bool := (0 <? mode) && (mode <=? 511).

Definition RoleNative : text := txt "native".
Definition RoleMetadata : text := txt "metadata".
Definition RoleView : text := txt "view".
Definition RoleBase : text := txt "base".
Definition RoleAuxiliary : text := txt "auxiliary".

(** ** Roles (complete_pull_service.go) *)

Definition confluenceCompletePullBasePath (e : CompletePullJournalEntry) : text := clean (txt ".atl/base/" ++ sID (State e) ++ txt ".csf").
Definition is_public (q : ArtifactPath) : bool := bool_decide (class q = artifactPathClassPublic).
Definition is_private (q : ArtifactPath) : bool := bool_decide (class q = artifactPathClassPrivateBase).
Definition wiki_base (id : text) : text := clean (txt ".atl/base/" ++ id ++ txt ".wiki").
(** A removal that retires the files of a relocated issue. *)
Definition valid_retirement (previous : SyncState) (q : ArtifactPath) (role : text) : bool :=
  let rel := value q in
  let stem := trim_suffix (sPath previous) (txt ".wiki") in
  if eqt role RoleNative then eqt rel (sPath previous) && is_public q
  else if eqt role RoleMetadata then eqt rel (stem ++ txt ".json") && is_public q
  else if eqt role RoleView then eqt rel (stem ++ txt ".md") && is_public q
  else if eqt role RoleBase then eqt rel (wiki_base (sID previous)) && is_private q
  else eqt role RoleAuxiliary && is_public q &&
       (eqt rel (stem ++ txt ".epic-children.json") || eqt rel (stem ++ txt ".comments.json") || eqt rel (stem ++ txt ".attachments.json") ||
        has_prefix rel (stem ++ txt ".assets/") || has_prefix rel (stem ++ txt ".attachments/")).
(** A file of the issue that is written, or an auxiliary one that is removed. *)
Definition valid_written (state : SyncState) (q : ArtifactPath) (role : text) (mode : Z) (remove bestEffort : bool) : bool :=
  let rel := value q in
  let stem := trim_suffix (sPath state) (txt ".wiki") in
  let writable path (c : bool) wantMode wantBest := eqt rel path && c && negb remove && (mode =? wantMode) && Bool.eqb bestEffort wantBest in
  if eqt role RoleNative then writable (sPath state) (is_public q) mode0644 false
  else if eqt role RoleMetadata then writable (stem ++ txt ".json") (is_public q) mode0644 false
  else if eqt role RoleView then writable (stem ++ txt ".md") (is_public q) mode0644 true
  else if eqt role RoleBase then writable (wiki_base (sID state)) (is_private q) mode0600 false
  else if eqt role RoleAuxiliary then
    if eqt rel (stem ++ txt ".epic-children.json") && is_public q && negb bestEffort then mode =? (if remove then 0 else mode0644)
    else if has_prefix rel (stem ++ txt ".assets/") && is_public q && negb remove && negb bestEffort && (mode =? mode0644) then true
    else if (eqt rel (stem ++ txt ".comments.json") || eqt rel (stem ++ txt ".attachments.json")) && writable rel (is_public q) mode0600 false then true
    else has_prefix rel (stem ++ txt ".attachments/") && is_public q && negb remove && negb bestEffort && (mode =? mode0600)
  else false.
Definition validateCompletePullArtifactRole (service : text) (e : CompletePullJournalEntry) (q : ArtifactPath) (role : text) (mode : Z) (remove bestEffort : bool) : checked unit :=
  if eqt service Confluence then
    let! _ := require (eqt role []) "legacy Confluence publication cannot persist an artifact role" in
    require (negb (is_private q) || (eqt (value q) (confluenceCompletePullBasePath e) && (mode =? mode0600) && negb remove && negb bestEffort))
      "confluence pristine-base artifact does not match the accepted page identity"
  else if negb (eqt service Jira) then Err "unknown publication service"%string
  else
    let stem := trim_suffix (sPath (State e)) (txt ".wiki") in
    let rel := value q in
    match remove, Previous e with
    | true, Some p => require ((mode =? 0) && negb bestEffort && valid_retirement (pState p) q role) "invalid Jira relocation retirement artifact"
    | _, _ =>
        if remove && eqt role RoleAuxiliary && is_public q && (mode =? 0) && negb bestEffort &&
           (eqt rel (stem ++ txt ".comments.json") || eqt rel (stem ++ txt ".attachments.json") || has_prefix rel (stem ++ txt ".attachments/"))
        then Ok tt
        else require (valid_written (State e) q role mode remove bestEffort) "invalid Jira artifact"
    end.
Definition role_count (role : text) (roles : list text) : nat := length (List.filter (eqt role) roles).
Definition validateJiraArtifactRoleCounts (roles : list text) : checked unit :=
  require (forallb (λ r, role_count r roles =? 1)%nat [RoleNative; RoleMetadata; RoleView; RoleBase]) "jira publication requires exactly one of each artifact".

(** The native file and its pristine base hold the accepted body. *)
Definition holds_body (e : CompletePullJournalEntry) (path : text) (mode : Z) (a : Artifact) : bool :=
  negb (eqt (Path a) path) || (negb (Remove a) && negb (BestEffort a) && (Mode a =? mode) && eqt (SHA256 a) (sHash (State e))).
Definition validateConfluenceCompletePullIntent (e : CompletePullJournalEntry) (artifacts : list Artifact) : checked unit :=
  let native := sPath (State e) in
  let base := confluenceCompletePullBasePath e in
  let! _ := require (forallb (λ a, if eqt (Path a) native then holds_body e native mode0644 a else holds_body e base mode0600 a) artifacts) "confluence artifact does not match the accepted page state" in
  let at_ path := length (List.filter (λ a, eqt (Path a) path) artifacts) in
  require ((at_ native =? 1)%nat && (if eqt native base then false else at_ base =? 1)%nat) "confluence publication requires exactly one native and pristine-base artifact".

(** ** Artifacts *)

(** What an artifact declares, without looking at its payload. *)
Definition declared (service : text) (e : CompletePullJournalEntry) (a : Artifact) (allowPrivate : bool) (token : text) (writeIndex : nat) : checked unit :=
  let! q := parseDurableArtifactPath (Path a) in
  let! _ := require (allowPrivate || negb (is_private q)) "publication path targets reserved private state" in
  let! _ := validateCompletePullArtifactRole service e q (Role a) (Mode a) (Remove a) (BestEffort a) in
  let! _ := (if Present (Pre a) then require (validSHA256 (preSHA256 (Pre a)) && permission (preMode (Pre a))) "invalid publication pre-image"
             else require (eqt (preSHA256 (Pre a)) [] && (preMode (Pre a) =? 0)) "absent publication pre-image has a hash") in
  let! _ := (match PreSize a with Some n => require (Present (Pre a) && (0 <=? n) && (n <=? maxBytes)) "invalid bounded publication pre-image" | None => Ok tt end) in
  if Remove a then
    require (negb (BestEffort a) && eqt (Payload a) [] && eqt (SHA256 a) [] && (Size a =? 0) && (Mode a =? 0) && eqt (Temp a) []) "invalid publication removal"
  else
    let! _ := require (negb (eqt (Payload a) []) && negb (contains_any (Payload a) [slash; "\"%char; ":"%char; nul])) "invalid publication payload name" in
    let! _ := require (validSHA256 (SHA256 a) && (0 <=? Size a) && (Size a <=? maxBytes)) "invalid publication payload identity" in
    let! _ := require (permission (Mode a)) "invalid publication artifact mode" in
    require (eqt (Temp a) (completePullArtifactTemp token writeIndex) && validCompletePullTempName (Temp a)) "invalid publication temporary-file ownership".

(** ** Intents without their payloads *)

Definition keeps_preimages (i : Intent) : bool := (SchemaVersion i =? 7) || (eqt (Service i) Jira && one_of (SchemaVersion i) [5; 6]).
Fixpoint artifacts_loop (i : Intent) (writeIndex : nat) (seen : list text) (l : list Artifact) : checked unit :=
  match l with
  | [] => Ok tt
  | a :: l =>
      let! _ := require (negb (bool_decide (is_Some (PreSize a)) && negb (keeps_preimages i))) "bounded publication pre-image requires a current publication schema" in
      let! _ := require (negb (keeps_preimages i && Present (Pre a) && negb (bool_decide (is_Some (PreSize a))))) "current publication artifact omits its bounded pre-image" in
      let! _ := declared (Service i) (Entry i) a true (WriteToken i) writeIndex in
      let key := registrationPathKey (Path a) in
      let! _ := require (negb (bool_decide (key ∈ seen))) "duplicate publication destination" in
      artifacts_loop i (if Remove a then writeIndex else S writeIndex) (key :: seen) l
  end.
Definition relocated (i : Intent) : list Artifact := match Relocation i with Some r => relArtifacts r | None => [] end.
Definition all_artifacts (i : Intent) : list Artifact := Artifacts i ++ relocated i.
Definition staged_bytes (i : Intent) : Z := foldr (λ a n, Size a + n) 0 (all_artifacts i).
Definition temp_names (i : Intent) : list text :=
  [completePullJournalTemp (WriteToken i); completePullSidecarTemp (WriteToken i); completePullProgressTemp (WriteToken i)] ++ map Temp (List.filter (λ a, negb (Remove a)) (all_artifacts i)).
Definition bound_to (i : Intent) (c : CompletePullCheckpoint) : bool :=
  validCompletePullService (Service i) && validCompletePullPublicationSchema (Service i) (SchemaVersion i) && eqt (Service i) (cService c) && eqt (Selector i) (cSelector c) &&
  eqt (Options i) (cOptions c) && eqt (Selection i) (cSelection c).
Definition between (lo n hi : Z) : bool := (lo <=? n) && (n <=? hi).
Definition relocation_fits (i : Intent) : checked unit :=
  match Relocation i with
  | None => Ok tt
  | Some r =>
      let! _ := require (negb (eqt (Service i) Confluence && bool_decide (is_Some (Previous (Entry i)))) && negb (eqt (Service i) Jira && negb (bool_decide (is_Some (Previous (Entry i))))))
                        "complete-pull relocation does not match its service-specific predecessor" in
      require (between 0 (relNext r) (zlength (relArtifacts r))) "complete-pull relocation progress is invalid"
  end.
Definition finished (i : Intent) : bool := (Next i =? zlength (Artifacts i)) && match Relocation i with Some r => relNext r =? zlength (relArtifacts r) | None => true end.
Definition validate_declared (i : Intent) (c : CompletePullCheckpoint) : checked unit :=
  let! _ := require (bound_to i c) "complete-pull publication binding is invalid" in
  let! _ := validateEntrySchema (Service i) (SchemaVersion i) (Entry i) in
  let! _ := require ((NextIndex c <=? Index i) && (Index i <? zlength (IDs c))) "complete-pull publication index is outside the pending selection" in
  let! _ := require (bool_decide (id_at c (Index i) = Some (selected_identity (Service i) (Entry i)))) "complete-pull publication identity is outside the pending selection" in
  let! _ := require (validCompletePullWriteToken (WriteToken i)) "complete-pull publication write token is invalid" in
  let! _ := validateCompletePullJournalEntry (Service i) (Entry i) in
  let! _ := relocation_fits i in
  let count := length (all_artifacts i) in
  let! _ := require (negb (count =? 0)%nat && (count <=? maxArtifacts)%nat && between 0 (Next i) (zlength (Artifacts i))) "complete-pull publication artifact bounds are invalid" in
  let! _ := artifacts_loop i 0 [] (all_artifacts i) in
  let! _ := (if eqt (Service i) Confluence then validateConfluenceCompletePullIntent (Entry i) (Artifacts i) else validateJiraArtifactRoleCounts (map Role (Artifacts i))) in
  let! _ := require (staged_bytes i <=? maxBytes) "complete-pull publication exceeds its staged bytes" in
  let! _ := require ((length (temp_names i) <=? maxArtifacts + 3)%nat && (length (concat (temp_names i)) <=? (maxArtifacts + 3) * maxCompletePullTempName)%nat)
                    "complete-pull publication temporary-file declarations exceed their bound" in
  require (negb (Committed i) || finished i) "committed complete-pull publication has unfinished artifacts".
End PullIntent.
