(* ===== verification/PullStore.v ===== *)
(** * Publishing and recovering a complete pull (internal/mirror:
    complete_pull_publication.go, complete_pull_publication_verify.go,
    complete_pull_owned.go, complete_pull.go, sidecar.go)

    A page is staged and its intent stored, then the intent is carried out file
    by file; the sidecar and the journal of accepted pages follow, and the
    checkpoint advances when a journal is folded into it. *)

From stdpp Require Import pretty.
From S2P Require Import Prelude GoText Identifiers PullTypes PullDisk PullIntent.
Import GoText Identifiers PullTypes PullDisk PullIntent.

Module PullStore.
Local Open Scope Z_scope.
Local Open Scope atl_scope.

(** [json.MarshalIndent] and the strict decoder of a record. *)
Class PullJson (A : Type) := { encodeIndent : A → text; decodeStrict : text → option A }.
Class PullJsonLaws (A : Type) `{PullJson A} (encodable : A → Prop) : Prop := {
  decode_encode v : encodable v → decodeStrict (encodeIndent v ++ ["010"%char]) = Some v
}.

(** ** Names *)

Definition atlDir : path := [txt ".atl"].
Definition completePullsDir : path := [txt ".atl"; txt "complete-pulls"].
Definition sidecarPath : path := child atlDir (txt "state.json").
Definition sidecarLockPath : path := child atlDir (txt "state.lock").
Definition selector_ok (selector : text) : M unit := check (validSHA256 selector) "complete-pull selector hash is not canonical SHA-256".
Definition completePullCheckpointPath (selector : text) : path := child completePullsDir (selector ++ txt ".json").
Definition completePullProgressPath (selector : text) : path := child completePullsDir (selector ++ txt ".progress.json").
Definition completePullJournalPath (selector : text) : path := child completePullsDir (selector ++ txt ".journal.json").
Definition completePullPublicationDir (selector : text) : path := child completePullsDir (selector ++ txt ".publish").
Definition intent_path (dir : path) : path := child dir (txt "intent.json").
(** Where an artifact's path leads. *)
Definition place (rel : text) : path := components rel.
Definition maxJournalBytes : Z := 262144.
Definition maxCheckpointBytes : Z := 67108864.
Definition maxProgressBytes : Z := 4096.

(** Sync the directories above a path, the innermost first. *)
Definition syncPublicationPath (p : path) : M unit := each SyncDirectoryWithin (reverse (ancestors p) ++ [[]]).

(** [readCompletePullFile]: a private regular file, or none. *)
Definition readCompletePullFile (p : path) (max : Z) : M (option text) :=
  info ← StatWithin p;
  match info with
  | None => mret None
  | Some (File data perm) =>
      check ((perm =? mode0600) && (zlength data <=? max)) "complete-pull state exceeds its bytes" ;;
      b ← ReadFileWithinLimit p max;
      after ← StatWithin p;
      check (bool_decide (after = Some (File b perm))) "complete-pull state changed while being read" ;;
      mret (Some b)
  | Some (Dir _) => throw (CheckFailed "complete-pull state exceeds its bytes")
  end.

(** ** Owned temporary files (complete_pull_owned.go) *)

Definition removeCompletePullOwnedResidue (target : path) (tempBase : text) (maxSize finalMode : Z) : M unit :=
  check (validCompletePullTempName tempBase && (0 <=? maxSize)) "invalid complete-pull temporary-file ownership" ;;
  let temp := child (parent target) tempBase in
  info ← StatWithin temp;
  match info with
  | None => mret tt
  | Some (File data perm) =>
      check (((perm =? mode0600) || (perm =? finalMode)) && (zlength data <=? maxSize)) "owned complete-pull residue has unsafe metadata; preserving it" ;;
      remove_if_exists temp ;; syncPublicationPath temp
  | Some (Dir _) => throw (CheckFailed "owned complete-pull residue has unsafe metadata; preserving it")
  end.
Definition writeCompletePullOwned (target : path) (tempBase data : text) (mode : Z) : M unit :=
  removeCompletePullOwnedResidue target tempBase (zlength data) mode ;; WriteFileOwnedAtomicWithin target tempBase data mode.

Section store.
(** The hexadecimal SHA-256 of a body. *)
Variable Hash : text → text.
Context `{!PullJson Intent, !PullJson completePullJournal, !PullJson CompletePullCheckpoint, !PullJson completePullProgress, !PullJson sidecarFile}.

(** ** The sidecar (sidecar.go) *)

Definition replace_backslash (s : text) : text := map (λ c, if decide (c = "\"%char) then slash else c) s.
Definition parseDurablePublicStatePath (id : text) (state : SyncState) : checked ArtifactPath :=
  match NewPublicArtifactPath (sPath state) with
  | Ok q => Ok q
  | Err e =>
      if negb (contains_any (sPath state) ["\"%char]) || contains_any (sPath state) [slash] then Err e
      else
        let! q := NewPublicArtifactPath (replace_backslash (sPath state)) in
        let! _ := require (negb (eqt id []) && negb (eqt (sID state) []) && eqt id (sID state)) "legacy Windows state path does not match its sidecar identity" in
        let! _ := require (((sVersion state =? 0) && eqt (Segment (sID state)) (sID state) && eqt (ext (value q)) (txt ".wiki") && eqt (base_name (value q)) (sID state ++ txt ".wiki")) ||
                           ((0 <? sVersion state) && positiveDecimalIdentity (sID state) && eqt (ext (value q)) (txt ".csf"))) "legacy Windows state path does not match its resource identity" in
        Ok q
  end.
Definition with_path (p : text) (s : SyncState) : SyncState := {| sID := sID s; sIdentity := sIdentity s; sVersion := sVersion s; sHash := sHash s; sPath := p |}.
Definition page_state (id : text) (state : SyncState) : checked SyncState :=
  let! q := parseDurablePublicStatePath id state in
  let! _ := require (eqt (sIdentity state) [] || ((sVersion state =? 0) && eqt (ext (value q)) (txt ".wiki") && positiveDecimalIdentity (sIdentity state))) "resource has an invalid stable Jira identity" in
  Ok (with_path (value q) state).
Definition validateStagedState (key : text) (s : StagedState) : checked unit :=
  let! _ := require (negb (eqt key []) && negb (eqt (gID s) []) && eqt key (gID s)) "map identity does not match resource id" in
  let! _ := NewPublicArtifactPath (gPath s) in
  require (validSHA256 (gHash s) && validSHA256 (gBaseHash s)) "resource has invalid SHA-256 digest".
(** Every page is checked and normalized; no two share a Jira identity. *)
Fixpoint load_pages (seen : list text) (l : list (text * SyncState)) : checked (list (text * SyncState)) :=
  match l with
  | [] => Ok []
  | (id, s) :: l =>
      let! s := page_state id s in
      let! _ := require (eqt (sIdentity s) [] || negb (bool_decide (sIdentity s ∈ seen))) "resources share one stable Jira identity" in
      let! rest := load_pages (sIdentity s :: seen) l in
      Ok ((id, s) :: rest)
  end.
Definition normalize_sidecar (sc : sidecarFile) : checked sidecarFile :=
  let! pages := load_pages [] (map_to_list (Pages sc)) in
  let! _ := all_ok (λ p : text * StagedState, validateStagedState p.1 p.2) (map_to_list (Staged sc)) in
  Ok {| Pages := list_to_map pages; Views := Views sc; Staged := Staged sc |}.
Definition empty_sidecar : sidecarFile := {| Pages := ∅; Views := ∅; Staged := ∅ |}.
Definition loadSidecar : M sidecarFile :=
  info ← StatWithin sidecarPath;
  match info with
  | None => mret empty_sidecar
  | Some (File b _) => match decodeStrict b with Some sc => lift (normalize_sidecar sc) | None => throw (CheckFailed "corrupt mirror sidecar") end
  | Some (Dir _) => throw Broken
  end.
Definition lockSidecar : M unit :=
  MkdirAllWithin (parent sidecarPath) mode0755 ;;
  prim (λ d, match look d sidecarLockPath with
             | None => if exists_dir d (parent sidecarLockPath) then (put sidecarLockPath (Some (File [] mode0600)) d, Done tt) else (d, Failed NotExist)
             | Some (File _ _) => (d, Done tt)
             | Some (Dir _) => (d, Failed Broken)
             end).
Definition saveSidecarOwned (sc : sidecarFile) (tempBase : text) : M unit :=
  MkdirAllWithin (parent sidecarPath) mode0755 ;; writeCompletePullOwned sidecarPath tempBase (encodeIndent sc ++ ["010"%char]) mode0600.
Definition saveSidecar (sc : sidecarFile) : M unit :=
  MkdirAllWithin (parent sidecarPath) mode0755 ;; WriteFileWithin sidecarPath (encodeIndent sc ++ ["010"%char]) mode0600.

(** A patch of the sidecar: states and views to set, lineage to set or clear. *)
Fixpoint patch_staged (staged : gmap text StagedState) (l : list (text * option StagedState)) : checked (gmap text StagedState) :=
  match l with
  | [] => Ok staged
  | (id, None) :: l => patch_staged (delete id staged) l
  | (id, Some s) :: l => let! _ := validateStagedState id s in patch_staged (<[id := s]> staged) l
  end.
Definition patch_sidecar (pages : list (text * SyncState)) (views : list (text * ViewState)) (staged : list (text * option StagedState)) (sc : sidecarFile) : checked sidecarFile :=
  let! g := patch_staged (Staged sc) staged in
  Ok {| Pages := foldl (λ m '(id, s), <[id := s]> m) (Pages sc) pages; Views := foldl (λ m '(id, s), <[id := s]> m) (Views sc) views; Staged := g |}.
Definition mergeSidecarPatchWithOwnedTemp (pages : list (text * SyncState)) (views : list (text * ViewState)) (staged : list (text * option StagedState)) (tempBase : text) : M unit :=
  if (length pages =? 0)%nat && (length views =? 0)%nat && (length staged =? 0)%nat then mret tt
  else
    lockSidecar ;;
    sc ← loadSidecar;
    sc' ← lift (patch_sidecar pages views staged sc);
    if eqt tempBase [] then saveSidecar sc' else saveSidecarOwned sc' tempBase.
Definition mergeSidecarPatchOwned (pages : list (text * SyncState)) (views : list (text * ViewState)) (staged : list (text * option StagedState)) (tempBase : text) : M unit :=
  check (validCompletePullTempName tempBase) "invalid complete-pull sidecar temporary-file ownership" ;; mergeSidecarPatchWithOwnedTemp pages views staged tempBase.

(** A Jira entry replaces its predecessor, or finds that it already has. *)
Definition tracked_elsewhere (sc : sidecarFile) (e : CompletePullJournalEntry) : bool :=
  negb (eqt (sIdentity (State e)) []) &&
  existsb (λ p : text * SyncState, negb (eqt p.1 (sID (State e))) && match Previous e with Some q => negb (eqt p.1 (sID (pState q))) | None => true end &&
                                   eqt (sIdentity p.2) (sIdentity (State e))) (map_to_list (Pages sc)).
Definition relocate_entry (sc : sidecarFile) (e : CompletePullJournalEntry) (p : PreviousState) : checked sidecarFile :=
  let from := sID (pState p) in
  let to_ := sID (State e) in
  let unstaged id := negb (bool_decide (is_Some (Staged sc !! id))) in
  match Pages sc !! from with
  | Some old =>
      let! _ := require (bool_decide (old = pState p) && bool_decide (Views sc !! from = pView p) && unstaged from) "Jira relocation predecessor changed before sidecar replacement" in
      let! _ := require ((match Pages sc !! to_ with Some s => bool_decide (s = State e) | None => true end) && (match Views sc !! to_ with Some v => bool_decide (v = View e) | None => true end) && unstaged to_)
                        "Jira relocation target collides with another sidecar entry" in
      Ok {| Pages := delete from (Pages sc); Views := delete from (Views sc); Staged := delete from (Staged sc) |}
  | None =>
      let! _ := require (bool_decide (is_Some (Pages sc !! to_))) "Jira relocation predecessor disappeared before sidecar replacement" in
      let! _ := require (bool_decide (Pages sc !! to_ = Some (State e)) && bool_decide (Views sc !! to_ = Some (View e)) && negb (bool_decide (is_Some (Views sc !! from))) && unstaged from && unstaged to_)
                        "Jira relocation sidecar matches neither its predecessor nor exact replacement" in
      Ok sc
  end.
Definition applyCompletePullEntry (sc : sidecarFile) (e : CompletePullJournalEntry) : checked sidecarFile :=
  let! _ := require (negb (tracked_elsewhere sc e)) "stable Jira identity is already tracked under another key" in
  let! sc := match Previous e with Some p => relocate_entry sc e p | None => Ok sc end in
  let id := sID (State e) in
  Ok {| Pages := <[id := State e]> (Pages sc); Views := <[id := View e]> (Views sc); Staged := delete id (Staged sc) |}.
Fixpoint apply_entries (sc : sidecarFile) (es : list CompletePullJournalEntry) : checked sidecarFile :=
  match es with [] => Ok sc | e :: es => let! sc := applyCompletePullEntry sc e in apply_entries sc es end.
Definition mergeCompletePullEntriesOwned (es : list CompletePullJournalEntry) (tempBase : text) : M unit :=
  check (negb (length es =? 0)%nat && validCompletePullTempName tempBase) "invalid complete-pull sidecar replacement" ;;
  lockSidecar ;;
  sc ← loadSidecar;
  sc' ← lift (apply_entries sc es);
  saveSidecarOwned sc' tempBase.
(** A Confluence page is tracked and no longer staged. *)
Definition merge_pages (es : list CompletePullJournalEntry) (tempBase : text) : M unit :=
  mergeSidecarPatchOwned (map (λ e, (sID (State e), State e)) es) (map (λ e, (sID (State e), View e)) es) (map (λ e, (sID (State e), None)) es) tempBase.

(** ** Destinations (complete_pull_publication.go) *)

Definition pre_of (data : text) (perm : Z) : PreState := {| Present := true; preSHA256 := Hash data; preMode := perm |}.
Definition publicationCurrentWithinLimit (rel : text) (maximum : Z) : M (PreState * Z) :=
  check ((0 <=? maximum) && (maximum <=? maxBytes)) "invalid bounded size" ;;
  info ← StatWithin (place rel);
  match info with
  | None => mret (absent, 0)
  | Some (File data perm) =>
      check (zlength data <=? maximum) "exceeds bounded preimage" ;;
      b ← ReadFileWithinLimit (place rel) (zlength data);
      after ← StatWithin (place rel);
      check (bool_decide (after = Some (File b perm))) "changed during bounded read" ;;
      mret (pre_of b perm, zlength b)
  | Some (Dir _) => throw (CheckFailed "exceeds bounded preimage")
  end.
(** A transition may find the file as it was or as it will be. *)
Definition transition_limit (a : Artifact) : Z :=
  let pre := match PreSize a with Some n => n | None => maxBytes end in
  if Remove a && Present (Pre a) && bool_decide (is_Some (PreSize a)) then pre
  else if Present (Pre a) then Z.max pre (Size a) else Size a.
Definition publicationCurrentForIntentTransition (a : Artifact) : M PreState :=
  r ← publicationCurrentWithinLimit (Path a) (transition_limit a); mret r.1.
Definition publicationCurrentForIntentPostcondition (a : Artifact) : M PreState :=
  r ← publicationCurrentWithinLimit (Path a) (if Remove a then 0 else Size a); mret r.1.
Definition publicationMatchesPre (current pre : PreState) : bool := bool_decide (current = pre).
Definition publicationMatchesPost (current : PreState) (a : Artifact) : bool :=
  if Remove a || (BestEffort a && negb (Present current)) then negb (Present current)
  else Present current && eqt (preSHA256 current) (SHA256 a) && (preMode current =? Mode a).

Definition savePublicationIntent (dir : path) (i : Intent) : M unit :=
  let b := encodeIndent i ++ ["010"%char] in
  check (zlength b <=? maxIntentBytes) "complete-pull publication intent exceeds its bytes" ;;
  WriteFileWithin (intent_path dir) b mode0600 ;;
  SyncDirectoryWithin dir.

(** ** Staging *)

Definition payload_name (sequence : nat) : text := txt "payload-" ++ pad4 sequence.
Definition stagePublicationArtifact (service : text) (dir : path) (input : Input) (sequence : nat) (token : text) (persistPreSize : bool) : M Artifact :=
  rel ← lift (relativeAny (inPath input));
  r ← publicationCurrentWithinLimit rel (match expectedPreSize input with Some n => if inRemove input then n else maxBytes | None => maxBytes end);
  let '(pre, preSize) := r in
  check (negb (Present pre && persistPreSize) || match expectedPreSize input with Some n => preSize =? n | None => true end) "complete-pull removal source changed after qualification" ;;
  let size := if Present pre && persistPreSize then Some preSize else None in
  let role := if eqt service Jira then inRole input else [] in
  if inRemove input then
    check (negb (inBestEffort input) && (zlength (inData input) =? 0) && (inMode input =? 0)) "invalid complete-pull removal" ;;
    check (match expectedPreSize input with Some n => between 0 n maxBytes | None => true end) "invalid complete-pull removal size" ;;
    check (match expectedPre input with
           | Some e => Present e && validSHA256 (preSHA256 e) && negb (preMode e =? 0) && Present pre && eqt (preSHA256 pre) (preSHA256 e) && (preMode pre =? preMode e)
           | None => true end) "complete-pull removal source changed after qualification" ;;
    mret {| Path := rel; Role := role; Pre := pre; PreSize := size; Remove := true; BestEffort := inBestEffort input; Payload := []; SHA256 := []; Size := 0; Mode := 0; Temp := [] |}
  else
    check (negb (bool_decide (is_Some (expectedPre input)))) "complete-pull write cannot bind a removal preimage" ;;
    check (permission (inMode input)) "invalid complete-pull mode" ;;
    WriteFileWithin (child dir (payload_name sequence)) (inData input) mode0600 ;;
    mret {| Path := rel; Role := role; Pre := pre; PreSize := size; Remove := false; BestEffort := inBestEffort input; Payload := payload_name sequence; SHA256 := Hash (inData input);
            Size := zlength (inData input); Mode := inMode input; Temp := completePullArtifactTemp token sequence |}.
Fixpoint stage_all (service : text) (dir : path) (inputs : list Input) (sequence : nat) (token : text) (persist : bool) : M (list Artifact * nat) :=
  match inputs with
  | [] => mret ([], sequence)
  | input :: inputs =>
      a ← stagePublicationArtifact service dir input sequence token persist;
      r ← stage_all service dir inputs (if Remove a then sequence else S sequence) token persist;
      mret (a :: r.1, r.2)
  end.

(** The staged payload of an artifact is there and unchanged. *)
Definition payload_there (dir : path) (a : Artifact) : M unit :=
  if Remove a then mret tt
  else
    info ← StatWithin (child dir (Payload a));
    check (match info with Some (File data perm) => (perm =? mode0600) && (zlength data =? Size a) | _ => false end) "publication payload is missing or has unsafe metadata" ;;
    b ← ReadFileWithinLimit (child dir (Payload a)) (Size a);
    check ((zlength b =? Size a) && eqt (Hash b) (SHA256 a)) "publication payload is missing or changed".
Definition validateCompletePullPublication (i : Intent) (c : CompletePullCheckpoint) (stage : option path) : M unit :=
  lift (validate_declared i c) ;; match stage with Some dir => each (payload_there dir) (all_artifacts i) | None => mret tt end.

(** What an interrupted staging may leave behind. *)
Definition completePullPublicationResidueName (name : text) : bool :=
  (has_prefix name (txt "payload-") && (length name =? 12)%nat && forallb is_digit (drop 8 name) &&
   (foldl (λ n c, n * 10 + (byte_val c - 48)) 0 (drop 8 name) <? Z.of_nat maxArtifacts)) ||
  (negb (has_prefix name (txt "payload-") && (length name =? 12)%nat) && has_prefix name (txt ".tmp-") && (length name =? 21)%nat && hex_decodes (drop 5 name)).
Definition completePullPublicationResidue (e : text * node) : option Z :=
  match e.2 with File data perm => if completePullPublicationResidueName e.1 && (perm =? mode0600) then Some (zlength data) else None | Dir _ => None end.
Fixpoint residue_bytes (total : Z) (es : list (text * node)) : checked unit :=
  match es with
  | [] => Ok tt
  | e :: es =>
      match completePullPublicationResidue e with
      | Some n => let! _ := require (n <=? maxBytes + maxIntentBytes - total) "publication stage contains unexpected evidence; preserving it" in residue_bytes (total + n) es
      | None => Err "publication stage has no intent and contains unexpected evidence; preserving it"%string
      end
  end.
Definition cleanupAbandonedCompletePullPublication (dir : path) (es : list (text * node)) : M unit :=
  check (length es <=? maxArtifacts + 1)%nat "publication stage without an intent exceeds its residue bound; preserving it" ;;
  lift (residue_bytes 0 es) ;;
  each (λ e : text * node, remove_if_exists (child dir e.1)) es ;;
  SyncDirectoryWithin dir ;;
  remove_if_exists dir ;;
  syncPublicationPath dir.

(** A zero schema stands for the current one. *)
Definition current_schema (c : CompletePullCheckpoint) : CompletePullCheckpoint := if cSchema c =? 0 then set_schema completePullCheckpointSchema c else c.
Definition readPublicationIntent (selector : text) (checkpoint : option CompletePullCheckpoint) : M (option Intent) :=
  selector_ok selector ;;
  let dir := completePullPublicationDir selector in
  info ← StatWithin dir;
  match info with
  | None => mret None
  | Some (File _ _) => throw (CheckFailed "complete-pull publication stage is unsafe")
  | Some (Dir perm) =>
      check (perm =? mode0700) "complete-pull publication stage is unsafe" ;;
      found ← readCompletePullFile (intent_path dir) maxIntentBytes;
      match found with
      | None =>
          es ← ReadDirWithinLimit dir (maxArtifacts + 1);
          match checkpoint with
          | None => throw (CheckFailed "complete-pull publication stage has no immutable selection; preserving it")
          | Some c => lift (validateCompletePullCheckpoint (current_schema c) selector) ;; cleanupAbandonedCompletePullPublication dir es ;; mret None
          end
      | Some b =>
          match checkpoint with
          | None => throw (CheckFailed "complete-pull publication intent has no immutable selection; preserving it")
          | Some c =>
              match decodeStrict b with
              | None => throw (CheckFailed "corrupt complete-pull state")
              | Some i => validateCompletePullPublication i (current_schema c) (if Committed i then None else Some dir) ;; mret (Some i)
              end
          end
      end
  end.

(** The checks of a request before anything is staged. [payloads_ok] stands for
    the checks of the contents of sidecar files (attachment and comment
    evidence), [evidence_of] for the Jira receipt they give. *)
Variable payloads_ok : CompletePullJournalEntry → list Input → bool.
Definition receipt_of (path : text) (inputs : list Input) : checked text :=
  match List.filter (λ a, eqt (value (inPath a)) path) inputs with
  | [] => Ok []
  | [a] => if inRemove a then Ok [] else let! _ := require (negb (inBestEffort a) && (inMode a =? mode0600)) "jira optional evidence sidecar is invalid" in Ok (Hash (inData a))
  | _ => Err "jira optional evidence sidecar is invalid"%string
  end.
Definition completePullJiraOptionalEvidenceFromArtifacts (e : CompletePullJournalEntry) (inputs : list Input) : checked JiraOptionalEvidence :=
  let! _ := require (negb (eqt (Identity e) []) && has_suffix (sPath (State e)) (txt ".wiki")) "jira optional evidence has an invalid parent identity" in
  let stem := trim_suffix (sPath (State e)) (txt ".wiki") in
  let! comments := receipt_of (stem ++ txt ".comments.json") inputs in
  let! attachments := receipt_of (stem ++ txt ".attachments.json") inputs in
  Ok {| CommentsSHA256 := comments; AttachmentsSHA256 := attachments |}.
Definition with_evidence (v : JiraOptionalEvidence) (e : CompletePullJournalEntry) : CompletePullJournalEntry :=
  {| Identity := Identity e; State := State e; View := View e; Previous := Previous e; Includes := Includes e; OptionalEvidence := Some v |}.
Definition input_holds (e : CompletePullJournalEntry) (path : text) (mode : Z) (a : Input) : bool :=
  negb (eqt (value (inPath a)) path) || (negb (inRemove a) && negb (inBestEffort a) && (inMode a =? mode) && eqt (Hash (inData a)) (sHash (State e))).
Definition validateConfluenceCompletePullPayloads (e : CompletePullJournalEntry) (inputs : list Input) : checked unit :=
  let native := sPath (State e) in
  let base := confluenceCompletePullBasePath e in
  let! _ := require (forallb (λ a, if eqt (value (inPath a)) native then input_holds e native mode0644 a else input_holds e base mode0600 a) inputs) "confluence artifact does not match the accepted page state" in
  let at_ path := length (List.filter (λ a, eqt (value (inPath a)) path) inputs) in
  let! _ := require ((at_ native =? 1)%nat && (if eqt native base then false else at_ base =? 1)%nat) "confluence publication requires exactly one native and pristine-base artifact" in
  require (payloads_ok e inputs) "complete-pull attachment evidence is unavailable".
Definition validateJiraCompletePullPayloads (e : CompletePullJournalEntry) (inputs : list Input) : checked unit :=
  let! _ := require (forallb (λ a, negb (eqt (inRole a) RoleNative || eqt (inRole a) RoleBase) || eqt (Hash (inData a)) (sHash (State e))) inputs) "jira payload does not match the accepted native hash" in
  require (payloads_ok e inputs) "jira payload does not match the accepted issue".
Definition input_bytes (inputs : list Input) : Z := foldr (λ a n, zlength (inData a) + n) 0 inputs.
Definition input_ok (service : text) (e : CompletePullJournalEntry) (a : Input) : checked unit :=
  let! rel := relativeAny (inPath a) in
  let! q := parseDurableArtifactPath rel in
  validateCompletePullArtifactRole service e q (inRole a) (inMode a) (inRemove a) (inBestEffort a).
(** The entry as it is stored, with the Jira receipt of its artifacts. *)
Definition accepted_entry (service : text) (e : CompletePullJournalEntry) (inputs : list Input) : checked CompletePullJournalEntry :=
  if eqt service Confluence then let! _ := validateConfluenceCompletePullPayloads e inputs in Ok e
  else
    let! _ := validateJiraArtifactRoleCounts (map inRole inputs) in
    let! _ := validateJiraCompletePullPayloads e inputs in
    if legacy_jira e then Ok e
    else
      let! v := completePullJiraOptionalEvidenceFromArtifacts e inputs in
      let! _ := require (match OptionalEvidence e with Some w => bool_decide (w = v) | None => true end) "Jira complete-pull optional evidence does not match staged artifacts" in
      Ok (with_evidence v e).
Definition request_ok (c : CompletePullCheckpoint) (index : Z) (e : CompletePullJournalEntry) (inputs retirement : list Input) : checked CompletePullJournalEntry :=
  let! _ := validateCompletePullCheckpoint c (cSelector c) in
  let! _ := validateCompletePullJournalEntry (cService c) e in
  let! _ := require ((NextIndex c <=? index) && (index <? zlength (IDs c)) && bool_decide (id_at c index = Some (selected_identity (cService c) e))) "complete-pull publication is not the next selected identity" in
  let count := (length inputs + length retirement)%nat in
  let! _ := require (negb (count =? 0)%nat && (count <=? maxArtifacts)%nat) "complete-pull publication exceeds its artifact bound" in
  let! _ := all_ok (input_ok (cService c) e) (inputs ++ retirement) in
  let! _ := require (input_bytes (inputs ++ retirement) <=? maxBytes) "complete-pull publication exceeds its staged bytes" in
  accepted_entry (cService c) e inputs.

(** Stage every payload, then store the intent. The retirement of a relocated
    page or issue is planned elsewhere and comes as further artifacts. *)
Definition prepareCompletePullPublication (checkpoint : CompletePullCheckpoint) (index : Z) (e : CompletePullJournalEntry) (eligible : bool) (inputs retirement : list Input) (token : text) : M unit :=
  let c := current_schema checkpoint in
  e ← lift (request_ok c index e inputs retirement);
  let dir := completePullPublicationDir (cSelector c) in
  existing ← readPublicationIntent (cSelector c) (Some c);
  check (negb (bool_decide (is_Some existing))) "recover the existing complete-pull publication before staging another page" ;;
  MkdirAllWithin dir mode0700 ;;
  info ← StatWithin dir;
  check (bool_decide (info = Some (Dir mode0700))) "complete-pull publication stage does not have mode 0700" ;;
  let schema := completePullPublicationSchemaForEntry (cService c) e in
  let persist := (schema =? 7) || (eqt (cService c) Jira && one_of schema [5; 6]) in
  r ← stage_all (cService c) dir inputs 0 token persist;
  r' ← stage_all (cService c) dir retirement r.2 token persist;
  let i := {| SchemaVersion := schema; Service := cService c; Selector := cSelector c; Options := cOptions c; Selection := cSelection c; Index := index; Entry := e; Eligible := eligible;
              Artifacts := r.1; Next := 0; StatePublished := false; Relocation := if (length retirement =? 0)%nat then None else Some {| relArtifacts := r'.1; relNext := 0 |};
              Committed := false; WriteToken := token |} in
  check ((length (all_artifacts i) <=? maxArtifacts)%nat && (staged_bytes i <=? maxBytes)) "complete-pull publication exceeds its artifact or byte bound" ;;
  SyncDirectoryWithin dir ;;
  validateCompletePullPublication i c (Some dir) ;;
  savePublicationIntent dir i ;;
  syncPublicationPath (intent_path dir).

(** ** Publication *)

Definition publishArtifact (dir : path) (a : Artifact) : M unit :=
  current ← publicationCurrentForIntentTransition a;
  if publicationMatchesPost current a && negb (publicationMatchesPre current (Pre a)) then
    (if Remove a then mret tt else removeCompletePullOwnedResidue (place (Path a)) (Temp a) (Size a) (Mode a)) ;;
    syncPublicationPath (place (Path a))
  else
    check (publicationMatchesPre current (Pre a)) "complete-pull destination matches neither its reviewed pre-image nor staged post-image; preserving it" ;;
    (if Remove a then (if Present current then remove_if_exists (place (Path a)) else mret tt)
     else
       payload ← ReadFileWithinLimit (child dir (Payload a)) (Size a);
       check ((zlength payload =? Size a) && eqt (Hash payload) (SHA256 a)) "complete-pull staged payload is missing or changed" ;;
       MkdirAllWithin (parent (place (Path a))) mode0755 ;;
       r ← try (writeCompletePullOwned (place (Path a)) (Temp a) payload (Mode a));
       match r with
       | inl _ => mret tt
       | inr e => if BestEffort a then remove_if_exists (place (Path a)) else throw e
       end) ;;
    syncPublicationPath (place (Path a)) ;;
    after ← publicationCurrentForIntentPostcondition a;
    check (publicationMatchesPost after a) "complete-pull destination did not reach its exact postcondition".

(** ** The journal of accepted pages (complete_pull.go) *)

Definition loadCompletePullJournal (selector : text) : M (option completePullJournal) :=
  selector_ok selector ;;
  found ← readCompletePullFile (completePullJournalPath selector) maxJournalBytes;
  match found with
  | None => mret None
  | Some b => match decodeStrict b with Some j => mret (Some j) | None => throw (CheckFailed "corrupt complete-pull state") end
  end.
Definition with_entries (es : list CompletePullJournalEntry) (j : completePullJournal) : completePullJournal :=
  {| jSchema := jSchema j; jService := jService j; jSelector := jSelector j; jOptions := jOptions j; jSelection := jSelection j; StartIndex := StartIndex j; Entries := es; jWriteToken := jWriteToken j |}.
Definition new_journal (c : CompletePullCheckpoint) (i : Intent) : completePullJournal :=
  {| jSchema := completePullJournalSchemaForPublication (cService c) (SchemaVersion i) (Entry i); jService := cService c; jSelector := cSelector c; jOptions := cOptions c;
     jSelection := cSelection c; StartIndex := Index i; Entries := []; jWriteToken := WriteToken i |}.
Definition appendCompletePullJournalOwned (checkpoint : CompletePullCheckpoint) (index : Z) (e : CompletePullJournalEntry) (ownerToken : text) : M unit :=
  let c := current_schema checkpoint in
  lift (validateCompletePullCheckpoint c (cSelector c)) ;;
  lift (validateCompletePullJournalEntry (cService c) e) ;;
  check ((NextIndex c <=? index) && (index <? zlength (IDs c)) && bool_decide (id_at c index = Some (selected_identity (cService c) e))) "complete-pull journal append is not the next requested identity" ;;
  found ← loadCompletePullJournal (cSelector c);
  journal ← match found with
            | Some j => lift (validateCompletePullJournal j c) ;; mret j
            | None =>
                surviving ← readPublicationIntent (cSelector c) (Some c);
                match surviving with
                | Some i =>
                    check ((Index i =? index) && eqt (WriteToken i) ownerToken && bool_decide (Entry i = e)) "first complete-pull journal write has no matching durable publication intent" ;;
                    check (index =? NextIndex c) "complete-pull journal must begin at durable checkpoint progress" ;;
                    mret (new_journal c i)
                | None => throw (CheckFailed "first complete-pull journal write has no matching durable publication intent")
                end
            end;
  check (journal_end journal =? index) "complete-pull journal append would create a gap or duplicate" ;;
  let journal := with_entries (Entries journal ++ [e]) journal in
  lift (validateCompletePullJournal journal c) ;;
  let b := encodeIndent journal ++ ["010"%char] in
  check (zlength b <=? maxJournalBytes) "complete-pull journal would exceed its bytes" ;;
  let path := completePullJournalPath (cSelector c) in
  MkdirAllWithin (parent path) mode0700 ;;
  writeCompletePullOwned path (completePullJournalTemp (jWriteToken journal)) b mode0600 ;;
  syncPublicationPath path.
(** The entry a journal holds for an index of the selection. *)
Definition entry_at (j : completePullJournal) (index : Z) : option CompletePullJournalEntry :=
  if StartIndex j <=? index then Entries j !! Z.to_nat (index - StartIndex j) else None.
Definition ensurePublicationJournalEntry (c : CompletePullCheckpoint) (i : Intent) : M unit :=
  found ← loadCompletePullJournal (cSelector c);
  match found with
  | Some j =>
      lift (validateCompletePullJournal j c) ;;
      match entry_at j (Index i) with
      | Some e => check (bool_decide (e = Entry i)) "accepted journal entry differs from surviving publication intent"
      | None => appendCompletePullJournalOwned c (Index i) (Entry i) (WriteToken i)
      end
  | None => appendCompletePullJournalOwned c (Index i) (Entry i) (WriteToken i)
  end.

(** ** Retiring an intent *)

(** The checks of attachment and comment evidence on disk, when an entry has any. *)
Variable attachments_there : CompletePullJournalEntry → M unit.
Variable jira_optional_there : CompletePullJournalEntry → M unit.
Definition verifyConfluenceCompletePullAttachmentArtifacts (e : CompletePullJournalEntry) : M unit :=
  if completePullEntryHasAttachmentEvidence e then attachments_there e else mret tt.
Definition verifyJiraCompletePullOptionalArtifacts (e : CompletePullJournalEntry) : M unit :=
  if positiveDecimalIdentity (Identity e) then jira_optional_there e else mret tt.
Definition verify_evidence (service : text) (e : CompletePullJournalEntry) : M unit :=
  if eqt service Confluence then verifyConfluenceCompletePullAttachmentArtifacts e else verifyJiraCompletePullOptionalArtifacts e.
Definition at_postcondition (a : Artifact) : M unit :=
  current ← publicationCurrentForIntentPostcondition a;
  check (publicationMatchesPost current a) "committed complete-pull artifact does not match its exact postcondition".
Definition verifyCommittedPublication (c : CompletePullCheckpoint) (i : Intent) : M unit :=
  each at_postcondition (Artifacts i) ;;
  (match Relocation i with
   | None => mret tt
   | Some r =>
       sc ← loadSidecar;
       check (bool_decide (Pages sc !! sID (State (Entry i)) = Some (State (Entry i)))) "committed complete-pull relocation has no exact canonical state" ;;
       sc ← loadSidecar;
       check (bool_decide (Views sc !! sID (State (Entry i)) = Some (View (Entry i)))) "committed complete-pull relocation has no exact view state" ;;
       (match Previous (Entry i) with
        | Some p => sc ← loadSidecar; check (negb (bool_decide (is_Some (Pages sc !! sID (pState p))))) "committed Jira relocation retained its old canonical sidecar key"
        | None => mret tt
        end) ;;
       each at_postcondition (relArtifacts r)
   end) ;;
  if Eligible i then
    found ← loadCompletePullJournal (cSelector c);
    match found with
    | None => throw (CheckFailed "committed complete-pull publication has no accepted journal evidence")
    | Some j =>
        lift (validateCompletePullJournal j c) ;;
        check (bool_decide (entry_at j (Index i) = Some (Entry i))) "committed complete-pull publication differs from accepted journal evidence" ;;
        verify_evidence (Service i) (Entry i)
    end
  else
    sc ← loadSidecar;
    check (bool_decide (Pages sc !! sID (State (Entry i)) = Some (State (Entry i)))) "committed ineligible complete-pull publication has no exact canonical state".

(** Payloads go first, the intent after them, then the stage. *)
Definition payloads (i : Intent) : list text := remove_dups (List.filter (λ p, negb (eqt p [])) (map Payload (all_artifacts i))).
Fixpoint stage_residue (allowed : list text) (es : list (text * node)) : checked (list text) :=
  match es with
  | [] => Ok []
  | e :: es =>
      if bool_decide (e.1 ∈ allowed) then stage_residue allowed es
      else
        let! _ := require (bool_decide (is_Some (completePullPublicationResidue e)) && has_prefix e.1 (txt ".tmp-")) "complete-pull publication stage contains unexpected evidence; preserving it" in
        let! rest := stage_residue allowed es in
        Ok (e.1 :: rest)
  end.
Definition cleanupCompletePullPublication (dir : path) (i : Intent) : M unit :=
  es ← ReadDirWithinLimit dir (maxArtifacts + 1);
  residue ← lift (stage_residue (txt "intent.json" :: payloads i) es);
  each (λ p, remove_if_exists (child dir p)) (payloads i) ;;
  each (λ name, remove_if_exists (child dir name)) residue ;;
  SyncDirectoryWithin dir ;;
  remove_if_exists (intent_path dir) ;;
  syncPublicationPath (intent_path dir) ;;
  remove_if_exists dir ;;
  syncPublicationPath dir.

(** ** Recovery *)

Fixpoint publish_from (dir : path) (i : Intent) (todo : list Artifact) : M Intent :=
  match todo with
  | [] => mret i
  | a :: todo =>
      publishArtifact dir a ;;
      let i := progress_to (Next i + 1) (StatePublished i) (Relocation i) (Committed i) i in
      savePublicationIntent dir i ;; publish_from dir i todo
  end.
Fixpoint relocate_from (dir : path) (i : Intent) (r : Relocation_) (todo : list Artifact) : M Intent :=
  match todo with
  | [] => mret i
  | a :: todo =>
      publishArtifact dir a ;;
      let r := {| relArtifacts := relArtifacts r; relNext := relNext r + 1 |} in
      let i := progress_to (Next i) (StatePublished i) (Some r) (Committed i) i in
      savePublicationIntent dir i ;; relocate_from dir i r todo
  end.
Definition merge_entry (service : text) (e : CompletePullJournalEntry) (token : text) : M unit :=
  if eqt service Jira then mergeCompletePullEntriesOwned [e] (completePullSidecarTemp token) else merge_pages [e] (completePullSidecarTemp token).
Definition publish_state (dir : path) (i : Intent) : M Intent :=
  if (bool_decide (is_Some (Relocation i)) || negb (Eligible i)) && negb (StatePublished i) then
    merge_entry (Service i) (Entry i) (WriteToken i) ;;
    SyncDirectoryWithin (parent sidecarPath) ;;
    let i := progress_to (Next i) true (Relocation i) (Committed i) i in
    savePublicationIntent dir i ;; mret i
  else mret i.
Definition accept (c : CompletePullCheckpoint) (dir : path) (i : Intent) : M unit :=
  if Eligible i then ensurePublicationJournalEntry c i ;; SyncDirectoryWithin (parent dir) else mret tt.
Definition recoverCompletePullPublication (selector : text) (checkpoint : option CompletePullCheckpoint) : M unit :=
  found ← readPublicationIntent selector checkpoint;
  match found, checkpoint with
  | Some i, Some c =>
      let dir := completePullPublicationDir selector in
      if Committed i then verifyCommittedPublication c i ;; cleanupCompletePullPublication dir i
      else
        i ← publish_from dir i (drop (Z.to_nat (Next i)) (Artifacts i));
        i ← publish_state dir i;
        i ← match Relocation i with Some r => relocate_from dir i r (drop (Z.to_nat (relNext r)) (relArtifacts r)) | None => mret i end;
        accept c dir i ;;
        let i := progress_to (Next i) (StatePublished i) (Relocation i) true i in
        savePublicationIntent dir i ;;
        cleanupCompletePullPublication dir i
  | _, _ => mret tt
  end.

(** ** Checkpoints (complete_pull.go) *)

Definition loadCompletePullSelection (selector : text) : M (option CompletePullCheckpoint) :=
  selector_ok selector ;;
  found ← readCompletePullFile (completePullCheckpointPath selector) maxCheckpointBytes;
  match found with
  | None => mret None
  | Some b =>
      match decodeStrict b with
      | None => throw (CheckFailed "corrupt complete-pull state")
      | Some c => lift (validateCompletePullCheckpoint c selector) ;; check (NextIndex c =? 0) "complete-pull selection manifest contains mutable progress" ;; mret (Some c)
      end
  end.
Definition loadCheckpoint (selector : text) : M (option CompletePullCheckpoint) :=
  selection ← loadCompletePullSelection selector;
  match selection with
  | None => mret None
  | Some c =>
      found ← readCompletePullFile (completePullProgressPath selector) maxProgressBytes;
      match found with
      | None => mret (Some (restart c))
      | Some b =>
          match decodeStrict b with
          | None => throw (CheckFailed "corrupt complete-pull state")
          | Some progress => c ← lift (applyCompletePullProgress c progress); mret (Some c)
          end
      end
  end.
Definition hasCompletePullPublicationStage (selector : text) : M bool :=
  selector_ok selector ;; info ← StatWithin (completePullPublicationDir selector); mret (bool_decide (is_Some info)).
Definition same_selection (a b : CompletePullCheckpoint) : bool :=
  eqt (cService a) (cService b) && eqt (cOptions a) (cOptions b) && eqt (cSelection a) (cSelection b) && bool_decide (IDs a = IDs b).
Definition progress_of (c : CompletePullCheckpoint) : completePullProgress :=
  {| rSchema := completePullProgressSchemaForCheckpoint (cService c) (cIncludes c); rService := cService c; rSelector := cSelector c; rOptions := cOptions c; rSelection := cSelection c;
     rNextIndex := NextIndex c; rIncludes := if eqt (cService c) Jira then None else Some (cIncludes c) |}.
Definition saved_includes (c : CompletePullCheckpoint) : checked CompletePullCheckpoint :=
  if eqt (cService c) Confluence then
    let c := if (NextIndex c =? 0) && bool_decide (cIncludes c = no_includes) then set_includes (set_evidence true (cIncludes c)) c else c in
    let! _ := validateCompletePullIncludeProgress (cIncludes c) (NextIndex c) in Ok c
  else let! _ := require (bool_decide (cIncludes c = no_includes)) "Jira complete-pull checkpoint contains Confluence include progress" in Ok c.
Definition SaveCompletePullCheckpoint (checkpoint : CompletePullCheckpoint) : M unit :=
  let c := current_schema checkpoint in
  lift (validateCompletePullCheckpoint c (cSelector c)) ;;
  c ← lift (saved_includes c);
  selector_ok (cSelector c) ;;
  let path := completePullCheckpointPath (cSelector c) in
  MkdirAllWithin (parent path) mode0700 ;;
  existing ← loadCompletePullSelection (cSelector c);
  let changed := match existing with Some e => negb (same_selection e c) | None => true end in
  (if negb changed && eqt (cService c) Confluence then
     current ← loadCheckpoint (cSelector c);
     match current with
     | Some p => lift (validateCompletePullIncludeAdvance (cIncludes p) (NextIndex p) (cIncludes c) (NextIndex c))
     | None => throw (CheckFailed "complete-pull immutable selection disappeared while saving progress")
     end
   else mret tt) ;;
  publication ← hasCompletePullPublicationStage (cSelector c);
  journal ← loadCompletePullJournal (cSelector c);
  (if changed then
     check (negb publication) "recover the existing complete-pull publication before replacing its immutable selection" ;;
     check (negb (bool_decide (is_Some journal))) "recover the existing complete-pull journal before replacing its immutable selection" ;;
     let b := encodeIndent (set_next 0 c) ++ ["010"%char] in
     check (zlength b <=? maxCheckpointBytes) "complete-pull checkpoint would exceed its bytes" ;;
     WriteFileWithin path b mode0600 ;; syncPublicationPath path
   else
     match journal with
     | Some j =>
         lift (validateCompletePullJournal j c) ;;
         check ((NextIndex c =? StartIndex j) || (NextIndex c =? journal_end j)) "complete-pull progress must remain at the journal start or advance to its exact end"
     | None => mret tt
     end) ;;
  let b := encodeIndent (progress_of c) ++ ["010"%char] in
  let progressPath := completePullProgressPath (cSelector c) in
  (match journal with
   | Some j => writeCompletePullOwned progressPath (completePullProgressTemp (jWriteToken j)) b mode0600
   | None => WriteFileWithin progressPath b mode0600
   end) ;;
  syncPublicationPath progressPath.
Definition RemoveCompletePullCheckpoint (selector : text) : M unit :=
  publication ← hasCompletePullPublicationStage selector;
  check (negb publication) "retire the complete-pull publication before removing its checkpoint" ;;
  journal ← loadCompletePullJournal selector;
  check (negb (bool_decide (is_Some journal))) "retire the covered complete-pull journal before removing its checkpoint" ;;
  remove_if_exists (completePullCheckpointPath selector) ;;
  remove_if_exists (completePullProgressPath selector) ;;
  syncPublicationPath (completePullProgressPath selector).

(** ** Folding the journal into the checkpoint *)

(** The identity, version and hash of a page's metadata file, and the key and
    identity of an issue's snapshot with fields, as [json.Unmarshal] reads them. *)
Variable decode_meta : text → option (text * Z * text).
Variable decode_snapshot : text → option (text * text).
Definition maxJiraCompletePullSnapshotBytes : Z := 67108864.
Definition read_body (max : Z) (p : path) : M (option text) :=
  r ← try (ReadFileWithinLimit p max);
  match r with inl b => mret (Some b) | inr NotExist => mret None | inr e => throw e end.
Definition base_path (id extension : text) : path := [txt ".atl"; txt "base"; Segment id ++ extension].
Definition proves_body (p : path) (hash : text) (why : string) : M unit :=
  b ← read_body maxBytes p; check (match b with Some b => eqt (Hash b) hash | None => false end) why.
Definition verify_journal_entry (service : text) (e : CompletePullJournalEntry) : M unit :=
  let s := State e in
  proves_body (place (sPath s)) (sHash s) "complete-pull journal native artifact is missing or changed" ;;
  if eqt service Confluence then
    meta ← read_body maxBytes (place (trim_suffix (sPath s) (txt ".csf") ++ txt ".meta.json"));
    check (match meta ≫= decode_meta with Some (id, version, hash) => eqt id (sID s) && (version =? sVersion s) && eqt hash (sHash s) | None => false end)
      "complete-pull journal metadata does not prove the landed state" ;;
    proves_body (base_path (sID s) (txt ".csf")) (sHash s) "complete-pull journal baseline is missing or changed" ;;
    verifyConfluenceCompletePullAttachmentArtifacts e
  else
    snapshot ← read_body maxJiraCompletePullSnapshotBytes (place (trim_suffix (sPath s) (txt ".wiki") ++ txt ".json"));
    check (match snapshot ≫= decode_snapshot with Some (key, id) => eqt key (sID s) && eqt id (Identity e) | None => false end)
      "complete-pull Jira snapshot does not prove the landed identity" ;;
    proves_body (base_path (sID s) (txt ".wiki")) (sHash s) "complete-pull Jira baseline is missing or changed" ;;
    verifyJiraCompletePullOptionalArtifacts e.
Definition verifyCompletePullJournalArtifacts (j : completePullJournal) : M unit := each (verify_journal_entry (jService j)) (Entries j).
Definition mergeCompletePullJournal (j : completePullJournal) : M unit :=
  (if eqt (jService j) Jira then mergeCompletePullEntriesOwned (Entries j) (completePullSidecarTemp (jWriteToken j))
   else merge_pages (Entries j) (completePullSidecarTemp (jWriteToken j))) ;;
  syncPublicationPath sidecarPath.
Definition removeCompletePullJournal (selector : text) : M unit :=
  remove_if_exists (completePullJournalPath selector) ;; syncPublicationPath (completePullJournalPath selector).
(** The evidence of the journal's pages joins the aggregates. *)
Fixpoint fold_evidence (i : IncludeProgress) (es : list CompletePullJournalEntry) : checked IncludeProgress :=
  match es with [] => Ok i | e :: es => let! i := applyCompletePullIncludeEvidence i (default [] (Includes e)) in fold_evidence i es end.
Definition advanced (j : completePullJournal) (c : CompletePullCheckpoint) : checked CompletePullCheckpoint :=
  let! i := (if eqt (jService j) Confluence then (if jSchema j =? completePullJournalSchema then Ok (set_evidence false (cIncludes c)) else fold_evidence (cIncludes c) (Entries j))
             else Ok (cIncludes c)) in
  Ok (set_next (journal_end j) (set_includes i c)).
Definition RecoverCompletePullJournal (selector : text) (checkpoint : option CompletePullCheckpoint) : M (option CompletePullCheckpoint) :=
  found ← loadCompletePullJournal selector;
  match found with
  | None => mret checkpoint
  | Some j =>
      match checkpoint with
      | None => throw (CheckFailed "orphan complete-pull journal has no immutable selection")
      | Some c =>
          let c := current_schema c in
          lift (validateCompletePullCheckpoint c selector) ;;
          lift (validateCompletePullJournal j c) ;;
          check ((NextIndex c =? StartIndex j) || (NextIndex c =? journal_end j)) "complete-pull journal does not begin at or end on durable progress" ;;
          verifyCompletePullJournalArtifacts j ;;
          mergeCompletePullJournal j ;;
          c ← (if NextIndex c =? StartIndex j then c' ← lift (advanced j c); SaveCompletePullCheckpoint c' ;; mret c' else mret c);
          removeCompletePullJournal selector ;;
          mret (Some c)
      end
  end.
Definition RetireCompletePullJournal (c : CompletePullCheckpoint) : M unit :=
  found ← loadCompletePullJournal (cSelector c);
  match found with
  | None => mret tt
  | Some j =>
      lift (validateCompletePullJournal j c) ;;
      check (journal_end j =? NextIndex c) "complete-pull journal is not covered by durable progress" ;;
      verifyCompletePullJournalArtifacts j ;;
      removeCompletePullJournal (cSelector c)
  end.
End store.
End PullStore.
