(* ===== verification/PullLogic.v ===== *)
(** * A crash logic for the disk of complete pulls

    What every loss of power may bring back is described path by path
    ([may]); a triple says what an operation leaves when it succeeds, when it
    fails and when the process dies in it, and that it succeeds when nothing
    goes wrong. *)

From S2P Require Import Prelude GoText Identifiers PullTypes PullDisk.
Import GoText Identifiers PullTypes PullDisk.

Module PullLogic.
Local Open Scope Z_scope.
Local Open Scope atl_scope.

(** ** Paths *)

Lemma parent_child dir name : parent (child dir name) = dir.
Proof. apply removelast_last. Qed.
Lemma leaf_child dir name : leaf (child dir name) = name.
Proof. apply last_last. Qed.
Lemma child_split p : p ≠ [] → p = child (parent p) (leaf p).
Proof. intros H. by apply app_removelast_last. Qed.
Lemma child_nonempty dir name : child dir name ≠ [].
Proof. unfold child. by destruct dir. Qed.
Lemma path_split p q : p ≠ [] → q ≠ [] → parent p = parent q → leaf p = leaf q → p = q.
Proof. intros Hp Hq H1 H2. rewrite (child_split p), (child_split q) by done. by rewrite H1, H2. Qed.
Lemma child_inj d n d' n' : child d n = child d' n' → d = d' ∧ n = n'.
Proof. intros H. split; [by rewrite <- (parent_child d n), H, parent_child|by rewrite <- (leaf_child d n), H, leaf_child]. Qed.
Lemma elem_of_ancestors p a : a ∈ ancestors p ↔ ∃ k, (1 ≤ k < length p)%nat ∧ a = take k p.
Proof.
  unfold ancestors. change (map ?f ?l) with (f <$> l). rewrite list_elem_of_fmap. setoid_rewrite elem_of_seq. split; intros (k & H1 & H2); exists k; split; try done; lia.
Qed.
Lemma ancestors_nonempty p a : a ∈ ancestors p → a ≠ [].
Proof. intros (k & Hk & ->)%elem_of_ancestors. destruct p; cbn in Hk; [lia|]. by destruct k; [lia|]. Qed.
Lemma length_child d n : length (child d n) = S (length d).
Proof. unfold child. rewrite length_app. cbn. lia. Qed.
(** The directories above a child are its directory and those above it. *)
Lemma ancestors_child dir name : ancestors (child dir name) = match dir with [] => [] | _ => ancestors dir ++ [dir] end.
Proof.
  unfold ancestors. rewrite length_child. replace (S (length dir) - 1)%nat with (length dir) by lia. destruct dir as [|x dir]; [done|].
  cbn [length]. replace (S (length dir) - 1)%nat with (length dir) by lia. rewrite seq_S, map_app. cbn [map]. f_equal.
  - apply map_ext_in. intros k Hk. apply in_seq in Hk. unfold child. rewrite take_app_le; [done|cbn; lia].
  - unfold child. rewrite take_app_le by (cbn; lia). f_equal. apply take_ge. cbn. lia.
Qed.

(** ** Looking at a changed disk *)

Lemma listing_change dir f d dir' : listing (change dir f d) dir' = if decide (dir' = dir) then f (listing d dir) else listing d dir'.
Proof. unfold listing, change, folder_at. destruct (decide (dir' = dir)) as [->|]; [by rewrite lookup_insert_eq|by rewrite lookup_insert_ne]. Qed.
Lemma versions_change dir f d dir' : versions (change dir f d) dir' = if decide (dir' = dir) then f (listing d dir) :: versions d dir else versions d dir'.
Proof. unfold versions, listing, change, folder_at. destruct (decide (dir' = dir)) as [->|]; [by rewrite lookup_insert_eq|by rewrite lookup_insert_ne]. Qed.
Lemma listing_flush dir d dir' : listing (flush dir d) dir' = listing d dir'.
Proof. unfold listing, flush, folder_at. destruct (decide (dir' = dir)) as [->|]; [by rewrite lookup_insert_eq|by rewrite lookup_insert_ne]. Qed.
Lemma versions_flush dir d dir' : versions (flush dir d) dir' = if decide (dir' = dir) then [listing d dir] else versions d dir'.
Proof. unfold versions, listing, flush, folder_at. destruct (decide (dir' = dir)) as [->|]; [by rewrite lookup_insert_eq|by rewrite lookup_insert_ne]. Qed.
Lemma listing_version d dir : listing d dir ∈ versions d dir.
Proof. apply list_elem_of_here. Qed.
Lemma look_flush dir d p : look (flush dir d) p = look d p.
Proof. unfold look. by rewrite listing_flush. Qed.
Lemma look_put p v d q : p ≠ [] → q ≠ [] → look (put p v d) q = if decide (q = p) then v else look d q.
Proof.
  intros Hp Hq. unfold look, put. rewrite listing_change. destruct (decide (parent q = parent p)) as [He|Hne].
  - unfold set_entry. destruct (decide (q = p)) as [->|Hqp]; [by rewrite lookup_partial_alter_eq|]. rewrite He, lookup_partial_alter_ne; [done|].
    intros Hl. apply Hqp. by apply path_split.
  - by rewrite decide_False by congruence.
Qed.

(** ** What may be found after a loss of power *)

Definition found : Type := option node → Prop.
Definition anchored (d : disk) (dir : path) : Prop := ∀ a s, a ∈ ancestors dir ++ [dir] → a ≠ [] → s ∈ versions d (parent a) → is_dir (s !! leaf a) = true.
Definition may (d : disk) (p : path) (S : found) : Prop :=
  (∀ s, s ∈ versions d (parent p) → S (s !! leaf p)) ∧ (anchored d (parent p) ∨ S None).

Lemma may_look d p S : may d p S → S (look d p).
Proof. intros [H _]. apply H, listing_version. Qed.
Lemma may_mono d p (S S' : found) : (∀ v, S v → S' v) → may d p S → may d p S'.
Proof. intros HS [H [Ha|Hn]]; split; auto. Qed.
Lemma may_and d p (S S' : found) : may d p S → may d p S' → may d p (λ v, S v ∧ S' v).
Proof. intros [H1 H2] [H1' H2']. split; [auto|]. destruct H2, H2'; auto. Qed.

(** After the loss there is one version of everything. *)
Definition quiet (d : disk) : Prop := ∀ dir s, s ∈ versions d dir → s = listing d dir.
Lemma power_loss_quiet d d' : power_loss d d' → quiet d'.
Proof.
  intros (kept & _ & H) dir s Hs. pose proof (listing_version d' dir) as Hl. destruct (H dir) as [[_ He]|[_ He]]; rewrite He in Hs, Hl;
    apply list_elem_of_singleton in Hs, Hl; congruence.
Qed.
Lemma power_loss_version d d' dir s : power_loss d d' → s ∈ versions d' dir → s ∈ versions d dir ∨ (s = ∅ ∧ ¬ anchored d dir).
Proof.
  intros (kept & Hk & H) Hs. destruct (H dir) as [[_ He]|[Ha He]]; rewrite He in Hs; apply list_elem_of_singleton in Hs as ->; [left; apply Hk|right].
  split; [done|]. intros Hn. apply Ha. intros a Hin Hne. apply (Hn a); [done|done|apply Hk].
Qed.
Lemma ancestors_closed a b dir : a ∈ ancestors dir ++ [dir] → b ∈ ancestors a ++ [a] → b ≠ [] → b ∈ ancestors dir ++ [dir].
Proof.
  intros Ha Hb Hne. rewrite elem_of_app, list_elem_of_singleton, elem_of_ancestors in Ha, Hb |- *.
  destruct Ha as [(k & Hk & ->)|Ha]; [|by rewrite Ha in Hb]. destruct Hb as [(j & Hj & ->)|Hb]; [|left; exists k; done]. rewrite length_take in Hj. left. exists j. split; [lia|].
  rewrite take_take. f_equal. lia.
Qed.
Lemma parent_take k (p : path) : (1 ≤ k ≤ length p)%nat → parent (take k p) = take (k - 1) p.
Proof.
  intros Hk. destruct k as [|k]; [lia|]. cbn [Nat.sub]. rewrite Nat.sub_0_r. destruct (lookup_lt_is_Some_2 p k) as [x Hx]; [lia|].
  rewrite (take_S_r _ _ _ Hx). apply (parent_child (take k p) x).
Qed.
Lemma parent_closed a dir : a ∈ ancestors dir ++ [dir] → ∀ b, b ∈ ancestors (parent a) ++ [parent a] → b ≠ [] → b ∈ ancestors dir ++ [dir].
Proof.
  intros Ha b Hb Hne. destruct (decide (a = [])) as [->|Hn].
  { cbn in Hb. by apply list_elem_of_singleton in Hb as ->. }
  apply (ancestors_closed a); [done| |done]. rewrite (child_split a) at 1 by done. rewrite ancestors_child. destruct (parent a) eqn:Hp; [by apply list_elem_of_singleton in Hb as ->|].
  rewrite elem_of_app. by left.
Qed.
Lemma alive_parent kept dir a : alive kept dir → a ∈ ancestors dir ++ [dir] → alive kept (parent a).
Proof. intros H Ha b Hb Hne. apply H; [|done]. by eapply parent_closed. Qed.
Lemma anchored_parent d dir a : anchored d dir → a ∈ ancestors dir ++ [dir] → anchored d (parent a).
Proof. intros H Ha b s Hb Hne. apply H; [|done]. by eapply parent_closed. Qed.
Lemma anchored_power_loss d d' dir : power_loss d d' → anchored d dir → anchored d' dir.
Proof.
  intros Hp Ha a s Hin Hne Hs. destruct (power_loss_version _ _ _ _ Hp Hs) as [Hs'|[_ Hn]]; [by apply (Ha a)|]. destruct Hn. by eapply anchored_parent.
Qed.
Lemma may_power_loss d d' p S : power_loss d d' → may d p S → may d' p S.
Proof.
  intros Hp [H Ha]. split.
  - intros s Hs. destruct (power_loss_version _ _ _ _ Hp Hs) as [Hs'|[-> Hn]]; [by apply H|]. rewrite lookup_empty. by destruct Ha.
  - destruct Ha as [Ha|Ha]; [left; by eapply anchored_power_loss|by right].
Qed.
(** A directory that is found again is all there above. *)
Lemma power_loss_alive d d' dir : power_loss d d' → listing d' dir ≠ ∅ → ∀ a, a ∈ ancestors dir ++ [dir] → a ≠ [] → is_dir (look d' a) = true.
Proof.
  intros (kept & _ & H) Hne a Ha Hn. destruct (H dir) as [[Hal _]|[_ He]].
  2:{ destruct Hne. pose proof (listing_version d' dir) as Hl. rewrite He in Hl. by apply list_elem_of_singleton in Hl. }
  unfold look. destruct (H (parent a)) as [[_ He]|[Hd _]]; [|destruct Hd; by eapply alive_parent].
  pose proof (listing_version d' (parent a)) as Hl. rewrite He in Hl. apply list_elem_of_singleton in Hl as ->. by apply Hal.
Qed.

(** ** Changes *)

(** A change that does not take a directory of a chain away. *)
Definition keeps_chain (d : disk) (dir : path) (f : entries → entries) (x : path) : Prop :=
  ∀ a, a ∈ ancestors x ++ [x] → a ≠ [] → parent a = dir → is_dir (listing d dir !! leaf a) = true → is_dir (f (listing d dir) !! leaf a) = true.
(** A change that takes no directory away. *)
Definition keeps_dirs (d : disk) (dir : path) (f : entries → entries) : Prop := ∀ n, is_dir (listing d dir !! n) = true → is_dir (f (listing d dir) !! n) = true.
Lemma keeps_dirs_chain d dir f x : keeps_dirs d dir f → keeps_chain d dir f x.
Proof. intros H a _ _ _. apply H. Qed.
Lemma anchored_change d dir f x : keeps_chain d dir f x → anchored d x → anchored (change dir f d) x.
Proof.
  intros Hk H a s Ha Hne Hs. rewrite versions_change in Hs. case_decide as Hd; [|by apply (H a)]. apply elem_of_cons in Hs as [->|Hs]; [|rewrite <- Hd in Hs; by apply (H a)].
  apply (Hk a); [done|done|done|]. rewrite <- Hd. apply (H a); [done|done|apply listing_version].
Qed.
Lemma may_change d dir f p (S : found) : (S None ∨ keeps_chain d dir f (parent p)) → (parent p = dir → S (f (listing d dir) !! leaf p)) → may d p S → may (change dir f d) p S.
Proof.
  intros Hk HS [H Ha]. split.
  - intros s Hs. rewrite versions_change in Hs. case_decide as Hd; [|by apply H]. apply elem_of_cons in Hs as [->|Hs]; [by apply HS|]. rewrite <- Hd in Hs. by apply H.
  - destruct Ha as [Ha|]; [|by right]. destruct Hk as [|Hk]; [by right|left; by apply anchored_change].
Qed.
Lemma set_entry_lookup p v (es : entries) q : p ≠ [] → q ≠ [] → parent q = parent p → set_entry (leaf p) v es !! leaf q = if decide (q = p) then v else es !! leaf q.
Proof.
  intros Hp Hq He. unfold set_entry. destruct (decide (q = p)) as [->|Hqp]; [by rewrite lookup_partial_alter_eq|]. rewrite lookup_partial_alter_ne; [done|].
  intros Hl. apply Hqp. by apply path_split.
Qed.
(** A path that is set stays what it may be, and what lies below a directory
    that goes may be missing. *)
Lemma may_put d p v q (S : found) : p ≠ [] → q ≠ [] → (S None ∨ p ∉ ancestors q ∨ (is_dir (look d p) = true → is_dir v = true)) → (q = p → S v) → may d q S → may (put p v d) q S.
Proof.
  intros Hp Hq Hd HS H. apply may_change; [| |done].
  - destruct Hd as [|Hd]; [by left|right]. intros a Ha Hne He. rewrite set_entry_lookup by done. case_decide as Hap; [|done]. subst a. destruct Hd as [Hd|Hd].
    + destruct Hd. rewrite (child_split q) by done. rewrite ancestors_child. destruct (parent q) eqn:Hpq; [by apply list_elem_of_singleton in Ha|done].
    + by unfold look in Hd.
  - intros He. rewrite set_entry_lookup by done. case_decide as Hqp; [by apply HS|]. rewrite <- He. exact (may_look _ _ _ H).
Qed.
Lemma anchored_flush d dir x : anchored d x → anchored (flush dir d) x.
Proof.
  intros H a s Ha Hne Hs. rewrite versions_flush in Hs. case_decide as Hd; [|by apply (H a)]. apply list_elem_of_singleton in Hs as ->. rewrite <- Hd. apply (H a); [done|done|apply listing_version].
Qed.
Lemma may_flush d dir p S : may d p S → may (flush dir d) p S.
Proof.
  intros [H Ha]. split; [|destruct Ha; [left; by apply anchored_flush|by right]].
  intros s Hs. rewrite versions_flush in Hs. case_decide as Hd; [|by apply H]. apply list_elem_of_singleton in Hs as ->. rewrite <- Hd. apply H, listing_version.
Qed.

(** What lies in a directory that exists. *)
Definition wf (d : disk) : Prop := ∀ dir, listing d dir ≠ ∅ → exists_dir d dir = true.
Lemma exists_dir_flush d dir x : exists_dir (flush dir d) x = exists_dir d x.
Proof. unfold exists_dir. by rewrite look_flush. Qed.
Lemma wf_flush d dir : wf d → wf (flush dir d).
Proof. intros H x Hx. rewrite listing_flush in Hx. rewrite exists_dir_flush. by apply H. Qed.
Lemma exists_dir_change d dir f x : keeps_dirs d dir f → exists_dir d x = true → exists_dir (change dir f d) x = true.
Proof.
  intros Hk. unfold exists_dir. destruct (bool_decide (x = [])); [done|]. cbn. unfold look. rewrite listing_change. case_decide as Hd; [|done]. rewrite Hd. apply Hk.
Qed.
Lemma wf_change d dir f : wf d → keeps_dirs d dir f → exists_dir d dir = true → wf (change dir f d).
Proof.
  intros H Hk He x Hx. apply exists_dir_change; [done|]. rewrite listing_change in Hx. case_decide as Hd; [by rewrite Hd|by apply H].
Qed.
Lemma listing_none d p : look d p ≠ None → listing d (parent p) ≠ ∅.
Proof. unfold look. intros H He. rewrite He in H. by rewrite lookup_empty in H. Qed.
Lemma wf_chain d dir : wf d → exists_dir d dir = true → ∀ a, a ∈ ancestors dir ++ [dir] → a ≠ [] → is_dir (look d a) = true.
Proof.
  intros Hw. induction dir as [|n dir IH] using rev_ind; intros He a Ha Hne.
  - by apply list_elem_of_singleton in Ha as ->.
  - assert (is_dir (look d (child dir n)) = true) as Hl by (revert He; unfold exists_dir, child; by destruct dir).
    apply elem_of_app in Ha as [Ha|Ha%list_elem_of_singleton]; [|by rewrite Ha]. change (dir ++ [n]) with (child dir n) in Ha. rewrite ancestors_child in Ha. apply IH; [|by destruct dir; [apply elem_of_nil in Ha|]|done].
    rewrite <- (parent_child dir n). apply Hw, listing_none. by destruct (look d (child dir n)).
Qed.
Lemma wf_power_loss d d' : power_loss d d' → wf d'.
Proof.
  intros Hp dir Hne. pose proof (power_loss_alive _ _ _ Hp Hne) as H. unfold exists_dir. case_bool_decide; [done|]. cbn. apply H; [|done].
  rewrite elem_of_app. right. by apply list_elem_of_singleton.
Qed.
(** Directories that are there in the only version of their parents. *)
Lemma anchored_settled d dir : wf d → exists_dir d dir = true → (∀ a, a ∈ ancestors dir ++ [dir] → a ≠ [] → ∀ s, s ∈ versions d (parent a) → s = listing d (parent a)) → anchored d dir.
Proof. intros Hw He Hv a s Ha Hne Hs. rewrite (Hv a Ha Hne s Hs). by eapply wf_chain. Qed.
Lemma exists_dir_put d p v x : p ≠ [] → (x = p → is_dir (look d p) = true → is_dir v = true) → exists_dir d x = true → exists_dir (put p v d) x = true.
Proof.
  intros Hp Hv. unfold exists_dir. destruct (decide (x = [])) as [->|Hx]; [done|]. rewrite !(bool_decide_eq_false_2 (x = [])) by done. cbn. rewrite look_put by done. case_decide as He; [|done].
  intros Hd. rewrite He in Hd. by apply Hv.
Qed.
Lemma parent_ne (p : path) : p ≠ [] → parent p ≠ p.
Proof. intros Hp He. apply (f_equal length) in He. rewrite (child_split p Hp), parent_child, length_child in He. lia. Qed.
Lemma wf_put d p v : wf d → p ≠ [] → exists_dir d (parent p) = true → (is_dir (look d p) = true → is_dir v = true ∨ listing d p = ∅) → wf (put p v d).
Proof.
  intros H Hp He Hv x Hx. pose proof (parent_ne p Hp) as Hne. unfold put in Hx. rewrite listing_change in Hx. case_decide as Hd.
  - rewrite Hd. by apply exists_dir_put.
  - apply exists_dir_put; [done| |by apply H]. intros -> Hl. by destruct (Hv Hl).
Qed.

(** A disk without older versions. *)
Lemma quiet_may d p (S : found) : wf d → quiet d → S (look d p) → may d p S.
Proof.
  intros Hw Hq HS. split; [intros s Hs; rewrite (Hq _ _ Hs); exact HS|]. destruct (exists_dir d (parent p)) eqn:He.
  - left. apply anchored_settled; [done|done|]. intros a _ _ s Hs. by apply Hq.
  - right. assert (look d p = None) as <-; [|done]. destruct (look d p) eqn:Hl; [|done]. pose proof (Hw (parent p)) as H. rewrite H in He; [done|]. apply listing_none. by rewrite Hl.
Qed.

(** ** Guards *)

(** What a specification says of a path holds of everything that may be found. *)
Definition spec : Type := path → found → Prop.
Definition guards (G : spec) (d : disk) : Prop := wf d ∧ ∀ p S, G p S → p ≠ [] ∧ may d p S.
(** A value a path may be given; a path with nothing below that has to stay. *)
Definition admits (G : spec) (p : path) (v : option node) : Prop := ∀ S, G p S → S v.
Definition bare (G : spec) (p : path) : Prop := ∀ q S, G q S → p ∈ ancestors q → S None.
(** A path to write to and to remove at will. *)
Definition scratch (G : spec) (p : path) : Prop := p ≠ [] ∧ (∀ v, admits G p v) ∧ bare G p.

Lemma guards_power_loss G d d' : power_loss d d' → guards G d → guards G d'.
Proof. intros Hp [_ H]. split; [by eapply wf_power_loss|]. intros p S HS. destruct (H p S HS) as [Hne Hm]. split; [done|]. by eapply may_power_loss. Qed.
Lemma guards_flush G d dir : guards G d → guards G (flush dir d).
Proof. intros [Hw H]. split; [by apply wf_flush|]. intros p S HS. destruct (H p S HS) as [Hne Hm]. split; [done|]. by apply may_flush. Qed.
Lemma guards_put G d p v : guards G d → p ≠ [] → exists_dir d (parent p) = true → admits G p v →
  (is_dir (look d p) = true → is_dir v = true ∨ (bare G p ∧ listing d p = ∅)) → guards G (put p v d).
Proof.
  intros [Hw H] Hp He Ha Hd. split.
  - apply wf_put; [done|done|done|]. intros Hl. destruct (Hd Hl) as [|[_ ?]]; auto.
  - intros q S HS. destruct (H q S HS) as [Hne Hm]. split; [done|]. apply may_put; [done|done| |by intros ->; apply Ha|done].
    destruct (is_dir (look d p)) eqn:Hl; [|by right; right]. destruct (Hd eq_refl) as [|[Hb _]]; [by right; right|].
    destruct (decide (p ∈ ancestors q)); [left; by apply (Hb q S)|by right; left].
Qed.
(** A file that takes the name of another. *)
Lemma guards_rename G d dir from to_ data perm : guards G d → listing d dir !! from = Some (File data perm) → is_dir (listing d dir !! to_) = false →
  admits G (child dir from) None → admits G (child dir to_) (Some (File data perm)) → from ≠ to_ → guards G (change dir (λ es, <[to_ := File data perm]> (delete from es)) d).
Proof.
  intros [Hw H] Hf Ht Hn Hv Hne. assert (keeps_dirs d dir (λ es, <[to_ := File data perm]> (delete from es))) as Hk.
  { intros n Hn'. destruct (decide (n = to_)) as [->|]; [by rewrite Hn' in Ht|]. rewrite lookup_insert_ne by done. destruct (decide (n = from)) as [->|]; [by rewrite Hf in Hn'|]. by rewrite lookup_delete_ne. }
  split.
  - apply wf_change; [done|done|]. apply Hw. intros He. by rewrite He, lookup_empty in Hf.
  - intros q S HS. destruct (H q S HS) as [Hq Hm]. split; [done|]. apply may_change; [right; by apply keeps_dirs_chain| |done]. intros Hpq.
    destruct (decide (leaf q = to_)) as [Hl|Hl].
    + rewrite Hl, lookup_insert_eq. apply Hv. by rewrite <- Hpq, <- Hl, <- child_split.
    + rewrite lookup_insert_ne by done. destruct (decide (leaf q = from)) as [Hl'|Hl'].
      * rewrite Hl', lookup_delete_eq. apply Hn. by rewrite <- Hpq, <- Hl', <- child_split.
      * rewrite lookup_delete_ne by done. rewrite <- Hpq. exact (may_look _ _ _ Hm).
Qed.
Lemma look_rename d dir from to_ n q : q ≠ [] → q ≠ child dir from → q ≠ child dir to_ → look (change dir (λ es, <[to_ := n]> (delete from es)) d) q = look d q.
Proof.
  intros Hq Hf Ht. unfold look. rewrite listing_change. case_decide as Hd; [|done]. rewrite (child_split q) in Hf, Ht by done. rewrite Hd in Hf, Ht.
  rewrite lookup_insert_ne by congruence. rewrite lookup_delete_ne by congruence. by rewrite Hd.
Qed.

(** ** Triples: what an operation leaves when it succeeds, and otherwise *)

Definition assertion : Type := disk → Prop.
Definition triple {A : Type} (P : assertion) (m : M A) (Q : A → assertion) (I : assertion) : Prop := ∀ η w, P (dsk w) →
  match (m η w).2 with Done a => Q a (dsk (m η w).1) | _ => I (dsk (m η w).1) end.

Lemma triple_ret {A : Type} (P : assertion) (a : A) (Q : A → assertion) (I : assertion) : (∀ d, P d → Q a d) → triple P (mret a) Q I.
Proof. intros H η w Hp. by apply H. Qed.
Lemma triple_throw {A : Type} (P : assertion) e (Q : A → assertion) (I : assertion) : (∀ d, P d → I d) → triple P (throw e) Q I.
Proof. intros H η w Hp. by apply H. Qed.
Lemma triple_bind {A B : Type} (P : assertion) (m : M A) (R : A → assertion) (k : A → M B) (Q : B → assertion) (I : assertion) :
  triple P m R I → (∀ a, triple (R a) (k a) Q I) → triple P (mbind k m) Q I.
Proof.
  intros Hm Hk η w Hp. specialize (Hm η w Hp). unfold mbind, M_bind. revert Hm. destruct (m η w) as [w1 [a|e|]]; cbn; [apply Hk|done..].
Qed.
Lemma triple_conseq {A : Type} (P P' : assertion) (m : M A) (Q Q' : A → assertion) (I I' : assertion) :
  triple P' m Q' I' → (∀ d, P d → P' d) → (∀ a d, Q' a d → Q a d) → (∀ d, I' d → I d) → triple P m Q I.
Proof. intros H H1 H2 H3 η w Hp. specialize (H η w (H1 _ Hp)). revert H. destruct (m η w) as [w' [a|e|]]; cbn; auto. Qed.
Lemma triple_pure {A : Type} (φ : Prop) (P : assertion) (m : M A) (Q : A → assertion) (I : assertion) : (φ → triple P m Q I) → triple (λ d, φ ∧ P d) m Q I.
Proof. intros H η w [Hφ Hp]. by apply H. Qed.
Lemma triple_start {A : Type} (P : assertion) (m : M A) (Q : A → assertion) (I : assertion) : (∀ d0, P d0 → triple P m Q I) → triple P m Q I.
Proof. intros H η w Hp. by apply (H (dsk w)). Qed.
Lemma triple_step {A : Type} (P : assertion) (left_over : env → nat → disk → disk) (f : env → nat → disk → disk * outcome A) (Q : A → assertion) (I : assertion) :
  (∀ η t d, P d → I (left_over η t d)) → (∀ η t d, P d → match (f η t d).2 with Done a => Q a (f η t d).1 | _ => I (f η t d).1 end) → triple P (step left_over f) Q I.
Proof.
  intros H1 H2 η w Hp. unfold step. destruct (fault_at η (tick w)); cbn; [|by apply H1..].
  specialize (H2 η (tick w) _ Hp). revert H2. by destruct (f η (tick w) (dsk w)).
Qed.
Lemma triple_prim {A : Type} (P : assertion) (f : disk → disk * outcome A) (Q : A → assertion) (I : assertion) :
  (∀ d, P d → I d) → (∀ d, P d → match (f d).2 with Done a => Q a (f d).1 | _ => I (f d).1 end) → triple P (prim f) Q I.
Proof. intros H1 H2. apply triple_step; auto. Qed.
(** An operation that only reads. *)
Lemma triple_read {A : Type} (P : assertion) (g : disk → outcome A) (Q : A → assertion) (I : assertion) :
  (∀ d, P d → I d) → (∀ d a, P d → g d = Done a → Q a d) → triple P (prim (λ d, (d, g d))) Q I.
Proof. intros H1 H2. apply triple_prim; [done|]. cbn. intros d Hp. destruct (g d) eqn:Hg; [by apply H2|by apply H1..]. Qed.
Lemma triple_stat (P : assertion) p (I : assertion) : (∀ d, P d → I d) → triple P (StatWithin p) (λ v d, v = look d p ∧ P d) I.
Proof. intros H. apply triple_read; [done|]. intros d a Hp. by intros [= <-]. Qed.
Lemma triple_file (P : assertion) p max (I : assertion) : (∀ d, P d → I d) → triple P (ReadFileWithinLimit p max) (λ b d, (zlength b ≤ max ∧ ∃ perm, look d p = Some (File b perm)) ∧ P d) I.
Proof.
  intros H. apply triple_read; [done|]. intros d b Hp. destruct (look d p) as [[data perm|]|]; [|done..]. destruct (Z.leb_spec (zlength data) max); [|done]. intros [= <-]. eauto.
Qed.
Lemma triple_entries (P : assertion) dir max (I : assertion) : (∀ d, P d → I d) → triple P (ReadDirWithinLimit dir max) (λ _, P) I.
Proof. intros H. by apply triple_read. Qed.
Lemma triple_lift {A : Type} (P : assertion) (r : checked A) (I : assertion) : (∀ d, P d → I d) → triple P (lift r) (λ a d, r = Ok a ∧ P d) I.
Proof. intros H. destruct r; [by apply triple_ret|by apply triple_throw]. Qed.
Lemma triple_check (P : assertion) c why (I : assertion) : (∀ d, P d → I d) → triple P (check c why) (λ _ d, c = true ∧ P d) I.
Proof. intros H. unfold check, require. destruct c; [by apply triple_ret|by apply triple_throw]. Qed.
(** A loop whose steps keep an assertion, or that assert more and more. *)
Lemma triple_each {A : Type} (P : assertion) (f : A → M unit) (I : assertion) (l : list A) : (∀ x, x ∈ l → triple P (f x) (λ _, P) I) → triple P (each f l) (λ _, P) I.
Proof.
  induction l as [|x l IH]; intros H; [by apply triple_ret|]. cbn [each]. eapply triple_bind; [apply H, list_elem_of_here|]. intros ?. apply IH. intros y Hy. by apply H, list_elem_of_further.
Qed.
Lemma triple_each_more {A : Type} (P : list A → assertion) (f : A → M unit) (I : assertion) (l done : list A) :
  (∀ x done, triple (P done) (f x) (λ _, P (done ++ [x])) I) → triple (P done) (each f l) (λ _, P (done ++ l)) I.
Proof.
  intros H. revert done. induction l as [|x l IH]; intros done; [rewrite app_nil_r; by apply triple_ret|]. cbn [each]. eapply triple_bind; [by apply H|]. intros ?.
  replace (done ++ x :: l) with ((done ++ [x]) ++ l) by by rewrite <- app_assoc. apply IH.
Qed.
Lemma triple_try {A : Type} (P : assertion) (m : M A) (R : A → assertion) (I : assertion) : triple P m R I → triple P (try m) (λ r d, match r with inl a => R a d | inr _ => I d end) I.
Proof. intros H η w Hp. specialize (H η w Hp). revert H. unfold try. by destruct (m η w) as [w1 [a|e|]]. Qed.
Lemma triple_finally {A : Type} (P : assertion) (m : M A) (R : A → assertion) (c : M unit) (Q : A → assertion) (I : assertion) :
  triple P m R I → (∀ a, triple (R a) (try c) (λ _, Q a) I) → triple I (try c) (λ _, I) I → triple P (finally m c) Q I.
Proof.
  intros Hm Hc Hi η w Hp. specialize (Hm η w Hp). revert Hm. unfold finally. destruct (m η w) as [w1 [a|e|]]; cbn; intros Hm; [specialize (Hc a η w1 Hm)|specialize (Hi η w1 Hm)|done].
  - revert Hc. unfold try. by destruct (c η w1) as [w2 [u|e|]].
  - revert Hi. unfold try. by destruct (c η w1) as [w2 [u|e'|]].
Qed.

(** ** Operations under guards *)

Section guarded.
Variable G : spec.
(** What is known of one more path. *)
Variable q : path.
Variable X : found.
Hypothesis Hq : q ≠ [].
Definition pw : assertion := λ d, guards G d ∧ X (look d q).
(** A path whose changes are not noticed. *)
Definition unseen (p : path) : Prop := p ≠ q ∨ ∀ v, X v.
Lemma pw_guards d : pw d → guards G d.
Proof. by intros []. Qed.
Lemma X_put d p v : p ≠ [] → unseen p → X (look d q) → X (look (put p v d) q).
Proof. intros Hp [Hne|HX] H; [|by apply HX]. rewrite look_put by done. by rewrite decide_False. Qed.
Lemma pw_put d p v : pw d → unseen p → p ≠ [] → exists_dir d (parent p) = true → admits G p v → (is_dir (look d p) = true → is_dir v = true ∨ (bare G p ∧ listing d p = ∅)) → pw (put p v d).
Proof. intros [H1 H2] Hu Hp He Ha Hd. split; [by apply guards_put|by apply X_put]. Qed.
Lemma exists_parent d p v : wf d → look d p = Some v → exists_dir d (parent p) = true.
Proof. intros Hw Hl. apply Hw, listing_none. by rewrite Hl. Qed.

Lemma pw_remove p : p ≠ [] → admits G p None → bare G p → unseen p → triple pw (RemoveWithin p) (λ _, pw) pw.
Proof.
  intros Hp Ha Hb Hu. apply triple_prim; [done|]. intros d H. destruct (look d p) as [[data perm|perm]|] eqn:Hl; cbn; [|case_bool_decide as He; cbn|done]; [..|done].
  - apply pw_put; try done; [eapply exists_parent; [apply H|done]|by rewrite Hl].
  - apply pw_put; try done; [eapply exists_parent; [apply H|done]|by right].
Qed.
Lemma pw_remove_if_exists p : p ≠ [] → admits G p None → bare G p → unseen p → triple pw (remove_if_exists p) (λ _, pw) pw.
Proof.
  intros Hp Ha Hb Hu. eapply triple_bind; [by apply triple_try, pw_remove|]. intros [[]|[]]; cbn; (apply triple_ret || apply triple_throw); done.
Qed.
Lemma pw_flush d dir : pw d → pw (flush dir d).
Proof. intros [H1 H2]. split; [by apply guards_flush|by rewrite look_flush]. Qed.
Lemma pw_sync dir : triple pw (SyncDirectoryWithin dir) (λ _, pw) pw.
Proof. apply triple_prim; [done|]. intros d H. cbn. destruct (exists_dir d dir); cbn; [by apply pw_flush|done]. Qed.

(** Directories with one version. *)
Definition settled (dirs : list path) (d : disk) : Prop := ∀ dir, dir ∈ dirs → versions d dir = [listing d dir] ∧ exists_dir d dir = true.
Lemma settled_flush dirs dir d : settled dirs d → exists_dir d dir = true → settled (dirs ++ [dir]) (flush dir d).
Proof.
  intros H He x Hx. rewrite exists_dir_flush, versions_flush, listing_flush. apply elem_of_app in Hx as [Hx|Hx%list_elem_of_singleton].
  - destruct (H x Hx) as [H1 H2]. case_decide as Hd; [by rewrite Hd in *|done].
  - subst x. by rewrite decide_True.
Qed.
Lemma pw_sync_settled dir dirs : triple (λ d, pw d ∧ settled dirs d) (SyncDirectoryWithin dir) (λ _ d, pw d ∧ settled (dirs ++ [dir]) d) (guards G).
Proof.
  apply triple_prim; [by intros d [[] _]|]. intros d [H Hs]. cbn. destruct (exists_dir d dir) eqn:He; cbn; [|apply H]. split; [by apply pw_flush|by apply settled_flush].
Qed.
Lemma pw_sync_path p : triple pw (each SyncDirectoryWithin (reverse (ancestors p) ++ [[]])) (λ _ d, pw d ∧ settled (reverse (ancestors p) ++ [[]]) d) (guards G).
Proof.
  eapply triple_conseq; [apply (triple_each_more (λ done d, pw d ∧ settled done d) SyncDirectoryWithin (guards G) _ []); intros x done; apply pw_sync_settled| |done|done].
  intros d H. split; [done|]. intros x Hx. by apply elem_of_nil in Hx.
Qed.
Lemma settled_may d p (S : found) : wf d → p ≠ [] → settled (reverse (ancestors p) ++ [[]]) d → S (look d p) → may d p S.
Proof.
  intros Hw Hp Hs HS. assert (∀ a, a ∈ ancestors p ++ [[]] → versions d a = [listing d a] ∧ exists_dir d a = true) as H.
  { intros a Ha. apply Hs. rewrite elem_of_app, elem_of_reverse in *. done. }
  assert (parent p ∈ ancestors p ++ [[]]) as Hpp.
  { rewrite (child_split p) at 2 by done. rewrite ancestors_child. destruct (parent p) eqn:He; [by apply list_elem_of_singleton|]. rewrite !elem_of_app. left. right. by apply list_elem_of_singleton. }
  split.
  - intros s Hv. rewrite (proj1 (H _ Hpp)) in Hv. apply list_elem_of_singleton in Hv as ->. done.
  - left. apply anchored_settled; [done|by apply H|]. intros a Ha Hne s Hv. assert (parent a ∈ ancestors p ++ [[]]) as Hin.
    { destruct (decide (parent a = [])) as [->|Hn]; [rewrite elem_of_app; right; by apply list_elem_of_singleton|]. rewrite elem_of_app. left.
      assert (parent a ∈ ancestors (parent p) ++ [parent p]) as Hc. { eapply parent_closed; [exact Ha| |done]. rewrite elem_of_app. right. by apply list_elem_of_singleton. }
      rewrite (child_split p) by done. rewrite ancestors_child. destruct (parent p) eqn:He; [by apply list_elem_of_singleton in Hc|done]. }
    rewrite (proj1 (H _ Hin)) in Hv. by apply list_elem_of_singleton in Hv.
Qed.

Lemma pw_mkdir perm dir : dir ≠ [] → admits G dir (Some (Dir perm)) → unseen dir → triple pw (mkdir perm dir) (λ _, pw) pw.
Proof.
  intros Hd Ha Hu. apply triple_prim; [done|]. intros d H. destruct (look d dir) as [[]|] eqn:Hl; cbn; [done..|]. destruct (exists_dir d (parent dir)) eqn:He; cbn; [|done].
  apply pw_put; try done. by rewrite Hl.
Qed.
Lemma pw_mkdir_all dir perm : (∀ x, x ∈ ancestors dir ++ [dir] → x ≠ [] → admits G x (Some (Dir perm)) ∧ unseen x) → triple pw (MkdirAllWithin dir perm) (λ _, pw) pw.
Proof.
  intros H. unfold MkdirAllWithin. destruct dir as [|n dir]; [by apply triple_ret|]. apply triple_each. intros x Hx.
  assert (x ≠ []) as Hne. { apply elem_of_app in Hx as [Hx|Hx%list_elem_of_singleton]; [by eapply ancestors_nonempty|by rewrite Hx]. }
  destruct (H x Hx Hne). by apply pw_mkdir.
Qed.
End guarded.

(** Writing through a temporary file. *)
Definition trivially : found := λ _, True.
Lemma pw_trivial G p d : pw G p trivially d ↔ guards G d.
Proof. split; [by intros []|by split]. Qed.
Lemma guards_remove G p : scratch G p → triple (guards G) (RemoveWithin p) (λ _, guards G) (guards G).
Proof.
  intros (Hp & Ha & Hb). eapply triple_conseq; [apply (pw_remove G p trivially Hp p Hp (Ha _) Hb); by right|by split|by intros ? ? []|by intros ? []].
Qed.
(** A file on its way. *)
Definition holding (G : spec) (p : path) (data : text) (perm : Z) : assertion := λ d, guards G d ∧ look d p = Some (File data perm).
Lemma holding_guards G p data perm d : holding G p data perm d → guards G d.
Proof. by intros []. Qed.
Lemma holding_put G p data perm v d : scratch G p → holding G p data perm d → is_dir v = false → guards G (put p v d) ∧ look (put p v d) p = v.
Proof.
  intros (Hp & Ha & Hb) [Hg Hl] Hv. split.
  - apply guards_put; [done|done| |apply Ha|by rewrite Hl]. eapply exists_parent; [apply Hg|done].
  - rewrite look_put by done. by rewrite decide_True.
Qed.
Lemma create_holding G p perm : scratch G p → triple (guards G) (create p perm) (λ _, holding G p [] perm) (guards G).
Proof.
  intros (Hp & Ha & Hb). apply triple_prim; [done|]. intros d Hg. destruct (exists_dir d (parent p)) eqn:He; cbn; [|done]. destruct (look d p) eqn:Hl; cbn; [done|]. split.
  - apply guards_put; [done|done|done|apply Ha|by rewrite Hl].
  - rewrite look_put by done. by rewrite decide_True.
Qed.
Lemma write_data_holding G p old data perm : scratch G p → triple (holding G p old perm) (write_data p data) (λ _, holding G p data perm) (guards G).
Proof.
  intros Hs. apply triple_step; intros η t d H; pose proof (proj2 H) as Hl; unfold with_file; rewrite Hl; cbn.
  - by eapply holding_put.
  - destruct (holding_put G p old perm (Some (File (take (cut_at η t) data) perm)) d Hs H eq_refl) as [H1 H2]. rewrite H2. by apply (holding_put G p _ perm _ _ Hs (conj H1 H2)).
Qed.
Lemma chmod_holding G p data old perm : scratch G p → triple (holding G p data old) (chmod p perm) (λ _, holding G p data perm) (guards G).
Proof. intros Hs. apply triple_prim; [apply holding_guards|]. intros d H. unfold with_file. rewrite (proj2 H). cbn. by eapply holding_put. Qed.
Lemma rename_holding G dir temp base data perm : temp ≠ base → scratch G (child dir temp) → admits G (child dir base) (Some (File data perm)) →
  triple (holding G (child dir temp) data perm) (rename dir temp base) (λ _, holding G (child dir base) data perm) (guards G).
Proof.
  intros Hne (_ & Hn & _) Ha. apply triple_prim; [apply holding_guards|]. intros d [Hg Hl]. unfold look in Hl. rewrite parent_child, leaf_child in Hl. rewrite Hl.
  destruct (is_dir (listing d dir !! base)) eqn:Hd; cbn; [done|]. split.
  - apply guards_rename; [done|done|done|apply Hn|done|done].
  - unfold look. rewrite parent_child, leaf_child, listing_change, decide_True by done. by rewrite lookup_insert_eq.
Qed.
Lemma fill_holding G dir temp base old data perm : temp ≠ base → scratch G (child dir temp) → admits G (child dir base) (Some (File data perm)) →
  triple (holding G (child dir temp) [] old) (fill_and_rename dir temp base data perm) (λ _, holding G (child dir base) data perm) (guards G).
Proof.
  intros Hne Hs Ha. eapply triple_finally.
  - eapply triple_bind; [by apply write_data_holding|]. intros ?. eapply triple_bind; [by apply chmod_holding|]. intros ?.
    eapply triple_bind; [apply (triple_prim _ _ (λ _, holding G (child dir temp) data perm)); [apply holding_guards|done]|]. intros ?.
    eapply triple_bind; [apply (triple_prim _ _ (λ _, holding G (child dir temp) data perm)); [apply holding_guards|done]|]. intros ?. by apply rename_holding.
  - intros ?. eapply triple_conseq; [apply (triple_try (pw G (child dir base) (λ v, v = Some (File data perm))) _ (λ _, pw G (child dir base) (λ v, v = Some (File data perm))))| | |].
    + destruct Hs as (Hp & Hn & Hb). apply pw_remove; [apply child_nonempty|done|apply Hn|done|]. left. intros He. by apply child_inj in He as [_ ?].
    + done.
    + by intros [[]|].
    + apply holding_guards.
  - eapply triple_conseq; [apply (triple_try (guards G) _ (λ _, guards G)), guards_remove; done|done| |done]. by intros [[]|].
Qed.
Lemma write_owned_holding G target temp data perm : target ≠ [] → scratch G (child (parent target) temp) → admits G target (Some (File data perm)) →
  triple (guards G) (WriteFileOwnedAtomicWithin target temp data perm) (λ _, holding G target data perm) (guards G).
Proof.
  intros Ht Hs Ha. unfold WriteFileOwnedAtomicWithin. destruct (_ || _) eqn:Hc; [by apply triple_throw|]. assert (temp ≠ leaf target) as Hne.
  { intros ->. unfold eqt in Hc. rewrite (bool_decide_eq_true_2 (leaf target = leaf target)) in Hc by done. rewrite !orb_true_r in Hc. done. }
  eapply triple_bind; [by apply create_holding|]. intros ?. rewrite (child_split target) in Ha |- * by done. rewrite parent_child, leaf_child. by apply fill_holding.
Qed.
Lemma create_temp_holding G tries dir perm : (∀ name, scratch G (child dir (txt ".tmp-" ++ name))) →
  triple (guards G) (createRootTemp tries dir perm) (λ name d, (∃ r, name = txt ".tmp-" ++ r) ∧ holding G (child dir name) [] perm d) (guards G).
Proof.
  intros Hs. induction tries as [|tries IH]; [by apply triple_throw|]. cbn [createRootTemp].
  eapply (triple_bind _ _ (λ name d, (∃ r, name = txt ".tmp-" ++ r) ∧ guards G d)); [apply triple_step; cbn; eauto|]. intros name. apply triple_pure. intros [r ->].
  eapply triple_bind; [by apply triple_try, create_holding|]. intros [[]|[]]; [|by apply triple_throw|exact IH|by apply triple_throw..]. apply triple_ret. eauto.
Qed.
Lemma write_within_holding G target data perm : target ≠ [] → has_prefix (leaf target) (txt ".tmp-") = false → (∀ name, scratch G (child (parent target) (txt ".tmp-" ++ name))) →
  admits G target (Some (File data perm)) → triple (guards G) (WriteFileWithin target data perm) (λ _, holding G target data perm) (guards G).
Proof.
  intros Ht Hb Hs Ha. eapply triple_bind; [by apply create_temp_holding|]. intros name. apply triple_pure. intros [r ->].
  rewrite (child_split target) in Ha |- * by done. rewrite parent_child, leaf_child. apply fill_holding; [|done|done]. intros He. by rewrite <- He, (proj2 (has_prefix_spec _ _)) in Hb by eauto.
Qed.

End PullLogic.
