(* ===== verification/PullPublish.v ===== *)
(** * Carrying out one artifact, the sidecar and the journal, under guards

    What the operations of a recovery leave on the disk, for every
    specification of the disk that lets them. *)

From S2P Require Import Prelude GoText Identifiers PullTypes PullDisk PullIntent PullStore PullLogic.
Import GoText Identifiers PullTypes PullDisk PullIntent PullStore PullLogic.

Module PullPublish.
Local Open Scope Z_scope.
Local Open Scope atl_scope.

Section publish.
Variable Hash : text → text.
Context `{!PullJson Intent, !PullJson completePullJournal, !PullJson CompletePullCheckpoint, !PullJson completePullProgress, !PullJson sidecarFile}.
Variable G : spec.

(** ** Destinations *)

(** What a reader makes of an entry; a directory is no artifact. *)
Definition image (v : option node) : option PreState :=
  match v with None => Some absent | Some (File data perm) => Some (pre_of Hash data perm) | Some (Dir _) => None end.
Definition holds_pre (a : Artifact) : found := λ v, image v = Some (Pre a).
Definition holds_post (a : Artifact) : found := λ v, ∃ s, image v = Some s ∧ publicationMatchesPost s a = true.
Definition pre_or_post (a : Artifact) : found := λ v, holds_pre a v ∨ holds_post a v.

Lemma current_triple (P : assertion) rel max (I : assertion) : (∀ d, P d → I d) →
  triple P (publicationCurrentWithinLimit Hash rel max) (λ r d, image (look d (place rel)) = Some r.1 ∧ P d) I.
Proof.
  intros Hi. eapply triple_bind; [by apply triple_check|]. intros []. apply triple_pure. intros _.
  eapply triple_bind; [by apply triple_stat|]. intros [[data perm|]|]; [| |].
  - eapply triple_bind; [apply triple_check; naive_solver|]. intros []. apply triple_pure. intros _.
    eapply triple_bind; [apply triple_file; naive_solver|]. intros b.
    eapply triple_bind; [apply triple_stat; naive_solver|]. intros after.
    eapply triple_bind; [apply triple_check; naive_solver|]. intros []. apply triple_ret.
    intros d (Ha & -> & _ & _ & Hp). rewrite bool_decide_eq_true in Ha. by rewrite Ha.
  - apply triple_throw; naive_solver.
  - apply triple_ret. intros d [Hl Hp]. by rewrite <- Hl.
Qed.
Lemma transition_triple (P : assertion) a (I : assertion) : (∀ d, P d → I d) →
  triple P (publicationCurrentForIntentTransition Hash a) (λ s d, image (look d (place (Path a))) = Some s ∧ P d) I.
Proof. intros Hi. eapply triple_bind; [by apply current_triple|]. intros r. by apply triple_ret. Qed.
Lemma postcondition_triple (P : assertion) a (I : assertion) : (∀ d, P d → I d) →
  triple P (publicationCurrentForIntentPostcondition Hash a) (λ s d, image (look d (place (Path a))) = Some s ∧ P d) I.
Proof. intros Hi. eapply triple_bind; [by apply current_triple|]. intros r. by apply triple_ret. Qed.

(** ** Owned files *)

Lemma residue_triple q X target temp max mode : q ≠ [] → scratch G (child (parent target) temp) → unseen q X (child (parent target) temp) →
  triple (pw G q X) (removeCompletePullOwnedResidue target temp max mode) (λ _, pw G q X) (guards G).
Proof.
  intros Hq (Hp & Ha & Hb) Hu. eapply triple_bind; [apply triple_check, pw_guards|]. intros []. apply triple_pure. intros _.
  eapply triple_bind; [apply triple_stat, pw_guards|]. intros [[data perm|]|].
  - eapply triple_bind; [apply triple_check; intros d [_ H]; by eapply pw_guards|]. intros [].
    eapply triple_bind; [eapply triple_conseq; [by apply (pw_remove_if_exists G q X)| |done|]|]; [naive_solver|apply pw_guards|]. intros [].
    eapply triple_conseq; [by apply pw_sync_path|done|naive_solver|done].
  - apply triple_throw. intros d [_ H]. by eapply pw_guards.
  - apply triple_ret. naive_solver.
Qed.
Lemma owned_triple target temp data perm : target ≠ [] → scratch G (child (parent target) temp) → admits G target (Some (File data perm)) →
  triple (guards G) (writeCompletePullOwned target temp data perm) (λ _, holding G target data perm) (guards G).
Proof.
  intros Ht Hs Ha. eapply triple_bind.
  - eapply triple_conseq; [apply (residue_triple target trivially); [done|exact Hs|by right]|by split|done|done].
  - intros []. eapply triple_conseq; [by apply write_owned_holding|by intros d []|done|done].
Qed.

(** ** Publishing an artifact *)

Lemma publish_triple dir a : let p := place (Path a) in
  p ≠ [] → (∀ v, holds_post a v → admits G p v) → bare G p → (Remove a = false → scratch G (child (parent p) (Temp a)) ∧ child (parent p) (Temp a) ≠ p) →
  (∀ x, x ∈ ancestors p → admits G x (Some (Dir mode0755))) →
  triple (guards G) (publishArtifact Hash dir a) (λ _ d, guards G d ∧ may d p (holds_post a)) (guards G).
Proof.
  intros p Hp Ha Hb Ht Hd. eapply triple_bind; [by apply transition_triple|]. intros current. destruct (publicationMatchesPost current a && negb _) eqn:Hc.
  - (* it is there already *)
    apply andb_true_iff in Hc as [Hc _]. eapply (triple_bind _ _ (λ _, pw G p (holds_post a))).
    + destruct (Remove a) eqn:Hr; [apply triple_ret; intros d [Hl Hg]; split; [done|by exists current]|].
      eapply triple_conseq; [apply (residue_triple p (holds_post a)); [done|apply Ht; done|left; by apply Ht]| |done|done]. intros d [Hl Hg]. split; [done|by exists current].
    + intros []. eapply triple_conseq; [by apply pw_sync_path|done| |done]. intros [] d [[Hg Hl] Hs]. split; [done|]. apply settled_may; [apply Hg|done|done|done].
  - (* it is written *)
    eapply triple_bind; [apply triple_check; naive_solver|]. intros []. eapply (triple_bind _ _ (λ _, guards G)).
    + destruct (Remove a) eqn:Hr.
      { destruct (Present current); [|apply triple_ret; naive_solver]. eapply triple_conseq; [apply (pw_remove_if_exists G p trivially Hp p); [done|apply Ha|done|by right]| | |].
        - exists absent. split; [done|]. unfold publicationMatchesPost. by rewrite Hr.
        - intros d (_ & _ & Hg). by split.
        - by intros [] d [].
        - by intros d []. }
      eapply triple_bind; [apply triple_file; naive_solver|]. intros payload. eapply triple_bind; [apply triple_check; naive_solver|]. intros []. apply triple_pure.
      rewrite andb_true_iff. unfold eqt. rewrite bool_decide_eq_true. intros [_ Hh].
      eapply (triple_bind _ _ (λ _, guards G)).
      { eapply triple_conseq; [apply (pw_mkdir_all G p trivially Hp)| | |].
        - intros x Hx Hne. split; [apply Hd|by right]. unfold p in *. rewrite (child_split (place (Path a))) by done. rewrite ancestors_child.
          destruct (parent (place (Path a))) eqn:He; [by apply list_elem_of_singleton in Hx|done].
        - intros d (_ & _ & _ & Hg). by split.
        - by intros [] d [].
        - by intros d []. }
      intros []. destruct (Ht eq_refl) as [Hs Hne]. eapply triple_bind; [apply triple_try, owned_triple|].
      * done.
      * done.
      * apply Ha. exists (pre_of Hash payload (Mode a)). split; [done|]. unfold publicationMatchesPost. rewrite Hr. cbn. rewrite andb_false_r, Hh. unfold eqt.
        by rewrite bool_decide_eq_true_2, Z.eqb_refl.
      * intros [[]|e]; [by apply triple_ret; intros d []|]. destruct (BestEffort a) eqn:Hbe; [|by apply triple_throw].
        eapply triple_conseq; [apply (pw_remove_if_exists G p trivially Hp p); [done|apply Ha|done|by right]|by split|by intros [] d []|by intros d []].
        exists absent. split; [done|]. unfold publicationMatchesPost. rewrite Hbe. by rewrite orb_true_r.
    + intros []. eapply triple_bind.
      { eapply triple_conseq; [apply (pw_sync_path G p trivially p)| |done|done]. by split. }
      intros []. eapply triple_bind; [apply postcondition_triple; by intros d [[Hg _] _]|]. intros after. eapply triple_conseq; [|intros d H; exact H| |intros d H; exact H]; [apply triple_check; by intros d (_ & [Hg _] & _)|].
      intros [] d (Hm & Hl & [Hg _] & Hs). split; [done|]. apply settled_may; [apply Hg|done|done|by exists after].
Qed.

(** ** The intent and the sidecar *)

Lemma remove_triple (p : path) : p ≠ [] → admits G p None → bare G p → triple (guards G) (remove_if_exists p) (λ _, guards G) (guards G).
Proof. intros Hp Ha Hb. eapply triple_conseq; [apply (pw_remove_if_exists G p trivially Hp p Hp Ha Hb); by right|by split|by intros [] d []|by intros d []]. Qed.
Lemma sync_path_triple p : triple (guards G) (syncPublicationPath p) (λ _, guards G) (guards G).
Proof. eapply triple_conseq; [apply (pw_sync_path G p trivially p)|by split|by intros [] d [[] _]|done]. Qed.
Lemma sync_triple p : triple (guards G) (SyncDirectoryWithin p) (λ _, guards G) (guards G).
Proof. eapply triple_conseq; [apply (pw_sync G p trivially)|by split|by intros [] d []|by intros d []]. Qed.
Lemma mkdir_triple (p dir : path) perm : (∀ x, x ∈ ancestors dir ++ [dir] → x ≠ [] → admits G x (Some (Dir perm))) → p ≠ [] → triple (guards G) (MkdirAllWithin dir perm) (λ _, guards G) (guards G).
Proof.
  intros H Hp. eapply triple_conseq; [apply (pw_mkdir_all G p trivially Hp)|by split|by intros [] d []|by intros d []]. intros x Hx Hne. split; [by apply H|by right].
Qed.
Lemma save_triple dir i : admits G (intent_path dir) (Some (File (encodeIndent i ++ ["010"%char]) mode0600)) → (∀ name, scratch G (child dir (txt ".tmp-" ++ name))) →
  triple (guards G) (savePublicationIntent dir i) (λ _, guards G) (guards G).
Proof.
  intros Ha Hs. eapply triple_bind; [by apply triple_check|]. intros []. apply triple_pure. intros _. eapply triple_bind.
  - apply write_within_holding; [apply child_nonempty| | |exact Ha]; unfold intent_path; [by rewrite leaf_child|by rewrite parent_child].
  - intros []. eapply triple_conseq; [apply sync_triple|by intros d []|done|done].
Qed.

(** Names next to the sidecar may be used at will. *)
Hypothesis atl_dir : ∀ v, admits G atlDir v.
Hypothesis atl_names : ∀ n, n ≠ txt "complete-pulls" → n ≠ txt "base" → scratch G (child atlDir n).
Lemma lock_triple : triple (guards G) lockSidecar (λ _, guards G) (guards G).
Proof.
  eapply triple_bind; [apply (mkdir_triple sidecarPath); [|done]|].
  - intros x Hx Hne. cbn in Hx. apply list_elem_of_singleton in Hx as ->. apply atl_dir.
  - intros []. apply triple_prim; [done|]. intros d Hg. destruct (atl_names (txt "state.lock")) as (Hp & Ha & Hb); [done..|].
    destruct (look d sidecarLockPath) as [[]|] eqn:Hl; cbn [fst snd]; [done..|]. destruct (exists_dir d (parent sidecarLockPath)) eqn:He; cbn [fst snd]; [|done].
    apply guards_put; [done|done|done|apply Ha|by rewrite Hl].
Qed.
Lemma load_sidecar_triple : triple (guards G) loadSidecar (λ _, guards G) (guards G).
Proof.
  eapply triple_bind; [by apply triple_stat|]. intros [[b perm|]|]; [|by apply triple_throw; naive_solver|by apply triple_ret; naive_solver].
  destruct (decodeStrict b); [|by apply triple_throw; naive_solver]. eapply triple_conseq; [by apply triple_lift|naive_solver|naive_solver|done].
Qed.
Lemma save_sidecar_triple sc temp : validCompletePullTempName temp = true → temp ≠ txt "complete-pulls" → temp ≠ txt "base" → triple (guards G) (saveSidecarOwned sc temp) (λ _, guards G) (guards G).
Proof.
  intros _ H1 H2. eapply triple_bind; [apply (mkdir_triple sidecarPath); [|done]|].
  - intros x Hx Hne. cbn in Hx. apply list_elem_of_singleton in Hx as ->. apply atl_dir.
  - intros []. eapply triple_conseq; [apply owned_triple; [done|by apply atl_names|by apply (atl_names (txt "state.json"))]|done|by intros [] d []|done].
Qed.
Lemma merge_entry_triple service e token : triple (guards G) (merge_entry service e token) (λ _, guards G) (guards G).
Proof.
  assert (completePullSidecarTemp token ≠ txt "complete-pulls" ∧ completePullSidecarTemp token ≠ txt "base") as [H1 H2] by done.
  unfold merge_entry. destruct (eqt service Jira).
  - eapply triple_bind; [by apply triple_check|]. intros []. apply triple_pure. rewrite andb_true_iff. intros [_ Hv]. eapply triple_bind; [apply lock_triple|]. intros [].
    eapply triple_bind; [apply load_sidecar_triple|]. intros sc. eapply triple_bind; [by apply triple_lift|]. intros sc'. apply triple_pure. intros _. by apply save_sidecar_triple.
  - eapply triple_bind; [by apply triple_check|]. intros []. apply triple_pure. intros Hv. unfold mergeSidecarPatchWithOwnedTemp. cbn [map length Nat.eqb andb].
    eapply triple_bind; [apply lock_triple|]. intros []. eapply triple_bind; [apply load_sidecar_triple|]. intros sc. eapply triple_bind; [by apply triple_lift|]. intros sc'.
    apply triple_pure. intros _. unfold eqt. rewrite bool_decide_eq_false_2 by done. by apply save_sidecar_triple.
Qed.
End publish.
Section foreign.
Variable Hash : text → text.
(** A destination that holds neither its reviewed pre-image nor the staged
    post-image is left alone, with an error, whatever else happens. *)
Theorem foreign_preserved dir a η w : ¬ pre_or_post Hash a (look (dsk w) (place (Path a))) →
  dsk (publishArtifact Hash dir a η w).1 = dsk w ∧ (publishArtifact Hash dir a η w).2 ≠ Done tt.
Proof.
  intros Hn. assert (triple (λ d, d = dsk w) (publishArtifact Hash dir a) (λ _ _, False) (λ d, d = dsk w)) as H.
  { eapply triple_bind; [by apply (transition_triple Hash (λ d, d = dsk w))|]. intros current.
    apply (triple_conseq _ (λ d, image Hash (look (dsk w) (place (Path a))) = Some current ∧ d = dsk w) _ _ (λ _ _, False) _ (λ d, d = dsk w)); [|by intros d [H ->]|done|done].
    apply triple_pure. intros Hi. destruct (publicationMatchesPost current a) eqn:Hp; [destruct Hn; right; by exists current|]. cbn [andb].
    eapply triple_bind; [by apply triple_check|]. intros []. apply triple_pure. intros Hm%bool_decide_eq_true. destruct Hn. left. unfold holds_pre. by rewrite Hi, Hm. }
  specialize (H η w eq_refl). destruct (publishArtifact Hash dir a η w) as [w' [[]|e|]]; cbn in *; by destruct H || split.
Qed.
End foreign.
End PullPublish.
