(* ===== verification/PullFacts.v ===== *)
(** * A complete pull survives crashes

    Whatever faults and losses of power interrupt the publication of a page,
    every file it touches holds what it held before or what it is to hold, and
    a recovery that succeeds has published all of it for good. *)

From S2P Require Import Prelude GoText Identifiers PullTypes PullDisk PullIntent PullStore PullLogic PullPublish.
Import GoText Identifiers PullTypes PullDisk PullIntent PullStore PullLogic PullPublish.

Module PullFacts.
Local Open Scope Z_scope.
Local Open Scope atl_scope.

(** ** Checks *)

Lemma require_ok c why r : require c why = Ok r → c = true.
Proof. by destruct c. Qed.
Lemma bind_ok {A B} (m : checked A) (k : A → checked B) b : rbind m k = Ok b → ∃ a, m = Ok a ∧ k a = Ok b.
Proof. destruct m as [a|]; [|done]. by exists a. Qed.
(** The conditions of a chain of checks that went well. *)
Ltac checks H :=
  repeat match type of H with
  | rbind _ _ = Ok _ => let E := fresh "Hok" in let a := fresh "u" in apply bind_ok in H as (a & E & H); try apply require_ok in E
  end; try apply require_ok in H.

(** ** Paths of artifacts *)

Lemma components_nonempty s : components s ≠ [].
Proof. destruct s as [|c s]; cbn; [done|]. case_decide; [done|]. by destruct (components s). Qed.
Lemma components_no_slash s p : p ∈ components s → slash ∉ p.
Proof.
  revert p. induction s as [|c s IH]; intros p; cbn; [intros ->%list_elem_of_singleton; apply not_elem_of_nil|]. case_decide as Hc.
  - intros [->|Hp]%elem_of_cons; [apply not_elem_of_nil|by apply IH].
  - destruct (components s) as [|q ps]; [intros ->%list_elem_of_singleton|intros [->|Hp]%elem_of_cons].
    + by intros ?%list_elem_of_singleton.
    + intros [?|Hs]%elem_of_cons; [done|]. by apply (IH q); [apply list_elem_of_here|].
    + apply IH. by apply list_elem_of_further.
Qed.
Lemma components_app p s : slash ∉ p → components (p ++ slash :: s) = p :: components s.
Proof.
  induction p as [|c p IH]; intros H; cbn [app components]; [by rewrite decide_True|]. apply not_elem_of_cons in H as [Hc Hp]. rewrite decide_False by done. by rewrite IH.
Qed.
Lemma components_plain p : slash ∉ p → components p = [p].
Proof. induction p as [|c p IH]; intros H; [done|]. cbn. apply not_elem_of_cons in H as [Hc Hp]. rewrite decide_False by done. by rewrite IH. Qed.
Lemma components_join ps : ps ≠ [] → (∀ p, p ∈ ps → slash ∉ p) → components (join_path ps) = ps.
Proof.
  induction ps as [|p ps IH]; intros Hne H; [done|]. destruct ps as [|r ps]; [apply components_plain, H, list_elem_of_here|].
  cbn [join_path]. rewrite components_app by apply H, list_elem_of_here. f_equal. apply IH; [done|]. intros x Hx. by apply H, list_elem_of_further.
Qed.
Lemma join_components s : join_path (components s) = s.
Proof.
  induction s as [|c s IH]; [done|]. cbn [components]. pose proof (components_nonempty s) as Hne. case_decide as Hc.
  - subst c. destruct (components s) eqn:He; [done|]. cbn [join_path app]. f_equal. exact IH.
  - destruct (components s) as [|p ps]; [done|]. destruct ps; cbn in IH |- *; by rewrite <- IH.
Qed.

(** A path away from the private state, or in its pristine base. *)
Definition outside (p : path) : Prop := match p with [] => False | x :: l => x ≠ txt ".atl" ∨ ∃ y l', l = txt "base" :: y :: l' end.
Lemma outside_place v q : parseDurableArtifactPath v = Ok q → outside (place v).
Proof.
  unfold parseDurableArtifactPath, place. destruct (is_reserved (first_component v)) eqn:Hr; unfold NewPrivateBaseArtifactPath, NewPublicArtifactPath, newArtifactPath, validateArtifactPath.
  - intros H. checks H. clear H. apply bind_ok in Hok as (_ & _ & Hok). checks Hok. rename Hok into Ha. cbn [class_admits] in Ha. rewrite !andb_true_iff, !negb_true_iff in Ha.
    destruct Ha as [[[H1 H2] H3] H4]. unfold first_component, rest_components in *. pose proof (components_nonempty v) as Hne. pose proof (components_no_slash v) as Hns.
    destruct (components v) as [|x ps]; [done|]. cbn [hd tail] in *. right. destruct ps as [|y ps]; [done|]. rewrite components_join in H3, H4; [|done|intros p Hp; by apply Hns, list_elem_of_further..|done|intros p Hp; by apply Hns, list_elem_of_further].
    cbn [hd tail] in *. unfold eqt in H3. apply bool_decide_eq_true in H3. destruct ps as [|z ps]; [done|]. by exists z, ps; subst.
  - intros _. unfold first_component in Hr. pose proof (components_nonempty v). destruct (components v) as [|x ps]; [done|]. left. intros ->. by vm_compute in Hr.
Qed.
Lemma outside_sibling p n : outside p → n ≠ txt ".atl" → outside (child (parent p) n).
Proof.
  intros Ho Hn. destruct p as [|x [|y l]]; [done|by left|]. destruct Ho as [Hx|(z & l' & He)]; [by left|]. right. injection He as -> ->.
  unfold parent, child. cbn [removelast]. destruct (removelast (z :: l')) as [|u r] eqn:Hr.
  - destruct l'; [|done]. cbn. eauto.
  - cbn [removelast] in Hr. destruct l'; [done|]. injection Hr as <- <-. cbn. eauto.
Qed.
Lemma ancestors_outside p x : outside p → x ∈ ancestors p → outside x ∨ x = [txt ".atl"] ∨ x = [txt ".atl"; txt "base"].
Proof.
  intros Ho (k & Hk & ->)%elem_of_ancestors. destruct p as [|y l]; [done|]. destruct k as [|k]; [lia|]. cbn [take]. destruct Ho as [Hy|(z & l' & ->)]; [by left; left|].
  destruct (decide (y = txt ".atl")) as [->|]; [|by left; left]. destruct k as [|[|k]]; [by right; left|by right; right|]. left. right. cbn. eauto.
Qed.
Lemma elem_of_ancestor (p x : path) n : x ∈ ancestors p → n ∈ x → n ∈ p.
Proof. intros (k & _ & ->)%elem_of_ancestors Hn. rewrite <- (take_drop k p), elem_of_app. by left. Qed.


(** The components of a cleaned path: some [..] and then names. *)
Definition plain (p : text) : Prop := p ≠ [] ∧ p ≠ txt "." ∧ p ≠ txt "..".
Definition dotted (p : text) : Prop := p = txt "..".
Definition cleaned (out : list text) : Prop := ∃ names ups, out = names ++ ups ∧ Forall plain names ∧ Forall dotted ups.
Lemma clean_loop_cleaned rooted ps out : cleaned out → cleaned (clean_loop rooted ps out).
Proof.
  revert out. induction ps as [|p ps IH]; intros out H; [done|]. cbn [clean_loop]. unfold eqt. destruct (bool_decide (p = [])) eqn:H1; [by apply IH|]. cbn [orb].
  destruct (bool_decide (p = txt ".")) eqn:H2; [by apply IH|]. destruct (bool_decide (p = txt "..")) eqn:H3.
  - apply bool_decide_eq_true in H3. subst p. destruct out as [|o out'].
    + apply IH. destruct rooted; [done|]. exists [], [txt ".."]. split; [done|]. split; [constructor|by constructor].
    + destruct H as (names & ups & He & Hn & Hu). destruct (bool_decide (o = txt "..")) eqn:Ho; [apply bool_decide_eq_true in Ho|apply bool_decide_eq_false in Ho].
      * apply IH. subst o. exists [], (txt ".." :: txt ".." :: out'). split; [done|]. split; [constructor|]. constructor; [done|]. destruct names as [|n names]; [by rewrite He|].
        injection He as <- _. apply Forall_cons in Hn as [(_ & _ & Hn) _]. done.
      * apply IH. destruct names as [|n names]; [|injection He as _ ->; apply Forall_cons in Hn as [_ Hn]; by exists names, ups].
        cbn in He. subst ups. apply Forall_cons in Hu as [? _]. done.
  - apply IH. destruct H as (names & ups & -> & Hn & Hu). apply bool_decide_eq_false in H1, H2, H3. exists (p :: names), ups. split; [done|]. split; [by constructor|done].
Qed.
Lemma contained_place v q : parseDurableArtifactPath v = Ok q → Forall plain (place v).
Proof.
  intros H. assert (canonical_relative v = true) as Hc.
  { unfold parseDurableArtifactPath in H. destruct (is_reserved _); unfold NewPrivateBaseArtifactPath, NewPublicArtifactPath, newArtifactPath, validateArtifactPath in H;
      apply bind_ok in H as (? & H & _); checks H; assumption. }
  clear H. unfold canonical_relative in Hc. rewrite !andb_true_iff, !negb_true_iff in Hc. destruct Hc as [[[[H1 H2] H3] H4] H5]. unfold eqt in H1, H3, H4.
  apply bool_decide_eq_true in H1. apply bool_decide_eq_false in H3, H4. unfold clean in H1. rewrite H2 in H1.
  destruct (clean_loop_cleaned false (components v) []) as (names & ups & He & Hn & Hu). { exists [], []. split_and!; [done|constructor..]. }
  rewrite He, reverse_app in H1. assert (Forall (λ p, slash ∉ p) (reverse ups ++ reverse names)) as Hs.
  { rewrite <- reverse_app, <- He, Forall_reverse. assert (∀ rooted ps out, Forall (λ p, slash ∉ p) ps → Forall (λ p, slash ∉ p) out → Forall (λ p, slash ∉ p) (clean_loop rooted ps out)) as Hl.
    { intros rooted. induction ps as [|p ps IH]; intros out Hp Ho; [done|]. apply Forall_cons in Hp as [Hp Hps]. cbn [clean_loop]. destruct (_ || _); [by apply IH|]. destruct (eqt p (txt "..")).
      - destruct out as [|o out']; [apply IH; [done|]; destruct rooted; [constructor|by constructor]|]. destruct (eqt o _); apply IH; try done; [by constructor|by apply Forall_cons in Ho as [_ ?]].
      - apply IH; [done|by constructor]. }
    apply Hl; [|constructor]. rewrite Forall_forall. apply components_no_slash. }
  assert (reverse ups ++ reverse names ≠ []) as Hne by (intros Hz; rewrite Hz in H1; by apply H3).
  assert (join_path (reverse ups ++ reverse names) = v) as Hv.
  { destruct (eqt (join_path (reverse ups ++ reverse names)) []); [|done]. by rewrite H1 in H3. }
  unfold place. rewrite <- Hv, components_join; [|done|by rewrite Forall_forall in Hs]. destruct ups as [|u ups]; [by rewrite reverse_nil; cbn [app]; rewrite Forall_reverse|]. exfalso.
  rewrite <- Forall_reverse in Hu. destruct (reverse (u :: ups)) as [|x l] eqn:Hl; [by apply (f_equal length) in Hl; rewrite length_reverse in Hl|]. apply Forall_cons in Hu as [Hx _]. unfold dotted in Hx. subst x v. cbn [app join_path] in H4, H5.
  destruct (l ++ reverse names); [done|]. rewrite (proj2 (has_prefix_spec _ _)) in H5; [done|]. by eexists.
Qed.
(** C25: A stored path that is read back leads to a place below the root of the
    mirror by plain names only, and not into its private state unless to a
    pristine base. *)
Theorem artifact_path_contained v q : parseDurableArtifactPath v = Ok q → Forall plain (place v) ∧ outside (place v).
Proof. intros H. split; [by eapply contained_place|by eapply outside_place]. Qed.


(** ** What an intent declares *)

Lemma artifacts_loop_declared i n seen l : artifacts_loop i n seen l = Ok tt →
  (∀ a, a ∈ l → (registrationPathKey (Path a) ∉ seen) ∧ ∃ k, declared (Service i) (Entry i) a true (WriteToken i) k = Ok tt) ∧ NoDup (map (λ a, registrationPathKey (Path a)) l).
Proof.
  revert n seen. induction l as [|a l IH]; intros n seen H; [split; [by intros a ?%elem_of_nil|by constructor]|]. cbn [artifacts_loop] in H. checks H.
  destruct u1. rewrite negb_true_iff, bool_decide_eq_false in Hok2. apply IH in H as [H1 H2]. split.
  - intros b [->|Hb]%elem_of_cons; [split; [done|eauto]|]. destruct (H1 b Hb) as [Hk Hd]. split; [|done]. intros Hs. apply Hk. by apply list_elem_of_further.
  - cbn [map]. constructor; [|done]. intros Hin. change (map ?f ?x) with (f <$> x) in Hin. apply list_elem_of_fmap in Hin as (b & He & Hb). destruct (H1 b Hb) as [Hk _].
    destruct Hk. rewrite <- He. apply list_elem_of_here.
Qed.
Lemma declared_facts service e a token k : declared service e a true token k = Ok tt → outside (place (Path a)) ∧ (Remove a = false → Temp a = completePullArtifactTemp token k).
Proof.
  unfold declared. intros H. apply bind_ok in H as (q & Hq & H). checks H. split; [by eapply outside_place|]. intros Hr. rewrite Hr in H. checks H.
  unfold eqt in H. rewrite andb_true_iff, bool_decide_eq_true in H. apply H.
Qed.
Lemma validate_declared_loop i c : validate_declared i c = Ok tt → artifacts_loop i 0 [] (all_artifacts i) = Ok tt.
Proof. unfold validate_declared. intros H. checks H. match goal with E : artifacts_loop _ _ _ _ = Ok ?u |- _ => by destruct u end. Qed.

(** ** The files of one publication *)

Section crash.
Variable Hash : text → text.
Context `{!PullJson Intent, !PullJson completePullJournal, !PullJson CompletePullCheckpoint, !PullJson completePullProgress, !PullJson sidecarFile}.
(** The checkpoint of the selection and the intent as it was first stored. *)
Variable c : CompletePullCheckpoint.
Variable i0 : Intent.
Abbreviation all := (all_artifacts i0).
Abbreviation stage := (completePullPublicationDir (cSelector c)).
Abbreviation journal := (completePullJournalPath (cSelector c)).

(** What the recovery relies on: the intent is valid, no artifact lies below
    another, and the names of temporary files occur in no path. *)
Record footprint : Prop := {
  fp_selector : validSHA256 (cSelector c) = true;
  fp_declared : validate_declared i0 (current_schema c) = Ok tt;
  fp_prefix a b : a ∈ all → b ∈ all → place (Path a) ∉ ancestors (place (Path b));
  fp_temps a b : a ∈ all → b ∈ all → Remove a = false → Temp a ∉ place (Path b)
}.
Hypothesis fp : footprint.

Lemma all_outside a : a ∈ all → outside (place (Path a)).
Proof. intros Ha. pose proof (fp_declared fp) as H. apply validate_declared_loop, artifacts_loop_declared in H as [H _]. destruct (H a Ha) as (_ & k & Hk). by apply declared_facts in Hk as [? _]. Qed.
Lemma place_nonempty a : place (Path a) ≠ [].
Proof. apply components_nonempty. Qed.
Lemma temp_of a : a ∈ all → Remove a = false → ∃ s, Temp a = txt ".atl-cp-" ++ s.
Proof.
  intros Ha Hr. pose proof (fp_declared fp) as H. apply validate_declared_loop, artifacts_loop_declared in H as [H _]. destruct (H a Ha) as (_ & k & Hk).
  apply declared_facts in Hk as [_ ->]; [|done]. unfold completePullArtifactTemp, temp_name. rewrite <- !app_assoc. eauto.
Qed.
Lemma place_inj a b : a ∈ all → b ∈ all → place (Path a) = place (Path b) → a = b.
Proof.
  intros Ha Hb He. pose proof (fp_declared fp) as H. apply validate_declared_loop, artifacts_loop_declared in H as [_ H]. change (map ?f ?x) with (f <$> x) in H.
  apply list_elem_of_lookup in Ha as (n & Ha), Hb as (m & Hb). assert (n = m) as ->; [|congruence].
  eapply (NoDup_lookup _ _ _ (registrationPathKey (Path a)) H); rewrite list_lookup_fmap; [by rewrite Ha|rewrite Hb; cbn]. unfold place in He. by rewrite <- (join_components (Path a)), He, join_components.
Qed.

(** Paths of the private state that are not in a pristine base. *)
Definition inside (p : path) : Prop := ∃ n l, p = txt ".atl" :: n :: l ∧ n ≠ txt "base".
Lemma inside_not p a : inside p → a ∈ all → p ≠ place (Path a) ∧ p ∉ ancestors (place (Path a)).
Proof.
  intros (n & l & -> & Hn) Ha. pose proof (all_outside a Ha) as Ho. split.
  - intros He. rewrite <- He in Ho. destruct Ho as [?|(y & l' & ?)]; [done|congruence].
  - intros Hin. destruct (ancestors_outside _ _ Ho Hin) as [[?|(y & l' & ?)]|[?|?]]; [done|congruence|congruence|congruence].
Qed.

(** ** What is guarded *)

(** The intent with other progress. *)
Definition moved (k : Z) : option Relocation_ → option Relocation_ := option_map (λ r, {| relArtifacts := relArtifacts r; relNext := k |}).
Definition at_progress (n : Z) (published : bool) (k : Z) (committed : bool) : Intent := progress_to n published (moved k (Relocation i0)) committed i0.
(** A stored journal that holds the page. *)
Definition accepted : found := λ v, ∃ b perm j, v = Some (File b perm) ∧ decodeStrict b = Some j ∧ entry_at j (Index i0) = Some (Entry i0).
Definition complete (D : list Artifact) (acc : Prop) : Prop := (∀ a, a ∈ all → a ∈ D) ∧ (Eligible i0 = true → acc).
(** A stored intent claims only what is published for good; without one
    everything is. *)
Definition truthful (D : list Artifact) (acc : Prop) : found := λ v,
  match v with
  | None => complete D acc
  | Some (Dir _) => False
  | Some (File b _) => ∃ n published k committed, decodeStrict b = Some (at_progress n published k committed) ∧
      (∀ a, a ∈ take (Z.to_nat n) (Artifacts i0) → a ∈ D) ∧ (∀ a, a ∈ take (Z.to_nat k) (relocated i0) → a ∈ D) ∧ (committed = true → complete D acc)
  end.
(** [D] is published for good, and the page is accepted if [acc]. *)
Inductive level (D : list Artifact) (acc : Prop) : spec :=
| level_dest a : a ∈ all → level D acc (place (Path a)) (pre_or_post Hash a)
| level_done a : a ∈ all → a ∈ D → level D acc (place (Path a)) (holds_post Hash a)
| level_intent : level D acc (intent_path stage) (truthful D acc)
| level_journal : acc → level D acc journal accepted.
Definition inv : assertion := λ d, ∃ D acc, guards (level D acc) d.

Lemma inv_intro D acc d : guards (level D acc) d → inv d.
Proof. by exists D, acc. Qed.
Lemma truthful_mono D acc D' (acc' : Prop) v : (∀ a, a ∈ D → a ∈ D') → (acc → acc') → truthful D acc v → truthful D' acc' v.
Proof.
  intros HD Ha. assert (complete D acc → complete D' acc') as Hc by (intros [H1 H2]; split; auto). destruct v as [[b p|]|]; cbn; [|done|done].
  intros (n & pub & k & com & H1 & H2 & H3 & H4). exists n, pub, k, com. split_and!; auto.
Qed.
Lemma level_publish D acc a d : a ∈ all → guards (level D acc) d → may d (place (Path a)) (holds_post Hash a) → guards (level (D ++ [a]) acc) d.
Proof.
  intros Ha [Hw H] Hm. split; [done|]. intros p S [b Hb|b Hb HD| |Hacc].
  - apply H. by constructor.
  - apply elem_of_app in HD as [HD| ->%list_elem_of_singleton]; [apply H; by constructor|split; [apply place_nonempty|done]].
  - destruct (H _ _ (level_intent _ _)) as [Hne Ht]. split; [done|]. eapply may_mono; [|exact Ht]. intros v. apply truthful_mono; [|done]. intros b Hb. rewrite elem_of_app. by left.
  - apply H. by constructor.
Qed.
Lemma level_accept D acc d : guards (level D acc) d → may d journal accepted → guards (level D True) d.
Proof.
  intros [Hw H] Hm. split; [done|]. intros p S [b Hb|b Hb HD| |_].
  - apply H. by constructor.
  - apply H. by constructor.
  - destruct (H _ _ (level_intent _ _)) as [Hne Ht]. split; [done|]. eapply may_mono; [|exact Ht]. intros v. by apply truthful_mono.
  - split; [|done]. apply child_nonempty.
Qed.

(** ** What may be written *)

Lemma selector_byte x l : txt "." ++ x ≠ cSelector c ++ l.
Proof.
  pose proof (fp_selector fp) as H. unfold validSHA256 in H. apply andb_true_iff in H as [Hl H]. apply Nat.eqb_eq in Hl. destruct (cSelector c) as [|h s]; [done|].
  intros He. cbn in He. injection He as <- _. unfold hex_decodes in H. apply andb_true_iff in H as [_ H]. done.
Qed.
Lemma level_paths D acc p S : level D acc p S → (∃ a, a ∈ all ∧ p = place (Path a)) ∨ p = intent_path stage ∨ p = journal.
Proof. intros []; eauto. Qed.
Lemma scratch_inside D acc p : inside p → p ≠ intent_path stage → p ≠ journal → p ∉ ancestors (intent_path stage) → p ∉ ancestors journal → scratch (level D acc) p.
Proof.
  intros Hi H1 H2 H3 H4. split; [by destruct Hi as (? & ? & -> & _)|]. split.
  - intros v S [(a & Ha & ->)|[->| ->]]%level_paths; [by destruct (inside_not _ a Hi Ha)|done|done].
  - intros q S [(a & Ha & ->)|[->| ->]]%level_paths Hin; [by destruct (inside_not _ a Hi Ha)|done|done].
Qed.
Lemma ancestors_intent p : p ∈ ancestors (intent_path stage) ↔ p = atlDir ∨ p = completePullsDir ∨ p = stage.
Proof. change (ancestors (intent_path stage)) with [atlDir; completePullsDir; stage]. rewrite !elem_of_cons. split; [intros [?|[?|[?|?%elem_of_nil]]]|intros [?|[?|?]]]; tauto. Qed.
Lemma ancestors_journal p : p ∈ ancestors journal ↔ p = atlDir ∨ p = completePullsDir.
Proof. change (ancestors journal) with [atlDir; completePullsDir]. rewrite !elem_of_cons. split; [intros [?|[?|?%elem_of_nil]]|intros [?|?]]; tauto. Qed.
Lemma scratch_atl D acc n : n ≠ txt "complete-pulls" → n ≠ txt "base" → scratch (level D acc) (child atlDir n).
Proof.
  intros H1 H2. apply scratch_inside; [by exists n, []|done|done|rewrite ancestors_intent; intros [?|[He|?]]|rewrite ancestors_journal; intros [?|He]];
    try done; by apply (child_inj atlDir n atlDir (txt "complete-pulls")) in He as [_ ?].
Qed.
Lemma scratch_pulls D acc x : scratch (level D acc) (child completePullsDir (txt "." ++ x)).
Proof.
  apply scratch_inside; [by exists (txt "complete-pulls"), [txt "." ++ x]|done|intros He|rewrite ancestors_intent; intros [?|[?|He]]; [done..|]|rewrite ancestors_journal; intros [?|?]; done];
    apply child_inj in He as [_ He]; by apply selector_byte in He.
Qed.
Lemma scratch_stage D acc x : scratch (level D acc) (child stage (txt ".tmp-" ++ x)).
Proof.
  apply scratch_inside; [eexists _, _; done|intros He; by apply child_inj in He as [_ ?]|done|rewrite ancestors_intent; intros [?|[?|?]]; done|rewrite ancestors_journal; intros [?|?]; done].
Qed.
Lemma not_outside_private p : outside p → p ≠ atlDir ∧ p ≠ completePullsDir ∧ p ≠ stage ∧ p ≠ intent_path stage ∧ p ≠ journal.
Proof. intros Ho. split_and!; intros ->; destruct Ho as [?|(y & l & ?)]; done. Qed.
Lemma admits_elsewhere D acc p v : (∀ a, a ∈ all → p ≠ place (Path a)) → p ≠ intent_path stage → p ≠ journal → admits (level D acc) p v.
Proof. intros Hn H1 H2 S [(a & Ha & ->)|[->| ->]]%level_paths; [by destruct (Hn a Ha)|done..]. Qed.
Lemma bare_elsewhere D acc p : (∀ a, a ∈ all → p ∉ ancestors (place (Path a))) → p ∉ ancestors (intent_path stage) → p ∉ ancestors journal → bare (level D acc) p.
Proof. intros Hn H1 H2 q S [(a & Ha & ->)|[->| ->]]%level_paths Hin; [by destruct (Hn a Ha)|done..]. Qed.
Lemma not_above_private p : outside p → (p ∉ ancestors (intent_path stage)) ∧ p ∉ ancestors journal.
Proof. intros Ho. destruct (not_outside_private p Ho) as (H1 & H2 & H3 & _). rewrite ancestors_intent, ancestors_journal. tauto. Qed.

Lemma dest_admits D acc a v : a ∈ all → holds_post Hash a v → admits (level D acc) (place (Path a)) v.
Proof.
  intros Ha Hv S HS. destruct (not_outside_private _ (all_outside a Ha)) as (_ & _ & _ & H1 & H2). remember (place (Path a)) as p eqn:Hp. destruct HS as [b Hb|b Hb _| |_]; [..|done|done].
  - apply place_inj in Hp as ->; [by right|done..].
  - by apply place_inj in Hp as ->.
Qed.
Lemma dest_bare D acc a : a ∈ all → bare (level D acc) (place (Path a)).
Proof. intros Ha. destruct (not_above_private _ (all_outside a Ha)). apply bare_elsewhere; [|done|done]. intros b Hb. by apply (fp_prefix fp). Qed.
Lemma dest_temp D acc a : a ∈ all → Remove a = false → scratch (level D acc) (child (parent (place (Path a))) (Temp a)) ∧ child (parent (place (Path a))) (Temp a) ≠ place (Path a).
Proof.
  intros Ha Hr. destruct (temp_of a Ha Hr) as [s Hs]. set (t := child (parent (place (Path a))) (Temp a)).
  assert (Temp a ∈ t) as Hin by (unfold t, child; rewrite elem_of_app; right; by apply list_elem_of_singleton).
  assert (outside t) as Ho by (apply outside_sibling; [by apply all_outside|by rewrite Hs]).
  assert (∀ b, b ∈ all → t ≠ place (Path b)) as Hne by (intros b Hb He; rewrite He in Hin; by apply (fp_temps fp a b)).
  destruct (not_outside_private t Ho) as (_ & _ & _ & H1 & H2). destruct (not_above_private t Ho) as [H3 H4]. split; [|by apply Hne]. split; [apply child_nonempty|]. split.
  - intros v. by apply admits_elsewhere.
  - apply bare_elsewhere; [|done|done]. intros b Hb Hanc. apply (fp_temps fp a b Ha Hb Hr). by eapply elem_of_ancestor.
Qed.
Lemma dest_parents D acc a x v : a ∈ all → x ∈ ancestors (place (Path a)) → admits (level D acc) x v.
Proof.
  intros Ha Hx. assert (∀ b, b ∈ all → x ≠ place (Path b)) as Hne by (intros b Hb ->; by eapply (fp_prefix fp b a)).
  destruct (ancestors_outside _ x (all_outside a Ha) Hx) as [Ho|[->| ->]].
  - destruct (not_outside_private x Ho) as (_ & _ & _ & H1 & H2). by apply admits_elsewhere.
  - by apply admits_elsewhere.
  - by apply admits_elsewhere.
Qed.

(** ** The steps of a recovery *)

Lemma publish_level D acc a : a ∈ all → triple (guards (level D acc)) (publishArtifact Hash stage a) (λ _, guards (level (D ++ [a]) acc)) inv.
Proof.
  intros Ha. eapply triple_conseq; [apply (publish_triple Hash (level D acc) stage a)|done| |apply inv_intro].
  - apply place_nonempty.
  - intros v. by apply dest_admits.
  - by apply dest_bare.
  - by apply dest_temp.
  - intros x Hx. by eapply dest_parents.
  - intros [] d [Hg Hm]. by apply level_publish.
Qed.

(** Everything the codec meets can be read again. *)
Context (encI : Intent → Prop) `{!PullJsonLaws Intent encI} (encJ : completePullJournal → Prop) `{!PullJsonLaws completePullJournal encJ}.
Definition in_range (n k : Z) : Prop := 0 ≤ n ≤ zlength (Artifacts i0) ∧ 0 ≤ k ≤ zlength (relocated i0).
Hypothesis enc_intent : ∀ n published k committed, in_range n k → encI (at_progress n published k committed).
(** What an intent with this progress claims. *)
Definition claims (D : list Artifact) (acc : Prop) (n k : Z) (committed : bool) : Prop :=
  (∀ a, a ∈ take (Z.to_nat n) (Artifacts i0) → a ∈ D) ∧ (∀ a, a ∈ take (Z.to_nat k) (relocated i0) → a ∈ D) ∧ (committed = true → complete D acc).
Lemma save_level D acc n published k committed : in_range n k → claims D acc n k committed →
  triple (guards (level D acc)) (savePublicationIntent stage (at_progress n published k committed)) (λ _, guards (level D acc)) inv.
Proof.
  intros Hr Hc. eapply triple_conseq; [apply (save_triple (level D acc)); [|apply scratch_stage]|done|done|apply inv_intro].
  intros S HS. remember (intent_path stage) as p eqn:Hp. destruct HS as [a Ha|a Ha _| |_]; [| | |done].
  - destruct (not_outside_private _ (all_outside a Ha)) as (_ & _ & _ & H1 & _). done.
  - destruct (not_outside_private _ (all_outside a Ha)) as (_ & _ & _ & H1 & _). done.
  - exists n, published, k, committed. split; [|done]. by eapply decode_encode, enc_intent.
Qed.

Lemma triple_ex {A B} (P : B → assertion) (m : M A) (Q : A → assertion) (I : assertion) : (∀ x, triple (P x) m Q I) → triple (λ d, ∃ x, P x d) m Q I.
Proof. intros H η w [x Hx]. by apply (H x). Qed.
(** Reading a private file. *)
Lemma read_private_triple (P : assertion) p max (I : assertion) : (∀ d, P d → I d) →
  triple P (readCompletePullFile p max) (λ r d, match r with None => look d p = None | Some b => ∃ perm, look d p = Some (File b perm) end ∧ P d) I.
Proof.
  intros Hi. eapply triple_bind; [by apply triple_stat|]. intros [[data perm|]|].
  - eapply triple_bind; [apply triple_check; naive_solver|]. intros []. apply triple_pure. intros _. eapply triple_bind; [apply triple_file; naive_solver|]. intros b.
    eapply triple_bind; [apply triple_stat; naive_solver|]. intros after. eapply triple_bind; [apply triple_check; naive_solver|]. intros []. apply triple_ret.
    intros d (Ha & -> & (_ & Hl) & _ & Hp). by split.
  - apply triple_throw; naive_solver.
  - apply triple_ret. naive_solver.
Qed.

(** When everything is done, the stage may go. *)
Lemma stage_remove D acc x : complete D acc → triple (guards (level D acc)) (remove_if_exists (child stage x)) (λ _, guards (level D acc)) inv.
Proof.
  intros Hc. assert (inside (child stage x)) as Hi by (eexists _, _; done). eapply triple_conseq; [apply remove_triple|done|done|apply inv_intro].
  - apply child_nonempty.
  - intros S HS. remember (child stage x) as p eqn:Hp. destruct HS as [a Ha|a Ha _| |_]; [by destruct (inside_not _ a Hi Ha)..|done|done].
  - apply bare_elsewhere; [by intros a Ha; destruct (inside_not _ a Hi Ha)|rewrite ancestors_intent; intros [?|[?|?]]; done|rewrite ancestors_journal; intros [?|?]; done].
Qed.
Lemma stage_dir_remove D acc : complete D acc → triple (guards (level D acc)) (remove_if_exists stage) (λ _, guards (level D acc)) inv.
Proof.
  intros Hc. assert (inside stage) as Hi by (eexists _, _; done). eapply triple_conseq; [apply remove_triple|done|done|apply inv_intro].
  - apply child_nonempty.
  - apply admits_elsewhere; [by intros a Ha; destruct (inside_not _ a Hi Ha)|done|]. intros He. apply child_inj in He as [_ He]. by apply app_inv_head in He.
  - intros q S HS Hin. destruct HS as [a Ha|a Ha _| |_]; [by destruct (inside_not _ a Hi Ha)..|done|]. rewrite ancestors_journal in Hin. by destruct Hin.
Qed.
Lemma sync_level D acc p : triple (guards (level D acc)) (SyncDirectoryWithin p) (λ _, guards (level D acc)) inv.
Proof. eapply triple_conseq; [apply sync_triple|done|done|apply inv_intro]. Qed.
Lemma sync_path_level D acc p : triple (guards (level D acc)) (syncPublicationPath p) (λ _, guards (level D acc)) inv.
Proof. eapply triple_conseq; [apply sync_path_triple|done|done|apply inv_intro]. Qed.
Lemma each_level {A} D acc (f : A → M unit) l : (∀ x, triple (guards (level D acc)) (f x) (λ _, guards (level D acc)) inv) → triple (guards (level D acc)) (each f l) (λ _, guards (level D acc)) inv.
Proof. intros H. by apply triple_each. Qed.
Lemma cleanup_level D acc i : complete D acc → triple (guards (level D acc)) (cleanupCompletePullPublication stage i) (λ _, guards (level D acc)) inv.
Proof.
  intros Hc. eapply triple_bind; [apply triple_entries, inv_intro|]. intros es. eapply triple_bind; [apply triple_lift, inv_intro|]. intros residue. apply triple_pure. intros _.
  eapply triple_bind; [apply each_level; intros x; by apply stage_remove|]. intros []. eapply triple_bind; [apply each_level; intros x; by apply stage_remove|]. intros [].
  eapply triple_bind; [apply sync_level|]. intros []. eapply triple_bind; [by apply stage_remove|]. intros []. eapply triple_bind; [apply sync_path_level|]. intros [].
  eapply triple_bind; [by apply stage_dir_remove|]. intros []. apply sync_path_level.
Qed.
Lemma abandoned_level D acc es : complete D acc → triple (guards (level D acc)) (cleanupAbandonedCompletePullPublication stage es) (λ _, guards (level D acc)) inv.
Proof.
  intros Hc. eapply triple_bind; [apply triple_check, inv_intro|]. intros []. apply triple_pure. intros _. eapply triple_bind; [apply triple_lift, inv_intro|]. intros []. apply triple_pure. intros _.
  eapply triple_bind; [apply each_level; intros x; by apply stage_remove|]. intros []. eapply triple_bind; [apply sync_level|]. intros [].
  eapply triple_bind; [by apply stage_dir_remove|]. intros []. apply sync_path_level.
Qed.

Lemma look_stage_none D acc d : guards (level D acc) d → look d stage = None → complete D acc.
Proof.
  intros [Hw H] Hl. destruct (H _ _ (level_intent D acc)) as [_ Hm]. apply may_look in Hm. destruct (look d (intent_path stage)) eqn:Hi; [|done].
  assert (listing d stage ≠ ∅) as Hne by (apply (listing_none d (intent_path stage)); by rewrite Hi). apply Hw in Hne.
  unfold exists_dir in Hne. rewrite Hl in Hne. by cbn in Hne.
Qed.
Lemma validated_range n published k committed : validate_declared (at_progress n published k committed) (current_schema c) = Ok tt → ∃ k', in_range n k' ∧ at_progress n published k committed = at_progress n published k' committed ∧
  take (Z.to_nat k') (relocated i0) = take (Z.to_nat k) (relocated i0).
Proof.
  unfold validate_declared. intros H. checks H.
  match goal with E : _ && _ && between 0 _ _ = true |- _ => rename E into Hn end. match goal with E : relocation_fits _ = Ok _ |- _ => rename E into Hk end.
  rewrite !andb_true_iff in Hn. destruct Hn as [_ Hn]. unfold between in Hn. cbn [Next Artifacts at_progress progress_to] in Hn.
  assert (0 ≤ n ≤ zlength (Artifacts i0)) as Hn' by lia. unfold relocation_fits, at_progress, in_range, relocated in *. cbn [Relocation progress_to] in Hk.
  destruct (Relocation i0) as [r|]; cbn [moved option_map] in Hk |- *; [|exists 0; split_and!; [lia|lia|lia|unfold zlength; lia|done|by rewrite !take_nil]]. exists k. checks Hk. unfold between in Hk. cbn [relArtifacts relNext] in Hk. split_and!; [lia..|done|done].
Qed.
Definition stored (D : list Artifact) (acc : Prop) (r : option Intent) : Prop :=
  match r with None => complete D acc | Some i => ∃ n published k committed, i = at_progress n published k committed ∧ in_range n k ∧ claims D acc n k committed end.
Lemma payload_level D acc dir a : triple (guards (level D acc)) (payload_there Hash dir a) (λ _, guards (level D acc)) inv.
Proof.
  unfold payload_there. destruct (Remove a); [by apply triple_ret|]. eapply triple_bind; [apply triple_stat, inv_intro|]. intros info.
  eapply triple_bind; [apply triple_check; intros d [_ H]; by eapply inv_intro|]. intros []. eapply triple_bind; [apply triple_file; intros d (_ & _ & H); by eapply inv_intro|]. intros b.
  eapply triple_conseq; [|intros d H; exact H| |intros d H; exact H]; [apply triple_check; intros d (_ & _ & _ & H); by eapply inv_intro|]. intros [] d (_ & _ & _ & _ & H). exact H.
Qed.
Lemma read_level D acc c' : current_schema c' = current_schema c → triple (guards (level D acc)) (readPublicationIntent Hash (cSelector c) (Some c')) (λ r d, stored D acc r ∧ guards (level D acc) d) inv.
Proof.
  intros Hcur. unfold readPublicationIntent. rewrite Hcur.
  eapply triple_bind; [apply triple_check, inv_intro|]. intros []. apply triple_pure. intros _. eapply triple_bind; [apply triple_stat, inv_intro|]. intros [[data perm|perm]|].
  - apply triple_throw. intros d [_ H]. by eapply inv_intro.
  - eapply triple_bind; [apply triple_check; intros d [_ H]; by eapply inv_intro|]. intros []. eapply triple_bind; [apply read_private_triple; intros d (_ & _ & H); by eapply inv_intro|]. intros [b|].
    + (* an intent is stored *)
      destruct (decodeStrict b) as [i|] eqn:Hb; [|apply triple_throw; intros d (_ & _ & _ & H); by eapply inv_intro].
      apply (triple_conseq _ (λ d, (∃ n pub k com, i = at_progress n pub k com ∧ claims D acc n k com) ∧ guards (level D acc) d)) with (Q' := λ r d, stored D acc r ∧ guards (level D acc) d) (I' := inv); [|..|done|done].
      2:{ intros d ([p Hl] & _ & _ & Hg). split; [|done]. destruct (proj2 Hg _ _ (level_intent D acc)) as [_ Hm]. apply may_look in Hm. rewrite Hl in Hm.
          destruct Hm as (n & pub & k & com & Hd & Hc). exists n, pub, k, com. split; [congruence|done]. }
      apply triple_pure. intros (n & pub & k & com & -> & Hc). eapply (triple_bind _ _ (λ _ d, stored D acc (Some (at_progress n pub k com)) ∧ guards (level D acc) d)); [|intros []; by apply triple_ret].
      eapply triple_bind; [apply triple_lift, inv_intro|]. intros []. apply triple_pure. intros Hv.
      assert (stored D acc (Some (at_progress n pub k com))) as Hs.
      { apply validated_range in Hv as (k' & Hr & He & Ht). exists n, pub, k', com. split; [done|]. split; [done|]. destruct Hc as (H1 & H2 & H3). split; [done|]. by rewrite Ht. }
      destruct (Committed _); [by apply triple_ret|]. eapply triple_conseq; [apply each_level; intros a; apply payload_level|done|by intros [] d|done].
    + (* none is *)
      apply (triple_conseq _ (λ d, complete D acc ∧ guards (level D acc) d)) with (Q' := λ r d, stored D acc r ∧ guards (level D acc) d) (I' := inv); [|..|done|done].
      2:{ intros d (Hl & _ & _ & Hg). split; [|done]. destruct (proj2 Hg _ _ (level_intent D acc)) as [_ Hm]. apply may_look in Hm. by rewrite Hl in Hm. }
      apply triple_pure. intros Hc. eapply triple_bind; [apply triple_entries, inv_intro|]. intros es. eapply triple_bind; [apply triple_lift, inv_intro|]. intros []. apply triple_pure. intros _.
      eapply triple_bind; [by apply abandoned_level|]. intros []. by apply triple_ret.
  - apply triple_ret. intros d [Hl Hg]. split; [by eapply look_stage_none|done].
Qed.

Lemma claims_more D acc a n k : claims D acc n k false → claims (D ++ [a]) acc n k false.
Proof. intros (H1 & H2 & _). split_and!; [intros b Hb; rewrite elem_of_app; left; auto..|done]. Qed.
Lemma take_snoc {A} (pre todo : list A) x l n : l = pre ++ x :: todo → n = zlength pre → take (Z.to_nat (n + 1)) l = pre ++ [x].
Proof.
  intros -> ->. unfold zlength. rewrite take_app. replace (Z.to_nat (Z.of_nat (length pre) + 1) - length pre)%nat with 1%nat by lia. rewrite take_ge by lia. done.
Qed.
Lemma take_exact {A} (pre todo : list A) l n : l = pre ++ todo → n = zlength pre → take (Z.to_nat n) l = pre.
Proof. intros -> ->. unfold zlength. rewrite Nat2Z.id. by rewrite take_app_length. Qed.
(** The files in order, each followed by the stored progress. *)
Definition published_to (n k : Z) (r : Intent) : assertion := λ d, ∃ D acc published, r = at_progress n published k false ∧ claims D acc n k false ∧ guards (level D acc) d.
Lemma publish_from_level todo pre D acc n published k : Artifacts i0 = pre ++ todo → n = zlength pre → in_range n k → claims D acc n k false →
  triple (guards (level D acc)) (publish_from Hash stage (at_progress n published k false) todo) (λ r, published_to (zlength (Artifacts i0)) k r) inv.
Proof.
  revert pre D n. induction todo as [|a todo IH]; intros pre D n He Hn Hr Hc; cbn [publish_from].
  - apply triple_ret. intros d Hg. exists D, acc, published. rewrite app_nil_r in He. rewrite He, <- Hn. done.
  - eapply triple_bind; [apply publish_level; unfold all_artifacts; rewrite He, !elem_of_app; left; right; apply list_elem_of_here|]. intros [].
    assert (in_range (n + 1) k) as Hr'. { split; [|apply Hr]. rewrite He. unfold zlength in *. rewrite length_app. cbn. lia. }
    assert (claims (D ++ [a]) acc (n + 1) k false) as Hc'.
    { destruct (claims_more D acc a n k Hc) as (H1 & H2 & _). split; [|done]. rewrite (take_snoc pre todo a) by done. rewrite (take_exact pre (a :: todo)) in H1 by done.
      intros b [Hb| ->%list_elem_of_singleton]%elem_of_app; [by apply H1|]. rewrite elem_of_app. right. by apply list_elem_of_singleton. }
    eapply triple_bind; [by apply (save_level _ _ (n + 1) published k false)|]. intros []. apply (IH (pre ++ [a])); [by rewrite <- app_assoc| |done|done].
    unfold zlength in *. rewrite length_app. cbn. lia.
Qed.
Lemma relocate_from_level todo pre D acc n published k r : Relocation i0 = Some r → relArtifacts r = pre ++ todo → k = zlength pre → in_range n k → claims D acc n k false →
  triple (guards (level D acc)) (relocate_from Hash stage (at_progress n published k false) {| relArtifacts := relArtifacts r; relNext := k |} todo) (λ i, published_to n (zlength (relocated i0)) i) inv.
Proof.
  intros Hrel. assert (relocated i0 = relArtifacts r) as Heq by (unfold relocated; by rewrite Hrel). rewrite Heq.
  revert pre D k. induction todo as [|a todo IH]; intros pre D k He Hk Hr Hc; cbn [relocate_from].
  - apply triple_ret. intros d Hg. exists D, acc, published. rewrite app_nil_r in He. rewrite He, <- Hk. done.
  - eapply triple_bind; [apply publish_level; unfold all_artifacts; rewrite Heq, He, !elem_of_app; right; right; apply list_elem_of_here|]. intros [].
    assert (in_range n (k + 1)) as Hr'. { split; [apply Hr|]. rewrite Heq, He. unfold zlength in *. rewrite length_app. cbn. lia. }
    assert (claims (D ++ [a]) acc n (k + 1) false) as Hc'.
    { destruct (claims_more D acc a n k Hc) as (H1 & H2 & _). split; [done|]. split; [|done]. rewrite Heq in H2 |- *. rewrite (take_snoc pre todo a) by done. rewrite (take_exact pre (a :: todo)) in H2 by done.
      intros b [Hb| ->%list_elem_of_singleton]%elem_of_app; [by apply H2|]. rewrite elem_of_app. right. by apply list_elem_of_singleton. }
    assert (progress_to (Next (at_progress n published k false)) (StatePublished (at_progress n published k false)) (Some {| relArtifacts := relArtifacts r; relNext := k + 1 |})
      (Committed (at_progress n published k false)) (at_progress n published k false) = at_progress n published (k + 1) false) as Hp by (unfold at_progress; by rewrite Hrel).
    cbn [relArtifacts relNext]. rewrite Hp. eapply triple_bind; [by apply save_level|]. intros []. apply (IH (pre ++ [a])); [by rewrite <- app_assoc| |done|done].
    unfold zlength in *. rewrite length_app. cbn. lia.
Qed.
Lemma publish_state_level D acc n published k : in_range n k → claims D acc n k false →
  triple (guards (level D acc)) (publish_state stage (at_progress n published k false)) (λ r, published_to n k r) inv.
Proof.
  intros Hr Hc. unfold publish_state. destruct (_ && _); [|apply triple_ret; intros d Hg; by exists D, acc, published].
  eapply triple_bind; [eapply triple_conseq; [apply merge_entry_triple|done|done|apply inv_intro]|].
  - intros v. apply admits_elsewhere; [|done|done]. intros a Ha He. destruct (not_outside_private _ (all_outside a Ha)) as (H & _). done.
  - intros m. apply scratch_atl.
  - intros []. eapply triple_bind; [apply sync_level|]. intros []. eapply triple_bind; [by apply (save_level D acc n true k false)|]. intros []. apply triple_ret. intros d Hg. by exists D, acc, true.
Qed.

(** ** Acceptance *)

Hypothesis enc_decoded : ∀ b j, decodeStrict b = Some j → encJ j.
Hypothesis enc_append : ∀ j, encJ j → encJ (with_entries (Entries j ++ [Entry i0]) j).
Hypothesis enc_new : encJ (with_entries [Entry i0] (new_journal (current_schema c) i0)).
Lemma current_selector : cSelector (current_schema c) = cSelector c.
Proof. unfold current_schema. by destruct (_ =? _). Qed.
Lemma current_twice : current_schema (current_schema c) = current_schema c.
Proof. unfold current_schema. destruct (cSchema c =? 0) eqn:H; [done|]. by rewrite H. Qed.
Lemma load_journal_triple (P : assertion) (I : assertion) : (∀ d, P d → I d) →
  triple P (loadCompletePullJournal (cSelector c)) (λ r d, match r with None => True | Some j => ∃ b perm, look d journal = Some (File b perm) ∧ decodeStrict b = Some j end ∧ P d) I.
Proof.
  intros Hi. eapply triple_bind; [by apply triple_check|]. intros []. apply triple_pure. intros _. eapply triple_bind; [by apply read_private_triple|]. intros [b|]; [|apply triple_ret; naive_solver].
  destruct (decodeStrict b) eqn:Hb; [|apply triple_throw; naive_solver]. apply triple_ret. naive_solver.
Qed.
Lemma entry_at_end j e index : journal_end j = index → entry_at (with_entries (Entries j ++ [e]) j) index = Some e.
Proof.
  unfold journal_end, entry_at, zlength. cbn [with_entries Entries StartIndex]. intros <-. rewrite (proj2 (Z.leb_le _ _)) by lia.
  replace (Z.to_nat (StartIndex j + Z.of_nat (length (Entries j)) - StartIndex j)) with (length (Entries j)) by lia. rewrite lookup_app_r by done. by rewrite Nat.sub_diag.
Qed.
Lemma journal_admits D acc j perm : encJ j → entry_at j (Index i0) = Some (Entry i0) → admits (level D acc) journal (Some (File (encodeIndent j ++ ["010"%char]) perm)).
Proof.
  intros Hj He S HS. remember journal as p eqn:Hp. destruct HS as [a Ha|a Ha _| |_]; [| |done|].
  - destruct (not_outside_private _ (all_outside a Ha)) as (_ & _ & _ & _ & H1). done.
  - destruct (not_outside_private _ (all_outside a Ha)) as (_ & _ & _ & _ & H1). done.
  - exists (encodeIndent j ++ ["010"%char]), perm, j. split_and!; [done| |done]. by eapply decode_encode.
Qed.
(** A journal that ends where the page comes, with the page appended. *)
Lemma write_journal_level D acc j token : encJ (with_entries (Entries j ++ [Entry i0]) j) → journal_end j = Index i0 →
  triple (guards (level D acc)) (MkdirAllWithin (parent journal) mode0700 ;;
    writeCompletePullOwned journal (completePullJournalTemp token) (encodeIndent (with_entries (Entries j ++ [Entry i0]) j) ++ ["010"%char]) mode0600 ;; syncPublicationPath journal)
    (λ _, pw (level D acc) journal accepted) inv.
Proof.
  intros Hj He. eapply triple_bind; [eapply triple_conseq; [apply (mkdir_triple (level D acc) journal)|done|done|apply inv_intro]|].
  - intros x Hx Hne. assert (x = atlDir ∨ x = completePullsDir) as Hx'.
    { unfold completePullJournalPath in Hx. rewrite parent_child in Hx. cbn in Hx. rewrite !elem_of_cons in Hx. destruct Hx as [?|[?|Hx%elem_of_nil]]; [by left|by right|done]. }
    apply admits_elsewhere; [|by destruct Hx' as [-> | ->]..]. intros a Ha ->. destruct (not_outside_private _ (all_outside a Ha)) as (H1 & H2 & _). by destruct Hx'.
  - apply child_nonempty.
  - intros []. apply (triple_bind _ _ (λ _, holding (level D acc) journal (encodeIndent (with_entries (Entries j ++ [Entry i0]) j) ++ ["010"%char]) mode0600)).
    { eapply triple_conseq; [apply owned_triple|done|done|apply inv_intro]. 
      - apply child_nonempty.
      - unfold completePullJournalPath. rewrite parent_child. apply scratch_pulls.
      - apply journal_admits; [done|by apply entry_at_end]. }
    intros []. eapply triple_conseq; [apply (pw_sync_path (level D acc) journal accepted)| |by intros [] d []|apply inv_intro]. intros d [Hg Hl]. split; [done|]. rewrite Hl.
      eexists _, _, _. split_and!; [done|by eapply decode_encode|by apply entry_at_end].
Qed.
Lemma append_level D acc n published k committed : in_range n k →
  triple (guards (level D acc)) (appendCompletePullJournalOwned Hash c (Index i0) (Entry i0) (WriteToken (at_progress n published k committed))) (λ _, pw (level D acc) journal accepted) inv.
Proof.
  intros Hr. unfold appendCompletePullJournalOwned. rewrite current_selector.
  eapply triple_bind; [apply triple_lift, inv_intro|]. intros []. apply triple_pure. intros _. eapply triple_bind; [apply triple_lift, inv_intro|]. intros []. apply triple_pure. intros _.
  eapply triple_bind; [apply triple_check, inv_intro|]. intros []. apply triple_pure. intros _. eapply triple_bind; [apply load_journal_triple, inv_intro|]. intros found.
  eapply (triple_bind _ _ (λ j d, encJ (with_entries (Entries j ++ [Entry i0]) j) ∧ guards (level D acc) d)).
  - destruct found as [j|].
    + eapply triple_bind; [apply triple_lift; intros d [_ H]; by eapply inv_intro|]. intros []. apply triple_ret. intros d (_ & (b & perm & _ & Hd) & Hg). split; [|done]. by eapply enc_append, enc_decoded.
    + apply triple_pure. intros _. eapply triple_bind; [apply read_level, current_twice|]. intros [i|]; [|apply triple_throw; intros d [_ H]; by eapply inv_intro].
      apply triple_pure. intros (n' & pub & k' & com & -> & _ & _). eapply triple_bind; [apply triple_check, inv_intro|]. intros []. apply triple_pure. intros _.
      eapply triple_bind; [apply triple_check, inv_intro|]. intros []. apply triple_pure. intros _. apply triple_ret. intros d Hg. split; [exact enc_new|done].
  - intros j. apply triple_pure. intros Hj. eapply triple_bind; [apply triple_check, inv_intro|]. intros []. apply triple_pure. intros He%Z.eqb_eq.
    eapply triple_bind; [apply triple_lift, inv_intro|]. intros []. apply triple_pure. intros _. eapply triple_bind; [apply triple_check, inv_intro|]. intros []. apply triple_pure. intros _.
    by apply write_journal_level.
Qed.
Lemma ensure_level D acc n published k committed : in_range n k →
  triple (guards (level D acc)) (ensurePublicationJournalEntry Hash c (at_progress n published k committed)) (λ _, pw (level D acc) journal accepted) inv.
Proof.
  intros Hr. eapply triple_bind; [apply load_journal_triple, inv_intro|]. intros [j|]; [|eapply triple_conseq; [by apply append_level|by intros d []|done|done]].
  eapply triple_bind; [apply triple_lift; intros d [_ H]; by eapply inv_intro|]. intros []. apply triple_pure. intros _. destruct (entry_at j _) as [e|] eqn:He.
  - eapply triple_conseq; [|intros d H; exact H| |intros d H; exact H]; [apply triple_check; intros d [_ H]; by eapply inv_intro|].
    intros [] d (Hb & (b & perm & Hl & Hd) & Hg). apply bool_decide_eq_true in Hb. subst e. split; [done|]. by exists b, perm, j.
  - eapply triple_conseq; [by apply append_level|by intros d []|done|done].
Qed.
(** The stage is anchored as long as not everything is done. *)
Lemma pulls_anchored D acc d : guards (level D acc) d → anchored d completePullsDir ∨ complete D acc.
Proof.
  intros [_ H]. destruct (H _ _ (level_intent D acc)) as [_ [_ [Ha|Hc]]]; [left|by right]. unfold intent_path in Ha. rewrite parent_child in Ha.
  apply (anchored_parent d stage stage) in Ha; [done|]. rewrite elem_of_app. right. by apply list_elem_of_singleton.
Qed.
Lemma accept_level D acc n published k committed : in_range n k →
  triple (guards (level D acc)) (accept Hash c stage (at_progress n published k committed)) (λ _ d, ∃ acc', (acc → acc') ∧ (Eligible i0 = true → acc') ∧ guards (level D acc') d) inv.
Proof.
  intros Hr. unfold accept. cbn [Eligible at_progress progress_to]. destruct (Eligible i0) eqn:He; [|apply triple_ret; intros d Hg; by exists acc].
  eapply triple_bind; [by apply ensure_level|]. intros []. apply triple_prim; [intros d [Hg _]; by eapply inv_intro|]. intros d [Hg Hl].
  destruct (exists_dir d (parent stage)) eqn:Hd; cbn [fst snd]; [|by eapply inv_intro]. destruct (pulls_anchored D acc d Hg) as [Ha|Hc].
  - exists True. split; [done|]. split; [done|]. apply (level_accept D acc); [by apply guards_flush|]. split.
    + intros s Hs. change (parent journal) with (parent stage) in Hs. rewrite versions_flush, decide_True in Hs by done. by apply list_elem_of_singleton in Hs as ->.
    + left. by apply anchored_flush.
  - exists acc. split; [done|]. split; [intros _; by apply Hc|]. by apply guards_flush.
Qed.

(** ** Recovery *)

Variable attachments_there jira_optional_there : CompletePullJournalEntry → M unit.
Definition only_reads (m : M unit) : Prop := ∀ η w, dsk (m η w).1 = dsk w.
Hypothesis attachments_read : ∀ e, only_reads (attachments_there e).
Hypothesis optional_read : ∀ e, only_reads (jira_optional_there e).
Lemma triple_only_reads (P : assertion) (m : M unit) (I : assertion) : only_reads m → (∀ d, P d → I d) → triple P m (λ _, P) I.
Proof. intros Hm Hi η w Hp. rewrite (Hm η w). destruct (m η w).2; auto. Qed.
Lemma verify_evidence_level D acc service e : triple (guards (level D acc)) (verify_evidence attachments_there jira_optional_there service e) (λ _, guards (level D acc)) inv.
Proof.
  unfold verify_evidence, verifyConfluenceCompletePullAttachmentArtifacts, verifyJiraCompletePullOptionalArtifacts.
  destruct (eqt service Confluence); [destruct (completePullEntryHasAttachmentEvidence e)|destruct (positiveDecimalIdentity _)]; by apply triple_ret || (apply triple_only_reads; [auto|apply inv_intro]).
Qed.
Lemma check_level D acc b why : triple (guards (level D acc)) (check b why) (λ _, guards (level D acc)) inv.
Proof. eapply triple_conseq; [apply triple_check, inv_intro|done|by intros [] d []|done]. Qed.
Lemma lift_level {A} D acc (r : checked A) : triple (guards (level D acc)) (lift r) (λ _, guards (level D acc)) inv.
Proof. eapply triple_conseq; [apply triple_lift, inv_intro|done|by intros a d []|done]. Qed.
Lemma sidecar_level D acc : triple (guards (level D acc)) loadSidecar (λ _, guards (level D acc)) inv.
Proof. eapply triple_conseq; [apply load_sidecar_triple|done|done|apply inv_intro]. Qed.
Lemma postcondition_level D acc a : triple (guards (level D acc)) (at_postcondition Hash a) (λ _, guards (level D acc)) inv.
Proof.
  eapply triple_bind; [apply postcondition_triple, inv_intro|]. intros s. eapply triple_conseq; [apply triple_check, inv_intro|by intros d []|by intros [] d []|done].
Qed.
Lemma journal_level D acc : triple (guards (level D acc)) (loadCompletePullJournal (cSelector c)) (λ _, guards (level D acc)) inv.
Proof. eapply triple_conseq; [apply load_journal_triple, inv_intro|done|by intros r d []|done]. Qed.
(** One read of the verification. *)
Local Ltac next := (eapply triple_bind; [first [apply check_level|apply lift_level|apply sidecar_level|apply journal_level|apply each_level; intros ?; apply postcondition_level]|intros ?]).
Lemma verify_level D acc i : triple (guards (level D acc)) (verifyCommittedPublication Hash attachments_there jira_optional_there c i) (λ _, guards (level D acc)) inv.
Proof.
  next. eapply (triple_bind _ _ (λ _, guards (level D acc))).
  - destruct (Relocation i) as [r|]; [|by apply triple_ret]. do 4 next. eapply (triple_bind _ _ (λ _, guards (level D acc))); [|intros ?; apply each_level; intros b; apply postcondition_level].
    destruct (Previous (Entry i)); [next; apply check_level|by apply triple_ret].
  - intros ?. destruct (Eligible i); [|next; apply check_level]. eapply triple_bind; [apply journal_level|]. intros [j|]; [|by apply triple_throw, inv_intro]. do 2 next. apply verify_evidence_level.
Qed.

(** When a recovery succeeds, everything is done. *)
Definition all_done : assertion := λ d, ∃ D acc, complete D acc ∧ guards (level D acc) d.
Lemma all_taken D acc n k : n = zlength (Artifacts i0) → k = zlength (relocated i0) → claims D acc n k false → ∀ a, a ∈ all → a ∈ D.
Proof.
  intros -> -> (H1 & H2 & _) a. unfold zlength in *. rewrite Nat2Z.id, take_ge in H1 by done. rewrite Nat2Z.id, take_ge in H2 by done. intros [Ha|Ha]%elem_of_app; auto.
Qed.
Lemma recover_level : triple inv (recoverCompletePullPublication Hash attachments_there jira_optional_there (cSelector c) (Some c)) (λ _, all_done) inv.
Proof.
  apply triple_ex. intros D. apply triple_ex. intros acc. eapply triple_bind; [by apply read_level|]. intros [i|]; apply triple_pure; [|intros Hc; apply triple_ret; intros d Hg; by exists D, acc].
  intros (n & pub & k & com & -> & Hr & Hc). cbn [Committed at_progress progress_to]. destruct com.
  { assert (complete D acc) as Hall by (by apply Hc). eapply triple_bind; [apply verify_level|]. intros ?. eapply triple_conseq; [by apply cleanup_level|done| |done]. intros ? d Hg. by exists D, acc. }
  cbn [Next Artifacts].
  eapply triple_bind; [eapply (publish_from_level _ (take (Z.to_nat n) (Artifacts i0))); [by rewrite take_drop| |done|done]|].
  { unfold zlength in *. rewrite length_take. unfold in_range, zlength in Hr. lia. }
  intros i1. unfold published_to. clear D acc Hc pub. apply triple_ex. intros D. apply triple_ex. intros acc. apply triple_ex. intros pub. apply triple_pure. intros ->. apply triple_pure. intros Hc.
  assert (in_range (zlength (Artifacts i0)) k) as Hr1 by (unfold in_range, zlength in *; lia).
  eapply triple_bind; [by apply publish_state_level|]. intros i2. unfold published_to. clear D acc Hc pub. apply triple_ex. intros D. apply triple_ex. intros acc. apply triple_ex. intros pub.
  apply triple_pure. intros ->. apply triple_pure. intros Hc.
  eapply (triple_bind _ _ (λ i, published_to (zlength (Artifacts i0)) (zlength (relocated i0)) i)).
  { cbn [Relocation at_progress progress_to]. destruct (Relocation i0) as [r|] eqn:Hrel; cbn [moved option_map relArtifacts relNext].
    - pose proof Hr1 as [_ Hk]. unfold relocated in Hk. rewrite Hrel in Hk. eapply (relocate_from_level _ (take (Z.to_nat k) (relArtifacts r))); [done|by rewrite take_drop| |done|done].
      unfold zlength in *. rewrite length_take. lia.
    - apply triple_ret. intros d Hg. exists D, acc, pub. unfold relocated, at_progress. rewrite Hrel. split; [done|]. split; [|done]. destruct Hc as (H1 & _ & H3). split; [done|]. split; [|done].
      unfold relocated. rewrite Hrel. by intros a ?%elem_of_nil. }
  intros i3. unfold published_to. clear D acc Hc pub Hr1. apply triple_ex. intros D. apply triple_ex. intros acc. apply triple_ex. intros pub. apply triple_pure. intros ->. apply triple_pure. intros Hc.
  assert (in_range (zlength (Artifacts i0)) (zlength (relocated i0))) as Hr3 by (unfold in_range, zlength; lia).
  eapply triple_bind; [by apply accept_level|]. intros ?. apply triple_ex. intros acc'. apply triple_pure. intros Hm. apply triple_pure. intros He.
  assert (complete D acc') as Hall by (split; [by eapply all_taken|done]).
  eapply triple_bind; [apply (save_level D acc' _ pub _ true); [done|]|].
  { destruct Hc as (H1 & H2 & _). by split_and!. }
  intros ?. eapply triple_conseq; [by apply cleanup_level|done| |done]. intros ? d Hg. by exists D, acc'.
Qed.

(** ** Histories *)

(** The disk on which the intent was just stored: it is there for good, and so
    is what every destination was found to hold. *)
Record prepared (d : disk) : Prop := {
  pre_wf : wf d;
  pre_fresh : i0 = at_progress 0 false 0 false;
  pre_intent : may d (intent_path stage) (λ v, ∃ perm, v = Some (File (encodeIndent i0 ++ ["010"%char]) perm));
  pre_dest a : a ∈ all → may d (place (Path a)) (holds_pre Hash a)
}.
Abbreviation recover := (recoverCompletePullPublication Hash attachments_there jira_optional_there (cSelector c) (Some c)).
(** Recoveries, with any faults in them, and losses of power. *)
Inductive history (d0 : disk) : disk → Prop :=
| history_start : history d0 d0
| history_run η w : history d0 (dsk w) → history d0 (dsk (recover η w).1)
| history_loss d d' : history d0 d → power_loss d d' → history d0 d'.

Lemma prepared_inv d : prepared d → inv d.
Proof.
  intros [Hw Hf Hi Hd]. exists [], False. split; [done|]. intros p S [a Ha|a Ha Hin| |[]].
  - split; [apply place_nonempty|]. eapply may_mono; [|by apply Hd]. by left.
  - by apply elem_of_nil in Hin.
  - split; [apply child_nonempty|]. eapply may_mono; [|exact Hi]. intros v [perm ->]. exists 0, false, 0, false. split_and!; [|by intros a ?%elem_of_nil..|done].
    rewrite <- Hf. eapply decode_encode. rewrite Hf. apply enc_intent. unfold in_range, zlength. lia.
Qed.
Lemma prepared_power_loss d d' : power_loss d d' → prepared d → prepared d'.
Proof. intros Hp [H1 H2 H3 H4]. split; [by eapply wf_power_loss|done|by eapply may_power_loss|]. intros a Ha. by eapply may_power_loss, H4. Qed.
Lemma inv_power_loss d d' : power_loss d d' → inv d → inv d'.
Proof. intros Hp (D & acc & H). exists D, acc. by eapply guards_power_loss. Qed.
Lemma all_done_inv d : all_done d → inv d.
Proof. intros (D & acc & _ & H). by exists D, acc. Qed.
Lemma history_inv d0 d : prepared d0 → history d0 d → inv d.
Proof.
  intros Hp. induction 1 as [|η w _ IH|d d' _ IH Hl]; [by apply prepared_inv| |by eapply inv_power_loss].
  pose proof (recover_level η w IH) as H. revert H. destruct (recover η w) as [w' [a|e|]]; cbn; [apply all_done_inv|done..].
Qed.
Lemma inv_dest d a : inv d → a ∈ all → pre_or_post Hash a (look d (place (Path a))).
Proof. intros (D & acc & _ & H) Ha. destruct (H _ _ (level_dest D acc a Ha)) as [_ Hm]. exact (may_look _ _ _ Hm). Qed.
Lemma all_done_power_loss d d' : power_loss d d' → all_done d → all_done d'.
Proof. intros Hp (D & acc & Hc & H). exists D, acc. split; [done|]. by eapply guards_power_loss. Qed.
Lemma all_done_dest d : all_done d → (∀ a, a ∈ all → holds_post Hash a (look d (place (Path a)))) ∧ (Eligible i0 = true → accepted (look d journal)).
Proof.
  intros (D & acc & [Hc He] & _ & H). split.
  - intros a Ha. destruct (H _ _ (level_done D acc a Ha (Hc a Ha))) as [_ Hm]. exact (may_look _ _ _ Hm).
  - intros Hel. destruct (H _ _ (level_journal D acc (He Hel))) as [_ Hm]. exact (may_look _ _ _ Hm).
Qed.

(** C4: However often the publication of a page is started, hit by faults,
    killed or cut off by a loss of power, every file it touches holds exactly
    what it held before or what it is to hold afterwards. *)
Theorem publication_atomic d0 d a : prepared d0 → history d0 d → a ∈ all → pre_or_post Hash a (look d (place (Path a))).
Proof. intros Hp Hh. by eapply inv_dest, history_inv. Qed.

(** C6: When a recovery succeeds, after whatever faults, kills and losses of
    power, every file is published, an eligible page is in the journal of
    accepted pages, and no later loss of power takes that back. *)
Theorem recovery_durable d0 η w w' d' : prepared d0 → history d0 (dsk w) → recover η w = (w', Done tt) → (d' = dsk w' ∨ power_loss (dsk w') d') →
  (∀ a, a ∈ all → holds_post Hash a (look d' (place (Path a)))) ∧ (Eligible i0 = true → accepted (look d' journal)).
Proof.
  intros Hp Hh Hr Hd. pose proof (recover_level η w (history_inv d0 _ Hp Hh)) as H. rewrite Hr in H. cbn in H.
  apply all_done_dest. destruct Hd as [->|Hd]; [done|by eapply all_done_power_loss].
Qed.
End crash.
End PullFacts.
