(* ===== verification/PullPrepare.v ===== *)
(** * Staging a complete pull leaves the mirror alone

    Whatever interrupts the staging of a page, no file outside the private
    state changes; when it succeeds, the intent is stored for good and tells
    what every destination holds. *)

From S2P Require Import Prelude GoText Identifiers PullTypes PullDisk PullIntent PullStore PullLogic PullPublish PullFacts.
Import GoText Identifiers PullTypes PullDisk PullIntent PullStore PullLogic PullPublish PullFacts.

Module PullPrepare.
Local Open Scope Z_scope.
Local Open Scope atl_scope.

Section prepare.
Variable Hash : text → text.
Context `{!PullJson Intent, !PullJson completePullJournal, !PullJson CompletePullCheckpoint, !PullJson completePullProgress, !PullJson sidecarFile}.
Variable payloads_ok : CompletePullJournalEntry → list Input → bool.
Variable c : CompletePullCheckpoint.
Abbreviation stage := (completePullPublicationDir (cSelector c)).
(** The disk at the start. *)
Variable d0 : disk.

(** Every path outside the private state holds what it held. *)
Inductive frozen : spec := frozen_path p : outside p → frozen p (λ v, v = look d0 p).
Abbreviation same := (guards frozen).
Lemma frozen_scratch n l : n ≠ txt "base" → scratch frozen (txt ".atl" :: n :: l).
Proof.
  intros Hn. split; [done|]. split.
  - intros v S HS. remember (txt ".atl" :: n :: l) as p eqn:Hp. destruct HS as [p Ho]. subst p. by destruct Ho as [?|(y & l' & [= ? ?])].
  - intros q S [p Ho] Hin. destruct (ancestors_outside _ _ Ho Hin) as [[?|(y & l' & [= ? ?])]|[?|[= ? ?]]]; done.
Qed.
Lemma frozen_atl v : admits frozen atlDir v.
Proof. intros S HS. remember atlDir as p eqn:Hp. destruct HS as [p Ho]. subst p. by destruct Ho as [?|(y & l' & ?)]. Qed.
Lemma frozen_remove p : inside p → triple same (remove_if_exists p) (λ _, same) same.
Proof. intros (n & l & -> & Hn). destruct (frozen_scratch n l Hn) as (H1 & H2 & H3). by apply remove_triple. Qed.

Lemma same_sync p : triple same (SyncDirectoryWithin p) (λ _, same) same.
Proof. apply sync_triple. Qed.
Lemma same_sync_path p : triple same (syncPublicationPath p) (λ _, same) same.
Proof. apply sync_path_triple. Qed.
Lemma same_check b why : triple same (check b why) (λ _ d, b = true ∧ same d) same.
Proof. by apply triple_check. Qed.
Lemma same_lift {A} (r : checked A) : triple same (lift r) (λ a d, r = Ok a ∧ same d) same.
Proof. by apply triple_lift. Qed.
Lemma same_payload dir a : triple same (payload_there Hash dir a) (λ _, same) same.
Proof.
  unfold payload_there. destruct (Remove a); [by apply triple_ret|]. eapply triple_bind; [by apply triple_stat|]. intros info.
  eapply triple_bind; [apply triple_check; by intros d []|]. intros []. eapply triple_bind; [apply triple_file; by intros d (_ & _ & H)|]. intros b.
  eapply triple_conseq; [|intros d H; exact H| |intros d H; exact H]; [apply triple_check; by intros d (_ & _ & _ & H)|]. by intros [] d (_ & _ & _ & _ & H).
Qed.
Lemma same_validate i c' s : triple same (validateCompletePullPublication Hash i c' s) (λ _ d, validate_declared i c' = Ok tt ∧ same d) same.
Proof.
  eapply triple_bind; [apply same_lift|]. intros []. apply triple_pure. intros Hv. apply (triple_conseq _ same _ _ (λ _, same) _ same); [|done|done|done].
  destruct s; [|by apply triple_ret]. apply triple_each. intros x _. apply same_payload.
Qed.
Lemma same_abandoned sel es : triple same (cleanupAbandonedCompletePullPublication (completePullPublicationDir sel) es) (λ _, same) same.
Proof.
  eapply triple_bind; [apply same_check|]. intros []. apply triple_pure. intros _. eapply triple_bind; [apply same_lift|]. intros []. apply triple_pure. intros _.
  eapply triple_bind; [apply triple_each; intros e _; apply frozen_remove; by eexists _, _|]. intros []. eapply triple_bind; [apply same_sync|]. intros [].
  eapply triple_bind; [apply frozen_remove; by eexists _, _|]. intros []. apply same_sync_path.
Qed.
Lemma triple_drop {A} (F P : assertion) (m : M A) (Q : A → assertion) (I : assertion) : triple P m Q I → triple (λ d, F d ∧ P d) m Q I.
Proof. intros H η w [_ Hp]. by apply H. Qed.
Lemma same_read sel c' : triple same (readPublicationIntent Hash sel c') (λ _, same) same.
Proof.
  eapply triple_bind; [apply same_check|]. intros []. apply triple_pure. intros _. eapply triple_bind; [by apply triple_stat|]. intros [[data perm|perm]|]; apply triple_drop.
  - by apply triple_throw.
  - eapply triple_bind; [apply same_check|]. intros []. apply triple_pure. intros _. eapply triple_bind; [by apply read_private_triple|]. intros [b|]; apply triple_drop.
    + destruct c' as [c'|]; [|by apply triple_throw]. destruct (decodeStrict b) as [i|]; [|by apply triple_throw]. eapply triple_bind; [apply same_validate|]. intros []. apply triple_pure. intros _. by apply triple_ret.
    + eapply triple_bind; [by apply triple_entries|]. intros es. destruct c' as [c'|]; [|by apply triple_throw]. eapply triple_bind; [apply same_lift|]. intros []. apply triple_pure. intros _.
      eapply triple_bind; [apply same_abandoned|]. intros []. by apply triple_ret.
  - by apply triple_ret.
Qed.

(** ** Staging *)

Lemma payload_plain n : has_prefix (payload_name n) (txt ".tmp-") = false.
Proof. done. Qed.
Lemma same_write_stage name data : has_prefix name (txt ".tmp-") = false → triple same (WriteFileWithin (child stage name) data mode0600) (λ _, same) same.
Proof.
  intros Hn. eapply triple_conseq; [apply (write_within_holding frozen)|done|by intros [] d []|done].
  - apply child_nonempty.
  - by rewrite leaf_child.
  - intros r. rewrite parent_child. by apply frozen_scratch.
  - by apply (frozen_scratch (txt "complete-pulls")).
Qed.
(** A staged artifact tells what its destination holds. *)
Definition faithful (a : Artifact) : Prop := outside (place (Path a)) ∧ holds_pre Hash a (look d0 (place (Path a))).
Definition aimed (input : Input) : Prop := ∀ rel, relativeAny (inPath input) = Ok rel → outside (place rel).
Lemma stage_triple service input n token persist : aimed input → triple same (stagePublicationArtifact Hash service stage input n token persist) (λ a d, faithful a ∧ same d) same.
Proof.
  intros Hi. unfold stagePublicationArtifact. eapply triple_bind; [apply same_lift|]. intros rel. apply triple_pure. intros Hrel. apply Hi in Hrel.
  eapply triple_bind; [by apply (current_triple Hash same)|]. intros [pre preSize].
  eapply (triple_conseq _ (λ d, image Hash (look d0 (place rel)) = Some pre ∧ same d)); [|intros d [Hl Hg]; split; [|done]|intros a d H; exact H|done].
  2:{ destruct (proj2 Hg _ _ (frozen_path _ Hrel)) as [_ Hm]. apply may_look in Hm. by rewrite Hm in Hl. }
  apply triple_pure. intros Hpre. eapply triple_bind; [apply same_check|]. intros []. apply triple_pure. intros _. destruct (inRemove input).
  - eapply triple_bind; [apply same_check|]. intros []. apply triple_pure. intros _. eapply triple_bind; [apply same_check|]. intros []. apply triple_pure. intros _.
    eapply triple_bind; [apply same_check|]. intros []. apply triple_pure. intros _. by apply triple_ret.
  - eapply triple_bind; [apply same_check|]. intros []. apply triple_pure. intros _. eapply triple_bind; [apply same_check|]. intros []. apply triple_pure. intros _.
    eapply triple_bind; [apply same_write_stage, payload_plain|]. intros []. by apply triple_ret.
Qed.
Lemma stage_all_triple service inputs n token persist : Forall aimed inputs → triple same (stage_all Hash service stage inputs n token persist) (λ r d, Forall faithful r.1 ∧ same d) same.
Proof.
  intros H. revert n. induction H as [|input inputs Hi _ IH]; intros n; cbn [stage_all]; [apply triple_ret; intros d Hg; split; [by constructor|done]|].
  eapply triple_bind; [by apply stage_triple|]. intros a. apply triple_pure. intros Ha. eapply triple_bind; [apply IH|]. intros r. apply triple_pure. intros Hr. apply triple_ret.
  intros d Hg. split; [by constructor|done].
Qed.
Lemma request_aimed c' index e inputs retirement e' : request_ok Hash payloads_ok c' index e inputs retirement = Ok e' → Forall aimed inputs ∧ Forall aimed retirement.
Proof.
  unfold request_ok. intros H. apply Forall_app. apply bind_ok in H as (? & _ & H). apply bind_ok in H as (? & _ & H). apply bind_ok in H as (? & _ & H). apply bind_ok in H as (? & _ & H).
  apply bind_ok in H as (u & Ha & _). revert Ha. induction (inputs ++ retirement) as [|a l IH]; [by constructor|]. cbn [all_ok]. intros H. apply bind_ok in H as (? & Hi & H).
  constructor; [|by apply IH]. intros rel Hrel. unfold input_ok in Hi. rewrite Hrel in Hi. cbn [rbind] in Hi. apply bind_ok in Hi as (q & Hq & _). by eapply outside_place.
Qed.

(** What a successful staging stores. *)
Definition stored_intent (d : disk) : Prop := ∃ i0, validate_declared i0 (current_schema c) = Ok tt ∧ prepared Hash c i0 d.
Lemma prepare_triple index e eligible inputs retirement token :
  triple same (prepareCompletePullPublication Hash payloads_ok c index e eligible inputs retirement token) (λ _ d, stored_intent d ∧ same d) same.
Proof.
  unfold prepareCompletePullPublication. rewrite current_selector. eapply triple_bind; [apply same_lift|]. intros e'. apply triple_pure. intros Hreq. apply request_aimed in Hreq as [H1 H2].
  eapply triple_bind; [apply same_read|]. intros existing. eapply triple_bind; [apply same_check|]. intros []. apply triple_pure. intros _.
  eapply triple_bind; [apply (mkdir_triple _ stage); [|done]|].
  { intros x Hx _. assert (x = atlDir ∨ x = completePullsDir ∨ x = stage) as Hx'.
    { change (ancestors stage) with [atlDir; completePullsDir] in Hx. cbn [app] in Hx. rewrite !elem_of_cons in Hx. destruct Hx as [?|[?|[?|Hx%elem_of_nil]]]; [by auto..|done]. }
    destruct Hx' as [-> |[-> | ->]]; [apply frozen_atl|by apply (frozen_scratch (txt "complete-pulls"))..]. }
  intros []. eapply triple_bind; [by apply triple_stat|]. intros info. apply triple_drop. eapply triple_bind; [apply same_check|]. intros []. apply triple_pure. intros _.
  eapply triple_bind; [by apply stage_all_triple|]. intros r. apply triple_pure. intros Hr. eapply triple_bind; [by apply stage_all_triple|]. intros r'. apply triple_pure. intros Hr'.
  set (i := {| SchemaVersion := _ |}). eapply triple_bind; [apply same_check|]. intros []. apply triple_pure. intros _. eapply triple_bind; [apply same_sync|]. intros [].
  eapply triple_bind; [apply same_validate|]. intros []. apply triple_pure. intros Hv. unfold savePublicationIntent.
  set (X := λ v : option node, ∃ perm, v = Some (File (encodeIndent i ++ ["010"%char]) perm)).
  eapply (triple_bind _ _ (λ _, pw frozen (intent_path stage) X)).
  - eapply triple_bind; [apply same_check|]. intros []. apply triple_pure. intros _.
    eapply (triple_bind _ _ (λ _, holding frozen (intent_path stage) (encodeIndent i ++ ["010"%char]) mode0600)).
    { apply write_within_holding; [apply child_nonempty|done|intros x; by apply (frozen_scratch (txt "complete-pulls"))|by apply (frozen_scratch (txt "complete-pulls"))]. }
    intros []. eapply triple_conseq; [apply (pw_sync frozen (intent_path stage) X)| |done|by intros d []]. intros d [Hg Hl]. split; [done|]. rewrite Hl. by exists mode0600.
  - intros []. eapply triple_conseq; [apply (pw_sync_path frozen (intent_path stage) X)|done| |done]. intros [] d [[Hg Hl] Hs]. split; [|done]. exists i. split; [done|]. split.
    + apply Hg.
    + unfold at_progress, i. cbn. by destruct (length retirement =? 0)%nat.
    + apply settled_may; [apply Hg|apply child_nonempty|exact Hs|done].
    + intros a Ha. assert (faithful a) as [Ho Hf].
      { unfold all_artifacts, i, relocated in Ha. cbn [Artifacts Relocation] in Ha. rewrite Forall_forall in Hr, Hr'. apply elem_of_app in Ha as [Ha|Ha]; [by apply Hr|].
        destruct (length retirement =? 0)%nat; [by apply elem_of_nil in Ha|by apply Hr']. }
      destruct (proj2 Hg _ _ (frozen_path _ Ho)) as [_ Hm]. eapply may_mono; [|exact Hm]. by intros v ->.
Qed.

(** C16: Whatever interrupts the staging of a page, and whatever a loss of power
    then brings back, no file outside the private state changes. When staging
    succeeds, the intent is stored for good, is valid and tells what every
    destination holds. *)
Theorem prepare_safe index e eligible inputs retirement token η w w' r d' : wf d0 → quiet d0 → dsk w = d0 →
  prepareCompletePullPublication Hash payloads_ok c index e eligible inputs retirement token η w = (w', r) → d' = dsk w' ∨ power_loss (dsk w') d' →
  (∀ p, outside p → look d' p = look d0 p) ∧ (r = Done tt → stored_intent d').
Proof.
  intros Hw Hq Hd Hr Hd'. assert (same (dsk w)) as Hs.
  { rewrite Hd. split; [done|]. intros p S [x Hx]. split; [by destruct x|]. by apply quiet_may. }
  pose proof (prepare_triple index e eligible inputs retirement token η w Hs) as H. rewrite Hr in H. cbn [fst snd] in H.
  assert (same (dsk w') ∧ (r = Done tt → stored_intent (dsk w'))) as [Hg Hst] by (destruct r as [[]|e'|]; [by destruct H|done..]). split.
  - intros p Hp. assert (same d') as Hg' by (destruct Hd' as [->|Hl]; [done|by eapply guards_power_loss]). destruct (proj2 Hg' _ _ (frozen_path p Hp)) as [_ Hm]. by apply may_look in Hm.
  - intros Hr'. destruct (Hst Hr') as (i0 & Hv & Hp). exists i0. split; [done|]. destruct Hd' as [->|Hl]; [done|by eapply prepared_power_loss].
Qed.
End prepare.
End PullPrepare.
