(* ===== verification/PullAdvance.v ===== *)
(** * Include evidence of complete pulls only grows
    (internal/mirror/complete_pull_confluence_includes.go)

    Folding the evidence of a journal into a checkpoint gives aggregates that
    the check of an advance accepts. *)

From S2P Require Import Prelude GoText Identifiers PullTypes PullDisk PullIntent PullStore PullLogic PullFacts.
Import GoText Identifiers PullTypes PullStore PullFacts.

Module PullAdvance.
Local Open Scope Z_scope.
Local Open Scope atl_scope.

Definition known (x : text) : Prop := x = DimensionAssets ∨ x = DimensionComments ∨ x = DimensionAttachments.
Lemma aggregate_set x y a p : known x → known y → aggregate_of x (set_aggregate y a p) = if decide (x = y) then a else aggregate_of x p.
Proof. intros [-> |[-> | ->]] [-> |[-> | ->]]; done. Qed.
Lemma valid_known v : ValidConfluencePullIncludeEvidence v = true → known (Dimension v).
Proof.
  unfold ValidConfluencePullIncludeEvidence, known, eqt. rewrite !andb_true_iff, !orb_true_iff, !bool_decide_eq_true. tauto.
Qed.
Lemma evidence_loop_ok seen vs : evidence_loop seen vs = Ok tt → Forall (λ v, ValidConfluencePullIncludeEvidence v = true ∧ Dimension v ∉ seen) vs ∧ NoDup (map Dimension vs).
Proof.
  revert seen. induction vs as [|v vs IH]; intros seen H; [by split; constructor|]. cbn [evidence_loop] in H. checks H. apply IH in H as [H1 H2].
  rewrite negb_true_iff, bool_decide_eq_false in Hok0. split.
  - constructor; [done|]. eapply Forall_impl; [exact H1|]. cbn. intros w [Hw Hn]. split; [done|]. intros Hs. apply Hn. by apply list_elem_of_further.
  - cbn [map]. constructor; [|done]. change (map Dimension vs) with (Dimension <$> vs). rewrite list_elem_of_fmap. intros (w & He & Hw). rewrite Forall_forall in H1.
    destruct (H1 w Hw) as [_ Hn]. apply Hn. rewrite He. apply list_elem_of_here.
Qed.

(** How an aggregate changes over [n] pages. *)
Record grown (attachments : bool) (n : Z) (a b : IncludeAggregate) : Prop := {
  grown_published : 0 ≤ aPublished b - aPublished a ≤ n;
  grown_partial : 0 ≤ aPartial b - aPartial a ≤ aPublished b - aPublished a;
  grown_reason : aPartial b = aPartial a → aReason b = aReason a;
  grown_bytes : 0 ≤ aBodyBytes b - aBodyBytes a;
  grown_plain : attachments = false → aBodyBytes b = aBodyBytes a;
  grown_body : aBodyBytes b ≠ aBodyBytes a → aPublished b ≠ aPublished a
}.
Lemma grown_refl t n a : 0 ≤ n → grown t n a a.
Proof. intros H. split; lia || done. Qed.
Lemma grown_trans t n m a b c : grown t n a b → grown t m b c → grown t (n + m) a c.
Proof.
  intros [A1 A2 A3 A4 A5 A6] [B1 B2 B3 B4 B5 B6]. split; [lia|lia| |lia| |].
  - intros H. rewrite B3, A3 by lia. done.
  - intros H. by rewrite B5, A5.
  - intros H He. assert (aPublished b = aPublished a) by lia. assert (aPublished c = aPublished b) by lia. destruct (decide (aBodyBytes b = aBodyBytes a)); [apply B6; lia|by apply A6].
Qed.
Lemma count_grown a v b : ValidConfluencePullIncludeEvidence v = true → count_evidence a v = Ok b → grown (eqt (Dimension v) DimensionAttachments) 1 a b.
Proof.
  unfold ValidConfluencePullIncludeEvidence. rewrite !andb_true_iff, negb_true_iff. intros [[Hb _] _]. unfold count_evidence. intros H. checks H. injection H as <-.
  destruct (eqt (Dimension v) DimensionAttachments), (eqt (Qualification v) Partial), (Z.ltb_spec 0 (BodyBytes v)); split; cbn in *; lia || (intros; lia) || done.
Qed.
Lemma apply_evidence_grown p vs p' x : known x → Forall (λ v, ValidConfluencePullIncludeEvidence v = true) vs → NoDup (map Dimension vs) → apply_evidence p vs = Ok p' →
  EvidenceComplete p' = EvidenceComplete p ∧ grown (eqt x DimensionAttachments) 1 (aggregate_of x p) (aggregate_of x p') ∧ (x ∉ map Dimension vs → aggregate_of x p' = aggregate_of x p).
Proof.
  intros Hx. revert p. induction vs as [|v vs IH]; intros p Hv Hn H; cbn [apply_evidence map] in *.
  - injection H as <-. split; [done|]. split; [by apply grown_refl|done].
  - apply bind_ok in H as (a & Ha & H). apply Forall_cons in Hv as [Hv Hvs]. apply NoDup_cons in Hn as [Hn Hns]. apply (IH _ Hvs Hns) in H as (H1 & H2 & H3).
    assert (EvidenceComplete (set_aggregate (Dimension v) a p) = EvidenceComplete p) as He by (unfold set_aggregate; by repeat destruct (eqt _ _)). rewrite He in H1.
    rewrite aggregate_set in H2, H3 by (done || by apply valid_known). split; [done|]. case_decide as Hd.
    + rewrite H3 by by rewrite Hd. split; [|by rewrite not_elem_of_cons; intros []]. subst x. by apply count_grown.
    + split; [done|]. rewrite not_elem_of_cons. intros [_ Hm]. by apply H3.
Qed.
Lemma evidence_grown p vs p' x : known x → applyCompletePullIncludeEvidence p vs = Ok p' → EvidenceComplete p' = EvidenceComplete p ∧ grown (eqt x DimensionAttachments) 1 (aggregate_of x p) (aggregate_of x p').
Proof.
  intros Hx H. apply bind_ok in H as ([] & Hl & H). apply evidence_loop_ok in Hl as [H1 H2]. destruct (apply_evidence_grown p vs p' x) as (? & ? & _); [done| |done..].
  eapply Forall_impl; [exact H1|]. by intros v [].
Qed.
Lemma fold_grown es p p' x : known x → fold_evidence p es = Ok p' → EvidenceComplete p' = EvidenceComplete p ∧ grown (eqt x DimensionAttachments) (zlength es) (aggregate_of x p) (aggregate_of x p').
Proof.
  intros Hx. revert p. induction es as [|e es IH]; intros p H; cbn [fold_evidence] in H; [injection H as <-; split; [done|by apply grown_refl]|].
  apply bind_ok in H as (q & Hq & H). apply IH in H as [H1 H2]. destruct (evidence_grown _ _ _ _ Hx Hq) as [H3 H4]. split; [congruence|].
  replace (zlength (e :: es)) with (1 + zlength es) by (unfold zlength; cbn; lia). by eapply grown_trans.
Qed.
Lemma advance_ok n x a b : grown (eqt x DimensionAttachments) n a b → aggregate_advance n (x, (a, b)) = Ok tt.
Proof.
  intros [H1 H2 H3 H4 H5 H6]. unfold aggregate_advance. cbn [fst snd]. assert (∀ c why, c = true → require c why = Ok tt) as Hr by by intros [].
  rewrite Hr; [cbn [rbind]|lia]. rewrite Hr; [cbn [rbind]|lia]. rewrite Hr; [cbn [rbind]|]. rewrite Hr; [cbn [rbind]|]. apply Hr.
  - destruct (eqt x DimensionAttachments); [|done]. destruct (Z.eqb_spec (aBodyBytes b - aBodyBytes a) 0); [done|]. cbn. destruct (Z.eqb_spec (aPublished b - aPublished a) 0); [|done]. destruct H6; lia.
  - destruct (eqt x DimensionAttachments); [done|]. rewrite H5 by done. by rewrite Z.sub_diag.
  - destruct (Z.eqb_spec (aPartial b - aPartial a) 0); [|done]. rewrite H3 by lia. unfold eqt. by rewrite bool_decide_eq_true_2.
Qed.

Lemma journal_not_empty j c : validateCompletePullJournal j c = Ok tt → 1 ≤ zlength (Entries j) ∧ 0 ≤ StartIndex j.
Proof.
  unfold validateCompletePullJournal. intros H. checks H. match goal with E : negb (length (Entries j) =? 0)%nat && _ && _ && _ = true |- _ => rename E into Hn end.
  rewrite !andb_true_iff, negb_true_iff, Nat.eqb_neq in Hn. unfold zlength. lia.
Qed.
(** The progress that comes of folding an accepted journal into the
    checkpoint it starts at passes the check of an advance: no dimension is
    counted twice, no partial page without its page, no bytes without a page. *)
Theorem advanced_accepted j c c' : jService j = Confluence → validateCompletePullJournal j c = Ok tt → NextIndex c = StartIndex j → advanced j c = Ok c' →
  NextIndex c' = journal_end j ∧ validateCompletePullIncludeAdvance (cIncludes c) (NextIndex c) (cIncludes c') (NextIndex c') = Ok tt ∧
  ∀ x, known x → grown (eqt x DimensionAttachments) (zlength (Entries j)) (aggregate_of x (cIncludes c)) (aggregate_of x (cIncludes c')).
Proof.
  intros Hs Hv Hn H. destruct (journal_not_empty _ _ Hv) as [Hlen _]. unfold advanced in H. rewrite Hs in H. apply bind_ok in H as (i & Hi & H). injection H as <-. cbn. split; [done|].
  assert ((EvidenceComplete (cIncludes c) = false → EvidenceComplete i = false) ∧ ∀ x, known x → grown (eqt x DimensionAttachments) (zlength (Entries j)) (aggregate_of x (cIncludes c)) (aggregate_of x i)) as [He Hg].
  { change (eqt Confluence Confluence) with true in Hi. cbn [andb] in Hi. destruct (jSchema j =? completePullJournalSchema).
    - injection Hi as <-. split; [done|]. intros x [-> |[-> | ->]]; apply grown_refl; lia.
    - split; [|intros x Hx; by eapply fold_grown in Hi as [_ ?]]. intros Hf. apply (fold_grown _ _ _ DimensionAssets) in Hi as [-> _]; [done|by left]. }
  split; [|exact Hg]. unfold validateCompletePullIncludeAdvance. rewrite Hn. unfold journal_end. replace (StartIndex j + zlength (Entries j) - StartIndex j) with (zlength (Entries j)) by lia.
  assert (∀ b why, b = true → require b why = Ok tt) as Hr by by intros [].
  rewrite Hr; [cbn [rbind]|lia]. rewrite Hr; [cbn [rbind]|by destruct (EvidenceComplete (cIncludes c)), (EvidenceComplete i); intuition]. rewrite Hr; [cbn [rbind]|].
  - cbn [all_ok]. pose proof (Hg _ (or_introl eq_refl)) as G1. pose proof (Hg _ (or_intror (or_introl eq_refl))) as G2. pose proof (Hg _ (or_intror (or_intror eq_refl))) as G3.
    rewrite (advance_ok _ DimensionAssets) by exact G1. cbn [rbind]. rewrite (advance_ok _ DimensionComments) by exact G2. cbn [rbind]. by rewrite (advance_ok _ DimensionAttachments) by exact G3.
  - destruct (Z.eqb_spec (zlength (Entries j)) 0); [lia|]. by rewrite andb_false_r.
Qed.
End PullAdvance.
