(* ===== verification/PullExample.v ===== *)
(** * A publication, run

    One Confluence page on a concrete disk: the theorems on complete pulls
    applied to it, and recoveries cut off at every step. *)

From S2P Require Import Prelude GoText Identifiers PullTypes PullDisk PullIntent PullStore PullLogic PullPublish PullFacts PullAdvance PullPrepare.
Import GoText Identifiers PullTypes PullDisk PullIntent PullStore PullLogic PullPublish PullFacts PullAdvance PullPrepare.

Module PullExample.
Local Open Scope Z_scope.
Local Open Scope atl_scope.

(** A hash and codecs that suffice for this page. *)
Definition digit_of (data : text) : ascii := ascii_of_N (97 + N.of_nat (length data mod 6)).
Definition toy_hash (data : text) : text := replicate 64 (digit_of data).
Definition old_body : text := txt "old".
Definition new_body : text := txt "fresh".
Definition page_view : ViewState := {| vSections := []; vDisplayTimeZone := []; vCustomFields := []; vFieldViews := []; vPageFields := []; vEpicField := [] |}.
Definition page_entry : CompletePullJournalEntry :=
  {| Identity := []; State := {| sID := txt "7"; sIdentity := []; sVersion := 3; sHash := toy_hash new_body; sPath := txt "pages/a.csf" |}; View := page_view;
     Previous := None; Includes := None; OptionalEvidence := None |}.
Definition checkpoint : CompletePullCheckpoint :=
  {| cSchema := 1; cService := Confluence; cSelector := replicate 64 "a"%char; cOptions := replicate 64 "b"%char; cSelection := replicate 64 "c"%char; IDs := [txt "7"]; NextIndex := 0; cIncludes := no_includes |}.
Definition token : text := replicate 32 "0"%char.
Definition native_artifact : Artifact :=
  {| Path := txt "pages/a.csf"; Role := []; Pre := pre_of toy_hash old_body mode0644; PreSize := None; Remove := false; BestEffort := false; Payload := txt "payload-0000";
     SHA256 := toy_hash new_body; Size := 5; Mode := mode0644; Temp := completePullArtifactTemp token 0 |}.
Definition base_artifact : Artifact :=
  {| Path := txt ".atl/base/7.csf"; Role := []; Pre := absent; PreSize := None; Remove := false; BestEffort := false; Payload := txt "payload-0001";
     SHA256 := toy_hash new_body; Size := 5; Mode := mode0600; Temp := completePullArtifactTemp token 1 |}.
Definition page_intent : Intent :=
  {| SchemaVersion := 2; Service := Confluence; Selector := cSelector checkpoint; Options := cOptions checkpoint; Selection := cSelection checkpoint; Index := 0; Entry := page_entry; Eligible := true;
     Artifacts := [native_artifact; base_artifact]; Next := 0; StatePublished := false; Relocation := None; Committed := false; WriteToken := token |}.

Definition count (x : ascii) (s : text) : nat := length (List.filter (λ y, bool_decide (y = x)) s).
#[local] Instance intent_json : PullJson Intent := {|
  encodeIndent i := replicate (Z.to_nat (Next i)) "n"%char ++ (if StatePublished i then ["p"%char] else []) ++ (if Committed i then ["c"%char] else []);
  decodeStrict s := Some (at_progress page_intent (Z.of_nat (count "n" s)) (0 <? count "p" s)%nat 0 (0 <? count "c" s)%nat)
|}.
Definition page_journal (n : nat) : completePullJournal := with_entries (replicate n page_entry) (new_journal checkpoint page_intent).
#[local] Instance journal_json : PullJson completePullJournal := {|
  encodeIndent j := replicate (length (Entries j)) "e"%char;
  decodeStrict s := Some (page_journal (count "e" s))
|}.
#[local] Instance sidecar_json : PullJson sidecarFile := {| encodeIndent _ := []; decodeStrict _ := Some empty_sidecar |}.
Definition intent_encodable (i : Intent) : Prop := ∃ n published k committed, 0 ≤ n ∧ i = at_progress page_intent n published k committed.
Definition journal_encodable (j : completePullJournal) : Prop := ∃ n, j = page_journal n.
Lemma count_app x s t : count x (s ++ t) = (count x s + count x t)%nat.
Proof. unfold count. by rewrite List.filter_app, length_app. Qed.
Lemma count_replicate x n y : count x (replicate n y) = if decide (y = x) then n else 0%nat.
Proof.
  unfold count. destruct (decide (y = x)) as [->|H]; (induction n as [|n IH]; [done|]); cbn [replicate List.filter]; [rewrite bool_decide_eq_true_2 by done; cbn; by rewrite IH|by rewrite bool_decide_eq_false_2 by done].
Qed.
#[local] Instance intent_laws : PullJsonLaws Intent intent_encodable.
Proof.
  split. intros i (n & published & k & committed & Hn & ->). cbn [encodeIndent decodeStrict intent_json]. rewrite !count_app, !count_replicate.
  cbn [Next StatePublished Committed at_progress progress_to]. f_equal. unfold at_progress. cbn [moved option_map Relocation page_intent].
  f_equal; destruct published, committed; unfold count; cbn [txt app List.filter];
    repeat match goal with |- context [bool_decide ?P] => let v := eval vm_compute in (bool_decide P) in change (bool_decide P) with v end; repeat case_decide; try done; cbn; lia || done.
Qed.
#[local] Instance journal_laws : PullJsonLaws completePullJournal journal_encodable.
Proof. split. intros j (n & ->). cbn [encodeIndent decodeStrict journal_json]. rewrite count_app, count_replicate, decide_True by done. cbn [page_journal with_entries Entries]. rewrite length_replicate. change (count "e"%char ["010"%char]) with 0%nat. by rewrite Nat.add_0_r. Qed.

(** The disk when the page was just staged. *)
Definition entries_of (l : list (text * node)) : entries := list_to_map l.
Definition folder_of (l : list (text * node)) : folder := {| now := entries_of l; older := [] |}.
Definition stage_of : path := completePullPublicationDir (cSelector checkpoint).
Definition staged_disk : disk := list_to_map [
  ([], folder_of [(txt "pages", Dir mode0755); (txt ".atl", Dir mode0755)]);
  ([txt "pages"], folder_of [(txt "a.csf", File old_body mode0644)]);
  (atlDir, folder_of [(txt "complete-pulls", Dir mode0700)]);
  (completePullsDir, folder_of [(leaf stage_of, Dir mode0700)]);
  (stage_of, folder_of [(txt "intent.json", File (encodeIndent page_intent ++ ["010"%char]) mode0600); (txt "payload-0000", File new_body mode0600); (txt "payload-0001", File new_body mode0600)])].
Definition settled_disk (d : disk) : bool := forallb (λ p : path * folder, bool_decide (older p.2 = []) && (bool_decide (now p.2 = ∅) || exists_dir d p.1)) (map_to_list d).
Lemma settled_disk_ok d : settled_disk d = true → wf d ∧ quiet d.
Proof.
  unfold settled_disk. rewrite forallb_forall. intros H. assert (∀ dir f, d !! dir = Some f → older f = [] ∧ (now f = ∅ ∨ exists_dir d dir = true)) as Hf.
  { intros dir f Hl. apply elem_of_map_to_list, list_elem_of_In in Hl. apply H in Hl. cbn in Hl. rewrite andb_true_iff, orb_true_iff, !bool_decide_eq_true in Hl. exact Hl. }
  split.
  - intros dir. unfold listing, folder_at. destruct (d !! dir) as [f|] eqn:Hd; cbn; [|done]. by destruct (Hf dir f Hd) as [_ [->|?]].
  - intros dir s. unfold versions, listing, folder_at. destruct (d !! dir) as [f|] eqn:Hd; cbn; [destruct (Hf dir f Hd) as [-> _]|]; intros Hs; by apply list_elem_of_singleton in Hs.
Qed.
Definition ends_ok {A} (r : checked A) : bool := match r with Ok _ => true | Err _ => false end.
Lemma page_artifacts a : a ∈ all_artifacts page_intent → a = native_artifact ∨ a = base_artifact.
Proof. intros [->|[->|Ha%elem_of_nil]%elem_of_cons]%elem_of_cons; [by left|by right|done]. Qed.
Lemma page_footprint : footprint checkpoint page_intent.
Proof.
  split; [by vm_compute|by vm_compute|intros a b [-> | ->]%page_artifacts [-> | ->]%page_artifacts|intros a b [-> | ->]%page_artifacts [-> | ->]%page_artifacts _]; refine (bool_decide_unpack _ _); by vm_compute.
Qed.
Lemma page_prepared : prepared toy_hash checkpoint page_intent staged_disk.
Proof.
  destruct (settled_disk_ok staged_disk) as [Hw Hq]; [by vm_compute|]. split; [done|done| |].
  - apply quiet_may; [done|done|]. exists mode0600. by vm_compute.
  - intros a [-> | ->]%page_artifacts; (apply quiet_may; [done|done|]); by vm_compute.
Qed.
Lemma page_progress n published k committed : in_range page_intent n k → intent_encodable (at_progress page_intent n published k committed).
Proof. intros [Hn _]. exists n, published, k, committed. split; [lia|done]. Qed.
Lemma page_decoded b j : decodeStrict b = Some j → journal_encodable j.
Proof. cbn. intros [= <-]. by eexists. Qed.
Lemma page_append j : journal_encodable j → journal_encodable (with_entries (Entries j ++ [Entry page_intent]) j).
Proof. intros [n ->]. exists (S n). unfold page_journal. cbn. by rewrite <- replicate_cons_app. Qed.
Lemma page_new : journal_encodable (with_entries [Entry page_intent] (new_journal (current_schema checkpoint) page_intent)).
Proof. by exists 1%nat. Qed.
Definition no_evidence (e : CompletePullJournalEntry) : M unit := mret tt.
Lemma no_evidence_reads e : only_reads (no_evidence e).
Proof. done. Qed.

(** ** Runs *)

Abbreviation recover_page := (recoverCompletePullPublication toy_hash no_evidence no_evidence (cSelector checkpoint) (Some checkpoint)).
Definition fault_env (fault_at' : nat → fault) : env := {| fault_at := fault_at'; cut_at := λ _, 2%nat; random_at := λ t, let s := txt (pretty.pretty t) in replicate (16 - length s) "0"%char ++ s |}.
Definition calm_env : env := fault_env (λ _, Good).
Definition killed_at (n : nat) : env := fault_env (λ t, if (t =? n)%nat then Kill else Good).
Definition start (d : disk) : world := {| dsk := d; tick := 0 |}.
(** The oldest versions of all directories, and of those what is reachable. *)
Definition oldest (d : disk) (dir : path) : entries := List.last (versions d dir) ∅.
Definition alive_in (kept : path → entries) (dir : path) : bool := forallb (λ a, bool_decide (a = []) || is_dir (kept (parent a) !! leaf a)) (ancestors dir ++ [dir]).
Definition rolled_back (d : disk) : disk := map_imap (λ dir _, Some {| now := if alive_in (oldest d) dir then oldest d dir else ∅; older := [] |}) d.
Definition published_page (d : disk) : bool :=
  bool_decide (look d (place (txt "pages/a.csf")) = Some (File new_body mode0644)) && bool_decide (look d (place (txt ".atl/base/7.csf")) = Some (File new_body mode0600)) &&
  bool_decide (look d stage_of = None).
Definition ends_done {A} (r : outcome A) : bool := match r with Done _ => true | _ => false end.
Definition finishes (d : disk) : bool := let r := recover_page calm_env (start d) in ends_done r.2 && published_page (dsk r.1).
Definition untouched_or_new (d : disk) : bool := bool_decide (look d (place (txt "pages/a.csf")) ∈ [Some (File old_body mode0644); Some (File new_body mode0644)]).

(** A recovery without faults publishes the page in 108 steps. *)
Example calm_recovery : finishes staged_disk = true ∧ tick (recover_page calm_env (start staged_disk)).1 = 108%nat.
Proof. split; by vm_compute. Qed.
(** Killed at some steps, with or without a loss of power, the page is
    old or new, and another recovery finishes the work. *)
Example interrupted_recovery : forallb (λ n, forallb (λ η : env, let d := dsk (recover_page η (start staged_disk)).1 in
  untouched_or_new d && untouched_or_new (rolled_back d) && finishes d && finishes (rolled_back d)) [killed_at n]) [30; 70; 103]%nat = true.
Proof. by vm_compute. Qed.

(** ** The theorems at this page *)

Lemma publication_atomic_witness : pre_or_post toy_hash native_artifact (look (dsk (recover_page (killed_at 30) (start staged_disk)).1) (place (txt "pages/a.csf"))).
Proof.
  exact (publication_atomic toy_hash checkpoint page_intent page_footprint intent_encodable journal_encodable page_progress page_decoded page_append page_new no_evidence no_evidence
    no_evidence_reads no_evidence_reads staged_disk _ native_artifact page_prepared
    (history_run _ _ _ _ _ (killed_at 30) (start staged_disk) (history_start _ _ _ _ _)) (list_elem_of_here _ _)).
Defined.
Definition page_world : world := (recover_page calm_env (start staged_disk)).1.
Lemma page_recovered : recover_page calm_env (start staged_disk) = (page_world, Done tt).
Proof. unfold page_world. destruct (recover_page _ _) as [w' r] eqn:H. cbn. f_equal. assert ((recover_page calm_env (start staged_disk)).2 = Done tt) as Hr by by vm_compute. by rewrite H in Hr. Qed.
Lemma recovery_durable_witness : (∀ a, a ∈ all_artifacts page_intent → holds_post toy_hash a (look (dsk page_world) (place (Path a)))) ∧
  (Eligible page_intent = true → accepted page_intent (look (dsk page_world) (completePullJournalPath (cSelector checkpoint)))).
Proof.
  exact (recovery_durable toy_hash checkpoint page_intent page_footprint intent_encodable journal_encodable page_progress page_decoded page_append page_new no_evidence no_evidence
    no_evidence_reads no_evidence_reads staged_disk calm_env (start staged_disk) page_world (dsk page_world) page_prepared (history_start _ _ _ _ _) page_recovered (or_introl eq_refl)).
Defined.

(** Staging the same page on the disk before. *)
Definition unstaged_disk : disk := list_to_map [
  ([], folder_of [(txt "pages", Dir mode0755)]);
  ([txt "pages"], folder_of [(txt "a.csf", File old_body mode0644)])].
Definition public_path (p : text) : ArtifactPath := {| value := p; class := artifactPathClassPublic |}.
Definition private_path (p : text) : ArtifactPath := {| value := p; class := artifactPathClassPrivateBase |}.
Definition input_of (p : ArtifactPath) (mode : Z) : Input :=
  {| inPath := p; inRole := []; inData := new_body; inMode := mode; inRemove := false; inBestEffort := false; expectedPre := None; expectedPreSize := None |}.
Definition page_inputs : list Input := [input_of (public_path (txt "pages/a.csf")) mode0644; input_of (private_path (txt ".atl/base/7.csf")) mode0600].
Abbreviation stage_page η w := (prepareCompletePullPublication toy_hash (λ _ _, true) checkpoint 0 page_entry true page_inputs [] token η w).
Definition staging : world * outcome unit := stage_page calm_env (start unstaged_disk).
Example staging_succeeds : ends_done staging.2 = true ∧ look (dsk staging.1) (intent_path stage_of) = Some (File (encodeIndent page_intent ++ ["010"%char]) mode0600).
Proof. split; by vm_compute. Qed.
Lemma staging_split : stage_page calm_env (start unstaged_disk) = (staging.1, staging.2).
Proof. unfold staging. by destruct (stage_page calm_env (start unstaged_disk)). Qed.
Lemma unstaged_settled : wf unstaged_disk ∧ quiet unstaged_disk.
Proof. apply settled_disk_ok. by vm_compute. Qed.
Lemma prepare_safe_witness : (∀ p, outside p → look (dsk staging.1) p = look unstaged_disk p) ∧
  (staging.2 = Done tt → stored_intent toy_hash checkpoint (dsk staging.1)).
Proof.
  exact (prepare_safe toy_hash (λ _ _, true) checkpoint unstaged_disk 0 page_entry true page_inputs [] token calm_env (start unstaged_disk) staging.1 staging.2 (dsk staging.1)
    (proj1 unstaged_settled) (proj2 unstaged_settled) eq_refl staging_split (or_introl eq_refl)).
Defined.

(** Someone else wrote to the page in between. *)
Definition foreign_disk : disk := put (place (txt "pages/a.csf")) (Some (File (txt "edited meanwhile") mode0644)) staged_disk.
Lemma foreign_page : ¬ pre_or_post toy_hash native_artifact (look foreign_disk (place (txt "pages/a.csf"))).
Proof. intros [H|(s & H & Hs)]; vm_compute in H; [done|injection H as <-; by vm_compute in Hs]. Qed.
Lemma foreign_preserved_witness : dsk (publishArtifact toy_hash stage_of native_artifact calm_env (start foreign_disk)).1 = foreign_disk ∧
  (publishArtifact toy_hash stage_of native_artifact calm_env (start foreign_disk)).2 ≠ Done tt.
Proof. exact (foreign_preserved toy_hash stage_of native_artifact calm_env (start foreign_disk) foreign_page). Defined.

Lemma artifact_path_contained_witness : Forall plain (place (txt ".atl/base/7.csf")) ∧ outside (place (txt ".atl/base/7.csf")).
Proof. exact (artifact_path_contained (txt ".atl/base/7.csf") (private_path (txt ".atl/base/7.csf")) ltac:(by vm_compute)). Defined.

(** A page with evidence of its assets and attachments. *)
Definition evidence : list PullIncludeEvidence :=
  [{| Dimension := DimensionAssets; Qualification := Qualified; Reason := []; BodyBytes := 0 |};
   {| Dimension := DimensionAttachments; Qualification := Partial; Reason := txt "body_incomplete"; BodyBytes := 12 |}].
Definition evident_entry : CompletePullJournalEntry :=
  {| Identity := []; State := State page_entry; View := page_view; Previous := None; Includes := Some evidence; OptionalEvidence := None |}.
Definition evident_journal : completePullJournal :=
  {| jSchema := 6; jService := Confluence; jSelector := cSelector checkpoint; jOptions := cOptions checkpoint; jSelection := cSelection checkpoint; StartIndex := 0; Entries := [evident_entry]; jWriteToken := token |}.
Definition advanced_checkpoint : CompletePullCheckpoint := match advanced evident_journal checkpoint with Ok c => c | Err _ => checkpoint end.
Lemma advanced_accepted_witness : NextIndex advanced_checkpoint = journal_end evident_journal ∧
  validateCompletePullIncludeAdvance (cIncludes checkpoint) (NextIndex checkpoint) (cIncludes advanced_checkpoint) (NextIndex advanced_checkpoint) = Ok tt ∧
  ∀ x, known x → grown (eqt x DimensionAttachments) (zlength (Entries evident_journal)) (aggregate_of x (cIncludes checkpoint)) (aggregate_of x (cIncludes advanced_checkpoint)).
Proof. exact (advanced_accepted evident_journal checkpoint advanced_checkpoint eq_refl ltac:(by vm_compute) eq_refl ltac:(by vm_compute)). Defined.
End PullExample.
