(* ===== verification/CorpusTypes.v ===== *)
(** * Corpus generations: records, validation and digests
    (internal/corpus/types.go, codec.go, root_identity.go)

    A generation is a directory of members with a manifest and a receipt; a
    pointer names the generation that is current.  This file has their fields,
    their checks, the canonical JSON they are stored as and the digests that bind
    them.  SHA-256, [unicode.SimpleFold], [strings.ToLower] and the decoder of
    encoding/json are parameters. *)

From stdpp Require Import vector.
From S2P Require Import Prelude GoText TextOrder Identifiers Encoding Json PullTypes.
Import GoText TextOrder Identifiers Encoding.

Module CorpusTypes.
Local Open Scope Z_scope.
Local Open Scope atl_scope.

(** ** Errors *)

Inductive Reason :=
| ReasonFormat | ReasonSchema | ReasonBounds | ReasonPath | ReasonType | ReasonMode | ReasonMembership | ReasonDigest | ReasonLineage | ReasonConcurrent | ReasonIO.
#[export] Instance Reason_eq : EqDecision Reason. Proof. solve_decision. Defined.
(** The errors of the package; [NotExist] is [os.ErrNotExist], [Stopped] a
    context that ended. *)
Inductive corpusError :=
| Integrity (r : Reason) | ErrAlreadyExists | ErrNoCurrent | ErrStalePredecessor | ErrOutcomeUnknown | NotExist | Stopped.
#[export] Instance corpusError_eq : EqDecision corpusError. Proof. solve_decision. Defined.
Definition checked (A : Type) : Type := result corpusError A.
Definition reject {A} (r : Reason) : checked A := Err (Integrity r).
Definition demand (c : bool) (r : Reason) : checked unit := if c then Ok tt else reject r.

(** ** Records (types.go) *)

Definition ManifestSchemaV1 : Z := 1.
Definition ReceiptSchemaV1 : Z := 1.
Definition PointerSchemaV1 : Z := 1.
Definition ServiceJira : text := txt "jira".
Definition ServiceConfluence : text := txt "confluence".
Definition ServiceAggregate : text := txt "aggregate".
Definition RoleNative : text := txt "native".
Definition RoleMetadata : text := txt "metadata".
Definition RoleDocument : text := txt "document".
Definition RoleEdges : text := txt "edges".
Definition RoleAsset : text := txt "asset".
Definition RoleTombstone : text := txt "tombstone".
Definition BuildStateClean : text := txt "clean".
Definition BuildStateModified : text := txt "modified".
Definition BuildStateUnknown : text := txt "unknown".

Record Limits := { MaxMembers : Z; MaxMemberBytes : Z; MaxTotalBytes : Z; MaxManifestBytes : Z; MaxPathBytes : Z; MaxPathDepth : Z }.
Definition DefaultLimits : Limits :=
  {| MaxMembers := 100000; MaxMemberBytes := 2 ^ 30; MaxTotalBytes := 64 * 2 ^ 30; MaxManifestBytes := 64 * 2 ^ 20; MaxPathBytes := 4096; MaxPathDepth := 64 |}.
Record MemberSpec := { sService : text; sStableID : text; sRole : text; sPath : text }.
Record Member := { mService : text; mStableID : text; mRole : text; mPath : text; mSize : Z; mMode : Z; mSHA256 : text }.
Record Qualification := { qService : text; qReceiptSchema : Z; ScopeDigest : text; SelectorDigest : text; ProjectionDigest : text; ReceiptDigest : text }.
Record Totals := { tMembers : Z; tBytes : Z }.
(** [None] is a nil slice. *)
Record Manifest := {
  fSchemaVersion : Z; fProjectionSchema : Z; fGeneratorVersion : text; fBuildState : text; fPredecessorDigest : text;
  fQualifications : option (list Qualification); fTombstoneDigest : text; fMembers : option (list Member); fTotals : Totals
}.
Record Receipt := {
  rSchemaVersion : Z; rManifestSchema : Z; rProjectionSchema : Z; rGeneratorVersion : text; rBuildState : text; rPredecessorDigest : text;
  rQualifications : option (list Qualification); rTombstoneDigest : text; rTotals : Totals; ManifestDigest : text; InventoryDigest : text; GenerationDigest : text
}.
Record Pointer := { pSchemaVersion : Z; pGenerationID : text; pGenerationDigest : text }.
#[export] Instance MemberSpec_eq : EqDecision MemberSpec. Proof. solve_decision. Defined.
#[export] Instance Member_eq : EqDecision Member. Proof. solve_decision. Defined.
#[export] Instance Qualification_eq : EqDecision Qualification. Proof. solve_decision. Defined.
#[export] Instance Totals_eq : EqDecision Totals. Proof. solve_decision. Defined.
#[export] Instance Pointer_eq : EqDecision Pointer. Proof. solve_decision. Defined.

(** ** Field checks (codec.go) *)

Definition maxStableIDBytes : Z := 512.
Definition maxGeneratorBytes : Z := 64.
Definition maxSchemaNumber : Z := 65535.
Definition maxJSONDepth : Z := 32.
Definition maxPointerBytes : Z := 512.
Definition memberMode : Z := 384.
Definition zlen {A} (l : list A) : Z := Z.of_nat (length l).

Definition or_default (v d : Z) : Z := if v =? 0 then d else v.
Definition normalizeLimits (l : Limits) : checked Limits :=
  let! _ := demand (negb ((MaxMembers l <? 0) || (MaxMemberBytes l <? 0) || (MaxTotalBytes l <? 0) || (MaxManifestBytes l <? 0) || (MaxPathBytes l <? 0) || (MaxPathDepth l <? 0))) ReasonBounds in
  let d := DefaultLimits in
  let l := {| MaxMembers := or_default (MaxMembers l) (MaxMembers d); MaxMemberBytes := or_default (MaxMemberBytes l) (MaxMemberBytes d);
              MaxTotalBytes := or_default (MaxTotalBytes l) (MaxTotalBytes d); MaxManifestBytes := or_default (MaxManifestBytes l) (MaxManifestBytes d);
              MaxPathBytes := or_default (MaxPathBytes l) (MaxPathBytes d); MaxPathDepth := or_default (MaxPathDepth l) (MaxPathDepth d) |} in
  let! _ := demand (negb ((MaxMembers d <? MaxMembers l) || (MaxMemberBytes d <? MaxMemberBytes l) || (MaxTotalBytes d <? MaxTotalBytes l) ||
                          (MaxManifestBytes d <? MaxManifestBytes l) || (MaxPathBytes d <? MaxPathBytes l) || (MaxPathDepth d <? MaxPathDepth l))) ReasonBounds in
  Ok l.

Definition isLowerSHA256 (v : text) : bool := (length v =? 64)%nat && forallb is_lower_hex v.
Definition validateGenerationID (v : text) : checked unit := demand ((length v =? 32)%nat && forallb is_lower_hex v) ReasonFormat.
Definition validQualificationService (s : text) : bool := eqt s ServiceConfluence || eqt s ServiceJira.
Definition validMemberService (s : text) : bool := eqt s ServiceAggregate || validQualificationService s.
Definition validRole (r : text) : bool := existsb (eqt r) [RoleNative; RoleMetadata; RoleDocument; RoleEdges; RoleAsset; RoleTombstone].
Definition validBuildState (s : text) : bool := eqt s BuildStateClean || eqt s BuildStateModified || eqt s BuildStateUnknown.
Definition validSchemaNumber (v : Z) : bool := (0 <? v) && (v <=? maxSchemaNumber).
Definition safeTokenByte (c : ascii) : bool :=
  in_rng 97 122 (byte_val c) || in_rng 65 90 (byte_val c) || in_rng 48 57 (byte_val c) || existsb (λ b, bool_decide (b = c)) ["."; "_"; "+"; "-"]%char.
(** The runes of a string; an invalid byte is one error rune. *)
Fixpoint runes_loop (fuel : nat) (s : text) : list Z :=
  match fuel, s with
  | S fuel, _ :: _ => let '(r, sz) := decode_rune s in r :: runes_loop fuel (drop sz s)
  | _, _ => []
  end.
Definition runes (s : text) : list Z := runes_loop (length s) s.
(** [unicode.IsControl]. *)
Definition control_rune (r : Z) : bool := in_rng 0 31 r || in_rng 127 159 r.
Definition containsControl (v : text) : bool := existsb control_rune (runes v).
Definition validateGenerator (v : text) : checked unit :=
  let! _ := demand (negb (length v =? 0)%nat) ReasonType in
  let! _ := demand (zlen v <=? maxGeneratorBytes) ReasonBounds in
  demand (forallb safeTokenByte v) ReasonType.
Definition validateMemberPath (v : text) (l : Limits) : checked unit :=
  let! _ := demand (negb (length v =? 0)%nat) ReasonPath in
  let! _ := demand (zlen v <=? MaxPathBytes l) ReasonBounds in
  let! _ := demand (valid_utf8 v && negb (containsControl v) && negb (existsb (λ c, bool_decide (c = ":"%char)) v) && negb (existsb (λ c, bool_decide (c = "\"%char)) v) &&
                    negb (PullTypes.is_abs v) && eqt (PullTypes.clean v) v) ReasonPath in
  let! _ := demand (zlen (PullTypes.components v) <=? MaxPathDepth l) ReasonBounds in
  demand (forallb (λ p, negb (eqt p [] || eqt p (txt ".") || eqt p (txt ".."))) (PullTypes.components v)) ReasonPath.
Definition validateMemberSpec (s : MemberSpec) (limits : Limits) : checked unit :=
  let! l := normalizeLimits limits in
  let! _ := demand (validMemberService (sService s) && validRole (sRole s)) ReasonType in
  let! _ := demand (negb (length (sStableID s) =? 0)%nat) ReasonType in
  let! _ := demand (zlen (sStableID s) <=? maxStableIDBytes) ReasonBounds in
  let! _ := demand (valid_utf8 (sStableID s) && negb (containsControl (sStableID s))) ReasonType in
  validateMemberPath (sPath s) l.
Fixpoint qualifications_loop (previous : option text) (qs : list Qualification) : checked unit :=
  match qs with
  | [] => Ok tt
  | q :: qs =>
      let! _ := demand (validQualificationService (qService q)) ReasonType in
      let! _ := demand (match previous with Some p => text_ltb p (qService q) | None => true end) ReasonMembership in
      let! _ := demand (validSchemaNumber (qReceiptSchema q)) ReasonSchema in
      let! _ := demand (isLowerSHA256 (ScopeDigest q) && isLowerSHA256 (SelectorDigest q) && isLowerSHA256 (ProjectionDigest q) && isLowerSHA256 (ReceiptDigest q)) ReasonDigest in
      qualifications_loop (Some (qService q)) qs
  end.
Definition validateQualifications (qs : option (list Qualification)) : checked unit :=
  match qs with
  | None => reject ReasonFormat
  | Some [] => reject ReasonMembership
  | Some qs => qualifications_loop None qs
  end.
Definition validateTotals (t : Totals) (l : Limits) : checked unit :=
  demand (negb ((tMembers t <? 0) || (MaxMembers l <? tMembers t) || (tBytes t <? 0) || (MaxTotalBytes l <? tBytes t))) ReasonBounds.
Definition validatePointer (p : Pointer) : checked unit :=
  let! _ := demand (pSchemaVersion p =? PointerSchemaV1) ReasonSchema in
  let! _ := validateGenerationID (pGenerationID p) in
  demand (isLowerSHA256 (pGenerationDigest p)) ReasonDigest.

(** Members are ordered by service, identity and role. *)
Definition tuple : Type := (text * text * text)%type.
Definition tuple_ltb (a b : tuple) : bool :=
  let '(s, i, r) := a in let '(s', i', r') := b in
  if negb (eqt s s') then text_ltb s s' else if negb (eqt i i') then text_ltb i i' else text_ltb r r'.
Definition tuple_of (m : Member) : tuple := (mService m, mStableID m, mRole m).
Definition spec_of (m : Member) : MemberSpec := {| sService := mService m; sStableID := mStableID m; sRole := mRole m; sPath := mPath m |}.
Definition spec_tuple (s : MemberSpec) : tuple := (sService s, sStableID s, sRole s).

Section codec.
Variable sha256 : text → vec ascii 32.
(** The next rune of the orbit under simple case folding. *)
Variable SimpleFold : Z → Z.
Variable ToLower : text → text.

(** An orbit has at most four runes. *)
Fixpoint fold_orbit (fuel : nat) (r next least : Z) : Z :=
  match fuel with
  | O => least
  | S fuel => if next =? r then least else fold_orbit fuel r (SimpleFold next) (if next <? least then next else least)
  end.
Definition foldPath (v : text) : text := runes v ≫= λ r, Json.encode_rune (fold_orbit 8 r (SimpleFold r) r).

Fixpoint members_loop (l : Limits) (paths folded : list text) (total : Z) (services : list text) (previous : option tuple) (ms : list Member) : checked (Z * list text) :=
  match ms with
  | [] => Ok (total, services)
  | m :: ms =>
      let! _ := validateMemberSpec (spec_of m) l in
      let! _ := demand (negb ((mSize m <? 0) || (MaxMemberBytes l <? mSize m))) ReasonBounds in
      let! _ := demand (mMode m =? memberMode) ReasonMode in
      let! _ := demand (isLowerSHA256 (mSHA256 m)) ReasonDigest in
      let! _ := demand (match previous with Some p => tuple_ltb p (tuple_of m) | None => true end) ReasonMembership in
      let! _ := demand (negb (bool_decide (mPath m ∈ paths))) ReasonMembership in
      let! _ := demand (negb (bool_decide (foldPath (mPath m) ∈ folded))) ReasonPath in
      let! _ := demand (mSize m <=? MaxTotalBytes l - total) ReasonBounds in
      members_loop l (mPath m :: paths) (foldPath (mPath m) :: folded) (total + mSize m)
        (if bool_decide (last services = Some (mService m)) then services else services ++ [mService m]) (Some (tuple_of m)) ms
  end.
Definition validateMembers (ms : option (list Member)) (limits : Limits) : checked (Z * list text) :=
  let! l := normalizeLimits limits in
  match ms with
  | None => reject ReasonFormat
  | Some ms => let! _ := demand (zlen ms <=? MaxMembers l) ReasonBounds in members_loop l [] [] 0 [] None ms
  end.

(** ** Canonical JSON *)

Definition json_totals (t : Totals) : text := json_object [member "members" (json_int (tMembers t)); member "bytes" (json_int (tBytes t))].
Definition json_member (m : Member) : text :=
  json_object [member "service" (json_string (mService m)); member "stable_id" (json_string (mStableID m)); member "role" (json_string (mRole m));
    member "path" (json_string (mPath m)); member "size" (json_int (mSize m)); member "mode" (json_int (mMode m)); member "sha256" (json_string (mSHA256 m))].
Definition json_qualification (q : Qualification) : text :=
  json_object [member "service" (json_string (qService q)); member "receipt_schema" (json_int (qReceiptSchema q)); member "scope_digest" (json_string (ScopeDigest q));
    member "selector_digest" (json_string (SelectorDigest q)); member "projection_digest" (json_string (ProjectionDigest q)); member "receipt_digest" (json_string (ReceiptDigest q))].
Definition json_slice {A} (f : A → text) (l : option (list A)) : text := match l with Some l => json_array (map f l) | None => txt "null" end.
Definition json_manifest (m : Manifest) : text :=
  json_object [member "schema_version" (json_int (fSchemaVersion m)); member "projection_schema" (json_int (fProjectionSchema m)); member "generator_version" (json_string (fGeneratorVersion m));
    member "build_state" (json_string (fBuildState m)); member_omitempty "predecessor_digest" (fPredecessorDigest m); member "qualifications" (json_slice json_qualification (fQualifications m));
    member_omitempty "tombstone_digest" (fTombstoneDigest m); member "members" (json_slice json_member (fMembers m)); member "totals" (json_totals (fTotals m))].
Definition receipt_members (r : Receipt) : list (list text) :=
  [member "schema_version" (json_int (rSchemaVersion r)); member "manifest_schema" (json_int (rManifestSchema r)); member "projection_schema" (json_int (rProjectionSchema r));
    member "generator_version" (json_string (rGeneratorVersion r)); member "build_state" (json_string (rBuildState r)); member_omitempty "predecessor_digest" (rPredecessorDigest r);
    member "qualifications" (json_slice json_qualification (rQualifications r)); member_omitempty "tombstone_digest" (rTombstoneDigest r); member "totals" (json_totals (rTotals r));
    member "manifest_digest" (json_string (ManifestDigest r)); member "inventory_digest" (json_string (InventoryDigest r))].
(** What the generation digest covers. *)
Definition receiptDigestPreimage (r : Receipt) : text := json_object (receipt_members r).
Definition json_receipt (r : Receipt) : text := json_object (receipt_members r ++ [member "generation_digest" (json_string (GenerationDigest r))]).
Definition json_pointer (p : Pointer) : text :=
  json_object [member "schema_version" (json_int (pSchemaVersion p)); member "generation_id" (json_string (pGenerationID p)); member "generation_digest" (json_string (pGenerationDigest p))].
Definition marshalCanonical (json : text) : text := json ++ ["010"%char].
Definition validateEncodedBound (json : text) (maximum : Z) : checked unit := demand (zlen (marshalCanonical json) <=? maximum) ReasonBounds.

(** ** Digests *)

(** The length of a part, in eight bytes. *)
Fixpoint big_endian (bytes : nat) (n : N) : text := match bytes with O => [] | S b => big_endian b (n / 256)%N ++ [byte_of n] end.
Definition writeHashPart (part : text) : text := big_endian 8 (N.of_nat (length part)) ++ part.
Definition domainHash (domain : text) (parts : list text) : text := hex_encode (vec_to_list (sha256 (concat (map writeHashPart (domain :: parts))))).
Definition manifestHashDomain : text := txt "atl.corpus.manifest.v1".
Definition inventoryHashDomain : text := txt "atl.corpus.inventory.v1".
Definition generationHashDomain : text := txt "atl.corpus.generation.v1".
Definition rootIdentityDigestDomain : text := txt "atl.corpus.root-identity.v1".
Definition manifestDigest (canonical : text) : text := domainHash manifestHashDomain [canonical].
Definition inventoryDigest (ms : option (list Member)) : checked text :=
  let! _ := validateMembers ms DefaultLimits in
  Ok (domainHash inventoryHashDomain (map json_member (default [] ms))).

Definition validateReceiptFields (r : Receipt) (l : Limits) (requireGeneration : bool) : checked unit :=
  let! _ := demand ((rSchemaVersion r =? ReceiptSchemaV1) && (rManifestSchema r =? ManifestSchemaV1)) ReasonSchema in
  let! _ := demand (validSchemaNumber (rProjectionSchema r)) ReasonSchema in
  let! _ := validateGenerator (rGeneratorVersion r) in
  let! _ := demand (validBuildState (rBuildState r)) ReasonType in
  let! _ := demand (eqt (rPredecessorDigest r) [] || isLowerSHA256 (rPredecessorDigest r)) ReasonDigest in
  let! _ := demand (eqt (rTombstoneDigest r) [] || isLowerSHA256 (rTombstoneDigest r)) ReasonDigest in
  let! _ := validateQualifications (rQualifications r) in
  let! _ := validateTotals (rTotals r) l in
  let! _ := demand (isLowerSHA256 (ManifestDigest r) && isLowerSHA256 (InventoryDigest r)) ReasonDigest in
  demand (negb requireGeneration || isLowerSHA256 (GenerationDigest r)) ReasonDigest.
Definition generationDigestWithLimits (r : Receipt) (limits : Limits) : checked text :=
  let! l := normalizeLimits limits in
  let! _ := validateReceiptFields r l false in
  let preimage := marshalCanonical (receiptDigestPreimage r) in
  let! _ := demand (zlen preimage <=? MaxManifestBytes l) ReasonBounds in
  Ok (domainHash generationHashDomain [preimage]).
Definition generationDigest (r : Receipt) : checked text := generationDigestWithLimits r DefaultLimits.
Definition validateReceipt (r : Receipt) (limits : Limits) : checked unit :=
  let! l := normalizeLimits limits in
  let! _ := validateReceiptFields r l true in
  let! want := generationDigestWithLimits r l in
  let! _ := demand (eqt (GenerationDigest r) want) ReasonDigest in
  validateEncodedBound (json_receipt r) (MaxManifestBytes l).

(** Every service of the members is qualified; an aggregate needs both. *)
Definition qualified (qs : list Qualification) (service : text) : bool :=
  let has s := existsb (λ q, eqt (qService q) s) qs in
  if eqt service ServiceAggregate then has ServiceConfluence && has ServiceJira else has service.
Definition validateManifest (m : Manifest) (limits : Limits) : checked unit :=
  let! l := normalizeLimits limits in
  let! _ := demand (fSchemaVersion m =? ManifestSchemaV1) ReasonSchema in
  let! _ := demand (validSchemaNumber (fProjectionSchema m)) ReasonSchema in
  let! _ := validateGenerator (fGeneratorVersion m) in
  let! _ := demand (validBuildState (fBuildState m)) ReasonType in
  let! _ := demand (eqt (fPredecessorDigest m) [] || isLowerSHA256 (fPredecessorDigest m)) ReasonDigest in
  let! _ := demand (eqt (fTombstoneDigest m) [] || isLowerSHA256 (fTombstoneDigest m)) ReasonDigest in
  let! _ := validateQualifications (fQualifications m) in
  let! t := validateMembers (fMembers m) l in
  let! _ := validateTotals (fTotals m) l in
  let! _ := demand ((tMembers (fTotals m) =? zlen (default [] (fMembers m))) && (tBytes (fTotals m) =? t.1)) ReasonMembership in
  let! _ := demand (forallb (qualified (default [] (fQualifications m))) t.2) ReasonMembership in
  validateEncodedBound (json_manifest m) (MaxManifestBytes l).

Definition canonicalManifest (m : Manifest) (limits : Limits) : checked text :=
  let! l := normalizeLimits limits in
  let! _ := validateManifest m l in
  let c := marshalCanonical (json_manifest m) in
  let! _ := demand (zlen c <=? MaxManifestBytes l) ReasonBounds in
  Ok c.
Definition canonicalReceipt (r : Receipt) (limits : Limits) : checked text :=
  let! l := normalizeLimits limits in
  let! _ := validateReceipt r l in
  let c := marshalCanonical (json_receipt r) in
  let! _ := demand (zlen c <=? MaxManifestBytes l) ReasonBounds in
  Ok c.
Definition canonicalPointer (p : Pointer) : checked text :=
  let! _ := validatePointer p in
  let c := marshalCanonical (json_pointer p) in
  let! _ := demand (zlen c <=? maxPointerBytes) ReasonBounds in
  Ok c.

(** ** Decoding *)

(** [Decoder.More]. *)
Definition more (d : Json.decoder) : bool :=
  match Json.skip_ws (Json.rest d) with [] => false | c :: _ => negb (bool_decide (c = "]"%char) || bool_decide (c = "}"%char)) end.
(** One value; the members of an object; the items of an array.  Every token
    consumes a byte. *)
Fixpoint validateJSONValue (fuel : nat) (depth : Z) (d : Json.decoder) : checked Json.decoder :=
  match fuel with
  | O => reject ReasonFormat
  | S fuel =>
      let! _ := demand (depth <=? maxJSONDepth) ReasonBounds in
      match Json.Token d with
      | Json.TokenOk (Json.Delim c) d =>
          if bool_decide (c = "{"%char) then object_members fuel depth d [] else if bool_decide (c = "["%char) then array_items fuel depth d else reject ReasonFormat
      | Json.TokenOk _ d => Ok d
      | _ => reject ReasonFormat
      end
  end
with object_members (fuel : nat) (depth : Z) (d : Json.decoder) (seen : list text) : checked Json.decoder :=
  match fuel with
  | O => reject ReasonFormat
  | S fuel =>
      if more d then
        match Json.Token d with
        | Json.TokenOk (Json.TString key) d =>
            let key := ToLower key in
            let! _ := demand (negb (bool_decide (key ∈ seen))) ReasonFormat in
            let! d := validateJSONValue fuel (depth + 1) d in
            object_members fuel depth d (key :: seen)
        | _ => reject ReasonFormat
        end
      else match Json.Token d with Json.TokenOk (Json.Delim c) d => if bool_decide (c = "}"%char) then Ok d else reject ReasonFormat | _ => reject ReasonFormat end
  end
with array_items (fuel : nat) (depth : Z) (d : Json.decoder) : checked Json.decoder :=
  match fuel with
  | O => reject ReasonFormat
  | S fuel =>
      if more d then let! d := validateJSONValue fuel (depth + 1) d in array_items fuel depth d
      else match Json.Token d with Json.TokenOk (Json.Delim c) d => if bool_decide (c = "]"%char) then Ok d else reject ReasonFormat | _ => reject ReasonFormat end
  end.
Definition validateJSONNoDuplicateKeys (data : text) : checked unit :=
  let! d := validateJSONValue (2 * length data + 2) 0 (Json.NewDecoder data) in
  match Json.Token d with Json.TokenEOF => Ok tt | _ => reject ReasonFormat end.
(** [unmarshal] decodes one value without unknown fields. *)
Definition decodeStrictObject {A} (unmarshal : text → option A) (data : text) : checked A :=
  let! _ := demand (valid_utf8 data) ReasonFormat in
  let! _ := validateJSONNoDuplicateKeys data in
  match unmarshal data with Some v => Ok v | None => reject ReasonFormat end.
(** The stored bytes are the canonical bytes of what they say. *)
Definition exactly {A} (data : text) (v : A) (canonical : checked text) : checked A :=
  let! c := canonical in
  let! _ := demand (eqt data c) ReasonFormat in
  Ok v.
Definition readable (data : text) (maximum : Z) : checked unit := demand (negb (length data =? 0)%nat && (zlen data <=? maximum)) ReasonBounds.
Definition parseManifest (unmarshal : text → option Manifest) (data : text) (limits : Limits) : checked Manifest :=
  let! l := normalizeLimits limits in
  let! _ := readable data (MaxManifestBytes l) in
  let! m := decodeStrictObject unmarshal data in
  exactly data m (canonicalManifest m l).
Definition parseReceipt (unmarshal : text → option Receipt) (data : text) (limits : Limits) : checked Receipt :=
  let! l := normalizeLimits limits in
  let! _ := readable data (MaxManifestBytes l) in
  let! r := decodeStrictObject unmarshal data in
  exactly data r (canonicalReceipt r l).
Definition parsePointer (unmarshal : text → option Pointer) (data : text) : checked Pointer :=
  let! _ := readable data maxPointerBytes in
  let! p := decodeStrictObject unmarshal data in
  exactly data p (canonicalPointer p).

(** [verifyManifestReceipt] (publication.go). *)
Definition verifyManifestReceipt (m : Manifest) (manifestBytes : text) (r : Receipt) : checked unit :=
  let! _ := demand ((rManifestSchema r =? fSchemaVersion m) && (rProjectionSchema r =? fProjectionSchema m) && eqt (rGeneratorVersion r) (fGeneratorVersion m) &&
                    eqt (rBuildState r) (fBuildState m) && eqt (rPredecessorDigest r) (fPredecessorDigest m) && eqt (rTombstoneDigest r) (fTombstoneDigest m) &&
                    bool_decide (rTotals r = fTotals m) && bool_decide (rQualifications r = fQualifications m)) ReasonLineage in
  let! _ := demand (eqt (ManifestDigest r) (manifestDigest manifestBytes)) ReasonDigest in
  let! inventory := inventoryDigest (fMembers m) in
  let! _ := demand (eqt (InventoryDigest r) inventory) ReasonDigest in
  let! digest := generationDigest r in
  demand (eqt (GenerationDigest r) digest) ReasonDigest.
End codec.

(** ** Chains of checks *)

Lemma demand_ok c r u : demand c r = Ok u ↔ c = true.
Proof. destruct u. unfold demand. by destruct c. Qed.
Lemma chain_ok {A B} (m : checked A) (k : A → checked B) b : rbind m k = Ok b ↔ ∃ a, m = Ok a ∧ k a = Ok b.
Proof. destruct m; cbn; split; [eauto|by intros (? & [= <-] & ?)|done|by intros (? & ? & _)]. Qed.
(** Split a successful chain of checks. *)
Ltac oks H :=
  repeat match type of H with
  | rbind _ _ = Ok _ => let a := fresh "a" in let E := fresh "E" in apply chain_ok in H as (a & E & H); try (apply demand_ok in E); try (is_var a; match type of a with unit => destruct a | _ => idtac end)
  | demand _ _ = Ok _ => apply demand_ok in H
  end.

(** ** Maps built by a loop *)

Lemma foldl_insert_lookup {A} (key : A → text) (rs : list A) (m : gmap text A) k v :
  NoDup (key <$> rs) → (foldl (λ m r, <[key r := r]> m) m rs !! k = Some v ↔ (v ∈ rs ∧ key v = k) ∨ (m !! k = Some v ∧ k ∉ (key <$> rs))).
Proof.
  revert m. induction rs as [|r rs IH]; intros m Hnd; cbn [foldl fmap list_fmap].
  - set_solver.
  - apply NoDup_cons in Hnd as [Hn Hnd]. rewrite IH by done. rewrite lookup_insert_Some, elem_of_cons, not_elem_of_cons. split.
    + intros [[? ?]|[[[<- <-]|[? ?]] ?]]; [by left; auto|by left; auto|right; done].
    + intros [[[->|?] <-]|(? & ? & ?)]; [|by left|right; split; [right; done|done]].
      right. split; [by left|done].
Qed.
End CorpusTypes.
