(* ===== verification/CorpusIndexer.v ===== *)
(** * The indexer projection of a generation
    (internal/corpus/indexer_v1_types.go, indexer_v1_codec.go,
    indexer_v1_values.go)

    Documents and the edges between them, as sorted JSON lines, and the receipt
    that binds them to the Markdown files.  Besides the parameters of
    CorpusTypes, [CanonicalTime] says whether a text is what package time prints
    for the RFC 3339 instant it reads from it. *)

From stdpp Require Import vector.
From S2P Require Import Prelude GoText TextOrder Identifiers Encoding PullTypes CorpusTypes.
Import GoText TextOrder Identifiers Encoding CorpusTypes.

Module CorpusIndexer.
Local Open Scope Z_scope.
Local Open Scope atl_scope.

(** ** Records *)

Definition IndexerSchemaV1 : Z := 1.
Definition IndexerReceiptSchemaV1 : Z := 1.
Definition ObjectPage : text := txt "page".
Definition ObjectIssue : text := txt "issue".
Definition ObjectComment : text := txt "comment".
Definition ObjectAttachment : text := txt "attachment".
Definition VisibilityRestricted : text := txt "restricted".
Definition VisibilityUnrestricted : text := txt "unrestricted".
Definition VisibilityUnknown : text := txt "unknown".
Definition RenderRendered : text := txt "rendered".
Definition RenderEmpty : text := txt "empty".
Definition RenderFailed : text := txt "failed".
Definition RenderUnsupported : text := txt "unsupported".
Definition EvidenceMetadata : text := txt "metadata".
Definition EvidenceBody : text := txt "body".
Definition EvidenceHierarchy : text := txt "hierarchy".
Definition EvidenceRelations : text := txt "relations".
Definition EvidenceComments : text := txt "comments".
Definition EvidenceAttachments : text := txt "attachments".
Definition EvidenceVisibility : text := txt "visibility".
Definition EvidenceComplete : text := txt "complete".
Definition EvidencePartial : text := txt "partial".
Definition EvidenceForbidden : text := txt "forbidden".
Definition EvidenceUnavailable : text := txt "unavailable".
Definition EvidenceNotRequested : text := txt "not_requested".
Definition EvidenceUnsupported : text := txt "unsupported".
Definition EvidenceRestrictedReason : text := txt "restricted".
Definition EvidenceRenderFailed : text := txt "render_failed".
Definition EvidenceUnsupportedReason : text := txt "unsupported".
Definition evidence_reasons : list text :=
  [txt "truncated"; txt "missing"; txt "corrupt"; EvidenceRestrictedReason; txt "legacy_unqualified"; EvidenceRenderFailed; txt "unresolved"; EvidenceUnsupportedReason].
Definition EdgeJiraIssueLink : text := txt "jira_issue_link".
Definition edge_relations : list text :=
  [txt "parent"; txt "contains"; txt "references"; EdgeJiraIssueLink; txt "comment_owner"; txt "comment_reply"; txt "attachment_owner"].
Definition directions : list text := [txt "outbound"; txt "inbound"; txt "undirected"; txt "unknown"].
Definition confidences : list text := [txt "exact"; txt "reported"; txt "structural"].
Definition QualificationReady : text := txt "ready".
Definition QualificationPartial : text := txt "partial".
Definition QualificationUnavailable : text := txt "unavailable".
Definition QualificationReceipt : text := txt "receipt".
Definition QualificationStructural : text := txt "structural".
Definition qualification_reasons : list text :=
  [txt "legacy_mirror"; txt "incomplete_pull"; txt "unreconciled"; txt "missing_binding"; txt "corrupt_evidence"; txt "unsupported_source"].
Definition ProjectionReady : text := txt "ready".
Definition ProjectionPartial : text := txt "partial".
Definition ProjectionUnavailable : text := txt "unavailable".

(** A nil list of labels or reasons becomes an empty one before it is checked
    or printed, so the two are not told apart. *)
Record Evidence := { eKind : text; eStatus : text; eReasons : list text; ObservedCount : Z; CountExact : bool }.
Record SourceLineage := { lPath : text; NativeSHA256 : text; MetadataSHA256 : text }.
Record IndexerDocument := {
  dSchemaVersion : Z; dID : text; dService : text; dKind : text; Key : text; Title : text; Container : text; Version : text; Updated : text; Labels : list text;
  Source : SourceLineage; Text_ : text; BodySHA256 : text; dRenderStatus : text; MarkdownPath : text; MarkdownSHA256 : text; dVisibility : text; dEvidence : list Evidence
}.
Record Reference := { fService : text; fKind : text; Value : text }.
Record EdgeEvidence := { vKind : text; vPath : text; Fragment : text }.
Record IndexerEdge := {
  gSchemaVersion : Z; gID : text; SourceID : text; Relation : text; RelationName : text; Direction : text; TargetID : text; Unresolved : option Reference;
  Confidence : text; gEvidence : EdgeEvidence
}.
Record MarkdownMember := { DocumentID : text; kPath : text; kSize : Z; kSHA256 : text }.
Record IndexerQualification := { iService : text; iState : text; Basis : text; iScopeDigest : text; SourceReceiptDigest : text; iReasons : list text }.
Record ProjectionCounts := { Documents : Z; Edges : Z; MarkdownFiles : Z; MarkdownBytes : Z }.
Record IndexerReceipt := {
  nSchemaVersion : Z; nProjectionSchema : Z; Readiness : text; Qualifications : option (list IndexerQualification); Counts : ProjectionCounts;
  DocumentsDigest : text; EdgesDigest : text; MarkdownDigest : text; nProjectionDigest : text
}.

(** ** Values (indexer_v1_values.go) *)

Definition maxIndexerFieldBytes : Z := 64 * 2 ^ 10.
Definition maxIndexerLabels : Z := 10000.
Definition one_of (l : list text) (v : text) : bool := existsb (eqt v) l.
Definition origin_prefix : text := txt "sha256:".
Definition validOriginDigest (v : text) : bool :=
  (length v =? length origin_prefix + 64)%nat && has_prefix v origin_prefix && isLowerSHA256 (drop (length origin_prefix) v).
Definition validateProviderID (v : text) : checked unit :=
  let! _ := demand (negb ((length v =? 0)%nat || (64 <? length v)%nat || bool_decide (head v = Some "0"%char))) ReasonType in
  demand (forallb is_digit v) ReasonType.
Definition validateBoundedPlain (v : text) (empty : bool) : checked unit :=
  if eqt v [] && empty then Ok tt
  else
    let! _ := demand (negb (eqt v [] || (maxIndexerFieldBytes <? zlen v))) ReasonBounds in
    demand (valid_utf8 v && negb (containsControl v)) ReasonType.
Definition hasEvidenceReason (reasons : list text) (wanted : text) : bool := existsb (eqt wanted) reasons.
Definition validObjectKind (service kind : text) : bool :=
  if eqt service ServiceConfluence then one_of [ObjectPage; ObjectComment; ObjectAttachment] kind
  else if eqt service ServiceJira then one_of [ObjectIssue; ObjectComment; ObjectAttachment] kind else false.
Definition validVisibility : text → bool := one_of [VisibilityRestricted; VisibilityUnrestricted; VisibilityUnknown].
Definition validRenderStatus : text → bool := one_of [RenderRendered; RenderEmpty; RenderFailed; RenderUnsupported].
Definition validEvidenceKind : text → bool :=
  one_of [EvidenceMetadata; EvidenceBody; EvidenceHierarchy; EvidenceRelations; EvidenceComments; EvidenceAttachments; EvidenceVisibility].
Definition validEvidenceStatus : text → bool :=
  one_of [EvidenceComplete; EvidencePartial; EvidenceForbidden; EvidenceUnavailable; EvidenceNotRequested; EvidenceUnsupported].
Definition validEvidenceReason : text → bool := one_of evidence_reasons.
Definition validEdgeRelation : text → bool := one_of edge_relations.
Definition validDirection : text → bool := one_of directions.
Definition validConfidence : text → bool := one_of confidences.
Definition validQualificationState : text → bool := one_of [QualificationReady; QualificationPartial; QualificationUnavailable].
Definition validQualificationBasis : text → bool := one_of [QualificationReceipt; QualificationStructural].
Definition validQualificationReason : text → bool := one_of qualification_reasons.

(** Strictly increasing texts, each of which passes a check. *)
Fixpoint increasing (check : text → checked unit) (previous : option text) (l : list text) : checked unit :=
  match l with
  | [] => Ok tt
  | x :: l =>
      let! _ := check x in
      let! _ := demand (match previous with Some p => text_ltb p x | None => true end) ReasonMembership in
      increasing check (Some x) l
  end.
Fixpoint all_pass {A} (check : A → checked unit) (l : list A) : checked unit :=
  match l with [] => Ok tt | x :: l => let! _ := check x in all_pass check l end.

Definition normalize_evidence (e : Evidence) : Evidence :=
  {| eKind := eKind e; eStatus := eStatus e; eReasons := sort_on id (eReasons e); ObservedCount := ObservedCount e; CountExact := CountExact e |}.
Definition normalizeDocument (d : IndexerDocument) : IndexerDocument :=
  {| dSchemaVersion := dSchemaVersion d; dID := dID d; dService := dService d; dKind := dKind d; Key := Key d; Title := Title d; Container := Container d; Version := Version d;
     Updated := Updated d; Labels := sort_on id (Labels d); Source := Source d; Text_ := Text_ d; BodySHA256 := BodySHA256 d; dRenderStatus := dRenderStatus d;
     MarkdownPath := MarkdownPath d; MarkdownSHA256 := MarkdownSHA256 d; dVisibility := dVisibility d; dEvidence := sort_on eKind (map normalize_evidence (dEvidence d)) |}.
Definition normalize_qualification (q : IndexerQualification) : IndexerQualification :=
  {| iService := iService q; iState := iState q; Basis := Basis q; iScopeDigest := iScopeDigest q; SourceReceiptDigest := SourceReceiptDigest q; iReasons := sort_on id (iReasons q) |}.
Definition normalizeQualifications (qs : list IndexerQualification) : list IndexerQualification := sort_on iService (map normalize_qualification qs).

(** ** JSON *)

Definition json_evidence (e : Evidence) : text :=
  json_object [member "kind" (json_string (eKind e)); member "status" (json_string (eStatus e)); member "reasons" (json_array (map json_string (eReasons e)));
    member "observed_count" (json_int (ObservedCount e)); member "count_exact" (json_bool (CountExact e))].
Definition json_source (s : SourceLineage) : text :=
  json_object [member "path" (json_string (lPath s)); member "native_sha256" (json_string (NativeSHA256 s)); member "metadata_sha256" (json_string (MetadataSHA256 s))].
Definition json_document (d : IndexerDocument) : text :=
  json_object [member "schema_version" (json_int (dSchemaVersion d)); member "id" (json_string (dID d)); member "service" (json_string (dService d)); member "kind" (json_string (dKind d));
    member_omitempty "key" (Key d); member_omitempty "title" (Title d); member_omitempty "container" (Container d); member_omitempty "version" (Version d); member_omitempty "updated" (Updated d);
    member "labels" (json_array (map json_string (Labels d))); member "source" (json_source (Source d)); member "text" (json_string (Text_ d)); member "body_sha256" (json_string (BodySHA256 d));
    member "render_status" (json_string (dRenderStatus d)); member_omitempty "markdown_path" (MarkdownPath d); member_omitempty "markdown_sha256" (MarkdownSHA256 d);
    member "visibility" (json_string (dVisibility d)); member "evidence" (match dEvidence d with [] => txt "null" | es => json_array (map json_evidence es) end)].
Definition json_reference (r : Reference) : text :=
  json_object [member "service" (json_string (fService r)); member "kind" (json_string (fKind r)); member "value" (json_string (Value r))].
Definition json_edge_evidence (e : EdgeEvidence) : text :=
  json_object [member "kind" (json_string (vKind e)); member "path" (json_string (vPath e)); member_omitempty "fragment" (Fragment e)].
Definition json_edge (e : IndexerEdge) : text :=
  json_object [member "schema_version" (json_int (gSchemaVersion e)); member "id" (json_string (gID e)); member "source_id" (json_string (SourceID e)); member "relation" (json_string (Relation e));
    member_omitempty "relation_name" (RelationName e); member "direction" (json_string (Direction e)); member_omitempty "target_id" (TargetID e);
    match Unresolved e with Some r => member "unresolved" (json_reference r) | None => [] end; member "confidence" (json_string (Confidence e)); member "evidence" (json_edge_evidence (gEvidence e))].
Definition json_markdown (m : MarkdownMember) : text :=
  json_object [member "document_id" (json_string (DocumentID m)); member "path" (json_string (kPath m)); member "size" (json_int (kSize m)); member "sha256" (json_string (kSHA256 m))].
Definition json_qualification_ (q : IndexerQualification) : text :=
  json_object [member "service" (json_string (iService q)); member "state" (json_string (iState q)); member "basis" (json_string (Basis q)); member "scope_digest" (json_string (iScopeDigest q));
    member_omitempty "source_receipt_digest" (SourceReceiptDigest q); member "reasons" (json_array (map json_string (iReasons q)))].
Definition json_counts (c : ProjectionCounts) : text :=
  json_object [member "documents" (json_int (Documents c)); member "edges" (json_int (Edges c)); member "markdown_files" (json_int (MarkdownFiles c)); member "markdown_bytes" (json_int (MarkdownBytes c))].
Definition projection_members (r : IndexerReceipt) : list (list text) :=
  [member "schema_version" (json_int (nSchemaVersion r)); member "projection_schema" (json_int (nProjectionSchema r)); member "readiness" (json_string (Readiness r));
    member "qualifications" (json_slice json_qualification_ (Qualifications r)); member "counts" (json_counts (Counts r)); member "documents_digest" (json_string (DocumentsDigest r));
    member "edges_digest" (json_string (EdgesDigest r)); member "markdown_digest" (json_string (MarkdownDigest r))].
Definition json_indexer_receipt (r : IndexerReceipt) : text := json_object (projection_members r ++ [member "projection_digest" (json_string (nProjectionDigest r))]).

Section indexer.
Variable sha256 : text → vec ascii 32.
Variable ToLower : text → text.
Variable CanonicalTime : text → bool.

Definition indexerStableIDDomain : text := txt "atl.corpus.indexer-v1.stable-id.v1".
Definition indexerEdgeIDDomain : text := txt "atl.corpus.indexer-v1.edge-id.v1".
Definition indexerDocumentsDomain : text := txt "atl.corpus.indexer-v1.documents.v1".
Definition indexerEdgesDomain : text := txt "atl.corpus.indexer-v1.edges.v1".
Definition indexerMarkdownDomain : text := txt "atl.corpus.indexer-v1.markdown.v1".
Definition indexerProjectionDomain : text := txt "atl.corpus.indexer-v1.projection.v1".

Definition validateProviderReference (v : text) : checked unit :=
  let! _ := validateBoundedPlain v false in
  let lower := ToLower v in
  demand (negb (negb (eqt (trim_space v) v) || contains v (txt "://") || has_prefix v (txt "//") ||
                existsb (λ s : string, has_prefix lower (txt s)) ["http:"; "https:"; "mailto:"; "file:"; "data:"; "javascript:"; "vbscript:"]%string)) ReasonType.
Definition StableObjectID (originDigest service kind providerID : text) : checked text :=
  let! _ := demand (validOriginDigest originDigest) ReasonDigest in
  let! _ := demand (validQualificationService service && validObjectKind service kind) ReasonType in
  let! _ := validateProviderID providerID in
  Ok (domainHash sha256 indexerStableIDDomain [originDigest; service; kind; providerID]).
Definition edgeTargetPreimage (e : IndexerEdge) : checked text :=
  match Unresolved e with
  | Some r =>
      let! _ := demand (eqt (TargetID e) []) ReasonMembership in
      let! _ := demand (validQualificationService (fService r) && validObjectKind (fService r) (fKind r)) ReasonType in
      let! _ := validateProviderReference (Value r) in
      Ok (txt "ref:" ++ json_reference r)
  | None =>
      let! _ := demand (negb (eqt (TargetID e) [])) ReasonMembership in
      let! _ := demand (isLowerSHA256 (TargetID e)) ReasonDigest in
      Ok (txt "id:" ++ TargetID e)
  end.
Definition DeriveEdgeID (e : IndexerEdge) : checked text :=
  let! _ := demand (isLowerSHA256 (SourceID e) && validEdgeRelation (Relation e) && validDirection (Direction e)) ReasonType in
  let! _ := validateBoundedPlain (RelationName e) true in
  let! target := edgeTargetPreimage e in
  Ok (domainHash sha256 indexerEdgeIDDomain [SourceID e; Relation e; RelationName e; Direction e; target]).

(** ** Documents *)

Definition evidence_kinds : list text :=
  [EvidenceAttachments; EvidenceBody; EvidenceComments; EvidenceHierarchy; EvidenceMetadata; EvidenceRelations; EvidenceVisibility].
Definition validate_evidence (item : Evidence * text) : checked unit :=
  let '(e, kind) := item in
  let complete := eqt (eStatus e) EvidenceComplete in
  let! _ := demand (eqt (eKind e) kind && validEvidenceStatus (eStatus e) && negb (ObservedCount e <? 0)) ReasonType in
  let! _ := demand (Bool.eqb (CountExact e) complete) ReasonMembership in
  let! _ := demand (complete || eqt (eStatus e) EvidencePartial || (ObservedCount e =? 0)) ReasonMembership in
  let! _ := demand (Bool.eqb (length (eReasons e) =? 0)%nat (complete || eqt (eStatus e) EvidenceNotRequested)) ReasonMembership in
  let! _ := demand (negb (eqt (eStatus e) EvidenceForbidden && negb (hasEvidenceReason (eReasons e) EvidenceRestrictedReason))) ReasonMembership in
  let! _ := demand (negb (eqt (eStatus e) EvidenceUnsupported && negb (hasEvidenceReason (eReasons e) EvidenceUnsupportedReason))) ReasonMembership in
  increasing (λ r, demand (validEvidenceReason r) ReasonType) None (eReasons e).
Definition validateDocumentEvidence (es : list Evidence) : checked unit :=
  let! _ := demand (length es =? length evidence_kinds)%nat ReasonMembership in
  all_pass validate_evidence (zip es evidence_kinds).
Definition no_evidence : Evidence := {| eKind := []; eStatus := []; eReasons := []; ObservedCount := 0; CountExact := false |}.
Definition validateIndexerDocument (d : IndexerDocument) (l : Limits) : checked unit :=
  let rendered := eqt (dRenderStatus d) RenderRendered in
  let empty := eqt (dRenderStatus d) RenderEmpty in
  let! _ := demand (dSchemaVersion d =? IndexerSchemaV1) ReasonSchema in
  let! _ := demand (isLowerSHA256 (dID d) && isLowerSHA256 (BodySHA256 d) && isLowerSHA256 (NativeSHA256 (Source d)) && isLowerSHA256 (MetadataSHA256 (Source d))) ReasonDigest in
  let! _ := demand (validQualificationService (dService d) && validObjectKind (dService d) (dKind d) && validVisibility (dVisibility d) && validRenderStatus (dRenderStatus d)) ReasonType in
  let! _ := all_pass (λ v, validateBoundedPlain v true) [Key d; Title d; Container d; Version d] in
  let! _ := demand (eqt (Updated d) [] || CanonicalTime (Updated d)) ReasonFormat in
  let! _ := demand (zlen (Labels d) <=? maxIndexerLabels) ReasonBounds in
  let! _ := increasing (λ v, validateBoundedPlain v false) None (Labels d) in
  let! _ := validateMemberPath (lPath (Source d)) l in
  let! _ := demand (valid_utf8 (Text_ d) && negb (bool_decide (Ascii.zero ∈ Text_ d)) && (zlen (Text_ d) <=? MaxMemberBytes l)) ReasonBounds in
  let! _ := demand (eqt (BodySHA256 d) (hex_encode (vec_to_list (sha256 (Text_ d))))) ReasonDigest in
  let! _ := demand (if rendered then negb (eqt (Text_ d) []) && negb (eqt (MarkdownPath d) []) && isLowerSHA256 (MarkdownSHA256 d)
                    else if empty then eqt (Text_ d) [] && negb (eqt (MarkdownPath d) []) && isLowerSHA256 (MarkdownSHA256 d)
                    else eqt (Text_ d) [] && eqt (MarkdownPath d) [] && eqt (MarkdownSHA256 d) []) ReasonMembership in
  let! _ := if eqt (MarkdownPath d) [] then Ok tt else validateMemberPath (MarkdownPath d) l in
  let! _ := validateDocumentEvidence (dEvidence d) in
  let body := nth 1 (dEvidence d) no_evidence in
  let visibility := nth 6 (dEvidence d) no_evidence in
  let! _ := demand (if rendered || empty then eqt (eStatus body) EvidenceComplete
                    else if eqt (dRenderStatus d) RenderFailed then eqt (eStatus body) EvidenceUnavailable && hasEvidenceReason (eReasons body) EvidenceRenderFailed
                    else eqt (eStatus body) EvidenceUnsupported && hasEvidenceReason (eReasons body) EvidenceUnsupportedReason) ReasonMembership in
  demand (Bool.eqb (eqt (eStatus visibility) EvidenceComplete) (negb (eqt (dVisibility d) VisibilityUnknown))) ReasonMembership.
Definition validateIndexerEdge (e : IndexerEdge) (l : Limits) : checked unit :=
  let! _ := demand (gSchemaVersion e =? IndexerSchemaV1) ReasonSchema in
  let! _ := demand (isLowerSHA256 (gID e) && isLowerSHA256 (SourceID e) && validEdgeRelation (Relation e) && validDirection (Direction e) && validConfidence (Confidence e)) ReasonType in
  let! _ := validateBoundedPlain (RelationName e) true in
  let! _ := demand (Bool.eqb (eqt (Relation e) EdgeJiraIssueLink) (negb (eqt (RelationName e) []))) ReasonMembership in
  let! want := DeriveEdgeID e in
  let! _ := demand (eqt (gID e) want) ReasonDigest in
  let! _ := demand (validEvidenceKind (vKind (gEvidence e))) ReasonType in
  let! _ := validateMemberPath (vPath (gEvidence e)) l in
  validateBoundedPlain (Fragment (gEvidence e)) true.

(** ** JSON lines *)

(** [encodeDocumentJSONL] and [encodeEdgeJSONL]. *)
Fixpoint encode_lines {A} (key : A → text) (check : A → checked unit) (json : A → text) (l : Limits) (previous : option text) (out : text) (items : list A) : checked text :=
  match items with
  | [] => Ok out
  | x :: items =>
      let! _ := check x in
      let! _ := demand (match previous with Some p => text_ltb p (key x) | None => true end) ReasonMembership in
      let! _ := demand ((zlen (json x) + 1 <=? MaxMemberBytes l) && (zlen out + zlen (json x) + 1 <=? MaxTotalBytes l)) ReasonBounds in
      encode_lines key check json l (Some (key x)) (out ++ json x ++ ["010"%char]) items
  end.
Definition encodeDocumentJSONL (ds : list IndexerDocument) (l : Limits) : checked text := encode_lines dID (λ d, validateIndexerDocument d l) json_document l None [] ds.
Definition encodeEdgeJSONL (es : list IndexerEdge) (l : Limits) : checked text := encode_lines gID (λ e, validateIndexerEdge e l) json_edge l None [] es.
Definition CanonicalIndexerDocuments (ds : option (list IndexerDocument)) (limits : Limits) : checked text :=
  let! l := normalizeLimits limits in
  match ds with
  | None => reject ReasonFormat
  | Some ds => let! _ := demand (zlen ds <=? MaxMembers l) ReasonBounds in encodeDocumentJSONL (sort_on dID (map normalizeDocument ds)) l
  end.
Definition CanonicalIndexerEdges (es : option (list IndexerEdge)) (limits : Limits) : checked text :=
  let! l := normalizeLimits limits in
  match es with
  | None => reject ReasonFormat
  | Some es => let! _ := demand (zlen es <=? MaxMembers l) ReasonBounds in encodeEdgeJSONL (sort_on gID es) l
  end.
(** The text before a line feed and the text after it. *)
Fixpoint cut_line (s : text) : option (text * text) :=
  match s with
  | [] => None
  | c :: s => if bool_decide (c = "010"%char) then Some ([], s) else match cut_line s with Some (a, b) => Some (c :: a, b) | None => None end
  end.
(** Every line is a value; a line consumes a byte. *)
Fixpoint line_loop {A} (fuel : nat) (decode : text → checked A) (l : Limits) (count : Z) (data : text) : checked (list A) :=
  match fuel with
  | O => Ok []
  | S fuel =>
      match data with
      | [] => Ok []
      | _ =>
          match cut_line data with
          | None => reject ReasonFormat
          | Some (line, rest) =>
              let! _ := demand (negb (length line =? 0)%nat) ReasonFormat in
              let! _ := demand (zlen line + 1 <=? MaxMemberBytes l) ReasonBounds in
              let! _ := demand (count + 1 <=? MaxMembers l) ReasonBounds in
              let! v := decode line in
              let! vs := line_loop fuel decode l (count + 1) rest in
              Ok (v :: vs)
          end
      end
  end.
Definition forEachJSONLine {A} (decode : text → checked A) (data : text) (l : Limits) : checked (list A) :=
  if eqt data [] then Ok []
  else let! _ := demand (bool_decide (last data = Some "010"%char)) ReasonFormat in line_loop (length data) decode l 0 data.
(** [decodeDocumentJSONL] and [decodeEdgeJSONL]. *)
Definition decode_lines {A} (unmarshal : text → option A) (data : text) (l : Limits) : checked (list A) :=
  let! _ := demand (zlen data <=? MaxTotalBytes l) ReasonBounds in
  forEachJSONLine (decodeStrictObject ToLower unmarshal) data l.
Definition ParseIndexerDocuments (unmarshal : text → option IndexerDocument) (data : text) (limits : Limits) : checked (list IndexerDocument) :=
  let! l := normalizeLimits limits in
  let! ds := decode_lines unmarshal data l in
  exactly data ds (CanonicalIndexerDocuments (Some ds) l).
Definition ParseIndexerEdges (unmarshal : text → option IndexerEdge) (data : text) (limits : Limits) : checked (list IndexerEdge) :=
  let! l := normalizeLimits limits in
  let! es := decode_lines unmarshal data l in
  exactly data es (CanonicalIndexerEdges (Some es) l).

(** ** The receipt *)

Definition pair_key (m : MarkdownMember) : text * text := (DocumentID m, kPath m).
Definition markdown_le (a b : MarkdownMember) : Prop :=
  (if eqt (DocumentID b) (DocumentID a) then text_ltb (kPath b) (kPath a) else text_ltb (DocumentID b) (DocumentID a)) = false.
#[export] Instance markdown_le_dec : RelDecision markdown_le. Proof. intros a b. unfold markdown_le. apply _. Defined.
Fixpoint markdown_loop (l : Limits) (total : Z) (documents paths : list text) (ms : list MarkdownMember) : checked Z :=
  match ms with
  | [] => Ok total
  | m :: ms =>
      let! _ := demand (isLowerSHA256 (DocumentID m) && isLowerSHA256 (kSHA256 m)) ReasonDigest in
      let! _ := validateMemberPath (kPath m) l in
      let! _ := demand (negb ((kSize m <? 0) || (MaxMemberBytes l <? kSize m) || (MaxTotalBytes l - total <? kSize m))) ReasonBounds in
      let! _ := demand (negb (bool_decide (DocumentID m ∈ documents))) ReasonMembership in
      let! _ := demand (negb (bool_decide (kPath m ∈ paths))) ReasonMembership in
      markdown_loop l (total + kSize m) (DocumentID m :: documents) (kPath m :: paths) ms
  end.
Definition indexerMarkdownDigest (ms : option (list MarkdownMember)) (l : Limits) : checked (text * Z) :=
  match ms with
  | None => reject ReasonFormat
  | Some ms =>
      let! _ := demand (zlen ms <=? MaxMembers l) ReasonBounds in
      let ms := merge_sort markdown_le ms in
      let! total := markdown_loop l 0 [] [] ms in
      Ok (domainHash sha256 indexerMarkdownDomain (map json_markdown ms), total)
  end.

Definition validate_qualification (q : IndexerQualification) : checked unit :=
  let ready := eqt (iState q) QualificationReady in
  let! _ := demand (isLowerSHA256 (iScopeDigest q)) ReasonDigest in
  let! _ := if eqt (Basis q) QualificationReceipt then demand (isLowerSHA256 (SourceReceiptDigest q)) ReasonDigest
            else demand (negb (negb (eqt (SourceReceiptDigest q) []) || ready)) ReasonMembership in
  let! _ := demand (Bool.eqb (length (iReasons q) =? 0)%nat ready) ReasonMembership in
  increasing (λ r, demand (validQualificationReason r) ReasonType) None (iReasons q).
Definition worse (readiness state : text) : text :=
  if eqt state QualificationUnavailable then ProjectionUnavailable
  else if eqt state QualificationPartial && eqt readiness ProjectionReady then ProjectionPartial else readiness.
Fixpoint qualification_loop (previous : option text) (readiness : text) (services : list text) (qs : list IndexerQualification) : checked (text * list text) :=
  match qs with
  | [] => Ok (readiness, services)
  | q :: qs =>
      let! _ := demand (validQualificationService (iService q) && validQualificationState (iState q) && validQualificationBasis (Basis q)) ReasonType in
      let! _ := demand (match previous with Some p => text_ltb p (iService q) | None => true end) ReasonMembership in
      let! _ := validate_qualification q in
      qualification_loop (Some (iService q)) (worse readiness (iState q)) (iService q :: services) qs
  end.
Definition validateIndexerQualifications (qs : option (list IndexerQualification)) : checked (text * list text) :=
  match qs with
  | None => reject ReasonFormat
  | Some qs =>
      let! _ := demand (negb ((length qs =? 0)%nat || (2 <? length qs)%nat)) ReasonMembership in
      qualification_loop None ProjectionReady [] qs
  end.

(** A map from what passes a check, by a text no two of them share. *)
Fixpoint index_all {A} (key : A → text) (check : A → checked unit) (found : gmap text A) (l : list A) : checked (gmap text A) :=
  match l with
  | [] => Ok found
  | x :: l =>
      let! _ := check x in
      let! _ := demand (negb (bool_decide (is_Some (found !! key x)))) ReasonMembership in
      index_all key check (<[key x := x]> found) l
  end.
Definition document_bound (l : Limits) (services : list text) (d : IndexerDocument) : checked unit :=
  let! _ := validateIndexerDocument d l in demand (bool_decide (dService d ∈ services)) ReasonMembership.
Definition documents_by_id (l : Limits) (services : list text) (ds : list IndexerDocument) : checked (gmap text IndexerDocument) :=
  index_all dID (document_bound l services) ∅ (map normalizeDocument ds).
Definition edge_bound (ids : gmap text IndexerDocument) (e : IndexerEdge) : checked unit :=
  let! _ := demand (bool_decide (is_Some (ids !! SourceID e))) ReasonMembership in
  demand (eqt (TargetID e) [] || bool_decide (is_Some (ids !! TargetID e))) ReasonMembership.
Definition markdown_by_document (ids : gmap text IndexerDocument) (ms : list MarkdownMember) : checked (gmap text MarkdownMember) :=
  index_all DocumentID (λ m, demand (bool_decide (is_Some (ids !! DocumentID m))) ReasonMembership) ∅ ms.
Definition has_markdown (d : IndexerDocument) : bool := eqt (dRenderStatus d) RenderRendered || eqt (dRenderStatus d) RenderEmpty.
Definition markdown_bound (found : gmap text MarkdownMember) (item : text * IndexerDocument) : checked unit :=
  match found !! item.1 with
  | Some m =>
      let! _ := demand (has_markdown item.2) ReasonMembership in
      demand (eqt (kPath m) (MarkdownPath item.2) && eqt (kSHA256 m) (MarkdownSHA256 item.2)) ReasonDigest
  | None => demand (negb (has_markdown item.2)) ReasonMembership
  end.
Definition validateIndexerBundle (qs : list IndexerQualification) (ds : list IndexerDocument) (es : list IndexerEdge) (ms : list MarkdownMember) (l : Limits) : checked text :=
  let! q := validateIndexerQualifications (Some qs) in
  let! ids := documents_by_id l q.2 ds in
  let! _ := all_pass (edge_bound ids) es in
  let! found := markdown_by_document ids ms in
  let! _ := all_pass (markdown_bound found) (map_to_list ids) in
  Ok q.1.

Definition indexerProjectionDigest (r : IndexerReceipt) (l : Limits) : checked text :=
  let data := marshalCanonical (json_object (projection_members r)) in
  let! _ := demand (zlen data <=? MaxManifestBytes l) ReasonBounds in
  Ok (domainHash sha256 indexerProjectionDomain [data]).
Definition validateIndexerReceipt (r : IndexerReceipt) (l : Limits) : checked unit :=
  let c := Counts r in
  let! _ := demand ((nSchemaVersion r =? IndexerReceiptSchemaV1) && (nProjectionSchema r =? IndexerSchemaV1)) ReasonSchema in
  let! q := validateIndexerQualifications (Qualifications r) in
  let! _ := demand (eqt (Readiness r) q.1) ReasonMembership in
  let! _ := demand (negb ((Documents c <? 0) || (MaxMembers l <? Documents c) || (Edges c <? 0) || (MaxMembers l <? Edges c) || (MarkdownFiles c <? 0) || (MaxMembers l <? MarkdownFiles c) ||
                          (MarkdownBytes c <? 0) || (MaxTotalBytes l <? MarkdownBytes c))) ReasonBounds in
  let! _ := demand (isLowerSHA256 (DocumentsDigest r) && isLowerSHA256 (EdgesDigest r) && isLowerSHA256 (MarkdownDigest r) && isLowerSHA256 (nProjectionDigest r)) ReasonDigest in
  let! want := indexerProjectionDigest r l in
  demand (eqt (nProjectionDigest r) want) ReasonDigest.
Definition with_projection_digest (digest : text) (r : IndexerReceipt) : IndexerReceipt :=
  {| nSchemaVersion := nSchemaVersion r; nProjectionSchema := nProjectionSchema r; Readiness := Readiness r; Qualifications := Qualifications r; Counts := Counts r;
     DocumentsDigest := DocumentsDigest r; EdgesDigest := EdgesDigest r; MarkdownDigest := MarkdownDigest r; nProjectionDigest := digest |}.
Definition BuildIndexerReceipt (qs : list IndexerQualification) (ds : option (list IndexerDocument)) (es : option (list IndexerEdge)) (ms : option (list MarkdownMember)) (limits : Limits) :
    checked IndexerReceipt :=
  let! l := normalizeLimits limits in
  let! documentBytes := CanonicalIndexerDocuments ds l in
  let! edgeBytes := CanonicalIndexerEdges es l in
  let! markdown := indexerMarkdownDigest ms l in
  let qs := normalizeQualifications qs in
  let ds := default [] ds in let es := default [] es in let ms := default [] ms in
  let! readiness := validateIndexerBundle qs ds es ms l in
  let r := {| nSchemaVersion := IndexerReceiptSchemaV1; nProjectionSchema := IndexerSchemaV1; Readiness := readiness; Qualifications := Some qs;
              Counts := {| Documents := zlen ds; Edges := zlen es; MarkdownFiles := zlen ms; MarkdownBytes := markdown.2 |};
              DocumentsDigest := domainHash sha256 indexerDocumentsDomain [documentBytes]; EdgesDigest := domainHash sha256 indexerEdgesDomain [edgeBytes];
              MarkdownDigest := markdown.1; nProjectionDigest := [] |} in
  let! digest := indexerProjectionDigest r l in
  Ok (with_projection_digest digest r).
Definition CanonicalIndexerReceipt (r : IndexerReceipt) (limits : Limits) : checked text :=
  let! l := normalizeLimits limits in
  let! _ := validateIndexerReceipt r l in
  let data := marshalCanonical (json_indexer_receipt r) in
  let! _ := demand (zlen data <=? MaxManifestBytes l) ReasonBounds in
  Ok data.
Definition ParseIndexerReceipt (unmarshal : text → option IndexerReceipt) (data : text) (limits : Limits) : checked IndexerReceipt :=
  let! l := normalizeLimits limits in
  let! _ := readable data (MaxManifestBytes l) in
  let! r := decodeStrictObject ToLower unmarshal data in
  exactly data r (CanonicalIndexerReceipt r l).
Definition VerifyIndexerBundle (r : IndexerReceipt) (ds : option (list IndexerDocument)) (es : option (list IndexerEdge)) (ms : option (list MarkdownMember)) (limits : Limits) : checked unit :=
  let! want := BuildIndexerReceipt (default [] (Qualifications r)) ds es ms limits in
  let! got := CanonicalIndexerReceipt r limits in
  let! bytes := CanonicalIndexerReceipt want limits in
  demand (eqt got bytes) ReasonDigest.

(** ** Sorting and indexing do not depend on the order of the input *)

Lemma encode_ok {A} (key : A → text) check json l previous out items res : encode_lines key check json l previous out items = Ok res →
  (∀ x, x ∈ items → check x = Ok tt) ∧ rising previous (key <$> items).
Proof.
  revert previous out. induction items as [|x items IH]; intros previous out H; [split; [by intros x ?%elem_of_nil|destruct previous; repeat constructor]|].
  cbn [encode_lines] in H. oks H. destruct (IH _ _ H) as [H1 H2]. split; [|by apply rising_cons]. intros y [->|Hy]%elem_of_cons; [done|by apply H1].
Qed.
Lemma canonical_documents_perm ds ds' l b : ds ≡ₚ ds' → CanonicalIndexerDocuments (Some ds) l = Ok b → CanonicalIndexerDocuments (Some ds') l = Ok b.
Proof.
  unfold CanonicalIndexerDocuments, zlen. intros Hp H. oks H. rewrite E. cbn [rbind]. rewrite <- Hp at 1. rewrite E0. cbn [rbind demand].
  rewrite (sort_on_perm dID (map normalizeDocument ds)); [done|by apply fmap_Permutation|]. by apply encode_ok in H as [_ H].
Qed.
Lemma canonical_edges_perm es es' l b : es ≡ₚ es' → CanonicalIndexerEdges (Some es) l = Ok b → CanonicalIndexerEdges (Some es') l = Ok b.
Proof.
  unfold CanonicalIndexerEdges, zlen. intros Hp H. oks H. rewrite E. cbn [rbind]. rewrite <- Hp at 1. rewrite E0. cbn [rbind demand].
  rewrite (sort_on_perm gID es); [done|done|]. by apply encode_ok in H as [_ H].
Qed.
Lemma markdown_le_spec a b : markdown_le a b ↔ before (DocumentID a) (DocumentID b) ∨ (DocumentID a = DocumentID b ∧ key_le kPath a b).
Proof.
  unfold markdown_le, key_le, before. destruct (eqt (DocumentID b) (DocumentID a)) eqn:E.
  - apply eqt_true in E. rewrite E, text_ltb_irrefl. split; [by right|by intros [|[_ ?]]].
  - apply eqt_false in E. split.
    + intros [He|]%text_ltb_total; [by destruct E|by left].
    + intros [H|[He _]]; [|by destruct E]. destruct (text_ltb (DocumentID b) (DocumentID a)) eqn:E'; [|done].
      pose proof (text_ltb_trans _ _ _ H E') as Hn. by rewrite text_ltb_irrefl in Hn.
Qed.
#[local] Instance markdown_le_total : Total markdown_le.
Proof.
  intros a b. rewrite !markdown_le_spec. destruct (total (key_le DocumentID) a b) as [H|H]; destruct (key_le_or _ _ _ H) as [He|Hb]; auto.
  - destruct (total (key_le kPath) a b); auto.
  - destruct (total (key_le kPath) a b); auto.
Qed.
#[local] Instance markdown_le_trans : Transitive markdown_le.
Proof.
  intros a b c. rewrite !markdown_le_spec. intros [H1|[E1 H1]] [H2|[E2 H2]].
  - left. by transitivity (DocumentID b).
  - left. by rewrite <- E2.
  - left. by rewrite E1.
  - right. split; [congruence|by transitivity b].
Qed.
Lemma markdown_loop_nodup l total documents paths ms out : markdown_loop l total documents paths ms = Ok out → NoDup (DocumentID <$> ms) ∧ ∀ m, m ∈ ms → DocumentID m ∉ documents.
Proof.
  revert total documents paths. induction ms as [|m ms IH]; intros total documents paths H; [split; [constructor|by intros m ?%elem_of_nil]|].
  cbn [markdown_loop] in H. oks H. rewrite negb_true_iff, bool_decide_eq_false in E2. destruct (IH _ _ _ H) as [H1 H2]. split.
  - rewrite fmap_cons. constructor; [|done]. intros (x & He & Hx)%list_elem_of_fmap. apply (H2 x Hx). rewrite <- He. apply list_elem_of_here.
  - intros x [->|Hx]%elem_of_cons; [done|]. intros Hd. apply (H2 x Hx). by apply list_elem_of_further.
Qed.
Lemma markdown_digest_perm ms ms' l d : ms ≡ₚ ms' → indexerMarkdownDigest (Some ms) l = Ok d → indexerMarkdownDigest (Some ms') l = Ok d.
Proof.
  unfold indexerMarkdownDigest, zlen. intros Hp H. oks H. rewrite <- Hp at 1. rewrite E. cbn [rbind demand].
  assert (merge_sort markdown_le ms' = merge_sort markdown_le ms) as ->; [|by rewrite E0].
  apply markdown_loop_nodup in E0 as [Hn _]. assert (∀ k, k ≡ₚ ms → StronglySorted before (DocumentID <$> merge_sort markdown_le k)) as Hs.
  { intros k Hk. apply (sorted_strict DocumentID markdown_le); [|apply (StronglySorted_merge_sort _)|by rewrite merge_sort_Permutation, Hk, <- (merge_sort_Permutation markdown_le ms)].
    intros x y [Hb|[He _]]%markdown_le_spec; [by right|by left]. }
  apply (strict_unique DocumentID); [by apply Hs|by apply Hs|]. by rewrite !merge_sort_Permutation.
Qed.

Lemma all_pass_ok {A} (f : A → checked unit) l : all_pass f l = Ok tt ↔ ∀ x, x ∈ l → f x = Ok tt.
Proof.
  induction l as [|x l IH]; cbn [all_pass]; [split; [by intros _ x ?%elem_of_nil|done]|]. rewrite chain_ok. split.
  - intros ([] & Hx & H) y [->|Hy]%elem_of_cons; [done|]. by apply IH.
  - intros H. exists tt. split; [apply H, list_elem_of_here|]. apply IH. intros y Hy. by apply H, list_elem_of_further.
Qed.
Lemma index_all_ok {A} (key : A → text) check found l m : index_all key check found l = Ok m ↔
  (∀ x, x ∈ l → check x = Ok tt ∧ found !! key x = None) ∧ NoDup (key <$> l) ∧ m = foldl (λ m x, <[key x := x]> m) found l.
Proof.
  revert found. induction l as [|x l IH]; intros found; cbn [index_all].
  - split; [intros [= <-]; split_and!; [by intros x ?%elem_of_nil|constructor|done]|by intros (_ & _ & ->)].
  - rewrite chain_ok, fmap_cons, NoDup_cons. split.
    + intros ([] & Hx & ([] & Hn%demand_ok & H)%chain_ok). rewrite negb_true_iff, bool_decide_eq_false, <- eq_None_not_Some in Hn. apply IH in H as (H1 & H2 & ->). split_and!; try done.
      * intros y [->|Hy]%elem_of_cons; [done|]. destruct (H1 y Hy) as [Hc Hl]. apply lookup_insert_None in Hl as [? _]. by split.
      * intros (y & He & Hy)%list_elem_of_fmap. destruct (H1 y Hy) as [_ Hl]. by rewrite He, lookup_insert_eq in Hl.
    + intros (H1 & [Hni Hnd] & ->). destruct (H1 x (list_elem_of_here _ _)) as [Hc Hl]. exists tt. split; [done|]. rewrite Hl. cbn. apply IH. split_and!; [|done..].
      intros y Hy. destruct (H1 y (list_elem_of_further _ _ _ Hy)) as [? Hy']. split; [done|]. apply lookup_insert_None. split; [done|]. intros He. apply Hni, list_elem_of_fmap. by exists y.
Qed.
Lemma index_all_lookup {A} (key : A → text) check l m k v : index_all key check ∅ l = Ok m → m !! k = Some v ↔ v ∈ l ∧ key v = k.
Proof. intros (_ & Hn & ->)%index_all_ok. rewrite foldl_insert_lookup by done. rewrite lookup_empty. naive_solver. Qed.
Lemma index_all_perm {A} (key : A → text) check l l' m : l ≡ₚ l' → index_all key check ∅ l = Ok m → index_all key check ∅ l' = Ok m.
Proof.
  intros Hp H. pose proof H as (H1 & H2 & _)%index_all_ok. assert (NoDup (key <$> l')) as Hn by (by rewrite <- Hp). apply index_all_ok. split_and!; [|done|].
  - intros x Hx. apply H1. by rewrite Hp.
  - apply map_eq. intros k. apply option_eq. intros v. rewrite (index_all_lookup _ _ _ _ _ _ H), foldl_insert_lookup, lookup_empty, Hp by done. naive_solver.
Qed.

(** ** The receipt of a bundle *)

Lemma qualification_ok previous r services qs out : qualification_loop previous r services qs = Ok out →
  rising previous (iService <$> qs) ∧ out = (foldl (λ r q, worse r (iState q)) r qs, reverse (iService <$> qs) ++ services) ∧ ∀ q, q ∈ qs → validQualificationState (iState q) = true.
Proof.
  revert previous r services. induction qs as [|q qs IH]; intros previous r services H.
  - injection H as <-. split_and!; [destruct previous; repeat constructor|done|by intros q ?%elem_of_nil].
  - cbn [qualification_loop] in H. oks H. apply IH in H as (H1 & -> & H2). rewrite !andb_true_iff in E. destruct E as [[_ E] _]. split_and!.
    + by apply rising_cons.
    + by rewrite fmap_cons, reverse_cons, <- (assoc_L (++)).
    + by intros x [->|Hx]%elem_of_cons; [|apply H2].
Qed.
Lemma qualifications_perm qs qs' out : qs ≡ₚ qs' → validateIndexerQualifications (Some (normalizeQualifications qs)) = Ok out → normalizeQualifications qs' = normalizeQualifications qs.
Proof.
  unfold validateIndexerQualifications. intros Hp H. oks H. apply qualification_ok in H as (H & _ & _). apply (sort_on_perm iService); [by apply fmap_Permutation|exact H].
Qed.
Lemma bundle_perm qs ds ds' es es' ms ms' l r : ds ≡ₚ ds' → es ≡ₚ es' → ms ≡ₚ ms' → validateIndexerBundle qs ds es ms l = Ok r → validateIndexerBundle qs ds' es' ms' l = Ok r.
Proof.
  unfold validateIndexerBundle. intros Hd He Hm (q & -> & (ids & Hi & ([] & Hes & (found & Hf & ([] & Hb & H)%chain_ok)%chain_ok)%chain_ok)%chain_ok)%chain_ok. cbn [rbind].
  assert (documents_by_id l q.2 ds' = Ok ids) as -> by (eapply index_all_perm; [|exact Hi]; by apply fmap_Permutation). cbn [rbind].
  assert (all_pass (edge_bound ids) es' = Ok tt) as ->.
  { apply all_pass_ok. intros e Hin. rewrite <- He in Hin. by apply (proj1 (all_pass_ok _ _) Hes). }
  cbn [rbind]. assert (markdown_by_document ids ms' = Ok found) as -> by (by eapply index_all_perm). cbn [rbind]. by rewrite Hb.
Qed.
(** The receipt of a bundle does not depend on the order its documents, edges,
    Markdown files and qualifications are listed in. *)
Theorem receipt_order_free qs qs' ds ds' es es' ms ms' limits r : qs ≡ₚ qs' → ds ≡ₚ ds' → es ≡ₚ es' → ms ≡ₚ ms' →
  BuildIndexerReceipt qs (Some ds) (Some es) (Some ms) limits = Ok r → BuildIndexerReceipt qs' (Some ds') (Some es') (Some ms') limits = Ok r.
Proof.
  intros Hq Hd He Hm. unfold BuildIndexerReceipt. intros H. oks H. rewrite E. cbn [rbind from_option id default] in *.
  rewrite (canonical_documents_perm _ _ _ _ Hd E0). cbn [rbind]. rewrite (canonical_edges_perm _ _ _ _ He E1). cbn [rbind]. rewrite (markdown_digest_perm _ _ _ _ Hm E2). cbn [rbind].
  assert (normalizeQualifications qs' = normalizeQualifications qs) as ->.
  { unfold validateIndexerBundle in E3. apply chain_ok in E3 as (out & Hout & _). by eapply qualifications_perm. }
  rewrite (bundle_perm _ _ _ _ _ _ _ _ _ Hd He Hm E3). cbn [rbind]. unfold zlen in *.
  rewrite <- (Permutation_length Hd), <- (Permutation_length He), <- (Permutation_length Hm), E4. cbn [rbind]. exact H.
Qed.

Lemma worse_ready qs r : (∀ q, q ∈ qs → validQualificationState (iState q) = true) →
  foldl (λ r q, worse r (iState q)) r qs = ProjectionReady ↔ r = ProjectionReady ∧ ∀ q, q ∈ qs → iState q = QualificationReady.
Proof.
  revert r. induction qs as [|q qs IH]; intros r Hv; cbn [foldl]; [split; [by intros ->; split; [|intros q ?%elem_of_nil]|by intros [-> _]]|].
  rewrite IH by (intros x Hx; apply Hv; by apply list_elem_of_further). pose proof (Hv q (list_elem_of_here _ _)) as Hq.
  assert (worse r (iState q) = ProjectionReady ↔ r = ProjectionReady ∧ iState q = QualificationReady) as ->.
  { assert (worse r QualificationReady = r) as H1 by done. assert (worse r QualificationPartial = if eqt r ProjectionReady then ProjectionPartial else r) as H2 by done.
    assert (worse r QualificationUnavailable = ProjectionUnavailable) as H3 by done. unfold validQualificationState, one_of in Hq. cbn [existsb] in Hq. rewrite !orb_true_iff, !eqt_true in Hq.
    destruct Hq as [->|[->|[->|]]]; [rewrite H1|rewrite H2|rewrite H3|done].
    - split; [by intros ->|by intros [-> _]].
    - destruct (eqt r ProjectionReady) eqn:Er; [|apply eqt_false in Er]; (split; [|by intros [_ ?]]); [done|by intros ->].
    - split; [done|by intros [_ ?]]. }
  split.
  - intros [[-> Hq'] H]. split; [done|]. by intros x [->|Hx]%elem_of_cons; [|apply H].
  - intros [-> H]. split_and!; [done|apply H, list_elem_of_here|]. intros x Hx. by apply H, list_elem_of_further.
Qed.

(** A Markdown file that belongs to a document. *)
Definition belongs (m : MarkdownMember) (d : IndexerDocument) : Prop := DocumentID m = dID d ∧ kPath m = MarkdownPath d ∧ kSHA256 m = MarkdownSHA256 d.
(** Edges and Markdown files against the documents of a bundle. *)
Definition closed (ds : list IndexerDocument) (es : list IndexerEdge) (ms : list MarkdownMember) : Prop :=
  NoDup (dID <$> ds) ∧
  (∀ e, e ∈ es → DeriveEdgeID e = Ok (gID e) ∧ (∃ d, d ∈ ds ∧ dID d = SourceID e) ∧
                 match Unresolved e with Some _ => TargetID e = [] | None => ∃ d, d ∈ ds ∧ dID d = TargetID e end) ∧
  (∀ d, d ∈ ds → if has_markdown d then ∃ m, m ∈ ms ∧ belongs m d ∧ ∀ m', m' ∈ ms → DocumentID m' = dID d → m' = m else ∀ m, m ∈ ms → DocumentID m ≠ dID d) ∧
  (∀ m, m ∈ ms → ∃ d, d ∈ ds ∧ has_markdown d = true ∧ belongs m d).
Lemma documents_lookup l services ds ids k : documents_by_id l services ds = Ok ids → is_Some (ids !! k) ↔ ∃ d, d ∈ ds ∧ dID d = k.
Proof.
  intros H. split.
  - intros [v Hv]. apply (index_all_lookup _ _ _ _ _ _ H) in Hv as [Hin Hk]. apply list_elem_of_In, in_map_iff in Hin as (d & <- & Hd). exists d. split; [by apply list_elem_of_In|done].
  - intros (d & Hd & <-). exists (normalizeDocument d). apply (index_all_lookup _ _ _ _ _ _ H). split; [|done]. apply list_elem_of_In, in_map, list_elem_of_In, Hd.
Qed.
Lemma edges_closed es l out e : CanonicalIndexerEdges (Some es) l = Ok out → e ∈ es → DeriveEdgeID e = Ok (gID e).
Proof.
  unfold CanonicalIndexerEdges. intros H He. oks H. apply encode_ok in H as [H _]. specialize (H e). unfold sort_on in H. rewrite merge_sort_Permutation in H. specialize (H He).
  unfold validateIndexerEdge in H. oks H. match goal with E : DeriveEdgeID e = Ok ?x, E' : eqt (gID e) ?x = true |- _ => apply eqt_true in E'; by rewrite E, E' end.
Qed.
Lemma target_closed e id : DeriveEdgeID e = Ok id → match Unresolved e with Some _ => TargetID e = [] | None => TargetID e ≠ [] end.
Proof.
  unfold DeriveEdgeID. intros H. oks H. match goal with E : edgeTargetPreimage e = _ |- _ => unfold edgeTargetPreimage in E; destruct (Unresolved e); oks E end.
  - by apply eqt_true.
  - by apply eqt_false, negb_true_iff.
Qed.
Lemma bundle_closed_facts qs ds es ms l r edges : CanonicalIndexerEdges (Some es) l = Ok edges → validateIndexerBundle qs ds es ms l = Ok r →
  closed ds es ms ∧ (∀ d, d ∈ ds → ∃ q, q ∈ qs ∧ iService q = dService d) ∧ (r = ProjectionReady ↔ ∀ q, q ∈ qs → iState q = QualificationReady).
Proof.
  intros Hedges. unfold validateIndexerBundle. intros (q & Hq & (ids & Hi & ([] & Hes & (found & Hf & ([] & Hb & [= <-])%chain_ok)%chain_ok)%chain_ok)%chain_ok)%chain_ok.
  pose proof Hi as (Hchecks & Hn & _)%index_all_ok. pose proof Hf as (Hm & _ & _)%index_all_ok. rewrite all_pass_ok in Hes. rewrite all_pass_ok in Hb. split_and!.
  - unfold closed. change (map ?f ?l) with (f <$> l) in Hn. rewrite <- list_fmap_compose in Hn. split_and!; [exact Hn| | |].
    + intros e He. pose proof (edges_closed _ _ _ _ Hedges He) as Hid. split_and!; [done|apply Hes in He; unfold edge_bound in He; oks He; by eapply documents_lookup, bool_decide_eq_true_1|].
      apply target_closed in Hid. destruct (Unresolved e); [done|]. apply Hes in He. unfold edge_bound in He. oks He. eapply documents_lookup; [exact Hi|].
      apply orb_true_iff in He as [He%eqt_true|He%bool_decide_eq_true_1]; done.
    + intros d Hd. specialize (Hb (dID d, normalizeDocument d)). unfold markdown_bound in Hb. cbn [fst snd] in Hb.
      assert (ids !! dID d = Some (normalizeDocument d)) as Hl by (apply (index_all_lookup _ _ _ _ _ _ Hi); split; [apply list_elem_of_In, in_map, list_elem_of_In, Hd|done]).
      specialize (Hb (proj2 (elem_of_map_to_list _ _ _) Hl)). change (has_markdown (normalizeDocument d)) with (has_markdown d) in Hb. destruct (found !! dID d) as [m|] eqn:Hfm.
      * oks Hb. rewrite E. apply andb_true_iff in Hb as [H1%eqt_true H2%eqt_true]. pose proof (proj1 (index_all_lookup _ _ _ _ _ _ Hf) Hfm) as [Hin Hk].
        exists m. split_and!; [done|by split_and!|]. intros m' Hm' Hk'. assert (found !! dID d = Some m') as Hfm' by (by apply (index_all_lookup _ _ _ _ _ _ Hf)). congruence.
      * oks Hb. rewrite negb_true_iff in Hb. rewrite Hb. intros m Hin Hk. assert (found !! dID d = Some m) as Hfm' by (by apply (index_all_lookup _ _ _ _ _ _ Hf)). congruence.
    + intros m Hin. pose proof (proj2 (index_all_lookup _ _ _ _ _ _ Hf) (conj Hin eq_refl)) as Hfm. destruct (Hm m Hin) as [Hk _]. oks Hk. apply bool_decide_eq_true_1 in Hk.
      apply (documents_lookup _ _ _ _ _ Hi) in Hk as (d & Hd & Hk). exists d. split; [done|]. specialize (Hb (dID d, normalizeDocument d)). unfold markdown_bound in Hb. cbn [fst snd] in Hb.
      assert (ids !! dID d = Some (normalizeDocument d)) as Hl by (apply (index_all_lookup _ _ _ _ _ _ Hi); split; [apply list_elem_of_In, in_map, list_elem_of_In, Hd|done]).
      specialize (Hb (proj2 (elem_of_map_to_list _ _ _) Hl)). rewrite Hk, Hfm in Hb. oks Hb. apply andb_true_iff in Hb as [H1%eqt_true H2%eqt_true]. by split_and!.
  - intros d Hd. destruct (Hchecks (normalizeDocument d)) as [Hc _]; [apply list_elem_of_In, in_map, list_elem_of_In, Hd|]. unfold document_bound in Hc. oks Hc.
    apply bool_decide_eq_true_1 in Hc. unfold validateIndexerQualifications in Hq. oks Hq. apply qualification_ok in Hq as (_ & -> & _). cbn [snd] in Hc. rewrite app_nil_r in Hc.
    apply elem_of_reverse, list_elem_of_fmap in Hc as (x & Hx & Hin). by exists x.
  - unfold validateIndexerQualifications in Hq. oks Hq. apply qualification_ok in Hq as (_ & -> & Hv). cbn [fst]. rewrite (worse_ready _ _ Hv). naive_solver.
Qed.
(** C23: A bundle that gets a receipt is closed: identities are unique, every edge
    has its derived identity and starts at a document, and ends at one unless it
    names what it could not resolve; the rendered and empty documents, and no
    others, have exactly one Markdown file, with the recorded path and digest; every
    document's service is qualified, and the bundle counts as ready exactly when
    every service does. *)
Theorem bundle_closed qs ds es ms limits r : BuildIndexerReceipt qs (Some ds) (Some es) (Some ms) limits = Ok r →
  closed ds es ms ∧ (∀ d, d ∈ ds → ∃ q, q ∈ qs ∧ iService q = dService d) ∧ (Readiness r = ProjectionReady ↔ ∀ q, q ∈ qs → iState q = QualificationReady).
Proof.
  unfold BuildIndexerReceipt. intros H. oks H. injection H as <-. cbn [from_option id default] in *. destruct (bundle_closed_facts _ _ _ _ _ _ _ E1 E3) as (H1 & H2 & H3).
  assert (∀ q, q ∈ normalizeQualifications qs ↔ ∃ q', q' ∈ qs ∧ q = normalize_qualification q') as Hq.
  { intros q. unfold normalizeQualifications, sort_on. rewrite merge_sort_Permutation. change (map ?f ?l) with (f <$> l). rewrite list_elem_of_fmap. split; intros (y & ? & ?); exists y; auto. }
  split_and!; [done| |].
  - intros d Hd. destruct (H2 d Hd) as (q & Hin & He). apply Hq in Hin as (q' & Hq' & ->). by exists q'.
  - change (a3 = ProjectionReady ↔ ∀ q, q ∈ qs → iState q = QualificationReady). rewrite H3. split.
    + intros H q Hin. apply (H (normalize_qualification q)), Hq. by exists q.
    + intros H q (q' & Hq' & ->)%Hq. exact (H q' Hq').
Qed.
End indexer.
End CorpusIndexer.
