(* ===== verification/CorpusDelta.v ===== *)
(** * The difference between two generations
    (internal/corpus/generation_delta_types.go, generation_delta_codec.go)

    A delta classifies every document identity of a generation and its
    predecessor as added, retained, changed or tombstoned. *)

From stdpp Require Import vector.
From S2P Require Import Prelude GoText TextOrder Identifiers Encoding PullTypes CorpusTypes CorpusIndexer.
Import GoText TextOrder Identifiers Encoding CorpusTypes.

Module CorpusDelta.
Local Open Scope Z_scope.
Local Open Scope atl_scope.

Definition GenerationDeltaSchemaV1 : Z := 1.
Definition GenerationDiffArtifactSchemaV1 : Z := 1.
(** Of capture_v1_types.go. *)
Definition CaptureReceiptSchemaV1 : Z := 1.
Definition GenerationDeltaAdded : text := txt "added".
Definition GenerationDeltaRetained : text := txt "retained".
Definition GenerationDeltaChanged : text := txt "changed".
Definition GenerationDeltaTombstoned : text := txt "tombstoned".
Definition GenerationDeltaAbsentQualified : text := txt "absent_from_qualified_generation".

Record GenerationDeltaBinding := { bService : text; bReceiptSchema : Z; bScopeDigest : text; bSelectorDigest : text; OptionsDigest : text }.
Record GenerationDeltaRecord := { ID : text; rService : text; rKind : text; State : text; PredecessorDigest : text; SuccessorDigest : text; Reason_ : text }.
Record GenerationDeltaCounts := { Added : Z; Retained : Z; Changed : Z; Tombstoned : Z }.
(** [Records] is [None] for a nil slice. *)
Record GenerationDelta := {
  SchemaVersion : Z; PredecessorGenerationID : text; PredecessorGenerationDigest : text; PredecessorProjectionDigest : text; SuccessorProjectionDigest : text;
  Bindings : list GenerationDeltaBinding; Records : option (list GenerationDeltaRecord); Counts : GenerationDeltaCounts
}.
Record GenerationDiffArtifact := {
  aSchemaVersion : Z; aPredecessorGenerationDigest : text; SuccessorGenerationDigest : text; TombstoneDigest : text; aReason : text;
  aBindings : list GenerationDeltaBinding; aRecords : option (list GenerationDeltaRecord); aCounts : GenerationDeltaCounts
}.
Record generationDeltaDocument := { service : text; kind : text; digest : text }.
#[export] Instance counts_eq : EqDecision GenerationDeltaCounts. Proof. solve_decision. Defined.

(** ** Validation *)

Definition bound_of (b : GenerationDeltaBinding) : text := bService b.
Fixpoint bindings_loop (previous : option text) (bs : list GenerationDeltaBinding) : checked unit :=
  match bs with
  | [] => Ok tt
  | b :: bs =>
      let! _ := demand (validQualificationService (bService b) && (bReceiptSchema b =? CaptureReceiptSchemaV1)) ReasonSchema in
      let! _ := demand (match previous with Some p => text_ltb p (bService b) | None => true end) ReasonMembership in
      let! _ := demand (isLowerSHA256 (bScopeDigest b) && isLowerSHA256 (bSelectorDigest b) && isLowerSHA256 (OptionsDigest b)) ReasonDigest in
      bindings_loop (Some (bService b)) bs
  end.
Definition validateGenerationDeltaBindings (bs : list GenerationDeltaBinding) : checked unit :=
  let! _ := demand (negb ((length bs =? 0)%nat || (2 <? length bs)%nat)) ReasonMembership in bindings_loop None bs.
Definition normalizeGenerationDeltaBindings (bs : list GenerationDeltaBinding) : list GenerationDeltaBinding := sort_on bService bs.

Definition zero_counts : GenerationDeltaCounts := {| Added := 0; Retained := 0; Changed := 0; Tombstoned := 0 |}.
Definition count_state (state : text) (c : GenerationDeltaCounts) : GenerationDeltaCounts :=
  let one s := if eqt state s then 1 else 0 in
  {| Added := Added c + one GenerationDeltaAdded; Retained := Retained c + one GenerationDeltaRetained; Changed := Changed c + one GenerationDeltaChanged;
     Tombstoned := Tombstoned c + one GenerationDeltaTombstoned |}.
(** What a record of each state has, and has not. *)
Definition state_ok (r : GenerationDeltaRecord) : checked unit :=
  let p := PredecessorDigest r in let s := SuccessorDigest r in
  if eqt (State r) GenerationDeltaAdded then demand (eqt p [] && isLowerSHA256 s && eqt (Reason_ r) []) ReasonLineage
  else if eqt (State r) GenerationDeltaRetained then demand (isLowerSHA256 p && eqt p s && eqt (Reason_ r) []) ReasonLineage
  else if eqt (State r) GenerationDeltaChanged then demand (isLowerSHA256 p && isLowerSHA256 s && negb (eqt p s) && eqt (Reason_ r) []) ReasonLineage
  else if eqt (State r) GenerationDeltaTombstoned then demand (isLowerSHA256 p && eqt s [] && eqt (Reason_ r) GenerationDeltaAbsentQualified) ReasonLineage
  else reject ReasonType.
Fixpoint delta_records_loop (services : list text) (previous : option text) (actual : GenerationDeltaCounts) (rs : list GenerationDeltaRecord) : checked GenerationDeltaCounts :=
  match rs with
  | [] => Ok actual
  | r :: rs =>
      let! _ := demand (isLowerSHA256 (ID r) && validQualificationService (rService r) && CorpusIndexer.validObjectKind (rService r) (rKind r)) ReasonType in
      let! _ := demand (bool_decide (rService r ∈ services)) ReasonMembership in
      let! _ := demand (match previous with Some p => text_ltb p (ID r) | None => true end) ReasonMembership in
      let! _ := state_ok r in
      delta_records_loop services (Some (ID r)) (count_state (State r) actual) rs
  end.
(** A sum of Go ints. *)
Definition int_sum (z : Z) : Z := (z + 2 ^ 63) mod 2 ^ 64 - 2 ^ 63.
Definition validateGenerationDeltaRecords (rs : option (list GenerationDeltaRecord)) (c : GenerationDeltaCounts) (services : list text) (l : Limits) : checked unit :=
  match rs with
  | None => reject ReasonMembership
  | Some rs =>
      let! _ := demand (negb ((MaxMembers l <? zlen rs) || (Added c <? 0) || (Retained c <? 0) || (Changed c <? 0) || (Tombstoned c <? 0) ||
                              negb (int_sum (Added c + Retained c + Changed c + Tombstoned c) =? zlen rs))) ReasonMembership in
      let! actual := delta_records_loop services None zero_counts rs in
      demand (bool_decide (actual = c)) ReasonMembership
  end.
Definition validateGenerationDelta (d : GenerationDelta) (l : Limits) : checked unit :=
  let! _ := demand (SchemaVersion d =? GenerationDeltaSchemaV1) ReasonSchema in
  let! _ := validateGenerationID (PredecessorGenerationID d) in
  let! _ := demand (isLowerSHA256 (PredecessorGenerationDigest d) && isLowerSHA256 (PredecessorProjectionDigest d) && isLowerSHA256 (SuccessorProjectionDigest d)) ReasonDigest in
  let! _ := validateGenerationDeltaBindings (Bindings d) in
  validateGenerationDeltaRecords (Records d) (Counts d) (map bService (Bindings d)) l.
Definition validateGenerationDiffArtifact (a : GenerationDiffArtifact) (l : Limits) : checked unit :=
  let! _ := demand ((aSchemaVersion a =? GenerationDiffArtifactSchemaV1) && eqt (aReason a) GenerationDeltaAbsentQualified) ReasonSchema in
  let! _ := demand (isLowerSHA256 (aPredecessorGenerationDigest a) && isLowerSHA256 (SuccessorGenerationDigest a) && isLowerSHA256 (TombstoneDigest a)) ReasonDigest in
  let! _ := validateGenerationDeltaBindings (aBindings a) in
  validateGenerationDeltaRecords (aRecords a) (aCounts a) (map bService (aBindings a)) l.

(** ** Canonical bytes *)

Definition json_binding (b : GenerationDeltaBinding) : text :=
  json_object [member "service" (json_string (bService b)); member "receipt_schema" (json_int (bReceiptSchema b)); member "scope_digest" (json_string (bScopeDigest b));
    member "selector_digest" (json_string (bSelectorDigest b)); member "options_digest" (json_string (OptionsDigest b))].
Definition json_delta_record (r : GenerationDeltaRecord) : text :=
  json_object [member "id" (json_string (ID r)); member "service" (json_string (rService r)); member "kind" (json_string (rKind r)); member "state" (json_string (State r));
    member_omitempty "predecessor_digest" (PredecessorDigest r); member_omitempty "successor_digest" (SuccessorDigest r); member_omitempty "reason" (Reason_ r)].
Definition json_delta_counts (c : GenerationDeltaCounts) : text :=
  json_object [member "added" (json_int (Added c)); member "retained" (json_int (Retained c)); member "changed" (json_int (Changed c)); member "tombstoned" (json_int (Tombstoned c))].
Definition json_delta (d : GenerationDelta) : text :=
  json_object [member "schema_version" (json_int (SchemaVersion d)); member "predecessor_generation_id" (json_string (PredecessorGenerationID d));
    member "predecessor_generation_digest" (json_string (PredecessorGenerationDigest d)); member "predecessor_projection_digest" (json_string (PredecessorProjectionDigest d));
    member "successor_projection_digest" (json_string (SuccessorProjectionDigest d)); member "bindings" (json_array (map json_binding (Bindings d)));
    member "records" (json_slice json_delta_record (Records d)); member "counts" (json_delta_counts (Counts d))].
Definition json_artifact (a : GenerationDiffArtifact) : text :=
  json_object [member "schema_version" (json_int (aSchemaVersion a)); member "predecessor_generation_digest" (json_string (aPredecessorGenerationDigest a));
    member "successor_generation_digest" (json_string (SuccessorGenerationDigest a)); member "tombstone_digest" (json_string (TombstoneDigest a)); member "reason" (json_string (aReason a));
    member "bindings" (json_array (map json_binding (aBindings a))); member "records" (json_slice json_delta_record (aRecords a)); member "counts" (json_delta_counts (aCounts a))].

Section delta.
Variable sha256 : text → vec ascii 32.
Variable ToLower : text → text.
Variable CanonicalTime : text → bool.

Definition generationDeltaDocumentDomain : text := txt "atl.corpus.generation-delta.document.v1".
Definition bounded_member (data : text) (l : Limits) : checked text :=
  let! _ := demand (negb ((MaxMemberBytes l <? zlen data) || (MaxManifestBytes l <? zlen data))) ReasonBounds in Ok data.
Definition CanonicalGenerationDelta (d : GenerationDelta) (limits : Limits) : checked text :=
  let! l := normalizeLimits limits in
  let! _ := validateGenerationDelta d l in
  bounded_member (marshalCanonical (json_delta d)) l.
Definition readable_member (data : text) (l : Limits) : checked unit :=
  demand (negb ((length data =? 0)%nat || (MaxMemberBytes l <? zlen data) || (MaxManifestBytes l <? zlen data))) ReasonBounds.
Definition ParseGenerationDelta (unmarshal : text → option GenerationDelta) (data : text) (limits : Limits) : checked GenerationDelta :=
  let! l := normalizeLimits limits in
  let! _ := readable_member data l in
  let! d := decodeStrictObject ToLower unmarshal data in
  exactly data d (CanonicalGenerationDelta d l).
Definition CanonicalGenerationDiffArtifact (a : GenerationDiffArtifact) (limits : Limits) : checked text :=
  let! l := normalizeLimits limits in
  let! _ := validateGenerationDiffArtifact a l in
  bounded_member (marshalCanonical (json_artifact a)) l.
Definition ParseGenerationDiffArtifact (unmarshal : text → option GenerationDiffArtifact) (data : text) (limits : Limits) : checked GenerationDiffArtifact :=
  let! l := normalizeLimits limits in
  let! _ := readable_member data l in
  let! a := decodeStrictObject ToLower unmarshal data in
  exactly data a (CanonicalGenerationDiffArtifact a l).
Definition BuildGenerationDiffArtifact (d : GenerationDelta) (successorGenerationDigest tombstoneDigest : text) (limits : Limits) : checked GenerationDiffArtifact :=
  let! canonicalDelta := CanonicalGenerationDelta d limits in
  let! _ := demand (isLowerSHA256 successorGenerationDigest && isLowerSHA256 tombstoneDigest) ReasonDigest in
  let! _ := demand (eqt tombstoneDigest (hex_encode (vec_to_list (sha256 canonicalDelta)))) ReasonDigest in
  let a := {| aSchemaVersion := GenerationDiffArtifactSchemaV1; aPredecessorGenerationDigest := PredecessorGenerationDigest d; SuccessorGenerationDigest := successorGenerationDigest;
              TombstoneDigest := tombstoneDigest; aReason := GenerationDeltaAbsentQualified; aBindings := Bindings d;
              aRecords := match Records d with Some [] => None | rs => rs end; aCounts := Counts d |} in
  let! _ := CanonicalGenerationDiffArtifact a limits in
  Ok a.

(** ** Building a delta *)

Fixpoint delta_documents_loop (l : Limits) (found : gmap text generationDeltaDocument) (ds : list CorpusIndexer.IndexerDocument) : checked (gmap text generationDeltaDocument) :=
  match ds with
  | [] => Ok found
  | d :: ds =>
      let! canonical := CorpusIndexer.CanonicalIndexerDocuments sha256 CanonicalTime (Some [d]) l in
      let id := CorpusIndexer.dID d in
      let! _ := demand (negb (bool_decide (is_Some (found !! id)))) ReasonMembership in
      delta_documents_loop l (<[id := {| service := CorpusIndexer.dService d; kind := CorpusIndexer.dKind d; digest := domainHash sha256 generationDeltaDocumentDomain [canonical] |}]> found) ds
  end.
Definition generationDeltaDocuments (ds : option (list CorpusIndexer.IndexerDocument)) (l : Limits) : checked (gmap text generationDeltaDocument) :=
  match ds with
  | None => reject ReasonBounds
  | Some ds =>
      let! _ := demand (zlen ds <=? MaxMembers l) ReasonBounds in
      let! _ := CorpusIndexer.CanonicalIndexerDocuments sha256 CanonicalTime (Some ds) l in
      delta_documents_loop l ∅ ds
  end.
Definition classify_document (id : text) (before after : option generationDeltaDocument) : checked GenerationDeltaRecord :=
  match before, after with
  | None, Some a =>
      Ok {| ID := id; rService := service a; rKind := kind a; State := GenerationDeltaAdded; PredecessorDigest := []; SuccessorDigest := digest a; Reason_ := [] |}
  | Some b, None =>
      Ok {| ID := id; rService := service b; rKind := kind b; State := GenerationDeltaTombstoned; PredecessorDigest := digest b; SuccessorDigest := []; Reason_ := GenerationDeltaAbsentQualified |}
  | Some b, Some a =>
      let! _ := demand (eqt (service b) (service a) && eqt (kind b) (kind a)) ReasonLineage in
      Ok {| ID := id; rService := service b; rKind := kind b; State := if eqt (digest b) (digest a) then GenerationDeltaRetained else GenerationDeltaChanged;
            PredecessorDigest := digest b; SuccessorDigest := digest a; Reason_ := [] |}
  | None, None => reject ReasonMembership
  end.
Fixpoint classify_loop (predecessor successor : gmap text generationDeltaDocument) (ids : list text) : checked (list GenerationDeltaRecord * GenerationDeltaCounts) :=
  match ids with
  | [] => Ok ([], zero_counts)
  | id :: ids =>
      let! r := classify_document id (predecessor !! id) (successor !! id) in
      let! rest := classify_loop predecessor successor ids in
      Ok (r :: rest.1, count_state (State r) rest.2)
  end.
Definition all_ids (predecessor successor : gmap text generationDeltaDocument) : list text :=
  sort_on id (elements (dom predecessor ∪ dom successor)).
Definition BuildGenerationDelta (predecessorID predecessorGenerationDigest predecessorProjectionDigest successorProjectionDigest : text) (bindings : list GenerationDeltaBinding)
    (predecessorDocuments successorDocuments : option (list CorpusIndexer.IndexerDocument)) (limits : Limits) : checked GenerationDelta :=
  let! l := normalizeLimits limits in
  let! _ := demand (match validateGenerationID predecessorID with Ok _ => true | Err _ => false end && isLowerSHA256 predecessorGenerationDigest &&
                    isLowerSHA256 predecessorProjectionDigest && isLowerSHA256 successorProjectionDigest) ReasonDigest in
  let bs := normalizeGenerationDeltaBindings bindings in
  let! _ := validateGenerationDeltaBindings bs in
  let! predecessor := generationDeltaDocuments predecessorDocuments l in
  let! successor := generationDeltaDocuments successorDocuments l in
  let! records := classify_loop predecessor successor (all_ids predecessor successor) in
  let d := {| SchemaVersion := GenerationDeltaSchemaV1; PredecessorGenerationID := predecessorID; PredecessorGenerationDigest := predecessorGenerationDigest;
              PredecessorProjectionDigest := predecessorProjectionDigest; SuccessorProjectionDigest := successorProjectionDigest; Bindings := bs; Records := Some records.1; Counts := records.2 |} in
  let! _ := validateGenerationDelta d l in
  Ok d.

(** ** What a delta says *)

(** How many records have a state. *)
Definition tally (state : text) (rs : list GenerationDeltaRecord) : Z := zlen (List.filter (λ r, eqt (State r) state) rs).
Definition tallies (rs : list GenerationDeltaRecord) : GenerationDeltaCounts :=
  {| Added := tally GenerationDeltaAdded rs; Retained := tally GenerationDeltaRetained rs; Changed := tally GenerationDeltaChanged rs; Tombstoned := tally GenerationDeltaTombstoned rs |}.
Lemma tally_cons state r rs : tally state (r :: rs) = tally state rs + if eqt (State r) state then 1 else 0.
Proof. unfold tally, zlen. cbn [List.filter]. destruct (eqt (State r) state); cbn [length]; lia. Qed.
Lemma classify_loop_ok p s ids out : classify_loop p s ids = Ok out →
  ID <$> out.1 = ids ∧ (∀ r, r ∈ out.1 → classify_document (ID r) (p !! ID r) (s !! ID r) = Ok r) ∧ out.2 = tallies out.1.
Proof.
  revert out. induction ids as [|id ids IH]; intros out H; cbn [classify_loop] in H.
  - injection H as <-. split_and!; [done|by intros r ?%elem_of_nil|done].
  - apply chain_ok in H as (r & Hr & (rest & Hrest & [= <-])%chain_ok). destruct (IH _ Hrest) as (H1 & H2 & H3). cbn [fst snd].
    assert (ID r = id) as Hid. { unfold classify_document in Hr. destruct (p !! id), (s !! id); oks Hr; simplify_eq/=; done. } split_and!.
    + rewrite fmap_cons. by f_equal.
    + intros x [->|Hx]%elem_of_cons; [by rewrite Hid|by apply H2].
    + rewrite H3. unfold count_state, tallies. by rewrite !tally_cons.
Qed.
(** What a delta knows of a document. *)
Definition summarises (l : Limits) (d : CorpusIndexer.IndexerDocument) (x : generationDeltaDocument) : Prop :=
  ∃ canonical, CorpusIndexer.CanonicalIndexerDocuments sha256 CanonicalTime (Some [d]) l = Ok canonical ∧
    x = {| service := CorpusIndexer.dService d; kind := CorpusIndexer.dKind d; digest := domainHash sha256 generationDeltaDocumentDomain [canonical] |}.
Lemma delta_documents_ok l found ds out : delta_documents_loop l found ds = Ok out →
  NoDup (CorpusIndexer.dID <$> ds) ∧ (∀ d, d ∈ ds → found !! CorpusIndexer.dID d = None) ∧
  ∀ id x, out !! id = Some x ↔ (∃ d, d ∈ ds ∧ CorpusIndexer.dID d = id ∧ summarises l d x) ∨ found !! id = Some x.
Proof.
  revert found. induction ds as [|d ds IH]; intros found H; cbn [delta_documents_loop] in H.
  - injection H as <-. split_and!; [constructor|by intros d ?%elem_of_nil|]. intros id x. split; [by right|]. by intros [(d & ?%elem_of_nil & _)|?].
  - apply chain_ok in H as (c & Hc & ([] & Hn%demand_ok & H)%chain_ok). rewrite negb_true_iff, bool_decide_eq_false, <- eq_None_not_Some in Hn. apply IH in H as (Hnd & Hno & H). split_and!.
    + rewrite fmap_cons. constructor; [|done]. intros (x & He & Hx)%list_elem_of_fmap. specialize (Hno x Hx). by rewrite <- He, lookup_insert_eq in Hno.
    + intros x [->|Hx]%elem_of_cons; [done|]. by apply Hno, lookup_insert_None in Hx as [? _].
    + intros id x. rewrite H, lookup_insert_Some. setoid_rewrite elem_of_cons. split.
      * intros [(e & He & Hid & Hs)|[[<- <-]|[_ Hf]]]; [left; exists e; auto|left; exists d|by right]. split_and!; [by left|done|]. by exists c.
      * intros [(e & [->|He] & Hid & Hs)|Hf]; [|left; by exists e|].
        -- right. left. split; [done|]. destruct Hs as (c' & Hc' & ->). congruence.
        -- destruct (decide (CorpusIndexer.dID d = id)) as [<-|Hne]; [congruence|]. right. by right.
Qed.
Lemma documents_ok ds l out : generationDeltaDocuments (Some ds) l = Ok out →
  NoDup (CorpusIndexer.dID <$> ds) ∧ ∀ id x, out !! id = Some x ↔ ∃ d, d ∈ ds ∧ CorpusIndexer.dID d = id ∧ summarises l d x.
Proof.
  unfold generationDeltaDocuments. intros H. oks H. apply delta_documents_ok in H as (H1 & _ & H2). split; [done|]. intros id x. rewrite H2, lookup_empty. naive_solver.
Qed.

(** What the record of an identity has to be, given the documents of the
    predecessor and of the successor. *)
Definition classified (before after : option generationDeltaDocument) (r : GenerationDeltaRecord) : Prop :=
  match before, after with
  | None, None => False
  | None, Some a => State r = GenerationDeltaAdded ∧ PredecessorDigest r = [] ∧ SuccessorDigest r = digest a ∧ rService r = service a ∧ rKind r = kind a
  | Some b, None => State r = GenerationDeltaTombstoned ∧ PredecessorDigest r = digest b ∧ SuccessorDigest r = [] ∧ rService r = service b ∧ rKind r = kind b
  | Some b, Some a =>
      State r = (if decide (digest b = digest a) then GenerationDeltaRetained else GenerationDeltaChanged) ∧ PredecessorDigest r = digest b ∧ SuccessorDigest r = digest a ∧
      rService r = service b ∧ rKind r = kind b ∧ service b = service a ∧ kind b = kind a
  end.
Lemma classify_classified id b a r : classify_document id b a = Ok r → classified b a r.
Proof.
  unfold classify_document, classified. destruct b as [b|], a as [a|]; intros H; oks H; simplify_eq/=; [|done..].
  apply andb_true_iff in E as [H1%eqt_true H2%eqt_true]. split_and!; try done. unfold eqt. by repeat case_decide; repeat case_bool_decide.
Qed.
Lemma all_ids_spec p s id : id ∈ all_ids p s ↔ is_Some (p !! id) ∨ is_Some (s !! id).
Proof. unfold all_ids, sort_on. rewrite merge_sort_Permutation, elem_of_elements, elem_of_union, !elem_of_dom. done. Qed.
Lemma all_ids_sorted p s : StronglySorted before (all_ids p s).
Proof. unfold all_ids. rewrite <- (list_fmap_id (sort_on _ _)). apply sort_on_strict. rewrite list_fmap_id. apply NoDup_elements. Qed.

(** C36: A delta is exact: it has one record, in order, for every identity of the two
    generations, the record says what became of the document and gives the digests
    of both versions, and the counts are the numbers of records in each state. *)
Theorem delta_exact id gdigest pproj sproj bindings before after limits d : BuildGenerationDelta id gdigest pproj sproj bindings (Some before) (Some after) limits = Ok d →
  ∃ l (p s : gmap text generationDeltaDocument) rs, normalizeLimits limits = Ok l ∧ Records d = Some rs ∧ StronglySorted TextOrder.before (ID <$> rs) ∧ Counts d = tallies rs ∧
    (∀ k x, p !! k = Some x ↔ ∃ doc, doc ∈ before ∧ CorpusIndexer.dID doc = k ∧ summarises l doc x) ∧
    (∀ k x, s !! k = Some x ↔ ∃ doc, doc ∈ after ∧ CorpusIndexer.dID doc = k ∧ summarises l doc x) ∧
    (∀ k, k ∈ (ID <$> rs) ↔ is_Some (p !! k) ∨ is_Some (s !! k)) ∧ (∀ r, r ∈ rs → classified (p !! ID r) (s !! ID r) r).
Proof.
  unfold BuildGenerationDelta. intros H. oks H. injection H as <-.
  repeat match goal with E : generationDeltaDocuments _ _ = Ok _ |- _ => apply documents_ok in E as [_ E] | E : classify_loop _ _ _ = Ok _ |- _ => apply classify_loop_ok in E as (Hids & Hc & Hn) end.
  eexists _, _, _, _. cbn [Records Counts]. split_and!; [done|done|rewrite Hids; apply all_ids_sorted|done|done|done| |].
  - intros k. rewrite Hids. apply all_ids_spec.
  - intros r Hr. by eapply classify_classified, Hc.
Qed.
End delta.
End CorpusDelta.
