(* ===== verification/CorpusRetention.v ===== *)
(** * Corpus retention plans (internal/corpus/retention_v1.go,
    retention_codec_v1.go, retention_apply_v1.go)

    A plan lists the sealed generations of a store, the current one and its
    retained predecessors as protected and all others as candidates for
    deletion.  This file has the plans and their checks; what applying one does
    to the store is in CorpusStore. *)

From stdpp Require Import vector.
From S2P Require Import Prelude GoText TextOrder Identifiers Encoding PullTypes CorpusTypes.
Import GoText TextOrder Identifiers Encoding CorpusTypes.

Module CorpusRetention.
Local Open Scope Z_scope.
Local Open Scope atl_scope.

Definition RetentionPolicySchemaV1 : Z := 1.
Definition RetentionPlanSchemaV1 : Z := 1.
Definition RetentionStatusSchemaV1 : Z := 1.
Definition MaxRetentionPlanBytesV1 : Z := 64 * 2 ^ 20.
Definition retentionPlanDigestDomain : text := txt "atl.corpus.retention-plan.v1".
Definition retentionUnsealedDigestDomain : text := txt "atl.corpus.retention-unsealed-inventory.v1".

Record RetentionPolicyV1 := { PolicySchema : Z; RetainPredecessors : Z }.
Record RetentionInventoryRecordV1 := { gid : text; gdigest : text; PredecessorGenerationID : text; PredecessorGenerationDigest : text; gtotals : Totals }.
Record RetentionGenerationRefV1 := { ref_id : text; ref_digest : text }.
(** [Candidates] is [None] for a nil slice; the other lists are never empty. *)
Record RetentionPlanV1 := {
  PlanSchema : Z; RootDigest : text; Current : Pointer; Policy : RetentionPolicyV1; Inventory : list RetentionInventoryRecordV1;
  Protected : list RetentionGenerationRefV1; Candidates : option (list RetentionGenerationRefV1); UnsealedStages : Z; UnsealedInventoryDigest : text; PlanDigest : text
}.
Record RetentionStatusV1 := {
  StatusSchema : Z; SealedGenerations : Z; ProtectedGenerations : Z; CandidateGenerations : Z; StatusUnsealed : Z; RemovedThisApply : Z; DeletedCandidates : Z;
  RemainingCandidates : Z; Complete : bool
}.
#[export] Instance record_eq : EqDecision RetentionInventoryRecordV1. Proof. solve_decision. Defined.
#[export] Instance ref_eq : EqDecision RetentionGenerationRefV1. Proof. solve_decision. Defined.

(** The entries of the generation directory with the file they are, and what
    they hold. *)
Record snapshot := { records : list RetentionInventoryRecordV1; unsealedIDs : list text; unsealedDigest : text; entries : gmap text nat }.

Definition retentionRef (r : RetentionInventoryRecordV1) : RetentionGenerationRefV1 := {| ref_id := gid r; ref_digest := gdigest r |}.
Definition by_id (rs : list RetentionInventoryRecordV1) : gmap text RetentionInventoryRecordV1 := foldl (λ m r, <[gid r := r]> m) ∅ rs.
Definition by_digest (rs : list RetentionInventoryRecordV1) : gmap text RetentionInventoryRecordV1 := foldl (λ m r, <[gdigest r := r]> m) ∅ rs.
Definition candidates (p : RetentionPlanV1) : list RetentionGenerationRefV1 := default [] (Candidates p).

Definition no_record : RetentionInventoryRecordV1 := {| gid := []; gdigest := []; PredecessorGenerationID := []; PredecessorGenerationDigest := []; gtotals := {| tMembers := 0; tBytes := 0 |} |}.

(** ** Validation *)

Definition validateRetentionPolicy (p : RetentionPolicyV1) (l : Limits) : checked unit :=
  let! _ := demand (PolicySchema p =? RetentionPolicySchemaV1) ReasonSchema in
  demand (negb ((RetainPredecessors p <? 1) || (MaxMembers l - 1 <? RetainPredecessors p))) ReasonBounds.
Definition retentionPlanByteLimit (l : Limits) : Z := if MaxManifestBytes l <? MaxRetentionPlanBytesV1 then MaxManifestBytes l else MaxRetentionPlanBytesV1.
Definition is_ok_ {A} (r : checked A) : bool := match r with Ok _ => true | Err _ => false end.

Definition record_ok (l : Limits) (r : RetentionInventoryRecordV1) : checked unit :=
  let! _ := demand (is_ok_ (validateGenerationID (gid r)) && isLowerSHA256 (gdigest r) &&
                    (eqt (PredecessorGenerationDigest r) [] || isLowerSHA256 (PredecessorGenerationDigest r)) &&
                    (eqt (PredecessorGenerationID r) [] || is_ok_ (validateGenerationID (PredecessorGenerationID r)))) ReasonDigest in
  let! _ := demand (eqt (PredecessorGenerationID r) [] ||
                    negb (eqt (PredecessorGenerationDigest r) [] || eqt (PredecessorGenerationID r) (gid r))) ReasonLineage in
  demand (negb ((tMembers (gtotals r) <? 0) || (MaxMembers l <? tMembers (gtotals r)) || (tBytes (gtotals r) <? 0) || (MaxTotalBytes l <? tBytes (gtotals r)))) ReasonBounds.
Fixpoint inventory_loop (l : Limits) (previous : option text) (digests : list text) (rs : list RetentionInventoryRecordV1) : checked unit :=
  match rs with
  | [] => Ok tt
  | r :: rs =>
      let! _ := record_ok l r in
      let! _ := demand (match previous with Some p => text_ltb p (gid r) | None => true end) ReasonMembership in
      let! _ := demand (negb (bool_decide (gdigest r ∈ digests))) ReasonDigest in
      inventory_loop l (Some (gid r)) (gdigest r :: digests) rs
  end.
(** A reference to a record of the inventory that is not yet in the partition. *)
Definition known (ids : gmap text RetentionInventoryRecordV1) (partition : list text) (r : RetentionGenerationRefV1) : checked unit :=
  let! _ := demand (match ids !! ref_id r with Some rec => eqt (gdigest rec) (ref_digest r) | None => false end) ReasonMembership in
  demand (negb (bool_decide (ref_id r ∈ partition))) ReasonMembership.
(** [previous] is the record of the protected generation before. *)
Fixpoint protected_loop (current : Pointer) (ids : gmap text RetentionInventoryRecordV1) (partition : list text) (previous : option RetentionInventoryRecordV1)
    (refs : list RetentionGenerationRefV1) : checked (list text) :=
  match refs with
  | [] => Ok partition
  | r :: refs =>
      let! _ := known ids partition r in
      let! _ := demand (match previous with
                        | None => eqt (ref_id r) (pGenerationID current) && eqt (ref_digest r) (pGenerationDigest current)
                        | Some p => eqt (PredecessorGenerationDigest p) (ref_digest r) && (eqt (PredecessorGenerationID p) [] || eqt (PredecessorGenerationID p) (ref_id r))
                        end) ReasonLineage in
      protected_loop current ids (ref_id r :: partition) (ids !! ref_id r) refs
  end.
Fixpoint candidates_loop (ids : gmap text RetentionInventoryRecordV1) (partition : list text) (previous : option text) (refs : list RetentionGenerationRefV1) : checked (list text) :=
  match refs with
  | [] => Ok partition
  | r :: refs =>
      let! _ := demand (match ids !! ref_id r with Some rec => eqt (gdigest rec) (ref_digest r) | None => false end) ReasonMembership in
      let! _ := demand (match previous with Some p => text_ltb p (ref_id r) | None => true end) ReasonMembership in
      let! _ := demand (negb (bool_decide (ref_id r ∈ partition))) ReasonMembership in
      candidates_loop ids (ref_id r :: partition) (Some (ref_id r)) refs
  end.
(** The oldest protected generation: a chain shorter than the policy asks for
    ends where the predecessor is not in the inventory. *)
Definition chain_ends (p : RetentionPlanV1) : bool :=
  match last (Protected p) ≫= λ r, by_id (Inventory p) !! ref_id r with
  | Some rec =>
      negb (zlen (Protected p) <=? RetainPredecessors (Policy p)) || eqt (PredecessorGenerationDigest rec) [] ||
      negb (bool_decide (is_Some (by_digest (Inventory p) !! PredecessorGenerationDigest rec)))
  | None => true
  end.
Definition validateRetentionPlan (p : RetentionPlanV1) (l : Limits) (requireDigest : bool) : checked unit :=
  let! _ := demand (PlanSchema p =? RetentionPlanSchemaV1) ReasonSchema in
  let! _ := demand (isLowerSHA256 (RootDigest p)) ReasonDigest in
  let! _ := validateRetentionPolicy (Policy p) l in
  let! _ := canonicalPointer (Current p) in
  let! _ := demand (negb ((length (Inventory p) =? 0)%nat || (MaxMembers l <? zlen (Inventory p)) || (length (Protected p) =? 0)%nat ||
                          (RetainPredecessors (Policy p) + 1 <? zlen (Protected p)) || (MaxMembers l <? zlen (candidates p)) || (UnsealedStages p <? 0) ||
                          (MaxMembers l <? UnsealedStages p) || negb (isLowerSHA256 (UnsealedInventoryDigest p)))) ReasonBounds in
  let! _ := inventory_loop l None [] (Inventory p) in
  let ids := by_id (Inventory p) in
  let! _ := demand (match ids !! pGenerationID (Current p) with Some c => eqt (gdigest c) (pGenerationDigest (Current p)) | None => false end) ReasonLineage in
  let! partition := protected_loop (Current p) ids [] None (Protected p) in
  let! _ := demand (chain_ends p) ReasonLineage in
  let! partition := candidates_loop ids partition None (candidates p) in
  let! _ := demand (zlen partition =? zlen (Inventory p)) ReasonMembership in
  if requireDigest then demand (isLowerSHA256 (PlanDigest p)) ReasonDigest else demand (eqt (PlanDigest p) []) ReasonDigest.

(** ** Canonical bytes *)

Definition json_policy (p : RetentionPolicyV1) : text := json_object [member "schema_version" (json_int (PolicySchema p)); member "retain_predecessors" (json_int (RetainPredecessors p))].
Definition json_record (r : RetentionInventoryRecordV1) : text :=
  json_object [member "generation_id" (json_string (gid r)); member "generation_digest" (json_string (gdigest r)); member_omitempty "predecessor_generation_id" (PredecessorGenerationID r);
    member_omitempty "predecessor_generation_digest" (PredecessorGenerationDigest r); member "totals" (json_totals (gtotals r))].
Definition json_ref (r : RetentionGenerationRefV1) : text := json_object [member "generation_id" (json_string (ref_id r)); member "generation_digest" (json_string (ref_digest r))].
Definition json_plan (p : RetentionPlanV1) : text :=
  json_object [member "schema_version" (json_int (PlanSchema p)); member "root_digest" (json_string (RootDigest p)); member "current" (json_pointer (Current p));
    member "policy" (json_policy (Policy p)); member "inventory" (json_array (map json_record (Inventory p))); member "protected" (json_array (map json_ref (Protected p)));
    member "candidates" (json_slice json_ref (Candidates p)); member "unsealed_stages" (json_int (UnsealedStages p));
    member "unsealed_inventory_digest" (json_string (UnsealedInventoryDigest p)); member "plan_digest" (json_string (PlanDigest p))].
Definition set_digest (digest : text) (p : RetentionPlanV1) : RetentionPlanV1 :=
  {| PlanSchema := PlanSchema p; RootDigest := RootDigest p; Current := Current p; Policy := Policy p; Inventory := Inventory p; Protected := Protected p; Candidates := Candidates p;
     UnsealedStages := UnsealedStages p; UnsealedInventoryDigest := UnsealedInventoryDigest p; PlanDigest := digest |}.

Section retention.
Variable sha256 : text → vec ascii 32.
Variable ToLower : text → text.

Definition retentionPlanDigest (p : RetentionPlanV1) : text := domainHash sha256 retentionPlanDigestDomain [marshalCanonical (json_plan (set_digest [] p))].
Definition retentionUnsealedInventoryDigest (ids : list text) : text := domainHash sha256 retentionUnsealedDigestDomain ids.
Definition CanonicalRetentionPlanV1 (p : RetentionPlanV1) (limits : Limits) : checked text :=
  let! l := normalizeLimits limits in
  let! _ := validateRetentionPlan p l true in
  let! _ := demand (eqt (retentionPlanDigest p) (PlanDigest p)) ReasonDigest in
  let data := marshalCanonical (json_plan p) in
  let! _ := demand (zlen data <=? retentionPlanByteLimit l) ReasonBounds in
  Ok data.
Definition ParseRetentionPlanV1 (unmarshal : text → option RetentionPlanV1) (data : text) (limits : Limits) : checked RetentionPlanV1 :=
  let! l := normalizeLimits limits in
  let! _ := readable data (retentionPlanByteLimit l) in
  let! p := decodeStrictObject ToLower unmarshal data in
  exactly data p (CanonicalRetentionPlanV1 p l).
Definition VerifyRetentionPlanV1 (p : RetentionPlanV1) (limits : Limits) : checked unit := let! _ := CanonicalRetentionPlanV1 p limits in Ok tt.
Definition Status (p : RetentionPlanV1) : RetentionStatusV1 :=
  {| StatusSchema := RetentionStatusSchemaV1; SealedGenerations := zlen (Inventory p); ProtectedGenerations := zlen (Protected p); CandidateGenerations := zlen (candidates p);
     StatusUnsealed := UnsealedStages p; RemovedThisApply := 0; DeletedCandidates := 0; RemainingCandidates := zlen (candidates p); Complete := (length (candidates p) =? 0)%nat |}.

(** ** Building a plan *)

Fixpoint distinct_digests (seen : list text) (rs : list RetentionInventoryRecordV1) : checked unit :=
  match rs with
  | [] => Ok tt
  | r :: rs => let! _ := demand (negb (bool_decide (gdigest r ∈ seen))) ReasonDigest in distinct_digests (gdigest r :: seen) rs
  end.
(** [more] predecessors are still to be protected. *)
Fixpoint protect (digests : gmap text RetentionInventoryRecordV1) (protectedIDs : list text) (more : nat) (current : RetentionInventoryRecordV1) : checked (list RetentionGenerationRefV1) :=
  let! _ := demand (negb (bool_decide (gid current ∈ protectedIDs))) ReasonLineage in
  match more with
  | O => Ok [retentionRef current]
  | S more =>
      if eqt (PredecessorGenerationDigest current) [] then Ok [retentionRef current]
      else
        match digests !! PredecessorGenerationDigest current with
        | None => reject ReasonLineage
        | Some p =>
            let! _ := demand (eqt (PredecessorGenerationID current) [] || eqt (PredecessorGenerationID current) (gid p)) ReasonLineage in
            let! rest := protect digests (gid current :: protectedIDs) more p in
            Ok (retentionRef current :: rest)
        end
  end.
Definition buildRetentionPlan (rootDigest : text) (pointer : Pointer) (policy : RetentionPolicyV1) (s : snapshot) (l : Limits) : checked RetentionPlanV1 :=
  let! _ := distinct_digests [] (records s) in
  let! current := match by_id (records s) !! pGenerationID pointer with
                  | Some c => if eqt (gdigest c) (pGenerationDigest pointer) then Ok c else reject ReasonLineage
                  | None => reject ReasonLineage
                  end in
  let! protected := protect (by_digest (records s)) [] (Z.to_nat (RetainPredecessors policy)) current in
  let plan := {| PlanSchema := RetentionPlanSchemaV1; RootDigest := rootDigest; Current := pointer; Policy := policy; Inventory := records s; Protected := protected;
                 Candidates := Some (map retentionRef (List.filter (λ r, negb (bool_decide (gid r ∈ map ref_id protected))) (records s)));
                 UnsealedStages := zlen (unsealedIDs s); UnsealedInventoryDigest := unsealedDigest s; PlanDigest := [] |} in
  let! _ := validateRetentionPlan plan l false in
  let plan := set_digest (retentionPlanDigest plan) plan in
  let! _ := CanonicalRetentionPlanV1 plan l in
  Ok plan.

(** ** Reconciling a plan with the store *)

Fixpoint unchanged_loop (original : gmap text RetentionInventoryRecordV1) (rs : list RetentionInventoryRecordV1) : checked unit :=
  match rs with
  | [] => Ok tt
  | r :: rs => let! _ := demand (bool_decide (original !! gid r = Some r)) ReasonConcurrent in unchanged_loop original rs
  end.
Definition reconcileRetentionApply (p : RetentionPlanV1) (s : snapshot) : checked (list RetentionInventoryRecordV1) :=
  let! _ := demand ((zlen (unsealedIDs s) =? UnsealedStages p) && eqt (unsealedDigest s) (UnsealedInventoryDigest p)) ReasonConcurrent in
  let! _ := unchanged_loop (by_id (Inventory p)) (records s) in
  let current := by_id (records s) in
  let! _ := demand (forallb (λ r, bool_decide (is_Some (current !! ref_id r))) (Protected p)) ReasonConcurrent in
  Ok (omap (λ r, if bool_decide (gid r ∈ map ref_id (candidates p)) then current !! gid r else None) (Inventory p)).
Definition retentionProtectedRecords (p : RetentionPlanV1) : list RetentionInventoryRecordV1 := map (λ r, default no_record (by_id (Inventory p) !! ref_id r)) (Protected p).
End retention.

(** ** What an accepted plan protects *)

Lemma by_id_spec rs k r : NoDup (gid <$> rs) → by_id rs !! k = Some r ↔ r ∈ rs ∧ gid r = k.
Proof. intros H. unfold by_id. rewrite foldl_insert_lookup by done. rewrite lookup_empty. naive_solver. Qed.
Lemma by_digest_spec rs k r : NoDup (gdigest <$> rs) → by_digest rs !! k = Some r ↔ r ∈ rs ∧ gdigest r = k.
Proof. intros H. unfold by_digest. rewrite foldl_insert_lookup by done. rewrite lookup_empty. naive_solver. Qed.

(** The generations a policy retains: the current one and what the digests of
    the predecessors lead to, as far as they are there. *)
Fixpoint lineage (rs : list RetentionInventoryRecordV1) (more : nat) (r : RetentionInventoryRecordV1) : list RetentionInventoryRecordV1 :=
  r :: match more with
       | O => []
       | S more => match list_find (λ p, gdigest p = PredecessorGenerationDigest r) rs with Some (_, p) => lineage rs more p | None => [] end
       end.
Definition listed (p : RetentionPlanV1) (r : RetentionInventoryRecordV1) : Prop := retentionRef r ∈ candidates p.

Lemma inventory_ok l previous digests rs : inventory_loop l previous digests rs = Ok tt →
  (∀ r, r ∈ rs → record_ok l r = Ok tt) ∧ rising previous (gid <$> rs) ∧ NoDup (gdigest <$> rs) ∧ ∀ r, r ∈ rs → gdigest r ∉ digests.
Proof.
  revert previous digests. induction rs as [|r rs IH]; intros previous digests H.
  - split_and!; [by intros r ?%elem_of_nil|destruct previous; repeat constructor|constructor|by intros r ?%elem_of_nil].
  - cbn [inventory_loop] in H. oks H. rewrite negb_true_iff, bool_decide_eq_false in E1. apply IH in H as (H1 & H2 & H3 & H4). split_and!.
    + by intros x [->|Hx]%elem_of_cons; [|apply H1].
    + by apply rising_cons.
    + cbn. constructor; [|done]. intros (x & Hx & Hin)%list_elem_of_fmap. by destruct (H4 x Hin); rewrite <- Hx; apply list_elem_of_here.
    + intros x [->|Hx]%elem_of_cons; [done|]. intros Hd. by apply (H4 x Hx), list_elem_of_further.
Qed.
Lemma rising_nodup l : rising None l → NoDup l.
Proof. apply sorted_nodup. Qed.

Section accepted.
Variable rs : list RetentionInventoryRecordV1.
Hypothesis Hids : NoDup (gid <$> rs).
Hypothesis Hdigests : NoDup (gdigest <$> rs).
Hypothesis Hnonempty : ∀ r, r ∈ rs → gdigest r ≠ [].

Lemma known_ok partition r : known (by_id rs) partition r = Ok tt → (∃ rec, rec ∈ rs ∧ r = retentionRef rec ∧ by_id rs !! ref_id r = Some rec) ∧ ref_id r ∉ partition.
Proof.
  unfold known. intros H. oks H. rewrite negb_true_iff, bool_decide_eq_false in H. split; [|done]. destruct (by_id rs !! ref_id r) as [rec|] eqn:Hr; [|done].
  apply eqt_true in E. exists rec. pose proof Hr as [Hin Hk]%by_id_spec; [|done]. split_and!; [done|destruct r; unfold retentionRef; cbn in *; congruence|done].
Qed.
Lemma digest_inj a b : a ∈ rs → b ∈ rs → gdigest a = gdigest b → a = b.
Proof.
  intros (i & Hi)%list_elem_of_lookup (j & Hj)%list_elem_of_lookup He. assert (i = j) as ->; [|congruence].
  eapply (NoDup_lookup (gdigest <$> rs)); [done|by rewrite list_lookup_fmap, Hi|by rewrite list_lookup_fmap, Hj, He].
Qed.
Lemma id_inj a b : a ∈ rs → b ∈ rs → gid a = gid b → a = b.
Proof.
  intros (i & Hi)%list_elem_of_lookup (j & Hj)%list_elem_of_lookup He. assert (i = j) as ->; [|congruence].
  eapply (NoDup_lookup (gid <$> rs)); [done|by rewrite list_lookup_fmap, Hi|by rewrite list_lookup_fmap, Hj, He].
Qed.
Lemma find_predecessor d r : r ∈ rs → gdigest r = d → ∃ i, list_find (λ p, gdigest p = d) rs = Some (i, r).
Proof.
  intros Hr Hd. destruct (list_find_elem_of (λ p, gdigest p = d) rs r Hr Hd) as [[i r'] Hf]. exists i. rewrite Hf.
  apply list_find_Some in Hf as (Hi & Hd' & _). do 2 f_equal. apply digest_inj; [by eapply list_elem_of_lookup_2|done|congruence].
Qed.

Lemma protected_partition current partition previous refs out : protected_loop current (by_id rs) partition previous refs = Ok out →
  out = reverse (ref_id <$> refs) ++ partition ∧ NoDup (ref_id <$> refs) ∧ (∀ r, r ∈ refs → (ref_id r ∉ partition) ∧ (∃ rec, rec ∈ rs ∧ r = retentionRef rec)).
Proof.
  revert partition previous. induction refs as [|r refs IH]; intros partition previous H.
  - injection H as <-. split_and!; [done|constructor|by intros r ?%elem_of_nil].
  - cbn [protected_loop] in H. oks H. destruct (known_ok _ _ E) as [(rec & Hin & Hr & Hl) Hn]. apply IH in H as (-> & Hnd & Hall). split_and!.
    + rewrite fmap_cons, reverse_cons, <- (assoc_L (++)). done.
    + cbn. constructor; [|done]. intros (x & Hx & Hxin)%list_elem_of_fmap. destruct (Hall x Hxin) as [Hx' _]. rewrite <- Hx in Hx'. set_solver.
    + intros x [->|Hx]%elem_of_cons; [eauto|]. destruct (Hall x Hx) as [Hx' ?]. set_solver.
Qed.
(** The protected generations after [p] follow its digests. *)
Lemma protected_lineage current partition p refs out n : p ∈ rs → protected_loop current (by_id rs) partition (Some p) refs = Ok out → (length refs ≤ n)%nat →
  (∀ rec, (last (retentionRef p :: refs) ≫= (λ r, by_id rs !! ref_id r)) = Some rec → (length refs < n)%nat → list_find (λ q, gdigest q = PredecessorGenerationDigest rec) rs = None) →
  retentionRef <$> lineage rs n p = retentionRef p :: refs.
Proof.
  revert partition p n. induction refs as [|r refs IH]; intros partition p n Hp H Hlen Hend.
  - destruct n as [|n]; [done|]. cbn [lineage fmap list_fmap]. f_equal. rewrite (Hend p); [done| |cbn; lia]. cbn. apply by_id_spec; [done|]. by split.
  - destruct n as [|n]; [cbn in Hlen; lia|]. cbn [protected_loop] in H. oks H. destruct (known_ok _ _ E) as [(rec & Hin & Hr & Hl) Hn]. apply andb_true_iff in E0 as [Hd _].
    apply eqt_true in Hd. cbn [lineage fmap list_fmap]. f_equal. destruct (find_predecessor (PredecessorGenerationDigest p) rec) as [i ->]; [done|by rewrite Hd, Hr|].
    rewrite Hl in H. rewrite Hr. apply (IH (ref_id r :: partition)); [done|done|cbn in Hlen; lia|]. intros x Hx Hlt. apply (Hend x); [|cbn; lia]. rewrite <- Hx, Hr. done.
Qed.
Lemma candidates_ok partition previous refs out : candidates_loop (by_id rs) partition previous refs = Ok out →
  out = reverse (ref_id <$> refs) ++ partition ∧ rising previous (ref_id <$> refs) ∧ (∀ r, r ∈ refs → (ref_id r ∉ partition) ∧ (∃ rec, rec ∈ rs ∧ r = retentionRef rec)).
Proof.
  revert partition previous. induction refs as [|r refs IH]; intros partition previous H.
  - injection H as <-. split_and!; [done|destruct previous; repeat constructor|by intros r ?%elem_of_nil].
  - cbn [candidates_loop] in H. oks H. assert (known (by_id rs) partition r = Ok tt) as Hk by (unfold known; by rewrite E, E1).
    destruct (known_ok _ _ Hk) as [(rec & Hin & Hr & Hl) Hn]. apply IH in H as (-> & Hnd & Hall). split_and!.
    + rewrite fmap_cons, reverse_cons, <- (assoc_L (++)). done.
    + by apply rising_cons.
    + intros x [->|Hx]%elem_of_cons; [eauto|]. destruct (Hall x Hx) as [Hx' ?]. set_solver.
Qed.
End accepted.

(** ** Accepted plans *)

Lemma record_ok_digest l r : record_ok l r = Ok tt → gdigest r ≠ [].
Proof. unfold record_ok. intros H. oks H. bool_hyps. intros He. unfold isLowerSHA256 in *. rewrite He in *. done. Qed.
Lemma inventory_facts l rs : inventory_loop l None [] rs = Ok tt → StronglySorted before (gid <$> rs) ∧ NoDup (gid <$> rs) ∧ NoDup (gdigest <$> rs) ∧ ∀ r, r ∈ rs → gdigest r ≠ [].
Proof.
  intros H. apply inventory_ok in H as (H1 & H2 & H3 & _). split_and!; [exact H2|by apply rising_nodup|done|].
  intros r Hr. eapply record_ok_digest. by apply H1.
Qed.
(** What a list refers to is decided by its ids. *)
Lemma refs_sorted_unique (l l' : list RetentionGenerationRefV1) : StronglySorted before (ref_id <$> l) → StronglySorted before (ref_id <$> l') → (∀ r, r ∈ l ↔ r ∈ l') → l = l'.
Proof. intros H H' Heq. apply (strict_unique ref_id); [done|done|]. apply NoDup_Permutation; [by eapply NoDup_fmap_1, sorted_nodup..|done]. Qed.

(** The retained generations of a plan. *)
Definition retained (p : RetentionPlanV1) (cur : RetentionInventoryRecordV1) : list RetentionInventoryRecordV1 := lineage (Inventory p) (Z.to_nat (RetainPredecessors (Policy p))) cur.
Definition retains (p : RetentionPlanV1) (cur r : RetentionInventoryRecordV1) : bool := bool_decide (r ∈ retained p cur).
Lemma lineage_in rs n r x : r ∈ rs → x ∈ lineage rs n r → x ∈ rs.
Proof.
  revert r. induction n as [|n IH]; intros r Hr; cbn [lineage]; rewrite elem_of_cons; intros [->|Hx]; try done; [by apply elem_of_nil in Hx|].
  destruct (list_find _ rs) as [[i q]|] eqn:Hf; [|by apply elem_of_nil in Hx]. apply list_find_Some in Hf as (Hi & _). eapply IH; [|exact Hx]. by eapply list_elem_of_lookup_2.
Qed.
Lemma ref_inj rs a b : NoDup (gid <$> rs) → a ∈ rs → b ∈ rs → retentionRef a = retentionRef b → a = b.
Proof. intros Hn Ha Hb H. injection H as H _. by eapply id_inj. Qed.

Lemma chain_ends_spec p : NoDup (gdigest <$> Inventory p) → (∀ r, r ∈ Inventory p → gdigest r ≠ []) → chain_ends p = true →
  ∀ rec, last (Protected p) ≫= (λ r, by_id (Inventory p) !! ref_id r) = Some rec → zlen (Protected p) ≤ RetainPredecessors (Policy p) →
  list_find (λ q, gdigest q = PredecessorGenerationDigest rec) (Inventory p) = None.
Proof.
  intros Hd Hne H rec Hr Hlen. unfold chain_ends in H. rewrite Hr in H. apply list_find_None, Forall_forall. intros q Hq He.
  apply orb_true_iff in H as [H|H]; [apply orb_true_iff in H as [H|H]|].
  - rewrite negb_true_iff, Z.leb_gt in H. lia.
  - apply eqt_true in H. apply (Hne q Hq). congruence.
  - rewrite negb_true_iff, bool_decide_eq_false in H. apply H. exists q. apply by_digest_spec; [done|]. by split.
Qed.
Lemma accepted_facts p l req : validateRetentionPlan p l req = Ok tt → ∃ cur, cur ∈ Inventory p ∧
  gid cur = pGenerationID (Current p) ∧ gdigest cur = pGenerationDigest (Current p) ∧
  Protected p = retentionRef <$> retained p cur ∧ candidates p = retentionRef <$> List.filter (λ r, negb (retains p cur r)) (Inventory p) ∧
  NoDup (gid <$> Inventory p).
Proof.
  unfold validateRetentionPlan. intros H. oks H. rename E4 into Hinv. apply inventory_facts in Hinv as (Hs & Hi & Hd & Hne).
  pose proof E6 as Hpart. eapply protected_partition in Hpart as (Ha0 & Hpn & Hpin); [|done..].
  eapply candidates_ok in E8 as (-> & Hcs & Hcin); [|done..]. rewrite app_nil_r in Ha0.
  destruct (by_id (Inventory p) !! pGenerationID (Current p)) as [cur|] eqn:Hcur; [|done]. apply eqt_true in E5. apply by_id_spec in Hcur as [Hin Hid]; [|done].
  assert (Protected p = retentionRef <$> retained p cur) as Hp.
  { pose proof (chain_ends_spec p Hd Hne E7) as Hend. destruct (Protected p) as [|r refs] eqn:Hpro; [by rewrite !orb_true_r in E3|]. cbn [protected_loop] in E6. oks E6.
    destruct (known_ok _ Hi _ _ E4) as [(rec & Hrin & Hr & Hl) _]. apply andb_true_iff in E8 as [Hc _]. apply eqt_true in Hc.
    assert (rec = cur) as -> by (eapply (id_inj (Inventory p)); [done|done|done|]; rewrite Hid, <- Hc, Hr; done). rewrite Hl in E6.
    unfold retained. rewrite Hr. symmetry. apply negb_true_iff in E3. bool_hyps. unfold zlen in *. cbn [length] in *.
    eapply protected_lineage; [done|done|done|exact E6|lia|]. intros x Hx Hlt. apply Hend; [by rewrite Hr|lia]. }
  exists cur. split_and!; try done.
  apply refs_sorted_unique.
  - exact Hcs.
  - rewrite <- list_fmap_compose. by apply (filter_rising gid).
  - assert (reverse (ref_id <$> candidates p) ++ a0 ≡ₚ gid <$> Inventory p) as Hperm.
    { apply submseteq_length_Permutation.
      - apply NoDup_submseteq.
        + rewrite Ha0, !reverse_Permutation. apply NoDup_app. split_and!; [by apply sorted_nodup| |done].
          intros x (r & -> & Hr)%list_elem_of_fmap Hx. destruct (Hcin r Hr) as [Hn _]. apply Hn. rewrite Ha0. by apply elem_of_reverse.
        + intros x [(r & -> & Hr)%elem_of_reverse%list_elem_of_fmap|Hx]%elem_of_app.
          * destruct (Hcin r Hr) as (_ & rec & Hrec & ->). apply list_elem_of_fmap. by exists rec.
          * rewrite Ha0 in Hx. apply elem_of_reverse, list_elem_of_fmap in Hx as (r & -> & Hr). destruct (Hpin r Hr) as (_ & rec & Hrec & ->). apply list_elem_of_fmap. by exists rec.
      - unfold zlen in E9. bool_hyps. rewrite length_fmap. lia. }
    assert (∀ rec, rec ∈ Inventory p → gid rec ∈ a0 ↔ rec ∈ retained p cur) as Hret.
    { intros rec Hrec. rewrite Ha0, elem_of_reverse, Hp, <- list_fmap_compose, list_elem_of_fmap. split.
      - intros (x & He & Hx). assert (rec = x) as ->; [|done]. eapply (id_inj (Inventory p)); [done|done| |done]. exact (lineage_in _ _ _ _ Hin Hx).
      - intros Hx. by exists rec. }
    intros r. rewrite list_elem_of_fmap. split.
    + intros Hr. destruct (Hcin r Hr) as (Hn & rec & Hrec & ->). exists rec. split; [done|]. apply list_elem_of_In, filter_In. split; [by apply list_elem_of_In|].
      unfold retains. apply negb_true_iff, bool_decide_eq_false. intros Hx. by apply Hn, Hret.
    + intros (rec & -> & Hrec). apply list_elem_of_In, filter_In in Hrec as [Hrec%list_elem_of_In Hx]. unfold retains in Hx. rewrite negb_true_iff, bool_decide_eq_false in Hx.
      assert (gid rec ∈ reverse (ref_id <$> candidates p) ++ a0) as Hg by (rewrite Hperm; apply list_elem_of_fmap; by exists rec).
      apply elem_of_app in Hg as [(r & He & Hr)%elem_of_reverse%list_elem_of_fmap|Hg]; [|by destruct Hx; apply Hret].
      destruct (Hcin r Hr) as (_ & rec' & Hrec' & ->). assert (rec = rec') as ->; [|done]. by eapply (id_inj (Inventory p)).
Qed.

(** C20: A plan that is accepted protects the current generation and the
    predecessors its policy retains, as far as the inventory still has them, and
    lists every other sealed generation, and nothing else, for deletion; there is
    no other plan for the same inventory and policy. *)
Theorem accepted_plan_exact sha256 ToLower unmarshal data limits p : ParseRetentionPlanV1 sha256 ToLower unmarshal data limits = Ok p →
  ∃ cur, cur ∈ Inventory p ∧ gid cur = pGenerationID (Current p) ∧ gdigest cur = pGenerationDigest (Current p) ∧
    Protected p = retentionRef <$> lineage (Inventory p) (Z.to_nat (RetainPredecessors (Policy p))) cur ∧
    candidates p = retentionRef <$> List.filter (λ r, bool_decide (r ∉ lineage (Inventory p) (Z.to_nat (RetainPredecessors (Policy p))) cur)) (Inventory p) ∧
    NoDup (gid <$> Inventory p) ∧ 1 ≤ RetainPredecessors (Policy p) ∧
    data = marshalCanonical (json_plan p) ∧ PlanDigest p = retentionPlanDigest sha256 p.
Proof.
  intros H. unfold ParseRetentionPlanV1, exactly in H. oks H. injection H as ->. apply eqt_true in E3. unfold CanonicalRetentionPlanV1 in E2. oks E2. injection E2 as <-.
  destruct (accepted_facts _ _ _ E5) as (cur & H1 & H2 & H3 & H4 & H5 & H6). exists cur. split_and!; try done.
  - rewrite H5. f_equal. apply filter_ext. intros r. unfold retains. by rewrite bool_decide_not.
  - unfold validateRetentionPlan, validateRetentionPolicy in E5. oks E5. oks E9. bool_hyps. lia.
  - symmetry. by apply eqt_true.
Qed.
End CorpusRetention.
