(* ===== verification/CorpusDisk.v ===== *)
(** * The file system under a corpus store (internal/corpus/scan.go)

    Files and directories by path, with the identity of the file behind each
    name, under system calls that the environment may let succeed, make fail, or
    stop the process in.  Only this process writes below the root; there are no
    symbolic links.  A loss of power is not modelled: a sync is a step like any
    other. *)

From stdpp Require Import pretty.
From S2P Require Import Prelude GoText TextOrder Identifiers CorpusTypes.
Import GoText TextOrder Identifiers CorpusTypes.

Module CorpusDisk.
Local Open Scope Z_scope.
Local Open Scope atl_scope.

(** ** Entries *)

Definition text_eq : EqDecision text := _.
Definition text_countable : Countable text := _.
(** A path below the root of the store, by its components; [[]] is the root. *)
Abbreviation path := (list text).
Definition path_eq : EqDecision path := _.
Definition path_countable : Countable path := _.
(** The number of a file, shared by its links; permissions; contents. *)
Inductive entry := EFile (ino : nat) (perm : Z) (data : text) | EDir (ino : nat) (perm : Z).
#[export] Instance entry_eq : EqDecision entry. Proof. solve_decision. Defined.
Abbreviation disk := (@gmap path path_eq path_countable entry).
Definition parent (p : path) : path := removelast p.
Definition is_dir (e : option entry) : bool := match e with Some (EDir _ _) => true | _ => false end.
Definition ino_of (e : entry) : nat := match e with EFile i _ _ => i | EDir i _ => i end.
(** [q] is [p] or below it. *)
Definition under (p q : path) : bool := bool_decide (p `prefix_of` q).
Definition strictly_under (p q : path) : bool := under p q && negb (bool_decide (p = q)).
Definition keys (d : disk) : list path := (map_to_list d).*1.
Definition empty_dir (d : disk) (p : path) : bool := negb (existsb (strictly_under p) (keys d)).
(** The names in a directory, in order. *)
Definition text_le (a b : text) : Prop := text_ltb b a = false.
#[export] Instance text_le_dec : RelDecision text_le. Proof. intros a b. unfold text_le. apply _. Defined.
Definition names (d : disk) (p : path) : list text :=
  merge_sort text_le (omap (λ q, match reverse q with n :: r => if bool_decide (reverse r = p) then Some n else None | [] => None end) (keys d)).
(** A directory with all below it goes to a new name. *)
Definition moved (a b q : path) : path := if under a q then b ++ drop (length a) q else q.
Definition move (a b : path) (d : disk) : disk := list_to_map ((λ e : path * entry, (moved a b e.1, e.2)) <$> map_to_list (filter (λ e : path * entry, under b e.1 = false) d)).
Definition remove_tree (p : path) (survives : path → bool) (d : disk) : disk := filter (λ e : path * entry, under p e.1 && negb (survives e.1) = false) d.
(** What a removal that stops half-way leaves: what is not gone, and the
    directories above it. *)
Definition left_over (gone : path → bool) (d : disk) (q : path) : bool := existsb (λ r, under q r && negb (gone r)) (keys d).

(** ** Steps *)

Inductive fault := Good | Bad | Kill.
Record env := { fault_at : nat → fault; cut_at : nat → nat; random_at : nat → text; gone_at : nat → path → bool; cancelled_at : nat → bool }.
Record world := { dsk : disk; inos : nat; tick : nat }.
Inductive outcome (A : Type) := Done (a : A) | Failed (e : corpusError) | Killed.
Arguments Done {A} a.
Arguments Failed {A} e.
Arguments Killed {A}.
Definition M (A : Type) : Type := env → world → world * outcome A.
#[export] Instance M_ret : MRet M := λ A a η w, (w, Done a).
#[export] Instance M_bind : MBind M := λ A B k m η w,
  match m η w with (w', Done a) => k a η w' | (w', Failed e) => (w', Failed e) | (w', Killed) => (w', Killed) end.
Definition throw {A : Type} (e : corpusError) : M A := λ η w, (w, Failed e).
Definition lift {A : Type} (r : checked A) : M A := match r with Ok a => mret a | Err e => throw e end.
Definition check (c : bool) (r : Reason) : M unit := lift (demand c r).
(** A result or an error as a value. *)
Definition try {A : Type} (m : M A) : M (A + corpusError) := λ η w,
  match m η w with (w', Done a) => (w', Done (inl a)) | (w', Failed e) => (w', Done (inr e)) | (w', Killed) => (w', Killed) end.
(** [defer] of a clean-up whose error is ignored. *)
Definition finally {A : Type} (m : M A) (c : M unit) : M A := λ η w,
  match m η w with
  | (w', Killed) => (w', Killed)
  | (w', r) => match c η w' with (w'', Killed) => (w'', Killed) | (w'', _) => (w'', r) end
  end.
Definition each {A : Type} (f : A → M unit) : list A → M unit := fix go l := match l with [] => mret tt | x :: l => f x ;; go l end.

(** The errors of system calls the code tells apart. *)
Inductive sysError := ENOENT | EEXIST | EOTHER.
Abbreviation sys A := (M (result sysError A)).
Definition next (d : disk) (w : world) : world := {| dsk := d; inos := S (inos w); tick := S (tick w) |}.
(** A system call: a world with the next file number and the next step, and what
    the call leaves if it fails or the process dies in it. *)
Definition call {A : Type} (partial : env → nat → disk → disk) (f : env → nat → nat → disk → disk * result sysError A) : sys A := λ η w,
  match fault_at η (tick w) with
  | Good => let '(d, r) := f η (tick w) (inos w) (dsk w) in (next d w, Done r)
  | Bad => (next (partial η (tick w) (dsk w)) w, Done (Err EOTHER))
  | Kill => (next (partial η (tick w) (dsk w)) w, Killed)
  end.
Definition observe {A : Type} (f : disk → result sysError A) : sys A := call (λ _ _ d, d) (λ _ _ _ d, (d, f d)).
Definition change {A : Type} (f : nat → disk → disk * result sysError A) : sys A := call (λ _ _ d, d) (λ _ _ i d, f i d).
(** An error of a call that is not looked at. *)
Definition or_reject {A : Type} (m : sys A) (r : Reason) : M A := x ← m; match x with Ok a => mret a | Err _ => throw (Integrity r) end.
(** A point at which a test may stop the code. *)
Definition hit (step : string) : M unit := or_reject (observe (λ _, Ok tt)) ReasonIO.
Definition contextError : M unit := λ η w, ({| dsk := dsk w; inos := inos w; tick := S (tick w) |}, if cancelled_at η (tick w) then Failed Stopped else Done tt).

(** ** System calls *)

Record info := { i_dir : bool; i_ino : nat; i_perm : Z; i_size : Z }.
#[export] Instance info_eq : EqDecision info. Proof. solve_decision. Defined.
Definition info_of (e : entry) : info :=
  match e with
  | EFile i m data => {| i_dir := false; i_ino := i; i_perm := m; i_size := zlen data |}
  | EDir i m => {| i_dir := true; i_ino := i; i_perm := m; i_size := 0 |}
  end.
Definition SameFile (a b : info) : bool := (i_ino a =? i_ino b)%nat.
Definition privateDirMode : Z := 448.
Definition privateFileMode : Z := 384.
Definition exactDirectoryMode (i : info) : bool := i_dir i && (i_perm i =? privateDirMode).
Definition exactRegularMode (i : info) (perm : Z) : bool := negb (i_dir i) && (i_perm i =? perm).

Definition lstat (p : path) : sys info := observe (λ d, match d !! p with Some e => Ok (info_of e) | None => Err ENOENT end).
(** A pinned directory: where it was opened and what it is. *)
Record root := { at_ : path; pinned : info }.
Definition OpenRoot (p : path) : sys root :=
  observe (λ d, match d !! p with Some (EDir i m) => Ok {| at_ := p; pinned := info_of (EDir i m) |} | Some _ => Err EOTHER | None => Err ENOENT end).
(** [Stat(".")] of a pinned directory, and of an opened file. *)
Definition stat_root (r : root) : sys info := observe (λ _, Ok (pinned r)).
Record file := { fpath : path; opened : entry }.
Definition open_file (p : path) : sys file := observe (λ d, match d !! p with Some e => Ok {| fpath := p; opened := e |} | None => Err ENOENT end).
Definition stat_file (f : file) : sys info := observe (λ _, Ok (info_of (opened f))).
Definition regularFileLinkCount (f : file) : sys nat :=
  observe (λ d, Ok (length (List.filter (λ e : path * entry, (ino_of e.2 =? ino_of (opened f))%nat) (map_to_list d)))).
Definition read_all (f : file) : sys text := observe (λ _, match opened f with EFile _ _ data => Ok data | EDir _ _ => Err EOTHER end).
Definition read_names (p : path) : sys (list text) := observe (λ d, if is_dir (d !! p) then Ok (names d p) else Err EOTHER).
Definition close : sys unit := observe (λ _, Ok tt).
Definition flush : sys unit := observe (λ _, Ok tt).
Definition mkdir (p : path) (perm : Z) : sys unit :=
  change (λ i d, match d !! p with
                 | Some _ => (d, Err EEXIST)
                 | None => if is_dir (d !! parent p) then (<[p := EDir i perm]> d, Ok tt) else (d, Err ENOENT)
                 end).
(** [O_CREATE|O_EXCL]. *)
Definition create (p : path) (perm : Z) : sys unit :=
  change (λ i d, match d !! p with
                 | Some _ => (d, Err EEXIST)
                 | None => if is_dir (d !! parent p) then (<[p := EFile i perm []]> d, Ok tt) else (d, Err ENOENT)
                 end).
Definition with_file (p : path) (f : Z → text → Z * text) (d : disk) : disk :=
  match d !! p with Some (EFile i perm data) => <[p := EFile i (f perm data).1 (f perm data).2]> d | _ => d end.
Definition write (p : path) (data : text) : sys unit :=
  call (λ η t d, with_file p (λ perm _, (perm, take (cut_at η t) data)) d) (λ _ _ _ d, (with_file p (λ perm _, (perm, data)) d, Ok tt)).
Definition chmod (p : path) (perm : Z) : sys unit := change (λ _ d, (with_file p (λ _ data, (perm, data)) d, Ok tt)).
Definition link (from to_ : path) : sys unit :=
  change (λ _ d, match d !! from with
                 | Some (EFile i perm data) => match d !! to_ with
                                               | Some _ => (d, Err EEXIST)
                                               | None => if is_dir (d !! parent to_) then (<[to_ := EFile i perm data]> d, Ok tt) else (d, Err ENOENT)
                                               end
                 | Some _ => (d, Err EOTHER)
                 | None => (d, Err ENOENT)
                 end).
Definition remove (p : path) : sys unit :=
  change (λ _ d, match d !! p with
                 | None => (d, Err ENOENT)
                 | Some (EFile _ _ _) => (delete p d, Ok tt)
                 | Some (EDir _ _) => if empty_dir d p then (delete p d, Ok tt) else (d, Err EOTHER)
                 end).
Definition RemoveAll (p : path) : sys unit :=
  call (λ η t d, remove_tree p (left_over (gone_at η t) d) d) (λ _ _ _ d, (remove_tree p (λ _, false) d, Ok tt)).
Definition rename (a b : path) : sys unit :=
  change (λ _ d, match d !! a with
                 | None => (d, Err ENOENT)
                 | Some e =>
                     if negb (is_dir (d !! parent b)) || under a b then (d, Err EOTHER)
                     else match e, d !! b with
                          | EDir _ _, Some (EDir _ _) => if empty_dir d b then (move a b d, Ok tt) else (d, Err EEXIST)
                          | EDir _ _, Some (EFile _ _ _) => (d, Err EOTHER)
                          | EFile _ _ _, Some (EDir _ _) => (d, Err EEXIST)
                          | _, _ => (move a b d, Ok tt)
                          end
                 end).
Definition random_token (bytes : nat) : sys text := call (λ _ _ d, d) (λ η t _ d, (d, Ok (take (2 * bytes) (random_at η t)))).

(** ** Directories and files with exact modes *)

(** [openVerifiedDirectory]; the caller closes it. *)
Definition openVerifiedDirectory (p : path) : M info :=
  i ← or_reject (lstat p) ReasonIO;
  check (exactDirectoryMode i) ReasonMode ;;
  f ← or_reject (open_file p) ReasonIO;
  j ← or_reject (stat_file f) ReasonConcurrent;
  check (SameFile i j && exactDirectoryMode j) ReasonConcurrent ;;
  mret i.
Definition unchanged_directory (p : path) (i : info) : M unit :=
  j ← or_reject (lstat p) ReasonConcurrent;
  check (SameFile i j && exactDirectoryMode j) ReasonConcurrent.
Definition verifiedDirectoryNames (p : path) : M (list text) :=
  i ← openVerifiedDirectory p;
  ns ← or_reject (read_names p) ReasonIO;
  or_reject close ReasonIO ;;
  unchanged_directory p i ;;
  mret ns.
Definition directoryIsEmpty (p : path) : M bool :=
  i ← openVerifiedDirectory p;
  ns ← or_reject (read_names p) ReasonIO;
  or_reject close ReasonIO ;;
  unchanged_directory p i ;;
  mret (length ns =? 0)%nat.
Definition verifyDirectory (p : path) : M unit :=
  i ← openVerifiedDirectory p;
  or_reject close ReasonIO ;;
  unchanged_directory p i.
Definition links_once (f : file) : M unit :=
  n ← or_reject (regularFileLinkCount f) ReasonIO;
  check (n =? 1)%nat ReasonType.
Definition verifyRegularFile (p : path) (perm : Z) : M unit :=
  r ← lstat p;
  i ← match r with Ok i => mret i | Err ENOENT => throw NotExist | Err _ => throw (Integrity ReasonIO) end;
  check (exactRegularMode i perm) ReasonMode ;;
  f ← or_reject (open_file p) ReasonIO;
  j ← or_reject (stat_file f) ReasonConcurrent;
  check (SameFile i j && exactRegularMode j perm) ReasonConcurrent ;;
  links_once f ;;
  k ← or_reject (lstat p) ReasonConcurrent;
  check (SameFile i k && exactRegularMode k perm) ReasonConcurrent ;;
  links_once f.
Definition syncDirectory (p : path) : sys unit :=
  r ← open_file p;
  match r with
  | Err e => mret (Err e)
  | Ok f => r ← stat_file f; match r with Ok i => if exactDirectoryMode i then flush else mret (Err EOTHER) | Err _ => mret (Err EOTHER) end
  end.
End CorpusDisk.
