(* ===== verification/CorpusLogic.v ===== *)
(** * Reasoning about a corpus disk

    What an operation leaves on the disk, for each of its outcomes and whatever
    fails or dies in it ([wp]); operations that keep a relation between the disk
    before and after ([keeps]), those that only read among them ([quiet]). *)

From S2P Require Import Prelude GoText TextOrder Identifiers CorpusTypes CorpusDisk.
Import GoText TextOrder Identifiers CorpusTypes CorpusDisk.

Module CorpusLogic.
Local Open Scope Z_scope.
Local Open Scope atl_scope.

(** ** Outcomes *)

Definition post (A : Type) : Type := outcome A → disk → Prop.
Definition wp {A} (m : M A) (Q : post A) (d : disk) : Prop := ∀ η w, dsk w = d → Q (m η w).2 (dsk (m η w).1).
Definition on_done {A} (Q : A → disk → Prop) : post A := λ o d, match o with Done a => Q a d | _ => True end.

Lemma wp_mono {A} (m : M A) (Q R : post A) d : wp m Q d → (∀ o d', Q o d' → R o d') → wp m R d.
Proof. intros H HR η w Hw. by apply HR, H. Qed.
Lemma wp_and {A} (m : M A) (Q R : post A) d : wp m Q d → wp m R d → wp m (λ o d', Q o d' ∧ R o d') d.
Proof. intros HQ HR η w Hw. split; auto. Qed.
Lemma wp_ret {A} (a : A) (Q : post A) d : Q (Done a) d → wp (mret a) Q d.
Proof. by intros H η w <-. Qed.
Lemma wp_throw {A} e (Q : post A) d : Q (Failed e) d → wp (throw e) Q d.
Proof. by intros H η w <-. Qed.
Lemma wp_bind {A B} (m : M A) (k : A → M B) (Q : post B) d :
  wp m (λ o d', match o with Done a => wp (k a) Q d' | Failed e => Q (Failed e) d' | Killed => Q Killed d' end) d → wp (m ≫= k) Q d.
Proof.
  intros H η w Hw. specialize (H η w Hw). unfold mbind, M_bind. destruct (m η w) as [w' [a|e|]]; cbn in *; try done. by apply H.
Qed.
Lemma wp_lift {A} (r : checked A) (Q : post A) d : (∀ a, r = Ok a → Q (Done a) d) → (∀ e, r = Err e → Q (Failed e) d) → wp (lift r) Q d.
Proof. intros H1 H2. destruct r; [apply wp_ret|apply wp_throw]; auto. Qed.
Lemma wp_check c r (Q : post unit) d : (c = true → Q (Done tt) d) → Q (Failed (Integrity r)) d → wp (check c r) Q d.
Proof. intros H1 H2. unfold check, demand. destruct c; [apply wp_ret|apply wp_throw]; auto. Qed.
Lemma wp_try {A} (m : M A) (Q : post (A + corpusError)) d :
  wp m (λ o d', match o with Done a => Q (Done (inl a)) d' | Failed e => Q (Done (inr e)) d' | Killed => Q Killed d' end) d → wp (try m) Q d.
Proof. intros H η w Hw. specialize (H η w Hw). unfold try. by destruct (m η w) as [w' [a|e|]]. Qed.
Lemma wp_finally {A} (m : M A) (c : M unit) (Q : post A) d :
  wp m (λ o d', match o with Killed => Q Killed d' | _ => wp c (λ o' d'', Q (match o' with Killed => Killed | _ => o end) d'') d' end) d → wp (finally m c) Q d.
Proof.
  intros H η w Hw. specialize (H η w Hw). unfold finally. destruct (m η w) as [w' [a|e|]]; cbn in *; try done.
  all: specialize (H η w' eq_refl); by destruct (c η w') as [w'' [[]|e'|]].
Qed.
Lemma wp_observe {A} (f : disk → result sysError A) (Q : post (result sysError A)) d :
  Q (Done (f d)) d → Q (Done (Err EOTHER)) d → Q Killed d → wp (observe f) Q d.
Proof. intros H1 H2 H3 η w <-. unfold observe, call. by destruct (fault_at η (tick w)). Qed.
Lemma wp_change {A} (f : nat → disk → disk * result sysError A) (Q : post (result sysError A)) d :
  (∀ i, Q (Done (f i d).2) (f i d).1) → Q (Done (Err EOTHER)) d → Q Killed d → wp (change f) Q d.
Proof. intros H1 H2 H3 η w <-. unfold change, call. destruct (fault_at η (tick w)); [|done..]. specialize (H1 (inos w)). by destruct (f (inos w) (dsk w)). Qed.
Lemma wp_call {A} (partial : env → nat → disk → disk) (f : env → nat → nat → disk → disk * result sysError A) (Q : post (result sysError A)) d :
  (∀ η t i, Q (Done (f η t i d).2) (f η t i d).1) → (∀ η t, Q (Done (Err EOTHER)) (partial η t d)) → (∀ η t, Q Killed (partial η t d)) → wp (call partial f) Q d.
Proof.
  intros H1 H2 H3 η w <-. unfold call. destruct (fault_at η (tick w)); [|apply H2|apply H3]. specialize (H1 η (tick w) (inos w)).
  by destruct (f η (tick w) (inos w) (dsk w)).
Qed.
Lemma wp_context (Q : post unit) d : Q (Done tt) d → Q (Failed Stopped) d → wp contextError Q d.
Proof. intros H1 H2 η w <-. unfold contextError. cbn. by destruct (cancelled_at η (tick w)). Qed.
Lemma wp_or_reject {A} (m : sys A) r (Q : post A) d :
  wp m (λ o d', match o with Done (Ok a) => Q (Done a) d' | Done (Err _) => Q (Failed (Integrity r)) d' | Failed e => Q (Failed e) d' | Killed => Q Killed d' end) d →
  wp (or_reject m r) Q d.
Proof. intros H. apply wp_bind. eapply wp_mono; [apply H|]. intros [[a|e]|e|] d' HQ; [by apply wp_ret|by apply wp_throw|done..]. Qed.

(** ** Relations an operation keeps *)

Definition keeps (R : disk → disk → Prop) {A} (m : M A) : Prop := ∀ d, wp m (λ _ d', R d d') d.
Abbreviation quiet := (keeps eq).

Section keeps.
Context {R : disk → disk → Prop} `{!PreOrder R}.
Lemma keeps_quiet {A} (m : M A) : quiet m → keeps R m.
Proof. intros H d. eapply wp_mono; [apply H|]. by intros o d' <-. Qed.
Lemma keeps_ret {A} (a : A) : keeps R (mret a).
Proof. intros d. by apply wp_ret. Qed.
Lemma keeps_throw {A} e : keeps R (throw (A:=A) e).
Proof. intros d. by apply wp_throw. Qed.
Lemma keeps_bind {A B} (m : M A) (k : A → M B) : keeps R m → (∀ a, keeps R (k a)) → keeps R (m ≫= k).
Proof.
  intros Hm Hk d. apply wp_bind. eapply wp_mono; [apply Hm|]. intros [a|e|] d' H; [|done..]. eapply wp_mono; [apply Hk|]. intros o d'' H'. by etrans.
Qed.
Lemma keeps_lift_bind {A B} (r : checked A) (k : A → M B) : (∀ a, r = Ok a → keeps R (k a)) → keeps R (lift r ≫= k).
Proof. intros H d. apply wp_bind, wp_lift; [|done]. intros a Ha. by apply H. Qed.
Lemma keeps_lift {A} (r : checked A) : keeps R (lift r).
Proof. intros d. by apply wp_lift. Qed.
Lemma keeps_check c r : keeps R (check c r).
Proof. apply keeps_lift. Qed.
Lemma keeps_check_bind {B} c r (k : unit → M B) : (c = true → keeps R (k tt)) → keeps R (check c r ≫= k).
Proof. intros H. apply keeps_lift_bind. intros [] Hc. apply H. by apply demand_ok in Hc. Qed.
Lemma keeps_try {A} (m : M A) : keeps R m → keeps R (try m).
Proof. intros H d. apply wp_try. eapply wp_mono; [apply H|]. by intros [] d'. Qed.
Lemma keeps_finally {A} (m : M A) (c : M unit) : keeps R m → keeps R c → keeps R (finally m c).
Proof.
  intros Hm Hc d. apply wp_finally. eapply wp_mono; [apply Hm|]. intros [a|e|] d' H; [..|done].
  all: eapply wp_mono; [apply Hc|]; intros o d'' H'; by etrans.
Qed.
Lemma keeps_observe {A} (f : disk → result sysError A) : keeps R (observe f).
Proof. intros d. by apply wp_observe. Qed.
Lemma keeps_change {A} (f : nat → disk → disk * result sysError A) : (∀ i d, R d (f i d).1) → keeps R (change f).
Proof. intros H d. by apply wp_change. Qed.
Lemma keeps_or_reject {A} (m : sys A) r : keeps R m → keeps R (or_reject m r).
Proof. intros H. apply keeps_bind; [done|]. intros []; [apply keeps_ret|apply keeps_throw]. Qed.
Lemma keeps_context : keeps R contextError.
Proof. intros d. by apply wp_context. Qed.
Lemma keeps_each {A} (f : A → M unit) l : (∀ x, x ∈ l → keeps R (f x)) → keeps R (each f l).
Proof.
  induction l as [|x l IH]; intros H; [apply keeps_ret|]. cbn. apply keeps_bind; [apply H; set_solver|]. intros _. apply IH. intros y Hy. apply H. set_solver.
Qed.
End keeps.
Create HintDb keep.
(** Follows the operation down to what the lemmas at hand know. *)
Ltac keep :=
  intros;
  lazymatch goal with
  | |- keeps _ (mbind _ _) => apply keeps_bind; [keep|keep]
  | |- keeps _ (mret _) => apply keeps_ret
  | |- keeps _ (throw _) => apply keeps_throw
  | |- keeps _ (try _) => apply keeps_try; keep
  | |- keeps _ (finally _ _) => apply keeps_finally; keep
  | |- keeps _ (or_reject _ _) => apply keeps_or_reject; keep
  | |- keeps _ (each _ _) => apply keeps_each; keep
  | |- keeps _ (let '(_, _) := ?x in _) => destruct x; keep
  | |- keeps _ (match ?x with _ => _ end) => destruct x; keep
  | |- keeps _ (lift _) => apply keeps_lift
  | |- keeps _ (check _ _) => apply keeps_check
  | |- keeps _ contextError => apply keeps_context
  | |- keeps _ (observe _) => apply keeps_observe
  | _ => solve [eauto with keep | apply keeps_quiet; eauto with keep]
  end.

(** ** What only reads *)

Lemma quiet_hit s : quiet (hit s).
Proof. unfold hit. keep. Qed.
Lemma quiet_lstat p : quiet (lstat p).
Proof. unfold lstat. keep. Qed.
Lemma quiet_OpenRoot p : quiet (OpenRoot p).
Proof. unfold OpenRoot. keep. Qed.
Lemma quiet_stat_root r : quiet (stat_root r).
Proof. unfold stat_root. keep. Qed.
Lemma quiet_open_file p : quiet (open_file p).
Proof. unfold open_file. keep. Qed.
Lemma quiet_stat_file f : quiet (stat_file f).
Proof. unfold stat_file. keep. Qed.
Lemma quiet_links f : quiet (regularFileLinkCount f).
Proof. unfold regularFileLinkCount. keep. Qed.
Lemma quiet_read_all f : quiet (read_all f).
Proof. unfold read_all. keep. Qed.
Lemma quiet_read_names p : quiet (read_names p).
Proof. unfold read_names. keep. Qed.
Lemma quiet_close : quiet close.
Proof. unfold close. keep. Qed.
Lemma quiet_flush : quiet flush.
Proof. unfold flush. keep. Qed.
Lemma quiet_random_token n : quiet (random_token n).
Proof. intros d. unfold random_token. by apply wp_call. Qed.
#[export] Hint Resolve quiet_hit quiet_lstat quiet_OpenRoot quiet_stat_root quiet_open_file quiet_stat_file quiet_links quiet_read_all quiet_read_names quiet_close quiet_flush quiet_random_token : keep.
Lemma quiet_openVerifiedDirectory p : quiet (openVerifiedDirectory p).
Proof. unfold openVerifiedDirectory. keep. Qed.
Lemma quiet_unchanged_directory p i : quiet (unchanged_directory p i).
Proof. unfold unchanged_directory. keep. Qed.
#[export] Hint Resolve quiet_openVerifiedDirectory quiet_unchanged_directory : keep.
Lemma quiet_verifiedDirectoryNames p : quiet (verifiedDirectoryNames p).
Proof. unfold verifiedDirectoryNames. keep. Qed.
Lemma quiet_directoryIsEmpty p : quiet (directoryIsEmpty p).
Proof. unfold directoryIsEmpty. keep. Qed.
Lemma quiet_verifyDirectory p : quiet (verifyDirectory p).
Proof. unfold verifyDirectory. keep. Qed.
Lemma quiet_links_once f : quiet (links_once f).
Proof. unfold links_once. keep. Qed.
#[export] Hint Resolve quiet_verifiedDirectoryNames quiet_directoryIsEmpty quiet_verifyDirectory quiet_links_once : keep.
Lemma quiet_verifyRegularFile p perm : quiet (verifyRegularFile p perm).
Proof. unfold verifyRegularFile. keep. Qed.
Lemma quiet_syncDirectory p : quiet (syncDirectory p).
Proof. unfold syncDirectory. keep. Qed.
#[export] Hint Resolve quiet_verifyRegularFile quiet_syncDirectory : keep.
(** ** What a rename and a removal change *)

Lemma under_app a s : under a (a ++ s) = true.
Proof. apply bool_decide_eq_true. by exists s. Qed.
Lemma under_split a q : under a q = true → ∃ s, q = a ++ s.
Proof. by intros [s ->]%bool_decide_eq_true; exists s. Qed.
Lemma under_both a b q : under a q = true → under b q = true → under a b = true ∨ under b a = true.
Proof. unfold under. rewrite !bool_decide_eq_true. apply prefix_weak_total. Qed.
Lemma under_apart a b s : under a b = false → under b a = false → under b (a ++ s) = false.
Proof. intros H1 H2. apply not_true_iff_false. intros H. destruct (under_both _ _ _ (under_app a s) H); congruence. Qed.
Lemma moved_app a b s : moved a b (a ++ s) = b ++ s.
Proof. unfold moved. by rewrite under_app, drop_app_length. Qed.
Lemma lookup_moved a b q : moved a b q = q ∧ under a q = false ∨ (∃ s, q = a ++ s ∧ moved a b q = b ++ s).
Proof. destruct (under a q) eqn:H; [right|left; by unfold moved; rewrite H]. apply under_split in H as [s ->]. exists s. by rewrite moved_app. Qed.

Section move.
Variables (a b : path) (d : disk).
Hypothesis a_b : under a b = false.
Hypothesis b_a : under b a = false.
Lemma moved_inj q q' : under b q = false → under b q' = false → moved a b q = moved a b q' → q = q'.
Proof.
  intros H H' He. destruct (lookup_moved a b q) as [[H1 H2]|(s & -> & H1)], (lookup_moved a b q') as [[H1' H2']|(s' & -> & H1')]; rewrite H1, H1' in He; subst; try done.
  - by rewrite under_app in H.
  - by rewrite under_app in H'.
  - by apply app_inv_head in He as ->.
Qed.
Lemma elem_of_move q e : move a b d !! q = Some e ↔ ∃ q', q = moved a b q' ∧ under b q' = false ∧ d !! q' = Some e.
Proof.
  unfold move. rewrite <- elem_of_list_to_map.
  - rewrite list_elem_of_fmap. split.
    + intros ([q' e'] & [= -> ->] & Hin%elem_of_map_to_list). apply map_lookup_filter_Some in Hin as [Hd Hb]. eauto.
    + intros (q' & -> & Hb & Hd). exists (q', e). split; [done|]. apply elem_of_map_to_list, map_lookup_filter_Some. done.
  - rewrite <- list_fmap_compose. apply NoDup_fmap_2_strong; [|apply NoDup_map_to_list].
    intros [q1 e1] [q2 e2] H1%elem_of_map_to_list H2%elem_of_map_to_list He. cbn in He.
    pose proof H1 as [Hd1 Hb1]%map_lookup_filter_Some. pose proof H2 as [Hd2 Hb2]%map_lookup_filter_Some.
    assert (q1 = q2) as <- by (by apply moved_inj). rewrite Hd1 in Hd2. congruence.
Qed.
Lemma move_target s : move a b d !! (b ++ s) = d !! (a ++ s).
Proof.
  apply option_eq. intros e. rewrite elem_of_move. split.
  - intros (q & Hq & Hb & Hd). destruct (lookup_moved a b q) as [[H1 H2]|(s' & -> & H1)]; rewrite H1 in Hq; [subst; by rewrite under_app in Hb|].
    by apply app_inv_head in Hq as ->.
  - intros Hd. exists (a ++ s). rewrite moved_app. split_and!; [done| |done]. by apply under_apart.
Qed.
Lemma move_source s : move a b d !! (a ++ s) = None.
Proof.
  apply eq_None_not_Some. intros [e He]. apply elem_of_move in He as (q & Hq & Hb & Hd). destruct (lookup_moved a b q) as [[H1 H2]|(s' & -> & H1)]; rewrite H1 in Hq.
  - subst. by rewrite under_app in H2.
  - assert (Hu : under b (a ++ s) = true) by (rewrite Hq; apply under_app). by rewrite under_apart in Hu.
Qed.
Lemma move_other q : under a q = false → under b q = false → move a b d !! q = d !! q.
Proof.
  intros Ha Hb. apply option_eq. intros e. rewrite elem_of_move. split.
  - intros (q' & Hq & Hb' & Hd). destruct (lookup_moved a b q') as [[H1 H2]|(s' & -> & H1)]; rewrite H1 in Hq; subst; [done|]. by rewrite under_app in Hb.
  - intros Hd. exists q. split_and!; [|done|done]. unfold moved. by rewrite Ha.
Qed.
End move.

Lemma remove_tree_other p survives d q : under p q = false → remove_tree p survives d !! q = d !! q.
Proof.
  intros H. apply option_eq. intros e. unfold remove_tree. rewrite map_lookup_filter_Some. cbn. rewrite H. naive_solver.
Qed.
Lemma remove_tree_below p d s : remove_tree p (λ _, false) d !! (p ++ s) = None.
Proof. apply eq_None_not_Some. intros [e He]. apply map_lookup_filter_Some in He as [_ He]. cbn in He. by rewrite under_app in He. Qed.

(** ** Operations that touch a few paths *)

Definition only (P : path → bool) (d d' : disk) : Prop := ∀ q, P q = false → d' !! q = d !! q.
#[export] Instance only_pre P : PreOrder (only P).
Proof. split; [by intros d q|]. intros d1 d2 d3 H1 H2 q Hq. rewrite H2, H1; done. Qed.
Lemma only_insert P p e d : P p = true → only P d (<[p := e]> d).
Proof. intros Hp q Hq. apply lookup_insert_ne. congruence. Qed.
Lemma only_with_file P p f d : P p = true → only P d (with_file p f d).
Proof. intros Hp. unfold with_file. destruct (d !! p) as [[]|]; [by apply only_insert|done..]. Qed.
Lemma only_mkdir P p perm : P p = true → keeps (only P) (mkdir p perm).
Proof. intros Hp. apply keeps_change. intros i d. destruct (d !! p); [done|]. destruct (is_dir _); [by apply only_insert|done]. Qed.
Lemma only_create P p perm : P p = true → keeps (only P) (create p perm).
Proof. intros Hp. apply keeps_change. intros i d. destruct (d !! p); [done|]. destruct (is_dir _); [by apply only_insert|done]. Qed.
Lemma only_write P p data : P p = true → keeps (only P) (write p data).
Proof. intros Hp d. apply wp_call; intros; by apply only_with_file. Qed.
Lemma only_chmod P p perm : P p = true → keeps (only P) (chmod p perm).
Proof. intros Hp. apply keeps_change. intros i d. by apply only_with_file. Qed.
Lemma only_link P a b : P b = true → keeps (only P) (link a b).
Proof.
  intros Hp. apply keeps_change. intros i d. destruct (d !! a) as [[]|]; [|done..]. destruct (d !! b); [done|]. destruct (is_dir _); [by apply only_insert|done].
Qed.
Lemma only_remove P p : P p = true → keeps (only P) (remove p).
Proof.
  intros Hp. apply keeps_change. intros i d q Hq. assert (p ≠ q) by congruence. destruct (d !! p) as [[]|]; [|destruct (empty_dir d p)|]; cbn; by rewrite ?lookup_delete_ne.
Qed.
Lemma only_RemoveAll P p : (∀ q, under p q = true → P q = true) → keeps (only P) (RemoveAll p).
Proof.
  intros Hp d. apply wp_call; intros; cbn; intros q Hq; (destruct (under p q) eqn:Hu; [by rewrite Hp in Hq|by apply remove_tree_other]).
Qed.
Lemma only_rename P a b : under b a = false → (∀ q, under a q = true → P q = true) → (∀ q, under b q = true → P q = true) → keeps (only P) (rename a b).
Proof.
  intros Hab Ha Hb. apply keeps_change. intros i d q Hq. destruct (d !! a) as [e|]; [|done]. destruct (_ || under a b) eqn:Hu; [done|].
  apply orb_false_iff in Hu as [_ Hu]. assert (Hm : move a b d !! q = d !! q).
  { apply move_other; try done; apply not_true_iff_false; intros H; [rewrite Ha in Hq|rewrite Hb in Hq]; done. }
  destruct e, (d !! b) as [[]|]; try done. by destruct (empty_dir d b).
Qed.
End CorpusLogic.
