(* ===== verification/CorpusStore.v ===== *)
(** * The corpus store (internal/corpus/store.go, scan.go, publication.go,
    retention_v1.go, retention_apply_v1.go, retention_quarantine_v1.go,
    root_identity.go)

    Staging and sealing a generation, verifying one, moving the pointer to it and
    deleting the ones a reviewed plan lists.  The store is open and only this
    process holds its publication lock; what a lock or a mutex waits for is not
    modelled. *)

From stdpp Require Import vector.
From S2P Require Import Prelude GoText TextOrder Identifiers Encoding PullTypes CorpusTypes CorpusIndexer CorpusDelta CorpusRetention CorpusDisk.
Import GoText TextOrder Identifiers Encoding CorpusTypes CorpusDisk.

Module CorpusStore.
Local Open Scope Z_scope.
Local Open Scope atl_scope.

(** ** Names *)

Definition generationsDir : text := txt "generations".
Definition artifactsDir : text := txt "artifacts".
Definition manifestFile : text := txt "manifest.v1.json".
Definition receiptFile : text := txt "receipt.v1.json".
Definition pointerFile : text := txt "current.v1.json".
Definition publishLock : text := txt ".publish.lock".
Definition maxStoredPointerBytes : Z := 4096.
Definition generationPath (id : text) : path := [generationsDir; id].
(** The hexadecimal digits of 16 bytes, in lower case. *)
Definition validGenerationID (id : text) : checked unit := demand ((length id =? 32)%nat && forallb is_lower_hex id) ReasonFormat.
Definition artifact (member : text) : path := artifactsDir :: PullTypes.components member.
Definition below (r : root) (rel : path) : path := at_ r ++ rel.
Definition retentionQuarantineFamilyPrefix : text := txt ".retention-quarantine".
Definition retentionQuarantinePrefix : text := retentionQuarantineFamilyPrefix ++ txt ".v1-".
Definition retentionQuarantineGenerationName (planDigest id : text) : text := retentionQuarantinePrefix ++ planDigest ++ txt "-" ++ id.
Definition retentionQuarantineGenerationPath (planDigest id : text) : path := [generationsDir; retentionQuarantineGenerationName planDigest id].
(** [None] for a name outside the family, an error for one of the family that
    is not exact. *)
Definition parseRetentionQuarantineName (name : text) : option (checked (text * text)) :=
  if negb (has_prefix name retentionQuarantineFamilyPrefix) then None
  else if negb (has_prefix name retentionQuarantinePrefix) then Some (reject ReasonFormat)
  else
    let rest := drop (length retentionQuarantinePrefix) name in
    if negb ((length rest =? 64 + 1 + 32)%nat && bool_decide (rest !! 64%nat = Some "-"%char)) then Some (reject ReasonFormat)
    else
      let planDigest := take 64 rest in let id := drop 65 rest in
      if negb (isLowerSHA256 planDigest && CorpusRetention.is_ok_ (validGenerationID id)) then Some (reject ReasonFormat) else Some (Ok (planDigest, id)).

Record Generation := { g_id : text; g_root : root; g_manifest : Manifest; g_receipt : Receipt }.
Record Stage := { st_id : text; st_members : list MemberSpec; st_bytes : Z; st_sealed : bool; st_failed : bool }.
Record SealOptions := {
  o_projection : Z; o_generator : text; o_build : text; o_predecessor : text; o_qualifications : list Qualification; o_tombstone : text
}.
Record scannedFile := { c_size : Z; c_mode : Z; c_sha256 : text }.
#[export] Instance scannedFile_eq : EqDecision scannedFile. Proof. solve_decision. Defined.
Record expectedFile := { x_member : option Member; x_exact : option text; x_limit : Z }.
Definition paths := gset path.
Record scan_state := { pending : list path; queued : gset path; seen_dirs : gset path; seen_files : gmap path scannedFile }.

(** [expectedDirectories]: the root of a generation, its artifacts and the
    directories of the members. *)
Definition member_directories (member : text) : list path := map (λ k, artifactsDir :: take k (PullTypes.components member)) (seq 1 (length (PullTypes.components member) - 1)).
Definition expectedDirectories (members : list text) : gset path := list_to_set ([] :: [artifactsDir] :: concat (map member_directories members)).

Section store.
Variable sha256 : text → vec ascii 32.
Variable SimpleFold : Z → Z.
Variable ToLower : text → text.
Variable unmarshalManifest : text → option Manifest.
Variable unmarshalReceipt : text → option Receipt.
Variable unmarshalPointer : text → option Pointer.
(** The limits the store was opened with. *)
Variable limits : Limits.

Definition digest_of (data : text) : text := hex_encode (vec_to_list (sha256 data)).

(** ** Reading (scan.go) *)

(** A file of 32 KiB pieces; a context that can end is looked at before each. *)
Definition read_pieces (stoppable : bool) (f : file) (size : Z) : M text :=
  each (λ _, if stoppable then contextError else mret tt) (seq 0 (Z.to_nat ((size + 32767) / 32768))) ;;
  or_reject (read_all f) ReasonConcurrent.
Definition inspectRegular (stoppable : bool) (p : path) (max : Z) : M (scannedFile * text) :=
  r ← lstat p;
  i ← match r with Ok i => mret i | Err ENOENT => throw NotExist | Err _ => throw (Integrity ReasonIO) end;
  check (exactRegularMode i privateFileMode) ReasonMode ;;
  check (negb ((i_size i <? 0) || (max <? i_size i))) ReasonBounds ;;
  f ← or_reject (open_file p) ReasonIO;
  j ← or_reject (stat_file f) ReasonConcurrent;
  check (SameFile i j && exactRegularMode j privateFileMode && (i_size j =? i_size i)) ReasonConcurrent ;;
  links_once f ;;
  data ← read_pieces stoppable f (i_size i);
  check (zlen data =? i_size i) ReasonConcurrent ;;
  k ← or_reject (stat_file f) ReasonConcurrent;
  check (SameFile i k && (i_size k =? i_size i) && exactRegularMode k privateFileMode) ReasonConcurrent ;;
  l ← or_reject (lstat p) ReasonConcurrent;
  check (SameFile i l && (i_size l =? i_size i) && exactRegularMode l privateFileMode) ReasonConcurrent ;;
  links_once f ;;
  mret ({| c_size := i_size i; c_mode := i_perm i; c_sha256 := digest_of data |}, data).
Definition readRegularBytes (p : path) (max : Z) : M text := r ← inspectRegular false p max; mret r.2.
Definition classifyExpectedFileError {A} (m : M A) : M A :=
  r ← try m; match r with inl a => mret a | inr NotExist => throw (Integrity ReasonMembership) | inr e => throw e end.
Definition readRequiredRegularBytes (p : path) (max : Z) : M text := classifyExpectedFileError (readRegularBytes p max).

(** ** Exact inventories *)

Definition matches (x : expectedFile) (actual : scannedFile) (data : text) : checked unit :=
  let! _ := demand (match x_exact x with Some exact => eqt data exact | None => true end) ReasonDigest in
  demand (match x_member x with Some m => (c_size actual =? mSize m) && (c_mode actual =? mMode m) && eqt (c_sha256 actual) (mSHA256 m) | None => true end) ReasonDigest.
Definition scan_entry (r : root) (directories : gset path) (files : gmap path expectedFile) (rel : path) (s : scan_state) (name : text) : M scan_state :=
  let child := rel ++ [name] in
  i ← or_reject (lstat (below r child)) ReasonConcurrent;
  if i_dir i then
    check (bool_decide (child ∈ directories)) ReasonMembership ;;
    check (bool_decide (child ∉ queued s)) ReasonMembership ;;
    mret {| pending := child :: pending s; queued := {[child]} ∪ queued s; seen_dirs := seen_dirs s; seen_files := seen_files s |}
  else
    x ← lift (match files !! child with Some x => Ok x | None => reject ReasonMembership end);
    check (bool_decide (seen_files s !! child = None)) ReasonMembership ;;
    a ← classifyExpectedFileError (inspectRegular true (below r child) (x_limit x));
    lift (matches x a.1 a.2) ;;
    mret {| pending := pending s; queued := queued s; seen_dirs := seen_dirs s; seen_files := <[child := a.1]> (seen_files s) |}.
Fixpoint scan_entries (r : root) (directories : gset path) (files : gmap path expectedFile) (rel : path) (s : scan_state) (ns : list text) : M scan_state :=
  match ns with [] => mret s | n :: ns => s ← scan_entry r directories files rel s n; scan_entries r directories files rel s ns end.
Definition scan_directory (r : root) (directories : gset path) (files : gmap path expectedFile) (rel : path) (s : scan_state) : M scan_state :=
  contextError ;;
  check (bool_decide (rel ∈ directories)) ReasonMembership ;;
  i ← openVerifiedDirectory (below r rel);
  ns ← or_reject (read_names (below r rel)) ReasonIO;
  s ← scan_entries r directories files rel s ns;
  or_reject close ReasonIO ;;
  unchanged_directory (below r rel) i ;;
  mret {| pending := pending s; queued := queued s; seen_dirs := {[rel]} ∪ seen_dirs s; seen_files := seen_files s |}.
(** Every directory of the inventory is scanned once. *)
Fixpoint scan_loop (fuel : nat) (r : root) (directories : gset path) (files : gmap path expectedFile) (s : scan_state) : M scan_state :=
  match pending s, fuel with
  | [], _ => mret s
  | _ :: _, O => throw (Integrity ReasonMembership)
  | rel :: rest, S fuel =>
      s ← scan_directory r directories files rel {| pending := rest; queued := queued s; seen_dirs := seen_dirs s; seen_files := seen_files s |};
      scan_loop fuel r directories files s
  end.
Definition scanExact (r : root) (directories : gset path) (files : gmap path expectedFile) : M (gmap path scannedFile) :=
  s ← scan_loop (S (size directories)) r directories files {| pending := [[]]; queued := {[ [] ]}; seen_dirs := ∅; seen_files := ∅ |};
  check ((size (seen_dirs s) =? size directories)%nat && (size (seen_files s) =? size files)%nat) ReasonMembership ;;
  mret (seen_files s).
Definition spec_ltb (a b : MemberSpec) : bool := tuple_ltb (spec_tuple a) (spec_tuple b).
Definition spec_le (a b : MemberSpec) : Prop := spec_ltb b a = false.
#[export] Instance spec_le_dec : RelDecision spec_le. Proof. intros a b. unfold spec_le. apply _. Defined.
Fixpoint distinct_specs (fold : text → text) (seen folded : list text) (ss : list MemberSpec) : checked unit :=
  match ss with
  | [] => Ok tt
  | s :: ss =>
      let! _ := demand (negb (bool_decide (sPath s ∈ seen))) ReasonMembership in
      let! _ := demand (negb (bool_decide (fold (sPath s) ∈ folded))) ReasonMembership in
      distinct_specs fold (sPath s :: seen) (fold (sPath s) :: folded) ss
  end.
Fixpoint distinct_tuples (previous : option tuple) (ss : list MemberSpec) : checked unit :=
  match ss with
  | [] => Ok tt
  | s :: ss => let! _ := demand (negb (bool_decide (previous = Some (spec_tuple s)))) ReasonMembership in distinct_tuples (Some (spec_tuple s)) ss
  end.
Definition member_file (l : Limits) : expectedFile := {| x_member := None; x_exact := None; x_limit := MaxMemberBytes l |}.
Definition scanned_member (scanned : gmap path scannedFile) (s : MemberSpec) : Member :=
  let a := default {| c_size := 0; c_mode := 0; c_sha256 := [] |} (scanned !! artifact (sPath s)) in
  {| mService := sService s; mStableID := sStableID s; mRole := sRole s; mPath := sPath s; mSize := c_size a; mMode := c_mode a; mSHA256 := c_sha256 a |}.
Definition scanStage (r : root) (specs : list MemberSpec) (manifest : option text) : M (list Member) :=
  lift (CorpusIndexer.all_pass (λ s, validateMemberSpec s limits) specs) ;;
  let ordered := merge_sort spec_le specs in
  lift (distinct_tuples None ordered) ;;
  lift (distinct_specs ToLower [] [] ordered) ;;
  let files := list_to_map (map (λ s, (artifact (sPath s), member_file limits)) ordered) in
  let files := match manifest with Some m => <[[manifestFile] := {| x_member := None; x_exact := Some m; x_limit := MaxManifestBytes limits |}]> files | None => files end in
  scanned ← scanExact r (expectedDirectories (map sPath ordered)) files;
  mret (map (scanned_member scanned) ordered).
Definition sealed_files (m : Manifest) (manifestBytes receiptBytes : text) : gmap path expectedFile :=
  <[[receiptFile] := {| x_member := None; x_exact := Some receiptBytes; x_limit := MaxManifestBytes limits |}]>
  (<[[manifestFile] := {| x_member := None; x_exact := Some manifestBytes; x_limit := MaxManifestBytes limits |}]>
   (list_to_map (map (λ m, (artifact (mPath m), {| x_member := Some m; x_exact := None; x_limit := MaxMemberBytes limits |})) (default [] (fMembers m))))).
Definition scanSealed (r : root) (m : Manifest) (manifestBytes receiptBytes : text) : M unit :=
  scanExact r (expectedDirectories (map mPath (default [] (fMembers m)))) (sealed_files m manifestBytes receiptBytes) ;; mret tt.

(** ** The store (store.go) *)

Definition ensureRoot : M unit :=
  a ← or_reject (lstat []) ReasonConcurrent;
  check (exactDirectoryMode a) ReasonConcurrent ;;
  r ← or_reject (OpenRoot []) ReasonConcurrent;
  check (SameFile a (pinned r) && exactDirectoryMode (pinned r)) ReasonConcurrent.
Definition ensureGenerationRoot (id : text) (r : root) : M unit :=
  ensureRoot ;;
  a ← or_reject (lstat (generationPath id)) ReasonConcurrent;
  check (exactDirectoryMode a) ReasonConcurrent ;;
  p ← or_reject (stat_root r) ReasonConcurrent;
  check (SameFile a p && exactDirectoryMode p) ReasonConcurrent.
Definition lockPublication : M unit :=
  i ← or_reject (lstat [publishLock]) ReasonMode;
  check (exactRegularMode i privateFileMode) ReasonMode ;;
  f ← or_reject (open_file [publishLock]) ReasonIO;
  j ← or_reject (stat_file f) ReasonConcurrent;
  check (SameFile i j && exactRegularMode j privateFileMode) ReasonConcurrent ;;
  n ← or_reject (regularFileLinkCount f) ReasonType;
  check (n =? 1)%nat ReasonType ;;
  or_reject flush ReasonIO.
Definition requireNoRetentionQuarantine : M unit :=
  ns ← verifiedDirectoryNames [generationsDir];
  if existsb (λ n, bool_decide (is_Some (parseRetentionQuarantineName n))) ns then throw ErrOutcomeUnknown else mret tt.
Definition verifyManifestReceipt_ (m : Manifest) (manifestBytes : text) (r : Receipt) : checked unit := verifyManifestReceipt sha256 SimpleFold m manifestBytes r.
Definition openGeneration (id : text) : M Generation :=
  contextError ;;
  ensureRoot ;;
  lift (validGenerationID id) ;;
  r ← or_reject (OpenRoot (generationPath id)) ReasonIO;
  ensureGenerationRoot id r ;;
  manifestBytes ← readRequiredRegularBytes (below r [manifestFile]) (MaxManifestBytes limits);
  m ← lift (parseManifest SimpleFold ToLower unmarshalManifest manifestBytes limits);
  receiptBytes ← readRequiredRegularBytes (below r [receiptFile]) (MaxManifestBytes limits);
  rc ← lift (parseReceipt sha256 ToLower unmarshalReceipt receiptBytes limits);
  lift (verifyManifestReceipt_ m manifestBytes rc) ;;
  scanSealed r m manifestBytes receiptBytes ;;
  ensureGenerationRoot id r ;;
  mret {| g_id := id; g_root := r; g_manifest := m; g_receipt := rc |}.
Definition readPointer : M (option Pointer) :=
  r ← try (readRegularBytes [pointerFile] maxStoredPointerBytes);
  match r with
  | inl data => p ← lift (parsePointer ToLower unmarshalPointer data); mret (Some p)
  | inr NotExist => mret None
  | inr e => throw e
  end.

(** *** Writing *)

Definition remove_quietly (p : path) : M unit := r ← remove p; mret tt.
(** The file and whether its name exists although the call failed. *)
Definition link_temp (temp target : path) (size : Z) : M (bool * option corpusError) :=
  r ← link temp target;
  match r with
  | Err EEXIST => mret (false, Some ErrAlreadyExists)
  | Err _ => mret (false, Some (Integrity ReasonIO))
  | Ok _ =>
      r ← remove temp;
      match r with
      | Err _ => mret (true, Some (Integrity ReasonIO))
      | Ok _ => v ← try (verifyRegularFile target privateFileMode); mret (true, match v with inl _ => None | inr e => Some e end)
      end
  end.
(** [written] is what the reader gives; no more than [max]+1 bytes are copied.
    A failure before the link leaves no name. *)
Definition writeExclusiveReader (stoppable : bool) (target : path) (data : text) (max : Z) : M (bool * option corpusError) :=
  (if stoppable then contextError else mret tt) ;;
  let dir := parent target in
  r ← or_reject (OpenRoot dir) ReasonIO;
  verifyDirectory dir ;;
  i ← lstat target;
  match i with Ok _ => throw ErrAlreadyExists | Err ENOENT => mret tt | Err _ => throw (Integrity ReasonIO) end ;;
  token ← or_reject (random_token 12) ReasonIO;
  let temp := dir ++ [txt ".add-" ++ token] in
  or_reject (create temp privateFileMode) ReasonIO ;;
  finally
    (let copied := if zlen data <=? max + 1 then data else take (Z.to_nat (max + 1)) data in
     w ← write temp copied;
     match w with Ok _ => mret tt | Err _ => (if stoppable then contextError else mret tt) ;; throw (Integrity ReasonIO) end ;;
     check (zlen copied <=? max) ReasonBounds ;;
     or_reject (chmod temp privateFileMode) ReasonIO ;;
     or_reject flush ReasonIO ;;
     or_reject close ReasonIO ;;
     link_temp temp target (zlen copied))
    (remove_quietly temp).
Definition writeExclusiveRegular (target : path) (data : text) : M (bool * option corpusError) := writeExclusiveReader false target data (zlen data).
(** The error of a write whose name does not matter. *)
Definition or_fail (m : M (bool * option corpusError)) : M unit := r ← m; match r.2 with Some e => throw e | None => mret tt end.
Definition or_io {A} (m : sys A) : M A := or_reject m ReasonIO.
Definition mkdir_if_missing (p : path) : M unit :=
  r ← mkdir p privateDirMode;
  match r with Ok _ | Err EEXIST => mret tt | Err _ => throw (Integrity ReasonIO) end ;;
  verifyDirectory p.
Definition ensureArtifactParents (r : root) (member : text) : M unit :=
  verifyDirectory (below r [artifactsDir]) ;;
  each (λ dir, mkdir_if_missing (below r dir)) (member_directories member).
(** The deepest directory first. *)
Definition syncArtifactPath (r : root) (member : text) : M unit :=
  each (λ dir, or_io (syncDirectory (below r dir))) (reverse ([] :: [artifactsDir] :: member_directories member)).
Definition openStageRoot (s : Stage) : M root :=
  ensureRoot ;;
  lift (validGenerationID (st_id s)) ;;
  r ← or_io (OpenRoot (generationPath (st_id s)));
  ensureGenerationRoot (st_id s) r ;;
  each (λ reserved, i ← lstat (below r [reserved]);
                    match i with Ok _ => throw ErrAlreadyExists | Err ENOENT => mret tt | Err _ => throw (Integrity ReasonIO) end) [manifestFile; receiptFile] ;;
  mret r.

Fixpoint begin_loop (attempts : nat) : M Stage :=
  match attempts with
  | O => throw ErrAlreadyExists
  | S attempts =>
      id ← or_io (random_token 16);
      let dir := generationPath id in
      r ← mkdir dir privateDirMode;
      match r with
      | Err EEXIST => begin_loop attempts
      | Err _ => throw (Integrity ReasonIO)
      | Ok _ =>
          r ← or_io (OpenRoot dir);
          verifyDirectory dir ;;
          or_io (mkdir (below r [artifactsDir]) privateDirMode) ;;
          verifyDirectory (below r [artifactsDir]) ;;
          or_io (syncDirectory (below r [artifactsDir])) ;;
          or_io (syncDirectory dir) ;;
          or_io close ;;
          or_io (syncDirectory [generationsDir]) ;;
          or_io (syncDirectory []) ;;
          mret {| st_id := id; st_members := []; st_bytes := 0; st_sealed := false; st_failed := false |}
      end
  end.
Definition Begin : M Stage := ensureRoot ;; lockPublication ;; requireNoRetentionQuarantine ;; begin_loop 8.

Definition failed (s : Stage) : Stage := {| st_id := st_id s; st_members := st_members s; st_bytes := st_bytes s; st_sealed := st_sealed s; st_failed := true |}.
Definition add_ (s : Stage) (spec : MemberSpec) (data : text) : M Stage :=
  (if st_sealed s || st_failed s then throw ErrAlreadyExists else mret tt) ;;
  check (negb ((MaxMembers limits <=? zlen (st_members s)) || (MaxTotalBytes limits <=? st_bytes s))) ReasonBounds ;;
  lift (validateMemberSpec spec limits) ;;
  (if bool_decide (spec_tuple spec ∈ map spec_tuple (st_members s)) || bool_decide (sPath spec ∈ map sPath (st_members s)) ||
      bool_decide (foldPath SimpleFold (sPath spec) ∈ map (λ m, foldPath SimpleFold (sPath m)) (st_members s)) then throw ErrAlreadyExists else mret tt) ;;
  r ← openStageRoot s;
  ensureArtifactParents r (sPath spec) ;;
  let remaining := MaxTotalBytes limits - st_bytes s in
  let maximum := if remaining <? MaxMemberBytes limits then remaining else MaxMemberBytes limits in
  or_fail (writeExclusiveReader true (below r (artifact (sPath spec))) data maximum) ;;
  hit "after_member_link" ;;
  syncArtifactPath r (sPath spec) ;;
  hit "after_member_sync" ;;
  ensureGenerationRoot (st_id s) r ;;
  mret {| st_id := st_id s; st_members := st_members s ++ [spec]; st_bytes := st_bytes s + zlen data; st_sealed := false; st_failed := false |}.
(** A stage that failed once cannot be used again. *)
Definition Add (s : Stage) (spec : MemberSpec) (data : text) : M (Stage * option corpusError) :=
  r ← try (add_ s spec data); match r with inl s => mret (s, None) | inr e => mret (failed s, Some e) end.

Definition totalsFor (ms : list Member) : Totals := {| tMembers := zlen ms; tBytes := foldl (λ b m, b + mSize m) 0 ms |}.
Definition nil_if_empty {A} (l : list A) : option (list A) := match l with [] => None | _ => Some l end.
(** An error after the receipt may exist hides what happened. *)
Definition unknown_if {A} (started : bool) (m : M A) : M A := r ← try m; match r with inl a => mret a | inr e => throw (if started then ErrOutcomeUnknown else e) end.
Definition manifest_of (o : SealOptions) (ms : list Member) : Manifest :=
  {| fSchemaVersion := ManifestSchemaV1; fProjectionSchema := o_projection o; fGeneratorVersion := o_generator o; fBuildState := o_build o; fPredecessorDigest := o_predecessor o;
     fQualifications := nil_if_empty (sort_on qService (o_qualifications o)); fTombstoneDigest := o_tombstone o; fMembers := Some ms; fTotals := totalsFor ms |}.
Definition receipt_of (m : Manifest) (manifestBytes inventory : text) : Receipt :=
  {| rSchemaVersion := ReceiptSchemaV1; rManifestSchema := ManifestSchemaV1; rProjectionSchema := fProjectionSchema m; rGeneratorVersion := fGeneratorVersion m; rBuildState := fBuildState m;
     rPredecessorDigest := fPredecessorDigest m; rQualifications := fQualifications m; rTombstoneDigest := fTombstoneDigest m; rTotals := fTotals m;
     ManifestDigest := manifestDigest sha256 manifestBytes; InventoryDigest := inventory; GenerationDigest := [] |}.
Definition with_generation_digest (digest : text) (r : Receipt) : Receipt :=
  {| rSchemaVersion := rSchemaVersion r; rManifestSchema := rManifestSchema r; rProjectionSchema := rProjectionSchema r; rGeneratorVersion := rGeneratorVersion r; rBuildState := rBuildState r;
     rPredecessorDigest := rPredecessorDigest r; rQualifications := rQualifications r; rTombstoneDigest := rTombstoneDigest r; rTotals := rTotals r;
     ManifestDigest := ManifestDigest r; InventoryDigest := InventoryDigest r; GenerationDigest := digest |}.
Definition seal_ (s : Stage) (o : SealOptions) : M Generation :=
  (if st_sealed s || st_failed s then throw ErrAlreadyExists else mret tt) ;;
  lockPublication ;;
  requireNoRetentionQuarantine ;;
  r ← openStageRoot s;
  first ← scanStage r (st_members s) None;
  hit "after_first_inventory" ;;
  let m := manifest_of o first in
  manifestBytes ← lift (canonicalManifest SimpleFold m limits);
  or_fail (writeExclusiveRegular (below r [manifestFile]) manifestBytes) ;;
  hit "after_manifest_link" ;;
  or_io (syncDirectory (at_ r)) ;;
  hit "after_manifest_sync" ;;
  hit "before_second_inventory" ;;
  second ← scanStage r (st_members s) (Some manifestBytes);
  check (bool_decide (first = second)) ReasonConcurrent ;;
  hit "after_second_inventory" ;;
  inventory ← lift (inventoryDigest sha256 SimpleFold (Some first));
  let rc := receipt_of m manifestBytes inventory in
  digest ← lift (generationDigest sha256 rc);
  let rc := with_generation_digest digest rc in
  receiptBytes ← lift (canonicalReceipt sha256 rc limits);
  hit "before_receipt_link" ;;
  l ← writeExclusiveRegular (below r [receiptFile]) receiptBytes;
  (match l with (true, Some _) => throw ErrOutcomeUnknown | (false, Some e) => throw e | (_, None) => mret tt end : M unit) ;;
  unknown_if true
    (hit "after_receipt_link" ;;
     or_io (syncDirectory (at_ r)) ;;
     hit "after_receipt_sync" ;;
     ensureGenerationRoot (st_id s) r ;;
     or_io close ;;
     hit "before_final_seal_verify" ;;
     openGeneration (st_id s)).
Definition Seal (s : Stage) (o : SealOptions) : M (Stage * (Generation + corpusError)) :=
  r ← try (seal_ s o);
  match r with
  | inl g => mret ({| st_id := st_id s; st_members := st_members s; st_bytes := st_bytes s; st_sealed := true; st_failed := st_failed s |}, inl g)
  | inr e => mret (failed s, inr e)
  end.

(** ** Publication (publication.go) *)

Definition revalidatePinnedGeneration (g : Generation) : M unit :=
  manifestBytes ← lift (canonicalManifest SimpleFold (g_manifest g) limits);
  receiptBytes ← lift (canonicalReceipt sha256 (g_receipt g) limits);
  scanSealed (g_root g) (g_manifest g) manifestBytes receiptBytes ;;
  ensureGenerationRoot (g_id g) (g_root g).
Definition syncAndRevalidatePinnedGeneration (g : Generation) : M unit :=
  hit "before_publish_target_sync" ;;
  or_io (syncDirectory (at_ (g_root g))) ;;
  hit "after_publish_target_sync" ;;
  revalidatePinnedGeneration g.
(** Whether the pointer was replaced although the call failed. *)
Definition replacePointer (data : text) : M unit :=
  token ← or_io (random_token 12);
  let temp := [txt ".current-" ++ token] in
  or_io (create temp privateFileMode) ;;
  finally
    (or_io (write temp data) ;;
     or_io (chmod temp privateFileMode) ;;
     or_io flush ;;
     or_io close ;;
     hit "after_pointer_temp_sync" ;;
     or_io (rename temp [pointerFile]))
    (remove_quietly temp).
Definition pointer_is (want : option Pointer) (reason : corpusError) : M unit :=
  p ← readPointer; if bool_decide (p = want) then mret tt else throw reason.
Definition digest_of_generation (g : Generation) : text := GenerationDigest (g_receipt g).
Definition current_digest (current : option Pointer) : M text :=
  match current with
  | None => mret []
  | Some c =>
      previous ← openGeneration (pGenerationID c);
      check (eqt (digest_of_generation previous) (pGenerationDigest c)) ReasonDigest ;;
      or_io close ;;
      mret (digest_of_generation previous)
  end.
Definition Publish (id : text) : M Generation :=
  ensureRoot ;;
  openGeneration id ;;
  lockPublication ;;
  ensureRoot ;;
  requireNoRetentionQuarantine ;;
  or_io close ;;
  hit "before_locked_target_open" ;;
  target ← openGeneration id;
  current ← readPointer;
  let pointer := {| pSchemaVersion := PointerSchemaV1; pGenerationID := id; pGenerationDigest := digest_of_generation target |} in
  if match current with Some c => eqt (pGenerationID c) id && eqt (pGenerationDigest c) (digest_of_generation target) | None => false end then
    syncAndRevalidatePinnedGeneration target ;;
    pointer_is current (Integrity ReasonConcurrent) ;;
    hit "before_idempotent_pointer_sync" ;;
    unknown_if true (or_io (syncDirectory []) ;; hit "after_pointer_sync" ;; pointer_is current ErrOutcomeUnknown) ;;
    mret target
  else
    predecessor ← current_digest current;
    (if eqt (rPredecessorDigest (g_receipt target)) predecessor then mret tt else throw ErrStalePredecessor) ;;
    pointerBytes ← lift (canonicalPointer pointer);
    hit "before_pointer_write" ;;
    syncAndRevalidatePinnedGeneration target ;;
    pointer_is current (Integrity ReasonConcurrent) ;;
    replacePointer pointerBytes ;;
    unknown_if true (hit "after_pointer_rename" ;; or_io (syncDirectory []) ;; hit "after_pointer_sync" ;; pointer_is (Some pointer) ErrOutcomeUnknown) ;;
    mret target.
Definition SelectCurrent : M Generation :=
  ensureRoot ;;
  p ← readPointer;
  match p with
  | None => throw ErrNoCurrent
  | Some p =>
      g ← openGeneration (pGenerationID p);
      check (eqt (digest_of_generation g) (pGenerationDigest p)) ReasonDigest ;;
      mret g
  end.
Definition ConfirmCurrent (g : Generation) : M unit :=
  contextError ;;
  ensureRoot ;;
  lockPublication ;;
  let want := {| pSchemaVersion := PointerSchemaV1; pGenerationID := g_id g; pGenerationDigest := digest_of_generation g |} in
  pointer_is (Some want) (Integrity ReasonConcurrent) ;;
  revalidatePinnedGeneration g ;;
  hit "after_confirm_current_revalidate" ;;
  pointer_is (Some want) (Integrity ReasonConcurrent).
End store.

(** ** A new store and an old one (store.go); a Unix system has what they need *)

Definition openPrivateStoreRoot : M root :=
  a ← or_reject (lstat []) ReasonMode;
  check (exactDirectoryMode a) ReasonMode ;;
  r ← or_io (OpenRoot []);
  p ← or_reject (stat_root r) ReasonConcurrent;
  check (SameFile a p && exactDirectoryMode p) ReasonConcurrent ;;
  mret r.
(** The store that results is its limits. *)
Definition Initialize (o : Limits) : M Limits :=
  l ← lift (normalizeLimits o);
  openPrivateStoreRoot ;;
  empty ← try (directoryIsEmpty []);
  match empty with inl e => check e ReasonMembership | inr _ => throw (Integrity ReasonIO) end ;;
  or_io (mkdir [generationsDir] privateDirMode) ;;
  verifyDirectory [generationsDir] ;;
  or_io (create [publishLock] privateFileMode) ;;
  or_io (chmod [publishLock] privateFileMode) ;;
  or_io flush ;;
  or_io close ;;
  verifyRegularFile [publishLock] privateFileMode ;;
  or_io (syncDirectory [generationsDir]) ;;
  or_io (syncDirectory []) ;;
  mret l.
Definition Open (o : Limits) : M Limits :=
  l ← lift (normalizeLimits o);
  openPrivateStoreRoot ;;
  verifyDirectory [generationsDir] ;;
  classifyExpectedFileError (verifyRegularFile [publishLock] privateFileMode) ;;
  mret l.
End CorpusStore.
