(* ===== verification/CorpusScan.v ===== *)
(** * Verified generations of a corpus store

    The theorem on [openGeneration]: a generation that opens is on the disk
    exactly as its manifest lists it. *)

From stdpp Require Import vector.
From S2P Require Import Prelude GoText TextOrder Identifiers Encoding PullTypes PullFacts CorpusTypes CorpusIndexer CorpusDelta CorpusRetention CorpusDisk CorpusLogic CorpusStore.
Import GoText TextOrder Identifiers Encoding CorpusTypes CorpusDisk CorpusLogic CorpusStore.

Module CorpusScan.
Local Open Scope Z_scope.
Local Open Scope atl_scope.

(** ** The combinators of the store *)

Section keeps.
Context {R : disk → disk → Prop} `{!PreOrder R}.
Lemma keeps_or_io {A} (m : sys A) : keeps R m → keeps R (or_io m).
Proof. apply keeps_or_reject. Qed.
Lemma keeps_unknown_if {A} b (m : M A) : keeps R m → keeps R (unknown_if b m).
Proof. intros H. unfold unknown_if. apply keeps_bind; [by apply keeps_try|]. intros []; [apply keeps_ret|apply keeps_throw]. Qed.
Lemma keeps_or_fail m : keeps R m → keeps R (or_fail m).
Proof. intros H. unfold or_fail. apply keeps_bind; [done|]. intros [? []]; [apply keeps_throw|apply keeps_ret]. Qed.
End keeps.
#[export] Hint Extern 1 (keeps _ (or_io _)) => apply keeps_or_io; keep : keep.
#[export] Hint Extern 1 (keeps _ (unknown_if _ _)) => apply keeps_unknown_if; keep : keep.
#[export] Hint Extern 1 (keeps _ (or_fail _)) => apply keeps_or_fail; keep : keep.

(** ** What reading finds *)

Definition finds {A} (m : M A) (Q : A → Prop) (d : disk) : Prop := wp m (λ o d', d' = d ∧ match o with Done a => Q a | _ => True end) d.
Lemma finds_mono {A} (m : M A) (P Q : A → Prop) d : finds m P d → (∀ a, P a → Q a) → finds m Q d.
Proof. intros H HPQ. eapply wp_mono; [apply H|]. intros [a|e|] d' [-> Ha]; auto. Qed.
Lemma finds_quiet {A} (m : M A) d : quiet m → finds m (λ _, True) d.
Proof. intros H. eapply wp_mono; [apply H|]. by intros [] d' <-. Qed.
Lemma finds_ret {A} (a : A) (Q : A → Prop) d : Q a → finds (mret a) Q d.
Proof. intros H. by apply wp_ret. Qed.
Lemma finds_throw {A} e (Q : A → Prop) d : finds (throw e) Q d.
Proof. by apply wp_throw. Qed.
Lemma finds_bind {A B} (m : M A) (k : A → M B) (P : A → Prop) Q d : finds m P d → (∀ a, P a → finds (k a) Q d) → finds (m ≫= k) Q d.
Proof. intros Hm Hk. apply wp_bind. eapply wp_mono; [apply Hm|]. intros [a|e|] d' [-> Ha]; [by apply Hk|done..]. Qed.
Lemma finds_lift {A} (r : checked A) d : finds (lift r) (λ a, r = Ok a) d.
Proof. by apply wp_lift. Qed.
Lemma finds_check c r d : finds (check c r) (λ _, c = true) d.
Proof. by apply wp_check. Qed.
Lemma finds_observe {A} (f : disk → result sysError A) d : finds (observe f) (λ r, r = f d ∨ r = Err EOTHER) d.
Proof. apply wp_observe; auto. Qed.
Lemma finds_or_reject {A} (f : disk → result sysError A) r d : finds (or_reject (observe f) r) (λ a, f d = Ok a) d.
Proof. eapply finds_bind; [apply finds_observe|]. intros [a|e] [H| H]; [by apply finds_ret|done|apply finds_throw..]. Qed.
Lemma finds_try {A} (m : M A) (Q : A → Prop) d : finds m Q d → finds (try m) (λ r, match r with inl a => Q a | inr _ => True end) d.
Proof. intros H. apply wp_try. eapply wp_mono; [apply H|]. by intros [] d' [-> HQ]. Qed.
(** One step of an operation, by what its lemma says or by nothing. *)
Tactic Notation "step" uconstr(lem) := eapply finds_bind; [eapply lem|cbn beta; intros ? ?].
Ltac skip := eapply finds_bind; [apply finds_quiet; keep|intros ? _].
Ltac sure := eapply finds_bind; [apply finds_check|cbn beta; intros [] ?].

Lemma info_dir e : exactDirectoryMode (info_of e) = true → ∃ i, e = EDir i 448.
Proof. unfold exactDirectoryMode. destruct e as [|i m]; [done|]. cbn. intros ->%Z.eqb_eq. eauto. Qed.
Lemma info_file e perm : exactRegularMode (info_of e) perm = true → ∃ i data, e = EFile i perm data.
Proof. unfold exactRegularMode. destruct e as [i m data|]; [|done]. cbn. intros ->%Z.eqb_eq. eauto. Qed.
Lemma finds_lstat p r d : finds (or_reject (lstat p) r) (λ i, ∃ e, d !! p = Some e ∧ i = info_of e) d.
Proof. eapply finds_mono; [apply finds_or_reject|]. cbn. intros i. destruct (d !! p); intros [=]. eauto. Qed.
Lemma finds_directory p d : finds (openVerifiedDirectory p) (λ _, ∃ i, d !! p = Some (EDir i 448)) d.
Proof. unfold openVerifiedDirectory. step finds_lstat. sure. skip. skip. sure. apply finds_ret. destruct H as (e & He & ->). destruct (info_dir e) as [i ->]; eauto. Qed.

Lemma elem_of_names d p n : n ∈ names d p ↔ is_Some (d !! (p ++ [n])).
Proof.
  unfold names. rewrite merge_sort_Permutation, list_elem_of_omap. split.
  - intros (q & Hq & Hn). unfold keys in Hq. apply list_elem_of_fmap in Hq as ([q' e] & -> & He). apply elem_of_map_to_list in He. cbn [fst] in *.
    destruct (reverse q') as [|n' r] eqn:Hr; [done|]. case_bool_decide as Hp; [|done]. injection Hn as <-.
    assert (q' = p ++ [n']) as <-; [|by rewrite He]. rewrite <- (reverse_involutive q'), Hr, reverse_cons. by rewrite Hp.
  - intros [e He]. exists (p ++ [n]). split.
    + unfold keys. apply list_elem_of_fmap. exists (p ++ [n], e). split; [done|]. by apply elem_of_map_to_list.
    + rewrite reverse_snoc, reverse_involutive. by rewrite bool_decide_eq_true_2.
Qed.
Lemma finds_names p r d : finds (or_reject (read_names p) r) (λ ns, ns = names d p) d.
Proof. eapply finds_mono; [apply finds_or_reject|]. cbn. intros ns. by destruct (is_dir _); intros [=]. Qed.

(** Every file and directory is in a directory. *)
Definition rooted (d : disk) : Prop := ∀ q e, d !! q = Some e → q ≠ [] → is_dir (d !! parent q) = true.

Section store.
Variable sha256 : text → vec ascii 32.
Variable SimpleFold : Z → Z.
Variable ToLower : text → text.
Variable unmarshalManifest : text → option Manifest.
Variable unmarshalReceipt : text → option Receipt.
Variable limits : Limits.

Lemma quiet_inspect stoppable p max : quiet (inspectRegular sha256 stoppable p max).
Proof. unfold inspectRegular, read_pieces. keep. Qed.
#[local] Hint Resolve quiet_inspect : keep.
Lemma quiet_readRegularBytes p max : quiet (readRegularBytes sha256 p max).
Proof. unfold readRegularBytes. keep. Qed.
#[local] Hint Resolve quiet_readRegularBytes : keep.
Lemma quiet_classify {A} (m : M A) : quiet m → quiet (classifyExpectedFileError m).
Proof. intros. unfold classifyExpectedFileError. keep. Qed.
#[local] Hint Resolve quiet_classify : keep.
Lemma quiet_readRequired p max : quiet (readRequiredRegularBytes sha256 p max).
Proof. unfold readRequiredRegularBytes. keep. Qed.
Lemma quiet_readPointer unmarshal : quiet (readPointer sha256 ToLower unmarshal).
Proof. unfold readPointer. keep. Qed.
Lemma quiet_scan_entry r ds fs rel s n : quiet (scan_entry sha256 r ds fs rel s n).
Proof. unfold scan_entry. keep. Qed.
#[local] Hint Resolve quiet_readRequired quiet_readPointer quiet_scan_entry : keep.
Lemma quiet_scan_entries r ds fs rel ns : ∀ s, quiet (scan_entries sha256 r ds fs rel s ns).
Proof. induction ns; cbn [scan_entries]; keep. Qed.
#[local] Hint Resolve quiet_scan_entries : keep.
Lemma quiet_scan_directory r ds fs rel s : quiet (scan_directory sha256 r ds fs rel s).
Proof. unfold scan_directory. keep. Qed.
#[local] Hint Resolve quiet_scan_directory : keep.
Lemma quiet_scan_loop r ds fs fuel : ∀ s, quiet (scan_loop sha256 fuel r ds fs s).
Proof. induction fuel; cbn [scan_loop]; keep. Qed.
#[local] Hint Resolve quiet_scan_loop : keep.
Lemma quiet_scanExact r ds fs : quiet (scanExact sha256 r ds fs).
Proof. unfold scanExact. keep. Qed.
#[local] Hint Resolve quiet_scanExact : keep.
Lemma quiet_scanSealed r m mb rb : quiet (scanSealed sha256 limits r m mb rb).
Proof. unfold scanSealed. keep. Qed.
Lemma quiet_scanStage r specs mb : quiet (scanStage sha256 ToLower limits r specs mb).
Proof. unfold scanStage. keep. Qed.
Lemma quiet_ensureRoot : quiet ensureRoot.
Proof. unfold ensureRoot. keep. Qed.
#[local] Hint Resolve quiet_scanSealed quiet_scanStage quiet_ensureRoot : keep.
Lemma quiet_ensureGenerationRoot id r : quiet (ensureGenerationRoot id r).
Proof. unfold ensureGenerationRoot. keep. Qed.
Lemma quiet_lockPublication : quiet lockPublication.
Proof. unfold lockPublication. keep. Qed.
Lemma quiet_requireNoRetentionQuarantine : quiet requireNoRetentionQuarantine.
Proof. unfold requireNoRetentionQuarantine. keep. Qed.
#[local] Hint Resolve quiet_ensureGenerationRoot quiet_lockPublication quiet_requireNoRetentionQuarantine : keep.
Lemma quiet_openGeneration id : quiet (openGeneration sha256 SimpleFold ToLower unmarshalManifest unmarshalReceipt limits id).
Proof. unfold openGeneration. keep. Qed.
Lemma quiet_revalidate g : quiet (revalidatePinnedGeneration sha256 SimpleFold limits g).
Proof. unfold revalidatePinnedGeneration. keep. Qed.
(** ** A file, a directory, a tree *)

Definition scanned (data : text) : scannedFile := {| c_size := zlen data; c_mode := 384; c_sha256 := digest_of sha256 data |}.
Lemma finds_inspect stoppable p max d :
  finds (inspectRegular sha256 stoppable p max) (λ x, ∃ i data, d !! p = Some (EFile i 384 data) ∧ x = (scanned data, data) ∧ zlen data ≤ max) d.
Proof.
  unfold inspectRegular. step finds_observe. eapply (finds_bind _ _ (λ i, ∃ e, d !! p = Some e ∧ i = info_of e)).
  { destruct a as [i|[]]; try apply finds_throw. apply finds_ret. destruct H as [H|H]; [|done]. destruct (d !! p); [|done]. injection H as ->. eauto. }
  intros i (e & He & ->). sure. destruct (info_file _ _ H0) as (ino & data & ->). sure. step finds_or_reject. cbn in H2. rewrite He in H2. injection H2 as <-.
  skip. sure. eapply finds_bind; [apply finds_quiet; keep|intros _ _].
  eapply (finds_bind _ _ (λ x, x = data)).
  { unfold read_pieces. eapply finds_bind; [apply finds_quiet; keep|intros _ _]. eapply finds_mono; [apply finds_or_reject|]. cbn. by intros ? [=]. }
  intros x ->. sure. skip. sure. skip. sure. eapply finds_bind; [apply finds_quiet; keep|intros _ _]. apply finds_ret. exists ino, data. split; [done|]. split; [done|].
  apply negb_true_iff, orb_false_iff in H1 as [_ H1]. cbn in H1. lia.
Qed.
Lemma finds_classify {A} (m : M A) Q d : finds m Q d → finds (classifyExpectedFileError m) Q d.
Proof. intros H. unfold classifyExpectedFileError. step finds_try; [exact H|]. destruct a as [a|[]]; by (apply finds_ret || apply finds_throw). Qed.
Lemma finds_required p max d : finds (readRequiredRegularBytes sha256 p max) (λ data, ∃ i, d !! p = Some (EFile i 384 data) ∧ zlen data ≤ max) d.
Proof.
  unfold readRequiredRegularBytes, readRegularBytes. apply finds_classify. step finds_inspect. apply finds_ret. destruct H as (i & data & H & -> & Hm). eauto.
Qed.

Section scan.
Variable d : disk.
Variable r : root.
Variable directories : gset path.
Variable files : gmap path expectedFile.
Abbreviation at_rel rel := (d !! below r rel).

(** The entry of a name has been looked at. *)
Definition covered (s : scan_state) (rel : path) (n : text) : Prop :=
  ∀ e, at_rel (rel ++ [n]) = Some e → if is_dir (Some e) then rel ++ [n] ∈ queued s else is_Some (seen_files s !! (rel ++ [n])).
Definition good_file (rel : path) (f : scannedFile) : Prop :=
  ∃ i data x, at_rel rel = Some (EFile i 384 data) ∧ f = scanned data ∧ files !! rel = Some x ∧ matches x f data = Ok tt ∧ zlen data ≤ x_limit x.
Definition good_dir (s : scan_state) (rel : path) : Prop := (∃ i, at_rel rel = Some (EDir i 448)) ∧ ∀ n, covered s rel n.
(** [extra] are taken from the pending ones and not yet seen. *)
Definition scan_inv (extra : gset path) (s : scan_state) : Prop :=
  [] ∈ queued s ∧ (∀ q, q ∈ queued s → q ∈ seen_dirs s ∨ q ∈ pending s ∨ q ∈ extra) ∧ seen_dirs s ⊆ directories ∧
  (∀ rel, rel ∈ seen_dirs s → good_dir s rel) ∧ (∀ rel f, seen_files s !! rel = Some f → good_file rel f).
Definition grows (s s' : scan_state) : Prop := queued s ⊆ queued s' ∧ seen_files s ⊆ seen_files s' ∧ seen_dirs s' = seen_dirs s.
#[local] Instance grows_pre : PreOrder grows.
Proof. split; [by intros s|]. intros s1 s2 s3 (H1 & H2 & H3) (H1' & H2' & H3'). split_and!; [set_solver|by etrans|congruence]. Qed.
Lemma covered_grows s s' rel n : grows s s' → covered s rel n → covered s' rel n.
Proof.
  intros (Hq & Hf & _) H e He. specialize (H e He). destruct (is_dir (Some e)); [set_solver|]. destruct H as [f Hs]. exists f. by eapply lookup_weaken.
Qed.
Lemma good_dir_grows s s' rel : grows s s' → good_dir s rel → good_dir s' rel.
Proof. intros Hg [Hd Hc]. split; [done|]. intros n. by eapply covered_grows. Qed.

Lemma finds_scan_entry extra rel s n :
  is_Some (at_rel (rel ++ [n])) → scan_inv extra s → finds (scan_entry sha256 r directories files rel s n) (λ s', scan_inv extra s' ∧ grows s s' ∧ covered s' rel n) d.
Proof.
  intros [e He] (H0 & Hq & Hs & Hd & Hf). unfold scan_entry. step finds_lstat. destruct H as (e' & He' & ->). rewrite He in He'. injection He' as <-.
  destruct e as [ino perm data|ino perm]; cbn [info_of i_dir].
  - eapply (finds_bind _ _ (λ x, files !! (rel ++ [n]) = Some x)).
    { eapply finds_mono; [apply finds_lift|]. intros x. by destruct (files !! _) as [y|]; intros [=]; subst. }
    intros x Hx. sure. apply bool_decide_eq_true in H. step finds_classify; [apply finds_inspect|]. destruct H1 as (i & dt & Hi & -> & Hl).
    rewrite He in Hi. injection Hi as -> -> ->. step finds_lift. destruct a. apply finds_ret. cbn [fst] in *.
    assert (Hg : grows s {| pending := pending s; queued := queued s; seen_dirs := seen_dirs s; seen_files := <[rel ++ [n] := scanned dt]> (seen_files s) |}).
    { split_and!; [done| |done]. cbn. by apply insert_subseteq. }
    split_and!; [|done|].
    + split_and!; cbn; [done..| |].
      * intros q Hq'. eapply good_dir_grows; [exact Hg|]. by apply Hd.
      * intros q f. destruct (decide (q = rel ++ [n])) as [->|Hne]; [|rewrite lookup_insert_ne by done; apply Hf].
        rewrite lookup_insert_eq. intros [= <-]. exists i, dt, x. done.
    + intros e He'. rewrite He in He'. injection He' as <-. cbn. rewrite lookup_insert_eq. eauto.
  - sure. sure. apply bool_decide_eq_true in H, H1. apply finds_ret.
    assert (Hg : grows s {| pending := (rel ++ [n]) :: pending s; queued := {[rel ++ [n]]} ∪ queued s; seen_dirs := seen_dirs s; seen_files := seen_files s |}).
    { split_and!; [set_solver|done..]. }
    split_and!; [|done|].
    + split_and!; cbn; [set_solver| |done| |done].
      * intros q [->%elem_of_singleton|Hq']%elem_of_union; [set_solver|]. destruct (Hq q Hq') as [|[|]]; set_solver.
      * intros q Hq'. eapply good_dir_grows; [exact Hg|]. by apply Hd.
    + intros e He'. rewrite He in He'. injection He' as <-. cbn. set_solver.
Qed.
Lemma finds_scan_entries extra rel ns : ∀ s, (∀ n, n ∈ ns → is_Some (at_rel (rel ++ [n]))) → scan_inv extra s →
  finds (scan_entries sha256 r directories files rel s ns) (λ s', scan_inv extra s' ∧ grows s s' ∧ ∀ n, n ∈ ns → covered s' rel n) d.
Proof.
  induction ns as [|n ns IH]; intros s Hn Hs; cbn [scan_entries]; [apply finds_ret; split_and!; [done|done|set_solver]|].
  step finds_scan_entry; [apply Hn; set_solver|exact Hs|]. destruct H as (Hi & Hg & Hc). eapply finds_mono; [apply IH; [set_solver|done]|].
  intros s' (Hi' & Hg' & Hc'). split_and!; [done|by etrans|]. intros m [->|Hm]%elem_of_cons; [by eapply covered_grows|auto].
Qed.
Lemma below_child rel n : below r (rel ++ [n]) = below r rel ++ [n].
Proof. unfold below. by rewrite app_assoc. Qed.
Lemma finds_scan_directory rel s : scan_inv {[rel]} s → finds (scan_directory sha256 r directories files rel s) (λ s', scan_inv ∅ s') d.
Proof.
  intros Hs. unfold scan_directory. skip. sure. apply bool_decide_eq_true in H. step finds_directory. destruct H0 as [ino Hino]. step finds_names. subst.
  step finds_scan_entries; [|exact Hs|]. { intros n Hn%elem_of_names. by rewrite below_child. }
  destruct H0 as ((H0 & Hq & Hd & Hg & Hf) & Hgr & Hc). skip. eapply finds_bind; [apply finds_quiet; keep|intros _ _]. apply finds_ret.
  split_and!; cbn; [done| |set_solver| |done].
  - intros q Hq'. destruct (Hq q Hq') as [|[|]]; set_solver.
  - intros q [->%elem_of_singleton|Hq']%elem_of_union; [|by apply Hg]. split; [eauto|]. intros n e He. apply Hc; [|done].
    apply elem_of_names. rewrite <- below_child. by rewrite He.
Qed.
Lemma finds_scan_loop fuel : ∀ s, scan_inv ∅ s → finds (scan_loop sha256 fuel r directories files s) (λ s', scan_inv ∅ s' ∧ pending s' = []) d.
Proof.
  induction fuel as [|fuel IH]; intros s Hs; cbn [scan_loop]; destruct (pending s) as [|rel rest] eqn:Hp; try (by apply finds_ret); [apply finds_throw|].
  step finds_scan_directory; [|by apply IH]. destruct Hs as (H0 & Hq & Hd & Hg & Hf). split_and!; cbn; [done| |done..].
  intros q Hq'. destruct (Hq q Hq') as [|[H|]]; [auto| |set_solver]. rewrite Hp in H. apply elem_of_cons in H as [->|]; [set_solver|auto].
Qed.
Definition scan_result (seen : gmap path scannedFile) : Prop :=
  (∀ rel f, seen !! rel = Some f → good_file rel f) ∧ (∀ rel, is_Some (seen !! rel) ↔ is_Some (files !! rel)) ∧
  (∀ rel, rel ∈ directories → ∃ i, at_rel rel = Some (EDir i 448)) ∧
  ∀ rel e, at_rel rel = Some e → if is_dir (Some e) then rel ∈ directories else is_Some (files !! rel).
Lemma finds_scanExact : rooted d → finds (scanExact sha256 r directories files) scan_result d.
Proof.
  intros Hroot. unfold scanExact. step finds_scan_loop. { split_and!; cbn; [set_solver|set_solver|set_solver|set_solver|]. intros rel f. by rewrite lookup_empty. }
  destruct H as ((H0 & Hq & Hd & Hg & Hf) & Hp). sure. apply andb_true_iff in H as [H1%Nat.eqb_eq H2%Nat.eqb_eq]. apply finds_ret.
  rewrite Hp in Hq. assert (Hqs : ∀ q, q ∈ queued a → q ∈ seen_dirs a). { intros q Hq'. destruct (Hq q Hq') as [|[|]]; set_solver. }
  assert (Hds : seen_dirs a = directories). { apply set_eq. intros q. split; [set_solver|]. intros Hin. apply dec_stable. intros Hnot.
    assert (size (seen_dirs a) < size directories)%nat; [apply subset_size; set_solver|lia]. }
  assert (Hfs : dom (seen_files a) = dom files).
  { apply dec_stable. intros Hnot. assert (size (dom (seen_files a)) < size (dom files))%nat; [|rewrite !size_dom in *; lia].
    apply subset_size. split; [|intros Hsub; apply Hnot, set_eq; intros q; split; [|apply Hsub]].
    - intros q [f Hfq]%elem_of_dom. destruct (Hf q f Hfq) as (i & data & x & _ & _ & Hx & _). apply elem_of_dom. eauto.
    - intros [f Hfq]%elem_of_dom. destruct (Hf q f Hfq) as (i & data & x & _ & _ & Hx & _). apply elem_of_dom. eauto. }
  assert (Hdom : ∀ rel, is_Some (seen_files a !! rel) ↔ is_Some (files !! rel)). { intros rel. rewrite <- !elem_of_dom. by rewrite Hfs. }
  split_and!; [done|done| |].
  - intros rel Hrel. rewrite <- Hds in Hrel. by destruct (Hg rel Hrel).
  - intros rel. induction rel as [|n rel IH] using rev_ind; intros e He.
    + destruct (Hg [] (Hqs [] H0)) as [[i Hi] _]. rewrite He in Hi. injection Hi as ->. cbn. rewrite <- Hds. auto.
    + assert (Hup : is_dir (at_rel rel) = true).
      { specialize (Hroot _ _ He). rewrite below_child in Hroot. unfold parent in Hroot. rewrite removelast_last in Hroot. apply Hroot. by destruct (below r rel). }
      destruct (at_rel rel) as [e'|] eqn:He'; [|done]. specialize (IH e' eq_refl). rewrite Hup in IH. rewrite <- Hds in IH.
      destruct (Hg rel IH) as [_ Hc]. specialize (Hc n e He). destruct (is_dir (Some e)); [rewrite <- Hds; auto|by apply Hdom].
Qed.
End scan.
(** ** A sealed generation *)

Definition members_of (m : Manifest) : list Member := default [] (fMembers m).
Definition holds_file (d : disk) (p : path) (data : text) : Prop := ∃ i, d !! p = Some (EFile i privateFileMode data).
Definition holds_member (d : disk) (p : path) (x : Member) : Prop :=
  ∃ data, holds_file d (p ++ artifact (mPath x)) data ∧ zlen data = mSize x ∧ digest_of sha256 data = mSHA256 x.
(** What the manifest allows below a generation. *)
Definition listed (m : Manifest) (rel : path) (e : entry) : Prop :=
  match e with
  | EDir _ perm => perm = privateDirMode ∧ rel ∈ expectedDirectories (map mPath (members_of m))
  | EFile _ perm _ => perm = privateFileMode ∧ (rel = [manifestFile] ∨ rel = [receiptFile] ∨ ∃ x, x ∈ members_of m ∧ rel = artifact (mPath x))
  end.
Definition sealed_tree (d : disk) (p : path) (m : Manifest) (rc : Receipt) : Prop :=
  ∃ mb rb, parseManifest SimpleFold ToLower unmarshalManifest mb limits = Ok m ∧ parseReceipt sha256 ToLower unmarshalReceipt rb limits = Ok rc ∧
    verifyManifestReceipt sha256 SimpleFold m mb rc = Ok tt ∧
    holds_file d (p ++ [manifestFile]) mb ∧ holds_file d (p ++ [receiptFile]) rb ∧ (∀ x, x ∈ members_of m → holds_member d p x) ∧
    ∀ rel e, d !! (p ++ rel) = Some e → listed m rel e.

Lemma members_distinct l paths folded total services previous ms r :
  members_loop SimpleFold l paths folded total services previous ms = Ok r → NoDup (mPath <$> ms) ∧ ∀ x, x ∈ ms → mPath x ∉ paths.
Proof.
  revert paths folded total services previous. induction ms as [|m ms IH]; intros paths folded total services previous H; [split; [constructor|set_solver]|].
  cbn [members_loop] in H. oks H. apply IH in H as [Hn Hp]. apply negb_true_iff, bool_decide_eq_false in E4. split.
  - cbn. constructor; [|done]. intros (x & Hx & Hin)%list_elem_of_fmap. apply (Hp x Hin). rewrite <- Hx. set_solver.
  - intros x [->|Hx]%elem_of_cons; [done|]. specialize (Hp x Hx). set_solver.
Qed.
Lemma manifest_paths m l u : validateManifest SimpleFold m l = Ok u → NoDup (mPath <$> members_of m).
Proof.
  unfold validateManifest. intros H. oks H. match goal with H : validateMembers _ _ _ = Ok _ |- _ => revert H end. clear. unfold validateMembers, members_of. intros H.
  oks H. destruct (fMembers m); [|done]. oks H. by apply members_distinct in H as [? _].
Qed.
Lemma parsed_paths data m : parseManifest SimpleFold ToLower unmarshalManifest data limits = Ok m → NoDup (mPath <$> members_of m).
Proof.
  unfold parseManifest, exactly, canonicalManifest. intros H. oks H. injection H as <-. oks E2. by eapply manifest_paths.
Qed.
Lemma artifact_inj p q : artifact p = artifact q → p = q.
Proof. intros [= H]. rewrite <- (PullFacts.join_components p), <- (PullFacts.join_components q). by rewrite H. Qed.
Section sealed.
Variable d : disk.
Variable r : root.
Variable m : Manifest.
Abbreviation sealed_map mb rb := (sealed_files limits m mb rb).
Lemma sealed_member mb rb x : NoDup (mPath <$> members_of m) → x ∈ members_of m →
  sealed_map mb rb !! artifact (mPath x) = Some {| x_member := Some x; x_exact := None; x_limit := MaxMemberBytes limits |}.
Proof.
  intros Hn Hx. unfold sealed_files. rewrite !lookup_insert_ne by done. apply elem_of_list_to_map.
  - change (map ?f ?l) with (f <$> l). rewrite <- list_fmap_compose.
    change (fst ∘ _) with (artifact ∘ mPath). rewrite list_fmap_compose. apply NoDup_fmap_2; [intros p q; apply artifact_inj|done].
  - change (map ?f ?l) with (f <$> l). apply list_elem_of_fmap. by exists x.
Qed.
Lemma sealed_keys mb rb rel x : sealed_map mb rb !! rel = Some x → rel = [manifestFile] ∨ rel = [receiptFile] ∨ ∃ y, y ∈ members_of m ∧ rel = artifact (mPath y).
Proof.
  unfold sealed_files. destruct (decide (rel = [receiptFile])) as [->|H1]; [auto|]. rewrite lookup_insert_ne by done.
  destruct (decide (rel = [manifestFile])) as [->|H2]; [auto|]. rewrite lookup_insert_ne by done. intros H%elem_of_list_to_map_2. right. right.
  change (map ?f ?l) with (f <$> l) in H. apply list_elem_of_fmap in H as (y & [= -> _] & Hy). eauto.
Qed.
Lemma matches_exact x f data u : matches x f data = Ok u → (∀ e, x_exact x = Some e → data = e) ∧ ∀ y, x_member x = Some y → c_size f = mSize y ∧ c_sha256 f = mSHA256 y.
Proof.
  unfold matches. intros H. oks H. split; [intros e He; rewrite He in E; by apply bool_decide_eq_true in E|]. intros y Hy. rewrite Hy in H.
  apply andb_true_iff in H as [[H1%Z.eqb_eq _]%andb_true_iff H2%bool_decide_eq_true]. done.
Qed.
Lemma finds_scanSealed mb rb : rooted d → NoDup (mPath <$> members_of m) →
  finds (scanSealed sha256 limits r m mb rb)
    (λ _, holds_file d (at_ r ++ [manifestFile]) mb ∧ holds_file d (at_ r ++ [receiptFile]) rb ∧ (∀ x, x ∈ members_of m → holds_member d (at_ r) x) ∧
          ∀ rel e, d !! (at_ r ++ rel) = Some e → listed m rel e) d.
Proof.
  intros Hroot Hn. unfold scanSealed. step finds_scanExact; [done|]. apply finds_ret. destruct H as (Hg & Hdom & Hdirs & Hall).
  assert (Hfile : ∀ rel x, sealed_map mb rb !! rel = Some x → ∃ i data, d !! (at_ r ++ rel) = Some (EFile i 384 data) ∧ matches x (scanned data) data = Ok tt).
  { intros rel x Hx. destruct (proj2 (Hdom rel)) as [f Hf]; [eauto|]. destruct (Hg rel f Hf) as (i & data & y & Hi & -> & Hy & Hm & _).
    rewrite Hx in Hy. injection Hy as <-. eauto. }
  split_and!.
  - destruct (Hfile [manifestFile] {| x_member := None; x_exact := Some mb; x_limit := MaxManifestBytes limits |}) as (i & data & Hi & Hm).
    { unfold sealed_files. by rewrite lookup_insert_ne, lookup_insert_eq by done. }
    exists i. apply matches_exact in Hm as [Hm _]. by rewrite <- (Hm mb).
  - destruct (Hfile [receiptFile] {| x_member := None; x_exact := Some rb; x_limit := MaxManifestBytes limits |}) as (i & data & Hi & Hm).
    { unfold sealed_files. by rewrite lookup_insert_eq by done. }
    exists i. apply matches_exact in Hm as [Hm _]. by rewrite <- (Hm rb).
  - intros x Hx. destruct (Hfile _ _ (sealed_member mb rb x Hn Hx)) as (i & data & Hi & Hm). apply matches_exact in Hm as [_ Hm].
    destruct (Hm x eq_refl) as [H1 H2]. exists data. split; [by exists i|]. done.
  - intros rel e He. specialize (Hall rel e He). destruct e as [i perm data|i perm]; cbn [is_dir] in Hall.
    + destruct Hall as [x Hx]. destruct (Hfile rel x Hx) as (i' & data' & Hi & _). rewrite He in Hi. injection Hi as -> -> ->. split; [done|]. by eapply sealed_keys.
    + destruct (Hdirs rel Hall) as [i' Hi]. unfold below in Hi. rewrite He in Hi. injection Hi as -> ->. done.
Qed.
End sealed.

Lemma finds_OpenRoot p rs d : finds (or_reject (OpenRoot p) rs) (λ r, at_ r = p) d.
Proof. eapply finds_mono; [apply finds_or_reject|]. cbn. intros r. destruct (d !! p) as [[]|]; by intros [= <-]. Qed.
Lemma finds_openGeneration id d : rooted d →
  finds (openGeneration sha256 SimpleFold ToLower unmarshalManifest unmarshalReceipt limits id)
    (λ g, g_id g = id ∧ at_ (g_root g) = generationPath id ∧ validGenerationID id = Ok tt ∧ sealed_tree d (generationPath id) (g_manifest g) (g_receipt g)) d.
Proof.
  intros Hroot. unfold openGeneration. skip. skip. step finds_lift. destruct a1. step finds_OpenRoot. skip. step finds_required. destruct H1 as (i & Hi & _).
  step finds_lift. step finds_required. destruct H2 as (i' & Hi' & _). step finds_lift. step finds_lift. destruct a7.
  step finds_scanSealed; [done|by eapply parsed_paths|]. skip. apply finds_ret. cbn [g_id g_root g_manifest g_receipt]. rewrite H0 in *. split_and!; [done..|].
  destruct H4 as (Hm & Hr & Hx & Hl). exists a3, a5. done.
Qed.

(** C15: a generation that opens is on the disk exactly as its manifest lists it:
    the manifest and the receipt are the canonical files there and belong to each
    other, each member is a private file of the recorded size and digest, and
    nothing else is below the generation; opening it changes nothing. *)
Theorem open_exact η w w' id g :
  rooted (dsk w) → openGeneration sha256 SimpleFold ToLower unmarshalManifest unmarshalReceipt limits id η w = (w', Done g) →
  dsk w' = dsk w ∧ g_id g = id ∧ validGenerationID id = Ok tt ∧ sealed_tree (dsk w) (generationPath id) (g_manifest g) (g_receipt g).
Proof.
  intros Hroot H. destruct (finds_openGeneration id (dsk w) Hroot η w eq_refl) as [H1 H2]. rewrite H in *. cbn in *. destruct H2 as (H2 & _ & H3 & H4). done.
Qed.
End store.
#[export] Hint Resolve quiet_inspect quiet_readRegularBytes quiet_classify quiet_readRequired quiet_readPointer quiet_scanExact quiet_scanSealed quiet_scanStage quiet_ensureRoot
  quiet_ensureGenerationRoot quiet_lockPublication quiet_requireNoRetentionQuarantine quiet_openGeneration quiet_revalidate quiet_scan_entry : keep.
End CorpusScan.
