(* ===== verification/CorpusPublish.v ===== *)
(** * Publication of a corpus generation

    The theorem on [Publish]: whatever fails or dies in it, the pointer names
    the old generation or a verified successor of it, and every error but
    "outcome unknown" means the old one. *)

From stdpp Require Import vector.
From S2P Require Import Prelude GoText TextOrder Identifiers Encoding PullTypes CorpusTypes CorpusIndexer CorpusDelta CorpusRetention CorpusDisk CorpusLogic CorpusStore CorpusScan.
Import GoText TextOrder Identifiers Encoding CorpusTypes CorpusDisk CorpusLogic CorpusStore CorpusScan.

Module CorpusPublish.
Local Open Scope Z_scope.
Local Open Scope atl_scope.

(** ** Replacing the pointer *)

#[local] Arguments pointerFile : simpl never.

Definition temp_prefix : text := txt ".current-".
(** The pointer and the files it is written to first. *)
Definition pointer_path (q : path) : bool := match q with n :: _ => eqt n pointerFile || has_prefix n temp_prefix | [] => false end.
Definition temp_of (token : text) : path := [temp_prefix ++ token].
Lemma temp_apart token : under (temp_of token) [pointerFile] = false ∧ under [pointerFile] (temp_of token) = false.
Proof. split; apply bool_decide_eq_false; intros [s H]; injection H as H; discriminate H. Qed.
Lemma under_pointer token q : under (temp_of token) q = true ∨ under [pointerFile] q = true → pointer_path q = true.
Proof. intros [H|H]; apply under_split in H as [s ->]; reflexivity. Qed.
Lemma temp_path token : pointer_path (temp_of token) = true.
Proof. reflexivity. Qed.

Definition is_temp (token : text) (q : path) : bool := bool_decide (q = temp_of token).
Lemma is_temp_pointer token : is_temp token [pointerFile] = false.
Proof. apply bool_decide_eq_false. intros [=]. Qed.

Definition same_pointer (d d' : disk) : Prop := d' !! [pointerFile] = d !! [pointerFile].
Lemma only_temp_same token d d' : only (is_temp token) d d' → same_pointer d d'.
Proof. intros H. apply H, is_temp_pointer. Qed.
Lemma only_temp_remove token : keeps (only (is_temp token)) (remove_quietly (temp_of token)).
Proof. unfold remove_quietly. apply keeps_bind; [apply only_remove; by apply bool_decide_eq_true|keep]. Qed.
Lemma lookup_with_file p f d i perm data : d !! p = Some (EFile i perm data) → with_file p f d !! p = Some (EFile i (f perm data).1 (f perm data).2).
Proof. intros H. unfold with_file. rewrite H. by rewrite lookup_insert_eq. Qed.

(** What replacing the pointer leaves in each outcome. *)
Definition replaced (d : disk) (data : text) : post unit := λ o d',
  match o with
  | Done _ => holds_file d' [pointerFile] data
  | Failed e => e = Integrity ReasonIO ∧ same_pointer d d'
  | Killed => same_pointer d d' ∨ holds_file d' [pointerFile] data
  end.
(** Only the temporary file differs, and it is [data] as far as it goes. *)
Lemma wp_replace_body token data d i : d !! temp_of token = Some (EFile i privateFileMode []) →
  wp (or_io (write (temp_of token) data) ;; or_io (chmod (temp_of token) privateFileMode) ;; or_io flush ;; or_io close ;; hit "after_pointer_temp_sync" ;;
      or_io (rename (temp_of token) [pointerFile])) (replaced d data) d.
Proof.
  intros Hd. assert (Hw : ∀ f d', only (is_temp token) d d' → same_pointer d (with_file (temp_of token) f d')).
  { intros f d' H. apply (only_temp_same token). etrans; [exact H|]. apply only_with_file. by apply bool_decide_eq_true. }
  apply wp_bind, wp_or_reject, wp_call; intros; cbn -[holds_file]; [|by split; [|by apply Hw]|left; by apply Hw].
  set (d1 := with_file _ _ d). assert (Hd1 : d1 !! temp_of token = Some (EFile i privateFileMode data)) by exact (lookup_with_file _ _ _ _ _ _ Hd).
  assert (Ho1 : only (is_temp token) d d1) by (apply only_with_file; by apply bool_decide_eq_true).
  pose proof (only_temp_same token _ _ Ho1) as Hs1.
  apply wp_bind, wp_or_reject, wp_change; [intros _|by split|by left]. cbn -[holds_file].
  set (d2 := with_file _ _ d1). assert (Hd2 : d2 !! temp_of token = Some (EFile i privateFileMode data)) by exact (lookup_with_file _ _ _ _ _ _ Hd1).
  assert (Hs2 : same_pointer d d2) by by apply Hw.
  assert (Hq : ∀ (m : M unit) (k : M unit), quiet m → wp m (λ o _, match o with Failed e => e = Integrity ReasonIO | _ => True end) d2 → wp k (replaced d data) d2 →
    wp (m ;; k) (replaced d data) d2).
  { intros m k Hm He Hk. apply wp_bind. eapply wp_mono; [apply (wp_and _ _ _ _ (Hm d2) He)|]. intros [[]|e|] d' [<- H]; [done|by split|by left]. }
  apply Hq; [keep|by apply wp_or_reject, wp_observe|]. apply Hq; [keep|by apply wp_or_reject, wp_observe|].
  apply Hq; [keep|by apply wp_or_reject, wp_observe|]. apply wp_or_reject, wp_change; [intros j|by split|by left].
  rewrite Hd2. destruct (temp_apart token) as [Ha Hb]. rewrite Ha, orb_false_r. destruct (negb _); [by split|].
  assert (Hm : holds_file (move (temp_of token) [pointerFile] d2) [pointerFile] data).
  { exists i. rewrite <- (app_nil_r [pointerFile]), move_target by done. by rewrite app_nil_r. }
  destruct (d2 !! [pointerFile]) as [[]|]; cbn -[holds_file]; [done|by split|done].
Qed.
Lemma wp_replacePointer data d : wp (replacePointer data) (replaced d data) d.
Proof.
  unfold replacePointer. apply wp_bind, wp_or_reject, wp_call; [intros η t _|intros; by split|by left]. set (token := take _ _). cbn [fst snd].
  apply wp_bind, wp_or_reject, wp_change; [intros i|by split|by left]. change [txt ".current-" ++ token] with (temp_of token).
  destruct (d !! temp_of token) eqn:Hn; [by split|]. destruct (is_dir (d !! parent (temp_of token))); [|by split]. cbn [fst snd].
  set (d1 := <[_ := _]> d). assert (Ho : only (is_temp token) d d1) by (apply only_insert; by apply bool_decide_eq_true).
  pose proof (only_temp_same token _ _ Ho) as Hs. apply wp_finally.
  eapply wp_mono; [apply (wp_replace_body token data d1 i); apply lookup_insert_eq|]. intros o d' H.
  destruct o as [[]|e|]; [..|destruct H as [H|H]; [left; congruence|by right]]; (eapply wp_mono; [apply only_temp_remove|]); intros o' d'' H'%only_temp_same.
  - assert (Hh : holds_file d'' [pointerFile] data). { destruct H as [j H]. exists j. congruence. } destruct o'; [done..|by right].
  - destruct H as [-> H]. assert (same_pointer d d'') by congruence. destruct o'; [done..|by left].
Qed.
Lemma only_replacePointer data : keeps (only pointer_path) (replacePointer data).
Proof.
  unfold replacePointer. apply keeps_bind; [keep|]. intros token. change [txt ".current-" ++ token] with (temp_of token). unfold or_io.
  apply keeps_bind; [apply keeps_or_reject, only_create, temp_path|]. intros _. apply keeps_finally.
  - assert (Hr : keeps (only pointer_path) (rename (temp_of token) [pointerFile])).
    { apply only_rename; [by apply temp_apart|intros q Hq; apply (under_pointer token); auto..]. }
    assert (Hw : keeps (only pointer_path) (write (temp_of token) data)) by by apply only_write.
    assert (Hc : keeps (only pointer_path) (chmod (temp_of token) privateFileMode)) by by apply only_chmod. keep.
  - unfold remove_quietly. apply keeps_bind; [by apply only_remove|keep].
Qed.

(** ** Which errors an operation ends with *)

Definition errors (E : corpusError → Prop) {A} (m : M A) : Prop := ∀ d, wp m (λ o _, match o with Failed e => E e | _ => True end) d.
Section errors.
Context {E : corpusError → Prop}.
Lemma errors_ret {A} (a : A) : errors E (mret a).
Proof. intros d. by apply wp_ret. Qed.
Lemma errors_bind {A B} (m : M A) (k : A → M B) : errors E m → (∀ a, errors E (k a)) → errors E (m ≫= k).
Proof. intros Hm Hk d. apply wp_bind. eapply wp_mono; [apply Hm|]. intros [a|e|] d' H; [apply Hk|done..]. Qed.
Lemma errors_or_reject {A} (f : disk → result sysError A) r : E (Integrity r) → errors E (or_reject (observe f) r).
Proof. intros H d. apply wp_or_reject, wp_observe; cbn; [|done..]. by destruct (f d). Qed.
Lemma errors_check c r : E (Integrity r) → errors E (check c r).
Proof. intros H d. by apply wp_check. Qed.
Lemma errors_each {A} (f : A → M unit) l : (∀ x, errors E (f x)) → errors E (each f l).
Proof. intros Hf. induction l; cbn; [apply errors_ret|by apply errors_bind]. Qed.
End errors.
Lemma errors_unknown {A} (m : M A) : errors (λ e, e = ErrOutcomeUnknown) (unknown_if true m).
Proof. intros d. apply wp_bind, wp_try. intros η w Hw. destruct (m η w).2; [by apply wp_ret|by apply wp_throw|done]. Qed.
Lemma errors_finds {A} (m : M A) E P d : errors E m → finds m P d → wp m (λ o d', d' = d ∧ match o with Done a => P a | Failed e => E e | Killed => True end) d.
Proof. intros He Hf. eapply wp_mono; [apply (wp_and _ _ _ _ (He d) Hf)|]. intros [] d' [H1 [H2 H3]]; done. Qed.
(** Nothing happens to the disk before the rest. *)
Lemma wp_quiet_bind {A B} (m : M A) (k : A → M B) P Q d :
  finds m P d → (∀ e, Q (Failed e) d) → Q Killed d → (∀ a, P a → wp (k a) Q d) → wp (m ≫= k) Q d.
Proof. intros Hm He Hk Hr. apply wp_bind. eapply wp_mono; [apply Hm|]. intros [a|e|] d' [-> H]; auto. Qed.

Section store.
Variable sha256 : text → vec ascii 32.
Variable SimpleFold : Z → Z.
Variable ToLower : text → text.
Variable unmarshalManifest : text → option Manifest.
Variable unmarshalReceipt : text → option Receipt.
Variable unmarshalPointer : text → option Pointer.
Variable limits : Limits.
Abbreviation open_generation := (openGeneration sha256 SimpleFold ToLower unmarshalManifest unmarshalReceipt limits).
Abbreviation tree := (sealed_tree sha256 SimpleFold ToLower unmarshalManifest unmarshalReceipt limits).

(** What the pointer file says. *)
Definition pointer_on (d : disk) (p : option Pointer) : Prop :=
  match p with
  | None => d !! [pointerFile] = None
  | Some p => ∃ data, holds_file d [pointerFile] data ∧ parsePointer ToLower unmarshalPointer data = Ok p
  end.
Lemma inspect_missing p max d :
  wp (inspectRegular sha256 false p max) (λ o d', match o with Failed NotExist => d !! p = None | _ => True end) d.
Proof.
  unfold inspectRegular. apply wp_bind, wp_observe; cbn beta; [|apply wp_bind, wp_throw; done|done].
  destruct (d !! p) as [e|] eqn:Hp; [|apply wp_bind, wp_throw; done]. apply wp_bind, wp_ret.
  eapply wp_mono; [|intros o d'; instantiate (1 := λ o _, match o with Failed NotExist => False | _ => True end); by destruct o as [|[]|]].
  eapply wp_mono; [|intros o d'; instantiate (1 := λ o _, match o with Failed e => e ≠ NotExist | _ => True end); by destruct o as [|[]|]].
  match goal with |- wp ?m _ _ => enough (He : errors (λ e, e ≠ NotExist) m) by apply He end.
  repeat first [apply errors_ret | apply errors_or_reject; done | apply errors_check; done | apply errors_each; intros ? | apply errors_bind; [|intros ?] | unfold links_once, read_pieces].
Qed.
Lemma finds_readPointer d : finds (readPointer sha256 ToLower unmarshalPointer) (pointer_on d) d.
Proof.
  unfold readPointer. eapply (finds_bind _ _ (λ r, match r with inl data => holds_file d [pointerFile] data | inr NotExist => d !! [pointerFile] = None | inr _ => True end)).
  - apply wp_try. unfold readRegularBytes. apply wp_bind.
    eapply wp_mono; [apply (wp_and _ _ _ _ (finds_inspect sha256 false [pointerFile] maxStoredPointerBytes d) (inspect_missing [pointerFile] maxStoredPointerBytes d))|].
    intros [[x data]|e|] d' [[-> H1] H2]; [|by destruct e|done]. apply wp_ret. split; [done|]. destruct H1 as (i & dt & H1 & [= -> ->] & _). by exists i.
  - intros [data|[]] H; try apply finds_throw; [|by apply finds_ret]. step finds_lift. apply finds_ret. by exists data.
Qed.
Lemma finds_pointer_is want reason d : finds (pointer_is sha256 ToLower unmarshalPointer want reason) (λ _, pointer_on d want) d.
Proof. unfold pointer_is. step finds_readPointer. case_bool_decide as H'; [subst; by apply finds_ret|apply finds_throw]. Qed.
Lemma quiet_pointer_is want reason : quiet (pointer_is sha256 ToLower unmarshalPointer want reason).
Proof. unfold pointer_is. keep. Qed.
#[local] Hint Resolve quiet_pointer_is : keep.
Lemma quiet_syncAndRevalidate g : quiet (syncAndRevalidatePinnedGeneration sha256 SimpleFold limits g).
Proof. unfold syncAndRevalidatePinnedGeneration. keep. Qed.
#[local] Hint Resolve quiet_syncAndRevalidate : keep.

(** ** What a publication does *)

Definition pointer_to (id digest : text) : Pointer := {| pSchemaVersion := PointerSchemaV1; pGenerationID := id; pGenerationDigest := digest |}.
(** The generation the pointer names is whole, with the digest it says. *)
Definition points_to (d : disk) (p : option Pointer) (digest : text) : Prop :=
  match p with
  | None => digest = []
  | Some p => digest = pGenerationDigest p ∧ ∃ m rc, tree d (generationPath (pGenerationID p)) m rc ∧ GenerationDigest rc = digest
  end.
(** The pointer was moved to a whole generation that says to follow the one it
    named before. *)
Definition advanced (id : text) (d d' : disk) : Prop :=
  ∃ m rc data previous, tree d (generationPath id) m rc ∧ canonicalPointer (pointer_to id (GenerationDigest rc)) = Ok data ∧ holds_file d' [pointerFile] data ∧
    pointer_on d previous ∧ points_to d previous (rPredecessorDigest rc).
Definition published (id : text) (d : disk) : post Generation := λ o d',
  (same_pointer d d' ∨ advanced id d d') ∧
  match o with
  | Done g => g_id g = id ∧ tree d (generationPath id) (g_manifest g) (g_receipt g) ∧ pointer_on d' (Some (pointer_to id (digest_of_generation g)))
  | Failed e => e = ErrOutcomeUnknown ∨ same_pointer d d'
  | Killed => True
  end.
Lemma published_calm id d : (∀ e, published id d (Failed e) d) ∧ published id d Killed d.
Proof. split; [intros e; split; [by left|by right]|split; [by left|done]]. Qed.

Lemma finds_current_digest current d :
  rooted d → finds (current_digest sha256 SimpleFold ToLower unmarshalManifest unmarshalReceipt limits current) (points_to d current) d.
Proof.
  intros Hr. unfold current_digest. destruct current as [c|]; [|by apply finds_ret]. step finds_openGeneration; [done|]. destruct H as (_ & _ & _ & H). sure.
  apply bool_decide_eq_true in H0. skip. apply finds_ret. split; [done|]. eauto.
Qed.
Lemma quiet_current_digest current : quiet (current_digest sha256 SimpleFold ToLower unmarshalManifest unmarshalReceipt limits current).
Proof. unfold current_digest. keep. Qed.
#[local] Hint Resolve quiet_current_digest : keep.

(** The end of a publication: the pointer is read once more. *)
Lemma wp_confirm id d d' (g : Generation) (m : M unit) :
  (same_pointer d d' ∨ advanced id d d') → g_id g = id → tree d (generationPath id) (g_manifest g) (g_receipt g) →
  finds m (λ _, pointer_on d' (Some (pointer_to id (digest_of_generation g)))) d' → wp (unknown_if true m ;; mret g) (published id d) d'.
Proof.
  intros Hs Hg Ht Hm. apply wp_bind. eapply wp_mono; [apply errors_finds; [apply errors_unknown|]|].
  { unfold unknown_if. step finds_try; [exact Hm|]. destruct a; [apply finds_ret; exact H|apply finds_throw]. }
  intros [u|e|] d'' [-> H]; [|split; auto..]. apply wp_ret. split; [done|]. done.
Qed.
(** The pointer is canonical: it says no more than it names. *)
Lemma pointer_valid c u : validatePointer c = Ok u → c = pointer_to (pGenerationID c) (pGenerationDigest c).
Proof. unfold validatePointer. intros H. oks H. destruct c as [v i g]. apply Z.eqb_eq in E. cbn [pSchemaVersion] in E. by subst. Qed.
Lemma pointer_on_is d c : pointer_on d (Some c) → c = pointer_to (pGenerationID c) (pGenerationDigest c).
Proof.
  intros (data & _ & H). unfold parsePointer, exactly in H. oks H. injection H as <-. unfold canonicalPointer in E1. oks E1. by eapply pointer_valid.
Qed.
Ltac calm := eapply wp_quiet_bind; [eapply finds_quiet; keep|apply published_calm..|intros ? _].
Tactic Notation "calm_step" uconstr(lem) := eapply wp_quiet_bind; [eapply lem|apply published_calm..|cbn beta; intros ? ?].
Lemma wp_Publish id d : rooted d →
  wp (Publish sha256 SimpleFold ToLower unmarshalManifest unmarshalReceipt unmarshalPointer limits id) (published id d) d.
Proof.
  intros Hr. unfold Publish. do 7 calm. calm_step finds_openGeneration; [done|]. destruct H as (Hid & _ & _ & Ht). rename a6 into target. calm_step finds_readPointer. rename a6 into current.
  cbv zeta. destruct (match current with Some c => _ | None => false end) eqn:Hsame.
  - do 3 calm. destruct current as [c|]; [|done]. apply andb_true_iff in Hsame as [H1%bool_decide_eq_true H2%bool_decide_eq_true].
    apply wp_confirm; [by left|done..|]. skip. skip. pose proof (pointer_on_is _ _ H) as Hc. rewrite H1, H2 in Hc. rewrite <- Hc. apply finds_pointer_is.
  - calm_step finds_current_digest; [done|]. rename a6 into predecessor.
    eapply (wp_quiet_bind _ _ (λ _, rPredecessorDigest (g_receipt target) = predecessor)); [|apply published_calm..|intros _ Hp].
    { destruct (eqt _ _) eqn:He; [apply finds_ret; by apply bool_decide_eq_true in He|apply finds_throw]. }
    calm_step finds_lift. rename a6 into bytes. do 3 calm.
    apply wp_bind. eapply wp_mono; [apply wp_replacePointer|]. intros o d' Hrep.
    assert (Hadv : holds_file d' [pointerFile] bytes → advanced id d d').
    { intros Hh. exists (g_manifest target), (g_receipt target), bytes, current. subst. done. }
    destruct o as [u|e|].
    + apply wp_confirm; [by right; apply Hadv|done..|]. skip. skip. skip. apply finds_pointer_is.
    + destruct Hrep as [-> Hs]. split; auto.
    + split; [|done]. destruct Hrep; auto.
Qed.
#[local] Hint Resolve only_replacePointer : keep.
Lemma only_Publish id : keeps (only pointer_path) (Publish sha256 SimpleFold ToLower unmarshalManifest unmarshalReceipt unmarshalPointer limits id).
Proof. unfold Publish. keep. Qed.

(** C9: whatever fails and wherever the process dies, [Publish] touches the pointer
    and the file it is written to first and nothing else; the pointer is the old
    one, or names a whole generation whose receipt follows the whole generation
    named before.  It succeeds only with the pointer on the generation asked for,
    and every error but [ErrOutcomeUnknown] leaves the old pointer. *)
Theorem publish_atomic η w w' id o :
  rooted (dsk w) → Publish sha256 SimpleFold ToLower unmarshalManifest unmarshalReceipt unmarshalPointer limits id η w = (w', o) →
  only pointer_path (dsk w) (dsk w') ∧ published id (dsk w) o (dsk w').
Proof.
  intros Hr H. pose proof (wp_Publish id (dsk w) Hr η w eq_refl) as H1. pose proof (only_Publish id (dsk w) η w eq_refl) as H2. rewrite H in *. by split.
Qed.
End store.
End CorpusPublish.
