(* ===== verification/CorpusApply.v ===== *)
(** * Retention of a corpus store (internal/corpus/retention_v1.go,
    retention_apply_v1.go, retention_quarantine_v1.go, root_identity.go)

    Listing the generations of a store, building a plan of the ones to delete and
    applying a reviewed one: a rename of each into quarantine, then its removal,
    so that an apply that stopped can be run again. *)

From stdpp Require Import vector.
From S2P Require Import Prelude GoText TextOrder Identifiers Encoding PullTypes CorpusTypes CorpusIndexer CorpusDelta CorpusRetention CorpusDisk CorpusStore.
Import GoText TextOrder Identifiers Encoding CorpusTypes CorpusRetention CorpusDisk CorpusStore.

Module CorpusApply.
Local Open Scope Z_scope.
Local Open Scope atl_scope.

Abbreviation record := RetentionInventoryRecordV1.
(** What a listing of [generations/] found: each generation and its file. *)
Abbreviation entries_map := (gmap text nat).
Record quarantine := { present : bool; quarantined : list text }.
(** A generation of the plan, open and verified. *)
Record retentionPinnedCandidate := { pc_record : record; pc_generation : Generation }.

Section store.
Variable sha256 : text → vec ascii 32.
Variable SimpleFold : Z → Z.
Variable ToLower : text → text.
Variable unmarshalManifest : text → option Manifest.
Variable unmarshalReceipt : text → option Receipt.
Variable unmarshalPointer : text → option Pointer.
Variable unmarshalDelta : text → option CorpusDelta.GenerationDelta.
Variable unmarshalPlan : text → option RetentionPlanV1.
Variable limits : Limits.
(** The root of the store by its canonical spelling. *)
Variable canonicalRoot : text.
Abbreviation open_generation := (openGeneration sha256 SimpleFold ToLower unmarshalManifest unmarshalReceipt limits).
Abbreviation read_pointer := (readPointer sha256 ToLower unmarshalPointer).
Abbreviation revalidate := (revalidatePinnedGeneration sha256 SimpleFold limits).

(** ** The identity of the root (root_identity.go) *)

Definition resolve : sys text := observe (λ _, Ok canonicalRoot).
Definition exact_root (i : info) (r : result sysError info) : bool := match r with Ok j => SameFile i j && exactDirectoryMode j | Err _ => false end.
Definition revalidate_identity (i : info) (r : root) (canonical : text) : M unit :=
  s ← stat_root r; t ← resolve; f ← lstat [];
  check (exact_root i s && match t with Ok again => eqt again canonical | Err _ => false end && exact_root i f) ReasonConcurrent.
Definition RootIdentityDigest : M text :=
  canonical ← or_reject resolve ReasonPath;
  i ← or_io (lstat []);
  check (exactDirectoryMode i) ReasonMode ;;
  r ← or_io (OpenRoot []);
  revalidate_identity i r canonical ;;
  revalidate_identity i r canonical ;;
  or_io close ;;
  mret (domainHash sha256 rootIdentityDigestDomain [canonical]).

(** ** The inventory (retention_v1.go) *)

Definition directory_or (p : path) (e : corpusError) : M info :=
  r ← lstat p; match r with Ok i => if exactDirectoryMode i then mret i else throw e | Err _ => throw e end.
Definition list_entry (allowedPlanDigest : text) (entries : entries_map) (name : text) : M entries_map :=
  match parseRetentionQuarantineName name with
  | Some parsed =>
      match parsed with
      | Ok (planDigest, _) => if eqt allowedPlanDigest [] || negb (eqt planDigest allowedPlanDigest) then throw ErrOutcomeUnknown else mret tt
      | Err _ => throw ErrOutcomeUnknown
      end ;;
      directory_or [generationsDir; name] ErrOutcomeUnknown ;;
      mret entries
  | None =>
      lift (validGenerationID name) ;;
      i ← directory_or (generationPath name) (Integrity ReasonMode);
      check (bool_decide (entries !! name = None)) ReasonMembership ;;
      mret (<[name := i_ino i]> entries)
  end.
Definition next_batch : M unit := contextError ;; or_io (observe (λ _, Ok tt)).
Fixpoint list_entries (allowedPlanDigest : text) (entries : entries_map) (ns : list text) : M entries_map :=
  next_batch ;;
  match ns with [] => mret entries | n :: ns => entries ← list_entry allowedPlanDigest entries n; list_entries allowedPlanDigest entries ns end.
Definition listRetentionGenerationEntries (allowedPlanDigest : text) : M entries_map :=
  i ← openVerifiedDirectory [generationsDir];
  ns ← or_io (read_names [generationsDir]);
  entries ← list_entries allowedPlanDigest ∅ ns;
  or_io close ;;
  unchanged_directory [generationsDir] i ;;
  mret entries.

(** [CopyMember] of a member the manifest lists. *)
Definition CopyMember (g : Generation) (service stableID role : text) : M text :=
  match List.find (λ m, eqt (mService m) service && eqt (mStableID m) stableID && eqt (mRole m) role) (default [] (fMembers (g_manifest g))) with
  | None => throw (Integrity ReasonMembership)
  | Some m =>
      r ← classifyExpectedFileError (inspectRegular sha256 true (below (g_root g) (artifact (mPath m))) (MaxMemberBytes limits));
      check ((c_size r.1 =? mSize m) && (c_mode r.1 =? mMode m) && eqt (c_sha256 r.1) (mSHA256 m)) ReasonDigest ;;
      mret r.2
  end.
Definition record_of (g : Generation) (predecessorID : text) : record :=
  {| gid := g_id g; gdigest := GenerationDigest (g_receipt g); PredecessorGenerationID := predecessorID; PredecessorGenerationDigest := rPredecessorDigest (g_receipt g);
     gtotals := rTotals (g_receipt g) |}.
Definition retentionRecordForGeneration (g : Generation) : M record :=
  let tombstones := List.filter (λ m, eqt (mRole m) RoleTombstone) (default [] (fMembers (g_manifest g))) in
  let digest := fTombstoneDigest (g_manifest g) in
  if eqt digest [] then check (length tombstones =? 0)%nat ReasonLineage ;; mret (record_of g [])
  else
    match tombstones with
    | [m] =>
        check (eqt (mSHA256 m) digest) ReasonLineage ;;
        data ← CopyMember g (mService m) (mStableID m) (mRole m);
        match CorpusDelta.ParseGenerationDelta ToLower unmarshalDelta data limits with
        | Ok d =>
            check (eqt (CorpusDelta.PredecessorGenerationDigest d) (rPredecessorDigest (g_receipt g))) ReasonLineage ;;
            mret (record_of g (CorpusDelta.PredecessorGenerationID d))
        | Err _ => throw (Integrity ReasonLineage)
        end
    | _ => throw (Integrity ReasonLineage)
    end.
(** A directory without a receipt is a stage nobody sealed. *)
Definition inventory_entry (id : text) : M (option record) :=
  contextError ;;
  r ← or_io (OpenRoot (generationPath id));
  ensureGenerationRoot id r ;;
  i ← lstat (below r [receiptFile]);
  match i with
  | Err ENOENT => or_io close ;; mret None
  | Err _ => throw (Integrity ReasonMode)
  | Ok i =>
      check (exactRegularMode i privateFileMode) ReasonMode ;;
      or_io close ;;
      g ← open_generation id;
      rec ← retentionRecordForGeneration g;
      or_io close ;;
      mret (Some rec)
  end.
Fixpoint inventory_entries (digests : list text) (ids : list text) : M (list record * list text) :=
  match ids with
  | [] => mret ([], [])
  | id :: ids =>
      e ← inventory_entry id;
      match e with
      | None => r ← inventory_entries digests ids; mret (r.1, id :: r.2)
      | Some rec =>
          check (bool_decide (gdigest rec ∉ digests)) ReasonDigest ;;
          r ← inventory_entries (gdigest rec :: digests) ids; mret (rec :: r.1, r.2)
      end
  end.
Definition scanRetentionInventory (allowedPlanDigest : text) : M snapshot :=
  es ← listRetentionGenerationEntries allowedPlanDigest;
  let ids := merge_sort text_le (map_to_list es).*1 in
  check (zlen ids <=? MaxMembers limits) ReasonBounds ;;
  r ← inventory_entries [] ids;
  final ← try (listRetentionGenerationEntries allowedPlanDigest);
  match final with
  | inl final =>
      check (bool_decide (es = final)) ReasonConcurrent ;;
      mret {| records := r.1; unsealedIDs := r.2; unsealedDigest := retentionUnsealedInventoryDigest sha256 r.2; entries := final |}
  | inr _ => throw (Integrity ReasonConcurrent)
  end.

(** Whatever keeps the pointer from being read makes it another one. *)
Definition pointer_still (want : Pointer) : M unit :=
  r ← try read_pointer;
  match r with inl p => check (bool_decide (p = Some want)) ReasonConcurrent | inr _ => throw (Integrity ReasonConcurrent) end.
Definition RetentionInventoryStatusV1 : M RetentionStatusV1 :=
  contextError ;;
  ensureRoot ;;
  lockPublication ;;
  requireNoRetentionQuarantine ;;
  s ← scanRetentionInventory [];
  mret {| StatusSchema := RetentionStatusSchemaV1; SealedGenerations := zlen (records s); ProtectedGenerations := 0; CandidateGenerations := 0;
          StatusUnsealed := zlen (unsealedIDs s); RemovedThisApply := 0; DeletedCandidates := 0; RemainingCandidates := 0; Complete := true |}.
Definition BuildRetentionPlanV1 (policy : RetentionPolicyV1) : M RetentionPlanV1 :=
  contextError ;;
  ensureRoot ;;
  lift (validateRetentionPolicy policy limits) ;;
  lockPublication ;;
  requireNoRetentionQuarantine ;;
  p ← read_pointer;
  pointer ← match p with Some p => mret p | None => throw ErrNoCurrent end;
  s ← scanRetentionInventory [];
  rootDigest ← RootIdentityDigest;
  ensureRoot ;;
  pointer_still pointer ;;
  lift (buildRetentionPlan sha256 rootDigest pointer policy s limits).

(** ** The quarantine (retention_quarantine_v1.go) *)

Fixpoint quarantine_names (plan : RetentionPlanV1) (q : quarantine) (ns : list text) : M quarantine :=
  match ns with
  | [] => mret q
  | n :: ns =>
      match parseRetentionQuarantineName n with
      | None => quarantine_names plan q ns
      | Some (Err _) => throw ErrOutcomeUnknown
      | Some (Ok (planDigest, id)) =>
          (if eqt planDigest (PlanDigest plan) then mret tt else throw ErrOutcomeUnknown) ;;
          directory_or [generationsDir; n] ErrOutcomeUnknown ;;
          live ← lstat (generationPath id);
          match live with
          | Err ENOENT => quarantine_names plan {| present := true; quarantined := quarantined q ++ [id] |} ns
          | _ => throw ErrOutcomeUnknown
          end
      end
  end.
Definition scanRetentionQuarantine (plan : RetentionPlanV1) : M quarantine :=
  ns ← verifiedDirectoryNames [generationsDir];
  q ← quarantine_names plan {| present := false; quarantined := [] |} ns;
  mret {| present := present q; quarantined := merge_sort text_le (quarantined q) |}.
Definition validateRetentionQuarantine (plan : RetentionPlanV1) (es : entries_map) (q : quarantine) : checked unit :=
  CorpusIndexer.all_pass (λ id, let! _ := demand (bool_decide (id ∈ map ref_id (candidates plan))) ReasonMembership in
                                demand (bool_decide (es !! id = None)) ReasonConcurrent) (quarantined q).
Definition verifyQuarantinedGenerationIdentity (target : path) (id : text) (r : root) : M unit :=
  live ← lstat (generationPath id);
  check (match live with Err ENOENT => true | _ => false end) ReasonConcurrent ;;
  a ← directory_or target (Integrity ReasonConcurrent);
  p ← or_reject (stat_root r) ReasonConcurrent;
  check (SameFile a p && exactDirectoryMode p) ReasonConcurrent.
Definition quarantinePinnedRetentionGeneration (planDigest : text) (c : retentionPinnedCandidate) : M unit :=
  check (isLowerSHA256 planDigest) ReasonType ;;
  let id := gid (pc_record c) in
  let r := g_root (pc_generation c) in
  let target := retentionQuarantineGenerationPath planDigest id in
  ensureGenerationRoot id r ;;
  t ← lstat target;
  match t with Ok _ => throw ErrOutcomeUnknown | Err ENOENT => mret tt | Err _ => throw (Integrity ReasonIO) end ;;
  ensureGenerationRoot id r ;;
  moved ← rename (generationPath id) target;
  match moved with
  | Err _ =>
      source ← try (ensureGenerationRoot id r);
      match source with
      | inl _ => t ← lstat target; match t with Err ENOENT => throw (Integrity ReasonIO) | _ => throw ErrOutcomeUnknown end
      | inr _ => throw ErrOutcomeUnknown
      end
  | Ok _ =>
      unknown_if true
        (verifyQuarantinedGenerationIdentity target id r ;;
         hit "after_retention_quarantine_rename" ;;
         or_io (syncDirectory [generationsDir]) ;;
         hit "after_retention_quarantine_sync")
  end.
Definition purge_name (r : root) (name : text) : M unit :=
  contextError ;;
  hit "before_retention_quarantine_purge" ;;
  or_io (RemoveAll (below r [name])) ;;
  i ← lstat (below r [name]);
  check (match i with Err ENOENT => true | _ => false end) ReasonIO ;;
  or_io (syncDirectory (at_ r)) ;;
  hit "after_retention_quarantine_purge".
Definition purge_generation (plan : RetentionPlanV1) (id : text) : M unit :=
  let p := retentionQuarantineGenerationPath (PlanDigest plan) id in
  r ← or_io (OpenRoot p);
  a ← or_io (lstat p);
  pinned ← or_io (stat_root r);
  check (SameFile a pinned && exactDirectoryMode pinned) ReasonIO ;;
  ns ← verifiedDirectoryNames (at_ r);
  each (purge_name r) ns ;;
  empty ← directoryIsEmpty (at_ r);
  final ← or_io (lstat p);
  check (empty && SameFile final pinned && exactDirectoryMode final) ReasonIO ;;
  or_io close ;;
  final ← or_io (lstat p);
  check (SameFile final pinned && exactDirectoryMode final) ReasonIO ;;
  or_io (remove p) ;;
  hit "after_retention_quarantine_unlink" ;;
  or_io (syncDirectory [generationsDir]).
Definition purgeRetentionQuarantine (plan : RetentionPlanV1) : M unit :=
  q ← scanRetentionQuarantine plan;
  if negb (present q) then mret tt
  else unknown_if true (lift (validateRetentionQuarantine plan ∅ q) ;; each (purge_generation plan) (quarantined q)).

(** ** Applying a plan (retention_v1.go, retention_apply_v1.go) *)

Fixpoint pinRetentionRecords (rs : list record) : M (list retentionPinnedCandidate) :=
  match rs with
  | [] => mret []
  | r :: rs =>
      g ← open_generation (gid r);
      actual ← try (retentionRecordForGeneration g);
      match actual with
      | inl a => check (bool_decide (a = r)) ReasonConcurrent
      | inr _ => throw (Integrity ReasonConcurrent)
      end ;;
      cs ← pinRetentionRecords rs;
      mret ({| pc_record := r; pc_generation := g |} :: cs)
  end.
Definition revalidateRetentionPinned (cs : list retentionPinnedCandidate) : M unit := each (λ c, revalidate (pc_generation c)) cs.
Definition confirmRetentionEntries (expected : entries_map) (allowedPlanDigest : text) : M unit :=
  observed ← listRetentionGenerationEntries allowedPlanDigest;
  check (bool_decide (observed = expected)) ReasonConcurrent.
(** One generation after the other; [started] tells whether one is in
    quarantine. *)
Fixpoint remove_loop (plan : RetentionPlanV1) (protected : list retentionPinnedCandidate) (started : bool) (expected : entries_map) (cs : list retentionPinnedCandidate)
    : M (bool * entries_map) :=
  match cs with
  | [] => mret (started, expected)
  | c :: cs =>
      unknown_if started
        (contextError ;;
         revalidate (pc_generation c) ;;
         revalidateRetentionPinned protected ;;
         pointer_still (Current plan) ;;
         hit "before_retention_remove" ;;
         confirmRetentionEntries expected (PlanDigest plan) ;;
         hit "after_retention_namespace_check" ;;
         quarantinePinnedRetentionGeneration (PlanDigest plan) c) ;;
      unknown_if true (hit "after_retention_remove") ;;
      remove_loop plan protected true (delete (gid (pc_record c)) expected) cs
  end.
Definition apply_plan (plan : RetentionPlanV1) : M RetentionStatusV1 :=
  ensureRoot ;;
  rootDigest ← RootIdentityDigest;
  ensureRoot ;;
  check (eqt rootDigest (RootDigest plan)) ReasonPath ;;
  lockPublication ;;
  p ← read_pointer;
  check (bool_decide (p = Some (Current plan))) ReasonConcurrent ;;
  q ← scanRetentionQuarantine plan;
  pre ← unknown_if (present q)
    (s ← scanRetentionInventory (PlanDigest plan);
     lift (validateRetentionQuarantine plan (entries s) q) ;;
     remaining ← lift (reconcileRetentionApply plan s);
     pointer_still (Current plan) ;;
     protected ← pinRetentionRecords (retentionProtectedRecords plan);
     pinned ← pinRetentionRecords remaining;
     revalidateRetentionPinned protected ;;
     pointer_still (Current plan) ;;
     mret (s, protected, pinned));
  let '(s, protected, pinned) := pre in
  r ← remove_loop plan protected (present q) (entries s) pinned;
  unknown_if r.1
    (revalidateRetentionPinned protected ;;
     confirmRetentionEntries r.2 (PlanDigest plan) ;;
     purgeRetentionQuarantine plan ;;
     hit "after_retention_sync" ;;
     pointer_still (Current plan) ;;
     confirmRetentionEntries r.2 (PlanDigest plan)) ;;
  mret {| StatusSchema := RetentionStatusSchemaV1; SealedGenerations := zlen (records s) - zlen pinned; ProtectedGenerations := zlen (Protected plan);
          CandidateGenerations := zlen (candidates plan); StatusUnsealed := zlen (unsealedIDs s); RemovedThisApply := zlen pinned; DeletedCandidates := zlen (candidates plan);
          RemainingCandidates := 0; Complete := true |}.
Definition ApplyRetentionPlanV1 (reviewed expectedDigest : text) : M RetentionStatusV1 :=
  contextError ;;
  plan ← lift (ParseRetentionPlanV1 sha256 ToLower unmarshalPlan reviewed limits);
  check (isLowerSHA256 expectedDigest && eqt expectedDigest (PlanDigest plan)) ReasonDigest ;;
  apply_plan plan.
End store.
End CorpusApply.
