(* ===== verification/CorpusCleanup.v ===== *)
(** * What applying a retention plan does

    Whatever fails or dies in it, an apply touches the generations a plan lists
    for deletion and nothing else; when it succeeds they are gone, and nothing is
    left in quarantine. *)

From stdpp Require Import vector.
From S2P Require Import Prelude GoText TextOrder Identifiers Encoding PullTypes CorpusTypes CorpusIndexer CorpusDelta CorpusRetention CorpusDisk CorpusLogic CorpusStore CorpusScan CorpusPublish CorpusApply.
Import GoText TextOrder Identifiers Encoding CorpusTypes CorpusRetention CorpusDisk CorpusLogic CorpusStore CorpusScan CorpusPublish CorpusApply.

Module CorpusCleanup.
Local Open Scope Z_scope.
Local Open Scope atl_scope.

#[local] Arguments generationsDir : simpl never.
#[local] Arguments pointerFile : simpl never.
#[local] Arguments receiptFile : simpl never.
#[local] Arguments retentionQuarantineGenerationName : simpl never.
#[local] Arguments retentionQuarantinePrefix : simpl never.
#[local] Arguments retentionQuarantineFamilyPrefix : simpl never.

(** ** Names *)

Abbreviation quarantine_path := retentionQuarantineGenerationPath.
Lemma quarantine_name_length planDigest id : length (retentionQuarantineGenerationName planDigest id) = (26 + length planDigest + length id)%nat.
Proof. unfold retentionQuarantineGenerationName. rewrite !length_app. change (length retentionQuarantinePrefix) with 25%nat. change (length (txt "-")) with 1%nat. lia. Qed.
Lemma valid_id_length id u : validGenerationID id = Ok u → length id = 32%nat.
Proof. unfold validGenerationID. intros [H%Nat.eqb_eq _]%demand_ok%andb_true_iff. done. Qed.
Lemma quarantine_name_not_id planDigest id id' u : validGenerationID id' = Ok u → length id = 32%nat → retentionQuarantineGenerationName planDigest id ≠ id'.
Proof. intros H%valid_id_length Hl He. pose proof (quarantine_name_length planDigest id) as Hq. rewrite He in Hq. lia. Qed.
Lemma under_child d n m s : under [d; n] (d :: m :: s) = bool_decide (n = m).
Proof.
  apply bool_decide_ext. split; [by intros [k [= ->]]|intros ->; by exists s].
Qed.
(** The parse of a quarantine name spells it. *)
Lemma parse_spells n planDigest id : parseRetentionQuarantineName n = Some (Ok (planDigest, id)) →
  n = retentionQuarantineGenerationName planDigest id ∧ isLowerSHA256 planDigest = true ∧ validGenerationID id = Ok tt.
Proof.
  unfold parseRetentionQuarantineName. intros H. destruct (negb (has_prefix n retentionQuarantineFamilyPrefix)); [done|].
  destruct (has_prefix n retentionQuarantinePrefix) eqn:Hp; [|done]. cbn [negb] in H. destruct (negb _) eqn:Hl in H; [done|]. destruct (negb _) eqn:Hv in H; [done|].
  injection H as <- <-. apply negb_false_iff, andb_true_iff in Hl as [Hl%Nat.eqb_eq Hd%bool_decide_eq_true]. apply negb_false_iff, andb_true_iff in Hv as [Hv1 Hv2].
  split_and!; [|done|unfold is_ok_ in Hv2; by destruct (validGenerationID _) as [[]|]].
  apply has_prefix_spec in Hp as [rest ->]. rewrite drop_app_length in *. unfold retentionQuarantineGenerationName. rewrite !(drop_app_length' _ rest 25) by done. f_equal. rewrite <- (take_drop 64 rest) at 1. f_equal.
  rewrite (drop_S _ _ _ Hd). done.
Qed.

(** ** Plans *)

Definition candidate_ids (p : RetentionPlanV1) : list text := map ref_id (candidates p).
(** A plan as the parser accepts it. *)
Definition accepted (p : RetentionPlanV1) : Prop := ∃ l req, validateRetentionPlan p l req = Ok tt.
Lemma accepted_ids p : accepted p → (∀ r, r ∈ Inventory p → validGenerationID (gid r) = Ok tt) ∧ NoDup (gid <$> Inventory p).
Proof.
  intros (l & req & H). unfold validateRetentionPlan in H. oks H. match goal with H : inventory_loop _ _ _ _ = Ok _ |- _ => apply inventory_ok in H as (H1 & H2 & _) end.
  split; [|by apply rising_nodup]. intros r Hr. specialize (H1 r Hr). unfold record_ok in H1. oks H1. apply andb_true_iff in E4 as [E4 _]. apply andb_true_iff in E4 as [E4 _].
  apply andb_true_iff in E4 as [E4 _]. unfold is_ok_ in E4. unfold validGenerationID. unfold validateGenerationID in E4. by destruct (demand _ _) as [[]|].
Qed.
Lemma accepted_candidates p id : accepted p → id ∈ candidate_ids p → validGenerationID id = Ok tt ∧ ∃ r, r ∈ Inventory p ∧ gid r = id.
Proof.
  intros Ha Hin. pose proof Ha as (l & req & H). apply accepted_facts in H as (cur & _ & _ & _ & _ & Hc & _). unfold candidate_ids in Hin. rewrite Hc in Hin.
  change (map ref_id ?l) with (ref_id <$> l) in Hin. rewrite <- list_fmap_compose in Hin. apply list_elem_of_fmap in Hin as (r & -> & Hr).
  apply list_elem_of_In, filter_In in Hr as [Hr%list_elem_of_In _]. split; [by apply (accepted_ids p Ha)|eauto].
Qed.
(** What is protected is not a candidate. *)
Lemma accepted_protected p r : accepted p → r ∈ Protected p →
  (∃ rec, by_id (Inventory p) !! ref_id r = Some rec ∧ gid rec = ref_id r ∧ rec ∈ Inventory p) ∧ ref_id r ∉ candidate_ids p.
Proof.
  intros Ha Hr. pose proof Ha as (l & req & H). apply accepted_facts in H as (cur & Hcur & _ & _ & Hp & Hc & Hn). rewrite Hp in Hr.
  apply list_elem_of_fmap in Hr as (rec & -> & Hrec). pose proof (lineage_in _ _ _ _ Hcur Hrec) as Hin. split.
  - exists rec. split_and!; [by apply by_id_spec|done|done].
  - unfold candidate_ids. rewrite Hc. change (map ref_id ?l) with (ref_id <$> l). rewrite <- list_fmap_compose. intros (x & Hx & Hxin)%list_elem_of_fmap.
    apply list_elem_of_In, filter_In in Hxin as [Hxi%list_elem_of_In Hret]. assert (rec = x) as <- by (by eapply (id_inj (Inventory p))).
    unfold retains in Hret. by rewrite bool_decide_eq_true_2 in Hret.
Qed.
Lemma parsed_accepted sha256 ToLower unmarshal data limits p : ParseRetentionPlanV1 sha256 ToLower unmarshal data limits = Ok p → accepted p.
Proof.
  intros H. unfold ParseRetentionPlanV1, exactly in H. oks H. injection H as <-. unfold CanonicalRetentionPlanV1 in E2. oks E2. by eexists _, _.
Qed.

(** ** What an apply may touch *)

Definition touched (planDigest : text) (ids : list text) (q : path) : bool :=
  existsb (λ id, under (generationPath id) q || under (quarantine_path planDigest id) q) ids.
Lemma touched_true planDigest ids q : touched planDigest ids q = true ↔ ∃ id, id ∈ ids ∧ (under (generationPath id) q = true ∨ under (quarantine_path planDigest id) q = true).
Proof. unfold touched. rewrite existsb_exists. setoid_rewrite orb_true_iff. by setoid_rewrite list_elem_of_In. Qed.
Lemma touched_mono planDigest ids ids' q : ids ⊆ ids' → touched planDigest ids q = true → touched planDigest ids' q = true.
Proof. intros H. rewrite !touched_true. intros (id & Hid & Hu). exists id. split; [by apply H|done]. Qed.
Lemma untouched_pointer planDigest ids : touched planDigest ids [pointerFile] = false.
Proof. apply not_true_iff_false. rewrite touched_true. by intros (id & _ & [H|H]); apply under_split in H as [[|] H]. Qed.
Lemma untouched_generation planDigest ids id s : (∀ id', id' ∈ ids → validGenerationID id' = Ok tt) → validGenerationID id = Ok tt → id ∉ ids →
  touched planDigest ids (generationPath id ++ s) = false.
Proof.
  intros Hv Hid Hn. apply not_true_iff_false. rewrite touched_true. intros (id' & Hin & [H|H]); revert H; unfold generationPath, quarantine_path; cbn [app]; rewrite under_child, bool_decide_eq_true.
  - by intros ->.
  - intros He. by eapply quarantine_name_not_id in He; [|done|eapply valid_id_length; by apply Hv].
Qed.
Lemma untouched_quarantine planDigest ids id s : (∀ id', id' ∈ ids → validGenerationID id' = Ok tt) → length id = 32%nat → id ∉ ids →
  touched planDigest ids (quarantine_path planDigest id ++ s) = false.
Proof.
  intros Hv Hid Hn. apply not_true_iff_false. rewrite touched_true. intros (id' & Hin & [H|H]); revert H; unfold generationPath, quarantine_path; cbn [app]; rewrite under_child, bool_decide_eq_true.
  - intros He. symmetry in He. by eapply quarantine_name_not_id in He; [|by apply Hv|].
  - unfold retentionQuarantineGenerationName. by intros ->%app_inv_head%app_inv_head%app_inv_head.
Qed.

Section store.
Variable sha256 : text → vec ascii 32.
Variable SimpleFold : Z → Z.
Variable ToLower : text → text.
Variable unmarshalManifest : text → option Manifest.
Variable unmarshalReceipt : text → option Receipt.
Variable unmarshalPointer : text → option Pointer.
Variable unmarshalDelta : text → option CorpusDelta.GenerationDelta.
Variable unmarshalPlan : text → option RetentionPlanV1.
Variable limits : Limits.
Variable canonicalRoot : text.
Abbreviation open_generation := (openGeneration sha256 SimpleFold ToLower unmarshalManifest unmarshalReceipt limits).
Abbreviation tree := (sealed_tree sha256 SimpleFold ToLower unmarshalManifest unmarshalReceipt limits).
Abbreviation still := (pointer_still sha256 ToLower unmarshalPointer).
Abbreviation record_of_generation := (retentionRecordForGeneration sha256 ToLower unmarshalDelta limits).
Abbreviation inventory := (scanRetentionInventory sha256 SimpleFold ToLower unmarshalManifest unmarshalReceipt unmarshalDelta limits).
Abbreviation pin := (pinRetentionRecords sha256 SimpleFold ToLower unmarshalManifest unmarshalReceipt unmarshalDelta limits).
Abbreviation revalidate_all := (revalidateRetentionPinned sha256 SimpleFold limits).
Abbreviation loop := (remove_loop sha256 SimpleFold ToLower unmarshalPointer limits).
Abbreviation apply_ := (apply_plan sha256 SimpleFold ToLower unmarshalManifest unmarshalReceipt unmarshalPointer unmarshalDelta limits canonicalRoot).

(** ** What only reads *)

Lemma quiet_resolve : quiet (resolve canonicalRoot).
Proof. unfold resolve. keep. Qed.
#[local] Hint Resolve quiet_resolve : keep.
Lemma quiet_revalidate_identity i r c : quiet (revalidate_identity canonicalRoot i r c).
Proof. unfold revalidate_identity. keep. Qed.
#[local] Hint Resolve quiet_revalidate_identity : keep.
Lemma quiet_RootIdentityDigest : quiet (RootIdentityDigest sha256 canonicalRoot).
Proof. unfold RootIdentityDigest. keep. Qed.
Lemma quiet_directory_or p e : quiet (directory_or p e).
Proof. unfold directory_or. keep. Qed.
#[local] Hint Resolve quiet_RootIdentityDigest quiet_directory_or : keep.
Lemma quiet_list_entry a es n : quiet (list_entry a es n).
Proof. unfold list_entry. keep. Qed.
#[local] Hint Resolve quiet_list_entry : keep.
Lemma quiet_list_entries a ns : ∀ es, quiet (list_entries a es ns).
Proof. induction ns; cbn [list_entries]; unfold next_batch; keep. Qed.
#[local] Hint Resolve quiet_list_entries : keep.
Lemma quiet_list a : quiet (listRetentionGenerationEntries a).
Proof. unfold listRetentionGenerationEntries. keep. Qed.
Lemma quiet_CopyMember g s i r : quiet (CopyMember sha256 limits g s i r).
Proof. unfold CopyMember. keep. Qed.
#[local] Hint Resolve quiet_list quiet_CopyMember : keep.
Lemma quiet_record g : quiet (record_of_generation g).
Proof. unfold retentionRecordForGeneration. cbv zeta. keep. Qed.
#[local] Hint Resolve quiet_record : keep.
Lemma quiet_inventory_entry id : quiet (inventory_entry sha256 SimpleFold ToLower unmarshalManifest unmarshalReceipt unmarshalDelta limits id).
Proof. unfold inventory_entry. keep. Qed.
#[local] Hint Resolve quiet_inventory_entry : keep.
Lemma quiet_inventory_entries ids : ∀ ds, quiet (inventory_entries sha256 SimpleFold ToLower unmarshalManifest unmarshalReceipt unmarshalDelta limits ds ids).
Proof. induction ids; cbn [inventory_entries]; keep. Qed.
#[local] Hint Resolve quiet_inventory_entries : keep.
Lemma quiet_inventory a : quiet (inventory a).
Proof. unfold scanRetentionInventory. cbv zeta. keep. Qed.
Lemma quiet_still p : quiet (still p).
Proof. unfold pointer_still. keep. Qed.
Lemma quiet_quarantine_names p ns : ∀ q, quiet (quarantine_names p q ns).
Proof. induction ns; cbn [quarantine_names]; keep. Qed.
#[local] Hint Resolve quiet_inventory quiet_still quiet_quarantine_names : keep.
Lemma quiet_scanRetentionQuarantine p : quiet (scanRetentionQuarantine p).
Proof. unfold scanRetentionQuarantine. keep. Qed.
Lemma quiet_verifyQuarantined t id r : quiet (verifyQuarantinedGenerationIdentity t id r).
Proof. unfold verifyQuarantinedGenerationIdentity. keep. Qed.
Lemma quiet_pin rs : quiet (pin rs).
Proof. induction rs; cbn [pinRetentionRecords]; keep. Qed.
Lemma quiet_revalidate_all cs : quiet (revalidate_all cs).
Proof. unfold revalidateRetentionPinned. keep. Qed.
Lemma quiet_confirm es a : quiet (confirmRetentionEntries es a).
Proof. unfold confirmRetentionEntries. keep. Qed.
#[local] Hint Resolve quiet_scanRetentionQuarantine quiet_verifyQuarantined quiet_pin quiet_revalidate_all quiet_confirm : keep.

(** ** The generations an apply moves *)

Lemma keeps_finds_bind {A B} (R : disk → disk → Prop) (m : M A) (k : A → M B) P : (∀ d, finds m P d) → (∀ a, P a → keeps R (k a)) → PreOrder R → keeps R (m ≫= k).
Proof. intros Hm Hk HR d. apply wp_bind. eapply wp_mono; [apply Hm|]. intros [a|e|] d' [-> Ha]; [by apply Hk|done..]. Qed.

Lemma only_mono (P P' : path → bool) d d' : (∀ q, P q = true → P' q = true) → only P d d' → only P' d d'.
Proof. intros H Ho q Hq. apply Ho. apply not_true_iff_false. intros Hp. rewrite (H q Hp) in Hq. done. Qed.
Lemma only_quarantine planDigest c ids : gid (pc_record c) ∈ ids → validGenerationID (gid (pc_record c)) = Ok tt →
  keeps (only (touched planDigest ids)) (quarantinePinnedRetentionGeneration planDigest c).
Proof.
  intros Hin Hv. unfold quarantinePinnedRetentionGeneration. cbv zeta. set (id := gid (pc_record c)) in *.
  assert (Hr : keeps (only (touched planDigest ids)) (rename (generationPath id) (quarantine_path planDigest id))).
  { apply only_rename.
    - unfold quarantine_path, generationPath. rewrite under_child. apply bool_decide_eq_false. eapply quarantine_name_not_id; [done|by eapply valid_id_length].
    - intros q Hq. apply touched_true. eauto.
    - intros q Hq. apply touched_true. eauto. }
  keep.
Qed.
Lemma only_remove_loop p protected ids cs : (∀ c, c ∈ cs → gid (pc_record c) ∈ ids ∧ validGenerationID (gid (pc_record c)) = Ok tt) → ∀ started es,
  keeps (only (touched (PlanDigest p) ids)) (loop p protected started es cs).
Proof.
  induction cs as [|c cs IH]; intros H started es; cbn [remove_loop]; [keep|].
  assert (Hq : keeps (only (touched (PlanDigest p) ids)) (quarantinePinnedRetentionGeneration (PlanDigest p) c)) by (apply only_quarantine; apply H; set_solver).
  assert (Hl : ∀ s es', keeps (only (touched (PlanDigest p) ids)) (loop p protected s es' cs)) by (apply IH; set_solver). keep.
Qed.
Lemma only_purge_generation p ids id : id ∈ ids → keeps (only (touched (PlanDigest p) ids)) (purge_generation p id).
Proof.
  intros Hin. unfold purge_generation. cbv zeta. set (qp := quarantine_path (PlanDigest p) id).
  assert (Hqp : ∀ q, under qp q = true → touched (PlanDigest p) ids q = true) by (intros q Hq; apply touched_true; eauto).
  eapply keeps_finds_bind; [intros d; apply finds_OpenRoot| |apply _]. intros r Hr.
  assert (Hp : ∀ n, keeps (only (touched (PlanDigest p) ids)) (purge_name r n)).
  { intros n. unfold purge_name, below. rewrite Hr. assert (keeps (only (touched (PlanDigest p) ids)) (RemoveAll (qp ++ [n]))).
    { apply only_RemoveAll. intros q Hq. apply Hqp. apply under_split in Hq as [s ->]. rewrite <- (assoc_L (++)). apply under_app. }
    keep. }
  assert (Hm : keeps (only (touched (PlanDigest p) ids)) (remove qp)).
  { apply only_remove, Hqp. rewrite <- (app_nil_r qp) at 2. apply under_app. }
  keep.
Qed.
Lemma only_purge p : keeps (only (touched (PlanDigest p) (candidate_ids p))) (purgeRetentionQuarantine p).
Proof.
  unfold purgeRetentionQuarantine. apply keeps_bind; [keep|]. intros q. destruct (negb _); [keep|]. apply keeps_unknown_if, keeps_lift_bind. intros u Hv.
  apply keeps_each. intros id Hid. apply only_purge_generation. destruct u. unfold validateRetentionQuarantine in Hv. pose proof (proj1 (CorpusIndexer.all_pass_ok _ _) Hv id Hid) as H.
  cbn beta in H. oks H. by apply bool_decide_eq_true in E.
Qed.

(** ** What is left to move *)

Lemma by_id_key rs k r : by_id rs !! k = Some r → gid r = k ∧ r ∈ rs.
Proof.
  unfold by_id. assert (∀ m : gmap text record, (∀ k r, m !! k = Some r → gid r = k ∧ r ∈ rs) → ∀ l, (∀ x, x ∈ l → x ∈ rs) →
    foldl (λ m r, <[gid r := r]> m) m l !! k = Some r → gid r = k ∧ r ∈ rs) as H.
  { intros m Hm l. revert m Hm. induction l as [|x l IH]; intros m Hm Hl; cbn; [apply Hm|]. apply IH; [|set_solver]. intros k' r'.
    destruct (decide (k' = gid x)) as [->|]; [rewrite lookup_insert_eq; intros [= <-]; split; [done|apply Hl; set_solver]|rewrite lookup_insert_ne by done; apply Hm]. }
  apply (H ∅); [by intros ? ?; rewrite lookup_empty|done].
Qed.
Lemma reconcile_spec p s rs : reconcileRetentionApply p s = Ok rs →
  (∀ r, r ∈ rs → gid r ∈ candidate_ids p) ∧ ∀ r, r ∈ records s → gid r ∈ candidate_ids p → gid r ∈ gid <$> rs.
Proof.
  unfold reconcileRetentionApply. intros H. oks H. injection H as <-. split.
  - intros r (x & Hx & Hr)%list_elem_of_omap. case_bool_decide as Hc; [|done]. apply by_id_key in Hr as [-> _]. done.
  - intros r Hr Hc. assert (Hu : by_id (Inventory p) !! gid r = Some r).
    { clear -E0 Hr. induction (records s) as [|x l IH]; [set_solver|]. cbn [unchanged_loop] in E0. oks E0. apply elem_of_cons in Hr as [->|Hr]; [by apply bool_decide_eq_true in E|auto]. }
    apply by_id_key in Hu as [_ Hin]. assert (Hcur : is_Some (by_id (records s) !! gid r)).
    { unfold by_id. clear -Hr. assert (∀ m : gmap text record, r ∈ records s ∨ is_Some (m !! gid r) → is_Some (foldl (λ m r, <[gid r := r]> m) m (records s) !! gid r)) as H; [|by apply H; left].
      clear Hr. induction (records s) as [|x l IH]; intros m [Hm|Hm]; cbn; try done; [by apply elem_of_nil in Hm|..]; apply IH.
      - apply elem_of_cons in Hm as [->|Hm]; [right; rewrite lookup_insert_eq; eauto|by left].
      - right. destruct (decide (gid r = gid x)) as [->|]; [rewrite lookup_insert_eq; eauto|by rewrite lookup_insert_ne]. }
    destruct Hcur as [r' Hr']. apply list_elem_of_fmap. exists r'. pose proof (by_id_key _ _ _ Hr') as [Hg _]. split; [done|]. apply list_elem_of_omap. exists r.
    split; [done|]. rewrite bool_decide_eq_true_2 by done. done.
Qed.
Lemma finds_pin_records rs d : finds (pin rs) (λ cs, pc_record <$> cs = rs) d.
Proof.
  induction rs as [|r rs IH]; cbn [pinRetentionRecords]; [by apply finds_ret|]. skip. skip. skip. step IH. apply finds_ret. cbn. by f_equal.
Qed.
Lemma finds_unknown_if {A} b (m : M A) Q d : finds m Q d → finds (unknown_if b m) Q d.
Proof. intros H. unfold unknown_if. step finds_try; [exact H|]. destruct a; [by apply finds_ret|apply finds_throw]. Qed.

(** ** The frame of an apply *)

(** What is decided before anything moves. *)
Definition survey (p : RetentionPlanV1) (q : quarantine) : M (snapshot * list retentionPinnedCandidate * list retentionPinnedCandidate) :=
  s ← inventory (PlanDigest p);
  lift (validateRetentionQuarantine p (entries s) q) ;;
  remaining ← lift (reconcileRetentionApply p s);
  still (Current p) ;;
  protected ← pin (retentionProtectedRecords p);
  pinned ← pin remaining;
  revalidate_all protected ;;
  still (Current p) ;;
  mret (s, protected, pinned).
Lemma quiet_survey p q : quiet (survey p q).
Proof. unfold survey. keep. Qed.
Lemma finds_survey p q d : finds (survey p q) (λ x, reconcileRetentionApply p x.1.1 = Ok (pc_record <$> x.2)) d.
Proof.
  unfold survey. skip. skip. step finds_lift. skip. skip. step finds_pin_records. skip. skip. apply finds_ret. cbn. by rewrite H0.
Qed.
Lemma pinned_candidates p x c : accepted p → reconcileRetentionApply p x = Ok (pc_record <$> c) →
  ∀ y, y ∈ c → gid (pc_record y) ∈ candidate_ids p ∧ validGenerationID (gid (pc_record y)) = Ok tt.
Proof.
  intros Ha [H _]%reconcile_spec y Hy. assert (Hg : gid (pc_record y) ∈ candidate_ids p) by (apply H, list_elem_of_fmap; eauto).
  split; [done|]. by apply accepted_candidates in Hg as [? _].
Qed.
Lemma only_apply p : accepted p → keeps (only (touched (PlanDigest p) (candidate_ids p))) (apply_ p).
Proof.
  intros Ha. unfold apply_plan. do 8 (apply keeps_bind; [keep|intros ?]). cbv zeta.
  eapply (keeps_finds_bind _ _ _ (λ x, reconcileRetentionApply p x.1.1 = Ok (pc_record <$> x.2))); [|intros [[s protected] pinned] H; cbn [fst snd] in H|apply _].
  { intros d. apply finds_unknown_if. apply (finds_survey p a6). }
  pose proof (pinned_candidates p s pinned Ha H) as Hp. apply keeps_bind; [by apply only_remove_loop|]. intros r. pose proof (only_purge p). keep.
Qed.

(** ** What the survey of a store finds *)

Lemma finds_list_entries a ns d : ∀ es, finds (list_entries a es ns)
  (λ es', (∀ n, is_Some (es !! n) → is_Some (es' !! n)) ∧
          ∀ n, n ∈ ns → (parseRetentionQuarantineName n = None ∧ is_Some (es' !! n)) ∨ ∃ id, parseRetentionQuarantineName n = Some (Ok (a, id))) d.
Proof.
  induction ns as [|n ns IH]; intros es; cbn [list_entries]; unfold next_batch; skip; [apply finds_ret; split; [done|set_solver]|].
  eapply (finds_bind _ _ (λ es', (∀ m, is_Some (es !! m) → is_Some (es' !! m)) ∧
    ((parseRetentionQuarantineName n = None ∧ is_Some (es' !! n)) ∨ ∃ id, parseRetentionQuarantineName n = Some (Ok (a, id))))).
  - unfold list_entry. destruct (parseRetentionQuarantineName n) as [[[dg id]|e]|].
    + destruct (eqt a [] || negb (eqt dg a)) eqn:Ha; [eapply (finds_bind _ _ (λ _, False)); [apply finds_throw|done]|]. skip. skip. apply finds_ret. split; [done|].
      right. exists id. apply orb_false_iff in Ha as [_ Ha%negb_false_iff%bool_decide_eq_true]. by subst.
    + eapply (finds_bind _ _ (λ _, False)); [apply finds_throw|done].
    + skip. skip. skip. apply finds_ret. split; [|left; rewrite lookup_insert_eq; split; [done|eauto]].
      intros m Hm. destruct (decide (m = n)) as [->|]; [rewrite lookup_insert_eq; eauto|by rewrite lookup_insert_ne].
  - intros es1 [H1 H2]. eapply finds_mono; [apply IH|]. intros es' [H3 H4]. split; [auto|]. intros m [->|Hm]%elem_of_cons; [|auto].
    destruct H2 as [[H2 H5]|H2]; [left; auto|by right].
Qed.
Lemma finds_list a d : finds (listRetentionGenerationEntries a)
  (λ es, ∀ n, is_Some (d !! [generationsDir; n]) → (parseRetentionQuarantineName n = None ∧ is_Some (es !! n)) ∨ ∃ id, parseRetentionQuarantineName n = Some (Ok (a, id))) d.
Proof.
  unfold listRetentionGenerationEntries. skip. step finds_names. subst. step finds_list_entries. destruct H as [_ H]. skip. skip. apply finds_ret.
  intros n Hn. apply H. by apply elem_of_names.
Qed.
Lemma finds_record g d : finds (record_of_generation g) (λ a, gid a = g_id g ∧ gdigest a = GenerationDigest (g_receipt g)) d.
Proof.
  unfold retentionRecordForGeneration. cbv zeta. destruct (eqt _ _); [skip; by apply finds_ret|]. destruct (List.filter _ _) as [|m [|]]; try apply finds_throw.
  skip. skip. destruct (CorpusDelta.ParseGenerationDelta _ _ _ _); [skip; by apply finds_ret|apply finds_throw].
Qed.
Section rooted.
Variable d : disk.
Hypothesis Hroot : rooted d.
Abbreviation unsealed id := (d !! (generationPath id ++ [receiptFile]) = None).
Lemma finds_inventory_entry id : finds (inventory_entry sha256 SimpleFold ToLower unmarshalManifest unmarshalReceipt unmarshalDelta limits id)
  (λ e, match e with None => unsealed id | Some r => gid r = id end) d.
Proof.
  unfold inventory_entry. skip. step finds_OpenRoot. skip. step finds_observe. unfold below in H0. rewrite H in H0.
  destruct a2 as [i|[]]; try apply finds_throw.
  - skip. skip. step finds_openGeneration; [done|]. destruct H1 as (H1 & _). step finds_record. destruct H2 as [H2 _]. skip. apply finds_ret. congruence.
  - skip. apply finds_ret. destruct H0 as [H0|H0]; [|done]. by destruct (d !! _).
Qed.
Lemma finds_inventory_entries ids : ∀ ds, finds (inventory_entries sha256 SimpleFold ToLower unmarshalManifest unmarshalReceipt unmarshalDelta limits ds ids)
  (λ r, ∀ id, id ∈ ids → id ∈ gid <$> r.1 ∨ unsealed id) d.
Proof.
  induction ids as [|id ids IH]; intros ds; cbn [inventory_entries]; [apply finds_ret; set_solver|]. step finds_inventory_entry. destruct a as [r|].
  - skip. step IH. apply finds_ret. cbn. intros x [->|Hx]%elem_of_cons; [left; rewrite H; set_solver|]. destruct (H0 x Hx); [left; set_solver|by right].
  - step IH. apply finds_ret. cbn. intros x [->|Hx]%elem_of_cons; [by right|auto].
Qed.
Lemma finds_inventory a : finds (inventory a) (λ s, ∀ id, validGenerationID id = Ok tt → ¬ unsealed id → id ∈ gid <$> records s) d.
Proof.
  unfold scanRetentionInventory. cbv zeta. step finds_list. skip. step finds_inventory_entries. skip. destruct a3 as [final|]; [|apply finds_throw]. skip. apply finds_ret.
  cbn [records]. intros id Hv Hn. destruct (H0 id) as [Hin|Hin]; [|done..].
  assert (Hd : is_Some (d !! [generationsDir; id])).
  { destruct (d !! (generationPath id ++ [receiptFile])) as [e|] eqn:He; [|done]. assert (Hne : generationPath id ++ [receiptFile] ≠ []) by done. specialize (Hroot _ _ He Hne). clear He. rename Hroot into He. unfold parent in He. rewrite removelast_last in He.
    unfold generationPath in He. destruct (d !! [generationsDir; id]); [eauto|done]. }
  destruct (H id Hd) as [[_ [i Hi]]|[id' Hp]].
  - rewrite merge_sort_Permutation. apply list_elem_of_fmap. exists (id, i). split; [done|]. by apply elem_of_map_to_list.
  - exfalso. apply parse_spells in Hp as (Hp & _ & Hv'). symmetry in Hp. by eapply quarantine_name_not_id in Hp; [|done|eapply valid_id_length].
Qed.
Lemma finds_pin rs : finds (pin rs) (λ cs, ∀ r, r ∈ rs → ∃ m rc, tree d (generationPath (gid r)) m rc ∧ GenerationDigest rc = gdigest r) d.
Proof.
  induction rs as [|r rs IH]; cbn [pinRetentionRecords]; [apply finds_ret; set_solver|]. step finds_openGeneration; [done|]. destruct H as (Hid & _ & _ & Ht).
  step finds_try; [apply finds_record|]. eapply (finds_bind _ _ (λ _, gdigest r = GenerationDigest (g_receipt a))).
  { destruct a0 as [x|]; [|apply finds_throw]. eapply finds_mono; [apply finds_check|]. intros [] Hx%bool_decide_eq_true. subst. by destruct H. }
  intros _ Hg. step IH. apply finds_ret. intros x [->|Hx]%elem_of_cons; [|by apply H0]. by exists (g_manifest a), (g_receipt a).
Qed.
End rooted.

(** ** What moving and purging leave *)

Lemma done_bind {A B} (m : M A) (k : A → M B) (P : A → disk → Prop) (Q : B → disk → Prop) d :
  wp m (on_done P) d → (∀ a d', P a d' → wp (k a) (on_done Q) d') → wp (m ≫= k) (on_done Q) d.
Proof. intros Hm Hk. apply wp_bind. eapply wp_mono; [apply Hm|]. intros [a|e|] d' H; [by apply Hk|done..]. Qed.
Lemma done_finds {A B} (m : M A) (k : A → M B) P (Q : B → disk → Prop) d : finds m P d → (∀ a, P a → wp (k a) (on_done Q) d) → wp (m ≫= k) (on_done Q) d.
Proof. intros Hm Hk. apply wp_bind. eapply wp_mono; [apply Hm|]. intros [a|e|] d' [-> H]; [by apply Hk|done..]. Qed.
Lemma done_any {A B} (m : M A) (k : A → M B) (Q : B → disk → Prop) d : (∀ a d', wp (k a) (on_done Q) d') → wp (m ≫= k) (on_done Q) d.
Proof. intros Hk. eapply (done_bind _ _ (λ _ _, True)); [|auto]. by intros η w _; destruct (m η w).2. Qed.
Lemma done_quiet {A} (m : M A) (Q : disk → Prop) d : quiet m → Q d → wp m (on_done (λ _, Q)) d.
Proof. intros Hm HQ. eapply wp_mono; [apply Hm|]. by intros [] d' <-. Qed.
Lemma done_unknown_if {A} b (m : M A) (Q : A → disk → Prop) d : wp m (on_done Q) d → wp (unknown_if b m) (on_done Q) d.
Proof. intros H. unfold unknown_if. apply wp_bind, wp_try. eapply wp_mono; [apply H|]. intros [a|e|] d' Ha; [by apply wp_ret|by apply wp_throw|done]. Qed.
Ltac done_skip := eapply done_finds; [apply finds_quiet; keep|intros ? _].

Definition gone (id : text) (d : disk) : Prop := ∀ s, d !! (generationPath id ++ s) = None.
Lemma wp_quarantine planDigest c d : validGenerationID (gid (pc_record c)) = Ok tt →
  wp (quarantinePinnedRetentionGeneration planDigest c) (on_done (λ _, gone (gid (pc_record c)))) d.
Proof.
  intros Hv. unfold quarantinePinnedRetentionGeneration. cbv zeta. set (id := gid (pc_record c)) in *. do 5 done_skip.
  apply wp_bind, wp_change; [intros i| |done].
  - assert (Hfail : ∀ e, wp (source ← try (ensureGenerationRoot id (g_root (pc_generation c)));
        match source with inl _ => t ← lstat (quarantine_path planDigest id); match t with Err ENOENT => throw (Integrity ReasonIO) | _ => throw ErrOutcomeUnknown end | inr _ => throw ErrOutcomeUnknown end)
        (on_done (λ _ : unit, gone id)) d ∧ e = e :> sysError).
    { intros e. split; [|done]. apply done_any. intros [] d'; [apply done_any; intros [|[]] d''; by apply wp_throw|by apply wp_throw]. }
    assert (Ha : under (generationPath id) (quarantine_path planDigest id) = false ∧ under (quarantine_path planDigest id) (generationPath id) = false).
    { unfold quarantine_path, generationPath. rewrite !under_child, !bool_decide_eq_false. pose proof (quarantine_name_not_id planDigest id id tt Hv (valid_id_length _ _ Hv)). by split. }
    destruct Ha as [Ha Hb]. rewrite Ha, orb_false_r. destruct (d !! generationPath id) as [e|]; [|by apply (Hfail ENOENT)]. destruct (negb _); [by apply (Hfail EOTHER)|].
    assert (Hok : ∀ u : unit, wp (unknown_if true (verifyQuarantinedGenerationIdentity (quarantine_path planDigest id) id (g_root (pc_generation c)) ;;
        hit "after_retention_quarantine_rename" ;; or_io (syncDirectory [generationsDir]) ;; hit "after_retention_quarantine_sync"))
        (on_done (λ _, gone id)) (move (generationPath id) (quarantine_path planDigest id) d) ∧ u = tt).
    { intros []. split; [|done]. apply (done_quiet _ (gone id)); [keep|]. intros s. by apply move_source. }
    destruct e, (d !! quarantine_path planDigest id) as [[]|]; try (by apply (Hok tt)); try (by apply (Hfail EOTHER)).
    destruct (empty_dir _ _); [by apply (Hok tt)|by apply (Hfail EOTHER)].
  - apply done_any. intros [] d'; [apply done_any; intros [|[]] d''; by apply wp_throw|by apply wp_throw].
Qed.
Lemma gone_kept planDigest id id' d d' : validGenerationID id = Ok tt → validGenerationID id' = Ok tt → id ≠ id' → only (touched planDigest [id]) d d' → gone id' d → gone id' d'.
Proof.
  intros Hv Hv' Hne Ho Hg s. rewrite Ho; [apply Hg|]. apply untouched_generation; [|done|set_solver]. intros x Hx. apply list_elem_of_singleton in Hx as ->. done.
Qed.
Lemma wp_remove_loop p protected cs : (∀ c, c ∈ cs → validGenerationID (gid (pc_record c)) = Ok tt) → ∀ (away : list text) started es d,
  (∀ id, id ∈ away → validGenerationID id = Ok tt ∧ gone id d) →
  wp (loop p protected started es cs) (on_done (λ _ d', ∀ id, id ∈ away ∨ id ∈ (λ c, gid (pc_record c)) <$> cs → gone id d')) d.
Proof.
  induction cs as [|c cs IH]; intros Hv away started es d Ha; cbn [remove_loop].
  { apply wp_ret. intros id [Hid|Hid]; [by apply Ha|by apply elem_of_nil in Hid]. }
  set (id := gid (pc_record c)) in *. assert (Hid : validGenerationID id = Ok tt) by (apply Hv; set_solver).
  eapply (done_bind _ _ (λ _ d', ∀ x, x ∈ id :: away → validGenerationID x = Ok tt ∧ gone x d')).
  - apply done_unknown_if. do 7 done_skip.
    pose proof (only_quarantine (PlanDigest p) c [id] ltac:(set_solver) Hid d) as Ho. pose proof (wp_quarantine (PlanDigest p) c d Hid) as Hw.
    eapply wp_mono; [apply (wp_and _ _ _ _ Ho Hw)|]. intros [u|e|] d' [H1 H2]; try done. intros x Hx. destruct (decide (x = id)) as [->|Hne]; [by split|].
    apply elem_of_cons in Hx as [->|Hx]; [done|]. destruct (Ha x Hx) as [Hvx Hgx]. split; [done|]. exact (gone_kept _ _ _ _ _ Hid Hvx (not_eq_sym Hne) H1 Hgx).
  - intros u d' Hd'. done_skip. eapply wp_mono; [apply (IH ltac:(set_solver) (id :: away)); exact Hd'|].
    intros [r|e|] d'' H; try done. intros x Hx. apply H. cbn in Hx. set_solver.
Qed.

(** A purge only takes away. *)
Definition shrinks (d d' : disk) : Prop := d' ⊆ d.
#[local] Instance shrinks_pre : PreOrder shrinks.
Proof. split; [intros d; by unfold shrinks|]. intros d1 d2 d3 H1 H2. unfold shrinks in *. by trans d2. Qed.
Lemma shrinks_remove q : keeps shrinks (remove q).
Proof. apply keeps_change. intros i d. unfold shrinks. destruct (d !! q) as [[]|]; [|destruct (empty_dir d q)|]; cbn; try done; apply delete_subseteq. Qed.
Lemma shrinks_RemoveAll q : keeps shrinks (RemoveAll q).
Proof. intros d. apply wp_call; intros; apply map_filter_subseteq. Qed.
#[local] Hint Resolve shrinks_remove shrinks_RemoveAll : keep.
Lemma shrinks_purge_generation p id : keeps shrinks (purge_generation p id).
Proof. unfold purge_generation, purge_name. cbv zeta. keep. Qed.
Lemma wp_purge_generation p id d : wp (purge_generation p id) (on_done (λ _ d', d' !! quarantine_path (PlanDigest p) id = None)) d.
Proof.
  unfold purge_generation. cbv zeta. do 12 (apply done_any; intros ? ?). apply wp_bind, wp_or_reject, wp_change; [intros i|done..].
  match goal with |- context [?x !! quarantine_path ?y ?z] => destruct (x !! quarantine_path y z) as [[]|] eqn:Hq end; [|destruct (empty_dir _ _)|]; try done.
  all: cbn [fst snd]; apply done_quiet; [keep|apply lookup_delete_eq].
Qed.
Lemma wp_purge_all p ids d : wp (each (purge_generation p) ids) (on_done (λ _ d', ∀ id, id ∈ ids → d' !! quarantine_path (PlanDigest p) id = None)) d.
Proof.
  revert d. induction ids as [|id ids IH]; intros d; [apply wp_ret; set_solver|]. cbn. eapply done_bind; [apply wp_purge_generation|]. intros u d' H.
  assert (Hs : keeps shrinks (each (purge_generation p) ids)) by (apply keeps_each; intros; apply shrinks_purge_generation).
  eapply wp_mono; [apply (wp_and _ _ _ _ (Hs d') (IH d'))|]. intros [[]|e|] d'' [H1 H2]; try done. intros x [->|Hx]%elem_of_cons; [|auto].
  apply eq_None_not_Some. intros [e He]. eapply lookup_weaken in He; [|exact H1]. congruence.
Qed.

(** No name of the quarantine family is left. *)
Definition no_quarantine (d : disk) : Prop := ∀ n, is_Some (parseRetentionQuarantineName n) → d !! [generationsDir; n] = None.
Lemma finds_quarantine_names p ns d : ∀ q, finds (quarantine_names p q ns)
  (λ q', (present q = true → present q' = true) ∧ quarantined q ⊆ quarantined q' ∧
         ∀ n, n ∈ ns → is_Some (parseRetentionQuarantineName n) → present q' = true ∧ ∃ id, n = retentionQuarantineGenerationName (PlanDigest p) id ∧ id ∈ quarantined q') d.
Proof.
  induction ns as [|n ns IH]; intros q; cbn [quarantine_names]; [apply finds_ret; split_and!; [done|done|set_solver]|].
  destruct (parseRetentionQuarantineName n) as [[[dg id]|e]|] eqn:Hp; [|apply finds_throw|].
  - eapply (finds_bind _ _ (λ _, dg = PlanDigest p)). { destruct (eqt dg (PlanDigest p)) eqn:He; [apply finds_ret; by apply bool_decide_eq_true in He|apply finds_throw]. }
    intros _ ->. skip. skip. destruct a0 as [|[]]; try apply finds_throw. eapply finds_mono; [apply IH|]. cbn [present quarantined]. intros q' (H1 & H2 & H3).
    split_and!; [auto|clear -H2; set_solver|]. intros m [->|Hm]%elem_of_cons Hs; [|auto]. split; [auto|]. exists id.
    split; [by apply parse_spells in Hp as [-> _]|]. apply H2, elem_of_app. right. by apply list_elem_of_singleton.
  - eapply finds_mono; [apply IH|]. intros q' (H1 & H2 & H3). split_and!; [done..|]. intros m [->|Hm]%elem_of_cons Hs; [rewrite Hp in Hs; by destruct Hs|auto].
Qed.
Lemma finds_names_of p0 d : finds (verifiedDirectoryNames p0) (λ ns, ns = names d p0) d.
Proof. unfold verifiedDirectoryNames. skip. step finds_names. skip. skip. by apply finds_ret. Qed.
Lemma finds_scanRetentionQuarantine p d : finds (scanRetentionQuarantine p)
  (λ q, ∀ n, is_Some (d !! [generationsDir; n]) → is_Some (parseRetentionQuarantineName n) →
          present q = true ∧ ∃ id, n = retentionQuarantineGenerationName (PlanDigest p) id ∧ id ∈ quarantined q) d.
Proof.
  unfold scanRetentionQuarantine. step finds_names_of. subst. step finds_quarantine_names. destruct H as (_ & _ & H). apply finds_ret. cbn [present quarantined]. intros n Hn Hp.
  destruct (H n) as (Hpr & id & Hid & Hin); [by apply elem_of_names|done|]. split; [done|]. exists id. split; [done|]. by rewrite merge_sort_Permutation.
Qed.
Lemma wp_purge p d : wp (purgeRetentionQuarantine p) (on_done (λ _ d', no_quarantine d' ∧ d' ⊆ d)) d.
Proof.
  unfold purgeRetentionQuarantine. eapply done_finds; [apply finds_scanRetentionQuarantine|]. intros q Hq. destruct (negb (present q)) eqn:Hp.
  - apply wp_ret. split; [|done]. intros n Hn. apply eq_None_not_Some. intros Hs. destruct (Hq n Hs Hn) as [H _]. by rewrite H in Hp.
  - apply done_unknown_if. eapply done_finds; [apply finds_lift|]. intros u _.
    assert (Hs : keeps shrinks (each (purge_generation p) (quarantined q))) by (apply keeps_each; intros; apply shrinks_purge_generation).
    eapply wp_mono; [apply (wp_and _ _ _ _ (Hs d) (wp_purge_all p (quarantined q) d))|]. intros [[]|e|] d' [H1 H2]; try done. split; [|done].
    intros n Hn. apply eq_None_not_Some. intros [e He]. destruct (Hq n) as (_ & id & -> & Hin); [by eapply lookup_weaken in He; [eexists|exact H1]|done|].
    specialize (H2 id Hin). unfold quarantine_path in H2. congruence.
Qed.

(** ** The theorems *)

Lemma tree_kept d d' q m rc : (∀ s, d' !! (q ++ s) = d !! (q ++ s)) → tree d q m rc → tree d' q m rc.
Proof.
  intros He (mb & rb & H1 & H2 & H3 & [i H4] & [j H5] & H6 & H7). exists mb, rb. split_and!; [done..|exists i; by rewrite He|exists j; by rewrite He| |].
  - intros x Hx. destruct (H6 x Hx) as (data & [k Hk] & Hd). exists data. split; [exists k; by rewrite He|done].
  - intros rel e. rewrite He. apply H7.
Qed.
Lemma finds_still p d : finds (still p) (λ _, pointer_on ToLower unmarshalPointer d (Some p)) d.
Proof.
  unfold pointer_still. step finds_try; [apply finds_readPointer|]. destruct a as [x|]; [|apply finds_throw]. eapply finds_mono; [apply finds_check|].
  intros _ Hx%bool_decide_eq_true. by subst.
Qed.
(** What an apply that succeeded leaves. *)
Definition applied (p : RetentionPlanV1) (d : disk) : Prop :=
  pointer_on ToLower unmarshalPointer d (Some (Current p)) ∧ (∀ id, id ∈ candidate_ids p → d !! (generationPath id ++ [receiptFile]) = None) ∧ no_quarantine d ∧
  ∀ r, r ∈ Protected p → ∃ m rc, tree d (generationPath (ref_id r)) m rc.
Lemma finds_and {A} (m : M A) (P Q : A → Prop) d : finds m P d → finds m Q d → finds m (λ a, P a ∧ Q a) d.
Proof. intros HP HQ. eapply wp_mono; [apply (wp_and _ _ _ _ HP HQ)|]. by intros [] d' [[-> ?] [_ ?]]. Qed.
(** What the survey knows of the disk. *)
Definition surveyed (p : RetentionPlanV1) (d : disk) (x : snapshot * list retentionPinnedCandidate * list retentionPinnedCandidate) : Prop :=
  reconcileRetentionApply p x.1.1 = Ok (pc_record <$> x.2) ∧
  (∀ id, validGenerationID id = Ok tt → d !! (generationPath id ++ [receiptFile]) ≠ None → id ∈ gid <$> records x.1.1) ∧
  ∀ r, r ∈ retentionProtectedRecords p → ∃ m rc, tree d (generationPath (gid r)) m rc.
Lemma finds_surveyed p q d : rooted d → finds (survey p q) (surveyed p d) d.
Proof.
  intros Hr. apply finds_and; [apply finds_survey|]. unfold survey. step finds_inventory; [done|]. skip. skip. skip. step finds_pin; [done|]. skip. skip. skip. apply finds_ret. split; [done|].
  intros r Hin. destruct (H0 r Hin) as (m & rc & Ht & _). eauto.
Qed.
Lemma wp_moved p protected pinned started es d :
  (∀ y, y ∈ pinned → gid (pc_record y) ∈ candidate_ids p ∧ validGenerationID (gid (pc_record y)) = Ok tt) →
  wp (loop p protected started es pinned)
    (on_done (λ _ d', only (touched (PlanDigest p) (map (λ c, gid (pc_record c)) pinned)) d d' ∧ ∀ id, id ∈ (λ c, gid (pc_record c)) <$> pinned → gone id d')) d.
Proof.
  intros Hp. assert (Hon : keeps (only (touched (PlanDigest p) (map (λ c, gid (pc_record c)) pinned))) (loop p protected started es pinned)).
  { apply only_remove_loop. intros c Hc. split; [|by apply Hp]. change (map ?f ?l) with (f <$> l). apply list_elem_of_fmap. eauto. }
  pose proof (wp_remove_loop p protected pinned (λ c Hc, proj2 (Hp c Hc)) [] started es d ltac:(set_solver)) as Hw.
  eapply wp_mono; [apply (wp_and _ _ _ _ (Hon d) Hw)|]. intros [r|e|] d' [H1 H2]; try done. split; [done|]. intros id Hid. apply H2. by right.
Qed.
Lemma wp_purged p d : wp (purgeRetentionQuarantine p) (on_done (λ _ d', (only (touched (PlanDigest p) (candidate_ids p)) d d' ∧ d' ⊆ d) ∧ no_quarantine d')) d.
Proof. eapply wp_mono; [apply (wp_and _ _ _ _ (only_purge p d) (wp_purge p d))|]. intros [r|e|] d' [H1 H2]; try done. by destruct H2. Qed.
Lemma protected_records p r : accepted p → r ∈ Protected p → ∃ rec, rec ∈ retentionProtectedRecords p ∧ gid rec = ref_id r ∧ validGenerationID (ref_id r) = Ok tt.
Proof.
  intros Ha Hr. destruct (accepted_protected p r Ha Hr) as [(rec & Hk & Hg & Hin) _]. exists rec. split_and!; [|done|rewrite <- Hg; by apply (accepted_ids p Ha)].
  unfold retentionProtectedRecords. change (map ?f ?l) with (f <$> l). apply list_elem_of_fmap. exists r. by rewrite Hk.
Qed.
(** From what was surveyed, moved and purged to what an apply leaves. *)
Lemma applied_from p s protected pinned d d1 d2 : accepted p → surveyed p d (s, protected, pinned) →
  only (touched (PlanDigest p) (map (λ c, gid (pc_record c)) pinned)) d d1 → (∀ id, id ∈ (λ c, gid (pc_record c)) <$> pinned → gone id d1) →
  only (touched (PlanDigest p) (candidate_ids p)) d1 d2 → d2 ⊆ d1 → no_quarantine d2 → pointer_on ToLower unmarshalPointer d2 (Some (Current p)) → applied p d2.
Proof.
  intros Ha (Hrec & Hsnap & Hprot) Hon Hgone Hon2 Hsub Hnq Hptr. cbn [fst snd] in *. pose proof (pinned_candidates p s pinned Ha Hrec) as Hp.
  assert (Hids : ∀ id, id ∈ map (λ c, gid (pc_record c)) pinned → id ∈ candidate_ids p ∧ validGenerationID id = Ok tt).
  { intros id. change (map ?f ?l) with (f <$> l). intros (c & -> & Hc)%list_elem_of_fmap. by apply Hp. }
  assert (Hcands : ∀ id, id ∈ candidate_ids p → validGenerationID id = Ok tt) by (intros id Hid; by apply (accepted_candidates p id Ha) in Hid as [? _]).
  split_and!; [done| |done|].
  - intros id Hid. apply eq_None_not_Some. intros [e He]. eapply lookup_weaken in He; [|exact Hsub].
    destruct (decide (id ∈ (λ c, gid (pc_record c)) <$> pinned)) as [Hin|Hnot]; [by rewrite (Hgone id Hin) in He|].
    rewrite Hon in He; [|apply untouched_generation; [intros; by apply Hids|by apply Hcands|done]].
    destruct (reconcile_spec _ _ _ Hrec) as [_ Hall]. assert (Hr : id ∈ gid <$> records s) by (apply Hsnap; [by apply Hcands|congruence]).
    apply list_elem_of_fmap in Hr as (rec & -> & Hr). apply Hnot. specialize (Hall rec Hr Hid). by rewrite <- list_fmap_compose in Hall.
  - intros r Hr. destruct (protected_records p r Ha Hr) as (rec & Hrin & Hg & Hv). destruct (Hprot rec Hrin) as (m & rc & Ht). rewrite Hg in Ht. exists m, rc.
    destruct (accepted_protected p r Ha Hr) as [_ Hnot]. eapply tree_kept; [|exact Ht]. intros x. rewrite Hon2, Hon; [done|apply untouched_generation; [..|]|apply untouched_generation]; try done.
    + intros; by apply Hids.
    + intros Hin. by apply Hnot, Hids.
Qed.
Lemma wp_apply p d : rooted d → accepted p → wp (apply_ p) (on_done (λ _, applied p)) d.
Proof.
  intros Hr Ha. unfold apply_plan. do 8 done_skip. cbv zeta. rename a6 into q.
  eapply done_finds; [apply finds_unknown_if, (finds_surveyed p q d Hr)|]. intros [[s protected] pinned] Hs.
  eapply done_bind; [apply wp_moved, (pinned_candidates p s pinned Ha); by destruct Hs|]. cbn beta. intros r d1 [Hon Hgone].
  eapply (done_bind _ _ (λ _ d2, applied p d2)); [|intros u d2 H; by apply wp_ret]. apply done_unknown_if. do 2 done_skip.
  eapply done_bind; [apply wp_purged|]. cbn beta. intros u d2 [[Hon2 Hsub] Hnq]. done_skip. eapply done_finds; [apply finds_still|]. cbn beta. intros _ Hptr.
  apply (done_quiet _ (applied p)); [keep|]. by eapply applied_from.
Qed.

Abbreviation Apply := (ApplyRetentionPlanV1 sha256 SimpleFold ToLower unmarshalManifest unmarshalReceipt unmarshalPointer unmarshalDelta unmarshalPlan limits canonicalRoot).
(** One attempt after the other, each in the environment it meets. *)
Definition attempts (reviewed expectedDigest : text) (ηs : list env) (w : world) : world := foldl (λ w η, (Apply reviewed expectedDigest η w).1) w ηs.
Lemma only_Apply reviewed expectedDigest p : ParseRetentionPlanV1 sha256 ToLower unmarshalPlan reviewed limits = Ok p →
  keeps (only (touched (PlanDigest p) (candidate_ids p))) (Apply reviewed expectedDigest).
Proof.
  intros H. unfold ApplyRetentionPlanV1. apply keeps_bind; [keep|]. intros _. apply keeps_lift_bind. intros p' Hp. rewrite H in Hp. injection Hp as <-.
  pose proof (only_apply p (parsed_accepted _ _ _ _ _ _ H)). keep.
Qed.

(** C5: However often a reviewed plan is applied, whatever fails in an attempt and
    wherever one dies, nothing on the disk differs but what is below the
    generations the plan lists for deletion, under their own names or in its
    quarantine; the pointer and every protected generation stay as they were. *)
Theorem apply_frame reviewed expectedDigest p ηs w :
  ParseRetentionPlanV1 sha256 ToLower unmarshalPlan reviewed limits = Ok p →
  let d := dsk w in let d' := dsk (attempts reviewed expectedDigest ηs w) in
  only (touched (PlanDigest p) (candidate_ids p)) d d' ∧ d' !! [pointerFile] = d !! [pointerFile] ∧
  ∀ r s, r ∈ Protected p → d' !! (generationPath (ref_id r) ++ s) = d !! (generationPath (ref_id r) ++ s).
Proof.
  intros Hp. pose proof (parsed_accepted _ _ _ _ _ _ Hp) as Ha. cbv zeta.
  assert (Ho : only (touched (PlanDigest p) (candidate_ids p)) (dsk w) (dsk (attempts reviewed expectedDigest ηs w))).
  { revert w. induction ηs as [|η ηs IH]; intros w; [done|]. cbn. etrans; [|apply IH]. by apply (only_Apply _ _ _ Hp). }
  split_and!; [done|by apply Ho, untouched_pointer|]. intros r s Hr. apply Ho. destruct (accepted_protected p r Ha Hr) as [(rec & _ & Hg & Hin) Hnot].
  apply untouched_generation; [|rewrite <- Hg; by apply (accepted_ids p Ha)|done]. intros id Hid. by apply (accepted_candidates p id Ha) in Hid as [? _].
Qed.
(** C14: An apply that succeeds leaves no sealed generation the plan lists for
    deletion and nothing in quarantine; the pointer is the one of the plan, and
    every protected generation is whole. *)
Theorem apply_complete reviewed expectedDigest p η w w' st :
  rooted (dsk w) → ParseRetentionPlanV1 sha256 ToLower unmarshalPlan reviewed limits = Ok p → Apply reviewed expectedDigest η w = (w', Done st) → applied p (dsk w').
Proof.
  intros Hr Hp H. assert (Hw : wp (Apply reviewed expectedDigest) (on_done (λ _, applied p)) (dsk w)).
  { unfold ApplyRetentionPlanV1. done_skip. eapply done_finds; [apply finds_lift|]. cbn beta. intros p' Hp'. rewrite Hp in Hp'. injection Hp' as <-. done_skip.
    by apply wp_apply; [|eapply parsed_accepted]. }
  specialize (Hw η w eq_refl). by rewrite H in Hw.
Qed.
End store.
End CorpusCleanup.
