(* ===== verification/CorpusExample.v ===== *)
(** * A corpus store, run

    Three generations sealed and published one after the other, a plan that
    deletes the first, and applies of it that stop; the theorems on the corpus
    at concrete inputs. *)

From stdpp Require Import vector.
From S2P Require Import Prelude GoText TextOrder Identifiers Encoding NetUrl PullTypes CorpusTypes CorpusIndexer CorpusDelta CorpusRetention CorpusDisk CorpusLogic CorpusStore CorpusScan CorpusPublish CorpusApply CorpusCleanup.
Import GoText TextOrder Identifiers Encoding CorpusTypes CorpusRetention CorpusDisk CorpusLogic CorpusStore CorpusScan CorpusPublish CorpusApply CorpusCleanup.

Module CorpusExample.
Local Open Scope Z_scope.
Local Open Scope atl_scope.

(** ** What the code calls, for the documents at hand *)

Definition identity_fold (r : Z) : Z := r.
Definition lower (s : text) : text := NetUrl.to_lower s.
Definition sha (data : text) : vec ascii 32 := vreplicate 32 (byte_of (N.of_nat (length data) mod 251)).
Definition limits : Limits := {| MaxMembers := 100; MaxMemberBytes := 10000; MaxTotalBytes := 100000; MaxManifestBytes := 65536; MaxPathBytes := 200; MaxPathDepth := 8 |}.
Definition d64 (c : ascii) : text := replicate 64 c.
Definition id_of (c : ascii) : text := replicate 32 c.
Definition qualification : Qualification := {| qService := ServiceJira; qReceiptSchema := 1; ScopeDigest := d64 "a"; SelectorDigest := d64 "b"; ProjectionDigest := d64 "c"; ReceiptDigest := d64 "d" |}.
Definition spec : MemberSpec := {| sService := ServiceJira; sStableID := txt "1"; sRole := RoleNative; sPath := txt "a" |}.
Definition scanned_of (data : text) : Member :=
  {| mService := sService spec; mStableID := sStableID spec; mRole := sRole spec; mPath := sPath spec; mSize := zlen data; mMode := 384; mSHA256 := digest_of sha data |}.
Definition pointer_to (id digest : text) : Pointer := {| pSchemaVersion := PointerSchemaV1; pGenerationID := id; pGenerationDigest := digest |}.
Definition options (predecessor : text) : SealOptions :=
  {| o_projection := 1; o_generator := txt "atl-1"; o_build := BuildStateClean; o_predecessor := predecessor; o_qualifications := [qualification]; o_tombstone := [] |}.
Definition sealed (predecessor data : text) : Manifest * Receipt :=
  let m := manifest_of (options predecessor) [scanned_of data] in
  let bytes := match canonicalManifest identity_fold m limits with Ok b => b | Err _ => [] end in
  let inventory := match inventoryDigest sha identity_fold (fMembers m) with Ok d => d | Err _ => [] end in
  let r := receipt_of sha m bytes inventory in
  (m, with_generation_digest (match generationDigest sha r with Ok d => d | Err _ => [] end) r).
(** Documents with their bytes. *)
Definition bytes_or_none (c : checked text) : text := match c with Ok b => b | Err _ => [] end.
Definition lookup_document {A} (known : list (text * A)) (data : text) : option A := snd <$> List.find (λ d, eqt d.1 data) known.
Definition first : Manifest * Receipt := Eval vm_compute in sealed [] (txt "one").
Definition second : Manifest * Receipt := Eval vm_compute in sealed [] (txt "a longer one").
Definition digest1 : text := GenerationDigest first.2.
Definition digest2 : text := GenerationDigest second.2.
Definition third : Manifest * Receipt := Eval vm_compute in sealed digest2 (txt "three").
Definition digest3 : text := GenerationDigest third.2.
Definition pointer2 : Pointer := pointer_to (id_of "2") digest2.
Definition pointer3 : Pointer := pointer_to (id_of "3") digest3.
Definition manifests : list (text * Manifest) := Eval vm_compute in map (λ m, (bytes_or_none (canonicalManifest identity_fold m limits), m)) [first.1; second.1; third.1].
Definition receipts : list (text * Receipt) := Eval vm_compute in map (λ r, (bytes_or_none (canonicalReceipt sha r limits), r)) [first.2; second.2; third.2].
Definition pointers : list (text * Pointer) := Eval vm_compute in map (λ p, (bytes_or_none (canonicalPointer p), p)) [pointer2; pointer3].
Definition read_manifest : text → option Manifest := lookup_document manifests.
Definition read_receipt : text → option Receipt := lookup_document receipts.
Definition read_pointer : text → option Pointer := lookup_document pointers.
Definition read_delta : text → option CorpusDelta.GenerationDelta := λ _, None.
Definition root_name : text := txt "/corpus".

(** ** Stores *)

(** Everything works, and what is random is one digit. *)
Definition answering (c : ascii) : env := {| fault_at := λ _, Good; cut_at := λ _, 0%nat; random_at := λ _, replicate 40 c; gone_at := λ _ _, false; cancelled_at := λ _, false |}.
Definition plain : env := answering "0".
Definition empty_store : world := {| dsk := <[[] := EDir 0 448]> ∅; inos := 1; tick := 0 |}.
Definition sealing (predecessor data : text) : M Generation :=
  s ← Begin;
  a ← Add identity_fold limits s spec data;
  g ← Seal sha identity_fold lower read_manifest read_receipt limits a.1 (options predecessor);
  match g.2 with inl g => mret g | inr e => throw e end.
Abbreviation publish := (Publish sha identity_fold lower read_manifest read_receipt read_pointer limits).
Abbreviation opening := (openGeneration sha identity_fold lower read_manifest read_receipt limits).
(** The world a run leaves, spelled out. *)
Definition spell (w : world) : list (path * entry) * nat := (map_to_list (dsk w), inos w).
Definition spelled (e : list (path * entry) * nat) : world := {| dsk := list_to_map e.1; inos := e.2; tick := 0 |}.
(** One generation nobody has published yet. *)
Definition entries1 := Eval vm_compute in
  let w := (Initialize limits plain empty_store).1 in spell (sealing [] (txt "a longer one") (answering "2") w).1.
Definition store1 : world := spelled entries1.
(** It is published, and there is another. *)
Definition entries2 := Eval vm_compute in
  let w := (publish (id_of "2") plain store1).1 in spell (sealing [] (txt "one") (answering "1") w).1.
Definition store2 : world := spelled entries2.
Definition policy : RetentionPolicyV1 := {| PolicySchema := 1; RetainPredecessors := 1 |}.
Definition plan : RetentionPlanV1 := Eval vm_compute in
  match (BuildRetentionPlanV1 sha identity_fold lower read_manifest read_receipt read_pointer read_delta limits root_name policy plain store2).2 with
  | Done p => p
  | _ => {| PlanSchema := 0; RootDigest := []; Current := pointer2; Policy := policy; Inventory := []; Protected := []; Candidates := None; UnsealedStages := 0;
            UnsealedInventoryDigest := []; PlanDigest := [] |}
  end.
Definition reviewed : text := Eval vm_compute in bytes_or_none (CanonicalRetentionPlanV1 sha plan limits).
Definition read_plan : text → option RetentionPlanV1 := lookup_document [(reviewed, plan)].
Abbreviation applying := (ApplyRetentionPlanV1 sha identity_fold lower read_manifest read_receipt read_pointer read_delta read_plan limits root_name reviewed (PlanDigest plan)).
(** The process dies while it removes what it renamed. *)
Definition dying (k : nat) : env :=
  {| fault_at := λ t, if (t =? k)%nat then Kill else Good; cut_at := λ _, 0%nat; random_at := λ _, []; gone_at := λ _ q, bool_decide (last q = Some receiptFile); cancelled_at := λ _, false |}.
Definition entries_dead := Eval vm_compute in spell (applying (dying 670) store2).1.
Definition store_dead : world := spelled entries_dead.

(** ** The theorems on the store, applied *)

Definition is_done {A} (r : world * outcome A) : bool := match r.2 with Done _ => true | _ => false end.
Lemma done_is {A} (r : world * outcome A) : is_done r = true → ∃ w a, r = (w, Done a).
Proof. destruct r as [w [a|e|]]; [by exists w, a|done..]. Qed.
Definition rooted_dec (d : disk) : Decision (map_Forall (λ q (_ : entry), q ≠ [] → is_dir (d !! parent q) = true) d) := _.
Lemma rooted_store1 : rooted (dsk store1).
Proof. apply (bool_decide_unpack _ (dec := rooted_dec (dsk store1))). by vm_compute. Qed.
Lemma rooted_dead : rooted (dsk store_dead).
Proof. apply (bool_decide_unpack _ (dec := rooted_dec (dsk store_dead))). by vm_compute. Qed.
Abbreviation whole := (sealed_tree sha identity_fold lower read_manifest read_receipt limits).

Lemma open_exact_witness : ∃ w g, opening (id_of "2") plain store1 = (w, Done g) ∧ whole (dsk store1) (generationPath (id_of "2")) (g_manifest g) (g_receipt g).
Proof.
  assert (H : is_done (opening (id_of "2") plain store1) = true) by (vm_compute; reflexivity). apply done_is in H as (w & g & H). exists w, g. split; [exact H|].
  exact (proj2 (proj2 (proj2 (open_exact sha identity_fold lower read_manifest read_receipt limits plain store1 w (id_of "2") g rooted_store1 H)))).
Defined.
Lemma publish_atomic_witness : ∃ w o, publish (id_of "2") plain store1 = (w, o) ∧ only pointer_path (dsk store1) (dsk w) ∧
  published sha identity_fold lower read_manifest read_receipt read_pointer limits (id_of "2") (dsk store1) o (dsk w) ∧ is_done (w, o) = true.
Proof.
  assert (H : is_done (publish (id_of "2") plain store1) = true) by (vm_compute; reflexivity). destruct (publish (id_of "2") plain store1) as [w o] eqn:E. exists w, o. split; [reflexivity|].
  destruct (publish_atomic sha identity_fold lower read_manifest read_receipt read_pointer limits plain store1 w (id_of "2") o rooted_store1 E) as [H1 H2].
  split; [exact H1|]. split; [exact H2|exact H].
Defined.
Lemma plan_parses : ParseRetentionPlanV1 sha lower read_plan reviewed limits = Ok plan.
Proof. vm_compute. reflexivity. Qed.
Lemma accepted_plan_exact_witness : ∃ cur, cur ∈ Inventory plan ∧ gid cur = id_of "2" ∧ candidates plan = [{| ref_id := id_of "1"; ref_digest := digest1 |}].
Proof.
  destruct (accepted_plan_exact sha lower read_plan reviewed limits plan plan_parses) as (cur & H1 & H2 & _). exists cur. split; [exact H1|]. split; [exact H2|]. reflexivity.
Defined.
(** Two attempts die and one is refused. *)
Lemma apply_frame_witness :
  dsk (attempts sha identity_fold lower read_manifest read_receipt read_pointer read_delta read_plan limits root_name reviewed (PlanDigest plan) [dying 670; dying 30; plain] store2) !! [pointerFile] =
  dsk store2 !! [pointerFile].
Proof.
  exact (proj1 (proj2 (apply_frame sha identity_fold lower read_manifest read_receipt read_pointer read_delta read_plan limits root_name reviewed (PlanDigest plan) plan [dying 670; dying 30; plain] store2
    plan_parses))).
Defined.
(** What died is finished by the next attempt. *)
Lemma apply_complete_witness : ∃ w st, applying plain store_dead = (w, Done st) ∧ applied sha identity_fold lower read_manifest read_receipt read_pointer limits plan (dsk w).
Proof.
  assert (H : is_done (applying plain store_dead) = true) by (vm_compute; reflexivity). apply done_is in H as (w & st & H). exists w, st. split; [exact H|].
  exact (apply_complete sha identity_fold lower read_manifest read_receipt read_pointer read_delta read_plan limits root_name reviewed (PlanDigest plan) plan plain store_dead w st rooted_dead plan_parses H).
Defined.

(** ** A bundle and a delta *)

Definition never_time (_ : text) : bool := false.
Definition complete_evidence (kind : text) : CorpusIndexer.Evidence :=
  {| CorpusIndexer.eKind := kind; CorpusIndexer.eStatus := CorpusIndexer.EvidenceComplete; CorpusIndexer.eReasons := []; CorpusIndexer.ObservedCount := 1; CorpusIndexer.CountExact := true |}.
Definition issue (c : ascii) (body status : text) : CorpusIndexer.IndexerDocument :=
  {| CorpusIndexer.dSchemaVersion := 1; CorpusIndexer.dID := d64 c; CorpusIndexer.dService := ServiceJira; CorpusIndexer.dKind := CorpusIndexer.ObjectIssue; CorpusIndexer.Key := txt "A-1";
     CorpusIndexer.Title := txt "t"; CorpusIndexer.Container := []; CorpusIndexer.Version := []; CorpusIndexer.Updated := []; CorpusIndexer.Labels := [txt "y"; txt "x"];
     CorpusIndexer.Source := {| CorpusIndexer.lPath := txt "a"; CorpusIndexer.NativeSHA256 := d64 "e"; CorpusIndexer.MetadataSHA256 := d64 "f" |}; CorpusIndexer.Text_ := body;
     CorpusIndexer.BodySHA256 := digest_of sha body; CorpusIndexer.dRenderStatus := status; CorpusIndexer.MarkdownPath := txt "m/" ++ [c]; CorpusIndexer.MarkdownSHA256 := d64 c;
     CorpusIndexer.dVisibility := CorpusIndexer.VisibilityUnrestricted; CorpusIndexer.dEvidence := map complete_evidence CorpusIndexer.evidence_kinds |}.
Definition issue1 := issue "1" (txt "text") CorpusIndexer.RenderRendered.
Definition issue2 := issue "2" [] CorpusIndexer.RenderEmpty.
Definition edge_without_id : CorpusIndexer.IndexerEdge :=
  {| CorpusIndexer.gSchemaVersion := 1; CorpusIndexer.gID := []; CorpusIndexer.SourceID := d64 "1"; CorpusIndexer.Relation := txt "references"; CorpusIndexer.RelationName := [];
     CorpusIndexer.Direction := txt "outbound"; CorpusIndexer.TargetID := d64 "2"; CorpusIndexer.Unresolved := None; CorpusIndexer.Confidence := txt "exact";
     CorpusIndexer.gEvidence := {| CorpusIndexer.vKind := CorpusIndexer.EvidenceRelations; CorpusIndexer.vPath := txt "a"; CorpusIndexer.Fragment := [] |} |}.
Definition edge : CorpusIndexer.IndexerEdge :=
  {| CorpusIndexer.gSchemaVersion := 1; CorpusIndexer.gID := match CorpusIndexer.DeriveEdgeID sha lower edge_without_id with Ok id => id | Err _ => [] end; CorpusIndexer.SourceID := d64 "1";
     CorpusIndexer.Relation := txt "references"; CorpusIndexer.RelationName := [];
     CorpusIndexer.Direction := txt "outbound"; CorpusIndexer.TargetID := d64 "2"; CorpusIndexer.Unresolved := None; CorpusIndexer.Confidence := txt "exact";
     CorpusIndexer.gEvidence := CorpusIndexer.gEvidence edge_without_id |}.
Definition markdown (c : ascii) : CorpusIndexer.MarkdownMember := {| CorpusIndexer.DocumentID := d64 c; CorpusIndexer.kPath := txt "m/" ++ [c]; CorpusIndexer.kSize := 3; CorpusIndexer.kSHA256 := d64 c |}.
Definition jira_ready : CorpusIndexer.IndexerQualification :=
  {| CorpusIndexer.iService := ServiceJira; CorpusIndexer.iState := CorpusIndexer.QualificationReady; CorpusIndexer.Basis := CorpusIndexer.QualificationReceipt;
     CorpusIndexer.iScopeDigest := d64 "a"; CorpusIndexer.SourceReceiptDigest := d64 "b"; CorpusIndexer.iReasons := [] |}.
Definition receipt_or_error := CorpusIndexer.BuildIndexerReceipt sha lower never_time [jira_ready] (Some [issue1; issue2]) (Some [edge]) (Some [markdown "1"; markdown "2"]) limits.
Definition is_ok {A} (r : checked A) : bool := match r with Ok _ => true | Err _ => false end.
Lemma ok_is {A} (r : checked A) : is_ok r = true → ∃ a, r = Ok a.
Proof. destruct r as [a|]; [by exists a|done]. Qed.
Lemma receipt_order_free_witness : ∃ r, receipt_or_error = Ok r ∧
  CorpusIndexer.BuildIndexerReceipt sha lower never_time [jira_ready] (Some [issue2; issue1]) (Some [edge]) (Some [markdown "2"; markdown "1"]) limits = Ok r.
Proof.
  assert (H : is_ok receipt_or_error = true) by (vm_compute; reflexivity). apply ok_is in H as [r H]. exists r. split; [exact H|].
  exact (CorpusIndexer.receipt_order_free sha lower never_time [jira_ready] [jira_ready] [issue1; issue2] [issue2; issue1] [edge] [edge] [markdown "1"; markdown "2"] [markdown "2"; markdown "1"] limits r
    (Permutation_refl _) (perm_swap _ _ _) (Permutation_refl _) (perm_swap _ _ _) H).
Defined.
Lemma bundle_closed_witness : CorpusIndexer.closed sha lower [issue1; issue2] [edge] [markdown "1"; markdown "2"].
Proof.
  assert (H : is_ok receipt_or_error = true) by (vm_compute; reflexivity). apply ok_is in H as [r H].
  exact (proj1 (CorpusIndexer.bundle_closed sha lower never_time [jira_ready] [issue1; issue2] [edge] [markdown "1"; markdown "2"] limits r H)).
Defined.
Definition changed1 := issue "1" (txt "other text") CorpusIndexer.RenderRendered.
Definition binding : CorpusDelta.GenerationDeltaBinding :=
  {| CorpusDelta.bService := ServiceJira; CorpusDelta.bReceiptSchema := 1; CorpusDelta.bScopeDigest := d64 "a"; CorpusDelta.bSelectorDigest := d64 "b"; CorpusDelta.OptionsDigest := d64 "c" |}.
Definition delta_or_error := CorpusDelta.BuildGenerationDelta sha never_time (id_of "1") (d64 "1") (d64 "2") (d64 "3") [binding] (Some [issue1]) (Some [issue2; changed1]) limits.
Lemma delta_exact_witness : ∃ d rs, delta_or_error = Ok d ∧ CorpusDelta.Records d = Some rs ∧ CorpusDelta.Counts d = CorpusDelta.tallies rs.
Proof.
  assert (H : is_ok delta_or_error = true) by (vm_compute; reflexivity). apply ok_is in H as [d H].
  destruct (CorpusDelta.delta_exact sha lower never_time (id_of "1") (d64 "1") (d64 "2") (d64 "3") [binding] [issue1] [issue2; changed1] limits d H) as (l & p & s & rs & _ & H1 & _ & H2 & _).
  exists d, rs. split; [exact H|]. split; [exact H1|exact H2].
Defined.
End CorpusExample.
