(* ===== verification/GraphTypes.v ===== *)
(** * The Jira artifact graph: records and identities
    (internal/domain/graph.go, internal/app/jira_graph.go, jira_graph_sources.go,
    jira_graph_remote_diagnostic.go)

    Nodes, edges with their evidence, and sources that say how complete each
    collector was; the identities derived from them; which collectors a request
    selects; and how a failed remote-link read is classified. *)

From stdpp Require Import vector pretty.
From S2P Require Import Prelude GoText TextOrder Encoding WikiScanner Markdown NetUrl.
Import GoText TextOrder Encoding.

Module GraphTypes.
Local Open Scope Z_scope.
Local Open Scope atl_scope.

(** ** Errors *)

(** The sentinels the code compares with [errors.Is] or [==]. *)
Inductive sentinel :=
| ErrAuth | ErrForbidden | ErrNotFound | ErrVersionConflict | ErrUsage | ErrCheckFailed | ErrOutputLimit | ErrConfig
| ErrReadAttemptBudgetExhausted | ErrReadResponseBudgetExhausted | Canceled | DeadlineExceeded.
#[export] Instance sentinel_eq : EqDecision sentinel. Proof. solve_decision. Defined.
(** An error: the sentinel it is, if any; what its methods [HTTPStatus] and
    [DiagnosticTransportFailure] give, if it has them; what it unwraps to ([None]
    is nil). *)
Inductive goerror := GoError (this : option sentinel) (status : option Z) (transport : option bool) (inner : unwrapping)
with unwrapping := NoUnwrap | UnwrapOne (e : option goerror) | UnwrapMany (es : list (option goerror)).
(** [errors.Is] *)
Fixpoint Is (e : goerror) (s : sentinel) {struct e} : bool :=
  let under e := match e with Some e => Is e s | None => false end in
  match e with
  | GoError this _ _ inner =>
      bool_decide (this = Some s) ||
      match inner with NoUnwrap => false | UnwrapOne e => under e | UnwrapMany es => existsb under es end
  end.
Definition wraps (s : sentinel) : goerror := GoError None None None (UnwrapOne (Some (GoError (Some s) None None NoUnwrap))).
Definition fallible (A : Type) : Type := result goerror A.
Definition refuse {A} (s : sentinel) : fallible A := Err (wraps s).
Definition ensure (c : bool) (s : sentinel) : fallible unit := if c then Ok tt else refuse s.

(** ** Records (domain/graph.go) *)

Definition ArtifactNodeResolved : text := txt "resolved".
Definition ArtifactNodeStub : text := txt "stub".
Definition ArtifactNodeUnresolved : text := txt "unresolved".
Definition ArtifactNodeForbidden : text := txt "forbidden".
Definition ArtifactNodeMissing : text := txt "missing".
Definition ArtifactStabilityPublicAPI : text := txt "public_api".
Definition ArtifactStabilityExperimentalAPI : text := txt "experimental_api".
Definition ArtifactStabilityHeuristic : text := txt "heuristic".
Definition ArtifactSourceComplete : text := txt "complete".
Definition ArtifactSourceEmpty : text := txt "empty".
Definition ArtifactSourcePartial : text := txt "partial".
Definition ArtifactSourceForbidden : text := txt "forbidden".
Definition ArtifactSourceUnsupported : text := txt "unsupported".
Definition ArtifactSourceSkipped : text := txt "skipped".
Definition ArtifactSourceFailureAuthentication : text := txt "authentication".
Definition ArtifactSourceFailurePermission : text := txt "permission".
Definition ArtifactSourceFailureNotFound : text := txt "not_found".
Definition ArtifactSourceFailureHTTP : text := txt "http".
Definition ArtifactSourceFailureTransport : text := txt "transport".
Definition ArtifactSourceFailureRequest : text := txt "request".
Definition ArtifactPartialInspectionLimit : text := txt "inspection_limit".
Definition ArtifactPartialOutputLimit : text := txt "output_limit".
Definition ArtifactPartialRequestFailed : text := txt "request_failed".
Definition ArtifactPartialRequestLimit : text := txt "request_limit".
Definition ArtifactPartialByteLimit : text := txt "byte_limit".
Definition ArtifactPartialDependencyUnavailable : text := txt "dependency_unavailable".
Definition ArtifactPartialMalformed : text := txt "malformed_response".
Definition ArtifactPartialPolicy : text := txt "policy".
Definition oneOf (value : text) (allowed : list text) : bool := existsb (eqt value) allowed.
Definition ValidArtifactPartialReason (reason : text) : bool :=
  oneOf reason [ArtifactPartialInspectionLimit; ArtifactPartialOutputLimit; ArtifactPartialRequestFailed; ArtifactPartialRequestLimit; ArtifactPartialByteLimit;
                ArtifactPartialDependencyUnavailable; ArtifactPartialMalformed; ArtifactPartialPolicy].
Record ArtifactGraphSourceFailure := { Class_ : text; HTTPStatus : option Z }.
Record ArtifactGraphSCMIdentity := { sHost : text; sProjectPath : text; sCommitSHA : text; sBranchName : text; sMergeRequestIID : text; sMergeRequestState : text }.
#[export] Instance scm_eq : EqDecision ArtifactGraphSCMIdentity. Proof. solve_decision. Defined.
Record ArtifactGraphNode :=
  { nID : text; nKind : text; nService : text; nExternalID : text; nURL : text; nLabel : text; nState : text; nExpanded : bool; nDepth : Z; nStability : text;
    nSCM : option ArtifactGraphSCMIdentity }.
Record ArtifactGraphEvidence := { vCollector : text; vSourceNodeID : text; vSourceKind : text; vSourceID : text; vJSONPointer : text; vExtraction : text }.
Record ArtifactGraphEdge :=
  { eID : text; eFrom : text; eTo : text; eKind : text; eRelationType : text; eRelation : text; eDirection : text; eCurrent : bool; eConfidence : text; eStability : text;
    eEvidence : list ArtifactGraphEvidence }.
Record ArtifactGraphSource :=
  { uNodeID : text; uNodeDepth : option Z; uKind : text; uRequested : bool; uStatus : text; uComplete : bool; uCount : Z; uTruncated : bool; uPartialReason : text;
    uStability : text; uFailure : option ArtifactGraphSourceFailure }.
Record IssueFieldSchema := { yType : text; yItems : text; ySystem : text; yCustom : text }.

(** A decoded JSON value ([any]); [VFloat] has the text [strconv.FormatFloat] gives
    it, [VOther] is a value of a type the decoder does not make.  Objects are in
    the order in which the code ranges over the map. *)
Inductive value := VString (s : text) | VNumber (s : text) | VFloat (s : text) | VBool (b : bool) | VNull | VArray (vs : list value) | VObject (ms : list (text * value)) | VOther.
Definition lookup_member {A} (ms : list (text * A)) (name : text) : option A := snd <$> List.find (λ m, eqt m.1 name) ms.
(** [row[name]] of a row that may not be an object *)
Definition member_of (v : value) (name : text) : value := match v with VObject ms => default VNull (lookup_member ms name) | _ => VNull end.
Definition is_object (v : value) : bool := match v with VObject _ => true | _ => false end.

(** A map that is nil is [None]. *)
Record QualifiedIssueSnapshot :=
  { qRequestedKey : text; qID : text; qKey : text; qIssueID : text; qIssueKey : text; qIssueSummary : text; qFields : option (list (text * value));
    qNames : option (list (text * text)); qSchema : option (list (text * IssueFieldSchema)); qProperties : option (list (text * value)) }.
Record IssueSnapshotProjection := { pFields : list text; pProperties : bool; pSupportingFieldsReason : text }.
#[export] Instance projection_eq : EqDecision IssueSnapshotProjection. Proof. solve_decision. Defined.
Record JiraRemoteLink := { lID : text; lRelationship : text; lObjectURL : text; lObjectTitle : text }.
Record JiraRemoteLinkInventory := { lLinks : list JiraRemoteLink; lTotal : Z; lUnsupported : Z }.
(** domain/development.go *)
Record JiraDevelopmentProject := { dHost : text; dProjectPath : text }.
Record JiraDevelopmentCommit := { dcHost : text; dcProjectPath : text; dcSHA : text }.
Record JiraDevelopmentBranch := { dbHost : text; dbProjectPath : text; dbName : text }.
Record JiraDevelopmentMergeRequest := { dmHost : text; dmProjectPath : text; dmIID : text; dmState : text }.
Record JiraDevelopmentInventory :=
  { Projects : list JiraDevelopmentProject; Commits : list JiraDevelopmentCommit; Branches : list JiraDevelopmentBranch; MergeRequests : list JiraDevelopmentMergeRequest }.
(** graph_extract.go *)
Record graphReference := { Node : ArtifactGraphNode; Extraction : text; Confidence : text }.

(** ** The parts of Go's library that are parameters *)

(** A parsed URL: [Host] as in the text, whether there is user information, the
    decoded path, [EscapedPath()], and the query as [Query()] groups it. *)
Record goURL :=
  { wScheme : text; wOpaque : text; wUser : bool; wHost : text; wPath : text; wEscapedPath : text; wForceQuery : bool; wRawQuery : text; wFragment : text;
    wQuery : list (text * list text) }.
(** SHA-256; case mapping and folding beyond ASCII; [url.Parse]; and
    [URL.String] of a URL without user information and fragment, from its scheme,
    host, path, escaped path and query. *)
Class Lang :=
  { sha256 : text → vec ascii 32; unicode_upper : text → text; unicode_lower : text → text; unicode_fold : text → text → bool; url_Parse : text → option goURL;
    url_String : text → text → text → text → text → text }.
Definition is_ascii (s : text) : bool := forallb (λ c, byte_val c <? 128) s.

Section lang.
Context `{Lang}.
(** [strings.ToUpper], [strings.ToLower] and [strings.EqualFold] *)
Definition ToUpper (s : text) : text := if is_ascii s then map NetUrl.upper_byte s else unicode_upper s.
Definition ToLower (s : text) : text := if is_ascii s then NetUrl.to_lower s else unicode_lower s.
Definition EqualFold (a b : text) : bool := if is_ascii a && is_ascii b then eqt (NetUrl.to_lower a) (NetUrl.to_lower b) else unicode_fold a b.
Definition graphHash (value : text) : text := hex_encode (vec_to_list (sha256 value)).
Definition nul : text := ["000"%char].
Definition graphEdgeID (e : ArtifactGraphEdge) : text :=
  txt "edge:" ++ graphHash (Markdown.join nul [txt "atl-jira-graph-edge-v1"; eFrom e; eTo e; eKind e; eRelationType e; eRelation e; eDirection e]).
End lang.
Definition graphEvidenceKey (v : ArtifactGraphEvidence) : text :=
  Markdown.join nul [vCollector v; vSourceKind v; vSourceID v; vJSONPointer v; vExtraction v].
Definition graphEdgeSortKey (e : ArtifactGraphEdge) : text :=
  Markdown.join nul [eFrom e; eKind e; eRelationType e; eRelation e; eTo e; eDirection e; eID e].

(** ** Identifiers *)

Definition digit (c : ascii) : bool := in_rng 48 57 (byte_val c).
Definition digit1 (c : ascii) : bool := in_rng 49 57 (byte_val c).
Definition upper (c : ascii) : bool := in_rng 65 90 (byte_val c).
Definition key_byte (c : ascii) : bool := upper c || digit c || bool_decide (c = "_"%char).
(** [^[1-9][0-9]{0,31}$] *)
Definition numericID (s : text) : bool := match s with c :: r => digit1 c && forallb digit r && (length r <=? 31)%nat | [] => false end.
(** The length of [[A-Z][A-Z0-9_]{1,31}-[1-9][0-9]*] at the start of a text. *)
Definition match_key (s : text) : option nat :=
  match s with
  | c :: r =>
      let (run, rest) := WikiScanner.span key_byte r in
      match rest with
      | h :: d :: ds =>
          if upper c && (1 <=? length run)%nat && (length run <=? 31)%nat && bool_decide (h = "-"%char) && digit1 d
          then Some (3 + length run + length (fst (WikiScanner.span digit ds)))%nat else None
      | _ => None
      end
  | [] => None
  end.
Definition jiraGraphExactKey (key : text) : bool := match match_key key with Some n => (n =? length key)%nat | None => false end.
Definition issue_prefix : text := txt "jira:issue:".
Definition issue_id (key : text) : text := issue_prefix ++ key.
Definition issue_key (id : text) : text := Markdown.trim_prefix id issue_prefix.

(** ** Selected collectors (jira_graph_sources.go) *)

Definition jiraGraphSourceOrder : list text :=
  map txt ["issue_fields"; "issue_links"; "hierarchy"; "attachments"; "issue_properties"; "comments"; "worklogs"; "remote_links"].
Definition development : text := txt "development".
Definition confluence_metadata : text := txt "confluence_metadata".
Definition jiraGraphSourceKinds (includeDevelopment : bool) : list text := jiraGraphSourceOrder ++ (if includeDevelopment then [development] else []).
Definition jiraGraphSourceStability (kind : text) : text :=
  if eqt kind (txt "issue_properties") || eqt kind development then ArtifactStabilityExperimentalAPI else ArtifactStabilityPublicAPI.
Record JiraIssueGraphSourceSelection := { zSchemaVersion : Z; zSelected : list text; zOmitted : list text; zSnapshot : IssueSnapshotProjection }.
#[export] Instance selection_eq : EqDecision JiraIssueGraphSourceSelection. Proof. solve_decision. Defined.
(** The tokens of one argument after [count] tokens before. *)
Fixpoint parse_tokens (count : Z) (out : list text) (tokens : list text) : fallible (Z * list text) :=
  match tokens with
  | [] => Ok (count, out)
  | t :: ts =>
      let! _ := ensure (negb ((9 <? count + 1) || (32 <? Z.of_nat (length t)) || negb (oneOf t (jiraGraphSourceKinds true)))) ErrUsage in
      parse_tokens (count + 1) (t :: out) ts
  end.
Fixpoint parse_items (count : Z) (out : list text) (items : list text) : fallible (list text) :=
  match items with
  | [] => Ok out
  | i :: is_ =>
      let! _ := ensure (Z.of_nat (length i) <=? 9 * 33) ErrUsage in
      let! r := parse_tokens count out (Markdown.split i (txt ",")) in
      parse_items r.1 r.2 is_
  end.
Definition parse_selection (raw : option (list text)) : fallible (list text) :=
  match raw with
  | None => Ok []
  | Some items => let! _ := ensure (negb ((length items =? 0)%nat || (9 <? length items)%nat)) ErrUsage in parse_items 0 [] items
  end.
Definition jiraGraphSnapshotProjection (selected : list text) : IssueSnapshotProjection :=
  let has k := oneOf (txt k) selected in
  if has "issue_fields" || has "hierarchy" then
    {| pFields := [txt "*all"]; pProperties := has "issue_properties"; pSupportingFieldsReason := if has "issue_fields" then [] else txt "hierarchy_discovery" |}
  else
    {| pFields := [txt "summary"] ++ (if has "issue_links" then [txt "issuelinks"] else []) ++ (if has "attachments" then [txt "attachment"] else []);
       pProperties := has "issue_properties"; pSupportingFieldsReason := [] |}.
Definition NormalizeJiraIssueGraphSources (include exclude : option (list text)) (dev : bool) : fallible (option JiraIssueGraphSourceSelection) :=
  match include, exclude with
  | None, None => Ok None
  | _, _ =>
      let! selected := parse_selection include in
      let! omitted := parse_selection exclude in
      let! _ := ensure (negb (oneOf development selected && negb dev || oneOf development omitted && dev)) ErrUsage in
      let selected := selected ++ (match include with None => jiraGraphSourceOrder | Some _ => [] end) ++ (if dev then [development] else []) in
      let kept := List.filter (λ k, negb (oneOf k omitted)) selected in
      let! _ := ensure (negb (length kept =? 0)%nat) ErrUsage in
      let chosen := List.filter (λ k, oneOf k kept) (jiraGraphSourceKinds true) in
      Ok (Some {| zSchemaVersion := 1; zSelected := chosen; zOmitted := List.filter (λ k, negb (oneOf k kept)) (jiraGraphSourceKinds true);
                  zSnapshot := jiraGraphSnapshotProjection chosen |})
  end.
Definition jiraGraphSelectedKinds (selection : option JiraIssueGraphSourceSelection) (dev : bool) : list text :=
  match selection with Some z => zSelected z | None => jiraGraphSourceKinds dev end.
Definition validateJiraGraphSourceSelection (selection : option JiraIssueGraphSourceSelection) (dev : bool) : bool :=
  match selection with
  | None => true
  | Some z => match NormalizeJiraIssueGraphSources (Some (zSelected z)) None dev with Ok (Some x) => bool_decide (z = x) | _ => false end
  end.
(** ** Membership *)

Lemma oneOf_spec (x : text) l : oneOf x l = true ↔ x ∈ l.
Proof.
  unfold oneOf. rewrite existsb_exists. split.
  - intros (y & Hy & ->%bool_decide_eq_true). by apply list_elem_of_In.
  - intros Hx. exists x. split; [by apply list_elem_of_In|by apply bool_decide_eq_true].
Qed.
End GraphTypes.
