(* ===== verification/Scmref.v ===== *)
(** * GitLab project identities (internal/scmref/gitlab.go)

    A project is the canonical host and the path of an HTTPS URL; the artifact
    part of a modern GitLab URL is cut off first. *)

From stdpp Require Import pretty.
From S2P Require Import Prelude GoText WikiScanner Markdown MdCsf NetUrl HttpClient GraphTypes.
Import GoText GraphTypes.
Import WikiScanner (is_byte).

Module Scmref.
Local Open Scope Z_scope.
Local Open Scope atl_scope.

(** ** Hosts (net/url) *)

(** [URL.Hostname] and [URL.Port]: the port is the digits after the last colon, if
    nothing else follows it; brackets around the rest are taken off. *)
Definition splitHostPort (host : text) : text * text :=
  let after := reverse (fst (WikiScanner.span (λ c, negb (is_byte ":"%char c)) (reverse host))) in
  let (name, port) := if existsb (is_byte ":"%char) host && forallb digit after then (take (length host - length after - 1) host, after) else (host, []) in
  (if has_prefix name (txt "[") && has_suffix name (txt "]") then slice name 1 (length name - 1) else name, port).
Definition Hostname (u : goURL) : text := fst (splitHostPort (wHost u)).
Definition Port (u : goURL) : text := snd (splitHostPort (wHost u)).

(** ** Projects *)

Definition maxGitLabURLBytes : Z := 2048.
Definition maxGitLabProjectBytes : Z := 2048.
Definition maxGitLabSegments : Z := 32.
Record GitLabProject := { pHost : text; pProjectPath : text }.
(** [^[A-Za-z0-9._-]{1,255}$] *)
Definition gitLabProjectSegment (s : text) : bool :=
  forallb (λ c, NetUrl.letter c || digit c || Markdown.in_set (txt "._-") c) s && (1 <=? length s)%nat && (length s <=? 255)%nat.
Definition replacement_rune : text := ["239"; "191"; "189"]%char.
Section lang.
Context `{Lang}.
Definition parseGitLabURL (raw : text) : option (goURL * text) :=
  if eqt raw [] || (maxGitLabURLBytes <? Z.of_nat (length raw)) || negb (valid_utf8 raw) || contains raw replacement_rune then None
  else
    u ← url_Parse raw;
    if negb (eqt (ToLower (wScheme u)) (txt "https")) || negb (eqt (wOpaque u) []) || wUser u || eqt (Hostname u) [] || has_suffix (wHost u) (txt ":") ||
       negb (eqt (wRawQuery u) []) || wForceQuery u || negb (eqt (wFragment u) []) || contains raw (txt "#") then None
    else let escaped := Markdown.trim_byte "/"%char (wEscapedPath u) in if eqt escaped [] then None else Some (u, escaped).
Fixpoint decode_segments (parts : list text) : option (list text) :=
  match parts with
  | [] => Some []
  | p :: ps =>
      v ← MdCsf.PathUnescape p;
      if eqt v [] || negb (gitLabProjectSegment v) || eqt v (txt ".") || eqt v (txt "..") then None else vs ← decode_segments ps; Some (v :: vs)
  end.
(** The last segment loses a [.git]. *)
Fixpoint trim_last (vs : list text) : option (list text) :=
  match vs with
  | [] => Some []
  | [v] => let v := Markdown.trim_suffix v (txt ".git") in if eqt v [] || negb (gitLabProjectSegment v) then None else Some [v]
  | v :: vs => vs ← trim_last vs; Some (v :: vs)
  end.
Definition gitLabProjectFromEscaped (u : goURL) (escaped : text) : option GitLabProject :=
  let parts := Markdown.split (Markdown.trim_byte "/"%char escaped) (txt "/") in
  if (Z.of_nat (length parts) <? 2) || (maxGitLabSegments <? Z.of_nat (length parts)) then None
  else
    decoded ← decode_segments parts;
    decoded ← trim_last decoded;
    let path := Markdown.join (txt "/") decoded in
    if maxGitLabProjectBytes <? Z.of_nat (length path) then None
    else
      let name := ToLower (Hostname u) in
      let name := if contains name (txt ":") then txt "[" ++ name ++ txt "]" else name in
      if eqt (Port u) [] then Some {| pHost := name; pProjectPath := path |}
      else
        n ← HttpClient.Atoi (Port u);
        if (n <? 1) || (65535 <? n) then None
        else Some {| pHost := if n =? 443 then name else name ++ txt ":" ++ txt (pretty n); pProjectPath := path |}.
Definition ParseGitLabProject (raw : text) : option GitLabProject :=
  r ← parseGitLabURL raw;
  if contains r.2 (txt "/-/") || has_suffix r.2 (txt "/-") then None else gitLabProjectFromEscaped r.1 r.2.
Definition ParseGitLabReference (raw : text) : option GitLabProject :=
  r ← parseGitLabURL raw;
  if has_suffix r.2 (txt "/-") then None
  else match index r.2 (txt "/-/") with
  | Some marker => if (marker =? 0)%nat || (marker + 3 =? length r.2)%nat then None else gitLabProjectFromEscaped r.1 (take marker r.2)
  | None => gitLabProjectFromEscaped r.1 r.2
  end.
Definition ValidateGitLabProject (host path : text) : option GitLabProject :=
  if eqt host [] || eqt path [] || contains path (txt "%") then None
  else
    p ← ParseGitLabProject (txt "https://" ++ host ++ txt "/" ++ path);
    if negb (eqt (pHost p) host) || negb (eqt (pProjectPath p) path) then None else Some p.
End lang.
End Scmref.
