(* ===== verification/GraphExtract.v ===== *)
(** * The Jira artifact graph: references in text
    (internal/app/graph_extract.go, jira_graph_remote_diagnostic.go)

    The bounded walk over a decoded JSON value, the references a text contains,
    what a URL names, and the evidence collected from the tree of a failed
    remote-link read. *)

From stdpp Require Import vector pretty.
From S2P Require Import Prelude GoText TextOrder Encoding WikiScanner Markdown MdCsf NetUrl GraphTypes Scmref.
Import GoText TextOrder Encoding GraphTypes.
Import WikiScanner (is_byte).

Module GraphExtract.
Local Open Scope Z_scope.
Local Open Scope atl_scope.

Definition zlen {A} (l : list A) : Z := Z.of_nat (length l).

(** ** Budgets *)

Definition graphWalkMaxDepth : nat := 12.
Definition graphWalkMaxStrings : Z := 20000.
Definition graphWalkMaxArray : Z := 100.
Definition graphWalkMaxObject : Z := 256.
Definition graphWalkMaxFields : Z := 4096.
Definition graphPointerMaxBytes : Z := 1024.
Definition graphURLMaxBytes : Z := 2048.
Definition graphLabelMaxRunes : nat := 160.
Record graphExtractBudget := { MaxBytes : Z; Bytes : Z; Strings : Z; Clipped : bool }.
Definition clip (b : graphExtractBudget) : graphExtractBudget := {| MaxBytes := MaxBytes b; Bytes := Bytes b; Strings := Strings b; Clipped := true |}.
Definition consume (b : graphExtractBudget) (size : Z) : graphExtractBudget * bool :=
  if Clipped b || (size <? 0) || (MaxBytes b - size <? Bytes b) then (clip b, false)
  else ({| MaxBytes := MaxBytes b; Bytes := Bytes b + size; Strings := Strings b; Clipped := false |}, true).
Definition count_string (b : graphExtractBudget) : graphExtractBudget :=
  {| MaxBytes := MaxBytes b; Bytes := Bytes b; Strings := Strings b + 1; Clipped := Clipped b |}.
(** The loop that pays for the keys of an object; it ends at the first that does
    not fit. *)
Fixpoint consume_keys (b : graphExtractBudget) (keys : list text) : graphExtractBudget * bool :=
  match keys with
  | [] => (b, true)
  | k :: ks => let (b, fits) := consume b (zlen k + 3) in if fits then consume_keys b ks else (b, false)
  end.

(** ** Pointers, tokens and labels *)

Definition graphSkippedPathKeys : list text :=
  map txt ["self"; "avatarurls"; "avatarurl"; "iconurl"; "iconurls"; "thumbnail"; "content"; "watches"; "watchers"; "author"; "creator"; "reporter"; "assignee";
    "updatedby"; "updateauthor"; "email"; "emailaddress"; "timezone"; "icon"; "avatar"; "user"; "users"; "owner"; "owners"; "group"; "groups"; "account"; "accountid";
    "profile"; "profileurl"; "picture"; "photo"].
Definition escapeJSONPointer (value : text) : text := Markdown.replace_all (Markdown.replace_all value (txt "~") (txt "~0")) (txt "/") (txt "~1").
Definition after_last_slash (s : text) : option text :=
  if existsb (is_byte "/"%char) s then Some (reverse (fst (WikiScanner.span (λ c, negb (is_byte "/"%char c)) (reverse s)))) else None.
Definition graphPointerLeaf (pointer : text) : text :=
  match after_last_slash pointer with
  | Some leaf => Markdown.replace_all (Markdown.replace_all leaf (txt "~1") (txt "/")) (txt "~0") (txt "~")
  | None => []
  end.
(** [strings.ToValidUTF8(value, U+FFFD)]; [bad] after an invalid byte *)
Fixpoint valid_loop (fuel : nat) (bad : bool) (s : text) : text :=
  match fuel, s with
  | O, _ | _, [] => []
  | S fuel, _ =>
      let (r, n) := decode_rune s in
      if (r =? RuneError) && (n =? 1)%nat then (if bad then [] else ["239"%char; "191"%char; "189"%char]) ++ valid_loop fuel true (drop 1 s)
      else take n s ++ valid_loop fuel false (drop n s)
  end.
Definition ToValidUTF8 (s : text) : text := valid_loop (length s) false s.
Fixpoint take_runes (n : nat) (s : text) : text :=
  match n, s with
  | O, _ | _, [] => []
  | S n, _ => let k := snd (decode_rune s) in take k s ++ take_runes n (drop k s)
  end.
Definition graphBoundedLabel (value : text) : text := take_runes graphLabelMaxRunes (trim_space (ToValidUTF8 value)).
(** [^customfield_[1-9][0-9]*$] *)
Definition customField (s : text) : bool :=
  has_prefix s (txt "customfield_") && match drop 12 s with c :: r => digit1 c && forallb digit r | [] => false end.

Section lang.
Context `{Lang}.
Definition graphSafePointerToken (value : text) : text :=
  if oneOf (ToLower value) (map txt ["attachment"; "body"; "comment"; "comments"; "description"; "fields"; "issuelinks"; "parent"; "pageid"; "properties"; "remote_links";
                                     "subtasks"; "summary"; "worklog"; "worklogs"])
  then value else txt "opaque-" ++ graphHash value.
Definition graphSafeFieldToken (value : text) : text :=
  let lower := ToLower value in
  if customField lower || oneOf lower (map txt ["attachment"; "comment"; "components"; "creator"; "description"; "environment"; "fixversions"; "issuelinks"; "issuetype";
                                                "labels"; "parent"; "priority"; "project"; "reporter"; "resolution"; "status"; "subtasks"; "summary"; "versions"; "worklog"])
  then value else txt "opaque-" ++ graphHash value.

(** ** The walk *)

(** [visit] sees every scalar with its pointer and whether bare references count.
    [levels] is how deep the walk may still go; the code counts up to
    [graphWalkMaxDepth]. *)
Section walk.
Context {A : Type} (visit : value → text → bool → A → A) (allowBare skipExcludedKeys : bool).
Fixpoint walk_items (walk : value → text → graphExtractBudget * A → graphExtractBudget * A) (pointer : text) (i : nat) (items : list value) (s : graphExtractBudget * A)
    : graphExtractBudget * A :=
  match items with
  | [] => s
  | v :: vs =>
      let child := pointer ++ txt "/" ++ txt (pretty i) in
      if graphPointerMaxBytes <? zlen child then (clip s.1, s.2) else walk_items walk pointer (S i) vs (walk v child s)
  end.
Fixpoint walk_members (walk : value → text → graphExtractBudget * A → graphExtractBudget * A) (pointer : text) (members : list (text * value)) (keys : list text)
    (s : graphExtractBudget * A) : graphExtractBudget * A :=
  match keys with
  | [] => s
  | k :: ks =>
      if skipExcludedKeys && oneOf (ToLower k) graphSkippedPathKeys then walk_members walk pointer members ks s
      else
        let escaped := escapeJSONPointer (graphSafePointerToken k) in
        if graphPointerMaxBytes <? zlen pointer + 1 + zlen escaped then (clip s.1, s.2)
        else walk_members walk pointer members ks (walk (default VNull (lookup_member members k)) (pointer ++ txt "/" ++ escaped) s)
  end.
Fixpoint walk (levels : nat) (current : value) (pointer : text) (s : graphExtractBudget * A) : graphExtractBudget * A :=
  let (b, a) := s in
  if Clipped b then s
  else match levels with
  | O => (clip b, a)
  | S levels =>
      if graphPointerMaxBytes <? zlen pointer then (clip b, a)
      else match current with
      | VString t =>
          if graphWalkMaxStrings <=? Strings b then (clip b, a)
          else let (b, fits) := consume b (zlen t + 2) in
               if fits then (count_string b, visit current pointer allowBare a) else (clip b, a)
      | VNumber t | VFloat t => let (b, fits) := consume b (zlen t) in if fits then (b, visit current pointer false a) else (b, a)
      | VBool c => ((consume b (if c then 4 else 5)).1, visit current pointer false a)
      | VNull => ((consume b 4).1, visit VNull pointer false a)
      | VArray items =>
          if graphWalkMaxArray <? zlen items then (clip b, a)
          else let (b, fits) := consume b (2 + zlen items) in
               if fits then walk_items (walk levels) pointer 0 items (b, a) else (clip b, a)
      | VObject members =>
          if graphWalkMaxObject <? zlen members then (clip b, a)
          else let (b, fits) := consume b (2 + zlen members) in
               if fits then
                 let (b, fits) := consume_keys b members.*1 in
                 if fits then walk_members (walk levels) pointer members (sort_on (λ k, k) members.*1) (b, a) else (b, a)
               else (clip b, a)
      | VOther => (clip b, a)
      end
  end.
Definition walkGraphValueWithKeyPolicy (v : value) (pointer : text) (b : graphExtractBudget) (a : A) : graphExtractBudget * A :=
  walk (S graphWalkMaxDepth) v pointer (b, a).
End walk.
Definition walkGraphValue {A} (visit : value → text → bool → A → A) (v : value) (pointer : text) (allowBare : bool) : graphExtractBudget → A → graphExtractBudget * A :=
  walkGraphValueWithKeyPolicy visit allowBare true v pointer.

(** ** References in a text *)

(** All matches of a pattern, from left to right and disjoint: [match_at i] is the
    length of the match at byte [i]. *)
Fixpoint find_all (fuel : nat) (match_at : nat → option nat) (i n : nat) : list (nat * nat) :=
  match fuel with
  | O => []
  | S fuel =>
      if (n <=? i)%nat then []
      else match match_at i with
           | Some k => (i, i + k)%nat :: find_all fuel match_at (i + k)%nat n
           | None => find_all fuel match_at (S i) n
           end
  end.
Definition url_byte (c : ascii) : bool := negb (Markdown.in_set (["009"; "010"; "012"; "013"; " "; "<"; ">"; "034"; "'"; ")"; "]"]%char) c).
(** graphURLPattern: [http] or [https], [://], and at least one byte of a URL *)
Definition match_url (s : text) : option nat :=
  let after n := match fst (WikiScanner.span url_byte (drop n s)) with [] => None | run => Some (n + length run)%nat end in
  if has_prefix s (txt "https://") then after 8%nat else if has_prefix s (txt "http://") then after 7%nat else None.
Definition graphASCIIWordByte (c : ascii) : bool := NetUrl.letter c || digit c || bool_decide (c = "_"%char).
Definition word_at (s : text) (i : nat) : bool := match s !! i with Some c => graphASCIIWordByte c | None => false end.
Definition word_before (s : text) (i : nat) : bool := match i with O => false | S j => word_at s j end.
Definition space_byte (c : ascii) : bool := Markdown.in_set (["009"; "010"; "012"; "013"; " "]%char) c.
(** graphPageIDPattern at byte [i]: the word pageId in any case, an equals sign or
    white space, a number, and no word byte around them; where the number starts
    and where the match ends *)
Definition match_page (s : text) (i : nat) : option (nat * nat) :=
  if word_before s i || negb (eqt (NetUrl.to_lower (take 6 (drop i s))) (txt "pageid")) then None
  else
    let gap := match drop (i + 6) s with c :: _ => if is_byte "="%char c then 1%nat else length (fst (WikiScanner.span space_byte (drop (i + 6) s))) | [] => O end in
    let start := (i + 6 + gap)%nat in
    match drop start s with
    | c :: r => let stop := (start + 1 + length (fst (WikiScanner.span digit r)))%nat in
                if (1 <=? gap)%nat && digit1 c && negb (word_at s stop) then Some (start, stop) else None
    | [] => None
    end.
Definition candidateGraphID (kind v : text) : text := txt "candidate:" ++ kind ++ txt ":" ++ graphHash v.
Definition referenced (id kind service external state stability : text) : ArtifactGraphNode :=
  {| nID := id; nKind := kind; nService := service; nExternalID := external; nURL := []; nLabel := []; nState := state; nExpanded := false; nDepth := 1; nStability := stability;
     nSCM := None |}.
Definition opaqueGraphURLReference (raw : text) : graphReference :=
  {| Node := referenced (candidateGraphID (txt "url") raw) (txt "url") (txt "external") [] ArtifactNodeUnresolved ArtifactStabilityHeuristic;
     Extraction := txt "absolute_url"; Confidence := txt "candidate" |}.
Definition bare_issue (key : text) : graphReference :=
  {| Node := referenced (issue_id key) (txt "jira_issue") (txt "jira") key ArtifactNodeUnresolved ArtifactStabilityHeuristic; Extraction := txt "jira_key";
     Confidence := txt "candidate" |}.
Definition page_prefix : text := txt "confluence:page:".
Definition bare_page (id : text) : graphReference :=
  {| Node := referenced (page_prefix ++ id) (txt "confluence_page") (txt "confluence") id ArtifactNodeStub ArtifactStabilityHeuristic; Extraction := txt "confluence_page_id";
     Confidence := txt "high" |}.
Definition reference_key (r : graphReference) : text := nID (Node r) ++ nul ++ Extraction r.
(** What has no this or was seen is left out. *)
Fixpoint distinct_references (seen : list text) (rs : list graphReference) : list graphReference :=
  match rs with
  | [] => []
  | r :: rs => if eqt (nID (Node r)) [] || oneOf (reference_key r) seen then distinct_references seen rs else r :: distinct_references (reference_key r :: seen) rs
  end.
Definition reference_le (a b : graphReference) : Prop :=
  (if eqt (nID (Node b)) (nID (Node a)) then text_ltb (Extraction b) (Extraction a) else text_ltb (nID (Node b)) (nID (Node a))) = false.
#[export] Instance reference_le_dec : RelDecision reference_le. Proof. intros a b. unfold reference_le. apply _. Defined.
Definition blank (s : text) (spans : list (nat * nat)) : text :=
  imap (λ i c, if existsb (λ p : nat * nat, (p.1 <=? i)%nat && (i <? p.2)%nat) spans then " "%char else c) s.
Definition trim_punctuation (s : text) : text := reverse (snd (WikiScanner.span (Markdown.in_set (txt ".,;:")) (reverse s))).

(** ** What a URL names *)

(** Under [(?i)] the letter s is also the long s, and k the Kelvin sign: the width
    of the letter [c] (lower case) at the start of a text. *)
Definition fold_letter (c : ascii) (s : text) : option nat :=
  match s with
  | d :: _ =>
      if is_byte c (NetUrl.lower_byte d) then Some 1%nat
      else if is_byte "s"%char c && has_prefix s ["197"; "191"]%char then Some 2%nat
      else if is_byte "k"%char c && has_prefix s ["226"; "132"; "170"]%char then Some 3%nat
      else None
  | [] => None
  end.
Fixpoint fold_word (w s : text) : option text :=
  match w with [] => Some s | c :: w => n ← fold_letter c s; fold_word w (drop n s) end.
(** The same for the class of letters. *)
Definition any_letter (s : text) : option nat :=
  match s with
  | d :: _ => if NetUrl.letter d then Some 1%nat else if has_prefix s ["197"; "191"]%char then Some 2%nat else if has_prefix s ["226"; "132"; "170"]%char then Some 3%nat else None
  | [] => None
  end.
Definition any_key_rune (s : text) : option nat :=
  match s with d :: _ => if digit d || is_byte "_"%char d then Some 1%nat else any_letter s | [] => None end.
(** The runes of a key after the first, at most [n]: how many, and their bytes. *)
Fixpoint key_run (n : nat) (s : text) : nat * nat :=
  match n with
  | O => (O, O)
  | S n => match any_key_rune s with Some w => let (k, b) := key_run n (drop w s) in (S k, (w + b)%nat) | None => (O, O) end
  end.
(** The length of an issue key in any case, up to the end of the text or a slash. *)
Definition match_browse_key (s : text) : option nat :=
  w ← any_letter s;
  let (k, n) := key_run 31 (drop w s) in
  match drop (w + n) s with
  | h :: d :: ds =>
      let digits := length (fst (WikiScanner.span digit ds)) in
      if (1 <=? k)%nat && is_byte "-"%char h && digit1 d && match drop digits ds with [] => true | c :: _ => is_byte "/"%char c end
      then Some (w + n + 2 + digits)%nat else None
  | _ => None
  end.
Definition match_number (s : text) : option nat :=
  match s with
  | d :: ds =>
      let digits := length (fst (WikiScanner.span digit ds)) in
      if digit1 d && match drop digits ds with [] => true | c :: _ => is_byte "/"%char c end then Some (S digits) else None
  | [] => None
  end.
(** The first place after the start or a slash where one of the words and a slash
    stand before what [name] matches. *)
Definition after_words (words : list text) (name : text → option nat) (s : text) : option text :=
  first_some (λ _ w, rest ← fold_word w s; n ← name rest; Some (take n rest)) 0 words.
Fixpoint find_segment (words : list text) (name : text → option nat) (start : bool) (s : text) : option text :=
  match (if start then after_words words name s else None) with
  | Some found => Some found
  | None => match s with [] => None | c :: s => find_segment words name (is_byte "/"%char c) s end
  end.
Definition graphBrowsePathPattern (path : text) : option text := find_segment [txt "browse/"] match_browse_key true path.
Definition graphConfluencePagePathPattern (path : text) : option text := find_segment [txt "pages/"; txt "content/"] match_number true path.
(** [path.Clean] of a rooted path *)
Definition clean_segment (stack : list text) (part : text) : list text :=
  if eqt part [] || eqt part (txt ".") then stack else if eqt part (txt "..") then tail stack else part :: stack.
Definition clean_rooted (path : text) : text := txt "/" ++ Markdown.join (txt "/") (reverse (fold_left clean_segment (Markdown.split path (txt "/")) [])).
Definition graphSensitivePath (path : text) : bool :=
  existsb (λ segment,
    negb (eqt segment []) &&
    (existsb (contains (ToLower segment)) (map txt ["access_token"; "apikey"; "api_key"; "auth"; "credential"; "jwt"; "password"; "passwd"; "secret"; "session"; "signature";
                                                    "ticket"; "token"]) || (24 <=? zlen segment))) (Markdown.split path (txt "/")).
Fixpoint query_page (found : text) (query : list (text * list text)) : text :=
  match query with
  | [] => found
  | (k, vs) :: query =>
      if negb (EqualFold k (txt "pageId")) then query_page found query
      else match vs with [v] => if negb (numericID v) || negb (eqt found []) then [] else query_page v query | _ => [] end
  end.
Definition graphQueryPageID : list (text * list text) → text := query_page [].
Definition graphConfluencePageID (path queryPageID : text) : text := if negb (eqt queryPageID []) then queryPageID else default [] (graphConfluencePagePathPattern path).
Definition effectiveURLPort (scheme host : text) : text :=
  let port := snd (Scmref.splitHostPort host) in if negb (eqt port []) then port else if EqualFold scheme (txt "https") then txt "443" else txt "80".
Definition sameGraphOrigin (scheme host base : text) : bool :=
  if eqt (trim_space base) [] then false
  else match url_Parse base with
  | None => false
  | Some other =>
      EqualFold scheme (wScheme other) && EqualFold (fst (Scmref.splitHostPort host)) (Scmref.Hostname other) &&
      eqt (effectiveURLPort scheme host) (effectiveURLPort (wScheme other) (wHost other))
  end.
(** [net.JoinHostPort] *)
Definition JoinHostPort (host port : text) : text :=
  if existsb (λ c, is_byte ":"%char c || is_byte "%"%char c) host then txt "[" ++ host ++ txt "]:" ++ port else host ++ txt ":" ++ port.
Definition with_url (url : text) (n : ArtifactGraphNode) : ArtifactGraphNode :=
  {| nID := nID n; nKind := nKind n; nService := nService n; nExternalID := nExternalID n; nURL := url; nLabel := nLabel n; nState := nState n; nExpanded := nExpanded n;
     nDepth := nDepth n; nStability := nStability n; nSCM := nSCM n |}.
Definition service_reference (id kind service external url : text) : graphReference :=
  {| Node := with_url url (referenced id kind service external ArtifactNodeStub ArtifactStabilityPublicAPI); Extraction := txt "service_url"; Confidence := txt "exact" |}.
Definition normalizeGraphURL (raw jiraBase confluenceBase : text) : option graphReference :=
  if graphURLMaxBytes <? zlen raw then None
  else
    u ← url_Parse raw;
    if negb (eqt (wScheme u) (txt "http") || eqt (wScheme u) (txt "https")) || eqt (Scmref.Hostname u) [] || wUser u then None
    else
      let scheme := ToLower (wScheme u) in
      let name := ToLower (Scmref.Hostname u) in
      let port := Scmref.Port u in
      let host := if negb (eqt port []) && negb (eqt scheme (txt "https") && eqt port (txt "443")) && negb (eqt scheme (txt "http") && eqt port (txt "80"))
                  then JoinHostPort name port else name in
      let cleaned := clean_rooted (Markdown.trim_prefix (wEscapedPath u) (txt "/")) in
      let cleaned := if has_suffix (wPath u) (txt "/") && negb (eqt cleaned (txt "/")) then cleaned ++ txt "/" else cleaned in
      path ← MdCsf.PathUnescape cleaned;
      let query := if eqt (wRawQuery u) [] then [] else txt "redacted=redacted" in
      let safe := url_String scheme host path cleaned query in
      if graphURLMaxBytes <? zlen safe then None
      else
        let shown := if graphSensitivePath path then [] else safe in
        let elsewhere :=
          let id := if sameGraphOrigin scheme host confluenceBase then graphConfluencePageID path (graphQueryPageID (wQuery u)) else [] in
          if negb (eqt id []) then service_reference (page_prefix ++ id) (txt "confluence_page") (txt "confluence") id shown
          else if graphSensitivePath path then opaqueGraphURLReference raw
          else {| Node := with_url safe (referenced (txt "url:" ++ graphHash safe) (txt "url") (txt "external") [] ArtifactNodeStub ArtifactStabilityHeuristic);
                  Extraction := txt "absolute_url"; Confidence := txt "high" |} in
        Some (match (if sameGraphOrigin scheme host jiraBase then graphBrowsePathPattern path else None) with
              | Some key => service_reference (issue_id (ToUpper key)) (txt "jira_issue") (txt "jira") (ToUpper key) shown
              | None => elsewhere
              end).
Definition extractGraphReferences (t jiraBase confluenceBase : text) (allowBare : bool) : list graphReference :=
  let n := length t in
  let urls := find_all n (λ i, match_url (drop i t)) 0 n in
  let bare := blank t urls in
  let url_of p := let raw := trim_punctuation (slice t p.1 p.2) in default (opaqueGraphURLReference raw) (normalizeGraphURL raw jiraBase confluenceBase) in
  let keys := List.filter (λ p : nat * nat, negb (word_before bare p.1 || word_at bare p.2)) (find_all n (λ i, match_key (drop i bare)) 0 n) in
  let pages := find_all n (λ i, (λ p, p.2 - i)%nat <$> match_page bare i) 0 n in
  let page_of p := match match_page bare p.1 with Some (start, stop) => bare_page (slice bare start stop) | None => bare_page [] end in
  merge_sort reference_le (distinct_references []
    (map url_of urls ++ (if allowBare then map (λ p, bare_issue (ToUpper (slice bare p.1 p.2))) keys ++ map page_of pages else []))).
End lang.

(** ** Why a remote-link read failed (jira_graph_remote_diagnostic.go) *)

Definition maxRemoteLinkDiagnosticErrorNodes : nat := 32.
Record remoteLinkErrorEvidence :=
  { status_ : Z; statusCount : Z; transportCount : Z; invalidTransport : bool; authenticationCount : Z; permissionCount : Z; notFoundCount : Z; hardExcluded : bool;
    knownNonRequest : bool }.
Definition no_remote_evidence : remoteLinkErrorEvidence :=
  {| status_ := 0; statusCount := 0; transportCount := 0; invalidTransport := false; authenticationCount := 0; permissionCount := 0; notFoundCount := 0; hardExcluded := false;
     knownNonRequest := false |}.
Definition inspect_error (this : option sentinel) (status : option Z) (transport : option bool) (v : remoteLinkErrorEvidence) : remoteLinkErrorEvidence :=
  let same s := bool_decide (this = Some s) in
  let one (c : bool) := if c then 1 else 0 in
  {| status_ := default (status_ v) status; statusCount := statusCount v + one (bool_decide (is_Some status));
     transportCount := transportCount v + one (bool_decide (transport = Some true)); invalidTransport := invalidTransport v || bool_decide (transport = Some false);
     authenticationCount := authenticationCount v + one (same ErrAuth); permissionCount := permissionCount v + one (same ErrForbidden);
     notFoundCount := notFoundCount v + one (same ErrNotFound);
     hardExcluded := hardExcluded v || existsb same [Canceled; DeadlineExceeded; ErrOutputLimit; ErrConfig; ErrReadAttemptBudgetExhausted; ErrReadResponseBudgetExhausted];
     knownNonRequest := knownNonRequest v || existsb same [ErrVersionConflict; ErrUsage; ErrCheckFailed] |}.
(** No error has both kinds of [Unwrap]: a Go type has one method of that name. *)
Fixpoint evidence_loop (fuel visited : nat) (pending : list (option goerror)) (v : remoteLinkErrorEvidence) : option remoteLinkErrorEvidence :=
  match pending, fuel with
  | [], _ => Some v
  | _, O => None
  | current :: pending, S fuel =>
      if (maxRemoteLinkDiagnosticErrorNodes <=? visited)%nat then None
      else match current with
      | None => evidence_loop fuel visited pending v
      | Some (GoError this status transport inner) =>
          let visited := S visited in
          let v := inspect_error this status transport v in
          let room := (Z.of_nat maxRemoteLinkDiagnosticErrorNodes - Z.of_nat visited) in
          match inner with
          | NoUnwrap | UnwrapOne None => evidence_loop fuel visited pending v
          | UnwrapOne child => if room <=? zlen pending then None else evidence_loop fuel visited (pending ++ [child]) v
          | UnwrapMany children => if room - zlen pending <? zlen children then None else evidence_loop fuel visited (pending ++ children) v
          end
      end
  end.
(** Every step pops one of at most 33 pending errors or visits one of 32. *)
Definition collectRemoteLinkErrorEvidence (e : goerror) : option remoteLinkErrorEvidence := evidence_loop 1200 0 [Some e] no_remote_evidence.
Definition remoteLinkFailure (class : text) (status : Z) : ArtifactGraphSourceFailure := {| Class_ := class; HTTPStatus := if status =? 0 then None else Some status |}.
Definition remoteLinkFailureDiagnostic (e : goerror) : option ArtifactGraphSourceFailure :=
  match collectRemoteLinkErrorEvidence e with
  | None => None
  | Some v =>
      let semantic := authenticationCount v + permissionCount v + notFoundCount v in
      if hardExcluded v || (1 <? statusCount v) || (1 <? transportCount v) || invalidTransport v then None
      else if (1 <? authenticationCount v) || (1 <? permissionCount v) || (1 <? notFoundCount v) || (1 <? semantic) then None
      else if statusCount v =? 1 then
        let status := status_ v in
        if negb (transportCount v =? 0) || (status <? 300) || (599 <? status) then None
        else if status =? 401 then
          if negb (permissionCount v =? 0) || negb (notFoundCount v =? 0) || knownNonRequest v then None else Some (remoteLinkFailure ArtifactSourceFailureAuthentication status)
        else if status =? 403 then
          if negb (authenticationCount v =? 0) || negb (notFoundCount v =? 0) || knownNonRequest v then None else Some (remoteLinkFailure ArtifactSourceFailurePermission status)
        else if status =? 404 then
          if negb (authenticationCount v =? 0) || negb (permissionCount v =? 0) || knownNonRequest v then None else Some (remoteLinkFailure ArtifactSourceFailureNotFound status)
        else if negb (semantic =? 0) then None else Some (remoteLinkFailure ArtifactSourceFailureHTTP status)
      else if transportCount v =? 1 then
        if negb (semantic =? 0) || knownNonRequest v then None else Some (remoteLinkFailure ArtifactSourceFailureTransport 0)
      else if knownNonRequest v then None
      else if authenticationCount v =? 1 then Some (remoteLinkFailure ArtifactSourceFailureAuthentication 0)
      else if permissionCount v =? 1 then Some (remoteLinkFailure ArtifactSourceFailurePermission 0)
      else if notFoundCount v =? 1 then Some (remoteLinkFailure ArtifactSourceFailureNotFound 0)
      else Some (remoteLinkFailure ArtifactSourceFailureRequest 0)
  end.
Definition validJiraGraphRemoteLinkFailure (u : ArtifactGraphSource) : bool :=
  match uFailure u with
  | None => true
  | Some f =>
      let status p := match HTTPStatus f with Some s => p s | None => true end in
      eqt (uKind u) (txt "remote_links") && uRequested u && negb (uComplete u) && (uCount u =? 0) && negb (uTruncated u) &&
      (if eqt (Class_ f) ArtifactSourceFailureAuthentication then
         eqt (uStatus u) ArtifactSourceForbidden && eqt (uPartialReason u) [] && status (λ s, s =? 401)
       else if eqt (Class_ f) ArtifactSourceFailurePermission then
         eqt (uStatus u) ArtifactSourceForbidden && eqt (uPartialReason u) [] && status (λ s, s =? 403)
       else if eqt (Class_ f) ArtifactSourceFailureNotFound then
         eqt (uStatus u) ArtifactSourceUnsupported && eqt (uPartialReason u) [] && status (λ s, s =? 404)
       else if eqt (Class_ f) ArtifactSourceFailureHTTP then
         match HTTPStatus f with Some s => (300 <=? s) && (s <=? 599) && negb (s =? 401) && negb (s =? 403) && negb (s =? 404) | None => false end &&
         eqt (uStatus u) ArtifactSourcePartial && (eqt (uPartialReason u) ArtifactPartialRequestFailed || eqt (uPartialReason u) ArtifactPartialMalformed)
       else if eqt (Class_ f) ArtifactSourceFailureTransport || eqt (Class_ f) ArtifactSourceFailureRequest then
         bool_decide (HTTPStatus f = None) && eqt (uStatus u) ArtifactSourcePartial && eqt (uPartialReason u) ArtifactPartialRequestFailed
       else false)
  end.
End GraphExtract.
