(* ===== verification/GraphCollect.v ===== *)
(** * The Jira artifact graph: collecting one issue
    (internal/app/jira_graph.go, jira_graph_collect.go, jira_graph_development.go)

    The projection of one issue: its node, and per collector the nodes and edges
    it finds with a source that says how complete they are.  A pointer to a source
    is its kind; the nil pointer is [None]. *)

From stdpp Require Import vector pretty.
From S2P Require Import Prelude GoText TextOrder Encoding WikiScanner Markdown NetUrl MdView GraphTypes Scmref GraphExtract.
Import GoText TextOrder Encoding GraphTypes GraphExtract.
Import WikiScanner (is_byte).

Module GraphCollect.
Local Open Scope Z_scope.
Local Open Scope atl_scope.

(** ** The builder *)

Definition jiraGraphMaxNodes : Z := 2048.
Definition jiraGraphMaxEdges : Z := 4096.
Definition jiraGraphMaxEvidence : Z := 4096.
Definition jiraGraphMaxSourceBytes : Z := 1048576.
Record jiraGraphBuilder :=
  { bRootID : text; bNodes : gmap text ArtifactGraphNode; bEdges : gmap text ArtifactGraphEdge; bSources : gmap text ArtifactGraphSource; bEvidenceCount : Z;
    bSourceKinds : list text }.
Definition fresh_source (id kind : text) : ArtifactGraphSource :=
  {| uNodeID := id; uNodeDepth := None; uKind := kind; uRequested := true; uStatus := ArtifactSourceEmpty; uComplete := true; uCount := 0; uTruncated := false;
     uPartialReason := []; uStability := jiraGraphSourceStability kind; uFailure := None |}.
Definition newJiraGraphBuilderWithSources (id : text) (kinds : list text) : jiraGraphBuilder :=
  {| bRootID := id; bNodes := ∅; bEdges := ∅; bSources := list_to_map (map (λ k, (k, fresh_source id k)) kinds); bEvidenceCount := 0; bSourceKinds := kinds |}.
Definition set_nodes (m : gmap text ArtifactGraphNode) (b : jiraGraphBuilder) : jiraGraphBuilder :=
  {| bRootID := bRootID b; bNodes := m; bEdges := bEdges b; bSources := bSources b; bEvidenceCount := bEvidenceCount b; bSourceKinds := bSourceKinds b |}.
Definition set_edges (m : gmap text ArtifactGraphEdge) (count : Z) (b : jiraGraphBuilder) : jiraGraphBuilder :=
  {| bRootID := bRootID b; bNodes := bNodes b; bEdges := m; bSources := bSources b; bEvidenceCount := count; bSourceKinds := bSourceKinds b |}.
Definition set_sources (m : gmap text ArtifactGraphSource) (b : jiraGraphBuilder) : jiraGraphBuilder :=
  {| bRootID := bRootID b; bNodes := bNodes b; bEdges := bEdges b; bSources := m; bEvidenceCount := bEvidenceCount b; bSourceKinds := bSourceKinds b |}.

(** ** Sources *)

Definition qualified (status : text) (complete : bool) (truncated : bool) (reason : text) (u : ArtifactGraphSource) : ArtifactGraphSource :=
  {| uNodeID := uNodeID u; uNodeDepth := uNodeDepth u; uKind := uKind u; uRequested := uRequested u; uStatus := status; uComplete := complete; uCount := uCount u;
     uTruncated := truncated; uPartialReason := reason; uStability := uStability u; uFailure := uFailure u |}.
Definition counted (n : Z) (u : ArtifactGraphSource) : ArtifactGraphSource :=
  {| uNodeID := uNodeID u; uNodeDepth := uNodeDepth u; uKind := uKind u; uRequested := uRequested u; uStatus := uStatus u; uComplete := uComplete u; uCount := n;
     uTruncated := uTruncated u; uPartialReason := uPartialReason u; uStability := uStability u; uFailure := uFailure u |}.
Definition failed_with (f : option ArtifactGraphSourceFailure) (u : ArtifactGraphSource) : ArtifactGraphSource :=
  {| uNodeID := uNodeID u; uNodeDepth := uNodeDepth u; uKind := uKind u; uRequested := uRequested u; uStatus := uStatus u; uComplete := uComplete u; uCount := uCount u;
     uTruncated := uTruncated u; uPartialReason := uPartialReason u; uStability := uStability u; uFailure := f |}.
Definition placed (id : text) (depth : option Z) (u : ArtifactGraphSource) : ArtifactGraphSource :=
  {| uNodeID := id; uNodeDepth := depth; uKind := uKind u; uRequested := uRequested u; uStatus := uStatus u; uComplete := uComplete u; uCount := uCount u;
     uTruncated := uTruncated u; uPartialReason := uPartialReason u; uStability := uStability u; uFailure := uFailure u |}.
Definition markJiraGraphSourceMalformed : ArtifactGraphSource → ArtifactGraphSource := qualified ArtifactSourcePartial false false ArtifactPartialMalformed.
Definition limited (reason : text) : ArtifactGraphSource → ArtifactGraphSource := qualified ArtifactSourcePartial false true reason.
Definition completed (u : ArtifactGraphSource) : ArtifactGraphSource :=
  if negb (uComplete u) then u
  else qualified (if uCount u =? 0 then ArtifactSourceEmpty else ArtifactSourceComplete) (uComplete u) (uTruncated u) (uPartialReason u) u.
Definition on_source (f : ArtifactGraphSource → ArtifactGraphSource) (source : option text) (b : jiraGraphBuilder) : jiraGraphBuilder :=
  match source with Some kind => set_sources (alter f kind (bSources b)) b | None => b end.
Definition markMalformed : option text → jiraGraphBuilder → jiraGraphBuilder := on_source markJiraGraphSourceMalformed.
Definition markInspectionLimit : option text → jiraGraphBuilder → jiraGraphBuilder := on_source (limited ArtifactPartialInspectionLimit).
Definition markOutputLimit : option text → jiraGraphBuilder → jiraGraphBuilder := on_source (limited ArtifactPartialOutputLimit).
Definition completeSource : option text → jiraGraphBuilder → jiraGraphBuilder := on_source completed.
(** A source that the collector cannot read. *)
Definition unsupported (u : ArtifactGraphSource) : ArtifactGraphSource := qualified ArtifactSourceUnsupported false (uTruncated u) (uPartialReason u) u.

(** What a read of the backend gives: its answer, and what [ctx.Err()] is after it. *)
Record reading (A : Type) := { answer : fallible A; ctx_err : option goerror }.
Arguments answer {A} r.
Arguments ctx_err {A} r.
Definition qualify_error (e : goerror) (notFoundUnsupported : bool) (u : ArtifactGraphSource) : ArtifactGraphSource :=
  let u := qualified (uStatus u) false (uTruncated u) (uPartialReason u) u in
  if Is e ErrReadAttemptBudgetExhausted then limited ArtifactPartialRequestLimit u
  else if Is e ErrReadResponseBudgetExhausted then limited ArtifactPartialByteLimit u
  else if Is e ErrOutputLimit then limited ArtifactPartialOutputLimit u
  else if Is e ErrAuth || Is e ErrForbidden then qualified ArtifactSourceForbidden false (uTruncated u) (uPartialReason u) u
  else if notFoundUnsupported && Is e ErrNotFound then unsupported u
  else if Is e ErrCheckFailed then markJiraGraphSourceMalformed u
  else qualified ArtifactSourcePartial false (uTruncated u) ArtifactPartialRequestFailed u.
Definition qualifyAuxiliaryError (ctx : option goerror) (source : text) (e : goerror) (notFoundUnsupported : bool) (b : jiraGraphBuilder) : fallible jiraGraphBuilder :=
  match ctx with Some stop => Err stop | None => Ok (on_source (qualify_error e notFoundUnsupported) (Some source) b) end.

(** ** Nodes and edges *)

(** What a second sighting of a node adds to the first. *)
Definition sighted (existing node : ArtifactGraphNode) : ArtifactGraphNode :=
  let better := eqt (nState node) ArtifactNodeResolved || eqt (nState node) ArtifactNodeStub && eqt (nState existing) ArtifactNodeUnresolved in
  {| nID := nID existing; nKind := nKind existing; nService := nService existing; nExternalID := nExternalID existing;
     nURL := if eqt (nURL existing) [] then nURL node else nURL existing; nLabel := if eqt (nLabel existing) [] then nLabel node else nLabel existing;
     nState := if better then nState node else nState existing; nExpanded := nExpanded existing; nDepth := nDepth existing;
     nStability := if better then nStability node else nStability existing;
     nSCM := match nSCM existing with None => nSCM node | scm => scm end |}.
Definition addNode (node : ArtifactGraphNode) (source : option text) (b : jiraGraphBuilder) : jiraGraphBuilder * bool :=
  match bNodes b !! nID node with
  | Some existing => (set_nodes (<[nID node := sighted existing node]> (bNodes b)) b, true)
  | None =>
      if jiraGraphMaxNodes <=? Z.of_nat (size (bNodes b)) then (markOutputLimit source b, false)
      else (set_nodes (<[nID node := node]> (bNodes b)) b, true)
  end.
Definition with_evidence (vs : list ArtifactGraphEvidence) (e : ArtifactGraphEdge) : ArtifactGraphEdge :=
  {| eID := eID e; eFrom := eFrom e; eTo := eTo e; eKind := eKind e; eRelationType := eRelationType e; eRelation := eRelation e; eDirection := eDirection e;
     eCurrent := eCurrent e; eConfidence := eConfidence e; eStability := eStability e; eEvidence := vs |}.
(** The new evidence for a known edge; what was appended before the limit is not
    stored, only counted. *)
Fixpoint add_evidence (seen : list text) (count : Z) (kept new : list ArtifactGraphEvidence) : list ArtifactGraphEvidence * Z * bool :=
  match new with
  | [] => (kept, count, true)
  | v :: vs =>
      if oneOf (graphEvidenceKey v) seen then add_evidence seen count kept vs
      else if jiraGraphMaxEvidence <=? count then (kept, count, false)
      else add_evidence seen (count + 1) (kept ++ [v]) vs
  end.
Section lang.
Context `{Lang}.
Definition identified (e : ArtifactGraphEdge) : ArtifactGraphEdge :=
  {| eID := graphEdgeID e; eFrom := eFrom e; eTo := eTo e; eKind := eKind e; eRelationType := eRelationType e; eRelation := eRelation e; eDirection := eDirection e;
     eCurrent := eCurrent e; eConfidence := eConfidence e; eStability := eStability e; eEvidence := eEvidence e |}.
Definition addEdge (edge : ArtifactGraphEdge) (source : option text) (b : jiraGraphBuilder) : jiraGraphBuilder * bool :=
  let e := identified edge in
  match bEdges b !! eID e with
  | Some existing =>
      match add_evidence (map graphEvidenceKey (eEvidence existing)) (bEvidenceCount b) (eEvidence existing) (eEvidence e) with
      | (kept, count, true) => (set_edges (<[eID e := with_evidence kept existing]> (bEdges b)) count b, true)
      | (_, count, false) => (markOutputLimit source (set_edges (bEdges b) count b), false)
      end
  | None =>
      if (jiraGraphMaxEdges <=? Z.of_nat (size (bEdges b))) || (jiraGraphMaxEvidence <? bEvidenceCount b + zlen (eEvidence e))
      then (markOutputLimit source b, false)
      else (set_edges (<[eID e := e]> (bEdges b)) (bEvidenceCount b + zlen (eEvidence e)) b, true)
  end.
(** [addNode] and, if it worked, [addEdge] from the root. *)
Definition link (node : ArtifactGraphNode) (kind relationType relation direction confidence stability : text) (v : ArtifactGraphEvidence) (source : option text)
    (b : jiraGraphBuilder) : jiraGraphBuilder :=
  let (b, added) := addNode node source b in
  if added then
    (addEdge {| eID := []; eFrom := bRootID b; eTo := nID node; eKind := kind; eRelationType := relationType; eRelation := relation; eDirection := direction;
                eCurrent := true; eConfidence := confidence; eStability := stability; eEvidence := [v] |} source b).1
  else b.
Definition observed_in (collector sourceKind sourceID pointer extraction : text) : ArtifactGraphEvidence :=
  {| vCollector := collector; vSourceNodeID := []; vSourceKind := sourceKind; vSourceID := sourceID; vJSONPointer := pointer; vExtraction := extraction |}.
Definition outbound : text := txt "outbound".
Definition exact : text := txt "exact".
Definition structured : text := txt "structured".
Definition stub_issue (key : text) : ArtifactGraphNode :=
  referenced (issue_id (ToUpper key)) (txt "jira_issue") (txt "jira") (ToUpper key) ArtifactNodeStub ArtifactStabilityPublicAPI.
Definition graphStrictPositiveID (v : value) : option text :=
  match v with VString t | VNumber t => if numericID t then Some t else None | _ => None end.
Definition graphStrictString (v : value) : option text :=
  match v with VString t => if eqt t [] || negb (eqt t (trim_space t)) then None else Some t | _ => None end.
Definition field (snapshot : QualifiedIssueSnapshot) (name : text) : value := default VNull (lookup_member (default [] (qFields snapshot)) name).
Definition indexed (prefix : string) (i : nat) : text := txt prefix ++ txt (pretty i).

(** ** Structured collectors *)

Definition issue_links : text := txt "issue_links".
Definition link_row (snapshot : QualifiedIssueSnapshot) (index : nat) (row : value) (s : list text * jiraGraphBuilder) : list text * jiraGraphBuilder :=
  let (seenIDs, b) := s in
  let bad := (seenIDs, markMalformed (Some issue_links) b) in
  let type := member_of row (txt "type") in
  let inward := member_of row (txt "inwardIssue") in let outward := member_of row (txt "outwardIssue") in
  match graphStrictPositiveID (member_of row (txt "id")), graphStrictString (member_of type (txt "name")) with
  | Some linkID, Some typeName =>
      if negb (is_object row) || oneOf linkID seenIDs || negb (is_object type) || Bool.eqb (is_object inward) (is_object outward) then bad
      else
        let seenIDs := linkID :: seenIDs in
        let direction := if is_object outward then txt "outward" else txt "inward" in
        let target := if is_object outward then outward else inward in
        match graphStrictPositiveID (member_of target (txt "id")), graphStrictString (member_of target (txt "key")), graphStrictString (member_of type direction) with
        | Some targetID, Some targetKey, Some relation =>
            if eqt targetID (qID snapshot) || negb (jiraGraphExactKey targetKey) || eqt (issue_id (ToUpper targetKey)) (bRootID b)
            then (seenIDs, markMalformed (Some issue_links) b)
            else (seenIDs, link (stub_issue targetKey) (txt "jira_link") (graphBoundedLabel typeName) (graphBoundedLabel relation) direction exact ArtifactStabilityPublicAPI
                             (observed_in issue_links (txt "field") linkID (indexed "/fields/issuelinks/" index) structured) (Some issue_links) b)
        | _, _, _ => (seenIDs, markMalformed (Some issue_links) b)
        end
  | _, _ => bad
  end.
(** [for index, row := range rows] *)
Fixpoint rows_loop {S : Type} (f : nat → value → S → S) (i : nat) (rows : list value) (s : S) : S :=
  match rows with [] => s | r :: rs => rows_loop f (Datatypes.S i) rs (f i r s) end.
Definition collectIssueLinks (snapshot : QualifiedIssueSnapshot) (b : jiraGraphBuilder) : jiraGraphBuilder :=
  match field snapshot (txt "issuelinks") with
  | VArray rows =>
      completeSource (Some issue_links) (rows_loop (link_row snapshot) 0 rows ([], on_source (counted (zlen rows)) (Some issue_links) b)).2
  | _ => markMalformed (Some issue_links) b
  end.

Definition hierarchy : text := txt "hierarchy".
Record hierarchy_state := { h_count : Z; h_seen : list text; h_builder : jiraGraphBuilder }.
Definition count_malformed (s : hierarchy_state) : hierarchy_state :=
  {| h_count := h_count s + 1; h_seen := h_seen s; h_builder := markMalformed (Some hierarchy) (h_builder s) |}.
Definition addTarget (key kind pointer : text) (s : hierarchy_state) : hierarchy_state :=
  let name := kind ++ nul ++ ToUpper key in
  if negb (jiraGraphExactKey key) || eqt (issue_id (ToUpper key)) (bRootID (h_builder s)) || oneOf name (h_seen s) then count_malformed s
  else {| h_count := h_count s + 1; h_seen := name :: h_seen s;
          h_builder := link (stub_issue key) kind [] [] outbound exact ArtifactStabilityPublicAPI
                         (observed_in hierarchy (txt "field") (Markdown.trim_prefix pointer (txt "/fields/")) pointer structured) (Some hierarchy) (h_builder s) |}.
(** A parent or a subtask. *)
Definition family (snapshot : QualifiedIssueSnapshot) (kind pointer : text) (v : value) (s : hierarchy_state) : hierarchy_state :=
  match graphStrictPositiveID (member_of v (txt "id")), graphStrictString (member_of v (txt "key")) with
  | Some id, Some key => if negb (is_object v) || eqt id (qID snapshot) then count_malformed s else addTarget key kind pointer s
  | _, _ => count_malformed s
  end.
Definition epic_field (snapshot : QualifiedIssueSnapshot) (s : hierarchy_state) (m : text * IssueFieldSchema) : hierarchy_state :=
  let name := ToLower (trim_space (default [] (lookup_member (default [] (qNames snapshot)) m.1))) in
  if negb (eqt name (txt "epic link")) && negb (contains (ToLower (yCustom m.2)) (txt "epic-link")) then s
  else match field snapshot m.1 with
  | VNull => s
  | v => match graphStrictString v with
         | Some epic => addTarget epic (txt "epic_of") (txt "/fields/" ++ escapeJSONPointer (graphSafeFieldToken m.1)) s
         | None => count_malformed s
         end
  end.
Definition collectHierarchy (snapshot : QualifiedIssueSnapshot) (b : jiraGraphBuilder) : jiraGraphBuilder :=
  let s := {| h_count := 0; h_seen := []; h_builder := b |} in
  let s := match field snapshot (txt "parent") with VNull => s | v => family snapshot (txt "child_of") (txt "/fields/parent") v s end in
  let s := match field snapshot (txt "subtasks") with
           | VNull => s
           | VArray rows => rows_loop (λ i v, family snapshot (txt "parent_of") (indexed "/fields/subtasks/" i) v) 0 rows s
           | _ => count_malformed s
           end in
  let s := fold_left (epic_field snapshot) (default [] (qSchema snapshot)) s in
  completeSource (Some hierarchy) (on_source (counted (h_count s)) (Some hierarchy) (h_builder s)).

Definition attachments : text := txt "attachments".
Definition attachment_row (index : nat) (row : value) (s : list text * jiraGraphBuilder) : list text * jiraGraphBuilder :=
  let (seenIDs, b) := s in
  match graphStrictPositiveID (member_of row (txt "id")), graphStrictString (member_of row (txt "filename")) with
  | Some id, Some filename =>
      if negb (is_object row) || oneOf id seenIDs then (seenIDs, markMalformed (Some attachments) b)
      else
        let node := {| nID := txt "jira:attachment:" ++ id; nKind := txt "attachment"; nService := txt "jira"; nExternalID := id; nURL := []; nLabel := graphBoundedLabel filename;
                       nState := ArtifactNodeResolved; nExpanded := false; nDepth := 1; nStability := ArtifactStabilityPublicAPI; nSCM := None |} in
        (id :: seenIDs, link node (txt "attached") [] [] outbound exact ArtifactStabilityPublicAPI
                          (observed_in attachments (txt "field") (txt "attachment") (indexed "/fields/attachment/" index) structured) (Some attachments) b)
  | _, _ => (seenIDs, markMalformed (Some attachments) b)
  end.
Definition collectAttachments (snapshot : QualifiedIssueSnapshot) (b : jiraGraphBuilder) : jiraGraphBuilder :=
  match field snapshot (txt "attachment") with
  | VArray rows => completeSource (Some attachments) (rows_loop attachment_row 0 rows ([], on_source (counted (zlen rows)) (Some attachments) b)).2
  | _ => markMalformed (Some attachments) b
  end.

(** ** References in text *)

(** Where a value was found. *)
Record place := { k_collector : text; k_sourceKind : text; k_sourceID : text; k_jiraBase : text; k_confluenceBase : text }.
Definition add_reference (k : place) (pointer : text) (b : jiraGraphBuilder) (r : graphReference) : jiraGraphBuilder :=
  if eqt (nID (Node r)) (bRootID b) then b
  else link (Node r) (txt "mentions") [] [] outbound (Confidence r) ArtifactStabilityHeuristic
         (observed_in (k_collector k) (k_sourceKind k) (k_sourceID k) pointer (Extraction r)) (Some (k_collector k)) b.
Definition addTextReferences (k : place) (t pointer : text) (allowBare : bool) (b : jiraGraphBuilder) : jiraGraphBuilder :=
  fold_left (add_reference k pointer) (extractGraphReferences t (k_jiraBase k) (k_confluenceBase k) allowBare) b.
Definition addValueReferences (k : place) (v : value) (pointer : text) (allowBare : bool) (b : jiraGraphBuilder) : jiraGraphBuilder :=
  let texts b := match v with VString t => addTextReferences k t pointer allowBare b | _ => b end in
  if EqualFold (graphPointerLeaf pointer) (txt "pageId") then
    match graphStrictPositiveID v with
    | None => markMalformed (Some (k_collector k)) b
    | Some id =>
        texts (link (Node (bare_page id)) (txt "mentions") [] [] outbound (txt "high") ArtifactStabilityHeuristic
                 (observed_in (k_collector k) (k_sourceKind k) (k_sourceID k) pointer (txt "confluence_page_id")) (Some (k_collector k)) b)
    end
  else texts b.
Definition source_budget : graphExtractBudget := {| MaxBytes := jiraGraphMaxSourceBytes; Bytes := 0; Strings := 0; Clipped := false |}.
(** The end of a text collector. *)
Definition inspected (source : text) (s : graphExtractBudget * jiraGraphBuilder) : jiraGraphBuilder :=
  completeSource (Some source) (if Clipped s.1 then markInspectionLimit (Some source) s.2 else s.2).
Definition graphSortedSourceKeys (keys : list text) (b : graphExtractBudget) (maxKeys : Z) : graphExtractBudget * list text :=
  if maxKeys <? zlen keys then (clip b, [])
  else let (b, fits) := consume b (2 + zlen keys) in
       if negb fits then (clip b, [])
       else let (b, fits) := consume_keys b keys in if fits then (b, sort_on (λ k, k) keys) else (b, []).

(** *** Fields (jira_graph_collect.go) *)

Definition graphSchemaIsIdentity (y : IssueFieldSchema) : bool :=
  existsb (λ v, oneOf (ToLower (trim_space v)) (map txt ["user"; "users"; "group"; "groups"])) [yType y; yItems y].
Definition graphValueMayContainReferences (v : value) : bool :=
  match v with
  | VString t => negb (eqt (trim_space t) [])
  | VArray vs => negb (length vs =? 0)%nat
  | VObject ms => negb (length ms =? 0)%nat
  | VNull | VNumber _ | VFloat _ | VBool _ => false
  | VOther => true
  end.
Definition graphKnownSchemaType (v : text) : bool :=
  oneOf v (map txt ["array"; "string"; "number"; "integer"; "boolean"; "date"; "datetime"; "option"; "option-with-child"; "component"; "version"; "user"; "users"; "group";
    "groups"; "project"; "issuetype"; "priority"; "resolution"; "status"; "securitylevel"; "progress"; "votes"; "watches"; "timetracking"; "attachment"; "issuelink";
    "comment"; "worklog"]).
Definition graphNormalizeFieldSchema (y : IssueFieldSchema) (allowTopLevelAny : bool) : option IssueFieldSchema :=
  let y := {| yType := ToLower (trim_space (yType y)); yItems := ToLower (trim_space (yItems y)); ySystem := trim_space (ySystem y); yCustom := trim_space (yCustom y) |} in
  if eqt (yType y) (txt "any") then if negb allowTopLevelAny || negb (eqt (yItems y) []) then None else Some y
  else if negb (graphKnownSchemaType (yType y)) then None
  else if eqt (yType y) (txt "array") then
    if eqt (yItems y) [] || eqt (yItems y) (txt "array") || negb (graphKnownSchemaType (yItems y)) then None else Some y
  else if negb (eqt (yItems y) []) then None else Some y.
Definition graphKnownSystemFieldID (id : text) : bool :=
  oneOf (ToLower id) (map txt ["summary"; "description"; "environment"; "labels"; "status"; "issuetype"; "project"; "priority"; "resolution"; "components"; "fixversions";
    "versions"; "created"; "updated"; "duedate"; "resolutiondate"; "lastviewed"; "security"; "progress"; "aggregateprogress"; "votes"; "watches"; "timetracking";
    "timeestimate"; "timeoriginalestimate"; "timespent"; "aggregatetimeestimate"; "aggregatetimeoriginalestimate"; "aggregatetimespent"; "workratio"]).
Definition graphFieldAllowsBareReferences (id name : text) (y : IssueFieldSchema) : bool :=
  if negb (eqt (yType y) (txt "string") || eqt (yType y) (txt "array") && eqt (yItems y) (txt "string")) then false
  else if oneOf (ToLower id) (map txt ["summary"; "description"; "environment"]) then true
  else if oneOf (ToLower id) (map txt ["labels"; "status"; "issuetype"; "project"; "priority"; "resolution"; "assignee"; "reporter"; "creator"; "components"; "fixversions";
                                       "versions"]) then false
  else if negb (customField id) then false
  else if eqt (yType y) (txt "string") then true
  else existsb (λ w, contains (ToLower name) (txt w)) ["description"; "notes"; "details"; "documentation"].
Definition issue_fields : text := txt "issue_fields".
(** What is decided about one field: whether it is walked, and whether with bare
    references. *)
Definition field_inspection (snapshot : QualifiedIssueSnapshot) (s : list (text * bool) * jiraGraphBuilder) (id : text) : list (text * bool) * jiraGraphBuilder :=
  let (inspections, b) := s in
  let bad := (inspections, markMalformed (Some issue_fields) b) in
  if oneOf (ToLower id) graphSkippedPathKeys || oneOf id (map txt ["issuelinks"; "parent"; "subtasks"; "attachment"; "comment"; "worklog"]) ||
     negb (graphValueMayContainReferences (field snapshot id)) then s
  else match lookup_member (default [] (qSchema snapshot)) id with
  | None => bad
  | Some y =>
      let custom := customField id in
      match graphNormalizeFieldSchema y custom with
      | None => bad
      | Some y =>
          let named_system := negb (eqt (ySystem y) []) && EqualFold (ySystem y) id in
          let knownSystem := graphKnownSystemFieldID id || named_system in
          if custom && negb (eqt (ySystem y) []) || knownSystem && negb (eqt (yCustom y) []) then bad
          else
            let b := if negb custom && negb knownSystem then markMalformed (Some issue_fields) b else b in
            if knownSystem && negb (eqt (ySystem y) []) && negb (EqualFold (ySystem y) id) then (inspections, markMalformed (Some issue_fields) b)
            else if graphSchemaIsIdentity y then (inspections, b)
            else
              let name := lookup_member (default [] (qNames snapshot)) id in
              let allowBare := (custom || knownSystem) && graphFieldAllowsBareReferences id (default [] name) y in
              if custom && eqt (trim_space (default [] name)) [] then (inspections ++ [(id, false)], markMalformed (Some issue_fields) b)
              else (inspections ++ [(id, allowBare)], b)
      end
  end.
Definition inspect_field (snapshot : QualifiedIssueSnapshot) (jiraBase confluenceBase : text) (s : graphExtractBudget * jiraGraphBuilder) (i : text * bool)
    : graphExtractBudget * jiraGraphBuilder :=
  if Clipped s.1 then s
  else
    let safe := graphSafeFieldToken i.1 in
    let k := {| k_collector := issue_fields; k_sourceKind := txt "field"; k_sourceID := safe; k_jiraBase := jiraBase; k_confluenceBase := confluenceBase |} in
    walkGraphValue (addValueReferences k) (field snapshot i.1) (txt "/fields/" ++ escapeJSONPointer safe) i.2 s.1 s.2.
Definition collectSnapshotFields (snapshot : QualifiedIssueSnapshot) (jiraBase confluenceBase : text) (b : jiraGraphBuilder) : jiraGraphBuilder :=
  let fields := default [] (qFields snapshot) in
  let b := on_source (counted (zlen fields)) (Some issue_fields) b in
  let (budget, ids) := graphSortedSourceKeys fields.*1 source_budget graphWalkMaxFields in
  let (inspections, b) := fold_left (field_inspection snapshot) ids ([], b) in
  inspected issue_fields (fold_left (inspect_field snapshot jiraBase confluenceBase) inspections (budget, b)).
Definition issue_properties : text := txt "issue_properties".
Definition inspect_property (snapshot : QualifiedIssueSnapshot) (jiraBase confluenceBase : text) (s : graphExtractBudget * jiraGraphBuilder) (name : text)
    : graphExtractBudget * jiraGraphBuilder :=
  if Clipped s.1 then s
  else
    let safe := txt "opaque-" ++ graphHash name in
    let k := {| k_collector := issue_properties; k_sourceKind := txt "property"; k_sourceID := safe; k_jiraBase := jiraBase; k_confluenceBase := confluenceBase |} in
    walkGraphValue (addValueReferences k) (default VNull (lookup_member (default [] (qProperties snapshot)) name)) (txt "/properties/" ++ escapeJSONPointer safe) true s.1 s.2.
Definition collectSnapshotProperties (snapshot : QualifiedIssueSnapshot) (jiraBase confluenceBase : text) (b : jiraGraphBuilder) : jiraGraphBuilder :=
  let properties := default [] (qProperties snapshot) in
  let b := on_source (counted (zlen properties)) (Some issue_properties) b in
  let (budget, names) := graphSortedSourceKeys properties.*1 source_budget graphWalkMaxObject in
  inspected issue_properties (fold_left (inspect_property snapshot jiraBase confluenceBase) names (budget, b)).
Definition has_source (b : jiraGraphBuilder) (kind : text) : bool := bool_decide (is_Some (bSources b !! kind)).
Definition collectSnapshotText (snapshot : QualifiedIssueSnapshot) (jiraBase confluenceBase : text) (b : jiraGraphBuilder) : jiraGraphBuilder :=
  let b := if has_source b issue_fields then collectSnapshotFields snapshot jiraBase confluenceBase b else b in
  if has_source b issue_properties then collectSnapshotProperties snapshot jiraBase confluenceBase b else b.

(** *** Comments and worklogs *)

(** A comment or a worklog, by its number and its text; [entry] is the name of one
    in the graph. *)
Definition inspect_entry (source entry field_name jiraBase confluenceBase : text) (s : list text * (graphExtractBudget * jiraGraphBuilder)) (e : text * text)
    : list text * (graphExtractBudget * jiraGraphBuilder) :=
  let '(seen, (budget, b)) := s in
  if negb (numericID e.1) || oneOf e.1 seen then (seen, (budget, markMalformed (Some source) b))
  else
    let k := {| k_collector := source; k_sourceKind := entry; k_sourceID := e.1; k_jiraBase := jiraBase; k_confluenceBase := confluenceBase |} in
    (e.1 :: seen, walkGraphValue (addValueReferences k) (VString e.2) (txt "/" ++ source ++ txt "/" ++ escapeJSONPointer e.1 ++ txt "/" ++ field_name) true budget b).
Definition collect_entries (source entry field_name jiraBase confluenceBase : text) (count : Z) (es : list (text * text)) (b : jiraGraphBuilder) : jiraGraphBuilder :=
  inspected source (fold_left (inspect_entry source entry field_name jiraBase confluenceBase) es ([], (source_budget, on_source (counted count) (Some source) b))).2.
Definition comments : text := txt "comments".
Definition collectComments (r : reading (option (list (text * text)))) (jiraBase confluenceBase : text) (b : jiraGraphBuilder) : fallible jiraGraphBuilder :=
  match answer r with
  | Err e => qualifyAuxiliaryError (ctx_err r) comments e false b
  | Ok None => Ok (markMalformed (Some comments) b)
  | Ok (Some cs) => Ok (collect_entries comments (txt "comment") (txt "body") jiraBase confluenceBase (zlen cs) cs b)
  end.
Record IssueWorklogList := { Worklogs : list (text * text); Total : Z; Complete : bool }.
Definition worklogs : text := txt "worklogs".
(** [None]: the tracker cannot read worklogs. *)
Definition collectWorklogs (reader : option (reading (option IssueWorklogList))) (jiraBase confluenceBase : text) (b : jiraGraphBuilder) : fallible jiraGraphBuilder :=
  match reader with
  | None => Ok (on_source unsupported (Some worklogs) b)
  | Some r =>
      match answer r with
      | Err e => qualifyAuxiliaryError (ctx_err r) worklogs e false b
      | Ok None => Ok (markMalformed (Some worklogs) b)
      | Ok (Some i) =>
          if negb (Complete i) || negb (Total i =? zlen (Worklogs i)) then Ok (markMalformed (Some worklogs) b)
          else Ok (collect_entries worklogs (txt "worklog") (txt "comment") jiraBase confluenceBase (Total i) (Worklogs i) b)
      end
  end.

(** *** Remote links *)

Definition remote_links : text := txt "remote_links".
Fixpoint remote_loop (jiraBase confluenceBase : text) (index : nat) (seen : list text) (ls : list JiraRemoteLink) (b : jiraGraphBuilder) : jiraGraphBuilder :=
  match ls with
  | [] => b
  | l :: ls =>
      if negb (numericID (lID l)) || oneOf (lID l) seen then remote_loop jiraBase confluenceBase (S index) seen ls (markMalformed (Some remote_links) b)
      else
        let b := match normalizeGraphURL (lObjectURL l) jiraBase confluenceBase with
                 | None => markMalformed (Some remote_links) b
                 | Some r =>
                     if eqt (nID (Node r)) (bRootID b) then markMalformed (Some remote_links) b
                     else
                       let n := Node r in
                       let n := {| nID := nID n; nKind := nKind n; nService := nService n; nExternalID := nExternalID n; nURL := nURL n;
                                   nLabel := graphBoundedLabel (lObjectTitle l); nState := nState n; nExpanded := nExpanded n; nDepth := nDepth n; nStability := nStability n;
                                   nSCM := nSCM n |} in
                       link n (txt "remote_link") [] (graphBoundedLabel (lRelationship l)) outbound exact ArtifactStabilityPublicAPI
                         (observed_in remote_links (txt "remote_link") (lID l) (indexed "/remote_links/" index) structured) (Some remote_links) b
                 end in
        remote_loop jiraBase confluenceBase (S index) (lID l :: seen) ls b
  end.
(** The diagnosis of a failed read, unless it contradicts the source. *)
Definition diagnosed (e : goerror) (u : ArtifactGraphSource) : ArtifactGraphSource :=
  let u := failed_with (remoteLinkFailureDiagnostic e) u in if validJiraGraphRemoteLinkFailure u then u else failed_with None u.
Definition collectRemoteLinks (reader : option (reading JiraRemoteLinkInventory)) (jiraBase confluenceBase : text) (b : jiraGraphBuilder) : fallible jiraGraphBuilder :=
  match reader with
  | None => Ok (on_source unsupported (Some remote_links) b)
  | Some r =>
      match answer r with
      | Err e => let! b := qualifyAuxiliaryError (ctx_err r) remote_links e true b in Ok (on_source (diagnosed e) (Some remote_links) b)
      | Ok i =>
          if (lTotal i <? 0) || (lUnsupported i <? 0) || negb (lTotal i =? zlen (lLinks i) + lUnsupported i) then Ok (markMalformed (Some remote_links) b)
          else
            let b := remote_loop jiraBase confluenceBase 0 [] (lLinks i) (on_source (counted (lTotal i)) (Some remote_links) b) in
            Ok (completeSource (Some remote_links) (if 0 <? lUnsupported i then markMalformed (Some remote_links) b else b))
      end
  end.

(** ** Development facts (jira_graph_development.go) *)

Definition jiraDevelopmentMaxProjects : Z := 64.
Definition jiraDevelopmentMaxCommits : Z := 256.
Definition jiraDevelopmentMaxBranches : Z := 128.
Definition jiraDevelopmentMaxMergeRequests : Z := 128.
Definition jiraDevelopmentMaxArtifacts : Z := 512.
Definition jiraDevelopmentMaxURLBytes : Z := 2048.
Definition jiraDevelopmentMaxBranchBytes : Z := 512.
Definition hex_lower (c : ascii) : bool := digit c || in_rng 97 102 (byte_val c).
Definition jiraDevelopmentSHA (s : text) : bool := forallb hex_lower s && ((length s =? 40)%nat || (length s =? 64)%nat).
Definition jiraDevelopmentSourceID (s : text) : bool := forallb hex_lower s && (length s =? 64)%nat.
Definition jiraDevelopmentIID (s : text) : bool := match s with c :: r => digit1 c && forallb digit r && (length r <=? 19)%nat | [] => false end.
Fixpoint no_control (fuel : nat) (s : text) : bool :=
  match fuel, s with
  | _, [] => true
  | O, _ => false
  | S fuel, _ => let (r, n) := decode_rune s in negb ((r <? 32) || in_rng 127 159 r) && no_control fuel (drop n s)
  end.
Definition jiraDevelopmentBranch (v : text) : bool :=
  negb (eqt v []) && (zlen v <=? jiraDevelopmentMaxBranchBytes) && valid_utf8 v && no_control (length v) v.
Definition jiraDevelopmentProjectKey (host path : text) : option text := (λ p, Scmref.pHost p ++ nul ++ Scmref.pProjectPath p) <$> Scmref.ValidateGitLabProject host path.
Definition jiraDevelopmentWebURL (host path sha branch iid : text) : text :=
  let base := txt "https://" ++ host ++ txt "/" ++ Markdown.join (txt "/") (map MdView.PathEscape (Markdown.split path (txt "/"))) in
  if negb (eqt sha []) then base ++ txt "/-/commit/" ++ sha
  else if negb (eqt branch []) then base ++ txt "/-/tree/" ++ MdView.PathEscape branch
  else if negb (eqt iid []) then base ++ txt "/-/merge_requests/" ++ iid
  else base.
Definition jiraDevelopmentEvidenceSourceID (edgeKind : text) (scm : option ArtifactGraphSCMIdentity) : text :=
  match scm with
  | None => []
  | Some c => graphHash (Markdown.join nul [edgeKind; sHost c; sProjectPath c; sCommitSHA c; sBranchName c; sMergeRequestIID c])
  end.
Definition merge_request_states : list text := map txt ["open"; "merged"; "closed"; "unknown"].

(** *** Inventories *)

(** An artifact of an inventory: its project, the part of its name that tells it
    from others of its kind, and whether that part is well formed. *)
Fixpoint projects_loop (seen : list text) (ps : list JiraDevelopmentProject) : option (list text) :=
  match ps with
  | [] => Some seen
  | p :: ps =>
      match jiraDevelopmentProjectKey (dHost p) (dProjectPath p) with
      | Some key => if oneOf key seen then None else projects_loop (key :: seen) ps
      | None => None
      end
  end.
(** One loop over commits, branches or merge requests; [referenced] collects their
    projects. *)
Section artifacts.
Context {A : Type} (host path name : A → text) (good : A → bool).
Fixpoint artifacts_loop (projects seen referenced : list text) (l : list A) : option (list text) :=
  match l with
  | [] => Some referenced
  | a :: l =>
      match jiraDevelopmentProjectKey (host a) (path a) with
      | Some key =>
          let id := key ++ nul ++ name a in
          if negb (oneOf key projects) || negb (good a) || oneOf id seen then None
          else artifacts_loop projects (id :: seen) (key :: referenced) l
      | None => None
      end
  end.
End artifacts.
Definition lowered (c : JiraDevelopmentCommit) : JiraDevelopmentCommit := {| dcHost := dcHost c; dcProjectPath := dcProjectPath c; dcSHA := ToLower (dcSHA c) |}.
Definition short_url (host path sha branch iid : text) : bool := zlen (jiraDevelopmentWebURL host path sha branch iid) <=? jiraDevelopmentMaxURLBytes.
Definition good_commit (c : JiraDevelopmentCommit) : bool := jiraDevelopmentSHA (dcSHA c) && short_url (dcHost c) (dcProjectPath c) (dcSHA c) [] [].
Definition good_branch (b : JiraDevelopmentBranch) : bool := jiraDevelopmentBranch (dbName b) && short_url (dbHost b) (dbProjectPath b) [] (dbName b) [].
Definition good_merge_request (m : JiraDevelopmentMergeRequest) : bool :=
  jiraDevelopmentIID (dmIID m) && oneOf (dmState m) merge_request_states && short_url (dmHost m) (dmProjectPath m) [] [] (dmIID m).
Definition validateJiraDevelopmentInventory (i : JiraDevelopmentInventory) : option JiraDevelopmentInventory :=
  if (jiraDevelopmentMaxProjects <? zlen (Projects i)) || (jiraDevelopmentMaxCommits <? zlen (Commits i)) || (jiraDevelopmentMaxBranches <? zlen (Branches i)) ||
     (jiraDevelopmentMaxMergeRequests <? zlen (MergeRequests i)) ||
     (jiraDevelopmentMaxArtifacts <? zlen (Commits i) + zlen (Branches i) + zlen (MergeRequests i)) then None
  else
    let commits := map lowered (Commits i) in
    projects ← projects_loop [] (Projects i);
    referenced ← artifacts_loop dcHost dcProjectPath dcSHA good_commit projects [] [] commits;
    referenced ← artifacts_loop dbHost dbProjectPath dbName good_branch projects [] referenced (Branches i);
    referenced ← artifacts_loop dmHost dmProjectPath dmIID good_merge_request projects [] referenced (MergeRequests i);
    if negb (forallb (λ p, oneOf p referenced) projects) then None
    else Some {| Projects := sort_on (λ p, dHost p ++ nul ++ dProjectPath p) (Projects i);
                 Commits := sort_on (λ c, dcHost c ++ nul ++ dcProjectPath c ++ nul ++ dcSHA c) commits;
                 Branches := sort_on (λ b, dbHost b ++ nul ++ dbProjectPath b ++ nul ++ dbName b) (Branches i);
                 MergeRequests := sort_on (λ m, dmHost m ++ nul ++ dmProjectPath m ++ nul ++ dmIID m) (MergeRequests i) |}.
Definition development_kind (kind : string) : text := txt "development_" ++ txt kind.
(** [kind] without its prefix: project, commit, branch or merge_request. *)
Definition addDevelopmentFact (kind : string) (host path sha branch iid mrState : text) (b : jiraGraphBuilder) : jiraGraphBuilder :=
  let edgeKind := development_kind kind in
  let scm := {| sHost := host; sProjectPath := path; sCommitSHA := sha; sBranchName := branch; sMergeRequestIID := iid; sMergeRequestState := mrState |} in
  let suffix := if eqt (txt kind) (txt "commit") then txt ":" ++ sha else if eqt (txt kind) (txt "branch") then txt ":" ++ graphHash branch
                else if eqt (txt kind) (txt "merge_request") then txt ":" ++ iid else [] in
  let node := {| nID := txt "gitlab:" ++ txt kind ++ txt ":" ++ graphHash (txt "https://" ++ host ++ nul ++ path) ++ suffix; nKind := txt "gitlab_" ++ txt kind;
                 nService := txt "gitlab"; nExternalID := []; nURL := jiraDevelopmentWebURL host path sha branch iid; nLabel := []; nState := ArtifactNodeStub;
                 nExpanded := false; nDepth := 1; nStability := ArtifactStabilityExperimentalAPI; nSCM := Some scm |} in
  link node edgeKind [] [] outbound exact ArtifactStabilityExperimentalAPI
    (observed_in development (txt "development_detail") (jiraDevelopmentEvidenceSourceID edgeKind (Some scm)) [] structured) (Some development) b.
Definition collectDevelopment (reader : option (reading JiraDevelopmentInventory)) (b : jiraGraphBuilder) : fallible jiraGraphBuilder :=
  match reader with
  | None => Ok (on_source unsupported (Some development) b)
  | Some r =>
      match answer r with
      | Err e => qualifyAuxiliaryError (ctx_err r) development e true b
      | Ok i =>
          match validateJiraDevelopmentInventory i with
          | None => Ok (markMalformed (Some development) b)
          | Some i =>
              let b := on_source (counted (zlen (Commits i) + zlen (Branches i) + zlen (MergeRequests i))) (Some development) b in
              let b := fold_left (λ b p, addDevelopmentFact "project" (dHost p) (dProjectPath p) [] [] [] [] b) (Projects i) b in
              let b := fold_left (λ b c, addDevelopmentFact "commit" (dcHost c) (dcProjectPath c) (dcSHA c) [] [] [] b) (Commits i) b in
              let b := fold_left (λ b x, addDevelopmentFact "branch" (dbHost x) (dbProjectPath x) [] (dbName x) [] [] b) (Branches i) b in
              let b := fold_left (λ b m, addDevelopmentFact "merge_request" (dmHost m) (dmProjectPath m) [] [] (dmIID m) (dmState m) b) (MergeRequests i) b in
              Ok (completeSource (Some development) b)
          end
      end
  end.

(** ** One issue *)

(** The reads of one issue besides its snapshot; [None] where the tracker cannot. *)
Record issue_reads :=
  { read_comments : reading (option (list (text * text))); read_worklogs : option (reading (option IssueWorklogList)); read_remote_links : option (reading JiraRemoteLinkInventory);
    read_development : option (reading JiraDevelopmentInventory) }.
Definition at_depth (d : Z) (n : ArtifactGraphNode) : ArtifactGraphNode :=
  {| nID := nID n; nKind := nKind n; nService := nService n; nExternalID := nExternalID n; nURL := nURL n; nLabel := nLabel n; nState := nState n; nExpanded := nExpanded n;
     nDepth := d; nStability := nStability n; nSCM := nSCM n |}.
Definition from_node (id : text) (v : ArtifactGraphEvidence) : ArtifactGraphEvidence :=
  {| vCollector := vCollector v; vSourceNodeID := id; vSourceKind := vSourceKind v; vSourceID := vSourceID v; vJSONPointer := vJSONPointer v; vExtraction := vExtraction v |}.
Definition when_source (kind : text) (f : jiraGraphBuilder → fallible jiraGraphBuilder) (b : jiraGraphBuilder) : fallible jiraGraphBuilder := if has_source b kind then f b else Ok b.
Definition issue_node (snapshot : QualifiedIssueSnapshot) (id : text) (depth : Z) : ArtifactGraphNode :=
  {| nID := id; nKind := txt "jira_issue"; nService := txt "jira"; nExternalID := ToUpper (qKey snapshot); nURL := []; nLabel := graphBoundedLabel (qIssueSummary snapshot);
     nState := ArtifactNodeResolved; nExpanded := true; nDepth := depth; nStability := ArtifactStabilityPublicAPI; nSCM := None |}.
Definition collectJiraGraphV2Node (reads : issue_reads) (jiraBase confluenceBase : text) (snapshot : QualifiedIssueSnapshot) (id : text) (depth : Z) (kinds : list text)
    : fallible jiraGraphBuilder :=
  let b := (addNode (issue_node snapshot id depth) None (newJiraGraphBuilderWithSources id kinds)).1 in
  let! b := when_source issue_links (λ b, Ok (collectIssueLinks snapshot b)) b in
  let! b := when_source hierarchy (λ b, Ok (collectHierarchy snapshot b)) b in
  let! b := when_source attachments (λ b, Ok (collectAttachments snapshot b)) b in
  let b := collectSnapshotText snapshot jiraBase confluenceBase b in
  let! b := when_source comments (collectComments (read_comments reads) jiraBase confluenceBase) b in
  let! b := when_source worklogs (collectWorklogs (read_worklogs reads) jiraBase confluenceBase) b in
  let! b := when_source remote_links (collectRemoteLinks (read_remote_links reads) jiraBase confluenceBase) b in
  let! b := when_source development (collectDevelopment (read_development reads)) b in
  Ok {| bRootID := bRootID b; bNodes := map_imap (λ k n, Some (if eqt k id then n else at_depth (depth + 1) n)) (bNodes b);
        bEdges := (λ e, with_evidence (map (from_node id) (eEvidence e)) e) <$> bEdges b; bSources := placed id (Some depth) <$> bSources b;
        bEvidenceCount := bEvidenceCount b; bSourceKinds := bSourceKinds b |}.
End lang.
End GraphCollect.
