(* ===== verification/GraphResult.v ===== *)
(** * The Jira artifact graph: results and their check
    (internal/app/jira_graph.go, jira_graph_validation.go)

    The result of a traversal with its bounds and its summary, and the check every
    result passes before it is handed out or projected.  All refusals of the check
    are one error, so it is a boolean here; a nil result is not represented. *)

From stdpp Require Import vector pretty.
From S2P Require Import Prelude GoText TextOrder Encoding WikiScanner Markdown NetUrl MdView GraphTypes GraphExtract GraphCollect.
Import GoText TextOrder Encoding GraphTypes GraphExtract GraphCollect.

Module GraphResult.
Local Open Scope Z_scope.
Local Open Scope atl_scope.

Definition jiraIssueGraphSchemaVersionV2 : Z := 2.
Definition jiraGraphMaxDepth : Z := 3.
Definition jiraGraphMaxRequests : Z := 128.
Definition jiraGraphMaxResponseBytes : Z := 67108864.
Record JiraIssueGraphBounds :=
  { RequestedDepth : Z; MaxNodes : Z; MaxEdges : Z; MaxEvidence : Z; MaxSourceBytes : Z; ExpandedNodes : Z; FollowedNodes : Z; AttemptedNodes : Z; MaxRequests : Z;
    RequestsUsed : Z; MaxResponseBytes : Z; ResponseBytesUsed : Z; MaxSources : Z; MaxFrontier : Z; FrontierCount : Z; FrontierTruncated : bool; IncludeDevelopment : bool }.
Record JiraIssueGraphSummary :=
  { NodeCount : Z; EdgeCount : Z; EvidenceCount : Z; SourceCount : Z; IncompleteSourceCount : Z; SourceStatusCounts : gmap text Z; NodeCountMatchesNodes : bool;
    EdgeCountMatchesEdges : bool; EvidenceCountMatchesEdges : bool; SourceCountMatchesSources : bool; SourceStatusCountsMatch : bool; IncompleteCountMatches : bool;
    ExpandedCountMatchesNodes : bool; CompleteMatchesSources : bool }.
Record JiraIssueGraphFrontierItem := { fNodeID : text; fDepth : Z; fReason : text }.
Record JiraIssueGraphResult :=
  { SchemaVersion : Z; RootID : text; rComplete : bool; Truncated : bool; Bounds : JiraIssueGraphBounds; Summary : JiraIssueGraphSummary; Nodes : list ArtifactGraphNode;
    Edges : list ArtifactGraphEdge; Sources : list ArtifactGraphSource; Frontier : list JiraIssueGraphFrontierItem; Warnings : list text;
    SourceSelection : option JiraIssueGraphSourceSelection }.

(** ** Orders *)

(** [%08d] of a number that is not negative *)
Definition padded (z : Z) : text := replicate (8 - length (txt (pretty z))) "0"%char ++ txt (pretty z).
Definition graphV2NodeSortKey (n : ArtifactGraphNode) : text := padded (nDepth n) ++ nul ++ nKind n ++ nul ++ nID n.
Definition source_rank (kinds : list text) (kind : text) : nat := match list_find (λ k, k = kind) kinds with Some (i, _) => i | None => length kinds end.
Definition source_depth (u : ArtifactGraphSource) : Z := default 0 (uNodeDepth u).
Definition graphV2SourceLess (kinds : list text) (a b : ArtifactGraphSource) : bool :=
  if negb (source_depth a =? source_depth b) then source_depth a <? source_depth b
  else if negb (eqt (uNodeID a) (uNodeID b)) then text_ltb (uNodeID a) (uNodeID b)
  else (source_rank kinds (uKind a) <? source_rank kinds (uKind b))%nat.
Definition graphV2FrontierLess (a b : JiraIssueGraphFrontierItem) : bool :=
  if negb (fDepth a =? fDepth b) then fDepth a <? fDepth b
  else if negb (eqt (fNodeID a) (fNodeID b)) then text_ltb (fNodeID a) (fNodeID b)
  else text_ltb (fReason a) (fReason b).
(** Each element is less than the one after it. *)
Fixpoint ordered {A} (less : A → A → bool) (l : list A) : bool :=
  match l with a :: (b :: _) as l => less a b && ordered less l | _ => true end.
Definition key_less {A} (key : A → text) (a b : A) : bool := text_ltb (key a) (key b).

(** ** Counts *)

Definition statuses : list text :=
  [ArtifactSourceComplete; ArtifactSourceEmpty; ArtifactSourcePartial; ArtifactSourceForbidden; ArtifactSourceUnsupported; ArtifactSourceSkipped].
Definition jiraIssueGraphEmptyStatusCounts : gmap text Z := list_to_map (map (λ s, (s, 0)) statuses).
Definition count_status (m : gmap text Z) (u : ArtifactGraphSource) : gmap text Z := <[uStatus u := default 0 (m !! uStatus u) + 1]> m.
Definition jiraIssueGraphSourceStatusCounts (us : list ArtifactGraphSource) : gmap text Z := fold_left count_status us jiraIssueGraphEmptyStatusCounts.
Definition jiraIssueGraphIncompleteSourceCount (us : list ArtifactGraphSource) : Z := zlen (List.filter (λ u, negb (uComplete u)) us).
Definition sum (l : list Z) : Z := fold_right Z.add 0 l.
Definition jiraIssueGraphEvidenceCount (es : list ArtifactGraphEdge) : Z := sum (map (λ e, zlen (eEvidence e)) es).
Definition equalStringIntMap (a b : gmap text Z) : bool :=
  (size a =? size b)%nat && forallb (λ kv : text * Z, default 0 (b !! kv.1) =? kv.2) (map_to_list a).
Definition incomplete_warning : text := txt "one or more requested graph sources are incomplete".

(** ** The check *)

Definition attachment_prefix : text := txt "jira:attachment:".
Definition is_gitlab (kind : text) : bool := has_prefix kind (txt "gitlab_").
Definition is_development (kind : text) : bool := has_prefix kind (txt "development_").
Definition jiraGraphV2FrontierID (id : text) : bool :=
  if has_prefix id issue_prefix then jiraGraphExactKey (issue_key id)
  else if has_prefix id page_prefix then numericID (Markdown.trim_prefix id page_prefix) else false.
Definition output_reasons : list text := [ArtifactPartialOutputLimit; ArtifactPartialRequestLimit; ArtifactPartialByteLimit].
Definition find_node (ns : list ArtifactGraphNode) (id : text) : option ArtifactGraphNode := List.find (λ n, eqt (nID n) id) ns.
(** The identity of a node of [kind]: the prefix, then a name it is also known by. *)
Definition named (n : ArtifactGraphNode) (service prefix : text) (good : text → bool) : bool :=
  let name := Markdown.trim_prefix (nID n) prefix in
  eqt (nService n) service && eqt (nID n) (prefix ++ name) && good name && eqt (nExternalID n) name.

Section lang.
Context `{Lang}.
Definition validateJiraDevelopmentGraphNode (n : ArtifactGraphNode) : bool :=
  match nSCM n with
  | None => false
  | Some c =>
      let hash := graphHash (txt "https://" ++ sHost c ++ nul ++ sProjectPath c) in
      let url := jiraDevelopmentWebURL (sHost c) (sProjectPath c) in
      let none := [] in
      eqt (nService n) (txt "gitlab") && eqt (nExternalID n) [] && eqt (nLabel n) [] && eqt (nState n) ArtifactNodeStub && negb (nExpanded n) && (1 <=? nDepth n) &&
      eqt (nStability n) ArtifactStabilityExperimentalAPI && (zlen (nURL n) <=? jiraDevelopmentMaxURLBytes) &&
      bool_decide (is_Some (jiraDevelopmentProjectKey (sHost c) (sProjectPath c))) &&
      (if eqt (nKind n) (txt "gitlab_project") then
         eqt (sCommitSHA c) none && eqt (sBranchName c) none && eqt (sMergeRequestIID c) none && eqt (sMergeRequestState c) none &&
         eqt (nID n) (txt "gitlab:project:" ++ hash) && eqt (nURL n) (url none none none)
       else if eqt (nKind n) (txt "gitlab_commit") then
         jiraDevelopmentSHA (sCommitSHA c) && eqt (sBranchName c) none && eqt (sMergeRequestIID c) none && eqt (sMergeRequestState c) none &&
         eqt (nID n) (txt "gitlab:commit:" ++ hash ++ txt ":" ++ sCommitSHA c) && eqt (nURL n) (url (sCommitSHA c) none none)
       else if eqt (nKind n) (txt "gitlab_branch") then
         eqt (sCommitSHA c) none && jiraDevelopmentBranch (sBranchName c) && eqt (sMergeRequestIID c) none && eqt (sMergeRequestState c) none &&
         eqt (nID n) (txt "gitlab:branch:" ++ hash ++ txt ":" ++ graphHash (sBranchName c)) && eqt (nURL n) (url none (sBranchName c) none)
       else if eqt (nKind n) (txt "gitlab_merge_request") then
         eqt (sCommitSHA c) none && eqt (sBranchName c) none && jiraDevelopmentIID (sMergeRequestIID c) && oneOf (sMergeRequestState c) merge_request_states &&
         eqt (nID n) (txt "gitlab:merge_request:" ++ hash ++ txt ":" ++ sMergeRequestIID c) && eqt (nURL n) (url none none (sMergeRequestIID c))
       else false)
  end.

Section check.
Context (r : JiraIssueGraphResult).
Definition activeSourceKinds : list text := jiraGraphSelectedKinds (SourceSelection r) (IncludeDevelopment (Bounds r)).
Definition bounds_valid : bool :=
  let b := Bounds r in
  (SchemaVersion r =? jiraIssueGraphSchemaVersionV2) && (0 <=? RequestedDepth b) && (RequestedDepth b <=? jiraGraphMaxDepth) &&
  (1 <=? MaxNodes b) && (MaxNodes b <=? jiraGraphMaxNodes) && (1 <=? MaxEdges b) && (MaxEdges b <=? jiraGraphMaxEdges) &&
  (1 <=? MaxEvidence b) && (MaxEvidence b <=? jiraGraphMaxEvidence) && (1 <=? MaxRequests b) && (MaxRequests b <=? jiraGraphMaxRequests) &&
  (1 <=? MaxResponseBytes b) && (MaxResponseBytes b <=? jiraGraphMaxResponseBytes) && (MaxSourceBytes b =? jiraGraphMaxSourceBytes) &&
  (MaxSources b =? MaxNodes b * zlen activeSourceKinds + 1) && (MaxFrontier b =? MaxNodes b).
Definition usage_valid : bool :=
  let b := Bounds r in
  (zlen (Nodes r) <=? MaxNodes b) && (zlen (Edges r) <=? MaxEdges b) && (EvidenceCount (Summary r) <=? MaxEvidence b) && (zlen (Sources r) <=? MaxSources b) &&
  (zlen (Frontier r) <=? MaxFrontier b) && (FrontierCount b =? zlen (Frontier r)) && (0 <=? RequestsUsed b) && (RequestsUsed b <=? MaxRequests b) &&
  (0 <=? ResponseBytesUsed b) && (ResponseBytesUsed b <=? MaxResponseBytes b) && (0 <=? AttemptedNodes b) && (AttemptedNodes b <=? MaxNodes b) &&
  (0 <=? ExpandedNodes b) && (ExpandedNodes b <=? AttemptedNodes b) && negb (FrontierTruncated b && negb (zlen (Frontier r) =? MaxFrontier b)).
Definition node_valid (n : ArtifactGraphNode) : bool :=
  negb (eqt (nID n) []) && (0 <=? nDepth n) && (nDepth n <=? RequestedDepth (Bounds r) + 1) &&
  oneOf (nKind n) (map txt ["jira_issue"; "confluence_page"; "attachment"; "url"; "gitlab_project"; "gitlab_commit"; "gitlab_branch"; "gitlab_merge_request"]) &&
  oneOf (nService n) (map txt ["jira"; "confluence"; "external"; "gitlab"]) &&
  oneOf (nState n) [ArtifactNodeResolved; ArtifactNodeStub; ArtifactNodeUnresolved; ArtifactNodeForbidden; ArtifactNodeMissing] &&
  oneOf (nStability n) [ArtifactStabilityPublicAPI; ArtifactStabilityExperimentalAPI; ArtifactStabilityHeuristic] &&
  (if eqt (nKind n) (txt "jira_issue") then named n (txt "jira") issue_prefix jiraGraphExactKey
   else if eqt (nKind n) (txt "confluence_page") then named n (txt "confluence") page_prefix numericID
   else if eqt (nKind n) (txt "attachment") then named n (txt "jira") attachment_prefix numericID
   else if is_gitlab (nKind n) then IncludeDevelopment (Bounds r) && validateJiraDevelopmentGraphNode n
   else eqt (nService n) (txt "external") && (has_prefix (nID n) (txt "url:") || has_prefix (nID n) (txt "candidate:url:"))) &&
  negb (negb (is_gitlab (nKind n)) && bool_decide (is_Some (nSCM n))) &&
  (negb (nExpanded n) || eqt (nKind n) (txt "jira_issue") && eqt (nState n) ArtifactNodeResolved && (nDepth n <=? RequestedDepth (Bounds r))).
Definition nodes_valid : bool :=
  forallb node_valid (Nodes r) && ordered (key_less graphV2NodeSortKey) (Nodes r) && bool_decide (NoDup (nID <$> Nodes r)).
Definition node_of (id : text) : option ArtifactGraphNode := find_node (Nodes r) id.
Definition root_valid : bool :=
  match node_of (RootID r) with
  | Some root => (nDepth root =? 0) && eqt (nKind root) (txt "jira_issue") && eqt (nState root) (if nExpanded root then ArtifactNodeResolved else ArtifactNodeUnresolved)
  | None => false
  end.
Definition scm_key (from : text) (c : ArtifactGraphSCMIdentity) : text := from ++ nul ++ sHost c ++ nul ++ sProjectPath c.
Definition development_edge_valid (e : ArtifactGraphEdge) (from to : ArtifactGraphNode) : bool :=
  IncludeDevelopment (Bounds r) && eqt (eStability e) ArtifactStabilityExperimentalAPI && eqt (eDirection e) outbound && eqt (eConfidence e) exact &&
  eqt (nKind from) (txt "jira_issue") && eqt (nKind to) (txt "gitlab_" ++ Markdown.trim_prefix (eKind e) (txt "development_")) && (nDepth to <=? nDepth from + 1) &&
  (zlen (eEvidence e) =? 1) && eqt (eRelationType e) [] && eqt (eRelation e) [].
Definition evidence_valid (e : ArtifactGraphEdge) (to : ArtifactGraphNode) (v : ArtifactGraphEvidence) : bool :=
  let is_fact := eqt (vCollector v) development && eqt (vSourceKind v) (txt "development_detail") && eqt (vExtraction v) structured && eqt (vJSONPointer v) [] &&
                 jiraDevelopmentSourceID (vSourceID v) && eqt (vSourceID v) (jiraDevelopmentEvidenceSourceID (eKind e) (nSCM to)) in
  eqt (vSourceNodeID v) (eFrom e) && oneOf (vCollector v) activeSourceKinds &&
  oneOf (vSourceKind v) (map txt ["field"; "property"; "comment"; "worklog"; "remote_link"; "development_detail"]) &&
  oneOf (vExtraction v) (map txt ["structured"; "absolute_url"; "jira_key"; "confluence_page_id"; "service_url"]) &&
  Bool.eqb (is_development (eKind e)) is_fact &&
  (is_development (eKind e) || negb (eqt (vCollector v) development || eqt (vSourceKind v) (txt "development_detail"))).
Definition edge_valid (e : ArtifactGraphEdge) : bool :=
  match node_of (eFrom e), node_of (eTo e) with
  | Some from, Some to =>
      eqt (eID e) (graphEdgeID e) && negb (eqt (eFrom e) (eTo e)) && negb (length (eEvidence e) =? 0)%nat && negb (is_gitlab (nKind from)) && eCurrent e &&
      oneOf (eKind e) (map txt ["jira_link"; "parent_of"; "child_of"; "epic_of"; "attached"; "mentions"; "remote_link"; "development_project"; "development_commit";
                                "development_branch"; "development_merge_request"]) &&
      oneOf (eDirection e) (map txt ["inward"; "outward"; "outbound"]) && oneOf (eConfidence e) (map txt ["exact"; "high"; "candidate"]) &&
      oneOf (eStability e) [ArtifactStabilityPublicAPI; ArtifactStabilityExperimentalAPI; ArtifactStabilityHeuristic] &&
      Bool.eqb (is_gitlab (nKind to)) (is_development (eKind e)) && (negb (is_development (eKind e)) || development_edge_valid e from to) &&
      forallb (evidence_valid e to) (eEvidence e) && ordered (key_less graphEvidenceKey) (eEvidence e)
  | _, _ => false
  end.
Definition development_edges : list ArtifactGraphEdge := List.filter (λ e, is_development (eKind e)) (Edges r).
Definition is_project_edge (e : ArtifactGraphEdge) : bool := eqt (eKind e) (txt "development_project").
Definition projects_of (es : list ArtifactGraphEdge) : list text :=
  omap (λ e, c ← (node_of (eTo e) ≫= nSCM); Some (scm_key (eFrom e) c)) es.
(** The least depth at which a development edge reaches a node. *)
Definition target_depth (id : text) : option Z :=
  fold_left (λ d e, if eqt (eTo e) id then
                      match node_of (eFrom e) with
                      | Some from => Some (match d with Some d => Z.min d (nDepth from + 1) | None => nDepth from + 1 end)
                      | None => d
                      end
                    else d) development_edges None.
Definition development_valid : bool :=
  let artifacts := projects_of (List.filter (λ e, negb (is_project_edge e)) development_edges) in
  let projects := projects_of (List.filter is_project_edge development_edges) in
  forallb (λ n, negb (is_gitlab (nKind n)) || bool_decide (target_depth (nID n) = Some (nDepth n))) (Nodes r) &&
  forallb (λ p, oneOf p artifacts) projects && forallb (λ p, oneOf p projects) artifacts.
Definition edges_valid : bool := forallb edge_valid (Edges r) && ordered (key_less graphEdgeSortKey) (Edges r) && development_valid.
Definition truncating : list text := ArtifactPartialInspectionLimit :: output_reasons.
Definition source_valid (u : ArtifactGraphSource) : bool :=
  match node_of (uNodeID u) with
  | None => false
  | Some n =>
      let partial := eqt (uStatus u) ArtifactSourcePartial in
      let facts := List.filter (λ e, eqt (eFrom e) (uNodeID u)) development_edges in
      bool_decide (uNodeDepth u = Some (nDepth n)) && oneOf (uKind u) (activeSourceKinds ++ [confluence_metadata]) && uRequested u && (0 <=? uCount u) &&
      Bool.eqb (uComplete u) (eqt (uStatus u) ArtifactSourceComplete || eqt (uStatus u) ArtifactSourceEmpty) && oneOf (uStatus u) statuses &&
      (negb partial || ValidArtifactPartialReason (uPartialReason u) && Bool.eqb (uTruncated u) (oneOf (uPartialReason u) truncating)) &&
      (negb (eqt (uStatus u) ArtifactSourceSkipped) || eqt (uPartialReason u) ArtifactPartialDependencyUnavailable) &&
      (partial || eqt (uStatus u) ArtifactSourceSkipped || eqt (uPartialReason u) []) && (partial || negb (uTruncated u)) &&
      eqt (uStability u) (jiraGraphSourceStability (uKind u)) && validJiraGraphRemoteLinkFailure u &&
      (negb (eqt (uKind u) development) ||
       (if uComplete u then (uCount u =? zlen (List.filter (λ e, negb (is_project_edge e)) facts)) && Bool.eqb (eqt (uStatus u) ArtifactSourceEmpty) (uCount u =? 0)
        else (length facts =? 0)%nat)) &&
      (if eqt (uKind u) confluence_metadata then eqt (uNodeID u) (RootID r) else eqt (nKind n) (txt "jira_issue"))
  end.
Definition has_kind (id kind : text) : bool := existsb (λ u, eqt (uNodeID u) id && eqt (uKind u) kind) (Sources r).
Definition sources_valid : bool :=
  forallb source_valid (Sources r) && ordered (graphV2SourceLess activeSourceKinds) (Sources r) && bool_decide (NoDup ((λ u, (uNodeID u, uKind u)) <$> Sources r)) &&
  forallb (λ n, negb (nExpanded n || existsb (has_kind (nID n)) activeSourceKinds) || forallb (has_kind (nID n)) activeSourceKinds) (Nodes r) &&
  (negb (has_kind (RootID r) confluence_metadata) ||
   forallb (λ u, negb (eqt (uKind u) confluence_metadata) || (uCount u =? zlen (List.filter (λ n, eqt (nKind n) (txt "confluence_page")) (Nodes r)))) (Sources r)).
Definition frontier_valid : bool :=
  forallb (λ i, negb (eqt (fNodeID i) []) && (0 <=? fDepth i) && (fDepth i <=? RequestedDepth (Bounds r) + 1) && jiraGraphV2FrontierID (fNodeID i) &&
                oneOf (fReason i) output_reasons) (Frontier r) && ordered graphV2FrontierLess (Frontier r).
Definition expanded_count : Z := zlen (List.filter nExpanded (Nodes r)).
(** A root whose own snapshot did not fit the budget is alone in its graph. *)
Definition qualified_root_valid : bool :=
  match node_of (RootID r) with
  | Some root =>
      if nExpanded root then (1 <=? expanded_count) && (1 <=? AttemptedNodes (Bounds r))
      else
        (zlen (Nodes r) =? 1) && (zlen (Edges r) =? 0) && (expanded_count =? 0) &&
        match Frontier r with
        | [i] => eqt (fNodeID i) (RootID r) && (fDepth i =? 0) && oneOf (fReason i) [ArtifactPartialRequestLimit; ArtifactPartialByteLimit] &&
                 ((zlen (Sources r) =? zlen activeSourceKinds) || (zlen (Sources r) =? zlen activeSourceKinds + 1)) &&
                 forallb (λ u, eqt (uNodeID u) (RootID r) && oneOf (uKind u) (activeSourceKinds ++ [confluence_metadata]) && eqt (uStatus u) ArtifactSourcePartial && uTruncated u &&
                               eqt (uPartialReason u) (fReason i)) (Sources r)
        | _ => false
        end
  | None => false
  end.
Definition summary_valid : bool :=
  let s := Summary r in let b := Bounds r in
  let incomplete := jiraIssueGraphIncompleteSourceCount (Sources r) in
  let cut := negb (length (Frontier r) =? 0)%nat || FrontierTruncated b in
  (ExpandedNodes b =? expanded_count) && (expanded_count <=? AttemptedNodes b) && (FollowedNodes b =? Z.max 0 (AttemptedNodes b - 1)) &&
  (NodeCount s =? zlen (Nodes r)) && (EdgeCount s =? zlen (Edges r)) && (EvidenceCount s =? jiraIssueGraphEvidenceCount (Edges r)) &&
  (SourceCount s =? zlen (Sources r)) && (IncompleteSourceCount s =? incomplete) &&
  equalStringIntMap (SourceStatusCounts s) (jiraIssueGraphSourceStatusCounts (Sources r)) && Bool.eqb (rComplete r) (incomplete =? 0) &&
  Bool.eqb (Truncated r) (existsb uTruncated (Sources r) || cut) &&
  bool_decide (Warnings r = if incomplete =? 0 then [] else [incomplete_warning]) &&
  NodeCountMatchesNodes s && EdgeCountMatchesEdges s && EvidenceCountMatchesEdges s && SourceCountMatchesSources s && SourceStatusCountsMatch s &&
  IncompleteCountMatches s && ExpandedCountMatchesNodes s && CompleteMatchesSources s.
Definition validateJiraGraphV2Result : bool :=
  validateJiraGraphSourceSelection (SourceSelection r) (IncludeDevelopment (Bounds r)) && bounds_valid && usage_valid && nodes_valid && root_valid && edges_valid &&
  sources_valid && frontier_valid && qualified_root_valid && summary_valid.
End check.
End lang.
End GraphResult.
