(* ===== verification/GraphTraversal.v ===== *)
(** * The Jira artifact graph: the bounded traversal
    (internal/app/jira_graph_traversal.go)

    From one issue, along exact links, breadth first, within a depth and within
    bounds on nodes, edges, evidence, requests and bytes.  An issue may turn out to
    have moved: its node is then merged into the one of its new key.

    The backend is a family of readings by the number of snapshots read before.
    Ranging over a Go map is [range_over], an arbitrary fixed order of its entries;
    where the code sorts what it ranged over, the sorted list is used. *)

From stdpp Require Import vector pretty.
From S2P Require Import Prelude GoText TextOrder Encoding WikiScanner Markdown NetUrl MdView GraphTypes GraphExtract GraphCollect GraphResult.
Import GoText TextOrder Encoding GraphTypes GraphExtract GraphCollect GraphResult.

Module GraphTraversal.
Local Open Scope Z_scope.
Local Open Scope atl_scope.

(** ** Options *)

Definition jiraGraphDefaultNodes : Z := 100.
Definition jiraGraphDefaultEdges : Z := 500.
Definition jiraGraphDefaultEvidence : Z := 500.
Definition jiraGraphDefaultRequests : Z := 100.
Definition jiraGraphDefaultResponseBytes : Z := 16777216.
Record JiraIssueGraphOptions :=
  { oDepth : Z; oMaxNodes : Z; oMaxEdges : Z; oMaxEvidence : Z; oMaxRequests : Z; oMaxResponseBytes : Z; oResolveConfluence : bool; oIncludeDevelopment : bool;
    oIncludeSources : option (list text); oExcludeSources : option (list text); oSelection : option JiraIssueGraphSourceSelection }.
Definition set_limit (v defaultValue maximum : Z) : fallible Z :=
  if v =? 0 then Ok defaultValue else if (v <? 0) || (maximum <? v) then refuse ErrUsage else Ok v.
Definition NormalizeJiraIssueGraphOptions (o : JiraIssueGraphOptions) : fallible JiraIssueGraphOptions :=
  let! selection := NormalizeJiraIssueGraphSources (oIncludeSources o) (oExcludeSources o) (oIncludeDevelopment o) in
  let! _ := ensure (negb ((oDepth o <? 0) || (jiraGraphMaxDepth <? oDepth o))) ErrUsage in
  let! nodes := set_limit (oMaxNodes o) jiraGraphDefaultNodes jiraGraphMaxNodes in
  let! edges := set_limit (oMaxEdges o) jiraGraphDefaultEdges jiraGraphMaxEdges in
  let! evidence := set_limit (oMaxEvidence o) jiraGraphDefaultEvidence jiraGraphMaxEvidence in
  let! requests := set_limit (oMaxRequests o) jiraGraphDefaultRequests jiraGraphMaxRequests in
  let! bytes := set_limit (oMaxResponseBytes o) jiraGraphDefaultResponseBytes jiraGraphMaxResponseBytes in
  Ok {| oDepth := oDepth o; oMaxNodes := nodes; oMaxEdges := edges; oMaxEvidence := evidence; oMaxRequests := requests; oMaxResponseBytes := bytes;
        oResolveConfluence := oResolveConfluence o; oIncludeDevelopment := oIncludeDevelopment o; oIncludeSources := oIncludeSources o; oExcludeSources := oExcludeSources o;
        oSelection := selection |}.
Definition ValidateJiraIssueGraphKey (key : text) : fallible unit := ensure (eqt key (trim_space key) && jiraGraphExactKey key) ErrUsage.

(** ** The builder *)

Record jiraGraphQueueItem := { iID : text; iKey : text; iDepth : Z }.
Record jiraGraphV2Builder :=
  { gRootID : text; gAttempted : Z; gFrontier : list JiraIssueGraphFrontierItem; gFrontierTruncated : bool; gTruncated : bool; gNodes : gmap text ArtifactGraphNode;
    gEdges : gmap text ArtifactGraphEdge; gSources : gmap text ArtifactGraphSource; gEvidenceCount : Z; gFrontierSeen : list text; gAliases : gmap text text }.
Definition newJiraGraphV2Builder (key : text) : jiraGraphV2Builder :=
  {| gRootID := issue_id key; gAttempted := 0; gFrontier := []; gFrontierTruncated := false; gTruncated := false; gNodes := ∅; gEdges := ∅; gSources := ∅; gEvidenceCount := 0;
     gFrontierSeen := []; gAliases := ∅ |}.
Definition put_nodes (m : gmap text ArtifactGraphNode) (b : jiraGraphV2Builder) : jiraGraphV2Builder :=
  {| gRootID := gRootID b; gAttempted := gAttempted b; gFrontier := gFrontier b; gFrontierTruncated := gFrontierTruncated b; gTruncated := gTruncated b; gNodes := m;
     gEdges := gEdges b; gSources := gSources b; gEvidenceCount := gEvidenceCount b; gFrontierSeen := gFrontierSeen b; gAliases := gAliases b |}.
Definition put_edges (m : gmap text ArtifactGraphEdge) (count : Z) (b : jiraGraphV2Builder) : jiraGraphV2Builder :=
  {| gRootID := gRootID b; gAttempted := gAttempted b; gFrontier := gFrontier b; gFrontierTruncated := gFrontierTruncated b; gTruncated := gTruncated b; gNodes := gNodes b;
     gEdges := m; gSources := gSources b; gEvidenceCount := count; gFrontierSeen := gFrontierSeen b; gAliases := gAliases b |}.
Definition put_sources (m : gmap text ArtifactGraphSource) (b : jiraGraphV2Builder) : jiraGraphV2Builder :=
  {| gRootID := gRootID b; gAttempted := gAttempted b; gFrontier := gFrontier b; gFrontierTruncated := gFrontierTruncated b; gTruncated := gTruncated b; gNodes := gNodes b;
     gEdges := gEdges b; gSources := m; gEvidenceCount := gEvidenceCount b; gFrontierSeen := gFrontierSeen b; gAliases := gAliases b |}.
Definition put_frontier (l : list JiraIssueGraphFrontierItem) (seen : list text) (cut truncated : bool) (b : jiraGraphV2Builder) : jiraGraphV2Builder :=
  {| gRootID := gRootID b; gAttempted := gAttempted b; gFrontier := l; gFrontierTruncated := cut; gTruncated := truncated; gNodes := gNodes b; gEdges := gEdges b;
     gSources := gSources b; gEvidenceCount := gEvidenceCount b; gFrontierSeen := seen; gAliases := gAliases b |}.
Definition put_aliases (m : gmap text text) (b : jiraGraphV2Builder) : jiraGraphV2Builder :=
  {| gRootID := gRootID b; gAttempted := gAttempted b; gFrontier := gFrontier b; gFrontierTruncated := gFrontierTruncated b; gTruncated := gTruncated b; gNodes := gNodes b;
     gEdges := gEdges b; gSources := gSources b; gEvidenceCount := gEvidenceCount b; gFrontierSeen := gFrontierSeen b; gAliases := m |}.
Definition put_root (id : text) (b : jiraGraphV2Builder) : jiraGraphV2Builder :=
  {| gRootID := id; gAttempted := gAttempted b; gFrontier := gFrontier b; gFrontierTruncated := gFrontierTruncated b; gTruncated := gTruncated b; gNodes := gNodes b;
     gEdges := gEdges b; gSources := gSources b; gEvidenceCount := gEvidenceCount b; gFrontierSeen := gFrontierSeen b; gAliases := gAliases b |}.
Definition attempt (b : jiraGraphV2Builder) : jiraGraphV2Builder :=
  {| gRootID := gRootID b; gAttempted := gAttempted b + 1; gFrontier := gFrontier b; gFrontierTruncated := gFrontierTruncated b; gTruncated := gTruncated b;
     gNodes := gNodes b; gEdges := gEdges b; gSources := gSources b; gEvidenceCount := gEvidenceCount b; gFrontierSeen := gFrontierSeen b; gAliases := gAliases b |}.

(** [seen] holds keys of the map, so [S (size m)] steps see all of it. *)
Fixpoint canonical_loop (fuel : nat) (m : gmap text text) (seen : list text) (id : text) : text :=
  match fuel with
  | O => id
  | S fuel =>
      let next := default [] (m !! id) in
      if eqt id [] || eqt next [] || oneOf id seen then id else canonical_loop fuel m (id :: seen) next
  end.
Definition canonicalNodeID (b : jiraGraphV2Builder) (id : text) : text := canonical_loop (S (size (gAliases b))) (gAliases b) [] id.
Definition graphV2SourceKey (id kind : text) : text := id ++ nul ++ kind.
(** An issue is known outside by the key in its identity. *)
Definition renamed (id : text) (n : ArtifactGraphNode) : ArtifactGraphNode :=
  {| nID := id; nKind := nKind n; nService := nService n; nExternalID := if eqt (nKind n) (txt "jira_issue") then issue_key id else nExternalID n; nURL := nURL n;
     nLabel := nLabel n; nState := nState n; nExpanded := nExpanded n; nDepth := nDepth n; nStability := nStability n; nSCM := nSCM n |}.
Definition merged (existing node : ArtifactGraphNode) : ArtifactGraphNode :=
  let better := nExpanded node || eqt (nState node) ArtifactNodeResolved || eqt (nState node) ArtifactNodeStub && eqt (nState existing) ArtifactNodeUnresolved in
  {| nID := nID existing; nKind := nKind existing; nService := nService existing; nExternalID := nExternalID existing;
     nURL := if eqt (nURL node) [] then nURL existing else nURL node; nLabel := if eqt (nLabel node) [] then nLabel existing else nLabel node;
     nState := if better then nState node else nState existing; nExpanded := if better then nExpanded node else nExpanded existing;
     nDepth := Z.min (nDepth node) (nDepth existing); nStability := if better then nStability node else nStability existing; nSCM := nSCM existing |}.
Definition unknown_node : ArtifactGraphNode :=
  {| nID := []; nKind := []; nService := []; nExternalID := []; nURL := []; nLabel := []; nState := []; nExpanded := false; nDepth := 0; nStability := []; nSCM := None |}.
Definition frontier_key (id reason : text) : text := id ++ nul ++ reason.

Section lang.
Context `{Lang} (range_over : ∀ A : Type, gmap text A → list (text * A)) (o : JiraIssueGraphOptions).
Definition sourceKinds : list text := jiraGraphSelectedKinds (oSelection o) (oIncludeDevelopment o).
Definition full (b : jiraGraphV2Builder) : bool := oMaxNodes o <=? Z.of_nat (size (gNodes b)).
Definition upsertNode (node : ArtifactGraphNode) (b : jiraGraphV2Builder) : jiraGraphV2Builder :=
  let node := renamed (canonicalNodeID b (nID node)) node in
  match gNodes b !! nID node with
  | Some existing => put_nodes (<[nID node := merged existing node]> (gNodes b)) b
  | None => if full b then b else put_nodes (<[nID node := node]> (gNodes b)) b
  end.
(** An edge as the builder names its ends. *)
Definition redirected (b : jiraGraphV2Builder) (e : ArtifactGraphEdge) : ArtifactGraphEdge :=
  {| eID := eID e; eFrom := canonicalNodeID b (eFrom e); eTo := canonicalNodeID b (eTo e); eKind := eKind e; eRelationType := eRelationType e; eRelation := eRelation e;
     eDirection := eDirection e; eCurrent := eCurrent e; eConfidence := eConfidence e; eStability := eStability e;
     eEvidence := map (λ v, from_node (canonicalNodeID b (vSourceNodeID v)) v) (eEvidence e) |}.
Definition new_evidence (known new : list ArtifactGraphEvidence) : list ArtifactGraphEvidence :=
  List.filter (λ v, negb (oneOf (graphEvidenceKey v) (map graphEvidenceKey known))) new.
(** [inr] has the evidence that is dropped. *)
Definition admitEdgeWithTarget (edge : ArtifactGraphEdge) (target : ArtifactGraphNode) (b : jiraGraphV2Builder) : jiraGraphV2Builder + list ArtifactGraphEvidence :=
  let e := identified (redirected b edge) in
  let target := renamed (eTo e) target in
  let existing := gEdges b !! eID e in
  let new := new_evidence (match existing with Some x => eEvidence x | None => [] end) (eEvidence e) in
  let known := bool_decide (is_Some (gNodes b !! nID target)) in
  if negb known && full b then inr new
  else if negb (bool_decide (is_Some existing)) && (oMaxEdges o <=? Z.of_nat (size (gEdges b))) then inr new
  else if oMaxEvidence o <? gEvidenceCount b + zlen new then inr new
  else
    let b := if known then upsertNode target b else put_nodes (<[nID target := target]> (gNodes b)) b in
    inl (put_edges (<[eID e := match existing with Some x => with_evidence (eEvidence x ++ new) x | None => e end]> (gEdges b)) (gEvidenceCount b + zlen new) b).

(** ** The frontier *)

Definition addFrontier (item : jiraGraphQueueItem) (reason : text) (b : jiraGraphV2Builder) : jiraGraphV2Builder :=
  let id := canonicalNodeID b (iID item) in
  let key := frontier_key id reason in
  if oneOf key (gFrontierSeen b) then b
  else if oMaxNodes o <=? zlen (gFrontier b) then put_frontier (gFrontier b) (key :: gFrontierSeen b) true true b
  else put_frontier (gFrontier b ++ [{| fNodeID := id; fDepth := iDepth item; fReason := reason |}]) (key :: gFrontierSeen b) (gFrontierTruncated b) true b.
Definition addFrontierAll (items : list jiraGraphQueueItem) (reason : text) (b : jiraGraphV2Builder) : jiraGraphV2Builder :=
  fold_left (λ b i, addFrontier i reason b) items b.

(** ** Merging the projection of an issue *)

(** The builder and the sources of the projection. *)
Definition merging : Type := jiraGraphV2Builder * gmap text ArtifactGraphSource.
Definition dropped_evidence (us : gmap text ArtifactGraphSource) (v : ArtifactGraphEvidence) : gmap text ArtifactGraphSource :=
  alter (limited ArtifactPartialOutputLimit) (vCollector v) us.
Definition qualifyProjectedJiraGraphSelfEdge (e : ArtifactGraphEdge) (us : gmap text ArtifactGraphSource) : gmap text ArtifactGraphSource :=
  fold_left (λ us v, if eqt (vExtraction v) structured then alter markJiraGraphSourceMalformed (vCollector v) us else us) (eEvidence e) us.
Definition merge_edge (p : jiraGraphBuilder) (s : merging) (e : ArtifactGraphEdge) : merging :=
  let (b, us) := s in
  if eqt (canonicalNodeID b (eFrom e)) (canonicalNodeID b (eTo e)) then (b, qualifyProjectedJiraGraphSelfEdge e us)
  else
    let target := default unknown_node (bNodes p !! eTo e) in
    match admitEdgeWithTarget e target b with
    | inl b => (b, us)
    | inr dropped =>
        (if eqt (nKind target) (txt "jira_issue") && eqt (nState target) ArtifactNodeStub
         then addFrontier {| iID := nID target; iKey := nExternalID target; iDepth := nDepth target |} ArtifactPartialOutputLimit b else b,
         fold_left dropped_evidence dropped us)
    end.
Definition reconcileDevelopmentGraphNode (existing candidate : ArtifactGraphNode) : option ArtifactGraphNode :=
  match nSCM existing, nSCM candidate with
  | Some l, Some r =>
      let stateless c := {| sHost := sHost c; sProjectPath := sProjectPath c; sCommitSHA := sCommitSHA c; sBranchName := sBranchName c; sMergeRequestIID := sMergeRequestIID c;
                            sMergeRequestState := [] |} in
      let with_state s := {| nID := nID existing; nKind := nKind existing; nService := nService existing; nExternalID := nExternalID existing; nURL := nURL existing;
                             nLabel := nLabel existing; nState := nState existing; nExpanded := nExpanded existing; nDepth := nDepth existing; nStability := nStability existing;
                             nSCM := Some {| sHost := sHost l; sProjectPath := sProjectPath l; sCommitSHA := sCommitSHA l; sBranchName := sBranchName l;
                                             sMergeRequestIID := sMergeRequestIID l; sMergeRequestState := s |} |} in
      if negb (eqt (nKind existing) (nKind candidate)) then None
      else if negb (eqt (nKind existing) (txt "gitlab_merge_request")) then if bool_decide (l = r) then Some existing else None
      else if negb (bool_decide (stateless l = stateless r)) then None
      else if eqt (sMergeRequestState l) (sMergeRequestState r) then Some (with_state (sMergeRequestState l))
      else if eqt (sMergeRequestState l) (txt "unknown") then Some (with_state (sMergeRequestState r))
      else if eqt (sMergeRequestState r) (txt "unknown") then Some (with_state (sMergeRequestState l))
      else None
  | _, _ => None
  end.
(** One after the other, all or nothing: [inr] is why not. *)
Fixpoint development_loop (p : jiraGraphBuilder) (es : list ArtifactGraphEdge) (b : jiraGraphV2Builder) : jiraGraphV2Builder + text :=
  match es with
  | [] => inl b
  | e :: es =>
      let target := default unknown_node (bNodes p !! eTo e) in
      let step b target := match admitEdgeWithTarget e target b with inl b => development_loop p es b | inr _ => inr ArtifactPartialOutputLimit end in
      match gNodes b !! nID target with
      | None => step b target
      | Some existing =>
          match reconcileDevelopmentGraphNode existing target with
          | None => inr ArtifactPartialMalformed
          | Some target => step (put_nodes (<[nID target := target]> (gNodes b)) b) target
          end
      end
  end.
Definition admitDevelopmentProjection (p : jiraGraphBuilder) (es : list ArtifactGraphEdge) (s : merging) : merging :=
  match development_loop p es s.1 with
  | inl b => (b, s.2)
  | inr reason => (s.1, alter (qualified ArtifactSourcePartial false (eqt reason ArtifactPartialOutputLimit) reason) development s.2)
  end.
Definition expanded_at (depth : Z) (n : ArtifactGraphNode) : ArtifactGraphNode :=
  {| nID := nID n; nKind := nKind n; nService := nService n; nExternalID := nExternalID n; nURL := nURL n; nLabel := nLabel n; nState := ArtifactNodeResolved; nExpanded := true;
     nDepth := depth; nStability := nStability n; nSCM := nSCM n |}.
Definition mergeProjection (p : jiraGraphBuilder) (id : text) (depth : Z) (b : jiraGraphV2Builder) : jiraGraphV2Builder * gmap text ArtifactGraphSource :=
  let b := upsertNode (default unknown_node (bNodes p !! id)) b in
  let edges := sort_on graphEdgeSortKey (map snd (map_to_list (bEdges p))) in
  let s := fold_left (merge_edge p) (List.filter (λ e, negb (is_development (eKind e))) edges) (b, bSources p) in
  let (b, us) := admitDevelopmentProjection p (List.filter (λ e, is_development (eKind e)) edges) s in
  let b := put_sources (fold_left (λ m kind, match us !! kind with Some u => <[graphV2SourceKey id kind := u]> m | None => m end) (bSourceKinds p) (gSources b)) b in
  (put_nodes (<[id := expanded_at depth (default unknown_node (gNodes b !! id))]> (gNodes b)) b, us).
Definition projectionBudgetReason (p : jiraGraphBuilder) (us : gmap text ArtifactGraphSource) : option text :=
  List.find (λ r, eqt r ArtifactPartialRequestLimit || eqt r ArtifactPartialByteLimit) (omap (λ kind, uPartialReason <$> (us !! kind)) (bSourceKinds p)).

(** ** What comes next *)

Definition jiraGraphTraversableEdge (e : ArtifactGraphEdge) : bool :=
  oneOf (eKind e) (map txt ["jira_link"; "parent_of"; "child_of"; "epic_of"]) && eqt (eConfidence e) exact && eqt (eStability e) ArtifactStabilityPublicAPI.
Definition followable (b : jiraGraphV2Builder) (attempted : list text) (from : text) (e : ArtifactGraphEdge) : option text :=
  if negb (eqt (eFrom e) from) then None
  else match gNodes b !! eTo e with
  | Some n =>
      if jiraGraphTraversableEdge e && eqt (nKind n) (txt "jira_issue") && eqt (nState n) ArtifactNodeStub && negb (oneOf (nID n) attempted) then Some (nID n) else None
  | None => None
  end.
Definition queue_item (depth : Z) (id : text) : jiraGraphQueueItem := {| iID := id; iKey := issue_key id; iDepth := depth |}.
Definition followableJiraNodes (b : jiraGraphV2Builder) (from : text) (depth : Z) (attempted : list text) : list jiraGraphQueueItem :=
  map (queue_item depth) (sort_on (λ id, id) (remove_dups (omap (followable b attempted from) (map snd (map_to_list (gEdges b)))))).

(** ** Moved issues *)

Definition qualifyReconciledJiraGraphSelfEdge (b : jiraGraphV2Builder) (e : ArtifactGraphEdge) (us : gmap text ArtifactGraphSource) : gmap text ArtifactGraphSource :=
  fold_left (λ us v,
    if negb (eqt (vExtraction v) structured) then us
    else (λ u, if eqt (uKind u) (vCollector v) && eqt (canonicalNodeID b (uNodeID u)) (eFrom e) then markJiraGraphSourceMalformed u else u) <$> us) (eEvidence e) us.
Fixpoint distinct_evidence (seen : list text) (vs : list ArtifactGraphEvidence) : list ArtifactGraphEvidence :=
  match vs with
  | [] => []
  | v :: vs => if oneOf (graphEvidenceKey v) seen then distinct_evidence seen vs else v :: distinct_evidence (graphEvidenceKey v :: seen) vs
  end.
(** One edge of the old graph in the new one. *)
Definition rebuild_edge (b : jiraGraphV2Builder) (s : gmap text ArtifactGraphEdge * gmap text ArtifactGraphSource) (kv : text * ArtifactGraphEdge)
    : gmap text ArtifactGraphEdge * gmap text ArtifactGraphSource :=
  let e := redirected b kv.2 in
  if eqt (eFrom e) (eTo e) then (s.1, qualifyReconciledJiraGraphSelfEdge b e s.2)
  else
    let e := identified e in
    (<[eID e := match s.1 !! eID e with Some x => with_evidence (eEvidence x ++ distinct_evidence (map graphEvidenceKey (eEvidence x)) (eEvidence e)) x | None => e end]> s.1, s.2).
Fixpoint rebuild_frontier (b : jiraGraphV2Builder) (seen : list text) (is_ : list JiraIssueGraphFrontierItem) : list JiraIssueGraphFrontierItem * list text :=
  match is_ with
  | [] => ([], seen)
  | i :: is_ =>
      let i := {| fNodeID := canonicalNodeID b (fNodeID i); fDepth := fDepth i; fReason := fReason i |} in
      let key := frontier_key (fNodeID i) (fReason i) in
      if oneOf key seen then rebuild_frontier b seen is_
      else let (l, seen) := rebuild_frontier b (key :: seen) is_ in (i :: l, seen)
  end.
Definition moved_node (n : option ArtifactGraphNode) (id : text) (depth : Z) : ArtifactGraphNode :=
  let n := default {| nID := []; nKind := txt "jira_issue"; nService := txt "jira"; nExternalID := []; nURL := []; nLabel := []; nState := ArtifactNodeStub; nExpanded := false;
                      nDepth := 0; nStability := ArtifactStabilityPublicAPI; nSCM := None |} n in
  {| nID := id; nKind := nKind n; nService := nService n; nExternalID := issue_key id; nURL := nURL n; nLabel := nLabel n; nState := nState n; nExpanded := nExpanded n;
     nDepth := depth; nStability := nStability n; nSCM := nSCM n |}.
Definition edges_evidence (m : gmap text ArtifactGraphEdge) : Z := sum (map (λ kv : text * ArtifactGraphEdge, zlen (eEvidence kv.2)) (map_to_list m)).
Definition reconcileMovedNode (old new : text) (depth : Z) (b : jiraGraphV2Builder) : jiraGraphV2Builder :=
  let new := canonicalNodeID b new in
  if eqt old new then b
  else
    let b := put_aliases (<[old := new]> (gAliases b)) b in
    let node := gNodes b !! old in
    let b := upsertNode (moved_node node new depth) (put_nodes (delete old (gNodes b)) b) in
    let (edges, us) := fold_left (rebuild_edge b) (range_over _ (gEdges b)) (∅, gSources b) in
    let us := fold_left (λ m (kv : text * ArtifactGraphSource), let u := placed (canonicalNodeID b (uNodeID kv.2)) (uNodeDepth kv.2) kv.2 in
                           <[graphV2SourceKey (uNodeID u) (uKind u) := u]> m) (range_over _ us) ∅ in
    let (frontier, seen) := rebuild_frontier b [] (gFrontier b) in
    let b := put_frontier frontier seen (gFrontierTruncated b) (gTruncated b) (put_sources us (put_edges edges (edges_evidence edges) b)) in
    if eqt (gRootID b) old then put_root new b else b.

(** ** Issues that cannot be read *)

Definition isJiraGraphBudgetError (e : goerror) : bool := Is e ErrReadAttemptBudgetExhausted || Is e ErrReadResponseBudgetExhausted.
Definition jiraGraphBudgetReason (e : goerror) : text := if Is e ErrReadResponseBudgetExhausted then ArtifactPartialByteLimit else ArtifactPartialRequestLimit.
(** The state of the node, if it changes, and the status and reason of its sources. *)
Definition failure_of (e : goerror) : option text * text * text :=
  if Is e ErrReadAttemptBudgetExhausted then (None, ArtifactSourcePartial, ArtifactPartialRequestLimit)
  else if Is e ErrReadResponseBudgetExhausted then (None, ArtifactSourcePartial, ArtifactPartialByteLimit)
  else if Is e ErrAuth || Is e ErrForbidden then (Some ArtifactNodeForbidden, ArtifactSourceForbidden, [])
  else if Is e ErrNotFound then (Some ArtifactNodeMissing, ArtifactSourceUnsupported, [])
  else if Is e ErrCheckFailed then (None, ArtifactSourcePartial, ArtifactPartialMalformed)
  else (None, ArtifactSourcePartial, ArtifactPartialRequestFailed).
Definition failed_source (id : text) (depth : Z) (status : text) (truncated : bool) (reason stability kind : text) : ArtifactGraphSource :=
  {| uNodeID := id; uNodeDepth := Some depth; uKind := kind; uRequested := true; uStatus := status; uComplete := false; uCount := 0; uTruncated := truncated;
     uPartialReason := reason; uStability := stability; uFailure := None |}.
Definition fail_sources (id : text) (depth : Z) (status : text) (truncated : bool) (reason : text) (m : gmap text ArtifactGraphSource) : gmap text ArtifactGraphSource :=
  fold_left (λ m kind, <[graphV2SourceKey id kind := failed_source id depth status truncated reason (jiraGraphSourceStability kind) kind]> m) sourceKinds m.
Definition failed_node (state : option text) (depth : Z) (n : ArtifactGraphNode) : ArtifactGraphNode :=
  {| nID := nID n; nKind := nKind n; nService := nService n; nExternalID := nExternalID n; nURL := nURL n; nLabel := nLabel n; nState := default (nState n) state;
     nExpanded := false; nDepth := depth; nStability := nStability n; nSCM := nSCM n |}.
Definition qualifyFailedNode (item : jiraGraphQueueItem) (e : goerror) (b : jiraGraphV2Builder) : jiraGraphV2Builder :=
  let '(state, status, reason) := failure_of e in
  let b := put_nodes (<[iID item := failed_node state (iDepth item) (default unknown_node (gNodes b !! iID item))]> (gNodes b)) b in
  put_sources (fail_sources (iID item) (iDepth item) status (isJiraGraphBudgetError e) reason (gSources b)) b.
Definition limited_root (item : jiraGraphQueueItem) : ArtifactGraphNode :=
  {| nID := iID item; nKind := txt "jira_issue"; nService := txt "jira"; nExternalID := iKey item; nURL := []; nLabel := []; nState := ArtifactNodeUnresolved;
     nExpanded := false; nDepth := 0; nStability := ArtifactStabilityPublicAPI; nSCM := None |}.
Definition qualifyBudgetLimitedRoot (item : jiraGraphQueueItem) (e : goerror) (b : jiraGraphV2Builder) : jiraGraphV2Builder :=
  let reason := jiraGraphBudgetReason e in
  let b := put_nodes (<[iID item := limited_root item]> (gNodes b)) b in
  let us := fail_sources (iID item) 0 ArtifactSourcePartial true reason (gSources b) in
  let us := if oResolveConfluence o
            then <[graphV2SourceKey (iID item) confluence_metadata :=
                   failed_source (iID item) 0 ArtifactSourcePartial true reason ArtifactStabilityPublicAPI confluence_metadata]> us else us in
  addFrontier item reason (put_sources us b).
Definition validateJiraGraphV2Snapshot (snapshot : option QualifiedIssueSnapshot) (requestedKey : text) : fallible (QualifiedIssueSnapshot * text) :=
  match snapshot with
  | None => refuse ErrCheckFailed
  | Some q =>
      let! _ := ensure (negb (eqt (qID q) []) && jiraGraphExactKey (qKey q) && EqualFold (qRequestedKey q) requestedKey && eqt (qIssueID q) (qID q) &&
                        EqualFold (qIssueKey q) (qKey q) && bool_decide (is_Some (qFields q)) && bool_decide (is_Some (qNames q)) && bool_decide (is_Some (qSchema q)) &&
                        bool_decide (is_Some (qProperties q))) ErrCheckFailed in
      Ok (q, ToUpper (qKey q))
  end.

(** ** The loop *)

(** What the backend answers after [n] snapshots: the snapshot of an issue, its
    other collections, and what the budget has been charged.  [page_metadata] reads
    the identity and the title of a Confluence page; it is [None] where there is no
    Confluence. *)
Record service :=
  { jira_base : text; confluence_base : text; snapshot_at : nat → text → reading (option QualifiedIssueSnapshot); issue_reads_at : nat → text → issue_reads;
    page_metadata : option (nat → text → fallible (text * text)); usage_at : nat → Z * Z }.
Record traversal := { t_queue : list jiraGraphQueueItem; t_attempted : list text; t_reads : nat; t_builder : jiraGraphV2Builder }.
Inductive step_result := Next (t : traversal) | Stop (resolve : bool) (reads : nat) (b : jiraGraphV2Builder) | Fail (e : goerror).
Definition queue_le (a b : jiraGraphQueueItem) : Prop :=
  (if negb (iDepth b =? iDepth a) then iDepth b <? iDepth a else text_ltb (iID b) (iID a)) = false.
#[export] Instance queue_le_dec : RelDecision queue_le. Proof. intros a b. unfold queue_le. apply _. Defined.
(** The part of an iteration after the snapshot of [item] is known to be of it. *)
Definition expand (s : service) (t : traversal) (queue : list jiraGraphQueueItem) (attempted : list text) (snapshot : QualifiedIssueSnapshot) (id : text) (depth : Z)
    (b : jiraGraphV2Builder) : step_result :=
  match collectJiraGraphV2Node (issue_reads_at s (t_reads t) (qKey snapshot)) (jira_base s) (confluence_base s) snapshot id depth sourceKinds with
  | Err e => Fail e
  | Ok p =>
      let (b, us) := mergeProjection p id depth b in
      match projectionBudgetReason p us with
      | Some reason => Stop true (S (t_reads t)) (addFrontierAll queue reason (addFrontierAll (followableJiraNodes b id (depth + 1) attempted) reason b))
      | None =>
          let next := if oDepth o <=? depth then [] else followableJiraNodes b id (depth + 1) attempted in
          Next {| t_queue := queue ++ next; t_attempted := attempted; t_reads := S (t_reads t); t_builder := b |}
      end
  end.
Definition visit (s : service) (t : traversal) (queue : list jiraGraphQueueItem) (item : jiraGraphQueueItem) : step_result :=
  let attempted := iID item :: t_attempted t in
  let skip b := Next {| t_queue := queue; t_attempted := attempted; t_reads := S (t_reads t); t_builder := b |} in
  let r := snapshot_at s (t_reads t) (iKey item) in
  match answer r with
  | Err e =>
      let b := if Is e ErrReadAttemptBudgetExhausted then t_builder t else attempt (t_builder t) in
      match ctx_err r with
      | Some stop => Fail stop
      | None =>
          if iDepth item =? 0 then
            if isJiraGraphBudgetError e then Stop false (S (t_reads t)) (qualifyBudgetLimitedRoot item e b) else Fail e
          else
            let b := qualifyFailedNode item e b in
            if isJiraGraphBudgetError e
            then Stop true (S (t_reads t)) (addFrontierAll queue (jiraGraphBudgetReason e) (addFrontier item (jiraGraphBudgetReason e) b))
            else skip b
      end
  | Ok snapshot =>
      let b := attempt (t_builder t) in
      match validateJiraGraphV2Snapshot snapshot (iKey item) with
      | Err e => if iDepth item =? 0 then Fail e else skip (qualifyFailedNode item e b)
      | Ok (snapshot, key) =>
          let id := canonicalNodeID b (issue_id key) in
          if eqt id (iID item) then expand s t queue attempted snapshot id (iDepth item) b
          else
            let b := reconcileMovedNode (iID item) id (iDepth item) b in
            if oneOf id attempted then Next {| t_queue := queue; t_attempted := id :: attempted; t_reads := S (t_reads t); t_builder := b |}
            else expand s t queue (id :: attempted) snapshot id (iDepth item) b
      end
  end.
Definition step (s : service) (t : traversal) : step_result :=
  match merge_sort queue_le (t_queue t) with
  | [] => Stop true (t_reads t) (t_builder t)
  | item :: queue =>
      let id := canonicalNodeID (t_builder t) (iID item) in
      if oneOf id (t_attempted t) then Next {| t_queue := queue; t_attempted := t_attempted t; t_reads := t_reads t; t_builder := t_builder t |}
      else visit s t queue {| iID := id; iKey := issue_key id; iDepth := iDepth item |}
  end.
(** Up to [2 ^ k] iterations. *)
Fixpoint iterate (k : nat) (s : service) (t : traversal) : step_result :=
  match k with
  | O => step s t
  | S k => match iterate k s t with Next t => iterate k s t | r => r end
  end.

(** ** Confluence pages *)

Definition page_state (e : goerror) (n : ArtifactGraphNode) : ArtifactGraphNode :=
  let state := if Is e ErrNotFound then ArtifactNodeMissing else if Is e ErrAuth || Is e ErrForbidden then ArtifactNodeForbidden else nState n in
  {| nID := nID n; nKind := nKind n; nService := nService n; nExternalID := nExternalID n; nURL := nURL n; nLabel := nLabel n; nState := state; nExpanded := nExpanded n;
     nDepth := nDepth n; nStability := nStability n; nSCM := nSCM n |}.
Definition page_source (e : goerror) (u : ArtifactGraphSource) : ArtifactGraphSource :=
  if Is e ErrNotFound then u
  else if Is e ErrAuth || Is e ErrForbidden then qualified ArtifactSourceForbidden false (uTruncated u) [] u
  else qualified ArtifactSourcePartial false (uTruncated u) (if Is e ErrCheckFailed then ArtifactPartialMalformed else ArtifactPartialRequestFailed) u.
Definition resolved_page (title : text) (n : ArtifactGraphNode) : ArtifactGraphNode :=
  {| nID := nID n; nKind := nKind n; nService := nService n; nExternalID := nExternalID n; nURL := nURL n; nLabel := graphBoundedLabel title; nState := ArtifactNodeResolved;
     nExpanded := nExpanded n; nDepth := nDepth n; nStability := nStability n; nSCM := nSCM n |}.
Fixpoint pages_loop (read : nat → text → fallible (text * text)) (index : nat) (ids : list text) (u : ArtifactGraphSource) (b : jiraGraphV2Builder)
    : ArtifactGraphSource * jiraGraphV2Builder :=
  match ids with
  | [] => (u, b)
  | nodeID :: rest =>
      let id := Markdown.trim_prefix nodeID page_prefix in
      match read index id with
      | Err e =>
          let b := put_nodes (alter (page_state e) nodeID (gNodes b)) b in
          let u := page_source e u in
          if isJiraGraphBudgetError e then
            let reason := jiraGraphBudgetReason e in
            (limited reason u,
             fold_left (λ b i, addFrontier {| iID := i; iKey := []; iDepth := default 0 (nDepth <$> gNodes b !! i) |} reason b) ids b)
          else pages_loop read (S index) rest u b
      | Ok (gotID, title) =>
          if negb (eqt gotID id) || negb (numericID gotID) || eqt (trim_space title) [] then
            pages_loop read (S index) rest (qualified ArtifactSourcePartial false (uTruncated u) ArtifactPartialMalformed u) b
          else pages_loop read (S index) rest u (put_nodes (alter (resolved_page title) nodeID (gNodes b)) b)
      end
  end.
Definition unresolved_page (kv : text * ArtifactGraphNode) : bool :=
  eqt (nKind kv.2) (txt "confluence_page") && eqt (nState kv.2) ArtifactNodeStub && has_prefix kv.1 page_prefix.
Definition resolveConfluence (s : service) (b : jiraGraphV2Builder) : jiraGraphV2Builder :=
  let ids := sort_on (λ id, id) (map fst (List.filter unresolved_page (map_to_list (gNodes b)))) in
  let u := {| uNodeID := gRootID b; uNodeDepth := Some 0; uKind := confluence_metadata; uRequested := true; uStatus := ArtifactSourceEmpty; uComplete := true; uCount := zlen ids;
              uTruncated := false; uPartialReason := []; uStability := ArtifactStabilityPublicAPI; uFailure := None |} in
  let put u b := put_sources (<[graphV2SourceKey (uNodeID u) (uKind u) := u]> (gSources b)) b in
  if (length ids =? 0)%nat then put u b
  else match page_metadata s with
  | None => put (qualified ArtifactSourceSkipped false (uTruncated u) ArtifactPartialDependencyUnavailable u) b
  | Some read =>
      let (u, b) := pages_loop read 0 ids u b in
      put (if uComplete u then qualified ArtifactSourceComplete true (uTruncated u) (uPartialReason u) u else u) b
  end.

(** ** The result *)

Definition node_le (a b : ArtifactGraphNode) : Prop :=
  (if negb (nDepth b =? nDepth a) then nDepth b <? nDepth a else if negb (eqt (nKind b) (nKind a)) then text_ltb (nKind b) (nKind a) else text_ltb (nID b) (nID a)) = false.
#[export] Instance node_le_dec : RelDecision node_le. Proof. intros a b. unfold node_le. apply _. Defined.
Definition source_le (a b : ArtifactGraphSource) : Prop := graphV2SourceLess sourceKinds b a = false.
#[export] Instance source_le_dec : RelDecision source_le. Proof. intros a b. unfold source_le. apply _. Defined.
Definition frontier_le (a b : JiraIssueGraphFrontierItem) : Prop := graphV2FrontierLess b a = false.
#[export] Instance frontier_le_dec : RelDecision frontier_le. Proof. intros a b. unfold frontier_le. apply _. Defined.
Definition sorted_evidence (e : ArtifactGraphEdge) : ArtifactGraphEdge := with_evidence (sort_on graphEvidenceKey (eEvidence e)) e.
Definition result_of (usage : Z * Z) (b : jiraGraphV2Builder) : JiraIssueGraphResult :=
  let nodes := merge_sort node_le (map snd (map_to_list (gNodes b))) in
  let edges := sort_on graphEdgeSortKey (map (λ kv : text * ArtifactGraphEdge, sorted_evidence kv.2) (map_to_list (gEdges b))) in
  let sources := merge_sort source_le (map snd (map_to_list (gSources b))) in
  let frontier := merge_sort frontier_le (gFrontier b) in
  let counts := jiraIssueGraphSourceStatusCounts sources in
  let incomplete := jiraIssueGraphIncompleteSourceCount sources in
  {| SchemaVersion := jiraIssueGraphSchemaVersionV2; RootID := gRootID b; rComplete := incomplete =? 0; Truncated := gTruncated b || existsb uTruncated sources;
     Bounds := {| RequestedDepth := oDepth o; MaxNodes := oMaxNodes o; MaxEdges := oMaxEdges o; MaxEvidence := oMaxEvidence o; MaxSourceBytes := jiraGraphMaxSourceBytes;
                  ExpandedNodes := zlen (List.filter nExpanded nodes); FollowedNodes := if 0 <? gAttempted b then gAttempted b - 1 else 0; AttemptedNodes := gAttempted b;
                  MaxRequests := oMaxRequests o; RequestsUsed := usage.1; MaxResponseBytes := oMaxResponseBytes o; ResponseBytesUsed := usage.2;
                  MaxSources := oMaxNodes o * zlen sourceKinds + 1; MaxFrontier := oMaxNodes o; FrontierCount := zlen frontier; FrontierTruncated := gFrontierTruncated b;
                  IncludeDevelopment := oIncludeDevelopment o |};
     Summary := {| NodeCount := zlen nodes; EdgeCount := zlen edges; EvidenceCount := gEvidenceCount b; SourceCount := zlen sources; IncompleteSourceCount := incomplete;
                   SourceStatusCounts := counts; NodeCountMatchesNodes := zlen nodes =? zlen nodes; EdgeCountMatchesEdges := zlen edges =? zlen edges;
                   EvidenceCountMatchesEdges := gEvidenceCount b =? jiraIssueGraphEvidenceCount edges; SourceCountMatchesSources := zlen sources =? zlen sources;
                   SourceStatusCountsMatch := sum (map snd (map_to_list counts)) =? zlen sources; IncompleteCountMatches := incomplete =? incomplete;
                   ExpandedCountMatchesNodes := zlen (List.filter nExpanded nodes) =? zlen (List.filter nExpanded nodes);
                   CompleteMatchesSources := Bool.eqb (incomplete =? 0) (incomplete =? 0) |};
     Nodes := nodes; Edges := edges; Sources := sources; Frontier := frontier; Warnings := if incomplete =? 0 then [] else [incomplete_warning];
     SourceSelection := oSelection o |}.
Definition finish (usage : Z * Z) (b : jiraGraphV2Builder) : fallible JiraIssueGraphResult :=
  let r := result_of usage b in let! _ := ensure (validateJiraGraphV2Result r) ErrCheckFailed in Ok r.
(** The whole traversal once the options are normalised; [None] would be a loop
    that is still running after [2 ^ 48] iterations. *)
Definition traverse (s : service) (key : text) : option (fallible JiraIssueGraphResult) :=
  let b := newJiraGraphV2Builder (ToUpper key) in
  match iterate 48 s {| t_queue := [{| iID := gRootID b; iKey := ToUpper key; iDepth := 0 |}]; t_attempted := []; t_reads := 0; t_builder := b |} with
  | Next _ => None
  | Fail e => Some (Err e)
  | Stop resolve reads b => Some (finish (usage_at s reads) (if resolve && oResolveConfluence o then resolveConfluence s b else b))
  end.
End lang.

(** [IssueGraphWithOptions]; [capable] tells whether the tracker can read the
    snapshots the selection asks for. *)
Definition IssueGraphWithOptions `{Lang} (range_over : ∀ A : Type, gmap text A → list (text * A)) (capable : option JiraIssueGraphSourceSelection → bool)
    (service_of : option JiraIssueGraphSourceSelection → service) (key : text) (opts : JiraIssueGraphOptions) : option (fallible JiraIssueGraphResult) :=
  match (let! limits := NormalizeJiraIssueGraphOptions opts in
         let key := trim_space key in
         let! _ := ValidateJiraIssueGraphKey key in
         let! _ := ensure (capable (oSelection limits)) ErrCheckFailed in Ok (limits, key)) with
  | Err e => Some (Err e)
  | Ok (limits, key) => traverse range_over limits (service_of (oSelection limits)) key
  end.
End GraphTraversal.
