(* ===== verification/GraphLoop.v ===== *)
(** * The Jira artifact graph: the traversal ends

    Every iteration takes an item off the queue; what it adds is one level deeper
    and not more than there are edges, whose number is bounded. *)

From stdpp Require Import vector pretty.
From S2P Require Import Prelude GoText TextOrder Encoding WikiScanner Markdown NetUrl MdView GraphTypes Scmref GraphExtract GraphCollect GraphResult GraphTraversal.
Import GoText TextOrder Encoding GraphTypes GraphExtract GraphCollect GraphResult GraphTraversal.

Module GraphLoop.
Local Open Scope Z_scope.
Local Open Scope atl_scope.

(** Go ranges over a map in some order. *)
Definition some_order (range_over : ∀ A : Type, gmap text A → list (text * A)) : Prop := ∀ A (m : gmap text A), range_over A m ≡ₚ map_to_list m.

#[local] Arguments canonicalNodeID : simpl never.

Lemma remove_dups_length {A} `{EqDecision A} (l : list A) : (length (remove_dups l) ≤ length l)%nat.
Proof. induction l as [|x l IH]; cbn; [lia|]. destruct (decide_rel _ x l); cbn; lia. Qed.
Lemma omap_length {A B} (f : A → option B) (l : list A) : (length (omap f l) ≤ length l)%nat.
Proof. induction l as [|x l IH]; cbn; [lia|]. destruct (f x); cbn; lia. Qed.

Section loop.
Context `{Lang} (range_over : ∀ A : Type, gmap text A → list (text * A)) (o : JiraIssueGraphOptions).
Hypothesis range_some : some_order range_over.

(** ** What an operation changes *)

Lemma upsert_put node b : upsertNode o node b = put_nodes (gNodes (upsertNode o node b)) b.
Proof. unfold upsertNode. repeat case_match; by destruct b. Qed.
(** An edge that is admitted is new, or adds evidence to the one of its identity. *)
Lemma admit_inl e target b b' : admitEdgeWithTarget o e target b = inl b' →
  let e' := identified (redirected b e) in let t := renamed (eTo e') target in
  ∃ x c m, b' = put_edges (<[eID e' := x]> (gEdges b)) c (put_nodes m b) ∧
    (put_nodes m b = upsertNode o t b ∧ is_Some (gNodes b !! nID t) ∨ (gNodes b !! nID t = None ∧ full o b = false ∧ m = <[nID t := t]> (gNodes b))) ∧
    ((∃ y vs, gEdges b !! eID e' = Some y ∧ x = with_evidence vs y) ∨ (gEdges b !! eID e' = None ∧ x = e' ∧ Z.of_nat (size (gEdges b)) < oMaxEdges o)).
Proof.
  unfold admitEdgeWithTarget. intros Hb. cbv zeta in *. set (e' := identified (redirected b e)) in *. set (t := renamed (eTo e') target) in *.
  destruct (negb _ && full o b) eqn:Hroom; [discriminate|]. destruct (negb (bool_decide (is_Some (gEdges b !! eID e'))) && _) eqn:Hfull; [discriminate|].
  destruct (oMaxEvidence o <? _); [discriminate|]. pose proof (upsert_put t b) as Hu.
  match goal with H : context [<[eID e' := ?x]>] |- _ => exists x end.
  assert (∀ x, (x = match gEdges b !! eID e' with Some y => with_evidence (eEvidence y ++ new_evidence (eEvidence y) (eEvidence e')) y | None => e' end) →
    (∃ y vs, gEdges b !! eID e' = Some y ∧ x = with_evidence vs y) ∨ (gEdges b !! eID e' = None ∧ x = e' ∧ Z.of_nat (size (gEdges b)) < oMaxEdges o)) as Hx.
  { intros x ->. destruct (gEdges b !! eID e') as [y|] eqn:Hy; [left; by eexists _, _|right]. split; [done|]. split; [done|].
    apply andb_false_iff in Hfull as [Hf|Hf]; [|by bool_hyps]. apply negb_false_iff, bool_decide_eq_true in Hf. by destruct Hf. }
  destruct (bool_decide (is_Some (gNodes b !! nID t))) eqn:Hk; injection Hb as <-.
  - eexists _, (gNodes (upsertNode o t b)). split; [|split; [left|]]; cbn [gNodes put_edges put_nodes].
    + rewrite <- Hu. assert (gEdges (upsertNode o t b) = gEdges b) as -> by by rewrite Hu. reflexivity.
    + split; [done|]. by apply bool_decide_eq_true in Hk.
    + apply Hx. by destruct (gEdges b !! eID e').
  - eexists _, (<[nID t := t]> (gNodes b)). split; [reflexivity|]. split; [right|].
    + split; [|split; [exact Hroom|done]]. destruct (gNodes b !! nID t) eqn:E; [|done]. apply bool_decide_eq_false in Hk. destruct Hk. by eexists.
    + apply Hx. by destruct (gEdges b !! eID e').
Qed.
Lemma frontier_put item reason b : ∃ l seen cut tr, addFrontier o item reason b = put_frontier l seen cut tr b.
Proof. unfold addFrontier. repeat case_match; try by eexists _, _, _, _. exists (gFrontier b), (gFrontierSeen b), (gFrontierTruncated b), (gTruncated b). by destruct b. Qed.
Lemma frontier_all_put items reason b : ∃ l seen cut tr, addFrontierAll o items reason b = put_frontier l seen cut tr b.
Proof.
  unfold addFrontierAll. revert b. induction items as [|i items IH]; intros b; cbn [fold_left].
  - exists (gFrontier b), (gFrontierSeen b), (gFrontierTruncated b), (gTruncated b). by destruct b.
  - destruct (frontier_put i reason b) as (l & s & c & t & ->). destruct (IH (put_frontier l s c t b)) as (l' & s' & c' & t' & ->). by eexists _, _, _, _.
Qed.

(** ** The number of edges *)

Definition few_edges (b : jiraGraphV2Builder) : Prop := Z.of_nat (size (gEdges b)) ≤ oMaxEdges o.
Lemma few_frontier item reason b : few_edges b → few_edges (addFrontier o item reason b).
Proof. by destruct (frontier_put item reason b) as (? & ? & ? & ? & ->). Qed.
Lemma few_admit e target b b' : admitEdgeWithTarget o e target b = inl b' → few_edges b → few_edges b'.
Proof.
  intros (x & c & m & -> & _ & Hx)%admit_inl Hf. unfold few_edges in *. cbn [gEdges put_edges]. destruct Hx as [(y & vs & Hy & _)|(Hn & _ & Hlt)].
  - rewrite map_size_insert_Some by by eexists. done.
  - rewrite map_size_insert_None by done. lia.
Qed.
Lemma few_merge_edge p s e : few_edges s.1 → few_edges (merge_edge o p s e).1.
Proof.
  destruct s as [b us]. cbn. intros Hf. unfold merge_edge. destruct (eqt (canonicalNodeID _ _) _); [done|]. destruct (admitEdgeWithTarget _ _ _ _) eqn:E; [by eapply few_admit|].
  destruct (_ && _); [by apply few_frontier|done].
Qed.
Lemma few_development p es b b' : development_loop o p es b = inl b' → few_edges b → few_edges b'.
Proof.
  revert b. induction es as [|e es IH]; intros b Hb Hf; cbn [development_loop] in Hb; [by injection Hb as <-|]. cbv zeta in Hb.
  assert (∀ target b0, few_edges b0 → match admitEdgeWithTarget o e target b0 with inl b1 => development_loop o p es b1 | inr _ => inr ArtifactPartialOutputLimit end = inl b' →
    few_edges b') as Hstep.
  { intros target b0 H0 H1. destruct (admitEdgeWithTarget o e target b0) eqn:E; [|discriminate]. by eapply IH, few_admit. }
  destruct (gNodes b !! _); [destruct (reconcileDevelopmentGraphNode _ _); [|discriminate]|]; (eapply Hstep; [|exact Hb]); done.
Qed.
Lemma few_mergeProjection p id depth b : few_edges b → few_edges (mergeProjection o p id depth b).1.
Proof.
  intros Hf. unfold mergeProjection. cbv zeta. set (s := fold_left (merge_edge o p) _ _).
  assert (few_edges s.1) as Hs.
  { unfold s. generalize (List.filter (λ e, negb (is_development (eKind e))) (sort_on graphEdgeSortKey (map snd (map_to_list (bEdges p))))). intros l.
    assert (few_edges (upsertNode o (default unknown_node (bNodes p !! id)) b, bSources p).1) as H0 by (cbn; by rewrite upsert_put).
    revert H0. generalize (upsertNode o (default unknown_node (bNodes p !! id)) b, bSources p). induction l as [|e l IH]; intros m Hm; cbn [fold_left]; [done|].
    by apply IH, few_merge_edge. }
  destruct (admitDevelopmentProjection _ _ _ _) as [b' us] eqn:E. cbn. unfold admitDevelopmentProjection in E. destruct (development_loop _ _ _ _) eqn:D; injection E as <- _; [|done].
  exact (few_development _ _ _ _ D Hs).
Qed.
Lemma few_rebuild b l s : (size (fold_left (rebuild_edge b) l s).1 ≤ size s.1 + length l)%nat.
Proof.
  revert s. induction l as [|kv l IH]; intros s; cbn [fold_left length]; [lia|]. rewrite IH. unfold rebuild_edge. case_match; cbn [fst]; [lia|]. rewrite map_size_insert. destruct (s.1 !! _); unfold id; lia.
Qed.
Lemma few_reconcile old new depth b : few_edges b → few_edges (reconcileMovedNode range_over o old new depth b).
Proof.
  intros Hf. unfold reconcileMovedNode. cbv zeta. case_match; [done|]. set (b1 := upsertNode o _ _).
  assert (gEdges b1 = gEdges b) as Hb1 by (unfold b1; by rewrite upsert_put).
  destruct (fold_left (rebuild_edge b1) _ _) as [edges us] eqn:E. destruct (rebuild_frontier _ _ _) as [l seen].
  assert (few_edges (put_edges edges (edges_evidence edges) b1)) as Hn.
  { unfold few_edges in *. cbn [gEdges put_edges]. pose proof (few_rebuild b1 (range_over _ (gEdges b1)) (∅, gSources b1)) as Hs. rewrite E in Hs. cbn [fst] in Hs.
    rewrite (range_some _ (gEdges b1)), Hb1, map_size_empty in Hs. rewrite length_map_to_list in Hs. lia. }
  case_match; exact Hn.
Qed.

(** ** The measure *)

Lemma followable_few b from depth attempted : (length (followableJiraNodes b from depth attempted) ≤ size (gEdges b))%nat.
Proof.
  unfold followableJiraNodes. rewrite length_map. unfold sort_on. rewrite merge_sort_Permutation. etrans; [apply remove_dups_length|].
  etrans; [apply omap_length|]. by rewrite length_map, length_map_to_list.
Qed.
Lemma followable_depth b from depth attempted i : i ∈ followableJiraNodes b from depth attempted → iDepth i = depth.
Proof. unfold followableJiraNodes. intros (id & -> & _)%list_elem_of_fmap. done. Qed.
(** An item counts for all that can follow from it. *)
Definition weight (i : jiraGraphQueueItem) : Z := (oMaxEdges o + 1) ^ Z.max 0 (oDepth o - iDepth i).
Definition weights (q : list jiraGraphQueueItem) : Z := sum (map weight q).
Lemma weights_perm q q' : q ≡ₚ q' → weights q = weights q'.
Proof. unfold weights, sum. induction 1; cbn; lia. Qed.
Lemma weights_app q q' : weights (q ++ q') = weights q + weights q'.
Proof. unfold weights, sum. induction q as [|i q IH]; cbn in *; lia. Qed.

Hypothesis edges_bound : 1 ≤ oMaxEdges o ≤ jiraGraphMaxEdges.
Hypothesis depth_bound : 0 ≤ oDepth o ≤ jiraGraphMaxDepth.

Lemma weight_pos i : 1 ≤ weight i.
Proof. unfold weight. pose proof (Z.pow_pos_nonneg (oMaxEdges o + 1) (Z.max 0 (oDepth o - iDepth i)) ltac:(lia) ltac:(lia)). lia. Qed.
Lemma weights_nonneg q : 0 ≤ weights q.
Proof. unfold weights, sum. induction q as [|i q IH]; cbn; [lia|]. pose proof (weight_pos i). lia. Qed.
Lemma weights_level q d : (∀ i, i ∈ q → iDepth i = d) → weights q = Z.of_nat (length q) * (oMaxEdges o + 1) ^ Z.max 0 (oDepth o - d).
Proof.
  unfold weights, sum. induction q as [|i q IH]; intros Hd; cbn [map fold_right length]; [lia|]. rewrite IH by (intros j Hj; apply Hd; by right).
  unfold weight at 1. rewrite (Hd i) by left. lia.
Qed.
(** What one item adds to the queue counts for less than the item. *)
Lemma weights_next i b from depth attempted : few_edges b → depth = iDepth i → iDepth i < oDepth o →
  weights (followableJiraNodes b from (depth + 1) attempted) < weight i.
Proof.
  intros Hf -> Hlt. rewrite (weights_level _ (iDepth i + 1)) by apply followable_depth. pose proof (followable_few b from (iDepth i + 1) attempted) as Hn. unfold few_edges in Hf. unfold weight.
  rewrite !Z.max_r by lia. replace (oDepth o - iDepth i) with (Z.succ (oDepth o - (iDepth i + 1))) by lia. rewrite Z.pow_succ_r by lia.
  assert (0 < (oMaxEdges o + 1) ^ (oDepth o - (iDepth i + 1))) by (apply Z.pow_pos_nonneg; lia). nia.
Qed.
(** A state the loop may be in, and what an iteration makes of it. *)
Definition shrinks (t : traversal) (r : step_result) : Prop :=
  match r with Next t' => few_edges (t_builder t') ∧ weights (t_queue t') < weights (t_queue t) | _ => True end.
Lemma expand_shrinks s t queue attempted snapshot i id b q : few_edges b → weights q = weight i + weights queue →
  shrinks {| t_queue := q; t_attempted := t_attempted t; t_reads := t_reads t; t_builder := t_builder t |} (expand o s t queue attempted snapshot id (iDepth i) b).
Proof.
  intros Hf Hq. unfold expand. destruct (collectJiraGraphV2Node _ _ _ _ _ _ _) as [p|]; [|done]. destruct (mergeProjection o p id (iDepth i) b) as [b' us] eqn:E.
  pose proof (few_mergeProjection p id (iDepth i) b Hf) as Hf'. rewrite E in Hf'. cbn [fst] in Hf'. destruct (projectionBudgetReason p us); [done|]. cbn [shrinks t_builder t_queue].
  split; [done|]. rewrite weights_app, Hq. destruct (oDepth o <=? iDepth i) eqn:Hd; bool_hyps; [cbn; pose proof (weight_pos i); lia|].
  pose proof (weights_next i b' id (iDepth i) attempted Hf' eq_refl ltac:(lia)). lia.
Qed.
Lemma visit_shrinks s t queue item q : few_edges (t_builder t) → weights q = weight item + weights queue →
  shrinks {| t_queue := q; t_attempted := t_attempted t; t_reads := t_reads t; t_builder := t_builder t |} (visit range_over o s t queue item).
Proof.
  intros Hf Hq. pose proof (weight_pos item) as Hw. unfold visit. cbv zeta. destruct (answer _) as [snapshot|e].
  - destruct (validateJiraGraphV2Snapshot _ _) as [[q' key]|e].
    + destruct (eqt _ _); [by apply expand_shrinks|]. assert (few_edges (reconcileMovedNode range_over o (iID item) (canonicalNodeID (attempt (t_builder t)) (issue_id key)) (iDepth item)
        (attempt (t_builder t)))) by by apply few_reconcile. destruct (oneOf _ _); [|by apply expand_shrinks]. cbn [shrinks t_builder t_queue]. split; [done|lia].
    + destruct (iDepth item =? 0); [done|]. cbn [shrinks t_builder t_queue]. unfold qualifyFailedNode. destruct (failure_of e) as [[state status] reason]. split; [done|lia].
  - destruct (ctx_err _); [done|]. destruct (iDepth item =? 0); [by destruct (isJiraGraphBudgetError e)|]. destruct (isJiraGraphBudgetError e) eqn:Hb; [done|]. cbn [shrinks t_builder t_queue].
    unfold qualifyFailedNode. destruct (failure_of e) as [[state status] reason]. split; [|lia]. unfold few_edges. by destruct (Is e _).
Qed.
Lemma step_shrinks s t : few_edges (t_builder t) → shrinks t (step range_over o s t).
Proof.
  intros Hf. unfold step. destruct (merge_sort queue_le (t_queue t)) as [|item queue] eqn:E; [done|]. cbv zeta.
  assert (weights (t_queue t) = weight item + weights queue) as Hq.
  { rewrite <- (weights_perm _ _ (merge_sort_Permutation queue_le (t_queue t))), E. done. }
  destruct (oneOf _ _).
  - cbn [shrinks t_builder t_queue]. split; [done|]. pose proof (weight_pos item). lia.
  - assert (weight {| iID := canonicalNodeID (t_builder t) (iID item); iKey := issue_key (canonicalNodeID (t_builder t) (iID item)); iDepth := iDepth item |} = weight item) as Hw by done.
    pose proof (visit_shrinks s t queue _ (t_queue t) Hf ltac:(rewrite Hw; exact Hq)) as Hs. unfold shrinks in *. by destruct (visit _ _ _ _ _ _).
Qed.
Lemma iterate_shrinks s k t : few_edges (t_builder t) →
  match iterate range_over o k s t with Next t' => few_edges (t_builder t') ∧ weights (t_queue t') ≤ weights (t_queue t) - 2 ^ Z.of_nat k | _ => True end.
Proof.
  revert t. induction k as [|k IH]; intros t Hf; cbn [iterate].
  - pose proof (step_shrinks s t Hf) as Hs. destruct (step _ _ _ _); [|done..]. destruct Hs as [Hs Hw]. split; [done|]. change (2 ^ Z.of_nat 0) with 1. lia.
  - specialize (IH t Hf) as H1. destruct (iterate _ _ _ _ t) as [t1| |]; [|done..]. destruct H1 as [Hf1 H1]. specialize (IH t1 Hf1). destruct (iterate _ _ _ _ t1); [|done..].
    destruct IH as [IH1 IH2]. split; [done|]. rewrite Nat2Z.inj_succ, Z.pow_succ_r by lia. lia.
Qed.
Lemma traverse_returns s key : ∃ r, traverse range_over o s key = Some r.
Proof.
  unfold traverse. cbv zeta. match goal with |- context [iterate _ _ _ _ ?t] => set (t0 := t); pose proof (iterate_shrinks s 48 t0) as Hi; destruct (iterate range_over o 48 s t0) as [t'| |] eqn:E end;
    [exfalso|by eexists..].
  destruct Hi as [_ Hi]; [unfold few_edges; cbn; rewrite map_size_empty; lia|]. pose proof (weights_nonneg (t_queue t')). unfold t0, weights, sum, weight in Hi. cbn in Hi.
  rewrite Z.max_r in Hi by lia. unfold jiraGraphMaxEdges, jiraGraphMaxDepth in *.
  assert ((oMaxEdges o + 1) ^ (oDepth o - 0) ≤ 4097 ^ 3) as Hp.
  { etrans; [apply Z.pow_le_mono_l; split; [|instantiate (1 := 4097)]; lia|]. apply Z.pow_le_mono_r; lia. }
  unfold weights, sum, weight in H0. lia.
Qed.
End loop.

(** ** Normalised options *)

Lemma set_limit_range v d m n : 1 ≤ d ≤ m → set_limit v d m = Ok n → 1 ≤ n ≤ m.
Proof. unfold set_limit. intros Hd Hn. destruct (v =? 0) eqn:E0; [by injection Hn as <-|]. destruct (_ || _) eqn:E; [done|]. injection Hn as <-. bool_hyps. lia. Qed.
Record normal (o : JiraIssueGraphOptions) : Prop := {
  normal_depth : 0 ≤ oDepth o ≤ jiraGraphMaxDepth; normal_nodes : 1 ≤ oMaxNodes o ≤ jiraGraphMaxNodes; normal_edges : 1 ≤ oMaxEdges o ≤ jiraGraphMaxEdges;
  normal_evidence : 1 ≤ oMaxEvidence o ≤ jiraGraphMaxEvidence; normal_kinds : ∀ kind, kind ∈ sourceKinds o → kind ∈ jiraGraphSourceKinds true }.
Lemma selection_filter include exclude dev z : NormalizeJiraIssueGraphSources include exclude dev = Ok (Some z) → ∃ f, zSelected z = List.filter f (jiraGraphSourceKinds true).
Proof.
  unfold NormalizeJiraIssueGraphSources. generalize (jiraGraphSourceKinds true). intros kinds Hz.
  destruct include, exclude; inv_ok Hz; try done; cbn [zSelected]; by eexists.
Qed.
Lemma selection_kinds include exclude dev z : NormalizeJiraIssueGraphSources include exclude dev = Ok z → ∀ kind, kind ∈ jiraGraphSelectedKinds z dev → kind ∈ jiraGraphSourceKinds true.
Proof.
  intros Hz kind. destruct z as [z|]; cbn [jiraGraphSelectedKinds].
  - apply selection_filter in Hz as [f ->]. intros Hk%list_elem_of_In%filter_In. apply list_elem_of_In, Hk.
  - unfold jiraGraphSourceKinds. destruct dev; [done|]. rewrite app_nil_r, elem_of_app. by left.
Qed.
Lemma normalized o o' : NormalizeJiraIssueGraphOptions o = Ok o' → normal o'.
Proof.
  unfold NormalizeJiraIssueGraphOptions. intros Hn. destruct (NormalizeJiraIssueGraphSources _ _ _) as [z|] eqn:Ez; [|done]. cbn [rbind] in Hn. unfold ensure in Hn.
  destruct (negb _) eqn:Ed; [|done]. cbn [rbind] in Hn. inv_ok Hn. apply negb_true_iff, orb_false_iff in Ed as [Ed1%Z.ltb_ge Ed2%Z.ltb_ge]. constructor; cbn [oDepth oMaxNodes oMaxEdges oMaxEvidence].
  - lia.
  - eapply set_limit_range; [|eassumption]. done.
  - eapply set_limit_range; [|eassumption]. done.
  - eapply set_limit_range; [|eassumption]. done.
  - intros kind. unfold sourceKinds. cbn [oSelection oIncludeDevelopment]. by eapply selection_kinds.
Qed.

(** ** The traversal returns *)

Definition returns (r : option (fallible JiraIssueGraphResult)) : Prop := ∃ a, r = Some a.
(** C24: Whatever issues link to each other and whatever the backend answers, the
    traversal comes to an end, with a result or an error. *)
Theorem traversal_returns `{Lang} range_over capable service_of key opts : some_order range_over →
  returns (IssueGraphWithOptions range_over capable service_of key opts).
Proof.
  intros Hr. unfold returns, IssueGraphWithOptions. destruct (NormalizeJiraIssueGraphOptions opts) as [limits|] eqn:E; cbn [rbind]; [|by eexists]. apply normalized in E as [].
  destruct (ValidateJiraIssueGraphKey _); cbn [rbind]; [|by eexists]. destruct (ensure _ _); cbn [rbind]; [|by eexists]. by apply traverse_returns.
Qed.
End GraphLoop.
