(* ===== verification/GraphProjection.v ===== *)
(** * The Jira artifact graph: the compact projection
    (internal/app/jira_graph_projection.go)

    From a collected graph, which is checked first, the facts of the selected
    classes with where they were seen, and the sources that say what is missing. *)

From stdpp Require Import vector pretty.
From S2P Require Import Prelude GoText TextOrder Encoding WikiScanner Markdown NetUrl MdView GraphTypes GraphExtract GraphCollect GraphResult.
Import GoText TextOrder Encoding GraphTypes GraphExtract GraphCollect GraphResult.

Module GraphProjection.
Local Open Scope Z_scope.
Local Open Scope atl_scope.

(** ** Options *)

Definition jiraIssueGraphCompactSchemaVersion : Z := 1.
Definition JiraIssueGraphProjectionFull : text := txt "full".
Definition JiraIssueGraphProjectionCompact : text := txt "compact".
Definition JiraIssueGraphSelectorURLs : text := txt "urls".
Definition JiraIssueGraphSelectorSCM : text := txt "scm".
Definition JiraIssueGraphSelectorNone : text := txt "none".
Definition jiraIssueGraphFactClasses : list text := [JiraIssueGraphSelectorURLs; JiraIssueGraphSelectorSCM].
Definition all_selectors : list text := jiraIssueGraphFactClasses ++ [JiraIssueGraphSelectorNone].
Record JiraIssueGraphProjectionOptions := { Projection : text; Selectors : list text }.
Section lang.
Context `{Lang}.
Fixpoint parse_selectors (parts : list text) (seen : list text) : fallible (list text) :=
  match parts with
  | [] => Ok seen
  | p :: ps => let selector := ToLower (trim_space p) in let! _ := ensure (oneOf selector all_selectors) ErrUsage in parse_selectors ps (selector :: seen)
  end.
(** The selectors, and whether there were any. *)
Definition normalizeJiraIssueGraphSelectors (raw : list text) : fallible (list text * bool) :=
  if (length raw =? 0)%nat then Ok ([], false)
  else let! seen := parse_selectors (concat (map (λ entry, Markdown.split entry (txt ",")) raw)) [] in Ok (List.filter (λ s, oneOf s seen) all_selectors, true).
Definition NormalizeJiraIssueGraphProjection (projection : text) (selectors : list text) (includeDevelopment : bool) : fallible JiraIssueGraphProjectionOptions :=
  let projection := ToLower (trim_space projection) in
  let projection := if eqt projection [] then JiraIssueGraphProjectionFull else projection in
  let! _ := ensure (eqt projection JiraIssueGraphProjectionFull || eqt projection JiraIssueGraphProjectionCompact) ErrUsage in
  let! r := normalizeJiraIssueGraphSelectors selectors in
  if eqt projection JiraIssueGraphProjectionFull then
    let! _ := ensure (negb r.2) ErrUsage in Ok {| Projection := projection; Selectors := [] |}
  else
    let parsed := if r.2 then r.1 else JiraIssueGraphSelectorURLs :: (if includeDevelopment then [JiraIssueGraphSelectorSCM] else []) in
    let! _ := ensure (negb (oneOf JiraIssueGraphSelectorNone parsed && negb (length parsed =? 1)%nat)) ErrUsage in
    let! _ := ensure (negb (oneOf JiraIssueGraphSelectorSCM parsed && negb includeDevelopment)) ErrUsage in
    Ok {| Projection := projection; Selectors := parsed |}.

(** ** Results *)

Record JiraIssueGraphCompactFact :=
  { cClass : text; cNodeID : text; cKind : text; cURL : text; cSCM : option ArtifactGraphSCMIdentity; cState : text; cDepth : Z; cStability : text; cSourceNodeIDs : list text }.
Record JiraIssueGraphCompactCollectedSummary :=
  { lNodeCount : Z; lEdgeCount : Z; lEvidenceCount : Z; lSourceCount : Z; lIncompleteSourceCount : Z; lSourceStatusCounts : gmap text Z }.
Record JiraIssueGraphCompactProjectedSummary :=
  { jFactCount : Z; jSourceCount : Z; jURLCount : Z; jSCMCount : Z; jIncompleteSourceCount : Z; jSourceStatusCounts : gmap text Z }.
Record JiraIssueGraphCompactSummary :=
  { Collected : JiraIssueGraphCompactCollectedSummary; Projected : JiraIssueGraphCompactProjectedSummary; CollectedCountsMatchFull : bool; ProjectedFactCountMatchesFacts : bool;
    FactClassCountsMatchFacts : bool; ProjectedSourceCountMatchesSources : bool; SourceStatusCountsMatchSources : bool; IncompleteCountMatchesSources : bool }.
Record JiraIssueGraphCompactResult :=
  { cSchemaVersion : Z; cName : text; cSelected : list text; cOmitted : list text; cRootID : text; cComplete : bool; cTruncated : bool; cBounds : JiraIssueGraphBounds;
    cSummary : JiraIssueGraphCompactSummary; cFacts : list JiraIssueGraphCompactFact; cSources : list ArtifactGraphSource; cFrontier : list JiraIssueGraphFrontierItem;
    cWarnings : list text; cSourceSelection : option JiraIssueGraphSourceSelection }.

(** ** Facts *)

(** The issues in which a node was seen. *)
Definition jiraIssueGraphCompactProvenance (full : JiraIssueGraphResult) (id : text) : list text :=
  sort_on (λ s, s) (remove_dups (List.filter (λ s, negb (eqt s []))
    (concat (map (λ e, map vSourceNodeID (eEvidence e)) (List.filter (λ e, eqt (eTo e) id) (Edges full)))))).
Definition hash_byte (c : ascii) : bool := digit c || in_rng 97 102 (byte_val c).
Definition jiraIssueGraphCompactHashID (id prefix : text) : bool :=
  let digest := Markdown.trim_prefix id prefix in negb (eqt id digest) && (length digest =? 64)%nat && forallb hash_byte digest.
Definition fact_of (class url : text) (scm : option ArtifactGraphSCMIdentity) (n : ArtifactGraphNode) (ids : list text) : JiraIssueGraphCompactFact :=
  {| cClass := class; cNodeID := nID n; cKind := nKind n; cURL := url; cSCM := scm; cState := nState n; cDepth := nDepth n; cStability := nStability n; cSourceNodeIDs := ids |}.
Definition jiraIssueGraphCompactURLFact (n : ArtifactGraphNode) (ids : list text) : fallible JiraIssueGraphCompactFact :=
  let! _ := ensure (negb (length ids =? 0)%nat) ErrCheckFailed in
  let! _ := ensure (
    if has_prefix (nID n) (txt "url:") then
      match normalizeGraphURL (nURL n) [] [] with
      | Some r => negb (eqt (nURL n) []) && eqt (nKind (Node r)) (txt "url") && eqt (nID (Node r)) (nID n) && eqt (nURL (Node r)) (nURL n)
      | None => false
      end
    else if has_prefix (nID n) (txt "candidate:url:") then
      eqt (nURL n) [] && eqt (nState n) ArtifactNodeUnresolved && jiraIssueGraphCompactHashID (nID n) (txt "candidate:url:")
    else false) ErrCheckFailed in
  Ok (fact_of JiraIssueGraphSelectorURLs (nURL n) None n ids).
Definition jiraIssueGraphCompactSCMFact (n : ArtifactGraphNode) (ids : list text) : fallible JiraIssueGraphCompactFact :=
  let! _ := ensure (negb (length ids =? 0)%nat && bool_decide (is_Some (nSCM n)) && validateJiraDevelopmentGraphNode n) ErrCheckFailed in
  Ok (fact_of JiraIssueGraphSelectorSCM [] (nSCM n) n ids).
(** The fact a node is, if its class is selected. *)
Definition fact_class (selected : list text) (n : ArtifactGraphNode) : option text :=
  if oneOf JiraIssueGraphSelectorURLs selected && eqt (nKind n) (txt "url") then Some JiraIssueGraphSelectorURLs
  else if oneOf JiraIssueGraphSelectorSCM selected && is_gitlab (nKind n) then Some JiraIssueGraphSelectorSCM
  else None.
Fixpoint facts_loop (selected : list text) (provenance : text → list text) (ns : list ArtifactGraphNode) : fallible (list JiraIssueGraphCompactFact) :=
  match ns with
  | [] => Ok []
  | n :: ns =>
      match fact_class selected n with
      | None => facts_loop selected provenance ns
      | Some class =>
          let! f := (if eqt class JiraIssueGraphSelectorURLs then jiraIssueGraphCompactURLFact else jiraIssueGraphCompactSCMFact) n (provenance (nID n)) in
          let! fs := facts_loop selected provenance ns in Ok (f :: fs)
      end
  end.
Definition jiraIssueGraphCompactFactSortKey (f : JiraIssueGraphCompactFact) : text :=
  (if eqt (cClass f) JiraIssueGraphSelectorURLs then txt "0" else txt "1") ++ nul ++ cKind f ++ nul ++ cNodeID f.

(** ** The projection *)

Definition of_class (class : text) (fs : list JiraIssueGraphCompactFact) : Z := zlen (List.filter (λ f, eqt (cClass f) class) fs).
Definition jiraIssueGraphCompactSummary (full : JiraIssueGraphResult) (facts : list JiraIssueGraphCompactFact) (sources : list ArtifactGraphSource) : JiraIssueGraphCompactSummary :=
  let s := Summary full in
  let counts := jiraIssueGraphSourceStatusCounts sources in
  let incomplete := jiraIssueGraphIncompleteSourceCount sources in
  {| Collected := {| lNodeCount := NodeCount s; lEdgeCount := EdgeCount s; lEvidenceCount := EvidenceCount s; lSourceCount := SourceCount s;
                     lIncompleteSourceCount := IncompleteSourceCount s; lSourceStatusCounts := SourceStatusCounts s |};
     Projected := {| jFactCount := zlen facts; jSourceCount := zlen sources; jURLCount := of_class JiraIssueGraphSelectorURLs facts; jSCMCount := of_class JiraIssueGraphSelectorSCM facts;
                     jIncompleteSourceCount := incomplete; jSourceStatusCounts := counts |};
     CollectedCountsMatchFull := (NodeCount s =? zlen (Nodes full)) && (EdgeCount s =? zlen (Edges full)) && (EvidenceCount s =? jiraIssueGraphEvidenceCount (Edges full)) &&
       (SourceCount s =? zlen (Sources full)) && (IncompleteSourceCount s =? jiraIssueGraphIncompleteSourceCount (Sources full)) &&
       equalStringIntMap (SourceStatusCounts s) (jiraIssueGraphSourceStatusCounts (Sources full));
     ProjectedFactCountMatchesFacts := zlen facts =? zlen facts;
     FactClassCountsMatchFacts := zlen facts =? of_class JiraIssueGraphSelectorURLs facts + of_class JiraIssueGraphSelectorSCM facts;
     ProjectedSourceCountMatchesSources := zlen sources =? zlen sources;
     SourceStatusCountsMatchSources := (sum (map snd (map_to_list counts)) =? zlen sources) && equalStringIntMap counts (jiraIssueGraphSourceStatusCounts sources);
     IncompleteCountMatchesSources := incomplete =? incomplete |}.
(** What stays of the sources: all that are incomplete, and with code facts the
    collectors of those. *)
Definition kept_source (selected : list text) (u : ArtifactGraphSource) : bool :=
  negb (uComplete u && (negb (oneOf JiraIssueGraphSelectorSCM selected) || negb (eqt (uKind u) development))).
Definition ProjectJiraIssueGraphCompact (full : JiraIssueGraphResult) (opts : JiraIssueGraphProjectionOptions) : fallible JiraIssueGraphCompactResult :=
  let! _ := ensure (validateJiraGraphV2Result full) ErrCheckFailed in
  let! normalized := NormalizeJiraIssueGraphProjection (Projection opts) (Selectors opts) (IncludeDevelopment (Bounds full)) in
  let! _ := ensure (eqt (Projection normalized) JiraIssueGraphProjectionCompact) ErrUsage in
  let selected := List.filter (λ s, negb (eqt s JiraIssueGraphSelectorNone)) (Selectors normalized) in
  let! facts := facts_loop selected (jiraIssueGraphCompactProvenance full) (Nodes full) in
  let facts := sort_on jiraIssueGraphCompactFactSortKey facts in
  let sources := List.filter (kept_source selected) (Sources full) in
  Ok {| cSchemaVersion := jiraIssueGraphCompactSchemaVersion; cName := JiraIssueGraphProjectionCompact; cSelected := List.filter (λ c, oneOf c selected) jiraIssueGraphFactClasses;
        cOmitted := List.filter (λ c, negb (oneOf c selected)) jiraIssueGraphFactClasses; cRootID := RootID full; cComplete := rComplete full; cTruncated := Truncated full;
        cBounds := Bounds full; cSummary := jiraIssueGraphCompactSummary full facts sources; cFacts := facts; cSources := sources; cFrontier := Frontier full;
        cWarnings := Warnings full; cSourceSelection := SourceSelection full |}.

(** ** What a projection has *)

(** [f] is the node [n], seen in exactly the issues whose edges to it say so. *)
Record describes (full : JiraIssueGraphResult) (f : JiraIssueGraphCompactFact) (n : ArtifactGraphNode) : Prop := {
  describes_node : cNodeID f = nID n ∧ cKind f = nKind n ∧ cState f = nState n ∧ cDepth f = nDepth n ∧ cStability f = nStability n;
  describes_value : cURL f = (if eqt (cClass f) JiraIssueGraphSelectorURLs then nURL n else []) ∧ cSCM f = (if eqt (cClass f) JiraIssueGraphSelectorURLs then None else nSCM n);
  describes_seen : cSourceNodeIDs f ≠ [] ∧ StronglySorted before (cSourceNodeIDs f) ∧
    ∀ s, s ∈ cSourceNodeIDs f ↔ s ≠ [] ∧ ∃ e v, e ∈ Edges full ∧ eTo e = nID n ∧ v ∈ eEvidence e ∧ vSourceNodeID v = s }.
Definition summary_holds (s : JiraIssueGraphCompactSummary) : bool :=
  CollectedCountsMatchFull s && ProjectedFactCountMatchesFacts s && FactClassCountsMatchFacts s && ProjectedSourceCountMatchesSources s && SourceStatusCountsMatchSources s &&
  IncompleteCountMatchesSources s.
(** The facts of [c] are the nodes of the selected classes, its sources the
    incomplete ones and the collectors of code facts, and its summary holds. *)
Record compacts (full : JiraIssueGraphResult) (c : JiraIssueGraphCompactResult) : Prop := {
  compacts_facts : map (λ f, (cNodeID f, cClass f)) (cFacts c) ≡ₚ
    omap (λ n, (λ class, (nID n, class)) <$> fact_class (cSelected c) n) (Nodes full);
  compacts_described : ∀ f, f ∈ cFacts c → ∃ n, n ∈ Nodes full ∧ describes full f n;
  compacts_sources : ∀ u, u ∈ cSources c ↔ u ∈ Sources full ∧ (uComplete u = false ∨ JiraIssueGraphSelectorSCM ∈ cSelected c ∧ uKind u = development);
  compacts_summary : summary_holds (cSummary c) = true;
  compacts_same : cComplete c = rComplete full ∧ cTruncated c = Truncated full ∧ cFrontier c = Frontier full ∧ cRootID c = RootID full }.
Lemma provenance_spec full id s : s ∈ jiraIssueGraphCompactProvenance full id ↔ s ≠ [] ∧ ∃ e v, e ∈ Edges full ∧ eTo e = id ∧ v ∈ eEvidence e ∧ vSourceNodeID v = s.
Proof.
  unfold jiraIssueGraphCompactProvenance, sort_on. rewrite merge_sort_Permutation, elem_of_remove_dups, list_elem_of_In, filter_In, in_concat, negb_true_iff. split.
  - intros [(l & Hl & Hs) Hne%bool_decide_eq_false]. split; [done|]. apply in_map_iff in Hl as (e & <- & He). apply filter_In in He as [He Hid%bool_decide_eq_true].
    apply in_map_iff in Hs as (v & Hv & Hin). exists e, v. by rewrite !list_elem_of_In.
  - intros (Hne & e & v & He & Hid & Hv & Hs). apply list_elem_of_In in He, Hv. split; [|by apply bool_decide_eq_false].
    exists (map vSourceNodeID (eEvidence e)). split; apply in_map_iff; [exists e; split; [done|]; apply filter_In; split; [done|by apply bool_decide_eq_true]|by exists v].
Qed.
Lemma provenance_sorted full id : StronglySorted before (jiraIssueGraphCompactProvenance full id).
Proof.
  unfold jiraIssueGraphCompactProvenance. rewrite <- (list_fmap_id (sort_on _ _)). apply (sort_on_strict (λ s : text, s)). rewrite list_fmap_id. apply NoDup_remove_dups.
Qed.
Lemma facts_loop_spec full selected ns fs : facts_loop selected (jiraIssueGraphCompactProvenance full) ns = Ok fs →
  map (λ f, (cNodeID f, cClass f)) fs = omap (λ n, (λ class, (nID n, class)) <$> fact_class selected n) ns ∧ ∀ f, f ∈ fs → ∃ n, n ∈ ns ∧ describes full f n.
Proof.
  revert fs. induction ns as [|n ns IH]; intros fs; cbn [facts_loop omap list_omap]; [intros [= <-]; split; [done|by intros f ?%elem_of_nil]|].
  destruct (fact_class selected n) as [class|] eqn:Ec; cbn [fmap option_fmap option_map].
  2: { intros [Hm Hd]%IH. split; [done|]. intros f Hf. destruct (Hd f Hf) as (m & Hm' & ?). exists m. split; [by right|done]. }
  set (ids := jiraIssueGraphCompactProvenance full (nID n)).
  assert (∀ f, (if eqt class JiraIssueGraphSelectorURLs then jiraIssueGraphCompactURLFact else jiraIssueGraphCompactSCMFact) n ids = Ok f → cNodeID f = nID n ∧ cClass f = class ∧ describes full f n) as Hone.
  { intros f Hf. assert (ids ≠ [] → StronglySorted before ids ∧ ∀ s, s ∈ ids ↔ s ≠ [] ∧ ∃ e v, e ∈ Edges full ∧ eTo e = nID n ∧ v ∈ eEvidence e ∧ vSourceNodeID v = s) as Hids.
    { intros _. split; [apply provenance_sorted|]. apply provenance_spec. }
    unfold fact_class in Ec. destruct (oneOf _ _ && eqt (nKind n) _); [|destruct (_ && _); [|done]]; injection Ec as <-.
    - change (eqt JiraIssueGraphSelectorURLs JiraIssueGraphSelectorURLs) with true in Hf. cbn iota in Hf. unfold jiraIssueGraphCompactURLFact in Hf.
      destruct ids as [|i is_] eqn:Ei; [done|]. cbn [length Nat.eqb negb ensure rbind] in Hf. destruct (ensure _ _); [|done]. injection Hf as <-. destruct (Hids ltac:(done)) as [Hs1 Hs2]. split; [done|]. split; [done|]. by constructor.
    - change (eqt JiraIssueGraphSelectorSCM JiraIssueGraphSelectorURLs) with false in Hf. cbn iota in Hf. unfold jiraIssueGraphCompactSCMFact in Hf.
      destruct ids as [|i is_] eqn:Ei; [done|]. destruct (ensure _ _); [|done]. injection Hf as <-. destruct (Hids ltac:(done)) as [Hs1 Hs2]. split; [done|]. split; [done|]. by constructor. }
  destruct ((if eqt class _ then _ else _) n ids) as [f|] eqn:Ef; cbn [rbind]; [|done]. destruct (facts_loop _ _ _) as [fs'|]; cbn [rbind]; [|done]. intros [= <-].
  destruct (IH _ eq_refl) as [Hm Hd], (Hone _ eq_refl) as (H1 & H2 & H3). split; [cbn [map]; by rewrite H1, H2, Hm|].
  intros g [->|Hg]%elem_of_cons; [exists n; split; [by left|done]|]. destruct (Hd g Hg) as (m & Hm' & ?). exists m. split; [by right|done].
Qed.
(** *** Counts *)

Lemma sum_perm l l' : l ≡ₚ l' → sum l = sum l'.
Proof. unfold sum. induction 1; cbn; lia. Qed.
Definition total (m : gmap text Z) : Z := sum (map snd (map_to_list m)).
Lemma total_insert m k z : total (<[k := z]> m) = total m - default 0 (m !! k) + z.
Proof.
  unfold total. destruct (m !! k) as [x|] eqn:Ek; cbn [default from_option].
  - rewrite <- insert_delete_eq. rewrite (sum_perm _ _ (Permutation_map snd (map_to_list_insert (delete k m) k z ltac:(by rewrite lookup_delete, decide_True)))).
    rewrite <- (sum_perm _ _ (Permutation_map snd (map_to_list_delete m k x Ek))). cbn [map snd]. unfold sum, id. cbn [fold_right]. lia.
  - rewrite (sum_perm _ _ (Permutation_map snd (map_to_list_insert m k z Ek))). cbn [map snd]. unfold sum. cbn [fold_right]. lia.
Qed.
Lemma total_counts us : total (jiraIssueGraphSourceStatusCounts us) = zlen us.
Proof.
  unfold jiraIssueGraphSourceStatusCounts. assert (∀ m, total (fold_left count_status us m) = total m + zlen us) as Ht; [|rewrite Ht; by vm_compute].
  induction us as [|u us IH]; intros m; cbn [fold_left]; unfold zlen in *; cbn [length]; [lia|]. rewrite IH. unfold count_status. rewrite total_insert. lia.
Qed.
Lemma equal_counts_refl m : equalStringIntMap m m = true.
Proof.
  unfold equalStringIntMap. rewrite Nat.eqb_refl. cbn [andb]. apply forallb_forall. intros [k z] Hk%list_elem_of_In%elem_of_map_to_list. cbn [fst snd]. rewrite Hk. apply Z.eqb_refl.
Qed.
Lemma classes_counted fs : (∀ f, f ∈ fs → cClass f = JiraIssueGraphSelectorURLs ∨ cClass f = JiraIssueGraphSelectorSCM) →
  zlen fs = of_class JiraIssueGraphSelectorURLs fs + of_class JiraIssueGraphSelectorSCM fs.
Proof.
  unfold of_class, zlen. induction fs as [|f fs IH]; intros Hf; cbn [List.filter length]; [lia|]. specialize (IH ltac:(intros g Hg; apply Hf; by right)).
  destruct (Hf f ltac:(by left)) as [E|E]; rewrite !E.
  - change (eqt JiraIssueGraphSelectorURLs JiraIssueGraphSelectorURLs) with true. change (eqt JiraIssueGraphSelectorURLs JiraIssueGraphSelectorSCM) with false. cbn iota. cbn [length]. lia.
  - change (eqt JiraIssueGraphSelectorSCM JiraIssueGraphSelectorURLs) with false. change (eqt JiraIssueGraphSelectorSCM JiraIssueGraphSelectorSCM) with true. cbn iota. cbn [length]. lia.
Qed.
(** The classes a projection names are those it selected. *)
Lemma selected_classes selected class : class ∈ jiraIssueGraphFactClasses → oneOf class (List.filter (λ c, oneOf c selected) jiraIssueGraphFactClasses) = oneOf class selected.
Proof.
  intros Hc. apply eq_true_iff_eq. rewrite (oneOf_spec class (List.filter _ _)), list_elem_of_In, filter_In, <- list_elem_of_In. tauto.
Qed.
Lemma summary_valid_holds full fs us : validateJiraGraphV2Result full = true → (∀ f, f ∈ fs → cClass f = JiraIssueGraphSelectorURLs ∨ cClass f = JiraIssueGraphSelectorSCM) →
  summary_holds (jiraIssueGraphCompactSummary full fs us) = true.
Proof.
  intros Hv Hf. unfold validateJiraGraphV2Result in Hv. apply andb_true_iff in Hv as [_ Hv]. unfold summary_valid in Hv. cbv zeta in Hv. rewrite !andb_true_iff in Hv.
  unfold summary_holds, jiraIssueGraphCompactSummary. cbn [CollectedCountsMatchFull ProjectedFactCountMatchesFacts FactClassCountsMatchFacts ProjectedSourceCountMatchesSources
    SourceStatusCountsMatchSources IncompleteCountMatchesSources]. rewrite !Z.eqb_refl, equal_counts_refl. rewrite <- (classes_counted fs Hf), Z.eqb_refl. fold (total (jiraIssueGraphSourceStatusCounts us)).
  rewrite total_counts, Z.eqb_refl. rewrite !andb_true_iff. tauto.
Qed.
(** C35: A compact projection has a fact for exactly the nodes of the selected
    classes, each as the graph has it and with exactly the issues it was seen in;
    it drops no source that is incomplete, and its summary holds. *)
Theorem compact_exact full opts c : ProjectJiraIssueGraphCompact full opts = Ok c → compacts full c.
Proof.
  unfold ProjectJiraIssueGraphCompact. intros Hc. destruct (validateJiraGraphV2Result full) eqn:Ev; cbn [ensure rbind] in Hc; [|done].
  destruct (NormalizeJiraIssueGraphProjection _ _ _) as [normalized|]; cbn [rbind] in Hc; [|done]. destruct (ensure _ _); cbn [rbind] in Hc; [|done].
  set (selected := List.filter _ (Selectors normalized)) in Hc. destruct (facts_loop selected _ _) as [fs|] eqn:Ef; cbn [rbind] in Hc; [|done]. injection Hc as <-.
  apply facts_loop_spec in Ef as [Hm Hd]. assert (sort_on jiraIssueGraphCompactFactSortKey fs ≡ₚ fs) as Hsort by apply merge_sort_Permutation.
  assert (∀ n, fact_class (List.filter (λ c, oneOf c selected) jiraIssueGraphFactClasses) n = fact_class selected n) as Hclass.
  { intros n. unfold fact_class. rewrite !selected_classes; [done|right; by left|by left]. }
  constructor; cbn [cFacts cSelected cSources cSummary cComplete cTruncated cFrontier cRootID].
  - rewrite Hsort, Hm. apply Permutation_refl'. apply list_omap_ext, Forall2_same_length_lookup. split; [done|]. intros i x y Hx Hy. rewrite Hx in Hy. injection Hy as <-. by rewrite Hclass.
  - intros f Hf. rewrite Hsort in Hf. by apply Hd.
  - intros u. rewrite !list_elem_of_In, filter_In. unfold kept_source. rewrite <- !list_elem_of_In. assert (JiraIssueGraphSelectorSCM ∈ List.filter (λ c, oneOf c selected) jiraIssueGraphFactClasses ↔ oneOf JiraIssueGraphSelectorSCM selected = true) as ->.
    { etrans; [symmetry; apply oneOf_spec|]. by rewrite selected_classes by (right; by left). }
    rewrite negb_true_iff, andb_false_iff, orb_false_iff, !negb_false_iff. unfold eqt at 1. rewrite bool_decide_eq_true. tauto.
  - apply summary_valid_holds; [done|]. intros f Hf. rewrite Hsort in Hf. assert ((cNodeID f, cClass f) ∈ map (λ f, (cNodeID f, cClass f)) fs) as Hin by (apply list_elem_of_fmap; by exists f).
    rewrite Hm in Hin. apply list_elem_of_omap in Hin as (n & _ & Hn). unfold fact_class in Hn. destruct (_ && _); [injection Hn; by left|]. destruct (_ && _); [injection Hn; by right|done].
  - done.
Qed.
End lang.
End GraphProjection.
