(* ===== verification/GraphShape.v ===== *)
(** * The Jira artifact graph: what one issue contributes

    The shape every projection has, whatever the backend answered: edges leave the
    issue itself; an edge along which the traversal goes on ends at a stub of an
    issue; nothing but the issue itself is expanded; and every selected collector
    has a source. *)

From stdpp Require Import vector pretty.
From S2P Require Import Prelude GoText TextOrder Encoding WikiScanner Markdown MdCsf NetUrl MdView GraphTypes Scmref GraphExtract GraphCollect GraphResult GraphTraversal.
Import GoText TextOrder Encoding GraphTypes GraphExtract GraphCollect GraphResult GraphTraversal.

Module GraphShape.
Local Open Scope Z_scope.
Local Open Scope atl_scope.

(** ** Shapes *)

Definition issue_like (id : text) : Prop := has_prefix id issue_prefix = true.
(** A node that nobody has read yet. *)
Definition unread (id : text) (n : ArtifactGraphNode) : Prop :=
  nExpanded n = false ∧ (issue_like id → nKind n = txt "jira_issue" ∧ (nState n = ArtifactNodeStub ∨ nState n = ArtifactNodeUnresolved)).
(** A node that may be linked with an edge of these qualities. *)
Record linkable (n : ArtifactGraphNode) (traversable fact : bool) : Prop := {
  linkable_unread : unread (nID n) n;
  linkable_target : traversable = true → issue_like (nID n) ∧ nState n = ArtifactNodeStub;
  linkable_fact : fact = true → ¬ issue_like (nID n) }.
Definition edge_of (from to kind relationType relation direction confidence stability : text) (vs : list ArtifactGraphEvidence) : ArtifactGraphEdge :=
  {| eID := []; eFrom := from; eTo := to; eKind := kind; eRelationType := relationType; eRelation := relation; eDirection := direction; eCurrent := true;
     eConfidence := confidence; eStability := stability; eEvidence := vs |}.
Record edge_shape (root : text) (nodes : gmap text ArtifactGraphNode) (e : ArtifactGraphEdge) : Prop := {
  shape_from : eFrom e = root;
  shape_target : ∃ n, nodes !! eTo e = Some n ∧ (jiraGraphTraversableEdge e = true → eTo e ≠ root → issue_like (eTo e) ∧ nState n = ArtifactNodeStub);
  shape_fact : is_development (eKind e) = true → ¬ issue_like (eTo e) }.
Record projecting (root : text) (kinds : list text) (depth : Z) (b : jiraGraphBuilder) : Prop := {
  projecting_root : bRootID b = root;
  projecting_self : ∃ n, bNodes b !! root = Some n ∧ nDepth n = depth;
  projecting_kinds : bSourceKinds b = kinds;
  projecting_ids : ∀ id n, bNodes b !! id = Some n → nID n = id;
  projecting_nodes : ∀ id n, bNodes b !! id = Some n → id ≠ root → unread id n;
  projecting_edges : ∀ i e, bEdges b !! i = Some e → edge_shape root (bNodes b) e;
  projecting_sources : ∀ kind, kind ∈ kinds → ∃ u, bSources b !! kind = Some u ∧ uKind u = kind }.

Section shape.
Context `{Lang} (root : text) (kinds : list text) (depth : Z).
Notation projecting := (projecting root kinds depth).

#[local] Arguments on_source : simpl never.
#[local] Arguments completeSource : simpl never.
#[local] Arguments markMalformed : simpl never.
(** ** Operations of the builder *)

Lemma projecting_on_source f source b : (∀ u, uKind (f u) = uKind u) → projecting b → projecting (on_source f source b).
Proof.
  intros Hf []. destruct source as [k|]; [|done]. constructor; try done. intros kind Hk. destruct (projecting_sources0 kind Hk) as (u & Hu & Hk').
  unfold on_source. cbn [bSources set_sources]. rewrite lookup_alter. case_decide as Hd; [subst; rewrite Hu|by eexists]. exists (f u). split; [done|by rewrite Hf].
Qed.
Lemma edge_shape_evidence nodes e vs : edge_shape root nodes e → edge_shape root nodes (with_evidence vs e).
Proof. intros []. by constructor. Qed.
Lemma projecting_addNode n source b : projecting b → unread (nID n) n →
  projecting (addNode n source b).1 ∧
  ((addNode n source b).2 = true → bRootID (addNode n source b).1 = root ∧
     ∃ n', bNodes (addNode n source b).1 !! nID n = Some n' ∧ (nID n ≠ root → nState n = ArtifactNodeStub → issue_like (nID n) → nState n' = ArtifactNodeStub)).
Proof.
  intros Hb Hn. destruct Hb. unfold addNode. destruct (bNodes b !! nID n) as [x|] eqn:Ex.
  - assert (nID n ≠ root → unread (nID n) (sighted x n)) as Hs.
    { intros Hr. destruct (projecting_nodes0 _ _ Ex Hr) as [Hx Hi], Hn as [_ Hn]. split; [done|]. intros Hl. destruct (Hi Hl) as [Hk Hst], (Hn Hl) as [_ Hst']. split; [done|].
      cbn [nState sighted]. by destruct (_ || _). }
    assert (nID n ≠ root → nState n = ArtifactNodeStub → issue_like (nID n) → nState (sighted x n) = ArtifactNodeStub) as Hstub.
    { intros Hr Hst Hl. destruct (projecting_nodes0 _ _ Ex Hr) as [_ Hi]. destruct (Hi Hl) as [_ Hx]. cbn [nState sighted]. rewrite Hst. by destruct Hx as [->| ->]. }
    split; [constructor; try done|].
    + destruct projecting_self0 as (m & Hm & Hd). cbn [fst bNodes set_nodes]. rewrite lookup_insert. case_decide as Hr; [|by eexists]. rewrite Hr in Ex. eexists. split; [done|].
      cbn [nDepth sighted]. congruence.
    + cbn [fst bNodes set_nodes]. intros id m. rewrite lookup_insert. case_decide; [|by apply projecting_ids0]. intros [= <-]. subst. by apply projecting_ids0 in Ex.
    + cbn [fst bNodes set_nodes]. intros id m. rewrite lookup_insert. case_decide; [|by apply projecting_nodes0]. intros [= <-] Hr. subst. by apply Hs.
    + cbn [fst bNodes bEdges set_nodes]. intros i e He. destruct (projecting_edges0 i e He) as [Hf (m & Hm & Ht) Hd]. constructor; [done| |done].
      rewrite lookup_insert. case_decide as Hi; [|by eexists]. eexists. split; [done|]. intros He' Hr. rewrite <- Hi in *. destruct (Ht He' Hr) as [Hl Hst]. split; [done|].
      rewrite Ex in Hm. injection Hm as <-. destruct Hn as [_ Hn]. destruct (Hn Hl) as [_ Hs']. cbn [nState sighted]. rewrite Hst. by destruct Hs' as [-> | ->].
    + intros _. cbn. split; [done|]. rewrite lookup_insert, decide_True by done. by eexists.
  - destruct (_ <=? _); cbn [fst snd]; [split; [|done]; apply projecting_on_source; [done|by constructor]|]. split; [constructor; try done|].
    + destruct projecting_self0 as (m & Hm & Hd). exists m. split; [|done]. cbn [bNodes set_nodes]. rewrite lookup_insert_ne; [done|congruence].
    + cbn [bNodes set_nodes]. intros id m. rewrite lookup_insert. case_decide; [|by apply projecting_ids0]. by intros [= <-].
    + cbn [bNodes set_nodes]. intros id m. rewrite lookup_insert. case_decide; [|by apply projecting_nodes0]. intros [= <-] _. by subst.
    + cbn [bNodes bEdges set_nodes]. intros i e He. destruct (projecting_edges0 i e He) as [Hf (m & Hm & Ht) Hd]. constructor; [done| |done].
      exists m. split; [|done]. rewrite lookup_insert_ne; [done|congruence].
    + intros _. cbn. split; [done|]. rewrite lookup_insert, decide_True by done. by eexists.
Qed.
Lemma projecting_addEdge e source b : projecting b → edge_shape root (bNodes b) e → projecting (addEdge e source b).1.
Proof.
  intros Hb He. assert (edge_shape root (bNodes b) (identified e)) as Hi by (by destruct He; constructor).
  assert (∀ i x c, edge_shape root (bNodes b) x → projecting (set_edges (<[i := x]> (bEdges b)) c b)) as Hput.
  { intros i x c Hx. destruct Hb. constructor; try done. cbn [bEdges bNodes set_edges]. intros j y. rewrite lookup_insert. case_decide; [by intros [= <-]|by apply projecting_edges0]. }
  unfold addEdge. cbv zeta. destruct (bEdges b !! _) as [x|] eqn:Ex.
  - assert (edge_shape root (bNodes b) x) as Hx by (destruct Hb; eauto). destruct (add_evidence _ _ _ _) as [[kept count] []]; cbn [fst].
    + by apply Hput, edge_shape_evidence.
    + apply projecting_on_source; [done|]. by destruct Hb; constructor.
  - destruct (_ || _); cbn [fst]; [by apply projecting_on_source|by apply Hput].
Qed.
Lemma projecting_link n kind rt rel dir conf stab v source b :
  linkable n (jiraGraphTraversableEdge (edge_of root (nID n) kind rt rel dir conf stab [v])) (is_development kind) → projecting b →
  projecting (link n kind rt rel dir conf stab v source b).
Proof.
  intros [Hu Ht Hf] Hb. unfold link. destruct (projecting_addNode n source b Hb Hu) as [H1 H2]. destruct (addNode n source b) as [b' []]; cbn [fst snd] in *; [|done].
  destruct (H2 eq_refl) as (Hr & n' & Hn' & Hs). rewrite Hr. apply (projecting_addEdge (edge_of root (nID n) kind rt rel dir conf stab [v])); [done|].
  constructor; [done| |done]. exists n'. split; [done|]. cbn [eTo edge_of]. intros Htr Hne. destruct (Ht Htr) as [Hl Hst]. split; [done|by apply Hs].
Qed.

(** ** Loops *)

Lemma rows_loop_ind {S : Type} (P : S → Prop) f i rows s : (∀ i v s, P s → P (f i v s)) → P s → P (rows_loop f i rows s).
Proof. intros Hf. revert i s. induction rows as [|r rows IH]; intros i s Hs; cbn [rows_loop]; [done|]. by apply IH, Hf. Qed.
Lemma fold_left_ind {A B} (P : A → Prop) (f : A → B → A) l a : (∀ a b, P a → P (f a b)) → P a → P (fold_left f l a).
Proof. intros Hf. revert a. induction l as [|b l IH]; intros a Ha; cbn [fold_left]; [done|]. by apply IH, Hf. Qed.
Lemma fold_left_in {A B} (P : A → Prop) (f : A → B → A) l a : (∀ a b, b ∈ l → P a → P (f a b)) → P a → P (fold_left f l a).
Proof. revert a. induction l as [|b l IH]; intros a Hf Ha; cbn [fold_left]; [done|]. apply IH; [intros; apply Hf; [by right|done]|]. apply Hf; [by left|done]. Qed.
Section walk.
Context {A : Type} (P : A → Prop) (visit : value → text → bool → A → A) (visit_ok : ∀ v p c a, P a → P (visit v p c a)) (allowBare skip : bool).
Lemma walk_items_ind walk pointer i items s : (∀ v p s, P s.2 → P (walk v p s).2) → P s.2 → P (walk_items (A := A) walk pointer i items s).2.
Proof.
  intros Hw. revert i s. induction items as [|v vs IH]; intros i s Hs; cbn [walk_items]; [done|]. destruct (_ <? _); [done|]. by apply IH, Hw.
Qed.
Lemma walk_members_ind walk pointer members keys s : (∀ v p s, P s.2 → P (walk v p s).2) → P s.2 → P (walk_members (A := A) skip walk pointer members keys s).2.
Proof.
  intros Hw. revert s. induction keys as [|k ks IH]; intros s Hs; cbn [walk_members]; [done|]. destruct (_ && _); [by apply IH|]. destruct (_ <? _); [done|]. by apply IH, Hw.
Qed.
Lemma walk_ind levels v pointer s : P s.2 → P (walk visit allowBare skip levels v pointer s).2.
Proof.
  revert v pointer s. induction levels as [|levels IH]; intros v pointer [b a] Ha; cbn [walk]; destruct (Clipped b); try done.
  destruct (_ <? _); [done|]. destruct v; try (cbn; by auto).
  - destruct (_ <=? _); [done|]. destruct (consume _ _) as [? []]; cbn; auto.
  - destruct (consume _ _) as [? []]; cbn; auto.
  - destruct (consume _ _) as [? []]; cbn; auto.
  - destruct (_ <? _); [done|]. destruct (consume _ _) as [? []]; [|done]. by apply walk_items_ind.
  - destruct (_ <? _); [done|]. destruct (consume _ _) as [? []]; [|done]. destruct (consume_keys _ _) as [? []]; [|done]. by apply walk_members_ind.
Qed.
End walk.

(** ** References *)

Definition sound_reference (r : graphReference) : Prop := unread (nID (Node r)) (Node r).
Lemma unread_issue n key state : nID n = issue_id key → nKind n = txt "jira_issue" → nExpanded n = false → nState n = state →
  (state = ArtifactNodeStub ∨ state = ArtifactNodeUnresolved) → unread (nID n) n.
Proof. intros _ Hk He <- Hs. by split. Qed.
Lemma unread_other id n : nExpanded n = false → has_prefix id issue_prefix = false → unread id n.
Proof. intros He Hp. split; [done|]. unfold issue_like. by rewrite Hp. Qed.
Lemma normalize_sound raw jira confluence r : normalizeGraphURL raw jira confluence = Some r → sound_reference r.
Proof.
  unfold normalizeGraphURL. destruct (_ <? _); [done|]. destruct (url_Parse raw) as [u|]; [|done]. cbn [mbind option_bind]. destruct (_ || _); [done|]. cbv zeta.
  match goal with |- context [MdCsf.PathUnescape ?c] => destruct (MdCsf.PathUnescape c) as [path|]; [|done] end. cbn [mbind option_bind]. destruct (_ <? _); [done|]. intros [= <-].
  destruct (if sameGraphOrigin _ _ jira then _ else _) as [key|]; [eapply unread_issue; try done; by left|].
  match goal with |- context [negb (eqt ?id [])] => destruct (negb (eqt id [])) end; [by apply unread_other|]. destruct (graphSensitivePath path); by apply unread_other.
Qed.
Lemma distinct_references_in r seen rs : r ∈ distinct_references seen rs → r ∈ rs.
Proof.
  revert seen. induction rs as [|x rs IH]; intros seen; cbn [distinct_references]; [done|]. destruct (_ || _); [intros Hr; right; by eapply IH|].
  intros [->|Hr]%elem_of_cons; [by left|right; by eapply IH].
Qed.
Lemma extract_sound t jira confluence bare r : r ∈ extractGraphReferences t jira confluence bare → sound_reference r.
Proof.
  unfold extractGraphReferences. cbv zeta. rewrite merge_sort_Permutation. intros Hr%distinct_references_in. apply elem_of_app in Hr as [Hr|Hr].
  - apply list_elem_of_fmap in Hr as (p & -> & _). destruct (normalizeGraphURL _ jira confluence) as [x|] eqn:E; [by eapply normalize_sound|]. by apply unread_other.
  - destruct bare; [|by apply elem_of_nil in Hr]. apply elem_of_app in Hr as [Hr|Hr]; apply list_elem_of_fmap in Hr as (p & -> & _).
    + eapply unread_issue; try done. by right.
    + destruct (match_page _ _) as [[]|]; by apply unread_other.
Qed.

(** ** Collectors *)

Lemma linkable_unread_only n traversable fact : unread (nID n) n → traversable = false → fact = false → linkable n traversable fact.
Proof. intros Hn -> ->. by constructor. Qed.
Lemma linkable_stub key traversable : linkable (stub_issue key) traversable false.
Proof. constructor; try done. eapply unread_issue; try done. by left. Qed.
Hint Resolve projecting_on_source linkable_stub : core.
Lemma projecting_malformed k b : projecting b → projecting (markMalformed k b). Proof. by apply projecting_on_source. Qed.
Lemma projecting_counted n k b : projecting b → projecting (on_source (counted n) k b). Proof. by apply projecting_on_source. Qed.
Lemma projecting_unsupported k b : projecting b → projecting (on_source unsupported k b). Proof. by apply projecting_on_source. Qed.
Lemma projecting_complete k b : projecting b → projecting (completeSource k b).
Proof. apply projecting_on_source. intros u. unfold completed. by destruct (negb _). Qed.
Lemma projecting_limit k b : projecting b → projecting (markInspectionLimit k b). Proof. by apply projecting_on_source. Qed.
Lemma projecting_auxiliary ctx k e c b b' : qualifyAuxiliaryError ctx k e c b = Ok b' → projecting b → projecting b'.
Proof.
  unfold qualifyAuxiliaryError. destruct ctx; [done|]. intros [= <-]. apply (projecting_on_source (qualify_error e c) (Some k)). intros u. unfold qualify_error. cbv zeta. by repeat case_match.
Qed.
Hint Resolve projecting_malformed projecting_counted projecting_unsupported projecting_complete projecting_limit : core.

Lemma projecting_links snapshot b : projecting b → projecting (collectIssueLinks snapshot b).
Proof.
  intros Hb. unfold collectIssueLinks. destruct (field _ _); auto. apply projecting_complete. apply (rows_loop_ind (λ s, projecting s.2)); [|cbn; auto].
  intros i v [seen b'] Hb'. cbn [snd] in *. unfold link_row. cbv zeta. repeat case_match; cbn [snd]; auto; by apply projecting_link.
Qed.
Definition target_kind (kind : text) : Prop := is_development kind = false.
Lemma projecting_addTarget key kind pointer s : target_kind kind → projecting (h_builder s) → projecting (h_builder (addTarget key kind pointer s)).
Proof.
  intros Hk Hs. unfold addTarget. cbv zeta. destruct (_ || _); cbn [h_builder count_malformed]; [auto|]. apply projecting_link; [|done]. rewrite Hk. apply linkable_stub.
Qed.
Lemma projecting_family snapshot kind pointer v s : target_kind kind → projecting (h_builder s) → projecting (h_builder (family snapshot kind pointer v s)).
Proof.
  intros Hk Hs. unfold family. destruct (graphStrictPositiveID _); [|cbn; auto]. destruct (graphStrictString _); [|cbn; auto]. destruct (_ || _); [cbn; auto|].
  by apply projecting_addTarget.
Qed.
Lemma projecting_hierarchy snapshot b : projecting b → projecting (collectHierarchy snapshot b).
Proof.
  intros Hb. unfold collectHierarchy. cbv zeta. apply projecting_complete, projecting_counted. apply (fold_left_ind (λ s, projecting (h_builder s))).
  - intros s m Hs. unfold epic_field. cbv zeta. destruct (_ && _); [done|]. destruct (field _ _); try done; (destruct (graphStrictString _); [by apply projecting_addTarget|cbn; auto]).
  - set (s1 := match field snapshot (txt "parent") with VNull => _ | _ => _ end).
    assert (projecting (h_builder s1)) as H1 by (unfold s1; destruct (field snapshot (txt "parent")); try done; by apply projecting_family).
    destruct (field snapshot (txt "subtasks")); cbn [h_builder count_malformed]; auto.
    apply (rows_loop_ind (λ s, projecting (h_builder s))); [|done]. intros i v s Hs. by apply projecting_family.
Qed.
Lemma projecting_attachments snapshot b : projecting b → projecting (collectAttachments snapshot b).
Proof.
  intros Hb. unfold collectAttachments. destruct (field _ _); auto. apply projecting_complete. apply (rows_loop_ind (λ s, projecting s.2)); [|cbn; auto].
  intros i v [seen b'] Hb'. cbn [snd] in *. unfold attachment_row. cbv zeta. destruct (graphStrictPositiveID _); [|cbn; auto]. destruct (graphStrictString _); [|cbn; auto].
  destruct (_ || _); cbn [snd]; [auto|]. apply projecting_link; [|done]. apply linkable_unread_only; [by apply unread_other|done..].
Qed.
Lemma projecting_references k t pointer bare b : projecting b → projecting (addTextReferences k t pointer bare b).
Proof.
  intros Hb. unfold addTextReferences. apply fold_left_in; [|done]. intros b' r Hr%extract_sound Hb'. unfold add_reference. destruct (eqt _ _); [done|].
  apply projecting_link; [|done]. by apply linkable_unread_only.
Qed.
Lemma projecting_value k v pointer bare b : projecting b → projecting (addValueReferences k v pointer bare b).
Proof.
  intros Hb. unfold addValueReferences. cbv zeta.
  assert (∀ b, projecting b → projecting match v with VString t => addTextReferences k t pointer bare b | _ => b end) as Ht by (intros b' Hb'; destruct v; try done; by apply projecting_references).
  destruct (EqualFold _ _); [|by apply Ht]. destruct (graphStrictPositiveID v); [|auto]. apply Ht, projecting_link; [|done]. apply linkable_unread_only; [by apply unread_other|done..].
Qed.
Lemma projecting_walk k v pointer bare budget b : projecting b → projecting (walkGraphValue (addValueReferences k) v pointer bare budget b).2.
Proof. intros Hb. unfold walkGraphValue, walkGraphValueWithKeyPolicy. apply walk_ind; [|done]. intros. by apply projecting_value. Qed.
Lemma projecting_inspected source s : projecting s.2 → projecting (inspected source s).
Proof. intros Hs. unfold inspected. apply projecting_complete. destruct (Clipped _); auto. Qed.
Hint Resolve projecting_walk projecting_inspected : core.
Lemma projecting_field_inspection snapshot s id : projecting s.2 → projecting (field_inspection snapshot s id).2.
Proof. destruct s as [inspections b]. cbn [snd]. intros Hb. unfold field_inspection. cbv zeta. repeat case_match; cbn [snd]; auto. Qed.
Lemma projecting_fields snapshot jira confluence b : projecting b → projecting (collectSnapshotFields snapshot jira confluence b).
Proof.
  intros Hb. unfold collectSnapshotFields. cbv zeta. destruct (graphSortedSourceKeys _ _ _) as [budget ids].
  destruct (fold_left (field_inspection snapshot) _ _) as [inspections b'] eqn:E. apply projecting_inspected. apply (fold_left_ind (λ s, projecting s.2)).
  - intros s i Hs. unfold inspect_field. destruct (Clipped _); [done|]. by apply projecting_walk.
  - change b' with (inspections, b').2. rewrite <- E. apply (fold_left_ind (λ s, projecting s.2)); [|cbn; auto]. intros. by apply projecting_field_inspection.
Qed.
Lemma projecting_properties snapshot jira confluence b : projecting b → projecting (collectSnapshotProperties snapshot jira confluence b).
Proof.
  intros Hb. unfold collectSnapshotProperties. cbv zeta. destruct (graphSortedSourceKeys _ _ _) as [budget ids]. apply projecting_inspected.
  apply (fold_left_ind (λ s, projecting s.2)); [|cbn; auto]. intros s i Hs. unfold inspect_property. destruct (Clipped _); [done|]. by apply projecting_walk.
Qed.
Lemma projecting_text snapshot jira confluence b : projecting b → projecting (collectSnapshotText snapshot jira confluence b).
Proof.
  intros Hb. unfold collectSnapshotText. cbv zeta. destruct (has_source b issue_fields); (destruct (has_source _ issue_properties); [apply projecting_properties|]);
    try done; by apply projecting_fields.
Qed.
Lemma projecting_entries source entry name jira confluence count es b : projecting b → projecting (collect_entries source entry name jira confluence count es b).
Proof.
  intros Hb. unfold collect_entries. apply projecting_inspected. apply (fold_left_ind (λ s : list text * (graphExtractBudget * jiraGraphBuilder), projecting s.2.2)); [|cbn; auto].
  intros [seen [budget b']] x Hb'. cbn [snd] in *. unfold inspect_entry. destruct (_ || _); cbn [snd]; auto.
Qed.
Lemma projecting_comments r jira confluence b b' : collectComments r jira confluence b = Ok b' → projecting b → projecting b'.
Proof.
  unfold collectComments. destruct (answer r) as [[cs|]|e]; [intros [= <-] Hb..|by apply projecting_auxiliary]; [by apply projecting_entries|by apply projecting_malformed].
Qed.
Lemma projecting_worklogs r jira confluence b b' : collectWorklogs r jira confluence b = Ok b' → projecting b → projecting b'.
Proof.
  unfold collectWorklogs. destruct r as [r|]; [|intros [= <-]; by apply projecting_unsupported].
  destruct (answer r) as [[i|]|e]; [|intros [= <-]; by apply projecting_malformed|by apply projecting_auxiliary].
  destruct (_ || _); intros [= <-] Hb; [by apply projecting_malformed|by apply projecting_entries].
Qed.
Lemma projecting_remote_loop jira confluence i seen ls b : projecting b → projecting (remote_loop jira confluence i seen ls b).
Proof.
  revert i seen b. induction ls as [|l ls IH]; intros i seen b Hb; cbn [remote_loop]; [done|]. destruct (_ || _); [apply IH; auto|]. cbv zeta. apply IH.
  destruct (normalizeGraphURL _ _ _) as [r|] eqn:E; [|auto]. destruct (eqt _ _); [auto|]. apply projecting_link; [|done]. apply linkable_unread_only; [|done..].
  apply normalize_sound in E as [He Hi]. by split.
Qed.
Lemma projecting_remote r jira confluence b b' : collectRemoteLinks r jira confluence b = Ok b' → projecting b → projecting b'.
Proof.
  unfold collectRemoteLinks. destruct r as [r|]; [|intros [= <-]; by apply projecting_unsupported]. destruct (answer r) as [i|e].
  - destruct (_ || _); intros [= <-] Hb; [by apply projecting_malformed|]. apply projecting_complete. destruct (0 <? _); [apply projecting_malformed|]; by apply projecting_remote_loop, projecting_counted.
  - destruct (qualifyAuxiliaryError _ _ _ _ _) as [b1|] eqn:E; cbn [rbind]; [|done]. intros [= <-] Hb. apply (projecting_on_source (diagnosed e) (Some remote_links)); [|by eapply projecting_auxiliary].
    intros u. unfold diagnosed. cbv zeta. by destruct (validJiraGraphRemoteLinkFailure _).
Qed.
Lemma projecting_fact kind host path sha branch iid state b : kind ∈ ["project"; "commit"; "branch"; "merge_request"]%string → projecting b →
  projecting (addDevelopmentFact kind host path sha branch iid state b).
Proof.
  intros Hk Hb. unfold addDevelopmentFact. cbv zeta.
  apply projecting_link; [|done]. constructor; cbn [nID]; [by apply unread_other|..].
  - intros Ht. exfalso. unfold jiraGraphTraversableEdge in Ht. cbn [eKind edge_of] in Ht. revert Ht. rewrite !elem_of_cons, elem_of_nil in Hk. by destruct Hk as [->|[->|[->|[->|[]]]]].
  - intros _. by unfold issue_like.
Qed.
Lemma projecting_development r b b' : collectDevelopment r b = Ok b' → projecting b → projecting b'.
Proof.
  unfold collectDevelopment. destruct r as [r|]; [|intros [= <-]; by apply projecting_unsupported]. destruct (answer r) as [i|e]; [|by apply projecting_auxiliary].
  destruct (validateJiraDevelopmentInventory i) as [j|]; [|intros [= <-]; by apply projecting_malformed]. cbv zeta. intros [= <-] Hb. apply projecting_complete.
  repeat (apply (fold_left_ind projecting); [intros; apply projecting_fact; [rewrite !elem_of_cons; tauto|done]|]). by apply projecting_counted.
Qed.
Lemma projecting_when kind f b b' : when_source kind f b = Ok b' → (∀ b b', f b = Ok b' → projecting b → projecting b') → projecting b → projecting b'.
Proof. unfold when_source. destruct (has_source b kind); [|by intros [= <-]]. intros Hf Hp. by apply Hp. Qed.

(** ** One issue *)

(** What the traversal is told about an issue at [depth]. *)
Record projection (p : jiraGraphBuilder) : Prop := {
  projection_projecting : projecting p;
  projection_depth : ∀ id n, bNodes p !! id = Some n → id ≠ root → nDepth n = depth + 1;
  projection_placed : ∀ kind u, bSources p !! kind = Some u → uNodeID u = root }.
Lemma projecting_new n b : nID n = root → nDepth n = depth → b = newJiraGraphBuilderWithSources root kinds → projecting (addNode n None b).1.
Proof.
  intros Hn Hd ->. unfold addNode. cbn [bNodes newJiraGraphBuilderWithSources]. rewrite lookup_empty, map_size_empty. change (jiraGraphMaxNodes <=? Z.of_nat 0) with false. cbn iota. cbn [fst]. constructor; try done; cbn [fst bNodes bEdges bSources set_nodes newJiraGraphBuilderWithSources].
  - exists n. split; [|done]. by rewrite lookup_insert, decide_True.
  - intros id m. rewrite lookup_insert. case_decide; [by intros [= <-]|by rewrite lookup_empty].
  - intros id m. rewrite lookup_insert. case_decide; [intros [= <-]; congruence|by rewrite lookup_empty].
  - intros kind Hk. exists (fresh_source root kind). split; [|done]. revert Hk. induction kinds as [|k ks IH]; [by intros ?%elem_of_nil|]. cbn [map].
    intros Hk. rewrite list_to_map_cons, lookup_insert. case_decide; [by subst|]. apply elem_of_cons in Hk as [->|Hk]; [done|by apply IH].
Qed.
Lemma collect_projection reads jira confluence snapshot p : collectJiraGraphV2Node reads jira confluence snapshot root depth kinds = Ok p → projection p.
Proof.
  unfold collectJiraGraphV2Node. intros Hp. set (b0 := (addNode _ None _).1) in Hp. assert (projecting b0) as H0 by by apply projecting_new. clearbody b0.
  destruct (when_source issue_links _ b0) as [b1|] eqn:E1; cbn [rbind] in Hp; [|done]. eapply projecting_when in E1; [|intros b b' [= <-]; apply projecting_links|done].
  destruct (when_source hierarchy _ b1) as [b2|] eqn:E2; cbn [rbind] in Hp; [|done]. eapply projecting_when in E2; [|intros b b' [= <-]; apply projecting_hierarchy|done].
  destruct (when_source attachments _ b2) as [b3|] eqn:E3; cbn [rbind] in Hp; [|done]. eapply projecting_when in E3; [|intros b b' [= <-]; apply projecting_attachments|done].
  apply (projecting_text snapshot jira confluence) in E3.
  destruct (when_source comments _ _) as [b4|] eqn:E4; cbn [rbind] in Hp; [|done]. eapply projecting_when in E4; [|intros b b'; apply projecting_comments|done].
  destruct (when_source worklogs _ b4) as [b5|] eqn:E5; cbn [rbind] in Hp; [|done]. eapply projecting_when in E5; [|intros b b'; apply projecting_worklogs|done].
  destruct (when_source remote_links _ b5) as [b6|] eqn:E6; cbn [rbind] in Hp; [|done]. eapply projecting_when in E6; [|intros b b'; apply projecting_remote|done].
  destruct (when_source development _ b6) as [b|] eqn:E7; cbn [rbind] in Hp; [|done]. eapply projecting_when in E7; [|intros x y; apply projecting_development|done].
  injection Hp as <-. destruct E7. constructor; [constructor|..]; cbn [bRootID bNodes bEdges bSources bSourceKinds]; try done.
  - destruct projecting_self0 as (n & Hn & Hd). exists n. split; [|done]. rewrite map_lookup_imap, Hn. cbn. unfold eqt. by rewrite bool_decide_eq_true_2.
  - intros id n. rewrite map_lookup_imap. destruct (bNodes b !! id) as [m|] eqn:Em; [|done]. cbn. intros [= <-]. apply projecting_ids0 in Em. by destruct (eqt id root).
  - intros id n. rewrite map_lookup_imap. destruct (bNodes b !! id) as [m|] eqn:Em; [|done]. cbn. intros [= <-] Hr. destruct (projecting_nodes0 _ _ Em Hr) as [He Hi]. by destruct (eqt id root).
  - intros i e. rewrite lookup_fmap. destruct (bEdges b !! i) as [x|] eqn:Ex; [|done]. cbn. intros [= <-]. destruct (projecting_edges0 _ _ Ex) as [Hf (n & Hn & Ht) Hd]. constructor; [done| |done].
    cbn [eTo with_evidence]. rewrite map_lookup_imap, Hn. cbn. eexists. split; [done|]. intros Htr Hr. destruct (Ht Htr Hr) as [Hl Hs]. split; [done|]. by destruct (eqt _ root).
  - intros kind Hk. destruct (projecting_sources0 kind Hk) as (u & Hu & Hk'). exists (placed root (Some depth) u). by rewrite lookup_fmap, Hu.
  - intros id n. rewrite map_lookup_imap. destruct (bNodes b !! id) as [m|] eqn:Em; [|done]. cbn. intros [= <-] Hr. unfold eqt. by rewrite bool_decide_eq_false_2.
  - intros kind u. rewrite lookup_fmap. destruct (bSources b !! kind); [|done]. by intros [= <-].
Qed.
End shape.
End GraphShape.
