(* ===== verification/GraphAlias.v ===== *)
(** * The Jira artifact graph: the names of moved issues

    An issue that moved is an alias of its new name.  The chains of aliases end,
    so the search along them finds their end; a new alias redirects what ended at
    the old name. *)

From stdpp Require Import vector pretty.
From S2P Require Import Prelude GoText TextOrder Encoding WikiScanner Markdown NetUrl MdView GraphTypes Scmref GraphExtract GraphCollect GraphResult GraphTraversal GraphShape.
Import GoText TextOrder Encoding GraphTypes GraphExtract GraphCollect GraphResult GraphTraversal GraphShape.

Module GraphAlias.
Local Open Scope Z_scope.
Local Open Scope atl_scope.

(** ** Chains *)

Inductive leads (m : gmap text text) : list text → text → text → Prop :=
| leads_end x : m !! x = None → leads m [] x x
| leads_on x y l z : m !! x = Some y → leads m l y z → leads m (x :: l) x z.
Record aliasing (m : gmap text text) : Prop := {
  aliasing_ends : ∀ x, ∃ l y, leads m l x y;
  aliasing_issues : ∀ x y, m !! x = Some y → issue_like x ∧ issue_like y }.

Lemma issue_like_nonempty x : issue_like x → x ≠ [].
Proof. by intros Hx ->. Qed.
Lemma leads_unique m l l' x y y' : leads m l x y → leads m l' x y' → l = l' ∧ y = y'.
Proof.
  intros Hl. revert l' y'. induction Hl as [x Hx|x z l y Hx Hl IH]; intros l' y' H'; inversion H' as [? Hx'|? z' l0 ? Hx' Hl']; subst; try congruence; [done|].
  rewrite Hx in Hx'. injection Hx' as <-. by destruct (IH _ _ Hl') as [-> ->].
Qed.
Lemma leads_suffix m l x y z : leads m l x y → z ∈ l → ∃ l', leads m l' z y ∧ (length l' ≤ length l)%nat ∧ l' ≠ [].
Proof.
  induction 1 as [x Hx|x w l y Hx Hl IH]; [by intros ?%elem_of_nil|]. intros [->|Hz]%elem_of_cons; [exists (x :: l); split; [by econstructor|done]|].
  destruct (IH Hz) as (l' & H' & Hn & Hne). exists l'. cbn [length]. split; [done|]. split; [lia|done].
Qed.
Lemma leads_distinct m l x y : leads m l x y → NoDup l ∧ ∀ z, z ∈ l → is_Some (m !! z).
Proof.
  induction 1 as [x Hx|x w l y Hx Hl [IH1 IH2]]; [split; [constructor|by intros ? ?%elem_of_nil]|]. split.
  - constructor; [|done]. intros Hin. destruct (leads_suffix _ _ _ _ _ Hl Hin) as (l' & H' & Hn & _).
    destruct (leads_unique m l' (x :: l) x y y H') as [-> _]; [by econstructor|]. cbn in Hn. lia.
  - intros z [->|Hz]%elem_of_cons; [by eexists|by apply IH2].
Qed.
Lemma leads_short m l x y : leads m l x y → (length l ≤ size m)%nat.
Proof.
  intros [Hd Hm]%leads_distinct. rewrite <- size_dom, <- (size_list_to_set (C := gset text) l Hd). apply subseteq_size. intros z Hz%elem_of_list_to_set. apply elem_of_dom. by apply Hm.
Qed.
Lemma leads_stop m l x y : leads m l x y → m !! y = None.
Proof. by induction 1. Qed.
Lemma leads_canonical m l x y fuel seen : aliasing m → leads m l x y → (length l < fuel)%nat → (∀ z, z ∈ l → z ∉ seen) → canonical_loop fuel m seen x = y.
Proof.
  intros Hm Hl. revert fuel seen. induction Hl as [x Hx|x w l y Hx Hl IH]; intros fuel seen Hf Hs; (destruct fuel as [|fuel]; [cbn in Hf; lia|]); cbn [canonical_loop].
  - rewrite Hx. cbn [default from_option]. rewrite orb_true_r. done.
  - rewrite Hx. cbn [default from_option]. destruct (aliasing_issues _ Hm _ _ Hx) as [Hxi%issue_like_nonempty Hwi%issue_like_nonempty].
    unfold eqt, oneOf. rewrite !bool_decide_eq_false_2 by done. assert (existsb (eqt x) seen = false) as ->.
    { apply not_true_iff_false. rewrite existsb_exists. intros (z & Hz & Hxz). apply bool_decide_eq_true in Hxz as <-. apply (Hs x); [by left|by apply list_elem_of_In]. }
    cbn [orb]. apply IH; [cbn in Hf; lia|]. intros z Hz [->|Hz']%elem_of_cons; [|by apply (Hs z); [right|]].
    assert (NoDup (x :: l)) as Hd by (eapply leads_distinct; by econstructor). by inversion Hd.
Qed.

(** ** The canonical name *)

Section names.
Context (b : jiraGraphV2Builder) (names : aliasing (gAliases b)).
Lemma canonical_leads x : ∃ l, leads (gAliases b) l x (canonicalNodeID b x).
Proof.
  destruct (aliasing_ends _ names x) as (l & y & Hl). exists l. enough (canonicalNodeID b x = y) as -> by done. unfold canonicalNodeID.
  apply (leads_canonical _ l); [done..| |by intros ? _ ?%elem_of_nil]. apply leads_short in Hl. lia.
Qed.
Lemma canonical_is l x y : leads (gAliases b) l x y → canonicalNodeID b x = y.
Proof. intros Hl. destruct (canonical_leads x) as [l' Hl']. by destruct (leads_unique _ _ _ _ _ _ Hl Hl'). Qed.
Lemma canonical_end x : gAliases b !! canonicalNodeID b x = None.
Proof. destruct (canonical_leads x) as [l Hl]. by eapply leads_stop. Qed.
Lemma canonical_same x : gAliases b !! x = None → canonicalNodeID b x = x.
Proof. intros Hx. apply (canonical_is []). by constructor. Qed.
Lemma canonical_other x : ¬ issue_like x → canonicalNodeID b x = x.
Proof. intros Hx. apply canonical_same. destruct (gAliases b !! x) as [y|] eqn:E; [|done]. by destruct (aliasing_issues _ names _ _ E). Qed.
Lemma canonical_issue x : issue_like x → issue_like (canonicalNodeID b x).
Proof.
  intros Hx. destruct (canonical_leads x) as [l Hl]. revert Hx. generalize (canonicalNodeID b x) Hl. clear -names. intros y Hl.
  induction Hl as [x Hx|x w l y Hx Hl IH]; [done|]. intros _. apply IH. by eapply aliasing_issues.
Qed.
Lemma canonical_was_issue x : issue_like (canonicalNodeID b x) → issue_like x.
Proof. intros Hc. destruct (decide (issue_like x)) as [|Hx]; [done|]. by rewrite canonical_other in Hc. Qed.

(** ** A new alias *)

Context (old new : text) (old_end : gAliases b !! old = None) (new_end : gAliases b !! new = None) (apart : old ≠ new) (old_issue : issue_like old) (new_issue : issue_like new).
Definition redirect (x : text) : text := if decide (x = old) then new else x.
Lemma leads_redirect l x y : leads (gAliases b) l x y → ∃ l', leads (<[old := new]> (gAliases b)) l' x (redirect y).
Proof.
  assert (∀ x y, gAliases b !! x = Some y → <[old := new]> (gAliases b) !! x = Some y) as Hkeep by (intros; rewrite lookup_insert_ne; [done|congruence]).
  unfold redirect. induction 1 as [x Hx|x w l y Hx Hl [l' IH]].
  - case_decide as Hd; [subst|exists []; constructor; by rewrite lookup_insert_ne]. exists [old]. econstructor; [by rewrite lookup_insert, decide_True|].
    constructor. by rewrite lookup_insert_ne.
  - eexists. econstructor; [by apply Hkeep|done].
Qed.
Lemma aliasing_insert : aliasing (<[old := new]> (gAliases b)).
Proof.
  constructor.
  - intros x. destruct (canonical_leads x) as [l Hl]. destruct (leads_redirect _ _ _ Hl) as [l' Hl']. by eexists _, _.
  - intros x y. rewrite lookup_insert. case_decide; [intros [= <-]; by subst|by apply aliasing_issues].
Qed.
End names.
Lemma canonical_redirect b b' old new x : aliasing (gAliases b) → gAliases b' = <[old := new]> (gAliases b) → gAliases b !! old = None → gAliases b !! new = None → old ≠ new →
  issue_like old → issue_like new → canonicalNodeID b' x = redirect old new (canonicalNodeID b x).
Proof.
  intros Hb Hb' Ho Hn Hne Hoi Hni. destruct (canonical_leads b Hb x) as [l Hl]. destruct (leads_redirect b old new Ho Hn Hne _ _ _ Hl) as [l' Hl'].
  apply (canonical_is b' ltac:(rewrite Hb'; by apply aliasing_insert) l'). by rewrite Hb'.
Qed.

(** ** Keys of sources *)

Lemma source_key_inj id id' kind kind' : "000"%char ∉ kind → "000"%char ∉ kind' → graphV2SourceKey id kind = graphV2SourceKey id' kind' → id = id' ∧ kind = kind'.
Proof.
  unfold graphV2SourceKey, nul. intros Hk Hk' He. apply app_eq_app in He as [l [[-> He]|[-> He]]].
  - destruct l as [|c l]; [by simplify_eq/=; rewrite app_nil_r|]. injection He as <- ->. destruct Hk'. apply elem_of_app. right. by left.
  - destruct l as [|c l]; [by simplify_eq/=; rewrite app_nil_r|]. injection He as <- ->. destruct Hk. apply elem_of_app. right. by left.
Qed.
Lemma source_kind_plain kind : kind ∈ jiraGraphSourceKinds true → "000"%char ∉ kind.
Proof.
  intros Hk. assert (forallb (λ k : text, bool_decide ("000"%char ∉ k)) (jiraGraphSourceKinds true) = true) as Ha by done.
  rewrite forallb_forall in Ha. apply list_elem_of_In, Ha in Hk. by apply bool_decide_eq_true in Hk.
Qed.
End GraphAlias.
