(* ===== verification/GraphFollow.v ===== *)
(** * The Jira artifact graph: what the traversal keeps true

    Between iterations every link from an issue that was read leads to an issue
    that was read, or waits in the queue, unless the graph says that it is
    truncated; and every issue that was tried has its sources. *)

From stdpp Require Import vector pretty.
From S2P Require Import Prelude GoText TextOrder Encoding WikiScanner Markdown NetUrl MdView GraphTypes Scmref GraphExtract GraphCollect GraphResult GraphTraversal GraphLoop GraphShape GraphAlias.
Import GoText TextOrder Encoding GraphTypes GraphExtract GraphCollect GraphResult GraphTraversal GraphShape GraphAlias.

Module GraphFollow.
Local Open Scope Z_scope.
Local Open Scope atl_scope.

#[local] Arguments canonicalNodeID : simpl never.

Lemma development_stays e : is_development (eKind e) = true → jiraGraphTraversableEdge e = false.
Proof.
  intros Hd. apply not_true_iff_false. unfold jiraGraphTraversableEdge, oneOf. rewrite !andb_true_iff, existsb_exists. intros [[(k & Hk & Ek) _] _].
  apply bool_decide_eq_true in Ek. rewrite Ek in Hd. revert Hd. apply list_elem_of_In in Hk. cbn [map] in Hk. rewrite !elem_of_cons, elem_of_nil in Hk. by destruct Hk as [->|[->|[->|[->|[]]]]].
Qed.
Lemma reconciled_same x n t : reconcileDevelopmentGraphNode x n = Some t → nID t = nID x ∧ nExpanded t = nExpanded x ∧ nKind t = nKind x.
Proof. unfold reconcileDevelopmentGraphNode. cbv zeta. repeat case_match; try done; intros Ht; by simplify_eq. Qed.

Section follow.
Context `{Lang} (o : JiraIssueGraphOptions).
Hypothesis few_nodes : 1 ≤ oMaxNodes o.
Hypothesis known_kinds : ∀ kind, kind ∈ sourceKinds o → kind ∈ jiraGraphSourceKinds true.

(** ** States *)

Definition well_keyed (m : gmap text ArtifactGraphSource) : Prop :=
  ∀ k u, m !! k = Some u → k = graphV2SourceKey (uNodeID u) (uKind u) ∧ uKind u ∈ jiraGraphSourceKinds true.
(** [d] is how deep the traversal has come; [tried] are the issues it attempted. *)
Record sound (tried : list text) (d : Z) (b : jiraGraphV2Builder) : Prop := {
  sound_aliases : aliasing (gAliases b);
  sound_ids : ∀ id n, gNodes b !! id = Some n → nID n = id ∧ gAliases b !! id = None;
  sound_unread : ∀ id n, gNodes b !! id = Some n → id ∉ tried ∨ ¬ issue_like id → unread id n;
  sound_depth : ∀ id n, gNodes b !! id = Some n → nExpanded n = true → nDepth n ≤ d;
  sound_size : Z.of_nat (size (gNodes b)) ≤ oMaxNodes o;
  sound_edges : ∀ i e, gEdges b !! i = Some e → gAliases b !! eFrom e = None ∧ gAliases b !! eTo e = None ∧ eFrom e ∈ tried;
  sound_sources : well_keyed (gSources b);
  sound_frontier : gFrontier b ≠ [] ∨ gFrontierSeen b ≠ [] → gTruncated b = true }.
(** Links from issues that were read, but for [skip], lead to where [C] is true. *)
Definition followed (skip : text → Prop) (C : text → Prop) (b : jiraGraphV2Builder) : Prop :=
  ∀ i e n, gEdges b !! i = Some e → jiraGraphTraversableEdge e = true → gNodes b !! eFrom e = Some n → nExpanded n = true → nDepth n < oDepth o → ¬ skip (eFrom e) →
    C (eTo e) ∨ gTruncated b = true.
(** The links from [id] lead to issues that were tried or can be followed. *)
Definition stubbed (tried : list text) (id : text) (b : jiraGraphV2Builder) : Prop :=
  ∀ i e, gEdges b !! i = Some e → jiraGraphTraversableEdge e = true → eFrom e = id →
    issue_like (eTo e) ∧ ∃ n, gNodes b !! eTo e = Some n ∧ (eTo e ∉ tried → nState n = ArtifactNodeStub).
Definition has_sources (m : gmap text ArtifactGraphSource) (id : text) : Prop := ∀ kind, kind ∈ sourceKinds o → is_Some (m !! graphV2SourceKey id kind).
Definition sourced (ids : list text) (b : jiraGraphV2Builder) : Prop := ∀ id, id ∈ ids → gAliases b !! id = None → has_sources (gSources b) id.

(** ** While an issue is merged *)

Section merge.
Context (tried : list text) (d : Z) (self : text) (C : text → Prop) (before : list text) (names : gmap text text) (present : text → Prop).
Record merging_state (b : jiraGraphV2Builder) : Prop := {
  merging_sound : sound tried d b;
  merging_followed : followed (λ x, x = self) C b;
  merging_stubbed : stubbed tried self b;
  merging_sourced : sourced before b;
  merging_self : gAliases b !! self = None;
  merging_present : ∀ id, present id → is_Some (gNodes b !! id);
  merging_names : gAliases b = names }.

(** A node that may be written at [id]. *)
Record writable (b : jiraGraphV2Builder) (id : text) (n : ArtifactGraphNode) : Prop := {
  writable_id : nID n = id ∧ gAliases b !! id = None;
  writable_unread : id ∉ tried ∨ ¬ issue_like id → unread id n;
  writable_depth : nExpanded n = true → nDepth n ≤ d;
  writable_calm : nExpanded n = true → id = self ∨ ∃ x, gNodes b !! id = Some x ∧ nExpanded x = true ∧ nDepth n = nDepth x;
  writable_stub : ∀ x, gNodes b !! id = Some x → issue_like id → id ∉ tried → nState x = ArtifactNodeStub → nState n = ArtifactNodeStub;
  writable_size : is_Some (gNodes b !! id) ∨ Z.of_nat (size (gNodes b)) < oMaxNodes o }.
Lemma merging_put_nodes b id n : merging_state b → writable b id n → merging_state (put_nodes (<[id := n]> (gNodes b)) b).
Proof.
  intros [[] Hf Hs Hl Hse Hpr Hna] []. constructor.
  - constructor; cbn [gNodes gEdges gSources gFrontier gFrontierSeen gTruncated gAliases put_nodes]; try done.
    + intros i m. rewrite lookup_insert. case_decide; [intros [= <-]; by subst|by apply sound_ids0].
    + intros i m. rewrite lookup_insert. case_decide; [intros [= <-]; by subst|by apply sound_unread0].
    + intros i m. rewrite lookup_insert. case_decide; [intros [= <-]; by subst|by apply sound_depth0].
    + rewrite map_size_insert. destruct (gNodes b !! id) eqn:E; unfold Datatypes.id; [done|]. destruct writable_size0 as [[? Hi]|Hi]; [done|]. lia.
  - intros i e m. cbn [gNodes gEdges gTruncated put_nodes]. intros He Ht. rewrite lookup_insert. case_decide as Hd; [|by eapply Hf]. intros [= <-] Hx Hlt Hne.
    destruct (writable_calm0 Hx) as [->|(x & Hx1 & Hx2 & Hx3)]; [by destruct Hne|]. rewrite Hd in Hx1. eapply Hf; [done..| |done]. lia.
  - intros i e He Ht Hfrom. cbn [gNodes gEdges put_nodes] in *. destruct (Hs i e He Ht Hfrom) as (Hi & m & Hm & Hst). split; [done|]. rewrite lookup_insert.
    case_decide as Hd; [|by eexists]. eexists. split; [done|]. intros Hn. subst id. eapply writable_stub0; [done..|by apply Hst].
  - done.
  - done.
  - intros i Hi. cbn [gNodes put_nodes]. rewrite lookup_insert. case_decide; [by eexists|by apply Hpr].
  - done.
Qed.
Lemma merging_frontier item reason b : merging_state b → merging_state (addFrontier o item reason b).
Proof.
  intros Hb. unfold addFrontier. cbv zeta. destruct (oneOf _ _); [done|]. destruct Hb as [[] Hf Hs Hl Hse Hpr Hna].
  destruct (_ <=? _); (constructor; [constructor; try done| |done..]); intros i e n ? ? ? ? ? ?; by right.
Qed.
(** A node of a projection, under its present name. *)
Lemma upsert_writable t b : merging_state b → unread (nID t) t → d ≤ nDepth t ∨ ¬ issue_like (nID t) → nID t = canonicalNodeID b (nID t) →
  upsertNode o t b = b ∨ ∃ n, upsertNode o t b = put_nodes (<[nID t := n]> (gNodes b)) b ∧ writable b (nID t) n.
Proof.
  intros [[] _ _ _ _ _ _] [Ht1 Ht2] Hd Hc. unfold upsertNode. cbv zeta. rewrite <- Hc. set (t' := renamed (nID t) t). change (nID t') with (nID t).
  pose proof (canonical_end b sound_aliases0 (nID t)) as Hend. rewrite <- Hc in Hend.
  destruct (gNodes b !! nID t) as [x|] eqn:Ex.
  - right. exists (merged x t'). split; [done|]. destruct (sound_ids0 _ _ Ex) as [Hx1 Hx2]. constructor; [done|..].
    + intros Hn. destruct (sound_unread0 _ _ Ex Hn) as [Hy1 Hy2]. split; [cbn; rewrite Ht1, Hy1; by destruct (_ || _)|]. intros Hl. destruct (Ht2 Hl) as [Hk1 Hs1], (Hy2 Hl) as [Hk2 Hs2].
      split; [done|]. cbn. by destruct (_ || _).
    + cbn. rewrite Ht1. destruct (_ || _); [done|]. intros Hx. pose proof (sound_depth0 _ _ Ex Hx). lia.
    + cbn. rewrite Ht1. destruct (_ || _); [done|]. intros Hx. right. exists x. pose proof (sound_depth0 _ _ Ex Hx). split; [done|]. split; [done|].
      destruct Hd as [Hd|Hd]; [lia|]. destruct (sound_unread0 _ _ Ex (or_intror Hd)) as [Hy _]. congruence.
    + intros y Hy Hl Hn Hst. rewrite Ex in Hy. injection Hy as <-. cbn [nState merged].
      destruct (Ht2 Hl) as [_ Hs1]. cbn [nState nExpanded t' renamed]. rewrite Ht1, Hst. by destruct Hs1 as [-> | ->].
    + left. by eexists.
  - destruct (full o b) eqn:Hfull; [by left|]. right. exists t'. split; [done|]. constructor; try done.
    + cbn. by rewrite Ht1.
    + cbn. by rewrite Ht1.
    + intros y Hy. by rewrite Ex in Hy.
    + unfold full in Hfull. apply Z.leb_gt in Hfull. by right.
Qed.
Lemma merging_upsert t b : merging_state b → unread (nID t) t → d ≤ nDepth t ∨ ¬ issue_like (nID t) → nID t = canonicalNodeID b (nID t) → merging_state (upsertNode o t b).
Proof.
  intros Hb Ht Hd Hc. destruct (upsert_writable t b Hb Ht Hd Hc) as [->|(n & -> & Hn)]; [done|]. by apply merging_put_nodes.
Qed.
Lemma upsert_dom t b id : is_Some (gNodes b !! id) → is_Some (gNodes (upsertNode o t b) !! id).
Proof.
  intros Hi. unfold upsertNode. cbv zeta. destruct (gNodes b !! nID _); [|destruct (full o b); [done|]]; cbn [gNodes put_nodes]; rewrite lookup_insert; case_decide; (done || by eexists).
Qed.

(** *** Edges *)

Lemma merging_put_edges b i x c : merging_state b → gAliases b !! eFrom x = None → gAliases b !! eTo x = None → eFrom x ∈ tried →
  (∀ n, jiraGraphTraversableEdge x = true → gNodes b !! eFrom x = Some n → nExpanded n = true → nDepth n < oDepth o → eFrom x ≠ self → C (eTo x) ∨ gTruncated b = true) →
  (jiraGraphTraversableEdge x = true → eFrom x = self → issue_like (eTo x) ∧ ∃ n, gNodes b !! eTo x = Some n ∧ (eTo x ∉ tried → nState n = ArtifactNodeStub)) →
  merging_state (put_edges (<[i := x]> (gEdges b)) c b).
Proof.
  intros [[] Hf Hs Hl Hse Hpr Hna] Hx1 Hx2 Hx3 Hx4 Hx5. constructor; [|intros j e n|intros j e|done..]; cbn [gNodes gEdges gTruncated put_edges].
  - constructor; try done. intros j e. cbn [gEdges put_edges]. rewrite lookup_insert. case_decide; [by intros [= <-]|by apply sound_edges0].
  - rewrite lookup_insert. case_decide; [|by apply Hf]. intros [= <-]. eauto.
  - rewrite lookup_insert. case_decide; [|by apply Hs]. by intros [= <-].
Qed.
Lemma upsert_stub t b : merging_state b → unread (nID t) t → nID t = canonicalNodeID b (nID t) → is_Some (gNodes b !! nID t) →
  ∃ n, gNodes (upsertNode o t b) !! nID t = Some n ∧ (nState t = ArtifactNodeStub → issue_like (nID t) → nID t ∉ tried → nState n = ArtifactNodeStub).
Proof.
  intros [[] _ _ _ _ _ _] [Ht1 Ht2] Hc [x Ex]. unfold upsertNode. cbv zeta. rewrite <- Hc. change (nID (renamed (nID t) t)) with (nID t).
  rewrite Ex. cbn [gNodes put_nodes]. rewrite lookup_insert, decide_True by done. eexists. split; [done|]. intros Hst Hl Hn.
  cbn [nState merged renamed nExpanded]. rewrite Ht1, Hst. destruct (sound_unread0 _ _ Ex (or_introl Hn)) as [_ Hx]. by destruct (Hx Hl) as [_ [-> | ->]].
Qed.
(** What is linked to: a node of the projection under its present name. *)
Lemma target_unread b e target : aliasing (gAliases b) → nID target = eTo e → unread (eTo e) target →
  let t := renamed (canonicalNodeID b (eTo e)) target in nID t = canonicalNodeID b (nID t) ∧ unread (nID t) t.
Proof.
  intros Hb Hi [Hu1 Hu2] t. subst t. cbn [nID renamed]. split.
  - symmetry. by apply canonical_same, canonical_end.
  - split; [done|]. intros Hl. apply Hu2. by eapply canonical_was_issue.
Qed.
Lemma merging_admit e target b b' : merging_state b → admitEdgeWithTarget o e target b = inl b' → eFrom e = self → gAliases b !! self = None → self ∈ tried →
  nID target = eTo e → unread (eTo e) target → d ≤ nDepth target ∨ ¬ issue_like (eTo e) → (jiraGraphTraversableEdge e = true → issue_like (eTo e) ∧ nState target = ArtifactNodeStub) → merging_state b'.
Proof.
  intros Hb (x & c & m & -> & Hnodes & Hx)%GraphLoop.admit_inl Hfrom Hself Htried Hid Hu Hd Ht. pose proof (sound_aliases _ _ _ (merging_sound _ Hb)) as Ha.
  destruct (target_unread b e target Ha Hid Hu) as [Hc Hut]. cbn [eTo identified redirected] in Hnodes. set (t := renamed (canonicalNodeID b (eTo e)) target) in *.
  assert (merging_state (put_nodes m b) ∧ ∃ n, m !! nID t = Some n ∧ (nState target = ArtifactNodeStub → issue_like (nID t) → nID t ∉ tried → nState n = ArtifactNodeStub)) as (H1 & n & H2 & H3).
  { destruct Hnodes as [[Hm Hn]|(Hn & Hroom & ->)].
    - rewrite Hm. split; [apply merging_upsert; [done..| |done]; destruct Hd as [Hd|Hd]; [by left|right; intros Hl; by apply Hd, (canonical_was_issue b)]|]. apply (f_equal gNodes) in Hm. cbn [gNodes put_nodes] in Hm. rewrite Hm. exact (upsert_stub t b Hb Hut Hc Hn).
    - split; [|exists t; by rewrite lookup_insert, decide_True].
      apply merging_put_nodes; [done|]. destruct Hb as [[] _ _ _ _ _ _]. destruct Hut as [Hut1 Hut2]. constructor; try done.
      + split; [done|]. rewrite Hc. by apply canonical_end.
      + by rewrite Hut1.
      + by rewrite Hut1.
      + intros y. by rewrite Hn.
      + right. by apply Z.leb_gt in Hroom. }
  clear Hnodes. set (b1 := put_nodes m b) in *.
  destruct Hx as [(y & vs & Hy & ->)|(_ & -> & _)].
  - pose proof H1 as [[] Hf Hs Hl Hse Hpr Hna]. destruct (sound_edges0 _ _ Hy) as (Hy1 & Hy2 & Hy3). apply (merging_put_edges b1); try done; cbn [eFrom eTo with_evidence].
    + intros n' Hty. by eapply Hf.
    + intros Hty. by eapply Hs.
  - apply (merging_put_edges b1); try done; cbn [eFrom eTo identified redirected].
    + by apply (canonical_end b).
    + by apply (canonical_end b).
    + rewrite Hfrom. by rewrite canonical_same.
    + rewrite Hfrom, canonical_same; done.
    + intros Hte _. destruct (Ht Hte) as [Hl Hst]. split; [by apply canonical_issue|]. exists n. split; [done|]. apply H3; [done|by apply canonical_issue].
Qed.

(** *** The projection of an issue *)

Context (p : jiraGraphBuilder) (projected : projection self (sourceKinds o) d p) (self_tried : self ∈ tried) (self_issue : issue_like self).
(** An edge of the projection can be admitted. *)
Lemma projection_target i e b : bEdges p !! i = Some e → merging_state b → eqt (canonicalNodeID b (eFrom e)) (canonicalNodeID b (eTo e)) = false →
  ∃ n, bNodes p !! eTo e = Some n ∧ ∀ b', admitEdgeWithTarget o e n b = inl b' → merging_state b'.
Proof.
  intros He Hb Hapart. destruct projected as [[]]. destruct (projecting_edges0 _ _ He) as [Hfrom (n & Hn & Ht) _]. exists n. split; [done|].
  assert (eTo e ≠ self) as Hne by (intros E; rewrite E, Hfrom in Hapart; apply bool_decide_eq_false in Hapart; done).
  intros b' Ha. eapply merging_admit; [done|exact Ha|done|by destruct Hb|done|by apply projecting_ids0|by apply projecting_nodes0| |by intros Htr; apply Ht].
  left. rewrite (projection_depth0 _ _ Hn Hne). lia.
Qed.
Lemma merging_merge_edge s e : (∃ i, bEdges p !! i = Some e) → merging_state s.1 → merging_state (merge_edge o p s e).1.
Proof.
  intros [i He] Hb. destruct s as [b us]. cbn [fst] in *. unfold merge_edge. cbv zeta. destruct (eqt _ _) eqn:Eself; [done|].
  destruct (projection_target _ _ b He Hb Eself) as (n & Hn & Hadmit). rewrite Hn. cbn [default from_option id].
  destruct (admitEdgeWithTarget o e n b) as [b'|] eqn:E; cbn [fst]; [by apply Hadmit|]. destruct (_ && _); [by apply merging_frontier|done].
Qed.
(** Facts about development are not about issues. *)
Lemma merging_development es b b' : (∀ e, e ∈ es → is_development (eKind e) = true ∧ ∃ i, bEdges p !! i = Some e) → merging_state b → development_loop o p es b = inl b' → merging_state b'.
Proof.
  revert b. induction es as [|e es IH]; intros b Hes Hb; cbn [development_loop]; [by intros [= <-]|]. cbv zeta.
  destruct (Hes e) as [Hdev [i He]]; [by left|]. destruct projected as [[]]. destruct (projecting_edges0 _ _ He) as [Hfrom (n & Hn & _) Hother]. specialize (Hother Hdev). rewrite Hn.
  cbn [default from_option id]. pose proof (projecting_ids0 _ _ Hn) as Hid. assert (eTo e ≠ self) as Hne by (intros E; by rewrite E in Hother).
  assert (∀ b t, merging_state b → nID t = eTo e → nExpanded t = false → match admitEdgeWithTarget o e t b with inl b1 => development_loop o p es b1 | inr _ => inr ArtifactPartialOutputLimit end = inl b' →
    merging_state b') as Hstep.
  { intros b0 t Hb0 Ht1 Ht2. destruct (admitEdgeWithTarget o e t b0) as [b1|] eqn:E; [|done]. apply IH; [intros x Hx; apply Hes; by right|].
    apply (merging_admit e t b0 b1 Hb0 E Hfrom ltac:(by destruct Hb0) self_tried Ht1); [by split|by right|]. intros Htr. by rewrite (development_stays e Hdev) in Htr. }
  rewrite Hid. destruct (gNodes b !! eTo e) as [x|] eqn:Ex; [|by apply Hstep; destruct (projecting_nodes0 _ _ Hn Hne)].
  destruct (reconcileDevelopmentGraphNode x n) as [t|] eqn:Et; [|done]. assert (nID t = nID x ∧ nExpanded t = nExpanded x ∧ nKind t = nKind x) as (Ht1 & Ht2 & _) by by apply reconciled_same in Et.
  pose proof Hb as [[] _ _ _ _ _ _]. destruct (sound_ids0 _ _ Ex) as [Hx1 Hx2]. destruct (sound_unread0 _ _ Ex (or_intror Hother)) as [Hx3 _].
  rewrite Ht1, Hx1. apply Hstep; [|congruence..]. apply merging_put_nodes; [done|]. constructor.
  - split; [congruence|done].
  - intros _. split; [congruence|done].
  - congruence.
  - congruence.
  - done.
  - left. by eexists.
Qed.
(** *** Sources *)

Definition collected (us : gmap text ArtifactGraphSource) : Prop := ∀ kind, kind ∈ sourceKinds o → ∃ u, us !! kind = Some u ∧ uKind u = kind ∧ uNodeID u = self.
Lemma collected_alter f k us : (∀ u, uKind (f u) = uKind u ∧ uNodeID (f u) = uNodeID u) → collected us → collected (alter f k us).
Proof.
  intros Hf Hu kind Hk. destruct (Hu kind Hk) as (u & Hus & Hu1 & Hu2). rewrite lookup_alter. case_decide as Hd; [|by eexists]. subst k. rewrite Hus. exists (f u).
  destruct (Hf u) as [-> ->]. done.
Qed.
Lemma collected_merge_edge s e : collected s.2 → collected (merge_edge o p s e).2.
Proof.
  intros Hs. destruct s as [b us]. unfold merge_edge. cbv zeta. destruct (eqt _ _); cbn [snd] in *.
  - unfold qualifyProjectedJiraGraphSelfEdge. apply fold_left_ind; [|done]. intros m v Hm. destruct (eqt _ _); [|done]. by apply collected_alter.
  - destruct (admitEdgeWithTarget _ _ _ _) as [b'|dropped]; [done|]. cbn [snd]. apply fold_left_ind; [|done]. intros m v Hm. by apply collected_alter.
Qed.
Definition record_source (us m : gmap text ArtifactGraphSource) (kind : text) : gmap text ArtifactGraphSource :=
  match us !! kind with Some u => <[graphV2SourceKey self kind := u]> m | None => m end.
Lemma merging_put_sources us kinds b : collected us → (∀ kind, kind ∈ kinds → kind ∈ sourceKinds o) → merging_state b →
  merging_state (put_sources (fold_left (record_source us) kinds (gSources b)) b).
Proof.
  intros Hus Hk [[] Hf Hs Hl Hse Hpr Hna]. set (m := fold_left (record_source us) kinds (gSources b)).
  assert (well_keyed m ∧ ∀ k, is_Some (gSources b !! k) → is_Some (m !! k)) as [H1 H2].
  { unfold m. apply (fold_left_in (λ m : gmap text ArtifactGraphSource, well_keyed m ∧ ∀ k, is_Some (gSources b !! k) → is_Some (m !! k))); [|by split].
    intros m' kind Hin [IH1 IH2]. destruct (Hus kind (Hk _ Hin)) as (u & Hu & Hu1 & Hu2). unfold record_source. rewrite Hu. split.
    - intros k u'. rewrite lookup_insert. case_decide as Hd; [intros [= <-]; rewrite Hu1, Hu2; split; [done|]; by apply known_kinds, Hk|by apply IH1].
    - intros k Hi. rewrite lookup_insert. case_decide; [by eexists|by apply IH2]. }
  constructor; try done. intros id Hi Ha kind Hkind. cbn [gSources put_sources]. apply H2. by apply Hl.
Qed.
Lemma recorded us kinds m : collected us → (∀ kind, kind ∈ sourceKinds o → kind ∈ kinds) → has_sources (fold_left (record_source us) kinds m) self.
Proof.
  intros Hus Hk kind Hin. pose proof (Hk _ Hin) as Hin'. destruct (Hus kind Hin) as (u & Hu & _). clear Hk. revert m.
  assert (∀ l m, is_Some (m !! graphV2SourceKey self kind) → is_Some (fold_left (record_source us) l m !! graphV2SourceKey self kind)) as Hkeep.
  { intros l m. apply (fold_left_ind (λ m : gmap text ArtifactGraphSource, is_Some (m !! graphV2SourceKey self kind))). intros m' k Hm. unfold record_source. destruct (us !! k); [|done].
    rewrite lookup_insert. case_decide; [by eexists|done]. }
  induction kinds as [|k ks IH]; [by apply elem_of_nil in Hin'|]. intros m. cbn [fold_left]. apply elem_of_cons in Hin' as [->|Hin']; [|by apply IH].
  apply Hkeep. unfold record_source. rewrite Hu, lookup_insert, decide_True; [by eexists|done].
Qed.
End merge.

Lemma merging_more tried d self C before names present present' before' b : merging_state tried d self C before names present b → sourced before' b → (∀ i, present' i → is_Some (gNodes b !! i)) →
  merging_state tried d self C before' names present' b.
Proof. intros []. by constructor. Qed.
Section projected.
Context (tried : list text) (d : Z) (self : text) (C : text → Prop) (before : list text) (names : gmap text text) (present : text → Prop) (p : jiraGraphBuilder).
Hypothesis projected : projection self (sourceKinds o) d p.
Hypothesis self_tried : self ∈ tried.
Hypothesis self_issue : issue_like self.
(** The issue itself may be written as it is. *)
Lemma self_writable present' b n : merging_state tried d self C before names present' b → nID n = self → nDepth n ≤ d →
  is_Some (gNodes b !! self) ∨ Z.of_nat (size (gNodes b)) < oMaxNodes o → writable tried d self b self n.
Proof.
  intros [] Hi Hd Hs. constructor; try done; [|by left]. by intros [?|?].
Qed.
Lemma upsert_self b : merging_state tried d self C before names present b → is_Some (gNodes b !! self) ∨ gNodes b = ∅ →
  let b0 := upsertNode o (default unknown_node (bNodes p !! self)) b in merging_state tried d self C before names present b0 ∧ is_Some (gNodes b0 !! self).
Proof.
  intros Hb Hself. destruct projected as [[]]. destruct projecting_self0 as (n & Hn & Hd). rewrite Hn. cbn [default from_option id]. pose proof (projecting_ids0 _ _ Hn) as Hid.
  pose proof Hb as [[] _ _ _ Hse _ _]. cbv zeta. unfold upsertNode. rewrite Hid, (canonical_same b sound_aliases0 self Hse). cbv zeta. change (nID (renamed self n)) with self.
  destruct (gNodes b !! self) as [x|] eqn:Ex.
  - split; [|cbn; rewrite lookup_insert, decide_True; [by eexists|done]]. apply merging_put_nodes; [done|]. eapply self_writable; [done| | |left; by eexists].
    + by destruct (sound_ids0 _ _ Ex).
    + cbn. lia.
  - destruct Hself as [[? ?]|Hempty]; [done|]. assert (full o b = false) as -> by (unfold full; rewrite Hempty, map_size_empty; apply Z.leb_gt; cbn; lia).
    split; [|cbn; rewrite lookup_insert, decide_True; [by eexists|done]]. apply merging_put_nodes; [done|]. eapply self_writable; [done..| |].
    + cbn. lia.
    + right. rewrite Hempty, map_size_empty. cbn. lia.
Qed.
Lemma merge_projection b b' us : merging_state tried d self C before names present b → is_Some (gNodes b !! self) ∨ gNodes b = ∅ → mergeProjection o p self d b = (b', us) →
  merging_state tried d self C (self :: before) names (λ i, present i ∨ i = self) b' ∧ ∃ n, gNodes b' !! self = Some n ∧ nDepth n = d.
Proof.
  intros Hb Hself. destruct (upsert_self b Hb Hself) as [H0 H0']. unfold mergeProjection. cbv zeta. set (b0 := upsertNode o _ b) in *.
  assert (merging_state tried d self C before names (λ i, present i ∨ i = self) b0) as H1.
  { eapply merging_more; [done|by destruct H0|]. intros i [Hi|Hi]; [|by rewrite Hi]. by destruct H0 as [_ _ _ _ _ Hp _]; apply Hp. }
  clear H0. set (edges := sort_on graphEdgeSortKey (map snd (map_to_list (bEdges p)))).
  assert (∀ e, e ∈ edges → ∃ i, bEdges p !! i = Some e) as Hedges.
  { intros e. unfold edges, sort_on. rewrite merge_sort_Permutation. intros ([i x] & -> & Hx)%list_elem_of_fmap. exists i. by apply elem_of_map_to_list. }
  set (s := fold_left (merge_edge o p) _ _). assert (merging_state tried d self C before names (λ i, present i ∨ i = self) s.1 ∧ collected self s.2) as [H2 H3].
  { unfold s. apply (fold_left_in (λ s, merging_state tried d self C before names (λ i, present i ∨ i = self) s.1 ∧ collected self s.2)).
    - intros s' e [He _]%list_elem_of_In%filter_In [IH1 IH2]. split; [|by apply collected_merge_edge]. apply merging_merge_edge; try done. by apply Hedges, list_elem_of_In.
    - split; [done|]. cbn [snd]. intros kind Hk. destruct projected as [[]]. destruct (projecting_sources0 kind Hk) as (u & Hu & Hu'). exists u. split; [done|]. split; [done|]. by eapply projection_placed0. }
  clearbody s. set (es := List.filter (λ e, is_development (eKind e)) edges).
  destruct (admitDevelopmentProjection o p es s) as [b1 us1] eqn:Ed.
  assert (merging_state tried d self C before names (λ i, present i ∨ i = self) b1 ∧ collected self us1) as [H4 H5].
  { unfold admitDevelopmentProjection in Ed. destruct (development_loop o p es s.1) as [b2|reason] eqn:El; injection Ed as <- <-.
    - split; [|done]. eapply merging_development; try done. intros e [He Hd]%list_elem_of_In%filter_In. split; [done|]. by apply Hedges, list_elem_of_In.
    - split; [done|]. by apply collected_alter. }
  intros [= <- <-]. destruct projected as [[]]. rewrite projecting_kinds0.
  assert (merging_state tried d self C before names (λ i, present i ∨ i = self) (put_sources (fold_left (record_source self us1) (sourceKinds o) (gSources b1)) b1)) as H6 by by apply merging_put_sources.
  destruct (merging_present _ _ _ _ _ _ _ _ H6 self (or_intror eq_refl)) as [x Ex]. cbn [gNodes put_sources] in Ex. rewrite Ex. cbn [default from_option id].
  split; [|eexists; cbn [gNodes put_nodes]; rewrite lookup_insert, decide_True; done].
  apply (merging_put_nodes _ _ _ _ _ _ _ (put_sources _ b1) self (expanded_at d x)).
  - eapply merging_more; [exact H6| |by destruct H6]. intros i [->|Hi]%elem_of_cons Ha; [by apply recorded|by apply H6].
  - eapply self_writable; [exact H6| | |].
    + destruct H6 as [[] _ _ _ _ _ _]. by destruct (sound_ids0 _ _ Ex).
    + cbn. lia.
    + left. by eexists.
Qed.
End projected.
End follow.
End GraphFollow.
