(* ===== verification/GraphMoved.v ===== *)
(** * The Jira artifact graph: a moved issue keeps the graph true

    Merging the node of an issue into the one of its new name redirects edges,
    sources and frontier, and what was known of them stays so. *)

From stdpp Require Import vector pretty.
From S2P Require Import Prelude GoText TextOrder Encoding WikiScanner Markdown NetUrl MdView GraphTypes Scmref GraphExtract GraphCollect GraphResult GraphTraversal GraphLoop GraphShape GraphAlias GraphFollow.
Import GoText TextOrder Encoding GraphTypes GraphExtract GraphCollect GraphResult GraphTraversal GraphShape GraphAlias GraphFollow.
Import GraphLoop (some_order).

Module GraphMoved.
Local Open Scope Z_scope.
Local Open Scope atl_scope.

#[local] Arguments canonicalNodeID : simpl never.

Definition none (_ : text) : Prop := False.

Section moved.
Context `{Lang} (range_over : ∀ A : Type, gmap text A → list (text * A)) (o : JiraIssueGraphOptions).
Hypothesis range_some : some_order range_over.
Hypothesis few_nodes : 1 ≤ oMaxNodes o.
Hypothesis known_kinds : ∀ kind, kind ∈ sourceKinds o → kind ∈ jiraGraphSourceKinds true.

(** ** The parts *)

Lemma upsert_parts t b b' : gNodes b' = gNodes b → gAliases b' = gAliases b → gNodes (upsertNode o t b') = gNodes (upsertNode o t b).
Proof.
  intros Hn Ha. unfold upsertNode, canonicalNodeID, full. rewrite Hn, Ha. cbv zeta. destruct (gNodes b !! _); [done|]. by destruct (oMaxNodes o <=? _).
Qed.
Lemma upsert_aliases t b : gAliases (upsertNode o t b) = gAliases b.
Proof. by rewrite GraphLoop.upsert_put. Qed.
(** The sources after an edge between the same issue was found. *)
Lemma qualify_self_edge b e us k : fmap (λ u, (uNodeID u, uKind u)) (qualifyReconciledJiraGraphSelfEdge b e us !! k) = fmap (λ u, (uNodeID u, uKind u)) (us !! k).
Proof.
  unfold qualifyReconciledJiraGraphSelfEdge. apply (fold_left_ind (λ m : gmap text ArtifactGraphSource, (λ u, (uNodeID u, uKind u)) <$> (m !! k) = (λ u, (uNodeID u, uKind u)) <$> (us !! k))); [|done].
  intros m v <-. destruct (negb _); [done|]. rewrite lookup_fmap. destruct (m !! k) as [u|]; [|done]. cbn. by destruct (_ && _).
Qed.
Lemma rebuilt b l us : let s := fold_left (rebuild_edge b) l (∅, us) in
  (∀ i e, s.1 !! i = Some e → ∃ kv, kv ∈ l ∧ eFrom e = canonicalNodeID b (eFrom kv.2) ∧ eTo e = canonicalNodeID b (eTo kv.2) ∧ jiraGraphTraversableEdge e = jiraGraphTraversableEdge kv.2) ∧
  ∀ k, (λ u, (uNodeID u, uKind u)) <$> (s.2 !! k) = (λ u, (uNodeID u, uKind u)) <$> (us !! k).
Proof.
  cbv zeta. apply (fold_left_in (λ s : gmap text ArtifactGraphEdge * gmap text ArtifactGraphSource,
    (∀ i e, s.1 !! i = Some e → ∃ kv, kv ∈ l ∧ eFrom e = canonicalNodeID b (eFrom kv.2) ∧ eTo e = canonicalNodeID b (eTo kv.2) ∧ jiraGraphTraversableEdge e = jiraGraphTraversableEdge kv.2) ∧
    ∀ k, (λ u, (uNodeID u, uKind u)) <$> (s.2 !! k) = (λ u, (uNodeID u, uKind u)) <$> (us !! k))); [|split; [by intros i e|done]].
  intros s kv Hkv [IH1 IH2]. unfold rebuild_edge. cbv zeta. destruct (eqt _ _); cbn [fst snd]; [split; [done|]; intros k; by rewrite qualify_self_edge|]. split; [|done].
  intros i e. rewrite lookup_insert. case_decide as Hi; [|by apply IH1]. intros [= <-]. destruct (s.1 !! _) as [x|] eqn:Ex; [|by exists kv].
  destruct (IH1 _ _ Ex) as (kv' & Hkv' & Hx). by exists kv'.
Qed.
Lemma rekeyed b l : (∀ k u, (k, u) ∈ l → uKind u ∈ jiraGraphSourceKinds true) →
  let m := fold_left (λ m (kv : text * ArtifactGraphSource), let u := placed (canonicalNodeID b (uNodeID kv.2)) (uNodeDepth kv.2) kv.2 in <[graphV2SourceKey (uNodeID u) (uKind u) := u]> m) l ∅ in
  well_keyed m ∧ ∀ k u, (k, u) ∈ l → is_Some (m !! graphV2SourceKey (canonicalNodeID b (uNodeID u)) (uKind u)).
Proof.
  cbv zeta. intros Hl. set (f := λ (m : gmap text ArtifactGraphSource) (kv : text * ArtifactGraphSource), _). split.
  - apply (fold_left_in well_keyed); [|by intros ? ?]. intros m [k u] Hin Hm j v. unfold f. cbv zeta. rewrite lookup_insert. case_decide as Hd; [|by apply Hm].
    intros [= <-]. split; [by rewrite <- Hd|]. by apply (Hl k u).
  - intros k u. assert (∀ l (m : gmap text ArtifactGraphSource) j, is_Some (m !! j) → is_Some (fold_left f l m !! j)) as Hkeep.
    { intros l' m j. apply (fold_left_ind (λ m : gmap text ArtifactGraphSource, is_Some (m !! j))). intros m' kv Hm. unfold f. cbv zeta. rewrite lookup_insert. case_decide; [by eexists|done]. }
    clear Hl. generalize (∅ : gmap text ArtifactGraphSource). induction l as [|kv l IH]; intros m; [by intros ?%elem_of_nil|]. cbn [fold_left].
    intros [<-|Hin]%elem_of_cons; [|by apply IH]. apply Hkeep. unfold f. cbv zeta. rewrite lookup_insert, decide_True; [by eexists|done].
Qed.
Lemma rebuild_frontier_nil b : rebuild_frontier b [] [] = ([], []).
Proof. done. Qed.

(** ** The whole *)

Record move (tried : list text) (d : Z) (old new : text) (C C' : text → Prop) (b b' : jiraGraphV2Builder) : Prop := {
  move_sound : sound o tried d b';
  move_names : gAliases b' = <[old := new]> (gAliases b);
  move_followed : followed o none C' b';
  move_sourced : sourced o tried b';
  move_kept : ∀ id, is_Some (gNodes b !! id) → id ≠ old → is_Some (gNodes b' !! id);
  move_there : is_Some (gNodes b' !! new) }.
Context (tried : list text) (d : Z) (old new : text) (C C' : text → Prop) (b : jiraGraphV2Builder).
Hypothesis before : sound o tried d b.
Hypothesis before_followed : followed o none C b.
Hypothesis before_sourced : sourced o tried b.
Hypothesis old_fresh : old ∉ tried.
Hypothesis old_end : gAliases b !! old = None.
Hypothesis new_end : gAliases b !! new = None.
Hypothesis apart : old ≠ new.
Hypothesis old_issue : issue_like old.
Hypothesis new_issue : issue_like new.
Hypothesis old_there : is_Some (gNodes b !! old) ∨ gNodes b = ∅.
Hypothesis redirected_C : ∀ x, C x → C' (redirect old new x).

(** The nodes after the move. *)
Lemma moved_nodes : let b1 := put_aliases (<[old := new]> (gAliases b)) b in let b2 := put_nodes (delete old (gNodes b1)) b1 in
  let b3 := upsertNode o (moved_node (gNodes b !! old) new d) b2 in
  (∀ id n, gNodes b3 !! id = Some n → nID n = id ∧ gAliases b3 !! id = None) ∧
  (∀ id n, gNodes b3 !! id = Some n → id ∉ tried ∨ ¬ issue_like id → unread id n) ∧
  (∀ id n, gNodes b3 !! id = Some n → nExpanded n = true → nDepth n ≤ d ∧ ∃ x, gNodes b !! id = Some x ∧ nExpanded x = true ∧ nDepth n = nDepth x) ∧
  Z.of_nat (size (gNodes b3)) ≤ oMaxNodes o ∧ (∀ id, is_Some (gNodes b !! id) → id ≠ old → is_Some (gNodes b3 !! id)) ∧ is_Some (gNodes b3 !! new).
Proof.
  cbv zeta. set (b1 := put_aliases _ b). set (b2 := put_nodes _ b1). set (t := moved_node (gNodes b !! old) new d). set (b0 := put_edges ∅ 0 b2).
  rewrite <- (upsert_parts t b2 b0) by done. pose proof before as [].
  assert (aliasing (gAliases b0)) as Ha by (apply aliasing_insert; done).
  assert (gAliases b0 !! new = None) as Hnew by (cbn; by rewrite lookup_insert_ne).
  assert (merging_state o tried d [] none [] (gAliases b0) none b0) as H0.
  { constructor; try done; [constructor; try done; cbn [gNodes gAliases b0 b2 b1 put_edges put_nodes put_aliases]|..].
    - intros id n. rewrite lookup_delete. case_decide; [done|]. intros Hn. rewrite lookup_insert_ne by done. by apply sound_ids0.
    - intros id n. rewrite lookup_delete. case_decide; [done|]. by apply sound_unread0.
    - intros id n. rewrite lookup_delete. case_decide; [done|]. by apply sound_depth0.
    - etrans; [|exact sound_size0]. apply inj_le. apply map_subseteq_size, delete_subseteq.
    - by intros ? ?%elem_of_nil.
    - destruct (gAliases b0 !! []) as [y|] eqn:E; [|done]. by destruct (aliasing_issues _ Ha _ _ E) as [He%issue_like_nonempty _]. }
  assert (unread (nID t) t) as Ht.
  { unfold t. destruct (gNodes b !! old) as [n|] eqn:En; [|split; [done|intros _; cbn; split; [done|by left]]].
    destruct (sound_unread0 _ _ En (or_introl old_fresh)) as [Hu1 Hu2]. split; [done|]. intros _. cbn. by apply Hu2. }
  assert (nID t = canonicalNodeID b0 (nID t)) as Hc by (symmetry; by apply canonical_same).
  assert (is_Some (gNodes b0 !! new) ∨ full o b0 = false) as Hroom.
  { destruct (decide (is_Some (gNodes b0 !! new))) as [Hi|Hi]; [by left|right]. unfold full. apply Z.leb_gt. cbn [gNodes b0 b2 b1 put_edges put_nodes put_aliases].
    destruct old_there as [[n Hn]|He]; [|rewrite He, delete_empty, map_size_empty; cbn; lia].
    pose proof (map_size_delete_Some old (gNodes b) ltac:(by eexists)) as Hd. pose proof (map_size_ne_0_lookup_2 (gNodes b) old ltac:(by eexists)). lia. }
  assert (∀ id n, gNodes b0 !! id = Some n → gNodes b !! id = Some n) as Hb0.
  { intros id n. cbn [gNodes b0 b2 b1 put_edges put_nodes put_aliases]. rewrite lookup_delete. by case_decide. }
  assert (∀ id, is_Some (gNodes b !! id) → id ≠ old → is_Some (gNodes b0 !! id)) as Hb1.
  { intros id Hi Hne. cbn [gNodes b0 b2 b1 put_edges put_nodes put_aliases]. by rewrite lookup_delete_ne. }
  pose proof (merging_upsert o tried d [] none [] (gAliases b0) none t b0 H0 Ht ltac:(left; cbn; lia) Hc) as [[] _ _ _ _ _ Hna].
  rewrite upsert_aliases. rewrite upsert_aliases in sound_ids1. split; [exact sound_ids1|]. split; [exact sound_unread1|]. split; [|split; [exact sound_size1|]].
  - intros id n Hn Hx. split; [by apply (sound_depth1 id n)|].
    destruct (upsert_writable o tried d [] none [] (gAliases b0) none t b0 H0 Ht ltac:(left; cbn; lia) Hc) as [E|(m & E & [])]; rewrite E in Hn; [by exists n; auto|].
    cbn [gNodes put_nodes] in Hn. rewrite lookup_insert in Hn. case_decide as Hd; [|by exists n; auto]. injection Hn as <-.
    destruct (writable_calm0 Hx) as [Hy|(y & Hy1 & Hy2 & Hy3)]; [by cbn in Hy; subst|]. exists y. subst id. auto.
  - split; [intros id Hi Hne; apply upsert_dom; by apply Hb1|].
    unfold upsertNode. cbv zeta. rewrite <- Hc. change (nID (renamed (nID t) t)) with new.
    destruct (gNodes b0 !! new); [|destruct Hroom as [[? ?]|Hroom]; [done|rewrite Hroom]]; cbn [gNodes put_nodes]; rewrite lookup_insert, decide_True by done; by eexists.
Qed.
Lemma reconciled : move tried d old new C C' b (reconcileMovedNode range_over o old new d b).
Proof.
  pose proof before as []. unfold reconcileMovedNode. cbv zeta. rewrite (canonical_same b sound_aliases0 new new_end). unfold eqt at 1. rewrite bool_decide_eq_false_2 by done.
  destruct moved_nodes as (N1 & N2 & N3 & N4 & N5 & N6). set (b1 := put_aliases _ b) in *. set (b2 := put_nodes _ b1) in *. set (b3 := upsertNode o _ b2) in *.
  change (gNodes b1 !! old) with (gNodes b !! old) in *.
  assert (gAliases b3 = <[old := new]> (gAliases b)) as Ha by (unfold b3; by rewrite upsert_aliases).
  assert (aliasing (gAliases b3)) as Hal by (rewrite Ha; by apply aliasing_insert).
  assert (∀ x, canonicalNodeID b3 x = redirect old new (canonicalNodeID b x)) as Hc by (intros x; by apply canonical_redirect).
  assert (gEdges b3 = gEdges b ∧ gSources b3 = gSources b ∧ gFrontier b3 = gFrontier b ∧ gTruncated b3 = gTruncated b) as (He & Hs & Hfr & Htr) by (unfold b3; by rewrite GraphLoop.upsert_put).
  destruct (fold_left (rebuild_edge b3) _ _) as [edges us] eqn:E. pose proof (rebuilt b3 (range_over _ (gEdges b3)) (gSources b3)) as Hr. cbv zeta in Hr. rewrite E in Hr.
  destruct Hr as [Hedges Hus]. cbn [fst snd] in *.
  assert (∀ k u, us !! k = Some u → ∃ v, gSources b !! k = Some v ∧ uNodeID u = uNodeID v ∧ uKind u = uKind v) as Hus1.
  { intros k u Hu. specialize (Hus k). rewrite Hu, Hs in Hus. destruct (gSources b !! k) as [v|]; [|done]. injection Hus as ? ?. by exists v. }
  assert (∀ k u, (k, u) ∈ range_over _ us ↔ us !! k = Some u) as Hrange by (intros k u; rewrite (range_some _ us); apply elem_of_map_to_list).
  destruct (rekeyed b3 (range_over _ us)) as [Hkeyed Hkept].
  { intros k u Hu%Hrange%Hus1. destruct Hu as (v & Hv & _ & ->). by destruct (sound_sources0 _ _ Hv). }
  set (sources := fold_left _ (range_over _ us) ∅) in *. destruct (rebuild_frontier b3 [] (gFrontier b3)) as [frontier seen] eqn:Ef.
  set (b' := put_frontier frontier seen (gFrontierTruncated b3) (gTruncated b3) (put_sources sources (put_edges edges (edges_evidence edges) b3))).
  assert (move tried d old new C C' b b') as Hmove; [|destruct (eqt (gRootID b') old); [|done]; destruct Hmove as [[] ? ? ? ? ?]; by constructor].
  assert (∀ i e, edges !! i = Some e → ∃ j e0, gEdges b !! j = Some e0 ∧ eFrom e = eFrom e0 ∧ eTo e = redirect old new (eTo e0) ∧
    jiraGraphTraversableEdge e = jiraGraphTraversableEdge e0 ∧ gAliases b3 !! eFrom e = None ∧ gAliases b3 !! eTo e = None ∧ eFrom e ∈ tried) as Hold.
  { intros i e Hi. destruct (Hedges i e Hi) as ([j e0] & Hj & Hf & Ht & Htrav). rewrite (range_some _ (gEdges b3)), He in Hj. apply elem_of_map_to_list in Hj.
    destruct (sound_edges0 _ _ Hj) as (H1 & H2 & H3). cbn [snd] in *. assert (eFrom e = eFrom e0) as Hfrom.
    { rewrite Hf, Hc, canonical_same by done. unfold redirect. rewrite decide_False; [done|]. intros E0. by rewrite E0 in H3. }
    exists j, e0. split; [done|]. split; [done|]. split; [rewrite Ht, Hc, canonical_same by done; done|]. split; [done|]. rewrite Hfrom. split; [|split; [|done]].
    - rewrite <- Hfrom, Hf. by apply canonical_end.
    - rewrite Ht. by apply canonical_end. }
  constructor.
  - constructor; try done; cbn [gEdges gTruncated gFrontier gFrontierSeen gAliases b' put_frontier put_sources put_edges].
    + intros id n Hn Hx. by destruct (N3 _ _ Hn Hx).
    + intros i e Hi. destruct (Hold i e Hi) as (j & e0 & H1). tauto.
    + rewrite Htr. intros Hne. apply sound_frontier0. left. rewrite Hfr in Ef. intros E0. rewrite E0, rebuild_frontier_nil in Ef. injection Ef as <- <-. by destruct Hne.
  - done.
  - intros i e n Hi Htrav Hn Hx Hd _. destruct (Hold i e Hi) as (j & e0 & Hj & Hf & Ht & Htr0 & _). destruct (N3 _ _ Hn Hx) as [_ (x & Hx1 & Hx2 & Hx3)]. rewrite Hf in Hx1.
    destruct (before_followed j e0 x Hj) as [HC|HT]; [congruence|done..|rewrite <- Hx3; done|by intros []| |].
    + left. rewrite Ht. by apply redirected_C.
    + right. change (gTruncated b3 = true). congruence.
  - intros id Hid Hn kind Hk. cbn [gSources b' put_frontier put_sources]. change (gAliases b' !! id) with (gAliases b3 !! id) in Hn.
    assert (gAliases b !! id = None) as Hn0 by (rewrite Ha in Hn; apply lookup_insert_None in Hn; by destruct Hn).
    destruct (before_sourced id Hid Hn0 kind Hk) as [v Hv]. destruct (sound_sources0 _ _ Hv) as [Hkey Hvk]. pose proof (Hus (graphV2SourceKey id kind)) as Hu. rewrite Hs, Hv in Hu.
    destruct (us !! graphV2SourceKey id kind) as [u|] eqn:Eu; [|done]. injection Hu as Hu1 Hu2.
    apply source_key_inj in Hkey as [-> ->]; [|by apply source_kind_plain, known_kinds|by apply source_kind_plain]. rewrite <- Hu1, <- Hu2.
    apply Hrange, Hkept in Eu. rewrite canonical_same in Eu; [done|done|by rewrite Hu1].
  - exact N5.
  - exact N6.
Qed.
End moved.
End GraphMoved.
