(* ===== verification/GraphSteady.v ===== *)
(** * The Jira artifact graph: a complete traversal

    The loop keeps [steady] true, so a graph that is not truncated followed every
    link it was to follow. *)

From stdpp Require Import vector pretty.
From S2P Require Import Prelude GoText TextOrder Encoding WikiScanner Markdown NetUrl MdView GraphTypes Scmref GraphExtract GraphCollect GraphResult GraphTraversal GraphLoop GraphShape GraphAlias GraphFollow GraphMoved.
Import GoText TextOrder Encoding GraphTypes GraphExtract GraphCollect GraphResult GraphTraversal GraphShape GraphAlias GraphFollow GraphMoved.
Import GraphLoop (some_order).

Module GraphSteady.
Local Open Scope Z_scope.
Local Open Scope atl_scope.

#[local] Arguments canonicalNodeID : simpl never.

(** ** The order of the queue *)

#[export] Instance queue_le_total : base.Total queue_le.
Proof.
  intros a b. unfold queue_le. rewrite (Z.eqb_sym (iDepth a)). destruct (iDepth b =? iDepth a) eqn:E; cbn [negb].
  - destruct (text_ltb (iID b) (iID a)) eqn:E1; [right|by left]. destruct (text_ltb (iID a) (iID b)) eqn:E2; [|done].
    pose proof (text_ltb_trans _ _ _ E1 E2) as Ht. by rewrite text_ltb_irrefl in Ht.
  - apply Z.eqb_neq in E. destruct (Z_lt_le_dec (iDepth b) (iDepth a)); [right|left]; apply Z.ltb_ge; lia.
Qed.
Lemma queue_le_depth a b : queue_le a b → iDepth a ≤ iDepth b.
Proof. unfold queue_le. destruct (iDepth b =? iDepth a) eqn:E; cbn [negb]; [apply Z.eqb_eq in E; lia|]. intros Hb%Z.ltb_ge. lia. Qed.
Lemma queue_head q item rest : merge_sort queue_le q = item :: rest → q ≡ₚ item :: rest ∧ ∀ i, i ∈ rest → iDepth item ≤ iDepth i.
Proof.
  intros Hs. split; [by rewrite <- Hs, merge_sort_Permutation|].
  assert (StronglySorted (λ a b : jiraGraphQueueItem, iDepth a ≤ iDepth b) (item :: rest)) as Hsorted.
  { apply Sorted_StronglySorted; [intros a b c ? ?; lia|]. rewrite <- Hs. pose proof (Sorted_merge_sort queue_le q) as Hq. revert Hq. generalize (merge_sort queue_le q). clear.
    induction 1 as [|x l Hl IH Hx]; constructor; [done|]. destruct Hx; constructor. by apply queue_le_depth. }
  apply StronglySorted_inv in Hsorted as [_ Hall]. by rewrite Forall_forall in Hall.
Qed.

Section steady.
Context `{Lang} (range_over : ∀ A : Type, gmap text A → list (text * A)) (o : JiraIssueGraphOptions).
Hypothesis range_some : some_order range_over.
Hypothesis few_nodes : 1 ≤ oMaxNodes o.
Hypothesis known_kinds : ∀ kind, kind ∈ sourceKinds o → kind ∈ jiraGraphSourceKinds true.

(** ** States between iterations *)

(** Issues that were tried or wait in the queue. *)
Definition covers (tried : list text) (q : list jiraGraphQueueItem) (b : jiraGraphV2Builder) (id : text) : Prop :=
  id ∈ tried ∨ ∃ item, item ∈ q ∧ canonicalNodeID b (iID item) = id.
Definition waiting (d : Z) (q : list jiraGraphQueueItem) : Prop := ∀ item, item ∈ q → d ≤ iDepth item ∧ issue_like (iID item).
Definition known (q : list jiraGraphQueueItem) (b : jiraGraphV2Builder) : Prop := ∀ item, item ∈ q → is_Some (gNodes b !! canonicalNodeID b (iID item)).
Record steady_at (d : Z) (tried : list text) (q : list jiraGraphQueueItem) (b : jiraGraphV2Builder) : Prop := {
  steady_sound : sound o tried d b;
  steady_followed : followed o none (covers tried q b) b;
  steady_sourced : sourced o tried b;
  steady_waiting : waiting d q;
  steady_known : known q b ∨ gNodes b = ∅ ∧ ∃ item, q = [item] ∧ iDepth item = 0 }.
Definition steady (t : traversal) : Prop := ∃ d, steady_at d (t_attempted t) (t_queue t) (t_builder t).
(** After the loop. *)
Definition settled (b : jiraGraphV2Builder) : Prop :=
  gTruncated b = true ∨ ∃ tried d, sound o tried d b ∧ followed o none (λ id, id ∈ tried) b ∧ sourced o tried b.
Definition outcome (r : step_result) : Prop := match r with Next t => steady t | Stop _ _ b => settled b | Fail _ => True end.
(** The issue [id] at depth [d] was taken from the queue, which is now [q]. *)
Record taken (tried : list text) (d : Z) (q : list jiraGraphQueueItem) (id : text) (b : jiraGraphV2Builder) : Prop := {
  taken_sound : sound o tried d b;
  taken_followed : followed o none (covers (id :: tried) q b) b;
  taken_sourced : sourced o tried b;
  taken_waiting : waiting d q;
  taken_known : known q b;
  taken_fresh : id ∉ tried;
  taken_end : gAliases b !! id = None;
  taken_issue : issue_like id;
  taken_there : is_Some (gNodes b !! id) ∨ gNodes b = ∅ }.

Lemma followed_weaken skip skip' (C C' : text → Prop) b : followed o skip C b → (∀ x, skip x → skip' x) → (∀ x, C x → C' x) → followed o skip' C' b.
Proof. intros Hf Hs HC i e n He Ht Hn Hx Hd Hne. destruct (Hf i e n He Ht Hn Hx Hd); [by intros ?%Hs|left; by apply HC|by right]. Qed.
Lemma sound_more tried tried' d d' b : sound o tried d b → (∀ x, x ∈ tried → x ∈ tried') → d ≤ d' → sound o tried' d' b.
Proof.
  intros [] Ht Hd. constructor; try done.
  - intros id n Hn [Hi|Hi]; apply (sound_unread0 id n Hn); [left; by intros ?%Ht|by right].
  - intros id n Hn Hx. pose proof (sound_depth0 id n Hn Hx). lia.
  - intros i e He. destruct (sound_edges0 i e He) as (? & ? & ?). auto.
Qed.
Lemma pop d tried q b item rest : steady_at d tried q b → merge_sort queue_le q = item :: rest → let id := canonicalNodeID b (iID item) in
  (id ∈ tried → steady_at d tried rest b) ∧ (id ∉ tried → taken tried (iDepth item) rest id b ∧ (is_Some (gNodes b !! id) ∨ iDepth item = 0)).
Proof.
  intros [] [Hq Hmin]%queue_head. cbv zeta. assert (∀ x, covers tried q b x → covers (canonicalNodeID b (iID item) :: tried) rest b x) as HC.
  { intros x [Hx|(i & Hi & <-)]; [left; by right|]. rewrite Hq in Hi. apply elem_of_cons in Hi as [->|Hi]; [left; by left|right; by exists i]. }
  assert (known rest b) as Hknown.
  { destruct steady_known0 as [Hk|(_ & i & -> & _)]; [intros j Hj; apply Hk; rewrite Hq; by right|]. apply Permutation_singleton_l in Hq. injection Hq as _ <-. by intros j ?%elem_of_nil. }
  assert (waiting d rest) as Hwait by (intros j Hj; apply steady_waiting0; rewrite Hq; by right).
  destruct (steady_waiting0 item) as [Hd Hissue]; [rewrite Hq; by left|]. pose proof (sound_aliases _ _ _ _ steady_sound0) as Ha. split; intros Hid.
  - constructor; try done; [|by left]. eapply followed_weaken; [done|done|]. intros x [[->|Hx]%elem_of_cons|Hx]%HC; [by left..|by right].
  - split.
    + constructor; try done.
      * by eapply sound_more.
      * by eapply followed_weaken.
      * intros j Hj. split; [by apply Hmin|by apply Hwait].
      * by apply canonical_end.
      * by apply canonical_issue.
      * destruct steady_known0 as [Hk|[He _]]; [left; apply Hk; rewrite Hq; by left|by right].
    + destruct steady_known0 as [Hk|(_ & i & -> & Hi)]; [left; apply Hk; rewrite Hq; by left|right]. apply Permutation_singleton_l in Hq. by injection Hq as -> _.
Qed.

(** ** An issue that cannot be read *)

Lemma fail_sources_record id depth status truncated reason m :
  let failed kind := failed_source id depth status truncated reason (jiraGraphSourceStability kind) kind in let us := list_to_map (map (λ k, (k, failed k)) (sourceKinds o)) in
  fail_sources o id depth status truncated reason m = fold_left (record_source id us) (sourceKinds o) m ∧ collected o id us.
Proof.
  cbv zeta. set (failed := λ kind, failed_source id depth status truncated reason (jiraGraphSourceStability kind) kind). set (us := list_to_map _ : gmap text ArtifactGraphSource).
  assert (∀ kind, kind ∈ sourceKinds o → us !! kind = Some (failed kind)) as Hus.
  { unfold us. generalize (sourceKinds o). intros l. induction l as [|k ks IH]; intros kind Hk; [by apply elem_of_nil in Hk|]. cbn [map]. rewrite list_to_map_cons, lookup_insert. case_decide as Hd; [by subst|].
    apply elem_of_cons in Hk as [->|Hk]; [done|by apply IH]. }
  split; [|intros kind Hk; exists (failed kind); by rewrite (Hus _ Hk)].
  unfold fail_sources. assert (∀ l m, (∀ k, k ∈ l → k ∈ sourceKinds o) → fold_left (λ m kind, <[graphV2SourceKey id kind := failed kind]> m) l m = fold_left (record_source id us) l m) as Hl; [|by apply Hl].
  induction l as [|k ks IH]; intros m' Hk; cbn [fold_left]; [done|]. rewrite IH by (intros x Hx; apply Hk; by right). f_equal. unfold record_source. rewrite Hus; [done|apply Hk; by left].
Qed.
(** With its issue among the tried ones, a taken state is one in which it may be written. *)
Lemma taken_merging tried d q id b : taken tried d q id b →
  merging_state o (id :: tried) d id (covers (id :: tried) q b) tried (gAliases b) (λ i, is_Some (gNodes b !! i)) b.
Proof.
  intros []. constructor; try done.
  - eapply sound_more; [done| |done]. intros x Hx. by right.
  - by apply (followed_weaken none _ _ _ _ taken_followed0).
  - intros i e He Ht Hfrom. destruct (sound_edges _ _ _ _ taken_sound0 _ _ He) as (_ & _ & Hin). by rewrite Hfrom in Hin.
Qed.
Lemma merging_known tried d id C before q b b' : known q b → merging_state o tried d id C before (gAliases b) (λ i, is_Some (gNodes b !! i)) b' → known q b'.
Proof. intros Hk Hm item Hi. destruct Hm. unfold canonicalNodeID. rewrite merging_names0. apply merging_present0. by apply Hk. Qed.
Lemma failed_steady tried d q item e b : taken tried d q (iID item) b → is_Some (gNodes b !! iID item) → iDepth item = d → steady_at d (iID item :: tried) q (qualifyFailedNode o item e b).
Proof.
  intros Ht [n Hn] Hd. pose proof (taken_merging _ _ _ _ _ Ht) as Hm. unfold qualifyFailedNode. destruct (failure_of e) as [[state status] reason]. rewrite Hn. cbn [default from_option id].
  set (b1 := put_nodes _ b). destruct (fail_sources_record (iID item) (iDepth item) status (isJiraGraphBudgetError e) reason (gSources b1)) as [-> Hus].
  assert (merging_state o (iID item :: tried) d (iID item) (covers (iID item :: tried) q b) tried (gAliases b) (λ i, is_Some (gNodes b !! i)) b1) as H1.
  { apply merging_put_nodes; [done|]. destruct Ht. constructor; try done.
    - split; [|done]. by destruct (sound_ids _ _ _ _ taken_sound0 _ _ Hn).
    - intros [Hi|Hi]; [destruct Hi; by left|done].
    - intros x _ _ Hi. destruct Hi. by left.
    - left. by eexists. }
  set (us := list_to_map _) in *. apply (merging_put_sources o known_kinds _ _ _ _ _ _ _ us (sourceKinds o)) in H1; [|done..].
  set (b2 := put_sources _ b1) in *. destruct Ht.
  assert (gNodes b2 !! iID item = Some (failed_node state (iDepth item) n)) as Hself by (cbn; by rewrite lookup_insert, decide_True).
  constructor.
  - by destruct H1.
  - intros i x m Hx Htr Hm' Hex Hlt _. destruct (decide (eFrom x = iID item)) as [Hf|Hf]; [rewrite Hf, Hself in Hm'; by injection Hm' as <-|].
    destruct H1. by apply (merging_followed0 i x m).
  - intros i [->|Hi]%elem_of_cons Ha; [by apply recorded|]. destruct H1. by apply merging_sourced0.
  - done.
  - left. by eapply merging_known.
Qed.

(** ** The frontier *)

Lemma frontier_truncates item reason b : (gFrontierSeen b ≠ [] → gTruncated b = true) → gTruncated (addFrontier o item reason b) = true.
Proof.
  intros Hs. unfold addFrontier. cbv zeta. destruct (oneOf _ (gFrontierSeen b)) eqn:E; [|by destruct (_ <=? _)]. apply Hs. intros E0. by rewrite E0 in E.
Qed.
Lemma frontier_keeps item reason b : gTruncated b = true → gTruncated (addFrontier o item reason b) = true.
Proof. intros Ht. by apply frontier_truncates. Qed.
Lemma frontier_all_keeps items reason b : gTruncated b = true → gTruncated (addFrontierAll o items reason b) = true.
Proof. intros Ht. unfold addFrontierAll. apply (fold_left_ind (λ b, gTruncated b = true)); [|done]. intros. by apply frontier_keeps. Qed.
Lemma frontier_all_truncates items reason b : (gFrontierSeen b ≠ [] → gTruncated b = true) → items = [] ∨ gTruncated (addFrontierAll o items reason b) = true.
Proof. intros Hs. destruct items as [|i items]; [by left|right]. unfold addFrontierAll. cbn [fold_left]. by apply frontier_all_keeps, frontier_truncates. Qed.

(** ** An issue that was read *)

(** Every link from [id] leads to an issue that was tried or comes next. *)
Lemma next_covers tried d id C before names present depth b : merging_state o tried d id C before names present b →
  ∀ i e, gEdges b !! i = Some e → jiraGraphTraversableEdge e = true → eFrom e = id →
    eTo e ∈ tried ∨ ∃ item, item ∈ followableJiraNodes b id depth tried ∧ canonicalNodeID b (iID item) = eTo e.
Proof.
  intros [[] Hf Hs Hl Hse Hpr Hna] i e He Ht Hfrom. destruct (decide (eTo e ∈ tried)) as [Hin|Hin]; [by left|right]. destruct (Hs i e He Ht Hfrom) as (Hi & n & Hn & Hst).
  exists (queue_item depth (eTo e)). split; [|by apply canonical_same; destruct (sound_edges0 _ _ He) as (_ & ? & _)].
  unfold followableJiraNodes. apply list_elem_of_fmap. exists (eTo e). split; [done|]. unfold sort_on. rewrite merge_sort_Permutation, elem_of_remove_dups.
  apply list_elem_of_omap. exists e. split; [apply list_elem_of_fmap; exists (i, e); split; [done|by apply elem_of_map_to_list]|].
  destruct (sound_unread0 _ _ Hn (or_introl Hin)) as [_ Hu]. destruct (Hu Hi) as [Hk _], (sound_ids0 _ _ Hn) as [Hid _].
  unfold followable. rewrite Hn, Ht, Hk, Hst, Hid by done. unfold eqt. rewrite !bool_decide_eq_true_2 by done. cbn [negb andb].
  assert (oneOf (eTo e) tried = false) as ->; [|done]. apply not_true_iff_false. unfold oneOf. rewrite existsb_exists. intros (x & Hx & Ex%bool_decide_eq_true). subst x. by apply list_elem_of_In in Hx.
Qed.
Lemma next_items tried d id C before names present depth b item : merging_state o tried d id C before names present b → item ∈ followableJiraNodes b id depth tried →
  iDepth item = depth ∧ issue_like (iID item) ∧ is_Some (gNodes b !! canonicalNodeID b (iID item)).
Proof.
  intros [[] Hf Hs Hl Hse Hpr Hna]. unfold followableJiraNodes. intros (x & -> & Hx)%list_elem_of_fmap. split; [done|]. unfold sort_on in Hx. rewrite merge_sort_Permutation, elem_of_remove_dups in Hx.
  apply list_elem_of_omap in Hx as (e & He & Hfo). apply list_elem_of_fmap in He as ([i e'] & -> & He%elem_of_map_to_list). cbn [snd] in *.
  unfold followable in Hfo. destruct (negb _) eqn:Hfrom; [done|]. apply negb_false_iff, bool_decide_eq_true in Hfrom. destruct (gNodes b !! eTo e') as [n|] eqn:En; [|done].
  destruct (_ && _) eqn:Et; [|done]. injection Hfo as <-. apply andb_true_iff in Et as [[[Et _]%andb_true_iff _]%andb_true_iff _]. destruct (sound_ids0 _ _ En) as [Hid Ha].
  cbn [iID queue_item]. rewrite Hid. split; [by destruct (Hs i e' He Et Hfrom)|]. rewrite canonical_same by done. by eexists.
Qed.
Lemma expand_steady s t tried q snapshot id d b : taken tried d q id b → outcome (expand o s t q (id :: tried) snapshot id d b).
Proof.
  intros Ht. pose proof (taken_merging _ _ _ _ _ Ht) as Hm. unfold expand. destruct (collectJiraGraphV2Node _ _ _ _ _ _ _) as [p|] eqn:Ep; [|done].
  destruct (mergeProjection o p id d b) as [b' us] eqn:Eb. apply (merge_projection o few_nodes known_kinds (id :: tried) d id (covers (id :: tried) q b) tried (gAliases b) (λ i, is_Some (gNodes b !! i)) p) in Eb as [Hm' (n & Hn & Hnd)];
    [|by eapply collect_projection|by left|by destruct Ht|exact Hm|by destruct Ht].
  pose proof Hm' as [[] Hf Hs Hl Hse Hpr Hna]. assert (known q b') as Hknown.
  { destruct Ht. intros item Hi. unfold canonicalNodeID. rewrite Hna. apply Hpr. left. by apply taken_known0. }
  assert (∀ x, covers (id :: tried) q b x → covers (id :: tried) q b' x) as Hcov by (intros x [Hx|(i & Hi & Hx)]; [by left|right; exists i; unfold canonicalNodeID; by rewrite Hna]).
  destruct (projectionBudgetReason p us) as [reason|].
  - cbn [outcome]. set (next := followableJiraNodes b' id (d + 1) (id :: tried)).
    destruct (frontier_all_truncates next reason b') as [Hnext|Htr]; [by intros ?; apply sound_frontier0; right| |by left; apply frontier_all_keeps].
    rewrite Hnext. cbn [addFrontierAll fold_left]. destruct (frontier_all_truncates q reason b') as [->|Htr]; [by intros ?; apply sound_frontier0; right| |by left].
    right. exists (id :: tried), d. split; [by constructor|]. split; [|done]. intros i e m He Htrav Hnode Hx Hd _. destruct (decide (eFrom e = id)) as [Hfrom|Hfrom].
    + destruct (next_covers _ _ _ _ _ _ _ (d + 1) _ Hm' i e He Htrav Hfrom) as [Hin|(item & Hi & _)]; [by left|]. unfold next in Hnext. rewrite Hnext in Hi. by apply elem_of_nil in Hi.
    + destruct (Hf i e m He Htrav Hnode Hx Hd Hfrom) as [[Hin|(item & Hi & _)]|Htr]; [by left|by apply elem_of_nil in Hi|by right].
  - cbn [outcome]. exists d. cbn [t_attempted t_queue t_builder]. constructor; [by constructor| |done| |left].
    + intros i e m He Htrav Hnode Hx Hd _. destruct (decide (eFrom e = id)) as [Hfrom|Hfrom].
      * rewrite Hfrom, Hn in Hnode. injection Hnode as <-. assert ((oDepth o <=? d) = false) as -> by (apply Z.leb_gt; lia). left.
        destruct (next_covers _ _ _ _ _ _ _ (d + 1) _ Hm' i e He Htrav Hfrom) as [Hin|(item & Hi & Hc)]; [by left|]. right. exists item. split; [|done]. apply elem_of_app. by right.
      * destruct (Hf i e m He Htrav Hnode Hx Hd Hfrom) as [Hc|Htr]; [left|by right]. destruct (Hcov _ Hc) as [Hin|(item & Hi & Hi')]; [by left|]. right. exists item. split; [|done].
        apply elem_of_app. by left.
    + destruct Ht. intros item [Hi|Hi]%elem_of_app; [by apply taken_waiting0|]. destruct (oDepth o <=? d); [by apply elem_of_nil in Hi|].
      destruct (next_items _ _ _ _ _ _ _ _ _ _ Hm' Hi) as (-> & Hi' & _). split; [lia|done].
    + intros item [Hi|Hi]%elem_of_app; [by apply Hknown|]. destruct (oDepth o <=? d); [by apply elem_of_nil in Hi|]. by destruct (next_items _ _ _ _ _ _ _ _ _ _ Hm' Hi) as (_ & _ & ?).
Qed.

(** ** An issue that has moved *)

Lemma moved_taken tried d q old new b : taken tried d q old b → gAliases b !! new = None → issue_like new → old ≠ new →
  let b' := reconcileMovedNode range_over o old new d b in
  (new ∈ tried → steady_at d (new :: old :: tried) q b') ∧ (new ∉ tried → taken (old :: tried) d q new b').
Proof.
  intros [] Hend Hissue Hne. cbv zeta. set (b' := reconcileMovedNode _ _ _ _ _ _).
  pose proof (sound_aliases _ _ _ _ taken_sound0) as Ha.
  assert (gAliases b' = <[old := new]> (gAliases b) → ∀ x, canonicalNodeID b' x = redirect old new (canonicalNodeID b x)) as Hcan by (intros Hn x; by apply canonical_redirect).
  assert (∀ x, covers (old :: tried) q b x → covers (new :: old :: tried) q b' (redirect old new x) ∨ gAliases b' ≠ <[old := new]> (gAliases b)) as Hcov.
  { intros x Hx. destruct (decide (gAliases b' = <[old := new]> (gAliases b))) as [Hn|Hn]; [left|by right]. destruct Hx as [Hx|(i & Hi & <-)]; [|right; exists i; by rewrite Hcan].
    left. unfold redirect. case_decide; [by left|by right]. }
  assert (move o tried d old new (covers (old :: tried) q b) (λ x, covers (new :: old :: tried) q b' x ∨ gAliases b' ≠ <[old := new]> (gAliases b)) b b') as [].
  { apply reconciled; try done. }
  assert (followed o none (covers (new :: old :: tried) q b') b') as Hf by (eapply followed_weaken; [exact move_followed0|done|]; by intros x [?|?]).
  assert (sourced o (old :: tried) b') as Hs.
  { intros x [->|Hx]%elem_of_cons; [|by apply move_sourced0]. intros Hn. by rewrite move_names0, lookup_insert, decide_True in Hn. }
  assert (known q b') as Hk.
  { intros item Hi. rewrite Hcan by done. unfold redirect. case_decide; [done|]. apply move_kept0; [by apply taken_known0|done]. }
  assert (gAliases b' !! new = None) as Hend' by (rewrite move_names0; by rewrite lookup_insert_ne).
  split; intros Hnew.
  - constructor; try done; [| |by left].
    + eapply sound_more; [exact move_sound0| |done]. intros x Hx. right. by right.
    + intros x [->|Hx]%elem_of_cons; apply Hs; [by right|done].
  - constructor; try done; [| |by left].
    + eapply sound_more; [exact move_sound0| |done]. intros x Hx. by right.
    + intros [?|?]%elem_of_cons; [by subst|done].
Qed.

(** ** The loop *)

Lemma taken_attempt tried d q id b : taken tried d q id b → taken tried d q id (attempt b).
Proof. intros [[]]. by repeat (constructor; try done). Qed.
Lemma limited_root_settled tried d q id b item e : taken tried d q id b → settled (qualifyBudgetLimitedRoot o item e b).
Proof.
  intros [[]]. left. unfold qualifyBudgetLimitedRoot. cbv zeta. apply frontier_truncates. intros Hs. cbn [gFrontierSeen gTruncated put_sources put_nodes] in *. apply sound_frontier0. by right.
Qed.
Lemma visit_steady s t q item tried : taken (t_attempted t) (iDepth item) q (iID item) (t_builder t) →
  is_Some (gNodes (t_builder t) !! iID item) ∨ iDepth item = 0 → tried = t_attempted t → outcome (visit range_over o s t q item).
Proof.
  intros Ht Hthere _. pose proof (taken_attempt _ _ _ _ _ Ht) as Hta. unfold visit. cbv zeta.
  assert (∀ e b, taken (t_attempted t) (iDepth item) q (iID item) b → gNodes b = gNodes (t_builder t) → iDepth item ≠ 0 →
    steady_at (iDepth item) (iID item :: t_attempted t) q (qualifyFailedNode o item e b)) as Hfail.
  { intros e b Hb Hn Hd. apply failed_steady; [done| |done]. rewrite Hn. by destruct Hthere as [?|?]. }
  destruct (answer (snapshot_at s (t_reads t) (iKey item))) as [snapshot|e].
  - destruct (validateJiraGraphV2Snapshot snapshot (iKey item)) as [[snap key]|e]; [|destruct (iDepth item =? 0) eqn:Ed; [done|exists (iDepth item); apply Z.eqb_neq in Ed; by apply Hfail]].
    set (new := canonicalNodeID _ _). pose proof (sound_aliases _ _ _ _ (taken_sound _ _ _ _ _ Hta)) as Ha.
    assert (gAliases (attempt (t_builder t)) !! new = None) as Hend by by apply canonical_end.
    assert (issue_like new) as Hissue by (apply canonical_issue; [done|]; unfold issue_like, issue_id; rewrite has_prefix_spec; by eexists).
    destruct (eqt new (iID item)) eqn:Enew; [apply bool_decide_eq_true in Enew; rewrite Enew; by apply expand_steady|]. apply bool_decide_eq_false in Enew.
    destruct (moved_taken _ _ _ _ new _ Hta Hend Hissue ltac:(congruence)) as [H1 H2]. destruct (oneOf new (iID item :: t_attempted t)) eqn:Eo.
    + apply oneOf_spec in Eo. apply elem_of_cons in Eo as [Eo|Eo]; [done|]. exists (iDepth item). by apply H1.
    + apply expand_steady, H2. intros Hin. assert (oneOf new (iID item :: t_attempted t) = true) as Hc by (apply oneOf_spec; by right). congruence.
  - destruct (ctx_err _) as [stop|]; [done|]. set (b := if Is e ErrReadAttemptBudgetExhausted then _ else _).
    assert (taken (t_attempted t) (iDepth item) q (iID item) b ∧ gNodes b = gNodes (t_builder t)) as [Hb Hn] by (unfold b; by destruct (Is e _)).
    destruct (iDepth item =? 0) eqn:Ed; [destruct (isJiraGraphBudgetError e); [by eapply limited_root_settled|done]|]. apply Z.eqb_neq in Ed.
    destruct (isJiraGraphBudgetError e); [|by exists (iDepth item); apply Hfail]. left. apply frontier_all_keeps, frontier_truncates.
    destruct (Hfail e b Hb Hn Ed) as [[] _ _ _ _]. intros Hs. apply sound_frontier0. by right.
Qed.
Lemma step_steady s t : steady t → outcome (step range_over o s t).
Proof.
  intros [d Hs]. unfold step. destruct (merge_sort queue_le (t_queue t)) as [|item q] eqn:Eq.
  - cbn [outcome]. destruct Hs. right. exists (t_attempted t), d. split; [done|]. split; [|done]. eapply followed_weaken; [done|done|]. intros x [Hx|(i & Hi & _)]; [done|].
    rewrite <- (merge_sort_Permutation queue_le), Eq in Hi. by apply elem_of_nil in Hi.
  - destruct (pop _ _ _ _ _ _ Hs Eq) as [H1 H2]. cbv zeta. destruct (oneOf _ (t_attempted t)) eqn:Eo.
    + exists d. by apply H1, oneOf_spec.
    + destruct H2 as [H2 H3]; [intros Hin%oneOf_spec; congruence|]. by eapply visit_steady.
Qed.
Lemma iterate_steady s k t : steady t → outcome (iterate range_over o k s t).
Proof.
  revert t. induction k as [|k IH]; intros t Ht; cbn [iterate]; [by apply step_steady|]. specialize (IH t Ht) as H1. destruct (iterate range_over o k s t) as [t'| |]; [|done..]. by apply IH.
Qed.
Lemma steady_start key : steady {| t_queue := [{| iID := issue_id key; iKey := key; iDepth := 0 |}]; t_attempted := []; t_reads := 0; t_builder := newJiraGraphV2Builder key |}.
Proof.
  exists 0. cbn [t_attempted t_queue t_builder]. constructor; try done.
  - constructor; try done; cbn [gAliases gNodes gEdges gSources gFrontier gFrontierSeen newJiraGraphV2Builder].
    + constructor; [intros x; exists [], x; by constructor|by intros x y].
    + rewrite map_size_empty. lia.
    + by intros [?|?].
  - by intros x ?%elem_of_nil.
  - intros item ->%list_elem_of_singleton. split; [done|]. unfold issue_like, issue_id. rewrite has_prefix_spec. by eexists.
  - right. split; [done|]. by eexists.
Qed.

(** ** After the loop *)

(** The sources of where the links lead. *)
Record answered (b : jiraGraphV2Builder) : Prop := {
  answered_ids : ∀ id n, gNodes b !! id = Some n → nID n = id;
  answered_links : ∀ i e n kind, gEdges b !! i = Some e → jiraGraphTraversableEdge e = true → gNodes b !! eFrom e = Some n → nExpanded n = true → nDepth n < oDepth o →
    kind ∈ sourceKinds o → ∃ u, gSources b !! graphV2SourceKey (eTo e) kind = Some u ∧ uNodeID u = eTo e ∧ uKind u = kind }.
Lemma settled_answered b : settled b → gTruncated b = true ∨ answered b.
Proof.
  intros [Ht|(tried & d & [] & Hf & Hs)]; [by left|]. destruct (gTruncated b) eqn:Htr; [by left|right]. constructor.
  - intros id n Hn. by destruct (sound_ids0 _ _ Hn).
  - intros i e n kind He Ht Hn Hx Hd Hk. destruct (Hf i e n He Ht Hn Hx Hd) as [Hin|Hc]; [by intros []| |congruence].
    destruct (sound_edges0 _ _ He) as (_ & Hend & _). destruct (Hs _ Hin Hend kind Hk) as [u Hu]. exists u. split; [done|]. destruct (sound_sources0 _ _ Hu) as [Hkey Hku].
    apply source_key_inj in Hkey as [-> ->]; [done|by apply source_kind_plain, known_kinds|by apply source_kind_plain].
Qed.
(** [b'] only says more about pages than [b]. *)
Record annotates (b b' : jiraGraphV2Builder) : Prop := {
  annotates_nodes : ∀ id n', gNodes b' !! id = Some n' → ∃ n, gNodes b !! id = Some n ∧ nID n' = nID n ∧ nExpanded n' = nExpanded n ∧ nDepth n' = nDepth n;
  annotates_edges : gEdges b' = gEdges b;
  annotates_sources : gSources b' = gSources b;
  annotates_truncated : gTruncated b = true → gTruncated b' = true }.
Lemma annotates_refl b : annotates b b.
Proof. constructor; try done. intros id n Hn. by exists n. Qed.
Lemma annotates_trans b b' b'' : annotates b b' → annotates b' b'' → annotates b b''.
Proof.
  intros [] []. constructor; [|congruence|congruence|auto]. intros id n'' Hn. destruct (annotates_nodes1 _ _ Hn) as (n' & Hn' & ? & ? & ?).
  destruct (annotates_nodes0 _ _ Hn') as (n & Hn0 & ? & ? & ?). exists n. split; [done|]. split; [congruence|]. split; congruence.
Qed.
Lemma annotates_alter f id b : (∀ n, nID (f n) = nID n ∧ nExpanded (f n) = nExpanded n ∧ nDepth (f n) = nDepth n) → annotates b (put_nodes (alter f id (gNodes b)) b).
Proof.
  intros Hf. constructor; try done. intros i n'. cbn [gNodes put_nodes]. rewrite lookup_alter. case_decide as Hd; [|intros Hn; by exists n'].
  subst i. destruct (gNodes b !! id) as [n|]; [|done]. intros [= <-]. exists n. split; [done|]. apply Hf.
Qed.
Lemma annotates_frontier item reason b : annotates b (addFrontier o item reason b).
Proof.
  destruct (GraphLoop.frontier_put o item reason b) as (l & seen & cut & tr & E). constructor; rewrite E; try done; [intros id n Hn; by exists n|]. rewrite <- E. apply frontier_keeps.
Qed.
Lemma annotates_pages read index ids u b : annotates b (pages_loop o read index ids u b).2.
Proof.
  revert index u b. induction ids as [|id ids IH]; intros index u b; cbn [pages_loop]; [apply annotates_refl|]. cbv zeta. destruct (read _ _) as [[got title]|e].
  - destruct (_ || _); [apply IH|]. eapply annotates_trans; [|apply IH]. by apply annotates_alter.
  - set (b1 := put_nodes _ b). assert (annotates b b1) as H1 by by apply annotates_alter. destruct (isJiraGraphBudgetError e); [|by eapply annotates_trans; [|apply IH]].
    cbn [snd]. apply (fold_left_ind (annotates b)); [|done]. intros b2 i H2. eapply annotates_trans; [done|apply annotates_frontier].
Qed.
Lemma pages_kind read index ids u b : uKind (pages_loop o read index ids u b).1 = uKind u.
Proof.
  revert index u b. induction ids as [|id ids IH]; intros index u b; cbn [pages_loop]; [done|]. cbv zeta. destruct (read _ _) as [[got title]|e].
  - destruct (_ || _); by rewrite IH.
  - assert (uKind (page_source e u) = uKind u) as Hp by (unfold page_source; by repeat case_match). destruct (isJiraGraphBudgetError e); [done|]. by rewrite IH.
Qed.
Lemma answered_source b b' u : annotates b b' → answered b → uKind u = confluence_metadata → answered (put_sources (<[graphV2SourceKey (uNodeID u) (uKind u) := u]> (gSources b')) b').
Proof.
  intros [] [] Hu. constructor; cbn [gNodes gEdges gSources put_sources].
  - intros id n' Hn'. destruct (annotates_nodes0 _ _ Hn') as (n & Hn & -> & _). by apply answered_ids0.
  - intros i e n' kind He Ht Hn' Hx Hd Hk. rewrite annotates_edges0 in He. destruct (annotates_nodes0 _ _ Hn') as (n & Hn & _ & Hx' & Hd').
    destruct (answered_links0 i e n kind He Ht Hn ltac:(congruence) ltac:(lia) Hk) as (v & Hv & ?). exists v. split; [|done]. rewrite annotates_sources0, lookup_insert_ne; [done|].
    intros [_ Hkind]%source_key_inj; [| |by apply source_kind_plain, known_kinds]; rewrite Hu in *; [|by apply (bool_decide_unpack _); vm_compute].
    apply known_kinds in Hk. rewrite <- Hkind in Hk. revert Hk. by apply (bool_decide_unpack (¬ _)); vm_compute.
Qed.
Lemma resolve_answered s b : answered b → answered (resolveConfluence o s b).
Proof.
  intros Hb. unfold resolveConfluence. cbv zeta. destruct (_ =? 0)%nat; [apply (answered_source b b); [apply annotates_refl|done|done]|].
  destruct (page_metadata s) as [read|]; [|apply (answered_source b b); [apply annotates_refl|done|done]].
  match goal with |- context [pages_loop o read 0 ?ids ?u b] => pose proof (annotates_pages read 0 ids u b) as Ha; assert (uKind (pages_loop o read 0 ids u b).1 = confluence_metadata) as Hk; [|destruct (pages_loop o read 0 ids u b) as [u' b']] end.
  - by rewrite pages_kind.
  - cbn [fst snd] in *. apply (answered_source b b'); [done..|]. by destruct (uComplete u').
Qed.
Lemma resolve_truncated s b : gTruncated b = true → gTruncated (resolveConfluence o s b) = true.
Proof.
  intros Hb. unfold resolveConfluence. cbv zeta. destruct (_ =? 0)%nat; [done|]. destruct (page_metadata s) as [read|]; [|done].
  match goal with |- context [pages_loop o read 0 ?ids ?u b] => pose proof (annotates_pages read 0 ids u b) as Ha; destruct (pages_loop o read 0 ids u b) as [u' b'] end. by destruct Ha as [_ _ _ Ha]; apply Ha.
Qed.
End steady.

(** ** The result *)

(** Every link along which the traversal goes on from an issue that was read, and
    is not at the last level, leads to an issue for which [r] has a source of every
    selected collector. *)
Definition follows_links (r : JiraIssueGraphResult) : Prop :=
  ∀ e from kind, e ∈ Edges r → from ∈ Nodes r → eFrom e = nID from → jiraGraphTraversableEdge e = true → nExpanded from = true → nDepth from < RequestedDepth (Bounds r) →
    kind ∈ activeSourceKinds r → ∃ u, u ∈ Sources r ∧ uNodeID u = eTo e ∧ uKind u = kind.
Lemma result_follows `{Lang} o usage b : answered o b → follows_links (result_of o usage b).
Proof.
  intros [] e from kind He Hfrom Hid Ht Hx Hd Hk. unfold result_of in He, Hfrom, Hd, Hk |- *. cbn [Edges Nodes Bounds RequestedDepth Sources] in *. change (kind ∈ sourceKinds o) in Hk.
  unfold sort_on in He. rewrite merge_sort_Permutation in He. apply list_elem_of_fmap in He as ([i e0] & -> & He%elem_of_map_to_list). cbn [snd] in *.
  rewrite merge_sort_Permutation in Hfrom. apply list_elem_of_fmap in Hfrom as ([id n] & -> & Hn%elem_of_map_to_list). cbn [snd] in *. change (eFrom (sorted_evidence e0)) with (eFrom e0) in Hid.
  rewrite (answered_ids0 _ _ Hn) in Hid. subst id. destruct (answered_links0 i e0 n kind He Ht Hn Hx Hd Hk) as (u & Hu & Hu1 & Hu2). exists u. split; [|done].
  rewrite merge_sort_Permutation. apply list_elem_of_fmap. eexists (_, u). split; [done|]. by apply elem_of_map_to_list.
Qed.
Lemma finish_follows `{Lang} o usage b b' r : (∀ kind, kind ∈ sourceKinds o → kind ∈ jiraGraphSourceKinds true) → settled o b → (gTruncated b = true → gTruncated b' = true) →
  (answered o b → answered o b') → finish o usage b' = Ok r → Truncated r = false → follows_links r.
Proof.
  intros Hkinds Hb Ht Ha Hr Htr. unfold finish in Hr. cbv zeta in Hr. destruct (ensure _ _); [|done]. cbn [rbind] in Hr. injection Hr as <-.
  apply orb_false_iff in Htr as [Htr _]. apply result_follows, Ha. destruct (settled_answered o Hkinds b Hb) as [Hb'%Ht|]; [congruence|done].
Qed.
Lemma traverse_follows `{Lang} range_over o s key r : some_order range_over → 1 ≤ oMaxNodes o → (∀ kind, kind ∈ sourceKinds o → kind ∈ jiraGraphSourceKinds true) →
  traverse range_over o s key = Some (Ok r) → Truncated r = false → follows_links r.
Proof.
  intros Hrange Hnodes Hkinds. unfold traverse. cbv zeta. generalize 48%nat. intros k.
  pose proof (iterate_steady range_over o Hrange Hnodes Hkinds s k _ (steady_start o Hnodes (ToUpper key))) as Hi.
  change (gRootID (newJiraGraphV2Builder (ToUpper key))) with (issue_id (ToUpper key)).
  destruct (iterate range_over o k s _) as [t|resolve reads b|e]; [done| |done]. cbn [outcome] in Hi. intros Hr. injection Hr as Hr. revert Hr.
  apply (finish_follows o _ b); [done..| |]; (destruct (resolve && oResolveConfluence o); [|done]).
  - by apply resolve_truncated.
  - by apply resolve_answered.
Qed.
(** C10: A graph that is not truncated is complete: every link the traversal follows,
    from every issue it read above the last level, leads to an issue whose selected
    collectors all report, whatever moved meanwhile. *)
Theorem traversal_complete `{Lang} range_over capable service_of key opts r : some_order range_over →
  IssueGraphWithOptions range_over capable service_of key opts = Some (Ok r) → Truncated r = false → follows_links r.
Proof.
  intros Hrange. unfold IssueGraphWithOptions. destruct (NormalizeJiraIssueGraphOptions opts) as [o|] eqn:Eo; cbn [rbind]; [|done]. apply GraphLoop.normalized in Eo as [_ Hnodes _ _ Hkinds].
  destruct (ValidateJiraIssueGraphKey _); cbn [rbind]; [|done]. destruct (ensure _ _); cbn [rbind]; [|done]. apply traverse_follows; [done|lia|done].
Qed.
End GraphSteady.
