(* ===== verification/GraphExample.v ===== *)
(** * The Jira artifact graph: runs

    A small tracker, what the traversal makes of it, and the instances of the
    theorems about it. *)

From stdpp Require Import vector pretty.
From S2P Require Import Prelude GoText TextOrder Encoding WikiScanner Markdown NetUrl MdView GraphTypes GraphExtract GraphCollect GraphResult GraphTraversal GraphLoop GraphProjection GraphSteady.
Import GoText TextOrder Encoding GraphTypes GraphExtract GraphCollect GraphResult GraphTraversal GraphProjection.
Import GraphLoop (some_order, returns).
Import GraphSteady (follows_links).

Module GraphExample.
Local Open Scope Z_scope.
Local Open Scope atl_scope.

#[local] Instance toy : Lang :=
  {| sha256 := toy_sha256; unicode_upper := λ s, s; unicode_lower := λ s, s; unicode_fold := λ a b, eqt a b; url_Parse := λ _, None;
     url_String := λ _ _ _ _ _, [] |}.
Definition enumerate (A : Type) (m : gmap text A) : list (text * A) := map_to_list m.
(** A row of issue links. *)
Definition link_to (id : string) (target : string) (target_id : string) : value :=
  VObject [(txt "id", VString (txt id)); (txt "type", VObject [(txt "name", VString (txt "Blocks")); (txt "outward", VString (txt "blocks"))]);
           (txt "outwardIssue", VObject [(txt "id", VString (txt target_id)); (txt "key", VString (txt target))])].
Definition issue (asked key id : text) (links : list value) : QualifiedIssueSnapshot :=
  {| qRequestedKey := asked; qID := id; qKey := key; qIssueID := id; qIssueKey := key; qIssueSummary := txt "a summary";
     qFields := Some [(txt "issuelinks", VArray links); (txt "attachment", VArray [])]; qNames := Some []; qSchema := Some []; qProperties := Some [] |}.
Definition quiet : issue_reads :=
  {| read_comments := {| answer := Ok (Some []); ctx_err := None |}; read_worklogs := None; read_remote_links := None; read_development := None |}.
Definition tracker (issues : text → option QualifiedIssueSnapshot) : service :=
  {| jira_base := []; confluence_base := []; snapshot_at := λ _ key, {| answer := match issues key with Some q => Ok (Some q) | None => refuse ErrNotFound end; ctx_err := None |};
     issue_reads_at := λ _ _, quiet; page_metadata := None; usage_at := λ n, (Z.of_nat n, 1000 * Z.of_nat n) |}.
Definition options (depth nodes : Z) : JiraIssueGraphOptions :=
  {| oDepth := depth; oMaxNodes := nodes; oMaxEdges := 0; oMaxEvidence := 0; oMaxRequests := 0; oMaxResponseBytes := 0; oResolveConfluence := true; oIncludeDevelopment := false;
     oIncludeSources := Some [txt "issue_links,attachments"]; oExcludeSources := None; oSelection := None |}.
Definition run (issues : text → option QualifiedIssueSnapshot) (key : string) (depth nodes : Z) : option (fallible JiraIssueGraphResult) :=
  IssueGraphWithOptions enumerate (λ _, true) (λ _, tracker issues) (txt key) (options depth nodes).
Definition chain (key : text) : option QualifiedIssueSnapshot :=
  if eqt key (txt "AB-1") then Some (issue key key (txt "1") [link_to "10" "AB-2" "2"; link_to "11" "AB-3" "3"])
  else if eqt key (txt "AB-2") then Some (issue key (txt "AB-1") (txt "1") [])
  else if eqt key (txt "AB-3") then Some (issue key key (txt "3") [link_to "12" "AB-4" "4"])
  else if eqt key (txt "AB-4") then Some (issue key key (txt "4") [])
  else None.
Definition straight (key : text) : option QualifiedIssueSnapshot :=
  if eqt key (txt "AB-1") then Some (issue key key (txt "1") [link_to "10" "AB-2" "2"; link_to "11" "AB-3" "3"])
  else if eqt key (txt "AB-2") then Some (issue key key (txt "2") [])
  else if eqt key (txt "AB-3") then Some (issue key key (txt "3") [link_to "12" "AB-4" "4"])
  else if eqt key (txt "AB-4") then Some (issue key key (txt "4") [])
  else None.
Definition brief (r : option (fallible JiraIssueGraphResult)) :=
  match r with
  | Some (Ok r) => inl (rComplete r, Truncated r, map (λ n, (String.string_of_list_ascii (nID n), nDepth n, nExpanded n)) (Nodes r), zlen (Edges r), length (Frontier r), AttemptedNodes (Bounds r))
  | Some (Err _) => inr true
  | None => inr false
  end.

(** ** Runs *)

(** AB-1 links to AB-2 and AB-3, AB-3 to AB-4. *)
Example straight_complete :
  brief (run straight "AB-1" 2 10) =
  inl (true, false, [("jira:issue:AB-1", 0, true); ("jira:issue:AB-2", 1, true); ("jira:issue:AB-3", 1, true); ("jira:issue:AB-4", 2, true)]%string, 3, 0%nat, 4).
Proof. vm_compute. reflexivity. Qed.
(** With room for three issues the fourth is on the frontier. *)
Example straight_bounded : brief (run straight "AB-1" 2 3) = inl (false, true, [("jira:issue:AB-1", 0, true); ("jira:issue:AB-2", 1, true); ("jira:issue:AB-3", 1, true)]%string, 2, 1%nat, 3).
Proof. vm_compute. reflexivity. Qed.
(** An issue that moved to the root is merged into it; the link to it is then one
    of the root to itself, which is left out and makes its source partial. *)
Example chain_complete : brief (run chain "AB-1" 2 10) = inl (false, false, [("jira:issue:AB-1", 0, true); ("jira:issue:AB-3", 1, true); ("jira:issue:AB-4", 2, true)]%string, 2, 0%nat, 4).
Proof. vm_compute. reflexivity. Qed.
(** Its attempt still counts against the bound on nodes, and the whole graph is
    refused. *)
Example chain_refused : brief (run chain "AB-1" 2 3) = inr true.
Proof. vm_compute. reflexivity. Qed.

(** ** The theorems at these runs *)

Lemma enumerate_order : some_order enumerate. Proof. by intros A m. Qed.
Lemma traversal_returns_witness : returns (run chain "AB-1" 2 10).
Proof. exact (GraphLoop.traversal_returns enumerate (λ _, true) (λ _, tracker chain) (txt "AB-1") (options 2 10) enumerate_order). Defined.
Definition straight_graph : fallible JiraIssueGraphResult := default (refuse ErrConfig) (run straight "AB-1" 2 10).
Lemma straight_runs : IssueGraphWithOptions enumerate (λ _, true) (λ _, tracker straight) (txt "AB-1") (options 2 10) = Some straight_graph.
Proof. vm_compute. reflexivity. Qed.
Lemma straight_whole : match straight_graph with Ok r => negb (Truncated r) && (length (Edges r) =? 3)%nat | Err _ => false end = true.
Proof. vm_compute. reflexivity. Qed.
Lemma traversal_complete_witness : ∃ r, straight_graph = Ok r ∧ length (Edges r) = 3%nat ∧ follows_links r.
Proof.
  pose proof straight_runs as Hrun. pose proof straight_whole as Hok. destruct straight_graph as [r|]; [|discriminate Hok].
  apply andb_true_iff in Hok as [Htr%negb_true_iff Hlen%Nat.eqb_eq]. exists r. split; [reflexivity|]. split; [exact Hlen|].
  exact (GraphSteady.traversal_complete enumerate (λ _, true) (λ _, tracker straight) (txt "AB-1") (options 2 10) r enumerate_order Hrun Htr).
Defined.

(** ** A projection *)

(** AB-1 is mentioned with a URL that cannot be read, in a comment. *)
Definition commented (t : string) : service :=
  {| jira_base := []; confluence_base := [];
     snapshot_at := λ _ key, {| answer := Ok (Some (issue key key (txt "1") [])); ctx_err := None |};
     issue_reads_at := λ _ _, {| read_comments := {| answer := Ok (Some [(txt "7", txt t)]); ctx_err := None |}; read_worklogs := None; read_remote_links := None; read_development := None |};
     page_metadata := None; usage_at := λ n, (Z.of_nat n, 1000 * Z.of_nat n) |}.
Definition comment_options : JiraIssueGraphOptions :=
  {| oDepth := 1; oMaxNodes := 0; oMaxEdges := 0; oMaxEvidence := 0; oMaxRequests := 0; oMaxResponseBytes := 0; oResolveConfluence := false; oIncludeDevelopment := false;
     oIncludeSources := Some [txt "comments,worklogs"]; oExcludeSources := None; oSelection := None |}.
Definition commented_graph (t : string) : fallible JiraIssueGraphResult :=
  default (refuse ErrConfig) (IssueGraphWithOptions enumerate (λ _, true) (λ _, commented t) (txt "AB-1") comment_options).
Definition mentioned : fallible JiraIssueGraphResult := commented_graph "see https://example.org/x".
Definition compact_options : JiraIssueGraphProjectionOptions := {| Projection := txt "compact"; Selectors := [] |}.
Lemma mentioned_compacts :
  match mentioned with Ok full => match ProjectJiraIssueGraphCompact full compact_options with Ok c => (length (cFacts c) =? 1)%nat | Err _ => false end | Err _ => false end = true.
Proof. vm_compute. reflexivity. Qed.
Lemma compact_exact_witness : ∃ full c, mentioned = Ok full ∧ length (cFacts c) = 1%nat ∧ compacts full c.
Proof.
  pose proof mentioned_compacts as Hok. destruct mentioned as [full|]; [|discriminate Hok].
  destruct (ProjectJiraIssueGraphCompact full compact_options) as [c|] eqn:Hc; [|discriminate Hok]. apply Nat.eqb_eq in Hok.
  exists full, c. split; [reflexivity|]. split; [exact Hok|]. exact (GraphProjection.compact_exact full compact_options c Hc).
Defined.
(** A page number of 33 digits is taken from a text, but no node may have it. *)
Example long_page_refused : match commented_graph "pageId=111111111111111111111111111111111" with Err e => Is e ErrCheckFailed | Ok _ => false end = true.
Proof. vm_compute. reflexivity. Qed.
End GraphExample.
